(* ===== verification/_CoqProject ===== *)
-Q . S2P
Prelude.v
Spinlock.v
Heap.v
Proc.v
ProcInv.v
ProcThm.v
CString.v
Kalloc.v
Vm.v
VmThm.v
VmSpec.v
Pipe.v
Drive.v
Bio.v
Log.v
Blocks.v
Fs.v
FsThm.v
FsDir.v
FsSpec.v
File.v
FileThm.v
Sysfile.v
Trap.v
TrapThm.v
Seg.v
Entry.v
Hw.v
HwThm.v
Main.v
Exec.v
SysThm.v
ExecThm.v
ExecFs.v
ExecSpec.v
Mkfs.v
MkfsThm.v
MkfsSpec.v
Ide.v
IdeThm.v
Boot.v
BootThm.v
User.v
Console.v
ConsoleThm.v
Umalloc.v
UmallocThm.v
Progs.v
Grep.v
Shell.v
ShellThm.v
ShellRun.v
