(* ===== verification/Prelude.v ===== *)
(** * A verification of RT-xv6

    RT-xv6 is xv6 with a real-time scheduler: a small Unix kernel in C, its
    user programs and a shell. This library translates the C sources (under
    src/) into executable definitions and proves what the parts promise to
    each other and to their users.

    ** The program and its parts

    A process runs user code (sh.c and the other programs, on the library of
    ulib.c, printf.c and umalloc.c) and enters the kernel by a system call.
    The call takes its arguments from the memory of the process (syscall.c) and
    works on open files (sysfile.c, file.c), which are pipes (pipe.c), devices
    (console.c) or inodes of the file system (fs.c). The file system changes
    blocks inside transactions of the log (log.c), which goes through the buffer
    cache (bio.c) to the disk. Processes (proc.c) sleep and wake each other up,
    and those that are ready wait in a queue kept as a heap (heap.c). Their
    memory is page tables (vm.c) over pages of the allocator (kalloc.c), and
    exec.c fills it from a file. Spin locks (spinlock.c) keep all of that apart
    on several CPUs.

    Below that is the machine. A trap goes through the descriptor tables
    (mmu.h, seginit, tvinit) and the assembly of vectors.pl and trapasm.S to
    [trap] (trap.c), which serves system calls (sysproc.c), the clock and the
    devices; swtch.S changes from one stack to another. The interrupts come
    by the controllers of picirq.c, ioapic.c and lapic.c, ide.c drives the disk,
    mp.c finds the processors and main.c starts them. The kernel is put in
    memory by bootmain.c, and its first file system is made by mkfs.c.

    ** The files of the development

    This file has what the others share: C integers with their wrap-around,
    little-endian words, generic lemmas on lists and arithmetic, and the monad
    of kernel code. A kernel routine that works on a state [S] and returns an
    [A] is a function [S → outcome S A]: it is [Done], it [Slept] (gave up the
    CPU at a channel), it called [Panic], or it made a [Fault] (a null pointer,
    an index out of range, or a loop that used up its bound). [wp] and [wps]
    are the rules to reason about it, [kzoom] runs the code of a component on
    its part of a larger state, and the class [HasLocks] is what acquire and
    release mean to code that runs with a lock held.

    - Spinlock.v: spinlock.c, as sequences of atomic accesses of several CPUs.
    - Heap.v: heap.c and heap.h, both configurations of the ready queue.
    - Proc.v, ProcInv.v, ProcThm.v: proc.c; the invariant of the process table
      and its queue, and the theorems. Memory and files are the class [ProcEnv].
    - CString.v: string.c and the string routines of ulib.c, on a byte memory.
    - Kalloc.v: kalloc.c, the free list threaded through the free pages.
    - Vm.v, VmThm.v, VmSpec.v: the page tables of vm.c, as the words the
      hardware walks, related to the functions they stand for.
    - Pipe.v: pipe.c, readers and writers interleaved segment by segment.
    - Drive.v: an IDE drive as the class [Drive], with its documented behaviour
      as the class [DriveOk]; ide.c and bootmain.c are written against it.
    - Bio.v: bio.c with the disk of memide.c; Log.v: log.c on top of it;
      Blocks.v: the class [BlockLayer], what a transaction promises to fs.c,
      implemented by the log.
    - Fs.v, FsThm.v, FsDir.v, FsSpec.v: fs.c, over any [BlockLayer].
    - File.v, FileThm.v: file.c and pipealloc, over the file system in the log,
      the pipes and the page allocator.
    - Sysfile.v, SysThm.v: sysfile.c and the argument fetching of syscall.c.
    - Trap.v, TrapThm.v: trap.c, sysproc.c and the dispatch of syscall.c, over
      the process table.
    - Seg.v: the descriptors of mmu.h, seginit, switchuvm, switchkvm and
      kvmalloc of vm.c, tvinit and idtinit, with what the processor makes of a
      descriptor. Entry.v: vectors.pl, trapasm.S and swtch.S, over registers
      and stacks in memory.
    - Hw.v, HwThm.v: picirq.c, timer.c, ioapic.c, lapic.c and mp.c. The stores
      to devices are kept in order; what a device answers is a parameter, and
      what it makes of the stores is the specification. Main.v: startothers
      and entrypgdir of main.c.
    - Exec.v, ExecThm.v, ExecFs.v, ExecSpec.v: exec.c with loaduvm; the theorems
      are against the class [ProgramFs], which ExecFs.v implements.
    - Mkfs.v, MkfsThm.v, MkfsSpec.v: mkfs.c, whose image the theorems give to
      the model of fs.c.
    - Ide.v, IdeThm.v: ide.c. Boot.v, BootThm.v: bootmain.c.
    - User.v: user programs as trees of system calls, printf.c, gets and stat.
    - Console.v, ConsoleThm.v: console.c, kbd.c, kbd.h and uart.c.
    - Umalloc.v, UmallocThm.v: umalloc.c.
    - Progs.v, Grep.v: the user programs. Shell.v, ShellThm.v, ShellRun.v: sh.c.

    A file X.v has the data and the operations of a component, with the names
    they have in C; XThm.v, XSpec.v and the like have its theorems.

    ** What the theorems show

    - Locks and processes: every interleaving of acquire and release is a run
      of an abstract lock; the ready queue lists exactly the runnable processes
      in every reachable state; at most five ready processes are served by
      priority, and with six they need not be.
    - Storage: the cache refines a map of blocks; a crash at any point,
      recovery included, leaves the state of a transaction boundary; the inode
      cache refines counted references; a write reads back and touches no other
      file; names resolve as the directories say; a write through a descriptor
      survives a crash or is a part of itself.
    - Memory: pages are never handed out twice; address spaces grow, are copied
      and are given back without losing a page, as long as there are pages;
      exec replaces a program by one with aligned segments, or changes nothing.
    - System calls: arguments stay inside the process; the reference counts of
      the file table are exact at the end of every call, and where one first
      sleeps.
    - Traps: the clock interrupt preempts the process and wakes the sleepers; a
      process that was killed does not return to user mode; a process that
      calls sleep is back when its time has passed, and asleep until then; the
      entry code saves the registers in a struct trapframe and restores what is
      there; user code can only enter the kernel at a vector, on the stack of
      its process.
    - Machine: swtch goes on where the other context was left; an interrupt
      that was enabled reaches the CPU it was enabled for with the vector that
      trap.c expects, and no other does; mpinit counts the processors of the
      table; ide.c serves its queue in order, and each request moves the block
      it asked for; bootmain puts every segment of the kernel in memory; the
      kernel finds on the image of mkfs what was to be put there.
    - Pipes, console, user level: a pipe is a FIFO without lost wakeups; the
      console refines a terminal with a line editor and delivers the line that
      was typed; malloc keeps blocks of up to 2 GB apart and gets all memory back; grep
      prints the matching lines; the shell parses and runs what was typed.
    - Errors: the places where the code does not do what it means to, each
      with an execution that shows it (wrap-around in exec and malloc, a
      panic on a misaligned program, the log that is one block short, ...).

    ** Bounds

    A loop that is not structural takes a number of steps it may make. Where C
    has a bound (a table, a counter, the length of a buffer) the model uses
    that bound; otherwise the theorems say how many steps are enough and that
    the loop then ends: the size of the heap for [malloc] and [free], the
    length of a line for the parser of the shell, the amount of input for the
    programs that read until the end of a file. A loop that waits for a device
    ends if the device answers in time: [patience] readings for a drive, a
    number of readings in which the clock of cmostime stands still, one look
    for each entry of the processor table. Integers are [Z] and wrap
    around at their C width where they are stored or compared.

    ** Not modelled

    - bootasm.S, entry.S and entryother.S, which enter protected mode, turn on
      paging and set a stack pointer before C runs, and initcode.S, which is two
      system calls; the models begin with the C that they call.
    - main, mpenter and mpmain of main.c: they call the initialisation of each
      part, which is modelled with the part and on its own state; that these
      states are parts of one kernel is not.
    - The composition of [trap] with the calls of sysfile.c and the handlers of
      the devices: each has its model, on its own state, and is a parameter of
      [trap]. In the process model fork, exit and wait are single steps. The
      rest of a call of sysfile.c that slept is not modelled.
    - Of x86.h, the wrappers that read registers or touch ports: the ports are
      the interface of the models of the devices, and xchg, cli and sti are
      steps of the model of the locks.
    - The devices and the processor, which are not sources: parameters with
      their documented behaviour. Errors that a drive reports are outside of
      [DriveOk]; the code handles them as Ide.v says, without a theorem.
    - The declarations of defs.h, the build scripts and
      documentation. *)

From stdpp Require Export base list strings gmap numbers.
From Stdlib Require Export Lia.

(** ** Machine integers

    C integers are kept as [Z]; the wrap-around of each width is explicit. *)

Definition u8 (z : Z) : Z := z mod 2 ^ 8.
Definition u16 (z : Z) : Z := z mod 2 ^ 16.
Definition u32 (z : Z) : Z := z mod 2 ^ 32.
Definition u64 (z : Z) : Z := z mod 2 ^ 64.

(** Conversion to a signed 32-bit [int] (two's complement). *)
Definition i32 (z : Z) : Z := (z + 2 ^ 31) mod 2 ^ 32 - 2 ^ 31.

(** Conversion to a signed 16-bit [short]. *)
Definition i16 (z : Z) : Z := (z + 2 ^ 15) mod 2 ^ 16 - 2 ^ 15.

(** ** Little-endian words in byte arrays *)

Definition byte_at (l : list Z) (i : nat) : Z := default 0%Z (l !! i).

Definition get16 (l : list Z) (i : nat) : Z := (byte_at l i + byte_at l (i + 1) * 2 ^ 8)%Z.

Definition put16 (l : list Z) (i : nat) (w : Z) : list Z :=
  <[i + 1 := u8 (w / 2 ^ 8)]> (<[i := u8 w]> l).

Definition get32 (l : list Z) (i : nat) : Z :=
  (byte_at l i + byte_at l (i + 1) * 2 ^ 8 + byte_at l (i + 2) * 2 ^ 16 + byte_at l (i + 3) * 2 ^ 24)%Z.

Definition put32 (l : list Z) (i : nat) (w : Z) : list Z :=
  <[i + 3 := u8 (w / 2 ^ 24)]> (<[i + 2 := u8 (w / 2 ^ 16)]> (<[i + 1 := u8 (w / 2 ^ 8)]> (<[i := u8 w]> l))).

Lemma testbit_u8 z k : (0 ≤ k < 8)%Z → Z.testbit (u8 z) k = Z.testbit z k.
Proof. intros Hk. unfold u8. by rewrite Z.mod_pow2_bits_low by lia. Qed.

Lemma byte_at_insert l i j b :
  i < length l → byte_at (<[i := b]> l) j = if decide (j = i) then b else byte_at l j.
Proof.
  intros Hi. unfold byte_at. case_decide as Hj.
  - subst j. by rewrite list_lookup_insert_eq.
  - by rewrite list_lookup_insert_ne.
Qed.

Lemma length_put16 l i w : length (put16 l i w) = length l.
Proof. unfold put16. by rewrite !length_insert. Qed.
Lemma length_put32 l i w : length (put32 l i w) = length l.
Proof. unfold put32. by rewrite !length_insert. Qed.

Lemma byte_at_put16 l i w j :
  i + 2 ≤ length l →
  byte_at (put16 l i w) j =
  if decide (j = i) then u8 w else if decide (j = i + 1) then u8 (w / 2 ^ 8) else byte_at l j.
Proof.
  intros Hi. unfold put16. rewrite !byte_at_insert by (rewrite ?length_insert; lia).
  repeat case_decide; done || lia.
Qed.

Lemma byte_at_put32 l i w j :
  i + 4 ≤ length l →
  byte_at (put32 l i w) j =
  if decide (j = i) then u8 w else if decide (j = i + 1) then u8 (w / 2 ^ 8)
  else if decide (j = i + 2) then u8 (w / 2 ^ 16)
  else if decide (j = i + 3) then u8 (w / 2 ^ 24) else byte_at l j.
Proof.
  intros Hi. unfold put32. rewrite !byte_at_insert by (rewrite ?length_insert; lia).
  repeat case_decide; done || lia.
Qed.

(** Four bytes make up a word. *)
Lemma le32_join w :
  (u8 w + u8 (w / 2 ^ 8) * 2 ^ 8 + u8 (w / 2 ^ 16) * 2 ^ 16 + u8 (w / 2 ^ 24) * 2 ^ 24)%Z = u32 w.
Proof.
  unfold u8, u32.
  change (2 ^ 8)%Z with 256%Z. change (2 ^ 16)%Z with 65536%Z. change (2 ^ 24)%Z with 16777216%Z.
  change (2 ^ 32)%Z with 4294967296%Z.
  pose proof (Z.div_mod w 256). pose proof (Z.div_mod (w / 256) 256).
  pose proof (Z.div_mod (w / 65536) 256). pose proof (Z.div_mod (w / 16777216) 256).
  rewrite (Z.div_div w 256 256) in * by lia. change (256 * 256)%Z with 65536%Z in *.
  rewrite (Z.div_div w 65536 256) in * by lia. change (65536 * 256)%Z with 16777216%Z in *.
  rewrite (Z.div_div w 16777216 256) in * by lia. change (16777216 * 256)%Z with 4294967296%Z in *.
  pose proof (Z.div_mod w 4294967296). lia.
Qed.

Lemma get_put32 l i w : i + 4 ≤ length l → get32 (put32 l i w) i = u32 w.
Proof.
  intros Hi. unfold get32. rewrite !byte_at_put32 by done. repeat case_decide; try lia. apply le32_join.
Qed.

Lemma get_put32_ne l i j w :
  i + 4 ≤ length l → j + 4 ≤ i ∨ i + 4 ≤ j → get32 (put32 l i w) j = get32 l j.
Proof.
  intros Hi Hj. unfold get32. rewrite !byte_at_put32 by done. repeat case_decide; lia.
Qed.

Lemma get_put16 l i w : i + 2 ≤ length l → get16 (put16 l i w) i = u16 w.
Proof.
  intros Hi. unfold get16. rewrite !byte_at_put16 by done. repeat case_decide; try lia.
  unfold u8, u16. change (2 ^ 8)%Z with 256%Z. change (2 ^ 16)%Z with 65536%Z.
  pose proof (Z.div_mod w 256). pose proof (Z.div_mod (w / 256) 256).
  rewrite (Z.div_div w 256 256) in * by lia. change (256 * 256)%Z with 65536%Z in *.
  pose proof (Z.div_mod w 65536). lia.
Qed.

Lemma get_put16_ne l i j w :
  i + 2 ≤ length l → j + 2 ≤ i ∨ i + 2 ≤ j → get16 (put16 l i w) j = get16 l j.
Proof.
  intros Hi Hj. unfold get16. rewrite !byte_at_put16 by done. repeat case_decide; lia.
Qed.

Lemma u32_range z : (0 ≤ u32 z < 2 ^ 32)%Z.
Proof. apply Z.mod_pos_bound. lia. Qed.

Lemma u32_small z : (0 ≤ z < 2 ^ 32)%Z → u32 z = z.
Proof. apply Z.mod_small. Qed.

(** A ring whose size divides 2^32: the slot of a counter survives its
    wrap-around, and counters that are near are told apart. *)
Lemma u32_slot n z k : (0 < n)%Z → (n | 2 ^ 32)%Z → ((u32 z + k) mod n = (z + k) mod n)%Z.
Proof.
  intros Hn Hd. unfold u32. rewrite (Z.add_mod (z mod 2 ^ 32)), (Z.add_mod z) by lia. by rewrite Z.mod_mod_divide.
Qed.

Lemma u32_inj_near a b c : (0 ≤ b < 2 ^ 31 → 0 ≤ c < 2 ^ 31 → u32 (a + b) = u32 (a + c) → b = c)%Z.
Proof.
  unfold u32. intros Hb Hc He. pose proof (Z.div_mod (a + b) (2 ^ 32) ltac:(lia)).
  pose proof (Z.div_mod (a + c) (2 ^ 32) ltac:(lia)). rewrite He in *.
  assert ((a + b) / 2 ^ 32 = (a + c) / 2 ^ 32)%Z; lia.
Qed.

Lemma mod_near n r j k : (0 ≤ j < k → k < n → (r + j) mod n ≠ (r + k) mod n)%Z.
Proof.
  intros Hj Hk He. pose proof (Z.div_mod (r + j) n ltac:(lia)). pose proof (Z.div_mod (r + k) n ltac:(lia)).
  rewrite He in *. assert ((r + k) / n - (r + j) / n = 0 ∨ 1 ≤ (r + k) / n - (r + j) / n ∨ (r + k) / n - (r + j) / n ≤ -1)%Z by lia. nia.
Qed.

Lemma u32_add a b : u32 (u32 a + b) = u32 (a + b).
Proof. unfold u32. by rewrite Zplus_mod_idemp_l. Qed.

Lemma u32_diff a b : u32 (u32 a - u32 b) = u32 (a - b).
Proof. unfold u32. by rewrite Zminus_mod_idemp_l, Zminus_mod_idemp_r. Qed.

Lemma i32_id z : (-2 ^ 31 ≤ z < 2 ^ 31)%Z → i32 (u32 z) = z.
Proof.
  intros Hz. unfold i32, u32. rewrite Zplus_mod_idemp_l, Z.mod_small; lia.
Qed.

(** ** Functions updated at a point *)

Definition upd {A} `{EqDecision A} {B} (f : A → B) (a : A) (b : B) : A → B :=
  λ x, if decide (x = a) then b else f x.

Lemma upd_eq {A} `{EqDecision A} {B} (f : A → B) a b : upd f a b a = b.
Proof. unfold upd. by rewrite decide_True. Qed.
Lemma upd_ne {A} `{EqDecision A} {B} (f : A → B) a b x : x ≠ a → upd f a b x = f x.
Proof. intros. unfold upd. by rewrite decide_False. Qed.

(** ** The kernel monad

    A C function that reads and writes kernel state is a state transformer
    with four outcomes: it returns; it calls [sleep] and gives up the CPU; it
    calls [panic]; or it does something C leaves undefined (a null or
    out-of-range access). *)

Declare Scope kern_scope.
Delimit Scope kern_scope with kern.

(** What a process sleeps on: the address of a kernel object. *)
Inductive chan :=
| CProc (p : nat)        (* &ptable.proc[p] *)
| CTicks                 (* &ticks *)
| CLog                   (* &log *)
| CBuf (b : nat)         (* &bcache.buf[b] *)
| CInode (i : nat)       (* &icache.inode[i] *)
| CPipeRead (p : Z)      (* &p->nread *)
| CPipeWrite (p : Z)     (* &p->nwrite *)
| CInput.                (* &input.r *)

#[export] Instance chan_eq_dec : EqDecision chan.
Proof. solve_decision. Defined.

(** The spin locks of the kernel, one constructor per [struct spinlock]. *)
Inductive lock :=
| LPtable | LTicks | LLog | LBcache | LIcache | LFtable | LKmem | LIde
| LCons | LInput | LPipe (p : Z).

#[export] Instance lock_eq_dec : EqDecision lock.
Proof. solve_decision. Defined.

Inductive outcome (S A : Type) :=
| Done (a : A) (s : S)
| Slept (c : chan) (s : S)
| Panic (msg : string)
| Fault.
Arguments Done {S A} a s.
Arguments Slept {S A} c s.
Arguments Panic {S A} msg.
Arguments Fault {S A}.

Definition kM (S A : Type) : Type := S → outcome S A.

Definition kret {S A} (a : A) : kM S A := λ s, Done a s.

Definition kbind {S A B} (m : kM S A) (k : A → kM S B) : kM S B := λ s,
  match m s with
  | Done a s' => k a s'
  | Slept c s' => Slept c s'
  | Panic msg => Panic msg
  | Fault => Fault
  end.

Notation "x ← y ; z" := (kbind y (λ x, z)) : kern_scope.
Notation "' x ← y ; z" := (kbind y (λ v, let 'x := v in z)) : kern_scope.
Notation "x ;; z" := (kbind x (λ _, z)) : kern_scope.

Definition kget {S} : kM S S := λ s, Done s s.
Definition kgets {S A} (f : S → A) : kM S A := λ s, Done (f s) s.
Definition kput {S} (s : S) : kM S unit := λ _, Done tt s.
Definition kmodify {S} (f : S → S) : kM S unit := λ s, Done tt (f s).
Definition kpanic {S A} (msg : string) : kM S A := λ _, Panic msg.
Definition kfault {S A} : kM S A := λ _, Fault.
Definition ksleep {S A} (c : chan) : kM S A := λ s, Slept c s.

(** [if(!b) panic(msg);] *)
Definition kassert {S} (b : bool) (msg : string) : kM S unit :=
  if b then kret tt else kpanic msg.

(** Reading an optional cell: undefined behaviour when it is not there. *)
Definition kunwrap {S A} (o : option A) : kM S A :=
  match o with Some a => kret a | None => kfault end.

Definition kwhen {S} (b : bool) (m : kM S unit) : kM S unit :=
  if b then m else kret tt.

(** [for(x in l) body], in order. *)
Fixpoint kfor {S A} (l : list A) (body : A → kM S unit) : kM S unit :=
  match l with
  | [] => kret tt
  | x :: l' => kbind (body x) (λ _, kfor l' body)
  end.

(** The longest prefix on which [f] holds. *)
Fixpoint take_while {A} (f : A → bool) (l : list A) : list A :=
  match l with
  | [] => []
  | x :: l => if f x then x :: take_while f l else []
  end.

(** Running a component's operation on the part of a larger state it owns. *)
Record lens (S T : Type) := Lens { lview : S → T; lset : T → S → S }.
Arguments Lens {S T}.
Arguments lview {S T}.
Arguments lset {S T}.

Definition kzoom {S T A} (l : lens S T) (m : kM T A) : kM S A := λ s,
  match m (lview l s) with
  | Done a t => Done a (lset l t s)
  | Slept c t => Slept c (lset l t s)
  | Panic msg => Panic msg
  | Fault => Fault
  end.

(** ** Total-correctness weakest preconditions *)

(** [m] returns normally from [s], with a result and state in [Q]. *)
Definition wp {S A} (m : kM S A) (s : S) (Q : A → S → Prop) : Prop :=
  match m s with Done a s' => Q a s' | _ => False end.

(** [m] may also go to sleep, in a state of [R]. It neither panics nor does
    anything undefined. *)
Definition wps {S A} (m : kM S A) (s : S) (Q : A → S → Prop) (R : chan → S → Prop) : Prop :=
  match m s with Done a s' => Q a s' | Slept c s' => R c s' | _ => False end.

Section wp.
Context {S : Type}.
Implicit Types s : S.

Lemma wp_done {A} (m : kM S A) s Q :
  wp m s Q ↔ ∃ a s', m s = Done a s' ∧ Q a s'.
Proof.
  unfold wp. split.
  - destruct (m s); [eauto|done..].
  - by intros (a & s' & -> & ?).
Qed.

Lemma wp_bind {A B} (m : kM S A) (k : A → kM S B) s Q :
  wp m s (λ a s', wp (k a) s' Q) → wp (kbind m k) s Q.
Proof. unfold wp, kbind. by destruct (m s). Qed.

Lemma wp_ret {A} (a : A) s (Q : A → S → Prop) : Q a s → wp (kret a) s Q.
Proof. done. Qed.

Lemma wp_mono {A} (m : kM S A) s (Q Q' : A → S → Prop) :
  wp m s Q → (∀ a s', Q a s' → Q' a s') → wp m s Q'.
Proof. unfold wp. destruct (m s); auto. Qed.

Lemma wp_get s (Q : S → S → Prop) : Q s s → wp kget s Q.
Proof. done. Qed.

Lemma wp_gets {A} (f : S → A) s (Q : A → S → Prop) : Q (f s) s → wp (kgets f) s Q.
Proof. done. Qed.

Lemma wp_put s s' (Q : unit → S → Prop) : Q tt s' → wp (kput s') s Q.
Proof. done. Qed.

Lemma wp_modify (f : S → S) s (Q : unit → S → Prop) : Q tt (f s) → wp (kmodify f) s Q.
Proof. done. Qed.

Lemma wp_assert b msg s (Q : unit → S → Prop) :
  b = true → Q tt s → wp (kassert b msg) s Q.
Proof. by intros ->. Qed.

Lemma wp_unwrap {A} (o : option A) a s (Q : A → S → Prop) :
  o = Some a → Q a s → wp (kunwrap o) s Q.
Proof. by intros ->. Qed.

Lemma wp_when b (m : kM S unit) s (Q : unit → S → Prop) :
  (b = true → wp m s Q) → (b = false → Q tt s) → wp (kwhen b m) s Q.
Proof. destruct b; simpl; [intros H _; by apply H | intros _ H; by apply H]. Qed.

(** The loop rule: an invariant indexed by what is left to visit. *)
Lemma wp_for {A} (I : list A → S → Prop) (l : list A) body s (Q : unit → S → Prop) :
  I l s →
  (∀ x l' s', I (x :: l') s' → wp (body x) s' (λ _, I l')) →
  (∀ s', I [] s' → Q tt s') →
  wp (kfor l body) s Q.
Proof.
  intros HI Hbody HQ. revert s HI.
  induction l as [|x l IH]; intros s HI; simpl; [by apply HQ|].
  apply wp_bind. eapply wp_mono; [by apply Hbody|]. auto.
Qed.

(** As [wp_for], for an invariant that also says where in [l] the loop is. *)
Lemma wp_for_split {A} (I : list A → S → Prop) (l : list A) body s (Q : unit → S → Prop) :
  I [] s →
  (∀ pre x post s', l = pre ++ x :: post → I pre s' → wp (body x) s' (λ _, I (pre ++ [x]))) →
  (∀ s', I l s' → Q tt s') →
  wp (kfor l body) s Q.
Proof.
  intros HI Hbody HQ.
  apply (wp_for (λ post s', ∃ pre, l = pre ++ post ∧ I pre s')).
  - by exists [].
  - intros x post s' (pre & Hl & Hpre). eapply wp_mono; [by eapply Hbody|].
    intros ? s'' HI''. exists (pre ++ [x]). by rewrite <-app_assoc.
  - intros s' (pre & Hl & Hpre). apply HQ. by rewrite Hl, app_nil_r.
Qed.

Lemma wp_zoom {T A} (l : lens S T) (m : kM T A) s (Q : A → S → Prop) :
  wp m (lview l s) (λ a t, Q a (lset l t s)) → wp (kzoom l m) s Q.
Proof. unfold wp, kzoom. by destruct (m (lview l s)). Qed.

Lemma wps_of_wp {A} (m : kM S A) s Q R : wp m s Q → wps m s Q R.
Proof. unfold wp, wps. by destruct (m s). Qed.

Lemma wps_bind {A B} (m : kM S A) (k : A → kM S B) s Q R :
  wps m s (λ a s', wps (k a) s' Q R) R → wps (kbind m k) s Q R.
Proof. unfold wps, kbind. by destruct (m s). Qed.

Lemma wps_mono {A} (m : kM S A) s (Q Q' : A → S → Prop) (R R' : chan → S → Prop) :
  wps m s Q R → (∀ a s', Q a s' → Q' a s') → (∀ c s', R c s' → R' c s') → wps m s Q' R'.
Proof. unfold wps. destruct (m s); naive_solver. Qed.
End wp.

(** Monad laws, pointwise. *)
Lemma kbind_ret_l {S A B} (a : A) (k : A → kM S B) s : kbind (kret a) k s = k a s.
Proof. done. Qed.
Lemma kbind_ret_r {S A} (m : kM S A) s : kbind m kret s = m s.
Proof. unfold kbind, kret. by destruct (m s). Qed.
Lemma kbind_assoc {S A B C} (m : kM S A) (k : A → kM S B) (h : B → kM S C) s :
  kbind (kbind m k) h s = kbind m (λ a, kbind (k a) h) s.
Proof. unfold kbind. by destruct (m s). Qed.

Lemma wp_assoc {S A B C} (m : kM S A) (k : A → kM S B) (h : B → kM S C) s Q :
  wp (kbind m (λ a, kbind (k a) h)) s Q ↔ wp (kbind (kbind m k) h) s Q.
Proof. unfold wp. by rewrite kbind_assoc. Qed.

Lemma kbind_done {S A B} (m : kM S A) (k : A → kM S B) s a s' :
  m s = Done a s' → kbind m k s = k a s'.
Proof. unfold kbind. by intros ->. Qed.

Lemma kbind_fault {S A B} (m : kM S A) (k : A → kM S B) s :
  m s = Fault → kbind m k s = Fault.
Proof. unfold kbind. by intros ->. Qed.

(** ** Spin locks, abstractly

    The lock context of the running CPU is the list of locks it holds:
    [acquire] of a lock already held panics, as does [release] of one that is
    not. Spinlock.v derives this interface from the code of spinlock.c. *)

Class HasLocks (S : Type) := {
  held : S → list lock;
  set_held : list lock → S → S;
  held_set h s : held (set_held h s) = h;
  set_held_held s : set_held (held s) s = s;
  set_held_set h h' s : set_held h (set_held h' s) = set_held h s;
}.

Section locks.
Context {S : Type} `{HasLocks S}.

Definition acquire (lk : lock) : kM S unit := λ s,
  if decide (lk ∈ held s) then Panic "acquire" else Done tt (set_held (lk :: held s) s).

Definition release (lk : lock) : kM S unit := λ s,
  if decide (lk ∈ held s)
  then Done tt (set_held (filter (λ l, l ≠ lk) (held s)) s)
  else Panic "release".

(** [sleep(chan, lk)] up to the context switch: take ptable.lock, drop [lk],
    and enter [sched], which insists that ptable.lock is the only lock held.
    The scheduler releases it for the sleeping process. *)
Definition give_up_cpu (lk : lock) : kM S unit :=
  (kwhen (bool_decide (lk ≠ LPtable)) (acquire LPtable ;; release lk) ;;
   h ← kgets held;
   kassert (bool_decide (LPtable ∈ h)) "sched ptable.lock" ;;
   kassert (bool_decide (length h = 1)) "sched locks" ;;
   kmodify (set_held []))%kern.

Definition sleep {A} (c : chan) (lk : lock) : kM S A := (give_up_cpu lk ;; ksleep c)%kern.

Lemma acquire_free lk s : lk ∉ held s → acquire lk s = Done tt (set_held (lk :: held s) s).
Proof. intros. unfold acquire. by rewrite decide_False. Qed.

Lemma acquire_held lk s : lk ∈ held s → acquire lk s = Panic "acquire".
Proof. intros. unfold acquire. by rewrite decide_True. Qed.

Lemma filter_ne_notin (lk : lock) (h : list lock) : lk ∉ h → filter (λ l, l ≠ lk) h = h.
Proof.
  induction h as [|x h IH]; [done|]. intros [? ?]%not_elem_of_cons.
  rewrite filter_cons_True by done. by rewrite IH.
Qed.

Lemma release_top lk h s :
  held s = lk :: h → lk ∉ h → release lk s = Done tt (set_held h s).
Proof.
  intros Hh Hlk. unfold release. rewrite Hh, decide_True by constructor.
  rewrite filter_cons_False by auto. by rewrite filter_ne_notin.
Qed.

Lemma give_up_cpu_done lk s : held s = [lk] → give_up_cpu lk s = Done tt (set_held [] s).
Proof.
  intros Hh. unfold give_up_cpu, kbind, kwhen.
  destruct (decide (lk = LPtable)) as [->|Hne].
  - rewrite bool_decide_false by auto. simpl. unfold kgets. rewrite Hh.
    rewrite bool_decide_true by constructor. done.
  - rewrite bool_decide_true by done. simpl.
    rewrite acquire_free by (rewrite Hh; set_solver).
    unfold release. rewrite held_set, Hh, decide_True by set_solver.
    rewrite filter_cons_True, filter_cons_False by auto.
    unfold kgets. rewrite filter_nil, held_set. simpl.
    unfold kmodify. by rewrite !set_held_set.
Qed.

Lemma sleep_holding {A} c lk s :
  held s = [lk] → sleep (A:=A) c lk s = Slept c (set_held [] s).
Proof. intros Hh. unfold sleep. by rewrite (kbind_done _ _ _ _ _ (give_up_cpu_done lk s Hh)). Qed.
End locks.

(** ** Safety triples

    [hoare P m Q R]: from a state of [P], [m] returns in [Q] or goes to sleep in
    [R], if it does not panic. *)

Definition hoare {S A} (P : S → Prop) (m : kM S A) (Q : A → S → Prop) (R : S → Prop) : Prop :=
  ∀ s, P s → match m s with Done a s' => Q a s' | Slept _ s' => R s' | _ => True end.

(** [I] holds again when [m] returns or sleeps. *)
Definition pres {S A} (I : S → Prop) (m : kM S A) : Prop := hoare I m (λ _, I) I.

Section hoare.
Context {S : Type}.
Implicit Types (P I R : S → Prop).

Lemma hoare_bind {A B} P (m : kM S A) (k : A → kM S B) Q Q' R :
  hoare P m Q R → (∀ a, hoare (Q a) (k a) Q' R) → hoare P (kbind m k) Q' R.
Proof. intros Hm Hk s Hs. specialize (Hm s Hs). unfold kbind. destruct (m s); try done. by apply Hk. Qed.

Lemma hoare_ret {A} P (a : A) (Q : A → S → Prop) R : (∀ s, P s → Q a s) → hoare P (kret a) Q R.
Proof. intros H s Hs. by apply H. Qed.

Lemma hoare_modify P (f : S → S) (Q : unit → S → Prop) R : (∀ s, P s → Q tt (f s)) → hoare P (kmodify f) Q R.
Proof. intros H s Hs. by apply H. Qed.

Lemma hoare_weaken {A} P P' (m : kM S A) Q Q' R R' :
  hoare P m Q R → (∀ s, P' s → P s) → (∀ a s, Q a s → Q' a s) → (∀ s, R s → R' s) → hoare P' m Q' R'.
Proof. intros Hm HP HQ HR s Hs. specialize (Hm s (HP s Hs)). destruct (m s); auto. Qed.

Lemma hoare_pre {A} P P' (m : kM S A) Q R : hoare P m Q R → (∀ s, P' s → P s) → hoare P' m Q R.
Proof. intros Hm HP s Hs. by apply Hm, HP. Qed.

Lemma hoare_fact {A} P (φ : Prop) (m : kM S A) Q R : (φ → hoare P m Q R) → hoare (λ s, P s ∧ φ) m Q R.
Proof. intros H s [Hs Hφ]. by apply H. Qed.

Lemma hoare_ex {A X} (P : X → S → Prop) (m : kM S A) Q R :
  (∀ x, hoare (P x) m Q R) → hoare (λ s, ∃ x, P x s) m Q R.
Proof. intros H s [x Hx]. by apply (H x). Qed.

Lemma hoare_assert b msg P R : hoare P (kassert b msg) (λ _ s, P s ∧ b = true) R.
Proof. intros s Hs. by destruct b. Qed.

Lemma pres_bind {A B} I (m : kM S A) (k : A → kM S B) : pres I m → (∀ a, pres I (k a)) → pres I (kbind m k).
Proof. apply hoare_bind. Qed.

Lemma pres_ret {A} I (a : A) : pres I (kret a).
Proof. by apply hoare_ret. Qed.

(** Code that does not change the state. *)
Definition reads {A} (m : kM S A) : Prop := ∀ s, match m s with Done _ s' | Slept _ s' => s' = s | _ => True end.

Lemma pres_reads {A} I (m : kM S A) : reads m → pres I m.
Proof. intros Hm s Hs. specialize (Hm s). destruct (m s); by subst. Qed.

Lemma reads_get : reads kget.
Proof. by intros s. Qed.
Lemma reads_gets {A} (f : S → A) : reads (kgets f).
Proof. by intros s. Qed.
Lemma reads_unwrap {A} (o : option A) : reads (kunwrap o).
Proof. by destruct o; intros s. Qed.
Lemma reads_assert b msg : reads (kassert b msg).
Proof. by destruct b; intros s. Qed.
Lemma reads_panic {A} msg : reads (kpanic (A:=A) msg).
Proof. by intros s. Qed.
Lemma reads_fault {A} : reads (kfault (A:=A)).
Proof. by intros s. Qed.
Lemma reads_sleep {A} c : reads (ksleep (A:=A) c).
Proof. by intros s. Qed.

Lemma pres_modify I (f : S → S) : (∀ s, I s → I (f s)) → pres I (kmodify f).
Proof. intros H s Hs. by apply H. Qed.

Lemma pres_when I b (m : kM S unit) : pres I m → pres I (kwhen b m).
Proof. destruct b; [done|intros _; apply pres_ret]. Qed.

Lemma pres_zoom {T A} (l : lens S T) I (J : T → Prop) (m : kM T A) :
  pres J m → (∀ s, I s → J (lview l s)) → (∀ s t, I s → J t → I (lset l t s)) → pres I (kzoom l m).
Proof.
  intros Hm HI HJ s Hs. specialize (Hm _ (HI s Hs)). unfold kzoom. destruct (m (lview l s)); auto.
Qed.

(** Code that never sleeps. *)
Definition awake {A} (m : kM S A) : Prop := ∀ s, match m s with Slept _ _ => False | _ => True end.

Lemma awake_bind {A B} (m : kM S A) (k : A → kM S B) : awake m → (∀ a, awake (k a)) → awake (kbind m k).
Proof. intros Hm Hk s. specialize (Hm s). unfold kbind. destruct (m s); try done. apply Hk. Qed.

Lemma awake_zoom {T A} (l : lens T S) (m : kM S A) s :
  awake m → match kzoom l m s with Slept _ _ => False | _ => True end.
Proof. intros Hm. specialize (Hm (lview l s)). unfold kzoom. by destruct (m (lview l s)). Qed.

Lemma hoare_awake {A} I (m : kM S A) R : pres I m → awake m → hoare I m (λ _, I) R.
Proof. intros Hp Ha s Hs. specialize (Hp s Hs). specialize (Ha s). by destruct (m s). Qed.

Lemma awake_when b (m : kM S unit) : awake m → awake (kwhen b m).
Proof. by destruct b. Qed.
Lemma awake_ret {A} (a : A) : awake (kret a).
Proof. by intros s. Qed.
Lemma awake_get : awake kget.
Proof. by intros s. Qed.
Lemma awake_modify (f : S → S) : awake (kmodify f).
Proof. by intros s. Qed.
Lemma awake_unwrap {A} (o : option A) : awake (kunwrap o).
Proof. by destruct o; intros s. Qed.
Lemma awake_assert b msg : awake (kassert b msg).
Proof. by destruct b; intros s. Qed.
End hoare.

Lemma awake_acquire {S} `{HasLocks S} lk : awake (acquire lk).
Proof. intros s. unfold acquire. by case_decide. Qed.
Lemma awake_release {S} `{HasLocks S} lk : awake (release lk).
Proof. intros s. unfold release. by case_decide. Qed.

Create HintDb awake.
#[export] Hint Resolve awake_ret awake_get awake_modify awake_unwrap awake_assert awake_acquire awake_release : awake.
Ltac awake_go := repeat
  lazymatch goal with
  | |- awake (kbind _ _) => apply awake_bind; [|intros ?]
  | |- awake (kwhen _ _) => apply awake_when
  | |- awake (match ?x with _ => _ end) => destruct x
  | |- awake _ => solve [auto 3 with awake]
  end.

Lemma pres_acquire {S} `{HasLocks S} (I : S → Prop) lk :
  (∀ h s, I s → I (set_held h s)) → pres I (acquire lk).
Proof. intros HI s Hs. unfold acquire. case_decide; [done|by apply HI]. Qed.

Lemma pres_release {S} `{HasLocks S} (I : S → Prop) lk :
  (∀ h s, I s → I (set_held h s)) → pres I (release lk).
Proof. intros HI s Hs. unfold release. case_decide; [by apply HI|done]. Qed.

Create HintDb pres.
#[export] Hint Resolve pres_ret reads_get reads_gets reads_unwrap reads_assert reads_panic reads_fault reads_sleep : pres.
#[export] Hint Extern 3 (pres _ _) => apply pres_reads : pres.

(** Walking through a function that preserves an invariant: every branch, down
    to calls the database knows. *)
Ltac pres_step :=
  lazymatch goal with
  | |- pres _ (kbind _ _) => first [solve [auto 1 with pres]|apply pres_bind; [|intros ?]]
  | |- pres _ (kwhen _ _) => apply pres_when
  | |- pres _ (match ?x with _ => _ end) => destruct x
  | |- pres _ (let _ := _ in _) => cbv zeta
  | |- pres _ _ => solve [auto 3 with pres]
  | |- hoare ?I ?m _ _ => change (pres I m)
  end.
Ltac pres_go := repeat pres_step.

Create HintDb kern.
#[export] Hint Resolve wp_ret wp_get wp_put : kern.

(** Symbolic execution of monadic code: one step of [wp]. *)
Ltac wp_step :=
  lazymatch goal with
  | |- wp (kbind _ _) _ _ => apply wp_bind
  | |- wp (kret _) _ _ => apply wp_ret
  | |- wp kget _ _ => apply wp_get
  | |- wp (kgets _) _ _ => apply wp_gets
  | |- wp (kput _) _ _ => apply wp_put
  | |- wp (kmodify _) _ _ => apply wp_modify
  | |- wp (if ?b then _ else _) _ _ => destruct b eqn:?
  end.
Ltac wp_go := repeat (wp_step; simpl).
