(* ===== verification/Spinlock.v ===== *)
(** * Spin locks (spinlock.c, spinlock.h)

    [pushcli]/[popcli], [acquire], [release] and [holding] on a machine of
    several CPUs. The operations run as sequences of the atomic accesses the C
    code makes (a load, a store, an [xchg]), interleaved arbitrarily. Theorems:
    mutual exclusion and the absence of false panics in every interleaving,
    interrupts off while a lock is held or taken, and a simulation of the
    abstract locks of the prelude, which the other components use. *)

From S2P Require Import Prelude.

(** ** Data *)

Record spinlock := Spinlock {
  locked : Z;          (* the word xchg works on *)
  lcpu : option nat;   (* the CPU holding the lock, for debugging *)
  pcs : list Z;        (* the call stack that locked it *)
}.

(** What spinlock.c uses of [struct cpu], and the interrupt flag. *)
Record cpu := Cpu {
  ncli : Z;            (* depth of pushcli nesting *)
  intena : bool;       (* were interrupts enabled before pushcli? *)
  eflags_if : bool;    (* FL_IF of the eflags register *)
}.

Definition initlock (lk : spinlock) : spinlock := Spinlock 0 None (pcs lk).

(** ** Interrupt nesting *)

Definition pushcli (c : cpu) : cpu :=
  {| ncli := i32 (ncli c + 1);
     intena := if bool_decide (ncli c = 0)%Z then eflags_if c else intena c;
     eflags_if := false |}.

(** [inl] of a panic message, or the new state. *)
Definition popcli (c : cpu) : string + cpu :=
  if eflags_if c then inl "popcli - interruptible"
  else
    let n := i32 (ncli c - 1) in
    if bool_decide (n < 0)%Z then inl "popcli"
    else inr (Cpu n (intena c) (bool_decide (n = 0)%Z && intena c)).

(** ** The call stack *)

Definition KERNBASE : Z := 0x80000000.

(** [getcallerpcs]: follow the saved %ebp chain from the argument at [v]. [mem]
    reads a word of memory. *)
Fixpoint walk_stack (mem : Z → Z) (ebp : Z) (n : nat) : list Z :=
  match n with
  | O => []
  | S n =>
    if bool_decide (ebp = 0 ∨ ebp < KERNBASE ∨ ebp = 0xffffffff)%Z then []
    else mem (u32 (ebp + 4)) :: walk_stack mem (mem ebp) n
  end.

Definition getcallerpcs (mem : Z → Z) (v : Z) : list Z :=
  let l := walk_stack mem (u32 (v - 8)) 10 in l ++ replicate (10 - length l) 0%Z.

(** ** The machine *)

(** Where a CPU is inside [acquire] or [release]. *)
Inductive pc :=
| Idle                    (* outside spinlock.c *)
| AcqLoad (lk : lock)     (* holding(): load lk->locked *)
| AcqCpu (lk : lock)      (* holding(): load lk->cpu *)
| AcqXchg (lk : lock)     (* while(xchg(&lk->locked, 1) != 0) *)
| AcqRecord (lk : lock)   (* lk->cpu = cpu; getcallerpcs *)
| RelLoad (lk : lock)
| RelCpu (lk : lock)
| RelClear (lk : lock)    (* lk->pcs[0] = 0; lk->cpu = 0 *)
| RelXchg (lk : lock)     (* xchg(&lk->locked, 0) *)
| RelPop                  (* popcli() *)
| Panicked (msg : string).

Record machine := Machine {
  locks : lock → spinlock;
  cpus : nat → cpu;
  at_pc : nat → pc;
}.

Definition set_pc (i : nat) (p : pc) (m : machine) : machine :=
  Machine (locks m) (cpus m) (upd (at_pc m) i p).
Definition set_lock (lk : lock) (l : spinlock) (m : machine) : machine :=
  Machine (upd (locks m) lk l) (cpus m) (at_pc m).
Definition set_cpu (i : nat) (c : cpu) (m : machine) : machine :=
  Machine (locks m) (upd (cpus m) i c) (at_pc m).

(** Entering [acquire(lk)] (which begins with [pushcli]) and [release(lk)]. *)
Definition call_acquire (i : nat) (lk : lock) (m : machine) : machine :=
  set_pc i (AcqLoad lk) (set_cpu i (pushcli (cpus m i)) m).

Definition call_release (i : nat) (lk : lock) (m : machine) : machine :=
  set_pc i (RelLoad lk) m.

(** The next atomic access of CPU [i]; [stack i] is what getcallerpcs records. *)
Definition exec (stack : nat → list Z) (i : nat) (m : machine) : option machine :=
  match at_pc m i with
  | Idle | Panicked _ => None
  | AcqLoad lk =>
    Some (set_pc i (if bool_decide (locked (locks m lk) = 0)%Z then AcqXchg lk else AcqCpu lk) m)
  | AcqCpu lk =>
    Some (set_pc i (if bool_decide (lcpu (locks m lk) = Some i) then Panicked "acquire"
                    else AcqXchg lk) m)
  | AcqXchg lk =>
    let l := locks m lk in
    let m' := set_lock lk (Spinlock 1 (lcpu l) (pcs l)) m in
    Some (if bool_decide (locked l = 0)%Z then set_pc i (AcqRecord lk) m' else m')
  | AcqRecord lk =>
    let l := locks m lk in
    Some (set_pc i Idle (set_lock lk (Spinlock (locked l) (Some i) (stack i)) m))
  | RelLoad lk =>
    Some (set_pc i (if bool_decide (locked (locks m lk) = 0)%Z then Panicked "release"
                    else RelCpu lk) m)
  | RelCpu lk =>
    Some (set_pc i (if bool_decide (lcpu (locks m lk) = Some i) then RelClear lk
                    else Panicked "release") m)
  | RelClear lk =>
    let l := locks m lk in
    Some (set_pc i (RelXchg lk) (set_lock lk (Spinlock (locked l) None (<[0 := 0%Z]> (pcs l))) m))
  | RelXchg lk =>
    let l := locks m lk in
    Some (set_pc i RelPop (set_lock lk (Spinlock 0 (lcpu l) (pcs l)) m))
  | RelPop =>
    Some (match popcli (cpus m i) with
          | inl msg => set_pc i (Panicked msg) m
          | inr c => set_pc i Idle (set_cpu i c m)
          end)
  end.

(** ** Runs and what a client sees of them *)

Inductive event :=
| Acquired (i : nat) (lk : lock)   (* acquire returns *)
| Released (i : nat) (lk : lock)   (* the lock becomes free *)
| AcqPanic (i : nat) (lk : lock)
| RelPanic (i : nat) (lk : lock)
| PopPanic (i : nat).

Definition event_of (m : machine) (i : nat) : option event :=
  match at_pc m i with
  | AcqCpu lk => if bool_decide (lcpu (locks m lk) = Some i) then Some (AcqPanic i lk) else None
  | AcqRecord lk => Some (Acquired i lk)
  | RelLoad lk => if bool_decide (locked (locks m lk) = 0)%Z then Some (RelPanic i lk) else None
  | RelCpu lk => if bool_decide (lcpu (locks m lk) = Some i) then None else Some (RelPanic i lk)
  | RelXchg lk => Some (Released i lk)
  | RelPop => match popcli (cpus m i) with inl _ => Some (PopPanic i) | inr _ => None end
  | _ => None
  end.

(** Any CPU outside spinlock.c may call either function, any CPU inside makes
    its next access, and a CPU that holds nothing may switch interrupts on or
    off. The guard of [step_acquire] excludes overflow of the [int] [ncli]. *)
Inductive step (stack : nat → list Z) : machine → option event → machine → Prop :=
| step_acquire m i lk :
    at_pc m i = Idle → (ncli (cpus m i) < 2 ^ 31 - 1)%Z → step stack m None (call_acquire i lk m)
| step_release m i lk : at_pc m i = Idle → step stack m None (call_release i lk m)
| step_exec m i m' : exec stack i m = Some m' → step stack m (event_of m i) m'
| step_sti m i b :
    at_pc m i = Idle → ncli (cpus m i) = 0%Z →
    step stack m None (set_cpu i (Cpu 0 (intena (cpus m i)) b) m).

Inductive run (stack : nat → list Z) : machine → list event → machine → Prop :=
| run_nil m : run stack m [] m
| run_snoc m tr m1 e m2 :
    run stack m tr m1 → step stack m1 e m2 → run stack m (tr ++ option_list e) m2.

(** All locks initialised, no CPU inside the lock code. *)
Definition initial (m : machine) : Prop :=
  (∀ lk, locked (locks m lk) = 0%Z ∧ lcpu (locks m lk) = None) ∧
  ∀ i, at_pc m i = Idle ∧ ncli (cpus m i) = 0%Z.

(** What the lock code promises: at most one owner, and a panic only for a
    CPU that acquires a lock it owns or releases one it does not. *)
Inductive spec_step (o : lock → option nat) : event → (lock → option nat) → Prop :=
| spec_acquired i lk : o lk = None → spec_step o (Acquired i lk) (upd o lk (Some i))
| spec_released i lk : o lk = Some i → spec_step o (Released i lk) (upd o lk None)
| spec_acq_panic i lk : o lk = Some i → spec_step o (AcqPanic i lk) o
| spec_rel_panic i lk : o lk ≠ Some i → spec_step o (RelPanic i lk) o.

Inductive spec_run (o : lock → option nat) : list event → (lock → option nat) → Prop :=
| spec_nil : spec_run o [] o
| spec_snoc tr o1 e o2 :
    spec_run o tr o1 → spec_step o1 e o2 → spec_run o (tr ++ [e]) o2.

(** ** The simulation relation *)

(** CPU [i] has won the [xchg] on [lk] and not given it back. *)
Definition owns (m : machine) (o : lock → option nat) (i : nat) (lk : lock) : Prop :=
  o lk = Some i ∨ at_pc m i = AcqRecord lk.

(** pushcli calls of a CPU that are not for a lock in [h]. *)
Definition pending (p : pc) : Z :=
  match p with AcqLoad _ | AcqCpu _ | AcqXchg _ | RelPop => 1 | _ => 0 end.

Record sim (m : machine) (o : lock → option nat) (h : nat → list lock) : Prop := {
  sim_h i lk : lk ∈ h i ↔ owns m o i lk;
  sim_nodup i : NoDup (h i);
  sim_one i j lk : owns m o i lk → owns m o j lk → i = j;
  sim_locked lk : locked (locks m lk) = 0%Z ∨ locked (locks m lk) = 1%Z;
  sim_free lk : locked (locks m lk) = 0%Z ↔ ∀ i, ¬ owns m o i lk;
  sim_cpu i lk : lcpu (locks m lk) = Some i ↔ o lk = Some i ∧ at_pc m i ≠ RelXchg lk;
  sim_fresh i lk : at_pc m i = AcqXchg lk ∨ at_pc m i = AcqRecord lk → o lk ≠ Some i;
  sim_rel i lk : at_pc m i = RelClear lk ∨ at_pc m i = RelXchg lk → o lk = Some i;
  sim_ncli i : (∀ msg, at_pc m i ≠ Panicked msg) →
    ncli (cpus m i) = (Z.of_nat (length (h i)) + pending (at_pc m i))%Z ∧
    (ncli (cpus m i) < 2 ^ 31)%Z;
  sim_if i : (∀ msg, at_pc m i ≠ Panicked msg) → (0 < ncli (cpus m i))%Z → eflags_if (cpus m i) = false;
}.

Lemma initial_sim m : initial m → sim m (λ _, None) (λ _, []).
Proof.
  intros [Hl Hc].
  assert (∀ i lk, ¬ owns m (λ _, None) i lk) as Hno.
  { intros i lk [?|Hp]; [done|]. destruct (Hc i) as [Hi _]. congruence. }
  split.
  - intros i lk. split; [by intros ?%not_elem_of_nil|by intros ?%Hno].
  - intros i. apply NoDup_nil_2.
  - intros i j lk Hi. by apply Hno in Hi.
  - intros lk. left. apply Hl.
  - intros lk. split; [intros _ i; apply Hno|intros _; apply Hl].
  - intros i lk. destruct (Hl lk) as [_ ->]. naive_solver.
  - done.
  - intros i lk Hp. destruct (Hc i) as [Hi _]. destruct Hp; congruence.
  - intros i _. destruct (Hc i) as [-> ->]. simpl. lia.
  - intros i _. destruct (Hc i) as [_ ->]. lia.
Qed.

(** ** Each access preserves the relation *)

Ltac upds := simpl in *; unfold upd in *; repeat case_decide; simplify_eq/=; try done.

(** A move that neither wins nor returns a lock. *)
Lemma sim_move m o h i p :
  sim m o h →
  (∀ lk, at_pc m i ≠ AcqRecord lk ∧ at_pc m i ≠ RelXchg lk) →
  (∀ lk, p ≠ AcqRecord lk ∧ p ≠ RelXchg lk) →
  (∀ lk, p = AcqXchg lk → o lk ≠ Some i) → (∀ lk, p = RelClear lk → o lk = Some i) →
  (∀ msg, at_pc m i ≠ Panicked msg) →
  ((∃ msg, p = Panicked msg) ∨ pending p = pending (at_pc m i)) →
  sim (set_pc i p m) o h.
Proof.
  intros Hs Hold Hnew Hx Hc Hnp Hpend.
  assert (∀ j lk, owns (set_pc i p m) o j lk ↔ owns m o j lk) as Ho.
  { intros j lk. unfold owns. upds. specialize (Hold lk). specialize (Hnew lk). tauto. }
  destruct Hs. split.
  - intros j lk. by rewrite Ho.
  - done.
  - intros j k lk. rewrite !Ho. apply sim_one0.
  - done.
  - intros lk. simpl. rewrite sim_free0. by setoid_rewrite Ho.
  - intros j lk. simpl. rewrite sim_cpu0. upds. specialize (Hold lk). specialize (Hnew lk). tauto.
  - intros j lk. upds; [|by apply sim_fresh0]. destruct (Hnew lk). naive_solver.
  - intros j lk. upds; [|by apply sim_rel0]. destruct (Hnew lk). naive_solver.
  - intros j. upds; [|by apply sim_ncli0]. intros Hp. destruct Hpend as [[msg ->]| ->]; [naive_solver|].
    by apply sim_ncli0.
  - intros j. upds; [|by apply sim_if0]. intros _. by apply sim_if0.
Qed.

Lemma sim_call_acquire m o h i lk :
  sim m o h → at_pc m i = Idle → (ncli (cpus m i) < 2 ^ 31 - 1)%Z →
  sim (call_acquire i lk m) o h.
Proof.
  intros Hs Hp Hn.
  assert (∀ j l, owns (call_acquire i lk m) o j l ↔ owns m o j l) as Ho.
  { intros j l. unfold owns, call_acquire. upds. rewrite Hp. naive_solver. }
  destruct Hs. destruct (sim_ncli0 i) as [Hi _]; [by rewrite Hp|]. rewrite Hp in Hi. simpl in Hi.
  split.
  - intros j l. by rewrite Ho.
  - done.
  - intros j k l. rewrite !Ho. apply sim_one0.
  - done.
  - intros l. simpl. rewrite sim_free0. by setoid_rewrite Ho.
  - intros j l. simpl. rewrite sim_cpu0. upds. rewrite Hp. naive_solver.
  - intros j l. unfold call_acquire. upds; [naive_solver|by apply sim_fresh0].
  - intros j l. unfold call_acquire. upds; [naive_solver|by apply sim_rel0].
  - intros j. unfold call_acquire. upds; [|by apply sim_ncli0]. intros _.
    unfold i32. rewrite Z.mod_small; lia.
  - intros j. unfold call_acquire. upds. by apply sim_if0.
Qed.

Lemma sim_xchg_spin m o h i lk :
  sim m o h → at_pc m i = AcqXchg lk → locked (locks m lk) ≠ 0%Z →
  sim (set_lock lk (Spinlock 1 (lcpu (locks m lk)) (pcs (locks m lk))) m) o h.
Proof.
  intros Hs Hp Hl. destruct Hs. split; try done.
  - intros l. upds. by right.
  - intros l. simpl. unfold upd. case_decide as Hd; [|done]. subst l. simpl.
    split; [done|]. intros Hn. destruct Hl. by apply sim_free0.
  - intros j l. simpl. unfold upd. case_decide; [subst; simpl|]; apply sim_cpu0.
Qed.

Lemma sim_xchg_win m o h i lk :
  sim m o h → at_pc m i = AcqXchg lk → locked (locks m lk) = 0%Z →
  sim (set_pc i (AcqRecord lk) (set_lock lk (Spinlock 1 (lcpu (locks m lk)) (pcs (locks m lk))) m))
      o (upd h i (lk :: h i)).
Proof.
  intros Hs Hp Hl. set (m' := set_pc _ _ _).
  assert (∀ j l, owns m' o j l ↔ owns m o j l ∨ j = i ∧ l = lk) as Ho.
  { intros j l. unfold owns. subst m'. upds; [|naive_solver]. rewrite Hp. naive_solver. }
  destruct Hs. pose proof (proj1 (sim_free0 lk) Hl) as Hfree. split.
  - intros j l. rewrite Ho, <-sim_h0. unfold upd. case_decide; subst; [set_solver|naive_solver].
  - intros j. unfold upd. case_decide; subst; [|done]. apply list.NoDup_cons. split; [|done].
    rewrite sim_h0. apply Hfree.
  - intros j k l. rewrite !Ho. intros [Hj|[-> ->]] [Hk|[-> ?]]; [by eapply sim_one0|..]; subst;
      naive_solver.
  - intros l. subst m'. upds. by right.
  - intros l. setoid_rewrite Ho. subst m'. upds.
    + split; [done|]. intros Hn. destruct (Hn i). naive_solver.
    + rewrite sim_free0. naive_solver.
  - intros j l. subst m'. simpl. unfold upd. repeat case_decide; subst; simpl;
      rewrite ?sim_cpu0, ?Hp; naive_solver.
  - intros j l. subst m'. upds; [|by apply sim_fresh0]. intros [|[= ->]] ?; [done|].
    apply (Hfree i). by left.
  - intros j l. subst m'. upds; [naive_solver|by apply sim_rel0].
  - intros j. subst m'. upds; [|by apply sim_ncli0]. intros _.
    destruct (sim_ncli0 i) as [Hi ?]; [by rewrite Hp|]. rewrite Hp in Hi. simpl in Hi. lia.
  - intros j. subst m'. upds; [|by apply sim_if0]. intros _. apply sim_if0. by rewrite Hp.
Qed.

Lemma sim_record m o h i lk st :
  sim m o h → at_pc m i = AcqRecord lk →
  o lk = None ∧
  sim (set_pc i Idle (set_lock lk (Spinlock (locked (locks m lk)) (Some i) st) m))
      (upd o lk (Some i)) h.
Proof.
  intros Hs Hp. set (m' := set_pc _ _ _). destruct Hs.
  assert (o lk = None) as Hnone.
  { destruct (o lk) as [j|] eqn:Hj; [|done]. exfalso. apply (sim_fresh0 i lk); [by right|].
    rewrite Hj. f_equal. apply (sim_one0 j i lk); [by left|by right]. }
  assert (∀ j l, owns m' (upd o lk (Some i)) j l ↔ owns m o j l) as Ho.
  { intros j l. unfold owns. subst m'. simpl. unfold upd. repeat case_decide; subst.
    - rewrite Hp. naive_solver.
    - rewrite Hnone. split; [naive_solver|]. intros [?|Hj]; [done|]. left. f_equal.
      apply (sim_one0 i j lk); by right.
    - rewrite Hp. naive_solver.
    - naive_solver. }
  split; [done|]. split.
  - intros j l. by rewrite Ho.
  - done.
  - intros j k l. rewrite !Ho. apply sim_one0.
  - intros l. subst m'. upds.
  - intros l. setoid_rewrite Ho. subst m'. upds.
  - intros j l. subst m'. simpl. unfold upd. repeat case_decide; subst; simpl; rewrite ?sim_cpu0, ?Hp;
      naive_solver.
  - intros j l. subst m'. upds; [naive_solver..| |by apply sim_fresh0].
    intros Hj [= ->]. done.
  - intros j l. subst m'. upds; [naive_solver..| |by apply sim_rel0].
    intros Hj. exfalso. pose proof (sim_rel0 j lk Hj). congruence.
  - intros j. subst m'. upds; [|by apply sim_ncli0]. intros _.
    destruct (sim_ncli0 i) as [Hi ?]; [by rewrite Hp|]. rewrite Hp in Hi. done.
  - intros j. subst m'. upds; [|by apply sim_if0]. intros _. apply sim_if0. by rewrite Hp.
Qed.

Lemma sim_clear m o h i lk st :
  sim m o h → at_pc m i = RelClear lk →
  sim (set_pc i (RelXchg lk) (set_lock lk (Spinlock (locked (locks m lk)) None st) m)) o h.
Proof.
  intros Hs Hp. set (m' := set_pc _ _ _). destruct Hs.
  pose proof (sim_rel0 i lk (or_introl Hp)) as Hown.
  assert (∀ j l, owns m' o j l ↔ owns m o j l) as Ho.
  { intros j l. unfold owns. subst m'. upds. rewrite Hp. naive_solver. }
  split.
  - intros j l. by rewrite Ho.
  - done.
  - intros j k l. rewrite !Ho. apply sim_one0.
  - intros l. subst m'. upds.
  - intros l. setoid_rewrite Ho. subst m'. upds.
  - intros j l. subst m'. simpl. unfold upd. repeat case_decide; subst; simpl; rewrite ?sim_cpu0, ?Hp;
      naive_solver.
  - intros j l. subst m'. upds; [naive_solver|by apply sim_fresh0].
  - intros j l. subst m'. upds; [naive_solver|by apply sim_rel0].
  - intros j. subst m'. upds; [|by apply sim_ncli0]. intros _.
    destruct (sim_ncli0 i) as [Hi ?]; [by rewrite Hp|]. rewrite Hp in Hi. done.
  - intros j. subst m'. upds; [|by apply sim_if0]. intros _. apply sim_if0. by rewrite Hp.
Qed.

Lemma length_filter_ne (lk : lock) l :
  NoDup l → lk ∈ l → S (length (filter (λ x, x ≠ lk) l)) = length l.
Proof.
  induction l as [|x l IH]; [by intros _ ?%not_elem_of_nil|].
  intros [Hx Hnd]%list.NoDup_cons [->|Hin]%elem_of_cons.
  - rewrite filter_cons_False by auto. by rewrite filter_ne_notin.
  - rewrite filter_cons_True by naive_solver. simpl. by rewrite IH.
Qed.

Lemma sim_xchg_release m o h i lk :
  sim m o h → at_pc m i = RelXchg lk →
  o lk = Some i ∧
  sim (set_pc i RelPop (set_lock lk (Spinlock 0 (lcpu (locks m lk)) (pcs (locks m lk))) m))
      (upd o lk None) (upd h i (filter (λ x, x ≠ lk) (h i))).
Proof.
  intros Hs Hp. set (m' := set_pc _ _ _). destruct Hs.
  pose proof (sim_rel0 i lk (or_intror Hp)) as Hown. split; [done|].
  assert (∀ j l, owns m' (upd o lk None) j l ↔ owns m o j l ∧ l ≠ lk) as Ho.
  { intros j l. unfold owns. subst m'. simpl. unfold upd. repeat case_decide; subst; rewrite ?Hp;
      [naive_solver| |naive_solver..].
    split; [|naive_solver]. intros [?|Hj]; [done|]. exfalso. apply (sim_fresh0 j lk); [by right|].
    rewrite Hown. f_equal. apply (sim_one0 i j lk); [by left|by right]. }
  split.
  - intros j l. rewrite Ho, <-sim_h0. unfold upd. case_decide; subst.
    + rewrite list_elem_of_filter. tauto.
    + split; [|tauto]. intros Hj. split; [done|]. intros ->. apply sim_h0 in Hj.
      assert (j = i); [|done]. apply (sim_one0 j i lk); [done|by left].
  - intros j. unfold upd. case_decide; subst; [|done]. by apply list.NoDup_filter.
  - intros j k l. rewrite !Ho. intros [Hj _] [Hk _]. by eapply sim_one0.
  - intros l. subst m'. upds. by left.
  - intros l. setoid_rewrite Ho. subst m'. upds; [naive_solver|]. rewrite sim_free0. naive_solver.
  - intros j l. subst m'. simpl. unfold upd. repeat case_decide; subst; simpl; rewrite ?sim_cpu0, ?Hp;
      naive_solver.
  - intros j l. subst m'. upds; naive_solver.
  - intros j l. subst m'. simpl. unfold upd. repeat case_decide; subst; intros Hj;
      [naive_solver|naive_solver|apply sim_rel0 in Hj; naive_solver|by apply sim_rel0].
  - intros j. subst m'. upds; [|by apply sim_ncli0]. intros _.
    destruct (sim_ncli0 i) as [Hi ?]; [by rewrite Hp|]. rewrite Hp in Hi. simpl in Hi.
    rewrite <-(length_filter_ne lk (h i)) in Hi; [lia|done|]. apply sim_h0. by left.
  - intros j. subst m'. upds; [|by apply sim_if0]. intros _. apply sim_if0. by rewrite Hp.
Qed.

Lemma sim_pop m o h i :
  sim m o h → at_pc m i = RelPop →
  ∃ c, popcli (cpus m i) = inr c ∧ sim (set_pc i Idle (set_cpu i c m)) o h.
Proof.
  intros Hs Hp.
  assert (∀ c j l, owns (set_pc i Idle (set_cpu i c m)) o j l ↔ owns m o j l) as Ho.
  { intros c j l. unfold owns. upds. rewrite Hp. naive_solver. }
  destruct Hs. destruct (sim_ncli0 i) as [Hi Hlt]; [by rewrite Hp|]. rewrite Hp in Hi. simpl in Hi.
  unfold popcli. rewrite sim_if0 by (lia || by rewrite Hp).
  replace (i32 (ncli (cpus m i) - 1)) with (Z.of_nat (length (h i))).
  2: { unfold i32. rewrite Z.mod_small; lia. }
  rewrite bool_decide_false by lia. eexists. split; [done|]. split.
  - intros j l. by rewrite Ho.
  - done.
  - intros j k l. rewrite !Ho. apply sim_one0.
  - done.
  - intros l. simpl. rewrite sim_free0. by setoid_rewrite Ho.
  - intros j l. simpl. rewrite sim_cpu0. upds. rewrite Hp. naive_solver.
  - intros j l. upds; [naive_solver|by apply sim_fresh0].
  - intros j l. upds; [naive_solver|by apply sim_rel0].
  - intros j. simpl. unfold upd. case_decide; subst; simpl; [lia|by apply sim_ncli0].
  - intros j. simpl. unfold upd. case_decide; subst; simpl; [|by apply sim_if0].
    intros _ Hpos. by rewrite bool_decide_false by lia.
Qed.

(** ** Refinement *)

(** The owners after [e]. *)
Definition spec_opt (o : lock → option nat) (e : option event) (o' : lock → option nat) : Prop :=
  match e with Some e => spec_step o e o' | None => o' = o end.

Lemma sim_acq_cpu m o h i lk :
  sim m o h → at_pc m i = AcqCpu lk → lcpu (locks m lk) = Some i ↔ o lk = Some i.
Proof. intros Hs Hp. rewrite (sim_cpu _ _ _ Hs), Hp. naive_solver. Qed.

Lemma sim_exec stack m o h i m' :
  sim m o h → exec stack i m = Some m' → ∃ o' h', spec_opt o (event_of m i) o' ∧ sim m' o' h'.
Proof.
  intros Hs He. unfold exec, event_of in *. destruct (at_pc m i) as [|lk|lk|lk|lk|lk|lk|lk|lk| |msg] eqn:Hp;
    simplify_eq.
  - exists o, h. split; [done|]. apply sim_move; rewrite ?Hp; try done; intros; case_bool_decide as Hl;
      simplify_eq/=; try done; [|by right..].
    intros Ho. apply (proj1 (sim_free _ _ _ Hs _) Hl i). by left.
  - pose proof (sim_acq_cpu _ _ _ _ _ Hs Hp) as Hc. exists o, h. case_bool_decide as Hl.
    + split; [constructor; by apply Hc|]. apply sim_move; rewrite ?Hp; try done. left. eauto.
    + split; [done|]. apply sim_move; rewrite ?Hp; try done; [|by right]. intros ? [= <-]. by rewrite <-Hc.
  - case_bool_decide as Hl.
    + exists o, (upd h i (lk :: h i)). split; [done|]. by apply sim_xchg_win.
    + exists o, h. split; [done|]. by eapply sim_xchg_spin.
  - destruct (sim_record _ _ _ _ _ (stack i) Hs Hp) as [Ho Hs'].
    exists (upd o lk (Some i)), h. split; [by constructor|done].
  - exists o, h. case_bool_decide as Hl; (split; [|apply sim_move; rewrite ?Hp; try done; eauto]).
    + constructor. intros Ho. apply (proj1 (sim_free _ _ _ Hs _) Hl i). by left.
    + done.
  - pose proof (sim_cpu _ _ _ Hs i lk) as Hc. rewrite Hp in Hc. exists o, h. case_bool_decide as Hl.
    + split; [done|]. apply sim_move; rewrite ?Hp; try done; [|by right]. intros ? [= <-]. by apply Hc.
    + split; [constructor; naive_solver|]. apply sim_move; rewrite ?Hp; try done. left. eauto.
  - exists o, h. split; [done|]. by apply sim_clear.
  - destruct (sim_xchg_release _ _ _ _ _ Hs Hp) as [Ho Hs'].
    do 2 eexists. split; [by constructor|done].
  - destruct (sim_pop _ _ _ _ Hs Hp) as (c & -> & Hs'). by exists o, h.
Qed.

Lemma sim_sti m o h i b :
  sim m o h → at_pc m i = Idle → ncli (cpus m i) = 0%Z →
  sim (set_cpu i (Cpu 0 (intena (cpus m i)) b) m) o h.
Proof.
  intros Hs Hp Hn. destruct Hs. split; try done.
  - intros j. upds; [|by apply sim_ncli0]. intros Hnp. rewrite <-Hn. by apply sim_ncli0.
  - intros j. upds. by apply sim_if0.
Qed.

Lemma sim_step stack m o h e m' :
  sim m o h → step stack m e m' → ∃ o' h', spec_opt o e o' ∧ sim m' o' h'.
Proof.
  intros Hs Hst. destruct Hst as [m i lk Hp Hn|m i lk Hp|m i m' He|m i b Hp Hn].
  - exists o, h. split; [done|]. by apply sim_call_acquire.
  - exists o, h. split; [done|]. apply sim_move; rewrite ?Hp; try done. by right.
  - by eapply sim_exec.
  - exists o, h. split; [done|]. by apply sim_sti.
Qed.

Lemma run_sim stack m tr m' :
  initial m → run stack m tr m' → ∃ o h, spec_run (λ _, None) tr o ∧ sim m' o h.
Proof.
  intros Hi Hr. induction Hr as [m|m tr m1 e m2 Hr IH Hs].
  - do 2 eexists. split; [constructor|by apply initial_sim].
  - destruct IH as (o & h & Hsp & Hsim); [done|].
    destruct (sim_step _ _ _ _ _ _ Hsim Hs) as (o' & h' & He & Hsim'). exists o', h'.
    split; [|done]. destruct e as [e|]; simpl in *; [by econstructor|]. subst. by rewrite app_nil_r.
Qed.

(** ** A CPU alone: the locks of the prelude *)

#[export] Instance held_list : HasLocks (list lock) := {|
  held := id; set_held h _ := h; held_set _ _ := eq_refl; set_held_held _ := eq_refl;
  set_held_set _ _ _ := eq_refl |}.

(** [n] accesses of CPU [i]. *)
Fixpoint execs (stack : nat → list Z) (n i : nat) (m : machine) : option machine :=
  match n with O => Some m | S n => exec stack i m ≫= execs stack n i end.

Lemma execs_step stack n i m m' : exec stack i m = Some m' → execs stack (S n) i m = execs stack n i m'.
Proof. simpl. by intros ->. Qed.

Lemma exec_done stack i m : exec stack i (set_pc i Idle m) = None.
Proof. unfold exec. simpl. by rewrite upd_eq. Qed.

Lemma acquire_free_runs stack m o h i lk :
  sim m o h → at_pc m i = Idle → (ncli (cpus m i) < 2 ^ 31 - 1)%Z → (∀ j, ¬ owns m o j lk) →
  ∃ m' o', execs stack 3 i (call_acquire i lk m) = Some m' ∧ at_pc m' i = Idle ∧
           sim m' o' (upd h i (lk :: h i)).
Proof.
  intros Hs Hp Hn Hfree.
  assert (locked (locks m lk) = 0%Z) as Hl by by apply (sim_free _ _ _ Hs).
  pose proof (sim_call_acquire _ _ _ _ lk Hs Hp Hn) as H1. set (m1 := call_acquire i lk m) in *.
  assert (at_pc m1 i = AcqLoad lk) as Hp1 by apply upd_eq.
  set (m2 := set_pc i (AcqXchg lk) m1). assert (at_pc m2 i = AcqXchg lk) as Hp2 by apply upd_eq.
  assert (sim m2 o h) as H2.
  { apply sim_move; rewrite ?Hp1; try done; [|by right]. intros l [= <-] Ho.
    apply (Hfree i). by left. }
  pose proof (sim_xchg_win _ _ _ _ _ H2 Hp2 Hl) as H3. set (m3 := set_pc _ _ _) in H3.
  assert (at_pc m3 i = AcqRecord lk) as Hp3 by apply upd_eq.
  destruct (sim_record _ _ _ _ _ (stack i) H3 Hp3) as [_ H4]. do 2 eexists. split_and!; [| |exact H4].
  - rewrite (execs_step _ _ _ _ m2). 2: { unfold exec. rewrite Hp1. by rewrite bool_decide_true. }
    rewrite (execs_step _ _ _ _ m3). 2: { unfold exec. rewrite Hp2. by rewrite bool_decide_true. }
    unfold execs, exec. by rewrite Hp3.
  - apply upd_eq.
Qed.

Lemma acquire_held_runs stack m o h i lk :
  sim m o h → at_pc m i = Idle → lk ∈ h i →
  ∃ m', execs stack 2 i (call_acquire i lk m) = Some m' ∧ at_pc m' i = Panicked "acquire".
Proof.
  intros Hs Hp Hin. apply (sim_h _ _ _ Hs) in Hin as [Ho|?]; [|congruence].
  assert (lcpu (locks m lk) = Some i) as Hc by (apply (sim_cpu _ _ _ Hs); by rewrite Hp).
  assert (locked (locks m lk) ≠ 0%Z) as Hl.
  { intros Hl. apply (proj1 (sim_free _ _ _ Hs _) Hl i). by left. }
  eexists. split.
  - erewrite execs_step. 2: { unfold exec. simpl. by rewrite upd_eq, bool_decide_false. }
    erewrite execs_step. 2: { unfold exec. simpl. by rewrite upd_eq, bool_decide_true. }
    done.
  - apply upd_eq.
Qed.

Lemma release_held_runs stack m o h i lk :
  sim m o h → at_pc m i = Idle → lk ∈ h i →
  ∃ m' o', execs stack 5 i (call_release i lk m) = Some m' ∧ at_pc m' i = Idle ∧
           sim m' o' (upd h i (filter (λ l, l ≠ lk) (h i))).
Proof.
  intros Hs Hp Hin. apply (sim_h _ _ _ Hs) in Hin as [Ho|?]; [|congruence].
  assert (lcpu (locks m lk) = Some i) as Hc by (apply (sim_cpu _ _ _ Hs); by rewrite Hp).
  assert (locked (locks m lk) ≠ 0%Z) as Hl.
  { intros Hl. apply (proj1 (sim_free _ _ _ Hs _) Hl i). by left. }
  set (m1 := call_release i lk m). set (m2 := set_pc i (RelCpu lk) m1).
  set (m3 := set_pc i (RelClear lk) m2).
  assert (at_pc m1 i = RelLoad lk ∧ at_pc m2 i = RelCpu lk ∧ at_pc m3 i = RelClear lk)
    as (Hp1 & Hp2 & Hp3) by (split_and!; apply upd_eq).
  assert (sim m1 o h) as H1 by (apply sim_move; rewrite ?Hp; try done; by right).
  assert (sim m2 o h) as H2 by (apply sim_move; rewrite ?Hp1; try done; by right).
  assert (sim m3 o h) as H3.
  { apply sim_move; rewrite ?Hp2; try done; [|by right]. by intros ? [= <-]. }
  pose proof (sim_clear _ _ _ _ _ (<[0:=0%Z]> (pcs (locks m3 lk))) H3 Hp3) as H4.
  set (m4 := set_pc _ _ _) in H4. assert (at_pc m4 i = RelXchg lk) as Hp4 by apply upd_eq.
  destruct (sim_xchg_release _ _ _ _ _ H4 Hp4) as [_ H5]. set (m5 := set_pc _ _ _) in H5.
  assert (at_pc m5 i = RelPop) as Hp5 by apply upd_eq.
  destruct (sim_pop _ _ _ _ H5 Hp5) as (c & Hc5 & H6). do 2 eexists. split_and!; [| |exact H6].
  - rewrite (execs_step _ _ _ _ m2). 2: { unfold exec. rewrite Hp1. by rewrite bool_decide_false. }
    rewrite (execs_step _ _ _ _ m3). 2: { unfold exec. rewrite Hp2. by rewrite bool_decide_true. }
    rewrite (execs_step _ _ _ _ m4). 2: { unfold exec. by rewrite Hp3. }
    rewrite (execs_step _ _ _ _ m5). 2: { unfold exec. by rewrite Hp4. }
    unfold execs, exec. by rewrite Hp5, Hc5.
  - apply upd_eq.
Qed.

Lemma release_unheld_runs stack m o h i lk :
  sim m o h → at_pc m i = Idle → lk ∉ h i →
  ∃ n m', execs stack n i (call_release i lk m) = Some m' ∧ at_pc m' i = Panicked "release".
Proof.
  intros Hs Hp Hin. rewrite (sim_h _ _ _ Hs) in Hin.
  assert (lcpu (locks m lk) ≠ Some i) as Hc.
  { intros Hc. apply (sim_cpu _ _ _ Hs) in Hc as [Hc _]. apply Hin. by left. }
  destruct (decide (locked (locks m lk) = 0%Z)) as [Hl|Hl].
  - exists 1. eexists. split.
    + erewrite execs_step. 2: { unfold exec. simpl. by rewrite upd_eq, bool_decide_true. }
      done.
    + apply upd_eq.
  - exists 2. eexists. split.
    + erewrite execs_step. 2: { unfold exec. simpl. by rewrite upd_eq, bool_decide_false. }
      erewrite execs_step. 2: { unfold exec. simpl. by rewrite upd_eq, bool_decide_false. }
      done.
    + apply upd_eq.
Qed.

(** ** Theorems *)

(** C3: every interleaving of the lock code on any number of CPUs refines the
    abstract locks: a lock is acquired only while nobody owns it and released
    only by its owner (mutual exclusion), [acquire] panics only for a CPU that
    already owns the lock, [release] only for one that does not, and [popcli]
    never; and a CPU that owns a lock has interrupts off. *)
Theorem lock_refinement stack m tr m' :
  initial m → run stack m tr m' →
  ∃ o, spec_run (λ _, None) tr o ∧
    ∀ i lk, o lk = Some i → (∀ msg, at_pc m' i ≠ Panicked msg) → eflags_if (cpus m' i) = false.
Proof.
  intros Hi Hr. destruct (run_sim _ _ _ _ Hi Hr) as (o & h & Hsp & Hs). exists o. split; [done|].
  intros i lk Ho Hnp. apply (sim_if _ _ _ Hs); [done|].
  assert (lk ∈ h i) as Hin by (apply (sim_h _ _ _ Hs); by left).
  destruct (sim_ncli _ _ _ Hs i Hnp) as [-> _].
  destruct (h i); [by apply not_elem_of_nil in Hin|]. simpl. destruct (at_pc m' i); simpl; lia.
Qed.

(** Run without competition, [acquire] and [release] implement the lock
    operations of the kernel monad: they finish in a fixed number of accesses
    with the list of held locks the abstract operation gives, or panic with its
    message. *)
Theorem lock_code_implements stack m o h i lk :
  sim m o h → at_pc m i = Idle → (ncli (cpus m i) < 2 ^ 31 - 1)%Z → (∀ j, j ≠ i → lk ∉ h j) →
  match acquire lk (h i) with
  | Done _ hi => ∃ m' o', execs stack 3 i (call_acquire i lk m) = Some m' ∧ at_pc m' i = Idle ∧
                          sim m' o' (upd h i hi)
  | Panic msg => ∃ m', execs stack 2 i (call_acquire i lk m) = Some m' ∧ at_pc m' i = Panicked msg
  | _ => False
  end ∧
  match release lk (h i) with
  | Done _ hi => ∃ m' o', execs stack 5 i (call_release i lk m) = Some m' ∧ at_pc m' i = Idle ∧
                          sim m' o' (upd h i hi)
  | Panic msg => ∃ n m', execs stack n i (call_release i lk m) = Some m' ∧ at_pc m' i = Panicked msg
  | _ => False
  end.
Proof.
  intros Hs Hp Hn Hoth. unfold acquire, release. simpl.
  destruct (decide (lk ∈ h i)) as [Hin|Hin].
  - split; [by eapply acquire_held_runs|by eapply release_held_runs].
  - split; [|by eapply release_unheld_runs]. eapply acquire_free_runs; [done..|].
    intros j Hj. apply (sim_h _ _ _ Hs) in Hj. destruct (decide (j = i)) as [->|]; [done|].
    by eapply Hoth.
Qed.

(** [n] nested calls. *)
Fixpoint pushes (n : nat) (c : cpu) : cpu := match n with O => c | S n => pushes n (pushcli c) end.
Fixpoint pops (n : nat) (c : cpu) : string + cpu :=
  match n with
  | O => inr c
  | S n => match popcli c with inl msg => inl msg | inr c => pops n c end
  end.

Lemma pushes_nested n c :
  (0 < ncli c)%Z → (ncli c + Z.of_nat n < 2 ^ 31)%Z → eflags_if c = false →
  pushes n c = Cpu (ncli c + Z.of_nat n) (intena c) false.
Proof.
  revert c. induction n as [|n IH]; intros c Hc Hn Hf; simpl.
  - destruct c; simpl in *. subst. f_equal. lia.
  - unfold pushcli. rewrite bool_decide_false by lia. unfold i32. rewrite Z.mod_small by lia.
    rewrite IH; simpl; [f_equal; lia|lia|lia|done].
Qed.

Lemma pops_nested n z b :
  (Z.of_nat n < z < 2 ^ 31)%Z → pops n (Cpu z b false) = inr (Cpu (z - Z.of_nat n) b false).
Proof.
  revert z. induction n as [|n IH]; intros z Hz; simpl; [by rewrite Z.sub_0_r|].
  unfold popcli. simpl. unfold i32. rewrite Z.mod_small by lia.
  rewrite !bool_decide_false by lia. simpl.
  replace (z + 2 ^ 31 - 2 ^ 31 - 1)%Z with (z - 1)%Z by lia.
  replace (z - 1 + 2 ^ 31 - 2 ^ 31)%Z with (z - 1)%Z by lia.
  rewrite IH by lia. do 2 f_equal. lia.
Qed.

(** Pushcli and popcli are matched: [n] pushes and then [n] pops give back
    the interrupt flag and depth 0, and interrupts stay off until the last pop. *)
Theorem pushcli_popcli_matched n k c :
  ncli c = 0%Z → (Z.of_nat (S n) < 2 ^ 31)%Z → k ≤ n →
  (∃ c', pops k (pushes (S n) c) = inr c' ∧ eflags_if c' = false) ∧
  pops (S n) (pushes (S n) c) = inr (Cpu 0 (eflags_if c) (eflags_if c)).
Proof.
  intros Hc Hn Hk.
  assert (pushes (S n) c = Cpu (1 + Z.of_nat n) (eflags_if c) false) as ->.
  { destruct c as [z b f]. simpl in Hc |- *. subst z. unfold pushcli. simpl.
    rewrite pushes_nested; [done|done|change (1 + Z.of_nat n < 2 ^ 31)%Z; lia|done]. }
  split.
  - rewrite pops_nested by lia. eauto.
  - replace (S n) with (n + 1) by lia. assert (∀ a b x, pops (a + b) x =
      match pops a x with inl msg => inl msg | inr y => pops b y end) as Happ.
    { intros a b. induction a as [|a IH]; intros x; simpl; [done|]. destruct (popcli x); auto. }
    rewrite Happ, pops_nested by lia. simpl. unfold popcli. simpl.
    replace (1 + Z.of_nat n - Z.of_nat n)%Z with 1%Z by lia. by destruct (eflags_if c).
Qed.

(** ** Witnesses *)

Definition machine0 : machine :=
  Machine (λ _, Spinlock 0 None []) (λ _, Cpu 0 false true) (λ _, Idle).

Lemma machine0_initial : initial machine0.
Proof. by split. Defined.

(** CPU 0 acquires the log lock; the state after [n] accesses. *)
Definition locking (n : nat) : machine :=
  default machine0 (execs (λ _, []) n 0 (call_acquire 0 LLog machine0)).

Lemma lock_refinement_witness :
  run (λ _, []) machine0 [Acquired 0 LLog] (locking 3) ∧
  ∃ o, spec_run (λ _, None) [Acquired 0 LLog] o.
Proof.
  assert (run (λ _, []) machine0 [Acquired 0 LLog] (locking 3)) as Hr.
  { apply (run_snoc _ _ [] (locking 2) (Some (Acquired 0 LLog))).
    2: exact (step_exec (λ _, []) (locking 2) 0 (locking 3) eq_refl).
    apply (run_snoc _ _ [] (locking 1) None).
    2: exact (step_exec (λ _, []) (locking 1) 0 (locking 2) eq_refl).
    apply (run_snoc _ _ [] (locking 0) None).
    2: exact (step_exec (λ _, []) (locking 0) 0 (locking 1) eq_refl).
    apply (run_snoc _ _ [] machine0 None); [apply run_nil|].
    apply (step_acquire _ _ 0 LLog); [reflexivity|]. simpl. lia. }
  split; [exact Hr|].
  destruct (lock_refinement (λ _, []) machine0 _ _ machine0_initial Hr) as (o & Ho & _). by exists o.
Defined.

Lemma lock_code_implements_witness :
  ∃ m' o', execs (λ _, []) 3 0 (call_acquire 0 LLog machine0) = Some m' ∧ at_pc m' 0 = Idle ∧
           sim m' o' (upd (λ _, []) 0 [LLog]).
Proof.
  refine (proj1 (lock_code_implements (λ _, []) machine0 (λ _, None) (λ _, []) 0 LLog _ _ _ _)).
  - exact (initial_sim _ machine0_initial).
  - reflexivity.
  - simpl. lia.
  - intros j _. apply not_elem_of_nil.
Defined.

Lemma pushcli_popcli_matched_witness :
  pops 3 (pushes 3 (Cpu 0 false true)) = inr (Cpu 0 true true).
Proof. apply (pushcli_popcli_matched 2 1 (Cpu 0 false true)); simpl; [reflexivity|lia|lia]. Defined.
