(* ===== verification/Heap.v ===== *)
(** * The ready-queue heap (heap.c, heap.h)

    The ready queue is an array of process pointers kept as a heap by two
    routines: [heapify] sifts a slot down, [increasekey] sifts one up. The
    source has two copies of each, chosen by the macro [RT]: a max-heap on the
    priority [P] (preemption thresholds, the configuration types.h selects) and
    a min-heap on the time left to the deadline (EDF). Both copies are one
    algorithm over a comparison; EDF reads the clock anew at every comparison,
    so the comparison is indexed by how many were made before it.

    [Heap.PT] and [Heap.EDF] instantiate the algorithm. The theorems show that
    both routines only permute the queue, that they terminate, that [heapify]
    restores the order of the children macros [LEFT]/[RIGHT], that
    [increasekey] restores the order of the macro [PARENT], and where the two
    orders differ. *)

From S2P Require Import Prelude.

(** ** heap.h: the index macros *)

Definition LEFT (x : nat) : nat := 2 * x + 1.
Definition RIGHT (x : nat) : nat := 2 * x + 2.
Definition PARENT (x : nat) : nat := x / 2.

(** [swap = A[i]; A[i] = A[j]; A[j] = swap;] *)
Definition swap {T} (A : list T) (i j : nat) : list T :=
  match A !! i, A !! j with
  | Some x, Some y => <[j := x]> (<[i := y]> A)
  | _, _ => A
  end.

Section algorithm.
Context {T : Type}.

(** [above k x y]: the [k]th comparison finds that [x] belongs nearer to the
    root than [y]. *)
Context (above : nat → T → T → bool).

Definition cmp (k : nat) (A : list T) (i j : nat) : bool :=
  match A !! i, A !! j with
  | Some x, Some y => above k x y
  | _, _ => false
  end.

(** One activation of [heapify]: the slot among [i], its left and its right
    child to move to [i], and the number of comparisons made. *)
Definition heapify_pick (k : nat) (A : list T) (itr_q i : nat) : nat * nat :=
  let '(m, k) :=
    if LEFT i <? itr_q
    then (if cmp k A (LEFT i) i then LEFT i else i, S k) else (i, k) in
  if RIGHT i <? itr_q
  then (if cmp k A (RIGHT i) m then RIGHT i else m, S k) else (m, k).

Fixpoint heapify_fuel (fuel k : nat) (A : list T) (itr_q i : nat) : list T :=
  match fuel with
  | O => A
  | S fuel =>
    let '(m, k) := heapify_pick k A itr_q i in
    if bool_decide (m = i) then A
    else heapify_fuel fuel k (swap A i m) itr_q m
  end.

(** [itr_q] activations are enough: [heapify_fuel_enough]. *)
Definition heapify (A : list T) (itr_q i : nat) : list T :=
  heapify_fuel itr_q 0 A itr_q i.

Fixpoint increasekey_fuel (fuel k : nat) (A : list T) (i : nat) : list T :=
  match fuel with
  | O => A
  | S fuel =>
    if bool_decide (0 < i) && cmp k A i (PARENT i)
    then increasekey_fuel fuel (S k) (swap A i (PARENT i)) (PARENT i)
    else A
  end.

Definition increasekey (A : list T) (i : nat) : list T := increasekey_fuel i 0 A i.
End algorithm.

(** ** The two compiled configurations *)

Module PT.
(** [#if !RT]: the larger [P] is nearer to the root. *)
Definition above {T} (P : T → Z) (k : nat) (x y : T) : bool := bool_decide (P y < P x)%Z.

Definition heapify {T} (P : T → Z) := Heap.heapify (above P).
Definition increasekey {T} (P : T → Z) := Heap.increasekey (above P).

(** [shitf]: move [A[0..i-1]] one slot up. *)
Fixpoint shitf {T} (A : list T) (i : nat) : list T :=
  match i with
  | O => A
  | S i' => shitf (match A !! i' with Some x => <[i := x]> A | None => A end) i'
  end.
End PT.

Module EDF.
(** [deadline]: the ticks left, 0 when overdue. [t1] and [t2] are the two
    readings of the clock; the sum is in [unsigned long long], the result in
    [int]. *)
Definition deadline (t1 t2 : Z) (arrtime D : Z) : Z :=
  if bool_decide (t1 ≤ u64 (arrtime + D))%Z
  then i32 (u64 (u64 (arrtime + D) - t2))
  else 0%Z.

(** [#if RT]: the smaller [deadline] is nearer to the root; [tick k j] is the
    [j]th clock reading of the [k]th comparison. *)
Definition above {T} (arrtime D : T → Z) (tick : nat → nat → Z) (k : nat) (x y : T) : bool :=
  bool_decide (deadline (tick k 0%nat) (tick k 1%nat) (arrtime x) (D x) <
               deadline (tick k 2%nat) (tick k 3%nat) (arrtime y) (D y))%Z.

Definition heapify {T} (arrtime D : T → Z) tick := Heap.heapify (above arrtime D tick).
Definition increasekey {T} (arrtime D : T → Z) tick := Heap.increasekey (above arrtime D tick).
End EDF.

(** ** Permutation, length and frame *)

Section swap.
Context {T : Type}.
Implicit Types A : list T.

Lemma swap_length A i j : length (swap A i j) = length A.
Proof.
  unfold swap. destruct (A !! i), (A !! j); by rewrite ?length_insert.
Qed.

Lemma swap_lookup A i j k :
  i < length A → j < length A →
  swap A i j !! k = if decide (k = j) then A !! i else if decide (k = i) then A !! j else A !! k.
Proof.
  intros Hi Hj.
  destruct (lookup_lt_is_Some_2 A i Hi) as [x Hx].
  destruct (lookup_lt_is_Some_2 A j Hj) as [y Hy].
  unfold swap. rewrite Hx, Hy. repeat case_decide; subst.
  - by rewrite list_lookup_insert_eq by (rewrite length_insert; lia).
  - rewrite list_lookup_insert_ne by done. by rewrite list_lookup_insert_eq.
  - by rewrite !list_lookup_insert_ne by done.
Qed.

Lemma swap_perm A i j : swap A i j ≡ₚ A.
Proof.
  unfold swap. destruct (A !! i) as [x|] eqn:Hx; [|done].
  destruct (A !! j) as [y|] eqn:Hy; [|done].
  destruct (decide (i = j)) as [->|Hne].
  { simplify_eq. rewrite list_insert_insert_eq, list_insert_id by done. done. }
  pose proof (lookup_lt_Some _ _ _ Hx). pose proof (lookup_lt_Some _ _ _ Hy).
  apply Permutation_inj. split; [by rewrite !length_insert|].
  exists (λ k, if decide (k = i) then j else if decide (k = j) then i else k).
  split.
  - intros k1 k2. repeat case_decide; lia.
  - intros k. repeat case_decide; subst.
    + rewrite list_lookup_insert_ne by done. by rewrite list_lookup_insert_eq.
    + by rewrite list_lookup_insert_eq by (rewrite length_insert; done).
    + by rewrite !list_lookup_insert_ne by done.
Qed.

Lemma take_swap_perm A n i j :
  i < n → j < n → take n (swap A i j) = swap (take n A) i j.
Proof.
  intros Hi Hj. unfold swap. rewrite !lookup_take by done.
  rewrite !decide_True by done.
  destruct (A !! i), (A !! j); try done.
  by rewrite !take_insert_lt by lia.
Qed.
End swap.

(** ** What holds of the algorithm for every comparison *)

Section generic.
Context {T : Type} (above : nat → T → T → bool).
Implicit Types A : list T.

(** The slot picked is [i] or one of its children inside the heap. *)
Lemma heapify_pick_spec k A n i m k' :
  heapify_pick above k A n i = (m, k') →
  m = i ∨ (m = LEFT i ∨ m = RIGHT i) ∧ m < n.
Proof.
  unfold heapify_pick. intros Hp.
  destruct (Nat.ltb_spec (LEFT i) n), (Nat.ltb_spec (RIGHT i) n);
    repeat case_match; naive_solver.
Qed.

(** The picked child lies strictly below [i]. *)
Lemma heapify_pick_lt k A n i m k' :
  heapify_pick above k A n i = (m, k') → m ≠ i → i < m < n.
Proof.
  intros [?|[[-> | ->] ?]]%heapify_pick_spec ?; [done|..]; unfold LEFT, RIGHT in *; lia.
Qed.

Lemma heapify_fuel_length f k A n i : length (heapify_fuel above f k A n i) = length A.
Proof.
  revert k A i. induction f as [|f IH]; intros k A i; simpl; [done|].
  destruct (heapify_pick above k A n i) as [m k']. case_bool_decide; [done|].
  by rewrite IH, swap_length.
Qed.

Lemma heapify_fuel_perm f k A n i :
  n ≤ length A →
  take n (heapify_fuel above f k A n i) ≡ₚ take n A ∧
  drop n (heapify_fuel above f k A n i) = drop n A.
Proof.
  revert k A i. induction f as [|f IH]; intros k A i Hn; simpl; [done|].
  destruct (heapify_pick above k A n i) as [m k'] eqn:Hp. case_bool_decide; [done|].
  pose proof (heapify_pick_lt _ _ _ _ _ _ Hp ltac:(done)).
  destruct (IH k' (swap A i m) m) as [Ht Hd]; [by rewrite swap_length|].
  rewrite Ht, Hd. split.
  - rewrite take_swap_perm by lia. apply swap_perm.
  - apply list_eq. intros j. rewrite !lookup_drop, swap_lookup by lia.
    by rewrite !decide_False by lia.
Qed.

(** More fuel than [n - i] changes nothing: the recursion has ended. *)
Lemma heapify_fuel_mono f f' k A n i :
  n - i ≤ f → n - i ≤ f' → heapify_fuel above f k A n i = heapify_fuel above f' k A n i.
Proof.
  revert f' k A i. induction f as [|f IH]; intros [|f'] k A i Hf Hf'; simpl; [done|..].
  - destruct (heapify_pick above k A n i) as [m k'] eqn:Hp. case_bool_decide; [done|].
    pose proof (heapify_pick_lt _ _ _ _ _ _ Hp ltac:(done)). lia.
  - destruct (heapify_pick above k A n i) as [m k'] eqn:Hp. case_bool_decide; [done|].
    pose proof (heapify_pick_lt _ _ _ _ _ _ Hp ltac:(done)). lia.
  - destruct (heapify_pick above k A n i) as [m k'] eqn:Hp. case_bool_decide; [done|].
    pose proof (heapify_pick_lt _ _ _ _ _ _ Hp ltac:(done)). apply IH; lia.
Qed.

Lemma PARENT_lt i : 0 < i → PARENT i < i.
Proof. unfold PARENT. intros. apply Nat.div_lt; lia. Qed.

Lemma increasekey_fuel_length f k A i : length (increasekey_fuel above f k A i) = length A.
Proof.
  revert k A i. induction f as [|f IH]; intros k A i; simpl; [done|].
  destruct (_ && _); [|done]. by rewrite IH, swap_length.
Qed.

Lemma increasekey_fuel_perm f k A i n :
  i < n → n ≤ length A →
  take n (increasekey_fuel above f k A i) ≡ₚ take n A ∧
  drop n (increasekey_fuel above f k A i) = drop n A.
Proof.
  revert k A i. induction f as [|f IH]; intros k A i Hi Hn; simpl; [done|].
  destruct (bool_decide (0 < i) && _) eqn:Hb; [|done].
  apply andb_true_iff in Hb as [Hb _]. apply bool_decide_eq_true in Hb.
  pose proof (PARENT_lt i Hb).
  destruct (IH (S k) (swap A i (PARENT i)) (PARENT i)) as [Ht Hd]; [lia|by rewrite swap_length|].
  rewrite Ht, Hd. split.
  - rewrite take_swap_perm by lia. apply swap_perm.
  - apply list_eq. intros j. rewrite !lookup_drop, swap_lookup by lia.
    by rewrite !decide_False by lia.
Qed.

Lemma increasekey_fuel_mono f f' k A i :
  i ≤ f → i ≤ f' → increasekey_fuel above f k A i = increasekey_fuel above f' k A i.
Proof.
  revert f' k A i. induction f as [|f IH]; intros [|f'] k A i Hf Hf'; simpl; [done|..].
  - by rewrite bool_decide_false by lia.
  - by rewrite bool_decide_false by lia.
  - case_bool_decide as Hb; [|done]. simpl. destruct (cmp above k A i (PARENT i)); [|done].
    pose proof (PARENT_lt i Hb). apply IH; lia.
Qed.

(** Both routines terminate within the fuel given: any larger fuel computes
    the same queue. *)
Lemma heapify_fuel_enough A n i f :
  n ≤ f → heapify_fuel above f 0 A n i = heapify above A n i.
Proof. intros. apply heapify_fuel_mono; lia. Qed.

Lemma increasekey_fuel_enough A i f :
  i ≤ f → increasekey_fuel above f 0 A i = increasekey above A i.
Proof. intros. apply increasekey_fuel_mono; lia. Qed.

Lemma heapify_length A n i : length (heapify above A n i) = length A.
Proof. apply heapify_fuel_length. Qed.

Lemma heapify_perm A n i :
  n ≤ length A → take n (heapify above A n i) ≡ₚ take n A.
Proof. intros. by apply heapify_fuel_perm. Qed.

Lemma heapify_frame A n i :
  n ≤ length A → drop n (heapify above A n i) = drop n A.
Proof. intros. by apply heapify_fuel_perm. Qed.

Lemma increasekey_length A i : length (increasekey above A i) = length A.
Proof. apply increasekey_fuel_length. Qed.

Lemma increasekey_perm A i n :
  i < n → n ≤ length A → take n (increasekey above A i) ≡ₚ take n A.
Proof. intros. by apply increasekey_fuel_perm. Qed.

Lemma increasekey_frame A i n :
  i < n → n ≤ length A → drop n (increasekey above A i) = drop n A.
Proof. intros. by apply increasekey_fuel_perm. Qed.
End generic.

(** ** The orders of the two routines, for priorities *)

Section order.
Context {T : Type} (P : T → Z).
Implicit Types A : list T.

(** The priority in slot [j]. *)
Definition prio A (j : nat) : Z := default 0%Z (P <$> A !! j).

Definition child (c j : nat) : Prop := c = LEFT j ∨ c = RIGHT j.

(** No child of a slot from [lo] on has a higher priority than the slot: the
    order [heapify] works with. *)
Definition max_heap A (n lo : nat) : Prop :=
  ∀ j c, lo ≤ j → child c j → c < n → (prio A c ≤ prio A j)%Z.

(** No slot has a higher priority than its [PARENT]: the order [increasekey]
    works with. *)
Definition half_heap A (n : nat) : Prop :=
  ∀ j, 0 < j < n → (prio A j ≤ prio A (PARENT j))%Z.

(** Slot 0 holds the highest priority. *)
Definition root_max A (n : nat) : Prop :=
  ∀ j, j < n → (prio A j ≤ prio A 0)%Z.

Lemma prio_swap A i j k :
  i < length A → j < length A →
  prio (swap A i j) k =
    if decide (k = j) then prio A i else if decide (k = i) then prio A j else prio A k.
Proof. intros Hi Hj. unfold prio. rewrite swap_lookup by done. by repeat case_decide. Qed.

Lemma cmp_prio k A i j :
  i < length A → j < length A →
  cmp (PT.above P) k A i j = bool_decide (prio A j < prio A i)%Z.
Proof.
  intros Hi Hj.
  destruct (lookup_lt_is_Some_2 A i Hi) as [x Hx].
  destruct (lookup_lt_is_Some_2 A j Hj) as [y Hy].
  unfold cmp, prio. by rewrite Hx, Hy.
Qed.

(** [heapify] picks the largest of the slot and its children. *)
Lemma heapify_pick_max k A n i m k' :
  n ≤ length A → i < n →
  heapify_pick (PT.above P) k A n i = (m, k') →
  (prio A i ≤ prio A m)%Z ∧ (∀ c, child c i → c < n → (prio A c ≤ prio A m)%Z).
Proof.
  intros Hn Hi Hp. unfold heapify_pick in Hp.
  destruct (Nat.ltb_spec (LEFT i) n), (Nat.ltb_spec (RIGHT i) n); simpl in Hp;
    repeat (rewrite cmp_prio in Hp by (repeat case_match; lia));
    repeat case_bool_decide; simplify_eq;
    (split; [lia|]); intros c [-> | ->] Hc; lia.
Qed.

(** The invariant of the descent: everything is in order except at [i], and
    what hangs below [i] is in order with respect to the parent of [i]. *)
Definition sifting A (n lo i : nat) : Prop :=
  (∀ j c, lo ≤ j → j ≠ i → child c j → c < n → (prio A c ≤ prio A j)%Z) ∧
  (∀ g c, lo ≤ g → child i g → child c i → c < n → (prio A c ≤ prio A g)%Z).

Lemma child_lt c j : child c j → j < c.
Proof. unfold child, LEFT, RIGHT. lia. Qed.
Lemma child_inj c j j' : child c j → child c j' → j = j'.
Proof. unfold child, LEFT, RIGHT. lia. Qed.

Lemma sifting_step A n lo i m :
  n ≤ length A → lo ≤ i → child m i → m < n →
  (prio A i ≤ prio A m)%Z → (∀ c, child c i → c < n → (prio A c ≤ prio A m)%Z) →
  sifting A n lo i → sifting (swap A i m) n lo m.
Proof.
  intros Hn Hlo Hm Hmn Him Hmax [Hord Hgrand].
  pose proof (child_lt _ _ Hm) as Hlt. split.
  - intros j c Hj Hjm Hc Hcn. pose proof (child_lt _ _ Hc).
    rewrite !prio_swap by lia. rewrite (decide_False (P:=j = m)) by done.
    destruct (decide (j = i)) as [->|Hji].
    + case_decide as Hcm; [lia|]. case_decide; [lia|]. by apply Hmax.
    + destruct (decide (c = m)) as [->|Hcm].
      { pose proof (child_inj _ _ _ Hm Hc). lia. }
      destruct (decide (c = i)) as [->|Hci]; [by apply (Hgrand j m)|].
      by apply Hord.
  - intros g c Hg Hmg Hc Hcn. pose proof (child_inj _ _ _ Hmg Hm) as ->.
    pose proof (child_lt _ _ Hc). rewrite !prio_swap by lia.
    rewrite !(decide_False (P:=c = _)) by lia.
    rewrite (decide_False (P:=i = m)) by lia. rewrite decide_True by done.
    apply (Hord m c); [lia|lia|done|done].
Qed.

Lemma sifting_end A n lo i :
  (∀ c, child c i → c < n → (prio A c ≤ prio A i)%Z) → sifting A n lo i → max_heap A n lo.
Proof.
  intros Hi [Hord _] j c Hj Hc Hcn. destruct (decide (j = i)) as [->|]; auto.
Qed.

Lemma heapify_fuel_max_heap f k A n lo i :
  n ≤ length A → n - i ≤ f → lo ≤ i →
  sifting A n lo i → max_heap (heapify_fuel (PT.above P) f k A n i) n lo.
Proof.
  revert k A i. induction f as [|f IH]; intros k A i Hn Hf Hlo Hs; simpl.
  { apply (sifting_end _ _ _ i); [|done]. intros c Hc%child_lt ?. lia. }
  destruct (heapify_pick (PT.above P) k A n i) as [m k'] eqn:Hp.
  destruct (decide (n ≤ i)).
  { pose proof (heapify_pick_spec _ _ _ _ _ _ _ Hp) as [->|[Hm ?]];
      [|pose proof (child_lt _ _ Hm); lia].
    rewrite bool_decide_true by done. apply (sifting_end _ _ _ i); [|done].
    intros c Hc%child_lt ?. lia. }
  destruct (heapify_pick_max k A n i m k' Hn ltac:(lia) Hp) as [Him Hmax].
  case_bool_decide as Hmi; [subst m; by apply (sifting_end _ _ _ i)|].
  destruct (heapify_pick_spec _ _ _ _ _ _ _ Hp) as [?|[Hm Hmn]]; [done|].
  pose proof (child_lt _ _ Hm). apply IH; [by rewrite swap_length|lia|lia|].
  by apply sifting_step.
Qed.

(** *** Sifting up *)

(** The invariant of the ascent. *)
Definition rising A (n i : nat) : Prop :=
  (∀ j, 0 < j < n → j ≠ i → (prio A j ≤ prio A (PARENT j))%Z) ∧
  (0 < i → ∀ c, 0 < c < n → PARENT c = i → (prio A c ≤ prio A (PARENT i))%Z).

Lemma rising_step A n i :
  n ≤ length A → 0 < i < n → (prio A (PARENT i) < prio A i)%Z →
  rising A n i → rising (swap A i (PARENT i)) n (PARENT i).
Proof.
  intros Hn Hi Hlt [Hord Hgrand]. pose proof (PARENT_lt i ltac:(lia)) as Hpi. split.
  - intros j Hj Hjp. pose proof (PARENT_lt j ltac:(lia)).
    rewrite !prio_swap by lia. rewrite (decide_False (P:=j = PARENT i)) by done.
    destruct (decide (j = i)) as [->|Hji].
    { rewrite (decide_True (P:=PARENT i = PARENT i)) by done. lia. }
    pose proof (Hord j Hj Hji).
    destruct (decide (PARENT j = PARENT i)) as [He|]; [rewrite He in *; lia|].
    destruct (decide (PARENT j = i)); [|done]. apply Hgrand; lia.
  - intros Hp0 c Hc Hcp. pose proof (PARENT_lt (PARENT i) Hp0).
    rewrite !prio_swap by lia. rewrite !(decide_False (P:=PARENT (PARENT i) = _)) by lia.
    pose proof (Hord (PARENT i) ltac:(lia) ltac:(lia)).
    destruct (decide (c = i)) as [->|].
    { rewrite (decide_False (P:=i = PARENT i)) by lia. lia. }
    pose proof (PARENT_lt c ltac:(lia)).
    rewrite (decide_False (P:=c = PARENT i)) by lia.
    pose proof (Hord c Hc ltac:(done)). rewrite Hcp in *. lia.
Qed.

Lemma rising_end A n i :
  (0 < i < n → (prio A i ≤ prio A (PARENT i))%Z) → rising A n i → half_heap A n.
Proof.
  intros Hi [Hord _] j Hj. destruct (decide (j = i)) as [->|]; auto.
Qed.

Lemma increasekey_fuel_half_heap f k A n i :
  n ≤ length A → i < n → i ≤ f → rising A n i →
  half_heap (increasekey_fuel (PT.above P) f k A i) n.
Proof.
  revert k A i. induction f as [|f IH]; intros k A i Hn Hi Hf Hr; simpl.
  { apply (rising_end _ _ i); [lia|done]. }
  case_bool_decide as Hi0; simpl; [|apply (rising_end _ _ i); [lia|done]].
  pose proof (PARENT_lt i Hi0). rewrite cmp_prio by lia.
  case_bool_decide as Hlt; [|apply (rising_end _ _ i); [lia|done]].
  apply IH; [by rewrite swap_length|lia|lia|]. apply rising_step; auto with lia.
Qed.

(** A half-heap, or a max-heap, has its maximum at the root. *)
Lemma half_heap_root A n : half_heap A n → root_max A n.
Proof.
  intros Hh j. induction j as [j IH] using lt_wf_ind. intros Hj.
  destruct (decide (j = 0)) as [->|]; [lia|].
  pose proof (PARENT_lt j ltac:(lia)). pose proof (Hh j ltac:(lia)).
  pose proof (IH (PARENT j) ltac:(lia) ltac:(lia)). lia.
Qed.

Lemma max_heap_root A n : max_heap A n 0 → root_max A n.
Proof.
  intros Hh j. induction j as [j IH] using lt_wf_ind. intros Hj.
  destruct (decide (j = 0)) as [->|]; [lia|].
  assert (child j ((j - 1) / 2)) as Hc.
  { unfold child, LEFT, RIGHT. pose proof (Nat.div_mod_eq (j - 1) 2).
    pose proof (Nat.mod_upper_bound (j - 1) 2). lia. }
  pose proof (child_lt _ _ Hc).
  pose proof (Hh _ _ ltac:(lia) Hc Hj). pose proof (IH _ ltac:(done) ltac:(lia)). lia.
Qed.
End order.

(** ** The ready queue as proc.c uses it *)

(** Array and number of queued processes ([itr_q + 1]). *)
Definition queue (T : Type) : Type := list T * nat.

Section ready.
Context {T : Type} (P : T → Z).

(** [itr_q++; ptable.queue[itr_q] = p; increasekey(ptable.queue, itr_q);] *)
Definition enqueue (p : T) (q : queue T) : queue T :=
  (PT.increasekey P (<[q.2 := p]> q.1) q.2, S q.2).

(** [ptable.queue[0] = ptable.queue[itr_q]; heapify(ptable.queue, itr_q, 0);
    itr_q--;] *)
Definition dequeue (q : queue T) : queue T :=
  let itr_q := q.2 - 1 in
  (PT.heapify P (match q.1 !! itr_q with Some x => <[0 := x]> q.1 | None => q.1 end) itr_q 0,
   itr_q).

Definition ready (q : queue T) : list T := take q.2 q.1.

Inductive qop := Enq (p : T) | Deq.

(** A history of the queue; an empty queue is never popped. *)
Fixpoint qrun (ops : list qop) (q : queue T) : queue T :=
  match ops with
  | [] => q
  | Enq p :: ops => qrun ops (enqueue p q)
  | Deq :: ops => qrun ops (if decide (q.2 = 0) then q else dequeue q)
  end.

(** The length of the queue along a history stays at most [b]. *)
Fixpoint bounded (b : nat) (ops : list qop) (n : nat) : Prop :=
  n ≤ b ∧
  match ops with
  | [] => True
  | Enq _ :: ops => bounded b ops (S n)
  | Deq :: ops => bounded b ops (n - 1)
  end.

Lemma enqueue_ready p q :
  q.2 < length q.1 → ready (enqueue p q) ≡ₚ p :: ready q.
Proof.
  destruct q as [A n]. unfold ready, enqueue. simpl. intros Hn.
  unfold PT.increasekey. rewrite increasekey_perm by (rewrite ?length_insert; lia).
  rewrite (take_S_r _ _ p) by (by rewrite list_lookup_insert_eq).
  rewrite take_insert_ge by lia. symmetry. apply Permutation_cons_append.
Qed.

Lemma enqueue_length p q : length (enqueue p q).1 = length q.1.
Proof. unfold enqueue, PT.increasekey. simpl. by rewrite increasekey_length, length_insert. Qed.

Lemma dequeue_length q : length (dequeue q).1 = length q.1.
Proof.
  unfold dequeue, PT.heapify. simpl. rewrite heapify_length.
  destruct (_ !! _); by rewrite ?length_insert.
Qed.

Lemma dequeue_ready p q :
  0 < q.2 ≤ length q.1 → q.1 !! 0 = Some p → p :: ready (dequeue q) ≡ₚ ready q.
Proof.
  destruct q as [A n]. unfold ready, dequeue. simpl. intros Hn Hp.
  destruct n as [|k]; [lia|]. replace (S k - 1) with k by lia.
  destruct (lookup_lt_is_Some_2 A k) as [x Hx]; [lia|]. rewrite Hx.
  unfold PT.heapify. rewrite heapify_perm by (rewrite length_insert; lia).
  destruct A as [|a A]; [done|]. simpl in Hp. simplify_eq. simpl.
  destruct k as [|k]; simpl in Hx; simplify_eq; [done|].
  rewrite (take_S_r A _ x) by done. simpl. constructor. apply Permutation_cons_append.
Qed.

(** *** Queues of at most five processes are served in priority order *)

Definition small (q : queue T) : Prop :=
  let '(A, n) := q in
  5 ≤ length A ∧ n ≤ 5 ∧ root_max P A n ∧
  (3 < n → (prio P A 3 ≤ prio P A 1)%Z) ∧
  (4 < n → (prio P A 4 ≤ prio P A 1 ∨ prio P A 4 ≤ prio P A 2)%Z).

Lemma root_max_unfold A n :
  n ≤ 5 → root_max P A n →
  (1 < n → (prio P A 1 ≤ prio P A 0)%Z) ∧ (2 < n → (prio P A 2 ≤ prio P A 0)%Z) ∧
  (3 < n → (prio P A 3 ≤ prio P A 0)%Z) ∧ (4 < n → (prio P A 4 ≤ prio P A 0)%Z).
Proof. intros Hn Hr. repeat split; intros; by apply Hr. Qed.

Lemma root_max_fold A n :
  n ≤ 5 →
  (1 < n → (prio P A 1 ≤ prio P A 0)%Z) → (2 < n → (prio P A 2 ≤ prio P A 0)%Z) →
  (3 < n → (prio P A 3 ≤ prio P A 0)%Z) → (4 < n → (prio P A 4 ≤ prio P A 0)%Z) →
  root_max P A n.
Proof. intros Hn ???? [|[|[|[|[|j]]]]] Hj; auto; lia. Qed.

Lemma small_unfold A n :
  small (A, n) ↔
  5 ≤ length A ∧ n ≤ 5 ∧
  ((1 < n → (prio P A 1 ≤ prio P A 0)%Z) ∧ (2 < n → (prio P A 2 ≤ prio P A 0)%Z) ∧
   (3 < n → (prio P A 3 ≤ prio P A 0)%Z) ∧ (4 < n → (prio P A 4 ≤ prio P A 0)%Z)) ∧
  (3 < n → (prio P A 3 ≤ prio P A 1)%Z) ∧
  (4 < n → (prio P A 4 ≤ prio P A 1 ∨ prio P A 4 ≤ prio P A 2)%Z).
Proof.
  unfold small. split.
  - intros (?&?&Hr&?&?). split_and!; auto; intros; by apply Hr.
  - intros (?&?&(?&?&?&?)&?&?). split_and!; auto.
    intros [|[|[|[|[|j]]]]] Hj; auto; lia.
Qed.

(** Case analysis on every comparison of a queue of known length; the goal is
    [r = program → conclusion about r]. *)
Ltac small_cases :=
  unfold prio in *; simpl in *; destruct_and?;
  repeat match goal with
    | H : (?a < ?b)%nat → _ |- _ =>
      first [specialize (H ltac:(lia)) | clear H]
    end;
  repeat (cbv [cmp swap PARENT LEFT RIGHT heapify_pick PT.above]; simpl;
    match goal with
    | |- _ = ?e → _ => lazymatch e with
      | context [bool_decide (P ?x < P ?y)%Z] => is_var x; is_var y; let Hlt := fresh "Hlt" in
        destruct (decide (P x < P y)%Z) as [Hlt|Hlt];
        [rewrite (bool_decide_true _ Hlt) | rewrite (bool_decide_false _ Hlt)]
      | context [bool_decide (?i < ?j)%nat] =>
        let b := eval vm_compute in (bool_decide (i < j)%nat) in
        change (bool_decide (i < j)%nat) with b
      | context [bool_decide (?i =@{nat} ?j)] =>
        let b := eval vm_compute in (bool_decide (i = j)) in
        change (bool_decide (i = j)) with b
      end
    end);
  intros ->; simpl; repeat split; intros; lia.

Lemma enqueue_small p q : q.2 < 5 → small q → small (enqueue p q).
Proof.
  destruct q as [A n]; simpl. intros Hn (HA & _ & Hr & H3 & H4)%small_unfold.
  pose proof (enqueue_length p (A, n)) as Hlen. revert Hlen.
  unfold enqueue. simpl fst. simpl snd. intros Hlen. apply small_unfold.
  split; [by rewrite Hlen|]. split; [lia|]. clear Hlen.
  do 5 (destruct A as [|? A]; [simpl in HA; lia|]).
  remember (PT.increasekey _ _ _) as r eqn:Er. revert Er.
  unfold PT.increasekey, increasekey, cmp.
  destruct n as [|[|[|[|[|n]]]]]; [..|lia]; small_cases.
Qed.

Lemma dequeue_small q : 0 < q.2 → small q → small (dequeue q).
Proof.
  destruct q as [A n]; simpl. intros Hn (HA & Hn5 & Hr & H3 & H4)%small_unfold.
  pose proof (dequeue_length (A, n)) as Hlen. revert Hlen.
  unfold dequeue. simpl fst. simpl snd. intros Hlen. apply small_unfold.
  split; [by rewrite Hlen|]. split; [lia|]. clear Hlen.
  do 5 (destruct A as [|? A]; [simpl in HA; lia|]).
  remember (PT.heapify _ _ _ _) as r eqn:Er. revert Er.
  unfold PT.heapify, heapify.
  destruct n as [|[|[|[|[|[|n]]]]]]; [lia|..|lia]; small_cases.
Qed.

Lemma qrun_small ops q : small q → bounded 5 ops q.2 → small (qrun ops q).
Proof.
  revert q. induction ops as [|[p|] ops IH]; intros q Hq [Hb Hops]; simpl; [done|..].
  - apply IH; [|done]. apply enqueue_small; [|done]. destruct ops as [|[] ?], Hops; lia.
  - case_decide as Hz; (apply IH; [|by rewrite ?Hz in *]); [done|].
    apply dequeue_small; [lia|done].
Qed.
End ready.

(** ** The theorems *)

(** [heapify] (max-heap copy) on a queue whose slots below [i] are in
    [LEFT]/[RIGHT] order puts slot [i] in order too; the queued processes are
    permuted and the slots past the queue are untouched. *)
Theorem heapify_restores {T} (P : T → Z) (A : list T) (n i : nat) :
  n ≤ length A → max_heap P A n (S i) →
  max_heap P (PT.heapify P A n i) n i ∧
  take n (PT.heapify P A n i) ≡ₚ take n A ∧
  drop n (PT.heapify P A n i) = drop n A.
Proof.
  intros Hn Hh. unfold PT.heapify. split_and!.
  - apply heapify_fuel_max_heap; [done|lia|lia|]. split.
    + intros j c Hj Hji. apply Hh. lia.
    + intros g c Hg Hc%child_lt. lia.
  - by apply heapify_perm.
  - by apply heapify_frame.
Qed.

Lemma heapify_restores_witness :
  max_heap id (PT.heapify id [1; 9; 5; 4; 8; 2]%Z 6 0) 6 0 ∧
  PT.heapify id [1; 9; 5; 4; 8; 2]%Z 6 0 = [9; 8; 5; 4; 1; 2]%Z.
Proof.
  split; [|reflexivity].
  refine (proj1 (heapify_restores id [1; 9; 5; 4; 8; 2]%Z 6 0 _ _)); [simpl; lia|].
  intros j c Hj Hc Hcn. destruct Hc as [-> | ->]; unfold LEFT, RIGHT in *;
    (destruct j as [|[|[|[|[|j]]]]]; simpl in *; [lia|cbn; lia|cbn; lia|lia..]).
Defined.

(** [increasekey] after a process is stored behind a queue in [PARENT]
    order leaves the longer queue in [PARENT] order, with the highest priority
    at the root, and only permutes it. *)
Theorem increasekey_restores {T} (P : T → Z) (A : list T) (i : nat) :
  i < length A → half_heap P A i →
  half_heap P (PT.increasekey P A i) (S i) ∧
  root_max P (PT.increasekey P A i) (S i) ∧
  take (S i) (PT.increasekey P A i) ≡ₚ take (S i) A.
Proof.
  intros Hi Hh.
  assert (half_heap P (PT.increasekey P A i) (S i)) as Hr.
  { apply increasekey_fuel_half_heap; [lia|lia|lia|]. split.
    - intros j Hj Hji. apply Hh. lia.
    - intros Hi0 c Hc Hp. pose proof (PARENT_lt c ltac:(lia)). lia. }
  split_and!; [done|by apply half_heap_root|].
  apply increasekey_perm; lia.
Qed.

Lemma increasekey_restores_witness :
  root_max id (PT.increasekey id [7; 5; 3; 9]%Z 3) 4 ∧
  PT.increasekey id [7; 5; 3; 9]%Z 3 = [9; 7; 3; 5]%Z.
Proof.
  split; [|reflexivity].
  refine (proj1 (proj2 (increasekey_restores id [7; 5; 3; 9]%Z 3 _ _))); [simpl; lia|].
  intros j Hj. destruct j as [|[|[|j]]]; [lia|cbn; lia|cbn; lia|lia].
Defined.

(** C39: whatever the sequence of insertions and extractions, as long as at most
    five processes are ready at once the process the scheduler takes next,
    [queue[0]], has the highest priority of all ready processes. *)
Theorem five_ready_highest_first {T} (P : T → Z) (A : list T) (ops : list (qop (T:=T))) :
  5 ≤ length A → bounded 5 ops 0 →
  root_max P (qrun P ops (A, 0)).1 (qrun P ops (A, 0)).2.
Proof.
  intros HA Hb. assert (small P (qrun P ops (A, 0))) as Hs.
  { apply qrun_small; [|done]. unfold small. split_and!; [done|lia| |lia|lia].
    intros j Hj. lia. }
  unfold small in Hs. destruct (qrun P ops (A, 0)) as [A' n']. apply Hs.
Qed.

Lemma five_ready_highest_first_witness :
  let ops := [Enq 3; Enq 8; Enq 1; Enq 9; Deq; Enq 4; Enq 2; Deq]%Z in
  bounded 5 ops 0 ∧ (qrun id ops (replicate 64 0%Z, 0)).1 !! 0 = Some 4%Z ∧
  root_max id (qrun id ops (replicate 64 0%Z, 0)).1 (qrun id ops (replicate 64 0%Z, 0)).2.
Proof.
  split; [simpl; lia|]. split; [reflexivity|].
  apply (five_ready_highest_first id); simpl; lia.
Defined.

(** C40: six ready processes are enough for [queue[0]] not to hold the highest
    priority: [increasekey] climbs along [PARENT(x) = x/2], which is not the
    inverse of [LEFT] and [RIGHT] ([PARENT(RIGHT(x))] is never [x]), so a right
    child can end up above its [heapify] parent. *)
Theorem six_ready_inversion :
  (∀ x, PARENT (RIGHT x) ≠ x) ∧
  let ops := [Enq 90; Enq 80; Enq 70; Enq 60; Enq 50; Deq; Enq 65; Enq 10; Deq; Enq 5; Deq]%Z in
  let q := qrun id ops (replicate 64 0%Z, 0) in
  bounded 6 ops 0 ∧ ready q = [60; 65; 10; 50; 5]%Z ∧ ¬ root_max id q.1 q.2.
Proof.
  split.
  - intros x. unfold PARENT, RIGHT. replace (2 * x + 2) with ((x + 1) * 2) by lia.
    rewrite Nat.div_mul by lia. lia.
  - split_and!; [simpl; lia|vm_compute; reflexivity|].
    intros Hr. assert (1 < 5)%nat as H15 by lia.
    specialize (Hr 1 H15). vm_compute in Hr. by apply Hr.
Qed.

(** For every comparison, and in particular for every clock EDF may read,
    [heapify] and [increasekey] terminate (more fuel computes the same queue)
    and neither loses nor duplicates a process. *)
Theorem heap_terminates_permutes {T} (arrtime D : T → Z) (tick : nat → nat → Z)
    (A : list T) (n i f : nat) :
  n ≤ length A → i < n → n ≤ f →
  heapify_fuel (EDF.above arrtime D tick) f 0 A n i = EDF.heapify arrtime D tick A n i ∧
  take n (EDF.heapify arrtime D tick A n i) ≡ₚ take n A ∧
  increasekey_fuel (EDF.above arrtime D tick) f 0 A i = EDF.increasekey arrtime D tick A i ∧
  take n (EDF.increasekey arrtime D tick A i) ≡ₚ take n A.
Proof.
  intros Hn Hi Hf. unfold EDF.heapify, EDF.increasekey. split_and!.
  - by apply heapify_fuel_enough.
  - by apply heapify_perm.
  - apply increasekey_fuel_enough. lia.
  - by apply increasekey_perm.
Qed.

Lemma heap_terminates_permutes_witness :
  heapify_fuel (EDF.above id (λ _, 5%Z) (λ k j, Z.of_nat (k + j))) 7 0 [7; 2; 3]%Z 3 0 =
    EDF.heapify id (λ _, 5%Z) (λ k j, Z.of_nat (k + j)) [7; 2; 3]%Z 3 0 ∧
  EDF.heapify id (λ _, 5%Z) (λ k j, Z.of_nat (k + j)) [7; 2; 3]%Z 3 0 = [2; 7; 3]%Z.
Proof.
  split; [|reflexivity].
  refine (proj1 (heap_terminates_permutes id (λ _, 5%Z) (λ k j, Z.of_nat (k + j))
    [7; 2; 3]%Z 3 0 7 _ _ _)); simpl; lia.
Defined.

(** [deadline] is the exact time left when the clock did not pass it before
    the test, measured at its second reading (so it may be negative, never a
    huge wrapped value), and 0 once overdue; for times below [2^31] ticks. *)
Theorem deadline_exact (t1 t2 arrtime D : Z) :
  (0 ≤ arrtime ∧ 0 ≤ D ∧ 0 ≤ t1 ≤ t2 ∧ arrtime + D < 2 ^ 31 ∧ t2 < 2 ^ 31)%Z →
  EDF.deadline t1 t2 arrtime D =
    if bool_decide (t1 ≤ arrtime + D)%Z then (arrtime + D - t2)%Z else 0%Z.
Proof.
  intros (? & ? & ? & ? & ?). unfold EDF.deadline, u64, i32.
  rewrite !(Z.mod_small (arrtime + D)) by lia. case_bool_decide; [|done].
  destruct (decide (t2 ≤ arrtime + D)%Z).
  - rewrite (Z.mod_small (_ - t2)) by lia. rewrite Z.mod_small by lia. lia.
  - rewrite <-(Z.mod_add (arrtime + D - t2) 1) by lia.
    rewrite (Z.mod_small _ (2 ^ 64)) by lia.
    replace (arrtime + D - t2 + 1 * 2 ^ 64 + 2 ^ 31)%Z
      with ((arrtime + D - t2 + 2 ^ 31) + 2 ^ 32 * 2 ^ 32)%Z by lia.
    rewrite Z.mod_add by lia. rewrite Z.mod_small by lia. lia.
Qed.

Lemma deadline_exact_witness : EDF.deadline 9 11 7 3 = (-1)%Z.
Proof. rewrite deadline_exact by lia. reflexivity. Defined.
