(* ===== verification/Proc.v ===== *)
(** * Processes and the real-time scheduler (proc.c, proc.h)

    The process table, the ready queue, process creation, exit and wait, the
    sleep/wakeup protocol, the preemption-threshold scheduler and the timing
    statistics, in the configuration types.h selects ([RT] defined as 0). A
    process that gives up the CPU does so in [sched], after which the code of
    [scheduler] behind its [swtch] runs; the rest of the function is what
    [resume] runs when the process is dispatched again, so a saved [context] is
    the name of that rest. Memory and file operations are those of an
    environment [E] with the interface [ProcEnv]. *)

From S2P Require Import Prelude Heap.

(** ** param.h, mmu.h and memlayout.h constants *)

Definition NPROC : nat := 64.
Definition NOFILE : nat := 16.
Definition KSTACKSIZE : Z := 4096.
Definition PGSIZE : Z := 4096.
Definition TAM : Z := 50000.

(** ** Data: proc.h and the trap frame of x86.h *)

Inductive procstate := UNUSED | EMBRYO | SLEEPING | RUNNABLE | RUNNING | ZOMBIE | WAITING.

#[export] Instance procstate_eq_dec : EqDecision procstate.
Proof. solve_decision. Defined.

(** The code a saved context resumes: [forkret], or what follows [sched] in
    [yield], [sleep] (which re-takes its lock) and [exit]. *)
Inductive kont := KForkret | KYield | KSleep (lk : lock) | KExit.

Record trapframe := Trapframe {
  edi : Z;
  esi : Z;
  ebp : Z;
  oesp : Z;
  ebx : Z;
  edx : Z;
  ecx : Z;
  eax : Z;
  gs : Z;
  fs : Z;
  es : Z;
  ds : Z;
  trapno : Z;
  err : Z;
  eip : Z;
  cs : Z;
  eflags : Z;
  esp : Z;
  ss : Z;
}.

Definition set_eax (v : Z) (x : trapframe) : trapframe :=
  Trapframe (edi x) (esi x) (ebp x) (oesp x) (ebx x) (edx x) (ecx x) v (gs x) (fs x) (es x) (ds x) (trapno x) (err x) (eip x) (cs x) (eflags x) (esp x) (ss x).

Definition trapframe0 : trapframe :=
  Trapframe 0 0 0 0 0 0 0 0 0 0 0 0 0 0 0 0 0 0 0.

Record proc := Proc {
  pO : Z;  (* threshold (first word of the struct) *)
  pP : Z;  (* priority *)
  ctxswt : Z;  (* context switches *)
  arrtime : Z;  (* arrival time *)
  firstsch : Z;  (* first scheduling *)
  pD : Z;  (* deadline *)
  pC : Z;  (* computation time *)
  sz : Z;  (* size of process memory *)
  pgdir : Z;  (* page table, 0 for none *)
  kstack : Z;  (* kernel stack page, 0 for none *)
  state : procstate;
  pid : Z;
  parent : option nat;
  tf : trapframe;
  tf_addr : Z;  (* p->tf *)
  context : kont;  (* where swtch resumes *)
  context_addr : Z;  (* p->context *)
  pchan : option chan;  (* sleeping on *)
  killed : bool;
  ofile : list (option nat);  (* open files *)
  cwd : option nat;  (* current directory *)
  name : string;
}.

Definition set_pO (v : Z) (x : proc) : proc :=
  Proc v (pP x) (ctxswt x) (arrtime x) (firstsch x) (pD x) (pC x) (sz x) (pgdir x) (kstack x) (state x) (pid x) (parent x) (tf x) (tf_addr x) (context x) (context_addr x) (pchan x) (killed x) (ofile x) (cwd x) (name x).
Definition set_pP (v : Z) (x : proc) : proc :=
  Proc (pO x) v (ctxswt x) (arrtime x) (firstsch x) (pD x) (pC x) (sz x) (pgdir x) (kstack x) (state x) (pid x) (parent x) (tf x) (tf_addr x) (context x) (context_addr x) (pchan x) (killed x) (ofile x) (cwd x) (name x).
Definition set_ctxswt (v : Z) (x : proc) : proc :=
  Proc (pO x) (pP x) v (arrtime x) (firstsch x) (pD x) (pC x) (sz x) (pgdir x) (kstack x) (state x) (pid x) (parent x) (tf x) (tf_addr x) (context x) (context_addr x) (pchan x) (killed x) (ofile x) (cwd x) (name x).
Definition set_arrtime (v : Z) (x : proc) : proc :=
  Proc (pO x) (pP x) (ctxswt x) v (firstsch x) (pD x) (pC x) (sz x) (pgdir x) (kstack x) (state x) (pid x) (parent x) (tf x) (tf_addr x) (context x) (context_addr x) (pchan x) (killed x) (ofile x) (cwd x) (name x).
Definition set_firstsch (v : Z) (x : proc) : proc :=
  Proc (pO x) (pP x) (ctxswt x) (arrtime x) v (pD x) (pC x) (sz x) (pgdir x) (kstack x) (state x) (pid x) (parent x) (tf x) (tf_addr x) (context x) (context_addr x) (pchan x) (killed x) (ofile x) (cwd x) (name x).
Definition set_pD (v : Z) (x : proc) : proc :=
  Proc (pO x) (pP x) (ctxswt x) (arrtime x) (firstsch x) v (pC x) (sz x) (pgdir x) (kstack x) (state x) (pid x) (parent x) (tf x) (tf_addr x) (context x) (context_addr x) (pchan x) (killed x) (ofile x) (cwd x) (name x).
Definition set_pC (v : Z) (x : proc) : proc :=
  Proc (pO x) (pP x) (ctxswt x) (arrtime x) (firstsch x) (pD x) v (sz x) (pgdir x) (kstack x) (state x) (pid x) (parent x) (tf x) (tf_addr x) (context x) (context_addr x) (pchan x) (killed x) (ofile x) (cwd x) (name x).
Definition set_sz (v : Z) (x : proc) : proc :=
  Proc (pO x) (pP x) (ctxswt x) (arrtime x) (firstsch x) (pD x) (pC x) v (pgdir x) (kstack x) (state x) (pid x) (parent x) (tf x) (tf_addr x) (context x) (context_addr x) (pchan x) (killed x) (ofile x) (cwd x) (name x).
Definition set_pgdir (v : Z) (x : proc) : proc :=
  Proc (pO x) (pP x) (ctxswt x) (arrtime x) (firstsch x) (pD x) (pC x) (sz x) v (kstack x) (state x) (pid x) (parent x) (tf x) (tf_addr x) (context x) (context_addr x) (pchan x) (killed x) (ofile x) (cwd x) (name x).
Definition set_kstack (v : Z) (x : proc) : proc :=
  Proc (pO x) (pP x) (ctxswt x) (arrtime x) (firstsch x) (pD x) (pC x) (sz x) (pgdir x) v (state x) (pid x) (parent x) (tf x) (tf_addr x) (context x) (context_addr x) (pchan x) (killed x) (ofile x) (cwd x) (name x).
Definition set_state (v : procstate) (x : proc) : proc :=
  Proc (pO x) (pP x) (ctxswt x) (arrtime x) (firstsch x) (pD x) (pC x) (sz x) (pgdir x) (kstack x) v (pid x) (parent x) (tf x) (tf_addr x) (context x) (context_addr x) (pchan x) (killed x) (ofile x) (cwd x) (name x).
Definition set_pid (v : Z) (x : proc) : proc :=
  Proc (pO x) (pP x) (ctxswt x) (arrtime x) (firstsch x) (pD x) (pC x) (sz x) (pgdir x) (kstack x) (state x) v (parent x) (tf x) (tf_addr x) (context x) (context_addr x) (pchan x) (killed x) (ofile x) (cwd x) (name x).
Definition set_parent (v : option nat) (x : proc) : proc :=
  Proc (pO x) (pP x) (ctxswt x) (arrtime x) (firstsch x) (pD x) (pC x) (sz x) (pgdir x) (kstack x) (state x) (pid x) v (tf x) (tf_addr x) (context x) (context_addr x) (pchan x) (killed x) (ofile x) (cwd x) (name x).
Definition set_tf (v : trapframe) (x : proc) : proc :=
  Proc (pO x) (pP x) (ctxswt x) (arrtime x) (firstsch x) (pD x) (pC x) (sz x) (pgdir x) (kstack x) (state x) (pid x) (parent x) v (tf_addr x) (context x) (context_addr x) (pchan x) (killed x) (ofile x) (cwd x) (name x).
Definition set_tf_addr (v : Z) (x : proc) : proc :=
  Proc (pO x) (pP x) (ctxswt x) (arrtime x) (firstsch x) (pD x) (pC x) (sz x) (pgdir x) (kstack x) (state x) (pid x) (parent x) (tf x) v (context x) (context_addr x) (pchan x) (killed x) (ofile x) (cwd x) (name x).
Definition set_context (v : kont) (x : proc) : proc :=
  Proc (pO x) (pP x) (ctxswt x) (arrtime x) (firstsch x) (pD x) (pC x) (sz x) (pgdir x) (kstack x) (state x) (pid x) (parent x) (tf x) (tf_addr x) v (context_addr x) (pchan x) (killed x) (ofile x) (cwd x) (name x).
Definition set_context_addr (v : Z) (x : proc) : proc :=
  Proc (pO x) (pP x) (ctxswt x) (arrtime x) (firstsch x) (pD x) (pC x) (sz x) (pgdir x) (kstack x) (state x) (pid x) (parent x) (tf x) (tf_addr x) (context x) v (pchan x) (killed x) (ofile x) (cwd x) (name x).
Definition set_pchan (v : option chan) (x : proc) : proc :=
  Proc (pO x) (pP x) (ctxswt x) (arrtime x) (firstsch x) (pD x) (pC x) (sz x) (pgdir x) (kstack x) (state x) (pid x) (parent x) (tf x) (tf_addr x) (context x) (context_addr x) v (killed x) (ofile x) (cwd x) (name x).
Definition set_killed (v : bool) (x : proc) : proc :=
  Proc (pO x) (pP x) (ctxswt x) (arrtime x) (firstsch x) (pD x) (pC x) (sz x) (pgdir x) (kstack x) (state x) (pid x) (parent x) (tf x) (tf_addr x) (context x) (context_addr x) (pchan x) v (ofile x) (cwd x) (name x).
Definition set_ofile (v : list (option nat)) (x : proc) : proc :=
  Proc (pO x) (pP x) (ctxswt x) (arrtime x) (firstsch x) (pD x) (pC x) (sz x) (pgdir x) (kstack x) (state x) (pid x) (parent x) (tf x) (tf_addr x) (context x) (context_addr x) (pchan x) (killed x) v (cwd x) (name x).
Definition set_cwd (v : option nat) (x : proc) : proc :=
  Proc (pO x) (pP x) (ctxswt x) (arrtime x) (firstsch x) (pD x) (pC x) (sz x) (pgdir x) (kstack x) (state x) (pid x) (parent x) (tf x) (tf_addr x) (context x) (context_addr x) (pchan x) (killed x) (ofile x) v (name x).
Definition set_name (v : string) (x : proc) : proc :=
  Proc (pO x) (pP x) (ctxswt x) (arrtime x) (firstsch x) (pD x) (pC x) (sz x) (pgdir x) (kstack x) (state x) (pid x) (parent x) (tf x) (tf_addr x) (context x) (context_addr x) (pchan x) (killed x) (ofile x) (cwd x) v.

(** A zero-filled table entry. *)
Definition proc0 : proc :=
  Proc 0 0 0 0 0 0 0 0 0 0 UNUSED 0 None trapframe0 0 KForkret 0 None false
       (replicate NOFILE None) None "".

(** One record of the timing table. *)
Record statistic := Statistic {
  sO : Z;
  sP : Z;
  sarrtime : Z;
  sfirstsch : Z;
  sfinish : Z;
  sD : Z;
  sC : Z;
  sctxswt : Z;
  spid : Z;
}.

Definition statistic0 : statistic := Statistic 0 0 0 0 0 0 0 0 0.

(** Arguments of cprintf. *)
Inductive carg := AInt (z : Z) | AStr (s : string).

(** ** The interface to the memory and file layers *)

Class ProcEnv (E : Type) := {
  kalloc : kM E Z;                      (* 0 when no page is free *)
  kfree : Z → kM E unit;
  setupkvm : kM E Z;                    (* 0 on failure *)
  inituvm : Z → kM E unit;              (* load initcode into a page table *)
  copyuvm : Z → Z → kM E Z;             (* 0 on failure *)
  allocuvm : Z → Z → Z → kM E Z;        (* 0 on failure *)
  deallocuvm : Z → Z → Z → kM E Z;
  freevm : Z → kM E unit;
  filedup : nat → kM E nat;
  fileclose : nat → kM E unit;
  idup : nat → kM E nat;
  iput_op : nat → kM E unit;            (* begin_op(); iput(ip); end_op() *)
  namei_root : kM E (option nat);       (* namei("/") *)
  fs_init : kM E unit;                  (* iinit(ROOTDEV); initlog(ROOTDEV) *)
}.

(** How a function that may give up the CPU ends. *)
Inductive ctl (A : Type) := Ret (a : A) | Switched.
Arguments Ret {A} a.
Arguments Switched {A}.

Module Proc.
Section proc.
Context {E : Type} `{ProcEnv E}.

(** ** Kernel state of proc.c *)

Record st := St {
  sheld : list lock;  (* locks held by this CPU *)
  procs : list proc;  (* ptable.proc *)
  rq : list nat;  (* ptable.queue *)
  itr_q : Z;  (* last used slot of the queue; 2^32-1 when empty *)
  cur : option nat;  (* proc, the running process of this CPU *)
  nextpid : Z;
  initproc : option nat;
  frozen : bool;
  interrupt : bool;
  first : bool;  (* forkret's static *)
  miss : Z;
  itr_s : Z;
  statistics : gmap Z statistic;
  clock : nat → Z;  (* the readings of rdtsc, shifted by 23 *)
  nclk : nat;  (* readings made so far *)
  kword : chan → Z;  (* the first word of the kernel object at a channel *)
  out : list (string * list carg);  (* calls of cprintf, in order *)
  env : E;  (* memory and file layers *)
}.

Definition set_sheld (v : list lock) (x : st) : st :=
  St v (procs x) (rq x) (itr_q x) (cur x) (nextpid x) (initproc x) (frozen x) (interrupt x) (first x) (miss x) (itr_s x) (statistics x) (clock x) (nclk x) (kword x) (out x) (env x).
Definition set_procs (v : list proc) (x : st) : st :=
  St (sheld x) v (rq x) (itr_q x) (cur x) (nextpid x) (initproc x) (frozen x) (interrupt x) (first x) (miss x) (itr_s x) (statistics x) (clock x) (nclk x) (kword x) (out x) (env x).
Definition set_rq (v : list nat) (x : st) : st :=
  St (sheld x) (procs x) v (itr_q x) (cur x) (nextpid x) (initproc x) (frozen x) (interrupt x) (first x) (miss x) (itr_s x) (statistics x) (clock x) (nclk x) (kword x) (out x) (env x).
Definition set_itr_q (v : Z) (x : st) : st :=
  St (sheld x) (procs x) (rq x) v (cur x) (nextpid x) (initproc x) (frozen x) (interrupt x) (first x) (miss x) (itr_s x) (statistics x) (clock x) (nclk x) (kword x) (out x) (env x).
Definition set_cur (v : option nat) (x : st) : st :=
  St (sheld x) (procs x) (rq x) (itr_q x) v (nextpid x) (initproc x) (frozen x) (interrupt x) (first x) (miss x) (itr_s x) (statistics x) (clock x) (nclk x) (kword x) (out x) (env x).
Definition set_nextpid (v : Z) (x : st) : st :=
  St (sheld x) (procs x) (rq x) (itr_q x) (cur x) v (initproc x) (frozen x) (interrupt x) (first x) (miss x) (itr_s x) (statistics x) (clock x) (nclk x) (kword x) (out x) (env x).
Definition set_initproc (v : option nat) (x : st) : st :=
  St (sheld x) (procs x) (rq x) (itr_q x) (cur x) (nextpid x) v (frozen x) (interrupt x) (first x) (miss x) (itr_s x) (statistics x) (clock x) (nclk x) (kword x) (out x) (env x).
Definition set_frozen (v : bool) (x : st) : st :=
  St (sheld x) (procs x) (rq x) (itr_q x) (cur x) (nextpid x) (initproc x) v (interrupt x) (first x) (miss x) (itr_s x) (statistics x) (clock x) (nclk x) (kword x) (out x) (env x).
Definition set_interrupt (v : bool) (x : st) : st :=
  St (sheld x) (procs x) (rq x) (itr_q x) (cur x) (nextpid x) (initproc x) (frozen x) v (first x) (miss x) (itr_s x) (statistics x) (clock x) (nclk x) (kword x) (out x) (env x).
Definition set_first (v : bool) (x : st) : st :=
  St (sheld x) (procs x) (rq x) (itr_q x) (cur x) (nextpid x) (initproc x) (frozen x) (interrupt x) v (miss x) (itr_s x) (statistics x) (clock x) (nclk x) (kword x) (out x) (env x).
Definition set_miss (v : Z) (x : st) : st :=
  St (sheld x) (procs x) (rq x) (itr_q x) (cur x) (nextpid x) (initproc x) (frozen x) (interrupt x) (first x) v (itr_s x) (statistics x) (clock x) (nclk x) (kword x) (out x) (env x).
Definition set_itr_s (v : Z) (x : st) : st :=
  St (sheld x) (procs x) (rq x) (itr_q x) (cur x) (nextpid x) (initproc x) (frozen x) (interrupt x) (first x) (miss x) v (statistics x) (clock x) (nclk x) (kword x) (out x) (env x).
Definition set_statistics (v : gmap Z statistic) (x : st) : st :=
  St (sheld x) (procs x) (rq x) (itr_q x) (cur x) (nextpid x) (initproc x) (frozen x) (interrupt x) (first x) (miss x) (itr_s x) v (clock x) (nclk x) (kword x) (out x) (env x).
Definition set_clock (v : nat → Z) (x : st) : st :=
  St (sheld x) (procs x) (rq x) (itr_q x) (cur x) (nextpid x) (initproc x) (frozen x) (interrupt x) (first x) (miss x) (itr_s x) (statistics x) v (nclk x) (kword x) (out x) (env x).
Definition set_nclk (v : nat) (x : st) : st :=
  St (sheld x) (procs x) (rq x) (itr_q x) (cur x) (nextpid x) (initproc x) (frozen x) (interrupt x) (first x) (miss x) (itr_s x) (statistics x) (clock x) v (kword x) (out x) (env x).
Definition set_kword (v : chan → Z) (x : st) : st :=
  St (sheld x) (procs x) (rq x) (itr_q x) (cur x) (nextpid x) (initproc x) (frozen x) (interrupt x) (first x) (miss x) (itr_s x) (statistics x) (clock x) (nclk x) v (out x) (env x).
Definition set_out (v : list (string * list carg)) (x : st) : st :=
  St (sheld x) (procs x) (rq x) (itr_q x) (cur x) (nextpid x) (initproc x) (frozen x) (interrupt x) (first x) (miss x) (itr_s x) (statistics x) (clock x) (nclk x) (kword x) v (env x).
Definition set_env (v : E) (x : st) : st :=
  St (sheld x) (procs x) (rq x) (itr_q x) (cur x) (nextpid x) (initproc x) (frozen x) (interrupt x) (first x) (miss x) (itr_s x) (statistics x) (clock x) (nclk x) (kword x) (out x) v.

#[export] Instance st_locks : HasLocks st.
Proof. refine {| held := sheld; set_held := set_sheld |}; intros; by destruct s. Defined.

(** ** Access to the state *)

Local Open Scope kern_scope.

Definition envl : lens st E := Lens env set_env.

(** A call into the memory or file layer. *)
Definition call {A} (m : kM E A) : kM st A := kzoom envl m.

(** [ptable.proc[i]]; a null or wild pointer faults. *)
Definition getp (i : nat) : kM st proc := s ← kget; kunwrap (procs s !! i).

Definition modp (i : nat) (f : proc → proc) : kM st unit :=
  p ← getp i; kmodify (λ s, set_procs (<[i := f p]> (procs s)) s).

(** The pointer [proc] of this CPU, about to be dereferenced. *)
Definition self : kM st nat := s ← kget; kunwrap (cur s).

(** [tick()]: the next reading of the time-stamp counter. *)
Definition tick : kM st Z :=
  s ← kget; kput (set_nclk (S (nclk s)) s) ;; kret (u64 (clock s (nclk s))).

Definition cprintf (fmt : string) (args : list carg) : kM st unit :=
  kmodify (λ s, set_out (out s ++ [(fmt, args)]) s).

(** The priority of a queued process. *)
Definition prio_of (ps : list proc) (i : nat) : Z := default 0%Z (pP <$> ps !! i).

(** Number of queued processes: [itr_q + 1] in [uint]. *)
Definition qlen (s : st) : nat := Z.to_nat (u32 (itr_q s + 1)).

(** The queue operations dereference the queued pointers. *)
Definition pointers_ok (s : st) (n : nat) : bool :=
  bool_decide (n ≤ length (rq s)) && forallb (λ i, bool_decide (i < length (procs s))) (take n (rq s)).

(** [itr_q++; ptable.queue[itr_q] = p; increasekey(ptable.queue, itr_q);] *)
Definition insert_queue (p : nat) : kM st unit :=
  s ← kget;
  let n := qlen s in
  if bool_decide (n < length (rq s)) && pointers_ok s n && bool_decide (p < length (procs s))
  then kput (set_itr_q (u32 (itr_q s + 1))
              (set_rq (Heap.enqueue (prio_of (procs s)) p (rq s, n)).1 s))
  else kfault.

(** ** Creation *)

Definition allocproc : kM st (option nat) :=
  acquire LPtable ;;
  s ← kget;
  match list_find (λ p, state p = UNUSED) (procs s) with
  | None => release LPtable ;; kret None
  | Some (i, _) =>
    modp i (set_state EMBRYO) ;;
    modp i (set_pid (nextpid s)) ;;
    kmodify (set_nextpid (i32 (nextpid s + 1))) ;;
    release LPtable ;;
    (* Allocate kernel stack. *)
    kstk ← call kalloc;
    modp i (set_kstack kstk) ;;
    if bool_decide (kstk = 0)%Z then
      modp i (set_state UNUSED) ;; kret None
    else
      let sp := (kstk + KSTACKSIZE)%Z in
      (* room for the trap frame, the return to trapret, the context *)
      modp i (set_tf_addr (sp - 76)) ;;
      modp i (set_context_addr (sp - 76 - 4 - 20)) ;;
      modp i (set_context KForkret) ;;
      kmodify (set_interrupt false) ;;
      modp i (set_pD 0) ;;
      modp i (set_pC 0) ;;
      modp i (set_ctxswt 0) ;;
      modp i (set_arrtime 0) ;;
      modp i (set_firstsch 0) ;;
      modp i (set_pP 0) ;;
      modp i (set_pO 0) ;;
      kret (Some i)
  end.

(** The trap frame of the first process: user segments, interrupts on. *)
Definition init_tf : trapframe :=
  let udata := Z.lor (Z.shiftl 5 3) 3 in
  {| edi := 0; esi := 0; ebp := 0; oesp := 0; ebx := 0; edx := 0; ecx := 0; eax := 0;
     gs := 0; fs := 0; es := udata; ds := udata; trapno := 0; err := 0; eip := 0;
     cs := Z.lor (Z.shiftl 4 3) 3; eflags := 512; esp := PGSIZE; ss := udata |}.

Definition userinit : kM st unit :=
  r ← allocproc;
  kmodify (set_initproc r) ;;
  p ← kunwrap r;
  pg ← call setupkvm;
  modp p (set_pgdir pg) ;;
  kassert (bool_decide (pg ≠ 0)%Z) "userinit: out of memory?" ;;
  call (inituvm pg) ;;
  modp p (set_sz PGSIZE) ;;
  modp p (set_tf init_tf) ;;
  modp p (set_name "initcode") ;;
  ip ← call namei_root;
  modp p (set_cwd ip) ;;
  modp p (set_state RUNNABLE) ;;
  kmodify (set_miss 0) ;;
  acquire LPtable ;;
  kmodify (set_itr_q 0) ;;
  kmodify (set_itr_s 0) ;;
  modp p (set_pD 100) ;;
  modp p (set_pC 100) ;;
  modp p (set_pP 1) ;;
  modp p (set_pO 1) ;;
  kmodify (set_frozen false) ;;
  s ← kget;
  kput (set_rq (<[0 := p]> (rq s)) s) ;;
  release LPtable.

(** [switchuvm(p)], as far as the process table is concerned. *)
Definition switchuvm (p : nat) : kM st unit :=
  pr ← getp p;
  kassert (bool_decide (pgdir pr ≠ 0)%Z) "switchuvm: no pgdir".

Definition growproc (n : Z) : kM st Z :=
  me ← self;
  p ← getp me;
  r ← (if bool_decide (0 < n)%Z then
         sz' ← call (allocuvm (pgdir p) (sz p) (u32 (sz p + n))); kret (Some sz')
       else if bool_decide (n < 0)%Z then
         sz' ← call (deallocuvm (pgdir p) (sz p) (u32 (sz p + n))); kret (Some sz')
       else kret None);
  match r with
  | Some 0%Z => kret (-1)%Z
  | _ =>
    modp me (set_sz (default (sz p) r)) ;;
    switchuvm me ;;
    kret 0%Z
  end.

(** [fork]: the loop over the open files. *)
Fixpoint dup_files (fs : list (option nat)) : kM st (list (option nat)) :=
  match fs with
  | [] => kret []
  | None :: fs => l ← dup_files fs; kret (None :: l)
  | Some f :: fs => f' ← call (filedup f); l ← dup_files fs; kret (Some f' :: l)
  end.

(** An entry of the child overwrites the slot only where the parent has a
    file open. *)
Definition merge_files (dup old : list (option nat)) : list (option nat) :=
  zip_with (λ d o, match d with Some f => Some f | None => o end) dup old.

Definition fork (d c p o : Z) : kM st Z :=
  r ← allocproc;
  match r with
  | None => kret (-1)%Z
  | Some np =>
    me ← self;
    pr ← getp me;
    pg ← call (copyuvm (pgdir pr) (sz pr));
    modp np (set_pgdir pg) ;;
    if bool_decide (pg = 0)%Z then
      child ← getp np;
      call (kfree (kstack child)) ;;
      modp np (set_kstack 0) ;;
      modp np (set_state UNUSED) ;;
      kret (-1)%Z
    else
      modp np (set_sz (sz pr)) ;;
      modp np (set_parent (Some me)) ;;
      modp np (set_tf (set_eax 0 (tf pr))) ;;
      dup ← dup_files (ofile pr);
      modp np (λ x, set_ofile (merge_files dup (ofile x)) x) ;;
      cw ← kunwrap (cwd pr);
      ip ← call (idup cw);
      modp np (set_cwd (Some ip)) ;;
      modp np (set_name (name pr)) ;;
      child ← getp np;
      let cpid := pid child in
      acquire LPtable ;;
      modp np (set_state RUNNABLE) ;;
      modp np (set_pD (u32 d)) ;;
      modp np (set_pC (u32 c)) ;;
      modp np (set_pP (u32 p)) ;;
      modp np (set_pO (u32 o)) ;;
      modp np (set_ctxswt 0) ;;
      s ← kget;
      (if frozen s then modp np (set_state WAITING)
       else
         t ← tick;
         modp np (set_arrtime t) ;;
         insert_queue np) ;;
      release LPtable ;;
      kret cpid
  end.

(** ** Sleep, wakeup and the scheduler *)

(** The word at which a channel points, which [wakeup1] compares. The first word
    of a process is its threshold. *)
Definition deref (c : option chan) : kM st Z :=
  match c with
  | None => kfault
  | Some (CProc i) => p ← getp i; kret (pO p)
  | Some c => kgets (λ s, kword s c)
  end.

(** The body of the loop of [wakeup1], for table entry [i]. *)
Definition wakeup1_body (c : option chan) (i : nat) : kM st unit :=
  p ← getp i;
  if bool_decide (state p = SLEEPING) then
    a ← deref (pchan p);
    b ← deref c;
    if bool_decide (a = b) then
      modp i (set_state RUNNABLE) ;;
      modp i (set_pchan None) ;;
      t ← tick;
      modp i (set_arrtime t) ;;
      modp i (set_firstsch 0) ;;
      modp i (set_ctxswt 0) ;;
      insert_queue i ;;
      kmodify (set_interrupt true)
    else kret tt
  else kret tt.

Definition wakeup1 (c : option chan) : kM st unit := kfor (seq 0 NPROC) (wakeup1_body c).

Definition wakeup (c : chan) : kM st unit :=
  acquire LPtable ;; wakeup1 (Some c) ;; release LPtable.

(** [sched()]: check that only ptable.lock is held and the process has left
    RUNNING, then switch to the scheduler, which forgets [proc] and releases
    ptable.lock. *)
Definition sched (k : kont) : kM st unit :=
  s ← kget;
  kassert (bool_decide (LPtable ∈ sheld s)) "sched ptable.lock" ;;
  kassert (bool_decide (length (sheld s) = 1)) "sched locks" ;;
  me ← self;
  p ← getp me;
  kassert (bool_decide (state p ≠ RUNNING)) "sched running" ;;
  modp me (set_context k) ;;
  kmodify (set_cur None) ;;
  release LPtable.

Definition yield : kM st (ctl unit) :=
  acquire LPtable ;;
  s ← kget;
  top ← kunwrap (rq s !! 0);
  tp ← getp top;
  me ← self;
  p ← getp me;
  if bool_decide (pO p < pP tp)%Z then
    modp me (set_state RUNNABLE) ;;
    insert_queue me ;;
    sched KYield ;;
    kret Switched
  else
    kmodify (set_interrupt false) ;;
    release LPtable ;;
    kret (Ret tt).

(** [sleep(chan, lk)] up to the context switch. *)
Definition sleep (c : chan) (lk : lock) : kM st unit :=
  s ← kget;
  kassert (bool_decide (cur s ≠ None)) "sleep" ;;
  kwhen (bool_decide (lk ≠ LPtable)) (acquire LPtable ;; release lk) ;;
  me ← self;
  modp me (set_pchan (Some c)) ;;
  modp me (set_state SLEEPING) ;;
  sched (KSleep lk).

(** The loop over the table in [exit]: abandoned children go to init. *)
Definition reparent_body (me : nat) (i : nat) : kM st unit :=
  p ← getp i;
  if bool_decide (parent p = Some me) then
    s ← kget;
    modp i (set_parent (initproc s)) ;;
    kwhen (bool_decide (state p = ZOMBIE)) (wakeup1 (CProc <$> initproc s))
  else kret tt.

Definition exit : kM st unit :=
  s ← kget;
  kassert (bool_decide (cur s ≠ initproc s)) "init exiting" ;;
  me ← self;
  kfor (seq 0 NOFILE) (λ fd,
    p ← getp me;
    match ofile p !! fd with
    | Some (Some f) => call (fileclose f) ;; modp me (λ x, set_ofile (<[fd := None]> (ofile x)) x)
    | _ => kret tt
    end) ;;
  p ← getp me;
  cw ← kunwrap (cwd p);
  call (iput_op cw) ;;
  modp me (set_cwd None) ;;
  acquire LPtable ;;
  p ← getp me;
  wakeup1 (CProc <$> parent p) ;;
  kfor (seq 0 NPROC) (reparent_body me) ;;
  modp me (set_state ZOMBIE) ;;
  sched KExit.

(** The scan of [wait]: the first zombie child, or whether there is a child. *)
Fixpoint wait_scan (me : nat) (i : nat) (ps : list proc) (havekids : bool) : option nat * bool :=
  match ps with
  | [] => (None, havekids)
  | p :: ps =>
    if bool_decide (parent p ≠ Some me) then wait_scan me (S i) ps havekids
    else if bool_decide (state p = ZOMBIE) then (Some i, true)
    else wait_scan me (S i) ps true
  end.

(** The loop of [wait], entered with ptable.lock held; a process that slept in
    it re-enters it here. *)
Definition wait_loop : kM st (ctl Z) :=
  s ← kget;
  me ← self;
  match wait_scan me 0 (procs s) false with
  | (Some i, _) =>
    p ← getp i;
    let r := pid p in
    call (kfree (kstack p)) ;;
    modp i (set_kstack 0) ;;
    call (freevm (pgdir p)) ;;
    modp i (set_state UNUSED) ;;
    modp i (set_pid 0) ;;
    modp i (set_parent None) ;;
    modp i (set_name "") ;;
    modp i (set_killed false) ;;
    release LPtable ;;
    kret (Ret r)
  | (None, havekids) =>
    p ← getp me;
    if negb havekids || killed p then release LPtable ;; kret (Ret (-1)%Z)
    else sleep (CProc me) LPtable ;; kret Switched
  end.

Definition wait : kM st (ctl Z) := acquire LPtable ;; wait_loop.

(** One iteration of [scheduler] up to its [swtch]: the process it switches to,
    with ptable.lock still held, or no process. *)
Definition scheduler : kM st (option nat) :=
  acquire LPtable ;;
  s ← kget;
  if bool_decide (itr_q s = 2 ^ 32 - 1)%Z then release LPtable ;; kret None
  else
    p ← kunwrap (rq s !! 0);
    pr ← getp p;
    modp p (set_ctxswt (u32 (ctxswt pr + 1))) ;;
    go ← (if frozen s then me ← self; mp ← getp me; kret (bool_decide (pO mp < pP pr)%Z)
          else kret true);
    if (go : bool) then
      (if pointers_ok s (qlen s) then
         kmodify (λ s, set_itr_q (u32 (itr_q s - 1))
           (set_rq (Heap.dequeue (prio_of (procs s)) (rq s, qlen s)).1 s))
       else kfault) ;;
      kmodify (set_cur (Some p)) ;;
      switchuvm p ;;
      modp p (set_state RUNNING) ;;
      kwhen (bool_decide (firstsch pr = 0)%Z) (t ← tick; modp p (set_firstsch t)) ;;
      kret (Some p)
    else release LPtable ;; kret None.

(** [forkret]: the first process also initialises the file system. *)
Definition forkret : kM st unit :=
  release LPtable ;;
  s ← kget;
  kwhen (first s) (kmodify (set_first false) ;; call fs_init).

(** What a dispatched process runs first: the code behind its [swtch]. *)
Definition resume (p : nat) : kM st unit :=
  pr ← getp p;
  match context pr with
  | KForkret => forkret
  | KYield => kmodify (set_interrupt false) ;; release LPtable
  | KSleep lk =>
    modp p (set_pchan None) ;;
    kwhen (bool_decide (lk ≠ LPtable)) (release LPtable ;; acquire lk)
  | KExit => kpanic "zombie exit"
  end.

(** An iteration of [scheduler], into the dispatched process. *)
Definition dispatch : kM st unit :=
  r ← scheduler;
  match r with Some p => resume p | None => kret tt end.

(** ** kill, listings, statistics, batches *)

Definition printQueue : kM st unit :=
  s ← kget;
  if bool_decide (itr_q s = 2 ^ 32 - 1)%Z then kfault (* [i <= itr_q] never ends *)
  else kfor (take (qlen s) (rq s)) (λ i, p ← getp i;
    cprintf "p->pid = %d -- itr_q = %d\n" [AInt (pid p); AInt (i32 (itr_q s))]).

Definition kill (target : Z) : kM st Z :=
  acquire LPtable ;;
  s ← kget;
  match list_find (λ p, pid p = target) (procs s) with
  | Some (i, p) =>
    modp i (set_killed true) ;;
    kwhen (bool_decide (state p = SLEEPING))
      (modp i (set_state RUNNABLE) ;; insert_queue i ;; printQueue) ;;
    release LPtable ;;
    kret 0%Z
  | None => release LPtable ;; kret (-1)%Z
  end.

Definition state_name (x : procstate) : string :=
  match x with
  | UNUSED => "unused" | EMBRYO => "embryo" | SLEEPING => "sleep " | RUNNABLE => "runble"
  | RUNNING => "run   " | ZOMBIE => "zombie" | WAITING => "waiting"
  end.

(** [pcs] stands for the stack trace getcallerpcs reads. *)
Definition procdump (pcs : nat → list Z) : kM st unit :=
  kfor (seq 0 NPROC) (λ i,
    p ← getp i;
    if bool_decide (state p = UNUSED) then kret tt
    else
      cprintf "%d %s %s" [AInt (pid p); AStr (state_name (state p)); AStr (name p)] ;;
      kwhen (bool_decide (state p = SLEEPING))
        (kfor (take_while (λ pc, bool_decide (pc ≠ 0%Z)) (take 10 (pcs i)))
           (λ pc, cprintf " %p" [AInt pc])) ;;
      cprintf "\n" []).

Definition getData (i : nat) : kM st unit :=
  s ← kget;
  if bool_decide (TAM - 1 < itr_s s)%Z then cprintf "." []
  else
    p ← getp i;
    modp i (set_firstsch 0) ;;
    t1 ← tick;
    modp i (set_arrtime t1) ;;
    t2 ← tick;
    kmodify (λ s, set_statistics (<[itr_s s := {| sO := pO p; sP := pP p;
      sarrtime := arrtime p; sfirstsch := firstsch p; sfinish := t2; sD := pD p; sC := pC p;
      sctxswt := ctxswt p; spid := pid p |}]> (statistics s)) s) ;;
    modp i (set_ctxswt 0) ;;
    kmodify (λ s, set_itr_s (u32 (itr_s s + 1)) s).

(** One line of the report: late when finish - arrival exceeds the deadline.
    cprintf prints the low word of each value as an [int]. *)
Definition print_row (i : Z) : kM st unit :=
  s ← kget;
  let x := default statistic0 (statistics s !! i) in
  if bool_decide (sP x = 0)%Z then kret tt
  else
    kfor [spid x; sP x; sO x; sD x; sC x; sctxswt x; sarrtime x; sfirstsch x; sfinish x;
          u64 (sfirstsch x - sarrtime x); u64 (sfinish x - sarrtime x)]
      (λ v, cprintf "%d-" [AInt (i32 v)]) ;;
    if bool_decide (sD x < u64 (sfinish x - sarrtime x))%Z
    then cprintf "1-MISS\n" [] ;; kmodify (λ s, set_miss (i32 (miss s + 1)) s)
    else cprintf "0\n" [].

Definition print (flag : Z) : kM st Z :=
  (if bool_decide (flag = 2)%Z then me ← self; getData me
   else if bool_decide (flag = 1)%Z then
     cprintf "\nPid-P-O-D-C-Ctxswt-Arr-First-Finish-Res-Laten-Miss\n" [] ;;
     s ← kget;
     kfor (Z.of_nat <$> seq 0 (Z.to_nat (itr_s s))) print_row ;;
     s ← kget;
     cprintf "miss = %d-" [AInt (miss s)] ;;
     kmodify (set_miss 0)
   else kmodify (set_itr_s 0)) ;;
  kret 0%Z.

Definition unfreeze_body (i : nat) : kM st unit :=
  p ← getp i;
  kwhen (bool_decide (state p = WAITING)) (modp i (set_state RUNNABLE) ;; insert_queue i).

Definition freeze (f : Z) : kM st unit :=
  if bool_decide (f ≠ 0)%Z then kmodify (set_frozen true)
  else
    kmodify (set_frozen false) ;;
    acquire LPtable ;;
    kfor (seq 0 NPROC) unfreeze_body ;;
    release LPtable.
End proc.
End Proc.
