(* ===== verification/ProcInv.v ===== *)
(** * The ready queue holds exactly the runnable processes

    The invariant of proc.c, preserved by every operation of Proc.v and hence
    by every interleaving of them on any number of CPUs: the queue lists each
    RUNNABLE process once and nothing else, it fits its array, and a sleeping
    process has a channel. Most operations are quiet: they do not touch what the
    invariant is about, and are dispatched by the hint database [quiet]. *)

From S2P Require Import Prelude Heap Proc.
Import Proc.

Create HintDb quiet.

Section inv.
Context {E : Type} `{ProcEnv E}.
Implicit Types s : st (E:=E).

(** ** What the invariant looks at *)

Definition pabs (p : proc) : procstate * option chan := (state p, pchan p).

Record abstr := Abs {
  a_procs : list (procstate * option chan);
  a_rq : list nat;
  a_itr_q : Z;
  a_cur : option nat;
}.

Definition abs s : abstr := Abs (pabs <$> procs s) (rq s) (itr_q s) (cur s).

Definition a_qlen (a : abstr) : nat := Z.to_nat (u32 (a_itr_q a + 1)).
Definition a_ready (a : abstr) : list nat := take (a_qlen a) (a_rq a).
Definition a_state (a : abstr) (i : nat) : option procstate := fst <$> a_procs a !! i.

(** A process that is not on the queue although RUNNABLE: none, or the one an
    operation has just made runnable and is about to insert. *)
Record ainv (x : option nat) (a : abstr) : Prop := {
  inv_procs : length (a_procs a) = NPROC;
  inv_rq : length (a_rq a) = NPROC;
  inv_itr : (0 ≤ a_itr_q a < 2 ^ 32)%Z;
  inv_len : a_qlen a ≤ NPROC;
  inv_nodup : NoDup (a_ready a);
  inv_ready i : i ∈ a_ready a ↔ a_state a i = Some RUNNABLE ∧ x ≠ Some i;
  inv_x i : x = Some i → a_state a i = Some RUNNABLE;
  inv_chan i c : a_procs a !! i = Some (SLEEPING, c) →
    ∃ c', c = Some c' ∧ ∀ j, c' = CProc j → j < NPROC;
  inv_top : ∃ top, a_rq a !! 0 = Some top ∧ top < NPROC;
}.

(** The running process of the CPU is RUNNING. *)
Definition cur_ok (a : abstr) : Prop := ∀ i, a_cur a = Some i → a_state a i = Some RUNNING.

Definition Inv s : Prop := ainv None (abs s) ∧ cur_ok (abs s).

(** ** Partial correctness on the abstract state *)

(** If [m] returns, it takes [P] to [Q]. *)
Definition tri {A} (P : abstr → Prop) (m : kM st A) (Q : A → abstr → Prop) : Prop :=
  ∀ s, P (abs s) → match m s with Done a s' => Q a (abs s') | _ => True end.

Lemma tri_bind {A B} P (m : kM st A) Q (k : A → kM st B) R :
  tri P m Q → (∀ a, tri (Q a) (k a) R) → tri P (kbind m k) R.
Proof.
  intros Hm Hk s HP. specialize (Hm s HP). unfold kbind.
  destruct (m s) as [a s'| | |]; [|done..]. by apply Hk.
Qed.

Lemma tri_conseq {A} (P P' : abstr → Prop) (m : kM st A) (Q Q' : A → abstr → Prop) :
  tri P' m Q' → (∀ a, P a → P' a) → (∀ x a, Q' x a → Q x a) → tri P m Q.
Proof. intros Hm HP HQ s Hs. specialize (Hm s (HP _ Hs)). destruct (m s); auto. Qed.

Lemma tri_pre {A} (P P' : abstr → Prop) (m : kM st A) Q :
  tri P' m Q → (∀ a, P a → P' a) → tri P m Q.
Proof. eauto using tri_conseq. Qed.

Lemma tri_ret {A} (P : abstr → Prop) (x : A) (Q : A → abstr → Prop) :
  (∀ a, P a → Q x a) → tri P (kret x) Q.
Proof. intros HQ s Hs. by apply HQ. Qed.

Lemma tri_for {A} (I : abstr → Prop) (l : list A) body :
  (∀ x, x ∈ l → tri I (body x) (λ _, I)) → tri I (kfor l body) (λ _, I).
Proof.
  induction l as [|x l IH]; intros Hb; [by apply tri_ret|]. simpl.
  eapply tri_bind; [apply Hb; constructor|]. intros []. apply IH.
  intros y Hy. apply Hb. by constructor.
Qed.

Lemma tri_when b P (m : kM st unit) Q :
  (b = true → tri P m Q) → (b = false → ∀ a, P a → Q tt a) → tri P (kwhen b m) Q.
Proof. destruct b; simpl; [auto|]. intros _ HQ. by apply tri_ret, HQ. Qed.

Lemma tri_if {A} (b : bool) P (m n : kM st A) Q :
  (b = true → tri P m Q) → (b = false → tri P n Q) → tri P (if b then m else n) Q.
Proof. destruct b; auto. Qed.

(** ** Quiet operations *)

Definition quiet {A} (m : kM st A) : Prop :=
  ∀ s, match m s with Done _ s' => abs s' = abs s | _ => True end.

Lemma quiet_tri {A} (P : abstr → Prop) (m : kM st A) : quiet m → tri P m (λ _, P).
Proof. intros Hq s Hs. specialize (Hq s). destruct (m s); [by rewrite Hq|done..]. Qed.

Lemma quiet_ret {A} (a : A) : quiet (kret a).
Proof. done. Qed.
Lemma quiet_get : quiet kget.
Proof. done. Qed.
Lemma quiet_unwrap {A} (o : option A) : quiet (kunwrap o).
Proof. by destruct o. Qed.
Lemma quiet_fault {A} : quiet (A:=A) kfault.
Proof. done. Qed.
Lemma quiet_panic {A} msg : quiet (A:=A) (kpanic msg).
Proof. done. Qed.
Lemma quiet_assert b msg : quiet (kassert b msg).
Proof. by destruct b. Qed.
Lemma quiet_bind {A B} (m : kM st A) (k : A → kM st B) :
  quiet m → (∀ a, quiet (k a)) → quiet (kbind m k).
Proof.
  intros Hm Hk s. specialize (Hm s). unfold kbind. destruct (m s) as [a s'| | |]; [|done..].
  specialize (Hk a s'). destruct (k a s'); [congruence|done..].
Qed.
Lemma quiet_if {A} (b : bool) (m n : kM st A) : quiet m → quiet n → quiet (if b then m else n).
Proof. by destruct b. Qed.
Lemma quiet_when b (m : kM st unit) : quiet m → quiet (kwhen b m).
Proof. by destruct b. Qed.
Lemma quiet_for {A} (l : list A) (body : A → kM st unit) :
  (∀ x, quiet (body x)) → quiet (kfor l body).
Proof. intros Hb. induction l; [done|]. simpl. by apply quiet_bind. Qed.
Lemma quiet_modify f : (∀ s, abs (f s) = abs s) → quiet (kmodify f).
Proof. intros Hf s. apply Hf. Qed.
Lemma quiet_call {A} (m : kM E A) : quiet (call m).
Proof. intros s. unfold call, kzoom, envl. simpl. by destruct (m (env s)). Qed.
Lemma quiet_getp i : quiet (getp i).
Proof. apply quiet_bind; [done|]. intros. apply quiet_unwrap. Qed.
Lemma quiet_self : quiet self.
Proof. apply quiet_bind; [done|]. intros. apply quiet_unwrap. Qed.
Lemma quiet_tick : quiet tick.
Proof. intros s. done. Qed.
Lemma quiet_cprintf fmt args : quiet (cprintf fmt args).
Proof. intros s. done. Qed.

Lemma quiet_modp i f : (∀ p, pabs (f p) = pabs p) → quiet (modp i f).
Proof.
  intros Hf s. unfold modp, getp, kbind, kunwrap. simpl.
  destruct (procs s !! i) as [p|] eqn:Hp; [|done]. simpl. unfold abs. simpl. f_equal.
  rewrite list_fmap_insert, list_insert_id; [done|]. by rewrite list_lookup_fmap, Hp, Hf.
Qed.

Lemma quiet_acquire lk : quiet (acquire lk).
Proof. intros s. unfold acquire. by case_decide. Qed.
Lemma quiet_release lk : quiet (release lk).
Proof. intros s. unfold release. by case_decide. Qed.

Lemma quiet_switchuvm i : quiet (switchuvm i).
Proof. apply quiet_bind; [apply quiet_getp|]. intros. apply quiet_assert. Qed.
End inv.

#[export] Hint Resolve quiet_ret quiet_get quiet_unwrap quiet_fault quiet_panic quiet_assert
  quiet_bind quiet_if quiet_when quiet_for quiet_call quiet_getp quiet_self quiet_tick
  quiet_cprintf quiet_switchuvm quiet_acquire quiet_release : quiet.
#[export] Hint Extern 2 (quiet (modp _ _)) => apply quiet_modp; intros ?; reflexivity : quiet.
#[export] Hint Extern 2 (quiet (kmodify _)) => apply quiet_modify; intros ?; reflexivity : quiet.
#[export] Hint Extern 4 (quiet (match ?x with _ => _ end)) => destruct x : quiet.

Ltac quiet := intros; cbv zeta; typeclasses eauto with quiet.

Section preserve.
Context {E : Type} `{ProcEnv E}.
Implicit Types s : st (E:=E).

Lemma quiet_printQueue : quiet (E:=E) printQueue.
Proof. unfold printQueue. quiet. Qed.
Lemma quiet_print f : quiet (E:=E) (print f).
Proof. unfold print, getData, print_row. quiet. Qed.
Lemma quiet_growproc n : quiet (E:=E) (growproc n).
Proof. unfold growproc. quiet. Qed.
Lemma quiet_dup_files fs : quiet (E:=E) (dup_files fs).
Proof. induction fs as [|[]]; simpl; quiet. Qed.

(** ** Loud operations on the abstract state *)

Definition a_set (i : nat) (v : procstate * option chan) (a : abstr) : abstr :=
  Abs (<[i := v]> (a_procs a)) (a_rq a) (a_itr_q a) (a_cur a).

Lemma a_state_set i v a j :
  i < length (a_procs a) →
  a_state (a_set i v a) j = if decide (j = i) then Some v.1 else a_state a j.
Proof.
  intros Hi. unfold a_state, a_set. simpl. case_decide; subst.
  - by rewrite list_lookup_insert_eq.
  - by rewrite list_lookup_insert_ne.
Qed.

Lemma a_procs_set i v a j :
  i < length (a_procs a) →
  a_procs (a_set i v a) !! j = if decide (j = i) then Some v else a_procs a !! j.
Proof.
  intros Hi. simpl. case_decide; subst.
  - by rewrite list_lookup_insert_eq.
  - by rewrite list_lookup_insert_ne.
Qed.

Lemma a_state_lookup a i st c : a_procs a !! i = Some (st, c) → a_state a i = Some st.
Proof. unfold a_state. by intros ->. Qed.

(** The channel condition for one entry. *)
Definition chan_ok (v : procstate * option chan) : Prop :=
  v.1 = SLEEPING → ∃ c', v.2 = Some c' ∧ ∀ j, c' = CProc j → j < NPROC.

(** Moving an entry between states other than RUNNABLE. *)
Lemma ainv_set_other a i st v :
  ainv None a → a_state a i = Some st → st ≠ RUNNABLE → v.1 ≠ RUNNABLE → chan_ok v →
  ainv None (a_set i v a).
Proof.
  intros [] Hi Hst Hv Hc.
  assert (i < length (a_procs a)) as Hlt.
  { unfold a_state in Hi. destruct (a_procs a !! i) eqn:Hl; [by eapply lookup_lt_Some|done]. }
  split; try done.
  - simpl. by rewrite length_insert.
  - intros j. fold (a_ready a). rewrite inv_ready0, a_state_set by done.
    case_decide; [|done]. subst. naive_solver congruence.
  - intros j c. rewrite a_procs_set by done. case_decide; [|apply inv_chan0].
    intros [= ->]. by apply Hc.
Qed.

(** Making an entry runnable: it is then the one missing from the queue. *)
Lemma ainv_set_runnable a i st c :
  ainv None a → a_state a i = Some st → st ≠ RUNNABLE →
  ainv (Some i) (a_set i (RUNNABLE, c) a).
Proof.
  intros [] Hi Hst.
  assert (i < length (a_procs a)) as Hlt.
  { unfold a_state in Hi. destruct (a_procs a !! i) eqn:Hl; [by eapply lookup_lt_Some|done]. }
  split; try done.
  - simpl. by rewrite length_insert.
  - intros j. fold (a_ready a). rewrite inv_ready0, a_state_set by done.
    case_decide; subst; [|naive_solver]. rewrite Hi. naive_solver congruence.
  - intros j [= ->]. rewrite a_state_set, decide_True by done. done.
  - intros j c'. rewrite a_procs_set by done. case_decide; [by intros [= ]|apply inv_chan0].
Qed.

(** Rewriting the channel of an entry that is not SLEEPING. *)
Lemma ainv_set_chan x a i st c c' :
  ainv x a → a_procs a !! i = Some (st, c) → st ≠ SLEEPING → ainv x (a_set i (st, c') a).
Proof.
  intros [] Hi Hst. pose proof (lookup_lt_Some _ _ _ Hi).
  assert (∀ j, a_state (a_set i (st, c') a) j = a_state a j) as Hs.
  { intros j. rewrite a_state_set by done. case_decide; [|done]. subst.
    by rewrite (a_state_lookup _ _ _ _ Hi). }
  split; try done.
  - simpl. by rewrite length_insert.
  - intros j. rewrite Hs. apply inv_ready0.
  - intros j. rewrite Hs. apply inv_x0.
  - intros j d. rewrite a_procs_set by done. case_decide; [|apply inv_chan0]. naive_solver.
Qed.

(** The queue is never full when a runnable process is missing from it. *)
Lemma ainv_room p a : ainv (Some p) a → p < NPROC ∧ a_qlen a < NPROC.
Proof.
  intros []. specialize (inv_x0 p eq_refl). unfold a_state in inv_x0.
  destruct (a_procs a !! p) eqn:Hp; [|done]. apply lookup_lt_Some in Hp.
  split; [lia|].
  assert (length (p :: a_ready a) ≤ length (seq 0 NPROC)) as Hl.
  { apply NoDup_incl_length.
    - apply NoDup_ListNoDup. constructor; [|done]. rewrite inv_ready0. naive_solver.
    - intros j. rewrite <-!list_elem_of_In. rewrite elem_of_cons, elem_of_seq.
      intros [->|Hj]; [lia|]. apply inv_ready0 in Hj as [Hj _]. unfold a_state in Hj.
      destruct (a_procs a !! j) eqn:Hl; [|done]. apply lookup_lt_Some in Hl. lia. }
  rewrite length_seq in Hl. cbn [length] in Hl. unfold a_ready in Hl.
  rewrite length_take in Hl. lia.
Qed.

Definition a_insert (pr : nat → Z) (p : nat) (a : abstr) : abstr :=
  Abs (a_procs a) (Heap.enqueue pr p (a_rq a, a_qlen a)).1 (u32 (a_itr_q a + 1)) (a_cur a).

Lemma a_qlen_succ a :
  (0 ≤ a_itr_q a < 2 ^ 32)%Z → a_qlen a < NPROC →
  Z.to_nat (u32 (u32 (a_itr_q a + 1) + 1)) = S (a_qlen a).
Proof.
  unfold a_qlen, NPROC. intros Hi Hq.
  assert (0 ≤ u32 (a_itr_q a + 1) < 2 ^ 32)%Z by (apply Z.mod_pos_bound; lia).
  unfold u32 at 1. rewrite Z.mod_small by lia. lia.
Qed.

Lemma a_ready_insert pr p a :
  ainv (Some p) a → a_ready (a_insert pr p a) ≡ₚ p :: a_ready a.
Proof.
  intros Ha. destruct (ainv_room _ _ Ha) as [Hp Hq]. destruct Ha.
  unfold a_ready at 1, a_qlen, a_insert. simpl. rewrite a_qlen_succ by done.
  apply (Heap.enqueue_ready pr p (a_rq a, a_qlen a)). simpl. lia.
Qed.

Lemma ainv_insert pr p a : ainv (Some p) a → ainv None (a_insert pr p a).
Proof.
  intros Ha. pose proof (a_ready_insert pr p a Ha) as Hr.
  destruct (ainv_room _ _ Ha) as [Hp Hq]. destruct Ha.
  assert (length (a_rq (a_insert pr p a)) = NPROC) as Hlen.
  { etransitivity; [apply (Heap.enqueue_length pr p (a_rq a, a_qlen a))|done]. }
  assert (a_qlen (a_insert pr p a) = S (a_qlen a)) as Hn by by apply a_qlen_succ.
  split; try done.
  - apply Z.mod_pos_bound. lia.
  - lia.
  - rewrite Hr. constructor; [|done]. rewrite inv_ready0. naive_solver.
  - intros i. rewrite Hr, elem_of_cons, inv_ready0.
    change (a_state (a_insert pr p a) i) with (a_state a i).
    destruct (decide (i = p)) as [->|]; naive_solver congruence.
  - destruct (lookup_lt_is_Some_2 (a_rq (a_insert pr p a)) 0) as [top Htop];
      [rewrite Hlen; unfold NPROC; lia|].
    exists top. split; [done|].
    assert (top ∈ a_ready (a_insert pr p a)) as Hin.
    { unfold a_ready. rewrite Hn. apply list_elem_of_lookup. exists 0.
      rewrite lookup_take_lt by lia. done. }
    rewrite Hr, elem_of_cons, inv_ready0 in Hin. destruct Hin as [->|[Hin _]]; [done|].
    unfold a_state in Hin. destruct (a_procs a !! top) eqn:Hl; [|done].
    apply lookup_lt_Some in Hl. lia.
Qed.

(** The slot and the process leave the queue together: the process is then
    runnable and unqueued. *)
Definition a_dequeue (pr : nat → Z) (a : abstr) : abstr :=
  Abs (a_procs a) (Heap.dequeue pr (a_rq a, a_qlen a)).1 (u32 (a_itr_q a - 1)) (a_cur a).

Lemma a_qlen_pos a :
  (0 ≤ a_itr_q a < 2 ^ 32)%Z → a_itr_q a ≠ (2 ^ 32 - 1)%Z →
  a_qlen a = S (Z.to_nat (a_itr_q a)) ∧
  Z.to_nat (u32 (u32 (a_itr_q a - 1) + 1)) = Z.to_nat (a_itr_q a).
Proof.
  unfold a_qlen. intros Hi Hne. split.
  - unfold u32. rewrite Z.mod_small by lia. lia.
  - unfold u32. rewrite Z.add_mod_idemp_l by lia.
    replace (a_itr_q a - 1 + 1)%Z with (a_itr_q a) by lia. by rewrite Z.mod_small by lia.
Qed.

Lemma ainv_dequeue pr p a :
  ainv None a → a_itr_q a ≠ (2 ^ 32 - 1)%Z → a_rq a !! 0 = Some p →
  ainv (Some p) (a_dequeue pr a).
Proof.
  intros [] Hne Hp. destruct (a_qlen_pos a inv_itr0 Hne) as [Hn Hn'].
  assert (length (a_rq (a_dequeue pr a)) = NPROC) as Hlen.
  { etransitivity; [apply (Heap.dequeue_length pr (a_rq a, a_qlen a))|done]. }
  assert (a_qlen (a_dequeue pr a) = a_qlen a - 1) as Hd.
  { unfold a_qlen at 1, a_dequeue. cbn [a_itr_q]. rewrite Hn'. lia. }
  assert (p :: a_ready (a_dequeue pr a) ≡ₚ a_ready a) as Hr.
  { unfold a_ready at 1. rewrite Hd.
    apply (Heap.dequeue_ready pr p (a_rq a, a_qlen a)); [simpl; lia|done]. }
  assert (NoDup (p :: a_ready (a_dequeue pr a))) as Hnd by by rewrite Hr.
  apply list.NoDup_cons in Hnd as [Hpn Hnd].
  assert (∀ i, i = p ∨ i ∈ a_ready (a_dequeue pr a) ↔ a_state a i = Some RUNNABLE) as Hiff.
  { intros i. rewrite <-elem_of_cons, Hr, inv_ready0. naive_solver. }
  split; try done.
  - apply Z.mod_pos_bound. lia.
  - lia.
  - intros i. change (a_state (a_dequeue pr a) i) with (a_state a i). rewrite <-Hiff.
    split; [|naive_solver]. intros Hi. split; [by right|]. intros [= ->]. done.
  - intros i [= <-]. apply Hiff. by left.
  - destruct (decide (a_qlen a - 1 = 0)) as [Hz|Hz].
    + exists p. split; [|].
      * unfold a_dequeue, Heap.dequeue. simpl. replace (a_qlen a - 1) with 0 by lia.
        rewrite Hp. unfold PT.heapify, heapify. simpl. by rewrite list_insert_id.
      * assert (a_state a p = Some RUNNABLE) as Hs by (apply Hiff; by left).
        unfold a_state in Hs. destruct (a_procs a !! p) eqn:Hl; [|done].
        apply lookup_lt_Some in Hl. lia.
    + destruct (lookup_lt_is_Some_2 (a_rq (a_dequeue pr a)) 0) as [top Htop];
        [rewrite Hlen; unfold NPROC; lia|].
      exists top. split; [done|].
      assert (a_state a top = Some RUNNABLE) as Hs.
      { apply Hiff. right. unfold a_ready. rewrite Hd. apply list_elem_of_lookup. exists 0.
        rewrite lookup_take_lt by lia. done. }
      unfold a_state in Hs. destruct (a_procs a !! top) eqn:Hl; [|done].
      apply lookup_lt_Some in Hl. lia.
Qed.

(** The unqueued process may take any state but RUNNABLE. *)
Lemma ainv_set_unqueued p a v :
  ainv (Some p) a → v.1 ≠ RUNNABLE → chan_ok v → ainv None (a_set p v a).
Proof.
  intros Ha Hv Hc. destruct (ainv_room _ _ Ha) as [Hp _]. destruct Ha.
  assert (p < length (a_procs a)) as Hlt by lia.
  split; try done.
  - simpl. by rewrite length_insert.
  - intros j. fold (a_ready a). rewrite a_state_set by done. rewrite inv_ready0.
    case_decide; subst; naive_solver.
  - intros j c. rewrite a_procs_set by done. case_decide; [|apply inv_chan0].
    intros [= ->]. by apply Hc.
Qed.

(** ** Triples of the accessors and the loud steps *)

Lemma tri_q {A B} P (m : kM st A) (k : A → kM (st (E:=E)) B) R :
  quiet m → (∀ a, tri P (k a) R) → tri P (kbind m k) R.
Proof. intros Hm Hk. eapply tri_bind; [by apply quiet_tri|done]. Qed.

Lemma tri_get {B} P (k : st → kM (st (E:=E)) B) R :
  (∀ s0, tri (λ a, P a ∧ a = abs s0) (k s0) R) → tri P (kbind kget k) R.
Proof. intros Hk s HP. by apply (Hk s). Qed.

Lemma tri_getp {B} P i (k : proc → kM (st (E:=E)) B) R :
  (∀ p, tri (λ a, P a ∧ a_procs a !! i = Some (pabs p)) (k p) R) → tri P (kbind (getp i) k) R.
Proof.
  intros Hk s HP. unfold getp, kbind, kunwrap. simpl.
  destruct (procs s !! i) as [p|] eqn:Hp; [|done]. simpl. apply Hk. split; [done|].
  simpl. by rewrite list_lookup_fmap, Hp.
Qed.

Lemma tri_self {B} P (k : nat → kM (st (E:=E)) B) R :
  (∀ me, tri (λ a, P a ∧ a_cur a = Some me) (k me) R) → tri P (kbind self k) R.
Proof.
  intros Hk s HP. unfold self, kbind, kunwrap. simpl.
  destruct (cur s) as [me|] eqn:Hc; [|done]. simpl. by apply Hk.
Qed.

Lemma tri_modp (P : abstr → Prop) i (f : proc → proc) :
  tri (E:=E) (λ a, ∀ p, a_procs a !! i = Some (pabs p) → P (a_set i (pabs (f p)) a))
    (modp i f) (λ _, P).
Proof.
  intros s HP. unfold modp, getp, kbind, kunwrap. simpl.
  destruct (procs s !! i) as [p|] eqn:Hp; [|done]. simpl.
  specialize (HP p). simpl in HP. rewrite list_lookup_fmap, Hp in HP. specialize (HP eq_refl).
  unfold abs. simpl. by rewrite list_fmap_insert.
Qed.

Lemma tri_set_state (P : abstr → Prop) i v :
  tri (E:=E) (λ a, ∀ st c, a_procs a !! i = Some (st, c) → P (a_set i (v, c) a))
    (modp i (set_state v)) (λ _, P).
Proof.
  eapply tri_pre; [apply (tri_modp P)|]. intros a HP p Hp. by apply (HP (state p)).
Qed.

Lemma tri_set_chan (P : abstr → Prop) i c' :
  tri (E:=E) (λ a, ∀ st c, a_procs a !! i = Some (st, c) → P (a_set i (st, c') a))
    (modp i (set_pchan c')) (λ _, P).
Proof.
  eapply tri_pre; [apply (tri_modp P)|]. intros a HP p Hp. by apply (HP (state p) (pchan p)).
Qed.

Lemma tri_insert (P : abstr → Prop) p :
  tri (E:=E) (λ a, ∀ pr, P (a_insert pr p a)) (insert_queue p) (λ _, P).
Proof.
  intros s HP. unfold insert_queue, kbind. simpl. destruct (_ && _); [|done].
  simpl. apply HP.
Qed.

Lemma tri_set_cur (P : abstr → Prop) c :
  tri (E:=E) (λ a, P (Abs (a_procs a) (a_rq a) (a_itr_q a) c)) (kmodify (set_cur c)) (λ _, P).
Proof. intros s HP. apply HP. Qed.

Lemma ainv_cur x a c : ainv x a → ainv x (Abs (a_procs a) (a_rq a) (a_itr_q a) c).
Proof. by intros []; split. Qed.
End preserve.

#[export] Hint Resolve quiet_printQueue quiet_print quiet_growproc quiet_dup_files : quiet.

(** Skip one quiet statement of a triple. *)
Ltac tq := eapply tri_q; [quiet|let r := fresh "r" in intros r].

Section ops.
Context {E : Type} `{ProcEnv E}.
Implicit Types s : st (E:=E).

(** The invariant, with the running process of the CPU named. *)
Definition IC (cp : option nat) (a : abstr) : Prop := ainv None a ∧ cur_ok a ∧ a_cur a = cp.
Definition IX (cp : option nat) (i : nat) (a : abstr) : Prop :=
  ainv (Some i) a ∧ cur_ok a ∧ a_cur a = cp.

Lemma cur_ok_set i v a st c :
  cur_ok a → a_procs a !! i = Some (st, c) → (st = RUNNING → v.1 = RUNNING) →
  cur_ok (a_set i v a).
Proof.
  intros Hc Hi Hv j Hj. pose proof (lookup_lt_Some _ _ _ Hi).
  rewrite a_state_set by done. case_decide; [|by apply Hc]. subst. f_equal. apply Hv.
  specialize (Hc _ Hj). rewrite (a_state_lookup _ _ _ _ Hi) in Hc. congruence.
Qed.

(** An entry leaves a state other than RUNNABLE and RUNNING for another such. *)
Lemma IC_set cp i st c v a :
  IC cp a → a_procs a !! i = Some (st, c) → st ≠ RUNNABLE → st ≠ RUNNING → v.1 ≠ RUNNABLE →
  chan_ok v → IC cp (a_set i v a).
Proof.
  intros (Ha & Hc & Hcp) Hi ????. split_and!; [..|done].
  - eapply ainv_set_other; eauto using a_state_lookup.
  - eapply cur_ok_set; naive_solver.
Qed.

(** [p->state = RUNNABLE] followed by the insertion keeps the invariant, for an
    entry that was neither RUNNABLE nor RUNNING. *)
Lemma IC_runnable cp i st c a :
  IC cp a → a_procs a !! i = Some (st, c) → st ≠ RUNNABLE → st ≠ RUNNING →
  IX cp i (a_set i (RUNNABLE, c) a).
Proof.
  intros (Ha & Hc & Hcp) Hi ??. split_and!; [..|done].
  - eapply ainv_set_runnable; eauto using a_state_lookup.
  - eapply cur_ok_set; naive_solver.
Qed.

Lemma IX_insert cp i pr a : IX cp i a → IC cp (a_insert pr i a).
Proof. intros (Ha & Hc & Hcp). split_and!; [by apply ainv_insert|done..]. Qed.

Lemma tri_insert_queue cp i : tri (E:=E) (IX cp i) (insert_queue i) (λ _, IC cp).
Proof. eapply tri_pre; [apply (tri_insert (IC cp))|]. intros a Ha pr. by apply IX_insert. Qed.

Lemma tri_deref c : quiet (E:=E) (deref c).
Proof. destruct c as [[]|]; simpl; quiet. Qed.

Lemma tri_wakeup1_body cp c i : tri (E:=E) (IC cp) (wakeup1_body c i) (λ _, IC cp).
Proof.
  unfold wakeup1_body. apply tri_getp. intros p. apply tri_if; intros Hs.
  2: { apply tri_ret. naive_solver. }
  apply bool_decide_eq_true in Hs.
  eapply tri_q; [apply tri_deref|intros x]. eapply tri_q; [apply tri_deref|intros y].
  apply tri_if; intros _; [|apply tri_ret; naive_solver].
  eapply tri_bind.
  { eapply tri_pre; [apply (tri_set_state (λ a, IX cp i a ∧ a_state a i = Some RUNNABLE))|].
    intros a [Ha Hp] st c' Hi. unfold pabs in Hp. rewrite Hs in Hp. simplify_eq.
    split; [eapply IC_runnable; eauto; done|].
    rewrite a_state_set by (by eapply lookup_lt_Some). by rewrite decide_True. }
  intros []. eapply tri_bind.
  { eapply tri_pre; [apply (tri_set_chan (IX cp i))|].
    intros a [(Ha & Hc & Hcp) Hr] st c' Hi.
    rewrite (a_state_lookup _ _ _ _ Hi) in Hr. simplify_eq.
    split_and!; [by eapply ainv_set_chan| |done]. eapply cur_ok_set; naive_solver. }
  intros []. do 4 tq. eapply tri_bind; [apply tri_insert_queue|]. intros [].
  apply quiet_tri. quiet.
Qed.

Lemma tri_wakeup1 cp c : tri (E:=E) (IC cp) (wakeup1 c) (λ _, IC cp).
Proof. apply tri_for. intros i _. apply tri_wakeup1_body. Qed.

Lemma tri_wakeup cp c : tri (E:=E) (IC cp) (wakeup c) (λ _, IC cp).
Proof.
  unfold wakeup. tq. eapply tri_bind; [apply tri_wakeup1|]. intros []. apply quiet_tri. quiet.
Qed.

(** [allocproc] reserves an entry: it is EMBRYO when it is handed out. *)
Lemma tri_allocproc cp :
  tri (E:=E) (IC cp) allocproc
    (λ r a, IC cp a ∧ ∀ i, r = Some i → a_state a i = Some EMBRYO).
Proof.
  unfold allocproc. tq. apply tri_get. intros s0.
  destruct (list_find _ (procs s0)) as [[i p]|] eqn:Hf.
  2: { tq. apply tri_ret. naive_solver. }
  apply list_find_Some in Hf as (Hi & Hu & _).
  eapply tri_bind.
  { eapply tri_pre; [apply (tri_set_state (λ a, IC cp a ∧ a_state a i = Some EMBRYO))|].
    intros a [Ha ->] st c. simpl. rewrite list_lookup_fmap, Hi. simpl.
    unfold pabs. intros [= <- <-]. split.
    - eapply IC_set; [done|simpl; by rewrite list_lookup_fmap, Hi|..]; rewrite ?Hu; done.
    - rewrite a_state_set by (simpl; rewrite length_fmap; by eapply lookup_lt_Some).
      by rewrite decide_True. }
  intros []. do 5 tq. apply tri_if; intros _.
  - eapply tri_bind.
    { eapply tri_pre; [apply (tri_set_state (IC cp))|]. intros a' [Ha He] st c Hi'.
      rewrite (a_state_lookup _ _ _ _ Hi') in He. simplify_eq. eapply IC_set; eauto; done. }
    intros []. apply tri_ret. naive_solver.
  - cbv zeta. do 11 tq. apply tri_ret. naive_solver.
Qed.

(** A state-only update of the entry an operation works on. *)
Lemma tri_set_from (I J : abstr → Prop) i st v :
  (∀ a c, I a → a_procs a !! i = Some (st, c) → J (a_set i (v, c) a)) →
  tri (E:=E) (λ a, I a ∧ a_state a i = Some st) (modp i (set_state v)) (λ _, J).
Proof.
  intros HJ. eapply tri_pre; [apply (tri_set_state J)|]. intros a [Ha Hs] st' c Hi.
  rewrite (a_state_lookup _ _ _ _ Hi) in Hs. simplify_eq. by apply HJ.
Qed.

Lemma tri_fork cp d c p o : tri (E:=E) (IC cp) (fork d c p o) (λ _, IC cp).
Proof.
  unfold fork. eapply tri_bind; [apply tri_allocproc|]. intros [np|]; [|apply tri_ret; naive_solver].
  apply (tri_pre _ (λ a, IC cp a ∧ a_state a np = Some EMBRYO)); [|naive_solver].
  do 4 tq. apply tri_if; intros _.
  - do 3 tq. eapply tri_bind.
    { apply (tri_set_from (IC cp) (IC cp)). intros a x Ha Hi. eapply IC_set; eauto; done. }
    intros []. by apply tri_ret.
  - do 10 tq. cbv zeta. tq. eapply tri_bind.
    { apply (tri_set_from (IC cp) (λ a, IX cp np a ∧ a_state a np = Some RUNNABLE)).
      intros a x Ha Hi. split; [eapply IC_runnable; eauto; done|].
      rewrite a_state_set by (by eapply lookup_lt_Some). by rewrite decide_True. }
    intros []. do 6 tq. eapply (tri_bind _ _ (λ _, IC cp)).
    2: { intros []. tq. by apply tri_ret. }
    apply tri_if; intros _.
    + apply (tri_set_from (IX cp np) (IC cp)). intros a x (Ha & Hc & Hcp) Hi. split_and!; [..|done].
      * by apply ainv_set_unqueued.
      * eapply cur_ok_set; naive_solver.
    + do 2 tq. eapply tri_pre; [apply tri_insert_queue|]. naive_solver.
Qed.

(** [sched] leaves the CPU without a process. *)
Lemma tri_sched k : tri (E:=E) (ainv None) (sched k) (λ _, IC None).
Proof.
  unfold sched. tq. tq. tq. tq. tq. tq. tq. eapply tri_bind.
  { eapply tri_pre; [apply (tri_set_cur (IC None))|]. intros a Ha.
    split_and!; [by apply ainv_cur| |done]. by intros i [=]. }
  intros []. apply quiet_tri. quiet.
Qed.

Lemma tri_yield cp : tri (E:=E) (IC cp) yield (λ _ a, ∃ cp', IC cp' a).
Proof.
  unfold yield. do 4 tq. apply tri_self. intros me. tq. apply tri_if; intros _.
  - eapply tri_bind.
    { eapply tri_pre; [apply (tri_set_state (ainv (Some me)))|]. intros a [(Ha & Hc & _) Hme] st c Hi.
      eapply ainv_set_runnable; [done|by apply Hc|done]. }
    intros []. eapply tri_bind.
    { eapply tri_pre; [apply (tri_insert (ainv None))|]. intros a Ha pr. by apply ainv_insert. }
    intros []. eapply tri_bind; [apply tri_sched|]. intros []. apply tri_ret. eauto.
  - do 2 tq. apply tri_ret. naive_solver.
Qed.

Lemma tri_sleep cp c lk :
  (∀ j, c = CProc j → j < NPROC) → tri (E:=E) (IC cp) (sleep c lk) (λ _, IC None).
Proof.
  intros Hc. unfold sleep. do 3 tq. apply tri_self. intros me. eapply tri_bind.
  { eapply tri_pre; [apply (tri_set_chan (λ a, ainv None a ∧ a_procs a !! me = Some (RUNNING, Some c)))|].
    intros a [(Ha & Hok & _) Hme] st c' Hi. pose proof (Hok _ Hme) as Hs.
    rewrite (a_state_lookup _ _ _ _ Hi) in Hs. simplify_eq. split.
    - by eapply ainv_set_chan.
    - rewrite a_procs_set by (by eapply lookup_lt_Some). by rewrite decide_True. }
  intros []. eapply (tri_bind _ _ (λ _, ainv None)); [|intros []; apply tri_sched].
  eapply tri_pre; [apply (tri_set_state (ainv None))|]. intros a [Ha Hme] st c' Hi. simplify_eq.
  eapply ainv_set_other; eauto using a_state_lookup; [done..|]. intros _. simpl. eauto.
Qed.

Lemma tri_reparent cp me i : tri (E:=E) (IC cp) (reparent_body me i) (λ _, IC cp).
Proof.
  unfold reparent_body. tq. apply tri_if; intros _; [|by apply tri_ret].
  do 2 tq. apply tri_when; intros _; [apply tri_wakeup1|done].
Qed.

Lemma tri_exit cp : tri (E:=E) (IC cp) exit (λ _, IC None).
Proof.
  unfold exit. do 2 tq. apply tri_self. intros me.
  apply (tri_pre _ (IC (Some me))); [|unfold IC; naive_solver].
  do 7 tq. eapply tri_bind; [apply tri_wakeup1|]. intros [].
  eapply tri_bind; [apply tri_for; intros i _; apply tri_reparent|]. intros [].
  eapply (tri_bind _ _ (λ _, ainv None)); [|intros []; apply tri_sched].
  eapply tri_pre; [apply (tri_set_state (ainv None))|]. intros a (Ha & Hc & Hcp) st c Hi.
  eapply ainv_set_other; [done|by apply Hc|done..].
Qed.

(** What the scan of [wait] finds. *)
Lemma wait_scan_spec me k ps hk r hk' :
  wait_scan me k ps hk = (r, hk') →
  match r with
  | Some i => ∃ p, k ≤ i ∧ ps !! (i - k) = Some p ∧ parent p = Some me ∧ state p = ZOMBIE
  | None => (∀ j p, ps !! j = Some p → parent p = Some me → state p ≠ ZOMBIE) ∧
            hk' = hk || existsb (λ p, bool_decide (parent p = Some me)) ps
  end.
Proof.
  revert k hk. induction ps as [|p ps IH]; intros k hk Hs; simpl in Hs.
  { simplify_eq. split; [by intros j p ?|]. by rewrite orb_false_r. }
  assert (∀ hk0, wait_scan me (S k) ps hk0 = (r, hk') → ∀ i, r = Some i →
    ∃ q, k ≤ i ∧ (p :: ps) !! (i - k) = Some q ∧ parent q = Some me ∧ state q = ZOMBIE) as Hrec.
  { intros hk0 Hs' i ->. apply IH in Hs' as (q & ? & Hq & ? & ?). exists q.
    replace (i - k) with (S (i - S k)) by lia. simpl. split_and!; [lia|done..]. }
  case_bool_decide as Hp; [|case_bool_decide as Hz].
  - destruct r as [i|]; [by eapply Hrec|]. apply IH in Hs as [Hn ->]. split.
    + intros [|j] q Hq; simpl in Hq; [naive_solver|by eapply Hn].
    + simpl. by rewrite (bool_decide_false _ Hp).
  - simplify_eq. exists p. rewrite Nat.sub_diag. split_and!; [lia|done..].
  - destruct r as [i|]; [by eapply Hrec|]. apply IH in Hs as [Hn ->].
    split.
    + intros [|j] q Hq; simpl in Hq; [naive_solver|by eapply Hn].
    + simpl. rewrite (bool_decide_true _ Hp). by destruct hk.
Qed.

Lemma tri_pure {A} (φ : Prop) P (m : kM (st (E:=E)) A) Q :
  (φ → tri P m Q) → tri (λ a, P a ∧ φ) m Q.
Proof. intros Hm s [HP Hφ]. by apply Hm. Qed.

Lemma cur_lt a me : ainv None a → cur_ok a → a_cur a = Some me → me < NPROC.
Proof.
  intros [] Hc Hme. specialize (Hc _ Hme). unfold a_state in Hc.
  destruct (a_procs a !! me) eqn:Hl; [|done]. apply lookup_lt_Some in Hl. lia.
Qed.

Lemma tri_wait_loop cp : tri (E:=E) (IC cp) wait_loop (λ _ a, ∃ cp', IC cp' a).
Proof.
  unfold wait_loop. apply tri_get. intros s0. apply tri_self. intros me.
  destruct (wait_scan me 0 (procs s0) false) as [[i|] hk] eqn:Hsc.
  - apply wait_scan_spec in Hsc as (z & _ & Hz & _ & Hst). rewrite Nat.sub_0_r in Hz.
    tq. cbv zeta. do 3 tq. eapply tri_bind.
    { eapply tri_pre; [apply (tri_set_state (IC cp))|]. intros a [[Ha ->] _] st c Hi.
      simpl in Hi. rewrite list_lookup_fmap, Hz in Hi. unfold pabs in Hi. simpl in Hi.
      rewrite Hst in Hi. simplify_eq. eapply (IC_set cp i ZOMBIE); [done| |done..].
      simpl. rewrite list_lookup_fmap, Hz. unfold pabs. simpl. by rewrite Hst. }
    intros []. do 5 tq. apply tri_ret. eauto.
  - tq. apply tri_if; intros _; [tq; apply tri_ret; naive_solver|].
    apply (tri_pre _ (λ a, IC (Some me) a ∧ me < NPROC)).
    2: { intros a [[(? & ? & ?) _] ?]. split; [done|by eapply cur_lt]. }
    apply tri_pure. intros Hlt. eapply tri_bind; [apply tri_sleep; naive_solver|].
    intros []. apply tri_ret. eauto.
Qed.

Lemma tri_wait cp : tri (E:=E) (IC cp) wait (λ _ a, ∃ cp', IC cp' a).
Proof. unfold wait. tq. apply tri_wait_loop. Qed.

Lemma tri_unwrap {A B} P (o : option A) (k : A → kM (st (E:=E)) B) R :
  (∀ x, o = Some x → tri P (k x) R) → tri P (kbind (kunwrap o) k) R.
Proof. destruct o; intros Hk s HP; [|done]. by apply (Hk a). Qed.

(** The scheduler runs with no current process and leaves the CPU with the
    process it picked, if any. *)
Lemma tri_scheduler : tri (E:=E) (IC None) scheduler (λ r, IC r).
Proof.
  unfold scheduler. tq. apply tri_get. intros s0. apply tri_if; intros Hne.
  { tq. apply tri_ret. naive_solver. }
  apply bool_decide_eq_false in Hne. apply tri_unwrap. intros p Hp. do 3 tq.
  apply tri_if; intros _; [|tq; apply tri_ret; naive_solver].
  eapply (tri_bind _ _ (λ _ a, ainv (Some p) a)).
  { apply tri_if; intros _; [|by intros s Hs].
    intros s [[Ha _] Hs]. simpl.
    apply (ainv_dequeue (prio_of (procs s)) p (abs s)); [done| |]; rewrite Hs; done. }
  intros []. eapply tri_bind.
  { eapply tri_pre; [apply (tri_set_cur (λ a, ainv (Some p) a ∧ a_cur a = Some p))|].
    intros a Ha. split; [by apply ainv_cur|done]. }
  intros []. tq. eapply tri_bind.
  { eapply tri_pre; [apply (tri_set_state (IC (Some p)))|]. intros a [Ha Hc] st c Hi.
    split_and!; [by apply ainv_set_unqueued| |done]. intros j Hj.
    change (a_cur a = Some j) in Hj. simplify_eq.
    rewrite a_state_set by (by eapply lookup_lt_Some). by rewrite decide_True. }
  intros []. tq. by apply tri_ret.
Qed.

Lemma tri_resume p : tri (E:=E) (IC (Some p)) (resume p) (λ _, IC (Some p)).
Proof.
  unfold resume, forkret. apply tri_getp. intros pr. destruct (context pr).
  - apply (tri_pre _ (IC (Some p))); [|naive_solver]. apply quiet_tri. quiet.
  - apply (tri_pre _ (IC (Some p))); [|naive_solver]. apply quiet_tri. quiet.
  - eapply tri_bind.
    { eapply tri_pre; [apply (tri_set_chan (IC (Some p)))|].
      intros a [(Ha & Hc & Hcp) _] st c Hi. pose proof (Hc _ Hcp) as Hs.
      rewrite (a_state_lookup _ _ _ _ Hi) in Hs. simplify_eq.
      split_and!; [by eapply ainv_set_chan| |done]. eapply cur_ok_set; naive_solver. }
    intros []. apply quiet_tri. quiet.
  - by intros s Hs.
Qed.

Lemma tri_dispatch : tri (E:=E) (IC None) dispatch (λ _ a, ∃ cp, IC cp a).
Proof.
  unfold dispatch. eapply tri_bind; [apply tri_scheduler|]. intros [p|].
  - eapply tri_conseq; [apply tri_resume|done|]. intros ? a Ha. by exists (Some p).
  - apply tri_ret. intros a Ha. by exists None.
Qed.

Lemma tri_kill cp t : tri (E:=E) (IC cp) (kill t) (λ _, IC cp).
Proof.
  unfold kill. tq. apply tri_get. intros s0.
  destruct (list_find _ (procs s0)) as [[i p]|] eqn:Hf.
  2: { tq. apply tri_ret. naive_solver. }
  apply list_find_Some in Hf as (Hi & _ & _). tq.
  eapply (tri_bind _ _ (λ _, IC cp)); [|intros []; tq; by apply tri_ret].
  apply tri_when; intros Hs; [|naive_solver]. apply bool_decide_eq_true in Hs.
  eapply tri_bind.
  { eapply tri_pre; [apply (tri_set_state (IX cp i))|]. intros a [Ha ->] st c.
    simpl. rewrite list_lookup_fmap, Hi. unfold pabs. simpl. rewrite Hs. intros [= <- <-].
    eapply (IC_runnable cp i SLEEPING); [done| |done..]. simpl. rewrite list_lookup_fmap, Hi.
    unfold pabs. simpl. by rewrite Hs. }
  intros []. eapply tri_bind; [apply tri_insert_queue|]. intros []. apply quiet_tri. quiet.
Qed.

Lemma tri_freeze cp f : tri (E:=E) (IC cp) (freeze f) (λ _, IC cp).
Proof.
  unfold freeze. apply tri_if; intros _; [apply quiet_tri; quiet|].
  do 2 tq. eapply (tri_bind _ _ (λ _, IC cp)); [|intros []; apply quiet_tri; quiet].
  apply tri_for. intros i _. unfold unfreeze_body. apply tri_getp. intros p.
  apply tri_when; intros Hs; [|naive_solver]. apply bool_decide_eq_true in Hs.
  eapply (tri_bind _ _ (λ _, IX cp i)); [|intros []; apply tri_insert_queue].
  eapply tri_pre; [apply (tri_set_state (IX cp i))|]. intros a [Ha Hp] st c Hi.
  unfold pabs in Hp. rewrite Hs in Hp. simplify_eq. eapply IC_runnable; eauto; done.
Qed.
End ops.

(** ** All interleavings *)

Section steps.
Context {E : Type} `{ProcEnv E}.
Implicit Types s : st (E:=E).

(** One atomic step of the system: a whole critical section of some CPU. A CPU
    without a process dispatches; a CPU with one runs a system call, an
    interrupt handler or code of the other layers. [step_cpu] passes the turn to
    another CPU, running any RUNNING process or none. *)
Inductive step : st (E:=E) → st (E:=E) → Prop :=
| step_dispatch s s' : cur s = None → dispatch s = Done tt s' → step s s'
| step_fork s s' d c p o r : fork d c p o s = Done r s' → step s s'
| step_exit s s' : exit s = Done tt s' → step s s'
| step_wait s s' r : wait s = Done r s' → step s s'
| step_wait_again s s' r : wait_loop s = Done r s' → step s s'
| step_yield s s' r : yield s = Done r s' → step s s'
| step_sleep s s' c lk :
    (∀ j, c = CProc j → j < NPROC) → sleep c lk s = Done tt s' → step s s'
| step_wakeup s s' c : wakeup c s = Done tt s' → step s s'
| step_kill s s' t r : kill t s = Done r s' → step s s'
| step_freeze s s' f : freeze f s = Done tt s' → step s s'
| step_print s s' f r : print f s = Done r s' → step s s'
| step_growproc s s' n r : growproc n s = Done r s' → step s s'
| step_killed s s' i : modp i (set_killed true) s = Done tt s' → step s s'
| step_other s e w h : step s (set_env e (set_kword w (set_sheld h s)))
| step_cpu s cp h :
    (∀ i, cp = Some i → state <$> procs s !! i = Some RUNNING) →
    step s (set_cur cp (set_sheld h s)).

Lemma tri_step {A} (m : kM (st (E:=E)) A) (Q : option nat → A → abstr → Prop) s r s' :
  Inv s → (∀ cp, tri (IC cp) m (Q cp)) → m s = Done r s' →
  (∀ cp a, Q cp r a → ainv None a ∧ cur_ok a) → Inv s'.
Proof.
  intros [Ha Hc] Hm Hs HQ. specialize (Hm (cur s) s). rewrite Hs in Hm.
  eapply HQ, Hm. split_and!; done.
Qed.

Lemma step_inv s s' : step s s' → Inv s → Inv s'.
Proof.
  destruct 1 as [s s' Hc Hs|s s' d c p o r Hs|s s' Hs|s s' r Hs|s s' r Hs|s s' r Hs
    |s s' c lk Hj Hs|s s' c Hs|s s' t r Hs|s s' f Hs|s s' f r Hs|s s' n r Hs|s s' i Hs
    |s e w h|s cp h Hcp]; intros HI.
  - pose proof (tri_dispatch s) as Hd. rewrite Hs in Hd. destruct HI as [Ha Hok].
    destruct Hd as (cp & Hcp); [by split_and!|]. split; apply Hcp.
  - eapply tri_step; [done|intros cp; apply tri_fork|done|unfold IC; naive_solver].
  - eapply tri_step; [done|intros cp; apply tri_exit|done|unfold IC; naive_solver].
  - eapply tri_step; [done|intros cp; apply tri_wait|done|unfold IC; naive_solver].
  - eapply tri_step; [done|intros cp; apply tri_wait_loop|done|unfold IC; naive_solver].
  - eapply tri_step; [done|intros cp; apply tri_yield|done|unfold IC; naive_solver].
  - eapply tri_step; [done|intros cp; by apply tri_sleep|done|unfold IC; naive_solver].
  - eapply tri_step; [done|intros cp; apply tri_wakeup|done|unfold IC; naive_solver].
  - eapply tri_step; [done|intros cp; apply tri_kill|done|unfold IC; naive_solver].
  - eapply tri_step; [done|intros cp; apply tri_freeze|done|unfold IC; naive_solver].
  - eapply (tri_step (print f) (λ cp _, IC cp)); [done|intros cp; apply quiet_tri; quiet|done|].
    unfold IC. naive_solver.
  - eapply (tri_step (growproc n) (λ cp _, IC cp)); [done|intros cp; apply quiet_tri; quiet|done|].
    unfold IC. naive_solver.
  - eapply (tri_step (modp i (set_killed true)) (λ cp _, IC cp)); [done|intros cp; apply quiet_tri; quiet|done|].
    unfold IC. naive_solver.
  - done.
  - destruct HI as [Ha Hok]. split; [by destruct Ha; split|].
    intros i Hi. simpl in Hi. specialize (Hcp i Hi). unfold a_state. simpl.
    rewrite list_lookup_fmap. destruct (procs s !! i); naive_solver.
Qed.

(** The kernel just after [userinit]: one process, runnable and queued. *)
Definition boot s : Prop :=
  ∃ s0, procs s0 = replicate NPROC proc0 ∧ rq s0 = replicate NPROC NPROC ∧
        cur s0 = None ∧ userinit s0 = Done tt s.

(** A fresh table in which one entry has left UNUSED. *)
Definition fresh_table (i : nat) (x : procstate) (a : abstr) : Prop :=
  i < NPROC ∧ a_procs a = <[i := (x, None)]> (replicate NPROC (UNUSED, None)) ∧
  a_rq a = replicate NPROC NPROC ∧ a_cur a = None.

Lemma tri_fresh_set i x v :
  tri (E:=E) (fresh_table i x) (modp i (set_state v)) (λ _, fresh_table i v).
Proof.
  eapply tri_pre; [apply (tri_set_state (fresh_table i v))|].
  intros a (Hi & Hp & Hr & Hc) st c Hl. unfold fresh_table. simpl. split_and!; [done| |done..].
  rewrite Hp in Hl |- *. rewrite list_lookup_insert_eq in Hl by by rewrite length_replicate.
  simplify_eq. by rewrite list_insert_insert_eq.
Qed.

Lemma tri_allocproc_fresh :
  tri (E:=E) (λ a, a_procs a = replicate NPROC (UNUSED, None) ∧
                   a_rq a = replicate NPROC NPROC ∧ a_cur a = None)
    allocproc (λ r a, ∀ i, r = Some i → fresh_table i EMBRYO a).
Proof.
  unfold allocproc. tq. apply tri_get. intros s0.
  destruct (list_find _ (procs s0)) as [[i p]|] eqn:Hf; [|tq; by apply tri_ret].
  apply list_find_Some in Hf as (Hi & _ & _). eapply tri_bind.
  { eapply tri_pre; [apply (tri_set_state (fresh_table i EMBRYO))|].
    intros a [(Hp & Hr & Hc) Ha] st c Hl. rewrite Hp in Hl.
    apply lookup_replicate in Hl as [? ?]. simplify_eq.
    unfold fresh_table. simpl in *. rewrite Hp. by split_and!. }
  intros []. do 5 tq. apply tri_if; intros _.
  - eapply tri_bind; [apply tri_fresh_set|]. intros []. by apply tri_ret.
  - cbv zeta. do 11 tq. apply tri_ret. naive_solver.
Qed.

Lemma fresh_inv i a :
  fresh_table i RUNNABLE a →
  IC None (Abs (a_procs a) (<[0 := i]> (a_rq a)) 0 (a_cur a)).
Proof.
  intros (Hi & Hp & Hr & Hc).
  assert (∀ j, a_state (Abs (a_procs a) (<[0:=i]> (a_rq a)) 0 (a_cur a)) j = Some RUNNABLE ↔ j = i)
    as Hst.
  { intros j. unfold a_state. cbn [a_procs]. rewrite Hp.
    destruct (decide (j = i)) as [->|Hne].
    - by rewrite list_lookup_insert_eq by by rewrite length_replicate.
    - rewrite list_lookup_insert_ne by done.
      destruct (replicate NPROC _ !! j) as [[]|] eqn:Hl; [|naive_solver].
      apply lookup_replicate in Hl as [? _]. naive_solver. }
  assert (a_ready (Abs (a_procs a) (<[0:=i]> (a_rq a)) 0 (a_cur a)) = [i]) as Hready.
  { unfold a_ready. cbn [a_rq]. by rewrite Hr. }
  split_and!; [split| |done]; cbn [a_procs a_rq a_itr_q].
  - by rewrite Hp, length_insert, length_replicate.
  - by rewrite Hr, length_insert, length_replicate.
  - lia.
  - vm_compute. lia.
  - rewrite Hready. apply NoDup_singleton.
  - intros j. rewrite Hready, Hst, list_elem_of_singleton. naive_solver.
  - by intros j [=].
  - intros j c Hl. rewrite Hp in Hl. destruct (decide (j = i)) as [->|Hne].
    + by rewrite list_lookup_insert_eq in Hl by by rewrite length_replicate.
    + rewrite list_lookup_insert_ne in Hl by done. apply lookup_replicate in Hl. naive_solver.
  - exists i. rewrite list_lookup_insert_eq by (rewrite Hr, length_replicate; unfold NPROC; lia). done.
  - intros j Hj. simpl in Hj. congruence.
Qed.

Lemma boot_inv s : boot s → Inv s.
Proof.
  intros (s0 & Hp & Hr & Hc & Hs).
  assert (tri (E:=E) (λ a, a_procs a = replicate NPROC (UNUSED, None) ∧
    a_rq a = replicate NPROC NPROC ∧ a_cur a = None) userinit (λ _, IC None)) as Ht.
  { unfold userinit. eapply tri_bind; [apply tri_allocproc_fresh|]. intros r. tq.
    apply tri_unwrap. intros i ->. apply (tri_pre _ (fresh_table i EMBRYO)); [|naive_solver].
    do 9 tq. eapply tri_bind; [apply tri_fresh_set|]. intros []. do 2 tq.
    eapply (tri_bind _ _ (λ _ a, fresh_table i RUNNABLE a ∧ a_itr_q a = 0%Z)).
    { intros s1 Hs1. simpl. done. }
    intros []. do 6 tq. apply tri_get. intros s1.
    eapply (tri_bind _ _ (λ _, IC None)); [|intros []; apply quiet_tri; quiet].
    intros s2 [[Hf Hz] Hs2]. simpl. apply fresh_inv in Hf.
    injection Hs2 as Ep Er Ei Ec. simpl in *. unfold abs. simpl.
    by rewrite <-Ep, <-Er, <-Ei, <-Ec, Hz. }
  specialize (Ht s0). rewrite Hs in Ht. destruct Ht as (? & ? & _); [|by split].
  unfold abs. simpl. rewrite Hp, fmap_replicate. done.
Qed.
End steps.
