(* ===== verification/ProcThm.v ===== *)
(** * Theorems about the process layer

    The reachability form of the queue invariant, total correctness of
    [wakeup], what [exit] and [wait] do to the process tree, and the behaviours
    of the scheduler in batch mode. *)

From S2P Require Import Prelude Heap Proc ProcInv.
Import Proc.

Section total.
Context {E : Type} `{ProcEnv E}.
Implicit Types s : st (E:=E).

(** ** Total steps *)

Lemma wp_getp i p s Q : procs s !! i = Some p → Q p s → wp (getp i) s Q.
Proof. intros Hp HQ. unfold wp, getp, kbind, kunwrap. simpl. by rewrite Hp. Qed.

Lemma wp_modp i f p s Q :
  procs s !! i = Some p → Q tt (set_procs (<[i := f p]> (procs s)) s) → wp (modp i f) s Q.
Proof. intros Hp HQ. unfold wp, modp, getp, kbind, kunwrap. simpl. by rewrite Hp. Qed.

Lemma wp_self me s Q : cur s = Some me → Q me s → wp self s Q.
Proof. intros Hp HQ. unfold wp, self, kbind, kunwrap. simpl. by rewrite Hp. Qed.

Lemma wp_tick s Q : Q (u64 (clock s (nclk s))) (set_nclk (S (nclk s)) s) → wp tick s Q.
Proof. done. Qed.

Lemma wp_acquire lk s Q :
  lk ∉ sheld s → Q tt (set_sheld (lk :: sheld s) s) → wp (acquire lk) s Q.
Proof. intros Hl HQ. unfold wp. rewrite acquire_free by done. done. Qed.

Lemma wp_release lk s h Q :
  sheld s = lk :: h → lk ∉ h → Q tt (set_sheld h s) → wp (release lk) s Q.
Proof. intros Hl Hn HQ. unfold wp. rewrite (release_top lk h) by done. done. Qed.

Lemma pointers_valid s x : ainv x (abs s) → pointers_ok s (qlen s) = true.
Proof.
  intros []. unfold pointers_ok. apply andb_true_intro. split.
  - apply bool_decide_true. change (rq s) with (a_rq (abs s)). rewrite inv_rq. apply inv_len.
  - apply forallb_forall. intros i Hi. apply bool_decide_true.
    apply list_elem_of_In in Hi. apply inv_ready in Hi as [Hi _].
    unfold a_state in Hi. simpl in Hi. rewrite list_lookup_fmap in Hi.
    destruct (procs s !! i) eqn:Hl; [by eapply lookup_lt_Some|done].
Qed.

(** The queue has room for a process that is runnable but not queued. *)
Lemma wp_insert_queue p s Q :
  ainv (Some p) (abs s) →
  Q tt (set_itr_q (u32 (itr_q s + 1))
         (set_rq (Heap.enqueue (prio_of (procs s)) p (rq s, qlen s)).1 s)) →
  wp (insert_queue p) s Q.
Proof.
  intros Ha HQ. destruct (ainv_room _ _ Ha) as [Hp Hq].
  pose proof (pointers_valid _ _ Ha) as Hv.
  assert (length (rq s) = NPROC) by apply Ha.
  assert (length (procs s) = NPROC).
  { pose proof (inv_procs _ _ Ha) as Hl. simpl in Hl. by rewrite length_fmap in Hl. }
  unfold wp, insert_queue, kbind. simpl. rewrite Hv.
  change (a_qlen (abs s)) with (qlen s) in Hq.
  rewrite !bool_decide_true by lia. done.
Qed.

Lemma getp_done i p s : procs s !! i = Some p → getp i s = Done p s.
Proof. intros Hp. unfold getp, kbind, kunwrap. simpl. by rewrite Hp. Qed.

Lemma modp_done i f p s :
  procs s !! i = Some p → modp i f s = Done tt (set_procs (<[i := f p]> (procs s)) s).
Proof. intros Hp. unfold modp. by rewrite (kbind_done _ _ _ p s) by by apply getp_done. Qed.

(** The word a channel points at. *)
Definition word s (c : chan) : Z :=
  match c with CProc i => default 0%Z (pO <$> procs s !! i) | c => kword s c end.

Lemma wp_deref c s Q :
  (∀ j, c = CProc j → j < length (procs s)) → Q (word s c) s → wp (deref (Some c)) s Q.
Proof.
  intros Hc HQ. destruct c as [j| | | | | | |]; try done. simpl.
  destruct (lookup_lt_is_Some_2 (procs s) j) as [p Hp]; [by apply Hc|].
  apply wp_bind. apply (wp_getp _ p); [done|]. apply wp_ret. simpl in HQ. by rewrite Hp in HQ.
Qed.

(** What [wakeup c] does to one process. *)
Definition woken s (c : chan) (p : proc) : Prop :=
  state p = SLEEPING ∧ ∃ d, pchan p = Some d ∧ word s d = word s c.

#[global] Instance woken_dec s c p : Decision (woken s c p).
Proof.
  unfold woken. destruct (decide (state p = SLEEPING)) as [Hs|]; [|right; naive_solver].
  destruct (pchan p) as [d|]; [|right; naive_solver].
  destruct (decide (word s d = word s c)); [left; eauto|right; naive_solver].
Defined.

(** Two versions of a process that differ in nothing but its state and times. *)
Definition same_id (p p' : proc) : Prop := pO p' = pO p ∧ parent p' = parent p ∧ pid p' = pid p.

(** The loop invariant of [wakeup1] after the entries below [k]. *)
Definition waking s (c : chan) (k : nat) s' : Prop :=
  IC (cur s) (abs s') ∧ kword s' = kword s ∧ sheld s' = sheld s ∧
  initproc s' = initproc s ∧ length (procs s') = length (procs s) ∧
  ∀ i p, procs s !! i = Some p → ∃ p', procs s' !! i = Some p' ∧ same_id p p' ∧
    if decide (i < k ∧ woken s c p) then state p' = RUNNABLE else p' = p.

Lemma waking_word s c k s' d : waking s c k s' → word s' d = word s d.
Proof.
  intros (_ & Hw & _ & _ & Hl & Hp). destruct d as [j| | | | | | |]; simpl; try by rewrite Hw.
  destruct (procs s !! j) as [p|] eqn:Hj.
  - destruct (Hp j p Hj) as (p' & -> & (HO & _) & _). simpl. by rewrite HO.
  - apply lookup_ge_None in Hj. rewrite lookup_ge_None_2 by lia. done.
Qed.

(** A process that is to be woken: the straight-line part of the loop body. *)
Lemma wp_wake_entry cp i p s (Q : unit → st → Prop) :
  IC cp (abs s) → procs s !! i = Some p → state p = SLEEPING →
  (∀ t rq' n', let p' := set_ctxswt 0 (set_firstsch 0 (set_arrtime t
       (set_pchan None (set_state RUNNABLE p)))) in
     let s' := set_interrupt true (set_itr_q n' (set_rq rq'
       (set_nclk (S (nclk s)) (set_procs (<[i := p']> (procs s)) s)))) in
     IC cp (abs s') → Q tt s') →
  wp (modp i (set_state RUNNABLE) ;; modp i (set_pchan None) ;; t ← tick;
      modp i (set_arrtime t) ;; modp i (set_firstsch 0) ;; modp i (set_ctxswt 0) ;;
      insert_queue i ;; kmodify (set_interrupt true))%kern s Q.
Proof.
  intros Ha Hi Hs HQ. pose proof (lookup_lt_Some _ _ _ Hi) as Hlt.
  apply wp_bind. apply (wp_modp _ _ p); [done|].
  apply wp_bind. eapply wp_modp; [simpl; by apply list_lookup_insert_eq|]. simpl.
  rewrite list_insert_insert_eq.
  apply wp_bind, wp_tick.
  do 3 (apply wp_bind; eapply wp_modp; [simpl; by apply list_lookup_insert_eq|]; simpl;
        rewrite list_insert_insert_eq).
  apply wp_bind. 
  match goal with |- wp _ ?x _ => set (s1 := x) end.
  assert (IX cp i (abs s1)) as H1.
  { destruct (IC_runnable cp i SLEEPING (pchan p) (abs s)) as (Hx1 & Hx2 & Hx3);
      [done|simpl; rewrite list_lookup_fmap, Hi; unfold pabs; simpl; by rewrite Hs|done..|].
    assert (abs s1 = a_set i (RUNNABLE, None) (a_set i (RUNNABLE, pchan p) (abs s))) as ->.
    { unfold abs, a_set, s1. simpl. f_equal. by rewrite list_fmap_insert, list_insert_insert_eq. }
    assert (a_procs (a_set i (RUNNABLE, pchan p) (abs s)) !! i = Some (RUNNABLE, pchan p)) as Hl.
    { simpl. rewrite list_lookup_insert_eq; [done|]. by rewrite length_fmap. }
    split_and!; [by eapply ainv_set_chan| |done]. eapply cur_ok_set; naive_solver. }
  apply wp_insert_queue; [by apply H1|]. apply wp_modify.
  apply HQ. by apply (IX_insert cp i (prio_of (procs s1)) (abs s1)).
Qed.

Lemma seq_split_at n pre i post : seq 0 n = pre ++ i :: post → i = length pre ∧ i < n.
Proof.
  intros Hs. assert (seq 0 n !! length pre = Some i) as Hl.
  { rewrite Hs. by apply list_lookup_middle. }
  apply lookup_seq in Hl. lia.
Qed.

Lemma waking_step s c k s' :
  Inv s → (∀ j, c = CProc j → j < NPROC) → k < NPROC → waking s c k s' →
  wp (wakeup1_body (Some c) k) s' (λ _, waking s c (S k)).
Proof.
  intros [Hinv _] Hc Hk Hwk. pose proof Hwk as (HIC & Hkw & Hh & Hi0 & Hl & Hp).
  assert (length (procs s) = NPROC) as Hlen.
  { pose proof (inv_procs _ _ Hinv) as Hx. simpl in Hx. by rewrite length_fmap in Hx. }
  destruct (lookup_lt_is_Some_2 (procs s) k) as [p Hpk]; [lia|].
  destruct (Hp k p Hpk) as (p' & Hpk' & _ & Heq). rewrite decide_False in Heq by lia. subst p'.
  assert (¬ woken s c p → waking s c (S k) s') as Hskip.
  { intros Hn. split_and!; [done..|]. intros i q Hq. destruct (Hp i q Hq) as (q' & ? & ? & Hx).
    exists q'. split_and!; [done..|]. destruct (decide (i = k)) as [->|].
    - simplify_eq. by rewrite decide_False by naive_solver.
    - destruct (decide (i < k ∧ woken s c q)), (decide (i < S k ∧ woken s c q)); try done;
        naive_solver lia. }
  unfold wakeup1_body. apply wp_bind. apply (wp_getp _ p); [done|].
  case_bool_decide as Hs; [|apply wp_ret, Hskip; by intros [? _]].
  destruct (inv_chan _ _ (proj1 HIC) k (pchan p)) as (d & Hd & Hdj).
  { simpl. rewrite list_lookup_fmap, Hpk'. unfold pabs. simpl. by rewrite Hs. }
  apply wp_bind. rewrite Hd. apply wp_deref; [intros j Hj; rewrite Hl, Hlen; by apply Hdj|].
  apply wp_bind. apply wp_deref; [intros j Hj; rewrite Hl, Hlen; by apply Hc|].
  rewrite !(waking_word s c k s') by done.
  case_bool_decide as Hw; [|apply wp_ret, Hskip; intros (_ & e & ? & ?); by simplify_eq].
  apply (wp_wake_entry (cur s) _ p); [done..|]. intros t rq' n'. simpl. intros HIC'.
  unfold waking. simpl. split_and!; [done..|by rewrite length_insert|].
  intros i q Hq. destruct (decide (i = k)) as [->|Hne].
  - simplify_eq. eexists. split; [by apply list_lookup_insert_eq; lia|]. split; [done|].
    rewrite decide_True; [done|]. split; [lia|]. split; [done|]. by exists d.
  - destruct (Hp i q Hq) as (q' & Hq' & ? & Hx). exists q'.
    split; [by rewrite list_lookup_insert_ne|]. split; [done|].
    destruct (decide (i < k ∧ woken s c q)), (decide (i < S k ∧ woken s c q)); try done;
      naive_solver lia.
Qed.

Lemma wp_wakeup1 s c :
  Inv s → (∀ j, c = CProc j → j < NPROC) → wp (wakeup1 (Some c)) s (λ _, waking s c NPROC).
Proof.
  intros HI Hc. unfold wakeup1.
  apply (wp_for_split (λ pre, waking s c (length pre))).
  - destruct HI as [Ha Hok]. unfold waking. split_and!; [by split_and!|done..|].
    intros i p Hp. exists p. split_and!; [done..|]. by rewrite decide_False by (simpl; lia).
  - intros pre k post s' Hsplit Hwk. apply seq_split_at in Hsplit as [-> Hlt].
    rewrite length_app. simpl. rewrite Nat.add_1_r. by apply waking_step.
  - intros s'. by rewrite length_seq.
Qed.

(** ** exit *)

Lemma wp_call {A} (m : kM E A) s a e Q :
  m (env s) = Done a e → Q a (set_env e s) → wp (call m) s Q.
Proof. intros Hm HQ. unfold wp, call, kzoom, envl. simpl. by rewrite Hm. Qed.

(** A wakeup changes a state only from SLEEPING to RUNNABLE. *)
Definition woke (x y : procstate) : Prop := y = x ∨ x = SLEEPING ∧ y = RUNNABLE.

Lemma woke_trans x y z : woke x y → woke y z → woke x z.
Proof. unfold woke. intros [->|[-> ->]] [->|[? ->]]; [by left|by right..|done]. Qed.

Lemma wakeup1_inv s c :
  Inv s → (∀ j, c = CProc j → j < NPROC) →
  wp (wakeup1 (Some c)) s (λ _ s', Inv s' ∧ cur s' = cur s ∧ sheld s' = sheld s ∧
    initproc s' = initproc s ∧
    ∀ i p, procs s !! i = Some p → ∃ p', procs s' !! i = Some p' ∧ same_id p p' ∧
      woke (state p) (state p') ∧
      (pchan p = Some c → state p = SLEEPING → state p' = RUNNABLE)).
Proof.
  intros HI Hc. eapply wp_mono; [by apply wp_wakeup1|].
  intros [] s' ((Ha & Hok & Hcp) & _ & Hh & Hi & Hl & Hp). split_and!; [done..|].
  intros i p Hip. pose proof (lookup_lt_Some _ _ _ Hip) as Hlt.
  destruct (Hp i p Hip) as (p' & ? & Hid & Hx). exists p'. split; [done|]. split; [done|].
  pose proof (inv_procs _ _ (proj1 HI)) as Hn. simpl in Hn. rewrite length_fmap in Hn.
  destruct (decide (i < NPROC ∧ woken s c p)) as [[_ Hw]|Hw].
  - split; [right; split; [by apply Hw|done]|done].
  - subst p'. split; [by left|]. intros Hch Hst. destruct Hw. split; [lia|].
    split; [done|]. by exists c.
Qed.

(** The state of the table inside the loop that gives children to init. *)
Definition adopting s (me ini : nat) (k : nat) s' : Prop :=
  Inv s' ∧ cur s' = cur s ∧ sheld s' = sheld s ∧ initproc s' = initproc s ∧
  ∀ i p, procs s !! i = Some p → ∃ p', procs s' !! i = Some p' ∧ pid p' = pid p ∧
    parent p' = (if decide (i < k ∧ parent p = Some me) then Some ini else parent p) ∧
    woke (state p) (state p').

Lemma Inv_set_parent s i v p :
  procs s !! i = Some p → Inv s → Inv (set_procs (<[i := set_parent v p]> (procs s)) s).
Proof.
  intros Hp HI. unfold Inv. assert (abs (set_procs (<[i:=set_parent v p]> (procs s)) s) = abs s) as ->; [|done].
  unfold abs. simpl. f_equal. rewrite list_fmap_insert, list_insert_id; [done|].
  by rewrite list_lookup_fmap, Hp.
Qed.

Lemma adopting_step s me ini k s' :
  initproc s = Some ini → ini < NPROC → k < length (procs s) → adopting s me ini k s' →
  wp (reparent_body me k) s' (λ _, adopting s me ini (S k)).
Proof.
  intros Hini Hlt Hk (HI & Hc & Hh & Hi & Hp).
  destruct (lookup_lt_is_Some_2 (procs s) k Hk) as [p Hpk].
  destruct (Hp k p Hpk) as (p' & Hpk' & Hpid & Hpar & Hst). rewrite decide_False in Hpar by lia.
  unfold reparent_body. apply wp_bind, (wp_getp _ p'); [done|].
  assert (∀ s2, Inv s2 → cur s2 = cur s' → sheld s2 = sheld s' → initproc s2 = initproc s' →
    (∀ i q, procs s' !! i = Some q → ∃ q', procs s2 !! i = Some q' ∧ pid q' = pid q ∧
       parent q' = (if decide (i = k ∧ parent q = Some me) then Some ini else parent q) ∧
       woke (state q) (state q')) →
    adopting s me ini (S k) s2) as Hgoal.
  { intros s2 ? ? ? ? Hq. split_and!; [done|congruence..|]. intros i q Hq0.
    destruct (Hp i q Hq0) as (q1 & Hq1 & ? & Hpar1 & Hst1).
    destruct (Hq i q1 Hq1) as (q2 & ? & ? & Hpar2 & Hst2). exists q2.
    split; [done|]. split; [congruence|]. split; [|by eapply woke_trans].
    rewrite Hpar2. destruct (decide (i < k ∧ parent q = Some me)) as [[? Hq']|Hn]; rewrite Hpar1.
    - rewrite decide_False by lia. by rewrite decide_True by (split; [lia|done]).
    - destruct (decide (parent q = Some me)) as [Hq'|]; [|by rewrite !decide_False by tauto].
      destruct (decide (i = k)) as [->|]; [by rewrite !decide_True by (split; [lia|done])|].
      rewrite !decide_False; [done|intros [? _]; apply Hn; split; [lia|done]|by intros [? _]]. }
  case_bool_decide as Hme.
  - apply wp_bind, wp_get, wp_bind, (wp_modp _ _ p'); [done|]. rewrite Hi, Hini.
    set (s1 := set_procs _ _).
    assert (Inv s1) as HI1 by by apply Inv_set_parent.
    assert (∀ i q, procs s' !! i = Some q → ∃ q', procs s1 !! i = Some q' ∧ pid q' = pid q ∧
       parent q' = (if decide (i = k ∧ parent q = Some me) then Some ini else parent q) ∧
       state q' = state q) as Hs1.
    { intros i q Hq. simpl. destruct (decide (i = k)) as [->|].
      - simplify_eq. eexists. rewrite list_lookup_insert_eq by by eapply lookup_lt_Some.
        split; [done|]. by rewrite decide_True.
      - exists q. rewrite list_lookup_insert_ne by done. split_and!; try done.
        rewrite decide_False by naive_solver. done. }
    apply wp_when; intros _.
    + eapply wp_mono; [apply wakeup1_inv; [done|by intros j [= <-]]|].
      intros [] s2 (? & ? & ? & ? & Hq2). apply Hgoal; [done..|].
      intros i q Hq. destruct (Hs1 i q Hq) as (q1 & Hq1 & ? & ? & ?).
      destruct (Hq2 i q1 Hq1) as (q2 & ? & (_ & ? & ?) & ? & _). exists q2.
      split; [done|]. split; [congruence|]. split; [congruence|]. by replace (state q) with (state q1).
    + apply Hgoal; [done..|]. intros i q Hq. destruct (Hs1 i q Hq) as (q1 & ? & ? & ? & ?).
      exists q1. split_and!; [done..|by left].
  - apply wp_ret, Hgoal; [done..|]. intros i q Hq. exists q. split; [done|]. split; [done|].
    split; [|by left]. rewrite decide_False; [done|]. naive_solver.
Qed.

Lemma wp_sched k me p s Q :
  sheld s = [LPtable] → cur s = Some me → procs s !! me = Some p → state p ≠ RUNNING →
  Q tt (set_sheld [] (set_cur None (set_procs (<[me := set_context k p]> (procs s)) s))) →
  wp (sched k) s Q.
Proof.
  intros Hh Hc Hp Hs HQ. unfold sched. apply wp_bind, wp_get.
  apply wp_bind, wp_assert; [rewrite Hh; by apply bool_decide_true; constructor|].
  apply wp_bind, wp_assert; [by rewrite Hh|].
  apply wp_bind, (wp_self me); [done|]. apply wp_bind, (wp_getp _ p); [done|].
  apply wp_bind, wp_assert; [by apply bool_decide_true|].
  apply wp_bind, (wp_modp _ _ p); [done|]. apply wp_bind, wp_modify.
  by apply (wp_release _ _ []); [|apply not_elem_of_nil|].
Qed.

(** The files and directory of the exiting process are gone; nothing else of
    the table has changed. *)
Definition closing s (me : nat) (p : proc) s' : Prop :=
  ∃ e fs c, s' = set_env e (set_procs (<[me := set_cwd c (set_ofile fs p)]> (procs s)) s).

Lemma closing_abs s me p s' : procs s !! me = Some p → closing s me p s' → abs s' = abs s.
Proof.
  intros Hp (e & fs & c & ->). unfold abs. simpl. f_equal.
  rewrite list_fmap_insert, list_insert_id; [done|]. by rewrite list_lookup_fmap, Hp.
Qed.

Lemma closing_loop s me p :
  procs s !! me = Some p → (∀ f e, ∃ e', fileclose f e = Done tt e') →
  wp (kfor (seq 0 NOFILE) (λ fd,
    p ← getp me;
    match ofile p !! fd with
    | Some (Some f) => call (fileclose f) ;; modp me (λ x, set_ofile (<[fd := None]> (ofile x)) x)
    | _ => kret tt
    end))%kern s (λ _ s', ∃ e fs,
      s' = set_env e (set_procs (<[me := set_cwd (cwd p) (set_ofile fs p)]> (procs s)) s)).
Proof.
  intros Hp Hclose. pose proof (lookup_lt_Some _ _ _ Hp) as Hlt.
  eapply (wp_for (λ _ s', ∃ e fs, s' = set_env e (set_procs (<[me := set_cwd (cwd p) (set_ofile fs p)]> (procs s)) s))).
  - exists (env s), (ofile p). destruct s, p; simpl in *. by rewrite list_insert_id.
  - intros fd _ s' (e & fs & ->).
    apply wp_bind. eapply wp_getp; [simpl; by apply list_lookup_insert_eq|]. simpl.
    destruct (fs !! fd) as [[f|]|]; [|by apply wp_ret; eauto..].
    destruct (Hclose f e) as (e' & He). apply wp_bind. eapply wp_call; [done|]. simpl.
    eapply wp_modp; [simpl; by apply list_lookup_insert_eq|]. exists e', (<[fd:=None]> fs).
    simpl. by rewrite list_insert_insert_eq.
  - naive_solver.
Qed.

(** The part of [exit] before ptable.lock is taken. *)
Lemma Inv_closing s me p s' h :
  procs s !! me = Some p → closing s me p s' → Inv s → Inv (set_sheld h s').
Proof. intros Hp Hcl HI. unfold Inv. change (abs (set_sheld h s')) with (abs s'). by rewrite (closing_abs s me p s'). Qed.

(** What [exit] of process [me] does to the table entry [q] at index [i],
    before [me] itself becomes a zombie. *)
Definition orphaned (me ini par i : nat) (q q' : proc) : Prop :=
  pid q' = pid q ∧
  parent q' = (if decide (parent q = Some me) then Some ini else parent q) ∧
  woke (state q) (state q') ∧
  (i = par → state q = SLEEPING → pchan q = Some (CProc par) → state q' = RUNNABLE).

(** Waking the parent and then giving the children away. *)
Lemma wp_orphan s me ini par :
  Inv s → initproc s = Some ini → ini < NPROC → par < NPROC →
  wp (wakeup1 (Some (CProc par)) ;; kfor (seq 0 NPROC) (reparent_body me))%kern s (λ _ s',
    cur s' = cur s ∧ sheld s' = sheld s ∧
    ∀ i q, procs s !! i = Some q → ∃ q', procs s' !! i = Some q' ∧ orphaned me ini par i q q').
Proof.
  intros HI Hini Hilt Hplt.
  apply wp_bind. eapply wp_mono; [apply wakeup1_inv; [done|by intros j [= <-]]|].
  intros [] s1 (HI1 & Hc1 & Hh1 & Hi1 & Hp1).
  pose proof (inv_procs _ _ (proj1 HI1)) as Hl. simpl in Hl. rewrite length_fmap in Hl.
  apply (wp_for_split (λ pre, adopting s1 me ini (length pre))).
  - split_and!; [done..|]. intros i q Hq. exists q. rewrite decide_False by (simpl; lia).
    split_and!; [done..|by left].
  - intros pre k post s' Hsplit Had. apply seq_split_at in Hsplit as [-> Hk].
    rewrite length_app. simpl. rewrite Nat.add_1_r. apply adopting_step; [congruence|done|lia|done].
  - rewrite length_seq. intros s2 (HI2 & Hc2 & Hh2 & Hi2 & Hp2).
    split; [congruence|]. split; [congruence|]. intros i q Hq.
    destruct (Hp1 i q Hq) as (q1 & Hq1 & (_ & Hpar1 & Hpid1) & Hw1 & Hwk).
    pose proof (lookup_lt_Some _ _ _ Hq1) as Hiq.
    destruct (Hp2 i q1 Hq1) as (q2 & Hq2 & Hpid2 & Hpar2 & Hw2). exists q2.
    split; [done|]. split; [congruence|]. rewrite Hpar1 in Hpar2. split.
    { rewrite Hpar2. destruct (decide (parent q = Some me)).
      - by rewrite decide_True by (split; [lia|done]).
      - by rewrite decide_False by tauto. }
    split; [by eapply woke_trans|]. intros -> Hs Hch.
    destruct Hw2 as [->|[? ->]]; [by apply Hwk|done].
Qed.

Lemma wp_exit s me p par ini cw :
  Inv s → cur s = Some me → procs s !! me = Some p → sheld s = [] →
  initproc s = Some ini → ini < NPROC → ini ≠ me →
  parent p = Some par → par < NPROC → cwd p = Some cw →
  (∀ f e, ∃ e', fileclose f e = Done tt e') → (∀ i e, ∃ e', iput_op i e = Done tt e') →
  wp exit s (λ _ s', cur s' = None ∧ sheld s' = [] ∧
    (state <$> procs s' !! me = Some ZOMBIE) ∧
    ∀ i q, procs s !! i = Some q → i ≠ me →
      ∃ q', procs s' !! i = Some q' ∧ orphaned me ini par i q q').
Proof.
  intros HI Hc Hp Hh Hini Hilt Hne Hpar Hplt Hcw Hclose Hiput.
  pose proof (lookup_lt_Some _ _ _ Hp) as Hlt.
  unfold exit. apply wp_bind, wp_get, wp_bind, wp_assert.
  { apply bool_decide_true. rewrite Hc, Hini. congruence. }
  apply wp_bind, (wp_self me); [done|]. apply wp_bind.
  eapply wp_mono; [by apply closing_loop|]. intros [] s1 (e & fs & ->).
  apply wp_bind. eapply wp_getp; [simpl; by apply list_lookup_insert_eq|]. simpl.
  apply wp_bind, (wp_unwrap _ cw); [done|]. destruct (Hiput cw e) as (e' & He).
  apply wp_bind. eapply wp_call; [done|]. simpl.
  apply wp_bind. eapply wp_modp; [simpl; by apply list_lookup_insert_eq|]. simpl.
  rewrite list_insert_insert_eq.
  apply wp_bind, wp_acquire; [simpl; rewrite Hh; apply not_elem_of_nil|].
  apply wp_bind. eapply wp_getp; [simpl; by apply list_lookup_insert_eq|]. simpl. rewrite Hpar. simpl.
  match goal with |- wp _ ?x _ => set (s2 := x) end.
  assert (Inv s2) as HI2.
  { apply (Inv_closing s me p (set_env e' (set_procs (<[me := set_cwd None (set_ofile fs p)]> (procs s)) s)));
      [done| |done]. by exists e', fs, None. }
  rewrite wp_assoc. apply wp_bind. eapply wp_mono; [by apply (wp_orphan s2 me ini par)|].
  intros [] s4 (Hc4 & Hh4 & H4). simpl in Hc4, Hh4. rewrite Hh in Hh4.
  destruct (H4 me (set_cwd None (set_ofile fs p))) as (p4 & Hme4 & _).
  { simpl. by apply list_lookup_insert_eq. }
  pose proof (lookup_lt_Some _ _ _ Hme4) as Hl4.
  apply wp_bind, (wp_modp _ _ p4); [done|].
  eapply (wp_sched _ me); [simpl; congruence|simpl; congruence
    |simpl; by apply list_lookup_insert_eq|done|].
  simpl. rewrite list_insert_insert_eq. split; [done|]. split; [done|]. split.
  { by rewrite list_lookup_insert_eq. }
  intros i q Hq Hi. rewrite list_lookup_insert_ne by done. apply H4. simpl.
  by rewrite list_lookup_insert_ne.
Qed.

(** ** wait *)

(** The entry of a child that [wait] has collected. *)
Definition reaped (q : proc) : proc :=
  set_killed false (set_name "" (set_parent None (set_pid 0 (set_state UNUSED (set_kstack 0 q))))).

(** What [wait] of process [me] may do. *)
Definition wait_result s (me : nat) (p : proc) (r : ctl Z) s' : Prop :=
  let child q := parent q = Some me in
  let none_dead := ∀ i q, procs s !! i = Some q → child q → state q ≠ ZOMBIE in
  match r with
  | Ret z =>
    cur s' = Some me ∧
    ((∃ i q, procs s !! i = Some q ∧ child q ∧ state q = ZOMBIE ∧ z = pid q ∧
       procs s' = <[i := reaped q]> (procs s)) ∨
     (z = (-1)%Z ∧ procs s' = procs s ∧ none_dead ∧
       ((∀ i q, procs s !! i = Some q → ¬ child q) ∨ killed p = true)))
  | Switched =>
    cur s' = None ∧ none_dead ∧ (∃ i q, procs s !! i = Some q ∧ child q) ∧ killed p = false ∧
    procs s' = <[me := set_context (KSleep LPtable) (set_state SLEEPING (set_pchan (Some (CProc me)) p))]> (procs s)
  end.

Lemma wp_reap s i q Q :
  procs s !! i = Some q → sheld s = [LPtable] →
  (∀ a e, ∃ e', kfree a e = Done tt e') → (∀ a e, ∃ e', freevm a e = Done tt e') →
  (∀ e, Q (Ret (pid q)) (set_sheld [] (set_env e (set_procs (<[i := reaped q]> (procs s)) s)))) →
  wp (p ← getp i;
    let r := pid p in
    call (kfree (kstack p)) ;;
    modp i (set_kstack 0) ;;
    call (freevm (pgdir p)) ;;
    modp i (set_state UNUSED) ;;
    modp i (set_pid 0) ;;
    modp i (set_parent None) ;;
    modp i (set_name "") ;;
    modp i (set_killed false) ;;
    release LPtable ;;
    kret (Ret r))%kern s Q.
Proof.
  intros Hq Hh Hkf Hfv HQ. pose proof (lookup_lt_Some _ _ _ Hq).
  apply wp_bind, (wp_getp _ q); [done|]. destruct (Hkf (kstack q) (env s)) as (e1 & He1).
  apply wp_bind. eapply wp_call; [done|]. apply wp_bind, (wp_modp _ _ q); [done|]. simpl.
  destruct (Hfv (pgdir q) e1) as (e2 & He2). apply wp_bind. eapply wp_call; [done|]. simpl.
  do 5 (apply wp_bind; eapply wp_modp; [simpl; by apply list_lookup_insert_eq|]; simpl;
        rewrite list_insert_insert_eq).
  apply wp_bind. eapply (wp_release _ _ []); [done|apply not_elem_of_nil|]. apply wp_ret. apply HQ.
Qed.

Lemma wp_wait s me p :
  Inv s → cur s = Some me → procs s !! me = Some p → sheld s = [] →
  (∀ a e, ∃ e', kfree a e = Done tt e') → (∀ a e, ∃ e', freevm a e = Done tt e') →
  wp wait s (λ r s', sheld s' = [] ∧ wait_result s me p r s').
Proof.
  intros HI Hc Hp Hh Hkf Hfv. pose proof (lookup_lt_Some _ _ _ Hp).
  unfold wait. apply wp_bind, wp_acquire; [rewrite Hh; apply not_elem_of_nil|]. rewrite Hh.
  unfold wait_loop. apply wp_bind, wp_get, wp_bind, (wp_self me); [done|].
  simpl. destruct (wait_scan me 0 (procs s) false) as [[i|] hk] eqn:Hsc; apply wait_scan_spec in Hsc.
  { destruct Hsc as (q & _ & Hq & Hpar & Hst). rewrite Nat.sub_0_r in Hq.
    apply (wp_reap _ i q); [done..|]. intros e. split; [done|]. split; [done|]. left. by exists i, q. }
  destruct Hsc as [Hnd Hk]. apply wp_bind, (wp_getp _ p); [done|].
  simpl in Hk. destruct (negb hk || killed p) eqn:Hb.
  - apply wp_bind, (wp_release _ _ []); [done|apply not_elem_of_nil|]. apply wp_ret.
    split; [done|]. split; [done|]. right. split_and!; [done..|].
    destruct (killed p) eqn:Hkd; [by right|left]. rewrite orb_false_r in Hb.
    intros i q Hq Hch. destruct hk; [done|]. symmetry in Hk. apply not_true_iff_false in Hk.
    apply Hk, existsb_exists. exists q. split; [by eapply list_elem_of_In, list_elem_of_lookup_2|].
    by apply bool_decide_true.
  - apply orb_false_iff in Hb as [Hhk Hkd]. destruct hk; [|done].
    symmetry in Hk. apply existsb_exists in Hk as (q & Hq & Hch%bool_decide_eq_true).
    apply list_elem_of_In, list_elem_of_lookup in Hq as [i Hq].
    apply wp_bind. unfold sleep. apply wp_bind, wp_get, wp_bind, wp_assert.
    { apply bool_decide_true. simpl. by rewrite Hc. }
    rewrite bool_decide_false by (by intros []). apply wp_bind, wp_ret.
    apply wp_bind, (wp_self me); [done|]. apply wp_bind, (wp_modp _ _ p); [done|].
    apply wp_bind. eapply wp_modp; [simpl; by apply list_lookup_insert_eq|]. simpl.
    rewrite list_insert_insert_eq.
    eapply (wp_sched _ me); [done|done|simpl; by apply list_lookup_insert_eq|done|].
    simpl. rewrite list_insert_insert_eq. apply wp_ret. split; [done|]. simpl. eauto 8.
Qed.

(** ** The scheduler *)

Lemma qlen_pred s : (0 ≤ itr_q s < 2 ^ 32)%Z → 0 < qlen s →
  Z.to_nat (u32 (u32 (itr_q s - 1) + 1)) = qlen s - 1.
Proof.
  unfold qlen, u32. intros Hi Hq. destruct (decide (itr_q s = 2 ^ 32 - 1)%Z) as [He|Hne].
  { rewrite He in Hq. by vm_compute in Hq; lia. }
  rewrite (Z.mod_small (itr_q s + 1)) in * by lia.
  rewrite Zplus_mod_idemp_l. replace (itr_q s - 1 + 1)%Z with (itr_q s) by lia.
  rewrite Z.mod_small by lia. lia.
Qed.

Lemma wp_scheduler s top p :
  Inv s → frozen s = false → LPtable ∉ sheld s → 0 < qlen s →
  rq s !! 0 = Some top → procs s !! top = Some p → pgdir p ≠ 0%Z →
  wp scheduler s (λ r s', r = Some top ∧ cur s' = Some top ∧ sheld s' = LPtable :: sheld s ∧
    state <$> procs s' !! top = Some RUNNING ∧
    top :: take (qlen s') (rq s') ≡ₚ take (qlen s) (rq s) ∧
    ∀ i, i ≠ top → procs s' !! i = procs s !! i).
Proof.
  intros [Ha Hok] Hf Hlk Hq Htop Hp Hpg. pose proof (lookup_lt_Some _ _ _ Hp) as Hlt.
  unfold scheduler. apply wp_bind, wp_acquire; [done|]. apply wp_bind, wp_get. simpl.
  rewrite bool_decide_false.
  2: { intros He. unfold qlen in Hq. rewrite He in Hq. vm_compute in Hq. lia. }
  apply wp_bind, (wp_unwrap _ top); [done|]. apply wp_bind, (wp_getp _ p); [done|].
  apply wp_bind, (wp_modp _ _ p); [done|]. rewrite Hf. apply wp_bind, wp_ret. simpl.
  apply wp_bind. rewrite (pointers_valid (set_sheld (LPtable :: sheld s) s) None) by done.
  apply wp_modify. apply wp_bind, wp_modify. simpl. apply wp_bind.
  unfold switchuvm. apply wp_bind. eapply wp_getp; [simpl; by apply list_lookup_insert_eq|].
  apply wp_assert; [by apply bool_decide_true|].
  apply wp_bind. eapply wp_modp; [simpl; by apply list_lookup_insert_eq|]. simpl.
  rewrite list_insert_insert_eq. apply wp_bind.
  assert (∀ x pq s', state x = RUNNING → procs s' = <[top := x]> (procs s) →
      rq s' = (Heap.dequeue pq (rq s, qlen s)).1 → itr_q s' = u32 (itr_q s - 1) →
    state <$> procs s' !! top = Some RUNNING ∧
    top :: take (qlen s') (rq s') ≡ₚ take (qlen s) (rq s) ∧
    ∀ i, i ≠ top → procs s' !! i = procs s !! i) as Hgoal.
  { intros x pq s' Hx Hps Hrq Hit. rewrite Hps, Hrq.
    split; [rewrite list_lookup_insert_eq by done; by f_equal/=|]. split.
    - unfold qlen at 1. rewrite Hit, qlen_pred by (done || apply (inv_itr _ _ Ha)).
      apply (dequeue_ready pq top (rq s, qlen s)); [|done]. split; [done|].
      pose proof (inv_len _ _ Ha) as Hle. pose proof (inv_rq _ _ Ha) as Hr.
      change (qlen s ≤ NPROC) in Hle. change (length (rq s) = NPROC) in Hr. simpl. lia.
    - intros i Hi. by rewrite list_lookup_insert_ne. }
  apply wp_when; intros _.
  - apply wp_bind, wp_tick. eapply wp_modp; [simpl; by apply list_lookup_insert_eq|]. simpl.
    rewrite list_insert_insert_eq. apply wp_ret. do 3 (split; [done|]).
    eapply Hgoal; [|reflexivity..]; reflexivity.
  - apply wp_ret. do 3 (split; [done|]).
    eapply Hgoal; [|reflexivity..]; reflexivity.
Qed.
End total.

(** ** A concrete environment and boot, for the witnesses *)

(** Pages come from a counter; files and inodes are not tracked. *)
#[export] Instance demo_env : ProcEnv Z := {|
  kalloc := λ e, Done (4096 * e)%Z (e + 1)%Z;
  kfree _ := kret tt;
  setupkvm := λ e, Done (4096 * e)%Z (e + 1)%Z;
  inituvm _ := kret tt;
  copyuvm _ _ := λ e, Done (4096 * e)%Z (e + 1)%Z;
  allocuvm _ _ n := kret n;
  deallocuvm _ _ n := kret n;
  freevm _ := kret tt;
  filedup f := kret f;
  fileclose _ := kret tt;
  idup i := kret i;
  iput_op _ := kret tt;
  namei_root := kret (Some 0);
  fs_init := kret tt;
|}.

Definition demo0 : st (E:=Z) :=
  {| sheld := []; procs := replicate NPROC proc0; rq := replicate NPROC NPROC; itr_q := 0;
     cur := None; nextpid := 1; initproc := None; frozen := false; interrupt := false;
     first := true; miss := 0; itr_s := 0; statistics := ∅; clock := λ n, (Z.of_nat n + 1)%Z;
     nclk := 0; kword := λ _, 0%Z; out := []; env := 1%Z |}.

(** The state in which [m] leaves the kernel. *)
Definition after {S A} (m : kM S A) (s : S) : S :=
  match m s with Done _ s' => s' | _ => s end.

Definition booted : st (E:=Z) := after userinit demo0.
Definition running : st (E:=Z) := after dispatch booted.

Lemma booted_boot : boot booted.
Proof.
  exists demo0. split; [reflexivity|]. split; [reflexivity|]. split; [reflexivity|].
  vm_compute. reflexivity.
Defined.

Lemma running_reach : rtc step booted running.
Proof.
  eapply rtc_l; [|apply rtc_refl]. apply step_dispatch; [reflexivity|].
  vm_compute. reflexivity.
Defined.

Section theorems.
Context {E : Type} `{ProcEnv E}.
Implicit Types s : st (E:=E).

Lemma reach_inv s0 s : boot s0 → rtc step s0 s → Inv s.
Proof.
  intros Hb Hr. apply boot_inv in Hb. induction Hr; [done|]. eauto using step_inv.
Qed.

Lemma Inv_ready s i :
  Inv s → i ∈ take (qlen s) (rq s) ↔ state <$> procs s !! i = Some RUNNABLE.
Proof.
  intros [Ha _]. pose proof (inv_ready _ _ Ha i) as Hi.
  change (a_ready (abs s)) with (take (qlen s) (rq s)) in Hi. rewrite Hi.
  unfold a_state. simpl. rewrite list_lookup_fmap.
  destruct (procs s !! i); simpl; (split; [by intros [? _]|intros ?; by split]).
Qed.

(** C2: in every state reachable from boot by any interleaving of the kernel's
    process operations on any number of CPUs, the ready queue lists every
    RUNNABLE process exactly once and nothing else, and never outgrows its
    array. *)
Theorem ready_queue_exact s0 s :
  boot s0 → rtc step s0 s →
  NoDup (take (qlen s) (rq s)) ∧ qlen s ≤ NPROC ∧
  ∀ i, i ∈ take (qlen s) (rq s) ↔ state <$> procs s !! i = Some RUNNABLE.
Proof.
  intros Hb Hr. pose proof (reach_inv _ _ Hb Hr) as HI. pose proof HI as [Ha _].
  split_and!; [apply (inv_nodup _ _ Ha)|apply (inv_len _ _ Ha)|].
  intros i. by apply Inv_ready.
Qed.

(** [wakeup(c)] returns, and makes runnable and queues exactly the processes
    that sleep on a channel pointing at the same word as [c] (so every process
    sleeping on [c] itself: no wakeup is lost); all others keep their state. *)
Theorem wakeup_exact s0 s c :
  boot s0 → rtc step s0 s → LPtable ∉ sheld s → (∀ j, c = CProc j → j < NPROC) →
  ∃ s', wakeup c s = Done tt s' ∧ sheld s' = sheld s ∧
    ∀ i p, procs s !! i = Some p →
      state <$> procs s' !! i = Some (if decide (woken s c p) then RUNNABLE else state p) ∧
      (woken s c p → i ∈ take (qlen s') (rq s')).
Proof.
  intros Hb Hr Hlk Hc. pose proof (reach_inv _ _ Hb Hr) as HI.
  set (s1 := set_sheld (LPtable :: sheld s) s).
  assert (Inv s1) as HI1 by done.
  pose proof (wp_wakeup1 s1 c HI1 Hc) as Hwp.
  assert (wp (wakeup c) s (λ _ s', ∃ s2, s' = set_sheld (sheld s) s2 ∧ waking s1 c NPROC s2)) as H1.
  { unfold wakeup. apply wp_bind, wp_acquire; [done|]. apply wp_bind.
    eapply wp_mono; [exact Hwp|]. intros [] s2 Hw. pose proof Hw as (_ & _ & Hh & _ & _).
    apply (wp_release _ _ (sheld s)); [by rewrite Hh|done|]. eauto. }
  apply wp_done in H1 as ([] & s' & Hs & s2 & -> & Hw). exists (set_sheld (sheld s) s2).
  split; [done|]. split; [done|]. destruct Hw as (HIC & _ & _ & _ & Hl & Hp).
  assert (length (procs s) = NPROC) as Hlen.
  { pose proof (inv_procs _ _ (proj1 HI)) as Hx. simpl in Hx. by rewrite length_fmap in Hx. }
  assert (∀ i p, procs s !! i = Some p →
    state <$> procs s2 !! i = Some (if decide (woken s c p) then RUNNABLE else state p)) as Hst.
  { intros i p Hi. pose proof (lookup_lt_Some _ _ _ Hi).
    destruct (Hp i p Hi) as (p' & -> & _ & Hx). simpl. f_equal.
    change (woken s1 c p) with (woken s c p) in Hx.
    destruct (decide (i < NPROC ∧ woken s c p)), (decide (woken s c p)); try done;
      [naive_solver|naive_solver lia|by subst]. }
  intros i p Hi. split; [by apply Hst|]. intros Hwk.
  assert (Inv s2) as HI2 by (destruct HIC as (? & ? & _); by split).
  apply (proj2 (Inv_ready s2 i HI2)). by rewrite (Hst i p Hi), decide_True.
Qed.

(** In batch mode ([frozen] set) the scheduler dereferences a null [proc]:
    it reads [proc->O] although no process runs on a CPU that schedules, so any
    dispatch with a ready process between [freeze(1)] and [freeze(0)] faults. *)
Theorem frozen_dispatch_faults s0 s :
  boot s0 → rtc step s0 s → frozen s = true → cur s = None → 0 < qlen s →
  LPtable ∉ sheld s → dispatch s = Fault.
Proof.
  intros Hb Hr Hf Hc Hq Hlk. pose proof (reach_inv _ _ Hb Hr) as [Ha _].
  destruct (inv_top _ _ Ha) as (top & Htop & Hlt). simpl in Htop.
  destruct (lookup_lt_is_Some_2 (procs s) top) as [p Hp].
  { pose proof (inv_procs _ _ Ha) as Hx. simpl in Hx. rewrite length_fmap in Hx. lia. }
  set (s1 := set_sheld (LPtable :: sheld s) s). unfold dispatch. apply kbind_fault.
  unfold scheduler. rewrite (kbind_done _ _ _ tt s1) by exact (acquire_free LPtable s Hlk).
  rewrite (kbind_done _ _ _ s1 s1) by done. rewrite bool_decide_false.
  2: { intros He. unfold qlen in Hq. simpl in He. rewrite He in Hq. vm_compute in Hq. lia. }
  rewrite (kbind_done _ _ _ top s1) by (simpl; by rewrite Htop).
  rewrite (kbind_done _ _ _ p s1) by by apply getp_done.
  erewrite kbind_done by by apply modp_done. apply kbind_fault. simpl. rewrite Hf.
  apply kbind_fault. unfold self, kbind, kget. simpl. by rewrite Hc.
Qed.

(** Outside batch mode a scheduler pass with ready processes dispatches
    [queue[0]]: that process runs, leaves the queue, and the other ready
    processes stay queued, each once. *)
Theorem scheduler_takes_root s0 s top p :
  boot s0 → rtc step s0 s → frozen s = false → LPtable ∉ sheld s → 0 < qlen s →
  rq s !! 0 = Some top → procs s !! top = Some p → pgdir p ≠ 0%Z →
  ∃ s', scheduler s = Done (Some top) s' ∧ cur s' = Some top ∧
    state <$> procs s' !! top = Some RUNNING ∧
    top :: take (qlen s') (rq s') ≡ₚ take (qlen s) (rq s) ∧
    ∀ i, i ≠ top → procs s' !! i = procs s !! i.
Proof.
  intros Hb Hr Hf Hlk Hq Htop Hp Hpg. pose proof (reach_inv _ _ Hb Hr) as HI.
  destruct (proj1 (wp_done _ _ _) (wp_scheduler s top p HI Hf Hlk Hq Htop Hp Hpg))
    as (r & s' & Hs & -> & ? & _ & ? & ? & ?).
  by exists s'.
Qed.

(** [exit] leaves a zombie whose children all belong to init, wakes a parent
    waiting in [wait], moves no other process except from sleep to the ready
    queue, and gives up the CPU holding no lock. *)
Theorem exit_orphans s0 s me p par ini cw :
  boot s0 → rtc step s0 s → cur s = Some me → procs s !! me = Some p → sheld s = [] →
  initproc s = Some ini → ini < NPROC → ini ≠ me →
  parent p = Some par → par < NPROC → cwd p = Some cw →
  (∀ f e, ∃ e', fileclose f e = Done tt e') → (∀ i e, ∃ e', iput_op i e = Done tt e') →
  ∃ s', exit s = Done tt s' ∧ cur s' = None ∧ sheld s' = [] ∧
    state <$> procs s' !! me = Some ZOMBIE ∧
    ∀ i q, procs s !! i = Some q → i ≠ me →
      ∃ q', procs s' !! i = Some q' ∧ orphaned me ini par i q q'.
Proof.
  intros Hb Hr Hc Hp Hh Hini Hil Hne Hpar Hpl Hcw Hcl Hip. pose proof (reach_inv _ _ Hb Hr) as HI.
  destruct (proj1 (wp_done _ _ _) (wp_exit s me p par ini cw HI Hc Hp Hh Hini Hil Hne Hpar Hpl
    Hcw Hcl Hip)) as ([] & s' & Hs & ?).
  by exists s'.
Qed.

(** [wait] always comes to a decision, on every branch of its loop: it
    collects a zombie child and returns its pid, freeing its table entry; it
    fails when there is no child or the caller was killed; or it sleeps on its
    own process, with a live child left to wake it. *)
Theorem wait_decides s0 s me p :
  boot s0 → rtc step s0 s → cur s = Some me → procs s !! me = Some p → sheld s = [] →
  (∀ a e, ∃ e', kfree a e = Done tt e') → (∀ a e, ∃ e', freevm a e = Done tt e') →
  ∃ r s', wait s = Done r s' ∧ sheld s' = [] ∧ wait_result s me p r s'.
Proof.
  intros Hb Hr Hc Hp Hh Hkf Hfv. pose proof (reach_inv _ _ Hb Hr) as HI.
  destruct (proj1 (wp_done _ _ _) (wp_wait s me p HI Hc Hp Hh Hkf Hfv)) as (r & s' & Hs & ?).
  by exists r, s'.
Qed.
End theorems.

(** ** Witnesses *)

(** [LPtable ∉ sheld s] for a computed state that holds no lock. *)
Ltac no_locks :=
  match goal with |- _ ∉ ?h => replace h with (@nil lock) by (vm_compute; reflexivity) end;
  apply not_elem_of_nil.

(** Another process of the running kernel: init forks a child, waits for it,
    and the child is dispatched. *)
Definition forked : st (E:=Z) := after (fork 100 10 5 5) running.
Definition waiting : st (E:=Z) := after wait forked.
Definition child_runs : st (E:=Z) := after dispatch waiting.

Lemma forked_reach : rtc step booted forked.
Proof.
  eapply rtc_r; [exact running_reach|]. eapply (step_fork _ _ 100 10 5 5 2).
  vm_compute. reflexivity.
Defined.

Lemma waiting_reach : rtc step booted waiting.
Proof.
  eapply rtc_r; [exact forked_reach|]. eapply (step_wait _ _ Switched).
  vm_compute. reflexivity.
Defined.

Lemma child_reach : rtc step booted child_runs.
Proof.
  eapply rtc_r; [exact waiting_reach|]. apply step_dispatch; vm_compute; reflexivity.
Defined.

Lemma ready_queue_exact_witness :
  take (qlen waiting) (rq waiting) = [1] ∧
  NoDup (take (qlen waiting) (rq waiting)) ∧ qlen waiting ≤ NPROC.
Proof.
  split; [vm_compute; reflexivity|].
  destruct (ready_queue_exact booted waiting booted_boot waiting_reach) as (? & ? & _). by split.
Defined.

Lemma wakeup_exact_witness :
  ∃ s', wakeup (CProc 0) waiting = Done tt s' ∧ state <$> procs s' !! 0 = Some RUNNABLE.
Proof.
  destruct (wakeup_exact booted waiting (CProc 0) booted_boot waiting_reach) as (s' & Hs & _ & Hp).
  - no_locks.
  - intros j [= <-]. unfold NPROC. lia.
  - exists s'. split; [exact Hs|]. destruct (procs waiting !! 0) as [p|] eqn:Hw; [|vm_compute in Hw; discriminate Hw].
    destruct (Hp 0 p Hw) as [-> _]. rewrite decide_True; [done|].
    vm_compute in Hw. injection Hw as <-. split; [reflexivity|].
    exists (CProc 0). split; reflexivity.
Defined.

Lemma frozen_dispatch_faults_witness : dispatch (after (freeze 1) waiting) = Fault.
Proof.
  apply (frozen_dispatch_faults booted).
  - exact booted_boot.
  - eapply rtc_r; [exact waiting_reach|]. apply (step_freeze _ _ 1). vm_compute. reflexivity.
  - vm_compute. reflexivity.
  - vm_compute. reflexivity.
  - vm_compute. lia.
  - no_locks.
Defined.

Lemma scheduler_takes_root_witness :
  ∃ s', scheduler waiting = Done (Some 1) s' ∧ cur s' = Some 1.
Proof.
  destruct (procs waiting !! 1) as [p|] eqn:Hp; [|vm_compute in Hp; discriminate Hp].
  destruct (scheduler_takes_root booted waiting 1 p booted_boot waiting_reach) as (s' & ? & ? & _).
  - vm_compute. reflexivity.
  - no_locks.
  - vm_compute. lia.
  - vm_compute. reflexivity.
  - exact Hp.
  - vm_compute in Hp. injection Hp as <-. done.
  - exists s'. split; assumption.
Defined.

Lemma exit_orphans_witness :
  ∃ s', exit child_runs = Done tt s' ∧ state <$> procs s' !! 1 = Some ZOMBIE.
Proof.
  destruct (procs child_runs !! 1) as [p|] eqn:Hp; [|vm_compute in Hp; discriminate Hp].
  destruct (exit_orphans booted child_runs 1 p 0 0 0 booted_boot child_reach)
    as (s' & ? & _ & _ & ? & _); try (vm_compute; reflexivity); try (unfold NPROC; lia).
  - exact Hp.
  - vm_compute in Hp. injection Hp as <-. reflexivity.
  - vm_compute in Hp. injection Hp as <-. reflexivity.
  - by eexists.
  - by eexists.
  - exists s'. split; assumption.
Defined.

Lemma wait_decides_witness :
  ∃ r s', wait forked = Done r s' ∧ sheld s' = [].
Proof.
  destruct (procs forked !! 0) as [p|] eqn:Hp; [|vm_compute in Hp; discriminate Hp].
  destruct (wait_decides booted forked 0 p booted_boot forked_reach) as (r & s' & ? & ? & _);
    try (vm_compute; reflexivity).
  - exact Hp.
  - by eexists.
  - by eexists.
  - exists r, s'. split; assumption.
Defined.

(** [kill(0)] succeeds on an unused table entry (its pid is 0), and
    [allocproc] does not clear [killed]: the next child forked is born killed. *)
Theorem kill_zero_condemns_child :
  ∃ s1 s2 p, kill 0 running = Done 0%Z s1 ∧ fork 100 10 5 5 s1 = Done 2%Z s2 ∧
    procs s2 !! 1 = Some p ∧ pid p = 2%Z ∧ killed p = true.
Proof.
  exists (after (kill 0) running), (after (fork 100 10 5 5) (after (kill 0) running)).
  eexists. split_and!; vm_compute; reflexivity.
Qed.
