(* ===== verification/CString.v ===== *)
(** * Memory and string routines (string.c, the string part of ulib.c)

    Memory is a total map from addresses to bytes; pointers are integers and,
    as in C, an object does not wrap around the address space. A loop that runs
    to a NUL has a fuel argument, and the theorems give the fuel that is enough. *)

From S2P Require Import Prelude.

Local Open Scope Z_scope.

Definition mem : Type := Z → Z.

Definition bytes_ok (m : mem) : Prop := ∀ a, 0 ≤ m a < 256.

(** [*a = b] through a [char] pointer. *)
Definition store (m : mem) (a b : Z) : mem := λ x, if decide (x = a) then u8 b else m x.

(** Little-endian words. *)
Definition load32 (m : mem) (a : Z) : Z :=
  m a + m (a + 1) * 2 ^ 8 + m (a + 2) * 2 ^ 16 + m (a + 3) * 2 ^ 24.

Definition store32 (m : mem) (a w : Z) : mem :=
  store (store (store (store m a w) (a + 1) (Z.shiftr w 8)) (a + 2) (Z.shiftr w 16))
        (a + 3) (Z.shiftr w 24).

(** ** string.c *)

(** [rep stosb] and [rep stosl] of x86.h. *)
Fixpoint stosb (m : mem) (addr data : Z) (cnt : nat) : mem :=
  match cnt with O => m | S cnt => stosb (store m addr data) (addr + 1) data cnt end.

Fixpoint stosl (m : mem) (addr data : Z) (cnt : nat) : mem :=
  match cnt with O => m | S cnt => stosl (store32 m addr data) (addr + 4) data cnt end.

Definition memset (m : mem) (dst c n : Z) : mem :=
  if bool_decide (dst mod 4 = 0) && bool_decide (n mod 4 = 0) then
    let c := Z.land c 255 in
    stosl m dst (Z.lor (Z.lor (Z.lor (Z.shiftl c 24) (Z.shiftl c 16)) (Z.shiftl c 8)) c)
          (Z.to_nat (n / 4))
  else stosb m dst c (Z.to_nat n).

Fixpoint memcmp (m : mem) (s1 s2 : Z) (n : nat) : Z :=
  match n with
  | O => 0
  | S n => if decide (m s1 = m s2) then memcmp m (s1 + 1) (s2 + 1) n else m s1 - m s2
  end.

(** [while(n-- > 0) *--d = *--s;] *)
Fixpoint copy_down (m : mem) (d s : Z) (n : nat) : mem :=
  match n with O => m | S n => copy_down (store m (d - 1) (m (s - 1))) (d - 1) (s - 1) n end.

(** [while(n-- > 0) *d++ = *s++;] *)
Fixpoint copy_up (m : mem) (d s : Z) (n : nat) : mem :=
  match n with O => m | S n => copy_up (store m d (m s)) (d + 1) (s + 1) n end.

Definition memmove (m : mem) (dst src n : Z) : mem :=
  if bool_decide (src < dst) && bool_decide (dst < src + n)
  then copy_down m (dst + n) (src + n) (Z.to_nat n)
  else copy_up m dst src (Z.to_nat n).

Definition memcpy := memmove.

Fixpoint strncmp (m : mem) (p q : Z) (n : nat) : Z :=
  match n with
  | O => 0
  | S n' => if bool_decide (m p ≠ 0) && bool_decide (m p = m q) then strncmp m (p + 1) (q + 1) n'
            else m p - m q
  end.

(** [while(n-- > 0) *s++ = 0;] *)
Fixpoint zero_fill (m : mem) (s : Z) (n : nat) : mem :=
  match n with O => m | S n => zero_fill (store m s 0) (s + 1) n end.

Fixpoint strncpy (m : mem) (s t : Z) (n : nat) : mem :=
  match n with
  | O => m
  | S n => let b := m t in let m := store m s b in
           if decide (b = 0) then zero_fill m (s + 1) n else strncpy m (s + 1) (t + 1) n
  end.

(** The loop of [safestrcpy], [n] being one more than the bytes it may copy. *)
Fixpoint safestrcpy_loop (m : mem) (s t : Z) (n : nat) : mem :=
  match n with
  | S (S _ as n') =>
    let b := m t in let m := store m s b in
    if decide (b = 0) then store m (s + 1) 0 else safestrcpy_loop m (s + 1) (t + 1) n'
  | _ => store m s 0
  end.

Definition safestrcpy (m : mem) (s t n : Z) : mem :=
  if bool_decide (n ≤ 0) then m else safestrcpy_loop m s t (Z.to_nat n).

Fixpoint strlen (fuel : nat) (m : mem) (s : Z) (n : Z) : option Z :=
  match fuel with
  | O => None
  | S fuel => if decide (m (s + n) = 0) then Some n else strlen fuel m s (n + 1)
  end.

(** ** ulib.c *)

Fixpoint strcpy (fuel : nat) (m : mem) (s t : Z) : option mem :=
  match fuel with
  | O => None
  | S fuel => let b := m t in let m := store m s b in
              if decide (b = 0) then Some m else strcpy fuel m (s + 1) (t + 1)
  end.

Fixpoint strcmp (fuel : nat) (m : mem) (p q : Z) : option Z :=
  match fuel with
  | O => None
  | S fuel => if bool_decide (m p ≠ 0) && bool_decide (m p = m q) then strcmp fuel m (p + 1) (q + 1)
              else Some (m p - m q)
  end.

Definition umemset (m : mem) (dst c n : Z) : mem := stosb m dst c (Z.to_nat n).

(** [Some None] is the null pointer: [c] is not in the string. *)
Fixpoint strchr (fuel : nat) (m : mem) (s c : Z) : option (option Z) :=
  match fuel with
  | O => None
  | S fuel => if decide (m s = 0) then Some None
              else if decide (m s = u8 c) then Some (Some s) else strchr fuel m (s + 1) c
  end.

(** [gets]: [input] is what the reads of one byte from the standard input
    return, end of file when it is used up. The line and the rest. *)
Fixpoint gets_loop (max : nat) (input : list Z) : list Z * list Z :=
  match max with
  | S (S _ as max') =>
    match input with
    | [] => ([], [])
    | c :: input' =>
      if decide (c = 10 ∨ c = 13) then ([c], input')
      else let '(l, rest) := gets_loop max' input' in (c :: l, rest)
    end
  | _ => ([], input)
  end.

Fixpoint store_bytes (m : mem) (a : Z) (l : list Z) : mem :=
  match l with [] => m | b :: l => store_bytes (store m a b) (a + 1) l end.

Definition gets (m : mem) (buf : Z) (max : nat) (input : list Z) : mem * list Z :=
  let '(l, rest) := gets_loop max input in (store_bytes m buf (l ++ [0]), rest).

Fixpoint atoi_loop (fuel : nat) (m : mem) (s n : Z) : option Z :=
  match fuel with
  | O => None
  | S fuel => if bool_decide (48 ≤ m s ≤ 57) then atoi_loop fuel m (s + 1) (i32 (n * 10 + m s - 48))
              else Some n
  end.

Definition atoi (fuel : nat) (m : mem) (s : Z) : option Z := atoi_loop fuel m s 0.

Definition umemmove (m : mem) (vdst vsrc n : Z) : mem := copy_up m vdst vsrc (Z.to_nat n).

(** ** Stores and words *)

Lemma store_eq m a b : store m a b a = u8 b.
Proof. unfold store. by rewrite decide_True. Qed.
Lemma store_ne m a b x : x ≠ a → store m a b x = m x.
Proof. intros. unfold store. by rewrite decide_False. Qed.

Lemma u8_range z : 0 ≤ u8 z < 256.
Proof. apply Z.mod_pos_bound. lia. Qed.
Lemma u8_id z : 0 ≤ z < 256 → u8 z = z.
Proof. intros. by apply Z.mod_small. Qed.

Lemma store_ok m a b : bytes_ok m → bytes_ok (store m a b).
Proof. intros Hm x. unfold store. case_decide; [apply u8_range|apply Hm]. Qed.

Lemma store_same m a b : bytes_ok m → 0 ≤ b < 256 → store m a b a = b.
Proof. intros. rewrite store_eq. by apply u8_id. Qed.

Lemma store32_byte m a w x :
  store32 m a w x =
  if decide (x = a) then u8 w else if decide (x = a + 1) then u8 (Z.shiftr w 8)
  else if decide (x = a + 2) then u8 (Z.shiftr w 16)
  else if decide (x = a + 3) then u8 (Z.shiftr w 24) else m x.
Proof. unfold store32, store. repeat case_decide; done || lia. Qed.

Lemma store32_ne m a w x : x < a ∨ a + 4 ≤ x → store32 m a w x = m x.
Proof. intros. rewrite store32_byte. repeat case_decide; done || lia. Qed.

(** Round trip of a stored word. *)
Lemma load_store32 m a w : load32 (store32 m a w) a = u32 w.
Proof.
  unfold load32. rewrite !store32_byte.
  rewrite decide_True by done.
  rewrite (decide_False (P := a + 1 = a)), decide_True by lia.
  rewrite (decide_False (P := a + 2 = a)), (decide_False (P := a + 2 = a + 1)), decide_True by lia.
  rewrite (decide_False (P := a + 3 = a)), (decide_False (P := a + 3 = a + 1)),
    (decide_False (P := a + 3 = a + 2)), decide_True by lia.
  unfold u8, u32. rewrite !Z.shiftr_div_pow2 by lia.
  change (2 ^ 8) with 256. change (2 ^ 16) with 65536. change (2 ^ 24) with 16777216.
  change (2 ^ 32) with 4294967296.
  pose proof (Z.div_mod w 256). pose proof (Z.div_mod (w / 256) 256).
  pose proof (Z.div_mod (w / 65536) 256). pose proof (Z.div_mod (w / 16777216) 256).
  rewrite (Z.div_div w 256 256) in * by lia. change (256 * 256) with 65536 in *.
  rewrite (Z.div_div w 65536 256) in * by lia. change (65536 * 256) with 16777216 in *.
  rewrite (Z.div_div w 16777216 256) in * by lia. change (16777216 * 256) with 4294967296 in *.
  pose proof (Z.div_mod w 4294967296). lia.
Qed.

Lemma load32_ext m m' a : (∀ x, a ≤ x < a + 4 → m' x = m x) → load32 m' a = load32 m a.
Proof. intros Hx. unfold load32. rewrite !Hx by lia. done. Qed.

Lemma store32_ok m a w : bytes_ok m → bytes_ok (store32 m a w).
Proof. intros Hm. by repeat apply store_ok. Qed.

(** ** Fills and copies *)

Lemma stosb_spec n : ∀ m a c x,
  stosb m a c n x = if decide (a ≤ x < a + Z.of_nat n) then u8 c else m x.
Proof.
  induction n as [|n IH]; intros m a c x; cbn [stosb]; [by rewrite decide_False by lia|].
  rewrite IH. unfold store. repeat case_decide; done || lia.
Qed.

Lemma stosl_spec n : ∀ m a w b x,
  (∀ k, 0 ≤ k < 4 → u8 (Z.shiftr w (8 * k)) = b) →
  stosl m a w n x = if decide (a ≤ x < a + 4 * Z.of_nat n) then b else m x.
Proof.
  induction n as [|n IH]; intros m a w b x Hw; cbn [stosl]; [by rewrite decide_False by lia|].
  rewrite (IH _ _ _ b) by done.
  pose proof (Hw 0). pose proof (Hw 1). pose proof (Hw 2). pose proof (Hw 3).
  rewrite store32_byte. change (8 * 0) with 0 in *. rewrite Z.shiftr_0_r in *.
  change (8 * 1) with 8 in *. change (8 * 2) with 16 in *. change (8 * 3) with 24 in *.
  repeat case_decide; auto with lia; lia.
Qed.

(** The four bytes of the word [memset] builds. *)
Lemma memset_word c k :
  0 ≤ k < 4 →
  let b := Z.land c 255 in
  u8 (Z.shiftr (Z.lor (Z.lor (Z.lor (Z.shiftl b 24) (Z.shiftl b 16)) (Z.shiftl b 8)) b) (8 * k)) = u8 c.
Proof.
  intros Hk b. assert (b = u8 c) as Hb by (apply (Z.land_ones c 8); lia).
  rewrite <-Hb. pose proof (u8_range c) as Hr. rewrite <-Hb in Hr. clearbody b. clear Hb c.
  assert (Forall (λ b, Forall (λ k, u8 (Z.shiftr (Z.lor (Z.lor (Z.lor (Z.shiftl b 24) (Z.shiftl b 16))
    (Z.shiftl b 8)) b) (8 * k)) = b) (seqZ 0 4)) (seqZ 0 256)) as Hall.
  { apply (bool_decide_unpack _). vm_compute. exact I. }
  rewrite list.Forall_forall in Hall. specialize (Hall b). rewrite elem_of_seqZ in Hall.
  specialize (Hall ltac:(lia)). rewrite list.Forall_forall in Hall. apply Hall. apply elem_of_seqZ. lia.
Qed.

Lemma memset_spec m dst c n x :
  0 ≤ n → memset m dst c n x = if decide (dst ≤ x < dst + n) then u8 c else m x.
Proof.
  intros Hn. unfold memset. case_bool_decide as Hd; [case_bool_decide as Hm|]; simpl.
  - rewrite (stosl_spec _ _ _ _ (u8 c)) by apply memset_word.
    rewrite Z2Nat.id by (apply Z.div_pos; lia).
    replace (4 * (n / 4)) with n; [done|]. pose proof (Z.div_mod n 4). lia.
  - rewrite stosb_spec. by rewrite Z2Nat.id by lia.
  - rewrite stosb_spec. by rewrite Z2Nat.id by lia.
Qed.

(** Memory after [n] bytes at [src] have been moved to [dst]. *)
Definition moved (m : mem) (dst src n : Z) : mem := λ x,
  if decide (dst ≤ x < dst + n) then m (src + (x - dst)) else m x.

Lemma memset_ok m d c n : 0 ≤ n → bytes_ok m → bytes_ok (memset m d c n).
Proof. intros Hn Hm x. rewrite memset_spec by done. case_decide; [apply u8_range|apply Hm]. Qed.

Lemma copy_up_spec n : ∀ m d s x,
  bytes_ok m → d ≤ s ∨ s + Z.of_nat n ≤ d → copy_up m d s n x = moved m d s (Z.of_nat n) x.
Proof.
  unfold moved. induction n as [|n IH]; intros m d s x Hm Hds; cbn [copy_up];
    [by rewrite decide_False by lia|].
  rewrite IH by (try apply store_ok; done || lia).
  destruct (decide (x = d)) as [->|].
  - rewrite decide_False, decide_True by lia. rewrite store_same by auto. f_equal. lia.
  - case_decide; [rewrite decide_True by lia|rewrite decide_False by lia].
    + rewrite store_ne by lia. f_equal. lia.
    + by rewrite store_ne.
Qed.

Lemma copy_down_spec n : ∀ m d s x,
  bytes_ok m → s ≤ d →
  copy_down m d s n x = moved m (d - Z.of_nat n) (s - Z.of_nat n) (Z.of_nat n) x.
Proof.
  unfold moved. induction n as [|n IH]; intros m d s x Hm Hds; cbn [copy_down];
    [by rewrite decide_False by lia|].
  rewrite IH by (try apply store_ok; done || lia).
  destruct (decide (x = d - 1)) as [->|].
  - rewrite decide_False, decide_True by lia. rewrite store_same by auto. f_equal. lia.
  - case_decide; [rewrite decide_True by lia|rewrite decide_False by lia].
    + rewrite store_ne by lia. f_equal. lia.
    + by rewrite store_ne.
Qed.

Lemma memmove_spec m dst src n x :
  bytes_ok m → 0 ≤ n → memmove m dst src n x = moved m dst src n x.
Proof.
  intros Hm Hn. unfold memmove. case_bool_decide; [case_bool_decide|]; simpl.
  - rewrite copy_down_spec by (done || lia). rewrite Z2Nat.id by lia.
    by replace (dst + n - n) with dst by lia; replace (src + n - n) with src by lia.
  - rewrite copy_up_spec by (done || lia). by rewrite Z2Nat.id by lia.
  - rewrite copy_up_spec by (done || lia). by rewrite Z2Nat.id by lia.
Qed.

(** ** Strings *)

(** The first NUL at or after [a] is at distance [k]. *)
Definition nul_at (m : mem) (a : Z) (k : nat) : Prop :=
  m (a + Z.of_nat k) = 0 ∧ ∀ j : nat, (j < k)%nat → m (a + Z.of_nat j) ≠ 0.

Lemma nul_at_S m a k : m a ≠ 0 → nul_at m (a + 1) k → nul_at m a (S k).
Proof.
  intros Ha [Hz Hn]. split.
  - rewrite <-Hz. f_equal. lia.
  - intros [|j] Hj; [by rewrite Z.add_0_r|]. replace (a + Z.of_nat (S j)) with (a + 1 + Z.of_nat j) by lia.
    apply Hn. lia.
Qed.

Lemma nul_at_inv m a k : nul_at m a (S k) → m a ≠ 0 ∧ nul_at m (a + 1) k.
Proof.
  intros [Hz Hn]. split; [specialize (Hn 0%nat); rewrite Z.add_0_r in Hn; apply Hn; lia|]. split.
  - rewrite <-Hz. f_equal. lia.
  - intros j Hj. replace (a + 1 + Z.of_nat j) with (a + Z.of_nat (S j)) by lia. apply Hn. lia.
Qed.

Lemma strlen_spec m s k : ∀ fuel i,
  (i + k < i + fuel)%nat → nul_at m (s + Z.of_nat i) k →
  strlen fuel m s (Z.of_nat i) = Some (Z.of_nat (i + k)).
Proof.
  induction k as [|k IH]; intros [|fuel] i Hf Hk; try lia; simpl.
  - destruct Hk as [Hz _]. rewrite Z.add_0_r in Hz. rewrite decide_True by done. do 2 f_equal. lia.
  - apply nul_at_inv in Hk as [Hne Hk]. rewrite decide_False by done.
    replace (Z.of_nat i + 1) with (Z.of_nat (S i)) by lia. rewrite IH; [do 2 f_equal; lia|lia|].
    by replace (s + Z.of_nat (S i)) with (s + Z.of_nat i + 1) by lia.
Qed.

(** The two strings agree up to a NUL or to [n] bytes. *)
Definition agree (m : mem) (p q : Z) (n : nat) : Prop :=
  ∀ i : nat, (i < n)%nat → (∀ j : nat, (j < i)%nat → m (p + Z.of_nat j) ≠ 0) →
  m (p + Z.of_nat i) = m (q + Z.of_nat i).

Lemma agree_S m p q n :
  agree m p q (S n) ↔ m p = m q ∧ (m p ≠ 0 → agree m (p + 1) (q + 1) n).
Proof.
  split.
  - intros Ha. split.
    + specialize (Ha 0%nat ltac:(lia) ltac:(lia)). by rewrite !Z.add_0_r in Ha.
    + intros Hp i Hi Hn. specialize (Ha (S i) ltac:(lia)).
      replace (p + 1 + Z.of_nat i) with (p + Z.of_nat (S i)) by lia.
      replace (q + 1 + Z.of_nat i) with (q + Z.of_nat (S i)) by lia. apply Ha.
      intros [|j] Hj; [by rewrite Z.add_0_r|]. replace (p + Z.of_nat (S j)) with (p + 1 + Z.of_nat j) by lia.
      apply Hn. lia.
  - intros [Hpq Hr] [|i] Hi Hn; [by rewrite !Z.add_0_r|].
    replace (p + Z.of_nat (S i)) with (p + 1 + Z.of_nat i) by lia.
    replace (q + Z.of_nat (S i)) with (q + 1 + Z.of_nat i) by lia. apply Hr; [|lia|].
    + specialize (Hn 0%nat ltac:(lia)). by rewrite Z.add_0_r in Hn.
    + intros j Hj. replace (p + 1 + Z.of_nat j) with (p + Z.of_nat (S j)) by lia. apply Hn. lia.
Qed.

Lemma strncmp_spec m n : ∀ p q, strncmp m p q n = 0 ↔ agree m p q n.
Proof.
  induction n as [|n IH]; intros p q; simpl; [split; [intros _ i; lia|done]|].
  rewrite agree_S. case_bool_decide as Hp; [case_bool_decide as Hpq|]; simpl.
  - rewrite IH. naive_solver.
  - split; [lia|naive_solver].
  - split; [|naive_solver lia]. intros. split; [lia|done].
Qed.

Lemma zero_fill_spec n : ∀ m s x,
  zero_fill m s n x = if decide (s ≤ x < s + Z.of_nat n) then 0 else m x.
Proof.
  induction n as [|n IH]; intros m s x; cbn [zero_fill]; [by rewrite decide_False by lia|].
  rewrite IH. unfold store. repeat case_decide; done || lia.
Qed.

(** [strncpy] pads with NULs; [t] is not inside the destination. *)
Lemma strncpy_spec n : ∀ m s t,
  bytes_ok m → t + Z.of_nat n ≤ s ∨ s + Z.of_nat n ≤ t →
  (∀ x, x < s ∨ s + Z.of_nat n ≤ x → strncpy m s t n x = m x) ∧
  ∀ i : nat, (i < n)%nat →
    ((∀ j : nat, (j < i)%nat → m (t + Z.of_nat j) ≠ 0) →
       strncpy m s t n (s + Z.of_nat i) = m (t + Z.of_nat i)) ∧
    ((∃ j : nat, (j < i)%nat ∧ m (t + Z.of_nat j) = 0) → strncpy m s t n (s + Z.of_nat i) = 0).
Proof.
  induction n as [|n IH]; intros m s t Hm Hd; cbn [strncpy]; [split; [done|lia]|].
  assert (∀ x, t + 1 ≤ x < t + 1 + Z.of_nat n → store m s (m t) x = m x) as Hst.
  { intros x Hx. apply store_ne. lia. }
  destruct (decide (m t = 0)) as [Hz|Hz].
  - split.
    + intros x Hx. rewrite zero_fill_spec, decide_False by lia. apply store_ne. lia.
    + intros i Hi. rewrite zero_fill_spec. split.
      * intros Hn. destruct i as [|i]; [|specialize (Hn 0%nat ltac:(lia)); by rewrite Z.add_0_r in Hn].
        rewrite decide_False by lia. rewrite !Z.add_0_r. by apply store_same.
      * intros (j & Hj & _). by rewrite decide_True by lia.
  - destruct (IH (store m s (m t)) (s + 1) (t + 1)) as [Hout Hin]; [by apply store_ok|lia|]. split.
    + intros x Hx. rewrite Hout by lia. apply store_ne. lia.
    + intros [|i] Hi.
      * rewrite !Z.add_0_r. split; [|naive_solver lia]. intros _. rewrite Hout by lia. by apply store_same.
      * destruct (Hin i ltac:(lia)) as [H1 H2].
        replace (s + Z.of_nat (S i)) with (s + 1 + Z.of_nat i) by lia.
        replace (t + Z.of_nat (S i)) with (t + 1 + Z.of_nat i) by lia. split.
        -- intros Hn. rewrite H1; [apply Hst; lia|]. intros j Hj. rewrite Hst by lia.
           replace (t + 1 + Z.of_nat j) with (t + Z.of_nat (S j)) by lia. apply Hn. lia.
        -- intros (j & Hj & Hjz). apply H2. destruct j as [|j]; [by rewrite Z.add_0_r in Hjz|].
           exists j. split; [lia|]. rewrite Hst by lia. rewrite <-Hjz. f_equal. lia.
Qed.

Lemma safestrcpy_loop_S m s t n :
  safestrcpy_loop m s t (S (S n)) =
  if decide (m t = 0) then store (store m s (m t)) (s + 1) 0
  else safestrcpy_loop (store m s (m t)) (s + 1) (t + 1) (S n).
Proof. done. Qed.

(** [safestrcpy] copies some [k < n] bytes and terminates them. *)
Lemma safestrcpy_loop_spec n : ∀ m s t,
  bytes_ok m → (0 < n)%nat → t + Z.of_nat n ≤ s ∨ s + Z.of_nat n ≤ t →
  (∀ x, x < s ∨ s + Z.of_nat n ≤ x → safestrcpy_loop m s t n x = m x) ∧
  ∃ k : nat, (k < n)%nat ∧ nul_at (safestrcpy_loop m s t n) s k ∧
    (∀ i : nat, (i < k)%nat → safestrcpy_loop m s t n (s + Z.of_nat i) = m (t + Z.of_nat i)) ∧
    (k = pred n ∨ m (t + Z.of_nat k) = 0).
Proof.
  induction n as [|n IH]; intros m s t Hm Hn Hd; [lia|].
  destruct n as [|n].
  - simpl. split; [intros x Hx; apply store_ne; lia|]. exists 0%nat. split; [lia|].
    split; [|split; [lia|by left]]. split; [|lia]. by rewrite Z.add_0_r, store_eq.
  - rewrite safestrcpy_loop_S. destruct (decide (m t = 0)) as [Hz|Hz].
    + split; [intros x Hx; rewrite !store_ne by lia; done|]. exists 0%nat. split; [lia|].
      split; [|split; [lia|right; by rewrite Z.add_0_r]]. split; [|lia].
      rewrite Z.add_0_r, store_ne by lia. by rewrite store_eq, Hz.
    + destruct (IH (store m s (m t)) (s + 1) (t + 1)) as (Hout & k & Hk & Hnul & Hcp & Hend);
        [by apply store_ok|lia|lia|].
      set (m' := safestrcpy_loop _ _ _ _) in *.
      assert (m' s = m t) as Hs by (rewrite Hout by lia; by apply store_same).
      split; [intros x Hx; rewrite Hout by lia; apply store_ne; lia|].
      exists (S k). split; [lia|]. split; [apply nul_at_S; [by rewrite Hs|done]|]. split.
      * intros [|i] Hi; [by rewrite !Z.add_0_r|].
        replace (s + Z.of_nat (S i)) with (s + 1 + Z.of_nat i) by lia. rewrite Hcp by lia.
        rewrite store_ne by lia. f_equal. lia.
      * destruct Hend as [->|Hend]; [left; simpl in *; lia|]. right.
        rewrite store_ne in Hend by lia. rewrite <-Hend. f_equal. lia.
Qed.

Lemma gets_loop_spec max : ∀ input,
  let '(l, rest) := gets_loop max input in
  input = l ++ rest ∧ (length l ≤ pred max)%nat ∧
  (∀ i c, l !! i = Some c → c = 10 ∨ c = 13 → S i = length l).
Proof.
  induction max as [|max IH]; intros input; [simpl; split_and!; [done|lia|done]|].
  destruct max as [|max]; [simpl; split_and!; [done|lia|done]|].
  destruct input as [|c input]; [simpl; split_and!; [done|lia|done]|].
  change (gets_loop (S (S max)) (c :: input)) with
    (if decide (c = 10 ∨ c = 13) then ([c], input)
     else let '(l, rest) := gets_loop (S max) input in (c :: l, rest)).
  case_decide as Hc.
  - split_and!; [done|simpl; lia|]. intros [|i] d Hd; [done|by destruct i].
  - specialize (IH input). destruct (gets_loop (S max) input) as [l rest].
    destruct IH as (-> & Hl & Hlast). split_and!; [done|simpl in *; lia|].
    intros [|i] d Hd Hnl; [simplify_eq/=; tauto|]. simpl in *. f_equal. by eapply Hlast.
Qed.

(** ** Theorems *)

(** [memmove] moves [n] bytes exactly, also when source and destination
    overlap in either direction, and touches nothing else; the library's
    [memmove], which only copies upwards, agrees when the destination does not
    start inside the source. *)
Theorem memmove_overlap m dst src n x :
  bytes_ok m → 0 ≤ n →
  memmove m dst src n x = moved m dst src n x ∧
  (dst ≤ src ∨ src + n ≤ dst → umemmove m dst src n x = moved m dst src n x).
Proof.
  intros Hm Hn. split; [by apply memmove_spec|]. intros Hd. unfold umemmove.
  rewrite copy_up_spec by (done || lia). by rewrite Z2Nat.id.
Qed.

(** Both paths of [memset] (words when address and length are multiples of
    four, bytes otherwise) set exactly [n] bytes to the low byte of [c]. *)
Theorem memset_fills m dst c n x :
  0 ≤ n → memset m dst c n x = (if decide (dst ≤ x < dst + n) then u8 c else m x) ∧
          memset m dst c n x = umemset m dst c n x.
Proof.
  intros Hn. rewrite memset_spec by done. split; [done|]. unfold umemset.
  rewrite stosb_spec. by rewrite Z2Nat.id.
Qed.

(** [strncmp] returns 0 exactly when the two strings agree up to a NUL or
    up to [n] bytes. *)
Theorem strncmp_exact m p q n : strncmp m p q n = 0 ↔ agree m p q n.
Proof. apply strncmp_spec. Qed.

(** [safestrcpy] with room for [n > 0] bytes always leaves a terminated
    string: the longest prefix of the source that fits, and nothing outside the
    destination changes. *)
Theorem safestrcpy_terminates m s t n :
  bytes_ok m → 0 < n → t + n ≤ s ∨ s + n ≤ t →
  (∀ x, x < s ∨ s + n ≤ x → safestrcpy m s t n x = m x) ∧
  ∃ k : nat, Z.of_nat k < n ∧ nul_at (safestrcpy m s t n) s k ∧
    (∀ i : nat, (i < k)%nat → safestrcpy m s t n (s + Z.of_nat i) = m (t + Z.of_nat i)) ∧
    (Z.of_nat k = n - 1 ∨ m (t + Z.of_nat k) = 0).
Proof.
  intros Hm Hn Hd. unfold safestrcpy. rewrite bool_decide_false by lia.
  destruct (safestrcpy_loop_spec (Z.to_nat n) m s t) as (Hout & k & Hk & Hnul & Hcp & Hend);
    [done|lia|by rewrite Z2Nat.id by lia|].
  rewrite Z2Nat.id in Hout by lia. split; [done|]. exists k. split_and!; [lia|done|done|].
  destruct Hend; [left; lia|by right].
Qed.

(** ** Witnesses *)

(** Memory holding the string [l] at address [a]. *)
Definition mem_of (a : Z) (l : list Z) : mem := λ x,
  if decide (a ≤ x) then default 0 (u8 <$> l !! Z.to_nat (x - a)) else 0.

Lemma mem_of_ok a l : bytes_ok (mem_of a l).
Proof.
  intros x. unfold mem_of. case_decide; [|lia].
  destruct (l !! _); simpl; [apply u8_range|lia].
Qed.

Lemma memmove_overlap_witness :
  memmove (mem_of 100 [1; 2; 3; 4]) 101 100 3 103 = 3.
Proof. apply (memmove_overlap (mem_of 100 [1; 2; 3; 4]) 101 100 3 103); [apply mem_of_ok|lia]. Defined.

Lemma memset_fills_witness : memset (λ _, 0) 8 7 4 9 = 7.
Proof. apply (memset_fills (λ _, 0) 8 7 4 9). lia. Defined.

Lemma safestrcpy_terminates_witness :
  ∃ k : nat, Z.of_nat k < 4 ∧ nul_at (safestrcpy (mem_of 100 [65; 66; 67; 68; 69]) 200 100 4) 200 k.
Proof.
  destruct (safestrcpy_terminates (mem_of 100 [65; 66; 67; 68; 69]) 200 100 4) as (_ & k & ? & ? & _);
    [apply mem_of_ok|lia|lia|]. exists k. split; assumption.
Defined.
