(* ===== verification/Kalloc.v ===== *)
(** * The physical page allocator (kalloc.c)

    The free list is threaded through the free pages themselves: memory is the
    byte memory of CString.v, and [kfree] first fills the page with junk. The
    theorems follow the allocator under any sequence of calls by clients that
    write only into pages they own. *)

From S2P Require Import Prelude CString.

Local Open Scope Z_scope.

Definition PGSIZE : Z := 4096.
Definition PHYSTOP : Z := 0xE000000.
Definition KERNBASE : Z := 0x80000000.

Definition PGROUNDUP (sz : Z) : Z := Z.land (u32 (sz + PGSIZE - 1)) (Z.lnot (PGSIZE - 1)).

Module Kalloc.
Section kalloc.
(** The first address after the kernel, a symbol of the linker script. *)
Context (kend : Z).

Record st := St {
  sheld : list lock;
  use_lock : bool;
  freelist : Z;        (* address of the first free page, 0 for none *)
  kmem : mem;
}.

Definition set_sheld (h : list lock) (s : st) : st := St h (use_lock s) (freelist s) (kmem s).
Definition set_use_lock (b : bool) (s : st) : st := St (sheld s) b (freelist s) (kmem s).
Definition set_freelist (a : Z) (s : st) : st := St (sheld s) (use_lock s) a (kmem s).
Definition set_kmem (m : mem) (s : st) : st := St (sheld s) (use_lock s) (freelist s) m.

#[export] Instance st_locks : HasLocks st.
Proof. refine {| held := sheld; set_held := set_sheld |}; intros; by destruct s. Defined.

Local Open Scope kern_scope.

Definition page_ok (v : Z) : bool :=
  bool_decide (v mod PGSIZE = 0) && bool_decide (kend ≤ v) &&
  bool_decide (u32 (v - KERNBASE) < PHYSTOP).

Definition kfree (v : Z) : kM st unit :=
  kassert (page_ok v) "kfree" ;;
  (* Fill with junk to catch dangling refs. *)
  kmodify (λ s, set_kmem (memset (kmem s) v 1 PGSIZE) s) ;;
  s ← kget;
  kwhen (use_lock s) (acquire LKmem) ;;
  kmodify (λ s, set_kmem (store32 (kmem s) v (freelist s)) s) ;;
  kmodify (set_freelist v) ;;
  s ← kget;
  kwhen (use_lock s) (release LKmem).

Definition kalloc : kM st Z :=
  s ← kget;
  kwhen (use_lock s) (acquire LKmem) ;;
  s ← kget;
  let r := freelist s in
  kwhen (bool_decide (r ≠ 0)) (kmodify (set_freelist (load32 (kmem s) r))) ;;
  s ← kget;
  kwhen (use_lock s) (release LKmem) ;;
  kret r.

(** The pages [freerange] visits: [p + PGSIZE <= vend]. *)
Definition range_pages (vstart vend : Z) : list Z :=
  let p := PGROUNDUP vstart in
  (λ k, p + PGSIZE * k) <$> seqZ 0 ((vend - p) / PGSIZE).

Definition freerange (vstart vend : Z) : kM st unit := kfor (range_pages vstart vend) kfree.

Definition kinit1 (vstart vend : Z) : kM st unit :=
  kmodify (set_use_lock false) ;; freerange vstart vend.

Definition kinit2 (vstart vend : Z) : kM st unit :=
  freerange vstart vend ;; kmodify (set_use_lock true).

(** ** The free list *)

(** The pages chained from [a] in memory [m]. *)
Fixpoint chain (m : mem) (a : Z) (l : list Z) : Prop :=
  match l with
  | [] => a = 0
  | p :: l => a = p ∧ p ≠ 0 ∧ chain m (load32 m p) l
  end.

(** [x] is a byte of page [p]. *)
Definition in_page (p x : Z) : Prop := p ≤ x < p + PGSIZE.

Hypothesis kend_pos : 0 < kend.

Lemma page_ok_spec v : page_ok v = true ↔ v mod PGSIZE = 0 ∧ kend ≤ v ∧ u32 (v - KERNBASE) < PHYSTOP.
Proof.
  unfold page_ok. rewrite !andb_true_iff, !bool_decide_eq_true. tauto.
Qed.

(** Aligned pages that share a byte are the same. *)
Lemma in_page_unique p q x :
  p mod PGSIZE = 0 → q mod PGSIZE = 0 → in_page p x → in_page q x → p = q.
Proof.
  unfold in_page, PGSIZE. intros Hp Hq ? ?.
  apply Z.div_exact in Hp, Hq; [|lia..]. rewrite Hp, Hq in *. f_equal. lia.
Qed.

Lemma chain_frame m m' a l :
  chain m a l → (∀ p x, p ∈ l → p ≤ x < p + 4 → m' x = m x) → chain m' a l.
Proof.
  revert a. induction l as [|p l IH]; intros a Hc Hm; simpl in *; [done|].
  destruct Hc as (-> & Hp & Hc). split_and!; [done..|].
  rewrite (load32_ext m m') by (intros x Hx; apply (Hm p); [constructor|done]).
  apply IH; [done|]. intros q x Hq. apply Hm. by constructor.
Qed.

(** A 32-bit address [kfree] accepts. *)
Definition page (p : Z) : Prop := page_ok p = true ∧ p < 2 ^ 32.

(** The list of free pages of a state. *)
Record free (l : list Z) (s : st) : Prop := {
  free_chain : chain (kmem s) (freelist s) l;
  free_nodup : NoDup l;
  free_pages p : p ∈ l → page p;
}.

Lemma wp_lock_if b lk s (Q : unit → st → Prop) :
  (b = true → lk ∉ sheld s) → Q tt (set_sheld (if b then lk :: sheld s else sheld s) s) →
  wp (kwhen b (acquire lk)) s Q.
Proof.
  intros Hb HQ. destruct b; simpl.
  - unfold wp. rewrite acquire_free by by apply Hb. done.
  - apply wp_ret. by destruct s.
Qed.

Lemma wp_unlock_if b lk h s (Q : unit → st → Prop) :
  (b = true → sheld s = lk :: h ∧ lk ∉ h) → (b = false → sheld s = h) →
  Q tt (set_sheld h s) → wp (kwhen b (release lk)) s Q.
Proof.
  intros Hb Hb' HQ. destruct b; simpl.
  - destruct Hb as [? ?]; [done|]. unfold wp. rewrite (release_top lk h) by done. done.
  - apply wp_ret. rewrite <-(Hb' eq_refl) in HQ. by destruct s.
Qed.

Lemma page_range p : page p → 0 < p < 2 ^ 32 ∧ p mod PGSIZE = 0.
Proof. intros [Hok Hlt]. apply page_ok_spec in Hok. lia. Qed.

Lemma chain_head m a l : (∀ p, p ∈ l → page p) → chain m a l → u32 a = a.
Proof.
  intros Hl Hc. unfold u32. apply Z.mod_small. destruct l as [|p l]; simpl in Hc; [lia|].
  destruct Hc as (-> & _ & _). destruct (page_range p) as [? _]; [apply Hl; constructor|lia].
Qed.

Lemma wp_kfree l v s :
  free l s → page v → v ∉ l → LKmem ∉ sheld s →
  wp (kfree v) s (λ _ s', free (v :: l) s' ∧ sheld s' = sheld s ∧ use_lock s' = use_lock s ∧
    (∀ x, ¬ in_page v x → kmem s' x = kmem s x) ∧ (bytes_ok (kmem s) → bytes_ok (kmem s'))).
Proof.
  intros [Hc Hnd Hpg] Hok Hv Hlk. pose proof (page_range v Hok) as [Hv0 Hal].
  unfold kfree. apply wp_bind, wp_assert; [apply Hok|].
  apply wp_bind, wp_modify, wp_bind, wp_get, wp_bind.
  apply wp_lock_if; [done|]. simpl. apply wp_bind, wp_modify, wp_bind, wp_modify, wp_bind, wp_get. simpl.
  apply (wp_unlock_if _ _ (sheld s)); [by intros ->|by intros ->|]. simpl.
  set (m' := store32 _ _ _).
  assert (∀ x, ¬ in_page v x → m' x = kmem s x) as Hout.
  { unfold in_page, PGSIZE, m'. intros x Hx. rewrite store32_ne by lia.
    rewrite memset_spec, decide_False by (unfold PGSIZE; lia). done. }
  assert (chain m' (freelist s) l) as Hc'.
  { eapply chain_frame; [done|]. intros p x Hp Hx. apply Hout. intros Hin.
    destruct (page_range p) as [_ Hpal]; [by apply Hpg|].
    destruct Hv. rewrite (in_page_unique v p x); try done. unfold in_page, PGSIZE. lia. }
  split; [|split; [done|split; [done|split; [done|]]]].
  2: { intros Hb. by apply store32_ok, memset_ok; [unfold PGSIZE; lia|]. }
  split; simpl.
  - split_and!; [done|lia|]. unfold m' at 2. rewrite load_store32. by rewrite (chain_head _ _ l Hpg Hc).
  - by apply list.NoDup_cons.
  - intros p [->|Hp]%elem_of_cons; [done|by apply Hpg].
Qed.

Lemma wp_kalloc l s :
  free l s → LKmem ∉ sheld s →
  wp kalloc s (λ r s', sheld s' = sheld s ∧ use_lock s' = use_lock s ∧ kmem s' = kmem s ∧
    match l with [] => r = 0 ∧ free [] s' | p :: l' => r = p ∧ free l' s' end).
Proof.
  intros [Hc Hnd Hpg] Hlk. unfold kalloc. apply wp_bind, wp_get, wp_bind.
  apply wp_lock_if; [done|]. apply wp_bind, wp_get. simpl. destruct l as [|p l]; simpl in Hc.
  - rewrite bool_decide_false by naive_solver. apply wp_bind, wp_ret, wp_bind, wp_get, wp_bind.
    apply (wp_unlock_if _ _ (sheld s)); simpl; [by intros ->|by intros ->|].
    apply wp_ret. by split_and!.
  - destruct Hc as (-> & Hp & Hc). apply list.NoDup_cons in Hnd as [? Hnd].
    rewrite bool_decide_true by done. apply wp_bind, wp_modify, wp_bind, wp_get, wp_bind.
    apply (wp_unlock_if _ _ (sheld s)); simpl; [by intros ->|by intros ->|].
    apply wp_ret. split_and!; [done..|]. split; [done..|]. intros q Hq. apply Hpg. by constructor.
Qed.

Lemma wp_free_all pages : ∀ l s,
  free l s → (∀ p, p ∈ pages → page p ∧ p ∉ l) → NoDup pages → LKmem ∉ sheld s →
  wp (kfor pages kfree) s (λ _ s', free (reverse pages ++ l) s' ∧ sheld s' = sheld s ∧
                                   use_lock s' = use_lock s ∧ (bytes_ok (kmem s) → bytes_ok (kmem s'))).
Proof.
  induction pages as [|p pages IH]; intros l s Hf Hp Hnd Hlk; simpl; [by apply wp_ret|].
  apply list.NoDup_cons in Hnd as [Hpp Hnd]. destruct (Hp p) as [? ?]; [constructor|].
  apply wp_bind. eapply wp_mono; [by apply wp_kfree|]. intros [] s1 (Hf1 & Hh1 & Hu1 & _ & Hb1).
  eapply wp_mono; [apply (IH (p :: l)); [done| |done|by rewrite Hh1]|].
  - intros q Hq. destruct (Hp q) as [? ?]; [by constructor|]. split; [done|].
    intros [->|?]%elem_of_cons; done.
  - intros [] s2 (Hf2 & ? & ? & Hb2). rewrite reverse_cons, <-app_assoc. simpl. split; [done|]. split; [congruence|].
    split; [congruence|auto].
Qed.

(** ** Clients *)

(** The allocator together with the pages its clients own. A client may write
    anything into a page it owns, and frees only what it owns. *)
Inductive step : st * list Z → st * list Z → Prop :=
| step_kalloc s own r s' :
    kalloc s = Done r s' → step (s, own) (s', if decide (r = 0) then own else r :: own)
| step_kfree s own v s' :
    v ∈ own → kfree v s = Done tt s' → step (s, own) (s', filter (λ p, p ≠ v) own)
| step_write s own p x b :
    p ∈ own → in_page p x → step (s, own) (set_kmem (store (kmem s) x b) s, own).

(** Free and owned pages partition [pages]. *)
Record alloc_inv (pages : list Z) (c : st * list Z) : Prop := {
  ai_free : ∃ l, free l c.1 ∧ l ++ c.2 ≡ₚ pages;
  ai_lock : LKmem ∉ sheld c.1;
}.

Lemma alloc_step_inv pages c c' :
  NoDup pages → (∀ p, p ∈ pages → page p) → step c c' → alloc_inv pages c → alloc_inv pages c'.
Proof.
  intros Hnd Hpages Hst [(l & Hf & Hperm) Hlk].
  assert (NoDup (l ++ c.2)) as Hnd2 by by rewrite Hperm.
  assert (∀ p, p ∈ l ++ c.2 → page p) as Hpg by (intros p; rewrite Hperm; apply Hpages).
  destruct Hst as [s own r s' Hs|s own v s' Hv Hs|s own p x b Hp Hx]; simpl in *.
  - pose proof (wp_kalloc l s Hf Hlk) as Hw. unfold wp in Hw. rewrite Hs in Hw.
    destruct Hw as (Hh & _ & _ & Hl). split; [|simpl; by rewrite Hh].
    destruct l as [|p l]; destruct Hl as [-> Hf']; simpl in *.
    + by exists [].
    + destruct (page_range p) as [? _]; [apply Hpg; constructor|]. rewrite decide_False by lia.
      exists l. split; [done|]. by rewrite <-Permutation_middle.
  - apply list.NoDup_app in Hnd2 as (Hndl & Hdisj & Hndo).
    pose proof (wp_kfree l v s Hf) as Hw.
    assert (v ∉ l) as Hvl by (intros ?; by eapply Hdisj).
    specialize (Hw (Hpg v (proj2 (elem_of_app _ _ _) (or_intror Hv))) Hvl Hlk).
    unfold wp in Hw. rewrite Hs in Hw. destruct Hw as (Hf' & Hh & _). split; [|simpl; by rewrite Hh].
    exists (v :: l). split; [done|]. simpl. rewrite <-Hperm, Permutation_middle. f_equiv.
    apply list.NoDup_Permutation; [|done|].
    + apply list.NoDup_cons. split; [rewrite list_elem_of_filter; tauto|by apply list.NoDup_filter].
    + intros q. rewrite elem_of_cons, list_elem_of_filter. destruct (decide (q = v)); naive_solver.
  - split; [|done]. exists l. split; [|done]. destruct Hf as [Hc Hndl Hpl]. split; [|done..]. simpl.
    eapply chain_frame; [done|]. intros q y Hq Hy. apply store_ne. intros ->.
    apply list.NoDup_app in Hnd2 as (_ & Hdisj & _). apply (Hdisj q Hq).
    rewrite (in_page_unique q p x); [done|apply page_range; apply Hpg; set_solver..| |done].
    unfold in_page, PGSIZE. lia.
Qed.

(** ** Boot *)

Definition P2V (a : Z) : Z := a + KERNBASE.

(** The calls of main.c, for a kernel that fits below 4 MB. *)
Definition boot : kM st unit :=
  kinit1 kend (P2V (4 * 1024 * 1024)) ;; kinit2 (P2V (4 * 1024 * 1024)) (P2V PHYSTOP).

Lemma PGROUNDUP_spec a : 0 ≤ a → a + 4095 < 2 ^ 32 → PGROUNDUP a = (a + 4095) / 4096 * 4096.
Proof.
  intros Ha Hlt. unfold PGROUNDUP, u32, PGSIZE. rewrite Z.mod_small by lia.
  change (4096 - 1) with (Z.ones 12). rewrite <-Z.ldiff_land, Z.ldiff_ones_r by lia.
  rewrite Z.shiftr_div_pow2, Z.shiftl_mul_pow2 by lia.
  replace (a + 4096 - 1) with (a + 4095) by lia. done.
Qed.

Lemma elem_range_pages a b p :
  0 ≤ a → a + 4095 < 2 ^ 32 →
  p ∈ range_pages a b ↔ p mod PGSIZE = 0 ∧ a ≤ p ∧ p + PGSIZE ≤ b.
Proof.
  intros Ha Hlt. unfold range_pages, PGSIZE. rewrite PGROUNDUP_spec by done.
  set (r := (a + 4095) / 4096). pose proof (Z.div_mod (a + 4095) 4096) as Hd. fold r in Hd.
  pose proof (Z.mod_pos_bound (a + 4095) 4096 ltac:(lia)) as Hm.
  rewrite list_elem_of_fmap. split.
  - intros (k & -> & Hk). apply elem_of_seqZ in Hk.
    replace (r * 4096 + 4096 * k) with ((r + k) * 4096) by lia. split; [by apply Z.mod_mul|].
    split; [lia|]. pose proof (Z.div_mod (b - r * 4096) 4096 ltac:(lia)).
    pose proof (Z.mod_pos_bound (b - r * 4096) 4096 ltac:(lia)). lia.
  - intros (Hp & Hap & Hb). apply Z.div_exact in Hp; [|lia]. exists (p / 4096 - r).
    split; [lia|]. apply elem_of_seqZ. split; [lia|].
    assert (p / 4096 - r + 1 ≤ (b - r * 4096) / 4096); [|lia].
    apply Z.div_le_lower_bound; lia.
Qed.

Lemma NoDup_range_pages a b : NoDup (range_pages a b).
Proof. unfold range_pages. apply NoDup_fmap_2; [|apply NoDup_seqZ]. intros x y Hxy. unfold PGSIZE in Hxy. simpl in Hxy. lia. Qed.

#[local] Opaque range_pages.

Lemma page_intro p :
  p mod PGSIZE = 0 → kend ≤ p → KERNBASE ≤ p → p + PGSIZE ≤ P2V PHYSTOP → page p.
Proof.
  unfold P2V, PHYSTOP, KERNBASE, PGSIZE. intros. split; [|lia]. apply page_ok_spec.
  unfold u32, PHYSTOP, KERNBASE. rewrite (Z.mod_small (p - _)) by lia. split_and!; [done|lia|lia].
Qed.

Lemma wp_boot s :
  KERNBASE ≤ kend ≤ P2V (4 * 1024 * 1024) → freelist s = 0 → sheld s = [] →
  let pages := range_pages kend (P2V (4 * 1024 * 1024)) ++ range_pages (P2V (4 * 1024 * 1024)) (P2V PHYSTOP) in
  NoDup pages ∧ (∀ p, p ∈ pages → page p) ∧
  wp boot s (λ _ s', ∃ l, free l s' ∧ l ≡ₚ pages ∧ sheld s' = [] ∧ use_lock s' = true ∧ (bytes_ok (kmem s) → bytes_ok (kmem s'))).
Proof.
  intros Hk Hfl Hh.
  set (l1 := range_pages kend _). set (l2 := range_pages (P2V (4 * 1024 * 1024)) _). cbv zeta.
  assert (∀ p, p ∈ l1 ↔ p mod PGSIZE = 0 ∧ kend ≤ p ∧ p + PGSIZE ≤ P2V (4 * 1024 * 1024)) as H1.
  { intros p. apply elem_range_pages; unfold P2V, KERNBASE in *; lia. }
  assert (∀ p, p ∈ l2 ↔ p mod PGSIZE = 0 ∧ P2V (4 * 1024 * 1024) ≤ p ∧ p + PGSIZE ≤ P2V PHYSTOP) as H2.
  { intros p. apply elem_range_pages; unfold P2V, KERNBASE in *; lia. }
  assert (∀ p, p ∈ l1 → page p) as Hp1.
  { intros p Hp%H1. apply page_intro; try tauto; unfold P2V, PHYSTOP, KERNBASE in *; lia. }
  assert (∀ p, p ∈ l2 → page p) as Hp2.
  { intros p Hp%H2. apply page_intro; try tauto; unfold P2V, PHYSTOP, KERNBASE in *; lia. }
  assert (∀ p, p ∈ l1 → p ∉ l2) as Hdisj.
  { intros p Ha%H1 Hb%H2. unfold PGSIZE in *. lia. }
  split; [apply list.NoDup_app; split_and!; [apply NoDup_range_pages|done|apply NoDup_range_pages]|].
  split; [intros p [?|?]%elem_of_app; auto|].
  unfold boot, kinit1, kinit2. apply wp_bind, wp_bind, wp_modify.
  eapply wp_mono; [apply (wp_free_all l1 [])|].
  - by split; [simpl; rewrite Hfl|apply NoDup_nil_2|intros p ?%not_elem_of_nil].
  - intros p Hp. split; [by apply Hp1|apply not_elem_of_nil].
  - apply NoDup_range_pages.
  - simpl. rewrite Hh. apply not_elem_of_nil.
  - intros [] s1 (Hf1 & Hh1 & Hu1 & Hb1). rewrite app_nil_r in Hf1. simpl in Hh1, Hu1. apply wp_bind.
    eapply wp_mono; [apply (wp_free_all l2 (reverse l1)); [done| |apply NoDup_range_pages|]|].
    + intros p Hp. split; [by apply Hp2|]. rewrite elem_of_reverse. intros ?. by eapply Hdisj.
    + rewrite Hh1, Hh. apply not_elem_of_nil.
    + intros [] s2 ([Hc2 Hn2 Hp2'] & Hh2 & Hu2 & Hb2). apply wp_modify.
      exists (reverse l2 ++ reverse l1). split; [by split|]. split.
      * by rewrite !reverse_Permutation, (Permutation_app_comm l2).
      * split; [simpl; by rewrite Hh2, Hh1|]. split; [done|]. intros Hb. by apply Hb2, Hb1.
Qed.

Lemma rtc_inv pages c c' :
  NoDup pages → (∀ p, p ∈ pages → page p) → rtc step c c' → alloc_inv pages c → alloc_inv pages c'.
Proof. intros Hnd Hpg. induction 1; [done|]. eauto using alloc_step_inv. Qed.

(** C36: after the allocator is set up over all memory above the kernel, and
    whatever its clients do with it and with the pages they own, [kalloc]
    returns, never hands out a page that is in use, and fails only when every
    page is in use; [kfree] of an owned page returns. *)
Theorem kalloc_exclusive s0 :
  KERNBASE ≤ kend ≤ P2V (4 * 1024 * 1024) → freelist s0 = 0 → sheld s0 = [] →
  let pages := range_pages kend (P2V (4 * 1024 * 1024)) ++ range_pages (P2V (4 * 1024 * 1024)) (P2V PHYSTOP) in
  ∃ s1, boot s0 = Done tt s1 ∧ ∀ s own, rtc step (s1, []) (s, own) →
    NoDup own ∧
    (∃ r s', kalloc s = Done r s' ∧ (r = 0 ↔ own ≡ₚ pages) ∧ (r ≠ 0 → r ∈ pages ∧ r ∉ own)) ∧
    (∀ v, v ∈ own → ∃ s', kfree v s = Done tt s').
Proof.
  intros Hk Hfl Hh pages. destruct (wp_boot s0 Hk Hfl Hh) as (Hnd & Hpg & Hw). fold pages in Hnd, Hpg, Hw.
  apply wp_done in Hw as ([] & s1 & Hs1 & l1 & Hf1 & Hl1 & Hh1 & _). exists s1. split; [done|].
  intros s own Hr.
  assert (alloc_inv pages (s, own)) as [(l & Hf & Hperm) Hlk].
  { eapply rtc_inv; [done..|]. split; simpl; [|rewrite Hh1; apply not_elem_of_nil].
    exists l1. by rewrite app_nil_r. }
  simpl in *. assert (NoDup (l ++ own)) as Hnd2 by by rewrite Hperm.
  apply list.NoDup_app in Hnd2 as (Hndl & Hdisj & Hndo). split; [done|]. split.
  - pose proof (wp_kalloc l s Hf Hlk) as Hw. apply wp_done in Hw as (r & s' & Hs & _ & _ & _ & Hl).
    exists r, s'. split; [done|]. destruct l as [|p l]; destruct Hl as [-> _]; [naive_solver|].
    assert (p ∈ pages) as Hp by (rewrite <-Hperm; constructor).
    destruct (page_range p (Hpg p Hp)) as [? _]. split.
    + split; [lia|]. intros Ho. rewrite <-Ho in Hperm. apply Permutation_length in Hperm.
      rewrite length_app in Hperm. simpl in Hperm. lia.
    + intros _. split; [done|]. apply Hdisj. constructor.
  - intros v Hv. assert (v ∉ l) as Hvl by (intros ?; by eapply Hdisj).
    assert (page v) as Hpv by (apply Hpg; rewrite <-Hperm; apply elem_of_app; by right).
    pose proof (wp_kfree l v s Hf Hpv Hvl Hlk) as Hw.
    apply wp_done in Hw as ([] & s' & Hs & _). by exists s'.
Qed.
End kalloc.

Lemma kalloc_exclusive_witness :
  let s0 := St [] false 0 (λ _, 0) in
  ∃ s1, boot 0x80108000 s0 = Done tt s1 ∧ ∃ r s', kalloc s1 = Done r s' ∧ r ≠ 0.
Proof.
  intros s0. destruct (kalloc_exclusive 0x80108000 ltac:(lia) s0) as (s1 & Hs1 & Hall).
  - unfold P2V, KERNBASE. lia.
  - reflexivity.
  - reflexivity.
  - exists s1. split; [exact Hs1|]. destruct (Hall s1 [] (rtc_refl _ _)) as (_ & (r & s' & Hr & Hz & _) & _).
    exists r, s'. split; [exact Hr|]. intros ->. destruct Hz as [Hz _].
    specialize (Hz eq_refl). apply Permutation_nil_l in Hz. discriminate Hz.
Defined.
End Kalloc.
