(* ===== verification/Vm.v ===== *)
(** * Virtual memory (vm.c)

    Page directories and page tables are pages of the allocator's memory, read
    and written as the words the hardware walks. [cprintf] is left out;
    [loaduvm] reads a file and is with [exec]. *)

From S2P Require Import Prelude CString Kalloc.

Local Open Scope Z_scope.

(** ** Constants of mmu.h and memlayout.h *)

Definition NPDENTRIES : Z := 1024.
Definition NPTENTRIES : Z := 1024.
Definition PTE_P : Z := 0x001.
Definition PTE_W : Z := 0x002.
Definition PTE_U : Z := 0x004.
Definition EXTMEM : Z := 0x100000.
Definition DEVSPACE : Z := 0xFE000000.
Definition KERNLINK : Z := KERNBASE + EXTMEM.

Definition PDX (va : Z) : Z := Z.land (Z.shiftr va 22) 0x3FF.
Definition PTX (va : Z) : Z := Z.land (Z.shiftr va 12) 0x3FF.
Definition PGROUNDDOWN (a : Z) : Z := Z.land a (Z.lnot (PGSIZE - 1)).
Definition PTE_ADDR (pte : Z) : Z := Z.land pte (Z.lnot 0xFFF).
Definition PTE_FLAGS (pte : Z) : Z := Z.land pte 0xFFF.

Definition v2p (a : Z) : Z := u32 (a - KERNBASE).
Definition p2v (a : Z) : Z := u32 (a + KERNBASE).

(** [*pte & f] as a condition. *)
Definition has (pte f : Z) : bool := bool_decide (Z.land pte f ≠ 0).

Module Vm.
Section vm.
(** The symbols [end] and [data] of the linker script. *)
Context (kend kdata : Z).

Abbreviation st := Kalloc.st.
Local Open Scope kern_scope.

Definition getmem : kM st mem := kgets Kalloc.kmem.
Definition setmem (f : mem → mem) : kM st unit := kmodify (λ s, Kalloc.set_kmem (f (Kalloc.kmem s)) s).

(** The address of the entry, 0 for none. *)
Definition walkpgdir (pgdir va : Z) (alloc : bool) : kM st Z :=
  let pde := pgdir + 4 * PDX va in
  m ← getmem;
  if has (load32 m pde) PTE_P then kret (p2v (PTE_ADDR (load32 m pde)) + 4 * PTX va)
  else if negb alloc then kret 0
  else
    pgtab ← Kalloc.kalloc;
    if bool_decide (pgtab = 0) then kret 0
    else
      setmem (λ m, memset m pgtab 0 PGSIZE) ;;
      setmem (λ m, store32 m pde (Z.lor (Z.lor (Z.lor (v2p pgtab) PTE_P) PTE_W) PTE_U)) ;;
      kret (pgtab + 4 * PTX va).

(** The loop of [mappages], which ends when [a == last]. *)
Fixpoint mappages_loop (fuel : nat) (pgdir a last pa perm : Z) : kM st Z :=
  match fuel with
  | O => kfault
  | S fuel =>
    pte ← walkpgdir pgdir a true;
    if bool_decide (pte = 0) then kret (-1)
    else
      m ← getmem;
      kassert (negb (has (load32 m pte) PTE_P)) "remap" ;;
      setmem (λ m, store32 m pte (Z.lor (Z.lor pa perm) PTE_P)) ;;
      if bool_decide (a = last) then kret 0
      else mappages_loop fuel pgdir (u32 (a + PGSIZE)) last (u32 (pa + PGSIZE)) perm
  end.

Definition mappages (pgdir va size pa perm : Z) : kM st Z :=
  let a := PGROUNDDOWN va in
  let last := PGROUNDDOWN (u32 (va + size - 1)) in
  mappages_loop (S (Z.to_nat (u32 (last - a) / PGSIZE))) pgdir a last pa perm.

Record kmap_entry := Kmap { virt : Z; phys_start : Z; phys_end : Z; perm : Z }.

Definition kmap : list kmap_entry :=
  [Kmap KERNBASE 0 EXTMEM PTE_W;                              (* I/O space *)
   Kmap KERNLINK (v2p KERNLINK) (v2p kdata) 0;                (* kern text+rodata *)
   Kmap kdata (v2p kdata) PHYSTOP PTE_W;                      (* kern data+memory *)
   Kmap DEVSPACE DEVSPACE 0 PTE_W].                           (* more devices *)

Fixpoint map_all (pgdir : Z) (ks : list kmap_entry) : kM st Z :=
  match ks with
  | [] => kret pgdir
  | k :: ks =>
    r ← mappages pgdir (virt k) (u32 (phys_end k - phys_start k)) (phys_start k) (perm k);
    if bool_decide (r < 0) then kret 0 else map_all pgdir ks
  end.

Definition setupkvm : kM st Z :=
  pgdir ← Kalloc.kalloc;
  if bool_decide (pgdir = 0) then kret 0
  else
    setmem (λ m, memset m pgdir 0 PGSIZE) ;;
    kassert (negb (bool_decide (DEVSPACE < p2v PHYSTOP))) "PHYSTOP too high" ;;
    map_all pgdir kmap.

(** [init] is the program, [sz] its length. *)
Definition inituvm (pgdir : Z) (init : list Z) : kM st unit :=
  kassert (negb (bool_decide (PGSIZE ≤ Z.of_nat (length init)))) "inituvm: more than a page" ;;
  mem ← Kalloc.kalloc;
  (if bool_decide (mem = 0) then kfault else kret tt) ;;
  setmem (λ m, memset m mem 0 PGSIZE) ;;
  mappages pgdir 0 PGSIZE (v2p mem) (Z.lor PTE_W PTE_U) ;;
  setmem (λ m, store_bytes m mem init).

Fixpoint deallocuvm_loop (fuel : nat) (pgdir a oldsz : Z) : kM st unit :=
  match fuel with
  | O => kfault
  | S fuel =>
    if bool_decide (a < oldsz) then
      pte ← walkpgdir pgdir a false;
      if bool_decide (pte = 0) then deallocuvm_loop fuel pgdir (u32 (u32 (a + (NPTENTRIES - 1) * PGSIZE) + PGSIZE)) oldsz
      else
        m ← getmem;
        kwhen (has (load32 m pte) PTE_P)
          (let pa := PTE_ADDR (load32 m pte) in
           kassert (negb (bool_decide (pa = 0))) "kfree" ;;
           Kalloc.kfree kend (p2v pa) ;;
           setmem (λ m, store32 m pte 0)) ;;
        deallocuvm_loop fuel pgdir (u32 (a + PGSIZE)) oldsz
    else kret tt
  end.

(** The loop visits each page at most once. *)
Definition deallocuvm (pgdir oldsz newsz : Z) : kM st Z :=
  if bool_decide (oldsz ≤ newsz) then kret oldsz
  else
    deallocuvm_loop (S (Z.to_nat (oldsz / PGSIZE + 1))) pgdir (PGROUNDUP newsz) oldsz ;;
    kret newsz.

Fixpoint allocuvm_loop (fuel : nat) (pgdir a oldsz newsz : Z) : kM st Z :=
  match fuel with
  | O => kfault
  | S fuel =>
    if bool_decide (a < newsz) then
      mem ← Kalloc.kalloc;
      if bool_decide (mem = 0) then deallocuvm pgdir newsz oldsz ;; kret 0
      else
        setmem (λ m, memset m mem 0 PGSIZE) ;;
        mappages pgdir a PGSIZE (v2p mem) (Z.lor PTE_W PTE_U) ;;
        allocuvm_loop fuel pgdir (u32 (a + PGSIZE)) oldsz newsz
    else kret newsz
  end.

Definition allocuvm (pgdir oldsz newsz : Z) : kM st Z :=
  if bool_decide (KERNBASE ≤ newsz) then kret 0
  else if bool_decide (newsz < oldsz) then kret oldsz
  else allocuvm_loop (S (Z.to_nat (newsz / PGSIZE + 1))) pgdir (PGROUNDUP oldsz) oldsz newsz.

Definition freevm (pgdir : Z) : kM st unit :=
  kassert (negb (bool_decide (pgdir = 0))) "freevm: no pgdir" ;;
  deallocuvm pgdir KERNBASE 0 ;;
  kfor (seqZ 0 NPDENTRIES) (λ i,
    m ← getmem;
    let e := load32 m (pgdir + 4 * i) in
    kwhen (has e PTE_P) (Kalloc.kfree kend (p2v (PTE_ADDR e)))) ;;
  Kalloc.kfree kend pgdir.

Definition clearpteu (pgdir uva : Z) : kM st unit :=
  pte ← walkpgdir pgdir uva false;
  kassert (negb (bool_decide (pte = 0))) "clearpteu" ;;
  setmem (λ m, store32 m pte (Z.land (load32 m pte) (Z.lnot PTE_U))).

Fixpoint copyuvm_loop (fuel : nat) (pgdir d i sz : Z) : kM st Z :=
  match fuel with
  | O => kfault
  | S fuel =>
    if bool_decide (i < sz) then
      pte ← walkpgdir pgdir i false;
      kassert (negb (bool_decide (pte = 0))) "copyuvm: pte should exist" ;;
      m ← getmem;
      kassert (has (load32 m pte) PTE_P) "copyuvm: page not present" ;;
      let pa := PTE_ADDR (load32 m pte) in
      let flags := PTE_FLAGS (load32 m pte) in
      mem ← Kalloc.kalloc;
      if bool_decide (mem = 0) then freevm d ;; kret 0
      else
        setmem (λ m, memmove m mem (p2v pa) PGSIZE) ;;
        r ← mappages d i PGSIZE (v2p mem) flags;
        if bool_decide (r < 0) then freevm d ;; kret 0
        else copyuvm_loop fuel pgdir d (u32 (i + PGSIZE)) sz
    else kret d
  end.

Definition copyuvm (pgdir sz : Z) : kM st Z :=
  d ← setupkvm;
  if bool_decide (d = 0) then kret 0
  else copyuvm_loop (S (Z.to_nat (sz / PGSIZE + 1))) pgdir d 0 sz.

(** A null entry is dereferenced. *)
Definition uva2ka (pgdir uva : Z) : kM st Z :=
  pte ← walkpgdir pgdir uva false;
  if bool_decide (pte = 0) then kfault
  else
    m ← getmem;
    kret (if negb (has (load32 m pte) PTE_P) then 0
          else if negb (has (load32 m pte) PTE_U) then 0
          else p2v (PTE_ADDR (load32 m pte))).

(** [buf] is what is left to copy. *)
Fixpoint copyout_loop (fuel : nat) (pgdir va : Z) (buf : list Z) : kM st Z :=
  match fuel with
  | O => kfault
  | S fuel =>
    if bool_decide (buf = []) then kret 0
    else
      let va0 := PGROUNDDOWN va in
      pa0 ← uva2ka pgdir va0;
      if bool_decide (pa0 = 0) then kret (-1)
      else
        let n := Z.min (PGSIZE - (va - va0)) (Z.of_nat (length buf)) in
        setmem (λ m, store_bytes m (pa0 + (va - va0)) (take (Z.to_nat n) buf)) ;;
        copyout_loop fuel pgdir (u32 (va0 + PGSIZE)) (drop (Z.to_nat n) buf)
  end.

(** Each round but the last copies at least one byte. *)
Definition copyout (pgdir va : Z) (p : list Z) : kM st Z := copyout_loop (S (length p)) pgdir va p.
End vm.
End Vm.
