(* ===== verification/VmThm.v ===== *)
(** * Theorems on virtual memory

    A page table is related to the function it stands for, from virtual page
    numbers to entries, and each routine of vm.c to what it does to that function
    and to the pages a process owns. *)

From S2P Require Import Prelude CString Kalloc Vm.

Local Open Scope Z_scope.

(** ** Address arithmetic *)

Lemma land_lnot_4095 a : Z.land a (Z.lnot 4095) = a / 4096 * 4096.
Proof.
  change 4095 with (Z.ones 12). rewrite <-Z.ldiff_land, Z.ldiff_ones_r by lia.
  by rewrite Z.shiftr_div_pow2, Z.shiftl_mul_pow2 by lia.
Qed.

Lemma PGROUNDDOWN_spec a : PGROUNDDOWN a = a / 4096 * 4096.
Proof. apply land_lnot_4095. Qed.
Lemma PTE_ADDR_spec a : PTE_ADDR a = a / 4096 * 4096.
Proof. apply land_lnot_4095. Qed.
Lemma PTE_FLAGS_spec a : PTE_FLAGS a = a mod 4096.
Proof. unfold PTE_FLAGS. change 0xFFF with (Z.ones 12). by rewrite Z.land_ones by lia. Qed.
Lemma PTX_spec va : PTX va = va / 4096 mod 1024.
Proof. unfold PTX. change 0x3FF with (Z.ones 10). by rewrite Z.land_ones, Z.shiftr_div_pow2 by lia. Qed.
Lemma PDX_spec va : 0 ≤ va < 2 ^ 32 → PDX va = va / 4096 / 1024.
Proof.
  intros Hva. unfold PDX. change 0x3FF with (Z.ones 10). rewrite Z.land_ones, Z.shiftr_div_pow2, Z.div_div by lia.
  apply Z.mod_small. split; [apply Z.div_pos; lia|]. apply Z.div_lt_upper_bound; lia.
Qed.

Lemma aligned_div a : a mod 4096 = 0 → a / 4096 * 4096 = a.
Proof. intros Ha. pose proof (Z.div_mod a 4096). lia. Qed.

Lemma aligned_add pa f : pa mod 4096 = 0 → 0 ≤ f < 4096 → (pa + f) / 4096 * 4096 = pa ∧ (pa + f) mod 4096 = f.
Proof.
  intros Hpa Hf. apply Z.div_exact in Hpa; [|lia]. rewrite Hpa.
  replace (4096 * (pa / 4096) + f) with (f + pa / 4096 * 4096) by lia.
  rewrite Z.div_add, Z_mod_plus_full, Z.div_small, Z.mod_small by lia. lia.
Qed.

(** Flags below a page aligned address. *)
Lemma lor_aligned pa f : pa mod 4096 = 0 → 0 ≤ f < 4096 → Z.lor pa f = pa + f.
Proof.
  intros Hpa Hf. apply Z.div_exact in Hpa; [|lia]. rewrite Hpa, Z.mul_comm.
  change 4096 with (2 ^ 12) in *. rewrite <-Z.shiftl_mul_pow2 by lia.
  symmetry. apply Z.add_nocarry_lor, Z.bits_inj'. intros n Hn. rewrite Z.land_spec, Z.bits_0.
  destruct (decide (n < 12)); [by rewrite Z.shiftl_spec_low by lia|].
  rewrite andb_comm. destruct (decide (f = 0)) as [->|]; [by rewrite Z.bits_0|].
  rewrite Z.bits_above_log2; [done|lia|]. apply Z.lt_le_trans with 12; [|lia]. apply Z.log2_lt_pow2; lia.
Qed.

Lemma lor_small a b : 0 ≤ a < 4096 → 0 ≤ b < 4096 → 0 ≤ Z.lor a b < 4096.
Proof.
  intros Ha Hb. assert (0 ≤ Z.lor a b) by (apply Z.lor_nonneg; lia). split; [done|].
  destruct (decide (Z.lor a b = 0)); [lia|]. apply (Z.log2_lt_pow2 _ 12); [lia|].
  rewrite Z.log2_lor by lia. apply Z.max_lub_lt.
  - destruct (decide (a = 0)) as [->|]; [done|]. apply Z.log2_lt_pow2; lia.
  - destruct (decide (b = 0)) as [->|]; [done|]. apply Z.log2_lt_pow2; lia.
Qed.

(** The entry [mappages] writes. *)
Lemma make_pte pa perm :
  pa mod 4096 = 0 → 0 ≤ perm < 4096 → Z.lor (Z.lor pa perm) PTE_P = pa + Z.lor perm 1.
Proof. intros. rewrite <-Z.lor_assoc. apply lor_aligned; [done|]. by apply lor_small. Qed.

Lemma has_odd e : has e PTE_P = Z.odd e.
Proof.
  unfold has, PTE_P. change 1 with (Z.ones 1). rewrite Z.land_ones by lia. change (2 ^ 1) with 2.
  rewrite Zmod_odd. by destruct (Z.odd e).
Qed.

Lemma has_pte pa f : pa mod 4096 = 0 → has (pa + Z.lor f 1) PTE_P = true.
Proof.
  intros Hpa. apply Z.div_exact in Hpa; [|lia]. rewrite has_odd, Hpa, Z.odd_add, Z.odd_mul.
  change (Z.odd 4096) with false. simpl. rewrite <-Z.bit0_odd, Z.lor_spec. by rewrite orb_true_r.
Qed.

Lemma load_store_ne m a b w : a + 4 ≤ b ∨ b + 4 ≤ a → load32 (store32 m a w) b = load32 m b.
Proof. intros. apply load32_ext. intros x Hx. apply store32_ne. lia. Qed.

(** ** Page tables *)

Definition tables (tabs : list (option Z)) : list Z := omap id tabs.

(** In memory [m], the directory [pgdir] has the tables [tabs], and the entry of
    virtual page [v] is [ents v], 0 where there is no table. *)
Record pt (m : mem) (pgdir : Z) (tabs : list (option Z)) (ents : Z → Z) : Prop := {
  pt_len : length tabs = 1024%nat;
  pt_dir i o : tabs !! i = Some o → match o with
    | Some t => load32 m (pgdir + 4 * Z.of_nat i) = v2p t + 7
    | None => has (load32 m (pgdir + 4 * Z.of_nat i)) PTE_P = false end;
  pt_ent v o : 0 ≤ v < 2 ^ 20 → tabs !! Z.to_nat (v / 1024) = Some o → match o with
    | Some t => load32 m (t + 4 * (v mod 1024)) = ents v
    | None => ents v = 0 end;
}.

Lemma elem_tables tabs t : t ∈ tables tabs ↔ ∃ i, tabs !! i = Some (Some t).
Proof.
  unfold tables. rewrite list_elem_of_omap. split.
  - intros (o & Ho & Hi). simpl in Hi. subst. by apply list_elem_of_lookup in Ho.
  - intros [i Hi]. exists (Some t). split; [by eapply list_elem_of_lookup_2|done].
Qed.

Lemma tables_insert tabs i t :
  tabs !! i = Some None → tables (<[i := Some t]> tabs) ≡ₚ t :: tables tabs.
Proof.
  intros Hi. pose proof (lookup_lt_Some _ _ _ Hi) as Hlt. unfold tables.
  rewrite insert_take_drop by done. rewrite <-(take_drop_middle tabs i None Hi) at 3.
  rewrite !omap_app. simpl. by rewrite Permutation_middle.
Qed.

Lemma NoDup_omap_inj (tabs : list (option Z)) i j t :
  NoDup (omap id tabs) → tabs !! i = Some (Some t) → tabs !! j = Some (Some t) → i = j.
Proof.
  revert i j. induction tabs as [|o tabs IH]; intros i j Hnd Hi Hj; [done|].
  destruct o as [t'|]; simpl in Hnd.
  - apply list.NoDup_cons in Hnd as [Hn Hnd]. destruct i as [|i], j as [|j]; simpl in *; simplify_eq; try done.
    + destruct Hn. apply elem_tables. by exists j.
    + destruct Hn. apply elem_tables. by exists i.
    + f_equal. by apply IH.
  - destruct i as [|i], j as [|j]; simpl in *; simplify_eq; try done. f_equal. by apply IH.
Qed.

Section frames.
Context (kend kdata : Z) (Hkend : KERNBASE < kend).
Abbreviation page := (Kalloc.page kend).
Abbreviation in_page := Kalloc.in_page.

Lemma page_high p : page p → p mod 4096 = 0 ∧ KERNBASE < p < KERNBASE + PHYSTOP ∧ v2p p = p - KERNBASE ∧ (p - KERNBASE) mod 4096 = 0.
Proof.
  intros [Hok Hlt]. apply Kalloc.page_ok_spec in Hok as (Hal & Hk & Hph). unfold v2p.
  unfold KERNBASE, PHYSTOP, PGSIZE in *. rewrite u32_small in * by lia. split; [done|]. split; [lia|]. split; [done|].
  rewrite Zminus_mod, Hal. done.
Qed.

(** The page an entry refers to. *)
Lemma p2v_pte p f : page p → 0 ≤ f < 4096 → p2v (PTE_ADDR (v2p p + f)) = p.
Proof.
  intros Hp Hf. destruct (page_high p Hp) as (Hal & Hr & -> & Hal'). rewrite PTE_ADDR_spec.
  destruct (aligned_add (p - KERNBASE) f Hal' Hf) as [-> _]. unfold p2v. rewrite u32_small; unfold KERNBASE, PHYSTOP in *; lia.
Qed.

Lemma pages_apart p q x y : page p → page q → p ≠ q → in_page p x → in_page q y → x ≠ y.
Proof.
  intros Hp Hq Hne Hx Hy ->. apply Hne. eapply Kalloc.in_page_unique; [apply page_high; exact Hp|apply page_high; exact Hq|done|done].
Qed.

(** The words of a page. *)
Lemma word_in p k x : page p → 0 ≤ k < 1024 → p + 4 * k ≤ x < p + 4 * k + 4 → in_page p x.
Proof. unfold Kalloc.in_page, PGSIZE. lia. Qed.

Lemma dir_index tabs i (o : option Z) : length tabs = 1024%nat → tabs !! i = Some o → 0 ≤ Z.of_nat i < 1024.
Proof. intros Hl Hi%lookup_lt_Some. lia. Qed.

Lemma pt_frame m m' pgdir tabs ents :
  pt m pgdir tabs ents → (∀ p x, p ∈ pgdir :: tables tabs → in_page p x → m' x = m x) → pt m' pgdir tabs ents.
Proof.
  intros [H1 H2 H3] Hm. split; [done| |].
  - intros i o Hi. pose proof (dir_index _ _ _ H1 Hi).
    rewrite (load32_ext m m'); [by apply H2|]. intros x Hx. apply (Hm pgdir); [left|]. unfold Kalloc.in_page, PGSIZE. lia.
  - intros v o Hv Hi. pose proof (H3 v o Hv Hi) as He. destruct o as [t|]; [|done].
    pose proof (Z.mod_pos_bound v 1024 ltac:(lia)).
    rewrite (load32_ext m m'); [done|]. intros x Hx. apply (Hm t); [right; apply elem_tables; by eexists|].
    unfold Kalloc.in_page, PGSIZE. lia.
Qed.

(** Writing an entry. *)
Lemma pt_set m pgdir tabs ents v t w :
  pt m pgdir tabs ents → NoDup (pgdir :: tables tabs) → (∀ p, p ∈ pgdir :: tables tabs → page p) →
  0 ≤ v < 2 ^ 20 → tabs !! Z.to_nat (v / 1024) = Some (Some t) →
  pt (store32 m (t + 4 * (v mod 1024)) w) pgdir tabs (upd ents v (u32 w)).
Proof.
  intros [H1 H2 H3] Hnd Hpg Hv Ht.
  pose proof (Z.mod_pos_bound v 1024 ltac:(lia)) as Hvm.
  assert (t ∈ tables tabs) as Hin by (apply elem_tables; by eexists).
  assert (page t) as Hpt by (apply Hpg; by right). assert (page pgdir) as Hpd by (apply Hpg; left).
  apply list.NoDup_cons in Hnd as [Hnpd Hnd].
  split; [done| |].
  - intros i o Hi. pose proof (dir_index _ _ _ H1 Hi).
    rewrite (load32_ext m); [by apply H2|]. intros x Hx. apply store32_ne.
    pose proof (pages_apart t pgdir x x Hpt Hpd ltac:(by intros ->)) as Hap. unfold Kalloc.in_page, PGSIZE in Hap. lia.
  - intros v' o Hv' Hi. pose proof (H3 v' o Hv' Hi) as He. pose proof (Z.mod_pos_bound v' 1024 ltac:(lia)).
    destruct (decide (v' = v)) as [->|Hne].
    { rewrite Ht in Hi. simplify_eq. by rewrite load_store32, upd_eq. }
    rewrite upd_ne by done. destruct o as [t'|]; [|done].
    destruct (decide (Z.to_nat (v' / 1024) = Z.to_nat (v / 1024))) as [Hq|Hq].
    + rewrite Hq, Ht in Hi. simplify_eq. rewrite load_store_ne; [done|].
      pose proof (Z.div_mod v 1024). pose proof (Z.div_mod v' 1024).
      assert (0 ≤ v / 1024) by (apply Z.div_pos; lia). assert (0 ≤ v' / 1024) by (apply Z.div_pos; lia). lia.
    + assert (t' ≠ t) as Htt.
      { intros ->. unfold tables in Hnd. apply Hq. eapply (NoDup_omap_inj tabs); done. }
      assert (page t') as Hpt' by (apply Hpg; right; apply elem_tables; by eexists).
      rewrite (load32_ext m); [done|]. intros x Hx. apply store32_ne.
      pose proof (pages_apart t t' x x Hpt Hpt' ltac:(done)) as Hap. unfold Kalloc.in_page, PGSIZE in Hap. lia.
Qed.

Lemma memset_zero m p x : in_page p x → memset m p 0 PGSIZE x = 0.
Proof. intros Hx. rewrite memset_spec by (unfold PGSIZE; lia). by rewrite decide_True. Qed.
Lemma memset_out m p c x : ¬ in_page p x → memset m p c PGSIZE x = m x.
Proof. intros Hx. rewrite memset_spec by (unfold PGSIZE; lia). by rewrite decide_False. Qed.

Lemma load32_zero m p k : 0 ≤ k < 1024 → load32 (memset m p 0 PGSIZE) (p + 4 * k) = 0.
Proof. intros Hk. unfold load32. rewrite !memset_zero by (unfold Kalloc.in_page, PGSIZE; lia). done. Qed.

(** A new table, all zero. *)
Lemma pt_table m pgdir tabs ents i t :
  pt m pgdir tabs ents → tabs !! i = Some None → NoDup (t :: pgdir :: tables tabs) →
  (∀ p, p ∈ t :: pgdir :: tables tabs → page p) →
  pt (store32 (memset m t 0 PGSIZE) (pgdir + 4 * Z.of_nat i) (v2p t + 7)) pgdir (<[i := Some t]> tabs) ents.
Proof.
  intros Hpt Hi Hnd Hpg. destruct Hpt as [H1 H2 H3]. pose proof (dir_index _ _ _ H1 Hi) as Hir.
  assert (page t) as Ht by (apply Hpg; left). assert (page pgdir) as Hd by (apply Hpg; right; left).
  apply list.NoDup_cons in Hnd as [Hnt Hnd]. apply list.NoDup_cons in Hnd as [Hnd _].
  assert (t ≠ pgdir) as Htd by (intros ->; apply Hnt; left).
  assert (∀ j x, 0 ≤ j < 1024 → pgdir + 4 * j ≤ x < pgdir + 4 * j + 4 → memset m t 0 PGSIZE x = m x) as Hdir.
  { intros j x Hj Hx. apply memset_out. intros Hin. eapply (pages_apart pgdir t x x Hd Ht); [done| |done|done].
    unfold Kalloc.in_page, PGSIZE. lia. }
  destruct (page_high t Ht) as (_ & Htr & Hv2p & _).
  split; [by rewrite length_insert| |].
  - intros j o Hj. apply list_lookup_insert_Some in Hj as [(-> & <- & _)|[Hne Hj]].
    + rewrite load_store32, u32_small; [done|]. rewrite Hv2p. unfold KERNBASE, PHYSTOP in *. lia.
    + pose proof (dir_index _ _ _ H1 Hj). rewrite load_store_ne by lia.
      rewrite (load32_ext m); [by apply H2|]. intros x Hx. by apply (Hdir (Z.of_nat j)).
  - intros v o Hv Hj. pose proof (Z.mod_pos_bound v 1024 ltac:(lia)) as Hvm.
    apply list_lookup_insert_Some in Hj as [(-> & <- & _)|[Hne Hj]].
    + rewrite (load32_ext (memset m t 0 PGSIZE)).
      * rewrite load32_zero by done. by rewrite (H3 v None Hv Hi).
      * intros x Hx. apply store32_ne.
        pose proof (pages_apart t pgdir x x Ht Hd Htd) as Hap. unfold Kalloc.in_page, PGSIZE in Hap. lia.
    + pose proof (H3 v o Hv Hj) as He. destruct o as [t'|]; [|done].
      assert (t' ∈ tables tabs) as Hin by (apply elem_tables; by eexists).
      assert (page t') as Ht' by (apply Hpg; by right; right).
      assert (t' ≠ t) as Htt by (intros ->; apply Hnt; by right). assert (t' ≠ pgdir) as Htp by (by intros ->).
      rewrite (load32_ext m); [done|]. intros x Hx.
      assert (in_page t' x) as Hinx by (unfold Kalloc.in_page, PGSIZE; lia).
      rewrite store32_ne.
      * apply memset_out. intros Hin'. by eapply (pages_apart t' t x x).
      * pose proof (pages_apart t' pgdir x x Ht' Hd Htp Hinx) as Hap. unfold Kalloc.in_page, PGSIZE in Hap. lia.
Qed.

(** ** Ownership *)

(** The allocator with the free pages [l]. *)
Record ready (l : list Z) (s : Kalloc.st) : Prop := {
  rd_free : Kalloc.free kend l s;
  rd_lock : LKmem ∉ Kalloc.sheld s;
  rd_bytes : bytes_ok (Kalloc.kmem s);
}.

(** Memory changed on the given pages only. *)
Definition same_but (ps : list Z) (m m' : mem) : Prop := ∀ x, (∀ p, p ∈ ps → ¬ in_page p x) → m' x = m x.

Lemma same_but_refl ps m : same_but ps m m.
Proof. by intros x _. Qed.
Lemma same_but_trans ps qs m m' m'' : same_but ps m m' → same_but qs m' m'' → same_but (ps ++ qs) m m''.
Proof.
  intros H1 H2 x Hx. rewrite H2, H1; [done| |]; intros p Hp; apply Hx, elem_of_app; auto.
Qed.
Lemma same_but_mono ps qs m m' : (∀ p, p ∈ ps → p ∈ qs) → same_but ps m m' → same_but qs m m'.
Proof. intros Hs H x Hx. apply H. auto. Qed.

(** A change to pages that are not free. *)
Lemma ready_set l s f ps :
  ready l s → bytes_ok (f (Kalloc.kmem s)) → same_but ps (Kalloc.kmem s) (f (Kalloc.kmem s)) →
  (∀ p, p ∈ ps → page p ∧ p ∉ l) → ready l (Kalloc.set_kmem (f (Kalloc.kmem s)) s).
Proof.
  intros [[Hc Hnd Hpg] Hlk Hb] Hb' Hs Hps. split; [|done|done]. split; [|done|done]. simpl.
  eapply Kalloc.chain_frame; [done|]. intros p x Hp Hx. apply Hs. intros q Hq Hin. destruct (Hps q Hq) as [Hqp Hql].
  eapply (pages_apart q p x x Hqp (Hpg p Hp)); [by intros ->|done| |done]. unfold Kalloc.in_page, PGSIZE. lia.
Qed.

Lemma wp_setmem l s f ps (Q : unit → Kalloc.st → Prop) :
  ready l s → bytes_ok (f (Kalloc.kmem s)) → same_but ps (Kalloc.kmem s) (f (Kalloc.kmem s)) →
  (∀ p, p ∈ ps → page p ∧ p ∉ l) →
  (∀ s', ready l s' → Kalloc.kmem s' = f (Kalloc.kmem s) → Q tt s') → wp (Vm.setmem f) s Q.
Proof. intros Hr Hb Hs Hps HQ. apply wp_modify, HQ; [by eapply ready_set|done]. Qed.

Lemma same_store32 p a w m : in_page p a → in_page p (a + 3) → same_but [p] m (store32 m a w).
Proof. intros H1 H2 x Hx. apply store32_ne. specialize (Hx p ltac:(left)). unfold Kalloc.in_page, PGSIZE in *. lia. Qed.
Lemma same_memset p c m : same_but [p] m (memset m p c PGSIZE).
Proof. intros x Hx. apply memset_out, Hx. left. Qed.

Lemma wp_kalloc_ready l s :
  ready l s → wp Kalloc.kalloc s (λ r s', Kalloc.kmem s' = Kalloc.kmem s ∧
    match l with [] => r = 0 ∧ ready [] s' | p :: l' => r = p ∧ ready l' s' ∧ page p ∧ (p ∉ l') ∧ r ≠ 0 end).
Proof.
  intros [Hf Hlk Hb]. eapply wp_mono; [by apply Kalloc.wp_kalloc|]. intros r s' (Hh & _ & Hm & Hl). split; [done|].
  pose proof Hf as [_ Hnd Hpg]. destruct l as [|p l]; destruct Hl as [-> Hf'].
  - split; [done|]. split; [done|by rewrite Hh|by rewrite Hm].
  - apply list.NoDup_cons in Hnd as [Hp _]. assert (page p) as Hpp by (apply Hpg; left).
    split; [done|]. split; [split; [done|by rewrite Hh|by rewrite Hm]|]. split; [done|]. split; [done|].
    apply page_high in Hpp. unfold KERNBASE in *. lia.
Qed.

Lemma wp_kfree_ready l v s :
  ready l s → page v → v ∉ l → wp (Kalloc.kfree kend v) s (λ _ s', ready (v :: l) s' ∧ same_but [v] (Kalloc.kmem s) (Kalloc.kmem s')).
Proof.
  intros [Hf Hlk Hb] Hv Hl. eapply wp_mono; [apply (Kalloc.wp_kfree kend ltac:(unfold KERNBASE in Hkend; lia) l); done|].
  intros [] s' (Hf' & Hh & _ & Hm & Hb'). split; [split; [done|by rewrite Hh|by apply Hb']|].
  intros x Hx. apply Hm, Hx. left.
Qed.

(** A page table whose pages are its own, beside the free pages [l] and the
    pages [F] in other use. *)
Record vs (l : list Z) (s : Kalloc.st) (pgdir : Z) (tabs : list (option Z)) (ents : Z → Z) (F : list Z) : Prop := {
  vs_ready : ready l s;
  vs_pt : pt (Kalloc.kmem s) pgdir tabs ents;
  vs_nodup : NoDup (l ++ pgdir :: tables tabs ++ F);
  vs_page p : p ∈ pgdir :: tables tabs ++ F → page p;
}.

Lemma vs_own l s pgdir tabs ents F : vs l s pgdir tabs ents F →
  NoDup (pgdir :: tables tabs) ∧ (∀ p, p ∈ pgdir :: tables tabs → page p) ∧ (∀ p, p ∈ pgdir :: tables tabs → p ∉ l).
Proof.
  intros [_ _ Hnd Hpg]. apply list.NoDup_app in Hnd as (_ & Hdisj & Hnd).
  rewrite app_comm_cons in Hnd. apply list.NoDup_app in Hnd as (Hnd & _ & _).
  split; [done|]. split.
  - intros p Hp. apply Hpg. rewrite app_comm_cons. apply elem_of_app. by left.
  - intros p Hp Hl. apply (Hdisj p Hl). rewrite app_comm_cons. apply elem_of_app. by left.
Qed.

(** What is not free does not change when only free pages, the directory and its
    tables do. *)
Lemma vs_others l s pgdir tabs ents F p x : vs l s pgdir tabs ents F → p ∈ F → in_page p x →
  ∀ q, q ∈ l ++ pgdir :: tables tabs → ¬ in_page q x.
Proof.
  intros [[[_ _ Hl] _ _] _ Hnd Hpg] Hp Hx q Hq Hqx.
  assert (page p) as Hpp by (apply Hpg; right; apply elem_of_app; by right).
  assert (page q) as Hqp.
  { apply elem_of_app in Hq as [Hq|Hq]; [by apply Hl|]. apply Hpg. rewrite app_comm_cons. apply elem_of_app. by left. }
  eapply (pages_apart q p x x Hqp Hpp); [|done|done|done]. intros ->.
  replace (l ++ pgdir :: tables tabs ++ F) with ((l ++ pgdir :: tables tabs) ++ F) in Hnd by (by rewrite <-app_assoc).
  apply list.NoDup_app in Hnd as (_ & Hd & _). by apply (Hd p Hq).
Qed.

Lemma walk_index va : 0 ≤ va < 2 ^ 32 → 0 ≤ va / 4096 < 2 ^ 20 ∧ 0 ≤ va / 4096 / 1024 < 1024 ∧ PDX va = va / 4096 / 1024.
Proof.
  intros Hva. assert (0 ≤ va / 4096 < 2 ^ 20) as Hv.
  { split; [apply Z.div_pos; lia|]. apply Z.div_lt_upper_bound; lia. }
  split; [done|]. split; [|by apply PDX_spec]. split; [apply Z.div_pos; lia|]. apply Z.div_lt_upper_bound; lia.
Qed.

Lemma vs_lookup l s pgdir tabs ents F va : vs l s pgdir tabs ents F → 0 ≤ va < 2 ^ 32 →
  ∃ o, tabs !! Z.to_nat (va / 4096 / 1024) = Some o.
Proof.
  intros [_ [Hl _ _] _ _] Hva. destruct (walk_index va Hva) as (_ & Hi & _).
  apply lookup_lt_is_Some_2. lia.
Qed.

(** The word of the directory that is read. *)
Lemma vs_dir l s pgdir tabs ents F va o : vs l s pgdir tabs ents F → 0 ≤ va < 2 ^ 32 →
  tabs !! Z.to_nat (va / 4096 / 1024) = Some o →
  match o with
  | Some t => has (load32 (Kalloc.kmem s) (pgdir + 4 * PDX va)) PTE_P = true ∧
              p2v (PTE_ADDR (load32 (Kalloc.kmem s) (pgdir + 4 * PDX va))) = t
  | None => has (load32 (Kalloc.kmem s) (pgdir + 4 * PDX va)) PTE_P = false
  end.
Proof.
  intros Hvs Hva Ho. destruct (walk_index va Hva) as (_ & Hi & ->). destruct (vs_own _ _ _ _ _ _ Hvs) as (_ & Hpg & _).
  pose proof (pt_dir _ _ _ _ (vs_pt _ _ _ _ _ _ Hvs) _ _ Ho) as Hd. rewrite Z2Nat.id in Hd by lia.
  destruct o as [t|]; [|done]. rewrite Hd. assert (page t) as Ht.
  { apply Hpg. right. apply elem_tables. by eexists. }
  destruct (page_high t Ht) as (_ & Hr & Hv & Hal). split; [|by apply p2v_pte].
  rewrite Hv. change 7 with (Z.lor 6 1). by apply has_pte.
Qed.

Lemma wp_walk l s pgdir tabs ents F va :
  vs l s pgdir tabs ents F → 0 ≤ va < 2 ^ 32 →
  wp (Vm.walkpgdir pgdir va false) s (λ r s', s' = s ∧
    r = match tabs !! Z.to_nat (va / 4096 / 1024) with Some (Some t) => t + 4 * (va / 4096 mod 1024) | _ => 0 end).
Proof.
  intros Hvs Hva. destruct (vs_lookup _ _ _ _ _ _ va Hvs Hva) as [o Ho]. pose proof (vs_dir _ _ _ _ _ _ va o Hvs Hva Ho) as Hd.
  rewrite Ho. unfold Vm.walkpgdir, Vm.getmem. apply wp_bind, wp_gets. destruct o as [t|].
  - destruct Hd as [-> ->]. apply wp_ret. by rewrite PTX_spec.
  - rewrite Hd. by apply wp_ret.
Qed.

Definition new_table (tabs : list (option Z)) (i : nat) (t : Z) : list Z :=
  match tabs !! i with Some (Some _) => [] | _ => [t] end.

Lemma tables_new tabs i t o :
  tabs !! i = Some o → (∀ t', o = Some t' → t' = t) →
  tables (<[i := Some t]> tabs) ≡ₚ new_table tabs i t ++ tables tabs.
Proof.
  intros Hi Ho. unfold new_table. rewrite Hi. destruct o as [t'|].
  - rewrite (Ho t' eq_refl) in Hi. by rewrite list_insert_id.
  - by apply tables_insert.
Qed.

Lemma wp_walk_alloc l s pgdir tabs ents F va :
  vs l s pgdir tabs ents F → 0 ≤ va < 2 ^ 32 → let i := Z.to_nat (va / 4096 / 1024) in
  wp (Vm.walkpgdir pgdir va true) s (λ r s',
    (r = 0 ∧ l = [] ∧ tabs !! i = Some None ∧ vs [] s' pgdir tabs ents F ∧ Kalloc.kmem s' = Kalloc.kmem s) ∨
    ∃ t l', l = new_table tabs i t ++ l' ∧ (∀ t', tabs !! i = Some (Some t') → t' = t) ∧
      vs l' s' pgdir (<[i := Some t]> tabs) ents F ∧ r = t + 4 * (va / 4096 mod 1024) ∧ r ≠ 0 ∧
      same_but (pgdir :: new_table tabs i t) (Kalloc.kmem s) (Kalloc.kmem s')).
Proof.
  intros Hvs Hva i. destruct (vs_lookup _ _ _ _ _ _ va Hvs Hva) as [o Ho]. pose proof (vs_dir _ _ _ _ _ _ va o Hvs Hva Ho) as Hd.
  fold i in Ho. destruct (vs_own _ _ _ _ _ _ Hvs) as (Hnd & Hpg & Hnl). destruct (walk_index va Hva) as (_ & Hi & HP).
  unfold Vm.walkpgdir, Vm.getmem. apply wp_bind, wp_gets. destruct o as [t|].
  { destruct Hd as [-> ->]. apply wp_ret. right. exists t, l. unfold new_table. rewrite Ho. rewrite list_insert_id by done.
    split; [done|]. split; [by intros t' [= ->]|]. split; [done|]. rewrite PTX_spec. split; [done|]. split; [|apply same_but_refl].
    assert (page t) as Ht by (apply Hpg; right; apply elem_tables; by eexists). apply page_high in Ht.
    pose proof (Z.mod_pos_bound (va / 4096) 1024). unfold KERNBASE in *. lia. }
  rewrite Hd. simpl. apply wp_bind. eapply wp_mono; [apply wp_kalloc_ready, Hvs|]. intros t s1 [Hm1 Hl]. destruct l as [|t' l].
  { destruct Hl as [-> Hr]. rewrite bool_decide_eq_true_2 by done. apply wp_ret. left. split; [done|]. split; [done|]. split; [done|].
    split; [|done]. destruct Hvs as [_ H2 H3 H4]. split; [done|by rewrite Hm1|done|done]. }
  destruct Hl as (-> & Hr & Hpt & Htl & Ht0). rewrite bool_decide_eq_false_2 by done.
  assert (t' ∉ pgdir :: tables tabs) as Htn by (intros Hin; apply (Hnl t' Hin); left).
  assert (page pgdir) as Hpd by (apply Hpg; left).
  apply wp_bind. eapply (wp_setmem l _ _ [t']); [done|by apply memset_ok, Hr; unfold PGSIZE|apply same_memset|intros p ->%list_elem_of_singleton; done|].
  intros s2 Hr2 Hm2. apply wp_bind.
  eapply (wp_setmem l _ _ [pgdir]); [done|by apply store32_ok, Hr2| | |].
  { apply same_store32; unfold Kalloc.in_page, PGSIZE; rewrite HP; lia. }
  { intros p ->%list_elem_of_singleton. split; [done|]. intros Hin. apply (Hnl pgdir); [left|by right]. }
  intros s3 Hr3 Hm3. apply wp_ret. right. exists t', l. unfold new_table. rewrite Ho. split; [done|]. split; [by intros ? [= ?]|].
  rewrite PTX_spec. pose proof (page_high t' Hpt) as (_ & Htr & Hv2 & Hal).
  assert (Z.lor (Z.lor (Z.lor (v2p t') PTE_P) PTE_W) PTE_U = v2p t' + 7) as Hpde.
  { rewrite <-!Z.lor_assoc. apply lor_aligned; [by rewrite Hv2|unfold PTE_P, PTE_W, PTE_U; simpl; lia]. }
  rewrite Hpde in Hm3. split; [|split; [done|split; [|]]].
  - split; [done| | |].
    + rewrite Hm3, Hm2, Hm1, HP. replace (va / 4096 / 1024) with (Z.of_nat i) by lia. apply pt_table; [apply Hvs|done| |].
      * by apply list.NoDup_cons.
      * intros p [->|Hp]%elem_of_cons; [done|by apply Hpg].
    + pose proof (vs_nodup _ _ _ _ _ _ Hvs) as HN. rewrite tables_insert by done. simpl in HN |- *.
      by rewrite (perm_swap t' pgdir), <-Permutation_middle.
    + intros p Hp. rewrite tables_insert in Hp by done. apply elem_of_cons in Hp as [->|Hp]; [done|].
      apply elem_of_app in Hp as [Hp|Hp]; [apply elem_of_cons in Hp as [->|Hp]; [done|]|].
      * apply Hpg. by right.
      * apply (vs_page _ _ _ _ _ _ Hvs). right. apply elem_of_app. by right.
  - pose proof (Z.mod_pos_bound (va / 4096) 1024). unfold KERNBASE in *. lia.
  - intros x Hx. rewrite Hm3, Hm2, Hm1. rewrite store32_ne, memset_out; [done| |].
    + apply Hx. right. left.
    + specialize (Hx pgdir ltac:(left)). rewrite HP. unfold Kalloc.in_page, PGSIZE in Hx. lia.
Qed.

(** ** mappages *)

Lemma pt_ext m pgdir tabs ents ents' : (∀ v, 0 ≤ v < 2 ^ 20 → ents' v = ents v) → pt m pgdir tabs ents → pt m pgdir tabs ents'.
Proof.
  intros He [H1 H2 H3]. split; [done|done|]. intros v o Hv Ho. specialize (H3 v o Hv Ho). by rewrite (He v Hv).
Qed.

Lemma vs_ext l s pgdir tabs ents ents' F :
  (∀ v, 0 ≤ v < 2 ^ 20 → ents' v = ents v) → vs l s pgdir tabs ents F → vs l s pgdir tabs ents' F.
Proof. intros He [H1 H2 H3 H4]. split; try done. by eapply pt_ext. Qed.

Lemma vs_table l s pgdir tabs ents F i t : vs l s pgdir tabs ents F → tabs !! i = Some (Some t) → page t ∧ (t ∉ l) ∧ t ∈ pgdir :: tables tabs.
Proof.
  intros Hvs Ht. destruct (vs_own _ _ _ _ _ _ Hvs) as (_ & Hpg & Hnl).
  assert (t ∈ pgdir :: tables tabs) by (right; apply elem_tables; by eexists). auto.
Qed.

(** Writing the entry of page [v]. *)
Lemma wp_set_entry l s pgdir tabs ents F v t w (f : mem → mem) (Q : unit → Kalloc.st → Prop) :
  vs l s pgdir tabs ents F → 0 ≤ v < 2 ^ 20 → tabs !! Z.to_nat (v / 1024) = Some (Some t) → 0 ≤ w < 2 ^ 32 →
  f (Kalloc.kmem s) = store32 (Kalloc.kmem s) (t + 4 * (v mod 1024)) w →
  (∀ s', vs l s' pgdir tabs (upd ents v w) F → same_but [t] (Kalloc.kmem s) (Kalloc.kmem s') → Q tt s') →
  wp (Vm.setmem f) s Q.
Proof.
  intros Hvs Hv Ht Hw Hf HQ. destruct (vs_table _ _ _ _ _ _ _ _ Hvs Ht) as (Hpt & Htl & _).
  destruct (vs_own _ _ _ _ _ _ Hvs) as (Hnd & Hpg & _). pose proof (Z.mod_pos_bound v 1024 ltac:(lia)) as Hvm.
  assert (same_but [t] (Kalloc.kmem s) (f (Kalloc.kmem s))) as Hs.
  { rewrite Hf. apply same_store32; unfold Kalloc.in_page, PGSIZE; lia. }
  eapply (wp_setmem l _ _ [t]); [apply Hvs|rewrite Hf; apply store32_ok, Hvs|done|by intros p ->%list_elem_of_singleton|].
  intros s' Hr Hm. apply HQ; [|by rewrite Hm]. destruct Hvs as [H1 H2 H3 H4]. split; [done| |done|done].
  rewrite Hm, Hf, <-(u32_small w) at 1 by done. replace (upd ents v w) with (upd ents v (u32 w)) by (by rewrite u32_small).
  rewrite (u32_small w Hw) at 1. by apply pt_set.
Qed.

(** One round of the loop. *)
Lemma wp_map_step fuel l s pgdir tabs ents F v last pa perm (Q : Z → Kalloc.st → Prop) :
  vs l s pgdir tabs ents F → 0 ≤ v < 2 ^ 20 → 0 ≤ pa < 2 ^ 32 → pa mod 4096 = 0 → 0 ≤ perm < 4096 → has (ents v) PTE_P = false →
  let i := Z.to_nat (v / 1024) in
  (∀ s', l = [] → tabs !! i = Some None → vs [] s' pgdir tabs ents F → Kalloc.kmem s' = Kalloc.kmem s → Q (-1) s') →
  (∀ t l' s', l = new_table tabs i t ++ l' → (∀ t', tabs !! i = Some (Some t') → t' = t) →
     vs l' s' pgdir (<[i := Some t]> tabs) (upd ents v (pa + Z.lor perm 1)) F →
     same_but (pgdir :: [t]) (Kalloc.kmem s) (Kalloc.kmem s') →
     wp (if bool_decide (4096 * v = last) then kret 0
         else Vm.mappages_loop fuel pgdir (u32 (4096 * v + PGSIZE)) last (u32 (pa + PGSIZE)) perm) s' Q) →
  wp (Vm.mappages_loop (S fuel) pgdir (4096 * v) last pa perm) s Q.
Proof.
  intros Hvs Hv Hpa Hal Hperm Hnone i Hfail Hok. cbn [Vm.mappages_loop].
  assert (4096 * v / 4096 = v) as Hdv by (rewrite Z.mul_comm; apply Z.div_mul; lia).
  assert (pa + Z.lor perm 1 < 2 ^ 32) as Hw.
  { pose proof (lor_small perm 1 Hperm ltac:(lia)). apply Z.div_exact in Hal; [|lia].
    assert (pa / 4096 < 2 ^ 20) by (apply Z.div_lt_upper_bound; lia). lia. }
  apply wp_bind. eapply wp_mono; [by apply (wp_walk_alloc l s pgdir tabs ents F); [|lia]|]. rewrite Hdv. fold i.
  intros r s1 [(-> & Hl & Hn & Hvs1 & Hm1)|(t & l' & Hl & Hsame & Hvs1 & -> & Hr0 & Hs1)].
  - rewrite bool_decide_eq_true_2 by done. apply wp_ret. by apply Hfail.
  - rewrite bool_decide_eq_false_2 by done.
    assert (<[i := Some t]> tabs !! i = Some (Some t)) as Hit.
    { apply list_lookup_insert_eq. destruct (vs_lookup _ _ _ _ _ _ (4096 * v) Hvs ltac:(lia)) as [o Ho]. rewrite Hdv in Ho.
      by eapply lookup_lt_Some. }
    apply wp_bind, wp_gets, wp_bind, wp_assert.
    { by rewrite (pt_ent _ _ _ _ (vs_pt _ _ _ _ _ _ Hvs1) v (Some t) Hv Hit), Hnone. }
    apply wp_bind. eapply (wp_set_entry _ _ _ _ _ _ v t (pa + Z.lor perm 1)); [done|done|done| |by rewrite make_pte|].
    { pose proof (lor_small perm 1 Hperm ltac:(lia)). lia. }
    intros s2 Hvs2 Hs2. eapply Hok; [done|done|done|]. eapply same_but_mono; [|by eapply same_but_trans].
    intros p Hp. apply elem_of_app in Hp as [[->|Hp]%elem_of_cons| ->%list_elem_of_singleton]; [left| |by right; left].
    right. revert Hp. unfold new_table. destruct (tabs !! i) as [[?|]|]; [by intros ?%not_elem_of_nil|done|done].
Qed.

Definition hastab (tabs : list (option Z)) (i : nat) : bool := match tabs !! i with Some (Some _) => true | _ => false end.

(** Tables that mapping [n] pages from [v] on allocates, where those of [h] are there. *)
Fixpoint need (h : nat → bool) (v : Z) (n : nat) : nat :=
  match n with
  | O => O
  | S n => if h (Z.to_nat (v / 1024)) then need h (v + 1) n else S (need (upd h (Z.to_nat (v / 1024)) true) (v + 1) n)
  end.

Lemma need_S n h v :
  need h v (S n) = if h (Z.to_nat (v / 1024)) then need h (v + 1) n else S (need (upd h (Z.to_nat (v / 1024)) true) (v + 1) n).
Proof. done. Qed.

Lemma need_ext n : ∀ h h' v, (∀ i, h i = h' i) → need h v n = need h' v n.
Proof.
  induction n as [|n IH]; intros h h' v Hh; simpl; [done|]. rewrite <-Hh. destruct (h _); [by apply IH|]. f_equal. apply IH.
  intros i. unfold upd. case_decide; [done|apply Hh].
Qed.

Lemma hastab_insert tabs i t j : (i < length tabs)%nat → hastab (<[i := Some t]> tabs) j = upd (hastab tabs) i true j.
Proof.
  intros Hi. unfold hastab, upd. case_decide as Hj; [subst; by rewrite list_lookup_insert_eq|by rewrite list_lookup_insert_ne].
Qed.

Lemma upd_same_h (h : nat → bool) i j : h i = true → upd h i true j = h j.
Proof. intros Hi. unfold upd. by case_decide; subst. Qed.

Lemma length_new_table tabs i t n v :
  i = Z.to_nat (v / 1024) → (i < length tabs)%nat → (∀ t', tabs !! i = Some (Some t') → t' = t) →
  (length (new_table tabs i t) + need (hastab (<[i := Some t]> tabs)) (v + 1) n = need (hastab tabs) v (S n))%nat.
Proof.
  intros -> Hlt Hsame. set (i := Z.to_nat (v / 1024)) in *. rewrite need_S. fold i. unfold new_table.
  destruct (hastab tabs i) eqn:Hti; unfold hastab in Hti;
    destruct (tabs !! i) as [[t'|]|] eqn:Hti'; try discriminate; try (apply lookup_ge_None in Hti'; lia).
  - rewrite (Hsame t' eq_refl) in Hti'. by rewrite list_insert_id.
  - rewrite (need_ext n (hastab (<[i := Some t]> tabs)) (upd (hastab tabs) i true)); [done|]. intros j. by apply hastab_insert.
Qed.

(** One table for each directory entry the range touches. *)
Lemma need_le n : ∀ h v, 0 ≤ v →
  Z.of_nat (need h v (S n)) ≤ (v + Z.of_nat n) / 1024 - v / 1024 + (if h (Z.to_nat (v / 1024)) then 0 else 1).
Proof.
  induction n as [|n IH]; intros h v Hv.
  { simpl. rewrite Z.add_0_r. destruct (h _); lia. }
  assert (∀ h', h' (Z.to_nat (v / 1024)) = true → Z.of_nat (need h' (v + 1) (S n)) ≤ (v + Z.of_nat (S n)) / 1024 - v / 1024) as H.
  { intros h' Hh'. specialize (IH h' (v + 1) ltac:(lia)). replace (v + 1 + Z.of_nat n) with (v + Z.of_nat (S n)) in IH by lia.
    pose proof (Z.div_mod v 1024). pose proof (Z.mod_pos_bound v 1024). pose proof (Z.div_mod (v + 1) 1024).
    pose proof (Z.mod_pos_bound (v + 1) 1024). assert ((v + 1) / 1024 = v / 1024 ∨ (v + 1) / 1024 = v / 1024 + 1) as [He|He] by lia.
    - rewrite He, Hh' in IH. lia.
    - destruct (h' _) in IH; lia. }
  cbn [need]. destruct (h _) eqn:Hh; [specialize (H h Hh)|specialize (H (upd h (Z.to_nat (v / 1024)) true) (upd_eq _ _ _))];
    cbn [need] in H; lia.
Qed.

Definition mapped (ents : Z → Z) (v n pa f : Z) : Z → Z :=
  λ x, if decide (v ≤ x < v + n) then pa + 4096 * (x - v) + f else ents x.

Lemma mapped_shift ents v n pa f x : 0 ≤ n →
  mapped (upd ents v (pa + f)) (v + 1) n (pa + 4096) f x = mapped ents v (n + 1) pa f x.
Proof.
  intros Hn. unfold mapped. destruct (decide (x = v)) as [->|Hne].
  - rewrite decide_False, decide_True, upd_eq by lia. lia.
  - rewrite upd_ne by done. repeat case_decide; lia || done.
Qed.

Lemma wp_mappages_loop n : ∀ fuel l s pgdir tabs ents F v pa perm,
  (n < fuel)%nat → vs l s pgdir tabs ents F → 0 ≤ v → v + Z.of_nat n < 2 ^ 20 →
  0 ≤ pa → pa mod 4096 = 0 → pa + 4096 * Z.of_nat n < 2 ^ 32 → 0 ≤ perm < 4096 →
  (∀ x, v ≤ x ≤ v + Z.of_nat n → has (ents x) PTE_P = false) →
  wp (Vm.mappages_loop fuel pgdir (4096 * v) (4096 * (v + Z.of_nat n)) pa perm) s (λ r s',
    ∃ k l' new tabs', l = new ++ l' ∧ vs l' s' pgdir tabs' (mapped ents v k pa (Z.lor perm 1)) F ∧
      tables tabs' ≡ₚ new ++ tables tabs ∧ same_but (pgdir :: tables tabs') (Kalloc.kmem s) (Kalloc.kmem s') ∧
      (length new ≤ need (hastab tabs) v (S n))%nat ∧
      (r = 0 ∧ k = Z.of_nat n + 1 ∨
       r = -1 ∧ 0 ≤ k ≤ Z.of_nat n ∧ l' = [] ∧ (length l < need (hastab tabs) v (S n))%nat)).
Proof.
  induction n as [|n IH]; intros [|fuel] l s pgdir tabs ents F v pa perm Hfuel Hvs Hv Hvn Hpa Hal Hpan Hperm Hnone; try lia.
  all: pose proof (pt_len _ _ _ _ (vs_pt _ _ _ _ _ _ Hvs)) as Hlen.
  all: assert (Z.to_nat (v / 1024) < length tabs)%nat as Hilt
    by (rewrite Hlen; assert (v / 1024 < 1024) by (apply Z.div_lt_upper_bound; lia); lia).
  all: eapply wp_map_step; [done|lia|lia|done|done|apply Hnone; lia| |].
  1, 3: intros s' -> Hi Hvs' Hm; exists 0, [], [], tabs; split; [done|]; split;
    [eapply vs_ext; [|exact Hvs']; intros x _; unfold mapped; by rewrite decide_False by lia|];
    split; [done|]; split; [rewrite Hm; apply same_but_refl|]; split; [simpl; lia|]; right;
    split; [done|]; split; [lia|]; split; [done|]; unfold hastab at 1; cbn [need length]; rewrite Hi; simpl; lia.
  - intros t l' s' Hl Hsame Hvs' Hs'. rewrite bool_decide_eq_true_2 by lia. apply wp_ret.
    exists 1, l', (new_table tabs (Z.to_nat (v / 1024)) t), (<[Z.to_nat (v / 1024) := Some t]> tabs).
    split; [done|]. split; [|split; [|split; [|split; [|by left]]]].
    + eapply vs_ext; [|exact Hvs']. intros x _. unfold mapped, upd. repeat case_decide; try lia.
    + destruct (lookup_lt_is_Some_2 _ _ Hilt) as [o Ho]. eapply tables_new; [done|]. intros t' ->. by apply Hsame.
    + eapply same_but_mono; [|exact Hs']. intros p [->|Hp]%elem_of_cons; [left|]. apply list_elem_of_singleton in Hp as ->.
      right. apply elem_tables. eexists. by apply list_lookup_insert_eq.
    + cbn [need]. unfold new_table, hastab. destruct (tabs !! _) as [[?|]|]; simpl; lia.
  - intros t l' s' Hl Hsame Hvs' Hs'. rewrite bool_decide_eq_false_2 by lia.
    rewrite !u32_small by (unfold PGSIZE; lia). replace (4096 * v + PGSIZE) with (4096 * (v + 1)) by (unfold PGSIZE; lia).
    replace (v + Z.of_nat (S n)) with (v + 1 + Z.of_nat n) by lia.
    set (i := Z.to_nat (v / 1024)) in *. set (tabs1 := <[i := Some t]> tabs) in *.
    assert (tables tabs1 ≡ₚ new_table tabs i t ++ tables tabs) as Htb.
    { destruct (lookup_lt_is_Some_2 _ _ Hilt) as [o Ho]. eapply tables_new; [done|]. intros t' ->. by apply Hsame. }
    assert (length (new_table tabs i t) + need (hastab tabs1) (v + 1) (S n) = need (hastab tabs) v (S (S n)))%nat as Hneed.
    { by apply length_new_table. }
    eapply wp_mono; [apply (IH fuel l' s' pgdir tabs1 (upd ents v (pa + Z.lor perm 1)) F (v + 1)); try done; unfold PGSIZE; try lia|].
    { rewrite Zplus_mod, Hal. done. }
    { intros x Hx. rewrite upd_ne by lia. apply Hnone. lia. }
    intros r s2 (k & l2 & new & tabs2 & Hl2 & Hvs2 & Htb2 & Hs2 & Hnew & Hr).
    assert (0 ≤ k) as Hk by lia.
    exists (k + 1), l2, (new_table tabs i t ++ new), tabs2. split; [by rewrite Hl, Hl2, app_assoc|].
    split; [|split; [|split; [|split]]].
    + eapply vs_ext; [|exact Hvs2]. intros x _. symmetry. by apply mapped_shift.
    + by rewrite Htb2, Htb, !app_assoc, (Permutation_app_comm new).
    + eapply same_but_mono; [|by eapply same_but_trans]. intros p Hp.
      assert (t ∈ tables tabs2) as Htin.
      { rewrite Htb2. apply elem_of_app. right. apply elem_tables. exists i. by apply list_lookup_insert_eq. }
      apply elem_of_app in Hp as [[->|Hp]%elem_of_cons|Hp]; [left| |done]. apply list_elem_of_singleton in Hp as ->. by right.
    + rewrite length_app. lia.
    + destruct Hr as [[-> ->]|(-> & Hk' & -> & Hlt)]; [left; split; [done|lia]|]. right. split; [done|]. split; [lia|].
      split; [done|]. rewrite Hl, length_app. lia.
Qed.

Lemma wp_mappages l s pgdir tabs ents F v n pa perm :
  vs l s pgdir tabs ents F → 0 ≤ v → v + Z.of_nat n < 2 ^ 20 →
  0 ≤ pa → pa mod 4096 = 0 → pa + 4096 * Z.of_nat n < 2 ^ 32 → 0 ≤ perm < 4096 →
  (∀ x, v ≤ x ≤ v + Z.of_nat n → has (ents x) PTE_P = false) →
  wp (Vm.mappages pgdir (4096 * v) (4096 * (Z.of_nat n + 1)) pa perm) s (λ r s',
    ∃ k l' new tabs', l = new ++ l' ∧ vs l' s' pgdir tabs' (mapped ents v k pa (Z.lor perm 1)) F ∧
      tables tabs' ≡ₚ new ++ tables tabs ∧ same_but (pgdir :: tables tabs') (Kalloc.kmem s) (Kalloc.kmem s') ∧
      (length new ≤ need (hastab tabs) v (S n))%nat ∧
      (r = 0 ∧ k = Z.of_nat n + 1 ∨
       r = -1 ∧ 0 ≤ k ≤ Z.of_nat n ∧ l' = [] ∧ (length l < need (hastab tabs) v (S n))%nat)).
Proof.
  intros Hvs Hv Hvn Hpa Hal Hpan Hperm Hnone. unfold Vm.mappages.
  assert (PGROUNDDOWN (4096 * v) = 4096 * v) as ->.
  { rewrite PGROUNDDOWN_spec. rewrite (Z.mul_comm 4096 v), Z.div_mul by lia. done. }
  assert (PGROUNDDOWN (u32 (4096 * v + 4096 * (Z.of_nat n + 1) - 1)) = 4096 * (v + Z.of_nat n)) as ->.
  { rewrite u32_small, PGROUNDDOWN_spec by lia.
    replace (4096 * v + 4096 * (Z.of_nat n + 1) - 1) with (4095 + (v + Z.of_nat n) * 4096) by lia.
    rewrite Z.div_add by lia. change (4095 / 4096) with 0. lia. }
  replace (u32 (4096 * (v + Z.of_nat n) - 4096 * v) / PGSIZE) with (Z.of_nat n).
  - by apply wp_mappages_loop; [lia|..].
  - replace (4096 * (v + Z.of_nat n) - 4096 * v) with (Z.of_nat n * 4096) by lia. rewrite u32_small by lia.
    unfold PGSIZE. by rewrite Z.div_mul.
Qed.

(** ** setupkvm *)

(** The pages of a line of [kmap], and the directory entries they touch at most. *)
Definition ksize (k : Vm.kmap_entry) : Z := u32 (Vm.phys_end k - Vm.phys_start k).
Definition kcost (k : Vm.kmap_entry) : nat := Z.to_nat (ksize k / 4096 / 1024 + 2).
Definition kline (ents : Z → Z) (k : Vm.kmap_entry) : Z → Z :=
  mapped ents (Vm.virt k / 4096) (ksize k / 4096) (Vm.phys_start k) (Z.lor (Vm.perm k) 1).

Fixpoint kmap_ok (ents : Z → Z) (ks : list Vm.kmap_entry) : Prop :=
  match ks with
  | [] => True
  | k :: ks =>
    (0 ≤ Vm.virt k ∧ Vm.virt k mod 4096 = 0 ∧ 0 < ksize k ∧ ksize k mod 4096 = 0 ∧ Vm.virt k + ksize k ≤ 2 ^ 32 ∧
     0 ≤ Vm.phys_start k ∧ Vm.phys_start k mod 4096 = 0 ∧ Vm.phys_start k + ksize k ≤ 2 ^ 32 ∧ 0 ≤ Vm.perm k < 4096) ∧
    (∀ x, Vm.virt k / 4096 ≤ x < (Vm.virt k + ksize k) / 4096 → has (ents x) PTE_P = false) ∧
    kmap_ok (kline ents k) ks
  end.

Lemma need_cost h v n : 0 ≤ v → (need h v (S n) ≤ Z.to_nat ((Z.of_nat n + 1) / 1024 + 2))%nat.
Proof.
  intros Hv. pose proof (need_le n h v Hv) as Hn.
  pose proof (Z.div_mod v 1024). pose proof (Z.mod_pos_bound v 1024). pose proof (Z.div_mod (v + Z.of_nat n) 1024).
  pose proof (Z.mod_pos_bound (v + Z.of_nat n) 1024). pose proof (Z.div_mod (Z.of_nat n + 1) 1024).
  pose proof (Z.mod_pos_bound (Z.of_nat n + 1) 1024). destruct (h _) in Hn; lia.
Qed.

Lemma wp_map_all ks : ∀ l s pgdir tabs ents F,
  vs l s pgdir tabs ents F → pgdir ≠ 0 → kmap_ok ents ks →
  wp (Vm.map_all pgdir ks) s (λ r s', ∃ l' new tabs' ents', l = new ++ l' ∧ vs l' s' pgdir tabs' ents' F ∧
    tables tabs' ≡ₚ new ++ tables tabs ∧ same_but (pgdir :: tables tabs') (Kalloc.kmem s) (Kalloc.kmem s') ∧
    (r = pgdir ∧ ents' = foldl kline ents ks ∧ (length new ≤ sum_list_with kcost ks)%nat ∨
     r = 0 ∧ l' = [] ∧ (length l < sum_list_with kcost ks)%nat)).
Proof.
  induction ks as [|k ks IH]; intros l s pgdir tabs ents F Hvs Hp0 Hok; cbn [Vm.map_all].
  { apply wp_ret. exists l, [], tabs, ents. split; [done|]. split; [done|]. split; [done|]. split; [apply same_but_refl|by left]. }
  destruct Hok as ((Hv0 & Hval & Hs0 & Hsal & Hv & Hp & Hpal & Hps & Hperm) & Hnone & Hok). fold (ksize k).
  set (n := Z.to_nat (ksize k / 4096 - 1)). set (v := Vm.virt k / 4096).
  pose proof (aligned_div _ Hsal) as Hsz. pose proof (aligned_div _ Hval) as Hvt. fold v in Hvt.
  assert (0 < ksize k / 4096) by lia. assert (0 ≤ v) by (apply Z.div_pos; lia).
  assert (Z.of_nat n + 1 = ksize k / 4096) as Hn by lia.
  assert ((Vm.virt k + ksize k) / 4096 = v + Z.of_nat n + 1) as Hend.
  { rewrite <-Hvt, <-Hsz. replace (v * 4096 + ksize k / 4096 * 4096) with ((v + Z.of_nat n + 1) * 4096) by lia. apply Z.div_mul. lia. }
  replace (Vm.virt k) with (4096 * v) by lia. replace (ksize k) with (4096 * (Z.of_nat n + 1)) by lia.
  apply wp_bind. eapply wp_mono; [apply (wp_mappages l s pgdir tabs ents F v n); try done; try lia|].
  { intros x Hx. apply Hnone. rewrite Hend. fold v. lia. }
  intros r s1 (kk & l1 & new & tabs1 & Hl & Hvs1 & Htb & Hs1 & Hnew & Hr).
  assert (need (hastab tabs) v (S n) ≤ kcost k)%nat as Hcost by (unfold kcost; rewrite <-Hn; by apply need_cost).
  destruct Hr as [[-> ->]|(-> & _ & -> & Hlt)].
  - rewrite bool_decide_eq_false_2 by lia.
    assert (mapped ents v (Z.of_nat n + 1) (Vm.phys_start k) (Z.lor (Vm.perm k) 1) = kline ents k) as Hkl by (unfold kline; by rewrite Hn).
    rewrite Hkl in Hvs1. eapply wp_mono; [by apply (IH l1 s1 pgdir tabs1 (kline ents k) F)|].
    intros r s2 (l2 & new2 & tabs2 & ents2 & Hl2 & Hvs2 & Htb2 & Hs2 & Hr).
    exists l2, (new ++ new2), tabs2, ents2. split; [by rewrite Hl, Hl2, app_assoc|]. split; [done|].
    split; [by rewrite Htb2, Htb, !app_assoc, (Permutation_app_comm new2)|]. split.
    + eapply same_but_mono; [|by eapply same_but_trans]. intros p Hp1.
      apply elem_of_app in Hp1 as [[->|Hp1]%elem_of_cons|Hp1]; [left| |done]. right. rewrite Htb2. apply elem_of_app. by right.
    + destruct Hr as [(-> & -> & Hle)|(-> & -> & Hlt)]; [left; split; [done|]; split; [done|]; rewrite length_app; simpl; lia|].
      right. split; [done|]. split; [done|]. simpl. rewrite Hl, length_app. lia.
  - rewrite bool_decide_eq_true_2 by lia. apply wp_ret. exists [], new, tabs1. eexists. split; [done|]. split; [exact Hvs1|].
    split; [done|]. split; [done|]. right. split; [done|]. split; [done|]. simpl. lia.
Qed.

(** The linker script aligns [data], which comes after the kernel's text. *)
Context (Hdata : kdata mod 4096 = 0 ∧ KERNLINK < kdata < KERNBASE + PHYSTOP).

(** The kernel half of every page table. *)
Definition kents : Z → Z := foldl kline (λ _, 0) (Vm.kmap kdata).

Lemma kmap_lines : ksize (Vm.Kmap KERNBASE 0 EXTMEM PTE_W) = EXTMEM ∧
  ksize (Vm.Kmap KERNLINK (v2p KERNLINK) (v2p kdata) 0) = kdata - KERNLINK ∧
  ksize (Vm.Kmap kdata (v2p kdata) PHYSTOP PTE_W) = KERNBASE + PHYSTOP - kdata ∧
  ksize (Vm.Kmap DEVSPACE DEVSPACE 0 PTE_W) = 2 ^ 32 - DEVSPACE ∧ v2p kdata = kdata - KERNBASE.
Proof.
  destruct Hdata as [Hal Hr]. unfold ksize. cbn [Vm.phys_end Vm.phys_start].
  assert (v2p kdata = kdata - KERNBASE) as Hv by (unfold v2p; rewrite u32_small; unfold KERNLINK, KERNBASE, EXTMEM, PHYSTOP in *; lia).
  rewrite Hv. change (v2p KERNLINK) with EXTMEM. split; [done|].
  split; [|split; [|split; [done|done]]]; rewrite u32_small; unfold KERNLINK, KERNBASE, EXTMEM, PHYSTOP in *; lia.
Qed.

Lemma kmap_fits : kmap_ok (λ _, 0) (Vm.kmap kdata).
Proof.
  destruct kmap_lines as (Hs1 & Hs2 & Hs3 & Hs4 & Hv2). destruct Hdata as [Hal Hr].
  pose proof (aligned_div _ Hal) as Hd. set (d := kdata / 4096) in *.
  unfold Vm.kmap. cbn [kmap_ok]. unfold kline. rewrite Hs1, Hs2, Hs3, Hs4. cbn [Vm.virt Vm.phys_start Vm.perm].
  rewrite Hv2. change (v2p KERNLINK) with EXTMEM. fold d.
  assert (KERNLINK / 4096 = 524544 ∧ KERNBASE / 4096 = 524288 ∧ EXTMEM / 4096 = 256 ∧ DEVSPACE / 4096 = 1040384 ∧
    (KERNBASE + EXTMEM) / 4096 = 524544 ∧ (KERNLINK + (kdata - KERNLINK)) / 4096 = d ∧ (kdata - KERNLINK) / 4096 = d - 524544 ∧
    (kdata + (KERNBASE + PHYSTOP - kdata)) / 4096 = 581632 ∧ (KERNBASE + PHYSTOP - kdata) / 4096 = 581632 - d ∧
    (DEVSPACE + (2 ^ 32 - DEVSPACE)) / 4096 = 1048576 ∧ (kdata - KERNLINK) mod 4096 = 0 ∧
    (KERNBASE + PHYSTOP - kdata) mod 4096 = 0 ∧ (kdata - KERNBASE) mod 4096 = 0)
    as (-> & -> & -> & -> & -> & -> & -> & -> & -> & -> & M1 & M2 & M3).
  { unfold KERNLINK, KERNBASE, EXTMEM, PHYSTOP, DEVSPACE. rewrite <-Hd. split_and!; try done.
    - replace (0x80000000 + 0x100000 + (d * 4096 - (0x80000000 + 0x100000))) with (d * 4096) by lia. apply Z.div_mul. lia.
    - replace (d * 4096 - (0x80000000 + 0x100000)) with ((d - 524544) * 4096) by lia. apply Z.div_mul. lia.
    - replace (d * 4096 + (0x80000000 + 0xE000000 - d * 4096)) with (581632 * 4096) by lia. apply Z.div_mul. lia.
    - replace (0x80000000 + 0xE000000 - d * 4096) with ((581632 - d) * 4096) by lia. apply Z.div_mul. lia.
    - replace (d * 4096 - (0x80000000 + 0x100000)) with ((d - 524544) * 4096) by lia. apply Z.mod_mul. lia.
    - replace (0x80000000 + 0xE000000 - d * 4096) with ((581632 - d) * 4096) by lia. apply Z.mod_mul. lia.
    - replace (d * 4096 - 0x80000000) with ((d - 524288) * 4096) by lia. apply Z.mod_mul. lia. }
  unfold KERNLINK, KERNBASE, EXTMEM, PHYSTOP, DEVSPACE, PTE_W in *.
  split_and!; try done; try lia; intros x Hx; unfold mapped; repeat rewrite decide_False by lia; done.
Qed.

Lemma kmap_cost : (sum_list_with kcost (Vm.kmap kdata) ≤ 127)%nat.
Proof.
  destruct kmap_lines as (Hs1 & Hs2 & Hs3 & Hs4 & _). destruct Hdata as [Hal Hr].
  unfold Vm.kmap. cbn [sum_list_with]. unfold kcost. rewrite Hs1, Hs2, Hs3, Hs4.
  rewrite !Z.div_div by lia. unfold KERNLINK, KERNBASE, EXTMEM, PHYSTOP, DEVSPACE in *.
  change (4096 * 1024) with 4194304 in *.
  assert ((kdata - (0x80000000 + 0x100000)) / 4194304 < 56) by (apply Z.div_lt_upper_bound; lia).
  assert ((0x80000000 + 0xE000000 - kdata) / 4194304 < 56) by (apply Z.div_lt_upper_bound; lia).
  change (0x100000 / 4194304) with 0. change ((2 ^ 32 - 0xFE000000) / 4194304) with 8. lia.
Qed.

Lemma pt_empty m pgdir : pt (memset m pgdir 0 PGSIZE) pgdir (replicate 1024 None) (λ _, 0).
Proof.
  split; [apply length_replicate| |].
  - intros i o [-> Hi]%lookup_replicate. by rewrite load32_zero by lia.
  - intros v o Hv [-> Hi]%lookup_replicate. done.
Qed.

Lemma tables_none n : tables (replicate n None) = [].
Proof. induction n; [done|]. by simpl. Qed.

Lemma wp_setupkvm l s F :
  ready l s → NoDup (l ++ F) → (∀ p, p ∈ F → page p) →
  wp (Vm.setupkvm kdata) s (λ r s', same_but l (Kalloc.kmem s) (Kalloc.kmem s') ∧
    (r = 0 ∧ (length l < 128)%nat ∧ (∃ l', l' ⊆+ l ∧ ready l' s') ∨
     ∃ l' tabs, r ≠ 0 ∧ vs l' s' r tabs kents F ∧ l ≡ₚ r :: tables tabs ++ l' ∧ (length l ≤ 128 + length l')%nat)).
Proof.
  intros Hr Hnd HF. unfold Vm.setupkvm. apply wp_bind. eapply wp_mono; [by apply wp_kalloc_ready|].
  intros p s1 [Hm1 Hl]. destruct l as [|p' l].
  { destruct Hl as [-> Hr1]. rewrite bool_decide_eq_true_2 by done. apply wp_ret. split; [rewrite Hm1; apply same_but_refl|].
    left. split; [done|]. split; [simpl; lia|]. by exists []. }
  destruct Hl as (-> & Hr1 & Hp & Hpl & Hp0). rewrite bool_decide_eq_false_2 by done.
  apply wp_bind. eapply (wp_setmem l _ _ [p']); [done|by apply memset_ok, Hr1; unfold PGSIZE|apply same_memset|by intros q ->%list_elem_of_singleton|].
  intros s2 Hr2 Hm2. apply wp_bind, wp_assert; [done|].
  assert (vs l s2 p' (replicate 1024 None) (λ _, 0) F) as Hvs.
  { split; [done|rewrite Hm2; apply pt_empty| |].
    - rewrite tables_none. simpl. simpl in Hnd. by rewrite <-Permutation_middle.
    - rewrite tables_none. intros q [->|Hq]%elem_of_cons; [done|by apply HF]. }
  eapply wp_mono; [apply (wp_map_all _ _ _ _ _ _ _ Hvs Hp0 kmap_fits)|].
  intros r s3 (l3 & new & tabs & ents & Hl & Hvs3 & Htb & Hs3 & Hres). rewrite tables_none, app_nil_r in Htb. split.
  - intros x Hx. rewrite Hs3, Hm2, memset_out, Hm1; [done| |].
    + apply Hx. left.
    + intros q [->|Hq]%elem_of_cons; apply Hx; [left|]. right. rewrite Hl. apply elem_of_app. left. by rewrite <-Htb.
  - pose proof kmap_cost. destruct Hres as [(-> & -> & Hle)|(-> & -> & Hlt)].
    + right. exists l3, tabs. split; [done|]. split; [done|]. split; [by rewrite Hl, Htb|]. rewrite Hl. simpl. rewrite length_app. lia.
    + left. split; [done|]. split; [simpl; lia|]. exists []. split; [apply submseteq_nil_l|apply Hvs3].
Qed.

(** ** The user half *)

(** The page an entry refers to, and the pages of the user half in order. *)
Definition uframe (e : Z) : option Z := if has e PTE_P then Some (p2v (PTE_ADDR e)) else None.
Definition uframes (ents : Z → Z) : list Z := omap (λ v, uframe (ents v)) (seqZ 0 (2 ^ 19)).

Lemma omap_new (f f' : Z → option Z) (l : list Z) v p :
  NoDup l → v ∈ l → f v = None → f' v = Some p → (∀ x, x ≠ v → f' x = f x) → omap f' l ≡ₚ p :: omap f l.
Proof.
  intros Hnd Hv Hf Hf' Ho. induction l as [|y l IH]; [by apply not_elem_of_nil in Hv|].
  apply list.NoDup_cons in Hnd as [Hy Hnd]. cbn [omap list_omap]. destruct (decide (y = v)) as [->|Hne].
  - rewrite Hf, Hf'. assert (omap f' l = omap f l) as ->; [|done]. clear -Ho Hy.
    induction l as [|z l IH]; [done|]. cbn [omap list_omap]. rewrite Ho by (intros ->; apply Hy; left). rewrite IH; [done|].
    intros Hin. apply Hy. by right.
  - rewrite Ho by done. apply elem_of_cons in Hv as [->|Hv]; [done|]. specialize (IH Hnd Hv).
    destruct (f y); [|done]. by rewrite IH, perm_swap.
Qed.

Lemma omap_ext_in (f f' : Z → option Z) (l : list Z) : (∀ x, x ∈ l → f' x = f x) → omap f' l = omap f l.
Proof.
  induction l as [|y l IH]; intros Hf; [done|]. cbn [omap list_omap]. rewrite Hf by left. rewrite IH; [done|]. intros x Hx. apply Hf. by right.
Qed.

#[local] Opaque seqZ.

Lemma uframes_ext ents ents' : (∀ v, 0 ≤ v < 2 ^ 20 → ents' v = ents v) → uframes ents' = uframes ents.
Proof. intros He. apply omap_ext_in. intros v Hv%elem_of_seqZ. by rewrite He by lia. Qed.

(** A page is entered, or taken out. *)
Lemma uframes_new ents v e p :
  0 ≤ v < 2 ^ 19 → uframe (ents v) = None → uframe e = Some p → uframes (upd ents v e) ≡ₚ p :: uframes ents.
Proof.
  intros Hv Hn He. apply (omap_new _ _ _ v); [apply NoDup_seqZ|apply elem_of_seqZ; lia|done|by rewrite upd_eq|].
  intros x Hx. by rewrite upd_ne.
Qed.

Lemma uframes_gone ents v p :
  0 ≤ v < 2 ^ 19 → uframe (ents v) = Some p → uframes ents ≡ₚ p :: uframes (upd ents v 0).
Proof.
  intros Hv Hn. apply (omap_new _ _ _ v); [apply NoDup_seqZ|apply elem_of_seqZ; lia|by rewrite upd_eq|done|].
  intros x Hx. by rewrite upd_ne.
Qed.

Lemma uframe_pte p f : page p → 0 ≤ f < 4096 → uframe (v2p p + Z.lor f 1) = Some p.
Proof.
  intros Hp Hf. destruct (page_high p Hp) as (_ & _ & Hv2 & Hal). unfold uframe. rewrite Hv2, has_pte, <-Hv2 by done.
  by rewrite p2v_pte by (done || by apply lor_small).
Qed.

Lemma uframes_kernel ents v e : 2 ^ 19 ≤ v → uframes (upd ents v e) = uframes ents.
Proof. intros Hv. apply omap_ext_in. intros x Hx%elem_of_seqZ. by rewrite upd_ne by lia. Qed.

Lemma elem_uframes ents v p : 0 ≤ v < 2 ^ 19 → uframe (ents v) = Some p → p ∈ uframes ents.
Proof. intros Hv Hp. apply list_elem_of_omap. exists v. split; [apply elem_of_seqZ; lia|done]. Qed.

(** The address space of a process: its page table and the pages the user half
    refers to are its own, beside the free pages and the pages [O] of others. *)
Definition space (l : list Z) (s : Kalloc.st) (pgdir : Z) (tabs : list (option Z)) (ents : Z → Z) (O : list Z) : Prop :=
  vs l s pgdir tabs ents (uframes ents ++ O).

Lemma space_ext l s pgdir tabs ents ents' O :
  (∀ v, 0 ≤ v < 2 ^ 20 → ents' v = ents v) → space l s pgdir tabs ents O → space l s pgdir tabs ents' O.
Proof. intros He Hs. unfold space. rewrite (uframes_ext ents ents') by done. by eapply vs_ext. Qed.

Lemma space_perm l s pgdir tabs ents O p l' s' ents' :
  vs l s pgdir tabs ents (p :: uframes ents' ++ O) → ready l' s' → l' ≡ₚ p :: l →
  pt (Kalloc.kmem s') pgdir tabs ents' → space l' s' pgdir tabs ents' O.
Proof.
  intros [H1 H2 H3 H4] Hr Hl Hpt. split; [done|done| |].
  - rewrite Hl. rewrite (app_comm_cons (tables tabs) _ pgdir) in H3. rewrite <-(Permutation_middle (pgdir :: tables tabs)) in H3.
    by rewrite <-Permutation_middle in H3.
  - intros q Hq. apply H4. apply elem_of_cons in Hq as [->|Hq]; [left|]. right.
    apply elem_of_app in Hq as [Hq|Hq]; apply elem_of_app; [by left|right; by right].
Qed.

Lemma vs_frame_perm l s pgdir tabs ents F F' : F ≡ₚ F' → vs l s pgdir tabs ents F → vs l s pgdir tabs ents F'.
Proof.
  intros HF [H1 H2 H3 H4]. split; [done|done|by rewrite <-HF|]. intros p. rewrite <-HF. apply H4.
Qed.

(** Freeing the page of a present entry and clearing the entry. *)
Lemma wp_free_entry l s pgdir tabs ents O v t p (f : mem → mem) (Q : unit → Kalloc.st → Prop) :
  space l s pgdir tabs ents O → 0 ≤ v < 2 ^ 19 → tabs !! Z.to_nat (v / 1024) = Some (Some t) → uframe (ents v) = Some p →
  (∀ m, f m = store32 m (t + 4 * (v mod 1024)) 0) →
  (∀ s', space (p :: l) s' pgdir tabs (upd ents v 0) O → same_but [p; t] (Kalloc.kmem s) (Kalloc.kmem s') → Q tt s') →
  wp (Kalloc.kfree kend p ;; Vm.setmem f)%kern s Q.
Proof.
  intros Hsp Hv Ht Hp Hf HQ. unfold space in Hsp. pose proof (uframes_gone ents v p Hv Hp) as Hg.
  apply (vs_frame_perm _ _ _ _ _ _ (p :: uframes (upd ents v 0) ++ O)) in Hsp; [|by rewrite Hg].
  destruct (vs_table _ _ _ _ _ _ _ _ Hsp Ht) as (Hpt & Htl & Hto). destruct (vs_own _ _ _ _ _ _ Hsp) as (Hnd & Hpg & Hnl).
  assert (page p) as Hpp by (apply (vs_page _ _ _ _ _ _ Hsp); right; apply elem_of_app; right; left).
  assert ((p ∉ l) ∧ p ∉ pgdir :: tables tabs) as [Hpl Hpo].
  { pose proof (vs_nodup _ _ _ _ _ _ Hsp) as HN. rewrite app_comm_cons, app_assoc in HN.
    apply list.NoDup_app in HN as (_ & HN & _). split; intros Hin; (apply (HN p); [apply elem_of_app; by (left + right)|left]). }
  apply wp_bind. eapply wp_mono; [apply wp_kfree_ready; [apply Hsp|done|done]|]. intros [] s1 [Hr1 Hs1].
  assert (pt (Kalloc.kmem s1) pgdir tabs ents) as Hpt1.
  { eapply pt_frame; [apply Hsp|]. intros q x Hq Hx. apply Hs1. intros q' ->%list_elem_of_singleton Hx'.
    eapply (pages_apart q p x x); [by apply Hpg|done|by intros ->|done|done|done]. }
  pose proof (Z.mod_pos_bound v 1024 ltac:(lia)) as Hvm.
  eapply (wp_setmem (p :: l) _ _ [t]); [done|rewrite Hf; apply store32_ok, Hr1| | |].
  { rewrite Hf. apply same_store32; unfold Kalloc.in_page, PGSIZE; lia. }
  { intros q ->%list_elem_of_singleton. split; [done|]. intros [->|Hin]%elem_of_cons; done. }
  intros s2 Hr2 Hm2. apply HQ.
  - eapply space_perm; [exact Hsp|done|done|]. rewrite Hm2, Hf. change (upd ents v 0) with (upd ents v (u32 0)).
    apply pt_set; try done. lia.
  - intros x Hx. rewrite Hm2, Hf, store32_ne, Hs1; [done| |].
    + intros q ->%list_elem_of_singleton. apply Hx. left.
    + specialize (Hx t ltac:(right; left)). unfold Kalloc.in_page, PGSIZE in Hx. lia.
Qed.

Definition cleared (ents : Z → Z) (v n : Z) : Z → Z :=
  λ x, if decide (v ≤ x < n) then (if has (ents x) PTE_P then 0 else ents x) else ents x.

Lemma has_zero : has 0 PTE_P = false.
Proof. done. Qed.

Lemma cleared_last ents v n x :
  v < n → cleared (if has (ents v) PTE_P then upd ents v 0 else ents) (v + 1) n x = cleared ents v n x.
Proof.
  intros Hv. unfold cleared. destruct (decide (x = v)) as [->|Hne].
  - rewrite decide_False, decide_True by lia. destruct (has (ents v) PTE_P); [by rewrite upd_eq|done].
  - assert ((if has (ents v) PTE_P then upd ents v 0 else ents) x = ents x) as -> by (destruct (has _ _); [by rewrite upd_ne|done]).
    repeat case_decide; done || lia.
Qed.

(** Entries below no table are not present. *)
Lemma vs_hole l s pgdir tabs ents F v : vs l s pgdir tabs ents F → 0 ≤ v < 2 ^ 20 → hastab tabs (Z.to_nat (v / 1024)) = false → ents v = 0.
Proof.
  intros Hvs Hv Ht. unfold hastab in Ht. pose proof (pt_len _ _ _ _ (vs_pt _ _ _ _ _ _ Hvs)) as Hl.
  destruct (tabs !! Z.to_nat (v / 1024)) as [[t|]|] eqn:Ho; [done| |].
  - apply (pt_ent _ _ _ _ (vs_pt _ _ _ _ _ _ Hvs) v None Hv Ho).
  - apply lookup_ge_None in Ho. assert (v / 1024 < 1024) by (apply Z.div_lt_upper_bound; lia). lia.
Qed.

Lemma space_uframe l s pgdir tabs ents O v :
  space l s pgdir tabs ents O → 0 ≤ v < 2 ^ 19 → has (ents v) PTE_P = true →
  uframe (ents v) = Some (p2v (PTE_ADDR (ents v))) ∧ page (p2v (PTE_ADDR (ents v))).
Proof.
  intros Hs Hv Hp. assert (uframe (ents v) = Some (p2v (PTE_ADDR (ents v)))) as Hu by (unfold uframe; by rewrite Hp).
  split; [done|]. apply (vs_page _ _ _ _ _ _ Hs). right. apply elem_of_app. right. apply elem_of_app. left. by eapply elem_uframes.
Qed.

(** What [deallocuvm] needs where it starts, so as to leave no page out: it
    skips 4 MB when there is no table. *)
Definition no_skip (tabs : list (option Z)) (ents : Z → Z) (v n : Z) : Prop :=
  v mod 1024 = 0 ∨ hastab tabs (Z.to_nat (v / 1024)) = true ∨ ∀ x, v ≤ x < n → has (ents x) PTE_P = false.

Lemma no_skip_next tabs ents ents' v n :
  0 ≤ v → (∀ x, v < x → ents' x = ents x) → hastab tabs (Z.to_nat (v / 1024)) = true → no_skip tabs ents' (v + 1) n.
Proof.
  intros Hv _ Ht. unfold no_skip. destruct (decide ((v + 1) mod 1024 = 0)) as [?|Hne]; [by left|]. right. left.
  replace ((v + 1) / 1024) with (v / 1024); [done|].
  pose proof (Z.div_mod v 1024). pose proof (Z.mod_pos_bound v 1024). pose proof (Z.div_mod (v + 1) 1024).
  pose proof (Z.mod_pos_bound (v + 1) 1024). lia.
Qed.

Lemma wp_deallocuvm_loop fuel : ∀ l s pgdir tabs ents O v n sz,
  space l s pgdir tabs ents O → 0 ≤ v → 0 ≤ n ≤ 2 ^ 19 → (∀ x, 4096 * x < sz ↔ x < n) → (Z.to_nat (n - v) < fuel)%nat →
  v ≤ 2 ^ 19 + 1024 → no_skip tabs ents v n →
  wp (Vm.deallocuvm_loop kend fuel pgdir (4096 * v) sz) s (λ _ s', ∃ l',
    space l' s' pgdir tabs (cleared ents v n) O ∧ l' ++ uframes (cleared ents v n) ≡ₚ l ++ uframes ents ∧ l ⊆+ l' ∧
    same_but (tables tabs ++ l') (Kalloc.kmem s) (Kalloc.kmem s')).
Proof.
  induction fuel as [|fuel IH]; intros l s pgdir tabs ents O v n sz Hsp Hv Hn Hsz Hfuel Hvmax Hskip; [lia|]. cbn [Vm.deallocuvm_loop].
  destruct (decide (v < n)) as [Hlt|Hge].
  2: { rewrite bool_decide_eq_false_2 by (rewrite Hsz; done). apply wp_ret. exists l.
       assert (∀ x, cleared ents v n x = ents x) as Hc by (intros x; unfold cleared; by rewrite decide_False by lia).
       rewrite (uframes_ext ents (cleared ents v n)) by auto. split; [eapply space_ext; [|exact Hsp]; auto|]. split; [done|]. split; [done|apply same_but_refl]. }
  rewrite bool_decide_eq_true_2 by (by apply Hsz). assert (4096 * v / 4096 = v) as Hdv by (rewrite Z.mul_comm; apply Z.div_mul; lia).
  apply wp_bind. eapply wp_mono; [apply (wp_walk l s pgdir tabs ents (uframes ents ++ O)); [exact Hsp|lia]|].
  rewrite Hdv. intros r s1 [-> ->].
  destruct (hastab tabs (Z.to_nat (v / 1024))) eqn:Hht.
  2: { assert (match tabs !! Z.to_nat (v / 1024) with Some (Some t) => t + 4 * (v mod 1024) | _ => 0 end = 0) as ->.
       { unfold hastab in Hht. by destruct (tabs !! _) as [[?|]|]. }
       rewrite bool_decide_eq_true_2 by done.
       replace (u32 (u32 (4096 * v + (NPTENTRIES - 1) * PGSIZE) + PGSIZE)) with (4096 * (v + 1024))
         by (unfold NPTENTRIES, PGSIZE; rewrite (u32_small (4096 * v + _)) by lia; rewrite u32_small by lia; lia).
       assert (∀ x, v ≤ x < v + 1024 → x < n → has (ents x) PTE_P = false) as Hgap.
       { intros x Hx Hxn. destruct Hskip as [Hm|[?|Hno]]; [|congruence|apply Hno; lia].
         assert (x / 1024 = v / 1024) as Hxd.
         { pose proof (Z.div_mod v 1024). pose proof (Z.div_mod x 1024). pose proof (Z.mod_pos_bound x 1024). lia. }
         rewrite (vs_hole _ _ _ _ _ _ x Hsp); [done|lia|by rewrite Hxd]. }
       assert (∀ x, cleared ents v n x = cleared ents (v + 1024) n x) as Hc.
       { intros x. unfold cleared. destruct (decide (v ≤ x < n)), (decide (v + 1024 ≤ x < n)); try done; try lia.
         by rewrite Hgap by lia. }
       eapply wp_mono; [apply (IH l s pgdir tabs ents O (v + 1024) n sz); try done; try lia|].
       - destruct Hskip as [Hm|[?|Hno]]; [left|congruence|right; right; intros x Hx; apply Hno; lia].
         by rewrite Zplus_mod, Hm.
       - intros _ s2 (l2 & Hsp2 & Hl2 & Hs2). exists l2. rewrite (uframes_ext (cleared ents (v + 1024) n) (cleared ents v n)) by auto.
         split; [eapply space_ext; [|exact Hsp2]; auto|]. done. }
  unfold hastab in Hht. destruct (tabs !! Z.to_nat (v / 1024)) as [[t|]|] eqn:Ht; try discriminate Hht.
  destruct (vs_table _ _ _ _ _ _ _ _ Hsp Ht) as (Hpt & _ & Hto). pose proof (page_high t Hpt) as (_ & Htr & _).
  pose proof (Z.mod_pos_bound v 1024 ltac:(lia)). rewrite bool_decide_eq_false_2 by (unfold KERNBASE in *; lia).
  apply wp_bind, wp_gets. rewrite (pt_ent _ _ _ _ (vs_pt _ _ _ _ _ _ Hsp) v (Some t) ltac:(lia) Ht).
  assert (hastab tabs (Z.to_nat (v / 1024)) = true) as Hht' by (unfold hastab; by rewrite Ht).
  apply wp_bind, wp_when; intros Hpres.
  - destruct (space_uframe _ _ _ _ _ _ v Hsp ltac:(lia) Hpres) as [Hu Hpp].
    apply wp_bind, wp_assert.
    { apply negb_true_iff, bool_decide_eq_false. intros Hz. rewrite Hz in Hpp. apply page_high in Hpp.
      change (p2v 0) with KERNBASE in Hpp. lia. }
    eapply (wp_free_entry l s pgdir tabs ents O v t _); [done|lia|done|exact Hu|done|].
    intros s2 Hsp2 Hs2. replace (u32 (4096 * v + PGSIZE)) with (4096 * (v + 1)) by (unfold PGSIZE; rewrite u32_small by lia; lia).
    set (p := p2v (PTE_ADDR (ents v))) in *.
    eapply wp_mono; [apply (IH (p :: l) s2 pgdir tabs (upd ents v 0) O (v + 1) n sz); try done; try lia|].
    { eapply (no_skip_next tabs ents); [done| |done]. intros x Hx. by rewrite upd_ne by lia. }
    intros _ s3 (l3 & Hsp3 & Hl3 & Hsub & Hs3). exists l3.
    assert (∀ x, cleared ents v n x = cleared (upd ents v 0) (v + 1) n x) as Hc.
    { intros x. rewrite <-(cleared_last ents v n x Hlt), Hpres. done. }
    rewrite (uframes_ext (cleared (upd ents v 0) (v + 1) n) (cleared ents v n)) by auto.
    split; [eapply space_ext; [|exact Hsp3]; auto|]. split; [|split].
    + rewrite Hl3. rewrite (uframes_gone ents v p) by (done || lia). by rewrite <-Permutation_middle.
    + etrans; [|exact Hsub]. by apply submseteq_cons.
    + eapply same_but_mono; [|by eapply same_but_trans]. intros q Hq. apply elem_of_app in Hq as [Hq|Hq]; [|done].
      apply elem_of_cons in Hq as [->|Hq].
      * apply elem_of_app. right. apply (elem_of_submseteq (p :: l)); [left|done].
      * apply list_elem_of_singleton in Hq as ->. apply elem_of_app. left. apply elem_tables. by eexists.
  - replace (u32 (4096 * v + PGSIZE)) with (4096 * (v + 1)) by (unfold PGSIZE; rewrite u32_small by lia; lia).
    eapply wp_mono; [apply (IH l s pgdir tabs ents O (v + 1) n sz); try done; try lia|].
    { by eapply (no_skip_next tabs ents). }
    intros _ s3 (l3 & Hsp3 & Hl3 & Hs3). exists l3.
    assert (∀ x, cleared ents v n x = cleared ents (v + 1) n x) as Hc.
    { intros x. rewrite <-(cleared_last ents v n x Hlt), Hpres. done. }
    rewrite (uframes_ext (cleared ents (v + 1) n) (cleared ents v n)) by auto.
    split; [eapply space_ext; [|exact Hsp3]; auto|]. done.
Qed.

(** Pages that cover [sz] bytes. *)
Definition up (sz : Z) : Z := (sz + 4095) / 4096.

Lemma up_spec sz x : 4096 * x < sz ↔ x < up sz.
Proof. unfold up. pose proof (Z.div_mod (sz + 4095) 4096). pose proof (Z.mod_pos_bound (sz + 4095) 4096). lia. Qed.

Lemma up_range sz : 0 ≤ sz ≤ KERNBASE → 0 ≤ up sz ≤ 2 ^ 19 ∧ up sz ≤ sz / 4096 + 1 ∧ PGROUNDUP sz = 4096 * up sz.
Proof.
  intros Hsz. unfold KERNBASE in Hsz. rewrite Kalloc.PGROUNDUP_spec by lia. unfold up.
  pose proof (Z.div_mod (sz + 4095) 4096). pose proof (Z.mod_pos_bound (sz + 4095) 4096).
  pose proof (Z.div_mod sz 4096). pose proof (Z.mod_pos_bound sz 4096). lia.
Qed.

Lemma up_mono a b : a ≤ b → up a ≤ up b.
Proof. intros. apply Z.div_le_mono; lia. Qed.

Lemma wp_deallocuvm l s pgdir tabs ents O oldsz newsz :
  space l s pgdir tabs ents O → 0 ≤ newsz < oldsz → oldsz ≤ KERNBASE → no_skip tabs ents (up newsz) (up oldsz) →
  wp (Vm.deallocuvm kend pgdir oldsz newsz) s (λ r s', r = newsz ∧ ∃ l',
    let ents' := cleared ents (up newsz) (up oldsz) in
    space l' s' pgdir tabs ents' O ∧ l' ++ uframes ents' ≡ₚ l ++ uframes ents ∧ l ⊆+ l' ∧
    same_but (tables tabs ++ l') (Kalloc.kmem s) (Kalloc.kmem s')).
Proof.
  intros Hsp Hnew Hold Hskip. unfold Vm.deallocuvm. rewrite bool_decide_eq_false_2 by lia.
  destruct (up_range newsz ltac:(lia)) as (Hn1 & Hn2 & ->). destruct (up_range oldsz ltac:(lia)) as (Ho1 & Ho2 & _).
  apply wp_bind. eapply wp_mono; [apply (wp_deallocuvm_loop _ l s pgdir tabs ents O (up newsz) (up oldsz) oldsz); try done; try lia|].
  - intros x. apply up_spec.
  - unfold PGSIZE. lia.
  - intros [] s' (l' & H). apply wp_ret. split; [done|]. by exists l'.
Qed.

Lemma uframes_cleared ents : uframes (cleared ents 0 (2 ^ 19)) = [].
Proof.
  unfold uframes. rewrite (omap_ext_in (λ _, None)).
  - induction (seqZ 0 (2 ^ 19)) as [|x xs IH]; [done|exact IH].
  - intros x Hx%elem_of_seqZ. unfold uframe, cleared. rewrite decide_True by lia. destruct (has (ents x) PTE_P) eqn:Hh; [done|by rewrite Hh].
Qed.

Lemma tables_take tabs i o : tabs !! i = Some o → tables (take (S i) tabs) = tables (take i tabs) ++ option_list o.
Proof. intros Hi. unfold tables. rewrite (take_S_r _ _ o) by done. rewrite omap_app. by destruct o. Qed.

(** The loop of [freevm] over the directory. *)
Lemma wp_free_tables l s pgdir tabs ents F :
  vs l s pgdir tabs ents F →
  wp (kfor (seqZ 0 NPDENTRIES) (λ i, m ← Vm.getmem; let e := load32 m (pgdir + 4 * i) in
        kwhen (has e PTE_P) (Kalloc.kfree kend (p2v (PTE_ADDR e))))%kern) s
     (λ _ s', ∃ l', ready l' s' ∧ l' ≡ₚ tables tabs ++ l ∧ same_but (tables tabs) (Kalloc.kmem s) (Kalloc.kmem s')).
Proof.
  intros Hvs. destruct (vs_own _ _ _ _ _ _ Hvs) as (Hnd & Hpg & Hnl). pose proof (vs_pt _ _ _ _ _ _ Hvs) as Hpt.
  pose proof (pt_len _ _ _ _ Hpt) as Hlen. apply list.NoDup_cons in Hnd as [Hpt1 Hnd].
  apply (wp_for_split (λ pre s', ∃ l', ready l' s' ∧ l' ≡ₚ tables (take (length pre) tabs) ++ l ∧
    same_but (tables tabs) (Kalloc.kmem s) (Kalloc.kmem s'))).
  - exists l. split; [apply Hvs|]. split; [done|apply same_but_refl].
  - intros pre x post s1 Hsplit (l1 & Hr1 & Hl1 & Hs1).
    assert (seqZ 0 NPDENTRIES !! length pre = Some x) as Hx by (rewrite Hsplit; by apply list_lookup_middle).
    apply lookup_seqZ in Hx as [-> Hi]. rewrite Z.add_0_l. unfold NPDENTRIES in Hi.
    destruct (lookup_lt_is_Some_2 tabs (length pre) ltac:(lia)) as [o Ho].
    rewrite length_app, Nat.add_1_r. rewrite (tables_take tabs (length pre) o Ho).
    apply wp_bind, wp_gets. cbv zeta.
    assert (load32 (Kalloc.kmem s1) (pgdir + 4 * Z.of_nat (length pre)) = load32 (Kalloc.kmem s) (pgdir + 4 * Z.of_nat (length pre))) as ->.
    { apply load32_ext. intros y Hy. apply Hs1. intros q Hq Hin.
      eapply (pages_apart pgdir q y y); [apply Hpg; left|apply Hpg; by right|by intros ->| |done|done]. unfold Kalloc.in_page, PGSIZE. lia. }
    pose proof (pt_dir _ _ _ _ Hpt _ _ Ho) as Hd. destruct o as [t|].
    + assert (t ∈ tables tabs) as Hin by (apply elem_tables; by eexists). assert (page t) as Hpgt by (apply Hpg; by right).
      rewrite Hd. destruct (page_high t Hpgt) as (_ & _ & Hv & Hal). apply wp_when; intros Hpres.
      2: { rewrite Hv in Hpres. change 7 with (Z.lor 6 1) in Hpres. by rewrite has_pte in Hpres. }
      rewrite p2v_pte by (done || lia). eapply wp_mono; [apply (wp_kfree_ready l1 t); [done|done|]|].
      { rewrite Hl1. intros [Hin'|Hin']%elem_of_app; [|apply (Hnl t); [by right|done]].
        apply elem_tables in Hin' as [j Hj]. apply lookup_take_Some in Hj as [Hj Hlt].
        assert (j = length pre) by (by eapply (NoDup_omap_inj tabs)). lia. }
      intros [] s2 [Hr2 Hs2]. exists (t :: l1). split; [done|]. split.
      * rewrite Hl1, <-app_assoc. simpl. by rewrite Permutation_middle.
      * eapply same_but_mono; [|by eapply same_but_trans]. intros q Hq.
        apply elem_of_app in Hq as [Hq|Hq]; [done|]. by apply list_elem_of_singleton in Hq as ->.
    + rewrite Hd. apply wp_ret. exists l1. simpl. by rewrite app_nil_r.
  - intros s' (l' & Hr' & Hl' & Hs'). exists l'. rewrite take_ge in Hl' by (rewrite length_seqZ, Hlen; unfold NPDENTRIES; lia). done.
Qed.

Lemma wp_freevm l s pgdir tabs ents O :
  space l s pgdir tabs ents O →
  wp (Vm.freevm kend pgdir) s (λ _ s', ∃ l', ready l' s' ∧ l' ≡ₚ l ++ pgdir :: tables tabs ++ uframes ents ∧
    same_but l' (Kalloc.kmem s) (Kalloc.kmem s')).
Proof.
  intros Hsp. destruct (vs_own _ _ _ _ _ _ Hsp) as (Hnd & Hpg & Hnl).
  assert (page pgdir) as Hpd by (apply Hpg; left). pose proof (page_high pgdir Hpd) as (_ & Hr & _).
  unfold Vm.freevm. apply wp_bind, wp_assert.
  { apply negb_true_iff, bool_decide_eq_false. unfold KERNBASE in Hr. lia. }
  apply wp_bind. eapply wp_mono; [apply (wp_deallocuvm l s pgdir tabs ents O KERNBASE 0); [done|unfold KERNBASE; lia|lia|]|].
  { left. done. }
  intros r s1 (-> & l1 & Hsp1 & Hl1 & _ & Hs1). change (up 0) with 0 in *. change (up KERNBASE) with (2 ^ 19) in *.
  rewrite uframes_cleared, app_nil_r in Hl1. unfold space in Hsp1. rewrite uframes_cleared in Hsp1.
  apply wp_bind. eapply wp_mono; [exact (wp_free_tables l1 s1 pgdir tabs _ _ Hsp1)|].
  intros _ s2 (l2 & Hr2 & Hl2 & Hs2). eapply wp_mono; [apply (wp_kfree_ready l2 pgdir); [done|done|]|].
  - rewrite Hl2. intros Hin. pose proof (vs_nodup _ _ _ _ _ _ Hsp1) as HN. rewrite <-Permutation_middle in HN.
    apply list.NoDup_cons in HN as [HN _]. apply HN. apply elem_of_app in Hin as [Hin|Hin]; apply elem_of_app; [right|by left].
    apply elem_of_app. by left.
  - intros [] s3 [Hr3 Hs3]. exists (pgdir :: l2). split; [done|]. split.
    + rewrite Hl2, Hl1. rewrite <-Permutation_middle. f_equiv. rewrite !app_assoc. f_equiv. apply Permutation_app_comm.
    + eapply same_but_mono; [|eapply same_but_trans; [exact Hs1|eapply same_but_trans; [exact Hs2|exact Hs3]]].
      intros q Hq. apply elem_of_app in Hq as [Hq|Hq]; [right; by rewrite Hl2|]. apply elem_of_app in Hq as [Hq|Hq].
      * right. rewrite Hl2. apply elem_of_app. by left.
      * apply list_elem_of_singleton in Hq as ->. left.
Qed.

(** ** Adding pages *)

(** A page that is taken from the free list, and filled. *)
Lemma vs_take p l s s' pgdir tabs ents F :
  vs (p :: l) s pgdir tabs ents F → ready l s' → Kalloc.kmem s' = Kalloc.kmem s → vs l s' pgdir tabs ents (p :: F).
Proof.
  intros [[[_ _ Hl] _ _] H2 H3 H4] Hr Hm. split; [done|by rewrite Hm| |].
  - rewrite app_comm_cons, <-(Permutation_middle (pgdir :: tables tabs)), <-Permutation_middle. done.
  - intros q Hq. apply elem_of_cons in Hq as [->|Hq]; [apply H4; left|].
    apply elem_of_app in Hq as [Hq|[->|Hq]%elem_of_cons]; [|apply Hl; left|]; apply H4; right; apply elem_of_app; auto.
Qed.

Lemma wp_fill_frame l s pgdir tabs ents p F f (Q : unit → Kalloc.st → Prop) :
  vs l s pgdir tabs ents (p :: F) → bytes_ok (f (Kalloc.kmem s)) → same_but [p] (Kalloc.kmem s) (f (Kalloc.kmem s)) →
  (∀ s', vs l s' pgdir tabs ents (p :: F) → Kalloc.kmem s' = f (Kalloc.kmem s) → Q tt s') → wp (Vm.setmem f) s Q.
Proof.
  intros Hvs Hb Hs HQ. pose proof Hvs as [H1 H2 H3 H4].
  assert (p ∈ pgdir :: tables tabs ++ p :: F) as Hin by (right; apply elem_of_app; right; left).
  assert (p ∉ l) as Hpl.
  { intros Hpl. apply list.NoDup_app in H3 as (_ & Hd & _). by apply (Hd p Hpl). }
  eapply (wp_setmem l _ _ [p]); [done|done|done|intros q ->%list_elem_of_singleton; split; [by apply H4|done]|].
  intros s' Hr Hm. apply HQ; [|done]. split; [done| |done|done]. rewrite Hm. eapply pt_frame; [done|].
  intros q x Hq Hx. apply Hs. intros q' ->%list_elem_of_singleton Hx'. destruct (vs_own _ _ _ _ _ _ Hvs) as (_ & Hpg & _).
  eapply (pages_apart q p x x); [by apply Hpg|by apply H4| |done|done|done]. intros ->.
  apply list.NoDup_app in H3 as (_ & _ & H3). rewrite app_comm_cons in H3. apply list.NoDup_app in H3 as (_ & Hd & _).
  apply (Hd p Hq). left.
Qed.

(** Entering such a page as virtual page [v]. *)
Lemma wp_map_frame l s pgdir tabs ents p O v perm :
  vs l s pgdir tabs ents (p :: uframes ents ++ O) → 0 ≤ v < 2 ^ 19 → 0 ≤ perm < 4096 → has (ents v) PTE_P = false →
  let i := Z.to_nat (v / 1024) in
  wp (Vm.mappages pgdir (4096 * v) PGSIZE (v2p p) perm) s (λ r s',
    (r = -1 ∧ l = [] ∧ hastab tabs i = false ∧ vs [] s' pgdir tabs ents (p :: uframes ents ++ O) ∧ Kalloc.kmem s' = Kalloc.kmem s) ∨
    ∃ t l', r = 0 ∧ l = new_table tabs i t ++ l' ∧ (∀ t', tabs !! i = Some (Some t') → t' = t) ∧
      space l' s' pgdir (<[i := Some t]> tabs) (upd ents v (v2p p + Z.lor perm 1)) O ∧
      same_but [pgdir; t] (Kalloc.kmem s) (Kalloc.kmem s')).
Proof.
  intros Hvs Hv Hperm Hnone i. unfold Vm.mappages.
  assert (page p) as Hp by (apply (vs_page _ _ _ _ _ _ Hvs); right; apply elem_of_app; right; left).
  pose proof (page_high p Hp) as (_ & Hpr & Hv2 & Hal).
  assert (PGROUNDDOWN (4096 * v) = 4096 * v) as ->.
  { rewrite PGROUNDDOWN_spec. rewrite (Z.mul_comm 4096 v), Z.div_mul by lia. done. }
  assert (PGROUNDDOWN (u32 (4096 * v + PGSIZE - 1)) = 4096 * v) as ->.
  { unfold PGSIZE. rewrite u32_small, PGROUNDDOWN_spec by lia. replace (4096 * v + 4096 - 1) with (4095 + v * 4096) by lia.
    rewrite Z.div_add by lia. change (4095 / 4096) with 0. lia. }
  rewrite Z.sub_diag. change (Z.to_nat (u32 0 / PGSIZE)) with 0%nat.
  eapply (wp_map_step 0 l s pgdir tabs ents); [done|lia|rewrite Hv2; unfold KERNBASE, PHYSTOP in *; lia|by rewrite Hv2|done|done| |].
  - intros s' -> Hi Hvs' Hm. left. split; [done|]. split; [done|]. split; [unfold hastab; unfold i; by rewrite Hi|done].
  - intros t l' s' Hl Hsame Hvs' Hs'. rewrite bool_decide_eq_true_2 by done. apply wp_ret. right. exists t, l'.
    split; [done|]. split; [done|]. split; [done|]. split; [|done]. eapply vs_frame_perm; [|exact Hvs'].
    rewrite (uframes_new ents v _ p); [done|done|unfold uframe; by rewrite Hnone|].
    by apply uframe_pte.
Qed.

(** Virtual pages [v, v+1, ...] are the pages [fr]. *)
Definition grown (ents : Z → Z) (v : Z) (fr : list Z) : Z → Z :=
  λ x, match (if decide (v ≤ x) then fr !! Z.to_nat (x - v) else None) with Some p => v2p p + 7 | None => ents x end.

Lemma grown_cons ents v p fr x : grown ents v (p :: fr) x = grown (upd ents v (v2p p + 7)) (v + 1) fr x.
Proof.
  unfold grown. destruct (decide (x = v)) as [->|Hne].
  - rewrite decide_True, decide_False, Z.sub_diag by lia. simpl. by rewrite upd_eq.
  - destruct (decide (v ≤ x)) as [Hle|Hle].
    + rewrite decide_True by lia. replace (Z.to_nat (x - v)) with (S (Z.to_nat (x - (v + 1)))) by lia. simpl.
      destruct (fr !! _); [done|by rewrite upd_ne].
    + rewrite decide_False by lia. by rewrite upd_ne.
Qed.

Lemma u32_next v : 0 ≤ v < 2 ^ 19 → u32 (4096 * v + PGSIZE) = 4096 * (v + 1).
Proof. intros. unfold PGSIZE. rewrite u32_small; lia. Qed.

Lemma table_index v (tabs : list (option Z)) : 0 ≤ v < 2 ^ 20 → length tabs = 1024%nat → (Z.to_nat (v / 1024) < length tabs)%nat.
Proof. intros Hv Hl. assert (v / 1024 < 1024) by (apply Z.div_lt_upper_bound; lia). lia. Qed.

(** A round of [allocuvm] that gets a page and can enter it. *)
Lemma wp_alloc_round fuel p l s pgdir tabs ents O v oldsz newsz (Q : Z → Kalloc.st → Prop) :
  space (p :: l) s pgdir tabs ents O → 0 ≤ v < up newsz → up newsz ≤ 2 ^ 19 → has (ents v) PTE_P = false →
  let i := Z.to_nat (v / 1024) in (hastab tabs i = false → l ≠ []) →
  (∀ t l' s', l = new_table tabs i t ++ l' → (∀ t', tabs !! i = Some (Some t') → t' = t) →
     space l' s' pgdir (<[i := Some t]> tabs) (upd ents v (v2p p + 7)) O →
     (∀ x, in_page p x → Kalloc.kmem s' x = 0) → same_but [p; pgdir; t] (Kalloc.kmem s) (Kalloc.kmem s') →
     wp (Vm.allocuvm_loop kend fuel pgdir (4096 * (v + 1)) oldsz newsz) s' Q) →
  wp (Vm.allocuvm_loop kend (S fuel) pgdir (4096 * v) oldsz newsz) s Q.
Proof.
  intros Hsp Hv Hup Hnone i Hl HQ. cbn [Vm.allocuvm_loop]. rewrite bool_decide_eq_true_2 by (apply up_spec; lia).
  apply wp_bind. eapply wp_mono; [apply wp_kalloc_ready, Hsp|]. intros r s1 (Hm1 & -> & Hr1 & Hp & Hpl & Hp0).
  rewrite bool_decide_eq_false_2 by done. pose proof (vs_take _ _ _ _ _ _ _ _ Hsp Hr1 Hm1) as Hvs1.
  apply wp_bind. eapply wp_fill_frame; [exact Hvs1|by apply memset_ok, Hr1; unfold PGSIZE|apply same_memset|].
  intros s2 Hvs2 Hm2. apply wp_bind.
  eapply wp_mono; [apply (wp_map_frame l s2 pgdir tabs ents p O v (Z.lor PTE_W PTE_U)); [done|lia|by change (Z.lor PTE_W PTE_U) with 6|done]|].
  change (Z.lor (Z.lor PTE_W PTE_U) 1) with 7. fold i. intros r s3 [(-> & -> & Hh & _)|(t & l' & -> & Hll & Hsame & Hsp3 & Hs3)]; [by destruct (Hl Hh)|].
  rewrite u32_next by lia. apply (HQ t l' s3); [done|done|done| |].
  - intros x Hx. rewrite Hs3, Hm2; [by apply memset_zero|].
    assert (<[i := Some t]> tabs !! i = Some (Some t)) as Hit.
    { apply list_lookup_insert_eq. apply table_index; [lia|]. apply (pt_len _ _ _ _ (vs_pt _ _ _ _ _ _ Hvs1)). }
    intros q Hq Hqx. eapply (vs_others _ _ _ _ _ _ p x Hsp3); [|exact Hx| |exact Hqx]; [|apply elem_of_app; right].
    + apply elem_of_app. left. apply (elem_uframes _ v); [lia|]. rewrite upd_eq. by apply (uframe_pte p 6).
    + apply elem_of_cons in Hq as [->|Hq]; [left|]. apply list_elem_of_singleton in Hq as ->. right. apply elem_tables. by eexists.
  - intros x Hx. rewrite Hs3, Hm2, memset_out, Hm1; [done| |].
    + apply Hx. left.
    + intros q Hq. apply Hx. by right.
Qed.

Lemma wp_allocuvm_loop n : ∀ fuel l s pgdir tabs ents O v oldsz newsz,
  space l s pgdir tabs ents O → 0 ≤ v → v + Z.of_nat n = up newsz → up newsz ≤ 2 ^ 19 → (n < fuel)%nat →
  (∀ x, v ≤ x < up newsz → has (ents x) PTE_P = false) → (n + need (hastab tabs) v n ≤ length l)%nat →
  wp (Vm.allocuvm_loop kend fuel pgdir (4096 * v) oldsz newsz) s (λ r s', r = newsz ∧ ∃ fr new l' tabs',
    length fr = n ∧ (length new ≤ n)%nat ∧ l ≡ₚ fr ++ new ++ l' ∧ tables tabs' ≡ₚ new ++ tables tabs ∧ space l' s' pgdir tabs' (grown ents v fr) O ∧
    (∀ p x, p ∈ fr → in_page p x → Kalloc.kmem s' x = 0) ∧
    same_but (l ++ pgdir :: tables tabs) (Kalloc.kmem s) (Kalloc.kmem s')).
Proof.
  induction n as [|n IH]; intros [|fuel] l s pgdir tabs ents O v oldsz newsz Hsp Hv Hvn Hup Hfuel Hnone Hlen; try lia.
  { cbn [Vm.allocuvm_loop]. rewrite bool_decide_eq_false_2 by (rewrite up_spec; lia). apply wp_ret. split; [done|].
    exists [], [], l, tabs. split; [done|]. split; [done|]. split; [done|]. split; [done|]. split.
    - eapply space_ext; [|exact Hsp]. intros x _. unfold grown. by case_decide.
    - split; [by intros p x ?%not_elem_of_nil|apply same_but_refl]. }
  destruct l as [|p l]; [simpl in Hlen; lia|]. pose proof (pt_len _ _ _ _ (vs_pt _ _ _ _ _ _ Hsp)) as Htl.
  pose proof (table_index v tabs ltac:(lia) Htl) as Hilt. set (i := Z.to_nat (v / 1024)) in *.
  eapply wp_alloc_round; [exact Hsp|lia|done|apply Hnone; lia| |].
  { fold i. intros Hh ->. rewrite need_S in Hlen. fold i in Hlen. rewrite Hh in Hlen. simpl in Hlen. lia. }
  fold i. intros t l' s1 Hl Hsame Hsp1 Hz Hs1. set (tabs1 := <[i := Some t]> tabs) in *.
  pose proof (length_new_table tabs i t n v eq_refl Hilt Hsame) as Hneed. fold tabs1 in Hneed.
  assert (tables tabs1 ≡ₚ new_table tabs i t ++ tables tabs) as Htb.
  { destruct (lookup_lt_is_Some_2 _ _ Hilt) as [o Ho]. eapply tables_new; [done|]. intros t' ->. by apply Hsame. }
  eapply wp_mono; [apply (IH fuel l' s1 pgdir tabs1 (upd ents v (v2p p + 7)) O (v + 1)); try done; try lia|].
  { intros x Hx. rewrite upd_ne by lia. apply Hnone. lia. }
  { rewrite <-Hneed, Hl in Hlen. simpl in Hlen. rewrite length_app in Hlen. lia. }
  intros r s2 (-> & fr & new & l2 & tabs2 & Hfr & Hnew & Hl2 & Htb2 & Hsp2 & Hz2 & Hs2). split; [done|].
  exists (p :: fr), (new_table tabs i t ++ new), l2, tabs2. split; [simpl; lia|].
  split; [rewrite length_app; unfold new_table; destruct (tabs !! i) as [[?|]|]; simpl; lia|]. split; [|split; [|split; [|split]]].
  - rewrite Hl, Hl2. simpl. f_equiv. rewrite <-!app_assoc, !(Permutation_app_swap_app (new_table tabs i t)). done.
  - by rewrite Htb2, Htb, <-!app_assoc, (Permutation_app_swap_app new).
  - eapply space_ext; [|exact Hsp2]. intros x _. apply grown_cons.
  - intros q x Hq Hx. apply elem_of_cons in Hq as [->|Hq]; [|by eapply Hz2]. rewrite Hs2; [by apply Hz|].
    eapply (vs_others _ _ _ _ _ _ p x Hsp1); [|exact Hx]. apply elem_of_app. left. apply (elem_uframes _ v); [lia|].
    assert (page p) as Hp by (apply (rd_free _ _ (vs_ready _ _ _ _ _ _ Hsp)); left).
    rewrite upd_eq. by apply (uframe_pte p 6).
  - eapply same_but_mono; [|by eapply same_but_trans]. intros q Hq.
    assert (∀ q, q ∈ new_table tabs i t → q ∈ l) as Hnt by (intros q' Hq'; rewrite Hl; apply elem_of_app; by left).
    apply elem_of_app in Hq as [Hq|Hq].
    + apply elem_of_cons in Hq as [->|Hq]; [left|]. apply elem_of_cons in Hq as [->|Hq]; [apply elem_of_app; right; left|].
      apply list_elem_of_singleton in Hq as ->. assert (t ∈ tables tabs1) as Hin by (apply elem_tables; exists i; by apply list_lookup_insert_eq).
      rewrite Htb in Hin. apply elem_of_app in Hin as [Hin|Hin]; apply elem_of_app; [left; right; by apply Hnt|right; by right].
    + apply elem_of_app in Hq as [Hq|Hq]; [apply elem_of_app; left; right; rewrite Hl; apply elem_of_app; by right|].
      apply elem_of_cons in Hq as [->|Hq]; [apply elem_of_app; right; left|]. rewrite Htb in Hq.
      apply elem_of_app in Hq as [Hq|Hq]; apply elem_of_app; [left; right; by apply Hnt|right; by right].
Qed.

(** When the tables are there but pages run out, [allocuvm] undoes what it did. *)
Lemma wp_allocuvm_fail n : ∀ fuel l s pgdir tabs ents0 ents O v oldsz newsz,
  space l s pgdir tabs ents O → 0 ≤ oldsz → newsz ≤ KERNBASE → up oldsz ≤ v → v + Z.of_nat n = up newsz →
  (n < fuel)%nat → (length l < n)%nat → (∀ x, up oldsz ≤ x < up newsz → hastab tabs (Z.to_nat (x / 1024)) = true) →
  (∀ x, v ≤ x < up newsz → ents x = 0) → (∀ x, cleared ents (up oldsz) (up newsz) x = ents0 x) →
  wp (Vm.allocuvm_loop kend fuel pgdir (4096 * v) oldsz newsz) s (λ r s', r = 0 ∧ ∃ l',
    space l' s' pgdir tabs ents0 O ∧ l' ++ uframes ents0 ≡ₚ l ++ uframes ents ∧
    same_but (l ++ l' ++ pgdir :: tables tabs) (Kalloc.kmem s) (Kalloc.kmem s')).
Proof.
  induction n as [|n IH]; intros [|fuel] l s pgdir tabs ents0 ents O v oldsz newsz Hsp Hold Hnew Hv Hvn Hfuel Hl Htab Hz Hc; try lia.
  assert (oldsz < newsz) as Hlt.
  { destruct (decide (oldsz < newsz)); [done|]. pose proof (up_mono newsz oldsz ltac:(lia)). lia. }
  destruct (up_range oldsz ltac:(lia)) as (Ho1 & _ & _). destruct (up_range newsz ltac:(lia)) as (Hn1 & _ & _).
  destruct l as [|p l].
  - cbn [Vm.allocuvm_loop]. rewrite bool_decide_eq_true_2 by (apply up_spec; lia).
    apply wp_bind. eapply wp_mono; [apply wp_kalloc_ready, Hsp|]. intros r s1 (Hm1 & -> & Hr1).
    rewrite bool_decide_eq_true_2 by done.
    assert (space [] s1 pgdir tabs ents O) as Hsp1 by (destruct Hsp as [? ? ? ?]; split; [done|by rewrite Hm1|done|done]).
    apply wp_bind. eapply wp_mono; [apply (wp_deallocuvm [] s1 pgdir tabs ents O newsz oldsz); [done|lia|lia|]|].
    { right. left. apply Htab. lia. }
    intros r s2 (-> & l' & Hsp2 & Hl2 & _ & Hs2). apply wp_ret. split; [done|]. exists l'.
    rewrite (uframes_ext ents0 (cleared ents (up oldsz) (up newsz))) in Hl2 by auto.
    split; [eapply space_ext; [|exact Hsp2]; auto|]. split; [done|]. rewrite <-Hm1. eapply same_but_mono; [|exact Hs2].
    intros q Hq. simpl. apply elem_of_app in Hq as [Hq|Hq]; apply elem_of_app; [right; by right|by left].
  - assert (hastab tabs (Z.to_nat (v / 1024)) = true) as Hh by (apply Htab; lia).
    assert (has (ents v) PTE_P = false) as Hnone by (rewrite Hz by lia; done).
    eapply wp_alloc_round; [exact Hsp|lia|lia|done|congruence|].
    intros t l' s1 Hll Hsame Hsp1 _ Hs1. unfold hastab in Hh. unfold new_table in Hll.
    destruct (tabs !! Z.to_nat (v / 1024)) as [[t'|]|] eqn:Ht; try discriminate Hh. rewrite (Hsame t' eq_refl) in Ht.
    rewrite list_insert_id in Hsp1 by done. simpl in Hll. subst l'.
    assert (page p) as Hp by (apply (rd_free _ _ (vs_ready _ _ _ _ _ _ Hsp)); left).
    assert (uframes (upd ents v (v2p p + 7)) ≡ₚ p :: uframes ents) as Hu.
    { apply uframes_new; [lia|unfold uframe; by rewrite Hnone|by apply (uframe_pte p 6)]. }
    eapply wp_mono; [apply (IH fuel l s1 pgdir tabs ents0 (upd ents v (v2p p + 7)) O (v + 1)); try done; try lia|].
    { simpl in Hl. lia. }
    { intros x Hx. rewrite upd_ne by lia. apply Hz. lia. }
    { intros x. rewrite <-Hc. unfold cleared. destruct (decide (x = v)) as [->|Hne]; [|by rewrite upd_ne].
      rewrite upd_eq, decide_True by lia. rewrite Hnone, Hz by lia. destruct (page_high p Hp) as (_ & _ & Hv2 & Hal).
      change 7 with (Z.lor 6 1). rewrite Hv2, has_pte by done. by case_decide. }
    intros r s2 (-> & l2 & Hsp2 & Hl2 & Hs2). split; [done|]. exists l2. split; [done|]. split.
    + rewrite Hl2, Hu. simpl. by rewrite Permutation_middle.
    + eapply same_but_mono; [|by eapply same_but_trans]. intros q Hq.
      assert (t ∈ tables tabs) as Hin by (apply elem_tables; by eexists).
      apply elem_of_app in Hq as [Hq|Hq].
      * apply elem_of_cons in Hq as [->|Hq]; [left|]. apply elem_of_app. right. apply elem_of_app. right.
        apply elem_of_cons in Hq as [->|Hq]; [left|]. apply list_elem_of_singleton in Hq as ->. by right.
      * by right.
Qed.

(** ** What a user program sees *)

(** The walk the hardware makes for an access in user mode. *)
Definition mmu (m : mem) (pgdir va : Z) : option Z :=
  let pde := load32 m (pgdir + 4 * PDX va) in
  if has pde PTE_P && has pde PTE_U then
    let pte := load32 m (p2v (PTE_ADDR pde) + 4 * PTX va) in
    if has pte PTE_P && has pte PTE_U then Some (p2v (PTE_ADDR pte) + va mod PGSIZE) else None
  else None.

Definition uload (m : mem) (pgdir va : Z) : option Z := m <$> mmu m pgdir va.

Lemma has_flags pa f g : pa mod 4096 = 0 → 0 ≤ f < 4096 → 0 ≤ g < 4096 → has (pa + f) g = has f g.
Proof.
  intros Hpa Hf Hg. unfold has.
  assert (∀ x, Z.land x g = Z.land (x mod 4096) g) as H.
  { intros x. change 4096 with (2 ^ 12). rewrite <-Z.land_ones by lia. rewrite <-Z.land_assoc. f_equal.
    rewrite Z.land_comm. symmetry. rewrite Z.land_ones by lia. change (2 ^ 12) with 4096. by apply Z.mod_small. }
  rewrite (H (pa + f)), (H f). by rewrite (proj2 (aligned_add pa f Hpa Hf)), Z.mod_small.
Qed.

Lemma mmu_ents l s pgdir tabs ents F va :
  vs l s pgdir tabs ents F → 0 ≤ va < 2 ^ 32 → let e := ents (va / 4096) in
  mmu (Kalloc.kmem s) pgdir va = if has e PTE_P && has e PTE_U then Some (p2v (PTE_ADDR e) + va mod 4096) else None.
Proof.
  intros Hvs Hva e. unfold mmu. destruct (vs_lookup _ _ _ _ _ _ va Hvs Hva) as [o Ho].
  pose proof (vs_dir _ _ _ _ _ _ va o Hvs Hva Ho) as Hd. destruct (walk_index va Hva) as (Hv & Hi & HP).
  pose proof (pt_ent _ _ _ _ (vs_pt _ _ _ _ _ _ Hvs) _ _ Hv Ho) as He. pose proof (pt_dir _ _ _ _ (vs_pt _ _ _ _ _ _ Hvs) _ _ Ho) as Hd'.
  rewrite Z2Nat.id, <-HP in Hd' by lia. destruct o as [t|].
  - destruct (vs_table _ _ _ _ _ _ _ _ Hvs Ho) as (Hpt & _). destruct (page_high t Hpt) as (_ & _ & Hv2 & Hal).
    destruct Hd as [-> ->]. rewrite Hd', Hv2, has_flags by (done || lia). simpl. rewrite PTX_spec, He. done.
  - rewrite Hd. simpl. unfold e. rewrite He. done.
Qed.

(** The address space of a process of [sz] bytes. *)
Record proc_space (l : list Z) (s : Kalloc.st) (pgdir : Z) (tabs : list (option Z)) (ents : Z → Z) (O : list Z) (sz : Z) : Prop := {
  ps_space : space l s pgdir tabs ents O;
  ps_present v : 0 ≤ v < up sz → has (ents v) PTE_P = true;
  ps_above v : up sz ≤ v < 2 ^ 19 → ents v = 0;
  ps_kernel v : 2 ^ 19 ≤ v < 2 ^ 20 → ents v = kents v;
  ps_size : 0 ≤ sz ≤ KERNBASE;
}.

(** The pages of an address space. *)
Definition owned (pgdir : Z) (tabs : list (option Z)) (ents : Z → Z) : list Z := pgdir :: tables tabs ++ uframes ents.

Lemma kents_user v : v < 2 ^ 19 → kents v = 0.
Proof.
  intros Hv. pose proof kmap_lines as (H1 & H2 & H3 & H4 & H5). destruct Hdata as [Hal Hr].
  unfold kents, Vm.kmap. cbn [foldl]. unfold kline, mapped. cbn [Vm.virt].
  assert (524544 ≤ kdata / 4096) by (apply Z.div_le_lower_bound; unfold KERNLINK, KERNBASE, EXTMEM in *; lia).
  change (DEVSPACE / 4096) with 1040384. change (KERNLINK / 4096) with 524544. change (KERNBASE / 4096) with 524288.
  by rewrite !decide_False by lia.
Qed.

(** No kernel mapping is open to user programs. *)
Lemma kents_protected v : has (kents v) PTE_U = false.
Proof.
  pose proof kmap_lines as (H1 & H2 & H3 & H4 & H5). destruct Hdata as [Hal Hr].
  assert (∀ ents k, has (ents v) PTE_U = false → Vm.phys_start k mod 4096 = 0 → (Vm.perm k = 0 ∨ Vm.perm k = PTE_W) →
    has (kline ents k v) PTE_U = false) as H.
  { intros ents k He Hk Hp. unfold kline, mapped. case_decide; [|done].
    rewrite has_flags; [by destruct Hp as [-> | ->]| |by destruct Hp as [-> | ->]|done].
    rewrite Zplus_mod, Hk. rewrite (Z.mul_comm 4096), Z.mod_mul by lia. done. }
  assert (v2p kdata mod 4096 = 0) as Hvd by (rewrite H5, Zminus_mod, Hal; done).
  unfold kents, Vm.kmap. cbn [foldl]. apply H; [|done|by right]. apply H; [|done|by right]. apply H; [|done|by left].
  apply H; [done|done|by right].
Qed.

(** A user program reaches the pages of its process only. *)
Lemma mmu_owned l s pgdir tabs ents O sz va a :
  proc_space l s pgdir tabs ents O sz → 0 ≤ va < 2 ^ 32 → mmu (Kalloc.kmem s) pgdir va = Some a →
  va < 4096 * up sz ∧ ∃ p, p ∈ uframes ents ∧ in_page p a.
Proof.
  intros [Hsp Hpr Hab Hk _] Hva Hm. rewrite (mmu_ents _ _ _ _ _ _ va Hsp Hva) in Hm.
  destruct (walk_index va Hva) as (Hv & _). destruct (has (ents (va / 4096)) PTE_P) eqn:HP; [|done].
  destruct (has (ents (va / 4096)) PTE_U) eqn:HU; [|done]. simplify_eq/=.
  pose proof (Z.div_mod va 4096). pose proof (Z.mod_pos_bound va 4096).
  destruct (decide (va / 4096 < 2 ^ 19)) as [Hlt|Hge].
  2: { rewrite Hk, kents_protected in HU by lia. done. }
  destruct (decide (va / 4096 < up sz)); [|by rewrite Hab in HP by lia].
  split; [lia|]. destruct (space_uframe _ _ _ _ _ _ (va / 4096) Hsp ltac:(lia) HP) as [Hu _].
  eexists. split; [apply (elem_uframes ents (va / 4096)); [lia|exact Hu]|]. unfold Kalloc.in_page, PGSIZE. lia.
Qed.

(** ** copyuvm *)

(** The page tables of two processes side by side. *)
Lemma vs_other l s d tabsd entsd pgdir tabs ents F :
  vs l s d tabsd entsd (uframes entsd ++ pgdir :: tables tabs ++ F) → pt (Kalloc.kmem s) pgdir tabs ents →
  vs l s pgdir tabs ents (F ++ d :: tables tabsd ++ uframes entsd).
Proof.
  intros [H1 H2 H3 H4] Hpt.
  assert (pgdir :: tables tabs ++ F ++ d :: tables tabsd ++ uframes entsd ≡ₚ
          d :: tables tabsd ++ uframes entsd ++ pgdir :: tables tabs ++ F) as Hperm.
  { rewrite app_assoc, app_comm_cons, Permutation_app_comm. simpl. by rewrite <-!app_assoc. }
  split; [done|done|by rewrite Hperm|]. intros p. rewrite Hperm. apply H4.
Qed.

(** The first [v] pages of the child hold what those of the parent held in [m0]. *)
Definition copied (m0 m : mem) (ents entsd : Z → Z) (v : Z) : Prop := ∀ x, 0 ≤ x < v → ∃ q,
  uframe (entsd x) = Some q ∧ entsd x = v2p q + ents x mod 4096 ∧
  ∀ off, 0 ≤ off < 4096 → m (q + off) = m0 (p2v (PTE_ADDR (ents x)) + off).

Lemma copied_frame m0 m m' ents entsd v :
  v ≤ 2 ^ 19 → copied m0 m ents entsd v → (∀ q x, q ∈ uframes entsd → in_page q x → m' x = m x) → copied m0 m' ents entsd v.
Proof.
  intros Hv Hc Hm x Hx. destruct (Hc x Hx) as (q & Hq & He & Hb). exists q. split; [done|]. split; [done|].
  intros off Hoff. rewrite (Hm q); [by apply Hb|by apply (elem_uframes entsd x); [lia|]|]. unfold Kalloc.in_page, PGSIZE. lia.
Qed.

(** The flags of a present entry. *)
Lemma flags_present e : has e PTE_P = true → Z.lor (PTE_FLAGS e) 1 = e mod 4096 ∧ 0 ≤ PTE_FLAGS e < 4096.
Proof.
  rewrite has_odd, PTE_FLAGS_spec. intros Ho. pose proof (Z.mod_pos_bound e 4096 ltac:(lia)). split; [|done].
  apply Z.bits_inj'. intros n Hn. rewrite Z.lor_spec. destruct (decide (n = 0)) as [->|Hne].
  - rewrite !Z.bit0_odd. change (Z.odd 1) with true. rewrite orb_true_r.
    change 4096 with (2 ^ 12). rewrite <-(Z.land_ones e 12) by lia. rewrite <-Z.bit0_odd, Z.land_spec, Z.bit0_odd, Ho. done.
  - assert (Z.testbit 1 n = false) as -> by (rewrite Z.bits_above_log2; [done|lia|simpl; lia]). by rewrite orb_false_r.
Qed.

Lemma need_le_n n : ∀ h v, (need h v n ≤ n)%nat.
Proof. induction n as [|n IH]; intros h v; [done|]. rewrite need_S. pose proof (IH h (v + 1)). pose proof (IH (upd h (Z.to_nat (v / 1024)) true) (v + 1)). destruct (h _); lia. Qed.

(** The state of the loop of [copyuvm], in which the first [v] pages are copied:
    the child [d] is built from the pages [l0] that were free in [m0]. *)
Record copying (m0 : mem) (l0 : list Z) (pgdir : Z) (tabs : list (option Z)) (ents : Z → Z) (O : list Z) (d : Z)
    (l : list Z) (s : Kalloc.st) (tabsd : list (option Z)) (entsd : Z → Z) (v : Z) : Prop := {
  cy_space : space l s d tabsd entsd (pgdir :: tables tabs ++ uframes ents ++ O);
  cy_free : l0 ≡ₚ owned d tabsd entsd ++ l;
  cy_same : same_but l0 m0 (Kalloc.kmem s);
  cy_copied : copied m0 (Kalloc.kmem s) ents entsd v;
  cy_zero x : v ≤ x < 2 ^ 19 → entsd x = 0;
  cy_kernel x : 2 ^ 19 ≤ x < 2 ^ 20 → entsd x = kents x;
}.

Section copying.
Context (m0 : mem) (l0 : list Z) (pgdir : Z) (tabs : list (option Z)) (ents : Z → Z) (O : list Z) (d : Z) (sz : Z).
Context (Hpt0 : pt m0 pgdir tabs ents) (Hup : 0 ≤ up sz ≤ 2 ^ 19) (Hd0 : d ≠ 0).
Context (Hpr : ∀ x, 0 ≤ x < up sz → has (ents x) PTE_P = true).
Abbreviation cy := (copying m0 l0 pgdir tabs ents O d).

(** The parent is not touched. *)
Lemma cy_parent l s tabsd entsd v p x :
  cy l s tabsd entsd v → p ∈ pgdir :: tables tabs ++ uframes ents ++ O → in_page p x → Kalloc.kmem s x = m0 x.
Proof.
  intros C Hp Hx. apply (cy_same _ _ _ _ _ _ _ _ _ _ _ _ C). intros q Hq Hqx.
  pose proof (cy_space _ _ _ _ _ _ _ _ _ _ _ _ C) as Hsp. rewrite (cy_free _ _ _ _ _ _ _ _ _ _ _ _ C) in Hq.
  pose proof (vs_nodup _ _ _ _ _ _ Hsp) as HN. pose proof (rd_free _ _ (vs_ready _ _ _ _ _ _ Hsp)) as [_ _ Hlp].
  assert (page p) as Hpp by (apply (vs_page _ _ _ _ _ _ Hsp); right; apply elem_of_app; right; apply elem_of_app; by right).
  assert (page q) as Hqp.
  { apply elem_of_app in Hq as [Hq|Hq]; [|by apply Hlp]. apply (vs_page _ _ _ _ _ _ Hsp). unfold owned in Hq.
    apply elem_of_cons in Hq as [->|Hq]; [left|]. right. apply elem_of_app in Hq as [Hq|Hq]; apply elem_of_app; [by left|].
    right. apply elem_of_app. by left. }
  eapply (pages_apart q p x x Hqp Hpp); [|done|done|done]. intros ->.
  assert (NoDup ((owned d tabsd entsd ++ l) ++ pgdir :: tables tabs ++ uframes ents ++ O)) as HN2.
  { rewrite (Permutation_app_comm _ l), <-app_assoc. unfold owned. simpl. by rewrite <-app_assoc. }
  apply list.NoDup_app in HN2 as (_ & HN2 & _). by apply (HN2 p Hq).
Qed.

Lemma cy_pt l s tabsd entsd v : cy l s tabsd entsd v → pt (Kalloc.kmem s) pgdir tabs ents.
Proof.
  intros C. eapply pt_frame; [exact Hpt0|]. intros p x Hp Hx. eapply cy_parent; [done| |done].
  apply elem_of_cons in Hp as [->|Hp]; [left|]. right. apply elem_of_app. by left.
Qed.

(** One page more. *)
Lemma cy_round q l s s1 tabsd entsd v :
  cy (q :: l) s tabsd entsd v → ready l s1 → Kalloc.kmem s1 = Kalloc.kmem s → page q → 0 ≤ v < up sz →
  wp (Vm.setmem (λ m, memmove m q (p2v (PTE_ADDR (ents v))) PGSIZE) ;; Vm.mappages d (4096 * v) PGSIZE (v2p q) (PTE_FLAGS (ents v)))%kern s1
    (λ r s', (r = -1 ∧ l = [] ∧ vs [] s' d tabsd entsd (q :: uframes entsd ++ pgdir :: tables tabs ++ uframes ents ++ O) ∧
               same_but [q] (Kalloc.kmem s) (Kalloc.kmem s')) ∨
      ∃ l' tabsd' entsd', r = 0 ∧ cy l' s' tabsd' entsd' (v + 1) ∧ (length l ≤ S (length l'))%nat).
Proof.
  intros C Hr1 Hm1 Hq Hv. pose proof C as [Hsp Hfree Hsame Hcp Hz Hk]. set (P := pgdir :: tables tabs ++ uframes ents ++ O) in *.
  assert (has (ents v) PTE_P = true) as Hev by (apply Hpr; lia). destruct (flags_present (ents v) Hev) as [Hfl Hflr].
  pose proof (vs_take _ _ _ _ _ _ _ _ Hsp Hr1 Hm1) as Hvs1. set (p := p2v (PTE_ADDR (ents v))).
  assert (uframe (ents v) = Some p) as Hup' by (unfold uframe; by rewrite Hev).
  assert (p ∈ P) as HpP.
  { right. apply elem_of_app. right. apply elem_of_app. left. apply (elem_uframes ents v); [lia|done]. }
  assert (∀ m x, bytes_ok m → memmove m q p PGSIZE x = moved m q p PGSIZE x) as Hmv by (intros; apply memmove_spec; unfold PGSIZE; done || lia).
  apply wp_bind. eapply wp_fill_frame; [exact Hvs1| | |].
  { intros x. rewrite Hmv by apply Hr1. unfold moved. case_decide; apply Hr1. }
  { intros x Hx. rewrite Hmv by apply Hr1. unfold moved. rewrite decide_False; [done|]. apply (Hx q). left. }
  intros s2 Hvs2 Hm2.
  assert (∀ off, 0 ≤ off < 4096 → Kalloc.kmem s2 (q + off) = m0 (p + off)) as Hbytes.
  { intros off Hoff. rewrite Hm2, Hmv by apply Hr1. unfold moved. rewrite decide_True by (unfold PGSIZE; lia).
    replace (p + (q + off - q)) with (p + off) by lia. rewrite Hm1. eapply cy_parent; [done|exact HpP|].
    unfold Kalloc.in_page, PGSIZE. lia. }
  assert (same_but [q] (Kalloc.kmem s) (Kalloc.kmem s2)) as Hs2.
  { intros x Hx. rewrite Hm2, Hmv by apply Hr1. unfold moved. rewrite decide_False; [by rewrite Hm1|]. apply (Hx q). left. }
  eapply wp_mono; [apply (wp_map_frame l s2 d tabsd entsd q P v (PTE_FLAGS (ents v))); [done|lia|done|by rewrite Hz by lia]|].
  intros r s3 [(-> & -> & _ & Hvs3 & Hm3)|(t & l' & -> & Hll & Hsm & Hsp3 & Hs3)].
  { left. split; [done|]. split; [done|]. split; [done|]. by rewrite Hm3. }
  rewrite Hfl in Hsp3. right. exists l', (<[Z.to_nat (v / 1024) := Some t]> tabsd), (upd entsd v (v2p q + ents v mod 4096)). split; [done|].
  set (e := v2p q + ents v mod 4096) in *. pose proof (pt_len _ _ _ _ (vs_pt _ _ _ _ _ _ Hvs1)) as Htl.
  pose proof (table_index v tabsd ltac:(lia) Htl) as Hilt. set (i := Z.to_nat (v / 1024)) in *.
  assert (uframe e = Some q) as Hue by (unfold e; rewrite <-Hfl; by apply uframe_pte).
  assert (uframes (upd entsd v e) ≡ₚ q :: uframes entsd) as Hu.
  { apply uframes_new; [lia|by rewrite Hz by lia|done]. }
  assert (tables (<[i := Some t]> tabsd) ≡ₚ new_table tabsd i t ++ tables tabsd) as Htb.
  { destruct (lookup_lt_is_Some_2 _ _ Hilt) as [o Ho]. eapply tables_new; [done|]. intros t' ->. by apply Hsm. }
  assert (∀ p, p ∈ [d; t] → p ∈ l' ++ d :: tables (<[i := Some t]> tabsd)) as Hdt.
  { intros p' Hp'. apply elem_of_app. right. apply elem_of_cons in Hp' as [->|Hp']; [left|].
    apply list_elem_of_singleton in Hp' as ->. right. apply elem_tables. exists i. by apply list_lookup_insert_eq. }
  assert (∀ p x, p ∈ uframes (upd entsd v e) → in_page p x → Kalloc.kmem s3 x = Kalloc.kmem s2 x) as Hkeep.
  { intros p' x Hp' Hx. apply Hs3. intros q' Hq'. eapply (vs_others _ _ _ _ _ _ p' x Hsp3); [|done|by apply Hdt]. apply elem_of_app. by left. }
  assert (l0 ≡ₚ owned d (<[i := Some t]> tabsd) (upd entsd v e) ++ l') as Hfree'.
  { rewrite Hfree, Hll. unfold owned. rewrite Hu, Htb. simpl. f_equiv. rewrite <-!app_assoc.
    rewrite (Permutation_app_swap_app (new_table tabsd i t)). f_equiv. simpl. rewrite <-!Permutation_middle. f_equiv.
    apply Permutation_app_swap_app. }
  split; [split|].
  - done.
  - done.
  - intros x Hx. rewrite Hs3, Hs2; [by apply Hsame|..].
    + intros q' ->%list_elem_of_singleton. apply Hx. rewrite Hfree. apply elem_of_app. right. left.
    + intros q' Hq'. apply Hx. rewrite Hfree'. apply Hdt in Hq'. apply elem_of_app in Hq' as [Hq'|Hq']; apply elem_of_app; [by right|left].
      unfold owned. apply elem_of_cons in Hq' as [->|Hq']; [left|]. right. apply elem_of_app. by left.
  - intros x Hx. destruct (decide (x = v)) as [->|Hne].
    + rewrite upd_eq. exists q. split; [done|]. split; [done|]. intros off Hoff. rewrite (Hkeep q); [by apply Hbytes|by rewrite Hu; left|].
      unfold Kalloc.in_page, PGSIZE. lia.
    + rewrite upd_ne by done. destruct (Hcp x ltac:(lia)) as (q' & Hq' & He' & Hb'). exists q'. split; [done|]. split; [done|].
      intros off Hoff. rewrite (Hkeep q'), Hs2; [by apply Hb'| | |unfold Kalloc.in_page, PGSIZE; lia].
      * intros q'' ->%list_elem_of_singleton Hin.
        pose proof (vs_nodup _ _ _ _ _ _ Hvs1) as HN. apply list.NoDup_app in HN as (_ & _ & HN).
        rewrite app_comm_cons in HN. apply list.NoDup_app in HN as (_ & _ & HN). apply list.NoDup_cons in HN as [HN _].
        assert (q' ∈ uframes entsd) as Hqin by (apply (elem_uframes entsd x); [lia|done]).
        eapply (pages_apart q q' (q' + off) (q' + off) Hq); [|intros ->; apply HN; apply elem_of_app; by left|done|unfold Kalloc.in_page, PGSIZE; lia|done].
        apply (vs_page _ _ _ _ _ _ Hvs1). right. apply elem_of_app. right. right. apply elem_of_app. by left.
      * rewrite Hu. right. apply (elem_uframes entsd x); [lia|done].
  - intros x Hx. rewrite upd_ne by lia. apply Hz. lia.
  - intros x Hx. rewrite upd_ne by lia. by apply Hk.
  - rewrite Hll, length_app. unfold new_table. destruct (tabsd !! i) as [[?|]|]; simpl; lia.
Qed.

(** Giving up: the child is freed, and at worst one page is lost. *)
Lemma cy_bad l s s' q tabsd entsd v :
  cy l s tabsd entsd v → (∀ p, p ∈ q → p ∈ l) → (∃ l1, vs l1 s' d tabsd entsd (uframes entsd ++ q ++ pgdir :: tables tabs ++ uframes ents ++ O) ∧ l ≡ₚ q ++ l1) →
  same_but q (Kalloc.kmem s) (Kalloc.kmem s') →
  wp (Vm.freevm kend d ;; kret 0)%kern s' (λ r s2, r = 0 ∧ same_but l0 m0 (Kalloc.kmem s2) ∧ ∃ l', l' ⊆+ l0 ∧ ready l' s2).
Proof.
  intros [Hsp Hfree Hsame _ _ _] Hq (l1 & Hvs & Hl) Hs'.
  apply wp_bind. eapply wp_mono; [exact (wp_freevm _ _ _ _ _ _ Hvs)|]. intros [] s2 (l2 & Hr2 & Hl2 & Hs2). apply wp_ret. split; [done|]. split.
  - eapply same_but_mono; [|eapply same_but_trans; [exact Hsame|eapply same_but_trans; [exact Hs'|exact Hs2]]].
    intros p Hp. apply elem_of_app in Hp as [Hp|Hp]; [done|]. rewrite Hfree.
    apply elem_of_app in Hp as [Hp|Hp]; [apply elem_of_app; right; by apply Hq|]. rewrite Hl2 in Hp.
    apply elem_of_app in Hp as [Hp|Hp]; apply elem_of_app; [right|by left]. rewrite Hl. apply elem_of_app. by right.
  - exists l2. split; [|done]. rewrite Hl2, Hfree, Hl. unfold owned. rewrite (Permutation_app_comm l1).
    apply submseteq_app; [done|]. by apply submseteq_inserts_l.
Qed.

Lemma wp_copyuvm_loop n : ∀ fuel l s tabsd entsd v,
  (n < fuel)%nat → 0 ≤ v → v + Z.of_nat n = up sz → cy l s tabsd entsd v →
  wp (Vm.copyuvm_loop kend fuel pgdir d (4096 * v) sz) s (λ r s', same_but l0 m0 (Kalloc.kmem s') ∧
    (r = 0 ∧ (length l < 2 * n)%nat ∧ (∃ l', l' ⊆+ l0 ∧ ready l' s') ∨
     r = d ∧ ∃ l' tabsd' entsd', cy l' s' tabsd' entsd' (up sz))).
Proof.
  induction n as [|n IH]; intros [|fuel] l s tabsd entsd v Hfuel Hv Hvn C; try lia; cbn [Vm.copyuvm_loop].
  { rewrite bool_decide_eq_false_2 by (rewrite up_spec; lia). apply wp_ret. split; [apply C|]. right. split; [done|].
    exists l, tabsd, entsd. by assert (v = up sz) as <- by lia. }
  rewrite bool_decide_eq_true_2 by (apply up_spec; lia).
  assert (4096 * v / 4096 = v) as Hdv by (rewrite Z.mul_comm; apply Z.div_mul; lia).
  pose proof (cy_pt _ _ _ _ _ C) as Hpt. pose proof (cy_space _ _ _ _ _ _ _ _ _ _ _ _ C) as Hsp.
  pose proof (vs_other _ _ _ _ _ _ _ _ _ Hsp Hpt) as Hvp.
  apply wp_bind. eapply wp_mono; [apply (wp_walk _ _ _ _ _ _ (4096 * v) Hvp); lia|]. rewrite Hdv. intros r s1 [-> ->].
  assert (has (ents v) PTE_P = true) as Hev by (apply Hpr; lia).
  destruct (tabs !! Z.to_nat (v / 1024)) as [[t|]|] eqn:Ht.
  2, 3: rewrite (vs_hole _ _ _ _ _ _ v Hvp) in Hev; [done|lia|unfold hastab; by rewrite Ht].
  destruct (vs_table _ _ _ _ _ _ _ _ Hvp Ht) as (Hpgt & _ & _). pose proof (page_high t Hpgt) as (_ & Htr & _).
  pose proof (Z.mod_pos_bound v 1024 ltac:(lia)). apply wp_bind, wp_assert.
  { apply negb_true_iff, bool_decide_eq_false. unfold KERNBASE in *. lia. }
  apply wp_bind, wp_gets. rewrite (pt_ent _ _ _ _ Hpt v (Some t) ltac:(lia) Ht).
  apply wp_bind, wp_assert; [done|]. cbv zeta.
  apply wp_bind. eapply wp_mono; [apply wp_kalloc_ready, Hsp|]. intros q s1 [Hm1 Hl]. destruct l as [|q' l].
  { destruct Hl as [-> Hr1]. rewrite bool_decide_eq_true_2 by done.
    eapply wp_mono; [apply (cy_bad [] s s1 [] tabsd entsd v C); [done| |rewrite Hm1; apply same_but_refl]|].
    - exists []. split; [|done]. destruct Hsp as [? ? ? ?]; split; [done|by rewrite Hm1|done|done].
    - intros r s2 (-> & Hs2 & Hl2). split; [done|]. left. split; [done|]. split; [simpl; lia|done]. }
  destruct Hl as (-> & Hr1 & Hq & Hql & Hq0). rewrite bool_decide_eq_false_2 by done.
  apply wp_assoc, wp_bind. eapply wp_mono; [apply (cy_round q' l s s1 tabsd entsd v C); [done|done|done|lia]|].
  intros r s2 [(-> & -> & Hvs2 & Hs2)|(l' & tabsd' & entsd' & -> & C' & Hlen)].
  - rewrite bool_decide_eq_true_2 by lia.
    eapply wp_mono; [apply (cy_bad [q'] s s2 [q'] tabsd entsd v C); [done| |done]|].
    + exists []. split; [|done]. eapply vs_frame_perm; [|exact Hvs2]. simpl. by rewrite Permutation_middle.
    + intros r s3 (-> & Hs3 & Hl3). split; [done|]. left. split; [done|]. split; [simpl; lia|done].
  - rewrite bool_decide_eq_false_2 by lia. rewrite u32_next by lia.
    eapply wp_mono; [apply (IH fuel l' s2 tabsd' entsd' (v + 1)); [lia|lia|lia|done]|].
    intros r s3 [Hs3 [(-> & Hlt & Hl3)|(-> & H3)]]; (split; [done|]); [left|by right]. split; [done|]. split; [simpl; lia|done].
Qed.
End copying.

Lemma wp_copyuvm l s pgdir tabs ents O sz :
  proc_space l s pgdir tabs ents O sz →
  wp (Vm.copyuvm kend kdata pgdir sz) s (λ d s', same_but l (Kalloc.kmem s) (Kalloc.kmem s') ∧
    (d = 0 ∧ (length l < 128 + 2 * Z.to_nat (up sz))%nat ∧ (∃ l', l' ⊆+ l ∧ ready l' s') ∨
     d ≠ 0 ∧ ∃ l' tabsd entsd, copying (Kalloc.kmem s) l pgdir tabs ents O d l' s' tabsd entsd (up sz))).
Proof.
  intros [Hsp Hpr Hab Hk Hsz]. destruct (up_range sz Hsz) as (Hup & Hup2 & _).
  unfold Vm.copyuvm. apply wp_bind. eapply wp_mono; [apply (wp_setupkvm l s (pgdir :: tables tabs ++ uframes ents ++ O)); apply Hsp|].
  intros d s1 [Hs1 [(-> & Hlt & Hl)|(l1 & tabsd & Hd0 & Hvs & Hl & Hlen)]].
  { rewrite bool_decide_eq_true_2 by done. apply wp_ret. split; [done|]. left. split; [done|]. split; [lia|done]. }
  rewrite bool_decide_eq_false_2 by done. change 0 with (4096 * 0).
  assert (uframes kents = []) as Hnone.
  { unfold uframes. rewrite (omap_ext_in (λ _, None)).
    - induction (seqZ 0 (2 ^ 19)) as [|x xs IH]; [done|exact IH].
    - intros x Hx%elem_of_seqZ. unfold uframe. by rewrite kents_user by lia. }
  assert (copying (Kalloc.kmem s) l pgdir tabs ents O d l1 s1 tabsd kents 0) as C.
  { split.
    - unfold space. by rewrite Hnone.
    - rewrite Hl. unfold owned. by rewrite Hnone, app_nil_r.
    - done.
    - intros x Hx. lia.
    - intros x Hx. apply kents_user. lia.
    - done. }
  eapply wp_mono; [eapply (wp_copyuvm_loop (Kalloc.kmem s) l pgdir tabs ents O d sz) with (n := Z.to_nat (up sz)); try done|].
  - apply Hsp.
  - unfold PGSIZE. lia.
  - lia.
  - intros r s2 [Hs2 [(-> & Hlt & Hl2)|(-> & H2)]]; (split; [done|]); [left; split; [done|]; split; [lia|done]|by right].
Qed.

(** ** copyout *)

Lemma store_bytes_spec bs : ∀ m a x,
  store_bytes m a bs x = match (if decide (a ≤ x) then bs !! Z.to_nat (x - a) else None) with Some b => u8 b | None => m x end.
Proof.
  induction bs as [|b bs IH]; intros m a x; cbn [store_bytes]; [by case_decide|]. rewrite IH. clear IH.
  destruct (decide (x = a)) as [->|Hne].
  - rewrite decide_False, decide_True, Z.sub_diag, store_eq by lia. done.
  - rewrite store_ne by done. destruct (decide (a ≤ x)).
    + rewrite decide_True by lia. by replace (Z.to_nat (x - a)) with (S (Z.to_nat (x - (a + 1)))) by lia.
    + by rewrite decide_False by lia.
Qed.

Lemma store_bytes_ok bs : ∀ m a, bytes_ok m → bytes_ok (store_bytes m a bs).
Proof. induction bs as [|b bs IH]; intros m a Hm; [done|]. by apply IH, store_ok. Qed.

Lemma store_bytes_out bs m a x : x < a ∨ a + Z.of_nat (length bs) ≤ x → store_bytes m a bs x = m x.
Proof.
  intros Hx. rewrite store_bytes_spec. case_decide; [|done]. by rewrite lookup_ge_None_2 by lia.
Qed.

Lemma wp_uva2ka l s pgdir tabs ents F va :
  vs l s pgdir tabs ents F → 0 ≤ va < 2 ^ 32 → va mod 4096 = 0 → hastab tabs (Z.to_nat (va / 4096 / 1024)) = true →
  wp (Vm.uva2ka pgdir va) s (λ r s', s' = s ∧ r = default 0 (mmu (Kalloc.kmem s) pgdir va)).
Proof.
  intros Hvs Hva Hal Ht. unfold hastab in Ht. destruct (tabs !! Z.to_nat (va / 4096 / 1024)) as [[t|]|] eqn:Ho; try discriminate.
  unfold Vm.uva2ka. apply wp_bind. eapply wp_mono; [by apply (wp_walk _ _ _ _ _ _ va Hvs)|]. rewrite Ho. intros r s1 [-> ->].
  destruct (vs_table _ _ _ _ _ _ _ _ Hvs Ho) as (Hpt & _). pose proof (page_high t Hpt) as (_ & Htr & _).
  pose proof (Z.mod_pos_bound (va / 4096) 1024 ltac:(lia)). rewrite bool_decide_eq_false_2 by (unfold KERNBASE in *; lia).
  apply wp_bind, wp_gets, wp_ret. split; [done|]. destruct (walk_index va Hva) as (Hv & _).
  rewrite (pt_ent _ _ _ _ (vs_pt _ _ _ _ _ _ Hvs) _ (Some t) Hv Ho), (mmu_ents _ _ _ _ _ _ va Hvs Hva), Hal.
  destruct (has (ents (va / 4096)) PTE_P); [|done]. destruct (has (ents (va / 4096)) PTE_U); [|done]. simpl. lia.
Qed.

(** The first [k] bytes of [buf] are at [va] for a user program, and nothing
    else changed. *)
Record put (m m' : mem) (pgdir va : Z) (buf : list Z) (k : nat) : Prop := {
  put_mmu a : 0 ≤ a < 2 ^ 32 → mmu m' pgdir a = mmu m pgdir a;
  put_bytes j b : (j < k)%nat → buf !! j = Some b → uload m' pgdir (va + Z.of_nat j) = Some b;
  put_other x : (∀ j, (j < k)%nat → mmu m pgdir (va + Z.of_nat j) ≠ Some x) → m' x = m x;
}.

Lemma put_nil m pgdir va buf : put m m pgdir va buf 0.
Proof. split; [done|lia|done]. Qed.

(** Translation within a page. *)
Lemma mmu_page l s pgdir tabs ents F va off :
  vs l s pgdir tabs ents F → 0 ≤ va → va mod 4096 = 0 → 0 ≤ off < 4096 → va + off < 2 ^ 32 →
  mmu (Kalloc.kmem s) pgdir (va + off) = (λ a, a + off) <$> mmu (Kalloc.kmem s) pgdir va.
Proof.
  intros Hvs Hva Hal Hoff Hlt. rewrite !(mmu_ents _ _ _ _ _ _ _ Hvs) by lia.
  destruct (aligned_add va off Hal Hoff) as [Hd Hm]. pose proof (aligned_div va Hal).
  assert ((va + off) / 4096 = va / 4096) as -> by lia. rewrite Hm, Hal.
  destruct (has (ents (va / 4096)) PTE_P && has (ents (va / 4096)) PTE_U); [|done]. simpl. f_equal. lia.
Qed.

(** A write to the user pages of a space leaves its page table alone. *)
Lemma space_write l s pgdir tabs ents O ps f (Q : unit → Kalloc.st → Prop) :
  space l s pgdir tabs ents O → (∀ p, p ∈ ps → p ∈ uframes ents) →
  bytes_ok (f (Kalloc.kmem s)) → same_but ps (Kalloc.kmem s) (f (Kalloc.kmem s)) →
  (∀ s', space l s' pgdir tabs ents O → Kalloc.kmem s' = f (Kalloc.kmem s) → Q tt s') → wp (Vm.setmem f) s Q.
Proof.
  intros Hsp Hps Hb Hs HQ. pose proof Hsp as [H1 H2 H3 H4].
  assert (∀ p, p ∈ ps → page p ∧ p ∉ l) as Hpp.
  { intros p Hp%Hps. assert (p ∈ pgdir :: tables tabs ++ uframes ents ++ O) as Hin.
    { right. apply elem_of_app. right. apply elem_of_app. by left. }
    split; [by apply H4|]. intros Hl. apply list.NoDup_app in H3 as (_ & Hd & _). by apply (Hd p Hl). }
  eapply (wp_setmem l _ _ ps); [done|done|done|done|]. intros s' Hr Hm. apply HQ; [|done]. split; [done| |done|done].
  rewrite Hm. eapply pt_frame; [done|]. intros q x Hq Hx. apply Hs. intros p Hp Hpx.
  eapply (vs_others _ _ _ _ _ _ p x Hsp); [apply elem_of_app; left; by apply Hps|done| |exact Hx]. apply elem_of_app. by right.
Qed.

(** Different user addresses are different bytes. *)
Lemma mmu_inj l s pgdir tabs ents O sz a b x :
  proc_space l s pgdir tabs ents O sz → 0 ≤ a < 2 ^ 32 → 0 ≤ b < 2 ^ 32 →
  mmu (Kalloc.kmem s) pgdir a = Some x → mmu (Kalloc.kmem s) pgdir b = Some x → a = b.
Proof.
  intros Hps Ha Hb Hma Hmb. pose proof (ps_space _ _ _ _ _ _ _ Hps) as Hsp.
  destruct (mmu_owned _ _ _ _ _ _ _ _ _ Hps Ha Hma) as [Hal _]. destruct (mmu_owned _ _ _ _ _ _ _ _ _ Hps Hb Hmb) as [Hbl _].
  rewrite (mmu_ents _ _ _ _ _ _ a Hsp Ha) in Hma. rewrite (mmu_ents _ _ _ _ _ _ b Hsp Hb) in Hmb.
  destruct (has (ents (a / 4096)) PTE_P) eqn:Hpa; [|done]. destruct (has (ents (b / 4096)) PTE_P) eqn:Hpb; [|done].
  destruct (has (ents (a / 4096)) PTE_U); [|done]. destruct (has (ents (b / 4096)) PTE_U); [|done]. simplify_eq/=.
  destruct (up_range sz (ps_size _ _ _ _ _ _ _ Hps)) as (Hup & _).
  pose proof (Z.div_mod a 4096). pose proof (Z.mod_pos_bound a 4096). pose proof (Z.div_mod b 4096). pose proof (Z.mod_pos_bound b 4096).
  assert (0 ≤ a / 4096 < 2 ^ 19 ∧ 0 ≤ b / 4096 < 2 ^ 19) as [Hva Hvb] by lia.
  destruct (space_uframe _ _ _ _ _ _ (a / 4096) Hsp Hva Hpa) as [Hfa Hga].
  destruct (space_uframe _ _ _ _ _ _ (b / 4096) Hsp Hvb Hpb) as [Hfb Hgb].
  set (p := p2v (PTE_ADDR (ents (a / 4096)))) in *. set (q := p2v (PTE_ADDR (ents (b / 4096)))) in *.
  assert (p = q) as Hpq.
  { apply (Kalloc.in_page_unique p q (p + a mod 4096)); [apply page_high; exact Hga|apply page_high; exact Hgb|..];
      unfold Kalloc.in_page, PGSIZE; lia. }
  assert (a / 4096 = b / 4096); [|lia]. destruct (decide (b / 4096 = a / 4096)) as [|Hne]; [done|].
  pose proof (vs_nodup _ _ _ _ _ _ Hsp) as HN. apply list.NoDup_app in HN as (_ & _ & HN). rewrite app_comm_cons in HN.
  apply list.NoDup_app in HN as (_ & _ & HN). apply list.NoDup_app in HN as (HN & _).
  rewrite (uframes_gone ents (a / 4096) p Hva Hfa) in HN. apply list.NoDup_cons in HN as [HN _]. destruct HN.
  apply (elem_uframes _ (b / 4096)); [done|]. rewrite upd_ne by done. by rewrite Hpq.
Qed.

Lemma put_app l s pgdir tabs ents O sz m1 m2 va buf n k :
  proc_space l s pgdir tabs ents O sz → 0 ≤ va → va + Z.of_nat (n + k) ≤ 2 ^ 32 → (n + k ≤ length buf)%nat →
  put (Kalloc.kmem s) m1 pgdir va buf n → put m1 m2 pgdir (va + Z.of_nat n) (drop n buf) k →
  put (Kalloc.kmem s) m2 pgdir va buf (n + k).
Proof.
  intros Hps Hva Hlt Hlen [H1 H2 H3] [G1 G2 G3]. split.
  - intros a Ha. by rewrite G1, H1.
  - intros j b Hj Hb. destruct (decide (j < n)%nat) as [Hjn|Hjn].
    + specialize (H2 j b Hjn Hb). unfold uload in *. rewrite G1 by lia. apply fmap_Some in H2 as (x & Hx & ->). rewrite Hx. simpl.
      f_equal. apply G3. intros i Hi Hx'. rewrite H1 in Hx, Hx' by lia.
      pose proof (mmu_inj _ _ _ _ _ _ _ (va + Z.of_nat j) (va + Z.of_nat n + Z.of_nat i) _ Hps ltac:(lia) ltac:(lia) Hx Hx'). lia.
    + specialize (G2 (j - n)%nat b ltac:(lia)). rewrite lookup_drop in G2. replace (n + (j - n))%nat with j in G2 by lia.
      rewrite <-G2 by done. f_equal. lia.
  - intros x Hx. rewrite G3, H3; [done| |].
    + intros j Hj. apply Hx. lia.
    + intros j Hj. rewrite H1 by lia. specialize (Hx (n + j)%nat ltac:(lia)).
      by replace (va + Z.of_nat (n + j)) with (va + Z.of_nat n + Z.of_nat j) in Hx by lia.
Qed.

Definition bytes (buf : list Z) : Prop := Forall (λ b, 0 ≤ b < 256) buf.

(** One round of [copyout]. *)
Lemma wp_put_page l s pgdir tabs ents O sz va0 o pa0 buf n :
  proc_space l s pgdir tabs ents O sz → bytes buf → 0 ≤ va0 → va0 mod 4096 = 0 → 0 ≤ o → o + Z.of_nat n ≤ 4096 →
  va0 + 4096 ≤ 2 ^ 32 → (n ≤ length buf)%nat → mmu (Kalloc.kmem s) pgdir va0 = Some pa0 →
  wp (Vm.setmem (λ m, store_bytes m (pa0 + o) (take n buf))) s (λ _ s',
    proc_space l s' pgdir tabs ents O sz ∧ put (Kalloc.kmem s) (Kalloc.kmem s') pgdir (va0 + o) buf n).
Proof.
  intros Hps Hby Hva0 Hal Ho Hon Hlt Hn Hpa. pose proof (ps_space _ _ _ _ _ _ _ Hps) as Hsp.
  destruct (mmu_owned _ _ _ _ _ _ _ va0 _ Hps ltac:(lia) Hpa) as (Hin & p & Hp & Hpx).
  assert (pa0 = p) as ->.
  { rewrite (mmu_ents _ _ _ _ _ _ va0 Hsp) in Hpa by lia. destruct (has _ PTE_P) eqn:HP; [|done]. destruct (has _ PTE_U); [|done]. simplify_eq/=.
    rewrite Hal, Z.add_0_r in *. destruct (up_range sz (ps_size _ _ _ _ _ _ _ Hps)) as (Hup & _).
    pose proof (aligned_div va0 Hal). assert (page p) as Hpp.
    { apply (vs_page _ _ _ _ _ _ Hsp). right. apply elem_of_app. right. apply elem_of_app. by left. }
    destruct (space_uframe _ _ _ _ _ _ (va0 / 4096) Hsp ltac:(lia) HP) as [_ Hgp].
    eapply Kalloc.in_page_unique; [apply page_high; exact Hgp|apply page_high; exact Hpp| |exact Hpx].
    unfold Kalloc.in_page, PGSIZE. lia. }
  assert (same_but [p] (Kalloc.kmem s) (store_bytes (Kalloc.kmem s) (p + o) (take n buf))) as Hsame.
  { intros x Hx. apply store_bytes_out. specialize (Hx p ltac:(left)). unfold Kalloc.in_page, PGSIZE in Hx. rewrite length_take. lia. }
  eapply (space_write l s pgdir tabs ents O [p]); [done|by intros q ->%list_elem_of_singleton|by apply store_bytes_ok, Hsp|done|].
  intros s' Hsp' Hm'. assert (proc_space l s' pgdir tabs ents O sz) as Hps' by (by destruct Hps; split).
  assert (∀ a, 0 ≤ a < 2 ^ 32 → mmu (Kalloc.kmem s') pgdir a = mmu (Kalloc.kmem s) pgdir a) as Hmm.
  { intros a Ha. by rewrite (mmu_ents _ _ _ _ _ _ a Hsp' Ha), (mmu_ents _ _ _ _ _ _ a Hsp Ha). }
  assert (∀ j, (j < n)%nat → mmu (Kalloc.kmem s) pgdir (va0 + o + Z.of_nat j) = Some (p + o + Z.of_nat j)) as Htr.
  { intros j Hj. rewrite <-Z.add_assoc, (mmu_page _ _ _ _ _ _ va0 (o + Z.of_nat j) Hsp) by lia. rewrite Hpa. simpl. f_equal. lia. }
  split; [done|]. split; [done| |].
  - intros j b Hj Hb. unfold uload. rewrite Hmm, Htr by (done || lia). simpl. rewrite Hm', store_bytes_spec, decide_True by lia.
    replace (Z.to_nat (p + o + Z.of_nat j - (p + o))) with j by lia. rewrite lookup_take_lt, Hb by done. f_equal. apply u8_id.
    unfold bytes in Hby. rewrite Forall_lookup in Hby. by eapply Hby.
  - intros x Hx. rewrite Hm', store_bytes_spec. case_decide as Hle; [|done]. destruct (take n buf !! _) as [b|] eqn:Hb; [|done].
    apply lookup_take_Some in Hb as [Hb Hlt']. exfalso. apply (Hx (Z.to_nat (x - (p + o))) Hlt'). rewrite Htr by done. f_equal. lia.
Qed.

Lemma wp_copyout_loop fuel : ∀ l s pgdir tabs ents O sz va buf,
  (length buf < fuel)%nat → proc_space l s pgdir tabs ents O sz → bytes buf → 0 ≤ va → va + Z.of_nat (length buf) ≤ 4096 * up sz →
  wp (Vm.copyout_loop fuel pgdir va buf) s (λ r s', ∃ k, proc_space l s' pgdir tabs ents O sz ∧
    put (Kalloc.kmem s) (Kalloc.kmem s') pgdir va buf k ∧
    (r = 0 ∧ k = length buf ∨ r = -1 ∧ (k < length buf)%nat ∧ mmu (Kalloc.kmem s) pgdir (va + Z.of_nat k) = None)).
Proof.
  induction fuel as [|fuel IH]; intros l s pgdir tabs ents O sz va buf Hfuel Hps Hby Hva Hend; [lia|]. cbn [Vm.copyout_loop].
  case_bool_decide as Hnil.
  { subst buf. apply wp_ret. exists 0%nat. split; [done|]. split; [apply put_nil|by left]. }
  assert (0 < length buf)%nat as Hpos by (destruct buf; [done|simpl; lia]).
  pose proof (ps_space _ _ _ _ _ _ _ Hps) as Hsp. destruct (up_range sz (ps_size _ _ _ _ _ _ _ Hps)) as (Hup & _).
  rewrite PGROUNDDOWN_spec. set (va0 := va / 4096 * 4096). pose proof (Z.div_mod va 4096) as Hdm. pose proof (Z.mod_pos_bound va 4096) as Hmb.
  set (o := va mod 4096) in *. assert (va = va0 + o) as Hvo by lia. assert (va0 mod 4096 = 0) as Hal by (by apply Z.mod_mul).
  assert (va0 / 4096 = va / 4096) as Hd0 by (by apply Z.div_mul). assert (0 ≤ va / 4096 < up sz) as Hvr by lia.
  apply wp_bind. eapply wp_mono; [apply (wp_uva2ka _ _ _ _ _ _ va0 Hsp); [lia|done|]|].
  { destruct (hastab tabs (Z.to_nat (va0 / 4096 / 1024))) eqn:Hh; [done|]. rewrite Hd0 in Hh.
    pose proof (ps_present _ _ _ _ _ _ _ Hps (va / 4096) ltac:(lia)) as HP. rewrite (vs_hole _ _ _ _ _ _ _ Hsp) in HP by (done || lia). done. }
  intros r s1 [-> ->]. pose proof (mmu_page _ _ _ _ _ _ va0 o Hsp ltac:(lia) Hal ltac:(lia) ltac:(lia)) as Hmo. rewrite <-Hvo in Hmo.
  destruct (mmu (Kalloc.kmem s) pgdir va0) as [pa0|] eqn:Hm; simpl.
  2: { apply wp_ret. exists 0%nat. split; [done|]. split; [apply put_nil|]. right.
       rewrite Z.add_0_r. done. }
  rewrite bool_decide_eq_false_2.
  2: { destruct (mmu_owned _ _ _ _ _ _ _ va0 _ Hps ltac:(lia) Hm) as (_ & p & Hp & Hpx). assert (page p) as Hpp.
       { apply (vs_page _ _ _ _ _ _ Hsp). right. apply elem_of_app. right. apply elem_of_app. by left. }
       apply page_high in Hpp. unfold Kalloc.in_page, KERNBASE in *. lia. }
  replace (va - va0) with o by lia. unfold PGSIZE.
  set (n := Z.to_nat (Z.min (4096 - o) (Z.of_nat (length buf)))).
  assert (0 < n ≤ length buf)%nat as Hn by lia. assert (o + Z.of_nat n ≤ 4096) as Hon by lia.
  apply wp_bind. eapply wp_mono; [apply (wp_put_page l s pgdir tabs ents O sz va0 o pa0 buf n); try done; lia|].
  intros _ s1 [Hps1 Hput1]. rewrite <-Hvo in Hput1.
  destruct (decide (n = length buf)) as [Hfull|Hmore].
  - rewrite drop_ge by lia. destruct fuel as [|fuel]; [lia|]. cbn [Vm.copyout_loop]. rewrite bool_decide_eq_true_2 by done.
    apply wp_ret. exists n. split; [done|]. split; [done|by left].
  - assert (Z.of_nat n = 4096 - o) as Hnn by lia.
    rewrite u32_small by lia. replace (va0 + 4096) with (va + Z.of_nat n) by lia.
    eapply wp_mono; [apply (IH l s1 pgdir tabs ents O sz (va + Z.of_nat n) (drop n buf)); try done; try lia|].
    + rewrite length_drop. lia.
    + by apply Forall_drop.
    + rewrite length_drop. lia.
    + intros r s2 (k & Hps2 & Hput2 & Hr). exists (n + k)%nat. split; [done|]. rewrite length_drop in Hr.
      split; [eapply put_app; [exact Hps|done| | |exact Hput1|exact Hput2]; lia|].
      destruct Hr as [[-> ->]|(-> & Hk & Hnone)]; [left; split; [done|lia]|]. right. split; [done|]. split; [lia|].
      rewrite (put_mmu _ _ _ _ _ _ Hput1) in Hnone by lia. rewrite <-Hnone. f_equal. lia.
Qed.
End frames.
