(* ===== verification/VmSpec.v ===== *)
(** * What vm.c promises to processes

    The theorems about growing, copying, freeing and writing address spaces, in
    terms of what the hardware lets a user program reach. *)

From S2P Require Import Prelude CString Kalloc Vm VmThm.

Local Open Scope Z_scope.

Section spec.
(** The linker script puts [end] above the kernel base and aligns [data], which
    comes after the text. *)
Context (kend kdata : Z) (Hkend : KERNBASE < kend).
Context (Hdata : kdata mod 4096 = 0 ∧ KERNLINK < kdata < KERNBASE + PHYSTOP).

Abbreviation proc_space := (proc_space kend kdata).
Abbreviation kmem := Kalloc.kmem.

(** Two states in which a process sees the same memory: they agree on its pages. *)
Lemma uload_same l s l' s' pgdir tabs ents O sz va :
  proc_space l s pgdir tabs ents O sz → vs kend l' s' pgdir tabs ents (uframes ents ++ O) →
  (∀ p x, p ∈ uframes ents → Kalloc.in_page p x → kmem s' x = kmem s x) → 0 ≤ va < 2 ^ 32 →
  uload (kmem s') pgdir va = uload (kmem s) pgdir va.
Proof.
  intros Hps Hvs Hm Hva. unfold uload. pose proof (ps_space _ _ _ _ _ _ _ _ _ Hps) as Hsp.
  assert (mmu (kmem s') pgdir va = mmu (kmem s) pgdir va) as ->.
  { by rewrite (mmu_ents _ Hkend _ _ _ _ _ _ va Hvs Hva), (mmu_ents _ Hkend _ _ _ _ _ _ va Hsp Hva). }
  destruct (mmu (kmem s) pgdir va) as [a|] eqn:Ha; [|done]. simpl. f_equal.
  destruct (mmu_owned kend kdata Hkend Hdata _ _ _ _ _ _ _ va a Hps Hva Ha) as (_ & p & Hp & Hx). by apply (Hm p).
Qed.

(** Entries that did not change read as before. *)
Lemma uload_grown l s l' s' pgdir tabs tabs' ents ents' O sz va :
  proc_space l s pgdir tabs ents O sz → space kend l' s' pgdir tabs' ents' O → 0 ≤ va < 2 ^ 32 → ents' (va / 4096) = ents (va / 4096) →
  (∀ p x, p ∈ uframes ents → Kalloc.in_page p x → kmem s' x = kmem s x) → uload (kmem s') pgdir va = uload (kmem s) pgdir va.
Proof.
  intros Hps Hsp' Hva He Hkeep. pose proof (ps_space _ _ _ _ _ _ _ _ _ Hps) as Hsp. unfold uload.
  assert (mmu (kmem s') pgdir va = mmu (kmem s) pgdir va) as ->.
  { rewrite (mmu_ents _ Hkend _ _ _ _ _ _ va Hsp' Hva), (mmu_ents _ Hkend _ _ _ _ _ _ va Hsp Hva). by rewrite He. }
  destruct (mmu (kmem s) pgdir va) as [a|] eqn:Ha; [|done]. simpl. f_equal.
  destruct (mmu_owned kend kdata Hkend Hdata _ _ _ _ _ _ _ va a Hps Hva Ha) as (_ & p & Hp & Hx). by apply (Hkeep p).
Qed.

(** Pages in use are not free. *)
Lemma vs_free_apart l s pgdir tabs ents O p q x :
  space kend l s pgdir tabs ents O → p ∈ owned pgdir tabs ents ++ O → q ∈ l → Kalloc.in_page p x → ¬ Kalloc.in_page q x.
Proof.
  intros [[[_ _ Hl] _ _] _ HN HG] Hp Hq Hx Hqx. unfold owned in Hp. simpl in Hp. rewrite <-app_assoc in Hp.
  apply list.NoDup_app in HN as (_ & HN & _). eapply (pages_apart kend Hkend p q x x); [by apply HG|by apply Hl| |done|done|done].
  intros ->. by apply (HN q Hq).
Qed.

Lemma mmu_frame l s pgdir tabs ents F m' va :
  vs kend l s pgdir tabs ents F → 0 ≤ va < 2 ^ 32 →
  (∀ p x, p ∈ pgdir :: tables tabs → Kalloc.in_page p x → m' x = kmem s x) → mmu m' pgdir va = mmu (kmem s) pgdir va.
Proof.
  intros Hvs Hva Hm. destruct (walk_index va Hva) as (Hv & Hi & HP). destruct (vs_lookup kend _ _ _ _ _ _ va Hvs Hva) as [o Ho].
  pose proof (vs_dir kend Hkend _ _ _ _ _ _ va o Hvs Hva Ho) as Hd. unfold mmu.
  assert (load32 m' (pgdir + 4 * PDX va) = load32 (kmem s) (pgdir + 4 * PDX va)) as ->.
  { apply load32_ext. intros x Hx. apply (Hm pgdir); [left|]. rewrite HP in Hx. unfold Kalloc.in_page, PGSIZE. lia. }
  destruct o as [t|]; [|by rewrite Hd]. destruct Hd as [-> ->].
  assert (load32 m' (t + 4 * PTX va) = load32 (kmem s) (t + 4 * PTX va)) as ->; [|done].
  apply load32_ext. intros x Hx. apply (Hm t); [right; apply elem_tables; by eexists|]. rewrite PTX_spec in Hx.
  pose proof (Z.mod_pos_bound (va / 4096) 1024). unfold Kalloc.in_page, PGSIZE. lia.
Qed.

Lemma uload_frame l s pgdir tabs ents O sz m' va :
  proc_space l s pgdir tabs ents O sz → 0 ≤ va < 2 ^ 32 →
  (∀ p x, p ∈ owned pgdir tabs ents → Kalloc.in_page p x → m' x = kmem s x) → uload m' pgdir va = uload (kmem s) pgdir va.
Proof.
  intros Hps Hva Hm. pose proof (ps_space _ _ _ _ _ _ _ _ _ Hps) as Hsp. unfold uload.
  rewrite (mmu_frame _ _ _ _ _ _ m' va Hsp Hva).
  - destruct (mmu (kmem s) pgdir va) as [a|] eqn:Ha; [|done]. simpl. f_equal.
    destruct (mmu_owned kend kdata Hkend Hdata _ _ _ _ _ _ _ va a Hps Hva Ha) as (_ & p & Hp & Hx). apply (Hm p); [|done].
    right. apply elem_of_app. by right.
  - intros p x Hp. apply Hm. unfold owned. apply elem_of_cons in Hp as [->|Hp]; [left|]. right. apply elem_of_app. by left.
Qed.

(** The address spaces that [copyuvm] leaves. *)
Lemma copying_spaces l s pgdir tabs ents O sz d l' s' tabsd entsd :
  proc_space l s pgdir tabs ents O sz → copying kend kdata (kmem s) l pgdir tabs ents O d l' s' tabsd entsd (up sz) →
  proc_space l' s' d tabsd entsd (owned pgdir tabs ents ++ O) sz ∧ proc_space l' s' pgdir tabs ents (owned d tabsd entsd ++ O) sz.
Proof.
  intros Hps C. pose proof Hps as [Hsp Hpr Hab Hk Hsz].
  pose proof (cy_pt kend kdata Hkend (kmem s) l pgdir tabs ents O d (vs_pt _ _ _ _ _ _ _ Hsp) _ _ _ _ _ C) as Hpt.
  destruct C as [Csp _ _ Ccp Cz Ck]. split; split; try done.
  - unfold owned. simpl. by rewrite <-app_assoc.
  - intros v Hv. destruct (Ccp v Hv) as (q & Hq & _). unfold uframe in Hq. by destruct (has (entsd v) PTE_P).
  - eapply vs_frame_perm; [|exact (vs_other kend _ _ _ _ _ _ _ _ _ Csp Hpt)]. rewrite <-app_assoc. f_equiv. apply Permutation_app_comm.
Qed.

Lemma copied_load l s pgdir tabs ents O sz d l' s' tabsd entsd va :
  proc_space l s pgdir tabs ents O sz → copying kend kdata (kmem s) l pgdir tabs ents O d l' s' tabsd entsd (up sz) →
  0 ≤ va < 2 ^ 32 → uload (kmem s') d va = uload (kmem s) pgdir va.
Proof.
  intros Hps C Hva. destruct (copying_spaces _ _ _ _ _ _ _ _ _ _ _ _ Hps C) as [Hc _]. unfold uload.
  destruct (decide (va < 4096 * up sz)) as [Hlt|Hge].
  2: { destruct (mmu (kmem s') d va) as [a|] eqn:Ha.
       { destruct (mmu_owned kend kdata Hkend Hdata _ _ _ _ _ _ _ va a Hc Hva Ha) as [? _]. lia. }
       destruct (mmu (kmem s) pgdir va) as [a|] eqn:Hb; [|done].
       destruct (mmu_owned kend kdata Hkend Hdata _ _ _ _ _ _ _ va a Hps Hva Hb) as [? _]. lia. }
  rewrite (mmu_ents _ Hkend _ _ _ _ _ _ va (ps_space _ _ _ _ _ _ _ _ _ Hc) Hva), (mmu_ents _ Hkend _ _ _ _ _ _ va (ps_space _ _ _ _ _ _ _ _ _ Hps) Hva).
  assert (0 ≤ va / 4096) by (apply Z.div_pos; lia). assert (va / 4096 < up sz) by (apply Z.div_lt_upper_bound; lia).
  destruct (cy_copied _ _ _ _ _ _ _ _ _ _ _ _ _ _ C (va / 4096) ltac:(lia)) as (q & Hq & He & Hb).
  destruct (up_range sz (ps_size _ _ _ _ _ _ _ _ _ Hps)) as (Hup & _).
  assert (has (entsd (va / 4096)) PTE_P = true) as HP by (apply (ps_present _ _ _ _ _ _ _ _ _ Hc); lia).
  destruct (space_uframe kend _ _ _ _ _ _ (va / 4096) (ps_space _ _ _ _ _ _ _ _ _ Hc) ltac:(lia) HP) as [Hq' Hqp].
  rewrite Hq in Hq'. simplify_eq. pose proof (page_high kend Hkend _ Hqp) as (_ & _ & Hv2 & Hal).
  set (q := p2v (PTE_ADDR (entsd (va / 4096)))) in *. set (e := ents (va / 4096)) in *.
  pose proof (Z.mod_pos_bound e 4096 ltac:(lia)).
  assert (∀ f, 0 ≤ f < 4096 → has (entsd (va / 4096)) f = has e f) as Hf.
  { intros f Hf. rewrite He, Hv2, has_flags by (done || lia). rewrite (Z.div_mod e 4096) at 2 by lia.
    rewrite (has_flags (4096 * (e / 4096))); [done| |lia|lia]. rewrite Z.mul_comm. apply Z.mod_mul. lia. }
  rewrite !Hf by done. destruct (has e PTE_P && has e PTE_U); [|done]. simpl. f_equal. apply Hb. apply Z.mod_pos_bound. lia.
Qed.

Lemma uframes_grown fr : ∀ ents v,
  (∀ p, p ∈ fr → Kalloc.page kend p) → 0 ≤ v → v + Z.of_nat (length fr) ≤ 2 ^ 19 →
  (∀ x, v ≤ x < v + Z.of_nat (length fr) → has (ents x) PTE_P = false) → uframes (grown ents v fr) ≡ₚ fr ++ uframes ents.
Proof.
  induction fr as [|p fr IH]; intros ents v Hp Hv Hlen Hnone.
  - simpl. rewrite (uframes_ext ents (grown ents v [])); [done|]. intros x _. unfold grown. by case_decide.
  - simpl length in *. rewrite (uframes_ext (grown (upd ents v (v2p p + 7)) (v + 1) fr)) by (intros x _; apply grown_cons).
    rewrite IH; [|intros q Hq; apply Hp; by right|lia|lia|intros x Hx; rewrite upd_ne by lia; apply Hnone; lia].
    rewrite (uframes_new ents v _ p); [by rewrite <-Permutation_middle|lia|unfold uframe; by rewrite Hnone by lia|].
    apply (uframe_pte kend Hkend p 6); [apply Hp; left|lia].
Qed.

(** Enough free pages. *)
Lemma wp_grow l s pgdir tabs ents O old new :
  proc_space l s pgdir tabs ents O old → old ≤ new < KERNBASE →
  let n := Z.to_nat (up new - up old) in (n + need (hastab tabs) (up old) n ≤ length l)%nat →
  wp (Vm.allocuvm kend pgdir old new) s (λ r s', r = new ∧ ∃ fr l' tabs',
    proc_space l' s' pgdir tabs' (grown ents (up old) fr) O new ∧ length fr = n ∧ (length l ≤ length l' + 2 * n)%nat ∧
    owned pgdir tabs' (grown ents (up old) fr) ++ l' ≡ₚ owned pgdir tabs ents ++ l ∧
    (∀ va, 0 ≤ va < 2 ^ 32 → uload (kmem s') pgdir va =
       if decide (4096 * up old ≤ va < 4096 * up new) then Some 0 else uload (kmem s) pgdir va) ∧
    same_but (l ++ pgdir :: tables tabs) (kmem s) (kmem s')).
Proof.
  intros Hps Hnew n Hn. pose proof Hps as [Hsp Hpr Hab Hk Hsz]. destruct (up_range old Hsz) as (Ho1 & _ & Hgu). destruct (up_range new ltac:(lia)) as (Hn1 & Hn2 & _).
  pose proof (up_mono old new ltac:(lia)) as Hmono. unfold Vm.allocuvm. rewrite !bool_decide_eq_false_2 by lia. rewrite Hgu.
  eapply wp_mono; [apply (wp_allocuvm_loop kend Hkend n _ l s pgdir tabs ents O (up old) old new); try done; try lia|].
  - unfold PGSIZE. lia.
  - intros x Hx. rewrite Hab by lia. done.
  - intros r s' (-> & fr & nw & l' & tabs' & Hfr & Hnw & Hl & Htb & Hsp' & Hz & Hs). split; [done|]. exists fr, l', tabs'.
    assert (∀ p, p ∈ fr → Kalloc.page kend p) as Hpg.
    { intros p Hp. apply (Kalloc.free_pages _ _ _ (rd_free _ _ _ (vs_ready _ _ _ _ _ _ _ Hsp))). rewrite Hl. apply elem_of_app. by left. }
    assert (∀ x, up old ≤ x < up new → grown ents (up old) fr x = default 0 ((λ p, v2p p + 7) <$> fr !! Z.to_nat (x - up old)) ∧
      is_Some (fr !! Z.to_nat (x - up old))) as Hg.
    { intros x Hx. unfold grown. rewrite decide_True by lia. destruct (lookup_lt_is_Some_2 fr (Z.to_nat (x - up old)) ltac:(lia)) as [p ->]. done. }
    assert (∀ x, x < up old ∨ up new ≤ x → grown ents (up old) fr x = ents x) as Hg'.
    { intros x Hx. unfold grown. case_decide; [|done]. by rewrite lookup_ge_None_2 by lia. }
    split; [split|].
    + done.
    + intros v Hv. destruct (decide (v < up old)); [rewrite Hg' by lia; apply Hpr; lia|]. destruct (Hg v ltac:(lia)) as [-> [p Hp]]. rewrite Hp. simpl.
      assert (Kalloc.page kend p) as Hpp by (eapply Hpg, list_elem_of_lookup_2, Hp).
      pose proof (uframe_pte kend Hkend p 6 Hpp ltac:(lia)) as Hu. unfold uframe in Hu. change (Z.lor 6 1) with 7 in Hu. by destruct (has _ _).
    + intros v Hv. rewrite Hg' by lia. apply Hab. lia.
    + intros v Hv. rewrite Hg' by lia. by apply Hk.
    + lia.
    + split; [done|]. split; [rewrite Hl, !length_app; lia|]. split; [|split; [|done]].
      2: { intros va Hva. destruct (decide (4096 * up old ≤ va < 4096 * up new)) as [Hin|Hout].
        - unfold uload. rewrite (mmu_ents _ Hkend _ _ _ _ _ _ va Hsp' ltac:(lia)).
          assert (va / 4096 < up new) by (apply Z.div_lt_upper_bound; lia). assert (up old ≤ va / 4096) by (apply Z.div_le_lower_bound; lia).
          destruct (Hg (va / 4096) ltac:(lia)) as [-> [p Hp]]. rewrite Hp. simpl.
          pose proof (list_elem_of_lookup_2 _ _ _ Hp) as Hin'. pose proof (Hpg p Hin') as Hpp. pose proof (page_high kend Hkend p Hpp) as (_ & _ & Hv2 & Hal).
          rewrite Hv2, !has_flags by (done || lia). simpl. f_equal. rewrite <-Hv2, (p2v_pte kend Hkend) by (done || lia).
          apply (Hz p); [done|]. pose proof (Z.mod_pos_bound va 4096). unfold Kalloc.in_page, PGSIZE. lia.
        - apply (uload_grown l s l' s' pgdir tabs tabs' ents (grown ents (up old) fr) O old); try done.
          + apply Hg'. destruct (decide (va < 4096 * up old)); [left; apply Z.div_lt_upper_bound; lia|].
            right. apply Z.div_le_lower_bound; lia.
          + intros p x Hp Hx. apply Hs. intros q Hq. eapply (vs_others kend Hkend _ _ _ _ _ _ p x Hsp); [apply elem_of_app; by left|done|done]. }
      unfold owned. rewrite (uframes_grown fr) by (done || lia || (intros x Hx; rewrite Hab by lia; done)).
      rewrite Htb, Hl. simpl. f_equiv. rewrite <-!app_assoc. rewrite (Permutation_app_swap_app nw). f_equiv.
      rewrite (Permutation_app_swap_app nw fr). rewrite (Permutation_app_swap_app (uframes ents)). f_equiv.
      rewrite (Permutation_app_swap_app nw). done.
Qed.

(** C21: growing a process from [old] to [new] bytes below KERNBASE. With pages enough
    for the new pages and the tables they need, [allocuvm] returns the new size and
    leaves an address space of that size in which a user program reads what it read
    before, and zeros in the new pages. With the tables in place already but too few
    pages for the rest it returns 0, and leaves the address space and the set of free
    pages as they were. In both cases no page is lost and no byte of the pages of
    others changes. (When a table cannot be allocated, the call goes wrong: see
    [allocuvm_unmapped].) *)
Theorem allocuvm_grows l s pgdir tabs ents O old new :
  proc_space l s pgdir tabs ents O old → old ≤ new < KERNBASE →
  let n := Z.to_nat (up new - up old) in
  ((n + need (hastab tabs) (up old) n ≤ length l)%nat →
   wp (Vm.allocuvm kend pgdir old new) s (λ r s', r = new ∧ ∃ l' tabs' ents', proc_space l' s' pgdir tabs' ents' O new ∧
     owned pgdir tabs' ents' ++ l' ≡ₚ owned pgdir tabs ents ++ l ∧
     (∀ va, 0 ≤ va < 4096 * up old → uload (kmem s') pgdir va = uload (kmem s) pgdir va) ∧
     (∀ va, 4096 * up old ≤ va < 4096 * up new → uload (kmem s') pgdir va = Some 0) ∧
     (∀ p x, p ∈ O → Kalloc.in_page p x → kmem s' x = kmem s x))) ∧
  ((∀ x, up old ≤ x < up new → hastab tabs (Z.to_nat (x / 1024)) = true) → (length l < n)%nat →
   wp (Vm.allocuvm kend pgdir old new) s (λ r s', r = 0 ∧ ∃ l', proc_space l' s' pgdir tabs ents O old ∧ l' ≡ₚ l ∧
     (∀ va, 0 ≤ va < 2 ^ 32 → uload (kmem s') pgdir va = uload (kmem s) pgdir va) ∧
     (∀ p x, p ∈ O → Kalloc.in_page p x → kmem s' x = kmem s x))).
Proof.
  intros Hps Hnew n. pose proof (ps_space _ _ _ _ _ _ _ _ _ Hps) as Hsp. pose proof (ps_size _ _ _ _ _ _ _ _ _ Hps) as Hsz.
  destruct (up_range old Hsz) as (Ho1 & _ & Hgu). destruct (up_range new ltac:(lia)) as (Hn1 & Hn2 & _).
  pose proof (up_mono old new ltac:(lia)) as Hmono. split; intros Hn.
  - eapply wp_mono; [by apply (wp_grow l s pgdir tabs ents O old new)|].
    intros r s' (-> & fr & l' & tabs' & Hps' & Hfr & _ & Hperm & Hz & Hs). split; [done|].
    exists l', tabs', (grown ents (up old) fr). split; [done|]. split; [done|].
    split; [|split].
    + intros va Hva. rewrite Hz by lia. by rewrite decide_False by lia.
    + intros va Hva. rewrite Hz by lia. by rewrite decide_True by lia.
    + intros p x Hp Hx. apply Hs. intros q Hq. eapply (vs_others kend Hkend _ _ _ _ _ _ p x Hsp); [apply elem_of_app; by right|done|done].
  - intros Hlen. unfold Vm.allocuvm. rewrite !bool_decide_eq_false_2 by lia. rewrite Hgu.
    eapply wp_mono; [apply (wp_allocuvm_fail kend Hkend n _ l s pgdir tabs ents ents O (up old) old new); try done; try lia|].
    + unfold PGSIZE. lia.
    + intros x Hx. apply (ps_above _ _ _ _ _ _ _ _ _ Hps). lia.
    + intros x. unfold cleared. case_decide; [|done]. rewrite (ps_above _ _ _ _ _ _ _ _ _ Hps) by lia. done.
    + intros r s' (-> & l' & Hsp' & Hl' & Hs). split; [done|]. exists l'.
      apply (Permutation_app_inv_r (uframes ents)) in Hl'. split; [by destruct Hps; split|]. split; [done|].
      assert (∀ p x, p ∈ uframes ents ++ O → Kalloc.in_page p x → kmem s' x = kmem s x) as Hkeep.
      { intros p x Hp Hx. apply Hs. intros q Hq. eapply (vs_others kend Hkend _ _ _ _ _ _ p x Hsp); [done|done|].
        apply elem_of_app in Hq as [Hq|Hq]; [apply elem_of_app; by left|]. apply elem_of_app in Hq as [Hq|Hq]; apply elem_of_app; [left|by right].
        by rewrite <-Hl'. }
      split; [|intros p x Hp; apply Hkeep, elem_of_app; by right].
      intros va Hva. apply (uload_same l s l' s' pgdir tabs ents O old); [done|done| |done].
      intros p x Hp. apply Hkeep, elem_of_app. by left.
Qed.

(** C19: memory of a forked process. [copyuvm] leaves the parent as it was. Unless
    it runs out of pages it returns an address space of its own for the child, in
    which a user program reads at every address what the parent reads there, and
    no byte a program of either can reach is reached by the other. *)
Theorem copyuvm_copies l s pgdir tabs ents O sz :
  proc_space l s pgdir tabs ents O sz →
  wp (Vm.copyuvm kend kdata pgdir sz) s (λ d s',
    (∀ va, 0 ≤ va < 2 ^ 32 → uload (kmem s') pgdir va = uload (kmem s) pgdir va) ∧
    (∀ p x, p ∈ O → Kalloc.in_page p x → kmem s' x = kmem s x) ∧
    (d = 0 ∧ (length l < 128 + 2 * Z.to_nat (up sz))%nat ∨ ∃ l' tabsd entsd,
      proc_space l' s' d tabsd entsd (owned pgdir tabs ents ++ O) sz ∧
      proc_space l' s' pgdir tabs ents (owned d tabsd entsd ++ O) sz ∧ owned d tabsd entsd ++ l' ≡ₚ l ∧
      ∀ va, 0 ≤ va < 2 ^ 32 → uload (kmem s') d va = uload (kmem s) pgdir va ∧
        ∀ vb a, 0 ≤ vb < 2 ^ 32 → mmu (kmem s') d va = Some a → mmu (kmem s') pgdir vb ≠ Some a)).
Proof.
  intros Hps. pose proof (ps_space _ _ _ _ _ _ _ _ _ Hps) as Hsp.
  eapply wp_mono; [by apply (wp_copyuvm kend kdata Hkend Hdata l s pgdir tabs ents O sz)|].
  intros d s' [Hsame Hres].
  assert (∀ p x, p ∈ owned pgdir tabs ents ++ O → Kalloc.in_page p x → kmem s' x = kmem s x) as Hkeep.
  { intros p x Hp Hx. apply Hsame. intros q Hq. by apply (vs_free_apart l s pgdir tabs ents O p q x). }
  split; [|split].
  - intros va Hva. apply (uload_frame l s pgdir tabs ents O sz); [done|done|]. intros p x Hp. apply Hkeep. apply elem_of_app. by left.
  - intros p x Hp. apply Hkeep. apply elem_of_app. by right.
  - destruct Hres as [(-> & Hlt & _)|(Hd0 & l' & tabsd & entsd & C)]; [by left|right]. exists l', tabsd, entsd.
    destruct (copying_spaces l s pgdir tabs ents O sz d l' s' tabsd entsd Hps C) as [Hc Hp].
    split; [done|]. split; [done|]. split; [symmetry; apply (cy_free _ _ _ _ _ _ _ _ _ _ _ _ _ _ C)|].
    intros va Hva. split; [by eapply copied_load|]. intros vb a Hvb Ha Hb.
    destruct (mmu_owned kend kdata Hkend Hdata _ _ _ _ _ _ _ va a Hc Hva Ha) as (_ & q & Hq & Hqx).
    destruct (mmu_owned kend kdata Hkend Hdata _ _ _ _ _ _ _ vb a Hp Hvb Hb) as (_ & p & Hpp & Hpx).
    pose proof (ps_space _ _ _ _ _ _ _ _ _ Hp) as [_ _ HN HG]. apply list.NoDup_app in HN as (_ & _ & HN). rewrite app_comm_cons in HN.
    apply list.NoDup_app in HN as (_ & _ & HN). apply list.NoDup_app in HN as (_ & HN & _).
    assert (q ∈ owned d tabsd entsd ++ O) as Hqo by (apply elem_of_app; left; right; apply elem_of_app; by right).
    eapply (pages_apart kend Hkend p q a a); [| |by intros ->; apply (HN q Hpp)|done|done|done]; apply HG; right; apply elem_of_app; right;
      apply elem_of_app; [by left|by right].
Qed.

(** A new address space, empty in the user half. *)
Lemma wp_new_space l s O :
  ready kend l s → NoDup (l ++ O) → (∀ p, p ∈ O → Kalloc.page kend p) → (128 ≤ length l)%nat →
  wp (Vm.setupkvm kdata) s (λ d s', d ≠ 0 ∧ same_but l (kmem s) (kmem s') ∧ ∃ l' tabs,
    proc_space l' s' d tabs (kents kdata) O 0 ∧ l ≡ₚ owned d tabs (kents kdata) ++ l' ∧ (length l ≤ 128 + length l')%nat).
Proof.
  intros Hr HN HO Hlen. eapply wp_mono; [by apply (wp_setupkvm kend kdata Hkend Hdata l s O)|].
  intros d s' [Hs [(-> & Hlt & _)|(l' & tabs & Hd0 & Hvs & Hl & Hlen')]]; [lia|]. split; [done|]. split; [done|]. exists l', tabs.
  assert (uframes (kents kdata) = []) as Hnone.
  { rewrite <-(uframes_cleared (λ _, 0)). apply omap_ext_in. intros x Hx%elem_of_seqZ. rewrite kents_user by (done || lia).
    unfold cleared. by case_decide. }
  change (up 0) with 0. split; [|split; [unfold owned; by rewrite Hnone, app_nil_r|done]]. split.
  - unfold space. by rewrite Hnone.
  - change (up 0) with 0. lia.
  - intros v Hv. apply kents_user; [done|lia].
  - done.
  - unfold KERNBASE. lia.
Qed.

(** C20: with memory enough, no page is lost over the life of an address space. If at
    least 256 pages, and four for each page of [sz] bytes, are free at the start,
    setting an address space up, growing it to [sz] bytes, copying it, and freeing the
    copy and then the original leaves exactly the pages free that were free before,
    and the pages in use by others untouched. (When memory runs short on the way,
    pages are lost: see [allocuvm_unmapped].) *)
Theorem address_space_returned l s O sz :
  ready kend l s → NoDup (l ++ O) → (∀ p, p ∈ O → Kalloc.page kend p) → 0 ≤ sz < KERNBASE →
  (256 + 4 * Z.to_nat (up sz) ≤ length l)%nat →
  wp (d ← Vm.setupkvm kdata; Vm.allocuvm kend d 0 sz ;; c ← Vm.copyuvm kend kdata d sz; Vm.freevm kend c ;; Vm.freevm kend d)%kern s
    (λ _ s', ∃ l', ready kend l' s' ∧ l' ≡ₚ l ∧ ∀ p x, p ∈ O → Kalloc.in_page p x → kmem s' x = kmem s x).
Proof.
  intros Hr HN HO Hsz Hlen. destruct (up_range sz ltac:(lia)) as (Hup & _).
  apply wp_bind. eapply wp_mono; [apply (wp_new_space l s O); try done; lia|]. intros d s1 (_ & Hs1 & l1 & tabs1 & Hps1 & Hl1 & Hlen1).
  change (up 0) with 0 in *. pose proof (need_le_n (Z.to_nat (up sz - 0)) (hastab tabs1) 0) as Hneed.
  apply wp_bind. eapply wp_mono; [apply (wp_grow l1 s1 d tabs1 (kents kdata) O 0 sz Hps1); [lia|]; change (up 0) with 0; lia|].
  intros r s2 (-> & fr & l2 & tabs2 & Hps2 & Hfr & Hlen2 & Hl2 & _ & Hs2). change (up 0) with 0 in *. set (ents2 := grown _ _ fr) in *.
  apply wp_bind. eapply wp_mono; [apply (wp_copyuvm kend kdata Hkend Hdata _ _ _ _ _ _ _ Hps2)|].
  intros c s3 [Hs3 [(-> & Hlt & _)|(Hc0 & l3 & tabsd & entsd & C)]]; [lia|].
  pose proof (cy_free _ _ _ _ _ _ _ _ _ _ _ _ _ _ C) as Hl3. pose proof (cy_space _ _ _ _ _ _ _ _ _ _ _ _ _ _ C) as Hsp3.
  apply wp_bind. eapply wp_mono; [apply (wp_freevm kend Hkend _ _ _ _ _ _ Hsp3)|]. intros [] s4 (l4 & Hr4 & Hl4 & Hs4).
  assert (l4 ≡ₚ l2) as Hl42 by (rewrite Hl4, Hl3; unfold owned; apply Permutation_app_comm).
  pose proof (ps_space _ _ _ _ _ _ _ _ _ Hps2) as Hsp2.
  assert (∀ p x, p ∈ owned d tabs2 ents2 ++ O → Kalloc.in_page p x → kmem s4 x = kmem s2 x) as Hkeep.
  { intros p x Hp Hx. rewrite Hs4, Hs3; [done| |]; intros q Hq; apply (vs_free_apart l2 s2 d tabs2 ents2 O p q x); try done. by rewrite <-Hl42. }
  assert (space kend l4 s4 d tabs2 ents2 O) as Hsp4.
  { destruct Hsp2 as [_ Hpt2 HN2 HG2]. split; [done| |by rewrite Hl42|done]. eapply pt_frame; [exact Hpt2|]. intros p x Hp. apply Hkeep.
    apply elem_of_app. left. unfold owned. rewrite app_comm_cons. apply elem_of_app. by left. }
  eapply wp_mono; [apply (wp_freevm kend Hkend _ _ _ _ _ _ Hsp4)|]. intros [] s5 (l5 & Hr5 & Hl5 & Hs5).
  assert (l5 ≡ₚ l) as Hl50.
  { rewrite Hl5, Hl42, Hl1, <-Hl2. unfold owned. rewrite Permutation_app_comm. done. }
  exists l5. split; [done|]. split; [done|]. intros p x Hp Hx.
  pose proof (vs_nodup _ _ _ _ _ _ _ (ps_space _ _ _ _ _ _ _ _ _ Hps1)) as HN1.
  assert (∀ q, q ∈ l → ¬ Kalloc.in_page q x) as Hout.
  { intros q Hq Hqx. apply list.NoDup_app in HN as (_ & HN & _). destruct Hr as [[_ _ Hlp] _ _].
    eapply (pages_apart kend Hkend q p x x); [by apply Hlp|by apply HO|intros ->; by apply (HN p Hq)|done|done|done]. }
  rewrite Hs5 by (intros q Hq; apply Hout; by rewrite <-Hl50). rewrite (Hkeep p) by (done || (apply elem_of_app; by right)).
  rewrite Hs2, Hs1; [done|done|]. intros q Hq. apply Hout. rewrite Hl1. apply elem_of_app.
  apply elem_of_app in Hq as [Hq|Hq]; [by right|left]. unfold owned. rewrite app_comm_cons. apply elem_of_app. by left.
Qed.

(** [copyout] writes as the user program would. For a range inside the
    process it either copies all of [buf] to [va] and returns 0, or stops at the
    first page a user program may not reach and returns -1; a user program then
    reads the bytes copied at their addresses, and no other byte of memory has
    changed, neither the kernel's nor another process's. *)
Theorem copyout_puts l s pgdir tabs ents O sz va buf :
  proc_space l s pgdir tabs ents O sz → bytes buf → 0 ≤ va → va + Z.of_nat (length buf) ≤ 4096 * up sz →
  wp (Vm.copyout pgdir va buf) s (λ r s', ∃ k, proc_space l s' pgdir tabs ents O sz ∧
    (∀ j b, (j < k)%nat → buf !! j = Some b → uload (kmem s') pgdir (va + Z.of_nat j) = Some b) ∧
    (∀ x, (∀ j, (j < k)%nat → mmu (kmem s) pgdir (va + Z.of_nat j) ≠ Some x) → kmem s' x = kmem s x) ∧
    (r = 0 ∧ k = length buf ∨ r = -1 ∧ (k < length buf)%nat ∧ mmu (kmem s) pgdir (va + Z.of_nat k) = None)).
Proof.
  intros Hps Hb Hva Hend. unfold Vm.copyout. eapply wp_mono; [by apply (wp_copyout_loop kend kdata Hkend Hdata _ l s pgdir tabs ents O sz); [lia|..]|].
  intros r s' (k & Hps' & Hput & Hr). exists k. split; [done|]. split; [by apply Hput|]. split; [by apply Hput|done].
Qed.
End spec.

(** ** Examples: a machine after boot *)

Definition demo_end : Z := 0x80108000.
Definition demo_data : Z := 0x80107000.

Lemma demo_layout_vm : KERNBASE < demo_end ∧ demo_data mod 4096 = 0 ∧ KERNLINK < demo_data < KERNBASE + PHYSTOP.
Proof. unfold demo_end, demo_data, KERNLINK, KERNBASE, EXTMEM, PHYSTOP. split; [lia|]. split; [reflexivity|lia]. Qed.

Lemma length_range_pages a b :
  length (Kalloc.range_pages a b) = Z.to_nat ((b - Kalloc.PGROUNDUP a) / PGSIZE).
Proof. unfold Kalloc.range_pages. rewrite length_fmap, length_seqZ. reflexivity. Qed.

Lemma demo_ready : ∃ s l, ready demo_end l s ∧ (1000 ≤ length l)%nat.
Proof.
  destruct (Kalloc.wp_boot demo_end ltac:(unfold demo_end; lia) (Kalloc.St [] false 0 (λ _, 0))) as (_ & _ & Hw); [|done|done|].
  { unfold Kalloc.P2V, demo_end, KERNBASE. lia. }
  destruct (proj1 (wp_done _ _ _) Hw) as ([] & s & _ & l & Hf & Hl & Hh & _ & Hb). exists s, l. split.
  - split; [done|rewrite Hh; apply not_elem_of_nil|]. apply Hb. intros x. simpl. lia.
  - rewrite (Permutation_length Hl), length_app, !length_range_pages. apply Nat.leb_le. vm_compute. reflexivity.
Qed.

(** A process of one page, and a page [q] of someone else. *)
Lemma demo_proc : ∃ q s l pgdir tabs ents, proc_space demo_end demo_data l s pgdir tabs ents [q] 4096 ∧ (500 ≤ length l)%nat ∧
  ∀ va, 0 ≤ va < 4096 → uload (Kalloc.kmem s) pgdir va = Some 0.
Proof.
  destruct demo_layout_vm as [H1 H2]. destruct demo_ready as (s0 & [|q l] & Hr0 & Hlen); [simpl in Hlen; lia|].
  destruct (proj1 (wp_done _ _ _) (wp_kalloc_ready demo_end H1 _ _ Hr0)) as (? & s & _ & _ & _ & Hr & Hq & Hql & _). simpl in Hlen.
  pose proof (wp_new_space demo_end demo_data H1 H2 l s [q] Hr) as Hw.
  assert (NoDup (l ++ [q])) as HN.
  { rewrite Permutation_app_comm. apply list.NoDup_cons. split; [done|]. apply (Kalloc.free_nodup _ _ _ (rd_free _ _ _ Hr)). }
  destruct (proj1 (wp_done _ _ _) (Hw HN ltac:(by intros p ->%list_elem_of_singleton) ltac:(lia)))
    as (d & s1 & _ & _ & _ & l1 & tabs & Hps & _ & Hlen1).
  pose proof (need_le_n (Z.to_nat (up 4096 - up 0)) (hastab tabs) (up 0)) as Hn. change (Z.to_nat (up 4096 - up 0)) with 1%nat in Hn.
  destruct (proj1 (wp_done _ _ _) (wp_grow demo_end demo_data H1 H2 l1 s1 d tabs _ [q] 0 4096 Hps ltac:(unfold KERNBASE; lia)
    ltac:(change (Z.to_nat (up 4096 - up 0)) with 1%nat; lia))) as (r & s2 & _ & -> & fr & l2 & tabs2 & Hps2 & _ & Hlen2 & _ & Hz & _).
  change (Z.to_nat (up 4096 - up 0)) with 1%nat in Hlen2. exists q, s2, l2, d, tabs2. eexists. split; [exact Hps2|]. split; [lia|].
  intros va Hva. rewrite Hz by lia. change (up 0) with 0. change (up 4096) with 1. by rewrite decide_True by lia.
Qed.

Lemma allocuvm_grows_witness :
  ∃ s pgdir s', Vm.allocuvm demo_end pgdir 4096 12288 s = Done 12288 s' ∧ uload (Kalloc.kmem s') pgdir 9000 = Some 0.
Proof.
  destruct demo_layout_vm as [H1 H2]. destruct demo_proc as (q & s & l & d & tabs & ents & Hps & Hlen & _).
  pose proof (need_le_n 2 (hastab tabs) (up 4096)) as Hn.
  destruct (allocuvm_grows demo_end demo_data H1 H2 l s d tabs ents [q] 4096 12288 Hps ltac:(unfold KERNBASE; lia)) as [H _].
  change (Z.to_nat (up 12288 - up 4096)) with 2%nat in H.
  destruct (proj1 (wp_done _ _ _) (H ltac:(lia))) as (r & s' & Hs & -> & l' & tabs' & ents' & _ & _ & _ & Hz & _).
  exists s, d, s'. split; [exact Hs|]. apply Hz. change (up 4096) with 1. change (up 12288) with 3. lia.
Defined.

Lemma copyuvm_copies_witness :
  ∃ s pgdir d s', Vm.copyuvm demo_end demo_data pgdir 4096 s = Done d s' ∧ uload (Kalloc.kmem s') d 100 = Some 0 ∧
    ∀ a, mmu (Kalloc.kmem s') d 100 = Some a → mmu (Kalloc.kmem s') pgdir 100 ≠ Some a.
Proof.
  destruct demo_layout_vm as [H1 H2]. destruct demo_proc as (q & s & l & d & tabs & ents & Hps & Hlen & Hz).
  destruct (proj1 (wp_done _ _ _) (copyuvm_copies demo_end demo_data H1 H2 l s d tabs ents [q] 4096 Hps)) as (c & s' & Hs & _ & _ & Hres).
  change (Z.to_nat (up 4096)) with 1%nat in Hres. destruct Hres as [[_ Hlt]|(l' & tabsd & entsd & _ & _ & _ & Hall)]; [lia|].
  exists s, d, c, s'. split; [exact Hs|]. destruct (Hall 100 ltac:(lia)) as [-> Hd]. split; [apply Hz; lia|].
  intros a. apply Hd. lia.
Defined.

Lemma address_space_returned_witness :
  ∃ s s', (d ← Vm.setupkvm demo_data; Vm.allocuvm demo_end d 0 8192 ;; c ← Vm.copyuvm demo_end demo_data d 8192;
           Vm.freevm demo_end c ;; Vm.freevm demo_end d)%kern s = Done tt s'.
Proof.
  destruct demo_layout_vm as [H1 H2]. destruct demo_ready as (s & l & Hr & Hlen).
  pose proof (address_space_returned demo_end demo_data H1 H2 l s [] 8192 Hr) as H. rewrite app_nil_r in H.
  destruct (proj1 (wp_done _ _ _) (H (Kalloc.free_nodup _ _ _ (rd_free _ _ _ Hr)) ltac:(by intros p ?%not_elem_of_nil)
    ltac:(unfold KERNBASE; lia) ltac:(change (Z.to_nat (up 8192)) with 2%nat; lia))) as ([] & s' & Hs & _).
  exists s, s'. exact Hs.
Defined.

Lemma copyout_puts_witness :
  ∃ s pgdir s', Vm.copyout pgdir 100 [1; 2; 3] s = Done 0 s' ∧ uload (Kalloc.kmem s') pgdir 102 = Some 3.
Proof.
  destruct demo_layout_vm as [H1 H2]. destruct demo_proc as (q & s & l & d & tabs & ents & Hps & Hlen & Hz).
  destruct (proj1 (wp_done _ _ _) (copyout_puts demo_end demo_data H1 H2 l s d tabs ents [q] 4096 100 [1; 2; 3] Hps
    ltac:(repeat constructor; lia) ltac:(lia) ltac:(change (up 4096) with 1; simpl; lia))) as (r & s' & Hs & k & _ & Hb & _ & Hr).
  exists s, d, s'. destruct Hr as [[-> ->]|(_ & Hk & Hn)].
  - split; [exact Hs|]. exact (Hb 2%nat 3 ltac:(simpl; lia) eq_refl).
  - specialize (Hz (100 + Z.of_nat k) ltac:(simpl in Hk; lia)). unfold uload in Hz. rewrite Hn in Hz. discriminate Hz.
Defined.

(** One free page, and a page directory without tables. *)
Definition demo_low : Kalloc.st := Kalloc.St [] false 0x80200000 (λ _, 0).

(** [allocuvm] does not look at what [mappages] returns. With one page free
    and no table for the address, the page is taken, the table cannot be
    allocated, and the call reports that the process has grown to 4096 bytes
    although address 0 is not mapped and the page is lost. *)
Theorem allocuvm_unmapped :
  match Vm.allocuvm demo_end 0x80300000 0 4096 demo_low with
  | Done r s' => r = 4096 ∧ mmu (Kalloc.kmem s') 0x80300000 0 = None ∧ Kalloc.freelist s' = 0
  | _ => False
  end.
Proof. vm_compute. repeat split. Qed.
