(* ===== verification/Pipe.v ===== *)
(** * Pipes (pipe.c)

    The ring buffer and the blocking protocol of [pipewrite] and [piperead].
    A call runs in segments: it holds the pipe's lock from entry (or wakeup) to
    the point where it returns or sleeps. The theorems are about any number of
    readers and writers, interleaved segment by segment: the pipe is a FIFO
    queue, and nobody sleeps while there is something to do. *)

From S2P Require Import Prelude.

Local Open Scope Z_scope.

Definition PIPESIZE : Z := 512.

Module Pipe.

Record st := St {
  sheld : list lock;
  data : list Z;        (* char data[PIPESIZE] *)
  nread : Z;            (* number of bytes read, uint *)
  nwrite : Z;           (* number of bytes written, uint *)
  readopen : bool;
  writeopen : bool;
  woken : list chan;    (* wakeup calls made, in order *)
}.

Definition set_sheld (h : list lock) (s : st) : st :=
  St h (data s) (nread s) (nwrite s) (readopen s) (writeopen s) (woken s).
Definition set_woken (w : list chan) (s : st) : st :=
  St (sheld s) (data s) (nread s) (nwrite s) (readopen s) (writeopen s) w.

#[export] Instance st_locks : HasLocks st.
Proof. refine {| held := sheld; set_held := set_sheld |}; intros; by destruct s. Defined.

(** How a segment ends: a return value, or asleep with [rest] still to do. *)
Inductive res (A : Type) := Ret (r : Z) | Sleeps (rest : A).
Arguments Ret {A} r.
Arguments Sleeps {A} rest.

(** The address of the pipe, which names its lock and its channels. *)
Section pipe.
Context (self : Z).

Definition wakeup (c : chan) : kM st unit := kmodify (λ s, set_woken (woken s ++ [c]) s).

(** [p->data[p->nwrite++ % PIPESIZE] = b;] *)
Definition push (b : Z) (s : st) : st :=
  St (sheld s) (<[Z.to_nat (nwrite s mod PIPESIZE) := u8 b]> (data s)) (nread s) (u32 (nwrite s + 1))
     (readopen s) (writeopen s) (woken s).

(** [p->nread++ % PIPESIZE]: the byte and the state behind it. *)
Definition next (s : st) : Z := default 0 (data s !! Z.to_nat (nread s mod PIPESIZE)).
Definition pop (s : st) : st :=
  St (sheld s) (data s) (u32 (nread s + 1)) (nwrite s) (readopen s) (writeopen s) (woken s).

Definition full (s : st) : bool := bool_decide (nwrite s = u32 (nread s + PIPESIZE)).
Definition empty (s : st) : bool := bool_decide (nread s = nwrite s).

Local Open Scope kern_scope.

(** The loop of [pipewrite] with the bytes [l] left; [killed] is proc->killed. *)
Fixpoint pipewrite_loop (killed : bool) (n : Z) (l : list Z) : kM st (res (list Z)) :=
  match l with
  | [] =>
    wakeup (CPipeRead self) ;;
    release (LPipe self) ;;
    kret (Ret n)
  | b :: l' =>
    s ← kget;
    if full s then
      if negb (readopen s) || killed then release (LPipe self) ;; kret (Ret (-1))
      else
        wakeup (CPipeRead self) ;;
        give_up_cpu (LPipe self) ;;
        kret (Sleeps (b :: l'))
    else kmodify (push b) ;; pipewrite_loop killed n l'
  end.

(** A call of [pipewrite], or the rest of one after a wakeup: [addr] is the
    part of the buffer not yet written and [n] the length of the whole. *)
Definition pipewrite (killed : bool) (n : Z) (addr : list Z) : kM st (res (list Z)) :=
  acquire (LPipe self) ;; pipewrite_loop killed n addr.

(** The copy loop of [piperead]. *)
Fixpoint piperead_copy (n : nat) : kM st (list Z) :=
  match n with
  | O => kret []
  | S n =>
    s ← kget;
    if empty s then kret []
    else kmodify pop ;; l ← piperead_copy n; kret (next s :: l)
  end.

(** A call of [piperead], or the rest of one after a wakeup: the return value
    and the bytes stored at [addr]. *)
Definition piperead (killed : bool) (n : Z) : kM st (res unit * list Z) :=
  acquire (LPipe self) ;;
  s ← kget;
  if empty s && writeopen s then
    if killed then release (LPipe self) ;; kret (Ret (-1), [])
    else give_up_cpu (LPipe self) ;; kret (Sleeps tt, [])
  else
    l ← piperead_copy (Z.to_nat n);
    wakeup (CPipeWrite self) ;;
    release (LPipe self) ;;
    kret (Ret (Z.of_nat (length l)), l).

(** [pipeclose]: whether the pipe's page is to be freed. *)
Definition pipeclose (writable : bool) : kM st bool :=
  acquire (LPipe self) ;;
  (if writable then
     kmodify (λ s, St (sheld s) (data s) (nread s) (nwrite s) (readopen s) false (woken s)) ;;
     wakeup (CPipeRead self)
   else
     kmodify (λ s, St (sheld s) (data s) (nread s) (nwrite s) false (writeopen s) (woken s)) ;;
     wakeup (CPipeWrite self)) ;;
  s ← kget;
  release (LPipe self) ;;
  kret (negb (readopen s) && negb (writeopen s)).

(** What [pipealloc] makes of a fresh page. *)
Definition pipe_init (s : st) : st := St (sheld s) (data s) 0 0 true true [].

(** ** The queue inside the ring *)

Definition count (s : st) : Z := u32 (nwrite s - nread s).

Definition contents (s : st) : list Z :=
  (λ k, default 0 (data s !! Z.to_nat ((nread s + k) mod PIPESIZE))) <$> seqZ 0 (count s).

Record ok (s : st) : Prop := {
  ok_data : length (data s) = Z.to_nat PIPESIZE;
  ok_nread : 0 ≤ nread s < 2 ^ 32;
  ok_nwrite : 0 ≤ nwrite s < 2 ^ 32;
  ok_count : count s ≤ PIPESIZE;
}.

Lemma count_range s : 0 ≤ count s.
Proof. apply u32_range. Qed.

(** 512 divides 2^32: the slot of a counter survives its wrap-around. *)
Lemma slot_wrap z k : (u32 z + k) mod PIPESIZE = (z + k) mod PIPESIZE.
Proof. apply u32_slot; [done|by exists (2 ^ 23)]. Qed.

Lemma nwrite_count s : ok s → nwrite s = u32 (nread s + count s).
Proof.
  intros []. unfold count, u32. rewrite Zplus_mod_idemp_r.
  replace (nread s + (nwrite s - nread s)) with (nwrite s) by lia. rewrite Z.mod_small; lia.
Qed.

Lemma empty_count s : ok s → empty s = bool_decide (count s = 0).
Proof.
  intros Hok. unfold empty. apply bool_decide_ext. split.
  - intros He. unfold count. rewrite He, Z.sub_diag. done.
  - intros Hc. rewrite (nwrite_count s) by done. rewrite Hc, Z.add_0_r. unfold u32.
    rewrite Z.mod_small; [done|apply Hok].
Qed.

Lemma full_count s : ok s → full s = bool_decide (count s = PIPESIZE).
Proof.
  intros Hok. unfold full. apply bool_decide_ext. rewrite (nwrite_count s) at 1 by done. split.
  - apply u32_inj_near; [|unfold PIPESIZE; lia]. pose proof (count_range s).
    pose proof (ok_count s Hok). unfold PIPESIZE in *. lia.
  - by intros ->.
Qed.

Lemma count_push b s : ok s → count s < PIPESIZE → count (push b s) = count s + 1.
Proof.
  intros Hok Hc. unfold count at 1, push. simpl. unfold u32. rewrite Zminus_mod_idemp_l.
  replace (nwrite s + 1 - nread s) with (nwrite s - nread s + 1) by lia.
  rewrite <-Zplus_mod_idemp_l. fold (u32 (nwrite s - nread s)). fold (count s).
  pose proof (count_range s). unfold PIPESIZE in *. rewrite Z.mod_small; lia.
Qed.

Lemma count_pop s : ok s → 0 < count s → count (pop s) = count s - 1.
Proof.
  intros Hok Hc. unfold count at 1, pop. simpl. unfold u32. rewrite Zminus_mod_idemp_r.
  replace (nwrite s - (nread s + 1)) with (nwrite s - nread s - 1) by lia.
  rewrite <-Zminus_mod_idemp_l. fold (u32 (nwrite s - nread s)). fold (count s).
  pose proof (ok_count s Hok). unfold PIPESIZE in *. rewrite Z.mod_small; lia.
Qed.

Lemma ok_push b s : ok s → count s < PIPESIZE → ok (push b s).
Proof.
  intros Hok Hc. pose proof Hok as []. split; simpl; [by rewrite length_insert|done|apply u32_range|].
  rewrite count_push by done. lia.
Qed.

Lemma ok_pop s : ok s → 0 < count s → ok (pop s).
Proof.
  intros Hok Hc. pose proof Hok as []. split; simpl; [done|apply u32_range|done|].
  rewrite count_pop by done. lia.
Qed.

Lemma length_contents s : length (contents s) = Z.to_nat (count s).
Proof. unfold contents. by rewrite length_fmap, length_seqZ. Qed.

Lemma slot_range s k : ok s → (Z.to_nat ((nread s + k) mod PIPESIZE) < length (data s))%nat.
Proof.
  intros Hok. rewrite (ok_data s Hok). unfold PIPESIZE.
  pose proof (Z.mod_pos_bound (nread s + k) 512 ltac:(lia)). lia.
Qed.

(** Distinct positions of the queue are distinct slots. *)
Lemma slot_ne r j k : 0 ≤ j < k → k < PIPESIZE →
  Z.to_nat ((r + j) mod PIPESIZE) ≠ Z.to_nat ((r + k) mod PIPESIZE).
Proof.
  intros Hj Hk He. apply (mod_near PIPESIZE r j k Hj Hk). unfold PIPESIZE in *.
  pose proof (Z.mod_pos_bound (r + j) 512 ltac:(lia)). pose proof (Z.mod_pos_bound (r + k) 512 ltac:(lia)). lia.
Qed.

Lemma contents_push b s : ok s → count s < PIPESIZE → contents (push b s) = contents s ++ [u8 b].
Proof.
  intros Hok Hc. pose proof (count_range s). unfold contents at 1. rewrite count_push by done.
  rewrite seqZ_app by lia. rewrite fmap_app. f_equal.
  - unfold contents. apply list_fmap_ext. intros i k Hk.
    apply lookup_seqZ in Hk as [-> Hk]. unfold push. simpl.
    rewrite (nwrite_count s) by done. rewrite <-(Z.add_0_r (u32 _)), slot_wrap, Z.add_0_r.
    rewrite list_lookup_insert_ne; [done|]. apply not_eq_sym, slot_ne; lia.
  - simpl. unfold push. simpl. rewrite (nwrite_count s) at 1 by done.
    rewrite <-(Z.add_0_r (u32 _)), slot_wrap, Z.add_0_r.
    rewrite list_lookup_insert_eq by by apply slot_range. done.
Qed.

Lemma contents_pop s : ok s → 0 < count s → contents s = next s :: contents (pop s).
Proof.
  intros Hok Hc. unfold contents at 1. rewrite (seqZ_cons 0) by lia. simpl. f_equal.
  - unfold next. by rewrite Z.add_0_r.
  - unfold contents. rewrite count_pop by done. replace (Z.pred (count s)) with (count s - 1) by lia.
    rewrite <-(fmap_add_seqZ 1 0), <-list_fmap_compose. apply list_fmap_ext. intros i k _. simpl.
    rewrite slot_wrap. by rewrite Z.add_assoc.
Qed.

(** ** Segments *)

(** [s'] is [s] but for the buffer, the lock list and the wakeups. *)
Definition same_ends (s s' : st) : Prop := readopen s' = readopen s ∧ writeopen s' = writeopen s.

Lemma wp_release_pipe s (Q : unit → st → Prop) :
  sheld s = [LPipe self] → Q tt (set_sheld [] s) → wp (release (LPipe self)) s Q.
Proof.
  intros Hh HQ. unfold wp. rewrite (release_top _ []) by (done || apply not_elem_of_nil). done.
Qed.

Lemma wp_acquire_pipe s (Q : unit → st → Prop) :
  sheld s = [] → Q tt (set_sheld [LPipe self] s) → wp (acquire (LPipe self)) s Q.
Proof.
  intros Hh HQ. unfold wp. rewrite acquire_free by (simpl; rewrite Hh; apply not_elem_of_nil).
  simpl. by rewrite Hh.
Qed.

Lemma wp_sleep_pipe s (Q : unit → st → Prop) :
  sheld s = [LPipe self] → Q tt (set_sheld [] s) → wp (give_up_cpu (LPipe self)) s Q.
Proof. intros Hh HQ. unfold wp. by rewrite give_up_cpu_done. Qed.

(** What a segment of [pipewrite] does with the bytes [l]. *)
Definition wrote (s : st) (killed : bool) (n : Z) (l : list Z) (r : res (list Z)) (s' : st) : Prop :=
  ok s' ∧ same_ends s s' ∧ sheld s' = [] ∧
  ∃ done rest, l = done ++ rest ∧ contents s' = contents s ++ (u8 <$> done) ∧
    match r with
    | Ret z =>
      (z = n ∧ rest = [] ∧ woken s' = woken s ++ [CPipeRead self]) ∨
      (z = -1 ∧ rest ≠ [] ∧ count s' = PIPESIZE ∧ (readopen s = false ∨ killed = true) ∧
       woken s' = woken s)
    | Sleeps l' => l' = rest ∧ rest ≠ [] ∧ count s' = PIPESIZE ∧ readopen s = true ∧ killed = false ∧
                   woken s' = woken s ++ [CPipeRead self]
    end.

Lemma wp_pipewrite_loop killed n l : ∀ s,
  ok s → sheld s = [LPipe self] → wp (pipewrite_loop killed n l) s (wrote s killed n l).
Proof.
  induction l as [|b l IH]; intros s Hok Hh; simpl.
  - apply wp_bind, wp_modify, wp_bind, wp_release_pipe; [done|]. apply wp_ret.
    unfold wrote. simpl. split; [by destruct Hok; split|]. split; [done|]. split; [done|].
    exists [], []. split; [done|]. split; [by rewrite app_nil_r|]. by left.
  - apply wp_bind, wp_get. rewrite full_count by done. case_bool_decide as Hc.
    + destruct (negb (readopen s) || killed) eqn:Hro.
      * apply wp_bind, wp_release_pipe; [done|]. apply wp_ret.
        split; [by destruct Hok; split|]. split; [done|]. split; [done|].
        exists [], (b :: l). split; [done|]. split; [by rewrite app_nil_r|]. right.
        split_and!; [done..| |done]. apply orb_true_iff in Hro as [Hro|]; [left|by right].
        by apply negb_true_iff in Hro.
      * apply orb_false_iff in Hro as [Hro ->]. apply negb_false_iff in Hro.
        apply wp_bind, wp_modify, wp_bind, wp_sleep_pipe; [done|]. apply wp_ret.
        split; [by destruct Hok; split|]. split; [done|]. split; [done|].
        exists [], (b :: l). split; [done|]. split; [by rewrite app_nil_r|]. by split_and!.
    + assert (count s < PIPESIZE) as Hlt by (pose proof (ok_count s Hok); lia).
      apply wp_bind, wp_modify. eapply wp_mono; [apply IH; [by apply ok_push|done]|].
      intros r s' (Hok' & [? ?] & Hh' & dn & rest & -> & Hcont & Hr). simpl in *.
      split; [done|]. split; [done|]. split; [done|]. exists (b :: dn), rest. split; [done|].
      split; [|done]. rewrite Hcont, contents_push by done. by rewrite <-app_assoc.
Qed.

Lemma wp_pipewrite killed n l s :
  ok s → sheld s = [] → wp (pipewrite killed n l) s (wrote s killed n l).
Proof.
  intros Hok Hh. apply wp_bind, wp_acquire_pipe; [done|].
  eapply wp_mono; [apply wp_pipewrite_loop; [by destruct Hok; split|done]|]. done.
Qed.

Lemma wp_piperead_copy n : ∀ s,
  ok s → wp (piperead_copy n) s (λ l s', ok s' ∧ same_ends s s' ∧ sheld s' = sheld s ∧
    woken s' = woken s ∧ contents s = l ++ contents s' ∧
    length l = Nat.min n (length (contents s))).
Proof.
  induction n as [|n IH]; intros s Hok; simpl; [apply wp_ret; by split_and!|].
  apply wp_bind, wp_get. rewrite empty_count by done. case_bool_decide as Hc.
  - apply wp_ret. split_and!; try done. rewrite length_contents, Hc. done.
  - assert (0 < count s) as Hpos by (pose proof (count_range s); lia).
    apply wp_bind, wp_modify, wp_bind. eapply wp_mono; [apply IH; by apply ok_pop|].
    intros l s' (Hok' & [? ?] & Hh & Hw & Hcont & Hlen). apply wp_ret. simpl in *.
    split_and!; [done..| |]; rewrite contents_pop by done; simpl; congruence.
Qed.

(** What a segment of [piperead] does. *)
Definition read (s : st) (killed : bool) (n : Z) (r : res unit * list Z) (s' : st) : Prop :=
  ok s' ∧ same_ends s s' ∧ sheld s' = [] ∧ contents s = r.2 ++ contents s' ∧
  match r.1 with
  | Ret z =>
    (z = Z.of_nat (length r.2) ∧ length r.2 = Nat.min (Z.to_nat n) (length (contents s)) ∧
     (contents s ≠ [] ∨ writeopen s = false) ∧ woken s' = woken s ++ [CPipeWrite self]) ∨
    (z = -1 ∧ r.2 = [] ∧ contents s = [] ∧ killed = true ∧ writeopen s = true ∧ woken s' = woken s)
  | Sleeps _ => r.2 = [] ∧ contents s = [] ∧ writeopen s = true ∧ killed = false ∧ woken s' = woken s
  end.

Lemma contents_nil s : contents s = [] ↔ count s = 0.
Proof.
  pose proof (count_range s). rewrite <-length_zero_iff_nil, length_contents. lia.
Qed.

Lemma wp_piperead killed n s : ok s → sheld s = [] → wp (piperead killed n) s (read s killed n).
Proof.
  intros Hok Hh. apply wp_bind, wp_acquire_pipe; [done|]. apply wp_bind, wp_get. simpl.
  set (s1 := set_sheld [LPipe self] s). assert (ok s1) as Hok1 by (destruct Hok; by split).
  change (writeopen s1) with (writeopen s). rewrite empty_count by done.
  change (count s1) with (count s).
  destruct (bool_decide (count s = 0) && writeopen s) eqn:Hb.
  - apply andb_true_iff in Hb as [Hc%bool_decide_eq_true Hw]. apply contents_nil in Hc.
    destruct killed.
    + apply wp_bind, wp_release_pipe; [done|]. apply wp_ret.
      split; [by destruct Hok; split|]. split_and!; [done..|]. by right.
    + apply wp_bind, wp_sleep_pipe; [done|]. apply wp_ret.
      split; [by destruct Hok; split|]. by split_and!.
  - apply wp_bind. eapply wp_mono; [by apply wp_piperead_copy|].
    intros l s' (Hok' & [? ?] & Hh' & Hw' & Hcont & Hlen).
    apply wp_bind, wp_modify, wp_bind, wp_release_pipe; [done|]. apply wp_ret. simpl.
    split; [by destruct Hok'; split|]. split_and!; [done..|]. left. simpl.
    split_and!; [done..| |by rewrite Hw'].
    apply andb_false_iff in Hb as [Hb|Hb]; [left|by right].
    rewrite contents_nil. by apply bool_decide_eq_false in Hb.
Qed.

Lemma wp_pipeclose writable s :
  ok s → sheld s = [] →
  wp (pipeclose writable) s (λ r s', ok s' ∧ sheld s' = [] ∧ contents s' = contents s ∧
    readopen s' = (if writable then readopen s else false) ∧
    writeopen s' = (if writable then false else writeopen s) ∧
    r = negb (readopen s') && negb (writeopen s') ∧
    woken s' = woken s ++ [if writable then CPipeRead self else CPipeWrite self]).
Proof.
  intros Hok Hh. apply wp_bind, wp_acquire_pipe; [done|]. apply wp_bind.
  destruct writable; apply wp_bind, wp_modify, wp_modify, wp_bind, wp_get, wp_bind, wp_release_pipe;
    try done; apply wp_ret; (split; [by destruct Hok; split|]); by split_and!.
Qed.

(** ** Readers and writers together *)

(** A process inside [pipewrite] or [piperead]: ready to run its next segment,
    or asleep. *)
Inductive thread :=
| TWrite (n : Z) (l : list Z)
| TWSleep (n : Z) (l : list Z)
| TRead (n : Z)
| TRSleep (n : Z).

Definition wake (w : list chan) (t : thread) : thread :=
  match t with
  | TWSleep n l => if bool_decide (CPipeWrite self ∈ w) then TWrite n l else t
  | TRSleep n => if bool_decide (CPipeRead self ∈ w) then TRead n else t
  | _ => t
  end.

Definition is_writer (t : thread) : bool :=
  match t with TWrite _ _ | TWSleep _ _ => true | _ => false end.

(** The pipe, the processes using it, and all bytes accepted and delivered. *)
Record sys := Sys { pipe : st; threads : list thread; written : list Z; delivered : list Z }.

Definition after_write (n : Z) (r : res (list Z)) : list thread :=
  match r with Ret _ => [] | Sleeps l => [TWSleep n l] end.
Definition after_read (n : Z) (r : res unit) : list thread :=
  match r with Ret _ => [] | Sleeps _ => [TRSleep n] end.

(** One segment of some process; [kills] says whether a writer may have been
    killed. An end is closed only when nobody uses it any more. *)
Inductive step (kills : bool) : sys → sys → Prop :=
| step_call_write p ts W R n l :
    writeopen p = true → step kills (Sys p ts W R) (Sys p (TWrite n l :: ts) W R)
| step_call_read p ts W R n :
    readopen p = true → step kills (Sys p ts W R) (Sys p (TRead n :: ts) W R)
| step_write p ts1 ts2 W R n l killed r p' :
    (killed = true → kills = true) →
    pipewrite killed n l (set_woken [] p) = Done r p' →
    step kills (Sys p (ts1 ++ TWrite n l :: ts2) W R)
      (Sys p' (after_write n r ++ (wake (woken p') <$> ts1 ++ ts2))
           (W ++ (u8 <$> take (Z.to_nat (count p' - count p)) l)) R)
| step_read p ts1 ts2 W R n killed r l p' :
    piperead killed n (set_woken [] p) = Done (r, l) p' →
    step kills (Sys p (ts1 ++ TRead n :: ts2) W R)
      (Sys p' (after_read n r ++ (wake (woken p') <$> ts1 ++ ts2)) W (R ++ l))
| step_close p ts W R writable r p' :
    (∀ t, t ∈ ts → is_writer t = negb writable) →
    pipeclose writable (set_woken [] p) = Done r p' →
    step kills (Sys p ts W R) (Sys p' (wake (woken p') <$> ts) W R)
| step_spurious p ts1 ts2 t W R c :
    step kills (Sys p (ts1 ++ t :: ts2) W R) (Sys p (ts1 ++ wake [c] t :: ts2) W R).

(** A fresh pipe. *)
Definition start (p : st) : sys := Sys (pipe_init p) [] [] [].

(** Why a process may be asleep. *)
Definition asleep_ok (kills : bool) (p : st) (t : thread) : Prop :=
  match t with
  | TWSleep _ _ => count p = PIPESIZE ∧ readopen p = true
  | TRSleep _ => kills = false → contents p = [] ∧ writeopen p = true
  | _ => True
  end.

Record sys_inv (kills : bool) (c : sys) : Prop := {
  si_ok : ok (pipe c);
  si_lock : sheld (pipe c) = [];
  si_fifo : written c = delivered c ++ contents (pipe c);
  si_ends t : t ∈ threads c → if is_writer t then writeopen (pipe c) = true else readopen (pipe c) = true;
  si_asleep t : t ∈ threads c → asleep_ok kills (pipe c) t;
}.

Lemma wake_writer w t : is_writer (wake w t) = is_writer t.
Proof. destruct t; simpl; try case_bool_decide; done. Qed.

Lemma ok_woken w s : ok s → ok (set_woken w s).
Proof. intros []. by split. Qed.

(** A thread other than the one that ran. *)
Lemma asleep_wake kills p p' w t :
  asleep_ok kills p t →
  (CPipeWrite self ∉ w → count p = PIPESIZE → readopen p = true → count p' = PIPESIZE ∧ readopen p' = true) →
  (kills = false → CPipeRead self ∉ w → contents p = [] → writeopen p = true → is_writer t = false →
     contents p' = [] ∧ writeopen p' = true) →
  asleep_ok kills p' (wake w t).
Proof.
  intros Ht Hw Hr. destruct t as [n l|n l|n|n]; simpl in *; [done| |done|].
  - case_bool_decide; simpl; [done|]. naive_solver.
  - case_bool_decide; simpl; [done|]. intros Hk. destruct (Ht Hk). eauto.
Qed.

Lemma elem_threads (ts1 : list thread) t ts2 u :
  u ∈ ts1 ++ ts2 → u ∈ ts1 ++ t :: ts2.
Proof. rewrite !elem_of_app, elem_of_cons. tauto. Qed.

Lemma inv_write kills p ts1 ts2 W R n l killed r p' :
  sys_inv kills (Sys p (ts1 ++ TWrite n l :: ts2) W R) → (killed = true → kills = true) →
  pipewrite killed n l (set_woken [] p) = Done r p' →
  sys_inv kills (Sys p' (after_write n r ++ (wake (woken p') <$> ts1 ++ ts2))
    (W ++ (u8 <$> take (Z.to_nat (count p' - count p)) l)) R).
Proof.
  intros [Hok Hlk Hf Hends Has] Hk Hs. simpl in *.
  pose proof (wp_pipewrite killed n l (set_woken [] p) (ok_woken _ _ Hok) Hlk) as Hw.
  unfold wp in Hw. rewrite Hs in Hw.
  destruct Hw as (Hok' & [Hro Hwo] & Hh & dn & rest & -> & Hcont & Hr). simpl in Hro, Hwo.
  change (contents (set_woken [] p)) with (contents p) in Hcont.
  assert (Z.to_nat (count p' - count p) = length dn) as Hlen.
  { apply (f_equal length) in Hcont. rewrite length_app, length_fmap, !length_contents in Hcont.
    pose proof (count_range p). pose proof (count_range p'). lia. }
  rewrite Hlen, take_app_length.
  split; simpl; [done|done|by rewrite Hf, Hcont, app_assoc| |].
  - intros t [Ht|(u & -> & Hu)%list_elem_of_fmap]%elem_of_app.
    + destruct r; simpl in Ht; [by apply not_elem_of_nil in Ht|apply list_elem_of_singleton in Ht as ->].
      simpl. rewrite Hwo. apply (Hends (TWrite n (dn ++ rest))). apply elem_of_app. right. constructor.
    + rewrite wake_writer, Hro, Hwo. by apply Hends, elem_threads.
  - intros t [Ht|(u & -> & Hu)%list_elem_of_fmap]%elem_of_app.
    + destruct r as [z|l']; simpl in Ht; [by apply not_elem_of_nil in Ht|apply list_elem_of_singleton in Ht as ->].
      simpl. destruct Hr as (-> & _ & ? & ? & _). split; [done|]. by rewrite Hro.
    + pose proof (Has u (elem_threads _ (TWrite n (dn ++ rest)) _ _ Hu)) as Hu'.
      eapply asleep_wake; [done|..].
      * intros _ Hc Hr'. rewrite Hro. split; [|done]. pose proof (ok_count p' Hok').
        apply (f_equal length) in Hcont. rewrite length_app, !length_contents in Hcont.
        pose proof (count_range p'). lia.
      * intros -> Hnw Hc Hwo' Hisr. exfalso. destruct r as [z|l']; simpl in Hr.
        -- destruct Hr as [(_ & _ & Hw)|(_ & _ & Hc' & Hfail & Hw)].
           ++ rewrite Hw in Hnw. apply Hnw. constructor.
           ++ destruct Hfail as [Hro0| ->]; [|by specialize (Hk eq_refl)].
              specialize (Hends u (elem_threads _ _ _ _ Hu)). rewrite Hisr in Hends. congruence.
        -- destruct Hr as (_ & _ & _ & _ & _ & Hw). rewrite Hw in Hnw. apply Hnw. constructor.
Qed.

Lemma inv_read kills p ts1 ts2 W R n killed r l p' :
  sys_inv kills (Sys p (ts1 ++ TRead n :: ts2) W R) →
  piperead killed n (set_woken [] p) = Done (r, l) p' →
  sys_inv kills (Sys p' (after_read n r ++ (wake (woken p') <$> ts1 ++ ts2)) W (R ++ l)).
Proof.
  intros [Hok Hlk Hf Hends Has] Hs. simpl in *.
  pose proof (wp_piperead killed n (set_woken [] p) (ok_woken _ _ Hok) Hlk) as Hw.
  unfold wp in Hw. rewrite Hs in Hw. destruct Hw as (Hok' & [Hro Hwo] & Hh & Hcont & Hr). simpl in *.
  change (contents (set_woken [] p)) with (contents p) in *.
  split; simpl; [done|done|by rewrite Hf, Hcont, app_assoc| |].
  - intros t [Ht|(u & -> & Hu)%list_elem_of_fmap]%elem_of_app.
    + destruct r; simpl in Ht; [by apply not_elem_of_nil in Ht|apply list_elem_of_singleton in Ht as ->].
      simpl. rewrite Hro. apply (Hends (TRead n)). apply elem_of_app. right. constructor.
    + rewrite wake_writer, Hro, Hwo. by apply Hends, elem_threads.
  - intros t [Ht|(u & -> & Hu)%list_elem_of_fmap]%elem_of_app.
    + destruct r as [z|l']; simpl in Ht; [by apply not_elem_of_nil in Ht|apply list_elem_of_singleton in Ht as ->].
      simpl. destruct Hr as (-> & Hc & ? & _). intros _. rewrite Hwo. split; [|done].
      by rewrite Hcont in Hc.
    + eapply asleep_wake; [by apply Has, elem_threads|..].
      * intros Hnw Hc Hr'. rewrite Hro. split; [|done].
        assert (l = []) as ->.
        { destruct r as [z|]; [|by destruct Hr]. destruct Hr as [(_ & _ & _ & Hw)|(_ & ? & _)]; [|done].
          rewrite Hw in Hnw. destruct Hnw. constructor. }
        simpl in Hcont. apply (f_equal length) in Hcont. rewrite !length_contents in Hcont.
        pose proof (count_range p'). pose proof (count_range p). unfold PIPESIZE in *. lia.
      * intros _ _ Hc Hwo' _. rewrite Hwo. split; [|done]. rewrite Hc in Hcont.
        symmetry in Hcont. by apply app_eq_nil in Hcont as [_ ?].
Qed.

Lemma step_sys_inv kills c c' : step kills c c' → sys_inv kills c → sys_inv kills c'.
Proof.
  destruct 1 as [p ts W R n l Hw|p ts W R n Hr|p ts1 ts2 W R n l killed r p' Hk Hs
    |p ts1 ts2 W R n killed r l p' Hs|p ts W R writable r p' Hts Hs|p ts1 ts2 t W R c];
    intros HI; [| |by eapply inv_write|by eapply inv_read|..].
  - destruct HI as [Hok Hlk Hf Hends Has]; simpl in *.
    split; simpl; [done..| |]; intros t [->|Ht]%elem_of_cons; [done|by apply Hends|done|by apply Has].
  - destruct HI as [Hok Hlk Hf Hends Has]; simpl in *.
    split; simpl; [done..| |]; intros t [->|Ht]%elem_of_cons; [done|by apply Hends|done|by apply Has].
  - destruct HI as [Hok Hlk Hf Hends Has]; simpl in *.
    pose proof (wp_pipeclose writable (set_woken [] p) (ok_woken _ _ Hok) Hlk) as Hw.
    unfold wp in Hw. rewrite Hs in Hw. destruct Hw as (Hok' & Hh & Hcont & Hro & Hwo & _ & Hwk). simpl in *.
    change (contents (set_woken [] p)) with (contents p) in *.
    split; simpl; [done|done|by rewrite Hcont| |]; intros t (u & -> & Hu)%list_elem_of_fmap.
    + rewrite wake_writer, Hro, Hwo. specialize (Hends u Hu). specialize (Hts u Hu).
      destruct writable, (is_writer u); done.
    + eapply asleep_wake; [by apply Has|..].
      * intros Hnw Hc Hr'. destruct writable; [|by rewrite Hwk in Hnw; destruct Hnw; constructor].
        rewrite Hro. split; [|done]. apply (f_equal length) in Hcont. rewrite !length_contents in Hcont.
        pose proof (count_range p'). pose proof (count_range p). unfold PIPESIZE in *. lia.
      * intros _ Hnw Hc Hw' _. destruct writable; [by rewrite Hwk in Hnw; destruct Hnw; constructor|].
        by rewrite Hwo, Hcont.
  - destruct HI as [Hok Hlk Hf Hends Has]; simpl in *. split; simpl; [done..| |];
      intros u [Hu|[->|Hu]%elem_of_cons]%elem_of_app.
    1,3: apply Hends, elem_of_app; set_solver.
    1: rewrite wake_writer; apply Hends, elem_of_app; set_solver.
    1,3: apply Has, elem_of_app; set_solver.
    eapply asleep_wake; [apply Has, elem_of_app; right; constructor|done|done].
Qed.

Lemma start_inv kills p :
  length (data p) = Z.to_nat PIPESIZE → sheld p = [] → sys_inv kills (start p).
Proof.
  intros Hd Hl. split; simpl; [by split|done|done|by intros t ?%not_elem_of_nil..].
Qed.

Lemma pipe_reach_inv kills p c :
  length (data p) = Z.to_nat PIPESIZE → sheld p = [] → rtc (step kills) (start p) c → sys_inv kills c.
Proof.
  intros Hd Hl Hr. pose proof (start_inv kills p Hd Hl) as HI.
  induction Hr; [done|]. eauto using step_sys_inv.
Qed.

(** ** Theorems *)

(** C33: a pipe is a FIFO queue of at most 512 bytes: whatever readers and
    writers do, in any interleaving and also when the 32-bit counters wrap, the
    bytes delivered followed by those in the buffer are the bytes accepted, in
    order. *)
Theorem pipe_is_fifo kills p c :
  length (data p) = Z.to_nat PIPESIZE → sheld p = [] → rtc (step kills) (start p) c →
  written c = delivered c ++ contents (pipe c) ∧ (length (contents (pipe c)) ≤ 512)%nat.
Proof.
  intros Hd Hl Hr. destruct (pipe_reach_inv _ _ _ Hd Hl Hr) as [Hok _ Hf _ _]. split; [done|].
  rewrite length_contents. pose proof (ok_count _ Hok). unfold PIPESIZE in *. lia.
Qed.

(** C34: unless a writer is killed, no wakeup is lost: a writer sleeps only while
    the buffer is full and the read end open, a reader only while the buffer is
    empty and the write end open, so the two are never asleep together. *)
Theorem pipe_no_lost_wakeup p c :
  length (data p) = Z.to_nat PIPESIZE → sheld p = [] → rtc (step false) (start p) c →
  (∀ n l, TWSleep n l ∈ threads c → full (pipe c) = true ∧ readopen (pipe c) = true) ∧
  (∀ n, TRSleep n ∈ threads c → empty (pipe c) = true ∧ writeopen (pipe c) = true) ∧
  ¬ ((∃ n l, TWSleep n l ∈ threads c) ∧ ∃ n, TRSleep n ∈ threads c).
Proof.
  intros Hd Hl Hr. destruct (pipe_reach_inv _ _ _ Hd Hl Hr) as [Hok _ _ _ Has].
  assert (∀ n l, TWSleep n l ∈ threads c → count (pipe c) = PIPESIZE ∧ readopen (pipe c) = true) as HW.
  { intros n l Ht. exact (Has _ Ht). }
  assert (∀ n, TRSleep n ∈ threads c → count (pipe c) = 0 ∧ writeopen (pipe c) = true) as HR.
  { intros n Ht. destruct (Has _ Ht eq_refl) as [?%contents_nil ?]. done. }
  split_and!.
  - intros n l Ht. destruct (HW n l Ht). rewrite full_count by done. by rewrite bool_decide_true.
  - intros n Ht. destruct (HR n Ht). rewrite empty_count by done. by rewrite bool_decide_true.
  - intros [(n & l & Hw) (m & Hm)]. destruct (HW _ _ Hw) as [Hc _]. destruct (HR _ Hm) as [Hc' _].
    unfold PIPESIZE in *. lia.
Qed.

(** Every segment of [pipewrite] and [piperead] returns or sleeps, holding
    no lock: a write appends a prefix of its bytes and reports success only for
    all of them; a read takes the [min] of what it asked for and what is there. *)
Theorem pipe_calls_decide killed n l s :
  ok s → sheld s = [] →
  (∃ r s', pipewrite killed n l s = Done r s' ∧ wrote s killed n l r s') ∧
  (∃ r s', piperead killed n s = Done r s' ∧ read s killed n r s').
Proof.
  intros Hok Hh. split; apply wp_done; [by apply wp_pipewrite|by apply wp_piperead].
Qed.
End pipe.

(** ** Witnesses *)

Definition blank : st := St [] (replicate 512 0) 0 0 false false [].

Definition one_byte : sys := Sys
  (match pipewrite 7 false 1 [65] (set_woken [] (pipe_init blank)) with Done _ p => p | _ => blank end)
  [] [65] [].

Lemma one_byte_reach kills : rtc (step 7 kills) (start blank) one_byte.
Proof.
  eapply rtc_l; [apply (step_call_write 7 kills (pipe_init blank) [] [] [] 1 [65]); reflexivity|].
  eapply rtc_l; [|apply rtc_refl].
  refine (step_write 7 kills (pipe_init blank) [] [] [] [] 1 [65] false (Ret 1) (pipe one_byte) _ _);
    [discriminate|]. vm_compute. reflexivity.
Defined.

Lemma pipe_is_fifo_witness : written one_byte = delivered one_byte ++ contents (pipe one_byte).
Proof.
  refine (proj1 (pipe_is_fifo 7 true blank one_byte _ _ _)); [reflexivity|reflexivity|].
  exact (one_byte_reach true).
Defined.

Lemma pipe_no_lost_wakeup_witness :
  ¬ ((∃ n l, TWSleep n l ∈ threads one_byte) ∧ ∃ n, TRSleep n ∈ threads one_byte).
Proof.
  refine (proj2 (proj2 (pipe_no_lost_wakeup 7 blank one_byte _ _ _))); [reflexivity|reflexivity|].
  exact (one_byte_reach false).
Defined.

Lemma pipe_calls_decide_witness :
  ∃ r s', pipewrite 7 false 2 [65; 66] (pipe_init blank) = Done r s' ∧
          wrote 7 (pipe_init blank) false 2 [65; 66] r s'.
Proof.
  refine (proj1 (pipe_calls_decide 7 false 2 [65; 66] (pipe_init blank) _ _)); [|reflexivity].
  split; vm_compute; (reflexivity || (split; [discriminate|reflexivity]) || discriminate).
Defined.

(** A reader asleep on an empty pipe, then a writer that was killed. *)
Definition reader_asleep : st :=
  match piperead 7 false 1 (set_woken [] (pipe_init blank)) with Done _ p => p | _ => blank end.
Definition killed_write : st :=
  match pipewrite 7 true 513 (replicate 513 65) (set_woken [] reader_asleep) with Done _ p => p | _ => blank end.

(** A killed writer strands a reader: it fills the empty pipe on which the
    reader sleeps and then returns -1 without [wakeup], so the reader sleeps on
    although 512 bytes are waiting for it. *)
Theorem killed_writer_strands_reader :
  ∃ c, rtc (step 7 true) (start blank) c ∧ threads c = [TRSleep 1] ∧
       length (contents (pipe c)) = 512%nat ∧ readopen (pipe c) = true ∧ writeopen (pipe c) = true.
Proof.
  exists (Sys killed_write [TRSleep 1] (replicate 512 65) []). split; [|by vm_compute].
  eapply rtc_l; [apply (step_call_read 7 true (pipe_init blank) [] [] [] 1); reflexivity|].
  eapply rtc_l.
  { refine (step_read 7 true (pipe_init blank) [] [] [] [] 1 false (Sleeps tt) [] reader_asleep _).
    vm_compute. reflexivity. }
  eapply rtc_l; [apply (step_call_write 7 true reader_asleep _ _ _ 513 (replicate 513 65)); reflexivity|].
  eapply rtc_l; [|apply rtc_refl].
  refine (step_write 7 true reader_asleep [] [TRSleep 1] [] [] 513 (replicate 513 65) true
    (Ret (-1)) killed_write _ _); [done|]. vm_compute. reflexivity.
Qed.
End Pipe.
