(* ===== verification/Drive.v ===== *)
(** * An IDE drive, as its drivers see it

    ide.c and bootmain.c talk to the disk through I/O ports. The drive is not part
    of the sources: it is a parameter, of which [DriveOk] states the documented
    behaviour in PIO mode. A view gives the registers, the sectors of the two disks
    and the transfer in progress, and each access to a port has its effect on the
    view. A drive for the examples is at the end. *)

From S2P Require Import Prelude.

Local Open Scope Z_scope.

Definition IDE_BSY : Z := 128.
Definition IDE_DRDY : Z := 64.
Definition IDE_DF : Z := 32.
Definition IDE_ERR : Z := 1.
Definition IDE_CMD_READ : Z := 32.
Definition IDE_CMD_WRITE : Z := 48.
Definition SECTOR_SIZE : nat := 512.

(** The port instructions of x86.h; [insl] and [outsl] move [cnt] words of 4 bytes. *)
Class Drive (D : Type) := {
  inb : Z → D → Z * D;
  outb : Z → Z → D → D;
  insl : Z → nat → D → list Z * D;
  outsl : Z → list Z → D → D;
}.

(** A transfer: its direction, disk, first sector and number of sectors. *)
Record xfer := Xfer { xwrite : bool; xdisk : Z; xsector : Z; xcount : Z }.

Record dview := DView {
  reg : Z → Z;               (* ports 0x1f2 to 0x1f6 *)
  sect : Z → Z → list Z;     (* disk and sector *)
  busy_with : option xfer;
}.

Definition set_reg (p v : Z) (x : dview) : dview := DView (upd (reg x) p v) (sect x) (busy_with x).
Definition set_sect (k n : Z) (l : list Z) (x : dview) : dview :=
  DView (reg x) (λ k' n', if decide (k' = k ∧ n' = n) then l else sect x k' n') (busy_with x).
Definition set_busy_with (o : option xfer) (x : dview) : dview := DView (reg x) (sect x) o.

(** The sector addressed by the registers: 28 bits, and the disk in bit 4 of 0x1f6. *)
Definition lba (x : dview) : Z :=
  reg x 0x1f3 + 2 ^ 8 * reg x 0x1f4 + 2 ^ 16 * reg x 0x1f5 + 2 ^ 24 * Z.land (reg x 0x1f6) 15.
Definition selected (x : dview) : Z := Z.land (Z.shiftr (reg x 0x1f6) 4) 1.
Definition start (w : bool) (x : dview) : dview :=
  set_busy_with (Some (Xfer w (selected x) (lba x) (reg x 0x1f2))) x.

(** Every sector has its 512 bytes. *)
Definition sectors_ok (x : dview) : Prop := ∀ k n, length (sect x k n) = SECTOR_SIZE.

Lemma sectors_ok_set k n l x : sectors_ok x → length l = SECTOR_SIZE → sectors_ok (set_sect k n l x).
Proof. intros Hx Hl k' n'. simpl. case_decide; [done|apply Hx]. Qed.

(** The drive is ready to go on. *)
Definition drdy (r : Z) : Prop := Z.land r (Z.lor IDE_BSY IDE_DRDY) = IDE_DRDY.

(** The [k]-th of the coming readings of the status. *)
Fixpoint status {D} `{Drive D} (k : nat) (d : D) : Z :=
  match k with O => (inb 0x1f7 d).1 | S k => status k (inb 0x1f7 d).2 end.

Class DriveOk (D : Type) `{Drive D} := {
  view : D → dview;
  patience : nat;
  (** Reading the status changes nothing, and the drive is ready in time. *)
  drive_status d : view (inb 0x1f7 d).2 = view d;
  drive_ready d : ∃ k, (k < patience)%nat ∧ drdy (status k d);
  (** When it is ready it reports no error. *)
  drive_good d : drdy (inb 0x1f7 d).1 → Z.land (inb 0x1f7 d).1 (Z.lor IDE_DF IDE_ERR) = 0;
  drive_reg p v d : 0x1f2 ≤ p ≤ 0x1f6 → view (outb p v d) = set_reg p v (view d);
  drive_control v d : view (outb 0x3f6 v d) = view d;
  drive_read d : view (outb 0x1f7 IDE_CMD_READ d) = start false (view d);
  drive_write d : view (outb 0x1f7 IDE_CMD_WRITE d) = start true (view d);
  (** A transfer of one sector moves its 512 bytes and ends. *)
  drive_in k n d : busy_with (view d) = Some (Xfer false k n 1) →
    (insl 0x1f0 128 d).1 = sect (view d) k n ∧ view (insl 0x1f0 128 d).2 = set_busy_with None (view d);
  drive_out k n l d : busy_with (view d) = Some (Xfer true k n 1) → length l = SECTOR_SIZE →
    view (outsl 0x1f0 l d) = set_busy_with None (set_sect k n l (view d));
}.

Section poll.
Context {D : Type} `{DriveOk D}.

(** [while(((r = inb(0x1f7)) & (IDE_BSY|IDE_DRDY)) != IDE_DRDY);] and the last
    reading, if it comes within [fuel] readings. *)
Fixpoint poll (fuel : nat) (d : D) : option (Z * D) :=
  match fuel with
  | O => None
  | S fuel =>
    let '(r, d) := inb 0x1f7 d in
    if bool_decide (drdy r) then Some (r, d) else poll fuel d
  end.

Lemma poll_ready d :
  ∃ r d', poll patience d = Some (r, d') ∧ view d' = view d ∧ Z.land r (Z.lor IDE_DF IDE_ERR) = 0.
Proof.
  destruct (drive_ready d) as (k & Hk & Hr). revert d Hk Hr.
  generalize patience as fuel. intros fuel. revert k.
  induction fuel as [|fuel IH]; intros k d Hk Hr; [lia|]. simpl.
  pose proof (drive_status d) as Hs. pose proof (drive_good d) as Hg.
  destruct (inb 0x1f7 d) as [r d'] eqn:Hi. simpl in *. case_bool_decide as Hd; [exists r, d'; auto|].
  destruct k as [|k]; cbn [status] in Hr; rewrite Hi in Hr; cbn [fst snd] in Hr; [done|].
  destruct (IH k d') as (r2 & d2 & ? & Hv & ?); [lia|done|]. exists r2, d2. by rewrite Hv.
Qed.
End poll.

(** ** A drive for the examples *)

(** It is busy at every second reading of the status. *)
Record simdrive := Simdrive { sregs : Z → Z; ssect : Z → Z → list Z; sbusy : option xfer; sflip : bool }.

Definition sview (d : simdrive) : dview := DView (sregs d) (ssect d) (sbusy d).
Definition set_sview (v : dview) (d : simdrive) : simdrive := Simdrive (reg v) (sect v) (busy_with v) (sflip d).

#[export] Instance sim_drive : Drive simdrive := {|
  inb p d := (if sflip d then IDE_DRDY else IDE_BSY, Simdrive (sregs d) (ssect d) (sbusy d) (negb (sflip d)));
  outb p v d :=
    if bool_decide (p = 0x1f7) then set_sview (start (bool_decide (v = IDE_CMD_WRITE)) (sview d)) d
    else if bool_decide (p = 0x3f6) then d else set_sview (set_reg p v (sview d)) d;
  insl p cnt d :=
    match sbusy d with
    | Some x => (ssect d (xdisk x) (xsector x), set_sview (set_busy_with None (sview d)) d)
    | None => ([], d)
    end;
  outsl p l d :=
    match sbusy d with
    | Some x => set_sview (set_busy_with None (set_sect (xdisk x) (xsector x) l (sview d))) d
    | None => d
    end;
|}.

#[export] Instance sim_ok : DriveOk simdrive.
Proof.
  refine {| view := sview; patience := 2 |}.
  - done.
  - intros d. destruct (sflip d) eqn:Hf; [exists 0%nat|exists 1%nat]; split; try lia; simpl; rewrite Hf; done.
  - intros d. simpl. by destruct (sflip d).
  - intros p v d Hp. simpl. rewrite !bool_decide_false by lia. done.
  - done.
  - done.
  - done.
  - intros k n d Hb. simpl in *. by rewrite Hb.
  - intros k n l d Hb Hl. simpl in *. by rewrite Hb.
Defined.
