(* ===== verification/Bio.v ===== *)
(** * The buffer cache and the disk (bio.c, buf.h, memide.c)

    Buffers sit in a doubly linked list in order of use; the list is modelled
    by its [next]/[prev] pointers and proved to behave like a list. The disk
    driver is the synchronous one of memide.c; the disk keeps the sequence of
    writes it received, for the crash reasoning of Log.v. The relation [rep]
    states what the cache promises: the contents of all blocks as the kernel
    sees them, which blocks are locked and which wait for their commit. *)

From S2P Require Import Prelude.

Definition BSIZE : nat := 512.
Definition NBUF : nat := 30.
Definition ROOTDEV : Z := 1.

Abbreviation block := (list Z).

(** ** Doubly linked lists *)

Section dll.
(** The list head is a node of its own. *)
Context (head : nat).

Record links := Links { nxt : nat → nat; prv : nat → nat }.

(** [b->next->prev = b->prev; b->prev->next = b->next;] *)
Definition unlink (b : nat) (k : links) : links :=
  let k := Links (nxt k) (upd (prv k) (nxt k b) (prv k b)) in
  Links (upd (nxt k) (prv k b) (nxt k b)) (prv k).

(** [b->next = head.next; b->prev = &head; head.next->prev = b; head.next = b;] *)
Definition push_front (b : nat) (k : links) : links :=
  let k := Links (upd (nxt k) b (nxt k head)) (upd (prv k) b head) in
  let k := Links (nxt k) (upd (prv k) (nxt k head) b) in
  Links (upd (nxt k) head b) (prv k).

(** The nodes visited from [b] until the head comes round again. *)
Fixpoint walk (step : nat → nat) (fuel b : nat) : option (list nat) :=
  match fuel with
  | O => None
  | S fuel => if decide (b = head) then Some [] else cons b <$> walk step fuel (step b)
  end.

(** [l] are the nodes between [a] and [b]. *)
Fixpoint seg (k : links) (a : nat) (l : list nat) (b : nat) : Prop :=
  match l with
  | [] => nxt k a = b ∧ prv k b = a
  | x :: l => nxt k a = x ∧ prv k x = a ∧ seg k x l b
  end.

Definition dll (k : links) (l : list nat) : Prop := seg k head l head ∧ NoDup (head :: l).

Lemma seg_app k a l1 x l2 b : seg k a (l1 ++ x :: l2) b ↔ seg k a l1 x ∧ seg k x l2 b.
Proof.
  revert a. induction l1 as [|y l1 IH]; intros a; simpl; [tauto|]. rewrite IH. tauto.
Qed.

(** Pointers of nodes outside the segment do not matter. *)
Lemma seg_frame k k' a l b :
  seg k a l b → (∀ x, x ∈ a :: l → nxt k' x = nxt k x) → (∀ x, x ∈ l ++ [b] → prv k' x = prv k x) →
  seg k' a l b.
Proof.
  revert a. induction l as [|x l IH]; intros a Hs Hn Hp; simpl in *.
  - rewrite Hn, Hp by constructor. done.
  - destruct Hs as (? & ? & Hs). rewrite Hn, Hp by constructor. split_and!; [done..|].
    apply IH; [done| |]; intros y Hy; [apply Hn|apply Hp]; set_solver.
Qed.

Lemma seg_first k a l b : seg k a l b → nxt k a = default b (l !! 0).
Proof. destruct l; simpl; [naive_solver|]. by intros (? & _). Qed.

Lemma seg_last k a l b : seg k a l b → prv k b = default a (list.last l).
Proof.
  revert a. induction l as [|x l IH]; intros a; simpl; [naive_solver|].
  intros (_ & _ & Hs). rewrite (IH x Hs), last_cons. by destruct (list.last l).
Qed.

Lemma dll_walk k l : dll k l → walk (nxt k) (S (length l)) (nxt k head) = Some l.
Proof.
  intros [Hs Hnd]. apply list.NoDup_cons in Hnd as [Hh _].
  assert (∀ a, seg k a l head → walk (nxt k) (S (length l)) (nxt k a) = Some l) as Hw; [|by apply Hw].
  clear Hs. induction l as [|x l IH]; intros a Hs.
  - simpl in Hs. destruct Hs as [-> _]. simpl. by rewrite decide_True.
  - simpl in Hs. destruct Hs as (-> & _ & Hs). apply not_elem_of_cons in Hh as [Hx Hh].
    change (walk (nxt k) (S (length (x :: l))) x) with
      (if decide (x = head) then Some [] else cons x <$> walk (nxt k) (S (length l)) (nxt k x)).
    rewrite decide_False by done. by rewrite (IH Hh x Hs).
Qed.

Lemma dll_walk_back k l : dll k l → walk (prv k) (S (length l)) (prv k head) = Some (reverse l).
Proof.
  intros [Hs Hnd]. apply list.NoDup_cons in Hnd as [Hh _].
  assert (∀ b, seg k head l b → walk (prv k) (S (length l)) (prv k b) = Some (reverse l)) as Hw;
    [|by apply Hw].
  clear Hs. induction l as [|x l IH] using rev_ind; intros b Hs.
  - simpl in Hs. destruct Hs as [_ ->]. simpl. by rewrite decide_True.
  - apply seg_app in Hs as [Hs1 [_ Hb]]. rewrite Hb, length_app, Nat.add_1_r, reverse_snoc.
    apply not_elem_of_app in Hh as [Hh Hx%not_elem_of_cons].
    change (walk (prv k) (S (S (length l))) x) with
      (if decide (x = head) then Some [] else cons x <$> walk (prv k) (S (length l)) (prv k x)).
    rewrite decide_False by naive_solver. by rewrite (IH Hh x Hs1).
Qed.

Lemma seg_unlink k k' a l1 b l2 e :
  seg k a l1 b → seg k b l2 e → NoDup (a :: l1 ++ l2) → NoDup (l1 ++ l2 ++ [e]) →
  (∀ x, x ≠ b → nxt k' x = if decide (x = default a (list.last l1)) then default e (l2 !! 0) else nxt k x) →
  (∀ x, x ≠ b → prv k' x = if decide (x = default e (l2 !! 0)) then default a (list.last l1) else prv k x) →
  b ∉ a :: l1 ++ l2 ++ [e] →
  seg k' a (l1 ++ l2) e.
Proof.
  revert a. induction l1 as [|x l1 IH]; intros a H1 H2 Hnd1 Hnd2 Hn Hp Hb.
  - simpl in *. apply list.NoDup_cons in Hnd1 as [Ha _]. destruct l2 as [|y l2]; simpl in *.
    + rewrite Hn, Hp, !decide_True by set_solver. done.
    + destruct H2 as (_ & _ & H2). apply list.NoDup_cons in Hnd2 as [Hy _].
      rewrite Hn, Hp, !decide_True by set_solver. split_and!; [done..|].
      eapply seg_frame; [done| |]; intros z Hz.
      * rewrite Hn by set_solver. rewrite decide_False; [done|]. set_solver.
      * rewrite Hp by set_solver. rewrite decide_False; [done|]. set_solver.
  - simpl in H1. destruct H1 as (H1a & H1x & H1).
    assert (default a (list.last (x :: l1)) = default x (list.last l1)) as Hlast.
    { rewrite last_cons. by destruct (list.last l1). }
    rewrite Hlast in *. assert (default x (list.last l1) ∈ x :: l1) as Hin.
    { destruct (list.last l1) as [z|] eqn:Hz; [|constructor]. apply last_Some in Hz as [? ->]. set_solver. }
    assert (default e (l2 !! 0) ∈ l2 ++ [e]) as Hin2 by (destruct l2; set_solver).
    simpl in Hnd1, Hnd2. apply list.NoDup_cons in Hnd1 as [Ha Hnd1].
    apply list.NoDup_cons in Hnd2 as [Hx Hnd2]. simpl. split_and!.
    + rewrite Hn by (clear -Hb; set_solver). rewrite decide_False; [done|].
      intros Heq. rewrite <-Heq in Hin. clear -Ha Hin. set_solver.
    + rewrite Hp by (clear -Hb; set_solver). rewrite decide_False; [done|].
      intros Heq. rewrite <-Heq in Hin2. clear -Hx Hin2. set_solver.
    + apply IH; try done. clear -Hb. set_solver.
Qed.

Lemma dll_unlink k l1 b l2 : dll k (l1 ++ b :: l2) → dll (unlink b k) (l1 ++ l2).
Proof.
  intros [Hs Hnd]. apply seg_app in Hs as [H1 H2].
  assert (head :: l1 ++ b :: l2 ≡ₚ b :: head :: l1 ++ l2) as Hperm.
  { by rewrite <-Permutation_middle, Permutation_swap. }
  rewrite Hperm in Hnd. apply list.NoDup_cons in Hnd as [Hb Hnd]. split; [|done].
  assert (nxt k b ≠ b) as Hbn.
  { rewrite (seg_first _ _ _ _ H2). destruct l2; simpl; set_solver. }
  eapply (seg_unlink k _ head l1 b l2 head); [done|done|done| | | |set_solver].
  - rewrite app_assoc, Permutation_app_comm. done.
  - intros x Hx. unfold unlink. simpl. unfold upd. rewrite (decide_False (P := b = nxt k b)) by done.
    rewrite <-(seg_last _ _ _ _ H1), <-(seg_first _ _ _ _ H2). done.
  - intros x Hx. unfold unlink. simpl. unfold upd.
    rewrite <-(seg_last _ _ _ _ H1), <-(seg_first _ _ _ _ H2). done.
Qed.

Lemma dll_push_front k b l : dll k l → b ∉ head :: l → dll (push_front b k) (b :: l).
Proof.
  intros [Hs Hnd] Hb. apply not_elem_of_cons in Hb as [Hbh Hb].
  split. 2: { apply list.NoDup_cons in Hnd as [Hh Hnd]. apply list.NoDup_cons.
    split; [set_solver|]. by apply list.NoDup_cons. }
  pose proof (seg_first _ _ _ _ Hs) as Hf.
  assert (∀ x, nxt (push_front b k) x = if decide (x = head) then b else if decide (x = b) then nxt k head else nxt k x) as Hn by done.
  assert (∀ x, prv (push_front b k) x = if decide (x = nxt k head) then b else if decide (x = b) then head else prv k x) as Hp.
  { intros x. unfold push_front. simpl. unfold upd. by rewrite (decide_False (P := head = b)). }
  set (k' := push_front b k) in *. clearbody k'.
  apply list.NoDup_cons in Hnd as [Hh Hnd]. simpl. rewrite Hn, decide_True by done.
  rewrite Hp. rewrite decide_False by (rewrite Hf; destruct l; set_solver). rewrite decide_True by done.
  split_and!; [done..|]. destruct l as [|y l]; simpl in *.
  - rewrite Hn, decide_False, decide_True by done. rewrite Hp, decide_True by done. by rewrite Hf.
  - rewrite Hn, decide_False, decide_True by done. rewrite Hp, decide_True by done.
    split_and!; [done..|]. destruct Hs as (_ & _ & Hs). apply list.NoDup_cons in Hnd as [Hy Hnd].
    eapply seg_frame; [done| |]; intros z Hz.
    + rewrite Hn, !decide_False; [done|set_solver..].
    + rewrite Hp, !decide_False; [done|set_solver|]. rewrite Hf. set_solver.
Qed.
End dll.

(** ** Buffers and their operations *)

(** [struct buf]; the three bits of [flags] are separate. *)
Record buf := Buf {
  bdev : Z;
  bblockno : Z;
  bbusy : bool;     (* B_BUSY: locked by some process *)
  bvalid : bool;    (* B_VALID: has been read from disk *)
  bdirty : bool;    (* B_DIRTY: needs to be written to disk *)
  bdata : block;
}.

Definition set_busy (v : bool) (b : buf) : buf := Buf (bdev b) (bblockno b) v (bvalid b) (bdirty b) (bdata b).
Definition set_dirty (v : bool) (b : buf) : buf := Buf (bdev b) (bblockno b) (bbusy b) (bvalid b) v (bdata b).
Definition set_data (d : block) (b : buf) : buf := Buf (bdev b) (bblockno b) (bbusy b) (bvalid b) (bdirty b) d.

Module Bio.

(** The head of the list is node [NBUF]. *)
Record st := St {
  sheld : list lock;
  bufs : list buf;                 (* bcache.buf *)
  lru : links;                     (* prev/next of the buffers and of bcache.head *)
  disk : Z → block;
  writes : list (Z * block);       (* disk writes so far, in order *)
  woken : list chan;
}.

Definition set_sheld (v : list lock) (s : st) : st := St v (bufs s) (lru s) (disk s) (writes s) (woken s).
Definition set_bufs (v : list buf) (s : st) : st := St (sheld s) v (lru s) (disk s) (writes s) (woken s).
Definition set_lru (v : links) (s : st) : st := St (sheld s) (bufs s) v (disk s) (writes s) (woken s).

#[export] Instance st_locks : HasLocks st.
Proof. refine {| held := sheld; set_held := set_sheld |}; intros; by destruct s. Defined.

Section bio.
(** Number of blocks of the disk image (memide.c: disksize). *)
Context (disksize : Z).

Local Open Scope kern_scope.

Definition wakeup (c : chan) : kM st unit :=
  kmodify (λ s, St (sheld s) (bufs s) (lru s) (disk s) (writes s) (woken s ++ [c])).

(** [bcache.buf[i]]. *)
Definition getb (i : nat) : kM st buf := s ← kget; kunwrap (bufs s !! i).
Definition putb (i : nat) (b : buf) : kM st unit := kmodify (λ s, set_bufs (<[i := b]> (bufs s)) s).

Definition binit : kM st unit :=
  kmodify (set_lru (Links (λ x, x) (λ x, x))) ;;
  kfor (seq 0 NBUF) (λ i,
    b ← getb i;
    putb i (Buf (2 ^ 32 - 1) (bblockno b) (bbusy b) (bvalid b) (bdirty b) (bdata b)) ;;
    kmodify (λ s, set_lru (push_front NBUF i (lru s)) s)).

(** Is buffer [i] the one for block [blockno] of device [dev]? *)
Definition caches (bs : list buf) (dev blockno : Z) (i : nat) : bool :=
  match bs !! i with
  | Some b => bool_decide (bdev b = dev) && bool_decide (bblockno b = blockno)
  | None => false
  end.

Definition unused (bs : list buf) (i : nat) : bool :=
  match bs !! i with Some b => negb (bbusy b) && negb (bdirty b) | None => false end.

(** From the label [loop] on, bcache.lock being held. *)
Definition bget_loop (dev blockno : Z) : kM st nat :=
  s ← kget;
  (* Is the block already cached? *)
  mru ← kunwrap (walk NBUF (nxt (lru s)) (S NBUF) (nxt (lru s) NBUF));
  match list_find (λ i, caches (bufs s) dev blockno i = true) mru with
  | Some (_, i) =>
    b ← getb i;
    if bbusy b then sleep (CBuf i) LBcache
    else putb i (set_busy true b) ;; release LBcache ;; kret i
  | None =>
    (* Not cached; recycle some non-busy and clean buffer. *)
    back ← kunwrap (walk NBUF (prv (lru s)) (S NBUF) (prv (lru s) NBUF));
    match list_find (λ i, unused (bufs s) i = true) back with
    | Some (_, i) =>
      b ← getb i;
      putb i (Buf dev blockno true false false (bdata b)) ;;
      release LBcache ;;
      kret i
    | None => kpanic "bget: no buffers"
    end
  end.

Definition bget (dev blockno : Z) : kM st nat := acquire LBcache ;; bget_loop dev blockno.

(** memide.c: sync a buffer with the disk. *)
Definition iderw (i : nat) : kM st unit :=
  b ← getb i;
  kassert (bbusy b) "iderw: buf not busy" ;;
  kassert (negb (bvalid b && negb (bdirty b))) "iderw: nothing to do" ;;
  kassert (bool_decide (bdev b = 1)%Z) "iderw: request not for disk 1" ;;
  kassert (bool_decide (bblockno b < disksize)%Z) "iderw: block out of range" ;;
  if bdirty b then
    putb i (Buf (bdev b) (bblockno b) (bbusy b) true false (bdata b)) ;;
    kmodify (λ s, St (sheld s) (bufs s) (lru s) (upd (disk s) (bblockno b) (bdata b))
                     (writes s ++ [(bblockno b, bdata b)]) (woken s))
  else
    s ← kget;
    putb i (Buf (bdev b) (bblockno b) (bbusy b) true (bdirty b) (disk s (bblockno b))).

Definition bread (dev blockno : Z) : kM st nat :=
  i ← bget dev blockno;
  b ← getb i;
  kwhen (negb (bvalid b)) (iderw i) ;;
  kret i.

Definition bwrite (i : nat) : kM st unit :=
  b ← getb i;
  kassert (bbusy b) "bwrite" ;;
  putb i (set_dirty true b) ;;
  iderw i.

Definition brelse (i : nat) : kM st unit :=
  b ← getb i;
  kassert (bbusy b) "brelse" ;;
  acquire LBcache ;;
  kmodify (λ s, set_lru (push_front NBUF i (unlink i (lru s))) s) ;;
  b ← getb i;
  putb i (set_busy false b) ;;
  wakeup (CBuf i) ;;
  release LBcache.

(** A client's store into the data of a locked buffer. *)
Definition bmodify (i : nat) (f : block → block) : kM st unit :=
  b ← getb i; putb i (set_data (f (bdata b)) b).

(** ** What the cache represents *)

(** Block [b] is in buffer [i]. *)
Definition holds (s : st) (i : nat) (b : Z) (x : buf) : Prop :=
  bufs s !! i = Some x ∧ bdev x = ROOTDEV ∧ bblockno x = b.

(** The cache with order [l] of use represents contents [v] over a disk [d]; [B]
    maps each locked block to its buffer and [L] is the set of dirty blocks. *)
Record rep (B : gmap Z nat) (L : gset Z) (v d : Z → block) (s : st) : Prop := {
  rep_held : sheld s = [];
  rep_lru : ∃ l, dll NBUF (lru s) l ∧ l ≡ₚ seq 0 NBUF;
  rep_len : length (bufs s) = NBUF;
  rep_disk : disk s = d;
  rep_unique i j b x y : holds s i b x → holds s j b y → i = j;
  rep_view i b x : holds s i b x → bvalid x = true ∧ bdata x = v b;
  rep_busy i b : B !! b = Some i ↔ ∃ x, holds s i b x ∧ bbusy x = true;
  rep_dirty b : b ∈ L ↔ ∃ i x, holds s i b x ∧ bdirty x = true;
  rep_other i x : bufs s !! i = Some x → bdev x ≠ ROOTDEV → bbusy x = false ∧ bdirty x = false;
  rep_clean b : b ∉ L → B !! b = None → v b = d b;
}.

Lemma holds_insert s s' i x' :
  (i < length (bufs s))%nat → bufs s' = <[i := x']> (bufs s) → ∀ j c z,
  holds s' j c z ↔ (j = i ∧ z = x' ∧ bdev x' = ROOTDEV ∧ bblockno x' = c) ∨ (j ≠ i ∧ holds s j c z).
Proof.
  intros Hi Hb j c z. unfold holds. rewrite Hb. destruct (decide (j = i)) as [->|Hne].
  - rewrite list_lookup_insert_eq by done. naive_solver.
  - rewrite list_lookup_insert_ne by done. naive_solver.
Qed.

Lemma holds_lt s i b x : holds s i b x → (i < length (bufs s))%nat.
Proof. intros [Hi _]. by eapply lookup_lt_Some. Qed.

Lemma caches_holds s b i : caches (bufs s) ROOTDEV b i = true ↔ ∃ x, holds s i b x.
Proof.
  unfold caches, holds. destruct (bufs s !! i) as [x|].
  - rewrite andb_true_iff, !bool_decide_eq_true. naive_solver.
  - naive_solver.
Qed.

(** A buffer that is neither locked nor dirty exists while fewer than NBUF
    blocks are either. *)
Lemma free_buffer B L v d s :
  rep B L v d s → size (L ∪ dom B) < NBUF → ∃ i, i < NBUF ∧ unused (bufs s) i = true.
Proof.
  intros Hr Hsz.
  destruct (list_find (λ i, unused (bufs s) i = true) (seq 0 NBUF)) as [[k i]|] eqn:Hfind.
  { apply list_find_Some in Hfind as (Hk & Hu & _). apply lookup_seq in Hk. exists i. split; [lia|done]. }
  apply list_find_None in Hfind. rewrite list.Forall_forall in Hfind.
  assert (¬ ∃ i, i < NBUF ∧ unused (bufs s) i = true) as Hno.
  { intros (i & Hi & Hu). eapply Hfind; [|done]. apply elem_of_seq. lia. }
  exfalso. clear Hfind.
  assert (∀ i, i < NBUF → ∃ x, bufs s !! i = Some x ∧ holds s i (bblockno x) x ∧ bblockno x ∈ L ∪ dom B) as Hall.
  { intros i Hi. destruct (lookup_lt_is_Some_2 (bufs s) i) as [x Hx]; [by rewrite (rep_len _ _ _ _ _ Hr)|].
    exists x. split; [done|]. destruct (decide (bdev x = ROOTDEV)) as [Hd|Hd].
    2: { destruct (rep_other _ _ _ _ _ Hr i x Hx Hd) as [H1 H2]. destruct Hno. exists i. split; [done|].
         unfold unused. by rewrite Hx, H1, H2. }
    assert (holds s i (bblockno x) x) as Hh by done. split; [done|]. apply elem_of_union.
    destruct (bdirty x) eqn:Hdy; [left; apply (rep_dirty _ _ _ _ _ Hr); eauto|].
    destruct (bbusy x) eqn:Hbz; [right; apply elem_of_dom; exists i; apply (rep_busy _ _ _ _ _ Hr); eauto|].
    destruct Hno. exists i. split; [done|]. unfold unused. by rewrite Hx, Hbz, Hdy. }
  set (f i := default 0%Z (bblockno <$> bufs s !! i)).
  assert (list_to_set (f <$> seq 0 NBUF) ⊆ L ∪ dom B) as Hsub.
  { intros b (i & -> & Hi)%elem_of_list_to_set%list_elem_of_fmap. apply elem_of_seq in Hi.
    destruct (Hall i) as (x & Hx & _ & Hin); [lia|]. unfold f. rewrite Hx. exact Hin. }
  apply subseteq_size in Hsub. rewrite size_list_to_set in Hsub.
  { rewrite length_fmap, length_seq in Hsub. lia. }
  apply NoDup_fmap_2_strong; [|apply NoDup_seq]. intros i j Hi Hj Hf.
  apply elem_of_seq in Hi, Hj. destruct (Hall i) as (x & Hx & Hhx & _); [lia|].
  destruct (Hall j) as (y & Hy & Hhy & _); [lia|]. unfold f in Hf. rewrite Hx, Hy in Hf. simpl in Hf.
  rewrite Hf in Hhx. by eapply (rep_unique _ _ _ _ _ Hr).
Qed.

Lemma wp_getb i x s Q : bufs s !! i = Some x → Q x s → wp (getb i) s Q.
Proof. intros Hx HQ. unfold wp, getb, kbind. simpl. by rewrite Hx. Qed.

Lemma wp_acquire_bio s (Q : unit → st → Prop) :
  sheld s = [] → Q tt (set_sheld [LBcache] s) → wp (acquire LBcache) s Q.
Proof.
  intros Hh HQ. unfold wp. rewrite acquire_free by (simpl; rewrite Hh; apply not_elem_of_nil).
  simpl. by rewrite Hh.
Qed.

Lemma wp_release_bio s (Q : unit → st → Prop) :
  sheld s = [LBcache] → Q tt (set_sheld [] s) → wp (release LBcache) s Q.
Proof.
  intros Hh HQ. unfold wp. rewrite (release_top _ []) by (done || apply not_elem_of_nil). done.
Qed.

(** Buffer [i] becomes [x'], a buffer for block [b]; it held [b] before, or a
    clean block nobody has locked. *)
Lemma rep_set B L v d B' L' v' d' s s' i b x' :
  rep B L v d s → i < NBUF → bufs s' = <[i := x']> (bufs s) →
  (∃ l, dll NBUF (lru s') l ∧ l ≡ₚ seq 0 NBUF) → sheld s' = [] → disk s' = d' →
  bdev x' = ROOTDEV → bblockno x' = b → bvalid x' = true → bdata x' = v' b →
  (∀ j y, j ≠ i → ¬ holds s j b y) →
  (∀ c y, holds s i c y → c ≠ b → (c ∉ L) ∧ B !! c = None) →
  (∀ c, c ≠ b → v' c = v c ∧ d' c = d c ∧ B' !! c = B !! c ∧ (c ∈ L' ↔ c ∈ L)) →
  B' !! b = (if bbusy x' then Some i else None) → (b ∈ L' ↔ bdirty x' = true) →
  (bdirty x' = false → bbusy x' = false → v' b = d' b) →
  rep B' L' v' d' s'.
Proof.
  intros Hr Hi Hb Hlru Hh Hd Hxd Hxb Hxv Hxdata Helse Hevict Hrest HB HL Hclean.
  assert (i < length (bufs s)) as Hlt by by rewrite (rep_len _ _ _ _ _ Hr).
  pose proof (holds_insert s s' i _ Hlt Hb) as Hins.
  assert (holds s' i b x') as Hx' by (apply Hins; left; by split_and!).
  assert (∀ j c y, holds s' j c y → (j = i ∧ c = b ∧ y = x') ∨ (j ≠ i ∧ c ≠ b ∧ holds s j c y)) as Hfwd.
  { intros j c y Hy. apply Hins in Hy as [(-> & -> & _ & <-)|[Hne Hy]]; [by left|]. right.
    split_and!; [done| |done]. intros ->. by eapply Helse. }
  assert (∀ j c y, holds s j c y → c ≠ b → (c ∈ L ∨ B !! c ≠ None) → holds s' j c y) as Hbwd.
  { intros j c y Hy Hc Hpin. apply Hins. right. split; [|done]. intros ->.
    destruct (Hevict c y Hy Hc). tauto. }
  destruct Hr. split; try done.
  - by rewrite Hb, length_insert.
  - intros j k c y z [(-> & -> & ->)|(? & ? & ?)]%Hfwd [(-> & ? & ->)|(? & ? & ?)]%Hfwd; try done.
    by eapply rep_unique0.
  - intros j c y [(-> & -> & ->)|(? & Hc & ?)]%Hfwd; [done|]. destruct (Hrest c Hc) as (-> & _).
    by eapply rep_view0.
  - intros j c. destruct (decide (c = b)) as [->|Hc].
    + rewrite HB. split.
      * destruct (bbusy x') eqn:Hbz; [|done]. intros [= <-]. eauto.
      * intros (y & [(-> & _ & ->)|(? & ? & ?)]%Hfwd & Hby); [by rewrite Hby|done].
    + destruct (Hrest c Hc) as (_ & _ & -> & _). rewrite rep_busy0. split.
      * intros (y & Hy & Hby). exists y. split; [|done]. apply Hbwd; [done..|]. right.
        rewrite (proj2 (rep_busy0 j c)); eauto.
      * intros (y & [(_ & ? & _)|(? & _ & Hy)]%Hfwd & Hby); [done|eauto].
  - intros c. destruct (decide (c = b)) as [->|Hc].
    + rewrite HL. split; [intros; eauto|].
      intros (j & y & [(-> & _ & ->)|(? & ? & ?)]%Hfwd & Hdy); done.
    + destruct (Hrest c Hc) as (_ & _ & _ & ->). rewrite rep_dirty0. split.
      * intros (j & y & Hy & Hdy). exists j, y. split; [|done]. apply Hbwd; [done..|]. left.
        apply rep_dirty0. eauto.
      * intros (j & y & [(_ & ? & _)|(? & _ & Hy)]%Hfwd & Hdy); [done|eauto].
  - intros j y. rewrite Hb. destruct (decide (j = i)) as [->|Hne].
    + rewrite list_lookup_insert_eq by done. by intros [= <-].
    + rewrite list_lookup_insert_ne by done. apply rep_other0.
  - intros c Hc HBc. destruct (decide (c = b)) as [->|Hne].
    + apply Hclean; [|by destruct (bbusy x'); rewrite HB in HBc].
      destruct (bdirty x'); [by destruct Hc; apply HL|done].
    + destruct (Hrest c Hne) as (-> & -> & HB' & HL'). apply rep_clean0; [by rewrite <-HL'|by rewrite <-HB'].
Qed.

Lemma rep_lt B L v d s i b x : rep B L v d s → holds s i b x → i < NBUF.
Proof. intros Hr Hx. rewrite <-(rep_len _ _ _ _ _ Hr). by eapply holds_lt. Qed.

(** A block is in one buffer only. *)
Lemma rep_elsewhere B L v d s i b x :
  rep B L v d s → holds s i b x →
  (∀ j y, j ≠ i → ¬ holds s j b y) ∧ ∀ c y, holds s i c y → c = b.
Proof.
  intros Hr Hx. split.
  - intros j y Hne Hy. apply Hne. by eapply (rep_unique _ _ _ _ _ Hr).
  - intros c y (Hy & _ & <-). destruct Hx as (Hx & _ & <-). by simplify_eq.
Qed.

(** The buffer behind a lock. *)
Lemma rep_handle B L v d s i b :
  rep B L v d s → B !! b = Some i → ∃ x, holds s i b x ∧ bbusy x = true ∧ bvalid x = true ∧
    bdata x = v b ∧ (bdirty x = true ↔ b ∈ L) ∧ bufs s !! i = Some x.
Proof.
  intros Hr HB. apply (rep_busy _ _ _ _ _ Hr) in HB as (x & Hx & Hbz). exists x.
  destruct (rep_view _ _ _ _ _ Hr _ _ _ Hx) as [? ?]. split_and!; [done..| |apply Hx].
  rewrite (rep_dirty _ _ _ _ _ Hr). split; [eauto|]. intros (j & y & Hy & Hdy).
  assert (j = i) as -> by by eapply (rep_unique _ _ _ _ _ Hr). destruct Hx as [? _], Hy as [? _]. by simplify_eq.
Qed.

(** ** The laws of the cache *)

Lemma wp_iderw_read B L v d s i b x s0 :
  rep B L v d s0 → b ∉ L → B !! b = None → (∀ j y, ¬ holds s0 j b y) → (b < disksize)%Z →
  unused (bufs s0) i = true →
  bufs s = <[i := Buf ROOTDEV b true false false x]> (bufs s0) → lru s = lru s0 → disk s = disk s0 →
  sheld s = [] →
  wp (iderw i) s (λ _ s', rep (<[b := i]> B) L v d s' ∧ writes s' = writes s).
Proof.
  intros Hr HbL HBb Hno Hdsk Hun Hb Hlru Hd Hh.
  assert (i < length (bufs s0)) as Hlt.
  { unfold unused in Hun. destruct (bufs s0 !! i) eqn:Hi; [by eapply lookup_lt_Some|done]. }
  unfold iderw. apply wp_bind. eapply wp_getb; [rewrite Hb; by apply list_lookup_insert_eq|].
  apply wp_bind, wp_assert; [done|]. apply wp_bind, wp_assert; [done|].
  apply wp_bind, wp_assert; [done|]. apply wp_bind, wp_assert; [by apply bool_decide_true|].
  apply wp_bind, wp_get, wp_modify. split; [|done].
  assert (v b = d b) as Hvd by by apply (rep_clean _ _ _ _ _ Hr).
  eapply (rep_set _ _ _ _ _ _ _ _ s0 _ i b); [exact Hr|by rewrite <-(rep_len _ _ _ _ _ Hr)|
    simpl; by rewrite Hb, list_insert_insert_eq| | |..]; simpl; try done.
  - rewrite Hlru. apply Hr.
  - rewrite Hd. apply Hr.
  - by rewrite Hd, (rep_disk _ _ _ _ _ Hr).
  - intros c y (Hy & Hyd & Hyc) Hc. unfold unused in Hun. rewrite Hy in Hun.
    apply andb_true_iff in Hun as [Hbz%negb_true_iff Hdy%negb_true_iff]. split.
    + intros Hin. apply (rep_dirty _ _ _ _ _ Hr) in Hin as (j & z & Hz & Hdz).
      assert (i = j) as <- by (eapply (rep_unique _ _ _ _ _ Hr); [by split_and!|done]).
      destruct Hz as [? _]. congruence.
    + destruct (B !! c) as [j|] eqn:HBc; [|done]. apply (rep_busy _ _ _ _ _ Hr) in HBc as (z & Hz & Hbz').
      assert (i = j) as <- by (eapply (rep_unique _ _ _ _ _ Hr); [by split_and!|done]).
      destruct Hz as [? _]. congruence.
  - intros c Hc. by rewrite lookup_insert_ne.
  - by rewrite lookup_insert_eq.
Qed.

Lemma wp_bread B L v d s b :
  rep B L v d s → B !! b = None → (b < disksize)%Z → (b ∈ L ∨ size (L ∪ dom B) < NBUF) →
  wp (bread ROOTDEV b) s (λ i s', rep (<[b := i]> B) L v d s' ∧ writes s' = writes s).
Proof.
  intros Hr HB Hdsk Hroom. destruct (rep_lru _ _ _ _ _ Hr) as (l & Hdll & Hperm).
  assert (length l = NBUF) as Hlen by by rewrite Hperm, length_seq.
  unfold bread, bget. apply wp_bind, wp_bind, wp_acquire_bio; [apply Hr|].
  pose proof (dll_walk _ _ _ Hdll) as Hwalk. pose proof (dll_walk_back _ _ _ Hdll) as Hback.
  rewrite Hlen in Hwalk, Hback.
  unfold bget_loop. apply wp_bind, wp_get, wp_bind, (wp_unwrap _ l); [exact Hwalk|].
  cbn [bufs set_sheld].
  destruct (list_find _ l) as [[k i]|] eqn:Hf.
  - apply list_find_Some in Hf as (_ & Hc & _). apply caches_holds in Hc as [x Hx].
    assert (bufs s !! i = Some x) as Hxi by apply Hx.
    pose proof (lookup_lt_Some _ _ _ Hxi). destruct (rep_elsewhere _ _ _ _ _ _ _ _ Hr Hx) as [He1 He2].
    apply wp_bind. apply (wp_getb _ x); [done|]. destruct (bbusy x) eqn:Hbz.
    { assert (B !! b = Some i) by (apply (rep_busy _ _ _ _ _ Hr); eauto). congruence. }
    apply wp_bind, wp_modify, wp_bind, wp_release_bio; [done|]. apply wp_ret. apply wp_bind.
    eapply wp_getb; [simpl; by apply list_lookup_insert_eq|]. simpl.
    destruct (rep_view _ _ _ _ _ Hr _ _ _ Hx) as [Hval Hdat]. rewrite Hval. apply wp_bind, wp_ret, wp_ret.
    split; [|done]. pose proof Hx as (_ & Hxd & Hxb).
    eapply (rep_set _ _ _ _ _ _ _ _ s _ i b); [exact Hr|by rewrite <-(rep_len _ _ _ _ _ Hr)|done|apply Hr| |apply Hr|..];
      simpl; try done.
    + intros c y Hy Hcb. by rewrite (He2 c y Hy) in Hcb.
    + intros c Hcb. by rewrite lookup_insert_ne.
    + by rewrite lookup_insert_eq.
    + destruct (rep_dirty _ _ _ _ _ Hr b) as [H1 H2]. split; [|eauto]. intros Hin.
      destruct (H1 Hin) as (j & y & Hy & Hdy). assert (j = i) as -> by (by eapply (rep_unique _ _ _ _ _ Hr)).
      destruct Hy as [? _]. congruence.
  - apply list_find_None in Hf. rewrite list.Forall_forall in Hf.
    assert (∀ j y, ¬ holds s j b y) as Hno.
    { intros j y Hy. eapply (Hf j); [|apply caches_holds; eauto]. rewrite Hperm. apply elem_of_seq.
      pose proof (rep_lt _ _ _ _ _ _ _ _ Hr Hy). lia. }
    assert (b ∉ L) as HbL by (intros (j & y & Hy & _)%(rep_dirty _ _ _ _ _ Hr); by eapply Hno).
    apply wp_bind, (wp_unwrap _ (reverse l)); [exact Hback|].
    destruct Hroom as [?|Hroom]; [done|]. destruct (free_buffer _ _ _ _ _ Hr Hroom) as (i0 & Hi0 & Hu0).
    destruct (list_find _ (reverse l)) as [[k i]|] eqn:Hf2.
    2: { apply list_find_None in Hf2. rewrite list.Forall_forall in Hf2. exfalso.
         eapply (Hf2 i0); [|done]. rewrite elem_of_reverse, Hperm. apply elem_of_seq. lia. }
    apply list_find_Some in Hf2 as (_ & Hu & _).
    destruct (bufs s !! i) as [x|] eqn:Hxi. 2: { unfold unused in Hu. by rewrite Hxi in Hu. }
    pose proof (lookup_lt_Some _ _ _ Hxi).
    apply wp_bind. apply (wp_getb _ x); [done|]. apply wp_bind, wp_modify, wp_bind, wp_release_bio; [done|].
    apply wp_ret. apply wp_bind. eapply wp_getb; [simpl; by apply list_lookup_insert_eq|]. simpl.
    apply wp_bind. eapply wp_mono; [by eapply (wp_iderw_read B L v d _ i b (bdata x) s)|].
    intros [] s' [Hr' Hw]. apply wp_ret. by split.
Qed.

Lemma wp_bmodify B L v d s i b f :
  rep B L v d s → B !! b = Some i →
  wp (bmodify i f) s (λ _ s', rep B L (upd v b (f (v b))) d s' ∧ writes s' = writes s).
Proof.
  intros Hr HB. destruct (rep_handle _ _ _ _ _ _ _ Hr HB) as (x & Hx & Hbz & Hv & Hdat & Hdy & Hxi).
  destruct (rep_elsewhere _ _ _ _ _ _ _ _ Hr Hx) as [He1 He2].
  unfold bmodify. apply wp_bind, (wp_getb _ x); [done|]. apply wp_modify. split; [|done].
  pose proof Hx as (_ & Hxd & Hxb).
  eapply (rep_set _ _ _ _ _ _ _ _ s _ i b); [exact Hr|by eapply rep_lt|done|apply Hr|apply Hr|apply Hr|..]; simpl; try done.
  - by rewrite upd_eq, Hdat.
  - intros c y Hy Hcb. by rewrite (He2 c y Hy) in Hcb.
  - intros c Hcb. by rewrite upd_ne.
  - by rewrite Hbz.
  - congruence.
Qed.

(** [b->flags |= B_DIRTY] of log_write. *)
Lemma wp_pin B L v d s i b :
  rep B L v d s → B !! b = Some i →
  wp (x ← getb i; putb i (set_dirty true x)) s
     (λ _ s', rep B ({[b]} ∪ L) v d s' ∧ writes s' = writes s).
Proof.
  intros Hr HB. destruct (rep_handle _ _ _ _ _ _ _ Hr HB) as (x & Hx & Hbz & Hv & Hdat & Hdy & Hxi).
  destruct (rep_elsewhere _ _ _ _ _ _ _ _ Hr Hx) as [He1 He2].
  apply wp_bind, (wp_getb _ x); [done|]. apply wp_modify. split; [|done].
  pose proof Hx as (_ & Hxd & Hxb).
  eapply (rep_set _ _ _ _ _ _ _ _ s _ i b); [exact Hr|by eapply rep_lt|done|apply Hr|apply Hr|apply Hr|..]; simpl; try done.
  - intros c y Hy Hcb. by rewrite (He2 c y Hy) in Hcb.
  - intros c Hcb. set_solver.
  - by rewrite Hbz.
  - set_solver.
Qed.

Lemma wp_bwrite B L v d s i b :
  rep B L v d s → B !! b = Some i → (b < disksize)%Z →
  wp (bwrite i) s (λ _ s', rep B (L ∖ {[b]}) v (upd d b (v b)) s' ∧ writes s' = writes s ++ [(b, v b)]).
Proof.
  intros Hr HB Hdsk. destruct (rep_handle _ _ _ _ _ _ _ Hr HB) as (x & Hx & Hbz & Hv & Hdat & Hdy & Hxi).
  destruct (rep_elsewhere _ _ _ _ _ _ _ _ Hr Hx) as [He1 He2].
  pose proof (lookup_lt_Some _ _ _ Hxi). pose proof Hx as (_ & Hxd & Hxb).
  unfold bwrite. apply wp_bind, (wp_getb _ x); [done|]. apply wp_bind, wp_assert; [done|].
  apply wp_bind, wp_modify. unfold iderw. apply wp_bind.
  eapply wp_getb; [simpl; by apply list_lookup_insert_eq|].
  apply wp_bind, wp_assert; [done|]. apply wp_bind, wp_assert; [simpl; by rewrite andb_false_r|].
  apply wp_bind, wp_assert; [simpl; by rewrite Hxd|].
  apply wp_bind, wp_assert; [apply bool_decide_true; simpl; by rewrite Hxb|].
  apply wp_bind, wp_modify, wp_modify. simpl. rewrite list_insert_insert_eq. split.
  2: { by rewrite Hxb, Hdat. }
  eapply (rep_set _ _ _ _ _ _ _ _ s _ i b); [exact Hr|by eapply rep_lt|done|apply Hr|apply Hr| |..]; simpl; try done.
  - by rewrite Hxb, Hdat, (rep_disk _ _ _ _ _ Hr).
  - intros c y Hy Hcb. by rewrite (He2 c y Hy) in Hcb.
  - intros c Hcb. rewrite upd_ne by done. set_solver.
  - by rewrite Hbz.
  - set_solver.
  - congruence.
Qed.

Lemma dll_move_front k l i : dll NBUF k l → i ∈ l →
  ∃ l', dll NBUF (push_front NBUF i (unlink i k)) l' ∧ l' ≡ₚ l.
Proof.
  intros Hd (l1 & l2 & ->)%list_elem_of_split. exists (i :: l1 ++ l2).
  split; [|by rewrite Permutation_middle]. apply dll_push_front; [by apply dll_unlink|].
  destruct Hd as [_ Hnd]. rewrite <-Permutation_middle, Permutation_swap in Hnd.
  by apply list.NoDup_cons in Hnd as [? _].
Qed.

Lemma wp_brelse B L v d s i b :
  rep B L v d s → B !! b = Some i → (b ∈ L ∨ v b = d b) →
  wp (brelse i) s (λ _ s', rep (delete b B) L v d s' ∧ writes s' = writes s).
Proof.
  intros Hr HB Hcl. destruct (rep_handle _ _ _ _ _ _ _ Hr HB) as (x & Hx & Hbz & Hv & Hdat & Hdy & Hxi).
  destruct (rep_elsewhere _ _ _ _ _ _ _ _ Hr Hx) as [He1 He2]. pose proof Hx as (_ & Hxd & Hxb).
  unfold brelse. apply wp_bind, (wp_getb _ x); [done|]. apply wp_bind, wp_assert; [done|].
  apply wp_bind, wp_acquire_bio; [apply Hr|]. apply wp_bind, wp_modify.
  apply wp_bind, (wp_getb _ x); [done|]. apply wp_bind, wp_modify, wp_bind, wp_modify, wp_release_bio; [done|].
  split; [|done].
  eapply (rep_set _ _ _ _ _ _ _ _ s _ i b); [exact Hr|by eapply rep_lt|done| | |apply Hr|..]; simpl; try done.
  - destruct (rep_lru _ _ _ _ _ Hr) as (l & Hd & Hperm).
    destruct (dll_move_front _ _ i Hd) as (l' & Hd' & Hperm').
    { rewrite Hperm. apply elem_of_seq. pose proof (rep_lt _ _ _ _ _ _ _ _ Hr Hx). lia. }
    exists l'. split; [done|]. by rewrite Hperm'.
  - intros c y Hy Hcb. by rewrite (He2 c y Hy) in Hcb.
  - intros c Hcb. by rewrite lookup_delete_ne.
  - by rewrite lookup_delete_eq.
  - intros Hnd _. destruct Hcl as [Hin|]; [|done]. apply Hdy in Hin. congruence.
Qed.

(** ** Boot *)

Lemma wp_binit s :
  sheld s = [] → length (bufs s) = NBUF →
  (∀ i x, bufs s !! i = Some x → bbusy x = false ∧ bdirty x = false) →
  wp binit s (λ _ s', rep ∅ ∅ (disk s) (disk s) s' ∧ writes s' = writes s).
Proof.
  intros Hh Hlen Hfl. unfold binit. apply wp_bind, wp_modify.
  apply (wp_for_split (λ pre s', dll NBUF (lru s') (reverse pre) ∧ sheld s' = [] ∧ disk s' = disk s ∧
    writes s' = writes s ∧ length (bufs s') = NBUF ∧
    (∀ i x, bufs s' !! i = Some x → bbusy x = false ∧ bdirty x = false) ∧
    (∀ i x, i < length pre → bufs s' !! i = Some x → bdev x = (2 ^ 32 - 1)%Z))).
  - split_and!; try done; [|simpl; intros; lia]. split; [done|]. apply NoDup_singleton.
  - intros pre i post s' Hsplit (Hd & Hh' & Hdk & Hw & Hl & Hf & Hdev).
    assert (i = length pre ∧ i < NBUF) as [Hi Hlt].
    { assert (seq 0 NBUF !! length pre = Some i) as Hx by (rewrite Hsplit; by apply list_lookup_middle).
      apply lookup_seq in Hx. lia. }
    destruct (lookup_lt_is_Some_2 (bufs s') i) as [x Hx]; [lia|].
    apply wp_bind, (wp_getb _ x); [done|]. apply wp_bind, wp_modify, wp_modify. simpl.
    split; [|split_and!; try done].
    + rewrite reverse_snoc. apply dll_push_front; [done|]. rewrite elem_of_cons, elem_of_reverse.
      intros [?|Hin]; [lia|]. assert (NoDup (pre ++ i :: post)) as Hnd by (rewrite <-Hsplit; apply NoDup_seq).
      apply list.NoDup_app in Hnd as (_ & Hnd & _). eapply Hnd; [done|constructor].
    + by rewrite length_insert.
    + intros j y. destruct (decide (j = i)) as [->|].
      * rewrite list_lookup_insert_eq by lia. intros [= <-]. exact (Hf i x Hx).
      * rewrite list_lookup_insert_ne by done. apply Hf.
    + intros j y Hj. rewrite length_app in Hj. simpl in Hj. destruct (decide (j = i)) as [->|].
      * rewrite list_lookup_insert_eq by lia. by intros [= <-].
      * rewrite list_lookup_insert_ne by done. apply Hdev. lia.
  - intros s' (Hd & Hh' & Hdk & Hw & Hl & Hf & Hdev). rewrite length_seq in Hdev. split; [|done].
    assert (∀ i b x, ¬ holds s' i b x) as Hno.
    { intros i b x (Hx & Hxd & _). rewrite (Hdev i x) in Hxd; [done| |done].
      rewrite <-Hl. by eapply lookup_lt_Some. }
    split; try done.
    + exists (reverse (seq 0 NBUF)). split; [done|]. apply reverse_Permutation.
    + intros i j b x y Hx. by apply Hno in Hx.
    + intros i b x Hx. by apply Hno in Hx.
    + intros i b. rewrite lookup_empty. split; [done|]. intros (x & Hx & _). by apply Hno in Hx.
    + intros b. split; [set_solver|]. intros (i & x & Hx & _). by apply Hno in Hx.
    + intros i x Hx _. by apply (Hf i).
Qed.

(** ** Refinement *)

(** What a client may do with blocks, one at a time. *)
Inductive op :=
| OLock (b : Z)                        (* bread *)
| OModify (b : Z) (f : block → block)  (* store into a locked buffer *)
| OPin (b : Z)                         (* mark it dirty, as log_write does *)
| OWrite (b : Z)                       (* bwrite *)
| OUnlock (b : Z).                     (* brelse *)

(** The abstract cache: block contents, the disk, and two sets of blocks. *)
Record spec := Spec { locked : gset Z; pinned : gset Z; view : Z → block; stable : Z → block }.

(** A client locks a free block while there is room, uses only locked blocks,
    and unlocks a block only when its contents are pinned or on disk. *)
Definition allowed (o : op) (a : spec) : Prop :=
  match o with
  | OLock b => (b ∉ locked a) ∧ (b < disksize)%Z ∧ (b ∈ pinned a ∨ size (pinned a ∪ locked a) < NBUF)
  | OModify b _ | OPin b => b ∈ locked a
  | OWrite b => b ∈ locked a ∧ (b < disksize)%Z
  | OUnlock b => b ∈ locked a ∧ (b ∈ pinned a ∨ view a b = stable a b)
  end.

Definition spec_op (o : op) (a : spec) : spec :=
  match o with
  | OLock b => Spec ({[b]} ∪ locked a) (pinned a) (view a) (stable a)
  | OModify b f => Spec (locked a) (pinned a) (upd (view a) b (f (view a b))) (stable a)
  | OPin b => Spec (locked a) ({[b]} ∪ pinned a) (view a) (stable a)
  | OWrite b => Spec (locked a) (pinned a ∖ {[b]}) (view a) (upd (stable a) b (view a b))
  | OUnlock b => Spec (locked a ∖ {[b]}) (pinned a) (view a) (stable a)
  end.

Fixpoint all_allowed (ops : list op) (a : spec) : Prop :=
  match ops with [] => True | o :: ops => allowed o a ∧ all_allowed ops (spec_op o a) end.

(** The client keeps the buffer of each block it has locked. *)
Definition run_op (o : op) (H : gmap Z nat) : kM st (gmap Z nat) :=
  match o with
  | OLock b => i ← bread ROOTDEV b; kret (<[b := i]> H)
  | OModify b f => i ← kunwrap (H !! b); bmodify i f ;; kret H
  | OPin b => i ← kunwrap (H !! b); (x ← getb i; putb i (set_dirty true x)) ;; kret H
  | OWrite b => i ← kunwrap (H !! b); bwrite i ;; kret H
  | OUnlock b => i ← kunwrap (H !! b); brelse i ;; kret (delete b H)
  end.

Fixpoint run_ops (ops : list op) (H : gmap Z nat) : kM st (gmap Z nat) :=
  match ops with [] => kret H | o :: ops => H' ← run_op o H; run_ops ops H' end.

(** The simulation relation. *)
Definition refines (a : spec) (H : gmap Z nat) (s : st) : Prop :=
  rep H (pinned a) (view a) (stable a) s ∧ dom H = locked a.

Lemma refines_handle a H s b : refines a H s → b ∈ locked a → ∃ i, H !! b = Some i.
Proof. intros [_ <-] Hb. by apply elem_of_dom in Hb as [i ?]; eauto. Qed.

Lemma run_op_refines o a H s :
  refines a H s → allowed o a → wp (run_op o H) s (refines (spec_op o a)).
Proof.
  intros Href Hal. pose proof Href as [Hr Hdom].
  destruct o as [b|b f|b|b|b]; simpl in Hal |- *.
  - destruct Hal as (Hb & Hlt & Hroom). rewrite <-Hdom in Hb, Hroom.
    apply wp_bind. eapply wp_mono; [apply wp_bread; [done|by apply not_elem_of_dom|done|done]|].
    intros i s' [Hr' _]. apply wp_ret. split; [done|]. rewrite dom_insert_L. by rewrite Hdom.
  - destruct (refines_handle _ _ _ _ Href Hal) as [i Hi]. apply wp_bind, (wp_unwrap _ i); [done|].
    apply wp_bind. eapply wp_mono; [by apply wp_bmodify|]. intros [] s' [Hr' _]. by apply wp_ret.
  - destruct (refines_handle _ _ _ _ Href Hal) as [i Hi]. apply wp_bind, (wp_unwrap _ i); [done|].
    apply wp_bind. eapply wp_mono; [by apply wp_pin|]. intros [] s' [Hr' _]. by apply wp_ret.
  - destruct Hal as [Hb Hlt]. destruct (refines_handle _ _ _ _ Href Hb) as [i Hi].
    apply wp_bind, (wp_unwrap _ i); [done|].
    apply wp_bind. eapply wp_mono; [by apply wp_bwrite|]. intros [] s' [Hr' _]. by apply wp_ret.
  - destruct Hal as [Hb Hcl]. destruct (refines_handle _ _ _ _ Href Hb) as [i Hi].
    apply wp_bind, (wp_unwrap _ i); [done|].
    apply wp_bind. eapply wp_mono; [by apply wp_brelse|]. intros [] s' [Hr' _]. apply wp_ret.
    split; [done|]. rewrite dom_delete_L. by rewrite Hdom.
Qed.

Lemma run_ops_refines ops : ∀ a H s,
  refines a H s → all_allowed ops a → wp (run_ops ops H) s (refines (foldl (λ a o, spec_op o a) a ops)).
Proof.
  induction ops as [|o ops IH]; intros a H s Href Hall; simpl; [by apply wp_ret|].
  destruct Hall as [Ho Hall]. apply wp_bind. eapply wp_mono; [by apply run_op_refines|].
  intros H' s' Href'. by apply IH.
Qed.

(** C26: from boot, for every sequence of calls that a client is allowed to make,
    the buffer cache never panics, blocks or loses an update: it refines a plain
    map of block contents, in which a locked block is private, a pinned block
    stays in memory, and a write reaches the disk. *)
Theorem cache_refines_map s0 ops :
  sheld s0 = [] → length (bufs s0) = NBUF →
  (∀ i x, bufs s0 !! i = Some x → bbusy x = false ∧ bdirty x = false) →
  all_allowed ops (Spec ∅ ∅ (disk s0) (disk s0)) →
  ∃ H s', (binit ;; run_ops ops ∅) s0 = Done H s' ∧
    refines (foldl (λ a o, spec_op o a) (Spec ∅ ∅ (disk s0) (disk s0)) ops) H s'.
Proof.
  intros Hh Hl Hf Hall. apply wp_done. apply wp_bind. eapply wp_mono; [by apply wp_binit|].
  intros [] s' [Hr _]. apply run_ops_refines; [|done]. split; [done|]. apply dom_empty_L.
Qed.
End bio.

(** ** Witnesses *)

Definition blank : st :=
  St [] (replicate NBUF (Buf 0 0 false false false [])) (Links id id) (λ _, replicate BSIZE 0%Z) [] [].

Lemma cache_refines_map_witness :
  ∃ H s', (binit ;; run_ops 1000 [OLock 5; OModify 5 (λ _, [7%Z]); OWrite 5; OUnlock 5] ∅)%kern blank = Done H s' ∧
    disk s' 5%Z = [7%Z].
Proof.
  destruct (cache_refines_map 1000 blank [OLock 5; OModify 5 (λ _, [7%Z]); OWrite 5; OUnlock 5])
    as (H & s' & Hs & Hr & _).
  - reflexivity.
  - reflexivity.
  - intros i x Hx. apply lookup_replicate in Hx as [-> _]. split; reflexivity.
  - split; [|split; [|split; [|split; [|exact I]]]].
    + split; [apply not_elem_of_empty|]. split; [lia|]. right. vm_compute. lia.
    + apply elem_of_union. left. by apply elem_of_singleton.
    + split; [|lia]. apply elem_of_union. left. by apply elem_of_singleton.
    + split; [|by right]. apply elem_of_union. left. by apply elem_of_singleton.
  - exists H, s'. split; [exact Hs|]. rewrite (rep_disk _ _ _ _ _ Hr). reflexivity.
Defined.
End Bio.
