(* ===== verification/Log.v ===== *)
(** * The log (log.c) and crash recovery

    Transactions over the buffer cache of Bio.v: [begin_op], [log_write],
    [end_op] with its commit, and recovery at boot. A crash is a prefix of the
    sequence of block writes the disk received. The main theorem says that a
    crash at any point, even during recovery, leaves the file system in the
    state of a transaction boundary. *)

From S2P Require Import Prelude Bio.
Import Bio.

Definition MAXOPBLOCKS : Z := 10.
Definition LOGSIZE : Z := 30.

(** [struct superblock], seven words at the start of block 1. *)
Record superblock := Superblock {
  sb_size : Z; sb_nblocks : Z; sb_ninodes : Z; sb_nlog : Z;
  sb_logstart : Z; sb_inodestart : Z; sb_bmapstart : Z;
}.

Definition parse_sb (b : block) : superblock :=
  {| sb_size := get32 b 0; sb_nblocks := get32 b 4; sb_ninodes := get32 b 8; sb_nlog := get32 b 12;
     sb_logstart := get32 b 16; sb_inodestart := get32 b 20; sb_bmapstart := get32 b 24 |}.

(** ** The header block: [int n; int block[LOGSIZE];] *)

Definition hdr_n (b : block) : Z := i32 (get32 b 0).
Definition hdr_block (b : block) (i : nat) : Z := i32 (get32 b (4 + 4 * i)).

(** The loop of [write_head]: the entries [bs] from index [i] on. *)
Fixpoint put_blocks (b : block) (i : nat) (bs : list Z) : block :=
  match bs with [] => b | x :: bs => put_blocks (put32 b (4 + 4 * i) x) (S i) bs end.

Lemma length_put_blocks bs : ∀ b i, length (put_blocks b i bs) = length b.
Proof. induction bs as [|x bs IH]; intros b i; simpl; [done|]. by rewrite IH, length_put32. Qed.

Lemma put_blocks_ne bs : ∀ b i j,
  4 + 4 * (i + length bs) ≤ length b → j + 4 ≤ 4 + 4 * i ∨ 4 + 4 * (i + length bs) ≤ j →
  get32 (put_blocks b i bs) j = get32 b j.
Proof.
  induction bs as [|x bs IH]; intros b i j Hl Hj; cbn [put_blocks length] in *; [done|].
  rewrite IH by (rewrite ?length_put32; lia). apply get_put32_ne; lia.
Qed.

Lemma put_blocks_get bs : ∀ b i k x,
  4 + 4 * (i + length bs) ≤ length b → bs !! k = Some x →
  get32 (put_blocks b i bs) (4 + 4 * (i + k)) = u32 x.
Proof.
  induction bs as [|y bs IH]; intros b i k x Hl Hk; [done|]. cbn [put_blocks length] in *.
  destruct k as [|k]; simpl in Hk.
  - simplify_eq. rewrite Nat.add_0_r, put_blocks_ne by (rewrite ?length_put32; lia).
    apply get_put32. lia.
  - replace (i + S k) with (S i + k) by lia. apply IH; [rewrite length_put32; lia|done].
Qed.

(** The entries of a header block. *)
Definition hdr_blocks (b : block) : list Z := hdr_block b <$> seq 0 (Z.to_nat (hdr_n b)).

(** Round trip of the header. *)
Lemma hdr_blocks_put b bs :
  length b = BSIZE → length bs ≤ 30 → Forall (λ x, 0 ≤ x < 2 ^ 31)%Z bs →
  hdr_blocks (put_blocks (put32 b 0 (Z.of_nat (length bs))) 0 bs) = bs.
Proof.
  intros Hb Hn Hbs. unfold BSIZE in Hb. set (h := put_blocks _ _ _).
  assert (hdr_n h = Z.of_nat (length bs)) as Hh.
  { unfold hdr_n, h. rewrite put_blocks_ne, get_put32 by (rewrite ?length_put32; lia). apply i32_id. lia. }
  unfold hdr_blocks. rewrite Hh, Nat2Z.id. apply list_eq. intros k. rewrite list_lookup_fmap.
  destruct (decide (k < length bs)) as [Hk|Hk].
  - rewrite lookup_seq_lt by done. simpl. destruct (lookup_lt_is_Some_2 bs k Hk) as [x Hx]. rewrite Hx.
    f_equal. unfold hdr_block, h.
    rewrite (put_blocks_get bs (put32 b 0 _) 0 k x) by (rewrite ?length_put32; done || lia).
    apply i32_id. rewrite Forall_lookup in Hbs. specialize (Hbs k x Hx). lia.
  - rewrite lookup_seq_ge by lia. symmetry. apply lookup_ge_None_2. lia.
Qed.

(** ** Crashes *)

(** The disk after the writes [W]. *)
Definition apply_writes (d : Z → block) (W : list (Z * block)) : Z → block :=
  foldl (λ d w, upd d w.1 w.2) d W.

Lemma apply_writes_app d W W' : apply_writes d (W ++ W') = apply_writes (apply_writes d W) W'.
Proof. apply foldl_app. Qed.

Lemma apply_writes_ne W : ∀ d x, (∀ w, w ∈ W → w.1 ≠ x) → apply_writes d W x = d x.
Proof.
  induction W as [|w W IH]; intros d x Hx; [done|]. simpl. rewrite IH by (intros; apply Hx; by constructor).
  apply upd_ne. apply not_eq_sym, Hx. constructor.
Qed.

(** A block to which only [y] is written. *)
Lemma apply_writes_val W : ∀ d x y,
  (∀ w, w ∈ W → w.1 = x → w.2 = y) → d x = y ∨ (∃ w, w ∈ W ∧ w.1 = x) → apply_writes d W x = y.
Proof.
  induction W as [|w W IH]; intros d x y Hw Hy; simpl.
  - destruct Hy as [|(? & ?%not_elem_of_nil & _)]; done.
  - apply IH; [intros; apply Hw; [by constructor|done]|]. unfold upd. case_decide as Hx.
    + left. symmetry in Hx. apply Hw; [constructor|done].
    + destruct Hy as [|(w' & [->|Hin]%elem_of_cons & Hw')]; [by left|done|right; eauto].
Qed.

(** What [write_log] and [install_trans] write for the entries [bs], from
    position [t] on, when the contents are [v]. *)
Fixpoint log_writes (start : Z) (v : Z → block) (t : nat) (bs : list Z) : list (Z * block) :=
  match bs with [] => [] | b :: bs => ((start + Z.of_nat t + 1)%Z, v b) :: log_writes start v (S t) bs end.

Fixpoint install_writes (start : Z) (v : Z → block) (t : nat) (bs : list Z) : list (Z * block) :=
  match bs with [] => [] | b :: bs => (b, v (start + Z.of_nat t + 1)%Z) :: install_writes start v (S t) bs end.

Lemma elem_log_writes start v bs : ∀ t w,
  w ∈ log_writes start v t bs ↔ ∃ i b, bs !! i = Some b ∧ w = ((start + Z.of_nat (t + i) + 1)%Z, v b).
Proof.
  induction bs as [|b bs IH]; intros t w; simpl.
  - split; [by intros ?%not_elem_of_nil|by intros (? & ? & ? & _)].
  - rewrite elem_of_cons, IH. split.
    + intros [->|(i & c & Hi & ->)]; [exists 0, b; by rewrite Nat.add_0_r|].
      exists (S i), c. split; [done|]. f_equal. lia.
    + intros ([|i] & c & Hi & ->); simpl in Hi; [left; simplify_eq; by rewrite Nat.add_0_r|].
      right. exists i, c. split; [done|]. f_equal. lia.
Qed.

Lemma elem_install_writes start v bs : ∀ t w,
  w ∈ install_writes start v t bs ↔ ∃ i b, bs !! i = Some b ∧ w = (b, v (start + Z.of_nat (t + i) + 1)%Z).
Proof.
  induction bs as [|b bs IH]; intros t w; simpl.
  - split; [by intros ?%not_elem_of_nil|by intros (? & ? & ? & _)].
  - rewrite elem_of_cons, IH. split.
    + intros [->|(i & c & Hi & ->)]; [exists 0, b; by rewrite Nat.add_0_r|].
      exists (S i), c. split; [done|]. do 2 f_equal. lia.
    + intros ([|i] & c & Hi & ->); simpl in Hi; [left; simplify_eq; by rewrite Nat.add_0_r|].
      right. exists i, c. split; [done|]. do 2 f_equal. lia.
Qed.

(** The disk a boot finds, recovered. *)
Definition recovered (start : Z) (d : Z → block) : Z → block :=
  apply_writes d (install_writes start d 0 (hdr_blocks (d start))).

(** Equality outside the log. *)
Definition home_eq (start size : Z) (d d' : Z → block) : Prop :=
  ∀ b, ¬ (start ≤ b < start + size)%Z → d b = d' b.

#[export] Instance home_eq_equiv start size : Equivalence (home_eq start size).
Proof.
  split; [by intros ? ?|intros d d' Hd b Hb; by rewrite Hd|].
  intros d d' d'' H1 H2 b Hb. by rewrite H1, H2.
Qed.

Section crash.
Context (start size : Z).

(** Entries that fit the log and lie outside it. *)
Definition entries (bs : list Z) : Prop :=
  NoDup bs ∧ (Z.of_nat (length bs) < size)%Z ∧
  Forall (λ b, 0 ≤ b < 2 ^ 31 ∧ ¬ (start ≤ b < start + size))%Z bs.

Lemma entries_home bs i b :
  entries bs → bs !! i = Some b →
  ¬ (start ≤ b < start + size)%Z ∧ (start < start + Z.of_nat i + 1 < start + size)%Z.
Proof.
  intros (_ & Hl & Hf) Hi. rewrite Forall_lookup in Hf. destruct (Hf i b Hi) as [_ Hb].
  apply lookup_lt_Some in Hi. split; [done|lia].
Qed.

Lemma recovered_empty d : hdr_blocks (d start) = [] → recovered start d = d.
Proof. intros Hh. unfold recovered. by rewrite Hh. Qed.

(** A disk whose log holds the new contents of [bs]. *)
Lemma recovered_committed e v bs :
  hdr_blocks (e start) = bs → (∀ i b, bs !! i = Some b → e (start + Z.of_nat i + 1)%Z = v b) →
  (∀ x, ¬ (start ≤ x < start + size)%Z → x ∉ bs → e x = v x) →
  home_eq start size (recovered start e) v.
Proof.
  intros Hh Hlog Hrest x Hx. unfold recovered. rewrite Hh. apply apply_writes_val.
  - intros w (i & b & Hi & ->)%elem_install_writes. simpl. intros <-. by apply Hlog.
  - destruct (decide (x ∈ bs)) as [[i Hi]%list_elem_of_lookup|Hn]; [|left; by apply Hrest].
    right. eexists. split; [apply elem_install_writes; eauto|done].
Qed.

Lemma take_app_cases {A} k (l1 l2 : list A) :
  take k (l1 ++ l2) = take k l1 ∨ ∃ j, take k (l1 ++ l2) = l1 ++ take j l2.
Proof.
  rewrite take_app. destruct (decide (k ≤ length l1)).
  - left. replace (k - length l1) with 0 by lia. by rewrite take_0, app_nil_r.
  - right. exists (k - length l1). by rewrite take_ge by lia.
Qed.

Section commit.
Context (d v v2 : Z → block) (bs : list Z) (hdr hdr0 : block).
Context (Hd : hdr_blocks (d start) = []) (Hhdr : hdr_blocks hdr = bs) (Hhdr0 : hdr_blocks hdr0 = []).
Context (Hbs : entries bs) (Hv : ∀ x, ¬ (start ≤ x < start + size)%Z → x ∉ bs → v x = d x).
Context (Hv2 : ∀ i b, bs !! i = Some b → v2 (start + Z.of_nat i + 1)%Z = v b).
Context (Hsize : (0 < size)%Z).

Let W1 := log_writes start v 0 bs.
Let W3 := install_writes start v2 0 bs.

Lemma W1_region w : w ∈ W1 → (start < w.1 < start + size)%Z.
Proof.
  intros (i & b & Hi & ->)%elem_log_writes. destruct (entries_home bs i b Hbs Hi). simpl in *. lia.
Qed.

Lemma W3_val w : w ∈ W3 → w.2 = v w.1 ∧ w.1 ∈ bs ∧ ¬ (start ≤ w.1 < start + size)%Z.
Proof.
  intros (i & b & Hi & ->)%elem_install_writes. simpl. destruct (entries_home bs i b Hbs Hi).
  split; [by apply Hv2|]. split; [by eapply list_elem_of_lookup_2|done].
Qed.

Lemma in_take {A} (w : A) k l : w ∈ take k l → w ∈ l.
Proof. intros Hw. rewrite <-(take_drop k l). apply elem_of_app. by left. Qed.

(** The disk once the header is written: every later prefix recovers to [v]. *)
Lemma after_head k :
  let e := apply_writes (upd (apply_writes d W1) start hdr) (take k W3) in
  home_eq start size (recovered start e) v.
Proof.
  simpl. apply (recovered_committed _ _ bs).
  - rewrite apply_writes_ne; [by rewrite upd_eq|].
    intros w Hw%in_take%W3_val. lia.
  - intros i b Hi. destruct (entries_home bs i b Hbs Hi) as [Hb Hlb].
    rewrite apply_writes_ne; [|intros w Hw%in_take%W3_val; lia].
    rewrite upd_ne by lia. apply apply_writes_val.
    + intros w (j & c & Hj & ->)%elem_log_writes. simpl. intros Heq.
      assert (j = i) as -> by lia. by simplify_eq.
    + right. eexists. split; [apply elem_log_writes; eauto|]. simpl. lia.
  - intros x Hx Hn. rewrite apply_writes_ne; [|intros w (_ & Hw & _)%in_take%W3_val; by intros <-].
    rewrite upd_ne by lia. rewrite apply_writes_ne; [|intros w Hw%W1_region; lia]. by rewrite Hv.
Qed.

(** All of the commit but the last write. *)
Lemma installed x :
  ¬ (start ≤ x < start + size)%Z → apply_writes (upd (apply_writes d W1) start hdr) W3 x = v x.
Proof.
  intros Hx. apply apply_writes_val.
  - intros w (-> & _ & _)%W3_val. by intros <-.
  - destruct (decide (x ∈ bs)) as [[i Hi]%list_elem_of_lookup|Hn].
    + right. eexists. split; [apply elem_install_writes; eauto|done].
    + left. rewrite upd_ne by lia. rewrite apply_writes_ne; [|intros w Hw%W1_region; lia]. by rewrite Hv.
Qed.

Lemma commit_crash k :
  let e := apply_writes d (take k (W1 ++ [(start, hdr)] ++ W3 ++ [(start, hdr0)])) in
  home_eq start size (recovered start e) d ∨ home_eq start size (recovered start e) v.
Proof.
  cbv zeta. destruct (take_app_cases k W1 ([(start, hdr)] ++ W3 ++ [(start, hdr0)])) as [->|(j & ->)].
  { left. rewrite recovered_empty.
    - intros x Hx. apply apply_writes_ne. intros w Hw%in_take%W1_region. lia.
    - rewrite apply_writes_ne; [done|]. intros w Hw%in_take%W1_region. lia. }
  rewrite apply_writes_app. destruct j as [|j].
  { left. simpl. rewrite recovered_empty.
    - intros x Hx. apply apply_writes_ne. intros w Hw%W1_region. lia.
    - rewrite apply_writes_ne; [done|]. intros w Hw%W1_region. lia. }
  right. change (take (S j) ([(start, hdr)] ++ W3 ++ [(start, hdr0)])) with
    ((start, hdr) :: take j (W3 ++ [(start, hdr0)])). cbn [apply_writes foldl fst snd].
  fold (apply_writes (upd (apply_writes d W1) start hdr) (take j (W3 ++ [(start, hdr0)]))).
  destruct (take_app_cases j W3 [(start, hdr0)]) as [->|([|i] & ->)].
  - apply after_head.
  - rewrite take_0, app_nil_r. rewrite <-(firstn_all W3). apply after_head.
  - rewrite apply_writes_app. replace (take (S i) [(start, hdr0)]) with [(start, hdr0)] by by destruct i.
    cbn [apply_writes foldl fst snd]. rewrite recovered_empty by by rewrite upd_eq.
    intros x Hx. rewrite upd_ne by lia. by apply installed.
Qed.

Lemma commit_done :
  let e := apply_writes d (W1 ++ [(start, hdr)] ++ W3 ++ [(start, hdr0)]) in
  home_eq start size e v ∧ e start = hdr0.
Proof.
  cbv zeta. rewrite apply_writes_app. cbn [app apply_writes foldl fst snd].
  fold (apply_writes (upd (apply_writes d W1) start hdr) (W3 ++ [(start, hdr0)])).
  rewrite apply_writes_app. cbn [apply_writes foldl fst snd]. split; [|by rewrite upd_eq].
  intros x Hx. rewrite upd_ne by lia. by apply installed.
Qed.
End commit.

(** The writes of recovery itself, and a crash in the middle of them. *)
Section recovery.
Context (d : Z → block) (hdr0 : block) (Hhdr0 : hdr_blocks hdr0 = []).
Context (Hbs : entries (hdr_blocks (d start))) (Hsize : (0 < size)%Z).

Let bs := hdr_blocks (d start).
Let W := install_writes start d 0 bs.

Lemma rec_region w : w ∈ W → ¬ (start ≤ w.1 < start + size)%Z.
Proof.
  intros (i & b & Hi & ->)%elem_install_writes. by destruct (entries_home bs i b Hbs Hi).
Qed.

Lemma rec_val x w : ¬ (start ≤ x < start + size)%Z → w ∈ W → w.1 = x → w.2 = recovered start d x.
Proof.
  intros Hx Hw Hwx. unfold recovered. fold bs. fold W.
  apply elem_install_writes in Hw as (i & b & Hi & ->). simpl in *. subst b. symmetry.
  apply apply_writes_val; [|right; eexists; split; [apply elem_install_writes; eauto|done]].
  intros w (j & c & Hj & ->)%elem_install_writes. simpl. intros ->.
  by rewrite (NoDup_lookup bs i j x) by (done || apply Hbs).
Qed.

Lemma recovery_crash k :
  home_eq start size (recovered start (apply_writes d (take k (W ++ [(start, hdr0)])))) (recovered start d).
Proof.
  assert (∀ l, (∀ w, w ∈ l → w ∈ W) → home_eq start size (recovered start (apply_writes d l)) (recovered start d)) as Hpre.
  { intros l Hl. apply (recovered_committed _ _ bs).
    - rewrite apply_writes_ne; [done|]. intros w Hw%Hl%rec_region. lia.
    - intros i b Hi. destruct (entries_home bs i b Hbs Hi) as [Hb Hlb].
      rewrite apply_writes_ne; [|intros w Hw%Hl%rec_region; lia].
      assert ((b, d (start + Z.of_nat i + 1)%Z) ∈ W) as Hw by (apply elem_install_writes; eauto).
      by apply (rec_val b _ Hb Hw).
    - intros x Hx Hn. assert (∀ w, w ∈ W → w.1 ≠ x) as Hno.
      { intros w (i & b & Hi & ->)%elem_install_writes. simpl. intros ->. apply Hn.
        by eapply list_elem_of_lookup_2. }
      unfold recovered. fold bs W. rewrite !apply_writes_ne; auto. }
  destruct (take_app_cases k W [(start, hdr0)]) as [->|([|j] & ->)].
  - apply Hpre. intros w. apply in_take.
  - rewrite take_0, app_nil_r. by apply Hpre.
  - replace (take (S j) [(start, hdr0)]) with [(start, hdr0)] by by destruct j.
    rewrite apply_writes_app. cbn [apply_writes foldl fst snd].
    rewrite recovered_empty by by rewrite upd_eq. intros x Hx. rewrite upd_ne by lia. done.
Qed.
End recovery.
End crash.

Module Log.

Record st := St {
  bio : Bio.st;
  start : Z;
  size : Z;
  outstanding : Z;     (* how many FS sys calls are executing *)
  committing : bool;   (* in commit(), please wait *)
  dev : Z;
  lh_n : Z;            (* lh.n *)
  lh_block : list Z;   (* lh.block[LOGSIZE] *)
}.

Definition set_bio (v : Bio.st) (s : st) : st :=
  St v (start s) (size s) (outstanding s) (committing s) (dev s) (lh_n s) (lh_block s).
Definition set_outstanding (v : Z) (s : st) : st :=
  St (bio s) (start s) (size s) v (committing s) (dev s) (lh_n s) (lh_block s).
Definition set_committing (v : bool) (s : st) : st :=
  St (bio s) (start s) (size s) (outstanding s) v (dev s) (lh_n s) (lh_block s).
Definition set_lh (n : Z) (bs : list Z) (s : st) : st :=
  St (bio s) (start s) (size s) (outstanding s) (committing s) (dev s) n bs.

(** The locks are those of the cache below. *)
#[export] Instance st_locks : HasLocks st.
Proof.
  refine {| held s := sheld (bio s); set_held h s := set_bio (set_sheld h (bio s)) s |};
    intros; destruct s as [[]]; done.
Defined.

Section log.
Context (disksize : Z).

Local Open Scope kern_scope.

Definition biol : lens st Bio.st := Lens bio set_bio.

Definition bread (dev b : Z) : kM st nat := kzoom biol (Bio.bread disksize dev b).
Definition bwrite (i : nat) : kM st unit := kzoom biol (Bio.bwrite disksize i).
Definition brelse (i : nat) : kM st unit := kzoom biol (Bio.brelse i).
Definition getb (i : nat) : kM st buf := kzoom biol (Bio.getb i).
Definition putb (i : nat) (b : buf) : kM st unit := kzoom biol (Bio.putb i b).
Definition bmodify (i : nat) (f : block → block) : kM st unit := kzoom biol (Bio.bmodify i f).
Definition wakeup (c : chan) : kM st unit := kzoom biol (Bio.wakeup c).

(** fs.c: read the super block. *)
Definition readsb (dev : Z) : kM st superblock :=
  i ← bread dev 1;
  b ← getb i;
  brelse i ;;
  kret (parse_sb (bdata b)).

(** The entries of the in-memory header a loop over [lh.n] visits; an [n]
    beyond the array would be an out-of-bounds access. *)
Definition lh_blocks (s : st) : list Z := take (Z.to_nat (lh_n s)) (lh_block s).

Definition lh_bounds : kM st unit :=
  s ← kget; if bool_decide (lh_n s ≤ LOGSIZE)%Z then kret tt else kfault.

(** One round of [install_trans]: log block [tail] to its home [b]. *)
Definition install_one (tail : nat) (b : Z) : kM st unit :=
  s ← kget;
  lbuf ← bread (dev s) (start s + Z.of_nat tail + 1);
  dbuf ← bread (dev s) b;
  l ← getb lbuf;
  bmodify dbuf (λ _, bdata l) ;;
  bwrite dbuf ;;
  brelse lbuf ;;
  brelse dbuf.

(** A loop [for(tail = 0; tail < log.lh.n; tail++)] over the entries. *)
Fixpoint for_tail (body : nat → Z → kM st unit) (tail : nat) (bs : list Z) : kM st unit :=
  match bs with [] => kret tt | b :: bs => body tail b ;; for_tail body (S tail) bs end.

Definition install_trans : kM st unit :=
  lh_bounds ;; s ← kget; for_tail install_one 0 (lh_blocks s).

Definition read_head : kM st unit :=
  s ← kget;
  i ← bread (dev s) (start s);
  b ← getb i;
  let n := hdr_n (bdata b) in
  (if bool_decide (n ≤ LOGSIZE)%Z then kret tt else kfault) ;;
  kmodify (λ s, set_lh n ((hdr_block (bdata b) <$> seq 0 (Z.to_nat n))
                            ++ drop (Z.to_nat n) (lh_block s)) s) ;;
  brelse i.

Definition write_head : kM st unit :=
  lh_bounds ;;
  s ← kget;
  i ← bread (dev s) (start s);
  bmodify i (λ b, put_blocks (put32 b 0 (lh_n s)) 0 (lh_blocks s)) ;;
  bwrite i ;;
  brelse i.

Definition recover_from_log : kM st unit :=
  read_head ;;
  install_trans ;;
  kmodify (λ s, set_lh 0 (lh_block s) s) ;;
  write_head.

(** sizeof(struct logheader) is 124, below BSIZE: the first panic is dead. *)
Definition initlog (d : Z) : kM st unit :=
  kassert (bool_decide (4 + 4 * LOGSIZE < 512)%Z) "initlog: too big logheader" ;;
  sb ← readsb d;
  kmodify (λ s, St (bio s) (i32 (sb_logstart sb)) (i32 (sb_nlog sb)) (outstanding s) (committing s)
                   d (lh_n s) (lh_block s)) ;;
  recover_from_log.

(** The body of [while(1)] in [begin_op]; a sleeper re-enters it. *)
Definition begin_op_loop : kM st unit :=
  s ← kget;
  if committing s then sleep CLog LLog
  else if bool_decide (LOGSIZE < lh_n s + (outstanding s + 1) * MAXOPBLOCKS)%Z then
    (* this op might exhaust log space; wait for commit *)
    sleep CLog LLog
  else
    kmodify (set_outstanding (outstanding s + 1)) ;;
    release LLog.

Definition begin_op : kM st unit := acquire LLog ;; begin_op_loop.

Definition write_log_one (tail : nat) (b : Z) : kM st unit :=
  s ← kget;
  to ← bread (dev s) (start s + Z.of_nat tail + 1);
  from ← bread (dev s) b;
  f ← getb from;
  bmodify to (λ _, bdata f) ;;
  bwrite to ;;
  brelse from ;;
  brelse to.

Definition write_log : kM st unit :=
  lh_bounds ;; s ← kget; for_tail write_log_one 0 (lh_blocks s).

Definition commit : kM st unit :=
  s ← kget;
  kwhen (bool_decide (0 < lh_n s)%Z)
    (write_log ;;
     write_head ;;
     install_trans ;;
     kmodify (λ s, set_lh 0 (lh_block s) s) ;;
     write_head).

Definition end_op : kM st unit :=
  acquire LLog ;;
  kmodify (λ s, set_outstanding (outstanding s - 1) s) ;;
  s ← kget;
  kassert (negb (committing s)) "log.committing" ;;
  let do_commit := bool_decide (outstanding s = 0)%Z in
  (if do_commit then kmodify (set_committing true) else wakeup CLog) ;;
  release LLog ;;
  kwhen do_commit
    (commit ;;
     acquire LLog ;;
     kmodify (set_committing false) ;;
     wakeup CLog ;;
     release LLog).

Definition log_write (i : nat) : kM st unit :=
  s ← kget;
  kassert (negb (bool_decide (LOGSIZE ≤ lh_n s)%Z || bool_decide (size s - 1 ≤ lh_n s)%Z))
    "too big a transaction" ;;
  kassert (negb (bool_decide (outstanding s < 1)%Z)) "log_write outside of trans" ;;
  acquire LLog ;;
  s ← kget;
  b ← getb i;
  (* log absorbtion: the entry of this block, or a new one at the end *)
  (match list_find (λ x, x = bblockno b) (lh_blocks s) with
   | Some _ => kret tt
   | None => kmodify (set_lh (lh_n s + 1) (<[Z.to_nat (lh_n s) := bblockno b]> (lh_block s)))
   end) ;;
  putb i (set_dirty true b) ;;
  release LLog.

(** ** Steps on the cache below *)

(** Only the cache has changed, and it represents [B], [L], [v], [d]; the disk
    has received the writes [W]. *)
Definition cache (s : st) (B : gmap Z nat) (L : gset Z) (v d : Z → block) (W : list (Z * block)) (s' : st) : Prop :=
  ∃ b, s' = set_bio b s ∧ rep B L v d b ∧ writes b = writes (bio s) ++ W.

Lemma cache_refl s B L v d : rep B L v d (bio s) → cache s B L v d [] s.
Proof. intros Hr. exists (bio s). rewrite app_nil_r. by destruct s. Qed.

Lemma cache_trans s s1 s2 B L v d B' L' v' d' W W' :
  cache s B L v d W s1 → cache s1 B' L' v' d' W' s2 → cache s B' L' v' d' (W ++ W') s2.
Proof.
  intros (b1 & -> & _ & Hw1) (b2 & -> & Hr2 & Hw2). exists b2. split; [by destruct s|]. split; [done|].
  simpl in Hw2. by rewrite Hw2, Hw1, app_assoc.
Qed.

(** What stays of the log's own fields. *)
Lemma cache_fields s B L v d W s' :
  cache s B L v d W s' →
  rep B L v d (bio s') ∧ start s' = start s ∧ size s' = size s ∧ dev s' = dev s ∧ lh_n s' = lh_n s ∧
  lh_block s' = lh_block s ∧ outstanding s' = outstanding s ∧ committing s' = committing s ∧
  writes (bio s') = writes (bio s) ++ W.
Proof. intros (b & -> & Hr & Hw). by split_and!. Qed.

Lemma wp_bread_l B L v d s b (Q : nat → st → Prop) :
  rep B L v d (bio s) → B !! b = None → (b < disksize)%Z → (b ∈ L ∨ base.size (L ∪ dom B) < NBUF) →
  (∀ i s', cache s (<[b := i]> B) L v d [] s' → Q i s') → wp (bread ROOTDEV b) s Q.
Proof.
  intros Hr HB Hd Hroom HQ. apply wp_zoom. eapply wp_mono; [by apply wp_bread|].
  intros i b' [Hr' Hw]. apply HQ. exists b'. by rewrite app_nil_r.
Qed.

Lemma wp_bmodify_l B L v d s i b f (Q : unit → st → Prop) :
  rep B L v d (bio s) → B !! b = Some i →
  (∀ s', cache s B L (upd v b (f (v b))) d [] s' → Q tt s') → wp (bmodify i f) s Q.
Proof.
  intros Hr HB HQ. apply wp_zoom. eapply wp_mono; [by apply wp_bmodify|].
  intros [] b' [Hr' Hw]. apply HQ. exists b'. by rewrite app_nil_r.
Qed.

Lemma wp_bwrite_l B L v d s i b (Q : unit → st → Prop) :
  rep B L v d (bio s) → B !! b = Some i → (b < disksize)%Z →
  (∀ s', cache s B (L ∖ {[b]}) v (upd d b (v b)) [(b, v b)] s' → Q tt s') → wp (bwrite i) s Q.
Proof.
  intros Hr HB Hd HQ. apply wp_zoom. eapply wp_mono; [by apply wp_bwrite|].
  intros [] b' [Hr' Hw]. apply HQ. by exists b'.
Qed.

Lemma wp_brelse_l B L v d s i b (Q : unit → st → Prop) :
  rep B L v d (bio s) → B !! b = Some i → (b ∈ L ∨ v b = d b) →
  (∀ s', cache s (delete b B) L v d [] s' → Q tt s') → wp (brelse i) s Q.
Proof.
  intros Hr HB Hc HQ. apply wp_zoom. eapply wp_mono; [by apply wp_brelse|].
  intros [] b' [Hr' Hw]. apply HQ. exists b'. by rewrite app_nil_r.
Qed.

Lemma wp_getb_l B L v d s i b (Q : buf → st → Prop) :
  rep B L v d (bio s) → B !! b = Some i → (∀ x, bdata x = v b → bblockno x = b → Q x s) → wp (getb i) s Q.
Proof.
  intros Hr HB HQ. destruct (rep_handle _ _ _ _ _ _ _ Hr HB) as (x & Hx & _ & _ & Hdat & _ & Hxi).
  apply wp_zoom. apply (wp_getb _ x); [done|]. assert (set_bio (bio s) s = s) as Hs by by destruct s.
  simpl. rewrite Hs. apply HQ; [done|apply Hx].
Qed.

(** ** Copying between the log and home locations *)

Lemma upd_same {B} (f : Z → B) a b : f a = b → ∀ x, upd f a b x = f x.
Proof. intros <- x. unfold upd. by case_decide as Hx; [rewrite Hx|]. Qed.

(** The contents matter only pointwise. *)
Lemma rep_ext B L v v' d d' b :
  rep B L v d b → (∀ x, v x = v' x) → d = d' → rep B L v' d' b.
Proof.
  intros [] Hv <-. split; try done.
  - intros i c x Hx. rewrite <-Hv. by eapply rep_view0.
  - intros c Hc HB. rewrite <-Hv. by apply rep_clean0.
Qed.

(** Both buffers are locked: copy, write and release. *)
Lemma wp_copy_tail B L v d s (src dst : Z) i j (Q : unit → st → Prop) :
  rep B L v d (bio s) → B !! src = Some i → B !! dst = Some j → src ≠ dst → (dst < disksize)%Z →
  (src ∈ L ∨ v src = d src) →
  (∀ s', cache s (delete dst (delete src B)) (L ∖ {[dst]}) (upd v dst (v src)) (upd d dst (v src))
           [(dst, v src)] s' → Q tt s') →
  wp (l ← getb i; bmodify j (λ _, bdata l) ;; bwrite j ;; brelse i ;; brelse j) s Q.
Proof.
  intros Hr Hi Hj Hne Hd Hsrc HQ.
  apply wp_bind. eapply (wp_getb_l _ _ _ _ _ i src); [done..|].
  intros x Hx _. apply wp_bind. eapply (wp_bmodify_l _ _ _ _ _ j dst); [done..|].
  intros s3 H3. destruct (cache_fields _ _ _ _ _ _ _ H3) as (Hr3 & _). rewrite Hx in *.
  apply wp_bind. eapply (wp_bwrite_l _ _ _ _ _ j dst); [done..|].
  rewrite upd_eq. intros s4 H4. destruct (cache_fields _ _ _ _ _ _ _ H4) as (Hr4 & _).
  apply wp_bind. eapply (wp_brelse_l _ _ _ _ _ i src); [done..| |].
  { rewrite !upd_ne by done. destruct Hsrc; [left; set_solver|by right]. }
  intros s5 H5. destruct (cache_fields _ _ _ _ _ _ _ H5) as (Hr5 & _).
  eapply (wp_brelse_l _ _ _ _ _ j dst); [done|by rewrite lookup_delete_ne| |].
  { right. by rewrite !upd_eq. }
  intros s6 H6. apply HQ.
  pose proof (cache_trans _ _ _ _ _ _ _ _ _ _ _ _ _ H3 H4) as H14.
  pose proof (cache_trans _ _ _ _ _ _ _ _ _ _ _ _ _ H14 H5) as H15.
  exact (cache_trans _ _ _ _ _ _ _ _ _ _ _ _ _ H15 H6).
Qed.

Lemma delete_both (a b : Z) (i j : nat) :
  delete b (delete a (<[a := i]> (<[b := j]> (∅ : gmap Z nat)))) = ∅ ∧
  delete b (delete a (<[b := j]> (<[a := i]> (∅ : gmap Z nat)))) = ∅.
Proof.
  split; apply map_eq; intros k; rewrite lookup_empty;
    (destruct (decide (k = b)) as [->|]; [by rewrite lookup_delete_eq|]);
    rewrite lookup_delete_ne by done;
    (destruct (decide (k = a)) as [->|]; [by rewrite lookup_delete_eq|]);
    by rewrite lookup_delete_ne, !lookup_insert_ne, lookup_empty by done.
Qed.

(** Two blocks are locked one after the other. *)
Lemma wp_bread_two L v d s (b c : Z) (k : nat → nat → kM st unit) (Q : unit → st → Prop) :
  rep ∅ L v d (bio s) → b ≠ c → (b < disksize)%Z → (c < disksize)%Z → base.size L < NBUF →
  (c ∈ L ∨ base.size ({[b]} ∪ L) < NBUF) →
  (∀ i j s', cache s (<[c := j]> (<[b := i]> ∅)) L v d [] s' → wp (k i j) s' Q) →
  wp (i ← bread ROOTDEV b; j ← bread ROOTDEV c; k i j) s Q.
Proof.
  intros Hr Hne Hb Hc Hsz Hroom HQ.
  apply wp_bind. eapply wp_bread_l; [done|apply lookup_empty|done|right; by rewrite dom_empty_L, union_empty_r_L|].
  intros i s1 H1. destruct (cache_fields _ _ _ _ _ _ _ H1) as (Hr1 & _).
  apply wp_bind. eapply wp_bread_l; [done|by rewrite lookup_insert_ne|done| |].
  { destruct Hroom as [?|Hroom]; [by left|right]. rewrite dom_insert_L, dom_empty_L, union_empty_r_L.
    by rewrite union_comm_L. }
  intros j s2 H2. apply HQ. exact (cache_trans _ _ _ _ _ _ _ _ _ _ _ _ _ H1 H2).
Qed.

(** [install_one] and [write_log_one] in terms of the contents. *)
Lemma wp_install_one L v d s t b (Q : unit → st → Prop) :
  let lb := (start s + Z.of_nat t + 1)%Z in
  rep ∅ L v d (bio s) → dev s = ROOTDEV → lb ≠ b → (lb < disksize)%Z → (b < disksize)%Z →
  base.size L < NBUF → (b ∈ L ∨ base.size ({[lb]} ∪ L) < NBUF) → v lb = d lb →
  (∀ s', cache s ∅ (L ∖ {[b]}) (upd v b (v lb)) (upd d b (v lb)) [(b, v lb)] s' → Q tt s') →
  wp (install_one t b) s Q.
Proof.
  intros lb Hr Hdev Hne Hlb Hb Hsz Hroom Hcl HQ. unfold install_one. apply wp_bind, wp_get.
  rewrite Hdev. fold lb. eapply (wp_bread_two L v d); [done..|].
  intros i j s1 H1. destruct (cache_fields _ _ _ _ _ _ _ H1) as (Hr1 & _).
  eapply (wp_copy_tail _ _ _ _ _ lb b);
    [done|by rewrite lookup_insert_ne, lookup_insert_eq|by rewrite lookup_insert_eq|done|done|by right|].
  intros s2 H2. apply HQ. rewrite (proj2 (delete_both lb b i j)) in H2.
  exact (cache_trans _ _ _ _ _ _ _ _ _ _ _ _ _ H1 H2).
Qed.

Lemma wp_write_log_one L v d s t b (Q : unit → st → Prop) :
  let lb := (start s + Z.of_nat t + 1)%Z in
  rep ∅ L v d (bio s) → dev s = ROOTDEV → lb ≠ b → lb ∉ L → (lb < disksize)%Z → (b < disksize)%Z →
  base.size L < NBUF → b ∈ L →
  (∀ s', cache s ∅ L (upd v lb (v b)) (upd d lb (v b)) [(lb, v b)] s' → Q tt s') →
  wp (write_log_one t b) s Q.
Proof.
  intros lb Hr Hdev Hne HlbL Hlb Hb Hsz Hin HQ. unfold write_log_one. apply wp_bind, wp_get.
  rewrite Hdev. fold lb. eapply (wp_bread_two L v d); [done..|by left|].
  intros i j s1 H1. destruct (cache_fields _ _ _ _ _ _ _ H1) as (Hr1 & _).
  eapply (wp_copy_tail _ _ _ _ _ b lb);
    [done|by rewrite lookup_insert_eq|by rewrite lookup_insert_ne, lookup_insert_eq|done|done|by left|].
  intros s2 H2. apply HQ. rewrite (proj1 (delete_both b lb j i)) in H2.
  replace (L ∖ {[lb]}) with L in H2 by set_solver.
  exact (cache_trans _ _ _ _ _ _ _ _ _ _ _ _ _ H1 H2).
Qed.

(** ** The loops *)

Lemma log_writes_ext start v v' bs : ∀ t,
  (∀ b, b ∈ bs → v' b = v b) → log_writes start v' t bs = log_writes start v t bs.
Proof.
  induction bs as [|b bs IH]; intros t Hv; [done|]. simpl. rewrite Hv by constructor. f_equal.
  apply IH. intros c Hc. apply Hv. by constructor.
Qed.

Lemma install_writes_ext start v v' bs : ∀ t,
  (∀ i, i < length bs → v' (start + Z.of_nat (t + i) + 1)%Z = v (start + Z.of_nat (t + i) + 1)%Z) →
  install_writes start v' t bs = install_writes start v t bs.
Proof.
  induction bs as [|b bs IH]; intros t Hv; [done|]. simpl. f_equal.
  - f_equal. specialize (Hv 0). rewrite Nat.add_0_r in Hv. apply Hv. simpl. lia.
  - apply IH. intros i Hi. specialize (Hv (S i)). replace (S t + i) with (t + S i) by lia.
    apply Hv. simpl. lia.
Qed.

(** A block outside the log, on the disk. *)
Definition home (s : st) (b : Z) : Prop :=
  (0 ≤ b < disksize)%Z ∧ ¬ (start s ≤ b < start s + size s)%Z.

(** The log lies on the disk. *)
Definition region (s : st) : Prop :=
  (0 ≤ start s)%Z ∧ (0 < size s)%Z ∧ (start s + size s ≤ disksize)%Z ∧ (disksize ≤ 2 ^ 31)%Z ∧ dev s = ROOTDEV.

Lemma wp_for_write_log bs : ∀ t L v d s,
  rep ∅ L v d (bio s) → region s → base.size L < NBUF →
  (Z.of_nat (t + length bs) < size s)%Z → (∀ b, b ∈ bs → b ∈ L) → (∀ b, b ∈ L → home s b) →
  wp (for_tail write_log_one t bs) s (λ _ s',
    let W := log_writes (start s) v t bs in cache s ∅ L (apply_writes v W) (apply_writes d W) W s').
Proof.
  induction bs as [|b bs IH]; intros t L v d s Hr Hreg Hsz Hlen HbL HLh; cbn [for_tail length] in *.
  { apply wp_ret. by apply cache_refl. }
  pose proof Hreg as (H0 & H1 & H2 & H3 & Hdev). set (lb := (start s + Z.of_nat t + 1)%Z).
  destruct (HLh b) as [Hb Hbh]; [apply HbL; constructor|].
  assert (lb ∉ L) as HlbL by (intros [_ Hx]%HLh; lia).
  apply wp_bind. eapply wp_write_log_one; [done|done|lia|done|lia|lia|done|apply HbL; constructor|].
  fold lb. intros s1 Hc1. destruct (cache_fields _ _ _ _ _ _ _ Hc1) as (Hr1 & Hst & Hsi & Hdv & _).
  eapply wp_mono; [apply (IH (S t) L (upd v lb (v b)) (upd d lb (v b)))|].
  - done.
  - unfold region. by rewrite Hst, Hsi, Hdv.
  - done.
  - rewrite Hsi. lia.
  - intros c Hc. apply HbL. by constructor.
  - intros c Hc. unfold home. rewrite Hst, Hsi. by apply HLh.
  - intros [] s2 Hc2. rewrite Hst in Hc2.
    rewrite (log_writes_ext (start s) v (upd v lb (v b)) bs (S t)) in Hc2.
    2: { intros c Hc. apply upd_ne. intros ->. apply HlbL, HbL. by constructor. }
    simpl in *. exact (cache_trans _ _ _ _ _ _ _ _ _ _ _ _ _ Hc1 Hc2).
Qed.

Lemma wp_for_install bs : ∀ t L v d s,
  rep ∅ L v d (bio s) → region s → base.size L < NBUF →
  (Z.of_nat (t + length bs) < size s)%Z → NoDup bs → (∀ b, b ∈ bs → home s b) →
  (L = ∅ ∨ ∀ b, b ∈ bs → b ∈ L) → (∀ b, b ∈ L → home s b) →
  wp (for_tail install_one t bs) s (λ _ s',
    let W := install_writes (start s) v t bs in
    cache s ∅ (L ∖ list_to_set bs) (apply_writes v W) (apply_writes d W) W s').
Proof.
  induction bs as [|b bs IH]; intros t L v d s Hr Hreg Hsz Hlen Hnd Hbh HL HLh; cbn [for_tail length] in *.
  { apply wp_ret. replace (L ∖ list_to_set []) with L by set_solver. by apply cache_refl. }
  pose proof Hreg as (H0 & H1 & H2 & H3 & Hdev). set (lb := (start s + Z.of_nat t + 1)%Z).
  destruct (Hbh b) as [Hb Hbn]; [constructor|]. apply list.NoDup_cons in Hnd as [Hbbs Hnd].
  assert (lb ∉ L) as HlbL by (intros [_ Hx]%HLh; lia).
  apply wp_bind. eapply wp_install_one; [done|done|lia|lia|lia|done| | |].
  { destruct HL as [->|HL]; [right|left; apply HL; constructor]. rewrite union_empty_r_L, size_singleton.
    unfold NBUF. lia. }
  { apply (rep_clean _ _ _ _ _ Hr); [done|apply lookup_empty]. }
  fold lb. intros s1 Hc1. destruct (cache_fields _ _ _ _ _ _ _ Hc1) as (Hr1 & Hst & Hsi & Hdv & _).
  eapply wp_mono; [apply (IH (S t) (L ∖ {[b]}) (upd v b (v lb)) (upd d b (v lb)))|].
  - done.
  - unfold region. by rewrite Hst, Hsi, Hdv.
  - assert (base.size (L ∖ {[b]}) ≤ base.size L) by (apply subseteq_size; set_solver). lia.
  - rewrite Hsi. lia.
  - done.
  - intros c Hc. unfold home. rewrite Hst, Hsi. apply Hbh. by constructor.
  - destruct HL as [->|HL]; [left; set_solver|right]. intros c Hc. apply elem_of_difference.
    split; [apply HL; by constructor|]. intros ->%elem_of_singleton. done.
  - intros c [Hc _]%elem_of_difference. unfold home. rewrite Hst, Hsi. by apply HLh.
  - intros [] s2 Hc2. rewrite Hst in Hc2.
    rewrite (install_writes_ext (start s) v (upd v b (v lb)) bs (S t)) in Hc2 by (intros i Hi; apply upd_ne; lia).
    replace (L ∖ list_to_set (b :: bs)) with (L ∖ {[b]} ∖ list_to_set bs) by set_solver.
    simpl in *. exact (cache_trans _ _ _ _ _ _ _ _ _ _ _ _ _ Hc1 Hc2).
Qed.

Lemma wp_write_head L v d s (Q : unit → st → Prop) :
  let h := put_blocks (put32 (v (start s)) 0 (lh_n s)) 0 (lh_blocks s) in
  rep ∅ L v d (bio s) → region s → base.size L < NBUF → start s ∉ L → (lh_n s ≤ LOGSIZE)%Z →
  (∀ s', cache s ∅ L (upd v (start s) h) (upd d (start s) h) [(start s, h)] s' → Q tt s') →
  wp write_head s Q.
Proof.
  intros h Hr Hreg Hsz HL Hn HQ. pose proof Hreg as (H0 & H1 & H2 & H3 & Hdev).
  unfold write_head, lh_bounds. apply wp_bind, wp_bind, wp_get. rewrite bool_decide_true by done.
  apply wp_ret. apply wp_bind, wp_get. rewrite Hdev.
  apply wp_bind. eapply wp_bread_l; [done|apply lookup_empty|lia|right; by rewrite dom_empty_L, union_empty_r_L|].
  intros i s1 Hc1. destruct (cache_fields _ _ _ _ _ _ _ Hc1) as (Hr1 & _).
  apply wp_bind. eapply wp_bmodify_l; [done|by apply lookup_insert_eq|].
  fold h. intros s2 Hc2. destruct (cache_fields _ _ _ _ _ _ _ Hc2) as (Hr2 & _).
  apply wp_bind. eapply wp_bwrite_l; [done|by apply lookup_insert_eq|lia|].
  rewrite upd_eq. intros s3 Hc3. destruct (cache_fields _ _ _ _ _ _ _ Hc3) as (Hr3 & _).
  eapply wp_brelse_l; [done|by apply lookup_insert_eq|right; by rewrite !upd_eq|].
  intros s4 Hc4. apply HQ. replace (L ∖ {[start s]}) with L in * by set_solver.
  rewrite delete_insert_eq, delete_empty in Hc4.
  pose proof (cache_trans _ _ _ _ _ _ _ _ _ _ _ _ _ Hc1 Hc2) as H12.
  pose proof (cache_trans _ _ _ _ _ _ _ _ _ _ _ _ _ H12 Hc3) as H13.
  exact (cache_trans _ _ _ _ _ _ _ _ _ _ _ _ _ H13 Hc4).
Qed.

(** ** The invariant between operations *)

(** Contents [v] over a disk [d] whose log is empty: the dirty blocks are the
    ones the in-memory header lists. *)
Record linv (v d : Z → block) (s : st) : Prop := {
  li_rep : rep ∅ (list_to_set (lh_blocks s)) v d (bio s);
  li_region : region s;
  li_n : (0 ≤ lh_n s < size s)%Z;
  li_nbuf : (lh_n s < LOGSIZE)%Z;
  li_len : length (lh_block s) = Z.to_nat LOGSIZE;
  li_nodup : NoDup (lh_blocks s);
  li_home b : b ∈ lh_blocks s → home s b;
  li_empty : hdr_blocks (d (start s)) = [];
  li_hdr : length (v (start s)) = BSIZE;
}.

Lemma length_lh_blocks s :
  (0 ≤ lh_n s)%Z → (lh_n s ≤ LOGSIZE)%Z → length (lh_block s) = Z.to_nat LOGSIZE →
  Z.of_nat (length (lh_blocks s)) = lh_n s.
Proof. intros H0 Hn Hl. unfold lh_blocks. rewrite length_take, Hl. lia. Qed.

Lemma linv_entries v d s : linv v d s → entries (start s) (size s) (lh_blocks s).
Proof.
  intros []. destruct li_region0 as (_ & _ & _ & ? & _). split; [done|]. split.
  - rewrite length_lh_blocks; [lia|lia|lia|done].
  - apply list.Forall_forall. intros b [Hb Hh]%li_home0. split; [lia|done].
Qed.

Lemma linv_size v d s : linv v d s → base.size (list_to_set (lh_blocks s) : gset Z) < NBUF.
Proof.
  intros []. rewrite size_list_to_set by done.
  pose proof (length_lh_blocks s ltac:(lia) ltac:(lia) li_len0). unfold NBUF, LOGSIZE in *. lia.
Qed.

Lemma linv_start v d s : linv v d s → start s ∉ (list_to_set (lh_blocks s) : gset Z).
Proof.
  intros [] [_ Hb]%elem_of_list_to_set%li_home0. destruct li_region0 as (? & ? & _). lia.
Qed.

Lemma linv_clean v d s x : linv v d s → x ∉ lh_blocks s → v x = d x.
Proof.
  intros [] Hx. apply (rep_clean _ _ _ _ _ li_rep0); [by rewrite elem_of_list_to_set|apply lookup_empty].
Qed.

(** What a segment of code does to the disk: the state that a crash may leave. *)
Definition crash_safe (s : st) (v d : Z → block) (W : list (Z * block)) : Prop :=
  ∀ k, let e := recovered (start s) (apply_writes d (take k W)) in
       home_eq (start s) (size s) e d ∨ home_eq (start s) (size s) e v.

Lemma apply_commit d W1 W3 (a : Z) (h h0 : block) :
  apply_writes d (W1 ++ [(a, h)] ++ W3 ++ [(a, h0)]) =
  upd (apply_writes (upd (apply_writes d W1) a h) W3) a h0.
Proof. by rewrite !apply_writes_app. Qed.

Lemma hdr_blocks_clear b : length b = BSIZE → hdr_blocks (put32 b 0 0) = [].
Proof. intros Hb. exact (hdr_blocks_put b [] Hb ltac:(simpl; lia) (Forall_nil_2 _)). Qed.

(** A stretch of code that only works on the cache keeps the log's fields. *)
Definition same_log (s s' : st) : Prop :=
  start s' = start s ∧ size s' = size s ∧ dev s' = dev s ∧ lh_n s' = lh_n s ∧
  lh_block s' = lh_block s ∧ outstanding s' = outstanding s ∧ committing s' = committing s.

Lemma cache_same s B L v d W s' : cache s B L v d W s' → rep B L v d (bio s') ∧ same_log s s'.
Proof. intros Hc. destruct (cache_fields _ _ _ _ _ _ _ Hc) as (? & ? & ? & ? & ? & ? & ? & ? & _). by split. Qed.

Lemma same_region s s' : same_log s s' → region s → region s'.
Proof. intros (Hst & Hsi & Hdv & _) Hr. unfold region. by rewrite Hst, Hsi, Hdv. Qed.

Lemma same_home s s' b : same_log s s' → home s b → home s' b.
Proof. intros (Hst & Hsi & _) Hb. unfold home. by rewrite Hst, Hsi. Qed.

Lemma same_blocks s s' : same_log s s' → lh_blocks s' = lh_blocks s.
Proof. intros (_ & _ & _ & Hn & Hb & _). unfold lh_blocks. by rewrite Hn, Hb. Qed.

Lemma same_trans s s1 s2 : same_log s s1 → same_log s1 s2 → same_log s s2.
Proof.
  intros (? & ? & ? & ? & ? & ? & ?) (? & ? & ? & ? & ? & ? & ?). unfold same_log. split_and!; congruence.
Qed.

Lemma wp_write_log v d s :
  linv v d s →
  let W := log_writes (start s) v 0 (lh_blocks s) in
  wp write_log s (λ _, cache s ∅ (list_to_set (lh_blocks s)) (apply_writes v W) (apply_writes d W) W).
Proof.
  intros Hi W. pose proof Hi as [Hrep Hreg Hn Hnb Hlen Hnd Hhome _ _].
  pose proof (length_lh_blocks s ltac:(lia) ltac:(lia) Hlen) as Hblen.
  unfold write_log, lh_bounds. apply wp_bind, wp_bind, wp_get. rewrite bool_decide_true by lia.
  apply wp_ret. apply wp_bind, wp_get.
  apply wp_for_write_log; try done; [by eapply linv_size|simpl; lia| |]; intros b; rewrite elem_of_list_to_set; auto.
Qed.

Lemma wp_install_trans L v d s :
  rep ∅ L v d (bio s) → region s → base.size L < NBUF → (0 ≤ lh_n s < size s)%Z → (lh_n s ≤ LOGSIZE)%Z →
  length (lh_block s) = Z.to_nat LOGSIZE → NoDup (lh_blocks s) → (∀ b, b ∈ lh_blocks s → home s b) →
  L = ∅ ∨ L = list_to_set (lh_blocks s) →
  let W := install_writes (start s) v 0 (lh_blocks s) in
  wp install_trans s (λ _, cache s ∅ ∅ (apply_writes v W) (apply_writes d W) W).
Proof.
  intros Hr Hreg Hsz Hn Hnb Hlen Hnd Hh HL W.
  pose proof (length_lh_blocks s ltac:(lia) Hnb Hlen) as Hblen.
  unfold install_trans, lh_bounds. apply wp_bind, wp_bind, wp_get. rewrite bool_decide_true by lia.
  apply wp_ret. apply wp_bind, wp_get.
  replace (∅ : gset Z) with (L ∖ list_to_set (lh_blocks s)) by (destruct HL as [->| ->]; set_solver).
  apply wp_for_install; try done; [simpl; lia| |].
  - destruct HL as [->| ->]; [by left|right]. intros b. by rewrite elem_of_list_to_set.
  - intros b. destruct HL as [->| ->]; [by intros ?%not_elem_of_empty|]. rewrite elem_of_list_to_set. auto.
Qed.

(** [log.lh.n = 0; write_head();] *)
Lemma wp_clear_head v d s hd (Q : unit → st → Prop) :
  let h0 := put32 hd 0 0 in
  v (start s) = hd → rep ∅ ∅ v d (bio s) → region s →
  (∀ s', cache (set_lh 0 (lh_block s) s) ∅ ∅ (upd v (start s) h0) (upd d (start s) h0) [(start s, h0)] s' → Q tt s') →
  wp (kmodify (λ s, set_lh 0 (lh_block s) s) ;; write_head) s Q.
Proof.
  intros h0 <- Hr Hreg HQ. apply wp_bind, wp_modify.
  apply (wp_write_head ∅ v d); [done|done|vm_compute; lia|apply not_elem_of_empty|vm_compute; by intros [=]|done].
Qed.

(** Header and log blocks once the log is written. *)
Section written.
Context (v d : Z → block) (s : st) (Hi : linv v d s).

Let bs := lh_blocks s.
Let W1 := log_writes (start s) v 0 bs.
Let h := put_blocks (put32 (v (start s)) 0 (lh_n s)) 0 bs.
Let v2 := upd (apply_writes v W1) (start s) h.

Lemma written_start : apply_writes v W1 (start s) = v (start s).
Proof.
  apply apply_writes_ne. intros w Hw%(W1_region _ _ _ _ (linv_entries _ _ _ Hi)). lia.
Qed.

Lemma written_header : hdr_blocks h = bs ∧ length h = BSIZE.
Proof.
  pose proof Hi as [_ (? & ? & ? & ? & _) Hn Hnb Hlen _ Hhome _ Hhl].
  pose proof (length_lh_blocks s ltac:(lia) ltac:(lia) Hlen) as Hblen. fold bs in Hblen.
  split; [|unfold h; by rewrite length_put_blocks, length_put32].
  unfold h. rewrite <-Hblen. apply hdr_blocks_put; [done|unfold LOGSIZE in *; lia|].
  apply list.Forall_forall. intros b [? _]%Hhome. lia.
Qed.

Lemma written_log i b : bs !! i = Some b → v2 (start s + Z.of_nat i + 1)%Z = v b.
Proof.
  intros Hib. unfold v2. destruct (entries_home _ _ _ _ _ (linv_entries _ _ _ Hi) Hib) as [_ Hlb].
  rewrite upd_ne by lia. apply apply_writes_val.
  - intros w (j & c & Hj & ->)%elem_log_writes. simpl. intros Heq. assert (j = i) as -> by lia.
    by simplify_eq.
  - right. eexists. split; [apply elem_log_writes; eauto|]. simpl. lia.
Qed.

Let W3 := install_writes (start s) v2 0 bs.

Lemma written_head : apply_writes v2 W3 (start s) = h.
Proof.
  rewrite apply_writes_ne; [unfold v2; by rewrite upd_eq|].
  intros w Hw%(W3_val _ _ _ _ _ (linv_entries _ _ _ Hi) written_log).
  pose proof (li_region _ _ _ Hi) as (? & ? & _). lia.
Qed.

Lemma written_view : home_eq (start s) (size s) (upd (apply_writes v2 W3) (start s) (put32 h 0 0)) v.
Proof.
  pose proof (li_region _ _ _ Hi) as (? & ? & _).
  intros x Hx. rewrite upd_ne by lia. apply apply_writes_val.
  - intros w (-> & _ & _)%(W3_val _ _ _ _ _ (linv_entries _ _ _ Hi) written_log). by intros <-.
  - left. unfold v2. rewrite upd_ne by lia. apply apply_writes_ne.
    intros w Hw%(W1_region _ _ _ _ (linv_entries _ _ _ Hi)). lia.
Qed.

(** The whole commit. *)
Lemma wp_commit_pos :
  let W := W1 ++ [(start s, h)] ++ W3 ++ [(start s, put32 h 0 0)] in
  wp (write_log ;; write_head ;; install_trans ;; kmodify (λ s, set_lh 0 (lh_block s) s) ;; write_head) s
    (λ _ s', ∃ s3, same_log s s3 ∧
      cache (set_lh 0 (lh_block s3) s3) ∅ ∅ (upd (apply_writes v2 W3) (start s) (put32 h 0 0))
        (apply_writes d W) [(start s, put32 h 0 0)] s' ∧
      writes (bio s3) = writes (bio s) ++ W1 ++ [(start s, h)] ++ W3).
Proof.
  pose proof Hi as [Hrep Hreg Hn Hnb Hlen Hnd Hhome _ _]. intros W.
  apply wp_bind. eapply wp_mono; [by apply wp_write_log|]. fold bs W1. intros [] s1 Hc1.
  destruct (cache_same _ _ _ _ _ _ _ Hc1) as [Hr1 Hs1]. pose proof Hs1 as (Hst1 & Hsi1 & _ & Hn1 & _).
  apply wp_bind. eapply wp_write_head; [done|by eapply same_region|by eapply linv_size|rewrite Hst1; by eapply linv_start|lia|].
  rewrite Hst1, Hn1, (same_blocks _ _ Hs1), written_start. fold bs h v2. intros s2 Hc2.
  destruct (cache_same _ _ _ _ _ _ _ Hc2) as [Hr2 Hs2]. pose proof (same_trans _ _ _ Hs1 Hs2) as H02.
  pose proof H02 as (Hst2 & Hsi2 & _ & Hn2 & Hb2 & _). pose proof (same_blocks _ _ H02) as Hbs2.
  apply wp_bind. eapply wp_mono; [eapply wp_install_trans; try exact Hr2|].
  { by eapply same_region. } { by eapply linv_size. } { by rewrite Hn2, Hsi2. } { lia. } { by rewrite Hb2. }
  { by rewrite Hbs2. } { intros b Hb. eapply same_home; [done|]. apply Hhome. by rewrite <-Hbs2. }
  { right. by rewrite Hbs2. }
  rewrite Hst2, Hbs2. fold bs. intros [] s3 Hc3.
  destruct (cache_same _ _ _ _ _ _ _ Hc3) as [Hr3 Hs3]. pose proof (same_trans _ _ _ H02 Hs3) as H03.
  pose proof H03 as (Hst3 & _).
  eapply (wp_clear_head _ _ _ h); [rewrite Hst3; exact written_head|exact Hr3|by eapply same_region|].
  rewrite Hst3.
  intros s4 Hc4. exists s3. split; [done|]. split; [unfold W; by rewrite apply_commit|].
  destruct Hc1 as (b1 & -> & _ & Hw1), Hc2 as (b2 & -> & _ & Hw2), Hc3 as (b3 & -> & _ & Hw3). simpl in *.
  by rewrite Hw3, Hw2, Hw1, <-!app_assoc.
Qed.
End written.

Lemma wp_commit v d s :
  linv v d s →
  wp commit s (λ _ s', ∃ v' d' W, linv v' d' s' ∧ lh_n s' = 0%Z ∧ home_eq (start s) (size s) v' v ∧
    d' = apply_writes d W ∧ writes (bio s') = writes (bio s) ++ W ∧ crash_safe s v d W ∧
    start s' = start s ∧ size s' = size s ∧ outstanding s' = outstanding s ∧ committing s' = committing s).
Proof.
  intros Hi. pose proof Hi as [Hrep Hreg Hn Hnb Hlen Hnd Hhome Hempty Hhl].
  unfold commit. apply wp_bind, wp_get. apply wp_when; intros Hpos.
  2: { apply bool_decide_eq_false in Hpos. exists v, d, []. rewrite app_nil_r.
       split_and!; try done; [lia|]. intros k. left. rewrite take_nil. by rewrite recovered_empty. }
  eapply wp_mono; [by apply (wp_commit_pos v d s)|]. intros [] s' (s3 & Hs3 & Hc4 & Hw3).
  destruct (cache_fields _ _ _ _ _ _ _ Hc4) as (Hr4 & Hst4 & Hsi4 & Hdv4 & Hn4 & Hb4 & Ho4 & Hcm4 & Hw4).
  destruct Hs3 as (Hst3 & Hsi3 & Hdv3 & Hn3 & Hb3 & Ho3 & Hcm3).
  simpl in Hst4, Hsi4, Hdv4, Hn4, Hb4, Ho4, Hcm4. cbn [bio set_lh] in Hw4.
  destruct (written_header v d s Hi) as [Hh Hhlen]. pose proof (hdr_blocks_clear _ Hhlen) as Hh0.
  do 3 eexists. split; [|split; [done|split; [by eapply written_view|split; [reflexivity|split_and!]]]].
  - split.
    + unfold lh_blocks. rewrite Hn4. simpl. exact Hr4.
    + unfold region. rewrite Hst4, Hsi4, Hdv4, Hst3, Hsi3, Hdv3. done.
    + rewrite Hn4, Hsi4, Hsi3. lia.
    + rewrite Hn4. unfold LOGSIZE. lia.
    + by rewrite Hb4, Hb3.
    + unfold lh_blocks. rewrite Hn4. apply NoDup_nil_2.
    + unfold lh_blocks. rewrite Hn4. by intros b ?%not_elem_of_nil.
    + by rewrite apply_commit, Hst4, Hst3, upd_eq.
    + by rewrite Hst4, Hst3, upd_eq, length_put32.
  - by rewrite Hw4, Hw3, <-!app_assoc.
  - intros k. eapply (commit_crash _ _ d v _ (lh_blocks s)); [done|done|done| | | |lia].
    + by apply (linv_entries _ _ _ Hi).
    + intros x Hx Hn'. by apply (linv_clean _ _ _ _ Hi).
    + intros i b. by apply (written_log v d s Hi).
  - congruence.
  - congruence.
  - congruence.
  - congruence.
Qed.

(** ** Operations and transactions *)

Lemma rep_frame B L v d b b' :
  rep B L v d b → sheld b' = [] → bufs b' = bufs b → lru b' = lru b → disk b' = disk b → rep B L v d b'.
Proof.
  intros [] Hh Hb Hl Hd. split; unfold holds in *; rewrite ?Hb, ?Hl, ?Hd; done.
Qed.

Lemma linv_frame v d s s' :
  linv v d s → sheld (bio s') = [] → bufs (bio s') = bufs (bio s) → lru (bio s') = lru (bio s) →
  disk (bio s') = disk (bio s) → start s' = start s → size s' = size s → dev s' = dev s →
  lh_n s' = lh_n s → lh_block s' = lh_block s → linv v d s'.
Proof.
  intros [] Hh Hb Hl Hd Hst Hsi Hdv Hn Hlb.
  assert (lh_blocks s' = lh_blocks s) as Hbs by (unfold lh_blocks; by rewrite Hn, Hlb).
  split; rewrite ?Hbs, ?Hst, ?Hsi, ?Hn, ?Hlb; try done.
  - by eapply rep_frame.
  - unfold region. by rewrite Hst, Hsi, Hdv.
  - intros b Hb'. unfold home. rewrite Hst, Hsi. by apply li_home0.
Qed.

Lemma linv_held v d s : linv v d s → sheld (bio s) = [].
Proof. intros []. apply li_rep0. Qed.

Lemma wp_acquire_log s (Q : unit → st → Prop) :
  sheld (bio s) = [] → Q tt (set_bio (set_sheld [LLog] (bio s)) s) → wp (acquire LLog) s Q.
Proof.
  intros Hh HQ. unfold wp. rewrite acquire_free by (simpl; rewrite Hh; apply not_elem_of_nil).
  simpl. by rewrite Hh.
Qed.

Lemma wp_release_log s (Q : unit → st → Prop) :
  sheld (bio s) = [LLog] → Q tt (set_bio (set_sheld [] (bio s)) s) → wp (release LLog) s Q.
Proof.
  intros Hh HQ. unfold wp. rewrite (release_top _ []) by (done || apply not_elem_of_nil). done.
Qed.

(** [begin_op] registers the operation, or sleeps while the log is busy. *)
Lemma begin_op_cases s :
  sheld (bio s) = [] →
  begin_op s =
    if committing s || bool_decide (LOGSIZE < lh_n s + (outstanding s + 1) * MAXOPBLOCKS)%Z
    then Slept CLog s else Done tt (set_outstanding (outstanding s + 1) s).
Proof.
  intros Hh. unfold begin_op. set (s1 := set_bio (set_sheld [LLog] (bio s)) s).
  rewrite (kbind_done _ _ _ tt s1).
  2: { rewrite acquire_free by (simpl; rewrite Hh; apply not_elem_of_nil). simpl. by rewrite Hh. }
  assert (set_bio (set_sheld [] (bio s1)) s1 = s) as Hs by (destruct s as [[]]; simpl in *; by subst).
  unfold begin_op_loop. rewrite (kbind_done _ _ _ s1 s1) by done. simpl.
  destruct (committing s) eqn:Hc; [rewrite sleep_holding by done; f_equal; exact Hs|]. simpl.
  case_bool_decide; [rewrite sleep_holding by done; f_equal; exact Hs|].
  rewrite (kbind_done _ _ _ tt (set_outstanding (outstanding s + 1) s1)) by done.
  rewrite (release_top _ []) by (done || apply not_elem_of_nil). simpl. f_equal.
  destruct s as [[]]; simpl in *; by subst.
Qed.

Lemma wp_end_op v d s :
  linv v d s → committing s = false →
  wp end_op s (λ _ s', ∃ v' d' W, linv v' d' s' ∧ home_eq (start s) (size s) v' v ∧
    d' = apply_writes d W ∧ writes (bio s') = writes (bio s) ++ W ∧ crash_safe s v d W ∧
    outstanding s' = (outstanding s - 1)%Z ∧ committing s' = false ∧ start s' = start s ∧ size s' = size s ∧
    (outstanding s = 1%Z → lh_n s' = 0%Z) ∧ (outstanding s ≠ 1%Z → W = [] ∧ lh_blocks s' = lh_blocks s)).
Proof.
  intros Hi Hcm. pose proof (linv_held _ _ _ Hi) as Hh.
  unfold end_op. apply wp_bind, wp_acquire_log; [done|]. apply wp_bind, wp_modify, wp_bind, wp_get.
  apply wp_bind, wp_assert; [simpl; by rewrite Hcm|]. simpl. case_bool_decide as Ho.
  - apply wp_bind, wp_modify. apply wp_bind, wp_release_log; [done|].
    match goal with |- wp _ ?x _ => set (s1 := x) end.
    assert (linv v d s1) as Hi1 by (eapply linv_frame; [exact Hi|done..]).
    apply wp_when; [intros _|done]. apply wp_bind.
    eapply wp_mono; [by apply wp_commit|].
    intros [] s2 (v' & d' & W & Hi2 & Hn2 & Hv & Hd & Hw & Hcr & Hst & Hsi & Hou & _).
    apply wp_bind, wp_acquire_log; [by eapply linv_held|]. apply wp_bind, wp_modify.
    apply wp_bind. apply wp_zoom, wp_modify. apply wp_release_log; [done|]. simpl.
    exists v', d', W. split; [|split_and!; try done; lia]. eapply linv_frame; [exact Hi2|done..].
  - apply wp_bind. apply wp_zoom, wp_modify. apply wp_bind, wp_release_log; [done|].
    apply wp_when; [done|intros _]. exists v, d, []. rewrite app_nil_r. simpl.
    split; [eapply linv_frame; [exact Hi|done..]|]. split_and!; try done; [|lia].
    intros k. left. rewrite take_nil. by rewrite recovered_empty by apply Hi.
Qed.

(** A typical update of one block inside a transaction. *)
Definition update (b : Z) (f : block → block) : kM st unit :=
  i ← bread ROOTDEV b; bmodify i f ;; log_write i ;; brelse i.

Lemma take_insert_snoc {A} (l : list A) n x : n < length l → take (S n) (<[n := x]> l) = take n l ++ [x].
Proof.
  intros Hn. rewrite (take_S_r _ _ x) by by apply list_lookup_insert_eq. by rewrite take_insert_ge by lia.
Qed.

(** The in-memory header with block [b] entered. *)
Definition enter (b : Z) (s : st) : st :=
  match list_find (λ x, x = b) (lh_blocks s) with
  | Some _ => s
  | None => set_lh (lh_n s + 1) (<[Z.to_nat (lh_n s) := b]> (lh_block s)) s
  end.

Lemma enter_blocks b s :
  (0 ≤ lh_n s < LOGSIZE)%Z → length (lh_block s) = Z.to_nat LOGSIZE →
  lh_blocks (enter b s) = if decide (b ∈ lh_blocks s) then lh_blocks s else lh_blocks s ++ [b].
Proof.
  intros Hn Hl. unfold enter. destruct (list_find _ _) as [[i x]|] eqn:Hf.
  - apply list_find_Some in Hf as (Hi & -> & _). rewrite decide_True; [done|]. by eapply list_elem_of_lookup_2.
  - apply list_find_None in Hf. rewrite list.Forall_forall in Hf. rewrite decide_False by (intros ?; by eapply Hf).
    unfold lh_blocks. simpl. replace (Z.to_nat (lh_n s + 1)) with (S (Z.to_nat (lh_n s))) by lia.
    apply take_insert_snoc. rewrite Hl. lia.
Qed.

Lemma rep_pin B L v d s i b x :
  rep B L v d s → B !! b = Some i → bufs s !! i = Some x →
  rep B ({[b]} ∪ L) v d (set_bufs (<[i := Bio.set_dirty true x]> (bufs s)) s).
Proof.
  intros Hr HB Hx. pose proof (wp_pin _ _ _ _ _ _ _ Hr HB) as Hp.
  unfold wp, Bio.getb, Bio.putb, kbind, kget, kunwrap, kmodify in Hp. rewrite Hx in Hp. apply Hp.
Qed.

Lemma wp_log_write B L v d s i b :
  rep B L v d (bio s) → B !! b = Some i →
  (lh_n s < LOGSIZE)%Z → (lh_n s < size s - 1)%Z → (1 ≤ outstanding s)%Z →
  wp (log_write i) s (λ _ s', ∃ c, s' = set_bio c (enter b s) ∧ rep B ({[b]} ∪ L) v d c ∧
    writes c = writes (bio s)).
Proof.
  intros Hr HB Hn Hn' Ho. pose proof (rep_held _ _ _ _ _ Hr) as Hh.
  destruct (rep_handle _ _ _ _ _ _ _ Hr HB) as (x & Hx & _ & _ & _ & _ & Hxi).
  unfold log_write. apply wp_bind, wp_get, wp_bind, wp_assert.
  { rewrite !bool_decide_eq_false_2 by lia. done. }
  apply wp_bind, wp_assert; [rewrite bool_decide_eq_false_2 by lia; done|].
  apply wp_bind, wp_acquire_log; [done|]. apply wp_bind, wp_get, wp_bind, wp_zoom. eapply wp_getb; [exact Hxi|].
  replace (bblockno x) with b by (symmetry; apply Hx).
  apply wp_bind. match goal with |- wp _ ?y _ => set (s1 := y) end.
  assert (wp (match list_find (λ x, x = b) (lh_blocks s) with
     | Some _ => kret tt
     | None => kmodify (set_lh (lh_n s + 1) (<[Z.to_nat (lh_n s) := b]> (lh_block s)))
     end) s1 (λ _ s2, s2 = set_bio (set_sheld [LLog] (bio s)) (enter b s))) as Hm.
  { unfold enter. destruct (list_find _ _); done. }
  eapply wp_mono; [exact Hm|]. intros [] s2 ->. apply wp_bind, wp_zoom, wp_modify.
  apply wp_release_log; [done|]. simpl. eexists. split; [reflexivity|].
  split; [|done]. eapply rep_frame; [by eapply rep_pin|done..].
Qed.

(** What a call that changes only the cache and the header keeps. *)
Definition same_ctl (s s' : st) : Prop :=
  start s' = start s ∧ size s' = size s ∧ dev s' = dev s ∧
  outstanding s' = outstanding s ∧ committing s' = committing s.

Lemma enter_fields b s : same_ctl s (enter b s) ∧ bio (enter b s) = bio s ∧ length (lh_block (enter b s)) = length (lh_block s).
Proof. unfold enter. destruct (list_find _ _); [done|]. split; [done|]. split; [done|]. simpl. by rewrite length_insert. Qed.

Lemma enter_n b s :
  (0 ≤ lh_n s < LOGSIZE)%Z → length (lh_block s) = Z.to_nat LOGSIZE →
  (0 ≤ lh_n (enter b s) ≤ lh_n s + 1)%Z.
Proof. intros Hn Hl. unfold enter. destruct (list_find _ _); simpl; lia. Qed.

Definition add_block (b : Z) (bs : list Z) : list Z := if decide (b ∈ bs) then bs else bs ++ [b].

Lemma wp_update v d s b f :
  linv v d s → home s b → (size s ≤ LOGSIZE)%Z → (lh_n s < size s - 1)%Z → (1 ≤ outstanding s)%Z →
  wp (update b f) s (λ _ s', linv (upd v b (f (v b))) d s' ∧ same_ctl s s' ∧
    lh_blocks s' = add_block b (lh_blocks s) ∧ writes (bio s') = writes (bio s)).
Proof.
  intros Hi Hb Hsz Hn Ho. pose proof Hi as [Hrep Hreg Hn0 Hnb Hlen Hnd Hhome Hempty Hhl].
  unfold update. apply wp_bind.
  eapply wp_bread_l; [exact Hrep|apply lookup_empty|apply Hb| |].
  { right. rewrite dom_empty_L, union_empty_r_L. by eapply linv_size. }
  intros i s1 Hc1. destruct (cache_fields _ _ _ _ _ _ _ Hc1) as (Hr1 & Hf1).
  apply wp_bind. eapply (wp_bmodify_l _ _ _ _ _ i b); [done|by apply lookup_insert_eq|].
  intros s2 Hc2. destruct (cache_fields _ _ _ _ _ _ _ Hc2) as (Hr2 & _).
  destruct (cache_fields _ _ _ _ _ _ _ (cache_trans _ _ _ _ _ _ _ _ _ _ _ _ _ Hc1 Hc2))
    as (_ & Hst & Hsi & Hdv & Hn2 & Hlb & Hou & Hcm & Hw). rewrite app_nil_r in Hw.
  assert (lh_blocks s2 = lh_blocks s) as Hbs by (unfold lh_blocks; by rewrite Hn2, Hlb).
  apply wp_bind. eapply wp_mono; [eapply (wp_log_write _ _ _ _ _ i b); [done|by apply lookup_insert_eq|lia..]|].
  intros [] s3 (c & -> & Hr3 & Hw3).
  eapply (wp_brelse_l _ _ _ _ _ i b); [done|by apply lookup_insert_eq|left; set_solver|].
  intros s4 Hc4. destruct (cache_fields _ _ _ _ _ _ _ Hc4) as (Hr4 & Hst4 & Hsi4 & Hdv4 & Hn4 & Hb4 & Ho4 & Hcm4 & Hw4).
  destruct (enter_fields b s2) as ((He1 & He2 & He3 & He4 & He5) & He6 & He7). simpl in *.
  assert (lh_blocks s4 = add_block b (lh_blocks s)) as Hbs4.
  { transitivity (lh_blocks (enter b s2)); [unfold lh_blocks; by rewrite Hn4, Hb4|].
    rewrite enter_blocks by (rewrite ?Hn2, ?Hlb; done || lia). by rewrite Hbs. }
  pose proof (enter_n b s2 ltac:(lia) ltac:(by rewrite Hlb)) as Hen.
  split; [|split; [split_and!; congruence|split; [done|by rewrite Hw4, Hw3, Hw, app_nil_r]]].
  split.
  - rewrite Hbs4. rewrite delete_insert_id in Hr4 by apply lookup_empty.
    replace (list_to_set (add_block b (lh_blocks s)) : gset Z) with ({[b]} ∪ list_to_set (lh_blocks s) : gset Z);
      [exact Hr4|]. unfold add_block. case_decide; set_solver.
  - unfold region. by rewrite Hst4, Hsi4, Hdv4, He1, He2, He3, Hst, Hsi, Hdv.
  - rewrite Hn4, Hsi4, He2, Hsi. lia.
  - rewrite Hn4. lia.
  - by rewrite Hb4, He7, Hlb.
  - rewrite Hbs4. unfold add_block. case_decide; [done|]. apply list.NoDup_app. split; [done|].
    split; [set_solver|]. apply NoDup_singleton.
  - intros x Hx. unfold home. rewrite Hst4, Hsi4, He1, He2, Hst, Hsi. rewrite Hbs4 in Hx. unfold add_block in Hx.
    case_decide; [by apply Hhome|]. apply elem_of_app in Hx as [Hx| ->%list_elem_of_singleton]; [by apply Hhome|done].
  - by rewrite Hst4, He1, Hst.
  - rewrite Hst4, He1, Hst. rewrite upd_ne; [done|]. intros Hx. destruct Hb as [_ Hb]. destruct Hreg as (? & ? & _). lia.
Qed.

(** ** Transactions: a file system operation is bracketed by [begin_op] and
    [end_op], and updates blocks in between; operations may overlap. *)
Inductive top :=
  | TBegin
  | TUpdate (b : Z) (f : block → block)
  | TEnd.

Definition run_top (o : top) : kM st unit :=
  match o with TBegin => begin_op | TUpdate b f => update b f | TEnd => end_op end.

Fixpoint run_tops (os : list top) : kM st unit :=
  match os with [] => kret tt | o :: os => run_top o ;; run_tops os end.

(** The specification: the number of open operations, the blocks of the open
    transaction, and the contents all operations see. *)
Record tspec := TS { t_out : Z; t_blocks : list Z; t_view : Z → block }.

Definition t_step (o : top) (a : tspec) : tspec :=
  match o with
  | TBegin => TS (t_out a + 1) (t_blocks a) (t_view a)
  | TUpdate b f => TS (t_out a) (add_block b (t_blocks a)) (upd (t_view a) b (f (t_view a b)))
  | TEnd => TS (t_out a - 1) (if bool_decide (t_out a = 1)%Z then [] else t_blocks a) (t_view a)
  end.

(** A step that neither sleeps nor panics: the space [begin_op] reserves, the
    log's capacity for an update. *)
Definition t_ok (ls sz : Z) (o : top) (a : tspec) : Prop :=
  match o with
  | TBegin => (Z.of_nat (length (t_blocks a)) + (t_out a + 1) * MAXOPBLOCKS ≤ LOGSIZE)%Z
  | TUpdate b _ => ((0 ≤ b < disksize)%Z ∧ ¬ (ls ≤ b < ls + sz)%Z) ∧
                   (Z.of_nat (length (t_blocks a)) < sz - 1)%Z ∧ (1 ≤ t_out a)%Z
  | TEnd => (1 ≤ t_out a)%Z
  end.

Fixpoint t_oks (ls sz : Z) (os : list top) (a : tspec) : Prop :=
  match os with [] => True | o :: os => t_ok ls sz o a ∧ t_oks ls sz os (t_step o a) end.

(** The contents at the points where no operation is open. *)
Fixpoint commits (os : list top) (a : tspec) : list (Z → block) :=
  match os with
  | [] => []
  | o :: os => let a' := t_step o a in
      (if bool_decide (t_out a' = 0)%Z then [t_view a'] else []) ++ commits os a'
  end.

(** The log between two steps, the specification beside it. *)
Record logrel (u d : Z → block) (a : tspec) (s : st) : Prop := {
  lr_view : ∃ v, linv v d s ∧ home_eq (start s) (size s) (t_view a) v;
  lr_out : outstanding s = t_out a ∧ (0 ≤ t_out a)%Z ∧ committing s = false;
  lr_blocks : lh_blocks s = t_blocks a;
  lr_size : (size s ≤ LOGSIZE)%Z;
  lr_base : home_eq (start s) (size s) d u;
}.

(** One step: the writes it causes, and what a crash between them leaves. *)
Lemma wp_run_top u d a s o :
  logrel u d a s → t_ok (start s) (size s) o a →
  wp (run_top o) s (λ _ s', ∃ u' W, logrel u' (apply_writes d W) (t_step o a) s' ∧
    start s' = start s ∧ size s' = size s ∧ writes (bio s') = writes (bio s) ++ W ∧
    u' = (if bool_decide (t_out (t_step o a) = 0)%Z then t_view (t_step o a) else u) ∧
    ∀ k, let e := recovered (start s) (apply_writes d (take k W)) in
         home_eq (start s) (size s) e u ∨
         (t_out (t_step o a) = 0%Z ∧ home_eq (start s) (size s) e (t_view (t_step o a)))).
Proof.
  intros [(v & Hi & Hv) (Ho & Ho0 & Hcm) Hbs Hsz Hu] Hok. pose proof Hi as [Hrep Hreg Hn Hnb Hlen Hnd Hhome Hempty Hhl].
  assert (∀ k, home_eq (start s) (size s) (recovered (start s) (apply_writes d (take k []))) u) as Hnil.
  { intros k. rewrite take_nil. simpl. by rewrite recovered_empty. }
  assert (Z.of_nat (length (t_blocks a)) = lh_n s) as Hlb by (rewrite <-Hbs; apply length_lh_blocks; done || lia).
  destruct o as [|b f|]; simpl in Hok |- *.
  - unfold wp. rewrite begin_op_cases by by eapply linv_held. rewrite Hcm, bool_decide_eq_false_2 by lia. simpl.
    exists u, []. rewrite app_nil_r, bool_decide_eq_false_2 by lia. split; [|split_and!; try done; by left].
    split; [|simpl; lia || (split_and!; done || lia)|done..]. exists v. split; [|done]. eapply linv_frame; [exact Hi|by apply (linv_held v d)|done..].
  - destruct Hok as (Hb & Hl & H1). eapply wp_mono; [apply (wp_update v d s b f); done || lia|].
    intros [] s' (Hi' & (Hst & Hsi & _ & Hou & Hcm') & Hbs' & Hw). exists u, [].
    rewrite app_nil_r, bool_decide_eq_false_2 by lia. split; [|split_and!; try done; by left].
    split; rewrite ?Hst, ?Hsi; [|simpl; rewrite Hou, Hcm'; done|simpl; by rewrite Hbs', Hbs|done..].
    exists (upd v b (f (v b))). split; [done|]. intros x Hx. simpl. unfold upd.
    case_decide; [rewrite Hv by apply Hb; done|by apply Hv].
  - eapply wp_mono; [by apply (wp_end_op v d)|].
    intros [] s' (v' & d' & W & Hi' & Hv' & -> & Hw & Hcr & Hou & Hcm' & Hst & Hsi & Hlast & Hmore).
    destruct (decide (t_out a = 1%Z)) as [H1|H1].
    + rewrite !bool_decide_eq_true_2 by lia. exists (t_view a), W. split; [|split_and!; try done].
      * split; rewrite ?Hst, ?Hsi; [exists v'; split; [done|by rewrite Hv']|simpl; split_and!; done || lia| |done|].
        -- simpl. unfold lh_blocks. rewrite Hlast by lia. done.
        -- transitivity v; [|by symmetry]. intros x Hx. rewrite <-(Hv' x Hx).
           symmetry. apply (linv_clean _ _ _ _ Hi'). unfold lh_blocks. rewrite Hlast by lia. apply not_elem_of_nil.
      * intros k. destruct (Hcr k) as [Hk|Hk]; [left; by rewrite Hk|right]. split; [lia|]. by rewrite Hk.
    + rewrite !bool_decide_eq_false_2 by lia. destruct Hmore as [-> Hbs']; [lia|]. exists u, []. simpl.
      split; [|split_and!; try done; by left].
      split; rewrite ?Hst, ?Hsi; [exists v'; split; [done|by rewrite Hv']|simpl; split_and!; done || lia|by rewrite <-Hbs|done|done].
Qed.

Lemma take_app_le {A} k (l1 l2 : list A) :
  k ≤ length l1 → take k (l1 ++ l2) = take k l1.
Proof. intros Hk. rewrite take_app. replace (k - length l1) with 0 by lia. by rewrite take_0, app_nil_r. Qed.

Lemma wp_run_tops os : ∀ u d a s,
  logrel u d a s → t_oks (start s) (size s) os a →
  wp (run_tops os) s (λ _ s', ∃ W, writes (bio s') = writes (bio s) ++ W ∧
    (∀ k, ∃ e, e ∈ u :: commits os a ∧
       home_eq (start s) (size s) (recovered (start s) (apply_writes d (take k W))) e) ∧
    ∃ e, list.last (u :: commits os a) = Some e ∧
       home_eq (start s) (size s) (recovered (start s) (apply_writes d W)) e).
Proof.
  induction os as [|o os IH]; intros u d a s Hr Hok.
  { apply wp_ret. exists []. rewrite app_nil_r.
    assert (home_eq (start s) (size s) (recovered (start s) d) u) as Hu.
    { destruct Hr as [(v & Hi & _) _ _ _ Hu]. by rewrite recovered_empty by apply Hi. }
    split; [done|]. split; [|by exists u]. intros k. exists u. rewrite take_nil. split; [constructor|done]. }
  destruct Hok as [Hok Hoks]. cbn [run_tops]. apply wp_bind. eapply wp_mono; [by apply (wp_run_top u d a)|].
  intros [] s1 (u1 & W1 & Hr1 & Hst & Hsi & Hw1 & Hu1 & Hk1).
  rewrite <-Hst, <-Hsi in Hoks.
  eapply wp_mono; [by apply (IH u1 (apply_writes d W1) (t_step o a))|].
  intros [] s2 (W2 & Hw2 & Hk2 & Hl2). rewrite Hst, Hsi in *. exists (W1 ++ W2).
  split; [by rewrite Hw2, Hw1, app_assoc|]. cbn [commits].
  assert (∀ e, e ∈ u1 :: commits os (t_step o a) → e ∈ u :: (if bool_decide (t_out (t_step o a) = 0)%Z then [t_view (t_step o a)] else []) ++ commits os (t_step o a)) as Hin.
  { intros e. rewrite Hu1. case_bool_decide; set_solver. }
  split.
  - intros k. destruct (decide (k ≤ length W1)).
    + rewrite take_app_le by done. destruct (Hk1 k) as [He|[H0 He]]; eexists; (split; [|exact He]); [constructor|].
      rewrite bool_decide_eq_true_2 by done. set_solver.
    + rewrite take_app_ge, apply_writes_app by lia. destruct (Hk2 (k - length W1)) as (e & He & Hee).
      exists e. split; [by apply Hin|done].
  - destruct Hl2 as (e & He & Hee). exists e. rewrite apply_writes_app. split; [|done].
    rewrite <-He, Hu1. case_bool_decide; [done|]. done.
Qed.

(** ** Recovery at boot *)

(** The disk has a super block, a log on the disk and a sound log header. *)
Definition logstart (d : Z → block) : Z := i32 (sb_logstart (parse_sb (d 1%Z))).
Definition nlog (d : Z → block) : Z := i32 (sb_nlog (parse_sb (d 1%Z))).

Record formatted (d : Z → block) : Prop := {
  fo_disk : (1 < disksize ≤ 2 ^ 31)%Z;
  fo_start : (0 ≤ logstart d)%Z;
  fo_log : (0 < nlog d ≤ LOGSIZE)%Z ∧ (logstart d + nlog d ≤ disksize)%Z;
  fo_hdr : length (d (logstart d)) = BSIZE;
  fo_n : (0 ≤ hdr_n (d (logstart d)))%Z;
  fo_entries : entries (logstart d) (nlog d) (hdr_blocks (d (logstart d)));
  fo_home b : b ∈ hdr_blocks (d (logstart d)) → (0 ≤ b < disksize)%Z;
}.

(** A machine that has run [binit] on disk [d]. *)
Record booted (d : Z → block) (s : st) : Prop := {
  bo_rep : rep ∅ ∅ d d (bio s);
  bo_out : outstanding s = 0%Z ∧ committing s = false;
  bo_len : length (lh_block s) = Z.to_nat LOGSIZE;
}.

Lemma length_hdr_blocks b : (0 ≤ hdr_n b)%Z → Z.of_nat (length (hdr_blocks b)) = hdr_n b.
Proof. intros Hn. unfold hdr_blocks. rewrite length_fmap, length_seq. lia. Qed.

Lemma wp_readsb d s (Q : superblock → st → Prop) :
  rep ∅ ∅ d d (bio s) → (1 < disksize)%Z →
  (∀ s', cache s ∅ ∅ d d [] s' → Q (parse_sb (d 1%Z)) s') → wp (readsb ROOTDEV) s Q.
Proof.
  intros Hr H1 HQ. unfold readsb. apply wp_bind.
  eapply wp_bread_l; [done|apply lookup_empty|lia|right; vm_compute; lia|].
  intros i s1 Hc1. destruct (cache_fields _ _ _ _ _ _ _ Hc1) as (Hr1 & _).
  apply wp_bind. eapply wp_getb_l; [done|apply lookup_insert_eq|]. intros x Hx _.
  apply wp_bind. eapply wp_brelse_l; [done|apply lookup_insert_eq|by right|].
  intros s2 Hc2. apply wp_ret. rewrite Hx. apply HQ. rewrite delete_insert_id in Hc2 by apply lookup_empty.
  exact (cache_trans _ _ _ _ _ _ _ _ _ _ _ _ _ Hc1 Hc2).
Qed.

Lemma wp_read_head d s (Q : unit → st → Prop) :
  let hd := d (start s) in
  rep ∅ ∅ d d (bio s) → region s → (hdr_n hd ≤ LOGSIZE)%Z →
  (∀ s', cache (set_lh (hdr_n hd) (hdr_blocks hd ++ drop (Z.to_nat (hdr_n hd)) (lh_block s)) s) ∅ ∅ d d [] s' →
         Q tt s') → wp read_head s Q.
Proof.
  intros hd Hr (H0 & H1 & H2 & H3 & Hdev) Hn HQ. unfold read_head. apply wp_bind, wp_get. rewrite Hdev.
  apply wp_bind. eapply wp_bread_l; [done|apply lookup_empty|lia|right; vm_compute; lia|].
  intros i s1 Hc1. destruct (cache_fields _ _ _ _ _ _ _ Hc1) as (Hr1 & _).
  apply wp_bind. eapply wp_getb_l; [done|apply lookup_insert_eq|]. intros x Hx _. rewrite Hx. fold hd.
  cbv zeta. rewrite bool_decide_true by done. apply wp_bind, wp_ret, wp_bind, wp_modify.
  destruct Hc1 as (c1 & -> & _ & Hw1). cbn [lh_block set_bio] in *.
  eapply wp_brelse_l; [exact Hr1|apply lookup_insert_eq|by right|].
  intros s2 (c2 & -> & Hr2 & Hw2). apply HQ. rewrite delete_insert_id in Hr2 by apply lookup_empty.
  exists c2. split; [by destruct s|]. split; [done|]. cbn [bio set_bio set_lh] in *. by rewrite Hw2, Hw1, !app_nil_r.
Qed.

Lemma wp_recover d s :
  rep ∅ ∅ d d (bio s) → region s → (size s ≤ LOGSIZE)%Z → length (lh_block s) = Z.to_nat LOGSIZE →
  let bs := hdr_blocks (d (start s)) in let h0 := put32 (d (start s)) 0 0 in
  let W := install_writes (start s) d 0 bs in
  (0 ≤ hdr_n (d (start s)))%Z → entries (start s) (size s) bs → (∀ b, b ∈ bs → (0 ≤ b < disksize)%Z) →
  wp recover_from_log s (λ _ s', ∃ lb,
    let e := upd (apply_writes d W) (start s) h0 in
    cache (set_lh 0 lb s) ∅ ∅ e e (W ++ [(start s, h0)]) s' ∧ length lb = Z.to_nat LOGSIZE).
Proof.
  intros Hr Hreg Hsz Hlen bs h0 W Hn0 He Hhome. pose proof He as (Hnd & Hlt & Hfa).
  pose proof (length_hdr_blocks (d (start s)) Hn0) as Hln. fold bs in Hln.
  unfold recover_from_log. apply wp_bind. eapply (wp_read_head d); [done|done|lia|].
  fold bs. intros s1 Hc1. set (lb := bs ++ drop (Z.to_nat (hdr_n (d (start s)))) (lh_block s)) in *.
  destruct (cache_fields _ _ _ _ _ _ _ Hc1) as (Hr1 & Hst1 & Hsi1 & Hdv1 & Hn1 & Hb1 & _ & _ & _).
  simpl in Hst1, Hsi1, Hdv1, Hn1, Hb1.
  assert (lh_blocks s1 = bs) as Hbs1.
  { unfold lh_blocks, lb in *. rewrite Hn1, Hb1. apply take_app_length'. lia. }
  assert (length lb = Z.to_nat LOGSIZE) as Hlb by (unfold lb; rewrite length_app, length_drop, Hlen; lia).
  assert (region s1) as Hreg1 by (unfold region; by rewrite Hst1, Hsi1, Hdv1).
  apply wp_bind. eapply wp_mono.
  { apply (wp_install_trans ∅ d d s1); rewrite ?Hbs1, ?Hn1, ?Hb1, ?Hsi1; try done;
      [vm_compute; lia|lia|lia| |by left].
    intros b Hb. split; [by apply Hhome|]. rewrite Hst1, Hsi1. rewrite list.Forall_forall in Hfa. by apply Hfa. }
  rewrite Hbs1, Hst1. fold W. intros [] s2 Hc2.
  destruct (cache_fields _ _ _ _ _ _ _ Hc2) as (Hr2 & Hst2 & Hsi2 & Hdv2 & _ & Hb2 & _).
  eapply (wp_clear_head _ _ s2 (d (start s))); [|done| |].
  { rewrite Hst2, Hst1. apply apply_writes_ne. intros w Hw%(rec_region _ (size s) d); [|done].
    destruct Hreg as (? & ? & _). lia. }
  { unfold region. by rewrite Hst2, Hsi2, Hdv2. }
  rewrite Hst2, Hst1. fold h0. intros s3 (c3 & -> & Hr3 & Hw3). exists lb.
  destruct Hc2 as (c2 & -> & _ & Hw2). destruct Hc1 as (c1 & -> & _ & Hw1). simpl in *.
  split; [|done]. exists c3. split; [done|]. split; [done|]. by rewrite Hw3, Hw2, Hw1, app_nil_r, <-app_assoc.
Qed.

Lemma wp_initlog d s :
  booted d s → formatted d →
  wp (initlog ROOTDEV) s (λ _ s', ∃ W, let u := recovered (logstart d) d in
    logrel u (apply_writes d W) (TS 0 [] u) s' ∧
    start s' = logstart d ∧ size s' = nlog d ∧ writes (bio s') = writes (bio s) ++ W ∧
    ∀ k, home_eq (logstart d) (nlog d) (recovered (logstart d) (apply_writes d (take k W))) u).
Proof.
  intros [Hr [Ho Hcm] Hlen] [Hd Hst [[Hsz Hsz'] Hend] Hhdr Hn0 He Hhome].
  unfold initlog. apply wp_bind, wp_assert; [by apply bool_decide_true|].
  apply wp_bind, (wp_readsb d); [done|lia|]. intros s1 Hc1.
  destruct (cache_fields _ _ _ _ _ _ _ Hc1) as (Hr1 & _ & _ & _ & _ & Hb1 & Ho1 & Hcm1 & Hw1).
  apply wp_bind, wp_modify. fold (logstart d) (nlog d).
  match goal with |- wp _ ?x _ => set (s2 := x) end.
  eapply wp_mono; [apply (wp_recover d s2); simpl; rewrite ?Hb1; try done; unfold region; simpl; split_and!; done || lia|].
  intros [] s3 (lb & Hc3 & Hlb). cbn [start s2] in Hc3. cbv zeta in Hc3.
  set (bs := hdr_blocks (d (logstart d))) in *. set (h0 := put32 (d (logstart d)) 0 0) in *.
  set (W := install_writes (logstart d) d 0 bs) in *.
  destruct (cache_fields _ _ _ _ _ _ _ Hc3) as (Hr3 & Hst3 & Hsi3 & Hdv3 & Hn3 & Hb3 & Ho3 & Hcm3 & Hw3).
  simpl in Hst3, Hsi3, Hdv3, Hn3, Hb3, Ho3, Hcm3, Hw3.
  pose proof (hdr_blocks_clear _ Hhdr) as Hh0. fold h0 in Hh0.
  exists (W ++ [(logstart d, h0)]). rewrite Hw3, Hw1, app_nil_r.
  split; [|split_and!; [done|done|done|intros k; by apply recovery_crash; try lia]].
  rewrite apply_writes_app. cbn [apply_writes foldl fst snd]. fold (apply_writes d W).
  assert (home_eq (logstart d) (nlog d) (upd (apply_writes d W) (logstart d) h0) (recovered (logstart d) d)) as Hu.
  { intros x Hx. rewrite upd_ne by lia. done. }
  assert (lh_blocks s3 = []) as Hbs3 by (unfold lh_blocks; by rewrite Hn3).
  split; rewrite ?Hst3, ?Hsi3; [|simpl; by rewrite Ho3, Hcm3, Ho1, Hcm1, Ho, Hcm|done..].
  eexists. split; [|by symmetry]. split; rewrite ?Hbs3, ?Hn3, ?Hst3, ?Hsi3, ?Hb3; try done.
  - unfold region. rewrite Hst3, Hsi3, Hdv3. split_and!; done || lia.
  - apply NoDup_nil_2.
  - by intros b ?%not_elem_of_nil.
  - by rewrite upd_eq.
  - rewrite upd_eq. unfold h0. by rewrite length_put32.
Qed.

(** C1: crash atomicity of the log, from boot on. Boot on a formatted disk [d],
    run recovery, then any sequence of overlapping operations that the log
    admits. The run succeeds, and whatever prefix of its block writes reached
    the disk before a crash, the recovery of that disk gives (outside the log)
    the contents [d] stood for or those of a point where no operation was open;
    the complete trace gives the last such point. *)
Theorem log_crash_atomic d s os :
  let u := recovered (logstart d) d in
  booted d s → formatted d → t_oks (logstart d) (nlog d) os (TS 0 [] u) →
  wp (initlog ROOTDEV ;; run_tops os) s (λ _ s', ∃ W, writes (bio s') = writes (bio s) ++ W ∧
    (∀ k, ∃ e, e ∈ u :: commits os (TS 0 [] u) ∧
       home_eq (logstart d) (nlog d) (recovered (logstart d) (apply_writes d (take k W))) e) ∧
    ∃ e, list.last (u :: commits os (TS 0 [] u)) = Some e ∧
       home_eq (logstart d) (nlog d) (recovered (logstart d) (apply_writes d W)) e).
Proof.
  intros u Hb Hf Hok. apply wp_bind. eapply wp_mono; [by apply (wp_initlog d)|].
  intros [] s1 (W1 & Hr1 & Hst & Hsi & Hw1 & Hk1). cbv zeta in Hr1, Hk1. fold u in Hr1, Hk1.
  rewrite <-Hst, <-Hsi in Hok. eapply wp_mono; [by apply (wp_run_tops os u)|].
  intros [] s2 (W2 & Hw2 & Hk2 & Hl2). rewrite Hst, Hsi in *. exists (W1 ++ W2).
  split; [by rewrite Hw2, Hw1, app_assoc|]. rewrite apply_writes_app. split; [|done].
  intros k. destruct (decide (k ≤ length W1)).
  - rewrite take_app_le by done. exists u. split; [constructor|done].
  - rewrite take_app_ge, apply_writes_app by lia. apply Hk2.
Qed.
End log.

(** ** A disk of 1000 blocks as mkfs lays it out: the log of 30 blocks starts at
    block 2. Its last run crashed after a commit of block 40. *)
Definition zero_block : block := replicate BSIZE 0%Z.

Definition demo_sb : block :=
  put32 (put32 (put32 zero_block 0 1000) 12 30) 16 2.

Definition demo_disk : Z → block :=
  upd (upd (upd (λ _, zero_block) 1%Z demo_sb)
    2%Z (put_blocks (put32 zero_block 0 1) 0 [40%Z])) 3%Z (replicate BSIZE 7%Z).

Definition demo_bio0 : Bio.st :=
  Bio.St [] (replicate NBUF (Buf 0 0 false false false zero_block)) (Links id id) demo_disk [] [].

Definition demo_bio : Bio.st := match binit demo_bio0 with Done _ s => s | _ => demo_bio0 end.

Definition demo_log : st := St demo_bio 0 0 0 false 0 0 (replicate (Z.to_nat LOGSIZE) 0%Z).

Lemma demo_booted : booted demo_disk demo_log.
Proof.
  split; [|done|done]. unfold demo_log, demo_bio. cbn [bio].
  assert (∀ i x, bufs demo_bio0 !! i = Some x → bbusy x = false ∧ bdirty x = false) as Hx.
  { intros i x Hx. by apply lookup_replicate in Hx as [-> _]. }
  destruct (proj1 (wp_done _ _ _) (wp_binit demo_bio0 eq_refl eq_refl Hx)) as (a & s & Hs & Hr & _).
  rewrite Hs. exact Hr.
Qed.

Lemma demo_formatted : formatted 1000 demo_disk.
Proof.
  assert (logstart demo_disk = 2%Z) as Hl by (vm_compute; reflexivity).
  assert (nlog demo_disk = 30%Z) as Hn by (vm_compute; reflexivity).
  assert (hdr_blocks (demo_disk 2%Z) = [40%Z]) as Hb by (vm_compute; reflexivity).
  split; rewrite ?Hl, ?Hn, ?Hb.
  - lia.
  - lia.
  - unfold LOGSIZE. lia.
  - vm_compute. reflexivity.
  - vm_compute. discriminate.
  - split; [apply NoDup_singleton|]. split; [simpl; lia|]. apply Forall_singleton. lia.
  - intros b ->%list_elem_of_singleton. lia.
Qed.

(** Two overlapping operations; a crash anywhere leaves both or neither. *)
Definition demo_tops : list top :=
  [TBegin; TUpdate 50 (λ _, replicate BSIZE 1%Z); TBegin; TUpdate 60 (λ _, replicate BSIZE 2%Z); TEnd; TEnd].

Lemma log_crash_atomic_witness :
  ∃ s', (initlog 1000 ROOTDEV ;; run_tops 1000 demo_tops)%kern demo_log = Done tt s' ∧
    recovered 2 demo_disk 40%Z = replicate BSIZE 7%Z ∧
    ∀ k, let e := recovered 2 (apply_writes demo_disk (take k (writes (bio s')))) in
         (e 50%Z = zero_block ∧ e 60%Z = zero_block) ∨
         (e 50%Z = replicate BSIZE 1%Z ∧ e 60%Z = replicate BSIZE 2%Z).
Proof.
  assert (logstart demo_disk = 2%Z) as Hl by (vm_compute; reflexivity).
  assert (nlog demo_disk = 30%Z) as Hn by (vm_compute; reflexivity).
  pose proof (log_crash_atomic 1000 demo_disk demo_log demo_tops demo_booted demo_formatted) as H.
  rewrite Hl, Hn in H. destruct (proj1 (wp_done _ _ _) (H ltac:(simpl; unfold MAXOPBLOCKS, LOGSIZE; lia))) as ([] & s' & Hs & W & Hw & Hk & _).
  exists s'. split; [exact Hs|]. split; [vm_compute; reflexivity|].
  assert (writes (bio demo_log) = []) as H0 by (vm_compute; reflexivity). rewrite H0 in Hw. simpl in Hw.
  rewrite Hw. intros k. cbv zeta. destruct (Hk k) as (e & He & Heq).
  rewrite (Heq 50%Z), (Heq 60%Z) by lia. clear -He.
  assert (e = recovered 2 demo_disk ∨ (e 50%Z = replicate BSIZE 1%Z ∧ e 60%Z = replicate BSIZE 2%Z)) as [->|?].
  { apply elem_of_cons in He as [->|He]; [by left|right]. simpl in He.
    apply list_elem_of_singleton in He as ->. split; reflexivity. }
  - left. split; vm_compute; reflexivity.
  - by right.
Defined.

(** Three operations of [MAXOPBLOCKS] blocks each. *)
Definition three_full_ops : list top :=
  [TBegin; TBegin; TBegin] ++ ((λ i, TUpdate (100 + Z.of_nat i) (λ b, b)) <$> seq 0 30) ++ [TEnd; TEnd; TEnd].

(** [begin_op] admits three operations of [MAXOPBLOCKS] blocks, but the
    header takes one block of the log of 30, so [log_write] panics when they use
    what was reserved for them. *)
Theorem reserved_space_panics :
  (initlog 1000 ROOTDEV ;; run_tops 1000 three_full_ops)%kern demo_log = Panic "too big a transaction".
Proof. vm_compute. reflexivity. Qed.
End Log.
