(* ===== verification/Blocks.v ===== *)
(** * The block interface of a transaction

    What the file system (fs.c) relies on below it: [bread], [brelse] and
    [log_write] inside a [begin_op]/[end_op] bracket. [BlockOps] has the calls and
    [BlockLayer] their contract; the log of Log.v over the cache of Bio.v
    discharges it. *)

From S2P Require Import Prelude Bio Log.

Class BlockOps (S : Type) := {
  bl_locks :: HasLocks S;
  bread : Z → Z → kM S nat;
  bdata : nat → kM S block;
  bmodify : nat → (block → block) → kM S unit;
  log_write : nat → kM S unit;
  brelse : nat → kM S unit;
}.

Class BlockLayer (S : Type) `{!BlockOps S} := {
  (* capacity of a transaction, size of the disk, blocks of the log itself *)
  cap : nat;
  nblk : Z;
  reserved : Z → Prop;
  (* [tx B D L v s]: the locked blocks are [B], those changed but not yet
     logged [D], those in the transaction [L], and the contents seen are [v] *)
  tx : gmap Z nat → gset Z → gset Z → (Z → block) → S → Prop;
  tx_held B D L v s : tx B D L v s → held s = [];
  tx_ext B D L v v' s : (∀ b, v b = v' b) → tx B D L v s → tx B D L v' s;
  bread_ok B D L v s b :
    tx B D L v s → B !! b = None → (0 ≤ b < nblk)%Z → (b ∈ L ∨ size (L ∪ dom B) ≤ cap) →
    wp (bread ROOTDEV b) s (λ i, tx (<[b := i]> B) D L v);
  bdata_ok B D L v s b i :
    tx B D L v s → B !! b = Some i → wp (bdata i) s (λ d s', d = v b ∧ s' = s);
  bmodify_ok B D L v s b i f :
    tx B D L v s → B !! b = Some i → ¬ reserved b →
    wp (bmodify i f) s (λ _, tx B ({[b]} ∪ D) L (upd v b (f (v b))));
  log_write_ok B D L v s b i :
    tx B D L v s → B !! b = Some i → ¬ reserved b → (0 ≤ b < nblk)%Z → size L < cap →
    wp (log_write i) s (λ _, tx B (D ∖ {[b]}) ({[b]} ∪ L) v);
  brelse_ok B D L v s b i :
    tx B D L v s → B !! b = Some i → b ∉ D →
    wp (brelse i) s (λ _, tx (delete b B) D L v);
}.

(** ** The log implements it *)

#[export] Instance log_ops (disksize : Z) : BlockOps Log.st := {|
  bl_locks := Log.st_locks;
  bread := Log.bread disksize;
  bdata i := (b ← Log.getb i; kret (Bio.bdata b))%kern;
  bmodify := Log.bmodify;
  log_write := Log.log_write;
  brelse := Log.brelse;
|}.

Section log_blocks.
Context (disksize ls sz : Z).
(** The disk as the last commit left it, and the writes it had received. *)
Context (d : Z → block) (W : list (Z * block)).
(** How many operations are open. *)
Context (out : Z).

Local Open Scope kern_scope.

(** What holds of the log besides the cache, while operations are open. *)
Record log_ok (v : Z → block) (s : Log.st) : Prop := {
  lo_start : Log.start s = ls;
  lo_size : Log.size s = sz;
  lo_region : Log.region disksize s;
  lo_fits : (sz ≤ LOGSIZE)%Z;
  lo_n : (0 ≤ Log.lh_n s < sz)%Z;
  lo_len : length (Log.lh_block s) = Z.to_nat LOGSIZE;
  lo_nodup : NoDup (Log.lh_blocks s);
  lo_home b : b ∈ Log.lh_blocks s → Log.home disksize s b;
  lo_empty : hdr_blocks (d ls) = [];
  lo_hdr : length (v ls) = BSIZE;
  lo_open : Log.outstanding s = out ∧ (0 ≤ out)%Z ∧ Log.committing s = false;
}.

Record log_tx (B : gmap Z nat) (D L : gset Z) (v : Z → block) (s : Log.st) : Prop := {
  lt_rep : Bio.rep B L v d (Log.bio s);
  lt_ok : log_ok v s;
  lt_logged : L = list_to_set (Log.lh_blocks s);
  lt_clean b : b ∉ L → (b ∉ D) → v b = d b;
  lt_writes : Bio.writes (Log.bio s) = W;
}.

Lemma log_ok_bio v s c : log_ok v s → log_ok v (Log.set_bio c s).
Proof. intros []. by split. Qed.

Lemma log_ok_view v v' s : log_ok v s → length (v' ls) = BSIZE → log_ok v' s.
Proof. intros [] Hl. by split. Qed.

(** Calls that only touch the cache. *)
Lemma log_tx_cache s B D L v d' B' D' v' s' :
  log_tx B D L v s → Log.cache s B' L v' d' [] s' → d' = d → length (v' ls) = BSIZE →
  (∀ b, b ∉ L → (b ∉ D') → v' b = d b) → log_tx B' D' L v' s'.
Proof.
  intros [Hr Hok HL Hcl Hw] (c & -> & Hr' & Hw') -> Hl Hcl'.
  split; [done|by apply log_ok_bio, log_ok_view with v|done|done|]. simpl. by rewrite Hw', app_nil_r.
Qed.

Lemma log_ok_enter b v s :
  log_ok v s → Log.home disksize s b → (Log.lh_n s < sz - 1)%Z → log_ok v (Log.enter b s).
Proof.
  intros [Hst Hsi Hreg Hfit Hn Hlen Hnd Hho He Hh Ho] Hb Hroom.
  destruct (Log.enter_fields b s) as ((E1 & E2 & E3 & E4 & E5) & _ & E7).
  pose proof (Log.enter_n b s ltac:(lia) Hlen) as Hen.
  pose proof (Log.enter_blocks b s ltac:(lia) Hlen) as Hbs.
  split; try (congruence || (rewrite ?E4, ?E5; done)).
  - unfold Log.region. by rewrite E1, E2, E3.
  - lia.
  - rewrite Hbs. case_decide; [done|]. apply list.NoDup_app. split; [done|]. split; [|apply NoDup_singleton].
    intros x Hx ->%list_elem_of_singleton. done.
  - intros x. rewrite Hbs. unfold Log.home. rewrite E1, E2. case_decide; [apply Hho|].
    intros [?| ->%list_elem_of_singleton]%elem_of_app; [by apply Hho|done].
Qed.

Lemma log_ok_size v s (L : gset Z) : log_ok v s → L = list_to_set (Log.lh_blocks s) → Z.of_nat (size L) = Log.lh_n s.
Proof. intros [] ->. rewrite size_list_to_set by done. apply Log.length_lh_blocks; lia || done. Qed.

(** Outside of operations blocks are only read. *)
Definition log_cap : nat := if decide (out = 0%Z) then 0 else Z.to_nat (sz - 1).

Lemma cap_nbuf v s : log_ok v s → log_cap < NBUF.
Proof. intros []. unfold log_cap, NBUF, LOGSIZE in *. case_decide; lia. Qed.

#[export] Instance log_blocks : BlockLayer Log.st (BlockOps0 := log_ops disksize).
Proof.
  refine {|
    cap := log_cap;
    nblk := disksize;
    reserved b := (ls ≤ b < ls + sz)%Z;
    tx := log_tx |}.
  - intros B D L v s [Hr _ _ _ _]. apply Hr.
  - intros B D L v v' s Hv [Hr Hok HL Hcl Hw]. split; [by eapply Log.rep_ext| |done| |done].
    + eapply log_ok_view; [done|]. rewrite <-Hv. apply Hok.
    + intros b Hb HD. rewrite <-Hv. by apply Hcl.
  - intros B D L v s b Htx HB Hb Hroom. pose proof Htx as [Hr Hok _ Hcl _]. pose proof (cap_nbuf _ _ Hok).
    eapply Log.wp_bread_l; [done|done|lia|destruct Hroom; [by left|right; lia]|].
    intros i s' Hc. eapply log_tx_cache; [done|done|done|apply Hok|done].
  - intros B D L v s b i [Hr _ _ _ _] HB. apply wp_bind.
    eapply Log.wp_getb_l; [done|done|]. intros x Hx _. apply wp_ret. done.
  - intros B D L v s b i f Htx HB Hres. pose proof Htx as [Hr Hok _ Hcl _].
    eapply Log.wp_bmodify_l; [done|done|]. intros s' Hc. eapply log_tx_cache; [done|done|done| |].
    + rewrite upd_ne; [apply Hok|]. intros <-. apply Hres. destruct Hok as [? ? (? & ? & _) _ _ _ _ _ _ _ _]. lia.
    + intros c Hc1 Hc2. rewrite upd_ne by set_solver. apply Hcl; set_solver.
  - intros B D L v s b i Htx HB Hres Hb Hsz. unfold log_cap in Hsz. destruct (decide (out = 0%Z)); [lia|]. pose proof Htx as [Hr Hok HL Hcl Hw].
    pose proof (log_ok_size _ _ _ Hok HL). pose proof Hok as [Hst Hsi Hreg Hfit Hn Hlen Hnd Hho He Hh Ho].
    eapply wp_mono; [apply (Log.wp_log_write B L v d s i b); done || lia|].
    intros [] s' (c & -> & Hr' & Hw').
    assert (Log.home disksize s b) as Hhome by (split; [done|by rewrite Hst, Hsi]).
    split; [done|apply log_ok_bio, log_ok_enter; done || lia| | |simpl; by rewrite Hw'].
    + change (Log.lh_blocks (Log.set_bio c (Log.enter b s))) with (Log.lh_blocks (Log.enter b s)).
      rewrite (Log.enter_blocks b s) by (done || lia). case_decide; set_solver.
    + intros x Hx HD. destruct (decide (x = b)) as [->|]; [set_solver|]. apply Hcl; set_solver.
  - intros B D L v s b i Htx HB HD. pose proof Htx as [Hr Hok HL Hcl Hw].
    eapply Log.wp_brelse_l; [done|done| |].
    + destruct (decide (b ∈ L)); [by left|right; by apply Hcl].
    + intros s' Hc. eapply log_tx_cache; [done|done|done|apply Hok|done].
Defined.
End log_blocks.

(** ** Brackets *)

Section brackets.
Context (disksize ls sz : Z).
Implicit Types (d v : Z → block) (W : list (Z * block)).

(** Between operations: nothing is logged, and the cache shows the disk. *)
Abbreviation quiet d W := (log_tx disksize ls sz d W 0 ∅ ∅ ∅).

Lemma quiet_disk d W v s b : quiet d W v s → v b = d b.
Proof. intros Hq. apply (lt_clean _ _ _ _ _ _ _ _ _ _ _ Hq); apply not_elem_of_empty. Qed.

Lemma logged_nil s : list_to_set (Log.lh_blocks s) = (∅ : gset Z) → Log.lh_blocks s = [].
Proof. intros H. destruct (Log.lh_blocks s); [done|set_solver]. Qed.

(** [begin_op] opens a transaction. *)
Lemma wp_begin d W v s : quiet d W v s → wp Log.begin_op s (λ _, log_tx disksize ls sz d W 1 ∅ ∅ ∅ v).
Proof.
  intros [Hr Hok HL Hcl Hw]. pose proof Hok as [Hst Hsi Hreg Hfit Hn Hlen Hnd Hho He Hh (Ho & _ & Hc)].
  pose proof (log_ok_size _ _ _ _ _ _ _ _ Hok HL) as Hn0. rewrite size_empty in Hn0.
  unfold wp. rewrite Log.begin_op_cases by apply Hr.
  rewrite Hc, Ho, <-Hn0, bool_decide_eq_false_2 by (unfold LOGSIZE, MAXOPBLOCKS; lia). simpl.
  split; done.
Qed.

(** [end_op] of the only operation: all of the transaction reaches the disk, or
    none, whenever the machine stops. *)
Lemma wp_end d W L v s :
  log_tx disksize ls sz d W 1 ∅ ∅ L v s →
  wp (Log.end_op disksize) s (λ _ s', ∃ v' W', quiet (apply_writes d W') (W ++ W') v' s' ∧ home_eq ls sz v' v ∧
    ∀ k, let e := recovered ls (apply_writes d (take k W')) in home_eq ls sz e d ∨ home_eq ls sz e v).
Proof.
  intros [Hrep [Hst Hsi Hreg Hfit Hn Hlen Hnd Hho He Hh (Ho & _ & Hc)] HL Hcl Hw].
  assert (Log.linv disksize v d s) as Hi.
  { split; try done; [by rewrite <-HL|by rewrite Hsi|lia|by rewrite Hst|by rewrite Hst]. }
  eapply wp_mono; [by apply (Log.wp_end_op disksize v d)|].
  intros [] s' (v' & d' & W' & Hi' & Hv' & -> & Hw' & Hcr & Ho' & Hc' & Hst' & Hsi' & Hlast & _).
  rewrite Hst, Hsi in *. exists v', W'. split; [|split; [done|]].
  - specialize (Hlast Ho). pose proof Hi' as [Hrep' Hreg' Hn' Hnb' Hlen' Hnd' Hho' He' Hh'].
    assert (Log.lh_blocks s' = []) as Hb by (unfold Log.lh_blocks; by rewrite Hlast). rewrite Hb in Hrep'.
    rewrite Hst' in He', Hh'. rewrite Hsi' in Hn'.
    split; [done|split; try done; split_and!; done || lia|by rewrite Hb| |by rewrite Hw', Hw].
    intros b _ _. apply (Log.linv_clean _ _ _ _ _ Hi'). rewrite Hb. apply not_elem_of_nil.
  - intros k. specialize (Hcr k). unfold Log.crash_safe in Hcr. by rewrite Hst, Hsi in Hcr.
Qed.

(** After [initlog]. *)
Lemma logrel_quiet u d w s :
  Log.logrel disksize u d (Log.TS 0 [] w) s → Log.start s = ls → Log.size s = sz →
  ∃ v, quiet d (Bio.writes (Log.bio s)) v s ∧ home_eq ls sz w v.
Proof.
  intros [(v & Hi & Hv) (Ho & _ & Hc) Hb Hsz _] Hst Hsi. rewrite Hst, Hsi in *. exists v. split; [|done]. simpl in Hb.
  pose proof Hi as [Hrep Hreg Hn0 Hnb Hlen Hnd Hhome Hempty Hhl]. rewrite Hb in Hrep. rewrite Hst in Hempty, Hhl.
  rewrite Hsi in Hn0. split; [done|split; try done; split_and!; done || lia|by rewrite Hb| |done].
  intros b _ _. apply (Log.linv_clean _ _ _ _ _ Hi). rewrite Hb. apply not_elem_of_nil.
Qed.
End brackets.
