(* ===== verification/Fs.v ===== *)
(** * The file system (fs.c)

    Block allocation, inodes, file contents, directories and path names, over
    the block interface of Blocks.v. The theorems are in FsThm.v. *)

From S2P Require Import Prelude CString Bio Log Blocks.

Local Open Scope Z_scope.

Definition NDIRECT : Z := 12.
Definition NINDIRECT : Z := Z.of_nat BSIZE / 4.
Definition MAXFILE : Z := NDIRECT + NINDIRECT.
Definition IPB : Z := Z.of_nat BSIZE / 64.
Definition BPB : Z := Z.of_nat BSIZE * 8.
Definition DIRSIZ : nat := 14.
Definition NDEV : Z := 10.
Definition NINODE : nat := 50.
Definition ROOTINO : Z := 1.
Definition T_DIR : Z := 1.
Definition T_FILE : Z := 2.
Definition T_DEV : Z := 3.

Definition IBLOCK (i : Z) (sb : superblock) : Z := i / IPB + sb_inodestart sb.
Definition BBLOCK (b : Z) (sb : superblock) : Z := b / BPB + sb_bmapstart sb.

(** [l] stored at offset [o]. *)
Definition put_bytes (b : block) (o : nat) (l : list Z) : block := take o b ++ l ++ drop (o + length l) b.

(** ** On-disk inodes *)

Record dinode := Dinode {
  d_type : Z; d_major : Z; d_minor : Z; d_nlink : Z; d_size : Z; d_addrs : list Z;
}.

Definition addr_at (b : block) (o i : nat) : Z := get32 b (o + 12 + 4 * i).

Definition parse_dinode (b : block) (o : nat) : dinode :=
  Dinode (i16 (get16 b o)) (i16 (get16 b (o + 2))) (i16 (get16 b (o + 4))) (i16 (get16 b (o + 6)))
         (get32 b (o + 8)) (addr_at b o <$> seq 0 13).

Fixpoint put_addrs (b : block) (o : nat) (l : list Z) : block :=
  match l with [] => b | a :: l => put_addrs (put32 b o a) (o + 4) l end.

Definition put_dinode (b : block) (o : nat) (d : dinode) : block :=
  put_addrs (put32 (put16 (put16 (put16 (put16 b o (d_type d)) (o + 2) (d_major d)) (o + 4) (d_minor d))
                          (o + 6) (d_nlink d)) (o + 8) (d_size d)) (o + 12) (d_addrs d).

(** Byte offset of inode [i] in its block: [(struct dinode* )bp->data + inum%IPB]. *)
Definition dinode_off (i : Z) : nat := Z.to_nat (64 * (i mod IPB)).

(** ** In-memory inodes *)

Record inode := Inode {
  idev : Z; inum : Z; iref : Z;
  ibusy : bool;           (* I_BUSY *)
  ivalid : bool;          (* I_VALID *)
  idata : dinode;         (* type, major, minor, nlink, size, addrs *)
}.

Definition set_ref (v : Z) (x : inode) : inode := Inode (idev x) (inum x) v (ibusy x) (ivalid x) (idata x).
Definition set_ibusy (v : bool) (x : inode) : inode := Inode (idev x) (inum x) (iref x) v (ivalid x) (idata x).
Definition set_ivalid (v : bool) (x : inode) : inode := Inode (idev x) (inum x) (iref x) (ibusy x) v (idata x).
Definition set_idata (v : dinode) (x : inode) : inode := Inode (idev x) (inum x) (iref x) (ibusy x) (ivalid x) v.

Definition set_dtype (v : Z) (d : dinode) : dinode := Dinode v (d_major d) (d_minor d) (d_nlink d) (d_size d) (d_addrs d).
Definition set_dnlink (v : Z) (d : dinode) : dinode := Dinode (d_type d) (d_major d) (d_minor d) v (d_size d) (d_addrs d).
Definition set_dsize (v : Z) (d : dinode) : dinode := Dinode (d_type d) (d_major d) (d_minor d) (d_nlink d) v (d_addrs d).
Definition set_daddr (i : nat) (v : Z) (d : dinode) : dinode :=
  Dinode (d_type d) (d_major d) (d_minor d) (d_nlink d) (d_size d) (<[i := v]> (d_addrs d)).

Record stat := Stat { st_dev : Z; st_ino : Z; st_type : Z; st_nlink : Z; st_size : Z }.

(** ** Directory entries *)

Definition de_inum (de : list Z) : Z := get16 de 0.
Definition de_name (de : list Z) : list Z := drop 2 de.

(** Two strings laid out one after the other for the code of string.c. *)
Definition two_strings (s t : list Z) : mem :=
  λ a, if decide (a < Z.of_nat DIRSIZ) then byte_at s (Z.to_nat a)
       else byte_at t (Z.to_nat (a - Z.of_nat DIRSIZ)).

Definition namecmp (s t : list Z) : Z := strncmp (two_strings s t) 0 (Z.of_nat DIRSIZ) DIRSIZ.

(** [strncpy(de.name, name, DIRSIZ); de.inum = inum;] *)
Definition make_dirent (old : list Z) (name : list Z) (inum : Z) : list Z :=
  let m := strncpy (two_strings (de_name old) name) 0 (Z.of_nat DIRSIZ) DIRSIZ in
  [u8 inum; u8 (inum / 2 ^ 8)] ++ ((λ i, m (Z.of_nat i)) <$> seq 0 DIRSIZ).

(** ** Path elements. A path is its bytes up to the terminating NUL. *)

Definition SLASH : Z := 47.

Fixpoint skip_slashes (path : list Z) : list Z :=
  match path with c :: p => if decide (c = SLASH) then skip_slashes p else path | [] => [] end.

(** [s] is the element read so far. *)
Fixpoint span_elem (path : list Z) : list Z * list Z :=
  match path with
  | [] => ([], [])
  | c :: p => if decide (c = SLASH) then ([], path) else let '(s, r) := span_elem p in (c :: s, r)
  end.

Definition skipelem (path name : list Z) : option (list Z * list Z) :=
  match skip_slashes path with
  | [] => None
  | p =>
    let '(s, r) := span_elem p in
    let name' := if decide (DIRSIZ ≤ length s)%nat then put_bytes name 0 (take DIRSIZ s)
                 else put_bytes name 0 (s ++ [0]) in
    Some (skip_slashes r, name')
  end.

Module Fs.
Section fs.
Context {S : Type} `{!BlockOps S}.

Record st := St {
  blk : S;
  sb : superblock;
  inodes : list inode;      (* icache.inode[NINODE] *)
  fwoken : list chan;       (* channels of the wakeups so far *)
}.

Definition set_blk (v : S) (s : st) : st := St v (sb s) (inodes s) (fwoken s).
Definition set_sb (v : superblock) (s : st) : st := St (blk s) v (inodes s) (fwoken s).
Definition set_inodes (v : list inode) (s : st) : st := St (blk s) (sb s) v (fwoken s).

#[export] Instance fs_locks : HasLocks st.
Proof.
  refine {| held s := held (blk s); set_held h s := set_blk (set_held h (blk s)) s |}.
  - intros h s. apply held_set.
  - intros [b ? ? ?]. unfold set_blk. simpl. by rewrite set_held_held.
  - intros h h' [b ? ? ?]. unfold set_blk. simpl. by rewrite set_held_set.
Defined.

Local Open Scope kern_scope.

Definition blkl : lens st S := Lens blk set_blk.
Definition fbread (dev b : Z) : kM st nat := kzoom blkl (bread dev b).
Definition fdata (i : nat) : kM st block := kzoom blkl (bdata i).
Definition fmodify (i : nat) (f : block → block) : kM st unit := kzoom blkl (bmodify i f).
Definition flog_write (i : nat) : kM st unit := kzoom blkl (log_write i).
Definition fbrelse (i : nat) : kM st unit := kzoom blkl (brelse i).
Definition wakeup (c : chan) : kM st unit := kmodify (λ s, St (blk s) (sb s) (inodes s) (c :: fwoken s)).

Definition geti (i : nat) : kM st inode := s ← kget; kunwrap (inodes s !! i).
Definition puti (i : nat) (x : inode) : kM st unit := kmodify (λ s, set_inodes (<[i := x]> (inodes s)) s).

(** [readsb(dev, &sb)] *)
Definition freadsb (dev : Z) : kM st unit :=
  bp ← fbread dev 1;
  d ← fdata bp;
  kmodify (set_sb (parse_sb d)) ;;
  fbrelse bp.

Definition bzero (dev bno : Z) : kM st unit :=
  bp ← fbread dev bno;
  fmodify bp (λ b, put_bytes b 0 (replicate BSIZE 0%Z)) ;;
  flog_write bp ;;
  fbrelse bp.

(** ** Blocks *)

Definition bit_mask (bi : Z) : Z := Z.shiftl 1 (bi mod 8).
Definition bit_clear (d : block) (bi : Z) : bool :=
  bool_decide (Z.land (byte_at d (Z.to_nat (bi / 8))) (bit_mask bi) = 0)%Z.
Definition set_bit (bi : Z) (d : block) : block :=
  <[Z.to_nat (bi / 8) := u8 (Z.lor (byte_at d (Z.to_nat (bi / 8))) (bit_mask bi))]> d.
Definition clear_bit (bi : Z) (d : block) : block :=
  <[Z.to_nat (bi / 8) := u8 (Z.land (byte_at d (Z.to_nat (bi / 8))) (Z.lnot (bit_mask bi)))]> d.

(** [for(bi = 0; bi < BPB && b + bi < sb.size; bi++)], for [n] rounds. *)
Fixpoint find_free (d : block) (bi : Z) (n : nat) : option Z :=
  match n with
  | O => None
  | Datatypes.S n => if bit_clear d bi then Some bi else find_free d (bi + 1) n
  end.

(** [for(b = 0; b < sb.size; b += BPB)], for [n] rounds. *)
Fixpoint balloc_from (dev b : Z) (n : nat) : kM st Z :=
  match n with
  | O => kpanic "balloc: out of blocks"
  | Datatypes.S n =>
    sb ← kgets sb;
    bp ← fbread dev (BBLOCK b sb);
    d ← fdata bp;
    match find_free d 0 (Z.to_nat (Z.min BPB (sb_size sb - b))) with
    | Some bi =>
      fmodify bp (set_bit bi) ;;   (* Mark block in use. *)
      flog_write bp ;;
      fbrelse bp ;;
      bzero dev (b + bi) ;;
      kret (b + bi)%Z
    | None => fbrelse bp ;; balloc_from dev (b + BPB) n
    end
  end.

Definition bitmap_blocks (sb : superblock) : nat := Z.to_nat ((sb_size sb + BPB - 1) / BPB).

Definition balloc (dev : Z) : kM st Z := sb ← kgets sb; balloc_from dev 0 (bitmap_blocks sb).

Definition bfree (dev b : Z) : kM st unit :=
  freadsb dev ;;
  sb ← kgets sb;
  bp ← fbread dev (BBLOCK b sb);
  d ← fdata bp;
  let bi := (b mod BPB)%Z in
  kassert (negb (bit_clear d bi)) "freeing free block" ;;
  fmodify bp (clear_bit bi) ;;
  flog_write bp ;;
  fbrelse bp.

(** ** Inodes *)

Definition iinit (dev : Z) : kM st unit := freadsb dev.

(** The scan of [iget]: the entry that caches the inode, else the first empty one. *)
Fixpoint iget_scan (l : list inode) (i : nat) (dev inu : Z) (empty : option nat) : nat + option nat :=
  match l with
  | [] => inr empty
  | x :: l =>
    if bool_decide (0 < iref x)%Z && bool_decide (idev x = dev) && bool_decide (inum x = inu) then inl i
    else iget_scan l (Datatypes.S i) dev inu
           (match empty with
            | None => if bool_decide (iref x = 0%Z) then Some i else None
            | Some e => Some e
            end)
  end.

Definition iget (dev inu : Z) : kM st nat :=
  acquire LIcache ;;
  l ← kgets inodes;
  match iget_scan l 0 dev inu None with
  | inl i =>
    x ← geti i;
    puti i (set_ref (i32 (iref x + 1)) x) ;;
    release LIcache ;;
    kret i
  | inr None => kpanic "iget: no inodes"
  | inr (Some i) =>
    x ← geti i;
    puti i (Inode dev inu 1 false false (idata x)) ;;
    release LIcache ;;
    kret i
  end.

Definition idup (i : nat) : kM st nat :=
  acquire LIcache ;;
  x ← geti i;
  puti i (set_ref (i32 (iref x + 1)) x) ;;
  release LIcache ;;
  kret i.

(** The rounds of [ialloc] from inode [inu] on. *)
Fixpoint ialloc_from (dev inu type : Z) (n : nat) : kM st nat :=
  match n with
  | O => kpanic "ialloc: no inodes"
  | Datatypes.S n =>
    sb ← kgets sb;
    bp ← fbread dev (IBLOCK inu sb);
    d ← fdata bp;
    if bool_decide (d_type (parse_dinode d (dinode_off inu)) = 0%Z) then
      fmodify bp (λ b, put16 (put_bytes b (dinode_off inu) (replicate 64 0%Z)) (dinode_off inu) type) ;;
      flog_write bp ;;   (* mark it allocated on the disk *)
      fbrelse bp ;;
      iget dev inu
    else
      fbrelse bp ;;
      ialloc_from dev (inu + 1) type n
  end.

Definition ialloc (dev type : Z) : kM st nat :=
  sb ← kgets sb; ialloc_from dev 1 type (Z.to_nat (sb_ninodes sb - 1)).

Definition iupdate (i : nat) : kM st unit :=
  x ← geti i;
  sb ← kgets sb;
  bp ← fbread (idev x) (IBLOCK (inum x) sb);
  fmodify bp (λ b, put_dinode b (dinode_off (inum x)) (idata x)) ;;
  flog_write bp ;;
  fbrelse bp.

(** [while(ip->flags & I_BUSY) sleep(...)]: a sleeper comes back here. *)
Definition ilock_loop (i : nat) : kM st unit :=
  x ← geti i;
  if ibusy x then sleep (CInode i) LIcache
  else
    puti i (set_ibusy true x) ;;
    release LIcache ;;
    x ← geti i;
    if ivalid x then kret tt
    else
      sb ← kgets sb;
      bp ← fbread (idev x) (IBLOCK (inum x) sb);
      d ← fdata bp;
      puti i (set_idata (parse_dinode d (dinode_off (inum x))) x) ;;
      fbrelse bp ;;
      x ← geti i;
      puti i (set_ivalid true x) ;;
      kassert (negb (bool_decide (d_type (idata x) = 0%Z))) "ilock: no type".

Definition ilock (i : nat) : kM st unit :=
  x ← geti i;
  kassert (negb (bool_decide (iref x < 1)%Z)) "ilock" ;;
  acquire LIcache ;;
  ilock_loop i.

Definition iunlock (i : nat) : kM st unit :=
  x ← geti i;
  kassert (ibusy x && negb (bool_decide (iref x < 1)%Z)) "iunlock" ;;
  acquire LIcache ;;
  x ← geti i;
  puti i (set_ibusy false x) ;;
  wakeup (CInode i) ;;
  release LIcache.

(** ** Inode content *)

(** [a[bn]] of an indirect block. *)
Definition ind_get (b : block) (bn : Z) : Z := get32 b (Z.to_nat (4 * bn)).
Definition ind_put (b : block) (bn a : Z) : block := put32 b (Z.to_nat (4 * bn)) a.

Definition set_addr (i : nat) (k : nat) (a : Z) : kM st unit :=
  x ← geti i; puti i (set_idata (set_daddr k a (idata x)) x).

(** [if((addr = ip->addrs[k]) == 0) ip->addrs[k] = addr = balloc(ip->dev);] *)
Definition addr_or_alloc (i k : nat) : kM st Z :=
  x ← geti i;
  addr ← kunwrap (d_addrs (idata x) !! k);
  if bool_decide (addr = 0)%Z then
    a ← balloc (idev x);
    set_addr i k a ;;
    kret a
  else kret addr.

Definition bmap (i : nat) (bn : Z) : kM st Z :=
  if bool_decide (bn < NDIRECT)%Z then addr_or_alloc i (Z.to_nat bn)
  else
    let bn := u32 (bn - NDIRECT) in
    if bool_decide (bn < NINDIRECT)%Z then
      addr ← addr_or_alloc i (Z.to_nat NDIRECT);
      x ← geti i;
      bp ← fbread (idev x) addr;
      d ← fdata bp;
      let a := ind_get d bn in
      (if bool_decide (a = 0)%Z then
         a ← balloc (idev x);
         fmodify bp (λ b, ind_put b bn a) ;;
         flog_write bp ;;
         fbrelse bp ;;
         kret a
       else fbrelse bp ;; kret a)
    else kpanic "bmap: out of range".

Definition free_addr (i k : nat) : kM st unit :=
  x ← geti i;
  addr ← kunwrap (d_addrs (idata x) !! k);
  kwhen (negb (bool_decide (addr = 0)%Z))
    (bfree (idev x) addr ;; set_addr i k 0).

Definition itrunc (i : nat) : kM st unit :=
  kfor (seq 0 (Z.to_nat NDIRECT)) (free_addr i) ;;
  x ← geti i;
  addr ← kunwrap (d_addrs (idata x) !! Z.to_nat NDIRECT);
  kwhen (negb (bool_decide (addr = 0)%Z))
    (bp ← fbread (idev x) addr;
     d ← fdata bp;
     kfor (seq 0 (Z.to_nat NINDIRECT)) (λ j,
       kwhen (negb (bool_decide (ind_get d (Z.of_nat j) = 0)%Z)) (bfree (idev x) (ind_get d (Z.of_nat j)))) ;;
     fbrelse bp ;;
     bfree (idev x) addr ;;
     set_addr i (Z.to_nat NDIRECT) 0) ;;
  x ← geti i;
  puti i (set_idata (set_dsize 0 (idata x)) x) ;;
  iupdate i.

Definition iput (i : nat) : kM st unit :=
  acquire LIcache ;;
  x ← geti i;
  kwhen (bool_decide (iref x = 1)%Z && ivalid x && bool_decide (d_nlink (idata x) = 0)%Z)
    ((* inode has no links and no other references: truncate and free. *)
     kassert (negb (ibusy x)) "iput busy" ;;
     puti i (set_ibusy true x) ;;
     release LIcache ;;
     itrunc i ;;
     x ← geti i;
     puti i (set_idata (set_dtype 0 (idata x)) x) ;;
     iupdate i ;;
     acquire LIcache ;;
     x ← geti i;
     puti i (set_ibusy false (set_ivalid false x)) ;;
     wakeup (CInode i)) ;;
  x ← geti i;
  puti i (set_ref (i32 (iref x - 1)) x) ;;
  release LIcache.

Definition iunlockput (i : nat) : kM st unit := iunlock i ;; iput i.

Definition stati (i : nat) : kM st stat :=
  x ← geti i;
  kret (Stat (idev x) (inum x) (d_type (idata x)) (d_nlink (idata x)) (d_size (idata x))).

(** The device switch: [devsw[major].read] and [.write] are code of the
    device drivers, which main() enters in the table. *)
Context (dev_read : Z → option (nat → Z → kM st (Z * list Z))).
Context (dev_write : Z → option (nat → list Z → Z → kM st Z)).

Definition dev_entry {A} (sw : Z → option A) (major : Z) : option A :=
  if bool_decide (major < 0)%Z || bool_decide (NDEV ≤ major)%Z then None else sw major.

(** The loop of [readi]: [n] bytes from [off] on; the bytes copied to [dst]. *)
Fixpoint readi_loop (fuel : nat) (i : nat) (off n : Z) : kM st (list Z) :=
  match fuel with
  | O => kfault
  | Datatypes.S fuel =>
    if bool_decide (0 < n)%Z then
      x ← geti i;
      a ← bmap i (off / Z.of_nat BSIZE);
      bp ← fbread (idev x) a;
      d ← fdata bp;
      let o := (off mod Z.of_nat BSIZE)%Z in
      let m := Z.min n (Z.of_nat BSIZE - o) in
      fbrelse bp ;;
      l ← readi_loop fuel i (off + m) (n - m);
      kret (take (Z.to_nat m) (drop (Z.to_nat o) d) ++ l)
    else kret []
  end.

(** The value returned and the bytes stored at [dst]. *)
Definition readi (i : nat) (off n : Z) : kM st (Z * list Z) :=
  x ← geti i;
  if bool_decide (d_type (idata x) = T_DEV) then
    match dev_entry dev_read (d_major (idata x)) with
    | None => kret ((-1)%Z, [])
    | Some f => f i n
    end
  else if bool_decide (d_size (idata x) < off)%Z || bool_decide (u32 (off + n) < off)%Z then kret ((-1)%Z, [])
  else
    let n := if bool_decide (d_size (idata x) < u32 (off + n))%Z then u32 (d_size (idata x) - off) else n in
    l ← readi_loop (Datatypes.S (Z.to_nat n)) i off n;
    kret (n, l).

Fixpoint writei_loop (fuel : nat) (i : nat) (src : list Z) (off n : Z) : kM st Z :=
  match fuel with
  | O => kfault
  | Datatypes.S fuel =>
    if bool_decide (0 < n)%Z then
      x ← geti i;
      a ← bmap i (off / Z.of_nat BSIZE);
      bp ← fbread (idev x) a;
      let o := (off mod Z.of_nat BSIZE)%Z in
      let m := Z.min n (Z.of_nat BSIZE - o) in
      fmodify bp (λ b, put_bytes b (Z.to_nat o) (take (Z.to_nat m) src)) ;;
      flog_write bp ;;
      fbrelse bp ;;
      writei_loop fuel i (drop (Z.to_nat m) src) (off + m) (n - m)
    else kret off
  end.

Definition writei (i : nat) (src : list Z) (off n : Z) : kM st Z :=
  x ← geti i;
  if bool_decide (d_type (idata x) = T_DEV) then
    match dev_entry dev_write (d_major (idata x)) with
    | None => kret (-1)%Z
    | Some f => f i src n
    end
  else if bool_decide (d_size (idata x) < off)%Z || bool_decide (u32 (off + n) < off)%Z then kret (-1)%Z
  else if bool_decide (MAXFILE * Z.of_nat BSIZE < u32 (off + n))%Z then kret (-1)%Z
  else
    off ← writei_loop (Datatypes.S (Z.to_nat n)) i src off n;
    x ← geti i;
    kwhen (bool_decide (0 < n)%Z && bool_decide (d_size (idata x) < off)%Z)
      (puti i (set_idata (set_dsize off (idata x)) x) ;; iupdate i) ;;
    kret n.

(** ** Directories *)

(** [off = 0, 16, ...] below [size]. *)
Definition dir_offs (size : Z) : list Z := (λ k, 16 * Z.of_nat k)%Z <$> seq 0 (Z.to_nat ((size + 15) / 16)).

Definition read_de (i : nat) (off : Z) : kM st (list Z) :=
  r ← readi i off 16;
  kassert (bool_decide (r.1 = 16)%Z) "dirlink read" ;;
  kret r.2.

Fixpoint dirlookup_loop (i : nat) (name : list Z) (offs : list Z) : kM st (option (nat * Z)) :=
  match offs with
  | [] => kret None
  | off :: offs =>
    de ← read_de i off;
    if bool_decide (de_inum de = 0%Z) then dirlookup_loop i name offs
    else if bool_decide (namecmp name (de_name de) = 0%Z) then
      x ← geti i;
      ip ← iget (idev x) (de_inum de);
      kret (Some (ip, off))
    else dirlookup_loop i name offs
  end.

(** The inode found, and the offset stored at [poff]. *)
Definition dirlookup (i : nat) (name : list Z) : kM st (option (nat * Z)) :=
  x ← geti i;
  kassert (bool_decide (d_type (idata x) = T_DIR)) "dirlookup not DIR" ;;
  dirlookup_loop i name (dir_offs (d_size (idata x))).

(** The entry left in [de] by the search, and the offset it stopped at. *)
Fixpoint empty_slot (i : nat) (de : list Z) (off : Z) (offs : list Z) : kM st (list Z * Z) :=
  match offs with
  | [] => kret (de, off)
  | o :: offs =>
    de ← read_de i o;
    if bool_decide (de_inum de = 0%Z) then kret (de, o) else empty_slot i de (o + 16) offs
  end.

(** [junk]: the uninitialised [struct dirent de] on the stack. *)
Definition dirlink (junk : list Z) (i : nat) (name : list Z) (inu : Z) : kM st Z :=
  r ← dirlookup i name;
  match r with
  | Some (ip, _) => iput ip ;; kret (-1)%Z
  | None =>
    x ← geti i;
    '(de, off) ← empty_slot i junk 0 (dir_offs (d_size (idata x)));
    w ← writei i (make_dirent de name inu) off 16;
    kassert (bool_decide (w = 16)%Z) "dirlink" ;;
    kret 0%Z
  end.

(** ** Paths *)

(** The loop of [namex], from inode [ip]; [name] is the caller's buffer. *)
Fixpoint namex_loop (fuel : nat) (parent : bool) (ip : nat) (path name : list Z) : kM st (option nat * list Z) :=
  match fuel with
  | O => kfault
  | Datatypes.S fuel =>
    match skipelem path name with
    | None => if parent then iput ip ;; kret (None, name) else kret (Some ip, name)
    | Some (path, name) =>
      ilock ip ;;
      x ← geti ip;
      if negb (bool_decide (d_type (idata x) = T_DIR)) then iunlockput ip ;; kret (None, name)
      else if parent && bool_decide (path = []) then
        (* Stop one level early. *)
        iunlock ip ;; kret (Some ip, name)
      else
        r ← dirlookup ip name;
        match r with
        | None => iunlockput ip ;; kret (None, name)
        | Some (next, _) => iunlockput ip ;; namex_loop fuel parent next path name
        end
    end
  end.

Definition namex (cwd : nat) (path : list Z) (parent : bool) (name : list Z) : kM st (option nat * list Z) :=
  ip ← (if decide (head path = Some SLASH) then iget ROOTDEV ROOTINO else idup cwd);
  namex_loop (Datatypes.S (length path)) parent ip path name.

Definition namei (cwd : nat) (path name : list Z) : kM st (option nat) :=
  r ← namex cwd path false name; kret r.1.

Definition nameiparent (cwd : nat) (path name : list Z) : kM st (option nat * list Z) :=
  namex cwd path true name.
End fs.
End Fs.
