(* ===== verification/FsThm.v ===== *)
(** * Theorems on the file system

    The block allocator, inodes, file contents and directories of Fs.v, proved
    against the block interface of Blocks.v. *)

From S2P Require Import Prelude CString Bio Log Blocks Fs.
Import Fs.

Local Open Scope Z_scope.

(** ** Bytes, bits and on-disk inodes *)

Lemma length_put_bytes b o l : (o + length l ≤ length b)%nat → length (put_bytes b o l) = length b.
Proof. intros H. unfold put_bytes. rewrite !length_app, length_take, length_drop. lia. Qed.

Lemma put_bytes_lookup b o l i :
  (o + length l ≤ length b)%nat →
  put_bytes b o l !! i = if decide (o ≤ i < o + length l)%nat then l !! (i - o)%nat else b !! i.
Proof.
  intros H. unfold put_bytes. case_decide as Hi.
  - rewrite lookup_app_r by (rewrite length_take; lia). rewrite length_take, Nat.min_l by lia.
    apply lookup_app_l. lia.
  - destruct (decide (i < o)%nat).
    + rewrite lookup_app_l by (rewrite length_take; lia). by apply lookup_take_lt.
    + rewrite lookup_app_r by (rewrite length_take; lia). rewrite length_take, Nat.min_l by lia.
      rewrite lookup_app_r by lia. rewrite lookup_drop. f_equal. lia.
Qed.

Lemma bit_clear_testbit d bi : 0 ≤ bi → bit_clear d bi = negb (Z.testbit (byte_at d (Z.to_nat (bi / 8))) (bi mod 8)).
Proof.
  intros Hb. unfold bit_clear, bit_mask. rewrite Z.shiftl_1_l.
  pose proof (Z.mod_pos_bound bi 8 ltac:(lia)) as Hm.
  destruct (Z.testbit _ _) eqn:Ht; simpl.
  - apply bool_decide_eq_false. intros Hz. assert (Z.testbit 0 (bi mod 8) = true) as H0; [|by rewrite Z.bits_0 in H0].
    rewrite <-Hz, Z.land_spec, Ht. simpl. rewrite Z.pow2_bits_true by lia. done.
  - apply bool_decide_eq_true. apply Z.bits_inj_0. intros k. rewrite Z.land_spec.
    destruct (decide (k = bi mod 8)) as [->|Hk]; [by rewrite Ht|].
    rewrite Z.pow2_bits_false by congruence. apply andb_false_r.
Qed.

(** Setting and clearing touch one bit. *)
Lemma bit_change d bi bj (g : Z → Z → Z) (c : bool) :
  length d = BSIZE → 0 ≤ bi < BPB → 0 ≤ bj < BPB →
  (∀ z k, 0 ≤ k < 8 → Z.testbit (g z (bit_mask bi)) k = if decide (k = bi mod 8) then c else Z.testbit z k) →
  bit_clear (<[Z.to_nat (bi / 8) := u8 (g (byte_at d (Z.to_nat (bi / 8))) (bit_mask bi))]> d) bj =
  if decide (bj = bi) then negb c else bit_clear d bj.
Proof.
  intros Hd Hi Hj Hg. assert (Z.of_nat BSIZE = 512) as Hbs by done. unfold BPB in *.
  pose proof (Z.mod_pos_bound bj 8 ltac:(lia)). pose proof (Z.div_mod bi 8 ltac:(lia)). pose proof (Z.div_mod bj 8 ltac:(lia)).
  assert (0 ≤ bi / 8 < 512) by (split; [apply Z.div_pos; lia|apply Z.div_lt_upper_bound; lia]).
  assert (0 ≤ bj / 8 < 512) by (split; [apply Z.div_pos; lia|apply Z.div_lt_upper_bound; lia]).
  rewrite !bit_clear_testbit by lia. rewrite byte_at_insert by (rewrite Hd; unfold BSIZE; lia). case_decide as Hq.
  - assert (bj / 8 = bi / 8) as Hq' by lia. rewrite testbit_u8, Hg by lia. case_decide as Hm.
    + rewrite decide_True by lia. done.
    + rewrite decide_False by (intros ->; lia). by rewrite Hq'.
  - rewrite decide_False; [done|]. intros ->. by apply Hq.
Qed.

Lemma mask_bit bi k : 0 ≤ k → Z.testbit (bit_mask bi) k = bool_decide (k = bi mod 8).
Proof.
  intros Hk. unfold bit_mask. rewrite Z.shiftl_1_l. pose proof (Z.mod_pos_bound bi 8 ltac:(lia)).
  case_bool_decide; [subst; apply Z.pow2_bits_true; lia|apply Z.pow2_bits_false; lia].
Qed.

Lemma bit_clear_set d bi bj :
  length d = BSIZE → 0 ≤ bi < BPB → 0 ≤ bj < BPB →
  bit_clear (set_bit bi d) bj = if decide (bj = bi) then false else bit_clear d bj.
Proof.
  intros. unfold set_bit. rewrite (bit_change d bi bj Z.lor true); [done..|].
  intros z k Hk. rewrite Z.lor_spec, mask_bit by lia. case_decide; case_bool_decide; try done.
  - apply orb_true_r.
  - apply orb_false_r.
Qed.

Lemma bit_clear_clear d bi bj :
  length d = BSIZE → 0 ≤ bi < BPB → 0 ≤ bj < BPB →
  bit_clear (clear_bit bi d) bj = if decide (bj = bi) then true else bit_clear d bj.
Proof.
  intros. unfold clear_bit. rewrite (bit_change d bi bj (λ z m, Z.land z (Z.lnot m)) false); [done..|].
  intros z k Hk. rewrite Z.land_spec, Z.lnot_spec, mask_bit by lia. case_decide; case_bool_decide; try done.
  - apply andb_false_r.
  - apply andb_true_r.
Qed.

Lemma length_set_bit bi d : length (set_bit bi d) = length d.
Proof. apply length_insert. Qed.
Lemma length_clear_bit bi d : length (clear_bit bi d) = length d.
Proof. apply length_insert. Qed.

(** The search for a clear bit. *)
Lemma find_free_spec d n : ∀ bi,
  match find_free d bi n with
  | Some b => bi ≤ b < bi + Z.of_nat n ∧ bit_clear d b = true ∧ ∀ c, bi ≤ c < b → bit_clear d c = false
  | None => ∀ c, bi ≤ c < bi + Z.of_nat n → bit_clear d c = false
  end.
Proof.
  induction n as [|n IH]; intros bi; cbn [find_free]; [lia|].
  destruct (bit_clear d bi) eqn:Hb; [split; [lia|split; [done|lia]]|]. specialize (IH (bi + 1)).
  destruct (find_free d (bi + 1) n) as [b|].
  - destruct IH as (Hr & Hc & Hlow). split; [lia|]. split; [done|]. intros c Hc'.
    destruct (decide (c = bi)) as [->|]; [done|apply Hlow; lia].
  - intros c Hc. destruct (decide (c = bi)) as [->|]; [done|apply IH; lia].
Qed.

(** *** The on-disk inode: encode and decode *)

Lemma length_put_addrs l : ∀ b o, length (put_addrs b o l) = length b.
Proof. induction l as [|a l IH]; intros b o; simpl; [done|]. by rewrite IH, length_put32. Qed.

Lemma length_put_dinode b o d : length (put_dinode b o d) = length b.
Proof. unfold put_dinode. by rewrite length_put_addrs, length_put32, !length_put16. Qed.

Lemma put_addrs_ne l : ∀ b o i,
  (o + 4 * length l ≤ length b)%nat → (i < o)%nat ∨ (o + 4 * length l ≤ i)%nat →
  byte_at (put_addrs b o l) i = byte_at b i.
Proof.
  induction l as [|a l IH]; intros b o i Hl Hi; [done|]. cbn [put_addrs length] in *.
  rewrite IH by (rewrite ?length_put32; lia). rewrite byte_at_put32 by lia.
  by rewrite !decide_False by lia.
Qed.

Lemma get32_ext b c i j : (∀ k, (k < 4)%nat → byte_at b (i + k) = byte_at c (j + k)) → get32 b i = get32 c j.
Proof.
  intros H. unfold get32. pose proof (H 0%nat ltac:(lia)) as H0. rewrite !Nat.add_0_r in H0.
  by rewrite H0, (H 1%nat), (H 2%nat), (H 3%nat) by lia.
Qed.

Lemma get16_ext b c i : (∀ k, (k < 2)%nat → byte_at b (i + k) = byte_at c (i + k)) → get16 b i = get16 c i.
Proof.
  intros H. unfold get16. pose proof (H 0%nat ltac:(lia)) as H0. rewrite !Nat.add_0_r in H0.
  by rewrite H0, (H 1%nat) by lia.
Qed.

Lemma put_addrs_get l : ∀ b o k a,
  (o + 4 * length l ≤ length b)%nat → l !! k = Some a → get32 (put_addrs b o l) (o + 4 * k) = u32 a.
Proof.
  induction l as [|x l IH]; intros b o k a Hl Hk; [done|]. cbn [put_addrs length] in *.
  destruct k as [|k]; simpl in Hk.
  - simplify_eq. replace (o + 4 * 0)%nat with o by lia. rewrite <-(get_put32 b o a) by lia.
    apply get32_ext. intros k Hk. apply put_addrs_ne; [rewrite length_put32; lia|lia].
  - replace (o + 4 * S k)%nat with (o + 4 + 4 * k)%nat by lia. apply IH; [rewrite length_put32; lia|done].
Qed.

(** The ranges of the fields. *)
Definition short (z : Z) : Prop := - 2 ^ 15 ≤ z < 2 ^ 15.
Definition uint (z : Z) : Prop := 0 ≤ z < 2 ^ 32.

Record dinode_ok (d : dinode) : Prop := {
  do_type : short (d_type d);
  do_major : short (d_major d);
  do_minor : short (d_minor d);
  do_nlink : short (d_nlink d);
  do_size : uint (d_size d);
  do_addrs : length (d_addrs d) = 13%nat;
  do_addr a : a ∈ d_addrs d → uint a;
}.

Lemma i16_id z : short z → i16 (u16 z) = z.
Proof.
  unfold short, i16, u16. intros H. rewrite Zplus_mod_idemp_l. rewrite Z.mod_small by lia. lia.
Qed.

Lemma u32_id z : uint z → u32 z = z.
Proof. intros H. unfold u32. by apply Z.mod_small. Qed.

(** Reads one word of nested writes. *)
Ltac word :=
  rewrite ?get_put16_ne by (rewrite ?length_put16; lia); rewrite get_put16 by (rewrite ?length_put16; lia).

Lemma parse_put_dinode b o d :
  (o + 64 ≤ length b)%nat → dinode_ok d → parse_dinode (put_dinode b o d) o = d.
Proof.
  intros Ho [Ht Hma Hmi Hn Hs Hl Ha]. unfold parse_dinode, put_dinode.
  set (c := put32 _ (o + 8) _).
  assert (length c = length b) as Hc by (unfold c; by rewrite length_put32, !length_put16).
  assert (∀ i, (o ≤ i)%nat → (i + 2 ≤ o + 8)%nat → get16 (put_addrs c (o + 12) (d_addrs d)) i = get16 c i) as H16.
  { intros i Hi Hi'. apply get16_ext. intros k Hk. apply put_addrs_ne; lia. }
  assert (∀ i, (i + 2 ≤ o + 8)%nat → get16 c i =
    get16 (put16 (put16 (put16 (put16 b o (d_type d)) (o + 2) (d_major d)) (o + 4) (d_minor d)) (o + 6) (d_nlink d)) i) as Hc16.
  { intros i Hi. apply get16_ext. intros k Hk. unfold c. rewrite byte_at_put32 by (rewrite !length_put16; lia).
    by rewrite !decide_False by lia. }
  assert (get16 c o = u16 (d_type d)) as Hf1 by (rewrite Hc16 by lia; word; done).
  assert (get16 c (o + 2) = u16 (d_major d)) as Hf2 by (rewrite Hc16 by lia; word; done).
  assert (get16 c (o + 4) = u16 (d_minor d)) as Hf3 by (rewrite Hc16 by lia; word; done).
  assert (get16 c (o + 6) = u16 (d_nlink d)) as Hf4 by (rewrite Hc16 by lia; word; done).
  rewrite !H16, Hf1, Hf2, Hf3, Hf4 by lia. rewrite !i16_id by done.
  rewrite (get32_ext (put_addrs c (o + 12) (d_addrs d)) c (o + 8) (o + 8)) by (intros k Hk; apply put_addrs_ne; lia).
  unfold c. rewrite get_put32 by (rewrite !length_put16; lia). rewrite u32_id by done. fold c.
  destruct d as [t ma mi n sz l]; cbn [d_type d_major d_minor d_nlink d_size d_addrs] in *. f_equal. apply list_eq. intros k. rewrite list_lookup_fmap.
  destruct (decide (k < 13)%nat) as [Hk|Hk].
  - rewrite lookup_seq_lt by done. simpl. unfold addr_at.
    destruct (lookup_lt_is_Some_2 l k ltac:(lia)) as [a Hka]. rewrite Hka. f_equal.
    rewrite (put_addrs_get l c (o + 12) k a) by (done || lia). apply u32_id, Ha. by eapply list_elem_of_lookup_2.
  - rewrite lookup_seq_ge by lia. symmetry. apply lookup_ge_None. simpl. lia.
Qed.

(** Decoding depends only on the 64 bytes of the inode. *)
Lemma parse_dinode_ext b c o :
  (∀ k, (k < 64)%nat → byte_at b (o + k) = byte_at c (o + k)) → parse_dinode b o = parse_dinode c o.
Proof.
  intros H. unfold parse_dinode. 
  assert (∀ i, (i + 2 ≤ 64)%nat → get16 b (o + i) = get16 c (o + i)) as H16.
  { intros i Hi. apply get16_ext. intros k Hk. rewrite <-!Nat.add_assoc. apply H. lia. }
  assert (∀ i, (i + 4 ≤ 64)%nat → get32 b (o + i) = get32 c (o + i)) as H32.
  { intros i Hi. apply get32_ext. intros k Hk. rewrite <-!Nat.add_assoc. apply H. lia. }
  pose proof (H16 0%nat ltac:(lia)) as H0. rewrite !Nat.add_0_r in H0. rewrite H0, !H16, H32 by lia.
  f_equal. apply list_fmap_ext. intros i x Hx%lookup_seq. unfold addr_at. rewrite <-!Nat.add_assoc. apply H32. lia.
Qed.

Lemma put_dinode_ne b o d i :
  (o + 64 ≤ length b)%nat → length (d_addrs d) = 13%nat → (i < o)%nat ∨ (o + 64 ≤ i)%nat →
  byte_at (put_dinode b o d) i = byte_at b i.
Proof.
  intros Ho Hl Hi. unfold put_dinode. rewrite put_addrs_ne by (rewrite ?length_put32, ?length_put16; lia).
  rewrite byte_at_put32 by (rewrite !length_put16; lia).
  rewrite !byte_at_put16 by (rewrite ?length_put16; lia). by rewrite !decide_False by lia.
Qed.

(** Inodes of one block do not overlap. *)
Lemma dinode_off_ne i j :
  0 ≤ i → 0 ≤ j → i ≠ j → i / IPB = j / IPB → (dinode_off i + 64 ≤ dinode_off j)%nat ∨ (dinode_off j + 64 ≤ dinode_off i)%nat.
Proof.
  intros Hi Hj Hne Hd. unfold dinode_off. change IPB with 8 in *.
  pose proof (Z.div_mod i 8 ltac:(lia)). pose proof (Z.div_mod j 8 ltac:(lia)).
  pose proof (Z.mod_pos_bound i 8 ltac:(lia)). pose proof (Z.mod_pos_bound j 8 ltac:(lia)). lia.
Qed.

Lemma dinode_off_fits i : (dinode_off i + 64 ≤ BSIZE)%nat.
Proof. unfold dinode_off. change IPB with 8. pose proof (Z.mod_pos_bound i 8 ltac:(lia)). unfold BSIZE. lia. Qed.

Lemma size_add (b : Z) (L : gset Z) : (size ({[b]} ∪ L) ≤ 1 + size L)%nat.
Proof.
  rewrite size_union_alt, size_singleton. pose proof (subseteq_size (L ∖ {[b]}) L ltac:(set_solver)). lia.
Qed.

Section fsthm.
Context {S : Type} `{!BlockOps S, !BlockLayer S}.
(** The super block, and the first data block. *)
Context (fsb : superblock) (dstart : Z).

Local Open Scope kern_scope.
Implicit Types (B : gmap Z nat) (L : gset Z) (v : Z → block) (s : st (S:=S)).

(** ** Steps on the blocks *)

(** Nothing changed is left unlogged. *)
Abbreviation txf B L v s := (tx B ∅ L v (blk s)).

Lemma wp_fbread B L v s b (Q : nat → st → Prop) :
  txf B L v s → B !! b = None → 0 ≤ b < nblk → (b ∈ L ∨ (size (L ∪ dom B) ≤ cap)%nat) →
  (∀ i t, tx (<[b := i]> B) ∅ L v t → Q i (set_blk t s)) → wp (fbread ROOTDEV b) s Q.
Proof.
  intros Ht HB Hb Hroom HQ. apply wp_zoom. eapply wp_mono; [by apply (bread_ok B ∅ L v)|]. intros i t. apply HQ.
Qed.

Lemma wp_fdata B L v s b i (Q : block → st → Prop) :
  txf B L v s → B !! b = Some i → Q (v b) s → wp (fdata i) s Q.
Proof.
  intros Ht HB HQ. apply wp_zoom. eapply wp_mono; [by eapply bdata_ok|]. intros d t [-> ->].
  by destruct s.
Qed.

Lemma wp_fbrelse B L v s b i (Q : unit → st → Prop) :
  txf B L v s → B !! b = Some i → (∀ t, tx (delete b B) ∅ L v t → Q tt (set_blk t s)) → wp (fbrelse i) s Q.
Proof.
  intros Ht HB HQ. apply wp_zoom. eapply wp_mono; [by apply (brelse_ok B ∅ L v _ b)|]. intros [] t. apply HQ.
Qed.

(** Modify and log a locked block. *)
Lemma wp_fmodlog {A} B L v s b i f (m : kM st A) (Q : A → st → Prop) :
  txf B L v s → B !! b = Some i → ¬ reserved b → 0 ≤ b < nblk → (size L < cap)%nat →
  (∀ t, tx B ∅ ({[b]} ∪ L) (upd v b (f (v b))) t → wp m (set_blk t s) Q) →
  wp (fmodify i f ;; flog_write i ;; m) s Q.
Proof.
  intros Ht HB Hres Hb Hsz HQ. apply wp_bind, wp_zoom. eapply wp_mono; [by apply (bmodify_ok B ∅ L v _ b)|].
  intros [] t1 Ht1. apply wp_bind, wp_zoom. simpl.
  eapply wp_mono; [by eapply (log_write_ok B _ L _ _ b)|]. intros [] t2 Ht2. apply HQ.
  by replace (({[b]} ∪ ∅) ∖ {[b]}) with (∅ : gset Z) in Ht2 by set_solver.
Qed.

(** ** Where things are on the disk *)

Record layout : Prop := {
  la_size : 1 < dstart ≤ sb_size fsb ∧ sb_size fsb ≤ nblk ∧ nblk ≤ 2 ^ 31;
  la_bmap x : 0 ≤ x < sb_size fsb → 1 < BBLOCK x fsb < dstart ∧ ¬ reserved (BBLOCK x fsb);
  la_inode i : 0 ≤ i < sb_ninodes fsb → 1 < IBLOCK i fsb < dstart ∧ ¬ reserved (IBLOCK i fsb);
  la_apart i x : 0 ≤ i < sb_ninodes fsb → 0 ≤ x < sb_size fsb → IBLOCK i fsb ≠ BBLOCK x fsb;
  la_data x : dstart ≤ x < sb_size fsb → ¬ reserved x;
  la_sb : ¬ reserved 1;
}.

Definition data_block (b : Z) : Prop := dstart ≤ b < sb_size fsb.

(** The bit of block [b] in the free map. *)
Definition used (v : Z → block) (b : Z) : bool := negb (bit_clear (v (BBLOCK b fsb)) (b mod BPB)).

Record fs_ok (v : Z → block) : Prop := {
  fo_sb : parse_sb (v 1) = fsb;
  fo_len b : ¬ reserved b → length (v b) = BSIZE;
  fo_meta b : 0 ≤ b < dstart → used v b = true;
}.

Definition zeros : block := replicate BSIZE 0.
Definition mark (v : Z → block) (b : Z) : Z → block :=
  upd v (BBLOCK b fsb) (set_bit (b mod BPB) (v (BBLOCK b fsb))).
Definition unmark (v : Z → block) (b : Z) : Z → block :=
  upd v (BBLOCK b fsb) (clear_bit (b mod BPB) (v (BBLOCK b fsb))).
(** Block [b] freshly allocated. *)
Definition fresh (v : Z → block) (b : Z) : Z → block := upd (mark v b) b zeros.

Context (Hlay : layout).

Lemma BPB_pos : 0 < BPB.
Proof. done. Qed.

Lemma BBLOCK_inj b c : BBLOCK b fsb = BBLOCK c fsb → b mod BPB = c mod BPB → b = c.
Proof.
  unfold BBLOCK. intros H Hm. rewrite (Z.div_mod b BPB), (Z.div_mod c BPB) by done. rewrite Hm. f_equal. f_equal. lia.
Qed.

Lemma data_meta b : data_block b → ∀ c, 0 ≤ c < sb_size fsb → b ≠ BBLOCK c fsb.
Proof. intros Hb c Hc. destruct (la_bmap Hlay c Hc). unfold data_block in Hb. lia. Qed.

Lemma data_range b : data_block b → 0 ≤ b < nblk ∧ ¬ reserved b ∧ 0 ≤ b < sb_size fsb.
Proof.
  intros Hb. pose proof (la_size Hlay). unfold data_block in Hb. split; [lia|]. split; [by apply (la_data Hlay)|lia].
Qed.

Lemma bmap_range c : 0 ≤ c < sb_size fsb → 0 ≤ BBLOCK c fsb < nblk ∧ ¬ reserved (BBLOCK c fsb) ∧ BBLOCK c fsb ≠ 1.
Proof. intros Hc. pose proof (la_size Hlay). destruct (la_bmap Hlay c Hc). split; [lia|]. split; [done|lia]. Qed.

Lemma used_bit v b c x :
  length (v (BBLOCK b fsb)) = BSIZE → 0 ≤ b → 0 ≤ c →
  used (upd v (BBLOCK b fsb) (if x : bool then set_bit (b mod BPB) (v (BBLOCK b fsb))
                              else clear_bit (b mod BPB) (v (BBLOCK b fsb)))) c =
  if decide (c = b) then x else used v c.
Proof.
  intros Hl Hb Hc. unfold used. pose proof (Z.mod_pos_bound b BPB BPB_pos). pose proof (Z.mod_pos_bound c BPB BPB_pos).
  destruct (decide (BBLOCK c fsb = BBLOCK b fsb)) as [He|He].
  - rewrite He, upd_eq. destruct x; [rewrite bit_clear_set by done|rewrite bit_clear_clear by done];
      (case_decide as Hm; [rewrite decide_True by (by apply BBLOCK_inj)|rewrite decide_False by congruence]); done.
  - rewrite upd_ne by done. by rewrite decide_False by congruence.
Qed.

Lemma len_bmap v b : fs_ok v → 0 ≤ b < sb_size fsb → length (v (BBLOCK b fsb)) = BSIZE.
Proof. intros Hv Hb. apply (fo_len v Hv). by destruct (bmap_range b Hb) as (_ & ? & _). Qed.

Lemma len_data v b : fs_ok v → data_block b → length (v b) = BSIZE.
Proof. intros Hv Hb. apply (fo_len v Hv). by destruct (data_range b Hb) as (_ & ? & _). Qed.

Lemma used_mark v b c : fs_ok v → 0 ≤ b < sb_size fsb → 0 ≤ c → used (mark v b) c = if decide (c = b) then true else used v c.
Proof. intros Hv Hb Hc. exact (used_bit v b c true (len_bmap v b Hv Hb) (proj1 Hb) Hc). Qed.

Lemma used_unmark v b c : fs_ok v → 0 ≤ b < sb_size fsb → 0 ≤ c → used (unmark v b) c = if decide (c = b) then false else used v c.
Proof. intros Hv Hb Hc. exact (used_bit v b c false (len_bmap v b Hv Hb) (proj1 Hb) Hc). Qed.

Lemma used_data v b x c : data_block b → 0 ≤ c < sb_size fsb → used (upd v b x) c = used v c.
Proof. intros Hb Hc. unfold used. rewrite upd_ne; [done|]. symmetry. by apply data_meta. Qed.

(** Changing a data block keeps the rest in order. *)
Lemma fs_ok_data v b x : fs_ok v → data_block b → length x = BSIZE → fs_ok (upd v b x).
Proof.
  intros [H1 H2 H3] Hb Hx. pose proof (la_size Hlay). split.
  - rewrite upd_ne; [done|]. unfold data_block in Hb. lia.
  - intros c Hr. unfold upd. case_decide; [done|by apply H2].
  - intros c Hc. rewrite used_data by (done || lia). by apply H3.
Qed.

Lemma fs_ok_mark v b : fs_ok v → 0 ≤ b < sb_size fsb → fs_ok (mark v b).
Proof.
  intros Hv Hb. pose proof Hv as [H1 H2 H3]. split.
  - unfold mark. rewrite upd_ne; [done|]. destruct (bmap_range b Hb) as (_ & _ & ?). done.
  - intros c Hr. unfold mark, upd. case_decide; [rewrite length_set_bit; by apply len_bmap|by apply H2].
  - intros c Hc. rewrite used_mark by (done || lia). case_decide; [done|by apply H3].
Qed.

Lemma fs_ok_unmark v b : fs_ok v → data_block b → fs_ok (unmark v b).
Proof.
  intros Hv Hb. destruct (data_range b Hb) as (_ & _ & Hr). pose proof Hv as [H1 H2 H3]. split.
  - unfold unmark. rewrite upd_ne; [done|]. destruct (bmap_range b Hr) as (_ & _ & ?). done.
  - intros c Hr'. unfold unmark, upd. case_decide; [rewrite length_clear_bit; by apply len_bmap|by apply H2].
  - intros c Hc. rewrite used_unmark by (done || lia). rewrite decide_False; [by apply H3|]. unfold data_block in Hb. lia.
Qed.

Lemma fs_ok_fresh v b : fs_ok v → data_block b → fs_ok (fresh v b).
Proof.
  intros Hv Hb. destruct (data_range b Hb) as (_ & _ & Hr). apply fs_ok_data; [by apply fs_ok_mark|done|].
  apply length_replicate.
Qed.

Lemma used_fresh v b c :
  fs_ok v → data_block b → 0 ≤ c < sb_size fsb → used (fresh v b) c = if decide (c = b) then true else used v c.
Proof.
  intros Hv Hb Hc. destruct (data_range b Hb) as (_ & _ & Hr). unfold fresh. rewrite used_data by done.
  apply used_mark; done || lia.
Qed.

(** Data blocks other than [b] keep their contents. *)
Lemma fresh_other v b c : data_block b → data_block c → c ≠ b → fresh v b c = v c.
Proof.
  intros Hb Hc Hne. unfold fresh, mark. rewrite upd_ne by done. rewrite upd_ne; [done|].
  apply data_meta; [done|]. apply (data_range b Hb).
Qed.

(** ** The block allocator *)

Lemma put_bytes_all b l : length b = length l → put_bytes b 0 l = l.
Proof. intros H. unfold put_bytes. simpl. rewrite drop_ge by lia. apply app_nil_r. Qed.

(** No locked block is part of the free map or free. *)
Definition apart B v : Prop := ∀ b, b ∈ dom B → data_block b ∧ used v b = true.

Lemma apart_meta B v c : apart B v → 0 ≤ c < sb_size fsb → B !! BBLOCK c fsb = None.
Proof.
  intros HB Hc. apply not_elem_of_dom. intros [Hd _]%HB. by apply (data_meta _ Hd c).
Qed.

Lemma apart_free B v b : apart B v → used v b = false → B !! b = None.
Proof. intros HB Hb. apply not_elem_of_dom. intros [_ Hu]%HB. congruence. Qed.

Lemma apart_one B v : apart B v → (1 < dstart) → B !! 1 = None.
Proof. intros HB H1. apply not_elem_of_dom. intros [Hd _]%HB. unfold data_block in Hd. lia. Qed.

Lemma wp_bzero B L v s b (Q : unit → st → Prop) :
  txf B L v s → B !! b = None → 0 ≤ b < nblk → ¬ reserved b → length (v b) = BSIZE →
  (size (L ∪ dom B) ≤ cap)%nat → (size L < cap)%nat →
  (∀ t, tx B ∅ ({[b]} ∪ L) (upd v b zeros) t → Q tt (set_blk t s)) → wp (bzero ROOTDEV b) s Q.
Proof.
  intros Ht HB Hb Hres Hlen Hroom Hsz HQ. unfold bzero. apply wp_bind.
  eapply wp_fbread; [done|done|done|by right|].
  intros i t1 Ht1. eapply (wp_fmodlog _ _ _ _ b); [done|apply lookup_insert_eq|done|done|done|].
  rewrite put_bytes_all by by rewrite Hlen, length_replicate. intros t2 Ht2.
  eapply (wp_fbrelse _ _ _ _ b); [done|apply lookup_insert_eq|].
  intros t3 Ht3. rewrite delete_insert_id in Ht3 by done. by apply HQ.
Qed.

(** The transaction stays within [U], which has the free map and leaves room
    for one more block. *)
Record within U L : Prop := {
  wi_sub : L ⊆ U;
  wi_bmap c : 0 ≤ c < sb_size fsb → BBLOCK c fsb ∈ U;
  wi_cap : (size U < cap)%nat;
}.

Lemma within_size U L : within U L → (size L < cap)%nat.
Proof. intros [Hs _ Hc]. apply subseteq_size in Hs. lia. Qed.

Lemma within_bmap U L c : within U L → 0 ≤ c < sb_size fsb → within U ({[BBLOCK c fsb]} ∪ L).
Proof. intros [Hs Hb Hc] Hr. split; [|done|done]. specialize (Hb c Hr). set_solver. Qed.

Lemma within_room U L B : within U L → (size U + size (dom B) ≤ cap)%nat → (size (L ∪ dom B) ≤ cap)%nat.
Proof.
  intros [Hs _ _] H. apply subseteq_size in Hs. rewrite size_union_alt.
  pose proof (subseteq_size (dom B ∖ L) (dom B) ltac:(set_solver)). lia.
Qed.

Lemma wp_balloc_from U B L v n : ∀ s k (Q : Z → st → Prop),
  let b := BPB * Z.of_nat k in
  txf B L v s → sb s = fsb → fs_ok v → apart B v →
  within U L → (size U + size (dom B) ≤ cap)%nat →
  (∀ c, 0 ≤ c < b → c < sb_size fsb → used v c = true) →
  (∃ c, b ≤ c < b + BPB * Z.of_nat n ∧ c < sb_size fsb ∧ used v c = false) →
  (∀ a t, data_block a → used v a = false → (∀ c, 0 ≤ c < a → used v c = true) →
          tx B ∅ ({[a]} ∪ ({[BBLOCK a fsb]} ∪ L)) (fresh v a) t → Q a (set_blk t s)) →
  wp (balloc_from ROOTDEV b n) s Q.
Proof.
  induction n as [|n IH]; intros s k Q b Ht Hsb Hv HB HU Hsz Hlow (c & Hc & Hcs & Hcu) HQ; [lia|].
  assert (0 ≤ b) by (unfold b; change BPB with 4096; lia).
  cbn [balloc_from]. apply wp_bind, wp_gets. rewrite Hsb. set (g := BBLOCK b fsb).
  destruct (bmap_range b) as (Hg & Hgr & _); [lia|]. fold g in Hg, Hgr.
  apply wp_bind. eapply wp_fbread; [done|apply apart_meta with v; [done|lia]|done|right; by eapply within_room|].
  intros i t1 Ht1. apply wp_bind. eapply (wp_fdata _ _ _ _ g); [done|apply lookup_insert_eq|].
  assert (∀ x, 0 ≤ x < BPB → BBLOCK (b + x) fsb = g ∧ (b + x) mod BPB = x) as Hgx.
  { intros x Hx. unfold g, BBLOCK, b. rewrite !(Z.mul_comm BPB). rewrite Z.div_add_l, Z.div_mul by done.
    rewrite (Z.div_small x) by lia. split; [lia|]. rewrite Z.add_comm, Z.mod_add by done. by apply Z.mod_small. }
  assert (∀ x, 0 ≤ x < BPB → used v (b + x) = negb (bit_clear (v g) x)) as Hux.
  { intros x Hx. unfold used. destruct (Hgx x Hx) as [-> ->]. done. }
  pose proof (find_free_spec (v g) (Z.to_nat (Z.min BPB (sb_size fsb - b))) 0) as Hf.
  destruct (find_free (v g) 0 _) as [bi|].
  - destruct Hf as (Hbi & Hclr & Hbefore). destruct (Hgx bi ltac:(lia)) as [Hg' Hm].
    assert (used v (b + bi) = false) as Hu by (rewrite Hux by lia; by rewrite Hclr).
    assert (data_block (b + bi)) as Hdat.
    { split; [|lia]. destruct (decide (b + bi < dstart)) as [Hd|]; [|lia].
      rewrite (fo_meta v Hv) in Hu; [done|lia]. }
    destruct (data_range _ Hdat) as (Hr & Hnr & Hr').
    eapply (wp_fmodlog _ _ _ _ g); [done|apply lookup_insert_eq|done|done|by eapply within_size|]. intros t2 Ht2.
    apply wp_bind. eapply (wp_fbrelse _ _ _ _ g); [done|apply lookup_insert_eq|]. intros t3 Ht3.
    rewrite delete_insert_id in Ht3 by (apply apart_meta with v; [done|lia]).
    assert (within U ({[g]} ∪ L)) as HU' by (rewrite <-Hg'; by apply within_bmap). apply wp_bind.
    eapply (wp_bzero B _ _ _ (b + bi)); [exact Ht3|by eapply apart_free|done|done| |by eapply within_room|by eapply within_size|].
    { rewrite upd_ne; [by apply len_data|]. rewrite <-Hg'. by apply data_meta. }
    intros t4 Ht4. apply wp_ret. apply HQ; [done|done| |].
    + intros x Hx. destruct (decide (x < b)); [apply Hlow; lia|].
      replace x with (b + (x - b)) by lia. rewrite Hux by lia. by rewrite Hbefore by lia.
    + unfold fresh, mark. rewrite Hg', Hm. exact Ht4.
  - apply wp_bind. eapply (wp_fbrelse _ _ _ _ g); [done|apply lookup_insert_eq|]. intros t2 Ht2.
    rewrite delete_insert_id in Ht2 by (apply apart_meta with v; [done|lia]).
    replace (b + BPB) with (BPB * Z.of_nat (Datatypes.S k)) by (unfold b; lia).
    assert (∀ x, b ≤ x < b + BPB → x < sb_size fsb → used v x = true) as Hhere.
    { intros x Hx Hxs. replace x with (b + (x - b)) by lia. rewrite Hux by lia. by rewrite Hf by lia. }
    apply (IH (set_blk t2 s)); [done|done|done|done|done|done| | |].
    + intros x Hx Hxs. destruct (decide (x < b)); [apply Hlow; lia|]. apply Hhere; [unfold b; lia|done].
    + exists c. split; [|done]. destruct (decide (c < b + BPB)) as [Hlt|]; [|unfold b in *; lia].
      rewrite Hhere in Hcu by lia. done.
    + intros a t Ha Hau Hl Hta. by apply HQ.
Qed.

(** At least [k] blocks are free. *)
Definition free_blocks (k : nat) (v : Z → block) : Prop :=
  ∃ F : gset Z, (k ≤ size F)%nat ∧ ∀ c, c ∈ F → 0 ≤ c < sb_size fsb ∧ used v c = false.

Lemma free_blocks_fresh k v a :
  fs_ok v → data_block a → free_blocks (1 + k) v → free_blocks k (fresh v a).
Proof.
  intros Hv Ha (F & HF & Hc). exists (F ∖ {[a]}). split.
  - rewrite size_difference_alt. pose proof (subseteq_size (F ∩ {[a]}) {[a]} ltac:(set_solver)) as Hs.
    rewrite size_singleton in Hs. lia.
  - intros c [HcF Hne]%elem_of_difference. destruct (Hc c HcF) as [Hr Hu]. split; [done|].
    rewrite used_fresh by done. rewrite decide_False by set_solver. done.
Qed.

Lemma free_blocks_ext k v v' :
  (∀ c, 0 ≤ c < sb_size fsb → used v' c = used v c) → free_blocks k v → free_blocks k v'.
Proof. intros He (F & HF & Hc). exists F. split; [done|]. intros c Hcf. destruct (Hc c Hcf). by rewrite He. Qed.

Lemma free_blocks_le k k' v : (k' ≤ k)%nat → free_blocks k v → free_blocks k' v.
Proof. intros Hk (F & HF & Hc). exists F. split; [lia|done]. Qed.

Lemma free_blocks_some k v : free_blocks (1 + k) v → ∃ c, 0 ≤ c < sb_size fsb ∧ used v c = false.
Proof.
  intros (F & HF & Hc). destruct (size_pos_elem_of F) as [c Hcf]; [lia|]. exists c. by apply Hc.
Qed.

Lemma bitmap_reach c : 0 ≤ c < sb_size fsb → c < BPB * Z.of_nat (bitmap_blocks fsb).
Proof.
  intros Hc. unfold bitmap_blocks. change BPB with 4096. pose proof (Z.div_mod (sb_size fsb + 4096 - 1) 4096 ltac:(lia)).
  pose proof (Z.mod_pos_bound (sb_size fsb + 4096 - 1) 4096 ltac:(lia)). lia.
Qed.

Lemma wp_balloc U B L v s (Q : Z → st → Prop) :
  txf B L v s → sb s = fsb → fs_ok v → apart B v → within U L → (size U + size (dom B) ≤ cap)%nat →
  free_blocks 1 v →
  (∀ a t, data_block a → used v a = false → (∀ c, 0 ≤ c < a → used v c = true) →
          tx B ∅ ({[a]} ∪ ({[BBLOCK a fsb]} ∪ L)) (fresh v a) t → Q a (set_blk t s)) →
  wp (balloc ROOTDEV) s Q.
Proof.
  intros Ht Hsb Hv HB HU Hsz Hf HQ. unfold balloc. apply wp_bind, wp_gets. rewrite Hsb.
  destruct (free_blocks_some 0 v Hf) as (c & Hc & Hcu).
  apply (wp_balloc_from U B L v _ s 0%nat); try done; change (BPB * Z.of_nat 0) with 0; [lia|].
  exists c. pose proof (bitmap_reach c Hc). split; [lia|split; [lia|done]].
Qed.

(** [readsb] into [sb] changes nothing once the super block is in memory. *)
Lemma wp_freadsb B L v s (Q : unit → st → Prop) :
  txf B L v s → sb s = fsb → fs_ok v → B !! 1 = None → (size (L ∪ dom B) ≤ cap)%nat →
  (∀ t, tx B ∅ L v t → Q tt (set_blk t s)) → wp (freadsb ROOTDEV) s Q.
Proof.
  intros Ht Hsb Hv HB Hroom HQ. pose proof (la_size Hlay). unfold freadsb. apply wp_bind.
  eapply wp_fbread; [done|done|lia|by right|]. intros i t1 Ht1.
  apply wp_bind. eapply (wp_fdata _ _ _ _ 1); [done|apply lookup_insert_eq|].
  apply wp_bind, wp_modify. rewrite (fo_sb v Hv).
  eapply (wp_fbrelse _ _ _ _ 1); [done|apply lookup_insert_eq|]. intros t2 Ht2.
  rewrite delete_insert_id in Ht2 by done. specialize (HQ t2 Ht2). destruct s; simpl in *. by subst.
Qed.

Lemma wp_bfree U B L v s b (Q : unit → st → Prop) :
  txf B L v s → sb s = fsb → fs_ok v → apart B v → within U L → (size U + size (dom B) ≤ cap)%nat →
  data_block b → used v b = true →
  (∀ t, tx B ∅ ({[BBLOCK b fsb]} ∪ L) (unmark v b) t → Q tt (set_blk t s)) → wp (bfree ROOTDEV b) s Q.
Proof.
  intros Ht Hsb Hv HB HU Hsz Hb Hu HQ. destruct (data_range b Hb) as (_ & _ & Hr).
  destruct (bmap_range b Hr) as (Hg & Hgr & _). pose proof (la_size Hlay).
  unfold bfree. apply wp_bind. eapply wp_freadsb; [done|done|done|apply apart_one with v; [done|lia]|by eapply within_room|].
  intros t1 Ht1. apply wp_bind, wp_gets. cbn [sb set_blk]. rewrite Hsb.
  apply wp_bind. eapply wp_fbread; [done|by apply apart_meta with v|done|right; by eapply within_room|].
  intros i t2 Ht2. apply wp_bind. eapply (wp_fdata _ _ _ _ (BBLOCK b fsb)); [done|apply lookup_insert_eq|].
  cbv zeta. apply wp_bind, wp_assert; [exact Hu|].
  eapply (wp_fmodlog _ _ _ _ (BBLOCK b fsb)); [done|apply lookup_insert_eq|done|done|by eapply within_size|].
  intros t3 Ht3. eapply (wp_fbrelse _ _ _ _ (BBLOCK b fsb)); [done|apply lookup_insert_eq|].
  intros t4 Ht4. rewrite delete_insert_id in Ht4 by by apply apart_meta with v. by apply HQ.
Qed.

(** ** The blocks of a file *)

Definition ind_list (b : block) : list Z := (λ j, ind_get b (Z.of_nat j)) <$> seq 0 (Z.to_nat NINDIRECT).

(** The indirect block, and the block numbers it holds. *)
Definition ind_addr (d : dinode) : Z := default 0 (d_addrs d !! 12%nat).
Definition indirect (v : Z → block) (d : dinode) : list Z :=
  if decide (ind_addr d = 0) then replicate (Z.to_nat NINDIRECT) 0 else ind_list (v (ind_addr d)).

(** All block numbers of an inode, 0 for none: 12 direct ones, the indirect
    block, and those it holds. *)
Definition slots (v : Z → block) (d : dinode) : list Z := d_addrs d ++ indirect v d.
Definition owned (v : Z → block) (d : dinode) : list Z := filter (λ a, a ≠ 0) (slots v d).

(** Where the [bn]th block of the content is. *)
Definition slot_of (bn : Z) : nat := Z.to_nat (if decide (bn < NDIRECT) then bn else bn + 1).
Definition baddr (v : Z → block) (d : dinode) (bn : Z) : Z := default 0 (slots v d !! slot_of bn).

Record file_ok (v : Z → block) (d : dinode) : Prop := {
  f_dinode : dinode_ok d;
  f_nodup : NoDup (owned v d);
  f_data a : a ∈ owned v d → data_block a ∧ used v a = true;
  f_size : d_size d ≤ MAXFILE * Z.of_nat BSIZE;
  f_mapped bn : 0 ≤ bn → bn * Z.of_nat BSIZE < d_size d → baddr v d bn ≠ 0;
}.

Lemma length_ind_list b : length (ind_list b) = 128%nat.
Proof. unfold ind_list. by rewrite length_fmap, length_seq. Qed.

Lemma length_indirect v d : length (indirect v d) = 128%nat.
Proof. unfold indirect. case_decide; [by rewrite length_replicate|apply length_ind_list]. Qed.

Lemma length_slots v d : dinode_ok d → length (slots v d) = 141%nat.
Proof. intros Hd. unfold slots. rewrite length_app, length_indirect, (do_addrs d Hd). done. Qed.

Lemma ind_list_lookup b j : (j < 128)%nat → ind_list b !! j = Some (ind_get b (Z.of_nat j)).
Proof. intros Hj. unfold ind_list. rewrite list_lookup_fmap, lookup_seq_lt by done. done. Qed.

Lemma ind_list_put b bn a :
  length b = BSIZE → 0 ≤ bn < NINDIRECT → uint a → ind_list (ind_put b bn a) = <[Z.to_nat bn := a]> (ind_list b).
Proof.
  intros Hb Hbn Ha. change NINDIRECT with 128 in *. apply list_eq. intros j.
  destruct (decide (j < 128)%nat) as [Hj|Hj].
  - rewrite ind_list_lookup by done. unfold ind_get, ind_put.
    destruct (decide (j = Z.to_nat bn)) as [->|Hne].
    + rewrite list_lookup_insert_eq by (rewrite length_ind_list; lia). f_equal. rewrite Z2Nat.id by lia.
      rewrite get_put32 by (rewrite Hb; unfold BSIZE; lia). by apply u32_id.
    + rewrite list_lookup_insert_ne by done. rewrite ind_list_lookup by done. f_equal. unfold ind_get.
      apply get_put32_ne; [rewrite Hb; unfold BSIZE; lia|lia].
  - rewrite !lookup_ge_None_2; [done|rewrite length_insert, length_ind_list; lia|rewrite length_ind_list; lia].
Qed.

Lemma ind_list_zeros : ind_list zeros = replicate 128 0.
Proof. vm_compute. reflexivity. Qed.

Lemma indirect_ext v v' d : (ind_addr d ≠ 0 → v' (ind_addr d) = v (ind_addr d)) → indirect v' d = indirect v d.
Proof. intros H. unfold indirect. case_decide; [done|]. by rewrite H. Qed.

Lemma data_nonzero a : data_block a → a ≠ 0 ∧ uint a.
Proof. intros Ha. pose proof (la_size Hlay). unfold data_block, uint in *. lia. Qed.

Lemma elem_owned v d a : a ∈ owned v d ↔ a ≠ 0 ∧ ∃ k, slots v d !! k = Some a.
Proof. unfold owned. rewrite list_elem_of_filter, list_elem_of_lookup. done. Qed.

Lemma filter_fill (l : list Z) k a :
  l !! k = Some 0 → a ≠ 0 → filter (λ x, x ≠ 0) (<[k := a]> l) ≡ₚ a :: filter (λ x, x ≠ 0) l.
Proof.
  intros Hk Ha. rewrite <-(take_drop_middle l k 0 Hk) at 2. rewrite insert_take_drop by by eapply lookup_lt_Some.
  rewrite !list.filter_app, !list.filter_cons. rewrite decide_True by done. rewrite decide_False by (intros H; by apply H).
  by rewrite Permutation_middle.
Qed.

(** The file has grown by blocks that were free; nothing in use has changed but
    its indirect block and the free map. *)
Record grown (v v' : Z → block) (d d' : dinode) : Prop := {
  gr_used b : 0 ≤ b < sb_size fsb → used v b = true → used v' b = true;
  gr_keep b : (∀ c, 0 ≤ c < sb_size fsb → b ≠ BBLOCK c fsb) → (data_block b → used v b = true) →
              (b = ind_addr d → b = 0) → v' b = v b;
  gr_slots k b : slots v d !! k = Some b → b ≠ 0 → slots v' d' !! k = Some b;
  gr_new b : b ∈ owned v' d' → b ∈ owned v d ∨ used v b = false;
  gr_ind : ind_addr d' = ind_addr d ∨ ind_addr d = 0 ∧ data_block (ind_addr d') ∧ used v (ind_addr d') = false;
  gr_dinode : d' = Dinode (d_type d) (d_major d) (d_minor d) (d_nlink d) (d_size d) (d_addrs d');
}.

Lemma grown_refl v d : grown v v d d.
Proof. split; try done; [by left|by left|by destruct d]. Qed.

Lemma grown_trans v v1 v2 d d1 d2 :
  (∀ b, 0 ≤ b < sb_size fsb → used v1 b = false → used v b = false) →
  (∀ b, b ∈ owned v2 d2 → 0 ≤ b < sb_size fsb) →
  grown v v1 d d1 → grown v1 v2 d1 d2 → grown v v2 d d2.
Proof.
  intros Hu Hr [A1 A2 A3 A4 A5 A6] [B1 B2 B3 B4 B5 B6]. split.
  - auto.
  - intros b Hb1 Hb2 Hb3. rewrite B2; [by apply A2|done| |].
    + intros Hd. apply A1; [by apply data_range|by apply Hb2].
    + intros He. destruct A5 as [A5|(_ & A5 & A5')]; [apply Hb3; congruence|].
      rewrite <-He in A5, A5'. rewrite Hb2 in A5' by done. done.
  - eauto.
  - intros b Hb. destruct (B4 b Hb) as [Hb'|Hb']; [by apply A4|]. right. apply Hu; [by apply Hr|done].
  - destruct B5 as [->|(B5 & B5' & B5'')]; [done|]. right. destruct A5 as [A5|(_ & A5 & _)].
    + split; [congruence|]. split; [done|]. apply Hu; [|done]. by apply data_range.
    + rewrite B5 in A5. destruct (data_nonzero 0 A5). done.
  - rewrite B6, A6. done.
Qed.

(** Filling an empty slot with a free block. *)
Lemma fill_ok v v' d d' k a :
  file_ok v d → dinode_ok d' → d_size d' = d_size d → slots v d !! k = Some 0 →
  slots v' d' = <[k := a]> (slots v d) → data_block a → used v a = false →
  (∀ c, 0 ≤ c < sb_size fsb → used v' c = if decide (c = a) then true else used v c) →
  file_ok v' d' ∧ (∀ j b, slots v d !! j = Some b → b ≠ 0 → slots v' d' !! j = Some b) ∧
  (∀ b, b ∈ owned v' d' → b ∈ owned v d ∨ used v b = false).
Proof.
  intros [F1 F2 F3 F4 F5] Hd' Hsz Hk Hs Ha Hau Hu. destruct (data_nonzero a Ha) as [Ha0 _].
  assert (owned v' d' ≡ₚ a :: owned v d) as Hp by (unfold owned; rewrite Hs; by apply filter_fill).
  assert (∀ j b, slots v d !! j = Some b → b ≠ 0 → slots v' d' !! j = Some b) as Hslots.
  { intros j b Hj Hb. rewrite Hs. destruct (decide (j = k)) as [->|]; [congruence|]. by rewrite list_lookup_insert_ne. }
  split; [|split; [done|]].
  - split; [done| | |by rewrite Hsz|].
    + rewrite Hp. apply list.NoDup_cons. split; [|done]. intros [_ ?]%F3. congruence.
    + intros b. rewrite Hp, elem_of_cons. intros [->|Hb].
      * split; [done|]. rewrite Hu by by apply data_range. by rewrite decide_True.
      * destruct (F3 b Hb) as [Hd Hb']. split; [done|]. rewrite Hu by by apply data_range. by case_decide.
    + intros bn Hbn Hlt. rewrite Hsz in Hlt. specialize (F5 bn Hbn Hlt). unfold baddr in *.
      destruct (slots v d !! slot_of bn) as [b|] eqn:Hb; [|done]. simpl in F5. by rewrite (Hslots _ b).
  - intros b. rewrite Hp, elem_of_cons. intros [->|Hb]; [by right|by left].
Qed.

Lemma ind_owned v d : file_ok v d → ind_addr d ≠ 0 → data_block (ind_addr d) ∧ used v (ind_addr d) = true.
Proof.
  intros F H. apply (f_data v d F), elem_owned. split; [done|]. exists 12%nat. unfold slots, ind_addr in *.
  destruct (d_addrs d !! 12%nat) as [a|] eqn:Ha; [|done]. by rewrite lookup_app_l by (by eapply lookup_lt_Some).
Qed.

Lemma fresh_keep v a b :
  data_block a → used v a = false → (∀ c, 0 ≤ c < sb_size fsb → b ≠ BBLOCK c fsb) →
  (data_block b → used v b = true) → fresh v a b = v b.
Proof.
  intros Ha Hau Hb Hbu. unfold fresh, mark. rewrite upd_ne by (intros ->; rewrite Hbu in Hau; done).
  apply upd_ne, Hb. by apply data_range.
Qed.

Lemma dinode_ok_addr d k a : dinode_ok d → uint a → dinode_ok (set_daddr k a d).
Proof.
  intros [H1 H2 H3 H4 H5 H6 H7] Ha. split; try done; simpl; [by rewrite length_insert|].
  intros x [j Hj]%list_elem_of_lookup. destruct (decide (j = k)) as [->|].
  - apply list_lookup_insert_Some in Hj as [(_ & <- & _)|[? _]]; done.
  - rewrite list_lookup_insert_ne in Hj by done. by apply H7, (list_elem_of_lookup_2 _ j).
Qed.

(** A direct block, or the indirect block itself. *)
Lemma grow_addr v d k a :
  file_ok v d → fs_ok v → d_addrs d !! k = Some 0 → (k < 13)%nat → data_block a → used v a = false →
  let d' := set_daddr k a d in
  file_ok (fresh v a) d' ∧ grown v (fresh v a) d d' ∧ slots (fresh v a) d' = <[k := a]> (slots v d).
Proof.
  intros F Hv Hk Hk13 Ha Hau d'. destruct (data_nonzero a Ha) as [Ha0 Hau32].
  assert (length (d_addrs d) = 13%nat) as Hlen by apply F.
  assert (ind_addr d' = if decide (k = 12%nat) then a else ind_addr d) as Hind.
  { unfold ind_addr, d'. simpl. case_decide as Hk'; [subst; by rewrite list_lookup_insert_eq by lia|].
    by rewrite list_lookup_insert_ne. }
  assert (slots (fresh v a) d' = <[k := a]> (slots v d)) as Hs.
  { unfold slots at 2. rewrite insert_app_l by lia. unfold slots.
    change (d_addrs d') with (<[k := a]> (d_addrs d)). f_equal. unfold indirect at 1. rewrite Hind. case_decide as Hk'.
    - rewrite decide_False by done. subst k. unfold indirect, ind_addr. rewrite Hk. simpl.
      unfold fresh. by rewrite upd_eq, ind_list_zeros.
    - fold (indirect (fresh v a) d). apply indirect_ext. intros Hi. destruct (ind_owned v d F Hi) as [Hid Hiu].
      apply fresh_other; [done|done|]. intros He. congruence. }
  assert (slots v d !! k = Some 0) as Hk0 by (unfold slots; by rewrite lookup_app_l by lia).
  destruct (fill_ok v (fresh v a) d d' k a) as (F' & G1 & G2); try done.
  { apply dinode_ok_addr; [apply F|done]. }
  { intros c Hc. by apply used_fresh. }
  split; [done|]. split; [|done]. split; try done.
  - intros b Hb Hbu. rewrite used_fresh by done. by destruct (decide (b = a)).
  - intros b Hb Hbu _. by apply fresh_keep.
  - rewrite Hind. destruct (decide (k = 12%nat)) as [Hk'|]; [right|by left]. subst k. unfold ind_addr. by rewrite Hk.
Qed.

(** An entry of the indirect block. *)
Lemma grow_entry v d bn a :
  file_ok v d → fs_ok v → ind_addr d ≠ 0 → 0 ≤ bn < NINDIRECT → ind_get (v (ind_addr d)) bn = 0 →
  data_block a → used v a = false →
  let v' := upd (fresh v a) (ind_addr d) (ind_put (fresh v a (ind_addr d)) bn a) in
  file_ok v' d ∧ fs_ok v' ∧ grown v v' d d ∧ slots v' d = <[(13 + Z.to_nat bn)%nat := a]> (slots v d).
Proof.
  intros F Hv Hi Hbn Hz Ha Hau v'. destruct (ind_owned v d F Hi) as [Hid Hiu].
  destruct (data_nonzero a Ha) as [Ha0 Hau32]. change NINDIRECT with 128 in *.
  assert (length (d_addrs d) = 13%nat) as Hlen by apply F.
  assert (fresh v a (ind_addr d) = v (ind_addr d)) as Hfi by (apply fresh_other; [done|done|congruence]).
  assert (slots v' d = <[(13 + Z.to_nat bn)%nat := a]> (slots v d)) as Hs.
  { unfold slots. rewrite insert_app_r_alt by lia. f_equal. unfold indirect. rewrite !decide_False by done.
    unfold v'. rewrite upd_eq, Hfi. rewrite ind_list_put by (done || by apply len_data).
    by replace (13 + Z.to_nat bn - length (d_addrs d))%nat with (Z.to_nat bn) by lia. }
  assert (slots v d !! (13 + Z.to_nat bn)%nat = Some 0) as Hk0.
  { unfold slots. rewrite lookup_app_r by lia. unfold indirect. rewrite decide_False by done.
    replace (13 + Z.to_nat bn - length (d_addrs d))%nat with (Z.to_nat bn) by lia.
    rewrite ind_list_lookup by lia. rewrite Z2Nat.id by lia. by rewrite Hz. }
  assert (∀ c, 0 ≤ c < sb_size fsb → used v' c = if decide (c = a) then true else used v c) as Hu.
  { intros c Hc. unfold v'. rewrite used_data by done. by apply used_fresh. }
  destruct (fill_ok v v' d d (13 + Z.to_nat bn) a) as (F' & G1 & G2); try done; [apply F|].
  split; [done|]. split; [|split; [|done]].
  - unfold v'. apply fs_ok_data; [by apply fs_ok_fresh|done|]. unfold ind_put. rewrite length_put32, Hfi. by apply len_data.
  - split; try done.
    + intros b Hb Hbu. rewrite Hu by done. by case_decide.
    + intros b Hb Hbu Hne. unfold v'. rewrite upd_ne by (intros He; by rewrite <-He, Hne in Hi). by apply fresh_keep.
    + by left.
    + by destruct d.
Qed.

(** ** [bmap] *)

(** The state with new blocks [t] and new contents [d] of inode [i]. *)
Definition with_ino s (t : S) (i : nat) (x : inode) (d : dinode) : st :=
  set_inodes (<[i := set_idata d x]> (inodes s)) (set_blk t s).

Lemma with_ino_id s i x : inodes s !! i = Some x → with_ino s (blk s) i x (idata x) = s.
Proof.
  intros Hi. destruct s as [b p l w], x. unfold with_ino, set_inodes, set_blk, set_idata. simpl in *.
  by rewrite list_insert_id.
Qed.

Lemma with_ino_lookup s t i x d : inodes s !! i = Some x → inodes (with_ino s t i x d) !! i = Some (set_idata d x).
Proof. intros Hi. simpl. apply list_lookup_insert_eq. by eapply lookup_lt_Some. Qed.

Lemma with_ino_twice s t t' i x d d' : with_ino (with_ino s t i x d) t' i (set_idata d x) d' = with_ino s t' i x d'.
Proof. unfold with_ino, set_inodes, set_blk. simpl. by rewrite list_insert_insert_eq. Qed.

Lemma wp_geti s i x (Q : inode → st → Prop) : inodes s !! i = Some x → Q x s → wp (geti i) s Q.
Proof. intros Hi HQ. apply wp_bind, wp_get, (wp_unwrap _ x); done. Qed.

(** One more block is needed for an indirect block that is not there yet. *)
Definition pot (d : dinode) : nat := if decide (ind_addr d = 0) then 1 else 0.

Lemma wp_addr_or_alloc U L v s i x k (Q : Z → st → Prop) :
  let d := idata x in
  txf ∅ L v s → sb s = fsb → fs_ok v → inodes s !! i = Some x → idev x = ROOTDEV → file_ok v d →
  (k < 13)%nat → within U L → free_blocks 1 v →
  (∀ a v' d' t L', tx ∅ ∅ L' v' t → L' ⊆ {[a]} ∪ U → file_ok v' d' → fs_ok v' → grown v v' d d' →
     d_addrs d' !! k = Some a → a ≠ 0 → (∀ j, j ≠ k → d_addrs d' !! j = d_addrs d !! j) →
     (v' = v ∧ d' = d ∨ d_addrs d !! k = Some 0 ∧ ∀ m, free_blocks (1 + m) v → free_blocks m v') →
     (∀ b, 0 ≤ b < sb_size fsb → used v' b = false → used v b = false) →
     Q a (with_ino s t i x d')) →
  wp (addr_or_alloc i k) s Q.
Proof.
  intros d Ht Hsb Hv Hi Hdev F Hk HU Hf HQ. unfold addr_or_alloc.
  apply wp_bind, (wp_geti _ _ x); [done|].
  destruct (lookup_lt_is_Some_2 (d_addrs d) k) as [a Ha]; [rewrite (do_addrs d (f_dinode v d F)); lia|].
  apply wp_bind, (wp_unwrap _ a); [done|]. case_bool_decide as Hz.
  - subst a. apply wp_bind. rewrite Hdev.
    eapply (wp_balloc U ∅ L v); [done|done|done|set_solver|done| |done|].
    { rewrite dom_empty_L, size_empty. destruct HU. lia. }
    intros a t Hda Hau _ Ht'. destruct (grow_addr v d k a) as (F' & G & _); try done.
    apply wp_bind. unfold set_addr. apply wp_bind, (wp_geti _ _ x); [done|]. apply wp_modify, wp_ret.
    fold d. change (Q a (with_ino s t i x (set_daddr k a d))).
    destruct (data_range a Hda) as (_ & _ & Hr).
    apply (HQ a (fresh v a) _ t _ Ht'); try done.
    + destruct HU as [HU1 HU2 _]. specialize (HU2 a Hr). set_solver.
    + by apply fs_ok_fresh.
    + simpl. apply list_lookup_insert_eq. by eapply lookup_lt_Some.
    + by apply data_nonzero.
    + intros j Hj. simpl. by rewrite list_lookup_insert_ne.
    + right. split; [done|]. intros m. by apply free_blocks_fresh.
    + intros b Hb. rewrite used_fresh by done. by case_decide.
  - apply wp_ret. rewrite <-(with_ino_id s i x Hi).
    apply (HQ a v d (blk s) L Ht); try done; [|apply grown_refl|by left].
    destruct HU as [HU1 _ _]. set_solver.
Qed.

Record bmapped U v d bn a v' d' L' : Prop := {
  bm_file : file_ok v' d';
  bm_fs : fs_ok v';
  bm_grown : grown v v' d d';
  bm_slot : slots v' d' !! slot_of bn = Some a;
  bm_nonzero : a ≠ 0;
  bm_log : L' ⊆ {[a]} ∪ ((if decide (bn < NDIRECT) then ∅ else {[ind_addr d']}) ∪ U);
  bm_free m : free_blocks (1 + pot d + m) v → free_blocks (pot d' + m) v';
  bm_ind : NDIRECT ≤ bn → ind_addr d' ≠ 0;
  bm_same : baddr v d bn ≠ 0 → d' = d;
}.

Lemma slots_addr v d k a : d_addrs d !! k = Some a → slots v d !! k = Some a.
Proof. intros H. unfold slots. by rewrite lookup_app_l by (by eapply lookup_lt_Some). Qed.

Lemma slots_entry v d bn :
  dinode_ok d → ind_addr d ≠ 0 → 0 ≤ bn < NINDIRECT →
  slots v d !! (13 + Z.to_nat bn)%nat = Some (ind_get (v (ind_addr d)) bn).
Proof.
  intros Hd Hi Hbn. change NINDIRECT with 128 in *. pose proof (do_addrs d Hd) as Hlen. unfold slots.
  rewrite lookup_app_r by lia. unfold indirect. rewrite decide_False by done.
  replace (13 + Z.to_nat bn - length (d_addrs d))%nat with (Z.to_nat bn) by lia.
  rewrite ind_list_lookup by lia. by rewrite Z2Nat.id by lia.
Qed.

Lemma size_add2 (a b : Z) L : (size ({[a]} ∪ ({[b]} ∪ L)) ≤ 2 + size L)%nat.
Proof. pose proof (size_add a ({[b]} ∪ L)). pose proof (size_add b L). lia. Qed.

(** The part of [bmap] below the indirect block [ind_addr d]. *)
Lemma wp_bmap_entry U L v s i x bn (Q : Z → st → Prop) :
  let d := idata x in
  txf ∅ L v s → sb s = fsb → fs_ok v → inodes s !! i = Some x → idev x = ROOTDEV → file_ok v d →
  0 ≤ bn < NINDIRECT → ind_addr d ≠ 0 → within U L → (size U + 2 ≤ cap)%nat → ind_addr d ∈ U →
  (ind_get (v (ind_addr d)) bn = 0 → free_blocks 1 v) →
  (∀ a v' t L', tx ∅ ∅ L' v' t → L' ⊆ {[a]} ∪ U → file_ok v' d → fs_ok v' → grown v v' d d →
     slots v' d !! (13 + Z.to_nat bn)%nat = Some a → a ≠ 0 →
     (∀ m, free_blocks (1 + m) v → free_blocks m v') → Q a (set_blk t s)) →
  wp (x ← geti i;
      bp ← fbread (idev x) (ind_addr d);
      b ← fdata bp;
      let a := ind_get b bn in
      (if bool_decide (a = 0)%Z then
         a ← balloc (idev x);
         fmodify bp (λ b, ind_put b bn a) ;;
         flog_write bp ;;
         fbrelse bp ;;
         kret a
       else fbrelse bp ;; kret a)) s Q.
Proof.
  intros d Ht Hsb Hv Hi Hdev F Hbn Hind HU HUc HUi Hf HQ. set (ia := ind_addr d) in *.
  destruct (ind_owned v d F Hind) as [Hid Hiu]. fold ia in Hid, Hiu. destruct (data_range ia Hid) as (Hir & Hires & _).
  apply wp_bind, (wp_geti _ _ x); [done|]. rewrite Hdev.
  assert (size U + size (dom (<[ia := 0%nat]> (∅ : gmap Z nat))) ≤ cap)%nat as HUr.
  { rewrite dom_insert_L, dom_empty_L, union_empty_r_L, size_singleton. lia. }
  apply wp_bind. eapply wp_fbread; [done|apply lookup_empty|done| |].
  { right. eapply within_room; [done|]. rewrite dom_empty_L, size_empty. lia. }
  intros bp t1 Ht1. apply wp_bind. eapply (wp_fdata _ _ _ _ ia); [done|apply lookup_insert_eq|]. cbv zeta.
  pose proof (slots_entry v d bn (f_dinode v d F) Hind Hbn) as Hse. fold ia in Hse.
  case_bool_decide as Hz.
  - apply wp_bind. eapply (wp_balloc U (<[ia := bp]> ∅) L v); [done|done|done| |done| |by apply Hf|].
    { intros b. rewrite dom_insert_L, dom_empty_L, union_empty_r_L. by intros ->%elem_of_singleton. }
    { by rewrite dom_insert_L in HUr |- *. }
    intros a t2 Hda Hau _ Ht2. destruct (data_range a Hda) as (_ & _ & Har).
    pose proof (wi_sub _ _ HU) as HU1. pose proof (wi_bmap _ _ HU a Har) as HU2.
    assert (({[a]} ∪ ({[BBLOCK a fsb]} ∪ L)) ⊆ {[a]} ∪ U) as HL2 by set_solver.
    eapply (wp_fmodlog _ _ _ _ ia); [exact Ht2|apply lookup_insert_eq|done|done| |].
    { apply subseteq_size in HL2. pose proof (size_add a U). lia. }
    intros t3 Ht3. apply wp_bind. eapply (wp_fbrelse _ _ _ _ ia); [exact Ht3|apply lookup_insert_eq|].
    intros t4 Ht4. rewrite delete_insert_id in Ht4 by apply lookup_empty. apply wp_ret.
    destruct (grow_entry v d bn a) as (F' & Hv' & G & Hs); try done. fold ia in F', Hv', G, Hs.
    apply (HQ a _ t4 _ Ht4); try done.
    + set_solver.
    + rewrite Hs. apply list_lookup_insert_eq. by eapply lookup_lt_Some.
    + by apply data_nonzero.
    + intros m Hm. eapply free_blocks_ext; [|by apply (free_blocks_fresh m v a)].
      intros c Hc. by apply used_data.
  - apply wp_bind. eapply (wp_fbrelse _ _ _ _ ia); [exact Ht1|apply lookup_insert_eq|].
    intros t4 Ht4. rewrite delete_insert_id in Ht4 by apply lookup_empty. apply wp_ret.
    apply (HQ _ v t4 L Ht4); try done; [|apply grown_refl|].
    + pose proof (wi_sub _ _ HU). set_solver.
    + intros m. apply free_blocks_le. lia.
Qed.

Lemma u32_sub bn : NDIRECT ≤ bn < MAXFILE → u32 (bn - NDIRECT) = bn - NDIRECT.
Proof. intros H. change NDIRECT with 12 in *. change MAXFILE with 140 in *. apply u32_id. unfold uint. lia. Qed.

Lemma within_add U L L' b : within U L → L' ⊆ {[b]} ∪ U → (size U + 1 < cap)%nat → within ({[b]} ∪ U) L'.
Proof.
  intros [HU1 HU2 HU3] HL Hc. pose proof (size_add b U). split; [done| |lia].
  intros c Hr. specialize (HU2 c Hr). set_solver.
Qed.

Lemma wp_bmap U L v s i x bn (Q : Z → st → Prop) :
  let d := idata x in
  txf ∅ L v s → sb s = fsb → fs_ok v → inodes s !! i = Some x → idev x = ROOTDEV → file_ok v d →
  0 ≤ bn < MAXFILE → within U L → (size U + 3 ≤ cap)%nat → free_blocks (1 + pot d) v →
  (∀ a v' d' t L', tx ∅ ∅ L' v' t → bmapped U v d bn a v' d' L' → Q a (with_ino s t i x d')) →
  wp (bmap i bn) s Q.
Proof.
  intros d Ht Hsb Hv Hi Hdev F Hbn HU HUc Hf HQ. unfold bmap. case_bool_decide as Hdir.
  - change NDIRECT with 12 in Hdir.
    eapply (wp_addr_or_alloc U L v); try done; [lia|by eapply free_blocks_le; [|done]; lia|].
    intros a v' d' t L' Ht' HL' F' Hv' G Ha Ha0 Hoth Hfr _. apply (HQ a v' d' t L' Ht'). split; try done.
    + unfold slot_of. rewrite decide_True by (change NDIRECT with 12; lia). by apply slots_addr.
    + rewrite decide_True by (change NDIRECT with 12; lia). set_solver.
    + assert (pot d' = pot d) as Hp by (unfold pot, ind_addr; by rewrite Hoth by lia). rewrite Hp. intros m Hm.
      destruct Hfr as [[-> _]|[_ Hfr]]; [eapply free_blocks_le; [|done]; lia|by apply Hfr].
    + change NDIRECT with 12. lia.
    + intros Hb. destruct Hfr as [[_ ->]|[Hz _]]; [done|]. exfalso. apply Hb. unfold baddr, slot_of.
      rewrite decide_True by (change NDIRECT with 12; lia). by rewrite (slots_addr _ _ _ _ Hz).
  - change NDIRECT with 12 in Hdir. cbv zeta. rewrite u32_sub by (change NDIRECT with 12; lia).
    rewrite bool_decide_eq_true_2 by (change MAXFILE with 140 in *; change NINDIRECT with 128; change NDIRECT with 12; lia).
    apply wp_bind. change (Z.to_nat NDIRECT) with 12%nat.
    eapply (wp_addr_or_alloc U L v); try done; [lia|by eapply free_blocks_le; [|done]; lia|].
    intros ia v1 d1 t1 L1 Ht1 HL1 F1 Hv1 G1 Hia Hia0 Hoth Hfr1 Hus1.
    assert (ind_addr d1 = ia) as Hind by (unfold ind_addr; by rewrite Hia).
    assert (pot d1 = 0%nat) as Hp1 by (unfold pot; by rewrite decide_False by congruence).
    assert (∀ m, free_blocks (1 + pot d + m) v → free_blocks (1 + m) v1) as Hfr.
    { intros m Hm. destruct Hfr1 as [[-> ->]|[Hz Hfr1]]; [fold d in Hp1; by rewrite Hp1 in Hm|].
      apply Hfr1. unfold pot, ind_addr in Hm. fold d in Hz. rewrite Hz in Hm. exact Hm. }
    set (x1 := set_idata d1 x).
    assert (inodes (with_ino s t1 i x d1) !! i = Some x1) as Hi1 by by apply with_ino_lookup.
    rewrite <-Hind. change d1 with (idata x1) at 1.
    eapply (wp_bmap_entry ({[ia]} ∪ U) L1 v1 _ i x1 (bn - NDIRECT)); try done.
    + change MAXFILE with 140 in *; change NINDIRECT with 128; change NDIRECT with 12; lia.
    + simpl. congruence.
    + eapply within_add; [done|set_solver|lia].
    + pose proof (size_add ia U). lia.
    + simpl. rewrite Hind. set_solver.
    + intros _. apply (Hfr 0%nat). by rewrite Nat.add_0_r.
    + intros a v2 t2 L2 Ht2 HL2 F2 Hv2 G2 Hs2 Ha0 Hfr2.
      change (Q a (set_blk t2 (with_ino s t1 i x d1))) with (Q a (with_ino s t2 i x d1)).
      apply (HQ a v2 d1 t2 L2 Ht2). simpl in *. split; try done.
      * eapply grown_trans; [exact Hus1| |done|done]. intros b Hb. by apply data_range, (f_data _ _ F2).
      * unfold slot_of. rewrite decide_False by (change NDIRECT with 12; lia). change NDIRECT with 12 in Hs2.
        by replace (Z.to_nat (bn + 1)) with (13 + Z.to_nat (bn - 12))%nat by lia.
      * rewrite decide_False by (change NDIRECT with 12; lia). rewrite Hind. set_solver.
      * rewrite Hp1. intros m Hm. by apply Hfr2, Hfr.
      * intros _. congruence.
      * intros Hb. destruct Hfr1 as [[_ ->]|[Hz _]]; [done|]. exfalso. apply Hb. fold d in Hz.
        assert (ind_addr d = 0) as Hz' by (unfold ind_addr; by rewrite Hz). unfold baddr, slot_of, slots, indirect.
        rewrite (decide_False (P := bn < NDIRECT)), (decide_True (P := ind_addr d = 0)) by (done || (change NDIRECT with 12; lia)).
        rewrite lookup_app_r by (rewrite (do_addrs d (f_dinode v d F)); lia). generalize (Z.to_nat (bn + 1) - length (d_addrs d))%nat.
        intros k. destruct (replicate (Z.to_nat NINDIRECT) 0 !! k) as [y|] eqn:Hy; [|done]. by apply lookup_replicate in Hy as [-> _].
Qed.

(** [bmap] of a block that is there changes nothing. *)
Lemma wp_bmap_mapped L v s i x bn (Q : Z → st → Prop) :
  let d := idata x in
  txf ∅ L v s → inodes s !! i = Some x → idev x = ROOTDEV → file_ok v d →
  0 ≤ bn < MAXFILE → (size L ≤ cap)%nat → baddr v d bn ≠ 0 →
  (∀ t, tx ∅ ∅ L v t → Q (baddr v d bn) (set_blk t s)) → wp (bmap i bn) s Q.
Proof.
  intros d Ht Hi Hdev F Hbn Hc Ha HQ. pose proof (do_addrs d (f_dinode v d F)) as Hlen.
  assert (∀ k a (Q : Z → st → Prop), (k < 13)%nat → d_addrs d !! k = Some a → a ≠ 0 → Q a s → wp (addr_or_alloc i k) s Q) as Haa.
  { intros k a Q' Hk Hka Ha0 HQ'. unfold addr_or_alloc. apply wp_bind, (wp_geti _ _ x); [done|].
    apply wp_bind, (wp_unwrap _ a); [done|]. rewrite bool_decide_eq_false_2 by done. by apply wp_ret. }
  unfold baddr, slot_of in Ha, HQ. unfold bmap. case_bool_decide as Hdir; change NDIRECT with 12 in Hdir.
  - rewrite decide_True in Ha, HQ by (change NDIRECT with 12; lia).
    unfold slots in Ha, HQ. rewrite lookup_app_l in Ha, HQ by lia.
    destruct (d_addrs d !! Z.to_nat bn) as [a|] eqn:Hka; [|done].
    apply (Haa _ a); [lia|done|done|]. assert (set_blk (blk s) s = s) as <- by by destruct s. by apply HQ.
  - rewrite decide_False in Ha, HQ by (change NDIRECT with 12; lia). change MAXFILE with 140 in Hbn.
    cbv zeta. rewrite u32_sub by (change NDIRECT with 12; change MAXFILE with 140; lia).
    rewrite bool_decide_eq_true_2 by (change NINDIRECT with 128; change NDIRECT with 12; lia).
    change NDIRECT with 12. replace (Z.to_nat (bn + 1)) with (13 + Z.to_nat (bn - 12))%nat in Ha, HQ by lia.
    assert (ind_addr d ≠ 0) as Hind.
    { intros Hz. apply Ha. unfold slots. rewrite lookup_app_r by lia. unfold indirect. rewrite decide_True by done.
      change NINDIRECT with 128. destruct (replicate _ _ !! _) as [y|] eqn:Hy; [|done].
      by apply lookup_replicate in Hy as [-> _]. }
    rewrite (slots_entry v d (bn - 12)) in Ha, HQ by (apply F || done || (change NINDIRECT with 128; lia)).
    destruct (ind_owned v d F Hind) as [Hid _]. destruct (data_range _ Hid) as (Hir & _ & _).
    apply wp_bind, (Haa _ (ind_addr d)); [change (Z.to_nat 12) with 12%nat; lia| |done|].
    { unfold ind_addr in *. change (Z.to_nat 12) with 12%nat. by destruct (d_addrs d !! 12%nat). }
    apply wp_bind, (wp_geti _ _ x); [done|]. rewrite Hdev. apply wp_bind.
    eapply wp_fbread; [done|apply lookup_empty|done|right; by rewrite dom_empty_L, union_empty_r_L|].
    intros bp t1 Ht1. apply wp_bind. eapply (wp_fdata _ _ _ _ (ind_addr d)); [done|apply lookup_insert_eq|].
    simpl in Ha, HQ. rewrite bool_decide_eq_false_2 by done. apply wp_bind.
    eapply (wp_fbrelse _ _ _ _ (ind_addr d)); [done|apply lookup_insert_eq|].
    intros t2 Ht2. rewrite delete_insert_id in Ht2 by apply lookup_empty. apply wp_ret. by apply HQ.
Qed.

(** ** Reading *)

(** Byte [o] of the content. *)
Definition fbyte (v : Z → block) (d : dinode) (o : Z) : Z :=
  byte_at (v (baddr v d (o / Z.of_nat BSIZE))) (Z.to_nat (o mod Z.of_nat BSIZE)).

Definition slice (v : Z → block) (d : dinode) (off : Z) (n : nat) : list Z :=
  (λ k, fbyte v d (off + Z.of_nat k)) <$> seq 0 n.

Definition content (v : Z → block) (d : dinode) : list Z := slice v d 0 (Z.to_nat (d_size d)).

Lemma slice_app v d off m n : slice v d off (m + n) = slice v d off m ++ slice v d (off + Z.of_nat m) n.
Proof.
  unfold slice. rewrite seq_app, fmap_app. f_equal. simpl.
  pose proof (fmap_add_seq m 0 n) as Hs. rewrite Nat.add_0_r in Hs. rewrite <-Hs, <-list_fmap_compose.
  apply list_fmap_ext. intros i x _. simpl. f_equal. lia.
Qed.

(** Offsets within one block. *)
Lemma same_block off k :
  0 ≤ k → off mod 512 + k < 512 → (off + k) / 512 = off / 512 ∧ (off + k) mod 512 = off mod 512 + k.
Proof.
  intros Hk Hlt. pose proof (Z.div_mod off 512 ltac:(lia)). pose proof (Z.mod_pos_bound off 512 ltac:(lia)).
  assert ((off + k) / 512 = off / 512) as Hd by (symmetry; apply (Z.div_unique _ 512 _ (off mod 512 + k)); lia).
  split; [done|]. pose proof (Z.div_mod (off + k) 512 ltac:(lia)). lia.
Qed.

Lemma slice_block v d off m :
  length (v (baddr v d (off / Z.of_nat BSIZE))) = BSIZE → off mod Z.of_nat BSIZE + Z.of_nat m ≤ Z.of_nat BSIZE →
  slice v d off m =
  take m (drop (Z.to_nat (off mod Z.of_nat BSIZE)) (v (baddr v d (off / Z.of_nat BSIZE)))).
Proof.
  intros Hl Hm. change (Z.of_nat BSIZE) with 512 in *. pose proof (Z.mod_pos_bound off 512 ltac:(lia)).
  apply list_eq. intros k. unfold slice. rewrite list_lookup_fmap. destruct (decide (k < m)%nat) as [Hk|Hk].
  - rewrite lookup_seq_lt by done. simpl. rewrite lookup_take_lt, lookup_drop by done.
    destruct (same_block off (Z.of_nat k)) as [E1 E2]; [lia|lia|]. unfold fbyte, byte_at.
    change (Z.of_nat BSIZE) with 512. rewrite E1, E2.
    replace (Z.to_nat (off mod 512 + Z.of_nat k)) with (Z.to_nat (off mod 512) + k)%nat by lia.
    destruct (lookup_lt_is_Some_2 (v (baddr v d (off / 512))) (Z.to_nat (off mod 512) + k)) as [y Hy].
    { rewrite Hl. unfold BSIZE. lia. }
    by rewrite Hy.
  - rewrite lookup_seq_ge by lia. symmetry. apply lookup_ge_None. rewrite length_take. lia.
Qed.

Lemma wp_readi_loop L v i x fuel : ∀ s off n (Q : list Z → st → Prop),
  let d := idata x in
  txf ∅ L v s → inodes s !! i = Some x → idev x = ROOTDEV → file_ok v d → fs_ok v → (size L ≤ cap)%nat →
  0 ≤ off → 0 ≤ n → off + n ≤ d_size d → (Z.to_nat n < fuel)%nat →
  (∀ t, tx ∅ ∅ L v t → Q (slice v d off (Z.to_nat n)) (set_blk t s)) → wp (readi_loop fuel i off n) s Q.
Proof.
  induction fuel as [|fuel IH]; intros s off n Q d Ht Hi Hdev F Hv Hc Hoff Hn Hsz Hfuel HQ; [lia|].
  cbn [readi_loop]. case_bool_decide as Hpos.
  2: { apply wp_ret. replace (Z.to_nat n) with 0%nat in HQ by lia. specialize (HQ (blk s) Ht).
       by assert (set_blk (blk s) s = s) as <- by by destruct s. }
  pose proof (Z.mod_pos_bound off 512 ltac:(lia)) as Hm. pose proof (Z.div_mod off 512 ltac:(lia)) as Hdm.
  pose proof (f_size v d F) as Hmax. change (Z.of_nat BSIZE) with 512 in *. change MAXFILE with 140 in Hmax.
  assert (baddr v d (off / 512) ≠ 0) as Hmap by (apply (f_mapped v d F); [|change (Z.of_nat BSIZE) with 512]; lia).
  apply wp_bind, (wp_geti _ _ x); [done|]. rewrite Hdev. apply wp_bind.
  eapply (wp_bmap_mapped L v); try done; [change MAXFILE with 140; lia|]. fold d. intros t1 Ht1.
  assert (data_block (baddr v d (off / 512))) as Hda.
  { apply (f_data v d F), elem_owned. split; [done|]. unfold baddr in *. exists (slot_of (off / 512)).
    by destruct (slots v d !! slot_of (off / 512)). }
  destruct (data_range _ Hda) as (Har & _ & _).
  apply wp_bind. eapply wp_fbread; [done|apply lookup_empty|done|right; by rewrite dom_empty_L, union_empty_r_L|].
  intros bp t2 Ht2. apply wp_bind. eapply (wp_fdata _ _ _ _ (baddr v d (off / 512))); [done|apply lookup_insert_eq|].
  cbv zeta. apply wp_bind. eapply (wp_fbrelse _ _ _ _ (baddr v d (off / 512))); [done|apply lookup_insert_eq|].
  intros t3 Ht3. rewrite delete_insert_id in Ht3 by apply lookup_empty. apply wp_bind.
  set (m := Z.min n (512 - off mod 512)) in *.
  apply (IH (set_blk t3 s)); fold d; try done; try lia. intros t4 Ht4. apply wp_ret.
  replace (Z.to_nat n) with (Z.to_nat m + Z.to_nat (n - m))%nat in HQ by lia.
  specialize (HQ t4 Ht4). rewrite slice_app in HQ. rewrite (slice_block v d off (Z.to_nat m)) in HQ.
  - by rewrite Z2Nat.id in HQ by lia.
  - by apply len_data.
  - change (Z.of_nat BSIZE) with 512. lia.
Qed.

Context (dev_read : Z → option (nat → Z → kM (st (S:=S)) (Z * list Z))).
Context (dev_write : Z → option (nat → list Z → Z → kM (st (S:=S)) Z)).

Lemma set_blk_same s : set_blk (blk s) s = s.
Proof. by destruct s. Qed.

(** The number of bytes [readi] delivers, or -1. *)
Definition read_len (size off n : Z) : Z := if decide (off + n ≤ size) then n else size - off.

Lemma wp_readi L v s i x off n (Q : Z * list Z → st → Prop) :
  let d := idata x in
  txf ∅ L v s → inodes s !! i = Some x → idev x = ROOTDEV → file_ok v d → fs_ok v → (size L ≤ cap)%nat →
  d_type d ≠ T_DEV → uint off → uint n →
  (∀ t, tx ∅ ∅ L v t →
     let r := read_len (d_size d) off n in
     Q (if decide (off ≤ d_size d ∧ off + n < 2 ^ 32) then (r, slice v d off (Z.to_nat r)) else (-1, []))
       (set_blk t s)) →
  wp (readi dev_read i off n) s Q.
Proof.
  intros d Ht Hi Hdev F Hv Hc Hty Ho Hn HQ. unfold readi. apply wp_bind, (wp_geti _ _ x); [done|]. fold d.
  rewrite (bool_decide_eq_false_2 (d_type d = T_DEV)) by done. unfold uint in *.
  pose proof (do_size d (f_dinode v d F)) as Hs. unfold uint in Hs. cbv zeta in HQ. unfold read_len in HQ.
  destruct (decide (off ≤ d_size d ∧ off + n < 2 ^ 32)) as [[H1 H2]|H12].
  - rewrite (bool_decide_eq_false_2 (d_size d < off)) by lia. rewrite (u32_id (off + n)) by (unfold uint; lia).
    rewrite (bool_decide_eq_false_2 (off + n < off)) by lia. cbn [orb]. cbv zeta.
    assert ((if bool_decide (d_size d < off + n) then u32 (d_size d - off) else n) =
            (if decide (off + n ≤ d_size d) then n else d_size d - off)) as ->.
    { destruct (decide (off + n ≤ d_size d)).
      - by rewrite bool_decide_eq_false_2 by lia.
      - rewrite bool_decide_eq_true_2 by lia. apply u32_id. unfold uint. lia. }
    set (r := if decide (off + n ≤ d_size d) then n else d_size d - off) in *.
    assert (0 ≤ r ∧ off + r ≤ d_size d) as [Hr0 Hr1] by (unfold r; case_decide; lia).
    apply wp_bind. eapply (wp_readi_loop L v i x); fold d; done || lia.
  - assert (bool_decide (d_size d < off) || bool_decide (u32 (off + n) < off) = true) as ->.
    { destruct (decide (off ≤ d_size d)).
      - apply orb_true_iff. right. apply bool_decide_eq_true_2. unfold u32.
        rewrite <-(Z.mod_unique (off + n) (2 ^ 32) 1 (off + n - 2 ^ 32)); lia.
      - by rewrite bool_decide_eq_true_2 by lia. }
    apply wp_ret. specialize (HQ (blk s) Ht). by rewrite set_blk_same in HQ.
Qed.

(** ** Writing *)

(** Blocks in use that are not this file's keep their contents; the file keeps
    its blocks and gets only free ones. *)
Record kept (v v' : Z → block) (d d' : dinode) : Prop := {
  ke_used b : 0 ≤ b < sb_size fsb → used v b = true → used v' b = true;
  ke_keep b : (∀ c, 0 ≤ c < sb_size fsb → b ≠ BBLOCK c fsb) → (data_block b → used v b = true) →
              b ∉ owned v d → v' b = v b;
  ke_slots k b : slots v d !! k = Some b → b ≠ 0 → slots v' d' !! k = Some b;
  ke_new b : b ∈ owned v' d' → b ∈ owned v d ∨ used v b = false;
}.

Lemma grown_kept v v' d d' : grown v v' d d' → kept v v' d d'.
Proof.
  intros [G1 G2 G3 G4 _ _]. split; try done. intros b Hb Hu Ho. apply G2; [done|done|].
  intros ->. destruct (decide (ind_addr d = 0)) as [|Hi]; [done|]. exfalso. apply Ho, elem_owned. split; [done|].
  exists 12%nat. unfold ind_addr in *. destruct (d_addrs d !! 12%nat) eqn:Ha; [|done]. by apply slots_addr.
Qed.

Lemma kept_trans v v1 v2 d d1 d2 :
  file_ok v1 d1 → file_ok v2 d2 → kept v v1 d d1 → kept v1 v2 d1 d2 → kept v v2 d d2.
Proof.
  intros F1 F2 [A1 A2 A3 A4] [B1 B2 B3 B4].
  assert (∀ b, 0 ≤ b < sb_size fsb → used v1 b = false → used v b = false) as Hu.
  { intros b Hb Hf. destruct (used v b) eqn:Hvb; [|done]. by rewrite A1 in Hf. }
  split; eauto.
  - intros b Hb Hbu Ho. rewrite B2; [by apply A2|done| |].
    + intros Hd. apply A1; [by apply data_range|by apply Hbu].
    + intros Hin. destruct (f_data _ _ F1 b Hin) as [Hd _]. destruct (A4 b Hin) as [?|Hf]; [done|].
      by rewrite Hbu in Hf.
  - intros b Hin. destruct (B4 b Hin) as [Hin1|Hf]; [by apply A4|]. right. apply Hu; [|done].
    by apply data_range, (f_data _ _ F2).
Qed.

Lemma slots_inj v d j k a : file_ok v d → slots v d !! j = Some a → slots v d !! k = Some a → a ≠ 0 → j = k.
Proof.
  intros F Hj Hk Ha. pose proof (f_nodup v d F) as Hnd. unfold owned in Hnd. clear F. revert j k Hj Hk.
  induction (slots v d) as [|x l IH]; intros j k Hj Hk; [done|].
  assert (∀ i, l !! i = Some a → x ≠ a ∨ a ∉ filter (λ a, a ≠ 0) l) as Hx.
  { intros i Hi. destruct (decide (x = a)) as [->|]; [right|by left].
    rewrite list.filter_cons_True in Hnd by done. by apply list.NoDup_cons in Hnd as [? _]. }
  assert (∀ i, l !! i = Some a → a ∈ filter (λ a, a ≠ 0) l) as Hin.
  { intros i Hi. apply list_elem_of_filter. split; [done|by eapply list_elem_of_lookup_2]. }
  destruct j as [|j], k as [|k]; simpl in *; simplify_eq; [done| | |].
  - destruct (Hx k Hk); [done|]. exfalso. eauto.
  - destruct (Hx j Hj); [done|]. exfalso. eauto.
  - f_equal. apply IH; [|done|done]. rewrite list.filter_cons in Hnd. case_decide; [by apply list.NoDup_cons in Hnd as [_ ?]|done].
Qed.

Lemma slot_of_ne bn bn' : 0 ≤ bn → 0 ≤ bn' → (slot_of bn = slot_of bn' → bn = bn') ∧ slot_of bn ≠ 12%nat.
Proof. intros H H'. unfold slot_of. change NDIRECT with 12. repeat case_decide; lia. Qed.

(** Changing the contents of one block of the file. *)
Lemma write_block v d bn a x :
  file_ok v d → fs_ok v → 0 ≤ bn → slots v d !! slot_of bn = Some a → a ≠ 0 → length x = BSIZE →
  let v' := upd v a x in
  slots v' d = slots v d ∧ file_ok v' d ∧ fs_ok v' ∧ kept v v' d d ∧
  (∀ c, 0 ≤ c < sb_size fsb → used v' c = used v c).
Proof.
  intros F Hv Hbn Hs Ha Hx v'.
  assert (a ∈ owned v d) as Hin by (apply elem_owned; split; [done|by exists (slot_of bn)]).
  destruct (f_data v d F a Hin) as [Hda _].
  assert (∀ c, 0 ≤ c < sb_size fsb → used v' c = used v c) as Hu by (intros; by apply used_data).
  assert (slots v' d = slots v d) as Hss.
  { unfold slots. f_equal. apply indirect_ext. intros Hi. unfold v'. apply upd_ne. intros He.
    apply (proj2 (slot_of_ne bn bn Hbn Hbn)). apply (slots_inj v d _ _ a F Hs); [|done]. rewrite <-He.
    apply slots_addr. unfold ind_addr in *. by destruct (d_addrs d !! 12%nat). }
  assert (owned v' d = owned v d) as Hoo by (unfold owned; by rewrite Hss).
  split; [done|]. split; [|split; [by apply fs_ok_data|split; [|done]]].
  - destruct F as [F1 F2 F3 F4 F5]. split; [done|by rewrite Hoo| |done|].
    + intros b Hb. rewrite Hoo in Hb. destruct (F3 b Hb) as [Hdb Hub]. split; [done|]. rewrite Hu; [done|by apply data_range].
    + intros n Hn Hlt. unfold baddr. rewrite Hss. by apply F5.
  - split.
    + intros b Hb. by rewrite Hu.
    + intros b _ _ Hb. unfold v'. rewrite upd_ne; [done|]. by intros ->.
    + intros k b. by rewrite Hss.
    + intros b. rewrite Hoo. by left.
Qed.

Lemma byte_at_put_bytes b o l i :
  (o + length l ≤ length b)%nat →
  byte_at (put_bytes b o l) i = if decide (o ≤ i < o + length l)%nat then byte_at l (i - o) else byte_at b i.
Proof. intros H. unfold byte_at. rewrite put_bytes_lookup by done. by case_decide. Qed.

Lemma baddr_slot v d bn : baddr v d bn ≠ 0 → slots v d !! slot_of bn = Some (baddr v d bn).
Proof. unfold baddr. by destruct (slots v d !! slot_of bn). Qed.

(** Growing keeps the bytes that were there. *)
Lemma grown_fbyte v v' d d' o :
  grown v v' d d' → file_ok v d → 0 ≤ o → baddr v d (o / Z.of_nat BSIZE) ≠ 0 → fbyte v' d' o = fbyte v d o.
Proof.
  intros G F Ho Hb. set (bn := o / Z.of_nat BSIZE) in *. pose proof (baddr_slot _ _ _ Hb) as Hs.
  assert (baddr v' d' bn = baddr v d bn) as Hbb by (unfold baddr at 1; by rewrite (gr_slots _ _ _ _ G _ _ Hs)).
  unfold fbyte. fold bn. rewrite Hbb. f_equal.
  assert (baddr v d bn ∈ owned v d) as Hin by (apply elem_owned; eauto).
  destruct (f_data v d F _ Hin) as [Hda Hua].
  apply (gr_keep _ _ _ _ G); [by apply data_meta|done|]. intros He.
  assert (0 ≤ bn) by (apply Z.div_pos; [done|by change (Z.of_nat BSIZE) with 512]).
  exfalso. apply (proj2 (slot_of_ne bn bn ltac:(done) ltac:(done))). apply (slots_inj v d _ _ _ F Hs); [|done].
  rewrite He in *. apply slots_addr. unfold ind_addr in *. by destruct (d_addrs d !! 12%nat).
Qed.

Lemma write_fbyte v d off l a o :
  file_ok v d → fs_ok v → 0 ≤ off → off mod 512 + Z.of_nat (length l) ≤ 512 →
  slots v d !! slot_of (off / 512) = Some a → a ≠ 0 → 0 ≤ o →
  fbyte (upd v a (put_bytes (v a) (Z.to_nat (off mod 512)) l)) d o =
  if decide (off ≤ o < off + Z.of_nat (length l)) then byte_at l (Z.to_nat (o - off)) else fbyte v d o.
Proof.
  intros F Hv Hoff Hl Hs Ha Ho. pose proof (Z.mod_pos_bound off 512 ltac:(lia)).
  pose proof (Z.mod_pos_bound o 512 ltac:(lia)). pose proof (Z.div_mod off 512 ltac:(lia)). pose proof (Z.div_mod o 512 ltac:(lia)).
  assert (data_block a) as Hda by (apply (f_data v d F), elem_owned; split; [done|by eexists]).
  assert (length (v a) = 512%nat) as Hla by by apply len_data.
  set (x := put_bytes (v a) (Z.to_nat (off mod 512)) l).
  assert (length x = BSIZE) as Hx by (unfold x; rewrite length_put_bytes; [done|rewrite Hla; lia]).
  destruct (write_block v d (off / 512) a x) as (Hss & _); try done; [apply Z.div_pos; lia|].
  unfold fbyte, baddr. change (Z.of_nat BSIZE) with 512. rewrite Hss.
  destruct (decide (o / 512 = off / 512)) as [Hq|Hq].
  - rewrite Hq, Hs. simpl. rewrite upd_eq. unfold x. rewrite byte_at_put_bytes by (rewrite Hla; lia).
    destruct (decide (off ≤ o < off + Z.of_nat (length l))).
    + rewrite decide_True by lia. f_equal. lia.
    + by rewrite decide_False by lia.
  - rewrite decide_False by lia. f_equal. apply upd_ne. intros He.
    destruct (slots v d !! slot_of (o / 512)) as [c|] eqn:Hc; simpl in He; [|done]. subst c. apply Hq.
    apply slot_of_ne; [apply Z.div_pos; lia..|]. by eapply (slots_inj v d).
Qed.

(** The blocks an access touches. *)
Definition nblocks (off n : Z) : nat := if decide (n ≤ 0) then 0%nat else Z.to_nat ((off mod 512 + n + 511) / 512).

Lemma nblocks_step off n m :
  0 ≤ off → 0 < n → m = Z.min n (512 - off mod 512) → nblocks off n = (1 + nblocks (off + m) (n - m))%nat.
Proof.
  intros Ho Hn ->. unfold nblocks. pose proof (Z.mod_pos_bound off 512 ltac:(lia)). pose proof (Z.div_mod off 512 ltac:(lia)).
  rewrite decide_False by lia. destruct (decide (n ≤ 512 - off mod 512)).
  - rewrite Z.min_l by lia. rewrite decide_True by lia.
    rewrite <-(Z.div_unique (off mod 512 + n + 511) 512 1 (off mod 512 + n - 1)) by lia. done.
  - rewrite Z.min_r by lia. rewrite decide_False by lia.
    replace (off + (512 - off mod 512)) with ((off / 512 + 1) * 512) by lia. rewrite Z.mod_mul by lia.
    replace (off mod 512 + n + 511) with (0 + (n - (512 - off mod 512)) + 511 + 1 * 512) by lia.
    rewrite Z.div_add by lia. assert (0 ≤ (0 + (n - (512 - off mod 512)) + 511) / 512) by (apply Z.div_pos; lia). lia.
Qed.

(** The transaction with the indirect block counted in. *)
Definition with_ind (d : dinode) U : gset Z := if decide (ind_addr d = 0) then U else {[ind_addr d]} ∪ U.

Definition same_meta (d d' : dinode) : Prop :=
  d' = Dinode (d_type d) (d_major d) (d_minor d) (d_nlink d) (d_size d) (d_addrs d').

Lemma size_with_ind d U : (size U ≤ size (with_ind d U) ≤ 1 + size U)%nat.
Proof.
  unfold with_ind. case_decide; [lia|]. split; [apply subseteq_size; set_solver|apply size_add].
Qed.

Lemma with_ind_grown v v' d d' U : grown v v' d d' → with_ind d U ⊆ with_ind d' U.
Proof.
  intros G. unfold with_ind. case_decide as Hi; [case_decide; set_solver|].
  destruct (gr_ind _ _ _ _ G) as [->|[? _]]; [|done]. rewrite decide_False by done. done.
Qed.

(** One round of [writei]: a chunk that lies within one block. *)
Lemma wp_write_step {A} U L v s i x chunk off (k : kM st A) (Q : A → st → Prop) :
  let d := idata x in let bn := off / 512 in
  txf ∅ L v s → sb s = fsb → fs_ok v → inodes s !! i = Some x → idev x = ROOTDEV → file_ok v d →
  0 ≤ off → bn < MAXFILE → off mod 512 + Z.of_nat (length chunk) ≤ 512 →
  L ⊆ with_ind d U → (∀ c, 0 ≤ c < sb_size fsb → BBLOCK c fsb ∈ U) → (size U + 4 ≤ cap)%nat →
  free_blocks (1 + pot d) v →
  (∀ a v' d' t L', tx ∅ ∅ L' v' t → file_ok v' d' → fs_ok v' → kept v v' d d' → same_meta d d' →
     slots v' d' !! slot_of bn = Some a → a ≠ 0 → L' ⊆ {[a]} ∪ with_ind d' U →
     (∀ o, 0 ≤ o → off ≤ o < off + Z.of_nat (length chunk) → fbyte v' d' o = byte_at chunk (Z.to_nat (o - off))) →
     (∀ o, 0 ≤ o → ¬ off ≤ o < off + Z.of_nat (length chunk) → baddr v d (o / 512) ≠ 0 → fbyte v' d' o = fbyte v d o) →
     (∀ m, free_blocks (1 + pot d + m) v → free_blocks (pot d' + m) v') →
     (baddr v d bn ≠ 0 → d' = d) →
     wp k (with_ino s t i x d') Q) →
  wp (x ← geti i; a ← bmap i bn; bp ← fbread (idev x) a;
      fmodify bp (λ b, put_bytes b (Z.to_nat (off mod 512)) chunk) ;; flog_write bp ;; fbrelse bp ;; k) s Q.
Proof.
  intros d bn Ht Hsb Hv Hi Hdev F Hoff Hbn Hch HL HB Hcap Hf HQ.
  assert (0 ≤ bn) as Hbn0 by (apply Z.div_pos; lia). pose proof (Z.mod_pos_bound off 512 ltac:(lia)).
  pose proof (size_with_ind d U) as Hwi.
  assert (within (with_ind d U) L) as HW.
  { split; [done| |lia]. intros c Hc. specialize (HB c Hc). unfold with_ind. case_decide; set_solver. }
  apply wp_bind, (wp_geti _ _ x); [done|]. rewrite Hdev. apply wp_bind.
  eapply (wp_bmap (with_ind d U) L v); try done; [lia|].
  intros a v1 d1 t1 L1 Ht1 [F1 Hv1 G1 Hs1 Ha HL1 Hfr Hind1 Hsame]. fold d in G1, Hfr, Hsame.
  assert (a ∈ owned v1 d1) as Hin by (apply elem_owned; split; [done|by exists (slot_of bn)]).
  destruct (data_range a (proj1 (f_data _ _ F1 a Hin))) as (Har & Hares & _).
  assert (L1 ⊆ {[a]} ∪ with_ind d1 U) as HL1'.
  { pose proof (with_ind_grown _ _ _ _ U G1) as Hwg. revert HL1. case_decide as Hlt; [set_solver|].
    assert ({[ind_addr d1]} ⊆ with_ind d1 U); [|set_solver].
    unfold with_ind. rewrite decide_False by (apply Hind1; lia). set_solver. }
  pose proof (size_with_ind d1 U) as Hwi1. pose proof (size_add a (with_ind d1 U)) as Hwa.
  pose proof (subseteq_size _ _ HL1') as Hsz1.
  apply wp_bind. eapply wp_fbread; [exact Ht1|apply lookup_empty|done|right; rewrite dom_empty_L, union_empty_r_L; lia|].
  intros bp t2 Ht2.
  eapply (wp_fmodlog _ _ _ _ a); [exact Ht2|apply lookup_insert_eq|done|done|lia|].
  intros t3 Ht3. apply wp_bind. eapply (wp_fbrelse _ _ _ _ a); [exact Ht3|apply lookup_insert_eq|].
  intros t4 Ht4. rewrite delete_insert_id in Ht4 by apply lookup_empty.
  change (set_blk t4 _) with (with_ino s t4 i x d1).
  destruct (write_block v1 d1 bn a (put_bytes (v1 a) (Z.to_nat (off mod 512)) chunk)) as (Hss & F2 & Hv2 & K2 & Hu2); try done.
  { pose proof (fo_len _ Hv1 a Hares) as Hla. rewrite length_put_bytes; [done|]. rewrite Hla. unfold BSIZE. lia. }
  assert (∀ o, 0 ≤ o → _) as Hbytes by exact (λ o, write_fbyte v1 d1 off chunk a o F1 Hv1 Hoff Hch Hs1 Ha).
  eapply (HQ a _ d1 t4 _ Ht4); try done.
  - eapply kept_trans; [exact F1|exact F2|by apply grown_kept|done].
  - apply (gr_dinode _ _ _ _ G1).
  - by rewrite Hss.
  - set_solver.
  - intros o Ho Hin'. rewrite Hbytes by done. by rewrite decide_True by done.
  - intros o Ho Hout Hb. rewrite Hbytes by done. rewrite decide_False by done. by eapply grown_fbyte.
  - intros m Hm. eapply free_blocks_ext; [exact Hu2|by apply Hfr].
Qed.

(** What a write of [src] at [off] leaves. *)
Record wrote (v v' : Z → block) (d d' : dinode) (off : Z) (src : list Z) : Prop := {
  wr_file : file_ok v' d';
  wr_fs : fs_ok v';
  wr_kept : kept v v' d d';
  wr_meta : same_meta d d';
  wr_in o : 0 ≤ o → off ≤ o < off + Z.of_nat (length src) → fbyte v' d' o = byte_at src (Z.to_nat (o - off));
  wr_out o : 0 ≤ o → ¬ off ≤ o < off + Z.of_nat (length src) → baddr v d (o / 512) ≠ 0 → fbyte v' d' o = fbyte v d o;
  wr_mapped bn : off / 512 ≤ bn → bn * 512 < off + Z.of_nat (length src) → baddr v' d' bn ≠ 0;
  wr_same : (∀ bn, off / 512 ≤ bn → bn * 512 < off + Z.of_nat (length src) → baddr v d bn ≠ 0) → d' = d;
}.

Lemma kept_baddr v v' d d' bn : kept v v' d d' → baddr v d bn ≠ 0 → baddr v' d' bn ≠ 0.
Proof. intros K Hb. unfold baddr. by rewrite (ke_slots _ _ _ _ K _ _ (baddr_slot _ _ _ Hb)). Qed.

Lemma slot_baddr v d bn a : slots v d !! slot_of bn = Some a → a ≠ 0 → baddr v d bn ≠ 0.
Proof. intros Hs Ha. unfold baddr. by rewrite Hs. Qed.

Lemma wrote_nil v d off : file_ok v d → fs_ok v → 0 ≤ off → (off mod 512 ≠ 0 → baddr v d (off / 512) ≠ 0) → wrote v v d d off [].
Proof.
  intros F Hv Hoff Hm. split; try done.
  - apply grown_kept, grown_refl.
  - by destruct d.
  - simpl. intros; lia.
  - simpl. intros bn H1 H2. pose proof (Z.div_mod off 512 ltac:(lia)). pose proof (Z.mod_pos_bound off 512 ltac:(lia)).
    assert (bn = off / 512) as -> by lia. apply Hm. lia.
Qed.

Lemma byte_at_app l1 l2 i :
  byte_at (l1 ++ l2) i = if decide (i < length l1)%nat then byte_at l1 i else byte_at l2 (i - length l1).
Proof. unfold byte_at. case_decide; [by rewrite lookup_app_l|by rewrite lookup_app_r by lia]. Qed.

(** Two adjacent writes, the first within one block. *)
Lemma wrote_app v v1 v2 d d1 d2 off l1 l2 a :
  file_ok v1 d1 → kept v v1 d d1 → same_meta d d1 → 0 ≤ off →
  slots v1 d1 !! slot_of (off / 512) = Some a → a ≠ 0 →
  off mod 512 + Z.of_nat (length l1) ≤ 512 → (0 < length l1)%nat →
  (∀ o, 0 ≤ o → off ≤ o < off + Z.of_nat (length l1) → fbyte v1 d1 o = byte_at l1 (Z.to_nat (o - off))) →
  (∀ o, 0 ≤ o → ¬ off ≤ o < off + Z.of_nat (length l1) → baddr v d (o / 512) ≠ 0 → fbyte v1 d1 o = fbyte v d o) →
  (baddr v d (off / 512) ≠ 0 → d1 = d) →
  wrote v1 v2 d1 d2 (off + Z.of_nat (length l1)) l2 → wrote v v2 d d2 off (l1 ++ l2).
Proof.
  intros F1 K1 M1 Hoff Hs1 Ha Hl1 Hl1' Hin1 Hout1 Hsame1 [F2 Hv2 K2 M2 Hin2 Hout2 Hmap2 Hsame2].
  pose proof (Z.div_mod off 512 ltac:(lia)). pose proof (Z.mod_pos_bound off 512 ltac:(lia)).
  pose proof (slot_baddr _ _ _ _ Hs1 Ha) as Hb1.
  split; try done.
  - exact (kept_trans v v1 v2 d d1 d2 F1 F2 K1 K2).
  - unfold same_meta in *. rewrite M2, M1. done.
  - intros o Ho. rewrite length_app, byte_at_app. intros Hr. case_decide as Hi.
    + rewrite Hout2; [apply Hin1; lia|done|lia|].
      destruct (same_block off (o - off)) as [E _]; [lia|lia|]. replace (off + (o - off)) with o in E by lia. by rewrite E.
    + rewrite Hin2 by lia. f_equal. lia.
  - intros o Ho. rewrite length_app. intros Hr Hb. rewrite Hout2; [apply Hout1; [done|lia|done]|done|lia|].
    by eapply kept_baddr.
  - intros bn H1 H2. rewrite length_app in H2. destruct (decide (bn = off / 512)) as [->|Hne].
    + by eapply (kept_baddr v1).
    + apply Hmap2; [|lia]. pose proof (Z.div_mod (off + Z.of_nat (length l1)) 512 ltac:(lia)).
      pose proof (Z.mod_pos_bound (off + Z.of_nat (length l1)) 512 ltac:(lia)). lia.
  - rewrite length_app. intros Hall. rewrite <-Hsame1 by (apply Hall; lia). apply Hsame2. intros bn H1 H2.
    eapply (kept_baddr v v1 d d1); [done|]. apply Hall; [|lia].
    pose proof (Z.div_le_mono off (off + Z.of_nat (length l1)) 512 ltac:(lia) ltac:(lia)). lia.
Qed.

Lemma wp_writei_loop i fuel : ∀ U L v s x src off n (Q : Z → st → Prop),
  let d := idata x in
  txf ∅ L v s → sb s = fsb → fs_ok v → inodes s !! i = Some x → idev x = ROOTDEV → file_ok v d →
  0 ≤ off → n = Z.of_nat (length src) → off + n ≤ MAXFILE * 512 → (Z.to_nat n < fuel)%nat →
  (off mod 512 ≠ 0 → baddr v d (off / 512) ≠ 0) →
  L ⊆ with_ind d U → (∀ c, 0 ≤ c < sb_size fsb → BBLOCK c fsb ∈ U) →
  (size U + nblocks off n + 3 ≤ cap)%nat → free_blocks (pot d + nblocks off n) v →
  (∀ v' d' t L', tx ∅ ∅ L' v' t → wrote v v' d d' off src → (size L' ≤ 1 + size U + nblocks off n)%nat →
     (∀ m, free_blocks (pot d + nblocks off n + m) v → free_blocks (pot d' + m) v') →
     Q (off + n) (with_ino s t i x d')) →
  wp (writei_loop fuel i src off n) s Q.
Proof.
  induction fuel as [|fuel IH]; intros U L v s x src off n Q d Ht Hsb Hv Hi Hdev F Hoff Hn Hmax Hfuel Hal HL HB Hcap Hf HQ; [lia|].
  cbn [writei_loop]. case_bool_decide as Hpos.
  2: { destruct src; [|simpl in Hn; lia]. apply wp_ret. specialize (HQ v d (blk s) L Ht).
       rewrite (with_ino_id s i x Hi : with_ino s (blk s) i x d = s) in HQ. replace (off + n) with off in HQ by (simpl in Hn; lia).
       apply HQ; [by apply wrote_nil| |].
       - apply subseteq_size in HL. pose proof (size_with_ind d U). lia.
       - intros m. apply free_blocks_le. lia. }
  pose proof (Z.mod_pos_bound off 512 ltac:(lia)) as Hm. pose proof (Z.div_mod off 512 ltac:(lia)) as Hdm.
  change (Z.of_nat BSIZE) with 512. cbv zeta. set (m := Z.min n (512 - off mod 512)).
  pose proof (nblocks_step off n m Hoff Hpos eq_refl) as Hnb. rewrite Hnb in Hcap, Hf.
  change MAXFILE with 140 in Hmax.
  assert (Z.of_nat (length (take (Z.to_nat m) src)) = m) as Hlm by (rewrite length_take; lia).
  eapply (wp_write_step U L v); try done; rewrite ?Hlm; [change MAXFILE with 140; lia|lia|lia|by eapply free_blocks_le; [|done]; fold d; lia|].
  intros a v1 d1 t1 L1 Ht1 F1 Hv1 K1 M1 Hs1 Ha HL1 Hin1 Hout1 Hfr1 Hsame1. fold d in K1, M1, Hout1, Hfr1, Hsame1.
  set (x1 := set_idata d1 x).
  apply (IH ({[a]} ∪ U) L1 v1 _ x1 (drop (Z.to_nat m) src)); try done.
  - by apply with_ino_lookup.
  - lia.
  - rewrite length_drop. lia.
  - change MAXFILE with 140. lia.
  - lia.
  - intros Hmm. assert (off mod 512 + m < 512) as Hlt.
    { destruct (decide (off mod 512 + m < 512)); [done|]. exfalso. apply Hmm.
      replace (off + m) with ((off / 512 + 1) * 512) by lia. apply Z.mod_mul. lia. }
    eapply slot_baddr; [|exact Ha]. by rewrite (proj1 (same_block off m ltac:(lia) Hlt)).
  - unfold x1. simpl. unfold with_ind in HL1 |- *. case_decide; set_solver.
  - intros c Hc. specialize (HB c Hc). set_solver.
  - pose proof (size_add a U). lia.
  - unfold x1. simpl. apply Hfr1. by eapply free_blocks_le; [|done]; lia.
  - intros v2 d2 t2 L2 Ht2 W2 Hsz2 Hfr2. replace (off + m + (n - m)) with (off + n) by lia.
    unfold x1. rewrite with_ino_twice. apply (HQ v2 d2 t2 L2 Ht2).
    + rewrite <-(take_drop (Z.to_nat m) src).
      eapply (wrote_app v v1 v2 d d1 d2 off _ _ a); rewrite ?Hlm; try done; lia.
    + pose proof (size_add a U). lia.
    + intros k Hk. apply Hfr2. simpl. rewrite <-Nat.add_assoc. apply Hfr1. eapply free_blocks_le; [|exact Hk]. rewrite Hnb. lia.
Qed.

(** ** On-disk inodes *)

(** A block of inodes is neither data nor free map. *)
Definition inode_block (b : Z) : Prop := ∃ i, 0 ≤ i < sb_ninodes fsb ∧ b = IBLOCK i fsb.

Lemma inode_block_apart b : inode_block b →
  0 ≤ b < nblk ∧ ¬ reserved b ∧ ¬ data_block b ∧ b ≠ 1 ∧ ∀ c, 0 ≤ c < sb_size fsb → b ≠ BBLOCK c fsb.
Proof.
  intros (i & Hi & ->). pose proof (la_size Hlay). destruct (la_inode Hlay i Hi). unfold data_block.
  split; [lia|]. split; [done|]. split; [lia|]. split; [lia|]. intros c Hc. by apply (la_apart Hlay).
Qed.

Lemma used_inode v b x c : inode_block b → 0 ≤ c < sb_size fsb → used (upd v b x) c = used v c.
Proof.
  intros Hb Hc. destruct (inode_block_apart b Hb) as (_ & _ & _ & _ & Hne). unfold used. rewrite upd_ne; [done|].
  intros He. by apply (Hne c Hc).
Qed.

Lemma fs_ok_inode v b x : fs_ok v → inode_block b → length x = BSIZE → fs_ok (upd v b x).
Proof.
  intros [H1 H2 H3] Hb Hx. destruct (inode_block_apart b Hb) as (_ & _ & _ & Hb1 & _). pose proof (la_size Hlay). split.
  - by rewrite upd_ne.
  - intros c Hr. unfold upd. case_decide; [done|by apply H2].
  - intros c Hc. rewrite used_inode by (done || lia). by apply H3.
Qed.

(** File contents do not depend on blocks of inodes. *)
Lemma slots_inode v b x d : file_ok v d → inode_block b → slots (upd v b x) d = slots v d.
Proof.
  intros F Hb. unfold slots. f_equal. apply indirect_ext. intros Hi. apply upd_ne. intros <-.
  destruct (inode_block_apart _ Hb) as (_ & _ & Hnd & _). apply Hnd. by apply (ind_owned v d F).
Qed.

Lemma file_ok_inode v b x d : file_ok v d → inode_block b → file_ok (upd v b x) d.
Proof.
  intros F Hb. pose proof (slots_inode v b x d F Hb) as Hs. destruct F as [F1 F2 F3 F4 F5]. split; try done.
  - unfold owned. by rewrite Hs.
  - intros a. unfold owned. rewrite Hs. intros Ha. destruct (F3 a Ha) as [Hd Hu]. split; [done|].
    rewrite used_inode; [done|done|]. by apply data_range.
  - intros bn. unfold baddr. rewrite Hs. apply F5.
Qed.

Lemma fbyte_inode v b x d o : file_ok v d → inode_block b → baddr v d (o / 512) ≠ 0 → fbyte (upd v b x) d o = fbyte v d o.
Proof.
  intros F Hb Ho. unfold fbyte. change (Z.of_nat BSIZE) with 512. unfold baddr at 1. rewrite slots_inode by done.
  fold (baddr v d (o / 512)). f_equal. apply upd_ne. intros <-.
  destruct (inode_block_apart _ Hb) as (_ & _ & Hnd & _). apply Hnd.
  apply (f_data v d F), elem_owned. split; [done|]. eexists. by apply baddr_slot.
Qed.

Definition store_inode (v : Z → block) (n : Z) (d : dinode) : Z → block :=
  upd v (IBLOCK n fsb) (put_dinode (v (IBLOCK n fsb)) (dinode_off n) d).

(** The inode on disk. *)
Definition disk_inode (v : Z → block) (n : Z) : dinode := parse_dinode (v (IBLOCK n fsb)) (dinode_off n).

Lemma wp_iupdate L v s i x (Q : unit → st → Prop) :
  txf ∅ L v s → sb s = fsb → inodes s !! i = Some x → idev x = ROOTDEV → 0 ≤ inum x < sb_ninodes fsb →
  (size L < cap)%nat →
  (∀ t, tx ∅ ∅ ({[IBLOCK (inum x) fsb]} ∪ L) (store_inode v (inum x) (idata x)) t → Q tt (set_blk t s)) →
  wp (iupdate i) s Q.
Proof.
  intros Ht Hsb Hi Hdev Hn Hc HQ. set (b := IBLOCK (inum x) fsb).
  destruct (inode_block_apart b) as (Hr & Hres & _); [by exists (inum x)|].
  unfold iupdate. apply wp_bind, (wp_geti _ _ x); [done|]. apply wp_bind, wp_gets. rewrite Hsb, Hdev. fold b.
  apply wp_bind. eapply wp_fbread; [exact Ht|apply lookup_empty|done|right; rewrite dom_empty_L, union_empty_r_L; lia|].
  intros bp t1 Ht1. eapply (wp_fmodlog _ _ _ _ b); [exact Ht1|apply lookup_insert_eq|done|done|done|].
  intros t2 Ht2. eapply (wp_fbrelse _ _ _ _ b); [exact Ht2|apply lookup_insert_eq|].
  intros t3 Ht3. rewrite delete_insert_id in Ht3 by apply lookup_empty. by apply HQ.
Qed.

(** What was stored is read back, and the other inodes are untouched. *)
Lemma disk_inode_store v n d m :
  fs_ok v → dinode_ok d → 0 ≤ n < sb_ninodes fsb → 0 ≤ m → disk_inode (store_inode v n d) m = if decide (m = n) then d else disk_inode v m.
Proof.
  intros Hv Hd Hn Hm. unfold disk_inode, store_inode. pose proof (dinode_off_fits n) as Hf.
  assert (length (v (IBLOCK n fsb)) = BSIZE) as Hlen by (apply (fo_len v Hv); by destruct (la_inode Hlay n Hn)).
  case_decide as He.
  - subst m. rewrite upd_eq. apply parse_put_dinode; [by rewrite Hlen|done].
  - destruct (decide (IBLOCK m fsb = IBLOCK n fsb)) as [Hb|Hb]; [|by rewrite upd_ne].
    rewrite Hb, upd_eq. apply parse_dinode_ext. intros k Hk. apply put_dinode_ne; [by rewrite Hlen|apply Hd|].
    destruct (dinode_off_ne m n) as [?|?]; [lia|lia|done| |lia|lia]. unfold IBLOCK in Hb. lia.
Qed.

(** Bytes [off .. off + length src) replaced, the file extended if need be. *)
Definition splice (c : list Z) (off : nat) (src : list Z) : list Z := take off c ++ src ++ drop (off + length src) c.

Definition file_after (v : Z → block) (x : inode) (off : Z) (src : list Z) (r : Z) (v' : Z → block) (d' : dinode) : Prop :=
  let d := idata x in
  r = Z.of_nat (length src) ∧ file_ok v' d' ∧ fs_ok v' ∧
  content v' d' = splice (content v d) (Z.to_nat off) src ∧
  (∀ b, data_block b → used v b = true → b ∉ owned v d → v' b = v b ∧ used v' b = true ∧ (b ∉ owned v' d')) ∧
  d_type d' = d_type d ∧ d_nlink d' = d_nlink d ∧ (off + Z.of_nat (length src) ≤ d_size d → d' = d) ∧
  (∀ m, 0 ≤ m < sb_ninodes fsb → disk_inode v' m =
     if decide (m = inum x ∧ d_size d < off + Z.of_nat (length src)) then d' else disk_inode v m).

Lemma slice_lookup v d off n k : (k < n)%nat → slice v d off n !! k = Some (fbyte v d (off + Z.of_nat k)).
Proof. intros Hk. unfold slice. by rewrite list_lookup_fmap, lookup_seq_lt. Qed.

Lemma length_slice v d off n : length (slice v d off n) = n.
Proof. unfold slice. by rewrite length_fmap, length_seq. Qed.

Lemma content_splice v d v' d' off src :
  0 ≤ off ≤ d_size d → d_size d' = Z.max (d_size d) (off + Z.of_nat (length src)) →
  (∀ o, 0 ≤ o < d_size d' → fbyte v' d' o =
     if decide (off ≤ o < off + Z.of_nat (length src)) then byte_at src (Z.to_nat (o - off)) else fbyte v d o) →
  content v' d' = splice (content v d) (Z.to_nat off) src.
Proof.
  intros Hoff Hsz Hb. unfold content. rewrite Hsz. unfold splice. apply list_eq. intros k.
  destruct (decide (k < Z.to_nat (Z.max (d_size d) (off + Z.of_nat (length src))))%nat) as [Hk|Hk].
  - rewrite slice_lookup by done. rewrite Hb by (rewrite Hsz; lia). rewrite Z.add_0_l.
    destruct (decide (off ≤ Z.of_nat k < off + Z.of_nat (length src))) as [Hin|Hout].
    + rewrite lookup_app_r by (rewrite length_take, length_slice; lia).
      rewrite length_take, length_slice, Nat.min_l by lia. rewrite lookup_app_l by lia.
      replace (Z.to_nat (Z.of_nat k - off)) with (k - Z.to_nat off)%nat by lia. unfold byte_at.
      destruct (lookup_lt_is_Some_2 src (k - Z.to_nat off)) as [y ->]; [lia|done].
    + destruct (decide (Z.of_nat k < off)).
      * rewrite lookup_app_l by (rewrite length_take, length_slice; lia). rewrite lookup_take_lt by lia.
        rewrite slice_lookup by lia. done.
      * rewrite lookup_app_r by (rewrite length_take, length_slice; lia).
        rewrite length_take, length_slice, Nat.min_l by lia. rewrite lookup_app_r by lia. rewrite lookup_drop.
        rewrite slice_lookup by lia. repeat f_equal. lia.
  - rewrite !lookup_ge_None_2; [done| |rewrite length_slice; lia].
    rewrite !length_app, length_take, length_drop, length_slice. lia.
Qed.

Lemma slots_set_dsize v z d : slots v (set_dsize z d) = slots v d.
Proof. done. Qed.

(** What the loop wrote, in terms of the bytes of the file. *)
Lemma wrote_bytes v v1 d d1 off src :
  file_ok v d → 0 ≤ off ≤ d_size d → wrote v v1 d d1 off src →
  ∀ o, 0 ≤ o < Z.max (d_size d) (off + Z.of_nat (length src)) →
  baddr v1 d1 (o / 512) ≠ 0 ∧
  fbyte v1 d1 o = if decide (off ≤ o < off + Z.of_nat (length src)) then byte_at src (Z.to_nat (o - off)) else fbyte v d o.
Proof.
  intros F Hoff W o Ho. pose proof (Z.div_mod o 512 ltac:(lia)). pose proof (Z.mod_pos_bound o 512 ltac:(lia)).
  assert (d_size d > o → baddr v d (o / 512) ≠ 0) as Hm.
  { intros Hlt. apply (f_mapped v d F); [|change (Z.of_nat BSIZE) with 512]; lia. }
  split.
  - destruct (decide (o < d_size d)).
    + eapply kept_baddr; [apply W|]. apply Hm. lia.
    + apply (wr_mapped _ _ _ _ _ _ W); [|lia]. apply Z.div_le_mono; lia.
  - destruct (decide (off ≤ o < off + Z.of_nat (length src))).
    + apply (wr_in _ _ _ _ _ _ W); lia.
    + apply (wr_out _ _ _ _ _ _ W); [lia|done|]. apply Hm. lia.
Qed.

Lemma kept_frame v v' d d' b :
  kept v v' d d' → data_block b → used v b = true → b ∉ owned v d → v' b = v b ∧ used v' b = true ∧ (b ∉ owned v' d').
Proof.
  intros K Hb Hu Ho. split; [apply (ke_keep _ _ _ _ K); [by apply data_meta|done|done]|].
  split; [apply (ke_used _ _ _ _ K); [by apply data_range|done]|].
  intros Hin. destruct (ke_new _ _ _ _ K b Hin) as [?|Hf]; [done|congruence].
Qed.

Lemma kept_disk_inode v v' d d' m : file_ok v d → kept v v' d d' → 0 ≤ m < sb_ninodes fsb → disk_inode v' m = disk_inode v m.
Proof.
  intros F K Hm. unfold disk_inode. f_equal.
  destruct (inode_block_apart (IBLOCK m fsb)) as (_ & _ & Hnd & _ & Hb); [by exists m|].
  apply (ke_keep _ _ _ _ K); [done|done|]. intros Hin. apply Hnd. by apply (f_data v d F).
Qed.

Lemma wp_writei U L v s i x src off n (Q : Z → st → Prop) :
  let d := idata x in
  txf ∅ L v s → sb s = fsb → fs_ok v → inodes s !! i = Some x → idev x = ROOTDEV → file_ok v d →
  0 ≤ inum x < sb_ninodes fsb → d_type d ≠ T_DEV →
  0 ≤ off ≤ d_size d → n = Z.of_nat (length src) → off + n ≤ MAXFILE * 512 →
  L ⊆ with_ind d U → (∀ c, 0 ≤ c < sb_size fsb → BBLOCK c fsb ∈ U) →
  (size U + nblocks off n + 3 ≤ cap)%nat → free_blocks (pot d + nblocks off n) v →
  (∀ r v' d' t L', tx ∅ ∅ L' v' t → file_after v x off src r v' d' → d_size d' = Z.max (d_size d) (off + n) →
     (size L' ≤ 2 + size U + nblocks off n)%nat →
     (∀ m, free_blocks (pot d + nblocks off n + m) v → free_blocks (pot d' + m) v') → Q r (with_ino s t i x d')) →
  wp (writei dev_write i src off n) s Q.
Proof.
  intros d Ht Hsb Hv Hi Hdev F Hnum Hty Hoff Hn Hmax HL HB Hcap Hf HQ. unfold writei.
  apply wp_bind, (wp_geti _ _ x); [done|]. fold d.
  rewrite (bool_decide_eq_false_2 (d_type d = T_DEV)) by done.
  pose proof (f_size v d F) as Hfs. change (Z.of_nat BSIZE) with 512 in Hfs |- *.
  rewrite (bool_decide_eq_false_2 (d_size d < off)) by lia.
  rewrite (u32_id (off + n)) by (unfold uint; change MAXFILE with 140 in Hmax; lia).
  rewrite (bool_decide_eq_false_2 (off + n < off)) by lia. cbn [orb].
  rewrite (bool_decide_eq_false_2 (MAXFILE * 512 < off + n)) by lia.
  apply wp_bind. eapply (wp_writei_loop i _ U L v); try done; [lia|lia| |].
  { intros Hm. apply (f_mapped v d F); [apply Z.div_pos; lia|]. change (Z.of_nat BSIZE) with 512.
    pose proof (Z.div_mod off 512 ltac:(lia)). pose proof (Z.mod_pos_bound off 512 ltac:(lia)). lia. }
  fold d. intros v1 d1 t1 L1 Ht1 W Hsz1 Hfr1.
  pose proof (wrote_bytes _ _ _ _ _ _ F Hoff W) as Hbytes. rewrite <-Hn in Hbytes.
  pose proof W as [F1 Hv1 K1 M1 _ _ _ Hsame].
  assert (d_size d1 = d_size d ∧ d_type d1 = d_type d ∧ d_nlink d1 = d_nlink d) as (Hs1 & Mt & Mn) by (by rewrite M1).
  set (x1 := set_idata d1 x).
  assert (inodes (with_ino s t1 i x d1) !! i = Some x1) as Hi1 by by apply with_ino_lookup.
  apply wp_bind, (wp_geti _ _ x1); [done|]. unfold x1 at 1 2. cbn [idata set_idata]. rewrite Hs1.
  apply wp_bind, wp_when; intros Hgrow.
  - apply andb_true_iff in Hgrow as [Hg1%bool_decide_eq_true Hg2%bool_decide_eq_true].
    apply wp_bind, wp_modify. set (d2 := set_dsize (off + n) d1). set (x2 := set_idata d2 x).
    change (wp (iupdate i) (with_ino (with_ino s t1 i x d1) t1 i x1 d2)
      (λ _ s', wp (kret n) s' Q)). unfold x1. rewrite with_ino_twice.
    eapply (wp_iupdate L1 v1 _ i x2); try done; [by apply with_ino_lookup|lia|].
    change (inum x2) with (inum x). change (idata x2) with d2. intros t2 Ht2. apply wp_ret.
    change (set_blk t2 (with_ino s t1 i x d2)) with (with_ino s t2 i x d2).
    assert (inode_block (IBLOCK (inum x) fsb)) as Hib by by exists (inum x).
    assert (dinode_ok d2) as Hd2 by (destruct (f_dinode _ _ F1); split; try done; simpl; unfold uint; change MAXFILE with 140 in Hmax; lia).
    assert (file_ok v1 d2) as F2.
    { destruct F1 as [A1 A2 A3 A4 A5]. split; [done|exact A2|exact A3|simpl; change (Z.of_nat BSIZE) with 512; lia|].
      simpl. change (Z.of_nat BSIZE) with 512. intros bn Hbn Hlt. change (baddr v1 d2 bn) with (baddr v1 d1 bn).
      pose proof (Hbytes (bn * 512) ltac:(lia)) as [Hb _]. by rewrite Z.div_mul in Hb. }
    apply (HQ n _ d2 t2 _ Ht2); [|simpl; lia|pose proof (size_add (IBLOCK (inum x) fsb) L1); lia|].
    2: { intros m Hm. apply (free_blocks_ext _ v1); [|by apply Hfr1]. intros c Hc. by apply used_inode. }
    split; [done|]. split; [by apply file_ok_inode|]. split; [apply fs_ok_inode; [done|done|rewrite length_put_dinode; apply (fo_len _ Hv1), (inode_block_apart _ Hib)]|].
    split; [|split; [|split; [exact Mt|split; [exact Mn|split; [fold d; lia|]]]]].
    + apply content_splice; [done|simpl; fold d; lia|]. rewrite <-Hn. intros o Ho. simpl in Ho.
      destruct (Hbytes o ltac:(lia)) as [Hb Hval]. unfold store_inode. rewrite fbyte_inode by done.
      change (fbyte v1 d2 o) with (fbyte v1 d1 o). exact Hval.
    + intros b Hb Hu Ho. destruct (kept_frame _ _ _ _ b K1 Hb Hu Ho) as (Hk1 & Hk2 & Hk3).
      destruct (inode_block_apart _ Hib) as (_ & _ & Hnd & _).
      unfold store_inode. rewrite upd_ne by (intros ->; done). split; [done|].
      rewrite used_inode by (done || by apply data_range). split; [done|].
      unfold owned. rewrite slots_inode by done. exact Hk3.
    + intros m Hm. rewrite disk_inode_store by (done || lia). rewrite <-Hn.
      rewrite (kept_disk_inode v v1 d d1) by done.
      destruct (decide (m = inum x)); [by rewrite decide_True by (split; [done|fold d; lia])|by rewrite decide_False by tauto].
  - assert (off + n ≤ d_size d) as Hle.
    { apply andb_false_iff in Hgrow as [Hg%bool_decide_eq_false|Hg%bool_decide_eq_false]; lia. }
    apply wp_ret. apply (HQ n v1 d1 t1 L1 Ht1); [|rewrite Hs1; lia|lia|exact Hfr1].
    split; [done|]. split; [done|]. split; [done|].
    split; [|split; [|split; [exact Mt|split; [exact Mn|split; [intros _; apply Hsame|]]]]].
    + apply content_splice; [done|rewrite Hs1; fold d; lia|]. rewrite <-Hn. intros o Ho. apply Hbytes. lia.
    + intros b Hb Hu Ho. by eapply kept_frame.
    + rewrite <-Hn. intros bn H1 H2. pose proof (Z.div_pos off 512 ltac:(lia) ltac:(lia)).
      apply (f_mapped v d F); [lia|]. change (Z.of_nat BSIZE) with 512. lia.
    + intros m Hm. rewrite <-Hn. rewrite decide_False by (fold d; lia). by eapply kept_disk_inode.
Qed.
End fsthm.
