(* ===== verification/FsDir.v ===== *)
(** * Theorems on the inode cache, directories and path names

    The rest of fs.c, on top of FsThm.v: reference counts, locking and loading
    of inodes, freeing a file, looking a name up and entering one, and the
    elements of a path. *)

From S2P Require Import Prelude CString Bio Log Blocks Fs FsThm.
Import Fs.

Local Open Scope Z_scope.

(** ** Names *)

(** The C string in the first [n] bytes of [l]. *)
Fixpoint cname (n : nat) (l : list Z) : list Z :=
  match n, l with
  | Datatypes.S n, c :: l => if decide (c = 0) then [] else c :: cname n l
  | _, _ => []
  end.

(** The two agree up to a NUL. *)
Definition agree_to (n : nat) (s t : list Z) : Prop :=
  ∀ i, (i < n)%nat → (∀ j, (j < i)%nat → byte_at s j ≠ 0) → byte_at s i = byte_at t i.

Lemma agree_to_cons n x s y t :
  agree_to (Datatypes.S n) (x :: s) (y :: t) ↔ x = y ∧ (x ≠ 0 → agree_to n s t).
Proof.
  split.
  - intros H. split; [apply (H 0%nat); lia|]. intros Hx i Hi Hj. apply (H (Datatypes.S i)); [lia|].
    intros [|j] Hj'; [done|]. apply Hj. lia.
  - intros [-> H] [|i] Hi Hj; [done|]. apply H; [apply (Hj 0%nat); lia|lia|].
    intros j Hj'. apply (Hj (Datatypes.S j)). lia.
Qed.

Lemma cname_pad n l : cname n (l ++ [0]) = cname n l.
Proof. revert l. induction n as [|n IH]; intros [|c l]; simpl; try done. case_decide; [done|by rewrite IH]. Qed.

Lemma byte_at_pad l i : byte_at (l ++ [0]) i = byte_at l i.
Proof.
  rewrite byte_at_app. case_decide; [done|]. unfold byte_at. rewrite (lookup_ge_None_2 l) by lia.
  by destruct (i - length l)%nat.
Qed.

Lemma cname_agree n : ∀ s t, agree_to n s t ↔ cname n s = cname n t.
Proof.
  induction n as [|n IH]; intros s t; [split; [done|intros _ i; lia]|].
  assert (∀ u, ∃ x u', cname (Datatypes.S n) u = cname (Datatypes.S n) (x :: u') ∧ ∀ i, byte_at u i = byte_at (x :: u') i) as Hc.
  { intros [|x u']; [|by exists x, u']. exists 0, []. split; [done|]. intros [|i]; done. }
  destruct (Hc s) as (x & s' & Hs & Hs'). destruct (Hc t) as (y & t' & Ht & Ht'). rewrite Hs, Ht.
  assert (agree_to (Datatypes.S n) s t ↔ agree_to (Datatypes.S n) (x :: s') (y :: t')) as ->.
  { unfold agree_to. setoid_rewrite Hs'. setoid_rewrite Ht'. done. }
  rewrite agree_to_cons, IH. simpl.
  destruct (decide (x = 0)) as [->|Hx], (decide (y = 0)) as [->|Hy]; (split; [intros [? H]|intros H]); simplify_eq;
    try done. by rewrite H.
Qed.

Lemma two_strings_l s t i : (i < DIRSIZ)%nat → two_strings s t (Z.of_nat i) = byte_at s i.
Proof. intros Hi. unfold two_strings. rewrite decide_True by lia. f_equal. lia. Qed.

Lemma two_strings_r s t i : two_strings s t (Z.of_nat DIRSIZ + Z.of_nat i) = byte_at t i.
Proof. unfold two_strings. rewrite decide_False by lia. f_equal. lia. Qed.

Lemma namecmp_zero s t : namecmp s t = 0 ↔ cname DIRSIZ s = cname DIRSIZ t.
Proof.
  unfold namecmp. rewrite strncmp_spec, <-cname_agree. unfold agree, agree_to.
  split; intros H i Hi Hj.
  - specialize (H i Hi). rewrite two_strings_r, Z.add_0_l, two_strings_l in H by done. apply H.
    intros j Hj'. rewrite Z.add_0_l, two_strings_l by lia. by apply Hj.
  - rewrite two_strings_r, Z.add_0_l, two_strings_l by done. apply H; [done|].
    intros j Hj'. specialize (Hj j Hj'). by rewrite Z.add_0_l, two_strings_l in Hj by lia.
Qed.

Definition bytes (l : list Z) : Prop := Forall (λ b, 0 ≤ b < 256) l.

Lemma byte_at_range l i : bytes l → 0 ≤ byte_at l i < 256.
Proof.
  intros Hl. unfold byte_at. destruct (l !! i) eqn:Hi; [|simpl; lia]. by apply (Forall_lookup_1 _ _ _ _ Hl Hi).
Qed.

(** A new entry has the inode number and the name asked for. *)
Lemma make_dirent_spec old name inu :
  bytes (de_name old) → bytes name → 0 ≤ inu < 2 ^ 16 →
  let de := make_dirent old name inu in
  length de = 16%nat ∧ de_inum de = inu ∧ cname DIRSIZ (de_name de) = cname DIRSIZ name.
Proof.
  intros Ho Hn Hi de. split; [done|]. split.
  - unfold de_inum, get16, byte_at. simpl. unfold u8. change (2 ^ 8) with 256. change (2 ^ 16) with 65536 in *.
    pose proof (Z.div_mod inu 256 ltac:(lia)). pose proof (Z.mod_pos_bound inu 256 ltac:(lia)).
    rewrite (Z.mod_small (inu / 256)); [lia|]. split; [apply Z.div_pos; lia|apply Z.div_lt_upper_bound; lia].
  - symmetry. apply cname_agree. intros i Hi' Hj. unfold de, make_dirent, de_name at 1.
    set (m := two_strings (de_name old) name).
    assert (bytes_ok m) as Hm by (intros a; unfold m, two_strings; case_decide; by apply byte_at_range).
    destruct (strncpy_spec DIRSIZ m 0 (Z.of_nat DIRSIZ) Hm) as [_ Hs]; [unfold DIRSIZ; lia|].
    destruct (Hs i Hi') as [Hcopy _].
    change (drop 2 ([u8 inu; u8 (inu / 2 ^ 8)] ++ ?l)) with l.
    unfold byte_at at 2. rewrite list_lookup_fmap, lookup_seq_lt by done. cbn [fmap option_fmap option_map from_option default].
    rewrite Nat.add_0_l. rewrite Z.add_0_l in Hcopy. unfold default, from_option, id. rewrite Hcopy.
    + unfold m. by rewrite two_strings_r.
    + intros j Hj'. unfold m. rewrite two_strings_r. by apply Hj.
Qed.

(** ** Directories as lists of entries *)

Definition matches (name de : list Z) : Prop := de_inum de ≠ 0 ∧ cname DIRSIZ (de_name de) = cname DIRSIZ name.

#[export] Instance matches_dec name de : Decision (matches name de).
Proof. unfold matches. apply _. Defined.

(** The 16-byte entries of a directory's content. *)
Definition dents (c : list Z) : list (list Z) := (λ k, take 16 (drop (16 * k) c)) <$> seq 0 (length c / 16).

(** The inode number a name stands for: the first entry that matches. *)
Definition dir_lookup (c name : list Z) : option Z :=
  (λ p : nat * list Z, de_inum p.2) <$> list_find (matches name) (dents c).

Lemma length_dents c : length (dents c) = (length c / 16)%nat.
Proof. unfold dents. by rewrite length_fmap, length_seq. Qed.

Lemma dents_lookup c k : (k < length c / 16)%nat → dents c !! k = Some (take 16 (drop (16 * k) c)).
Proof. intros Hk. unfold dents. by rewrite list_lookup_fmap, lookup_seq_lt. Qed.

Lemma list_find_insert {A} (P : A → Prop) `{!∀ x, Decision (P x)} (l : list A) k x y :
  l !! k = Some x → ¬ P x → ¬ P y → list_find P (<[k := y]> l) = list_find P l.
Proof.
  revert k. induction l as [|z l IH]; intros [|k] Hk Hx Hy; simplify_eq/=.
  - by rewrite !decide_False.
  - case_decide; [done|]. by rewrite (IH k).
Qed.

Lemma list_find_insert_new {A} (P : A → Prop) `{!∀ x, Decision (P x)} (l : list A) k y :
  list_find P l = None → (k < length l)%nat → P y → list_find P (<[k := y]> l) = Some (k, y).
Proof.
  intros Hn Hk Hy. apply list_find_None in Hn. rewrite list.Forall_forall in Hn. apply list_find_Some.
  split; [by apply list_lookup_insert_eq|]. split; [done|]. intros j z Hz Hj.
  rewrite list_lookup_insert_ne in Hz by lia. apply Hn. by eapply list_elem_of_lookup_2.
Qed.

(** Writing entry [k], in the middle or at the end. *)
Lemma dents_splice c k de :
  (length c mod 16 = 0)%nat → (16 * k ≤ length c)%nat → length de = 16%nat →
  dents (splice c (16 * k) de) = if decide (16 * k < length c)%nat then <[k := de]> (dents c) else dents c ++ [de].
Proof.
  intros Hm Hk Hde. pose proof (Nat.div_mod_eq (length c) 16) as Hdm. rewrite Hm, Nat.add_0_r in Hdm.
  set (q := (length c / 16)%nat) in *.
  assert (length (splice c (16 * k) de) = if decide (16 * k < length c)%nat then length c else (length c + 16)%nat) as Hl.
  { unfold splice. rewrite !length_app, length_take, length_drop, Hde. case_decide; lia. }
  assert (∀ j, (j < length (splice c (16 * k) de) / 16)%nat →
    take 16 (drop (16 * j) (splice c (16 * k) de)) = if decide (j = k) then de else take 16 (drop (16 * j) c)) as Hj.
  { intros j Hj. rewrite Hl in Hj. unfold splice. destruct (decide (j = k)) as [->|Hjk].
    - rewrite drop_app_length' by (rewrite length_take; lia). apply take_app_length'. lia.
    - destruct (decide (j < k)%nat).
      + rewrite drop_app_le by (rewrite length_take; lia). rewrite take_app_le by (rewrite length_drop, length_take; lia).
        rewrite skipn_firstn_comm, take_take. f_equal. lia.
      + rewrite drop_app_ge by (rewrite length_take; lia). rewrite drop_app_ge by (rewrite length_take; lia).
        rewrite drop_drop, length_take, Hde. f_equal. f_equal. lia. }
  apply list_eq. intros j. destruct (decide (16 * k < length c)%nat) as [Hlt|Hlt].
  - rewrite Hl in Hj. destruct (decide (j < q)%nat) as [Hjq|Hjq].
    + rewrite dents_lookup by (rewrite Hl; done). rewrite Hj by done. destruct (decide (j = k)) as [->|Hjk].
      * rewrite list_lookup_insert_eq; [done|by rewrite length_dents].
      * rewrite list_lookup_insert_ne by done. by rewrite dents_lookup.
    + rewrite !lookup_ge_None_2; [done|rewrite length_insert, length_dents; fold q; lia|rewrite length_dents, Hl; fold q; lia].
  - assert (k = q) as -> by lia. replace (length c + 16)%nat with (16 * (q + 1))%nat in Hl by lia.
    assert (16 * (q + 1) / 16 = q + 1)%nat as Hq by (rewrite Nat.mul_comm; by apply Nat.div_mul).
    rewrite Hl, Hq in Hj. destruct (decide (j < q + 1)%nat) as [Hjq|Hjq].
    + rewrite dents_lookup by (rewrite Hl, Hq; done). rewrite Hj by done. destruct (decide (j = q)) as [->|Hjk].
      * rewrite lookup_app_r by (rewrite length_dents; fold q; lia). rewrite length_dents. fold q. by rewrite Nat.sub_diag.
      * rewrite lookup_app_l by (rewrite length_dents; fold q; lia). rewrite dents_lookup by (fold q; lia). done.
    + rewrite !lookup_ge_None_2; [done|rewrite length_app, length_dents; change (length [de]) with 1%nat; fold q; lia|rewrite length_dents, Hl, Hq; lia].
Qed.

(** Entering a name that is not there: it is found, the others are as before. *)
Lemma dir_lookup_add c k de name inu n' :
  (length c mod 16 = 0)%nat → (16 * k ≤ length c)%nat → length de = 16%nat →
  de_inum de = inu → inu ≠ 0 → cname DIRSIZ (de_name de) = cname DIRSIZ name →
  dir_lookup c name = None → (∀ old, dents c !! k = Some old → de_inum old = 0) →
  dir_lookup (splice c (16 * k) de) n' =
  if decide (cname DIRSIZ n' = cname DIRSIZ name) then Some inu else dir_lookup c n'.
Proof.
  intros Hm Hk Hde Hi Hi0 Hn Hnone Hold. unfold dir_lookup in *. apply fmap_None in Hnone.
  rewrite dents_splice by done. pose proof (Nat.div_mod_eq (length c) 16).
  assert (matches n' de ↔ cname DIRSIZ n' = cname DIRSIZ name) as Hmt.
  { unfold matches. rewrite Hn, Hi. split; [by intros [_ ->]|done]. }
  destruct (decide (cname DIRSIZ n' = cname DIRSIZ name)) as [He|Hne].
  - assert (list_find (matches n') (dents c) = None) as Hnone'.
    { apply list_find_None in Hnone. apply list_find_None. eapply list.Forall_impl; [exact Hnone|].
      unfold matches. intros x. by rewrite He. }
    destruct (decide (16 * k < length c)%nat).
    + rewrite list_find_insert_new; [simpl; by rewrite Hi|done|rewrite length_dents; lia|by apply Hmt].
    + rewrite list_find_app_r by done. simpl. rewrite decide_True by by apply Hmt. simpl. by rewrite Hi.
  - destruct (decide (16 * k < length c)%nat).
    + destruct (lookup_lt_is_Some_2 (dents c) k) as [old Ho]; [rewrite length_dents; lia|].
      rewrite (list_find_insert _ _ _ old); [done|done|intros [H0 _]; by apply H0, Hold|by rewrite Hmt].
    + destruct (list_find (matches n') (dents c)) as [[j x]|] eqn:Hf.
      * by rewrite (list_find_app_l _ _ _ j x).
      * rewrite list_find_app_r by done. simpl. rewrite decide_False by by rewrite Hmt. done.
Qed.
(** ** Path names *)

(** The elements of a path: what stands between slashes, empty ones left out. *)
Fixpoint split_slash (p : list Z) : list (list Z) :=
  match p with
  | [] => [[]]
  | c :: p => if decide (c = SLASH) then [] :: split_slash p
              else match split_slash p with e :: l => (c :: e) :: l | [] => [[c]] end
  end.

Definition elements (p : list Z) : list (list Z) := filter (λ e, e ≠ []) (split_slash p).

Lemma elements_nil : elements [] = [].
Proof. done. Qed.

Lemma elements_slash p : elements (SLASH :: p) = elements p.
Proof. done. Qed.

Lemma elements_skip p : elements (skip_slashes p) = elements p.
Proof. induction p as [|c p IH]; [done|]. simpl. case_decide; [by subst|done]. Qed.

Lemma skip_slashes_head p c r : skip_slashes p = c :: r → c ≠ SLASH.
Proof. induction p as [|d p IH]; [done|]. simpl. case_decide; [done|]. by intros [= <- <-]. Qed.

Lemma length_skip p : (length (skip_slashes p) ≤ length p)%nat.
Proof. induction p as [|c p IH]; [done|]. simpl. case_decide; simpl; lia. Qed.

Lemma span_elem_split p s r :
  span_elem p = (s, r) → p = s ++ r ∧ filter (λ e, e ≠ []) (split_slash p) = filter (λ e, e ≠ []) [s] ++ elements r.
Proof.
  unfold elements. enough (span_elem p = (s, r) → p = s ++ r ∧
    ∃ l, split_slash p = s :: l ∧ filter (λ e : list Z, e ≠ []) l = elements r) as H.
  { intros Hs. destruct (H Hs) as (? & l & -> & Hl). split; [done|]. fold (elements r). rewrite <-Hl.
    by rewrite <-list.filter_app. }
  revert s r. induction p as [|c p IH]; intros s r; simpl.
  { intros [= <- <-]. split; [done|]. by exists []. }
  case_decide as Hc.
  - intros [= <- <-]. split; [done|]. exists (split_slash p). by subst c.
  - destruct (span_elem p) as [s' r'] eqn:Hs. intros [= <- <-].
    destruct (IH s' r' eq_refl) as (-> & l & Hl & He). split; [done|]. exists l. by rewrite Hl.
Qed.

(** One step of [skipelem]: the first element, and a path with the others. *)
Lemma skipelem_spec path name :
  length name = DIRSIZ →
  match skipelem path name with
  | None => elements path = []
  | Some (path', name') => ∃ e, elements path = e :: elements path' ∧ length name' = DIRSIZ ∧
      cname DIRSIZ name' = cname DIRSIZ e ∧ (length path' < length path)%nat ∧ (path' = [] ↔ elements path' = [])
  end.
Proof.
  intros Hlen. unfold skipelem. rewrite <-(elements_skip path). pose proof (length_skip path) as Hl.
  destruct (skip_slashes path) as [|c p] eqn:Hp; [done|]. pose proof (skip_slashes_head _ _ _ Hp) as Hc.
  destruct (span_elem (c :: p)) as [s r] eqn:Hs. destruct (span_elem_split _ _ _ Hs) as [Happ Hel].
  assert (s ≠ []) as Hne by (intros ->; simpl in Hs; rewrite decide_False in Hs by done; by destruct (span_elem p)).
  exists s. unfold elements at 1. rewrite Hel, list.filter_cons_True by done. rewrite elements_skip.
  assert (0 < length s)%nat as Hpos by (destruct s; simpl; [done|lia]).
  apply (f_equal length) in Happ. rewrite length_app in Happ. pose proof (length_skip r).
  split_and!.
  - done.
  - case_decide; unfold put_bytes; rewrite !length_app, ?length_take, ?length_drop, ?length_take, ?length_app; cbn [length]; lia.
  - apply cname_agree. intros i Hi Hj. case_decide as Hd; unfold put_bytes; rewrite take_0, app_nil_l.
    + rewrite byte_at_app, decide_True by (rewrite length_take; lia).
      unfold byte_at. by rewrite lookup_take_lt.
    + destruct (decide (i < length s)%nat) as [Hi'|Hge].
      * rewrite byte_at_app, decide_True by (rewrite length_app; simpl; lia). by rewrite byte_at_pad.
      * destruct (decide (i = length s)) as [->|].
        { rewrite byte_at_app, decide_True by (rewrite length_app; simpl; lia). by rewrite byte_at_pad. }
        exfalso. apply (Hj (length s)); [lia|]. unfold put_bytes. rewrite take_0, app_nil_l.
        rewrite byte_at_app, decide_True by (rewrite length_app; simpl; lia). rewrite byte_at_pad.
        unfold byte_at. by rewrite (lookup_ge_None_2 s) by lia.
  - simpl in *. lia.
  - split; [by intros Hz; rewrite <-elements_skip, Hz|]. intros Hz. rewrite <-elements_skip in Hz.
    destruct (skip_slashes r) as [|c' r'] eqn:Hr; [done|]. exfalso. pose proof (skip_slashes_head _ _ _ Hr) as Hc'.
    unfold elements in Hz. simpl in Hz. rewrite decide_False in Hz by done.
    destruct (split_slash r') as [|e l]; by rewrite list.filter_cons_True in Hz.
Qed.

Section fsdir.
Context {S : Type} `{!BlockOps S, !BlockLayer S}.
Context (fsb : superblock) (dstart : Z) (Hlay : layout fsb dstart).

Local Open Scope kern_scope.
Implicit Types (L : gset Z) (v : Z → block) (s : st (S:=S)).

Abbreviation txf B L v s := (tx B ∅ L v (blk s)).
Abbreviation disk_inode := (disk_inode fsb).

(** ** The lock of the inode cache *)

Lemma wp_acquire_ic s (Q : unit → st → Prop) :
  held (blk s) = [] → Q tt (set_blk (set_held [LIcache] (blk s)) s) → wp (acquire LIcache) s Q.
Proof.
  intros Hh HQ. unfold wp. rewrite acquire_free by (simpl; rewrite Hh; apply not_elem_of_nil).
  simpl. by rewrite Hh.
Qed.

Lemma wp_release_ic s b (Q : unit → st → Prop) :
  blk s = set_held [LIcache] b → held b = [] → Q tt (set_blk b s) → wp (release LIcache) s Q.
Proof.
  intros Hb Hh HQ. unfold wp. rewrite (release_top _ []); [|simpl; by rewrite Hb, held_set|apply not_elem_of_nil].
  simpl. rewrite Hb, set_held_set, <-Hh, set_held_held. done.
Qed.

Definition put_ino s (i : nat) (x : inode) : st := set_inodes (<[i := x]> (inodes s)) s.

(** [acquire; read the entry; change it; release] *)
Lemma wp_locked_update {A} s i x x' (k : kM st A) (Q : A → st → Prop) :
  held (blk s) = [] → inodes s !! i = Some x → wp k (put_ino s i x') Q →
  wp (puti i x' ;; release LIcache ;; k) (set_blk (set_held [LIcache] (blk s)) s) Q.
Proof.
  intros Hh Hi Hk. apply wp_bind, wp_modify. apply wp_bind.
  eapply (wp_release_ic _ (blk s)); [done|done|]. by destruct s.
Qed.

(** ** [iget] *)

Lemma iget_scan_spec dev inu l : ∀ i e,
  match iget_scan l i dev inu e with
  | inl j => ∃ x, (i ≤ j)%nat ∧ l !! (j - i)%nat = Some x ∧ 0 < iref x ∧ idev x = dev ∧ inum x = inu
  | inr e' =>
    (∀ k x, l !! k = Some x → ¬ (0 < iref x ∧ idev x = dev ∧ inum x = inu)) ∧
    match e' with
    | Some j => e = Some j ∨ ∃ x, (i ≤ j)%nat ∧ l !! (j - i)%nat = Some x ∧ iref x = 0
    | None => e = None ∧ ∀ k x, l !! k = Some x → iref x ≠ 0
    end
  end.
Proof.
  induction l as [|y l IH]; intros i e; cbn [iget_scan].
  { split; [done|]. destruct e; [by left|done]. }
  destruct (bool_decide (0 < iref y) && bool_decide (idev y = dev) && bool_decide (inum y = inu)) eqn:Hb.
  { apply andb_true_iff in Hb as [[H1%bool_decide_eq_true H2%bool_decide_eq_true]%andb_true_iff H3%bool_decide_eq_true].
    exists y. rewrite Nat.sub_diag. split; [lia|done]. }
  assert (¬ (0 < iref y ∧ idev y = dev ∧ inum y = inu)) as Hno.
  { intros (H1 & H2 & H3). by rewrite !bool_decide_eq_true_2 in Hb. }
  specialize (IH (Datatypes.S i) (match e with Some e => Some e | None => if bool_decide (iref y = 0) then Some i else None end)).
  destruct (iget_scan _ _ _ _ _) as [j|e'].
  - destruct IH as (x & Hj & Hx & Hp). exists x. split; [lia|].
    by replace (j - i)%nat with (Datatypes.S (j - Datatypes.S i)) by lia.
  - destruct IH as [Hall He]. split.
    + intros [|k] x Hx; simpl in Hx; [by simplify_eq|by eapply Hall].
    + destruct e' as [j|].
      * destruct He as [He|(x & Hj & Hx & Hr)].
        -- destruct e; [by left|].
           destruct (bool_decide (iref y = 0)) eqn:Hy; [apply bool_decide_eq_true in Hy|done]. simplify_eq. right. exists y.
           rewrite Nat.sub_diag. split; [lia|done].
        -- right. exists x. split; [lia|]. by replace (j - i)%nat with (Datatypes.S (j - Datatypes.S i)) by lia.
      * destruct He as [He Hall']. destruct e; [done|].
        destruct (bool_decide (iref y = 0)) eqn:Hy; [done|apply bool_decide_eq_false in Hy]. split; [done|].
        intros [|k] x Hx; simpl in Hx; [by simplify_eq|by eapply Hall'].
Qed.

Lemma wp_iget s inu (Q : nat → st → Prop) :
  held (blk s) = [] →
  (∀ i x, inodes s !! i = Some x → 0 < iref x < 2 ^ 31 - 1 → idev x = ROOTDEV → inum x = inu →
     Q i (put_ino s i (set_ref (iref x + 1) x))) →
  ((∀ k x, inodes s !! k = Some x → ¬ (0 < iref x ∧ idev x = ROOTDEV ∧ inum x = inu)) →
   ∀ i x, inodes s !! i = Some x → iref x = 0 → Q i (put_ino s i (Inode ROOTDEV inu 1 false false (idata x)))) →
  (∀ i x, inodes s !! i = Some x → idev x = ROOTDEV → inum x = inu → iref x < 2 ^ 31 - 1) →
  ((∀ k x, inodes s !! k = Some x → ¬ (0 < iref x ∧ idev x = ROOTDEV ∧ inum x = inu)) →
     ∃ i x, inodes s !! i = Some x ∧ iref x = 0) →
  wp (iget ROOTDEV inu) s Q.
Proof.
  intros Hh Hhit Hnew Hmax Hroom. unfold iget. apply wp_bind, wp_acquire_ic; [done|]. apply wp_bind, wp_gets.
  change (inodes (set_blk _ s)) with (inodes s).
  pose proof (iget_scan_spec ROOTDEV inu (inodes s) 0 None) as Hs.
  destruct (iget_scan _ _ _ _ _) as [i|e].
  - destruct Hs as (x & _ & Hx & Hr & Hd & Hn). rewrite Nat.sub_0_r in Hx. pose proof (Hmax i x Hx Hd Hn).
    apply wp_bind, (wp_geti _ _ x); [done|].
    replace (i32 (iref x + 1)) with (iref x + 1) by (unfold i32; rewrite Z.mod_small; lia).
    eapply wp_locked_update; [done|done|]. apply wp_ret. by apply Hhit.
  - destruct Hs as [Hno He]. destruct e as [i|].
    + destruct He as [?|(x & _ & Hx & Hr)]; [done|]. rewrite Nat.sub_0_r in Hx.
      apply wp_bind, (wp_geti _ _ x); [done|]. eapply wp_locked_update; [done|done|]. apply wp_ret. by apply Hnew.
    + destruct He as [_ Hfull]. destruct (Hroom Hno) as (i & x & Hx & Hr). by destruct (Hfull i x Hx).
Qed.

Lemma put_ino_twice s i x y : put_ino (put_ino s i x) i y = put_ino s i y.
Proof. unfold put_ino, set_inodes. simpl. by rewrite list_insert_insert_eq. Qed.

Lemma put_ino_lookup s i x y : inodes s !! i = Some x → inodes (put_ino s i y) !! i = Some y.
Proof. intros Hi. simpl. apply list_lookup_insert_eq. by eapply lookup_lt_Some. Qed.

Lemma wp_idup s i x (Q : nat → st → Prop) :
  held (blk s) = [] → inodes s !! i = Some x → 0 ≤ iref x < 2 ^ 31 - 1 →
  Q i (put_ino s i (set_ref (iref x + 1) x)) → wp (idup i) s Q.
Proof.
  intros Hh Hi Hr HQ. unfold idup. apply wp_bind, wp_acquire_ic; [done|].
  apply wp_bind, (wp_geti _ _ x); [done|].
  replace (i32 (iref x + 1)) with (iref x + 1) by (unfold i32; rewrite Z.mod_small; lia).
  eapply wp_locked_update; [done|done|]. by apply wp_ret.
Qed.

(** ** [ilock] and [iunlock] *)

(** The entry once locked: loaded from disk unless it was valid. *)
Definition loaded (v : Z → block) (x : inode) : inode :=
  Inode (idev x) (inum x) (iref x) true true (if ivalid x then idata x else disk_inode v (inum x)).

Lemma wp_ilock L v s i x (Q : unit → st → Prop) :
  txf ∅ L v s → sb s = fsb → inodes s !! i = Some x → idev x = ROOTDEV → 0 ≤ inum x < sb_ninodes fsb →
  1 ≤ iref x → ibusy x = false → (size L ≤ cap)%nat →
  (ivalid x = false → d_type (disk_inode v (inum x)) ≠ 0) →
  (∀ t, tx ∅ ∅ L v t → Q tt (put_ino (set_blk t s) i (loaded v x))) → wp (ilock i) s Q.
Proof.
  intros Ht Hsb Hi Hdev Hn Hr Hb Hc Hty HQ. pose proof (tx_held _ _ _ _ _ Ht) as Hh.
  destruct (inode_block_apart fsb dstart Hlay (IBLOCK (inum x) fsb)) as (Hib & _); [by exists (inum x)|].
  unfold ilock. apply wp_bind, (wp_geti _ _ x); [done|].
  apply wp_bind, wp_assert; [by rewrite bool_decide_eq_false_2 by lia|].
  apply wp_bind, wp_acquire_ic; [done|]. unfold ilock_loop. apply wp_bind, (wp_geti _ _ x); [done|]. rewrite Hb.
  set (y := set_ibusy true x). eapply wp_locked_update; [done|done|].
  apply wp_bind, (wp_geti _ _ y); [by eapply put_ino_lookup|]. change (ivalid y) with (ivalid x).
  destruct (ivalid x) eqn:Hv.
  - apply wp_ret. specialize (HQ (blk s) Ht). rewrite set_blk_same in HQ.
    unfold loaded in HQ. rewrite Hv in HQ. destruct x; simpl in *. by subst.
  - apply wp_bind, wp_gets. change (sb (put_ino s i y)) with (sb s). rewrite Hsb.
    change (idev y) with (idev x). change (inum y) with (inum x). rewrite Hdev.
    apply wp_bind. eapply wp_fbread; [exact Ht|apply lookup_empty|done|right; by rewrite dom_empty_L, union_empty_r_L|].
    intros bp t1 Ht1. apply wp_bind. eapply (wp_fdata _ _ _ _ (IBLOCK (inum x) fsb)); [exact Ht1|apply lookup_insert_eq|].
    fold (disk_inode v (inum x)). set (y1 := set_idata (disk_inode v (inum x)) y).
    apply wp_bind, wp_modify. apply wp_bind.
    eapply (wp_fbrelse _ _ _ _ (IBLOCK (inum x) fsb)); [exact Ht1|apply lookup_insert_eq|].
    intros t2 Ht2. rewrite delete_insert_id in Ht2 by apply lookup_empty.
    match goal with |- wp _ ?z _ => assert (z = put_ino (set_blk t2 s) i y1) as -> end.
    { unfold put_ino, set_inodes, set_blk. simpl. by rewrite list_insert_insert_eq. }
    apply wp_bind, (wp_geti _ _ y1); [by eapply put_ino_lookup|]. apply wp_bind, wp_modify.
    apply wp_assert; [by rewrite bool_decide_eq_false_2 by (by apply Hty)|].
    rewrite (put_ino_twice (set_blk t2 s) i y1 (set_ivalid true y1)
      : set_inodes _ (put_ino (set_blk t2 s) i y1) = _).
    specialize (HQ t2 Ht2). unfold loaded in HQ. by rewrite Hv in HQ.
Qed.

Definition woke s c : st := St (blk s) (sb s) (inodes s) (c :: fwoken s).

Lemma wp_iunlock s i x (Q : unit → st → Prop) :
  held (blk s) = [] → inodes s !! i = Some x → 1 ≤ iref x → ibusy x = true →
  Q tt (woke (put_ino s i (set_ibusy false x)) (CInode i)) → wp (iunlock i) s Q.
Proof.
  intros Hh Hi Hr Hb HQ. unfold iunlock. apply wp_bind, (wp_geti _ _ x); [done|].
  apply wp_bind, wp_assert; [rewrite Hb, bool_decide_eq_false_2 by lia; done|].
  apply wp_bind, wp_acquire_ic; [done|]. apply wp_bind, (wp_geti _ _ x); [done|].
  apply wp_bind, wp_modify. apply wp_bind, wp_modify.
  eapply (wp_release_ic _ (blk s)); [done|done|]. by destruct s.
Qed.

(** [iput] that does not free the file. *)
Lemma wp_iput_keep s i x (Q : unit → st → Prop) :
  held (blk s) = [] → inodes s !! i = Some x → 1 ≤ iref x < 2 ^ 31 →
  ¬ (iref x = 1 ∧ ivalid x = true ∧ d_nlink (idata x) = 0) →
  Q tt (put_ino s i (set_ref (iref x - 1) x)) → wp (iput i) s Q.
Proof.
  intros Hh Hi Hr Hno HQ. unfold iput. apply wp_bind, wp_acquire_ic; [done|].
  apply wp_bind, (wp_geti _ _ x); [done|].
  assert (bool_decide (iref x = 1) && ivalid x && bool_decide (d_nlink (idata x) = 0) = false) as ->.
  { apply not_true_is_false. intros [[H1%bool_decide_eq_true H2]%andb_true_iff H3%bool_decide_eq_true]%andb_true_iff.
    by apply Hno. }
  apply wp_bind. apply wp_ret. apply wp_bind, (wp_geti _ _ x); [done|].
  replace (i32 (iref x - 1)) with (iref x - 1) by (unfold i32; rewrite Z.mod_small; lia).
  apply wp_bind, wp_modify. eapply (wp_release_ic _ (blk s)); [done|done|]. by destruct s.
Qed.

(** ** The inode cache refines reference counts

    A client holds references to inodes and locks some of them; the cache has
    one entry for each inode referenced, however often it was looked up. *)

Inductive iop := IGet (n : Z) | IDup (n : Z) | ILock (n : Z) | IUnlock (n : Z) | IPut (n : Z).

Record ispec := ISpec { irefs : gmap Z Z; ilocked : gset Z }.

(** Calls a client may make: locks are taken once and given back before the
    reference; an inode that is locked is allocated, one that is put has links. *)
Definition i_ok (v : Z → block) (o : iop) (a : ispec) : Prop :=
  match o with
  | IGet n => 0 ≤ n < sb_ninodes fsb ∧ default 0 (irefs a !! n) < 2 ^ 31 - 2 ∧
              (n ∈ dom (irefs a) ∨ (size (dom (irefs a)) < NINODE)%nat)
  | IDup n => ∃ k, irefs a !! n = Some k ∧ k < 2 ^ 31 - 2
  | ILock n => n ∈ dom (irefs a) ∧ (n ∉ ilocked a) ∧ d_type (disk_inode v n) ≠ 0
  | IUnlock n => n ∈ ilocked a
  | IPut n => n ∈ dom (irefs a) ∧ (n ∉ ilocked a) ∧ d_nlink (disk_inode v n) ≠ 0
  end.

Definition i_step (o : iop) (a : ispec) : ispec :=
  match o with
  | IGet n => ISpec (<[n := default 0 (irefs a !! n) + 1]> (irefs a)) (ilocked a)
  | IDup n => ISpec (<[n := default 0 (irefs a !! n) + 1]> (irefs a)) (ilocked a)
  | ILock n => ISpec (irefs a) ({[n]} ∪ ilocked a)
  | IUnlock n => ISpec (irefs a) (ilocked a ∖ {[n]})
  | IPut n => ISpec (if decide (irefs a !! n = Some 1) then delete n (irefs a)
                     else <[n := default 0 (irefs a !! n) - 1]> (irefs a)) (ilocked a)
  end.

(** The client keeps the pointer of each inode it references. *)
Definition run_iop (o : iop) (H : gmap Z nat) (k : Z → Z) : kM (st (S:=S)) (gmap Z nat) :=
  match o with
  | IGet n => i ← iget ROOTDEV n; kret (<[n := i]> H)
  | IDup n => i ← kunwrap (H !! n); i ← idup i; kret (<[n := i]> H)
  | ILock n => i ← kunwrap (H !! n); ilock i ;; kret H
  | IUnlock n => i ← kunwrap (H !! n); iunlock i ;; kret H
  | IPut n => i ← kunwrap (H !! n); iput i ;; kret (if decide (k n = 1) then delete n H else H)
  end.

(** [refs n]: what the client knows it still holds. *)
Fixpoint run_iops (os : list iop) (H : gmap Z nat) (a : ispec) : kM (st (S:=S)) (gmap Z nat) :=
  match os with
  | [] => kret H
  | o :: os => H' ← run_iop o H (λ n, default 0 (irefs a !! n)); run_iops os H' (i_step o a)
  end.

Fixpoint i_oks (v : Z → block) (os : list iop) (a : ispec) : Prop :=
  match os with [] => True | o :: os => i_ok v o a ∧ i_oks v os (i_step o a) end.

(** An entry for inode [n], referenced [k] times. *)
Record entry (v : Z → block) (locked : gset Z) (n k : Z) (x : inode) : Prop := {
  en_ref : iref x = k ∧ 1 ≤ k < 2 ^ 31 - 1;
  en_id : idev x = ROOTDEV ∧ inum x = n ∧ 0 ≤ n < sb_ninodes fsb;
  en_busy : ibusy x = bool_decide (n ∈ locked);
  en_valid : ivalid x = true → idata x = disk_inode v n;
  en_locked : n ∈ locked → ivalid x = true;
}.

Record irel L (v : Z → block) (H : gmap Z nat) (a : ispec) s : Prop := {
  ir_tx : txf ∅ L v s;
  ir_sb : sb s = fsb;
  ir_len : length (inodes s) = NINODE;
  ir_dom : dom H = dom (irefs a);
  ir_lock : ilocked a ⊆ dom (irefs a);
  ir_entry n i : H !! n = Some i → ∃ x k, inodes s !! i = Some x ∧ irefs a !! n = Some k ∧ entry v (ilocked a) n k x;
  ir_free i x : inodes s !! i = Some x → (∀ n, H !! n ≠ Some i) → iref x = 0;
}.

Lemma irel_handle L v H a s n :
  irel L v H a s → n ∈ dom (irefs a) → ∃ i x k, H !! n = Some i ∧ inodes s !! i = Some x ∧ irefs a !! n = Some k ∧
    entry v (ilocked a) n k x.
Proof.
  intros R Hn. rewrite <-(ir_dom _ _ _ _ _ R) in Hn. apply elem_of_dom in Hn as [i Hi].
  destruct (ir_entry _ _ _ _ _ R n i Hi) as (x & k & ? & ? & ?). by exists i, x, k.
Qed.

Lemma irel_inj L v H a s n m i : irel L v H a s → H !! n = Some i → H !! m = Some i → n = m.
Proof.
  intros R Hn Hm. destruct (ir_entry _ _ _ _ _ R n i Hn) as (x & k & Hx & _ & En).
  destruct (ir_entry _ _ _ _ _ R m i Hm) as (y & k' & Hy & _ & Em). rewrite Hx in Hy. simplify_eq.
  destruct (en_id _ _ _ _ _ En) as (_ & ? & _), (en_id _ _ _ _ _ Em) as (_ & ? & _). congruence.
Qed.

(** There is an unused entry while fewer than [NINODE] inodes are referenced. *)
Lemma irel_room L v H a s :
  irel L v H a s → (size (dom (irefs a)) < NINODE)%nat → ∃ i x, inodes s !! i = Some x ∧ iref x = 0.
Proof.
  intros R Hsz. destruct (decide (Forall (λ i, i ∈ (map_to_list H).*2) (seq 0 NINODE))) as [Hall|Hno].
  - exfalso. assert (seq 0 NINODE ⊆+ (map_to_list H).*2) as Hsub.
    { apply NoDup_submseteq; [apply NoDup_seq|]. intros i Hi. rewrite list.Forall_forall in Hall. by apply Hall. }
    apply submseteq_length in Hsub. rewrite length_seq, length_fmap, length_map_to_list in Hsub.
    rewrite <-(ir_dom _ _ _ _ _ R), size_dom in Hsz. lia.
  - apply not_Forall_Exists in Hno; [|intros ?; apply _]. apply list.Exists_exists in Hno as (i & Hi & Hno).
    apply elem_of_seq in Hi. destruct (lookup_lt_is_Some_2 (inodes s) i) as [x Hx]; [rewrite (ir_len _ _ _ _ _ R); lia|].
    exists i, x. split; [done|]. apply (ir_free _ _ _ _ _ R i x Hx). intros n Hn. apply Hno.
    apply list_elem_of_fmap. exists (n, i). split; [done|]. by apply elem_of_map_to_list.
Qed.

(** Entry [i] becomes (or stays) the one of inode [n]. *)
Lemma irel_set L v H a s s' n i k x' lk :
  irel L v H a s → txf ∅ L v s' → sb s' = sb s → inodes s' = <[i := x']> (inodes s) →
  (i < length (inodes s))%nat → (∀ m, H !! m = Some i → m = n) → (H !! n = Some i ∨ H !! n = None) →
  (∀ m, m ≠ n → m ∈ lk ↔ m ∈ ilocked a) →
  entry v lk n k x' → irel L v (<[n := i]> H) (ISpec (<[n := k]> (irefs a)) lk) s'.
Proof.
  intros R Ht Hsb Hin Hlt Hown Hn Hlk E. destruct R as [R1 R2 R3 R4 R5 R6 R7]. split; simpl.
  - done.
  - by rewrite Hsb.
  - by rewrite Hin, length_insert.
  - rewrite !dom_insert_L. by rewrite R4.
  - intros m Hm. rewrite dom_insert_L. destruct (decide (m = n)); [set_solver|]. apply Hlk in Hm; [|done]. set_solver.
  - intros m j. rewrite Hin. destruct (decide (m = n)) as [->|Hne].
    + rewrite lookup_insert_eq. intros [= <-]. exists x', k. by rewrite list_lookup_insert_eq, lookup_insert_eq.
    + rewrite !lookup_insert_ne by done. intros Hj. destruct (R6 m j Hj) as (x & k' & Hx & Hk & E').
      exists x, k'. rewrite list_lookup_insert_ne by (intros ->; by apply Hne, Hown). split; [done|]. split; [done|].
      destruct E' as [E1 E2 E3 E4 E5]. split; try done; [|by intros ?%Hlk; auto].
      rewrite E3. apply bool_decide_ext. symmetry. by apply Hlk.
  - intros j x. rewrite Hin. intros Hx Hno. destruct (decide (j = i)) as [->|Hji].
    + destruct (Hno n). apply lookup_insert_eq.
    + rewrite list_lookup_insert_ne in Hx by done. apply (R7 j x Hx). intros m Hm. apply (Hno m).
      destruct (decide (m = n)) as [->|]; [|by rewrite lookup_insert_ne]. destruct Hn; congruence.
Qed.

Lemma ispec_eta a : ISpec (irefs a) (ilocked a) = a.
Proof. by destruct a. Qed.

Lemma entry_ref v lk n k k' x :
  entry v lk n k x → 1 ≤ k' < 2 ^ 31 - 1 → entry v lk n k' (set_ref k' x).
Proof. intros [] Hk. by split. Qed.

(** More references to an inode that is cached. *)
Lemma irel_more L v H a s n i x k :
  irel L v H a s → H !! n = Some i → inodes s !! i = Some x → irefs a !! n = Some k → entry v (ilocked a) n k x →
  k < 2 ^ 31 - 2 → irel L v (<[n := i]> H) (ISpec (<[n := k + 1]> (irefs a)) (ilocked a)) (put_ino s i (set_ref (k + 1) x)).
Proof.
  intros R Hn Hx Hk E Hlt. destruct (en_ref _ _ _ _ _ E).
  eapply irel_set; [exact R|apply R|done|done|by eapply lookup_lt_Some|by intros m ?; eapply (irel_inj L v H a s)|by left|done|].
  eapply entry_ref; [exact E|lia].
Qed.

(** Whose an entry is. *)
Lemma irel_owner L v H a s i x :
  irel L v H a s → inodes s !! i = Some x →
  (∃ n k, H !! n = Some i ∧ irefs a !! n = Some k ∧ entry v (ilocked a) n k x) ∨ iref x = 0 ∧ ∀ n, H !! n ≠ Some i.
Proof.
  intros R Hx. destruct (decide (Exists (λ p, p.2 = i) (map_to_list H))) as [He|Hno].
  - left. apply list.Exists_exists in He as ([m j] & Hm%elem_of_map_to_list & Hj). simpl in Hj. subst j.
    destruct (ir_entry _ _ _ _ _ R m i Hm) as (y & k & Hy & Hk & E). rewrite Hx in Hy. simplify_eq. by exists m, k.
  - right. assert (∀ n, H !! n ≠ Some i) as Hno'.
    { intros n Hn. apply Hno, list.Exists_exists. exists (n, i). split; [by apply elem_of_map_to_list|done]. }
    split; [|done]. by apply (ir_free _ _ _ _ _ R i).
Qed.

(** [iget] gives back the pointer the client has, if it has one. *)
Lemma iget_refines_same L v n H a s :
  irel L v H a s → i_ok v (IGet n) a → wp (iget ROOTDEV n) s (λ i s', irel L v (<[n := i]> H) (i_step (IGet n) a) s' ∧
    (H !! n = Some i ∨ n ∉ dom (irefs a))).
Proof.
  intros R (Hn & Hmax & Hroom). pose proof (tx_held _ _ _ _ _ (ir_tx _ _ _ _ _ R)) as Hh.
  assert (∀ j y, inodes s !! j = Some y → n ∈ dom (irefs a) → ∃ k z, inodes s !! k = Some z ∧ 0 < iref z ∧ idev z = ROOTDEV ∧ inum z = n) as Hcached.
  { intros _ _ _ Hd. destruct (irel_handle _ _ _ _ _ n R Hd) as (j & y & k & _ & Hy & _ & E). exists j, y.
    destruct (en_ref _ _ _ _ _ E), (en_id _ _ _ _ _ E) as (? & ? & _). split; [done|]. split; [lia|done]. }
  apply wp_iget; [done| | | |]; simpl.
  - intros i x Hx Hr Hd Hi. destruct (irel_owner _ _ _ _ _ i x R Hx) as [(m & k & HH & Hk & E)|[Hz _]]; [|lia].
    destruct (en_ref _ _ _ _ _ E) as [Hrk _], (en_id _ _ _ _ _ E) as (_ & Hmn & _).
    assert (m = n) as -> by congruence. rewrite Hk in Hmax |- *. simpl in Hmax |- *. rewrite Hrk.
    split; [by eapply irel_more|by left].
  - intros Hno i x Hx Hr.
    assert (n ∉ dom (irefs a)) as Hnd by (intros (k & z & Hz & Hp)%(Hcached i x Hx); by apply (Hno k z Hz)).
    pose proof (proj1 (not_elem_of_dom _ _) Hnd) as Hk. rewrite Hk. simpl. split; [|by right].
    eapply irel_set; [exact R|apply R|done|done|by eapply lookup_lt_Some| | |done|].
    + intros m Hm. destruct (irel_owner _ _ _ _ _ i x R Hx) as [(m' & k & _ & _ & E)|[_ Hz]]; [|by destruct (Hz m)].
      destruct (en_ref _ _ _ _ _ E). lia.
    + right. apply not_elem_of_dom. by rewrite (ir_dom _ _ _ _ _ R).
    + assert (n ∉ ilocked a) as Hnl by (intros ?%(ir_lock _ _ _ _ _ R); done).
      split; simpl; try done; try lia. by rewrite bool_decide_eq_false_2.
  - intros i x Hx Hd Hi. destruct (irel_owner _ _ _ _ _ i x R Hx) as [(m & k & HH & Hk & E)|[-> _]]; [|lia].
    destruct (en_ref _ _ _ _ _ E). lia.
  - intros Hno. destruct Hroom as [Hd|Hroom]; [|by eapply irel_room].
    destruct (irel_handle _ _ _ _ _ n R Hd) as (j & y & _ & _ & Hy & _). exfalso.
    destruct (Hcached j y Hy Hd) as (k & z & Hz & Hp). by apply (Hno k z Hz).
Qed.

Lemma iget_refines L v n H a s :
  irel L v H a s → i_ok v (IGet n) a → wp (iget ROOTDEV n) s (λ i, irel L v (<[n := i]> H) (i_step (IGet n) a)).
Proof. intros R Hok. eapply wp_mono; [by apply iget_refines_same|]. by intros i s' [? _]. Qed.

Lemma ilock_refines L v n i H a s :
  irel L v H a s → (size L ≤ cap)%nat → i_ok v (ILock n) a → H !! n = Some i →
  wp (ilock i) s (λ _, irel L v H (i_step (ILock n) a)).
Proof.
  intros R Hc (Hd & Hnl & Hty) HH. destruct (ir_entry _ _ _ _ _ R n i HH) as (x & k & Hx & Hk & E).
  destruct E as [[E1 E1'] (E2 & E3 & E4) E5 E6 E7]. subst n.
  eapply (wp_ilock L v); [apply R|apply R|done|done|done|lia|by rewrite E5, bool_decide_eq_false_2|done|done|].
  intros t Ht. simpl.
  replace (irefs a) with (<[inum x := k]> (irefs a)) by by apply insert_id.
  replace H with (<[inum x := i]> H) by by apply insert_id.
  eapply irel_set; [exact R|exact Ht|done|done|by eapply lookup_lt_Some|by intros m ?; eapply (irel_inj L v H a s)|by left|set_solver|].
  split; simpl; try done.
  - by rewrite bool_decide_eq_true_2 by set_solver.
  - intros _. destruct (ivalid x); [by apply E6|done].
Qed.

Lemma iunlock_refines L v n i H a s :
  irel L v H a s → i_ok v (IUnlock n) a → H !! n = Some i →
  wp (iunlock i) s (λ _, irel L v H (i_step (IUnlock n) a)).
Proof.
  intros R Hl HH. pose proof (tx_held _ _ _ _ _ (ir_tx _ _ _ _ _ R)) as Hh. simpl in Hl.
  destruct (ir_entry _ _ _ _ _ R n i HH) as (x & k & Hx & Hk & E). destruct E as [[E1 E1'] (E2 & E3 & E4) E5 E6 E7].
  eapply wp_iunlock; [done|done|lia|by rewrite E5, bool_decide_eq_true_2|]. simpl.
  replace (irefs a) with (<[n := k]> (irefs a)) by by apply insert_id.
  replace H with (<[n := i]> H) by by apply insert_id.
  eapply irel_set; [exact R|apply R|done|done|by eapply lookup_lt_Some|by intros m ?; eapply (irel_inj L v H a s)|by left|set_solver|].
  split; simpl; try done; [|set_solver]. by rewrite bool_decide_eq_false_2 by set_solver.
Qed.

(** The last reference goes. *)
Lemma irel_drop L v H a s n i x k :
  irel L v H a s → H !! n = Some i → inodes s !! i = Some x → (n ∉ ilocked a) → iref k = 0 →
  irel L v (delete n H) (ISpec (delete n (irefs a)) (ilocked a)) (put_ino s i k).
Proof.
  intros R HH Hx Hnl Hz. pose proof (irel_inj L v H a s) as Hinj. destruct R as [R1 R2 R3 R4 R5 R6 R7].
  split; simpl; try done.
  - by rewrite length_insert.
  - rewrite !dom_delete_L. by rewrite R4.
  - rewrite dom_delete_L. set_solver.
  - intros m j. rewrite lookup_delete_Some. intros [Hne Hj]. destruct (R6 m j Hj) as (y & k' & Hy & Hk' & E).
    exists y, k'. rewrite lookup_delete_ne by done. rewrite list_lookup_insert_ne; [done|]. intros ->.
    apply Hne. by apply (Hinj n m j).
  - intros j y Hy Hno. destruct (decide (j = i)) as [->|Hji].
    + rewrite list_lookup_insert_eq in Hy by by eapply lookup_lt_Some. by simplify_eq.
    + rewrite list_lookup_insert_ne in Hy by done. apply (R7 j y Hy). intros m Hm. apply (Hno m).
      rewrite lookup_delete_ne; [done|]. intros ->. congruence.
Qed.

Lemma iput_refines L v n i H a s :
  irel L v H a s → i_ok v (IPut n) a → H !! n = Some i →
  wp (iput i) s (λ _, irel L v (if decide (default 0 (irefs a !! n) = 1) then delete n H else H) (i_step (IPut n) a)).
Proof.
  intros R (Hd & Hnl & Hlk) HH. pose proof (tx_held _ _ _ _ _ (ir_tx _ _ _ _ _ R)) as Hh.
  destruct (ir_entry _ _ _ _ _ R n i HH) as (x & k & Hx & Hk & E). pose proof (en_ref _ _ _ _ _ E) as [E1 E1'].
  eapply wp_iput_keep; [done|done|lia| |].
  { intros (_ & Hv & Hz). by rewrite (en_valid _ _ _ _ _ E Hv) in Hz. }
  simpl. rewrite Hk. simpl. destruct (decide (k = 1)) as [->|Hk1].
  - rewrite decide_True by done. eapply irel_drop; [exact R|done|done|done|]. simpl. lia.
  - rewrite decide_False by congruence. replace H with (<[n := i]> H) by by apply insert_id.
    eapply irel_set; [exact R|apply R|done|done|by eapply lookup_lt_Some|by intros m ?; eapply (irel_inj L v H a s)|by left|done|].
    rewrite E1. eapply entry_ref; [exact E|lia].
Qed.

Lemma run_iop_refines L v o H a s :
  irel L v H a s → (size L ≤ cap)%nat → i_ok v o a →
  wp (run_iop o H (λ n, default 0 (irefs a !! n))) s (λ H', irel L v H' (i_step o a)).
Proof.
  intros R Hc Hok. pose proof (tx_held _ _ _ _ _ (ir_tx _ _ _ _ _ R)) as Hh.
  assert (∀ n, n ∈ dom (irefs a) → ∃ i, H !! n = Some i) as Hhan.
  { intros n Hn. destruct (irel_handle _ _ _ _ _ n R Hn) as (i & _ & _ & ? & _). by exists i. }
  destruct o as [n|n|n|n|n]; cbn [run_iop].
  - apply wp_bind. eapply wp_mono; [by apply iget_refines|]. intros i s' R'. by apply wp_ret.
  - destruct Hok as (k & Hk & Hmax).
    destruct (irel_handle _ _ _ _ _ n R) as (i & x & k' & HH & Hx & Hk' & E); [by apply elem_of_dom|]. simplify_eq.
    destruct (en_ref _ _ _ _ _ E) as [Hr Hr']. simpl. rewrite Hk. simpl.
    apply wp_bind, (wp_unwrap _ i); [done|]. apply wp_bind. eapply wp_idup; [done|done|lia|]. apply wp_ret. rewrite Hr.
    by eapply irel_more.
  - destruct (Hhan n (proj1 Hok)) as [i HH]. apply wp_bind, (wp_unwrap _ i); [done|]. apply wp_bind.
    eapply wp_mono; [by apply (ilock_refines L v n i H a)|]. intros [] s' R'. by apply wp_ret.
  - destruct (Hhan n) as [i HH]; [by apply (ir_lock _ _ _ _ _ R)|]. apply wp_bind, (wp_unwrap _ i); [done|]. apply wp_bind.
    eapply wp_mono; [by apply (iunlock_refines L v n i H a)|]. intros [] s' R'. by apply wp_ret.
  - destruct (Hhan n (proj1 Hok)) as [i HH]. apply wp_bind, (wp_unwrap _ i); [done|]. apply wp_bind.
    eapply wp_mono; [by apply (iput_refines L v n i H a)|]. intros [] s' R'. by apply wp_ret.
Qed.

Lemma run_iops_refines L v os : ∀ H a s,
  irel L v H a s → (size L ≤ cap)%nat → i_oks v os a →
  wp (run_iops os H a) s (λ H', irel L v H' (foldl (λ a o, i_step o a) a os)).
Proof.
  induction os as [|o os IH]; intros H a s R Hc Hok; simpl; [by apply wp_ret|].
  destruct Hok as [Ho Hok]. apply wp_bind. eapply wp_mono; [by apply (run_iop_refines L v o H a)|].
  intros H' s' R'. by apply IH.
Qed.

(** ** [itrunc]: the blocks of a file go back to the free map *)

Abbreviation used := (used fsb).
Abbreviation data_block := (data_block fsb dstart).
Abbreviation fs_ok := (fs_ok fsb dstart).
Abbreviation file_ok := (file_ok fsb dstart).

Lemma Forall_snoc {A} (P : A → Prop) l x : Forall P (l ++ [x]) → Forall P l ∧ P x.
Proof. rewrite Forall_app, Forall_singleton. done. Qed.

Definition freed (v : Z → block) (F : list Z) : Z → block := foldl (unmark fsb) v F.

Lemma freed_snoc v F b : freed v (F ++ [b]) = unmark fsb (freed v F) b.
Proof. unfold freed. by rewrite foldl_app. Qed.

Lemma freed_ok v F : fs_ok v → Forall data_block F → fs_ok (freed v F).
Proof.
  intros Hv HF. induction F as [|b F IH] using rev_ind; [done|].
  apply Forall_snoc in HF as [HF Hb]. rewrite freed_snoc. apply (fs_ok_unmark fsb dstart Hlay); [by apply IH|done].
Qed.

Lemma freed_used v F c :
  fs_ok v → Forall data_block F → 0 ≤ c → used (freed v F) c = if decide (c ∈ F) then false else used v c.
Proof.
  intros Hv HF Hc. induction F as [|b F IH] using rev_ind; [by rewrite decide_False by apply not_elem_of_nil|].
  apply Forall_snoc in HF as [HF Hb]. rewrite freed_snoc.
  rewrite (used_unmark fsb dstart Hlay); [|by apply freed_ok|by eapply data_range|done].
  rewrite IH by done. destruct (decide (c = b)) as [->|Hne].
  - rewrite decide_True; [done|]. apply elem_of_app. right. by apply list_elem_of_singleton.
  - destruct (decide (c ∈ F)); [rewrite decide_True; [done|]|rewrite decide_False; [done|]]; set_solver.
Qed.

Lemma freed_keep v F b : (∀ c, 0 ≤ c < sb_size fsb → b ≠ BBLOCK c fsb) → Forall data_block F → freed v F b = v b.
Proof.
  intros Hb HF. induction F as [|a F IH] using rev_ind; [done|].
  apply Forall_snoc in HF as [HF Ha]. rewrite freed_snoc. unfold unmark. rewrite upd_ne; [auto|].
  apply Hb. by eapply data_range.
Qed.

(** [bfree] of one more block. *)
Lemma wp_bfree_more U B L v s F b (Q : unit → st → Prop) :
  let w := freed v F in
  txf B L w s → sb s = fsb → fs_ok v → Forall data_block F →
  (∀ c, c ∈ dom B → data_block c ∧ used v c = true ∧ (c ∉ F)) → within fsb U L → (size U + size (dom B) ≤ cap)%nat →
  data_block b → used v b = true → (b ∉ F) →
  (∀ t L', tx B ∅ L' (freed v (F ++ [b])) t → within fsb U L' → Q tt (set_blk t s)) → wp (bfree ROOTDEV b) s Q.
Proof.
  intros w Ht Hsb Hv HF HB HU Hsz Hb Hu Hn HQ.
  assert (∀ c, data_block c → 0 ≤ c) as Hpos by (intros c Hc; apply (data_range fsb dstart Hlay) in Hc; lia).
  eapply (wp_bfree fsb dstart Hlay U B L w); try done.
  - by apply freed_ok.
  - intros c Hc. destruct (HB c Hc) as (Hd & Hcu & HcF). split; [done|]. unfold w. rewrite freed_used by auto.
    by rewrite decide_False.
  - unfold w. rewrite freed_used by auto. by rewrite decide_False.
  - intros t Ht'. eapply HQ; [rewrite freed_snoc; exact Ht'|]. apply (within_bmap fsb dstart Hlay); [done|]. by apply (data_range fsb dstart Hlay).
Qed.

(** The nonzero entries among the first ones. *)
Definition nonzero (l : list Z) : list Z := filter (λ a, a ≠ 0) l.

Lemma nonzero_snoc l a : nonzero (l ++ [a]) = nonzero l ++ (if decide (a = 0) then [] else [a]).
Proof.
  unfold nonzero. rewrite list.filter_app, list.filter_cons. destruct (decide (a = 0)) as [->|Ha].
  - by rewrite decide_False by (intros H; by apply H).
  - by rewrite decide_True.
Qed.

Lemma nonzero_app l1 l2 : nonzero (l1 ++ l2) = nonzero l1 ++ nonzero l2.
Proof. apply list.filter_app. Qed.

Lemma elem_nonzero l a : a ∈ nonzero l ↔ a ≠ 0 ∧ a ∈ l.
Proof. unfold nonzero. by rewrite list_elem_of_filter. Qed.

(** The direct blocks are released one by one. *)
Definition cleared (k : nat) (d : dinode) : dinode :=
  Dinode (d_type d) (d_major d) (d_minor d) (d_nlink d) (d_size d) (replicate k 0 ++ drop k (d_addrs d)).

Lemma cleared_step k d a :
  d_addrs d !! k = Some a → d_addrs (cleared k d) !! k = Some a ∧
  set_daddr k 0 (cleared k d) = cleared (Datatypes.S k) d ∧ (a = 0 → cleared k d = cleared (Datatypes.S k) d).
Proof.
  intros Ha. assert (k < length (d_addrs d))%nat by by eapply lookup_lt_Some.
  assert (drop k (d_addrs d) = a :: drop (Datatypes.S k) (d_addrs d)) as Hdr by by apply drop_S.
  assert (replicate (Datatypes.S k) 0 = replicate k 0 ++ [0]) as Hrep by apply replicate_S_end.
  unfold cleared, set_daddr. rewrite Hrep, Hdr, <-app_assoc. simpl. split; [|split].
  - rewrite lookup_app_r by (rewrite length_replicate; lia). by rewrite length_replicate, Nat.sub_diag.
  - f_equal. rewrite insert_app_r_alt by (rewrite length_replicate; lia). by rewrite length_replicate, Nat.sub_diag.
  - by intros ->.
Qed.

Lemma owned_data v d a : file_ok v d → a ∈ nonzero (slots v d) → data_block a ∧ used v a = true.
Proof. intros F Ha. by apply (f_data _ _ _ _ F). Qed.

Lemma wp_free_direct U L v s i x :
  let d := idata x in
  txf ∅ L v s → sb s = fsb → fs_ok v → inodes s !! i = Some x → idev x = ROOTDEV → file_ok v d → within fsb U L →
  wp (kfor (seq 0 12) (free_addr i)) s (λ _ s', ∃ t L', s' = with_ino s t i x (cleared 12 d) ∧
    tx ∅ ∅ L' (freed v (nonzero (take 12 (d_addrs d)))) t ∧ within fsb U L').
Proof.
  intros d Ht Hsb Hv Hi Hdev F HU.
  assert (length (d_addrs d) = 13%nat) as Hlen by apply F.
  eapply (wp_for_split (λ pre s', ∃ t L', s' = with_ino s t i x (cleared (length pre) d) ∧
    tx ∅ ∅ L' (freed v (nonzero (take (length pre) (d_addrs d)))) t ∧ within fsb U L')).
  - exists (blk s), L. split; [|done]. rewrite <-(with_ino_id s i x Hi) at 1. unfold cleared. simpl. fold d. by destruct d.
  - intros pre k post s' Hl (t & L' & -> & Ht' & HU').
    assert (k = length pre ∧ (length pre < 12)%nat) as [-> Hk].
    { assert (seq 0 12 !! length pre = Some k) as Hs by (rewrite Hl; apply list_lookup_middle; done).
      apply lookup_seq in Hs. lia. }
    set (k := length pre) in *. destruct (lookup_lt_is_Some_2 (d_addrs d) k) as [a Ha]; [lia|].
    destruct (cleared_step k d a Ha) as (C1 & C2 & C3).
    rewrite length_app. simpl. rewrite Nat.add_1_r. fold k.
    rewrite (take_S_r _ _ a Ha), nonzero_snoc.
    unfold free_addr. apply wp_bind, (wp_geti _ _ (set_idata (cleared k d) x)); [by apply with_ino_lookup|].
    apply wp_bind, (wp_unwrap _ a); [done|]. apply wp_when; intros Hz.
    + apply negb_true_iff, bool_decide_eq_false in Hz. rewrite decide_False by done.
      pose proof (f_nodup _ _ _ _ F) as Hnd. change (owned v d) with (nonzero (slots v d)) in Hnd.
      assert (slots v d = take k (d_addrs d) ++ a :: (drop (Datatypes.S k) (d_addrs d) ++ indirect v d)) as Hsl.
      { unfold slots. rewrite <-(take_drop_middle (d_addrs d) k a Ha) at 1. by rewrite <-app_assoc. }
      assert (Forall data_block (nonzero (take k (d_addrs d)))) as HF.
      { apply list.Forall_forall. intros b [Hb0 Hb]%elem_nonzero. eapply owned_data; [exact F|]. apply elem_nonzero.
        split; [done|]. rewrite Hsl. set_solver. }
      rewrite Hsl, nonzero_app in Hnd. unfold nonzero at 2 in Hnd. rewrite list.filter_cons_True in Hnd by done.
      apply list.NoDup_app in Hnd as (_ & Hdis & _).
      destruct (owned_data v d a F) as [Hda Hua]; [apply elem_nonzero; split; [done|rewrite Hsl; set_solver]|].
      apply wp_bind. change (idev (set_idata (cleared k d) x)) with (idev x). rewrite Hdev.
      eapply (wp_bfree_more U ∅ L' v _ (nonzero (take k (d_addrs d)))); try done.
      * rewrite dom_empty_L, size_empty. destruct HU. lia.
      * intros Hin. apply (Hdis a Hin). by constructor.
      * intros t1 L1 Ht1 HU1. unfold set_addr.
        apply wp_bind, (wp_geti _ _ (set_idata (cleared k d) x)); [exact (with_ino_lookup s t i x _ Hi)|]. apply wp_modify.
        exists t1, L1. split; [|done]. cbn [idata set_idata]. rewrite C2.
        unfold with_ino, set_inodes, set_blk. simpl. by rewrite list_insert_insert_eq.
    + apply negb_false_iff, bool_decide_eq_true in Hz. rewrite decide_True, app_nil_r by done.
      exists t, L'. split; [|done]. by rewrite C3.
  - intros s' (t & L' & -> & Ht' & HU'). rewrite length_seq in *. by exists t, L'.
Qed.

Lemma wp_free_entries U B L v s F0 b :
  txf B L (freed v F0) s → sb s = fsb → fs_ok v → within fsb U L → (size U + size (dom B) ≤ cap)%nat →
  (∀ c, c ∈ dom B → data_block c ∧ used v c = true ∧ (c ∉ F0 ++ nonzero (ind_list b))) →
  NoDup (F0 ++ nonzero (ind_list b)) → Forall (λ a, data_block a ∧ used v a = true) (F0 ++ nonzero (ind_list b)) →
  wp (kfor (seq 0 (Z.to_nat NINDIRECT)) (λ j,
        kwhen (negb (bool_decide (ind_get b (Z.of_nat j) = 0)%Z)) (bfree ROOTDEV (ind_get b (Z.of_nat j))))) s
     (λ _ s', ∃ t L', s' = set_blk t s ∧ tx B ∅ L' (freed v (F0 ++ nonzero (ind_list b))) t ∧ within fsb U L').
Proof.
  intros Ht Hsb Hv HU Hsz HB Hnd HF. change (Z.to_nat NINDIRECT) with 128%nat.
  assert (take 128 (ind_list b) = ind_list b) as Htk by (apply take_ge; rewrite length_ind_list; done).
  eapply (wp_for_split (λ pre s', ∃ t L', s' = set_blk t s ∧
    tx B ∅ L' (freed v (F0 ++ nonzero (take (length pre) (ind_list b)))) t ∧ within fsb U L')).
  - exists (blk s), L. rewrite set_blk_same. simpl. by rewrite app_nil_r.
  - intros pre k post s' Hl (t & L' & -> & Ht' & HU').
    assert (k = length pre ∧ (length pre < 128)%nat) as [-> Hk].
    { assert (seq 0 128 !! length pre = Some k) as Hs by (rewrite Hl; apply list_lookup_middle; done).
      apply lookup_seq in Hs. lia. }
    set (k := length pre) in *. rewrite length_app. simpl. rewrite Nat.add_1_r. fold k.
    pose proof (ind_list_lookup b k Hk) as Ha. set (a := ind_get b (Z.of_nat k)) in *.
    rewrite (take_S_r _ _ a Ha), nonzero_snoc.
    assert (ind_list b = take k (ind_list b) ++ a :: drop (Datatypes.S k) (ind_list b)) as Hsp by (symmetry; by apply take_drop_middle).
    apply wp_when; intros Hz.
    + apply negb_true_iff, bool_decide_eq_false in Hz. rewrite decide_False by done.
      assert (nonzero (ind_list b) = nonzero (take k (ind_list b)) ++ a :: nonzero (drop (Datatypes.S k) (ind_list b))) as Hnz.
      { rewrite Hsp at 1. rewrite nonzero_app. unfold nonzero at 2. by rewrite list.filter_cons_True. }
      rewrite Hnz in HB, Hnd, HF. rewrite (app_assoc F0) in HB, Hnd, HF.
      set (F := F0 ++ nonzero (take k (ind_list b))) in *.
      apply Forall_app in HF as [HF1 HF2]. apply list.Forall_cons in HF2 as [[Hda Hua] _].
      apply list.NoDup_app in Hnd as (_ & Hdis & _).
      eapply (wp_bfree_more U B L' v _ F); try done.
      * eapply list.Forall_impl; [exact HF1|]. by intros ? [? _].
      * intros c Hc. destruct (HB c Hc) as (? & ? & Hn). split; [done|]. split; [done|].
        intros Hin. apply Hn, elem_of_app. by left.
      * intros Hin. apply (Hdis a Hin). by constructor.
      * intros t1 L1 Ht1 HU1. exists t1, L1. split; [done|]. rewrite app_assoc. by fold F.
    + apply negb_false_iff, bool_decide_eq_true in Hz. rewrite decide_True, app_nil_r by done. by exists t, L'.
  - intros s' (t & L' & -> & Ht' & HU'). rewrite length_seq, Htk in Ht'. by exists t, L'.
Qed.

(** What [itrunc] leaves of the inode. *)
Definition truncated (d : dinode) : dinode :=
  Dinode (d_type d) (d_major d) (d_minor d) (d_nlink d) 0 (replicate 13 0).

Lemma dinode_ok_truncated d : dinode_ok d → dinode_ok (truncated d).
Proof.
  intros []. split; try done. intros a. change (d_addrs (truncated d)) with (replicate 13 0). intros Ha. unfold uint.
  apply list_elem_of_lookup in Ha as [k Hk]. apply lookup_replicate in Hk as [-> _]. lia.
Qed.

Lemma truncated_empty v d : owned v (truncated d) = [].
Proof. reflexivity. Qed.

(** The blocks of a file, in the order [itrunc] frees them. *)
Definition trunc_order (v : Z → block) (d : dinode) : list Z :=
  if decide (ind_addr d = 0) then nonzero (take 12 (d_addrs d))
  else (nonzero (take 12 (d_addrs d)) ++ nonzero (ind_list (v (ind_addr d)))) ++ [ind_addr d].

Lemma trunc_order_perm v d : dinode_ok d → trunc_order v d ≡ₚ owned v d.
Proof.
  intros Hd. unfold trunc_order. change (owned v d) with (nonzero (slots v d)). unfold slots.
  assert (d_addrs d = take 12 (d_addrs d) ++ [ind_addr d]) as Hsp.
  { unfold ind_addr. destruct (lookup_lt_is_Some_2 (d_addrs d) 12) as [a Ha]; [rewrite (do_addrs d Hd); lia|].
    rewrite Ha. simpl. rewrite <-(take_S_r _ _ a Ha). symmetry. apply take_ge. by rewrite (do_addrs d Hd). }
  assert (nonzero (d_addrs d) = nonzero (take 12 (d_addrs d)) ++ nonzero [ind_addr d]) as Hnz by (by rewrite <-nonzero_app, <-Hsp).
  rewrite nonzero_app, Hnz. clear Hsp Hnz. unfold indirect. destruct (decide (ind_addr d = 0)) as [Hz|Hz].
  - rewrite Hz. change (nonzero [0]) with (@nil Z). assert (nonzero (replicate (Z.to_nat NINDIRECT) 0) = []) as -> by reflexivity.
    by rewrite !app_nil_r.
  - assert (nonzero [ind_addr d] = [ind_addr d]) as -> by (unfold nonzero; by rewrite list.filter_cons_True).
    rewrite <-!app_assoc. f_equiv. apply Permutation_app_comm.
Qed.

Lemma cleared_all d : dinode_ok d → ind_addr d = 0 → d_addrs (cleared 12 d) = replicate 13 0.
Proof.
  intros Hd Hz. simpl. unfold ind_addr in Hz.
  destruct (lookup_lt_is_Some_2 (d_addrs d) 12) as [a Ha]; [rewrite (do_addrs d Hd); lia|]. rewrite Ha in Hz. simpl in Hz. subst a.
  rewrite (drop_S _ _ _ Ha), drop_ge by (by rewrite (do_addrs d Hd)). done.
Qed.

Lemma cleared_ind d : dinode_ok d → d_addrs (cleared 12 d) !! 12%nat = Some (ind_addr d) ∧
  <[12%nat := 0]> (d_addrs (cleared 12 d)) = replicate 13 0.
Proof.
  intros Hd. destruct (lookup_lt_is_Some_2 (d_addrs d) 12) as [a Ha]; [rewrite (do_addrs d Hd); lia|].
  destruct (cleared_step 12 d a Ha) as (C1 & C2 & _). unfold ind_addr. rewrite C1, Ha. split; [done|].
  change (<[12%nat := 0]> (d_addrs (cleared 12 d))) with (d_addrs (set_daddr 12 0 (cleared 12 d))). rewrite C2.
  unfold cleared. cbn [d_addrs]. rewrite drop_ge by by rewrite (do_addrs d Hd). by rewrite app_nil_r.
Qed.

Lemma trunc_data v d : file_ok v d → Forall (λ a, data_block a ∧ used v a = true) (trunc_order v d) ∧ NoDup (trunc_order v d).
Proof.
  intros F. assert (dinode_ok d) as Hd by apply F. pose proof (trunc_order_perm v d Hd) as Hp. split.
  - apply list.Forall_forall. intros a. rewrite Hp. apply (f_data _ _ _ _ F).
  - rewrite Hp. apply F.
Qed.

(** All blocks freed, the addresses cleared; what remains is the size. *)
Lemma wp_itrunc_blocks U L v s i x (k : kM st unit) (Q : unit → st → Prop) :
  let d := idata x in
  txf ∅ L v s → sb s = fsb → fs_ok v → inodes s !! i = Some x → idev x = ROOTDEV → file_ok v d → within fsb U L →
  (∀ t L', tx ∅ ∅ L' (freed v (trunc_order v d)) t → within fsb U L' →
     wp k (with_ino s t i x (Dinode (d_type d) (d_major d) (d_minor d) (d_nlink d) (d_size d) (replicate 13 0))) Q) →
  wp (kfor (seq 0 (Z.to_nat NDIRECT)) (free_addr i) ;;
      x ← geti i;
      addr ← kunwrap (d_addrs (idata x) !! Z.to_nat NDIRECT);
      kwhen (negb (bool_decide (addr = 0)%Z))
        (bp ← fbread (idev x) addr;
         d ← fdata bp;
         kfor (seq 0 (Z.to_nat NINDIRECT)) (λ j,
           kwhen (negb (bool_decide (ind_get d (Z.of_nat j) = 0)%Z)) (bfree (idev x) (ind_get d (Z.of_nat j)))) ;;
         fbrelse bp ;;
         bfree (idev x) addr ;;
         set_addr i (Z.to_nat NDIRECT) 0) ;; k) s Q.
Proof.
  intros d Ht Hsb Hv Hi Hdev F HU HQ. assert (dinode_ok d) as Hd by apply F.
  destruct (trunc_data v d F) as [HFa HFn].
  change (Z.to_nat NDIRECT) with 12%nat. apply wp_bind. eapply wp_mono; [by apply (wp_free_direct U L v s i x)|].
  fold d. intros [] s1 (t1 & L1 & -> & Ht1 & HU1). set (d1 := cleared 12 d) in *. set (x1 := set_idata d1 x).
  set (F0 := nonzero (take 12 (d_addrs d))) in *. destruct (cleared_ind d Hd) as [C1 C2].
  apply wp_bind, (wp_geti _ _ x1); [exact (with_ino_lookup s t1 i x d1 Hi)|].
  apply wp_bind, (wp_unwrap _ (ind_addr d)); [exact C1|]. change (idev x1) with (idev x). rewrite Hdev.
  apply wp_bind, wp_when; intros Hz.
  2: { apply negb_false_iff, bool_decide_eq_true in Hz. unfold trunc_order in HQ. rewrite decide_True in HQ by done.
       specialize (HQ t1 L1 Ht1 HU1). rewrite <-(cleared_all d Hd Hz) in HQ. exact HQ. }
  apply negb_true_iff, bool_decide_eq_false in Hz. unfold trunc_order in HQ, HFa, HFn.
  rewrite decide_False in HQ, HFa, HFn by done. fold F0 in HQ, HFa, HFn.
  set (ia := ind_addr d) in *. destruct (ind_owned fsb dstart v d F Hz) as [Hid Hiu]. fold ia in Hid, Hiu.
  destruct (data_range fsb dstart Hlay ia Hid) as (Hir & _ & _).
  assert (Forall data_block F0) as HF0.
  { apply list.Forall_forall. intros a Ha. rewrite list.Forall_forall in HFa. apply (HFa a). set_solver. }
  assert (size U + size (dom (<[ia := 0%nat]> (∅ : gmap Z nat))) ≤ cap)%nat as Hsz.
  { rewrite dom_insert_L, dom_empty_L, union_empty_r_L, size_singleton. destruct HU. lia. }
  apply wp_bind. eapply wp_fbread; [exact Ht1|apply lookup_empty|done| |].
  { right. eapply (within_room fsb dstart Hlay); [exact HU1|]. rewrite dom_empty_L, size_empty. destruct HU. lia. }
  intros bp t2 Ht2. apply wp_bind. eapply (wp_fdata _ _ _ _ ia); [exact Ht2|apply lookup_insert_eq|].
  assert (freed v F0 ia = v ia) as -> by (apply freed_keep; [by apply (data_meta fsb dstart Hlay)|done]).
  apply list.NoDup_app in HFn as (HFn & HFd & _). apply Forall_snoc in HFa as [HFa _].
  assert (∀ c, c ∈ dom (<[ia := bp]> (∅ : gmap Z nat)) → c = ia) as Hdom.
  { intros c. rewrite dom_insert_L, dom_empty_L, union_empty_r_L. by intros ->%elem_of_singleton. }
  apply wp_bind. eapply wp_mono.
  { apply (wp_free_entries U (<[ia := bp]> ∅) L1 v (set_blk t2 (with_ino s t1 i x d1)) F0 (v ia)); try done.
    - by rewrite dom_insert_L in Hsz |- *.
    - intros c ->%Hdom. split; [done|]. split; [done|]. intros Hin. apply (HFd ia Hin). by constructor. }
  intros [] s3 (t3 & L3 & -> & Ht3 & HU3). apply wp_bind.
  eapply (wp_fbrelse _ _ _ _ ia); [exact Ht3|apply lookup_insert_eq|].
  intros t4 Ht4. rewrite delete_insert_id in Ht4 by apply lookup_empty. apply wp_bind.
  eapply (wp_bfree_more U ∅ L3 v _ (F0 ++ nonzero (ind_list (v ia)))); try done.
  - eapply list.Forall_impl; [exact HFa|]. by intros ? [? _].
  - rewrite dom_empty_L, size_empty. destruct HU. lia.
  - intros Hin. apply (HFd ia Hin). by constructor.
  - intros t5 L5 Ht5 HU5. unfold set_addr. apply wp_bind, (wp_geti _ _ x1); [exact (with_ino_lookup s t1 i x d1 Hi)|].
    apply wp_modify. specialize (HQ t5 L5 Ht5 HU5). rewrite <-C2 in HQ.
    match goal with |- wp _ ?z _ => match type of HQ with wp _ ?y _ => assert (z = y) as -> end end; [|done].
    unfold with_ino, set_inodes, set_blk. simpl. by rewrite list_insert_insert_eq.
Qed.

Lemma wp_itrunc U L v s i x (Q : unit → st → Prop) :
  let d := idata x in
  txf ∅ L v s → sb s = fsb → fs_ok v → inodes s !! i = Some x → idev x = ROOTDEV → file_ok v d → within fsb U L →
  0 ≤ inum x < sb_ninodes fsb →
  (∀ t L', tx ∅ ∅ L' (store_inode fsb (freed v (trunc_order v d)) (inum x) (truncated d)) t →
     L' ⊆ {[IBLOCK (inum x) fsb]} ∪ U → Q tt (with_ino s t i x (truncated d))) →
  wp (itrunc i) s Q.
Proof.
  intros d Ht Hsb Hv Hi Hdev F HU Hn HQ. unfold itrunc. eapply (wp_itrunc_blocks U L v s i x); try done. fold d.
  intros t L' Ht' HU'. set (d1 := Dinode _ _ _ _ _ _).
  apply wp_bind, (wp_geti _ _ (set_idata d1 x)); [by apply with_ino_lookup|]. apply wp_bind, wp_modify.
  match goal with |- wp _ ?z _ => assert (z = with_ino s t i x (truncated d)) as -> end.
  { unfold with_ino, set_inodes, set_blk. simpl. by rewrite list_insert_insert_eq. }
  eapply (wp_iupdate fsb dstart Hlay L' _ _ i (set_idata (truncated d) x)); try done.
  - by apply with_ino_lookup.
  - by eapply within_size.
  - intros t2 Ht2. apply (HQ t2 _ Ht2). destruct HU'. set_solver.
Qed.

(** [iput] of the last reference to a file without links. *)
Definition dead (d : dinode) : dinode := set_dtype 0 (truncated d).

Lemma wp_iput_free U L v s i x (Q : unit → st → Prop) :
  let d := idata x in
  txf ∅ L v s → sb s = fsb → fs_ok v → inodes s !! i = Some x → idev x = ROOTDEV → file_ok v d → within fsb U L →
  0 ≤ inum x < sb_ninodes fsb → (size U + 2 ≤ cap)%nat →
  iref x = 1 → ivalid x = true → d_nlink d = 0 → ibusy x = false →
  (∀ t L', let w := freed v (trunc_order v d) in
     tx ∅ ∅ L' (store_inode fsb (store_inode fsb w (inum x) (truncated d)) (inum x) (dead d)) t →
     Q tt (woke (put_ino (set_blk t s) i (Inode (idev x) (inum x) 0 false false (dead d))) (CInode i))) →
  wp (iput i) s Q.
Proof.
  intros d Ht Hsb Hv Hi Hdev F HU Hn HUc Hr Hval Hnl Hb HQ. pose proof (tx_held _ _ _ _ _ Ht) as Hh.
  unfold iput. apply wp_bind, wp_acquire_ic; [done|]. apply wp_bind, (wp_geti _ _ x); [done|]. fold d.
  rewrite Hr, Hval, Hnl, Hb. change (bool_decide (1 = 1) && true && bool_decide (0 = 0)) with true.
  apply wp_bind. apply wp_bind, wp_assert; [done|]. set (x1 := set_ibusy true x).
  eapply wp_locked_update; [done|done|].
  apply wp_bind. eapply (wp_itrunc U L v _ i x1); try done; [by eapply put_ino_lookup|].
  change (idata x1) with d. change (inum x1) with (inum x). intros t1 L1 Ht1 HL1.
  set (w1 := store_inode fsb (freed v (trunc_order v d)) (inum x) (truncated d)) in *.
  apply wp_bind, (wp_geti _ _ (set_idata (truncated d) x1)).
  { apply with_ino_lookup. by eapply put_ino_lookup. }
  apply wp_bind, wp_modify. set (x2 := set_idata (dead d) x1).
  match goal with |- wp _ ?z _ => assert (z = put_ino (set_blk t1 s) i x2) as -> end.
  { unfold with_ino, put_ino, set_inodes, set_blk. simpl. by rewrite !list_insert_insert_eq. }
  apply wp_bind. eapply (wp_iupdate fsb dstart Hlay L1 w1 _ i x2); try done.
  { by eapply put_ino_lookup. }
  { apply subseteq_size in HL1. pose proof (size_add (IBLOCK (inum x) fsb) U). lia. }
  intros t2 Ht2. pose proof (tx_held _ _ _ _ _ Ht2) as Hh2. change (inum x2) with (inum x) in Ht2. change (idata x2) with (dead d) in Ht2.
  apply wp_bind, wp_acquire_ic; [done|]. apply wp_bind, (wp_geti _ _ x2); [by eapply put_ino_lookup|].
  apply wp_bind, wp_modify. apply wp_modify. set (x3 := set_ibusy false (set_ivalid false x2)).
  apply wp_bind, (wp_geti _ _ x3).
  { simpl. apply list_lookup_insert_eq. rewrite length_insert. by eapply lookup_lt_Some. }
  apply wp_bind, wp_modify. eapply (wp_release_ic _ t2); [done|done|].
  specialize (HQ t2 _ Ht2).
  match goal with |- Q tt ?z => match type of HQ with Q tt ?y => assert (z = y) as -> end end; [|done].
  unfold woke, put_ino, set_inodes, set_blk. simpl. rewrite !list_insert_insert_eq, Hr. done.
Qed.

(** ** Looking a name up *)

Context (dev_read : Z → option (nat → Z → kM (st (S:=S)) (Z * list Z))).
Context (dev_write : Z → option (nat → list Z → Z → kM (st (S:=S)) Z)).

(** A directory: its entries fill it, and its bytes are bytes. *)
Record dir_ok (v : Z → block) (d : dinode) : Prop := {
  di_file : file_ok v d;
  di_type : d_type d = T_DIR;
  di_size : d_size d mod 16 = 0;
  di_bytes : bytes (content v d);
}.

Lemma length_content v d : dinode_ok d → length (content v d) = Z.to_nat (d_size d).
Proof. intros Hd. unfold content. apply length_slice. Qed.

Lemma content_take v d off n :
  dinode_ok d → 0 ≤ off → off + Z.of_nat n ≤ d_size d →
  take n (drop (Z.to_nat off) (content v d)) = slice v d off n.
Proof.
  intros Hd Ho Hn. unfold content. replace (Z.to_nat (d_size d)) with (Z.to_nat off + (n + Z.to_nat (d_size d - off - Z.of_nat n)))%nat by lia.
  rewrite slice_app, drop_app_length' by by rewrite length_slice.
  rewrite slice_app, take_app_length' by by rewrite length_slice. f_equal. lia.
Qed.

Lemma dir_length v d : dir_ok v d → (length (content v d) mod 16 = 0)%nat ∧ d_size d = 16 * Z.of_nat (length (dents (content v d))).
Proof.
  intros [F _ Hm _]. assert (dinode_ok d) as Hd by apply F. pose proof (do_size d Hd) as Hs. unfold uint in Hs.
  rewrite length_dents, length_content by done. split.
  - apply Nat2Z.inj. rewrite Nat2Z.inj_mod, Z2Nat.id by lia. done.
  - rewrite Nat2Z.inj_div, Z2Nat.id by lia. change (Z.of_nat 16) with 16. pose proof (Z.div_mod (d_size d) 16 ltac:(lia)). lia.
Qed.

Lemma dir_offs_eq v d : dir_ok v d →
  dir_offs (d_size d) = (λ k, 16 * Z.of_nat k) <$> seq 0 (length (dents (content v d))).
Proof.
  intros D. destruct (dir_length v d D) as [_ Hs]. unfold dir_offs. f_equal. f_equal. rewrite Hs.
  set (q := length (dents (content v d))). rewrite <-(Z.div_unique (16 * Z.of_nat q + 15) 16 (Z.of_nat q) 15) by lia. lia.
Qed.

Lemma wp_read_de L v s i x k de (Q : list Z → st → Prop) :
  let d := idata x in
  txf ∅ L v s → inodes s !! i = Some x → idev x = ROOTDEV → dir_ok v d → fs_ok v → (size L ≤ cap)%nat →
  dents (content v d) !! k = Some de →
  (∀ t, tx ∅ ∅ L v t → Q de (set_blk t s)) → wp (read_de dev_read i (16 * Z.of_nat k)) s Q.
Proof.
  intros d Ht Hi Hdev D Hv Hc Hde HQ. destruct (dir_length v d D) as [_ Hs]. pose proof D as [F Hty _ _].
  assert (dinode_ok d) as Hd by apply F. pose proof (lookup_lt_Some _ _ _ Hde) as Hk.
  pose proof (f_size _ _ _ _ F) as Hmax. change MAXFILE with 140 in Hmax. change (Z.of_nat BSIZE) with 512 in Hmax.
  rewrite dents_lookup in Hde by (by rewrite length_dents in Hk). simplify_eq.
  replace (16 * k)%nat with (Z.to_nat (16 * Z.of_nat k)) in HQ by lia. rewrite content_take in HQ by (done || lia).
  unfold read_de. apply wp_bind.
  eapply (wp_readi fsb dstart Hlay dev_read L v); try done; fold d;
    try (by rewrite Hty); try (unfold uint; lia).
  intros t Ht'. unfold read_len. rewrite (decide_True (P := 16 * Z.of_nat k ≤ d_size d ∧ 16 * Z.of_nat k + 16 < 2 ^ 32)) by lia.
  rewrite (decide_True (P := 16 * Z.of_nat k + 16 ≤ d_size d)) by lia. cbv zeta.
  apply wp_bind, wp_assert; [done|]. apply wp_ret. by apply HQ.
Qed.

Lemma wp_dirlookup_loop L v i x name : ∀ n k s (Q : option (nat * Z) → st → Prop),
  let d := idata x in let l := dents (content v d) in
  txf ∅ L v s → inodes s !! i = Some x → idev x = ROOTDEV → dir_ok v d → fs_ok v → (size L ≤ cap)%nat →
  (k + n = length l)%nat →
  (∀ t, tx ∅ ∅ L v t → match list_find (matches name) (drop k l) with
     | None => Q None (set_blk t s)
     | Some (j, de) => wp (iget ROOTDEV (de_inum de)) (set_blk t s) (λ ip, Q (Some (ip, 16 * Z.of_nat (k + j))))
     end) →
  wp (dirlookup_loop dev_read i name ((λ k, 16 * Z.of_nat k) <$> seq k n)) s Q.
Proof.
  induction n as [|n IH]; intros k s Q d l Ht Hi Hdev D Hv Hc Hk HQ.
  { cbn [seq fmap list_fmap dirlookup_loop]. apply wp_ret. specialize (HQ (blk s) Ht). rewrite drop_ge in HQ by lia.
    rewrite set_blk_same in HQ. exact HQ. }
  cbn [seq fmap list_fmap dirlookup_loop].
  destruct (lookup_lt_is_Some_2 l k) as [de Hde]; [lia|]. rewrite (drop_S _ _ _ Hde) in HQ. simpl in HQ.
  apply wp_bind. eapply (wp_read_de L v s i x k de); try done. intros t1 Ht1.
  assert (∀ Q', (∀ t, tx ∅ ∅ L v t → match list_find (matches name) (drop (Datatypes.S k) l) with
     | None => Q' None (set_blk t s)
     | Some (j, de) => wp (iget ROOTDEV (de_inum de)) (set_blk t s) (λ ip, Q' (Some (ip, 16 * Z.of_nat (Datatypes.S k + j))))
     end) → wp (dirlookup_loop dev_read i name ((λ k, 16 * Z.of_nat k) <$> seq (Datatypes.S k) n)) (set_blk t1 s) Q') as Hrest.
  { intros Q' HQ'. apply (IH (Datatypes.S k) (set_blk t1 s)); fold d; fold l; try done. lia. }
  assert (¬ matches name de → wp (dirlookup_loop dev_read i name ((λ k, 16 * Z.of_nat k) <$> seq (Datatypes.S k) n)) (set_blk t1 s) Q) as Hskip.
  { intros Hm. apply Hrest. intros t Ht'. specialize (HQ t Ht'). rewrite decide_False in HQ by done.
    destruct (list_find (matches name) (drop (Datatypes.S k) l)) as [[j de']|]; simpl in HQ; [|done].
    by replace (k + Datatypes.S j)%nat with (Datatypes.S k + j)%nat in HQ by lia. }
  case_bool_decide as Hz; [apply Hskip; by intros [? _]|].
  case_bool_decide as Hn.
  - apply namecmp_zero in Hn. specialize (HQ t1 Ht1). rewrite decide_True in HQ by done.
    apply wp_bind, (wp_geti _ _ x); [done|]. rewrite Hdev. apply wp_bind.
    eapply wp_mono; [exact HQ|]. intros ip s' H'. apply wp_ret. by rewrite Nat.add_0_r in H'.
  - apply Hskip. intros [_ He]. by apply Hn, namecmp_zero.
Qed.

Lemma wp_dirlookup L v s i x name (Q : option (nat * Z) → st → Prop) :
  let d := idata x in let l := dents (content v d) in
  txf ∅ L v s → inodes s !! i = Some x → idev x = ROOTDEV → dir_ok v d → fs_ok v → (size L ≤ cap)%nat →
  (∀ t, tx ∅ ∅ L v t → match list_find (matches name) l with
     | None => Q None (set_blk t s)
     | Some (j, de) => wp (iget ROOTDEV (de_inum de)) (set_blk t s) (λ ip, Q (Some (ip, 16 * Z.of_nat j)))
     end) →
  wp (dirlookup dev_read i name) s Q.
Proof.
  intros d l Ht Hi Hdev D Hv Hc HQ. unfold dirlookup. apply wp_bind, (wp_geti _ _ x); [done|].
  apply wp_bind, wp_assert; [apply bool_decide_eq_true_2, D|]. fold d. rewrite (dir_offs_eq v d D).
  apply (wp_dirlookup_loop L v i x name _ 0); done.
Qed.

(** ** Entering a name *)

(** The first empty entry, or the end; and what [de] holds then. *)
Lemma wp_empty_slot L v i x : ∀ n k s de0 (Q : list Z * Z → st → Prop),
  let d := idata x in let l := dents (content v d) in
  txf ∅ L v s → inodes s !! i = Some x → idev x = ROOTDEV → dir_ok v d → fs_ok v → (size L ≤ cap)%nat →
  (k + n = length l)%nat →
  (∀ t de j, tx ∅ ∅ L v t → (j ≤ length l)%nat → (de = de0 ∨ de ∈ l) → (∀ old, l !! j = Some old → de_inum old = 0) →
     Q (de, 16 * Z.of_nat j) (set_blk t s)) →
  wp (empty_slot dev_read i de0 (16 * Z.of_nat k) ((λ k, 16 * Z.of_nat k) <$> seq k n)) s Q.
Proof.
  induction n as [|n IH]; intros k s de0 Q d l Ht Hi Hdev D Hv Hc Hk HQ; cbn [seq fmap list_fmap empty_slot].
  { apply wp_ret. specialize (HQ (blk s) de0 k Ht). rewrite set_blk_same in HQ. apply HQ; [lia|by left|].
    intros old Ho. apply lookup_lt_Some in Ho. lia. }
  destruct (lookup_lt_is_Some_2 l k) as [de Hde]; [lia|].
  apply wp_bind. eapply (wp_read_de L v s i x k de); try done. intros t1 Ht1.
  assert (de ∈ l) as Hin by by eapply list_elem_of_lookup_2.
  case_bool_decide as Hz.
  - apply wp_ret. apply HQ; [done|lia|by right|]. intros old Ho. congruence.
  - replace (16 * Z.of_nat k + 16) with (16 * Z.of_nat (Datatypes.S k)) by lia.
    apply (IH (Datatypes.S k) (set_blk t1 s) de); fold d; fold l; try done; [lia|].
    intros t de' j Ht' Hj Hde' Hold. apply (HQ t de' j); try done. destruct Hde' as [->|?]; by right.
Qed.

Lemma bytes_dent c de : bytes c → de ∈ dents c → bytes (de_name de).
Proof.
  intros Hc Hin. apply list_elem_of_fmap in Hin as (k & -> & _). unfold de_name.
  by apply Forall_drop, Forall_take, Forall_drop.
Qed.

Definition link_after (v : Z → block) (x : inode) (name : list Z) (inu : Z) (v' : Z → block) (d' : dinode) : Prop :=
  let d := idata x in
  dir_ok v' d' ∧ fs_ok v' ∧
  (∀ n', dir_lookup (content v' d') n' =
     if decide (cname DIRSIZ n' = cname DIRSIZ name) then Some inu else dir_lookup (content v d) n') ∧
  (∀ b, data_block b → used v b = true → b ∉ owned v d → v' b = v b ∧ used v' b = true ∧ (b ∉ owned v' d')).

Lemma zero_fill_ok n : ∀ m p, bytes_ok m → bytes_ok (zero_fill m p n).
Proof. induction n as [|n IH]; intros m p Hm; [done|]. by apply IH, store_ok. Qed.

Lemma strncpy_ok n : ∀ m p q, bytes_ok m → bytes_ok (strncpy m p q n).
Proof.
  induction n as [|n IH]; intros m p q Hm; [done|]. cbn [strncpy]. cbv zeta.
  case_decide; [by apply zero_fill_ok, store_ok|by apply IH, store_ok].
Qed.

Lemma bytes_make_dirent old name inu : bytes (de_name old) → bytes name → bytes (make_dirent old name inu).
Proof.
  intros Ho Hn. unfold make_dirent, bytes. rewrite Forall_app, Forall_fmap. split.
  - repeat constructor; unfold u8; apply Z.mod_pos_bound; done.
  - apply list.Forall_forall. intros k Hk. cbv beta zeta. apply strncpy_ok. intros a. unfold two_strings.
    case_decide; by apply byte_at_range.
Qed.

Lemma wp_dirlink U L v s i x name inu junk (Q : Z → st → Prop) :
  let d := idata x in
  txf ∅ L v s → sb s = fsb → fs_ok v → inodes s !! i = Some x → idev x = ROOTDEV → dir_ok v d →
  0 ≤ inum x < sb_ninodes fsb → bytes name → bytes (de_name junk) → 0 < inu < 2 ^ 16 →
  dir_lookup (content v d) name = None → d_size d + 16 ≤ MAXFILE * 512 →
  L ⊆ with_ind d U → (∀ c, 0 ≤ c < sb_size fsb → BBLOCK c fsb ∈ U) →
  (size U + 4 ≤ cap)%nat → free_blocks fsb (pot d + 1) v →
  (∀ v' d' t L', tx ∅ ∅ L' v' t → link_after v x name inu v' d' → Q 0 (with_ino s t i x d')) →
  wp (dirlink dev_read dev_write junk i name inu) s Q.
Proof.
  intros d Ht Hsb Hv Hi Hdev D Hn Hnm Hj Hinu Hnone Hmax HL HB Hcap Hf HQ. destruct (dir_length v d D) as [Hm Hs].
  pose proof D as [F Hty Hm16 Hby]. assert (dinode_ok d) as Hd by apply F. pose proof (do_size d Hd) as Hsz. unfold uint in Hsz.
  assert (size L ≤ cap)%nat as HLc by (apply subseteq_size in HL; pose proof (size_with_ind fsb dstart Hlay dev_read dev_write d U); lia).
  unfold dirlink. apply wp_bind. eapply (wp_dirlookup L v); try done. fold d. intros t1 Ht1.
  unfold dir_lookup in Hnone. apply fmap_None in Hnone. rewrite Hnone.
  apply wp_bind, (wp_geti _ _ x); [done|]. fold d. rewrite (dir_offs_eq v d D). apply wp_bind.
  change 0 with (16 * Z.of_nat 0) at 1.
  eapply (wp_empty_slot L v i x _ 0 (set_blk t1 s)); try done. fold d. intros t2 de k Ht2 Hk Hde Hold.
  set (c := content v d) in *. set (de' := make_dirent de name inu).
  assert (bytes (de_name de)) as Hdb by (destruct Hde as [->|?]; [done|by eapply bytes_dent]).
  destruct (make_dirent_spec de name inu Hdb Hnm ltac:(lia)) as (Hl16 & Hdi & Hdn). fold de' in Hl16, Hdi, Hdn.
  assert (nblocks (16 * Z.of_nat k) 16 = 1%nat) as Hnb.
  { unfold nblocks. rewrite decide_False by lia. replace (16 * Z.of_nat k) with (Z.of_nat k * 16) by lia.
    change 512 with (32 * 16) at 1. rewrite (Z.mul_mod_distr_r (Z.of_nat k) 32 16) by lia.
    pose proof (Z.mod_pos_bound (Z.of_nat k) 32 ltac:(lia)).
    rewrite <-(Z.div_unique (Z.of_nat k mod 32 * 16 + 16 + 511) 512 1 (Z.of_nat k mod 32 * 16 + 15)) by lia. done. }
  apply wp_bind. eapply (wp_writei fsb dstart Hlay dev_read dev_write U L v); try done; fold d; rewrite ?Hnb; try lia; try (by rewrite Hty).
  { exact Hf. }
  intros r v' d' t L' Ht' (Hr & F' & Hv' & Hc' & Hkeep & Hty' & _) Hsz' _ _. fold d in Hc', Hkeep, Hty'.
  rewrite Hl16 in Hr. apply wp_bind, wp_assert; [by apply bool_decide_eq_true_2|]. apply wp_ret.
  apply (HQ v' d' t L' Ht'). replace (Z.to_nat (16 * Z.of_nat k)) with (16 * k)%nat in Hc' by lia. fold c in Hc'.
  assert (length c = 16 * length (dents c))%nat as Hlc by (unfold c at 1; rewrite length_content by done; fold d; lia).
  split; [|split; [done|split; [|done]]].
  - split; [done|by rewrite Hty'| |].
    + rewrite Hsz'. destruct (Z.max_spec (d_size d) (16 * Z.of_nat k + 16)) as [[_ ->]|[_ ->]]; [|done].
      replace (16 * Z.of_nat k + 16) with ((Z.of_nat k + 1) * 16) by lia. apply Z.mod_mul. lia.
    + rewrite Hc'. unfold splice, bytes. rewrite !Forall_app. split_and!.
      * by apply Forall_take.
      * by apply bytes_make_dirent.
      * by apply Forall_drop.
  - intros n'. rewrite Hc'. fold d. fold c. apply dir_lookup_add; try done; try lia. unfold dir_lookup. by rewrite Hnone.
Qed.
(** ** Resolving a path *)

Definition linked (v : Z → block) (n : Z) : Prop :=
  0 ≤ n < sb_ninodes fsb ∧ d_type (disk_inode v n) ≠ 0 ∧ d_nlink (disk_inode v n) ≠ 0.

(** Directories are well formed, and their entries name linked inodes. *)
Definition tree_ok (v : Z → block) : Prop := ∀ n,
  linked v n → d_type (disk_inode v n) = T_DIR →
  dir_ok v (disk_inode v n) ∧ ∀ e m, dir_lookup (content v (disk_inode v n)) e = Some m → linked v m.

(** Following the elements of a path through the directories on disk;
    with [parent], up to the last one. *)
Fixpoint walk (v : Z → block) (parent : bool) (n : Z) (es : list (list Z)) : option Z :=
  match es with
  | [] => if parent then None else Some n
  | e :: es =>
    if decide (d_type (disk_inode v n) = T_DIR) then
      if parent && bool_decide (es = []) then Some n
      else match dir_lookup (content v (disk_inode v n)) e with Some m => walk v parent m es | None => None end
    else None
  end.

Lemma dir_lookup_cname c n n' : cname DIRSIZ n = cname DIRSIZ n' → dir_lookup c n = dir_lookup c n'.
Proof.
  intros Hn. unfold dir_lookup. f_equal. apply list_find_ext. intros de. unfold matches. by rewrite Hn.
Qed.

Lemma irel_blk L v H a s t : irel L v H a s → tx ∅ ∅ L v t → irel L v H a (set_blk t s).
Proof. intros [] Ht. by split. Qed.

(** One more reference, to inode [n] through pointer [i], than the client of [H] and [a] has. *)
Definition holds L v (H : gmap Z nat) (a : ispec) (n : Z) (i : nat) s : Prop :=
  irel L v (<[n := i]> H) (i_step (IGet n) a) s ∧ (H !! n = Some i ∨ n ∉ dom (irefs a)).

Definition refs_pos (a : ispec) : Prop := ilocked a = ∅ ∧ ∀ n k, irefs a !! n = Some k → 1 ≤ k.

Lemma refs_pos_get a n : refs_pos a → refs_pos (i_step (IGet n) a).
Proof.
  intros [Hl Hp]. split; [done|]. intros m k. simpl. destruct (decide (m = n)) as [->|].
  - rewrite lookup_insert_eq. intros [= <-]. destruct (irefs a !! n) as [k|] eqn:Hk; simpl; [apply Hp in Hk|]; lia.
  - rewrite lookup_insert_ne by done. apply Hp.
Qed.

Lemma iput_holds L v H a n i s :
  holds L v H a n i s → dom H = dom (irefs a) → refs_pos a → d_nlink (disk_inode v n) ≠ 0 →
  wp (iput i) s (λ _, irel L v H a).
Proof.
  intros [R Hn] Hdom [Hl Hp] Hlk.
  eapply wp_mono; [apply (iput_refines L v n i (<[n := i]> H) _ _ R); [|apply lookup_insert_eq]|].
  { split_and!; [set_solver|simpl; rewrite Hl; set_solver|done]. }
  intros [] s' R'. cbn [i_step irefs ilocked] in R'. rewrite lookup_insert_eq in R'. cbn [default] in R'.
  destruct (irefs a !! n) as [k|] eqn:Hk; cbn [default] in R'.
  - specialize (Hp n k Hk). unfold id in R'. rewrite !decide_False in R' by (try intros [= ?]; lia).
    rewrite insert_insert_eq in R'. unfold id in R'. replace (k + 1 - 1) with k in R' by lia.
    rewrite (insert_id (irefs a)), ispec_eta in R' by done. rewrite insert_id in R'; [done|].
    destruct Hn as [?|Hn]; [done|]. apply not_elem_of_dom in Hn. congruence.
  - rewrite !decide_True in R' by done. rewrite !delete_insert_id in R'; [by rewrite ispec_eta in R'|done|].
    apply not_elem_of_dom. rewrite Hdom. by apply not_elem_of_dom.
Qed.

(** The order of two [iget]s does not matter. *)
Lemma iget_swap (H : gmap Z nat) a n i m j :
  (H !! n = Some i ∨ n ∉ dom (irefs a)) →
  (<[n := i]> H !! m = Some j ∨ m ∉ dom (irefs (i_step (IGet n) a))) →
  <[m := j]> (<[n := i]> H) = <[n := i]> (<[m := j]> H) ∧
  i_step (IGet m) (i_step (IGet n) a) = i_step (IGet n) (i_step (IGet m) a) ∧
  (<[m := j]> H !! n = Some i ∨ n ∉ dom (irefs (i_step (IGet m) a))) ∧ (H !! m = Some j ∨ m ∉ dom (irefs a)).
Proof.
  intros Hn Hm. destruct (decide (m = n)) as [->|Hne].
  - destruct Hm as [Hm|Hm]; [|simpl in Hm; set_solver]. rewrite lookup_insert_eq in Hm. simplify_eq.
    split_and!; try done. left. apply lookup_insert_eq.
  - simpl in Hm |- *. rewrite lookup_insert_ne in Hm by done. split_and!.
    + by apply insert_insert_ne.
    + rewrite !lookup_insert_ne by done. by rewrite (insert_insert_ne (irefs a)) by done.
    + rewrite lookup_insert_ne by done. set_solver.
    + set_solver.
Qed.

(** Room for two more inodes in the cache, and for more references. *)
Definition room (a : ispec) : Prop :=
  refs_pos a ∧ (size (dom (irefs a)) + 2 ≤ NINODE)%nat ∧ ∀ n k, irefs a !! n = Some k → k < 2 ^ 31 - 4.

Lemma room_default a n : room a → default 0 (irefs a !! n) < 2 ^ 31 - 4.
Proof. intros (_ & _ & Hb). destruct (irefs a !! n) eqn:Hk; simpl; [by apply (Hb n)|lia]. Qed.

Definition lock_of (n : Z) (a : ispec) : ispec := i_step (ILock n) (i_step (IGet n) a).

(** [ilock] of a directory on the way, and what it holds. *)
Lemma ilock_holds L v H a n i s (Q : unit → st → Prop) :
  holds L v H a n i s → refs_pos a → linked v n → (size L ≤ cap)%nat →
  (∀ s' x, irel L v (<[n := i]> H) (lock_of n a) s' → inodes s' !! i = Some x → idev x = ROOTDEV →
     idata x = disk_inode v n → Q tt s') →
  wp (ilock i) s Q.
Proof.
  intros [R Hn] [Hl _] (Hr & Hty & _) Hc HQ.
  eapply wp_mono; [apply (ilock_refines L v n i (<[n := i]> H) _ _ R Hc); [|apply lookup_insert_eq]|].
  { split_and!; [simpl; set_solver|simpl; rewrite Hl; set_solver|done]. }
  intros [] s' R'. destruct (ir_entry _ _ _ _ _ R' n i) as (x & k & Hx & _ & E); [apply lookup_insert_eq|].
  apply (HQ s' x); try done; [by apply (en_id _ _ _ _ _ E)|].
  apply (en_valid _ _ _ _ _ E), (en_locked _ _ _ _ _ E). simpl. set_solver.
Qed.

Lemma iunlock_back L v n i H a b s :
  irel L v H (i_step (ILock n) b) s → ilocked b = ∅ → H !! n = Some i → a = b →
  wp (iunlock i) s (λ _, irel L v H a).
Proof.
  intros R Hl HH ->. eapply wp_mono; [apply (iunlock_refines L v n i H _ _ R); [simpl; set_solver|done]|].
  intros [] s' R'. simpl in R'. replace (({[n]} ∪ ilocked b) ∖ {[n]}) with (ilocked b) in R'; [by rewrite ispec_eta in R'|].
  rewrite Hl in *. set_solver.
Qed.

Lemma iunlockput_holds L v H a n i s :
  irel L v (<[n := i]> H) (lock_of n a) s → (H !! n = Some i ∨ n ∉ dom (irefs a)) →
  dom H = dom (irefs a) → refs_pos a → d_nlink (disk_inode v n) ≠ 0 →
  wp (iunlockput i) s (λ _, irel L v H a).
Proof.
  intros R Hn Hdom Hp Hlk. unfold iunlockput. apply wp_bind.
  eapply wp_mono; [eapply (iunlock_back L v n i _ _ _ s R); [apply Hp|apply lookup_insert_eq|done]|].
  intros [] s' R'. by apply (iput_holds L v H a n).
Qed.

(** The result of [namex] for the inode the path leads to. *)
Definition walked L v H a (parent : bool) (es : list (list Z)) (o : option Z) (r : option nat * list Z) s : Prop :=
  match o with
  | None => r.1 = None ∧ irel L v H a s
  | Some m => ∃ j, r.1 = Some j ∧ holds L v H a m j s ∧
      (parent = true → ∃ e, list.last es = Some e ∧ cname DIRSIZ r.2 = cname DIRSIZ e)
  end.

Lemma last_cons_ne {A} (x : A) l : l ≠ [] → list.last (x :: l) = list.last l.
Proof. by destruct l. Qed.

Lemma wp_namex_loop L v H a parent : ∀ fuel path name n i s,
  holds L v H a n i s → dom H = dom (irefs a) → room a → linked v n → tree_ok v → fs_ok v → (size L ≤ cap)%nat →
  length name = DIRSIZ → (length path < fuel)%nat →
  wp (namex_loop dev_read fuel parent i path name) s
    (walked L v H a parent (elements path) (walk v parent n (elements path))).
Proof.
  induction fuel as [|fuel IH]; intros path name n i s Hh Hdom Hrm Hlk Ht Hv Hc Hname Hfuel; [lia|].
  pose proof Hrm as (Hp & Hroom & _). pose proof (skipelem_spec path name Hname) as Hsk. cbn [namex_loop].
  destruct (skipelem path name) as [[path' name']|].
  2: { rewrite Hsk. simpl. destruct parent; [|apply wp_ret; by exists i].
       apply wp_bind. eapply wp_mono; [by apply (iput_holds L v H a n); [| | |apply Hlk]|]. intros [] s' R'. by apply wp_ret. }
  destruct Hsk as (e & -> & Hname' & Hcn & Hlen & Hnil). cbn [walk].
  apply wp_bind. eapply (ilock_holds L v H a n); try done. intros s1 x R1 Hx Hdev Hdat.
  apply wp_bind, (wp_geti _ _ x); [done|]. rewrite Hdat. set (d := disk_inode v n) in *.
  destruct (decide (d_type d = T_DIR)) as [Hdir|Hdir].
  2: { rewrite (bool_decide_eq_false_2 _ Hdir). cbn [negb]. apply wp_bind.
       eapply wp_mono; [by apply (iunlockput_holds L v H a n); [|apply Hh| | |apply Hlk]|]. intros [] s' R'. by apply wp_ret. }
  rewrite (bool_decide_eq_true_2 _ Hdir). cbn [negb]. destruct (Ht n Hlk Hdir) as [Hd Hnext]. fold d in Hd, Hnext.
  destruct (parent && bool_decide (path' = [])) eqn:Hstop.
  { apply andb_true_iff in Hstop as [-> Hnil'%bool_decide_eq_true]. rewrite (proj1 Hnil Hnil'). cbn [andb bool_decide].
    rewrite bool_decide_eq_true_2 by done.
    apply wp_bind. eapply wp_mono; [eapply (iunlock_back L v n i _ _ _ s1 R1); [apply Hp|apply lookup_insert_eq|done]|].
    intros [] s' R'. apply wp_ret. exists i. split; [done|]. split; [by split; [|apply Hh]|]. intros _. by exists e. }
  replace (parent && bool_decide (elements path' = [])) with false.
  2: { rewrite <-Hstop. f_equal. by apply bool_decide_ext. }
  apply wp_bind. eapply (wp_dirlookup L v s1 i x); try done; [apply R1|by rewrite Hdat|].
  intros t Ht1. rewrite Hdat. fold d. apply (irel_blk _ _ _ _ _ t) in R1; [|done].
  rewrite (dir_lookup_cname _ e name') by done. specialize (Hnext name'). unfold dir_lookup in Hnext |- *.
  destruct (list_find (matches name') (dents (content v d))) as [[j de]|]; cbn [fmap option_fmap option_map snd] in Hnext |- *.
  2: { apply wp_bind. eapply wp_mono; [by apply (iunlockput_holds L v H a n); [|apply Hh| | |apply Hlk]|]. intros [] s' R'. by apply wp_ret. }
  specialize (Hnext _ eq_refl). set (m := de_inum de) in *.
  eapply wp_mono; [apply (iget_refines_same L v m _ _ _ R1)|].
  { pose proof (room_default a m Hrm) as Hb. pose proof (room_default a n Hrm) as Hbn. split_and!; [apply Hnext|apply Hnext| |].
    - simpl. destruct (decide (n = m)) as [->|]; [rewrite lookup_insert_eq; simpl; lia|rewrite lookup_insert_ne by done; lia].
    - right. simpl. rewrite dom_insert_L. pose proof (size_add n (dom (irefs a))). lia. }
  intros ip s2 [R2 Hm2]. destruct (iget_swap H a n i m ip (proj2 Hh) Hm2) as (E1 & E2 & Hn' & Hm').
  change (irel L v (<[m := ip]> (<[n := i]> H)) (i_step (ILock n) (i_step (IGet m) (i_step (IGet n) a))) s2) in R2.
  rewrite E1, E2 in R2. apply wp_bind. eapply wp_mono.
  { apply (iunlockput_holds L v _ _ n _ _ R2 Hn'); [simpl; rewrite !dom_insert_L; by rewrite Hdom|by apply refs_pos_get|apply Hlk]. }
  intros [] s3 R3. eapply wp_mono; [apply (IH path' name' m ip s3); try done; lia|].
  intros r s4 Hw. unfold walked in Hw |- *. destruct (walk v parent m (elements path')) as [m'|]; [|done].
  destruct Hw as (k & ? & ? & Hlast). exists k. split; [done|]. split; [done|]. intros Hpar.
  destruct (Hlast Hpar) as (e' & He' & Hc'). exists e'. split; [|done]. rewrite last_cons_ne; [done|]. intros Hz.
  by rewrite Hz in He'.
Qed.

Lemma wp_namex L v H a c cwd parent path name s :
  irel L v H a s → room a → tree_ok v → fs_ok v → (size L ≤ cap)%nat → length name = DIRSIZ →
  linked v ROOTINO → H !! c = Some cwd → linked v c →
  let n := if decide (head path = Some SLASH) then ROOTINO else c in
  wp (namex dev_read cwd path parent name) s
    (walked L v H a parent (elements path) (walk v parent n (elements path))).
Proof.
  intros R Hrm Ht Hv Hc Hname Hroot HH Hcwd n. pose proof (ir_dom _ _ _ _ _ R) as Hdom.
  unfold namex. apply wp_bind. unfold n. clear n. pose proof Hrm as (_ & Hroom & Hb).
  assert (∀ n i s', holds L v H a n i s' → linked v n →
    wp (namex_loop dev_read (Datatypes.S (length path)) parent i path name) s'
      (walked L v H a parent (elements path) (walk v parent n (elements path)))) as Hloop.
  { intros n i s' Hh Hlk. apply (wp_namex_loop L v H a); try done. lia. }
  destruct (decide (head path = Some SLASH)) as [_|_].
  - eapply wp_mono; [apply (iget_refines_same L v ROOTINO _ _ _ R)|].
    + pose proof (room_default a ROOTINO Hrm). split; [apply Hroot|]. split; [lia|]. right. lia.
    + intros i s' Hh. by apply Hloop.
  - destruct (ir_entry _ _ _ _ _ R c cwd HH) as (x & k & Hx & Hk & E). destruct (en_ref _ _ _ _ _ E) as [Hr Hr'].
    specialize (Hb c k Hk). pose proof (tx_held _ _ _ _ _ (ir_tx _ _ _ _ _ R)) as Hh.
    eapply wp_idup; [done|done|lia|]. apply Hloop; [|done]. split; [|by left]. rewrite Hr. simpl. rewrite Hk.
    eapply irel_more; try done. simpl. lia.
Qed.

End fsdir.
