(* ===== verification/FsSpec.v ===== *)
(** * What the file system guarantees

    The statements about fs.c as a client of any [BlockLayer] sees them, each
    applied to the log over the buffer cache on a disk as mkfs lays it out. *)

From S2P Require Import Prelude CString Bio Log Blocks Fs FsThm FsDir.
Import Fs.

Local Open Scope Z_scope.

(** ** A small file system: the root directory, and in it a file [a] that reads "hello" *)

Definition demo_sblock : block :=
  put32 (put32 (put32 (put32 (put32 (put32 (put32 zeros 0 1000) 4 941) 8 200) 12 30) 16 2) 20 32) 24 58.

Definition demo_root : dinode := Dinode T_DIR 0 0 1 512 (59 :: replicate 12 0).
Definition demo_file : dinode := Dinode T_FILE 0 0 1 5 (60 :: replicate 12 0).

Definition demo_dir : block :=
  let none := replicate 16 0 in
  make_dirent none [46] 1 ++ make_dirent none [46; 46] 1 ++ make_dirent none [97] 2 ++ replicate 464 0.

Definition demo_fs : Z → block :=
  upd (upd (upd (upd (upd (λ _, zeros) 1 demo_sblock)
    32 (put_dinode (put_dinode zeros (dinode_off 1) demo_root) (dinode_off 2) demo_file))
    58 (foldl (λ b i, set_bit i b) zeros (Z.of_nat <$> seq 0 61)))
    59 demo_dir) 60 ([104; 101; 108; 108; 111] ++ replicate 507 0).

Definition demo_super : superblock := parse_sb demo_sblock.

(** The log's state with [out] operations open, the cache still empty. *)
Definition disk_bio0 (d : Z → block) : Bio.st :=
  Bio.St [] (replicate NBUF (Bio.Buf 0 0 false false false zeros)) (Bio.Links id id) d [] [].

Definition disk_bio (d : Z → block) : Bio.st := match Bio.binit (disk_bio0 d) with Done _ s => s | _ => disk_bio0 d end.

Definition disk_log (d : Z → block) (out : Z) : Log.st :=
  Log.St (disk_bio d) 2 30 out false ROOTDEV 0 (replicate (Z.to_nat LOGSIZE) 0).
Definition demo_log (out : Z) : Log.st := disk_log demo_fs out.
Definition demo_tx : Log.st := demo_log 1.

(** The log over that disk: the block layer of the examples. *)
#[local] Instance demo_ops : BlockOps Log.st := log_ops 1000.
#[local] Instance demo_layer : BlockLayer Log.st := log_blocks 1000 2 30 demo_fs [] 1.

Lemma disk_log_ok d out : hdr_blocks (d 2) = [] → length (d 2) = BSIZE → 0 ≤ out →
  log_tx 1000 2 30 d [] out ∅ ∅ ∅ d (disk_log d out).
Proof.
  intros Hd Hlen Hout.
  assert (Bio.rep ∅ ∅ d d (disk_bio d) ∧ Bio.writes (disk_bio d) = []) as [Hr Hw].
  { assert (∀ i x, Bio.bufs (disk_bio0 d) !! i = Some x → Bio.bbusy x = false ∧ Bio.bdirty x = false) as Hx.
    { intros i x Hx. by apply lookup_replicate in Hx as [-> _]. }
    destruct (proj1 (wp_done _ _ _) (Bio.wp_binit (disk_bio0 d) eq_refl eq_refl Hx)) as (a & s & Hs & Hr & Hw).
    unfold disk_bio. rewrite Hs. by split. }
  split; [exact Hr| |done|done|exact Hw].
  split; cbn [Log.start Log.size Log.lh_n Log.outstanding Log.committing disk_log]; [reflexivity|reflexivity| | | | | | |done|done|done].
  - unfold Log.region. cbn [Log.start Log.size Log.dev disk_log]. lia.
  - unfold LOGSIZE. lia.
  - lia.
  - reflexivity.
  - apply NoDup_nil_2.
  - intros b Hb. by apply not_elem_of_nil in Hb.
Qed.

Lemma demo_log_ok out : 0 ≤ out → log_tx 1000 2 30 demo_fs [] out ∅ ∅ ∅ demo_fs (demo_log out).
Proof. intros Hout. apply disk_log_ok; [vm_compute; reflexivity|vm_compute; reflexivity|done]. Qed.

Lemma demo_tx_ok : tx ∅ ∅ ∅ demo_fs demo_tx.
Proof. by apply (demo_log_ok 1). Qed.

Lemma demo_block n : 0 ≤ n < 200 → IBLOCK n demo_super = 32 + n / 8.
Proof. intros _. unfold IBLOCK. change (sb_inodestart demo_super) with 32. change IPB with 8. lia. Qed.

Lemma demo_bmap b : 0 ≤ b < 1000 → BBLOCK b demo_super = 58.
Proof.
  intros Hb. unfold BBLOCK. change (sb_bmapstart demo_super) with 58. change BPB with 4096.
  rewrite Z.div_small; lia.
Qed.

Lemma demo_layout : layout demo_super 59.
Proof.
  assert (∀ i, 0 ≤ i < 200 → 32 ≤ IBLOCK i demo_super < 58) as Hi.
  { intros i Hi. rewrite demo_block by done. pose proof (Z.div_pos i 8). pose proof (Z.div_lt_upper_bound i 8 26). lia. }
  change 200 with (sb_ninodes demo_super) in Hi.
  split; change (@reserved Log.st _ demo_layer) with (λ b, 2 ≤ b < 2 + 30); cbv beta.
  - change (sb_size demo_super) with 1000. change (@nblk Log.st _ demo_layer) with 1000. lia.
  - intros x Hx. change (sb_size demo_super) with 1000 in Hx. rewrite demo_bmap by done. lia.
  - intros i H. apply Hi in H. lia.
  - intros i x H Hx. change (sb_size demo_super) with 1000 in Hx. rewrite demo_bmap by done. apply Hi in H. lia.
  - intros x Hx. lia.
  - lia.
Qed.

Lemma check_range (P : Z → bool) n :
  forallb (λ k, P (Z.of_nat k)) (seq 0 n) = true → ∀ b, 0 ≤ b < Z.of_nat n → P b = true.
Proof.
  intros H b Hb. rewrite forallb_forall in H. specialize (H (Z.to_nat b)). rewrite Z2Nat.id in H by lia.
  apply H. apply in_seq. lia.
Qed.

Lemma demo_fs_ok : fs_ok demo_super 59 demo_fs.
Proof.
  split.
  - vm_compute. reflexivity.
  - intros b _. unfold demo_fs, upd. repeat (destruct (decide _); [vm_compute; reflexivity|]). vm_compute. reflexivity.
  - apply (check_range _ 59). vm_compute. reflexivity.
Qed.

Lemma demo_file_inode : disk_inode demo_super demo_fs 2 = demo_file.
Proof. vm_compute. reflexivity. Qed.

Lemma demo_root_inode : disk_inode demo_super demo_fs 1 = demo_root.
Proof. vm_compute. reflexivity. Qed.

(** A file of one block. *)
Lemma one_block_ok d a :
  dinode_ok d → d_addrs d = a :: replicate 12 0 → owned demo_fs d = [a] → 59 ≤ a ≤ 60 → d_size d ≤ 512 →
  file_ok demo_super 59 demo_fs d.
Proof.
  intros Hd Ha Ho Hr Hs. split; [done| | | |].
  - rewrite Ho. apply NoDup_singleton.
  - rewrite Ho. intros x ->%list_elem_of_singleton. split.
    + unfold data_block. change (sb_size demo_super) with 1000. lia.
    + assert (a = 59 ∨ a = 60) as [->| ->] by lia; vm_compute; reflexivity.
  - change (MAXFILE * Z.of_nat BSIZE) with 71680. lia.
  - intros bn H0 Hbn. change (Z.of_nat BSIZE) with 512 in Hbn. assert (bn = 0) as -> by lia.
    unfold baddr, slots. rewrite Ha. simpl. lia.
Qed.

Lemma one_block_inode ty n sz a :
  0 ≤ ty < 10 → 0 ≤ n < 10 → 0 ≤ sz ≤ 512 → 0 ≤ a < 100 → dinode_ok (Dinode ty 0 0 n sz (a :: replicate 12 0)).
Proof.
  intros. split; cbn [d_type d_major d_minor d_nlink d_size d_addrs]; unfold short, uint; try lia; [done|].
  intros x [->|[-> _]%elem_of_replicate]%elem_of_cons; lia.
Qed.

Lemma demo_file_ok : file_ok demo_super 59 demo_fs demo_file.
Proof.
  apply (one_block_ok _ 60); [apply one_block_inode; unfold T_FILE, T_DIR; lia|done|vm_compute; reflexivity|lia|done].
Qed.

Lemma demo_dir_ok : dir_ok demo_super 59 demo_fs demo_root.
Proof.
  split; [|done|done|].
  - apply (one_block_ok _ 59); [apply one_block_inode; unfold T_FILE, T_DIR; lia|done|vm_compute; reflexivity|lia|done].
  - apply (bool_decide_eq_true_1 (Forall _ _)). vm_compute. reflexivity.
Qed.

Lemma demo_types n : 0 ≤ n < 200 → d_type (disk_inode demo_super demo_fs n) ≠ 0 → n = 1 ∨ n = 2.
Proof.
  intros Hn Ht. set (P n := bool_decide (d_type (disk_inode demo_super demo_fs n) = 0) ||
    bool_decide (n = 1) || bool_decide (n = 2)).
  assert (P n = true) as H by (apply (check_range P 200); [vm_compute; reflexivity|done]). unfold P in H.
  rewrite !orb_true_iff, !bool_decide_eq_true in H. destruct H as [[?|?]|?]; auto. done.
Qed.

Lemma demo_linked n : n = 1 ∨ n = 2 → linked demo_super demo_fs n.
Proof.
  intros [->| ->]; unfold linked; rewrite ?demo_root_inode, ?demo_file_inode; split; try done.
Qed.

Lemma demo_tree : tree_ok demo_super 59 demo_fs.
Proof.
  intros n (Hn & Ht & _) Hd. apply demo_types in Ht; [|done].
  assert (n = 1) as -> by (destruct Ht as [->| ->]; [done|by rewrite demo_file_inode in Hd]).
  rewrite demo_root_inode. split; [apply demo_dir_ok|]. intros e m Hm. apply demo_linked.
  apply fmap_Some in Hm as ([j de] & Hf & ->). apply list_find_Some in Hf as (Hj & [Hz _] & _). simpl.
  apply list_elem_of_lookup_2 in Hj.
  assert (Forall (λ de, de_inum de = 0 ∨ de_inum de = 1 ∨ de_inum de = 2) (dents (content demo_fs demo_root))) as Hall.
  { apply (bool_decide_eq_true_1 (Forall _ _)). vm_compute. reflexivity. }
  rewrite list.Forall_forall in Hall. destruct (Hall de Hj) as [H|H]; [by destruct (Hz H)|exact H].
Qed.

Lemma demo_free k : (k ≤ 900)%nat → free_blocks demo_super k demo_fs.
Proof.
  intros Hk. exists (list_to_set (seqZ 61 900)). split.
  - rewrite size_list_to_set by apply NoDup_seqZ. rewrite length_seqZ. lia.
  - intros c Hc. apply elem_of_list_to_set, elem_of_seqZ in Hc. change (sb_size demo_super) with 1000. split; [lia|].
    set (P n := (n <? 61) || negb (used demo_super demo_fs n)).
    assert (P c = true) as H by (apply (check_range P 961); [vm_compute; reflexivity|lia]). unfold P in H.
    rewrite (proj2 (Z.ltb_ge c 61)) in H by lia. by apply negb_true_iff.
Qed.

(** An inode cache with a reference to the root directory, not locked, and to
    [a], locked. *)
Definition empty_inode : inode := Inode 0 0 0 false false (Dinode 0 0 0 0 0 (replicate 13 0)).
Definition demo_a : inode := Inode ROOTDEV 2 1 true true demo_file.
Definition demo_st : st := St demo_tx demo_super
  (Inode ROOTDEV 1 1 false true demo_root :: demo_a :: replicate 48 empty_inode) [].

Section spec.
Context {S : Type} `{!BlockOps S, !BlockLayer S} (fsb : superblock) (dstart : Z) (Hlay : layout fsb dstart).
Implicit Types (L U : gset Z) (v : Z → block) (s : st (S:=S)).

(** Blocks an earlier write of this transaction may have logged, besides data. *)
Definition logged_within U L (d : dinode) : Prop :=
  L ⊆ with_ind d U ∧ ∀ c, 0 ≤ c < sb_size fsb → BBLOCK c fsb ∈ U.

(** Inode [i] of the cache is [x], a file or directory of the disk [v]. *)
Record on_file L v s (i : nat) (x : inode) : Prop := {
  of_tx : tx ∅ ∅ L v (blk s);
  of_sb : sb s = fsb;
  of_fs : fs_ok fsb dstart v;
  of_ino : inodes s !! i = Some x;
  of_dev : idev x = ROOTDEV;
  of_num : 0 ≤ inum x < sb_ninodes fsb;
  of_file : file_ok fsb dstart v (idata x);
}.

(** A file none of whose blocks changed is the file it was. *)
Lemma file_frame v v' e :
  file_ok fsb dstart v e → (∀ a, a ∈ owned v e → v' a = v a ∧ used fsb v' a = true) →
  file_ok fsb dstart v' e ∧ owned v' e = owned v e ∧ content v' e = content v e.
Proof.
  intros F Hk. assert (slots v' e = slots v e) as Hs.
  { unfold slots. f_equal. unfold indirect. case_decide as Hi; [done|]. destruct (Hk (ind_addr e)) as [-> _]; [|done].
    unfold owned, slots. apply list_elem_of_filter. split; [done|]. apply elem_of_app. left.
    unfold ind_addr in *. destruct (d_addrs e !! _) eqn:Ha; [by eapply list_elem_of_lookup_2|done]. }
  assert (owned v' e = owned v e) as Ho by (unfold owned; by rewrite Hs).
  assert (∀ bn, baddr v' e bn = baddr v e bn) as Hb by (intros bn; unfold baddr; by rewrite Hs).
  split; [|split; [done|]].
  - destruct F as [F1 F2 F3 F4 F5]. split; try done; [by rewrite Ho| |by intros bn; rewrite Hb; apply F5].
    rewrite Ho. intros a Ha. split; [by apply F3|by apply Hk].
  - unfold content, slice. apply list_fmap_ext. intros i k Hi. apply lookup_seq in Hi as [-> Hi].
    unfold fbyte. rewrite Hb. f_equal. apply Hk. unfold owned. apply list_elem_of_filter.
    assert (baddr v e ((0 + Z.of_nat (0 + i)) / Z.of_nat BSIZE) ≠ 0) as Hne.
    { apply (f_mapped _ _ _ _ F); change (Z.of_nat BSIZE) with 512; [apply Z.div_pos; lia|].
      pose proof (Z.div_mod (0 + Z.of_nat (0 + i)) 512 ltac:(lia)). pose proof (Z.mod_pos_bound (0 + Z.of_nat (0 + i)) 512 ltac:(lia)). lia. }
    split; [done|]. unfold baddr in *. destruct (slots v e !! _) eqn:Hl; [|done]. by eapply list_elem_of_lookup_2.
Qed.

Lemma length_splice c off src : (off ≤ length c)%nat → length (splice c off src) = Nat.max (length c) (off + length src).
Proof. intros Ho. unfold splice. rewrite !length_app, length_take, length_drop. lia. Qed.

(** [balloc] takes the lowest block that is free in the bitmap, a data block,
    sets its bit and clears the block, and changes nothing else on the disk;
    [bfree] of that block then gives the free map back as it was. *)
Theorem balloc_bfree U L v s :
  tx ∅ ∅ L v (blk s) → sb s = fsb → fs_ok fsb dstart v → within fsb U L → (size U + 3 ≤ cap)%nat → free_blocks fsb 1 v →
  wp (a ← balloc ROOTDEV; s1 ← kget; bfree ROOTDEV a ;; kret (a, s1))%kern s (λ '(a, s1) s2,
    data_block fsb dstart a ∧ used fsb v a = false ∧ (∀ c, 0 ≤ c < a → used fsb v c = true) ∧
    ∃ L1 v1 L2 v2, tx ∅ ∅ L1 v1 (blk s1) ∧ tx ∅ ∅ L2 v2 (blk s2) ∧ fs_ok fsb dstart v2 ∧
      v1 a = zeros ∧ (∀ b, b ≠ a → b ≠ BBLOCK a fsb → v1 b = v b) ∧
      ∀ c, 0 ≤ c < sb_size fsb → used fsb v1 c = (used fsb v c || bool_decide (c = a)) ∧ used fsb v2 c = used fsb v c).
Proof.
  intros Ht Hsb Hv HU Hc Hf.
  assert (apart fsb dstart ∅ v) as Hap by (intros b Hb; rewrite dom_empty_L in Hb; by apply not_elem_of_empty in Hb).
  apply wp_bind. eapply (wp_balloc fsb dstart Hlay U ∅ L v); try done; [rewrite dom_empty_L, size_empty; lia|].
  intros a t1 Ha Hau Hlow Ht1. apply wp_bind, wp_get. apply wp_bind.
  pose proof (data_range fsb dstart Hlay a Ha) as (_ & _ & Hr).
  eapply (wp_bfree fsb dstart Hlay ({[a]} ∪ U) ∅ _ (fresh fsb v a)); try done.
  - by apply (fs_ok_fresh fsb dstart Hlay).
  - destruct HU as [H1 H2 H3]. split; [set_solver|set_solver|]. pose proof (size_add a U). lia.
  - rewrite dom_empty_L, size_empty. pose proof (size_add a U). lia.
  - rewrite (used_fresh fsb dstart Hlay) by done. by rewrite decide_True.
  - intros t2 Ht2. apply wp_ret. split; [done|]. split; [done|]. split; [done|].
    eexists _, (fresh fsb v a), _, (unmark fsb (fresh fsb v a) a). split; [exact Ht1|]. split; [exact Ht2|].
    assert (fs_ok fsb dstart (fresh fsb v a)) as Hv1 by by apply (fs_ok_fresh fsb dstart Hlay).
    split; [by apply (fs_ok_unmark fsb dstart Hlay)|]. split; [unfold fresh; by rewrite upd_eq|]. split.
    { intros b Hb Hb'. unfold fresh, mark. by rewrite !upd_ne by done. }
    intros c Hcr. rewrite (used_fresh fsb dstart Hlay) by done. split.
    + case_decide; [subst; by rewrite bool_decide_eq_true_2, orb_true_r|by rewrite bool_decide_eq_false_2, orb_false_r].
    + rewrite (used_unmark fsb dstart Hlay), (used_fresh fsb dstart Hlay) by (done || lia).
      case_decide; [by subst|done].
Qed.

(** C23: the inode cache implements counted references. Any sequence of [iget],
    [idup], [ilock], [iunlock] and [iput] that the client is entitled to runs
    without panic or sleep, and the cache represents the counts and locks that
    the specification gives: one entry per referenced inode, however often it
    was looked up, with the on-disk contents once it has been locked. *)
Theorem inode_cache_refines L v H a s os :
  irel fsb L v H a s → (size L ≤ cap)%nat → i_oks fsb v os a →
  wp (run_iops os H a) s (λ H', irel fsb L v H' (foldl (λ a o, i_step o a) a os)).
Proof. intros R Hc Hok. by apply (run_iops_refines fsb dstart Hlay L v). Qed.

(** ** Two disks that agree outside the log are the same file system *)

Definition same_home v v' : Prop := ∀ b, ¬ reserved b → v' b = v b.

Lemma used_home v v' c : same_home v v' → 0 ≤ c < sb_size fsb → used fsb v' c = used fsb v c.
Proof. intros Hh Hc. unfold used. rewrite Hh; [done|]. by apply (la_bmap _ _ Hlay). Qed.

Lemma fs_home v v' : same_home v v' → fs_ok fsb dstart v → fs_ok fsb dstart v'.
Proof.
  intros Hh [H1 H2 H3]. pose proof (la_size _ _ Hlay). split.
  - rewrite Hh; [done|apply (la_sb _ _ Hlay)].
  - intros b Hb. rewrite Hh by done. by apply H2.
  - intros b Hb. rewrite (used_home v) by (done || lia). by apply H3.
Qed.

Lemma file_home v v' e :
  same_home v v' → file_ok fsb dstart v e → file_ok fsb dstart v' e ∧ owned v' e = owned v e ∧ content v' e = content v e.
Proof.
  intros Hh F. apply file_frame; [done|]. intros a Ha. destruct (f_data _ _ _ _ F a Ha) as [Had Hau].
  rewrite Hh, (used_home v) by (done || (apply (la_data _ _ Hlay); apply Had) || by apply (data_range fsb dstart Hlay)). done.
Qed.

Lemma disk_inode_home v v' n : same_home v v' → 0 ≤ n < sb_ninodes fsb → disk_inode fsb v' n = disk_inode fsb v n.
Proof. intros Hh Hn. unfold disk_inode. rewrite Hh; [done|]. by apply (la_inode _ _ Hlay). Qed.

Lemma free_home v v' k : same_home v v' → free_blocks fsb k v → free_blocks fsb k v'.
Proof. intros Hh. apply free_blocks_ext. intros c Hc. by apply used_home. Qed.

(** Inode [n] of disk [v] is a well-formed file that reads [c]. *)
Definition disk_file v (n : Z) (c : list Z) : Prop :=
  fs_ok fsb dstart v ∧ file_ok fsb dstart v (disk_inode fsb v n) ∧ content v (disk_inode fsb v n) = c.

Lemma disk_file_home v v' n c : same_home v v' → 0 ≤ n < sb_ninodes fsb → disk_file v n c → disk_file v' n c.
Proof.
  intros Hh Hn (Hv & F & Hc). unfold disk_file. rewrite (disk_inode_home v v') by done.
  destruct (file_home v v' _ Hh F) as (F' & _ & Hc'). split; [by apply (fs_home v)|]. split; [done|by rewrite Hc'].
Qed.

Lemma store_inode_frame v n d :
  fs_ok fsb dstart v → 0 ≤ n < sb_ninodes fsb →
  let w := store_inode fsb v n d in
  fs_ok fsb dstart w ∧ (∀ c, 0 ≤ c < sb_size fsb → used fsb w c = used fsb v c) ∧ ∀ b, data_block fsb dstart b → w b = v b.
Proof.
  intros Hv Hn w. assert (inode_block fsb (IBLOCK n fsb)) as Hib by by exists n.
  destruct (inode_block_apart fsb dstart Hlay _ Hib) as (_ & Hres & Hnd & _). split; [|split].
  - apply (fs_ok_inode fsb dstart Hlay); [done|done|]. rewrite length_put_dinode. by apply (fo_len _ _ _ Hv).
  - intros c Hc. by apply (used_inode fsb dstart Hlay).
  - intros b Hb. unfold w, store_inode. apply upd_ne. by intros ->.
Qed.

(** C24: [iput] of the last reference to an inode without links frees it: exactly
    the blocks of the file go back to the free map, the inode on disk has type
    0, and every other inode and every other file is as before. *)
Theorem iput_frees U L v s i x :
  let d := idata x in
  on_file L v s i x → within fsb U L → (size U + 2 ≤ cap)%nat →
  iref x = 1 → ivalid x = true → ibusy x = false → d_nlink d = 0 →
  wp (iput i) s (λ _ s', ∃ L' v' y, tx ∅ ∅ L' v' (blk s') ∧ inodes s' = <[i := y]> (inodes s) ∧ iref y = 0 ∧ ivalid y = false ∧
    (∀ c, 0 ≤ c < sb_size fsb → used fsb v' c = (used fsb v c && negb (bool_decide (c ∈ owned v d)))) ∧
    d_type (disk_inode fsb v' (inum x)) = 0 ∧
    (∀ m, 0 ≤ m < sb_ninodes fsb → m ≠ inum x → disk_inode fsb v' m = disk_inode fsb v m) ∧
    ∀ e, file_ok fsb dstart v e → (∀ a, a ∈ owned v e → a ∉ owned v d) → file_ok fsb dstart v' e ∧ content v' e = content v e).
Proof.
  intros d [Ht Hsb Hv Hi Hdev Hn F] HU Hc Hr Hval Hb Hnl. assert (dinode_ok d) as Hd by apply F.
  pose proof (dinode_ok_truncated d Hd) as Hdt. assert (dinode_ok (dead d)) as Hdd by (destruct Hdt; by split).
  eapply (wp_iput_free fsb dstart Hlay U L v); try done. fold d. intros t L' w Ht'.
  destruct (trunc_data fsb dstart v d F) as [Htd _].
  assert (Forall (data_block fsb dstart) (trunc_order v d)) as Hdb by (eapply list.Forall_impl; [exact Htd|by intros ? [? _]]).
  assert (fs_ok fsb dstart w) as Hw by by apply (freed_ok fsb dstart Hlay).
  set (w1 := store_inode fsb w (inum x) (truncated d)) in *. set (w2 := store_inode fsb w1 (inum x) (dead d)) in *.
  exists L', w2, (Inode (idev x) (inum x) 0 false false (dead d)). split; [exact Ht'|]. split; [done|]. split; [done|]. split; [done|].
  destruct (store_inode_frame w (inum x) (truncated d) Hw Hn) as (Hw1 & Hu1 & Hd1). fold w1 in Hw1, Hu1, Hd1.
  destruct (store_inode_frame w1 (inum x) (dead d) Hw1 Hn) as (Hw2 & Hu2 & Hd2). fold w2 in Hw2, Hu2, Hd2.
  assert (∀ c, 0 ≤ c < sb_size fsb → used fsb w2 c = (used fsb v c && negb (bool_decide (c ∈ owned v d)))) as Hused.
  { intros c Hcr. rewrite Hu2, Hu1 by done. unfold w. rewrite (freed_used fsb dstart Hlay) by (done || lia).
    destruct (decide (c ∈ trunc_order v d)) as [Hin|Hin]; rewrite trunc_order_perm in Hin by done.
    - by rewrite bool_decide_eq_true_2, andb_false_r.
    - by rewrite bool_decide_eq_false_2, andb_true_r. }
  split; [done|]. split; [|split].
  - unfold w2. rewrite (disk_inode_store fsb dstart Hlay) by (done || lia). by rewrite decide_True.
  - intros m Hm Hne. unfold w2, w1. rewrite !(disk_inode_store fsb dstart Hlay) by (done || lia).
    rewrite !decide_False by done. unfold disk_inode. f_equal. apply (freed_keep fsb dstart Hlay); [|done].
    intros c Hcr. by apply (inode_block_apart fsb dstart Hlay); [exists m|].
  - intros e Fe He. destruct (file_frame v w2 e Fe) as (Fe' & _ & Hce); [|done].
    intros a Ha. destruct (f_data _ _ _ _ Fe a Ha) as [Had Hau]. pose proof (data_range fsb dstart Hlay a Had) as (_ & _ & Har).
    split.
    + rewrite Hd2, Hd1 by done. apply (freed_keep fsb dstart Hlay); [|done]. by apply (data_meta fsb dstart Hlay).
    + rewrite Hused, Hau, bool_decide_eq_false_2 by auto. done.
Qed.

Context (dev_read : Z → option (nat → Z → kM (st (S:=S)) (Z * list Z))).
Context (dev_write : Z → option (nat → list Z → Z → kM (st (S:=S)) Z)).

(** C18: round trip of a write. Inside a transaction, take a cached inode whose file is
    well formed and not a device, an offset that is not past its end, and data with
    which it stays within the size limit; let the disk have the blocks it may need and
    the transaction room for them. Then [writei] of [src] at [off] returns its length,
    and a read of any range that begins inside the file gives the content with [src]
    spliced in. The inode stays well formed, and every other file of the disk keeps its
    content and its blocks. *)
Theorem write_read U L v s i x src off off' n' :
  let d := idata x in let n := Z.of_nat (length src) in
  on_file L v s i x → d_type d ≠ T_DEV → logged_within U L d →
  0 ≤ off ≤ d_size d → off + n ≤ MAXFILE * 512 →
  (size U + nblocks off n + 3 ≤ cap)%nat → free_blocks fsb (pot d + nblocks off n) v →
  0 ≤ off' → 0 ≤ n' → off' + n' < 2 ^ 32 →
  let c := splice (content v d) (Z.to_nat off) src in
  off' ≤ Z.of_nat (length c) →
  wp (w ← writei dev_write i src off n; r ← readi dev_read i off' n'; kret (w, r.2))%kern s
    (λ wr s', wr = (n, take (Z.to_nat n') (drop (Z.to_nat off') c)) ∧
      ∃ L' v' d', on_file L' v' s' i (set_idata d' x) ∧ content v' d' = c ∧
        ∀ e, file_ok fsb dstart v e → (∀ a, a ∈ owned v e → a ∉ owned v d) →
             file_ok fsb dstart v' e ∧ content v' e = content v e ∧ ∀ a, a ∈ owned v' e → a ∉ owned v' d').
Proof.
  intros d n [Ht Hsb Hv Hi Hdev Hn F] Hty [HL HB] Hoff Hmax Hcap Hf H1 H2 H3 c Hc.
  assert (dinode_ok d) as Hd by apply F. pose proof (do_size d Hd) as Hsz. unfold uint in Hsz.
  apply wp_bind. eapply (wp_writei fsb dstart Hlay dev_read dev_write U L v); try done; fold d; try lia.
  fold n. intros w v' d' t L' Ht' (Hw & F' & Hv' & Hc' & Hk & Hty' & _) Hsz' HL' _. fold d in Hc', Hk, Hty'. fold c in Hc'.
  assert (inodes (with_ino s t i x d') !! i = Some (set_idata d' x)) as Hi' by by apply with_ino_lookup.
  assert (d_size d' = Z.of_nat (length c)) as Hlc.
  { rewrite Hsz'. unfold c. rewrite length_splice; rewrite length_content by done; lia. }
  apply wp_bind. eapply (wp_readi fsb dstart Hlay dev_read L' v' _ i (set_idata d' x)); try done; simpl.
  - lia.
  - by rewrite Hty'.
  - unfold uint. lia.
  - unfold uint. lia.
  - intros t2 Ht2. apply wp_ret. rewrite decide_True by lia. split.
    + simpl. f_equal; [done|]. assert (dinode_ok d') as Hd' by apply F'. unfold read_len.
      rewrite <-(content_take v' d' off' _ Hd'), Hc' by (repeat case_decide; lia).
      case_decide; [done|]. rewrite !take_ge; [done|rewrite length_drop; lia..].
    + exists L', v', d'. split; [by split|]. split; [done|]. intros e Fe He.
      assert (∀ a, a ∈ owned v e → v' a = v a ∧ used fsb v' a = true ∧ (a ∉ owned v' d')) as Hke.
      { intros a Ha. destruct (f_data _ _ _ _ Fe a Ha). by apply Hk; [| |apply He]. }
      destruct (file_frame v v' e Fe) as (Fe' & Ho & Hce); [intros a Ha; by destruct (Hke a Ha) as (? & ? & _)|].
      split; [done|]. split; [done|]. intros a. rewrite Ho. intros Ha. by apply Hke.
Qed.

(** C25: inside a transaction with room for four more blocks, on a disk with the blocks it
    may need, and for a directory below the size limit, [dirlink] of a name the
    directory does not have returns 0, and looking names up in the directory afterwards
    gives the new inode number for that name and what it gave before for every other
    name (names count to [DIRSIZ] bytes). The directory stays one, and other files keep
    their blocks. *)
Theorem dirlink_enters U L v s i x name inu junk :
  let d := idata x in
  on_file L v s i x → dir_ok fsb dstart v d → logged_within U L d →
  bytes name → bytes (de_name junk) → 0 < inu < 2 ^ 16 →
  dir_lookup (content v d) name = None → d_size d + 16 ≤ MAXFILE * 512 →
  (size U + 4 ≤ cap)%nat → free_blocks fsb (pot d + 1) v →
  wp (dirlink dev_read dev_write junk i name inu) s (λ r s', r = 0 ∧
    ∃ L' v' d', on_file L' v' s' i (set_idata d' x) ∧ dir_ok fsb dstart v' d' ∧
      (∀ n', dir_lookup (content v' d') n' =
         if decide (cname DIRSIZ n' = cname DIRSIZ name) then Some inu else dir_lookup (content v d) n') ∧
      ∀ e, file_ok fsb dstart v e → (∀ a, a ∈ owned v e → a ∉ owned v d) → file_ok fsb dstart v' e ∧ content v' e = content v e).
Proof.
  intros d [Ht Hsb Hv Hi Hdev Hn F] D [HL HB] Hnm Hj Hinu Hnone Hmax Hcap Hf.
  eapply (wp_dirlink fsb dstart Hlay dev_read dev_write U L v s i x name inu junk); try done.
  intros v' d' t L' Ht' (D' & Hv' & Hl & Hk). split; [done|]. exists L', v', d'.
  split; [split; try done; [by apply with_ino_lookup|apply D']|]. split; [done|]. split; [done|].
  intros e Fe He. destruct (file_frame v v' e Fe) as (Fe' & _ & Hce); [|done].
  intros a Ha. destruct (f_data _ _ _ _ Fe a Ha) as [Had Hau]. destruct (Hk a Had Hau) as (? & ? & _); [by apply He|done].
Qed.

(** C22: path names resolve as the directories on disk say. Take a well-formed tree of
    directories, a cache with two free entries and no inode locked. From the root if
    the path starts with a slash and from the current directory otherwise, [namex]
    follows the elements of the path (the nonempty parts between slashes) and returns
    one more reference to the inode they lead to, all other references and locks being
    as before; it returns 0, and keeps no reference, if an element is missing or is
    looked up in a file. With [nameiparent] it stops at the parent and hands back the
    last element. *)
Theorem namex_resolves L v H a c cwd parent path name s :
  irel fsb L v H a s → room a → tree_ok fsb dstart v → fs_ok fsb dstart v → (size L ≤ cap)%nat →
  length name = DIRSIZ → linked fsb v ROOTINO → H !! c = Some cwd → linked fsb v c →
  let n := if decide (head path = Some SLASH) then ROOTINO else c in
  wp (namex dev_read cwd path parent name) s
    (λ r s', match walk fsb v parent n (elements path) with
      | None => r.1 = None ∧ irel fsb L v H a s'
      | Some m => ∃ j, r.1 = Some j ∧ irel fsb L v (<[m := j]> H) (i_step (IGet m) a) s' ∧ (H !! m = Some j ∨ H !! m = None) ∧
          (parent = true → ∃ e, list.last (elements path) = Some e ∧ cname DIRSIZ r.2 = cname DIRSIZ e)
      end).
Proof.
  intros R Hrm Ht Hv Hc Hname Hroot HH Hcwd n.
  eapply wp_mono; [by apply (wp_namex fsb dstart Hlay dev_read dev_write L v H a c cwd parent path name s)|].
  intros r s'. fold n. unfold walked, holds. destruct (walk fsb v parent n (elements path)) as [m|]; [|done].
  intros (j & Hr & [R' Hm] & Hlast). exists j. split; [done|]. split; [done|]. split; [|done].
  destruct Hm as [Hm|Hm]; [by left|right]. apply not_elem_of_dom. by rewrite (ir_dom _ _ _ _ _ _ R).
Qed.
End spec.

Definition no_read (_ : Z) : option (nat → Z → kM (st (S:=Log.st)) (Z * list Z)) := None.
Definition no_write (_ : Z) : option (nat → list Z → Z → kM (st (S:=Log.st)) Z) := None.

Lemma demo_on_file : on_file demo_super 59 ∅ demo_fs demo_st 1 demo_a.
Proof. split; [apply demo_tx_ok|reflexivity|apply demo_fs_ok|reflexivity|reflexivity|by vm_compute|apply demo_file_ok]. Qed.

Lemma demo_within (d : dinode) : logged_within demo_super {[58]} ∅ d.
Proof.
  split; [apply empty_subseteq|]. intros c Hc. change (sb_size demo_super) with 1000 in Hc.
  rewrite demo_bmap by done. by apply elem_of_singleton.
Qed.

Lemma write_read_witness :
  ∃ s', (w ← writei no_write 1 [1; 2; 3] 3 3; r ← readi no_read 1 0 10; kret (w, r.2))%kern demo_st =
        Done (3, [104; 101; 108; 1; 2; 3]) s'.
Proof.
  assert (content demo_fs demo_file = [104; 101; 108; 108; 111]) as Hc by (vm_compute; reflexivity).
  pose proof (write_read demo_super 59 demo_layout no_read no_write {[58]} ∅ demo_fs demo_st 1 demo_a [1; 2; 3] 3 0 10
    demo_on_file) as H.
  change (idata demo_a) with demo_file in H. rewrite Hc in H.
  destruct (proj1 (wp_done _ _ _) (H ltac:(done) (demo_within _) ltac:(simpl; lia) ltac:(by vm_compute)
    ltac:(rewrite size_singleton; vm_compute; lia) (demo_free 2 ltac:(lia)) ltac:(lia) ltac:(lia) ltac:(lia)
    ltac:(simpl; lia))) as (wr & s' & Hs & -> & _).
  exists s'. exact Hs.
Defined.

Lemma demo_bmap_within : within demo_super {[58]} ∅.
Proof. destruct (demo_within demo_file) as [_ HB]. split; [apply empty_subseteq|done|]. rewrite size_singleton. vm_compute. lia. Qed.

Lemma balloc_bfree_witness :
  ∃ s1 s2, (a ← balloc ROOTDEV; s1 ← kget; bfree ROOTDEV a ;; kret (a, s1))%kern demo_st = Done (61, s1) s2.
Proof.
  destruct (proj1 (wp_done _ _ _) (balloc_bfree demo_super 59 demo_layout {[58]} ∅ demo_fs demo_st demo_tx_ok eq_refl demo_fs_ok
    demo_bmap_within ltac:(rewrite size_singleton; vm_compute; lia) (demo_free 1 ltac:(lia))))
    as ([a s1] & s2 & Hs & Ha & Hu & Hlow & _).
  exists s1, s2. assert (a = 61) as ->; [clear -Ha Hu Hlow|exact Hs].
  destruct Ha as [Ha _].
  destruct (decide (a < 61)) as [Hlt|Hge].
  - assert (a = 59 ∨ a = 60) as [->| ->] by lia; exfalso; revert Hu; vm_compute; discriminate.
  - destruct (decide (a = 61)) as [Heq|Hne]; [exact Heq|]. exfalso.
    assert (used demo_super demo_fs 61 = false) as H61 by (vm_compute; reflexivity). rewrite Hlow in H61 by lia. discriminate.
Defined.

(** The cache with the root directory only, referenced once. *)
Definition demo_cwd : st := St demo_tx demo_super
  (Inode ROOTDEV 1 1 false true demo_root :: replicate 49 empty_inode) [].

Lemma root_irel d W v t : log_tx 1000 2 30 d W 1 ∅ ∅ ∅ v t → disk_inode demo_super v 1 = demo_root →
  irel (BlockLayer0 := log_blocks 1000 2 30 d W 1) demo_super ∅ v {[1 := 0%nat]} (ISpec {[1 := 1]} ∅) (set_blk t demo_cwd).
Proof.
  intros Ht Hroot. split; cbn [irefs ilocked].
  - exact Ht.
  - reflexivity.
  - reflexivity.
  - by rewrite !dom_singleton_L.
  - apply empty_subseteq.
  - intros n i [<- <-]%lookup_singleton_Some. eexists _, 1. split; [reflexivity|]. split; [apply lookup_singleton_eq|].
    split; cbn [iref idev inum ibusy ivalid idata].
    + lia.
    + change (sb_ninodes demo_super) with 200. lia.
    + by rewrite bool_decide_eq_false_2 by apply not_elem_of_empty.
    + by rewrite Hroot.
    + reflexivity.
  - intros [|i] x; cbn [inodes set_blk demo_cwd lookup list_lookup].
    + intros _ Hno. destruct (Hno 1). apply lookup_singleton_eq.
    + by intros [-> _]%lookup_replicate _.
Qed.

Lemma demo_irel : irel demo_super ∅ demo_fs {[1 := 0%nat]} (ISpec {[1 := 1]} ∅) demo_cwd.
Proof. exact (root_irel demo_fs [] demo_fs demo_tx demo_tx_ok demo_root_inode). Qed.

Lemma demo_room : room (ISpec {[1 := 1]} ∅).
Proof.
  split; [split; [done|]|split; [apply (bool_decide_eq_true_1 _); vm_compute; reflexivity|]];
    cbn [irefs]; intros n k [<- <-]%lookup_singleton_Some; lia.
Qed.

Ltac by_compute := apply (bool_decide_eq_true_1 _); vm_compute; reflexivity.

Lemma inode_cache_refines_witness :
  ∃ H' s', run_iops [IGet 2; IDup 2; ILock 2; IUnlock 2; IPut 2; IPut 2] {[1 := 0%nat]} (ISpec {[1 := 1]} ∅) demo_cwd =
        Done H' s' ∧ irel demo_super ∅ demo_fs H' (ISpec {[1 := 1]} ∅) s'.
Proof.
  set (os := [IGet 2; IDup 2; ILock 2; IUnlock 2; IPut 2; IPut 2]).
  assert (d_type (disk_inode demo_super demo_fs 2) ≠ 0 ∧ d_nlink (disk_inode demo_super demo_fs 2) ≠ 0) as [Ht Hl]
    by (rewrite demo_file_inode; done).
  assert (i_oks demo_super demo_fs os (ISpec {[1 := 1]} ∅)) as Hok.
  { unfold os. cbn [i_oks i_ok]. split_and!; try exact Ht; try exact Hl; try exact I; try (by_compute).
    exists 1. split; by_compute. }
  destruct (proj1 (wp_done _ _ _) (inode_cache_refines demo_super 59 demo_layout ∅ demo_fs _ _ _ os demo_irel ltac:(vm_compute; lia) Hok))
    as (H' & s' & Hs & R). exists H', s'. split; [exact Hs|].
  replace (foldl (λ a o, i_step o a) _ os) with (ISpec {[1 := 1]} ∅) in R; [exact R|]. unfold os. vm_compute. reflexivity.
Defined.

(** [a] again, its last link gone. *)
Definition demo_gone : inode := Inode ROOTDEV 2 1 false true (set_dnlink 0 demo_file).
Definition demo_unlinked : st := St demo_tx demo_super [demo_gone] [].

Lemma iput_frees_witness :
  ∃ s' L' v', iput 0 demo_unlinked = Done tt s' ∧ tx ∅ ∅ L' v' (blk s') ∧
    used demo_super demo_fs 60 = true ∧ used demo_super v' 60 = false ∧ used demo_super v' 59 = true.
Proof.
  assert (on_file demo_super 59 ∅ demo_fs demo_unlinked 0 demo_gone) as Hon.
  { split; [apply demo_tx_ok|reflexivity|apply demo_fs_ok|reflexivity|reflexivity|by vm_compute|].
    apply (one_block_ok _ 60); [apply (one_block_inode T_FILE 0 5 60); unfold T_FILE; lia|done|vm_compute; reflexivity|lia|done]. }
  destruct (proj1 (wp_done _ _ _) (iput_frees demo_super 59 demo_layout {[58]} ∅ demo_fs demo_unlinked 0 demo_gone Hon
    demo_bmap_within ltac:(rewrite size_singleton; vm_compute; lia) eq_refl eq_refl eq_refl eq_refl))
    as ([] & s' & Hs & L' & v' & y & Ht & _ & _ & _ & Hu & _).
  exists s', L', v'. split; [exact Hs|]. split; [exact Ht|].
  assert (owned demo_fs (idata demo_gone) = [60]) as Ho by (vm_compute; reflexivity). rewrite Ho in Hu.
  change (sb_size demo_super) with 1000 in Hu.
  rewrite (Hu 60), (Hu 59) by lia. split_and!; vm_compute; reflexivity.
Defined.

(** The root directory, locked, entering the name "b" for inode 7. *)
Definition demo_in_root : inode := Inode ROOTDEV 1 1 true true demo_root.
Definition demo_open_root : st := St demo_tx demo_super [demo_in_root] [].

Lemma dirlink_enters_witness :
  ∃ s' L' v' d', dirlink no_read no_write (replicate 16 0) 0 [98] 7 demo_open_root = Done 0 s' ∧ tx ∅ ∅ L' v' (blk s') ∧
    dir_lookup (content v' d') [98] = Some 7 ∧ dir_lookup (content v' d') [97] = Some 2.
Proof.
  assert (on_file demo_super 59 ∅ demo_fs demo_open_root 0 demo_in_root) as Hon.
  { split; [apply demo_tx_ok|reflexivity|apply demo_fs_ok|reflexivity|reflexivity|by vm_compute|apply demo_dir_ok]. }
  assert (bytes [98] ∧ bytes (de_name (replicate 16 0))) as [Hb1 Hb2] by (unfold bytes; split; by_compute).
  destruct (proj1 (wp_done _ _ _) (dirlink_enters demo_super 59 demo_layout no_read no_write {[58]} ∅ demo_fs demo_open_root 0
    demo_in_root [98] 7 (replicate 16 0) Hon demo_dir_ok (demo_within _) Hb1 Hb2 ltac:(lia) ltac:(vm_compute; reflexivity)
    ltac:(by vm_compute) ltac:(rewrite size_singleton; vm_compute; lia) (demo_free 2 ltac:(lia))))
    as (r & s' & Hs & -> & L' & v' & d' & Hon' & _ & Hl & _).
  exists s', L', v', d'. split; [exact Hs|]. split; [apply Hon'|]. rewrite !Hl. split; vm_compute; reflexivity.
Defined.

(** "//a" from the root directory, and its parent. *)
Lemma namex_resolves_witness :
  ∃ j s', (namei no_read 0 [SLASH; SLASH; 97] (replicate DIRSIZ 0) demo_cwd = Done (Some j) s') ∧
    irel demo_super ∅ demo_fs {[2 := j; 1 := 0%nat]} (ISpec {[2 := 1; 1 := 1]} ∅) s'.
Proof.
  pose proof (namex_resolves demo_super 59 demo_layout no_read no_write ∅ demo_fs {[1 := 0%nat]} (ISpec {[1 := 1]} ∅) 1 0 false
    [SLASH; SLASH; 97] (replicate DIRSIZ 0) demo_cwd demo_irel demo_room demo_tree demo_fs_ok ltac:(vm_compute; lia) eq_refl
    (demo_linked 1 ltac:(by left)) (lookup_singleton_eq _ _) (demo_linked 1 ltac:(by left))) as H.
  cbv zeta in H. rewrite decide_True in H by reflexivity.
  replace (walk _ _ _ _ _) with (Some 2) in H by (vm_compute; reflexivity).
  destruct (proj1 (wp_done _ _ _) H) as (r & s' & Hs & j & Hr & R & _).
  exists j, s'. split; [|exact R]. unfold namei, kbind. rewrite Hs. unfold kret. by rewrite Hr.
Defined.
