(* ===== verification/File.v ===== *)
(** * Open files (file.c, and pipealloc of pipe.c)

    The file table over the file system inside the log, the pipes, and the page
    allocator that holds them. The theorems follow a write through all of them:
    from a descriptor to the blocks that survive a crash. *)

From S2P Require Import Prelude CString Kalloc Pipe Bio Log Blocks Fs FsThm FsDir FsSpec.

Local Open Scope Z_scope.

Definition NFILE : nat := 100.

Inductive ftype := FD_NONE | FD_PIPE | FD_INODE.

#[export] Instance ftype_eq_dec : EqDecision ftype.
Proof. solve_decision. Defined.

Record file := MkFile {
  ftyp : ftype;
  ref : Z;              (* reference count *)
  readable : bool;
  writable : bool;
  pipe : Z;             (* address of the pipe *)
  ip : nat;             (* index in the inode cache *)
  foff : Z;
}.

Definition set_fref (r : Z) (f : file) : file :=
  MkFile (ftyp f) r (readable f) (writable f) (pipe f) (ip f) (foff f).
Definition set_ftyp (t : ftype) (f : file) : file :=
  MkFile t (ref f) (readable f) (writable f) (pipe f) (ip f) (foff f).
Definition set_foff (o : Z) (f : file) : file :=
  MkFile (ftyp f) (ref f) (readable f) (writable f) (pipe f) (ip f) o.

Module File.
Section file.
(** Blocks on the disk, the end of the kernel's data, the device switch. *)
Context (disksize kend : Z).
Abbreviation fst_t := (Fs.st (S := Log.st)).
Context (dev_read : Z → option (nat → Z → kM fst_t (Z * list Z))).
Context (dev_write : Z → option (nat → list Z → Z → kM fst_t Z)).

#[local] Instance ops : BlockOps Log.st := log_ops disksize.
#[local] Existing Instance Fs.fs_locks.

Record st := St {
  fs : fst_t;
  ftable : list file;            (* ftable.file[NFILE] *)
  pipes : gmap Z Pipe.st;        (* the pipes, by address *)
  pages : Kalloc.st;             (* kmem *)
  killed : bool;                 (* proc->killed *)
}.

Definition set_fs (v : fst_t) (s : st) : st := St v (ftable s) (pipes s) (pages s) (killed s).
Definition set_ftable (v : list file) (s : st) : st := St (fs s) v (pipes s) (pages s) (killed s).
Definition set_pipes (v : gmap Z Pipe.st) (s : st) : st := St (fs s) (ftable s) v (pages s) (killed s).
Definition set_pages (v : Kalloc.st) (s : st) : st := St (fs s) (ftable s) (pipes s) v (killed s).

#[export] Instance file_locks : HasLocks st.
Proof.
  refine {| held s := held (fs s); set_held h s := set_fs (set_held h (fs s)) s |}.
  - intros h s. apply held_set.
  - intros [f ? ? ? ?]. exact (f_equal (λ f, St f _ _ _ _) (set_held_held f)).
  - intros h h' [f ? ? ? ?]. exact (f_equal (λ f, St f _ _ _ _) (set_held_set h h' f)).
Defined.

Local Open Scope kern_scope.

Definition fsl : lens st fst_t := Lens fs set_fs.
Definition infs {A} (m : kM fst_t A) : kM st A := kzoom fsl m.
Definition begin_op : kM st unit := infs (kzoom Fs.blkl Log.begin_op).
Definition end_op : kM st unit := infs (kzoom Fs.blkl (Log.end_op disksize)).

(** The allocator and a pipe, in the lock context of the CPU. *)
Definition kmeml : lens st Kalloc.st :=
  Lens (λ s, Kalloc.set_sheld (held s) (pages s))
       (λ k s, set_held (Kalloc.sheld k) (set_pages (Kalloc.set_sheld [] k) s)).
Definition pipel (p : Z) (ps : Pipe.st) : lens st Pipe.st :=
  Lens (λ s, Pipe.set_sheld (held s) ps)
       (λ q s, set_held (Pipe.sheld q) (set_pipes (<[p := Pipe.set_sheld [] q]> (pipes s)) s)).
Definition inpipe {A} (p : Z) (m : kM Pipe.st A) : kM st A :=
  s ← kget; ps ← kunwrap (pipes s !! p); kzoom (pipel p ps) m.

Definition getf (f : nat) : kM st file := s ← kget; kunwrap (ftable s !! f).
Definition putf (f : nat) (x : file) : kM st unit := kmodify (λ s, set_ftable (<[f := x]> (ftable s)) s).

(** [for(f = ftable.file; ...; f++) if(f->ref == 0)]: from index [i] on. *)
Fixpoint free_file (i : nat) (l : list file) : option nat :=
  match l with
  | [] => None
  | x :: l => if bool_decide (ref x = 0) then Some i else free_file (S i) l
  end.

Definition filealloc : kM st (option nat) :=
  acquire LFtable ;;
  s ← kget;
  match free_file 0 (ftable s) with
  | Some f =>
    x ← getf f;
    putf f (set_fref 1 x) ;;
    release LFtable ;;
    kret (Some f)
  | None => release LFtable ;; kret None
  end.

Definition filedup (f : nat) : kM st nat :=
  acquire LFtable ;;
  x ← getf f;
  kassert (negb (bool_decide (ref x < 1))) "filedup" ;;
  putf f (set_fref (i32 (ref x + 1)) x) ;;
  release LFtable ;;
  kret f.

(** [pipeclose] of pipe.c: the page goes back when both ends are closed. *)
Definition pipeclose (p : Z) (writable : bool) : kM st unit :=
  last ← inpipe p (Pipe.pipeclose p writable);
  kwhen last
    (kmodify (λ s, set_pipes (delete p (pipes s)) s) ;; kzoom kmeml (Kalloc.kfree kend p)).

Definition fileclose (f : nat) : kM st unit :=
  acquire LFtable ;;
  x ← getf f;
  kassert (negb (bool_decide (ref x < 1))) "fileclose" ;;
  let x := set_fref (i32 (ref x - 1)) x in
  putf f x ;;
  if bool_decide (0 < ref x) then release LFtable
  else
    let ff := x in
    putf f (set_ftyp FD_NONE (set_fref 0 x)) ;;
    release LFtable ;;
    match ftyp ff with
    | FD_PIPE => pipeclose (pipe ff) (writable ff)
    | FD_INODE => begin_op ;; infs (Fs.iput (ip ff)) ;; end_op
    | FD_NONE => kret tt
    end.

Definition filestat (f : nat) : kM st (Z * option stat) :=
  x ← getf f;
  match ftyp x with
  | FD_INODE =>
    infs (Fs.ilock (ip x)) ;;
    r ← infs (Fs.stati (ip x));
    infs (Fs.iunlock (ip x)) ;;
    kret (0, Some r)
  | _ => kret (-1, None)
  end.

(** A pipe operation that goes to sleep ends the segment. *)
Definition pipe_res {A} (c : chan) (r : Pipe.res A) : kM st Z :=
  match r with Pipe.Ret r => kret r | Pipe.Sleeps _ => ksleep c end.

(** The value returned and the bytes stored at [addr]. *)
Definition fileread (f : nat) (n : Z) : kM st (Z * list Z) :=
  x ← getf f;
  if negb (readable x) then kret (-1, [])
  else match ftyp x with
  | FD_PIPE =>
    s ← kget;
    '(r, l) ← inpipe (pipe x) (Pipe.piperead (pipe x) (killed s) n);
    r ← pipe_res (CPipeRead (pipe x)) r;
    kret (r, l)
  | FD_INODE =>
    infs (Fs.ilock (ip x)) ;;
    '(r, l) ← infs (Fs.readi dev_read (ip x) (foff x) (u32 n));
    kwhen (bool_decide (0 < i32 r)) (y ← getf f; putf f (set_foff (u32 (foff y + r)) y)) ;;
    infs (Fs.iunlock (ip x)) ;;
    kret (i32 r, l)
  | FD_NONE => kpanic "fileread"
  end.

(** [int max = ((LOGSIZE-1-1-2) / 2) * 512;] *)
Definition wmax : Z := (LOGSIZE - 1 - 1 - 2) / 2 * 512.

(** The loop of [filewrite], from byte [i] of [addr] on. *)
Fixpoint filewrite_loop (fuel : nat) (f : nat) (addr : list Z) (i n : Z) : kM st Z :=
  match fuel with
  | O => kfault
  | S fuel =>
    if bool_decide (i < n) then
      let n1 := if bool_decide (wmax < n - i) then wmax else n - i in
      begin_op ;;
      x ← getf f;
      infs (Fs.ilock (ip x)) ;;
      r ← infs (Fs.writei dev_write (ip x) (take (Z.to_nat n1) (drop (Z.to_nat i) addr)) (foff x) n1);
      kwhen (bool_decide (0 < r)) (y ← getf f; putf f (set_foff (u32 (foff y + r)) y)) ;;
      infs (Fs.iunlock (ip x)) ;;
      end_op ;;
      if bool_decide (r < 0) then kret i
      else
        kassert (bool_decide (r = n1)) "short filewrite" ;;
        filewrite_loop fuel f addr (i + r) n
    else kret i
  end.

Definition filewrite (f : nat) (addr : list Z) (n : Z) : kM st Z :=
  x ← getf f;
  if negb (writable x) then kret (-1)
  else match ftyp x with
  | FD_PIPE =>
    s ← kget;
    r ← inpipe (pipe x) (Pipe.pipewrite (pipe x) (killed s) n addr);
    pipe_res (CPipeWrite (pipe x)) r
  | FD_INODE =>
    i ← filewrite_loop (S (Z.to_nat n)) f addr 0 n;
    kret (if bool_decide (i = n) then n else -1)
  | FD_NONE => kpanic "filewrite"
  end.

(** [pipealloc] of pipe.c; the page that [kalloc] hands out is the pipe, its
    buffer holding whatever was there. *)
Definition fresh_pipe (junk : list Z) : Pipe.st := Pipe.St [] junk 0 0 true true [].

Definition pipealloc (junk : list Z) : kM st (option (nat * nat)) :=
  f0 ← filealloc;
  match f0 with
  | None => kret None
  | Some f0 =>
    f1 ← filealloc;
    match f1 with
    | None => fileclose f0 ;; kret None
    | Some f1 =>
      p ← kzoom kmeml Kalloc.kalloc;
      if bool_decide (p = 0) then fileclose f0 ;; fileclose f1 ;; kret None
      else
        kmodify (λ s, set_pipes (<[p := fresh_pipe junk]> (pipes s)) s) ;;
        x0 ← getf f0;
        putf f0 (MkFile FD_PIPE (ref x0) true false p (ip x0) (foff x0)) ;;
        x1 ← getf f1;
        putf f1 (MkFile FD_PIPE (ref x1) false true p (ip x1) (foff x1)) ;;
        kret (Some (f0, f1))
    end
  end.
End file.
End File.
