(* ===== verification/FileThm.v ===== *)
(** * Theorems on open files

    A write through a descriptor, down to the disk blocks that a crash leaves. *)

From S2P Require Import Prelude CString Kalloc Pipe Bio Log Blocks Fs FsThm FsDir FsSpec File.
Import Fs.

Local Open Scope Z_scope.

Section write.
Context (disksize kend ls sz : Z) (fsb : superblock) (dstart : Z).
#[local] Instance w_ops : BlockOps Log.st := log_ops disksize.
Abbreviation layer := (log_blocks disksize ls sz).
Context (dev_read : Z → option (nat → Z → kM (st (S:=Log.st)) (Z * list Z))).
Context (dev_write : Z → option (nat → list Z → Z → kM (st (S:=Log.st)) Z)).

(** The layout does not depend on what is on the disk. *)
Context (Hlay : layout (BlockLayer0 := layer (λ _, []) [] 0) fsb dstart).
(** The free map, and room in the log for a write of [wmax] bytes. *)
Context (U : gset Z) (HU : ∀ c, 0 ≤ c < sb_size fsb → BBLOCK c fsb ∈ U).
Context (Hroom : (size U + 17 ≤ Z.to_nat (sz - 1))%nat).

Lemma lay d W out : layout (BlockLayer0 := layer d W out) fsb dstart.
Proof. destruct Hlay. by split. Qed.

Abbreviation fs_ok := (fs_ok (BlockLayer0 := layer (λ _, []) [] 0) fsb dstart).
Abbreviation file_ok := (file_ok fsb dstart).
Abbreviation disk_inode := (disk_inode fsb).
Abbreviation disk_file := (disk_file (BlockLayer0 := layer (λ _, []) [] 0) fsb dstart).
Abbreviation quiet d W := (log_tx disksize ls sz d W 0 ∅ ∅ ∅).

Lemma fs_ok_at d W out v : fs_ok v ↔ FsThm.fs_ok (BlockLayer0 := layer d W out) fsb dstart v.
Proof. split; intros []; by split. Qed.

Lemma home_same v v' : home_eq ls sz v' v → same_home (BlockLayer0 := layer (λ _, []) [] 0) v v'.
Proof. intros H b Hb. by apply H. Qed.

(** Descriptor [f] is open on inode [n], nothing being under way. *)
Record rest (d : Z → block) W (v : Z → block) (s : File.st) (f : nat) (x : file) (n : Z) : Prop := {
  re_quiet : quiet d W v (blk (File.fs s));
  re_sb : sb (File.fs s) = fsb;
  re_fs : fs_ok v;
  re_file : File.ftable s !! f = Some x;
  re_typ : ftyp x = FD_INODE ∧ writable x = true;
  re_ino : ∃ y, inodes (File.fs s) !! ip x = Some y ∧ idev y = ROOTDEV ∧ inum y = n ∧ 1 ≤ iref y ∧ ibusy y = false ∧
                (ivalid y = true → idata y = disk_inode v n);
  re_num : 0 ≤ n < sb_ninodes fsb;
  re_ok : file_ok v (disk_inode v n);
  re_dtype : d_type (disk_inode v n) ≠ 0 ∧ d_type (disk_inode v n) ≠ T_DEV;
}.

Lemma nblocks_wmax off n : 0 ≤ off → n ≤ File.wmax → (nblocks off n ≤ 14)%nat.
Proof.
  intros Ho Hn. unfold nblocks. case_decide; [lia|]. change File.wmax with 6656 in Hn.
  pose proof (Z.mod_pos_bound off 512 ltac:(lia)).
  pose proof (Z.div_le_upper_bound (off mod 512 + n + 511) 512 14 ltac:(lia)).
  enough ((off mod 512 + n + 511) / 512 < 15) by lia. apply Z.div_lt_upper_bound; lia.
Qed.

(** What one transaction of [filewrite] leaves, whenever the machine stops. *)
Definition chunk_crash (d : Z → block) W' (n : Z) (c c' : list Z) : Prop :=
  ∀ k, let e := recovered ls (apply_writes d (take k W')) in disk_file e n c ∨ disk_file e n c'.

Lemma wp_chunk {A} d W v s f x n chunk m (k : Z → kM File.st A) (Q : A → File.st → Prop) :
  let dn := disk_inode v n in let n1 := Z.of_nat (length chunk) in
  rest d W v s f x n → 0 < n1 ≤ File.wmax → 0 ≤ foff x ≤ d_size dn → foff x + n1 ≤ MAXFILE * 512 →
  free_blocks fsb (pot dn + 14 + m) v →
  (∀ W' v' s', let x' := set_foff (foff x + n1) x in let dn' := disk_inode v' n in
     let c' := splice (content v dn) (Z.to_nat (foff x)) chunk in
     rest (apply_writes d W') (W ++ W') v' s' f x' n → content v' dn' = c' →
     d_size dn' = Z.max (d_size dn) (foff x + n1) → free_blocks fsb (pot dn' + m) v' →
     chunk_crash d W' n (content v dn) c' → wp (k n1) s' Q) →
  wp (File.begin_op ;; x ← File.getf f; File.infs (ilock (ip x)) ;;
      r ← File.infs (writei dev_write (ip x) chunk (foff x) n1);
      kwhen (bool_decide (0 < r)) (y ← File.getf f; File.putf f (set_foff (u32 (foff y + r)) y)) ;;
      File.infs (iunlock (ip x)) ;; File.end_op disksize ;; k r)%kern s Q.
Proof.
  intros dn n1 R Hn1 Hoff Hmax Hfree HQ. pose proof R as [Hq Hsb Hv Hf [Hty Hwr] (y & Hy & Hdev & Hnum & Href & Hbusy & Hval) Hn F [Ht0 Htd]].
  fold dn in F, Ht0, Htd. assert (∀ b, v b = d b) as Hvd by (intros b; by eapply quiet_disk).
  apply wp_bind. apply wp_zoom, wp_zoom. eapply wp_mono; [by apply (wp_begin disksize ls sz d W v)|].
  intros [] t0 Ht0'. simpl.
  apply wp_bind. unfold File.getf. apply wp_bind, wp_get. apply (wp_unwrap _ x); [done|].
  apply wp_bind, wp_zoom.
  eapply (wp_ilock (BlockLayer0 := layer d W 1) fsb dstart (lay d W 1) ∅ v);
    [exact Ht0'|exact Hsb|exact Hy|exact Hdev|by rewrite Hnum|done|done|rewrite size_empty; lia|by rewrite Hnum|].
  intros t1 Ht1. apply wp_bind, wp_zoom. simpl.
  set (y1 := loaded fsb v y). assert (idata y1 = dn) as Hy1.
  { unfold y1, loaded, dn. simpl. rewrite Hnum. destruct (ivalid y); [by apply Hval|done]. }
  set (s1 := put_ino (set_blk t1 (File.fs s)) (ip x) y1).
  assert (inodes s1 !! ip x = Some y1) as Hs1 by (by eapply put_ino_lookup).
  eapply (wp_writei (BlockLayer0 := layer d W 1) fsb dstart (lay d W 1) dev_read dev_write U ∅ v s1 (ip x) y1); try done.
  all: try rewrite Hy1.
  { by apply (fs_ok_at d W 1). }
  { done. }
  { change (inum y1) with (inum y). by rewrite Hnum. }
  { done. }
  { done. }
  { change (cap (BlockLayer := layer d W 1)) with (log_cap sz 1). unfold log_cap. rewrite decide_False by done.
    pose proof (nblocks_wmax (foff x) n1 ltac:(lia) ltac:(lia)). lia. }
  { eapply free_blocks_le; [|exact Hfree]. pose proof (nblocks_wmax (foff x) n1 ltac:(lia) ltac:(lia)). lia. }
  intros r v1 d1 t2 L2 Ht2 (-> & F1 & Hv1 & Hc1 & _ & Hty1 & _ & Hsame & Hdisk) Hsz1 _ Hfr1. fold n1.
  rewrite Hy1 in Hc1, Hty1, Hsame, Hdisk. change (inum y1) with (inum y) in Hdisk. rewrite Hnum in Hdisk. fold n1 in Hsame, Hdisk.
  assert (disk_inode v1 n = d1) as Hd1.
  { rewrite Hdisk by done. destruct (decide (d_size dn < foff x + n1)); [by rewrite decide_True|].
    rewrite decide_False by tauto. symmetry. apply Hsame. lia. }
  rewrite bool_decide_eq_true_2 by lia. apply wp_bind. cbn [kwhen]. unfold File.getf. apply wp_bind, wp_bind, wp_get.
  apply (wp_unwrap _ x); [done|]. apply wp_modify. apply wp_bind, wp_zoom.
  set (y2 := set_idata d1 y1).
  eapply (wp_iunlock _ _ y2); [by apply (tx_held _ _ _ _ _ Ht2)|by apply with_ino_lookup|done|done|].
  apply wp_bind, wp_zoom, wp_zoom. eapply wp_mono; [by apply (wp_end disksize ls sz d W L2 v1)|].
  intros [] t3 (v2 & W' & Hq2 & Hh2 & Hcr). pose proof (home_same v1 v2 Hh2) as Hsh.
  assert (disk_inode v2 n = d1) as Hd2 by (by rewrite (disk_inode_home fsb dstart Hlay v1 v2)).
  destruct (file_home fsb dstart Hlay v1 v2 d1 Hsh F1) as (F2 & _ & Hc2).
  assert (0 ≤ foff x + n1 < 2 ^ 32) as Hu by (change MAXFILE with 140 in Hmax; lia).
  apply (HQ W' v2).
  - split; simpl; try done.
    + by apply (fs_home fsb dstart Hlay v1); [|apply (fs_ok_at d W 1)].
    + rewrite list_lookup_insert_eq by (by eapply lookup_lt_Some). by rewrite (u32_id (foff x + n1)) by done.
    + exists (set_ibusy false y2). split; [apply list_lookup_insert_eq; rewrite !length_insert; by eapply lookup_lt_Some|].
      rewrite Hd2. done.
    + by rewrite Hd2.
    + change (d_type (disk_inode v2 n) ≠ 0 ∧ d_type (disk_inode v2 n) ≠ T_DEV). by rewrite Hd2, Hty1.
  - by rewrite Hd2, Hc2.
  - by rewrite Hd2.
  - rewrite Hd2. apply (free_home fsb dstart Hlay v1); [done|]. apply Hfr1. eapply free_blocks_le; [|exact Hfree].
    pose proof (nblocks_wmax (foff x) n1 ltac:(lia) ltac:(lia)). lia.
  - intros k0. destruct (Hcr k0) as [He|He]; [left|right].
    + apply (disk_file_home fsb dstart Hlay v); [apply home_same; intros b Hb; by rewrite (He b Hb)|done|]. done.
    + apply (disk_file_home fsb dstart Hlay v1); [by apply home_same|done|].
      unfold FsSpec.disk_file. rewrite Hd1. split; [by apply (fs_ok_at d W 1)|done].
Qed.

Lemma splice_nil c o : splice c o [] = c.
Proof. unfold splice. simpl. rewrite Nat.add_0_r. apply take_drop. Qed.

Lemma splice_splice c o l1 l2 : (o ≤ length c)%nat → splice (splice c o l1) (o + length l1) l2 = splice c o (l1 ++ l2).
Proof.
  intros Ho. unfold splice. set (X := drop (o + length l1) c).
  assert (take (o + length l1) (take o c ++ l1 ++ X) = take o c ++ l1) as ->.
  { rewrite app_assoc. apply take_app_length'. rewrite length_app, length_take. lia. }
  assert (drop (o + length l1 + length l2) (take o c ++ l1 ++ X) = drop (o + length (l1 ++ l2)) c) as ->.
  { rewrite app_assoc, drop_app_ge by (rewrite length_app, length_take; lia). unfold X. rewrite drop_drop.
    f_equal. rewrite !length_app, length_take. lia. }
  by rewrite <-!app_assoc.
Qed.

(** Transactions for [k] bytes, and what a crash inside them leaves. *)
Definition rounds (k : Z) : nat := Z.to_nat ((k + (File.wmax - 1)) / File.wmax).

Lemma rounds_step k : 0 < k → rounds k = S (rounds (k - Z.min File.wmax k)).
Proof.
  intros Hk. unfold rounds. change File.wmax with 6656. destruct (Z.min_spec 6656 k) as [[H ->]|[H ->]].
  - replace (k + (6656 - 1)) with (k - 6656 + (6656 - 1) + 1 * 6656) by lia. rewrite Z.div_add by lia.
    pose proof (Z.div_pos (k - 6656 + (6656 - 1)) 6656). lia.
  - rewrite Z.sub_diag. change ((0 + (6656 - 1)) / 6656) with 0.
    rewrite <-(Z.div_unique (k + (6656 - 1)) 6656 1 (k - 1)) by lia. done.
Qed.

Definition write_crash (d : Z → block) W' (n : Z) (c : list Z) (o : nat) (src : list Z) : Prop :=
  ∀ k, ∃ j, disk_file (recovered ls (apply_writes d (take k W'))) n (splice c o (take j src)).

Lemma wp_filewrite_loop src f n : ∀ fuel i d W v s x,
  let dn := disk_inode v n in let len := Z.of_nat (length src) in
  rest d W v s f x n → 0 ≤ i ≤ len → 0 ≤ foff x ≤ d_size dn → foff x + (len - i) ≤ MAXFILE * 512 →
  free_blocks fsb (pot dn + 14 * rounds (len - i)) v → (Z.to_nat (len - i) < fuel)%nat →
  wp (File.filewrite_loop disksize dev_write fuel f src i len) s (λ r s', r = len ∧
    ∃ W' v', let o := Z.to_nat (foff x) in let rem := drop (Z.to_nat i) src in
      rest (apply_writes d W') (W ++ W') v' s' f (set_foff (foff x + (len - i)) x) n ∧
      content v' (disk_inode v' n) = splice (content v dn) o rem ∧ write_crash d W' n (content v dn) o rem).
Proof.
  induction fuel as [|fuel IH]; intros i d W v s x dn len R Hi Hoff Hmax Hfree Hfuel; [lia|].
  cbn [File.filewrite_loop]. assert (dinode_ok dn) as Hdn by apply R. pose proof (re_num _ _ _ _ _ _ _ R) as Hn.
  assert (length (content v dn) = Z.to_nat (d_size dn)) as Hlc by (by rewrite length_content).
  destruct (decide (i < len)) as [Hlt|Hge].
  2: { rewrite bool_decide_eq_false_2 by done. apply wp_ret. split; [lia|]. exists [], v. cbv zeta.
       rewrite drop_ge, splice_nil, app_nil_r by lia. split; [|split; [done|]].
       - replace (foff x + (len - i)) with (foff x) by lia. by destruct x.
       - intros k. exists 0%nat. rewrite take_nil, take_0, splice_nil. simpl.
         rewrite recovered_empty by apply (re_quiet _ _ _ _ _ _ _ R).
         apply (disk_file_home fsb dstart Hlay v); [|done|split; [apply R|split; [apply R|done]]].
         intros b _. symmetry. eapply quiet_disk, R. }
  rewrite bool_decide_eq_true_2 by done.
  set (n1 := if bool_decide (File.wmax < len - i) then File.wmax else len - i).
  assert (n1 = Z.min File.wmax (len - i)) as Hn1 by (unfold n1; case_bool_decide; lia). clearbody n1. cbv zeta.
  set (chunk := take (Z.to_nat n1) (drop (Z.to_nat i) src)).
  assert (0 < n1 ≤ File.wmax) as Hn1r by (change File.wmax with 6656 in *; lia).
  assert (Z.of_nat (length chunk) = n1) as Hlch by (unfold chunk; rewrite length_take, length_drop; lia).
  rewrite <-Hlch. rewrite rounds_step, <-Hn1 in Hfree by lia.
  eapply (wp_chunk d W v s f x n chunk (14 * rounds (len - i - n1))); try done; fold dn; rewrite ?Hlch; try lia.
  { eapply free_blocks_le; [|exact Hfree]. lia. }
  intros W1 v1 s1 x1 dn1 c1 R1 Hc1 Hsz1 Hfr1 Hcr1. rewrite bool_decide_eq_false_2 by lia.
  apply wp_bind, wp_assert; [by apply bool_decide_eq_true_2|]. unfold x1 in R1.
  eapply wp_mono; [apply (IH (i + n1) _ _ v1 s1 _ R1); cbn [foff set_foff]; fold dn1; try lia|].
  { eapply free_blocks_le; [|exact Hfr1]. fold len. replace (len - (i + n1)) with (len - i - n1) by lia. done. }
  intros r s2 (-> & W2 & v2 & R2 & Hc2 & Hcr2). split; [done|]. exists (W1 ++ W2), v2. cbv zeta. cbn [foff set_foff] in R2, Hc2, Hcr2.
  rewrite apply_writes_app, app_assoc. fold dn1 in Hc2, Hcr2. rewrite Hc1 in Hc2, Hcr2. unfold c1 in Hc2, Hcr2.
  replace (Z.to_nat (foff x + n1)) with (Z.to_nat (foff x) + length chunk)%nat in Hc2, Hcr2 by lia.
  assert (drop (Z.to_nat i) src = chunk ++ drop (Z.to_nat (i + n1)) src) as Hsplit.
  { unfold chunk. rewrite <-(take_drop (Z.to_nat n1) (drop (Z.to_nat i) src)) at 1. f_equal. rewrite drop_drop. f_equal. lia. }
  split; [|split].
  - replace (foff x + (len - i)) with (foff x + n1 + (len - (i + n1))) by lia. done.
  - rewrite Hc2, splice_splice, <-Hsplit by lia. done.
  - intros k. destruct (decide (k ≤ length W1)%nat).
    + rewrite Log.take_app_le by done. destruct (Hcr1 k) as [He|He].
      * exists 0%nat. by rewrite take_0, splice_nil.
      * exists (length chunk). rewrite Hsplit, take_app_length. done.
    + rewrite take_app_ge, apply_writes_app by lia. destruct (Hcr2 (k - length W1)%nat) as [j Hj].
      rewrite splice_splice in Hj by lia. exists (length chunk + j)%nat. rewrite Hsplit, take_app_add. done.
Qed.

(** C4: a write through a descriptor survives crashes, and never leaves more than part
    of itself. The descriptor is open for writing a file at an offset that is not past
    its end, no operation is open in the log, the file stays within the size limit and
    the disk has the blocks it may need. Then [filewrite] of [src] returns its length
    and moves the offset; the recovery of the disk it leaves has the content with [src]
    spliced in, and whichever prefix of its block writes reached the disk before a
    crash, recovery gives a well-formed file whose content has a prefix of [src]
    spliced in. *)
Theorem filewrite_durable d W v s f x n src :
  let dn := disk_inode v n in let len := Z.of_nat (length src) in let o := Z.to_nat (foff x) in
  rest d W v s f x n → 0 ≤ foff x ≤ d_size dn → foff x + len ≤ MAXFILE * 512 →
  free_blocks fsb (pot dn + 14 * rounds len) v →
  wp (File.filewrite disksize dev_write f src len) s (λ r s', r = len ∧
    File.ftable s' !! f = Some (set_foff (foff x + len) x) ∧
    ∃ W', Bio.writes (Log.bio (blk (File.fs s'))) = W ++ W' ∧
      disk_file (recovered ls (apply_writes d W')) n (splice (content v dn) o src) ∧
      ∀ k, ∃ j, disk_file (recovered ls (apply_writes d (take k W'))) n (splice (content v dn) o (take j src))).
Proof.
  intros dn len o R Hoff Hmax Hfree. pose proof (re_file _ _ _ _ _ _ _ R) as Hf. destruct (re_typ _ _ _ _ _ _ _ R) as [Hty Hwr].
  unfold File.filewrite, File.getf. apply wp_bind, wp_bind, wp_get. apply (wp_unwrap _ x); [done|]. rewrite Hwr, Hty. cbn [negb].
  apply wp_bind. eapply wp_mono; [apply (wp_filewrite_loop src f n _ 0 d W v s x R); rewrite ?Z.sub_0_r; try done; lia|].
  intros r s' (-> & W' & v' & R' & Hc & Hcr). rewrite Z.sub_0_r in R'. change (drop (Z.to_nat 0) src) with src in Hc, Hcr.
  apply wp_ret. rewrite bool_decide_eq_true_2 by done. split; [done|]. split; [apply R'|]. exists W'.
  pose proof (re_quiet _ _ _ _ _ _ _ R') as Hq. split; [apply Hq|]. split; [|done].
  rewrite recovered_empty by apply Hq. apply (disk_file_home fsb dstart Hlay v'); [|apply R|split; [apply R'|split; [apply R'|done]]].
  intros b _. symmetry. by eapply quiet_disk.
Qed.
End write.

(** The file "hello" of the small file system, open at its end. *)
Definition demo_open : File.st := File.St
  (St (demo_log 0) demo_super [empty_inode; Inode ROOTDEV 2 1 false false (idata empty_inode)] [])
  [MkFile FD_INODE 1 true true 0 1 5] ∅ (Kalloc.St [] true 0 (λ _, 0)) false.

Lemma demo_open_layout : layout (BlockLayer0 := log_blocks 1000 2 30 (λ _, []) [] 0) demo_super 59.
Proof. destruct demo_layout as [H1 H2 H3 H4 H5 H6]. split; [exact H1|exact H2|exact H3|exact H4|exact H5|exact H6]. Qed.

Lemma filewrite_durable_witness :
  ∃ s' W', File.filewrite 1000 no_write 0 [33; 33] 2 demo_open = Done 2 s' ∧
    let new j := FsSpec.disk_file (BlockLayer0 := log_blocks 1000 2 30 (λ _, []) [] 0) demo_super 59
      (recovered 2 (apply_writes demo_fs (take j W'))) 2 in
    new (length W') [104; 101; 108; 108; 111; 33; 33] ∧
    ∀ k, ∃ j, new k ([104; 101; 108; 108; 111] ++ take j [33; 33]).
Proof.
  assert (disk_inode demo_super demo_fs 2 = demo_file) as Hd by apply demo_file_inode.
  assert (content demo_fs demo_file = [104; 101; 108; 108; 111]) as Hc by (vm_compute; reflexivity).
  assert (rest 1000 2 30 demo_super 59 demo_fs [] demo_fs demo_open 0 (MkFile FD_INODE 1 true true 0 1 5) 2) as R.
  { split; cbn [demo_open File.fs File.ftable blk sb inodes ip].
    - by apply demo_log_ok.
    - reflexivity.
    - destruct demo_fs_ok as [H1 H2 H3]. split; [exact H1|exact H2|exact H3].
    - reflexivity.
    - split; reflexivity.
    - eexists. split; [reflexivity|]. cbn [idev inum iref ibusy ivalid].
      split; [reflexivity|]. split; [reflexivity|]. split; [lia|]. split; [reflexivity|discriminate].
    - change (sb_ninodes demo_super) with 200. lia.
    - rewrite Hd. apply demo_file_ok.
    - rewrite Hd. split; discriminate. }
  pose proof (filewrite_durable 1000 2 30 demo_super 59 no_read no_write demo_open_layout {[58]} (proj2 (demo_within demo_file))
    ltac:(rewrite size_singleton; vm_compute; lia) demo_fs [] demo_fs demo_open 0 _ 2 [33; 33] R) as H.
  rewrite Hd, Hc in H.
  destruct (proj1 (wp_done _ _ _) (H ltac:(simpl; lia) ltac:(by vm_compute) (demo_free 15 ltac:(lia))))
    as (r & s' & Hs & -> & _ & W' & _ & Hfin & Hcr).
  exists s', W'. split; [exact Hs|]. cbv beta zeta. rewrite firstn_all. split; [exact Hfin|].
  intros k. destruct (Hcr k) as [j Hj]. exists j. unfold splice in Hj. cbn [foff] in Hj.
  rewrite (drop_ge [104; 101; 108; 108; 111]), app_nil_r in Hj by (simpl; lia). exact Hj.
Defined.
