(* ===== verification/Sysfile.v ===== *)
(** * System calls on files (sysfile.c) and their arguments (syscall.c)

    Arguments are fetched from the memory of the calling process and checked
    against its size; descriptors index its table of open files. *)

From S2P Require Import Prelude CString Kalloc Pipe Bio Log Blocks Fs File.

Local Open Scope Z_scope.

Definition NOFILE : nat := 16.
Definition MAXARG : nat := 32.
Definition O_RDONLY : Z := 0x000.
Definition O_WRONLY : Z := 0x001.
Definition O_RDWR : Z := 0x002.
Definition O_CREATE : Z := 0x200.

(** ** The calling process, as the argument checks see it *)

Record uproc := UProc {
  usz : Z;        (* proc->sz *)
  uesp : Z;       (* proc->tf->esp *)
  umem : mem;     (* its memory *)
}.

(** The bytes at [a, a + n). *)
Definition ubytes (m : mem) (a : Z) (n : nat) : list Z := (λ k, m (a + Z.of_nat k)) <$> seq 0 n.

Definition fetchint (u : uproc) (addr : Z) : option Z :=
  if bool_decide (usz u ≤ addr) || bool_decide (usz u < u32 (addr + 4)) then None
  else Some (i32 (load32 (umem u) addr)).

(** The search of [fetchstr] for the end of the string, over [n] bytes. *)
Fixpoint nul_at (m : mem) (s : Z) (n : nat) : option nat :=
  match n with
  | O => None
  | S n => if bool_decide (m s = 0) then Some 0%nat else S <$> nul_at m (s + 1) n
  end.

(** The string at [addr]. *)
Definition fetchstr (u : uproc) (addr : Z) : option (list Z) :=
  if bool_decide (usz u ≤ addr) then None
  else ubytes (umem u) addr <$> nul_at (umem u) addr (Z.to_nat (usz u - addr)).

Definition argint (u : uproc) (n : Z) : option Z := fetchint u (u32 (uesp u + 4 + 4 * n)).

(** The address, once it was checked against [size] bytes. *)
Definition argptr (u : uproc) (n size : Z) : option Z :=
  match argint u n with
  | None => None
  | Some i =>
    if bool_decide (usz u ≤ u32 i) || bool_decide (usz u < u32 (u32 i + size)) then None else Some (u32 i)
  end.

Definition argstr (u : uproc) (n : Z) : option (list Z) :=
  match argint u n with None => None | Some addr => fetchstr u (u32 addr) end.

Module Sysfile.
Section sysfile.
Context (disksize kend : Z).
Abbreviation fst_t := (Fs.st (S := Log.st)).
Context (dev_read : Z → option (nat → Z → kM fst_t (Z * list Z))).
Context (dev_write : Z → option (nat → list Z → Z → kM fst_t Z)).
(** What uninitialised buffers on the kernel stack and fresh pages hold. *)
Context (junk_de junk_name junk_page : list Z).

#[local] Instance ops : BlockOps Log.st := log_ops disksize.

Record st := St {
  files : File.st;
  ofile : list (option nat);    (* proc->ofile[NOFILE] *)
  cwd : nat;                    (* proc->cwd *)
  user : uproc;
}.

Definition set_files (v : File.st) (s : st) : st := St v (ofile s) (cwd s) (user s).
Definition set_ofile (v : list (option nat)) (s : st) : st := St (files s) v (cwd s) (user s).
Definition set_cwd (v : nat) (s : st) : st := St (files s) (ofile s) v (user s).
Definition set_umem (m : mem) (s : st) : st := St (files s) (ofile s) (cwd s) (UProc (usz (user s)) (uesp (user s)) m).

Local Open Scope kern_scope.

Definition infile {A} (m : kM File.st A) : kM st A := kzoom (Lens files set_files) m.
Definition infs {A} (m : kM fst_t A) : kM st A := infile (File.infs m).
Definition begin_op : kM st unit := infile File.begin_op.
Definition end_op : kM st unit := infile (File.end_op disksize).
Definition geti (i : nat) : kM st inode := infs (Fs.geti i).
Definition modi (i : nat) (f : dinode → dinode) : kM st unit :=
  x ← geti i; infs (Fs.puti i (set_idata (f (idata x)) x)).

(** A copy into the memory of the process. *)
Definition copyout (a : Z) (l : list Z) : kM st unit :=
  kmodify (λ s, set_umem (store_bytes (umem (user s)) a l) s).

Definition arg {A} (f : uproc → option A) : kM st (option A) := kgets (λ s, f (user s)).

(** [argfd]: the descriptor and the file. *)
Definition argfd (n : Z) : kM st (option (nat * nat)) :=
  a ← arg (λ u, argint u n);
  match a with
  | None => kret None
  | Some fd =>
    s ← kget;
    if bool_decide (fd < 0) || bool_decide (Z.of_nat NOFILE ≤ fd) then kret None
    else
      o ← kunwrap (ofile s !! Z.to_nat fd);
      kret (match o with None => None | Some f => Some (Z.to_nat fd, f) end)
  end.

(** [for(fd = 0; fd < NOFILE; fd++)], from [i] on. *)
Fixpoint free_fd (i : nat) (l : list (option nat)) : option nat :=
  match l with
  | [] => None
  | None :: _ => Some i
  | Some _ :: l => free_fd (S i) l
  end.

Definition fdalloc (f : nat) : kM st (option nat) :=
  s ← kget;
  match free_fd 0 (ofile s) with
  | None => kret None
  | Some fd => kmodify (λ s, set_ofile (<[fd := Some f]> (ofile s)) s) ;; kret (Some fd)
  end.

Definition sys_dup : kM st Z :=
  a ← argfd 0;
  match a with
  | None => kret (-1)%Z
  | Some (_, f) =>
    r ← fdalloc f;
    match r with
    | None => kret (-1)%Z
    | Some fd => infile (File.filedup disksize f) ;; kret (Z.of_nat fd)
    end
  end.

Definition sys_read : kM st Z :=
  a ← argfd 0;
  match a with
  | None => kret (-1)%Z
  | Some (_, f) =>
    n ← arg (λ u, argint u 2);
    match n with
    | None => kret (-1)%Z
    | Some n =>
      p ← arg (λ u, argptr u 1 n);
      match p with
      | None => kret (-1)%Z
      | Some p =>
        '(r, l) ← infile (File.fileread disksize dev_read f n);
        copyout p l ;;
        kret r
      end
    end
  end.

Definition sys_write : kM st Z :=
  a ← argfd 0;
  match a with
  | None => kret (-1)%Z
  | Some (_, f) =>
    n ← arg (λ u, argint u 2);
    match n with
    | None => kret (-1)%Z
    | Some n =>
      p ← arg (λ u, argptr u 1 n);
      match p with
      | None => kret (-1)%Z
      | Some p =>
        s ← kget;
        infile (File.filewrite disksize dev_write f (ubytes (umem (user s)) p (Z.to_nat n)) n)
      end
    end
  end.

Definition sys_close : kM st Z :=
  a ← argfd 0;
  match a with
  | None => kret (-1)%Z
  | Some (fd, f) =>
    kmodify (λ s, set_ofile (<[fd := None]> (ofile s)) s) ;;
    infile (File.fileclose disksize kend f) ;;
    kret 0%Z
  end.

(** [stati] fills a [struct stat] of 20 bytes, paddings left as they are. *)
Definition sys_fstat : kM st Z :=
  a ← argfd 0;
  match a with
  | None => kret (-1)%Z
  | Some (_, f) =>
    p ← arg (λ u, argptr u 1 20);
    match p with
    | None => kret (-1)%Z
    | Some p =>
      '(r, o) ← infile (File.filestat disksize f);
      match o with
      | None => kret r
      | Some v =>
        kmodify (λ s,
          let m := umem (user s) in
          let m := store (store m p (st_type v)) (p + 1) (Z.shiftr (st_type v) 8) in
          let m := store32 (store32 m (p + 4) (st_dev v)) (p + 8) (st_ino v) in
          let m := store (store m (p + 12) (st_nlink v)) (p + 13) (Z.shiftr (st_nlink v) 8) in
          set_umem (store32 m (p + 16) (st_size v)) s) ;;
        kret r
      end
    end
  end.

Definition link_bad (i : nat) : kM st Z :=
  infs (Fs.ilock i) ;;
  modi i (λ d, set_dnlink (i16 (d_nlink d - 1)) d) ;;
  infs (Fs.iupdate i) ;;
  infs (Fs.iunlockput i) ;;
  end_op ;;
  kret (-1)%Z.

Definition namei (path : list Z) : kM st (option nat) :=
  s ← kget; infs (Fs.namei dev_read (cwd s) path junk_name).
Definition nameiparent (path : list Z) : kM st (option nat * list Z) :=
  s ← kget; infs (Fs.nameiparent dev_read (cwd s) path junk_name).
Definition dirlink (i : nat) (name : list Z) (inu : Z) : kM st Z :=
  infs (Fs.dirlink dev_read dev_write junk_de i name inu).

Definition sys_link : kM st Z :=
  o ← arg (λ u, argstr u 0);
  n ← arg (λ u, argstr u 1);
  match o, n with
  | Some old, Some new =>
    begin_op ;;
    r ← namei old;
    match r with
    | None => end_op ;; kret (-1)%Z
    | Some i =>
      infs (Fs.ilock i) ;;
      x ← geti i;
      if bool_decide (d_type (idata x) = T_DIR) then
        infs (Fs.iunlockput i) ;; end_op ;; kret (-1)%Z
      else
        modi i (λ d, set_dnlink (i16 (d_nlink d + 1)) d) ;;
        infs (Fs.iupdate i) ;;
        infs (Fs.iunlock i) ;;
        '(r, name) ← nameiparent new;
        match r with
        | None => link_bad i
        | Some dp =>
          infs (Fs.ilock dp) ;;
          d ← geti dp;
          x ← geti i;
          (if negb (bool_decide (idev d = idev x)) then
             infs (Fs.iunlockput dp) ;; link_bad i
           else
             r ← dirlink dp name (inum x);
             if bool_decide (r < 0)%Z then infs (Fs.iunlockput dp) ;; link_bad i
             else
               infs (Fs.iunlockput dp) ;;
               infs (Fs.iput i) ;;
               end_op ;;
               kret 0%Z)
        end
    end
  | _, _ => kret (-1)%Z
  end.

(** [isdirempty], over the offsets from the third entry on. *)
Fixpoint isdirempty_loop (i : nat) (offs : list Z) : kM st bool :=
  match offs with
  | [] => kret true
  | off :: offs =>
    '(r, de) ← infs (Fs.readi dev_read i off 16);
    kassert (bool_decide (r = 16)%Z) "isdirempty: readi" ;;
    if negb (bool_decide (de_inum de = 0)%Z) then kret false else isdirempty_loop i offs
  end.

Definition isdirempty (i : nat) : kM st bool :=
  x ← geti i; isdirempty_loop i (drop 2 (Fs.dir_offs (d_size (idata x)))).

Definition unlink_bad (dp : nat) : kM st Z := infs (Fs.iunlockput dp) ;; end_op ;; kret (-1)%Z.

Definition DOT : list Z := [46].
Definition DOTDOT : list Z := [46; 46].

Definition sys_unlink : kM st Z :=
  a ← arg (λ u, argstr u 0);
  match a with
  | None => kret (-1)%Z
  | Some path =>
    begin_op ;;
    '(r, name) ← nameiparent path;
    match r with
    | None => end_op ;; kret (-1)%Z
    | Some dp =>
      infs (Fs.ilock dp) ;;
      (* Cannot unlink "." or "..". *)
      if bool_decide (namecmp name DOT = 0)%Z || bool_decide (namecmp name DOTDOT = 0)%Z then unlink_bad dp
      else
        q ← infs (Fs.dirlookup dev_read dp name);
        match q with
        | None => unlink_bad dp
        | Some (i, off) =>
          infs (Fs.ilock i) ;;
          x ← geti i;
          kassert (negb (bool_decide (d_nlink (idata x) < 1)%Z)) "unlink: nlink < 1" ;;
          let dir := bool_decide (d_type (idata x) = T_DIR) in
          e ← (if dir then isdirempty i else kret true);
          if negb e then infs (Fs.iunlockput i) ;; unlink_bad dp
          else
            r ← infs (Fs.writei dev_write dp (replicate 16 0%Z) off 16);
            kassert (bool_decide (r = 16)%Z) "unlink: writei" ;;
            kwhen dir
              (modi dp (λ d, set_dnlink (i16 (d_nlink d - 1)) d) ;; infs (Fs.iupdate dp)) ;;
            infs (Fs.iunlockput dp) ;;
            modi i (λ d, set_dnlink (i16 (d_nlink d - 1)) d) ;;
            infs (Fs.iupdate i) ;;
            infs (Fs.iunlockput i) ;;
            end_op ;;
            kret 0%Z
        end
    end
  end.

Definition create (path : list Z) (type major minor : Z) : kM st (option nat) :=
  '(r, name) ← nameiparent path;
  match r with
  | None => kret None
  | Some dp =>
    infs (Fs.ilock dp) ;;
    q ← infs (Fs.dirlookup dev_read dp name);
    match q with
    | Some (i, _) =>
      infs (Fs.iunlockput dp) ;;
      infs (Fs.ilock i) ;;
      x ← geti i;
      if bool_decide (type = T_FILE) && bool_decide (d_type (idata x) = T_FILE) then kret (Some i)
      else infs (Fs.iunlockput i) ;; kret None
    | None =>
      d ← geti dp;
      i ← infs (Fs.ialloc (idev d) type);
      infs (Fs.ilock i) ;;
      modi i (λ x, Dinode (d_type x) major minor 1 (d_size x) (d_addrs x)) ;;
      infs (Fs.iupdate i) ;;
      x ← geti i;
      kwhen (bool_decide (type = T_DIR))   (* Create . and .. entries. *)
        (modi dp (λ d, set_dnlink (i16 (d_nlink d + 1)) d) ;;
         infs (Fs.iupdate dp) ;;
         r ← dirlink i DOT (inum x);
         kassert (negb (bool_decide (r < 0)%Z)) "create dots" ;;
         d ← geti dp;
         r ← dirlink i DOTDOT (inum d);
         kassert (negb (bool_decide (r < 0)%Z)) "create dots") ;;
      r ← dirlink dp name (inum x);
      kassert (negb (bool_decide (r < 0)%Z)) "create: dirlink" ;;
      infs (Fs.iunlockput dp) ;;
      kret (Some i)
    end
  end.

(** [sys_open] once it has the inode, locked. *)
Definition open_inode (i : nat) (omode : Z) : kM st Z :=
  f ← infile (File.filealloc disksize);
  fd ← (match f with None => kret None | Some f => fdalloc f end);
  match f, fd with
  | Some f, Some fd =>
    infs (Fs.iunlock i) ;;
    end_op ;;
    x ← infile (File.getf f);
    infile (File.putf f (MkFile FD_INODE (ref x)
      (bool_decide (Z.land omode O_WRONLY = 0)%Z)
      (negb (bool_decide (Z.land omode O_WRONLY = 0)%Z) || negb (bool_decide (Z.land omode O_RDWR = 0)%Z))
      (pipe x) i 0)) ;;
    kret (Z.of_nat fd)
  | _, _ =>
    (match f with Some f => infile (File.fileclose disksize kend f) | None => kret tt end) ;;
    infs (Fs.iunlockput i) ;;
    end_op ;;
    kret (-1)%Z
  end.

Definition sys_open : kM st Z :=
  a ← arg (λ u, argstr u 0);
  m ← arg (λ u, argint u 1);
  match a, m with
  | Some path, Some omode =>
    begin_op ;;
    if negb (bool_decide (Z.land omode O_CREATE = 0)%Z) then
      r ← create path T_FILE 0 0;
      match r with
      | None => end_op ;; kret (-1)%Z
      | Some i => open_inode i omode
      end
    else
      r ← namei path;
      match r with
      | None => end_op ;; kret (-1)%Z
      | Some i =>
        infs (Fs.ilock i) ;;
        x ← geti i;
        if bool_decide (d_type (idata x) = T_DIR) && negb (bool_decide (omode = O_RDONLY)) then
          infs (Fs.iunlockput i) ;; end_op ;; kret (-1)%Z
        else open_inode i omode
      end
  | _, _ => kret (-1)%Z
  end.

(** [create] of a directory or device, and the end of the call. *)
Definition make_node (path : list Z) (type major minor : Z) : kM st Z :=
  r ← create path type major minor;
  match r with
  | None => end_op ;; kret (-1)%Z
  | Some i => infs (Fs.iunlockput i) ;; end_op ;; kret 0%Z
  end.

Definition sys_mkdir : kM st Z :=
  begin_op ;;
  a ← arg (λ u, argstr u 0);
  match a with
  | None => end_op ;; kret (-1)%Z
  | Some path => make_node path T_DIR 0 0
  end.

Definition sys_mknod : kM st Z :=
  begin_op ;;
  a ← arg (λ u, argstr u 0);
  mj ← arg (λ u, argint u 1);
  mn ← arg (λ u, argint u 2);
  match a, mj, mn with
  | Some path, Some major, Some minor => make_node path T_DEV (i16 major) (i16 minor)
  | _, _, _ => end_op ;; kret (-1)%Z
  end.

Definition sys_chdir : kM st Z :=
  begin_op ;;
  a ← arg (λ u, argstr u 0);
  match a with
  | None => end_op ;; kret (-1)%Z
  | Some path =>
    r ← namei path;
    match r with
    | None => end_op ;; kret (-1)%Z
    | Some i =>
      infs (Fs.ilock i) ;;
      x ← geti i;
      if negb (bool_decide (d_type (idata x) = T_DIR)) then
        infs (Fs.iunlockput i) ;; end_op ;; kret (-1)%Z
      else
        infs (Fs.iunlock i) ;;
        s ← kget;
        infs (Fs.iput (cwd s)) ;;
        end_op ;;
        kmodify (set_cwd i) ;;
        kret 0%Z
    end
  end.

(** The argument vector of [sys_exec]: up to MAXARG strings, then a null. *)
Fixpoint exec_args (u : uproc) (uargv : Z) (i : Z) (fuel : nat) : option (list (list Z)) :=
  match fuel with
  | O => None
  | S fuel =>
    match fetchint u (u32 (uargv + 4 * i)) with
    | None => None
    | Some uarg =>
      if bool_decide (uarg = 0)%Z then Some []
      else match fetchstr u (u32 uarg) with
           | None => None
           | Some a => cons a <$> exec_args u uargv (i + 1) fuel
           end
    end
  end.

(** [exec] of exec.c replaces the process. *)
Context (exec : list Z → list (list Z) → kM st Z).

Definition sys_exec : kM st Z :=
  a ← arg (λ u, argstr u 0);
  v ← arg (λ u, argint u 1);
  match a, v with
  | Some path, Some uargv =>
    s ← kget;
    match exec_args (user s) (u32 uargv) 0 MAXARG with
    | None => kret (-1)%Z
    | Some argv => exec path argv
    end
  | _, _ => kret (-1)%Z
  end.

Definition sys_pipe : kM st Z :=
  p ← arg (λ u, argptr u 0 8);
  match p with
  | None => kret (-1)%Z
  | Some p =>
    r ← infile (File.pipealloc disksize kend junk_page);
    match r with
    | None => kret (-1)%Z
    | Some (rf, wf) =>
      fd0 ← fdalloc rf;
      fd1 ← (match fd0 with None => kret None | Some _ => fdalloc wf end);
      match fd0, fd1 with
      | Some fd0, Some fd1 =>
        kmodify (λ s, set_umem (store32 (store32 (umem (user s)) p (Z.of_nat fd0)) (p + 4) (Z.of_nat fd1)) s) ;;
        kret 0%Z
      | _, _ =>
        (match fd0 with
         | Some fd0 => kmodify (λ s, set_ofile (<[fd0 := None]> (ofile s)) s)
         | None => kret tt
         end) ;;
        infile (File.fileclose disksize kend rf) ;;
        infile (File.fileclose disksize kend wf) ;;
        kret (-1)%Z
      end
    end
  end.
End sysfile.
End Sysfile.
