(* ===== verification/Trap.v ===== *)
(** * Traps and process system calls (trap.c, syscall.c, sysproc.c, traps.h, syscall.h)

    How a process enters the kernel and leaves it: [trap] takes system calls,
    interrupts of devices and exceptions; [syscall] calls through the table; the
    calls of sysproc.c fetch their arguments and work on the process table of
    Proc.v. A call that gives up the CPU ends in [Switched]; what it does when
    the process runs again is a definition of its own. *)

From S2P Require Import Prelude CString Heap Proc Sysfile.
Import Proc.

Local Open Scope Z_scope.

(** ** traps.h and syscall.h *)

Definition T_PGFLT : Z := 14.
Definition T_SYSCALL : Z := 64.
Definition T_IRQ0 : Z := 32.
Definition IRQ_TIMER : Z := 0.
Definition IRQ_KBD : Z := 1.
Definition IRQ_COM1 : Z := 4.
Definition IRQ_IDE : Z := 14.
Definition IRQ_SPURIOUS : Z := 31.
Definition DPL_USER : Z := 3.

(** The calls of sysfile.c. *)
Inductive fsys := F_pipe | F_read | F_exec | F_fstat | F_chdir | F_dup | F_open | F_write | F_mknod | F_unlink | F_link | F_mkdir | F_close.

(** The functions of the table. *)
Inductive sysfn :=
  | Sys_fork | Sys_exit | Sys_wait | Sys_kill | Sys_getpid | Sys_sbrk | Sys_sleep | Sys_uptime | Sys_freeze | Sys_print
  | Sys_file (f : fsys).

(** [syscalls]: entry [SYS_x] is [sys_x], and entry 0 is null. *)
Definition syscalls : list (option sysfn) :=
  [None; Some Sys_fork; Some Sys_exit; Some Sys_wait; Some (Sys_file F_pipe); Some (Sys_file F_read); Some Sys_kill;
   Some (Sys_file F_exec); Some (Sys_file F_fstat); Some (Sys_file F_chdir); Some (Sys_file F_dup); Some Sys_getpid;
   Some Sys_sbrk; Some Sys_sleep; Some Sys_uptime; Some (Sys_file F_open); Some (Sys_file F_write); Some (Sys_file F_mknod);
   Some (Sys_file F_unlink); Some (Sys_file F_link); Some (Sys_file F_mkdir); Some (Sys_file F_close); Some Sys_freeze;
   Some Sys_print].

Module Trap.
Section trap.
Context {E : Type} `{ProcEnv E}.
(** This CPU; the readings of the time-stamp counter; the address register of
    page faults; the memory that a page directory maps. *)
Context (cpu_id : Z) (tsc : nat → Z) (rcr2 : Z) (user_mem : E → Z → mem).
(** The calls of sysfile.c, and the interrupt handlers of the devices. *)
Context (fcall : fsys → kM (st (E:=E)) (ctl Z)) (ideintr kbdintr uartintr : kM (st (E:=E)) unit).

Local Open Scope kern_scope.

(** ** System calls on processes (sysproc.c) *)

Definition argint (n : Z) : kM (st (E:=E)) (option Z) :=
  me ← self;
  p ← getp me;
  s ← kget;
  kret (Sysfile.argint (UProc (sz p) (esp (tf p)) (user_mem (env s) (pgdir p))) n).

Definition sys_print : kM (st (E:=E)) (ctl Z) :=
  a ← argint 0;
  match a with None => kret (Ret (-1)%Z) | Some flag => print flag ;; kret (Ret 0%Z) end.

Definition sys_freeze : kM (st (E:=E)) (ctl Z) :=
  a ← argint 0;
  match a with None => kret (Ret (-1)%Z) | Some f => freeze f ;; kret (Ret 0%Z) end.

Definition sys_fork : kM (st (E:=E)) (ctl Z) :=
  a ← argint 0;
  match a with None => kret (Ret (-1)%Z) | Some D =>
    a ← argint 1;
    match a with None => kret (Ret (-1)%Z) | Some C =>
      a ← argint 2;
      match a with None => kret (Ret (-1)%Z) | Some P =>
        a ← argint 3;
        match a with None => kret (Ret (-1)%Z) | Some O' => r ← fork D C P O'; kret (Ret r) end
      end
    end
  end.

Definition sys_exit : kM (st (E:=E)) (ctl Z) := exit ;; kret Switched.

Definition sys_wait : kM (st (E:=E)) (ctl Z) := wait.

Definition sys_kill : kM (st (E:=E)) (ctl Z) :=
  a ← argint 0;
  match a with None => kret (Ret (-1)%Z) | Some pid => r ← kill pid; kret (Ret r) end.

Definition sys_getpid : kM (st (E:=E)) (ctl Z) := me ← self; p ← getp me; kret (Ret (pid p)).

Definition sys_sbrk : kM (st (E:=E)) (ctl Z) :=
  a ← argint 0;
  match a with
  | None => kret (Ret (-1)%Z)
  | Some n =>
    me ← self;
    p ← getp me;
    r ← growproc n;
    kret (Ret (if bool_decide (r < 0)%Z then (-1)%Z else i32 (sz p)))
  end.

(** The loop of [sys_sleep], entered with tickslock held: at the start, and each
    time the process runs again. [ticks1() - ticks0] is of 64 bits. *)
Definition sys_sleep_loop (n ticks0 : Z) : kM (st (E:=E)) (ctl Z) :=
  t ← tick;
  if bool_decide (u64 (t - ticks0) < u64 n)%Z then
    me ← self;
    p ← getp me;
    if killed p then release LTicks ;; kret (Ret (-1)%Z)
    else sleep CTicks LTicks ;; kret Switched
  else release LTicks ;; kret (Ret 0%Z).

Definition sys_sleep : kM (st (E:=E)) (ctl Z) :=
  a ← argint 0;
  match a with
  | None => kret (Ret (-1)%Z)
  | Some n =>
    acquire LTicks ;;
    t ← tick;
    sys_sleep_loop n (u32 t)
  end.

(** The variable [ticks] is the word at the channel [&ticks]. *)
Definition ticks (s : st (E:=E)) : Z := kword s CTicks.
Definition set_ticks (v : Z) (s : st (E:=E)) : st :=
  set_kword (λ c, if decide (c = CTicks) then v else kword s c) s.

Definition sys_uptime : kM (st (E:=E)) (ctl Z) :=
  acquire LTicks ;;
  xticks ← kgets ticks;
  release LTicks ;;
  kret (Ret (i32 xticks)).

(** ** Dispatch (syscall.c) *)

Definition call_sys (f : sysfn) : kM (st (E:=E)) (ctl Z) :=
  match f with
  | Sys_fork => sys_fork
  | Sys_exit => sys_exit
  | Sys_wait => sys_wait
  | Sys_kill => sys_kill
  | Sys_getpid => sys_getpid
  | Sys_sbrk => sys_sbrk
  | Sys_sleep => sys_sleep
  | Sys_uptime => sys_uptime
  | Sys_freeze => sys_freeze
  | Sys_print => sys_print
  | Sys_file f => fcall f
  end.

Definition set_result (me : nat) (r : Z) : kM (st (E:=E)) unit := modp me (λ p, set_tf (set_eax (u32 r) (tf p)) p).

(** The entry of the table for a number, if it is in range and not null. *)
Definition sys_entry (num : Z) : option sysfn :=
  if bool_decide (0 < num)%Z && bool_decide (num < Z.of_nat (length syscalls))%Z
  then default None (syscalls !! Z.to_nat num) else None.

Definition syscall : kM (st (E:=E)) (ctl unit) :=
  me ← self;
  p ← getp me;
  let num := i32 (eax (tf p)) in
  match sys_entry num with
  | Some f =>
    r ← call_sys f;
    match r with
    | Ret v => set_result me v ;; kret (Ret tt)
    | Switched => kret Switched
    end
  | None =>
    cprintf "%d %s: unknown sys call %d\n" [AInt (pid p); AStr (name p); AInt num] ;;
    set_result me (-1)%Z ;;
    kret (Ret tt)
  end.

(** ** trap.c *)

(** The kernel, and how many interrupts the local APIC saw the end of. *)
Record tst := TSt { kern : st (E:=E); eois : nat }.
Definition ink {A} (m : kM (st (E:=E)) A) : kM tst A := kzoom (Lens kern (λ k t, TSt k (eois t))) m.

Definition lapiceoi : kM tst unit := kmodify (λ t, TSt (kern t) (S (eois t))).

(** A reading of the counter, shifted by 19. *)
Definition tick2 : kM (st (E:=E)) Z :=
  s ← kget; kput (set_nclk (S (nclk s)) s) ;; kret (Z.shiftr (u64 (tsc (nclk s))) 19).

Definition exit_trap : kM tst (ctl unit) := ink exit ;; kret Switched.

(** [if(proc && proc->killed && (tf->cs&3) == DPL_USER) exit();], then [k]. *)
Definition check_exit (f : trapframe) (k : kM tst (ctl unit)) : kM tst (ctl unit) :=
  s ← kgets kern;
  match cur s with
  | None => k
  | Some me =>
    p ← ink (getp me);
    if killed p && bool_decide (Z.land (cs f) 3 = DPL_USER)%Z then exit_trap else k
  end.

(** From the preemption on: at the end of an interrupt handler. *)
Definition preempt (f : trapframe) : kM tst (ctl unit) :=
  s ← kgets kern;
  match cur s with
  | None => check_exit f (kret (Ret tt))
  | Some me =>
    p ← ink (getp me);
    if bool_decide (state p = RUNNING) && interrupt s then
      ink (kmodify (set_interrupt false)) ;;
      r ← ink yield;
      match r with
      | Switched => kret Switched
      | Ret _ => check_exit f (kret (Ret tt))
      end
    else check_exit f (kret (Ret tt))
  end.

(** What a process does that gave up the CPU in [preempt], once it runs again. *)
Definition trap_resume (f : trapframe) : kM tst (ctl unit) := check_exit f (kret (Ret tt)).

(** The rest of a system call once it has its result: at the end of [trap], and of
    a call that slept. *)
Definition trap_syscall_end : kM tst (ctl unit) :=
  me ← ink self;
  p ← ink (getp me);
  if killed p then exit_trap else kret (Ret tt).

Definition trap_syscall (f : trapframe) : kM tst (ctl unit) :=
  me ← ink self;
  p ← ink (getp me);
  if killed p then exit_trap
  else
    ink (modp me (set_tf f)) ;;
    r ← ink syscall;
    match r with Ret _ => trap_syscall_end | Switched => kret Switched end.

(** A system call that slept, once the scheduler has switched to its process: the end
    of [sleep], the rest [k] of the call ([sys_sleep_loop], [wait_loop]), the store of
    its result, and the end of [trap]. *)
Definition trap_syscall_resume (k : kM (st (E:=E)) (ctl Z)) : kM tst (ctl unit) :=
  me ← ink self;
  ink (resume me) ;;
  r ← ink k;
  match r with
  | Ret v => ink (set_result me v) ;; trap_syscall_end
  | Switched => kret Switched
  end.

Definition timer_interrupt : kM (st (E:=E)) unit :=
  acquire LTicks ;;
  t ← tick2;
  kmodify (set_ticks (u32 t)) ;;
  wakeup CTicks ;;
  release LTicks.

Definition page_fault : kM (st (E:=E)) unit :=
  acquire LTicks ;;
  wakeup CTicks ;;
  t ← tick2;
  kmodify (set_ticks (u32 t)) ;;
  release LTicks.

(** [default:], in the kernel. *)
Definition mistake (f : trapframe) : kM (st (E:=E)) unit :=
  cprintf "unexpected = %d, %d\n" [AInt T_IRQ0; AInt IRQ_TIMER] ;;
  cprintf "unexpected trap %d from cpu %d eip %x (cr2=0x%x)\n" [AInt (trapno f); AInt cpu_id; AInt (eip f); AInt rcr2] ;;
  kpanic "trap".

(** [default:] *)
Definition unexpected (f : trapframe) : kM (st (E:=E)) unit :=
  s ← kget;
  match cur s with
  | Some me =>
    if bool_decide (Z.land (cs f) 3 = 0)%Z then mistake f
    else
      p ← getp me;
      cprintf "pid %d %s: trap %d err %d on cpu %d eip 0x%x addr 0x%x--kill proc\n"
        [AInt (pid p); AStr (name p); AInt (trapno f); AInt (err f); AInt cpu_id; AInt (eip f); AInt rcr2] ;;
      modp me (set_killed true)
  | None => mistake f
  end.

(** The [switch] on the number of the trap. *)
Definition handle (f : trapframe) : kM tst unit :=
  let n := trapno f in
  if bool_decide (n = T_IRQ0 + IRQ_TIMER)%Z then
    kwhen (bool_decide (cpu_id = 0)%Z) (ink timer_interrupt) ;; lapiceoi
  else if bool_decide (n = T_IRQ0 + IRQ_IDE)%Z then ink ideintr ;; lapiceoi
  else if bool_decide (n = T_IRQ0 + IRQ_IDE + 1)%Z then kret tt
  else if bool_decide (n = T_IRQ0 + IRQ_KBD)%Z then ink kbdintr ;; lapiceoi
  else if bool_decide (n = T_IRQ0 + IRQ_COM1)%Z then ink uartintr ;; lapiceoi
  else if bool_decide (n = T_IRQ0 + 7)%Z || bool_decide (n = T_IRQ0 + IRQ_SPURIOUS)%Z then
    ink (cprintf "cpu%d: spurious interrupt at %x:%x\n" [AInt cpu_id; AInt (cs f); AInt (eip f)]) ;; lapiceoi
  else if bool_decide (n = T_PGFLT)%Z then kwhen (bool_decide (cpu_id = 0)%Z) (ink page_fault)
  else ink (unexpected f).

Definition trap (f : trapframe) : kM tst (ctl unit) :=
  if bool_decide (trapno f = T_SYSCALL)%Z then trap_syscall f
  else handle f ;; check_exit f (preempt f).
End trap.
End Trap.
