(* ===== verification/TrapThm.v ===== *)
(** * Theorems on traps

    What a trap does to the processes: a killed process never reaches user mode
    again; the timer's tick wakes the sleepers on [&ticks] and preempts by the
    preemption threshold; a process that sleeps is back when its time has passed. *)

From S2P Require Import Prelude CString Heap Proc ProcInv ProcThm Sysfile Trap.
Import Proc Trap.

Section trap_thm.
Context {E : Type} `{ProcEnv E}.
Implicit Types s : st (E:=E).

(** ** Partial correctness against the invariant *)

Definition keeps {A} (m : kM (st (E:=E)) A) : Prop :=
  ∀ s, Inv s → match m s with Done _ s' => Inv s' | _ => True end.

Lemma keeps_bind {A B} (m : kM (st (E:=E)) A) (k : A → kM st B) :
  keeps m → (∀ a, keeps (k a)) → keeps (kbind m k).
Proof.
  intros Hm Hk s HI. unfold kbind. specialize (Hm s HI). destruct (m s); [by apply Hk|done..].
Qed.

Lemma keeps_quiet {A} (m : kM (st (E:=E)) A) : quiet m → keeps m.
Proof.
  intros Hq s HI. specialize (Hq s). destruct (m s); [|done..]. unfold Inv. by rewrite Hq.
Qed.

Lemma keeps_if {A} (b : bool) (m n : kM (st (E:=E)) A) : keeps m → keeps n → keeps (if b then m else n).
Proof. by destruct b. Qed.

Lemma keeps_opt {A B} (o : option A) (m : A → kM (st (E:=E)) B) (n : kM st B) :
  (∀ a, keeps (m a)) → keeps n → keeps (match o with Some a => m a | None => n end).
Proof. destruct o; auto. Qed.

Lemma keeps_tri {A} (m : kM (st (E:=E)) A) : (∀ cp, tri (IC cp) m (λ _ a, ∃ cp', IC cp' a)) → keeps m.
Proof.
  intros Hm s [Ha Hc]. specialize (Hm (cur s) s). destruct (m s); [|done..].
  destruct Hm as (cp & ? & ? & _); by split_and!.
Qed.

(** A triple of the process table gives up its exact current process. *)
Lemma keeps_IC {A} (m : kM (st (E:=E)) A) (f : option nat → option nat) :
  (∀ cp, tri (IC cp) m (λ _, IC (f cp))) → keeps m.
Proof. intros Hm. apply keeps_tri. intros cp. apply (tri_conseq _ _ _ _ _ (Hm cp)); eauto. Qed.

(** Total correctness, with the invariant at the end for free. *)
Lemma wp_keeps {A} (m : kM (st (E:=E)) A) s (Q : A → st → Prop) :
  keeps m → Inv s → wp m s (λ a s', Inv s' → Q a s') → wp m s Q.
Proof. intros Hm HI Hw. specialize (Hm s HI). unfold wp in *. destruct (m s); auto. Qed.

Lemma keeps_exit : keeps exit.
Proof. apply (keeps_IC _ (λ _, None)), tri_exit. Qed.
Lemma keeps_yield : keeps yield.
Proof. apply keeps_tri, tri_yield. Qed.
Lemma keeps_wait : keeps wait.
Proof. apply keeps_tri, tri_wait. Qed.
Lemma keeps_wait_loop : keeps wait_loop.
Proof. apply keeps_tri, tri_wait_loop. Qed.
Lemma keeps_fork d c p o : keeps (fork d c p o).
Proof. apply (keeps_IC _ id). intros cp. apply tri_fork. Qed.
Lemma keeps_kill t : keeps (kill t).
Proof. apply (keeps_IC _ id). intros cp. apply tri_kill. Qed.
Lemma keeps_freeze f : keeps (freeze f).
Proof. apply (keeps_IC _ id). intros cp. apply tri_freeze. Qed.
Lemma keeps_wakeup c : keeps (wakeup c).
Proof. apply (keeps_IC _ id). intros cp. apply tri_wakeup. Qed.
Lemma keeps_sleep_ticks lk : keeps (sleep CTicks lk).
Proof. apply (keeps_IC _ (λ _, None)). intros cp. by apply tri_sleep. Qed.

Lemma keeps_dispatch s : cur s = None → Inv s → match dispatch s with Done _ s' => Inv s' | _ => True end.
Proof.
  intros Hc [Ha Hok]. pose proof (tri_dispatch s) as Hd. destruct (dispatch s); [|done..].
  destruct Hd as (cp & ? & ? & _); by split_and!.
Qed.
End trap_thm.

Create HintDb keeps discriminated.
#[export] Hint Resolve keeps_exit keeps_yield keeps_wait keeps_wait_loop keeps_fork keeps_kill
  keeps_freeze keeps_wakeup keeps_sleep_ticks : keeps.

(** Walk through an operation down to what the database knows, or the quiet. *)
Ltac keeps :=
  repeat first
    [ solve [eauto with keeps nocore]
    | solve [apply keeps_quiet; quiet]
    | apply keeps_bind; [|intros ?]
    | apply keeps_if
    | apply keeps_opt; [intros ?|] ].

Section calls.
Context {E : Type} `{ProcEnv E}.
Context (cpu_id : Z) (tsc : nat → Z) (rcr2 : Z) (user_mem : E → Z → mem).
Context (fcall : fsys → kM (st (E:=E)) (ctl Z)) (ideintr kbdintr uartintr : kM (st (E:=E)) unit).
Implicit Types (s : st (E:=E)) (t : tst (E:=E)) (f : trapframe).

Local Abbreviation trap := (Trap.trap cpu_id tsc rcr2 user_mem fcall ideintr kbdintr uartintr).

Lemma keeps_argint n : keeps (argint user_mem n).
Proof. unfold argint. keeps. Qed.
#[local] Hint Resolve keeps_argint : keeps.

Lemma keeps_sleep_loop n ticks0 : keeps (E:=E) (sys_sleep_loop n ticks0).
Proof. unfold sys_sleep_loop. keeps. Qed.
#[local] Hint Resolve keeps_sleep_loop : keeps.

Lemma keeps_set_result me r : keeps (E:=E) (set_result me r).
Proof. unfold set_result. keeps. Qed.
#[local] Hint Resolve keeps_set_result : keeps.

Lemma quiet_tick2 : quiet (E:=E) (tick2 tsc).
Proof. by intros s. Qed.
#[local] Hint Resolve quiet_tick2 : quiet.

Lemma quiet_set_ticks v : quiet (E:=E) (kmodify (set_ticks v)).
Proof. by intros s. Qed.
#[local] Hint Resolve quiet_set_ticks : quiet.

(** ** The way back to user mode *)

(** The process on the CPU has not been killed. *)
Definition alive (t : tst (E:=E)) : Prop :=
  ∀ me p, cur (kern t) = Some me → procs (kern t) !! me = Some p → killed p = false.

Lemma bind_done {S A B} (m : kM S A) (k : A → kM S B) x r y :
  kbind m k x = Done r y → ∃ a x', m x = Done a x' ∧ k a x' = Done r y.
Proof. unfold kbind. destruct (m x); [eauto|done..]. Qed.

Lemma ink_getp_done i t p t' : ink (getp i) t = Done p t' → t' = t ∧ procs (kern t) !! i = Some p.
Proof.
  unfold ink, kzoom, getp, kbind, kunwrap. simpl. destruct (procs (kern t) !! i); simpl; [|done].
  intros [= -> <-]. by destruct t.
Qed.

Lemma ink_self_done t me t' : ink self t = Done me t' → t' = t ∧ cur (kern t) = Some me.
Proof.
  unfold ink, kzoom, self, kbind, kunwrap. simpl. destruct (cur (kern t)); simpl; [|done].
  intros [= -> <-]. by destruct t.
Qed.

Lemma exit_not_back t t' : exit_trap t = Done (Ret tt) t' → False.
Proof. unfold exit_trap. intros Hd. apply bind_done in Hd as (? & ? & _ & Hd). done. Qed.

Lemma check_exit_through f k t t' : check_exit f k t = Done (Ret tt) t' → k t = Done (Ret tt) t'.
Proof.
  unfold check_exit. intros Hd. apply bind_done in Hd as (s & t1 & [= <- <-] & Hd).
  destruct (cur (kern t)); [|done]. apply bind_done in Hd as (p & t2 & Hp & Hd).
  apply ink_getp_done in Hp as [-> _]. destruct (_ && _); [|done]. by apply exit_not_back in Hd.
Qed.

Lemma check_exit_back f t t' :
  Z.land (cs f) 3 = DPL_USER → check_exit f (kret (Ret tt)) t = Done (Ret tt) t' → alive t'.
Proof.
  intros Hu Hd. pose proof Hd as Ht. apply check_exit_through in Ht. injection Ht as ->.
  unfold check_exit in Hd. apply bind_done in Hd as (s & t1 & [= <- <-] & Hd).
  intros me p Hme Hp. rewrite Hme in Hd. apply bind_done in Hd as (q & t2 & Hq & Hd).
  apply ink_getp_done in Hq as [-> Hq]. simplify_eq. rewrite (bool_decide_true _ Hu), andb_true_r in Hd.
  destruct (killed q); [|done]. by apply exit_not_back in Hd.
Qed.

Lemma preempt_back f t t' :
  Z.land (cs f) 3 = DPL_USER → preempt f t = Done (Ret tt) t' → alive t'.
Proof.
  intros Hu Hd. unfold preempt in Hd. apply bind_done in Hd as (s & t1 & [= <- <-] & Hd).
  destruct (cur (kern t)); [|by eapply check_exit_back].
  apply bind_done in Hd as (p & t2 & Hp & Hd). apply ink_getp_done in Hp as [-> _].
  destruct (_ && _); [|by eapply check_exit_back].
  apply bind_done in Hd as (? & t2 & _ & Hd). apply bind_done in Hd as (c & t3 & _ & Hd).
  destruct c; [by eapply check_exit_back|done].
Qed.

Lemma syscall_end_back t t' : trap_syscall_end t = Done (Ret tt) t' → alive t'.
Proof.
  unfold trap_syscall_end. intros Hd. apply bind_done in Hd as (me & t1 & Hm & Hd).
  apply ink_self_done in Hm as [-> Hm]. apply bind_done in Hd as (p & t1 & Hp & Hd).
  apply ink_getp_done in Hp as [-> Hp]. destruct (killed p) eqn:Hk; [by apply exit_not_back in Hd|].
  injection Hd as <-. intros me' p' ? ?. by simplify_eq.
Qed.

(** C11: no process that has been killed goes back to user mode by a trap: whenever
    a trap from user mode returns, be it a system call, an interrupt or an exception,
    at once, or after the process gave up the CPU in [yield] or slept in its call, the
    process on the CPU is not killed. (The first return of a new child is through
    [forkret] and not part of the statement.) *)
Theorem killed_never_returns f t t' :
  (trapno f = T_SYSCALL ∨ Z.land (cs f) 3 = DPL_USER) ∧ trap f t = Done (Ret tt) t' ∨
  Z.land (cs f) 3 = DPL_USER ∧ trap_resume f t = Done (Ret tt) t' ∨
  trap_syscall_end t = Done (Ret tt) t' ∨
  (∃ k, trap_syscall_resume k t = Done (Ret tt) t') →
  ∀ me p, cur (kern t') = Some me → procs (kern t') !! me = Some p → killed p = false.
Proof.
  intros [[Hf Hd]|[[Hu Hd]|[Hd|[k Hd]]]]; [|by apply (check_exit_back f t t' Hu Hd)|by apply (syscall_end_back t t' Hd)|].
  2: { unfold trap_syscall_resume in Hd. apply bind_done in Hd as (me & t1 & _ & Hd). apply bind_done in Hd as (? & t2 & _ & Hd).
       apply bind_done in Hd as (c & t3 & _ & Hd). destruct c; [|done]. apply bind_done in Hd as (? & t4 & _ & Hd).
       by apply (syscall_end_back t4 t' Hd). }
  unfold Trap.trap in Hd. case_bool_decide as Hn.
  - unfold trap_syscall in Hd. apply bind_done in Hd as (me & t1 & _ & Hd).
    apply bind_done in Hd as (p & t2 & _ & Hd). destruct (killed p); [by apply exit_not_back in Hd|].
    apply bind_done in Hd as (? & t3 & _ & Hd). apply bind_done in Hd as (c & t4 & _ & Hd).
    destruct c; [by apply (syscall_end_back t4 t' Hd)|done].
  - destruct Hf as [|Hu]; [done|]. apply bind_done in Hd as (? & t1 & _ & Hd).
    apply check_exit_through in Hd. by apply (preempt_back f t1 t' Hu).
Qed.

(** ** The tick of the timer *)

(** Operations that end with [interrupt] set, and those that set it if they
    change the table. *)
Definition raises {A} (m : kM (st (E:=E)) A) : Prop :=
  ∀ s, match m s with Done _ s' => interrupt s' = true | _ => True end.
Definition flagged (s s' : st (E:=E)) : Prop :=
  (interrupt s = true → interrupt s' = true) ∧ (procs s' = procs s ∨ interrupt s' = true).

Lemma raises_bind {A B} (m : kM st A) (k : A → kM st B) : (∀ a, raises (k a)) → raises (kbind m k).
Proof. intros Hk s. unfold kbind. destruct (m s); [by apply Hk|done..]. Qed.

Lemma getp_same i s p s' : getp i s = Done p s' → s' = s.
Proof. unfold getp, kbind, kunwrap. simpl. destruct (procs s !! i); simpl; [by intros [= _ <-]|done]. Qed.

Lemma deref_same c s v s' : deref c s = Done v s' → s' = s.
Proof.
  destruct c as [[j| | | | | | |]|]; simpl; try by intros [= _ <-].
  unfold kbind. destruct (getp j s) eqn:Hg; [|done..]. intros [= _ <-]. by eapply getp_same.
Qed.

Lemma wake_entry_raises c i s r s' : wakeup1_body c i s = Done r s' → flagged s s'.
Proof.
  unfold wakeup1_body. intros Hd. apply bind_done in Hd as (p & s1 & Hp & Hd).
  apply getp_same in Hp as ->. case_bool_decide; [|injection Hd as _ <-; split; auto].
  apply bind_done in Hd as (a & s1 & Ha & Hd). apply deref_same in Ha as ->.
  apply bind_done in Hd as (b & s1 & Hb & Hd). apply deref_same in Hb as ->.
  case_bool_decide; [|injection Hd as _ <-; split; auto].
  match type of Hd with ?m _ = _ => assert (raises m) as Hr end.
  { do 7 (apply raises_bind; intros ?). by intros s1. }
  specialize (Hr s). rewrite Hd in Hr. split; auto.
Qed.

Lemma wakeup1_flagged c l s r s' : kfor l (wakeup1_body c) s = Done r s' → flagged s s'.
Proof.
  revert s. induction l as [|i l IH]; intros s Hd; simpl in Hd.
  - injection Hd as _ <-. split; auto.
  - apply bind_done in Hd as (u & s1 & H1 & H2). apply wake_entry_raises in H1 as [? Hp1].
    apply IH in H2 as [? Hp2]. split; [auto|]. destruct Hp2 as [->|]; [|auto]. naive_solver.
Qed.

(** [wakeup(&ticks)], with tickslock held. *)
Lemma wp_wakeup_ticks s Q :
  Inv s → LPtable ∉ sheld s →
  (∀ s', waking (set_sheld (LPtable :: sheld s) s) CTicks NPROC s' → flagged s s' →
     Q tt (set_sheld (sheld s) s')) →
  wp (wakeup CTicks) s Q.
Proof.
  intros HI Hl HQ. set (s1 := set_sheld (LPtable :: sheld s) s) in *. unfold wakeup.
  apply wp_bind, wp_acquire; [done|]. fold s1. apply wp_bind.
  assert (Inv s1) as HI1 by done.
  pose proof (wp_wakeup1 s1 CTicks HI1) as Hw. apply wp_done in Hw as ([] & s2 & Hd & Hw); [|done].
  unfold wp. rewrite Hd. pose proof Hw as (_ & _ & Hh & _).
  eapply wp_release; [by rewrite Hh|done|]. apply HQ; [done|].
  apply wakeup1_flagged in Hd. done.
Qed.

(** [yield] compares the threshold of the process with the priority of the top of
    the queue. *)
Definition yielded (s : st (E:=E)) (me : nat) (p : proc) (r : ctl unit) (s' : st (E:=E)) : Prop :=
  Inv s' ∧ sheld s' = [] ∧ kword s' = kword s ∧ (∀ i, i ≠ me → procs s' !! i = procs s !! i) ∧
  ∃ top tp, rq s !! 0 = Some top ∧ procs s !! top = Some tp ∧
    match r with
    | Ret _ => (pP tp ≤ pO p)%Z ∧ procs s' = procs s ∧ rq s' = rq s ∧ cur s' = cur s
    | Switched => (pO p < pP tp)%Z ∧ cur s' = None ∧
        ∃ p', procs s' !! me = Some p' ∧ state p' = RUNNABLE ∧ pP p' = pP p
    end.

Lemma wp_yield s me p :
  Inv s → sheld s = [] → cur s = Some me → procs s !! me = Some p → wp yield s (yielded s me p).
Proof.
  intros HI Hh Hc Hp.
  assert (wp yield s (λ r s', Inv s' → yielded s me p r s')) as Hy.
  2: { pose proof (keeps_yield s HI) as Hk. unfold wp in *. destruct (yield s); auto. }
  destruct (inv_top _ _ (proj1 HI)) as (top & Htop & Hlt). simpl in Htop.
  pose proof (inv_procs _ _ (proj1 HI)) as Hlen. simpl in Hlen. rewrite length_fmap in Hlen.
  destruct (lookup_lt_is_Some_2 (procs s) top) as [tp Htp]; [by rewrite Hlen|].
  pose proof (lookup_lt_Some _ _ _ Hp) as Hme. unfold yield.
  apply wp_bind, wp_acquire; [rewrite Hh; apply not_elem_of_nil|]. rewrite Hh.
  apply wp_bind, wp_get. apply wp_bind, (wp_unwrap _ top); [done|].
  apply wp_bind, (wp_getp _ tp); [done|]. apply wp_bind, (wp_self me); [done|].
  apply wp_bind, (wp_getp _ p); [done|]. case_bool_decide as Hprio.
  - apply wp_bind, (wp_modp _ _ p); [done|]. simpl. apply wp_bind, wp_insert_queue.
    { match goal with |- ainv _ ?x =>
        replace x with (a_set me (RUNNABLE, pchan p) (abs s)); [|unfold abs, a_set; simpl; by rewrite list_fmap_insert] end.
      eapply ainv_set_runnable; [apply HI|by apply HI|done]. }
    simpl. apply wp_bind.
    eapply (wp_sched _ me (set_state RUNNABLE p)); [done..|simpl; by apply list_lookup_insert_eq|done|].
    simpl. apply wp_ret. intros HI'. split_and!; [done..| |].
    + intros i Hi. simpl. by rewrite !list_lookup_insert_ne by done.
    + exists top, tp. split_and!; [done..|]. eexists. simpl.
      split; [apply list_lookup_insert_eq; by rewrite length_insert|done].
  - apply wp_bind, wp_modify. apply wp_bind.
    eapply wp_release; [done|apply not_elem_of_nil|]. apply wp_ret. intros HI'.
    split_and!; [done..|]. exists top, tp. split_and!; [done..| |done|done|done]. lia.
Qed.

(** A timer interrupt on CPU 0. *)
Definition ticked (s s' : st (E:=E)) : Prop :=
  Inv s' ∧ sheld s' = [] ∧ cur s' = cur s ∧ flagged s s' ∧
  ticks s' = u32 (Z.shiftr (u64 (tsc (nclk s))) 19) ∧
  ∀ i q, procs s !! i = Some q → ∃ q', procs s' !! i = Some q' ∧
    (state q = SLEEPING → pchan q = Some CTicks → state q' = RUNNABLE) ∧
    (state q ≠ SLEEPING → q' = q).

Lemma wp_timer s : Inv s → sheld s = [] → wp (timer_interrupt tsc) s (λ _, ticked s).
Proof.
  intros HI Hh. unfold timer_interrupt.
  apply wp_bind, wp_acquire; [rewrite Hh; apply not_elem_of_nil|]. rewrite Hh.
  apply wp_bind. unfold tick2. apply wp_bind, wp_get, wp_bind, wp_put, wp_ret.
  apply wp_bind, wp_modify. set (v := u32 _).
  apply wp_bind, wp_wakeup_ticks; [done|simpl; set_solver|]. simpl. intros s2 Hw Hf.
  eapply wp_release; [done|apply not_elem_of_nil|].
  destruct Hw as (HIC & Hkw & _ & _ & Hl & Hp). simpl in *.
  split_and!; [split; apply HIC|done|apply HIC|done|unfold ticks; simpl; by rewrite Hkw|].
  intros i q Hq. pose proof (lookup_lt_Some _ _ _ Hq) as Hlt.
  pose proof (inv_procs _ _ (proj1 HI)) as Hlen. simpl in Hlen. rewrite length_fmap in Hlen.
  destruct (Hp i q Hq) as (q' & Hq' & _ & Hst). exists q'. split; [done|].
  match type of Hst with context [decide (_ < _ ∧ ?W)] => set (W' := W) in Hst end.
  split; intros Hs.
  - intros Hch. rewrite decide_True in Hst; [done|]. split; [lia|]. split; [done|]. eauto.
  - rewrite decide_False in Hst; [done|]. intros [_ [? _]]. done.
Qed.

(** Someone may be waiting for the CPU: the flag is up, or a process sleeps on
    [&ticks]. *)
Definition due (s : st (E:=E)) : Prop :=
  interrupt s = true ∨ ∃ i q, procs s !! i = Some q ∧ state q = SLEEPING ∧ pchan q = Some CTicks.

Lemma ticked_due s s' : ticked s s' → due s → interrupt s' = true.
Proof.
  intros (_ & _ & _ & [Hf Hp] & _ & Hw) [Hd|(i & q & Hq & Hs & Hc)]; [auto|].
  destruct Hp as [Hp|]; [|done]. destruct (Hw i q Hq) as (q' & Hq' & Hr & _).
  rewrite Hp, Hq in Hq'. simplify_eq. by rewrite Hs in Hr; specialize (Hr eq_refl Hc).
Qed.

(** What a tick does to the process on the CPU. *)
Definition preempted (t : tst (E:=E)) (me : nat) (p : proc) (r : ctl unit) (t' : tst (E:=E)) : Prop :=
  match r with
  | Ret _ => cur (kern t') = Some me ∧ procs (kern t') !! me = Some p ∧
      (due (kern t) → ∃ top tp, rq (kern t') !! 0 = Some top ∧
         procs (kern t') !! top = Some tp ∧ (pP tp ≤ pO p)%Z)
  | Switched => cur (kern t') = None ∧ state <$> procs (kern t') !! me = Some RUNNABLE ∧
      ∃ top tp, procs (kern t') !! top = Some tp ∧ (pO p < pP tp)%Z
  end.

Lemma wp_check_exit f k t me p Q :
  cur (kern t) = Some me → procs (kern t) !! me = Some p →
  killed p = false ∨ Z.land (cs f) 3 ≠ DPL_USER → wp k t Q → wp (check_exit f k) t Q.
Proof.
  intros Hc Hp Hu Hk. unfold check_exit. apply wp_bind, wp_gets. rewrite Hc.
  apply wp_bind, wp_zoom, (wp_getp _ p); [done|]. simpl. destruct t as [k0 e0]. simpl in *.
  destruct Hu as [->|Hu]; [done|]. by rewrite (bool_decide_false _ Hu), andb_false_r.
Qed.

(** After the tick: [s1] is the table the handler left. *)
Lemma wp_preempt f t s1 e me p :
  ticked (kern t) s1 → cur (kern t) = Some me → procs (kern t) !! me = Some p → state p = RUNNING →
  killed p = false ∨ Z.land (cs f) 3 ≠ DPL_USER →
  wp (preempt f) (TSt s1 e) (λ r t', preempted t me p r t' ∧ Inv (kern t') ∧ sheld (kern t') = [] ∧
    eois t' = e ∧ kword (kern t') = kword s1 ∧ ∀ i, i ≠ me → procs (kern t') !! i = procs s1 !! i).
Proof.
  intros Htk Hc Hp Hs Hu. pose proof Htk as (HI & Hh & Hc1 & _ & _ & Hw).
  destruct (Hw me p Hp) as (p' & Hp' & _ & Hsame). rewrite Hs in Hsame. specialize (Hsame ltac:(done)).
  subst p'. rewrite Hc in Hc1. unfold preempt. apply wp_bind, wp_gets. simpl. rewrite Hc1.
  apply wp_bind, wp_zoom, (wp_getp _ p); [done|]. simpl. rewrite (bool_decide_true _ Hs). simpl.
  destruct (interrupt s1) eqn:Hi.
  - apply wp_bind, wp_zoom, wp_modify. simpl. apply wp_bind, wp_zoom.
    eapply wp_mono; [by apply (wp_yield _ me p)|]. simpl.
    intros r s2 (HI2 & Hh2 & Hk2 & Ho & top & tp & Htop & Htp & Hr). destruct r as [[]|].
    + destruct Hr as (Hle & Hps & Hrq & Hc2). simpl in *.
      eapply wp_check_exit; [simpl; by rewrite Hc2|simpl; by rewrite Hps|done|]. apply wp_ret. simpl.
      split_and!; [by rewrite Hc2|by rewrite Hps| |done..]. intros _. exists top, tp.
      by rewrite Hrq, Hps.
    + destruct Hr as (Hlt & Hc2 & p2 & Hp2 & Hs2 & HP). apply wp_ret. simpl.
      split_and!; [done|by rewrite Hp2, <-Hs2| |done..].
      destruct (decide (top = me)) as [->|Hne].
      * simpl in Htp. exists me, p2. simplify_eq. by rewrite HP.
      * exists top, tp. simpl. by rewrite Ho.
  - eapply wp_check_exit; [done..|]. apply wp_ret. simpl. split_and!; [done|done| |done..].
    intros Hd. apply (ticked_due _ _ Htk) in Hd. congruence.
Qed.

(** C10: a timer interrupt on CPU 0 while a process runs, which is not both in user mode and
    killed (it would exit), and no lock is held, for every consistent process table: the
    interrupt is acknowledged once and leaves no lock held; [ticks] is the counter
    shifted by 19 and cut to 32 bits; every process asleep on [&ticks] is RUNNABLE and
    queued; the running process keeps the CPU only if, whenever somebody was woken or
    [interrupt] was set, its threshold [O] is at least the priority at the top of the
    queue, and else it is RUNNABLE and the CPU is free. *)
Theorem timer_preempts f t me p :
  cpu_id = 0%Z → trapno f = (T_IRQ0 + IRQ_TIMER)%Z → Inv (kern t) → sheld (kern t) = [] →
  cur (kern t) = Some me → procs (kern t) !! me = Some p →
  killed p = false ∨ Z.land (cs f) 3 ≠ DPL_USER →
  ∃ r t', trap f t = Done r t' ∧ preempted t me p r t' ∧ sheld (kern t') = [] ∧
    eois t' = S (eois t) ∧ ticks (kern t') = u32 (Z.shiftr (u64 (tsc (nclk (kern t)))) 19) ∧
    ∀ i q, procs (kern t) !! i = Some q → state q = SLEEPING → pchan q = Some CTicks →
      state <$> procs (kern t') !! i = Some RUNNABLE ∧ i ∈ take (qlen (kern t')) (rq (kern t')).
Proof.
  intros Hcpu Hn HI Hh Hc Hp Hu.
  assert (state p = RUNNING) as Hs.
  { pose proof (proj2 HI me Hc) as Hr. unfold a_state in Hr. simpl in Hr.
    rewrite list_lookup_fmap, Hp in Hr. by simplify_eq/=. }
  apply wp_done. unfold Trap.trap. rewrite bool_decide_false by (by rewrite Hn).
  apply wp_bind. unfold handle. rewrite bool_decide_true by done. rewrite (bool_decide_true _ Hcpu).
  apply wp_bind, wp_zoom. eapply wp_mono; [by apply wp_timer|]. intros [] s1 Htk.
  apply wp_modify. cbn [kern eois lset].
  pose proof Htk as (_ & _ & Hc1 & _ & Htick & Hw). destruct (Hw me p Hp) as (p' & Hp' & _ & Hsame).
  rewrite Hs in Hsame. specialize (Hsame ltac:(done)). subst p'.
  eapply wp_check_exit; [simpl; by rewrite Hc1|done|done|].
  eapply wp_mono; [by apply (wp_preempt f t s1 (S (eois t)) me p)|].
  intros r t' (Hpr & HI' & Hh' & He & Hk & Ho). split_and!; [done..|unfold ticks; by rewrite Hk|].
  intros i q Hq Hsl Hch. rewrite (Inv_ready _ _ HI'). destruct (Hw i q Hq) as (q' & Hq' & Hr & _).
  rewrite Ho by congruence. rewrite Hq'. simpl. rewrite Hr by done. done.
Qed.

(** ** sleep *)

(** [sleep] on a channel under a lock other than ptable.lock. *)
Lemma wp_sleep_under c lk s me p Q :
  lk ≠ LPtable → sheld s = [lk] → cur s = Some me → procs s !! me = Some p →
  Q tt (set_sheld [] (set_cur None (set_procs
    (<[me := set_context (KSleep lk) (set_state SLEEPING (set_pchan (Some c) p))]> (procs s)) s))) →
  wp (sleep c lk) s Q.
Proof.
  intros Hlk Hh Hc Hp HQ. pose proof (lookup_lt_Some _ _ _ Hp) as Hme. unfold sleep.
  apply wp_bind, wp_get. apply wp_bind, wp_assert; [rewrite Hc; by apply bool_decide_true|].
  rewrite bool_decide_true by done. apply wp_bind. simpl.
  apply wp_bind, wp_acquire; [rewrite Hh; set_solver|]. rewrite Hh.
  assert (filter (λ l, l ≠ lk) [LPtable; lk] = [LPtable]) as Hfl.
  { rewrite filter_cons_True, filter_cons_False by auto. done. }
  unfold wp, release at 1. simpl. rewrite decide_True by set_solver. rewrite Hfl. simpl.
  match goal with |- match ?m ?s1 with _ => _ end => change (wp m s1 Q) end.
  apply wp_bind, (wp_self me); [done|]. apply wp_bind, (wp_modp _ _ p); [done|]. simpl.
  apply wp_bind. eapply wp_modp; [simpl; by apply list_lookup_insert_eq|]. simpl.
  rewrite list_insert_insert_eq.
  eapply (wp_sched _ me); [done..|simpl; by apply list_lookup_insert_eq|done|]. simpl.
  by rewrite list_insert_insert_eq.
Qed.

(** What a call of sleep did, which began at [ticks0], at the time [now]: it is over,
    or the process sleeps on. *)
Definition sleeps (n ticks0 now : Z) (me : nat) (s : st (E:=E)) {A} (r : ctl A) (s' : st (E:=E)) : Prop :=
  Inv s' ∧ sheld s' = [] ∧ (∀ i, i ≠ me → procs s' !! i = procs s !! i) ∧
  match r with
  | Ret _ => (u64 n ≤ u64 (now - ticks0))%Z ∧ cur s' = Some me
  | Switched => (u64 (now - ticks0) < u64 n)%Z ∧ cur s' = None ∧
      (λ q, (state q, pchan q, context q)) <$> procs s' !! me = Some (SLEEPING, Some CTicks, KSleep LTicks)
  end.

(** The loop, with tickslock held. *)
Lemma wp_sleep_loop n ticks0 s me p :
  Inv s → sheld s = [LTicks] → cur s = Some me → procs s !! me = Some p → killed p = false →
  wp (sys_sleep_loop n ticks0) s (λ r s', sleeps n ticks0 (u64 (clock s (nclk s))) me s r s' ∧
    match r with Ret v => v = 0%Z ∧ procs s' = procs s | Switched => True end).
Proof.
  intros HI Hh Hc Hp Hk. set (now := u64 (clock s (nclk s))).
  assert (wp (sys_sleep_loop n ticks0) s (λ r s', Inv s' → sleeps n ticks0 now me s r s' ∧
    match r with Ret v => v = 0%Z ∧ procs s' = procs s | Switched => True end)) as Hw.
  2: { pose proof (keeps_sleep_loop n ticks0 s HI) as Hi. unfold wp in *. destruct (sys_sleep_loop n ticks0 s); auto. }
  unfold sys_sleep_loop. apply wp_bind, wp_tick. fold now. case_bool_decide as Hlt.
  - apply wp_bind, (wp_self me); [done|]. apply wp_bind, (wp_getp _ p); [done|]. rewrite Hk.
    apply wp_bind. apply (wp_sleep_under _ _ _ me p); [done..|]. apply wp_ret. intros HI'.
    split; [|done]. split_and!; [done|done| |done|done|]; simpl.
    + intros i Hi. by rewrite list_lookup_insert_ne.
    + rewrite list_lookup_insert_eq; [done|by eapply lookup_lt_Some].
  - apply wp_bind. eapply wp_release; [done|apply not_elem_of_nil|]. apply wp_ret.
    intros HI'. split; [|done]. split_and!; [done|done|done|simpl; lia|done].
Qed.

(** The store of the result and the end of [trap]. *)
Lemma wp_syscall_end me v s e p Q :
  Inv s → cur s = Some me → procs s !! me = Some p → killed p = false →
  (∀ s', Inv s' → sheld s' = sheld s → cur s' = Some me → (∀ i, i ≠ me → procs s' !! i = procs s !! i) →
     (eax ∘ tf) <$> procs s' !! me = Some (u32 v) → Q (Ret tt) (TSt s' e)) →
  wp (set_result me v) s (λ _ s', wp trap_syscall_end (TSt s' e) Q).
Proof.
  intros HI Hc Hp Hk HQ. pose proof (lookup_lt_Some _ _ _ Hp) as Hlt.
  eapply wp_keeps; [apply keeps_set_result|done|]. eapply wp_modp; [done|]. intros HI'.
  unfold trap_syscall_end. apply wp_bind, wp_zoom, (wp_self me); [done|]. apply wp_bind, wp_zoom.
  eapply wp_getp; [simpl; by apply list_lookup_insert_eq|]. simpl. rewrite Hk. apply wp_ret.
  apply HQ; simpl; [done..| |].
  - intros i Hi. by rewrite list_lookup_insert_ne.
  - by rewrite list_lookup_insert_eq.
Qed.

(** The outcome of [trap]: the process sleeps on, or is back with the result 0. *)
Definition sleep_result (n ticks0 now : Z) (me : nat) (t : tst (E:=E)) (r : ctl unit) (t' : tst (E:=E)) : Prop :=
  sleeps n ticks0 now me (kern t) r (kern t') ∧
  match r with Ret _ => (eax ∘ tf) <$> procs (kern t') !! me = Some 0%Z | Switched => True end.

(** From the loop on. *)
Lemma wp_sleep_call n ticks0 t0 s e me p :
  Inv s → sheld s = [LTicks] → cur s = Some me → procs s !! me = Some p → killed p = false →
  (∀ i, i ≠ me → procs s !! i = procs (kern t0) !! i) →
  let Q := sleep_result n ticks0 (u64 (clock s (nclk s))) me t0 in
  wp (sys_sleep_loop n ticks0) s (λ r s', match r with
    | Ret v => wp (set_result me v) s' (λ _ s', wp trap_syscall_end (TSt s' e) Q)
    | Switched => Q Switched (TSt s' e) end).
Proof.
  intros HI Hh Hc Hp Hk Ho Q. eapply wp_mono; [by apply (wp_sleep_loop n ticks0 s me p)|].
  intros [v|] s1 [(HI1 & Hh1 & Hf & Hr) Hv].
  - destruct Hr as [Hle Hc1], Hv as [-> Hps]. apply (wp_syscall_end me 0 _ _ p); [done|done|by rewrite Hps|done|].
    intros s2 HI2 Hh2 Hc2 Hf2 Hx. split; [|done].
    split_and!; [done|simpl; congruence| |done|done]. intros i Hi. simpl. rewrite Hf2, Hf by done. by apply Ho.
  - destruct Hr as (Hlt & Hc1 & Hs1). split; [|done]. split_and!; [done|done| |done|done|done].
    intros i Hi. simpl. rewrite Hf by done. by apply Ho.
Qed.

(** The end of [sleep]: ptable.lock goes, and the lock of the caller is taken again. *)
Lemma wp_resume_sleeper lk s me p :
  lk ≠ LPtable → Inv s → sheld s = [LPtable] → cur s = Some me → procs s !! me = Some p → context p = KSleep lk →
  wp (resume me) s (λ _ s', Inv s' ∧ s' = set_sheld [lk] (set_procs (<[me := set_pchan None p]> (procs s)) s)).
Proof.
  intros Hlk [Ha Hok] Hh Hc Hp Hctx.
  assert (wp (resume me) s (λ _ s', s' = set_sheld [lk] (set_procs (<[me := set_pchan None p]> (procs s)) s))) as Hw.
  { unfold resume. apply wp_bind, (wp_getp _ p); [done|]. rewrite Hctx. apply wp_bind, (wp_modp _ _ p); [done|].
    rewrite bool_decide_true by done. simpl. apply wp_bind. eapply wp_release; [done|apply not_elem_of_nil|].
    apply wp_acquire; [apply not_elem_of_nil|done]. }
  pose proof (tri_resume me s) as Ht. unfold wp in *. destruct (resume me s); try done. split; [|done].
  destruct Ht as (? & ? & _); [by split_and!|]. by split.
Qed.


(** A page fault of a process changes nothing on a CPU other than the first: [trap]
    returns to the instruction that faulted, which faults again. *)
Theorem page_fault_repeats f t me p :
  cpu_id ≠ 0%Z → trapno f = T_PGFLT → cur (kern t) = Some me → procs (kern t) !! me = Some p →
  killed p = false → interrupt (kern t) = false → trap f t = Done (Ret tt) t.
Proof.
  intros Hcpu Hn Hc Hp Hk Hi.
  assert (wp (trap f) t (λ r t', r = Ret tt ∧ t' = t)) as Hw.
  2: { apply wp_done in Hw as (r & t' & Hd & -> & ->). done. }
  unfold Trap.trap, handle. rewrite Hn. simpl. rewrite (bool_decide_false _ Hcpu).
  apply wp_bind, wp_ret. eapply wp_check_exit; [done..|by left|]. unfold preempt.
  apply wp_bind, wp_gets. rewrite Hc. apply wp_bind, wp_zoom, (wp_getp _ p); [done|].
  simpl. rewrite Hi, andb_false_r. eapply wp_check_exit; [done..|by left|]. apply wp_ret.
  by destruct t.
Qed.
End calls.

(** ** A kernel whose init sleeps while its child runs *)

Definition no_file (g : fsys) : kM (st (E:=Z)) (ctl Z) := kret (Ret (-1)%Z).
Definition wake_console : kM (st (E:=Z)) unit := wakeup CTicks.

(** The child has priority and threshold 0; init, of priority 1, sleeps. *)
Definition low_child : st (E:=Z) := after (fork 100 10 0 0) running.
Definition asleep : st (E:=Z) := after (kbind (acquire LTicks) (λ _, sys_sleep_loop 100 0)) low_child.
Definition child_on : st (E:=Z) := after dispatch asleep.
Definition demo_t : tst (E:=Z) := TSt child_on 0.

(** A frame of user mode (its code segment has level 3). *)
Definition demo_frame (n a : Z) : trapframe :=
  Trapframe 0 0 0 0 0 0 0 a 0 0 0 0 n 0 0 35 512 4096 43.
Definition demo_trap (f : trapframe) : kM (tst (E:=Z)) (ctl unit) :=
  Trap.trap 0 (λ n, Z.of_nat n * 2 ^ 20)%Z 0 (λ _ _ _, 0%Z) no_file wake_console wake_console wake_console f.

Lemma after_inv {A} (m : kM (st (E:=Z)) A) s : keeps m → Inv s → Inv (after m s).
Proof. intros Hm HI. specialize (Hm s HI). unfold after. by destruct (m s). Qed.

Lemma child_on_inv : Inv child_on.
Proof.
  assert (Inv asleep) as HI.
  2: { unfold child_on, after. pose proof (keeps_dispatch asleep eq_refl HI). by destruct (dispatch asleep). }
  apply after_inv.
  { apply keeps_bind; [keeps|]. intros _. apply keeps_sleep_loop. }
  apply after_inv; [keeps|]. exact (reach_inv _ _ booted_boot running_reach).
Qed.

(** The child calls getpid. *)
Definition demo_back : tst (E:=Z) := after (demo_trap (demo_frame 64 11)) demo_t.

Lemma killed_never_returns_witness : killed (default proc0 (procs (kern demo_back) !! 1)) = false.
Proof.
  apply (killed_never_returns 0 (λ n, Z.of_nat n * 2 ^ 20)%Z 0 (λ _ _ _, 0%Z) no_file wake_console wake_console
    wake_console (demo_frame 64 11) demo_t demo_back) with (me := 1).
  - left. split; [left; reflexivity|]. vm_compute. reflexivity.
  - vm_compute. reflexivity.
  - vm_compute. reflexivity.
Defined.

Definition demo_child : proc := Eval vm_compute in default proc0 (procs child_on !! 1).

(** The child loses the CPU to init, which the tick woke. *)
Lemma demo_tick_switches :
  (match demo_trap (demo_frame 32 0) demo_t with Done r _ => Some r | _ => None end) = Some Switched.
Proof. vm_compute. reflexivity. Qed.

Lemma timer_preempts_witness :
  ∃ r t', demo_trap (demo_frame 32 0) demo_t = Done r t' ∧ preempted demo_t 1 demo_child r t' ∧ eois t' = 1.
Proof.
  destruct (timer_preempts 0 (λ n, Z.of_nat n * 2 ^ 20)%Z 0 (λ _ _ _, 0%Z) no_file wake_console wake_console
    wake_console (demo_frame 32 0) demo_t 1 demo_child) as (r & t' & Ht & Hp & _ & He & _).
  - reflexivity.
  - reflexivity.
  - exact child_on_inv.
  - vm_compute. reflexivity.
  - vm_compute. reflexivity.
  - vm_compute. reflexivity.
  - left. reflexivity.
  - exists r, t'. split; [exact Ht|]. split; [exact Hp|exact He].
Defined.

(** The child calls sleep(3): the number is the word at 4 of its memory. *)
Definition sleep_mem (_ _ : Z) : mem := store32 (λ _, 0%Z) 4 3.
Definition sleep_frame : trapframe := Trapframe 0 0 0 0 0 0 0 13 0 0 0 0 64 0 0 35 512 0 43.
Definition sleep_trap : kM (tst (E:=Z)) (ctl unit) :=
  Trap.trap 0 (λ n, Z.of_nat n * 2 ^ 20)%Z 0 sleep_mem no_file wake_console wake_console wake_console sleep_frame.

(** The scheduler has switched to it again, three ticks later. *)
Definition woken : tst (E:=Z) :=
  TSt (set_nclk 7 (set_sheld [LPtable] (set_procs (<[1 := set_context (KSleep LTicks) demo_child]> (procs child_on)) child_on))) 0.

Lemma woken_inv : Inv (kern woken).
Proof.
  assert (abs (kern woken) = abs child_on) as He by (vm_compute; reflexivity).
  unfold Inv. rewrite He. exact child_on_inv.
Qed.

Lemma demo_sleep_ends :
  (match sleep_trap demo_t with Done r _ => Some r | _ => None end) = Some Switched ∧
  (match trap_syscall_resume (sys_sleep_loop 3 5) woken with Done r _ => Some r | _ => None end) = Some (Ret tt).
Proof. split; vm_compute; reflexivity. Qed.

Lemma demo_readings :
  u32 (u64 (clock (kern demo_t) (nclk (kern demo_t)))) = 5%Z ∧ u64 (clock (kern demo_t) (S (nclk (kern demo_t)))) = 6%Z ∧
  u64 (clock (kern woken) (nclk (kern woken))) = 8%Z.
Proof. vm_compute. repeat split; reflexivity. Qed.

