(* ===== verification/Seg.v ===== *)
(** * Segments, gates and address spaces (mmu.h, seginit and switchuvm of vm.c, tvinit of trap.c)

    The descriptors are records of their bit fields, each cut to its width. A CPU is
    its descriptor table, the two fields of its task state that the hardware reads on
    a trap, and the registers the code loads. [deliver] is what the processor's manual
    says of a trap from user mode; the theorems say where it ends up. *)

From S2P Require Import Prelude CString Kalloc Vm Trap.

Local Open Scope Z_scope.

(** ** mmu.h *)

Definition SEG_KCODE : Z := 1.
Definition SEG_KDATA : Z := 2.
Definition SEG_KCPU : Z := 3.
Definition SEG_UCODE : Z := 4.
Definition SEG_UDATA : Z := 5.
Definition SEG_TSS : Z := 6.
Definition NSEGS : nat := 7.
Definition STA_X : Z := 8.
Definition STA_W : Z := 2.
Definition STA_R : Z := 2.
Definition STS_T32A : Z := 9.
Definition STS_IG32 : Z := 14.
Definition STS_TG32 : Z := 15.
Definition KSTACKSIZE : Z := 4096.

Record segdesc := Segdesc {
  lim_15_0 : Z;
  base_15_0 : Z;
  base_23_16 : Z;
  type : Z;
  sys : Z;           (* the bit s *)
  dpl : Z;
  present : Z;       (* the bit p *)
  lim_19_16 : Z;
  avl : Z;
  rsv1 : Z;
  db : Z;
  gran : Z;          (* the bit g *)
  base_31_24 : Z;
}.
Definition segdesc0 : segdesc := Segdesc 0 0 0 0 0 0 0 0 0 0 0 0 0.

(** A value stored in a field of [w] bits. *)
Definition bits (w z : Z) : Z := z mod 2 ^ w.

Definition SEG (ty base lim d : Z) : segdesc :=
  Segdesc (Z.land (Z.shiftr lim 12) 65535) (Z.land (u32 base) 65535) (Z.land (Z.shiftr (u32 base) 16) 255) (bits 4 ty) 1
    (bits 2 d) 1 (bits 4 (Z.shiftr (u32 lim) 28)) 0 0 1 1 (bits 8 (Z.shiftr (u32 base) 24)).

Definition SEG16 (ty base lim d : Z) : segdesc :=
  Segdesc (Z.land lim 65535) (Z.land (u32 base) 65535) (Z.land (Z.shiftr (u32 base) 16) 255) (bits 4 ty) 1
    (bits 2 d) 1 (bits 4 (Z.shiftr (u32 lim) 16)) 0 0 1 0 (bits 8 (Z.shiftr (u32 base) 24)).

Definition set_s (v : Z) (x : segdesc) : segdesc :=
  Segdesc (lim_15_0 x) (base_15_0 x) (base_23_16 x) (type x) v (dpl x) (present x) (lim_19_16 x) (avl x) (rsv1 x) (db x) (gran x) (base_31_24 x).

(** The processor marks the task state it loads as busy. *)
Definition busy (x : segdesc) : segdesc :=
  Segdesc (lim_15_0 x) (base_15_0 x) (base_23_16 x) (Z.lor (type x) 2) (sys x) (dpl x) (present x) (lim_19_16 x) (avl x) (rsv1 x) (db x) (gran x) (base_31_24 x).

Record gatedesc := Gatedesc {
  off_15_0 : Z;
  gcs : Z;
  args : Z;
  grsv1 : Z;
  gtype : Z;
  gs_bit : Z;
  gdpl : Z;
  gp : Z;
  off_31_16 : Z;
}.
Definition gatedesc0 : gatedesc := Gatedesc 0 0 0 0 0 0 0 0 0.

Definition SETGATE (istrap : bool) (sel off d : Z) : gatedesc :=
  Gatedesc (Z.land (u32 off) 65535) (bits 16 sel) 0 0 (if istrap then STS_TG32 else STS_IG32) 0 (bits 2 d) 1
    (bits 16 (Z.shiftr (u32 off) 16)).

(** ** The state of a CPU *)

Record cpu := Cpu {
  gdt : list segdesc;
  ts_ss0 : Z;
  ts_esp0 : Z;
  gdtr : Z * Z;          (* address and limit *)
  idtr : Z * Z;
  gs : Z;
  tr : Z;
  cr3 : Z;
  cpu_var : Z;           (* the variables cpu and proc, at %gs:0 and %gs:4 *)
  proc_var : Z;
}.

Definition set_gdt v (c : cpu) : cpu := Cpu v (ts_ss0 c) (ts_esp0 c) (gdtr c) (idtr c) (gs c) (tr c) (cr3 c) (cpu_var c) (proc_var c).
Definition set_ts v w (c : cpu) : cpu := Cpu (gdt c) v w (gdtr c) (idtr c) (gs c) (tr c) (cr3 c) (cpu_var c) (proc_var c).
Definition lgdt p size (c : cpu) : cpu := Cpu (gdt c) (ts_ss0 c) (ts_esp0 c) (u32 p, u16 (size - 1)) (idtr c) (gs c) (tr c) (cr3 c) (cpu_var c) (proc_var c).
Definition lidt p size (c : cpu) : cpu := Cpu (gdt c) (ts_ss0 c) (ts_esp0 c) (gdtr c) (u32 p, u16 (size - 1)) (gs c) (tr c) (cr3 c) (cpu_var c) (proc_var c).
Definition loadgs v (c : cpu) : cpu := Cpu (gdt c) (ts_ss0 c) (ts_esp0 c) (gdtr c) (idtr c) (u16 v) (tr c) (cr3 c) (cpu_var c) (proc_var c).
Definition ltr v (c : cpu) : cpu :=
  Cpu (alter busy (Z.to_nat (Z.shiftr v 3)) (gdt c)) (ts_ss0 c) (ts_esp0 c) (gdtr c) (idtr c) (gs c) (u16 v) (cr3 c) (cpu_var c) (proc_var c).
Definition lcr3 v (c : cpu) : cpu := Cpu (gdt c) (ts_ss0 c) (ts_esp0 c) (gdtr c) (idtr c) (gs c) (tr c) (u32 v) (cpu_var c) (proc_var c).
Definition set_vars v w (c : cpu) : cpu := Cpu (gdt c) (ts_ss0 c) (ts_esp0 c) (gdtr c) (idtr c) (gs c) (tr c) (cr3 c) v w.

(** [c->gdt[i] = d;] *)
Definition put_gdt (i : Z) (d : segdesc) (c : cpu) : cpu := set_gdt (<[Z.to_nat i := d]> (gdt c)) c.

Section cpu.
(** The addresses of a [struct cpu] and of its fields [gdt], [ts] and [cpu]; of
    [idt]; and the entry points of vectors.S. *)
Context (cpu_addr gdt_addr ts_addr var_addr idt_addr : Z) (vectors : Z → Z).

Definition seginit (c : cpu) : cpu :=
  let c := put_gdt SEG_KCODE (SEG (Z.lor STA_X STA_R) 0 0xffffffff 0) c in
  let c := put_gdt SEG_KDATA (SEG STA_W 0 0xffffffff 0) c in
  let c := put_gdt SEG_UCODE (SEG (Z.lor STA_X STA_R) 0 0xffffffff DPL_USER) c in
  let c := put_gdt SEG_UDATA (SEG STA_W 0 0xffffffff DPL_USER) c in
  let c := put_gdt SEG_KCPU (SEG STA_W var_addr 8 0) c in
  let c := lgdt gdt_addr (8 * Z.of_nat NSEGS) c in
  let c := loadgs (Z.shiftl SEG_KCPU 3) c in
  set_vars cpu_addr 0 c.

(** The table is [idt]; the lock it initialises is free. *)
Definition tvinit (idt : list gatedesc) : list gatedesc :=
  let idt := foldl (λ t i, <[i := SETGATE false (Z.shiftl SEG_KCODE 3) (vectors (Z.of_nat i)) 0]> t) idt (seq 0 (Z.to_nat 256)) in
  <[Z.to_nat T_SYSCALL := SETGATE true (Z.shiftl SEG_KCODE 3) (vectors T_SYSCALL) DPL_USER]> idt.

Definition idtinit (c : cpu) : cpu := lidt idt_addr (8 * 256) c.

(** [kpgdir] is the page directory of the kernel. *)
Definition switchkvm (kpgdir : Z) (c : cpu) : cpu := lcr3 (v2p kpgdir) c.

(** [pgdir] is that of [p]; [kstack] that of the process [proc] of the CPU. [None] is
    the panic. The interrupts are off meanwhile. *)
Definition switchuvm (pgdir kstack : Z) (c : cpu) : option cpu :=
  let c := put_gdt SEG_TSS (SEG16 STS_T32A ts_addr (104 - 1) 0) c in
  let c := put_gdt SEG_TSS (set_s 0 (default segdesc0 (gdt c !! Z.to_nat SEG_TSS))) c in
  let c := set_ts (Z.shiftl SEG_KDATA 3) (u32 (kstack + KSTACKSIZE)) c in
  let c := ltr (Z.shiftl SEG_TSS 3) c in
  if bool_decide (pgdir = 0) then None else Some (lcr3 (v2p pgdir) c).
End cpu.

(** [kvmalloc()], over the page allocator. *)
Definition kvmalloc (kdata : Z) (c : cpu) : kM Kalloc.st (Z * cpu) :=
  (kpgdir ← Vm.setupkvm kdata; kret (kpgdir, switchkvm kpgdir c))%kern.

(** ** What the processor makes of a descriptor *)

Definition seg_base (x : segdesc) : Z := base_15_0 x + 2 ^ 16 * base_23_16 x + 2 ^ 24 * base_31_24 x.
Definition seg_limit (x : segdesc) : Z :=
  let l := lim_15_0 x + 2 ^ 16 * lim_19_16 x in
  if bool_decide (gran x = 1) then 2 ^ 12 * l + 4095 else l.
Definition gate_offset (x : gatedesc) : Z := off_15_0 x + 2 ^ 16 * off_31_16 x.

Lemma split_address a : 0 ≤ a < 2 ^ 32 →
  Z.land (u32 a) 65535 + 2 ^ 16 * Z.land (Z.shiftr (u32 a) 16) 255 + 2 ^ 24 * bits 8 (Z.shiftr (u32 a) 24) = a.
Proof.
  intros Ha. rewrite u32_small by done. change 65535 with (Z.ones 16). change 255 with (Z.ones 8).
  rewrite !Z.land_ones, !Z.shiftr_div_pow2 by lia. unfold bits.
  assert (a / 2 ^ 24 < 2 ^ 8) by (apply Z.div_lt_upper_bound; lia).
  assert (0 ≤ a / 2 ^ 24) by (apply Z.div_pos; lia). rewrite (Z.mod_small (a / 2 ^ 24)) by lia.
  replace (a / 2 ^ 24) with (a / 2 ^ 16 / 2 ^ 8) by (rewrite Z.div_div by lia; done).
  pose proof (Z.div_mod a (2 ^ 16)). pose proof (Z.div_mod (a / 2 ^ 16) (2 ^ 8)). lia.
Qed.

(** A segment begins at its base and ends on a page boundary. *)
Lemma SEG_spec ty base lim d : 0 ≤ base < 2 ^ 32 → 0 ≤ lim < 2 ^ 32 →
  seg_base (SEG ty base lim d) = base ∧ seg_limit (SEG ty base lim d) = 2 ^ 12 * (lim / 2 ^ 12) + 4095.
Proof.
  intros Hb Hl. split; [by apply split_address|]. unfold seg_limit, SEG. cbn [gran lim_15_0 lim_19_16].
  rewrite bool_decide_true by done. change 65535 with (Z.ones 16).
  rewrite Z.land_ones, !Z.shiftr_div_pow2 by lia. rewrite u32_small by done. unfold bits.
  assert (0 ≤ lim / 2 ^ 28 < 2 ^ 4) by (split; [apply Z.div_pos; lia|apply Z.div_lt_upper_bound; lia]).
  rewrite (Z.mod_small (lim / 2 ^ 28)) by lia.
  replace (lim / 2 ^ 28) with (lim / 2 ^ 12 / 2 ^ 16) by (rewrite Z.div_div by lia; done).
  pose proof (Z.div_mod (lim / 2 ^ 12) (2 ^ 16)). lia.
Qed.

Lemma SEG16_spec ty base lim d : 0 ≤ base < 2 ^ 32 → 0 ≤ lim < 2 ^ 16 →
  seg_base (SEG16 ty base lim d) = base ∧ seg_limit (SEG16 ty base lim d) = lim.
Proof.
  intros Hb Hl. split; [by apply split_address|]. unfold seg_limit, SEG16. cbn [gran lim_15_0 lim_19_16].
  rewrite bool_decide_false by done. change 65535 with (Z.ones 16). rewrite Z.land_ones by lia.
  rewrite Z.shiftr_div_pow2, u32_small, (Z.div_small lim) by lia. rewrite Z.mod_small by lia. unfold bits.
  rewrite Z.mod_small by lia. lia.
Qed.

Lemma SETGATE_offset istrap sel off d : 0 ≤ off < 2 ^ 32 → gate_offset (SETGATE istrap sel off d) = off.
Proof.
  intros Ho. unfold gate_offset, SETGATE. cbn [off_15_0 off_31_16]. rewrite u32_small by done.
  change 65535 with (Z.ones 16). rewrite Z.land_ones, Z.shiftr_div_pow2 by lia. unfold bits.
  assert (0 ≤ off / 2 ^ 16 < 2 ^ 16) by (split; [apply Z.div_pos; lia|apply Z.div_lt_upper_bound; lia]).
  rewrite (Z.mod_small (off / 2 ^ 16)) by lia. pose proof (Z.div_mod off (2 ^ 16)). lia.
Qed.

(** ** A trap from user mode *)

(** Where a trap goes on: the address, the segments and the stack, and whether
    interrupts stay as they are. *)
Record entry := Entry { n_cs : Z; n_eip : Z; n_ss : Z; n_esp : Z; keeps_if : bool }.

Definition code_seg (x : segdesc) : bool :=
  bool_decide (present x = 1) && bool_decide (sys x = 1) && Z.testbit (type x) 3 && bool_decide (dpl x = 0).
Definition data_seg (x : segdesc) : bool :=
  bool_decide (present x = 1) && bool_decide (sys x = 1) && negb (Z.testbit (type x) 3) && Z.testbit (type x) 1 && bool_decide (dpl x = 0).
(** The task state in use, of 32 bits, is the memory at [ts_addr]. *)
Definition tss_seg (ts_addr : Z) (x : segdesc) : bool :=
  bool_decide (present x = 1) && bool_decide (sys x = 0) && bool_decide (type x = 11) && bool_decide (seg_base x = ts_addr)
  && bool_decide (103 ≤ seg_limit x).

Definition selected_by (c : cpu) (sel : Z) : segdesc := default segdesc0 (gdt c !! Z.to_nat (Z.shiftr sel 3)).

(** Trap [i] while the processor runs at level 3: an [int] instruction if [soft], and
    else an interrupt or a fault. [None] is a protection fault. *)
Definition deliver (ts_addr : Z) (idt : list gatedesc) (c : cpu) (soft : bool) (i : nat) : option entry :=
  let g := default gatedesc0 (idt !! i) in
  let code := selected_by c (gcs g) in
  if bool_decide (gp g = 1) && bool_decide (gs_bit g = 0) && (bool_decide (gtype g = 14) || bool_decide (gtype g = 15))
     && (negb soft || bool_decide (3 ≤ gdpl g)) && code_seg code && bool_decide (gate_offset g ≤ seg_limit code)
     && tss_seg ts_addr (selected_by c (tr c)) && data_seg (selected_by c (ts_ss0 c))
  then Some (Entry (gcs g) (seg_base code + gate_offset g) (ts_ss0 c) (ts_esp0 c) (bool_decide (gtype g = 15)))
  else None.

Section theorem.
Context (cpu_addr gdt_addr ts_addr var_addr : Z) (vectors : Z → Z).

Lemma tvinit_gate idt i : length idt = Z.to_nat 256 → (i < 256)%nat →
  tvinit vectors idt !! i = Some (SETGATE (bool_decide (i = 64%nat)) 8 (vectors (Z.of_nat i)) (if bool_decide (i = 64%nat) then 3 else 0)).
Proof.
  intros Hl Hi. unfold tvinit.
  assert (∀ n t, length t = Z.to_nat 256 → (n ≤ Z.to_nat 256)%nat →
    let t' := foldl (λ t i, <[i := SETGATE false (Z.shiftl SEG_KCODE 3) (vectors (Z.of_nat i)) 0]> t) t (seq 0 n) in
    length t' = Z.to_nat 256 ∧ ∀ j, (j < n)%nat → t' !! j = Some (SETGATE false 8 (vectors (Z.of_nat j)) 0)) as Hfold.
  { induction n as [|n IH]; intros t Ht Hn; cbv zeta; [split; [done|lia]|].
    rewrite seq_S, foldl_app. simpl. destruct (IH t Ht ltac:(lia)) as [Hlen Hj]. cbv zeta in Hlen, Hj.
    rewrite length_insert. split; [done|]. intros j Hjn. destruct (decide (j = n)) as [->|Hne].
    - rewrite list_lookup_insert_eq; [done|]. rewrite Hlen. lia.
    - rewrite list_lookup_insert_ne by done. apply Hj. lia. }
  destruct (Hfold (Z.to_nat 256) idt Hl ltac:(lia)) as [Hlen Hj]. cbv zeta in Hlen, Hj.
  case_bool_decide as H64.
  - subst i. rewrite list_lookup_insert_eq; [done|]. rewrite Hlen. unfold T_SYSCALL. lia.
  - rewrite list_lookup_insert_ne by (change (Z.to_nat T_SYSCALL) with 64%nat; lia). apply Hj. lia.
Qed.

Lemma tss_ok : 0 ≤ ts_addr < 2 ^ 32 → tss_seg ts_addr (busy (set_s 0 (SEG16 STS_T32A ts_addr 103 0))) = true.
Proof.
  intros Hts. destruct (SEG16_spec STS_T32A ts_addr 103 0 Hts ltac:(lia)) as [Hb16 _].
  unfold tss_seg. change (seg_base (busy (set_s 0 ?x))) with (seg_base x). rewrite Hb16.
  rewrite (bool_decide_true (ts_addr = ts_addr)) by done. reflexivity.
Qed.

(** The registers and the three descriptors a trap needs. *)
Lemma switched c pgdir kstack :
  length (gdt c) = NSEGS → pgdir ≠ 0 →
  ∃ c', switchuvm ts_addr pgdir kstack (seginit cpu_addr gdt_addr var_addr c) = Some c' ∧ cr3 c' = v2p pgdir ∧
    tr c' = 48 ∧ ts_ss0 c' = 16 ∧ ts_esp0 c' = u32 (kstack + KSTACKSIZE) ∧
    selected_by c' 8 = SEG (Z.lor STA_X STA_R) 0 0xffffffff 0 ∧ selected_by c' 16 = SEG STA_W 0 0xffffffff 0 ∧
    selected_by c' 48 = busy (set_s 0 (SEG16 STS_T32A ts_addr 103 0)).
Proof.
  intros Hg Hpg. unfold switchuvm. rewrite (bool_decide_false _ Hpg). eexists. split; [done|].
  split; [simpl; by rewrite u32_small by (unfold v2p, u32; apply Z.mod_pos_bound; lia)|].
  destruct c as [g ss0 esp0 r1 r2 r3 r4 r5 r6 r7]. simpl in Hg.
  do 7 (destruct g as [|? g]; [done|]). destruct g; [|done]. split_and!; reflexivity.
Qed.

(** C17: after [seginit], [tvinit] and [switchuvm], user code enters the kernel only
    where the kernel wants it: a trap continues at its entry point of vectors.S, in the
    code segment of the kernel, at the top of the kernel stack of the process, and an
    [int] instruction succeeds for T_SYSCALL alone. Interrupts are turned off except for
    system calls. The page directory is that of the process. *)
Theorem user_enters_kernel idt c pgdir kstack :
  length (gdt c) = NSEGS → length idt = Z.to_nat 256 → 0 ≤ ts_addr < 2 ^ 32 → pgdir ≠ 0 →
  (∀ i, 0 ≤ vectors i < 2 ^ 32) →
  ∃ c', switchuvm ts_addr pgdir kstack (seginit cpu_addr gdt_addr var_addr c) = Some c' ∧ cr3 c' = v2p pgdir ∧
    ∀ soft i, (i < 256)%nat → deliver ts_addr (tvinit vectors idt) c' soft i =
      if soft && negb (bool_decide (i = Z.to_nat T_SYSCALL)) then None
      else Some (Entry 8 (vectors (Z.of_nat i)) 16 (u32 (kstack + KSTACKSIZE)) (bool_decide (i = Z.to_nat T_SYSCALL))).
Proof.
  intros Hg Hl Hts Hpg Hv. destruct (switched c pgdir kstack Hg Hpg) as (c' & Hc & Hcr & Htr & Hss & Hesp & Hk & Hd & Ht).
  exists c'. split; [done|]. split; [done|].
  intros soft i Hi. unfold deliver. rewrite (tvinit_gate idt i Hl Hi). change (Z.to_nat T_SYSCALL) with 64%nat.
  cbn [from_option id]. set (g := SETGATE _ _ _ _).
  assert (gcs g = 8 ∧ gate_offset g = vectors (Z.of_nat i) ∧ gp g = 1 ∧ gs_bit g = 0) as (Hcs & Hoff & Hp & Hs).
  { split_and!; [done|by apply SETGATE_offset|done..]. }
  assert (gdpl g = (if bool_decide (i = 64%nat) then 3 else 0) ∧ gtype g = if bool_decide (i = 64%nat) then 15 else 14) as [Hdpl Hty].
  { unfold g. by case_bool_decide. }
  clearbody g. rewrite Hcs, Hoff, Hp, Hs, Hdpl, Hty, Htr, Hss, Hesp, Hk, Hd, Ht.
  destruct (SEG_spec (Z.lor STA_X STA_R) 0 0xffffffff 0 ltac:(lia) ltac:(lia)) as [-> ->].
  rewrite (bool_decide_true (vectors _ ≤ _)) by (specialize (Hv (Z.of_nat i)); change (4294967295 / 2 ^ 12) with (2 ^ 20 - 1); lia).
  rewrite (tss_ok Hts), Z.add_0_l. destruct soft; case_bool_decide; reflexivity.
Qed.
End theorem.

(** ** An example *)

Definition demo_cpu : cpu := Cpu (replicate NSEGS segdesc0) 0 0 (0, 0) (0, 0) 0 0 0 0 0.
Definition demo_idt : list gatedesc := replicate (Z.to_nat 256) gatedesc0.
Definition demo_vectors (i : Z) : Z := Z.modulo (2148536320 + 8 * i) (2 ^ 32).

Lemma user_enters_kernel_witness :
  ∃ c', switchuvm 2148600000 2413821952 2413817856 (seginit 2148599900 2148600200 2148600300 demo_cpu) = Some c' ∧
    deliver 2148600000 (tvinit demo_vectors demo_idt) c' true 64 = Some (Entry 8 (demo_vectors 64) 16 2413821952 true) ∧
    deliver 2148600000 (tvinit demo_vectors demo_idt) c' true 32 = None ∧
    deliver 2148600000 (tvinit demo_vectors demo_idt) c' false 32 = Some (Entry 8 (demo_vectors 32) 16 2413821952 false).
Proof.
  destruct (user_enters_kernel 2148599900 2148600200 2148600000 2148600300 demo_vectors demo_idt demo_cpu 2413821952 2413817856)
    as (c' & Hc & _ & Hd).
  - reflexivity.
  - apply length_replicate.
  - lia.
  - lia.
  - intros i. unfold demo_vectors. apply Z.mod_pos_bound. lia.
  - exists c'. split; [exact Hc|]. split; [|split].
    + rewrite (Hd true 64%nat) by lia. reflexivity.
    + rewrite (Hd true 32%nat) by lia. reflexivity.
    + rewrite (Hd false 32%nat) by lia. reflexivity.
Defined.
