(* ===== verification/Entry.v ===== *)
(** * Entry into the kernel and context switch (vectors.pl, trapasm.S, swtch.S)

    The assembly on which trap.c and proc.c rest, over the registers and the memory
    the stacks are in. A trap from user mode saves the registers in a [struct
    trapframe] and [trapret] loads what is there then; [swtch] saves a [struct
    context] and loads another. The hardware's part of a trap, [trap_in] and [iret],
    is what the processor's manual says. *)

From S2P Require Import Prelude CString Proc Trap Seg.

Local Open Scope Z_scope.

Record mach := Mach {
  eax : Z; ecx : Z; edx : Z; ebx : Z; esp : Z; ebp : Z; esi : Z; edi : Z;
  ds : Z; es : Z; fs : Z; gs : Z;
  eip : Z; cs : Z; eflags : Z; ss : Z;
  mm : mem;
}.

Definition set_stack v w (x : mach) : mach :=
  Mach (eax x) (ecx x) (edx x) (ebx x) v (ebp x) (esi x) (edi x) (ds x) (es x) (fs x) (gs x) (eip x) (cs x) (eflags x) (ss x) w.
Definition set_general a c d b p s i (x : mach) : mach :=
  Mach a c d b (esp x) p s i (ds x) (es x) (fs x) (gs x) (eip x) (cs x) (eflags x) (ss x) (mm x).
Definition set_segs d e f g (x : mach) : mach :=
  Mach (eax x) (ecx x) (edx x) (ebx x) (esp x) (ebp x) (esi x) (edi x) d e f g (eip x) (cs x) (eflags x) (ss x) (mm x).
Definition set_ip i c f s (x : mach) : mach :=
  Mach (eax x) (ecx x) (edx x) (ebx x) (esp x) (ebp x) (esi x) (edi x) (ds x) (es x) (fs x) (gs x) i c f s (mm x).

(** [pushl]; several, in order; and the word at an offset from the top. *)
Definition pushl (v : Z) (x : mach) : mach := let sp := u32 (esp x - 4) in set_stack sp (store32 (mm x) sp v) x.
Definition pushls (vs : list Z) (x : mach) : mach := foldl (λ x v, pushl v x) x vs.
Definition word (x : mach) (k : Z) : Z := load32 (mm x) (esp x + 4 * k).
Definition drop_words (n : Z) (x : mach) : mach := set_stack (u32 (esp x + 4 * n)) (mm x) x.

(** ** Traps (vectors.pl, trapasm.S) *)

(** The traps for which the processor pushes an error code. *)
Definition has_err (i : Z) : bool :=
  bool_decide (i = 8) || (bool_decide (10 ≤ i) && bool_decide (i ≤ 14)) || bool_decide (i = 17).

(** [vector$i] *)
Definition vector (i : Z) (x : mach) : mach := pushl i (if has_err i then x else pushl 0 x).

(** The segments of the kernel: [movw] to %ax changes the low half of %eax. *)
Definition movw_ax (v : Z) (x : mach) : mach :=
  set_general (Z.lor (Z.land (eax x) 0xffff0000) v) (ecx x) (edx x) (ebx x) (ebp x) (esi x) (edi x) x.
Definition kernel_segs (x : mach) : mach :=
  let x := movw_ax (Z.shiftl SEG_KDATA 3) x in
  let x := set_segs (u16 (eax x)) (u16 (eax x)) (fs x) (gs x) x in
  let x := movw_ax (Z.shiftl SEG_KCPU 3) x in
  set_segs (ds x) (es x) (u16 (eax x)) (u16 (eax x)) x.

(** [alltraps]: the rest of the frame and the segments; then [pushl %esp] and
    [call trap], for [trap] at [f] and the next instruction at [ret]. *)
Definition save_frame (x : mach) : mach :=
  let x := pushls [ds x; es x; fs x; gs x] x in
  let x := pushls [eax x; ecx x; edx x; ebx x; esp x; ebp x; esi x; edi x] x in
  kernel_segs x.

Definition call_trap (f ret : Z) (x : mach) : mach :=
  let x := pushl ret (pushl (esp x) x) in
  set_ip f (cs x) (eflags x) (ss x) x.
Definition alltraps (f ret : Z) (x : mach) : mach := call_trap f ret (save_frame x).

(** [popal], the segment registers, and past the number and the code. *)
Definition trapret (x : mach) : mach :=
  let x := drop_words 8 (set_general (word x 7) (word x 6) (word x 5) (word x 4) (word x 2) (word x 1) (word x 0) x) in
  let x := drop_words 4 (set_segs (u16 (word x 3)) (u16 (word x 2)) (u16 (word x 1)) (u16 (word x 0)) x) in
  drop_words 2 x.

(** ** Context switch (swtch.S) *)

Definition swtch (x : mach) : mach :=
  let old := word x 1 in
  let new := word x 2 in
  let x := set_general old (ecx x) new (ebx x) (ebp x) (esi x) (edi x) x in
  let x := pushls [ebp x; ebx x; esi x; edi x] x in
  let x := set_stack (esp x) (store32 (mm x) (eax x) (esp x)) x in
  let x := set_stack (edx x) (mm x) x in
  let x := drop_words 4 (set_general (eax x) (ecx x) (edx x) (word x 2) (word x 3) (word x 1) (word x 0) x) in
  drop_words 1 (set_ip (word x 0) (cs x) (eflags x) (ss x) x).

(** ** The hardware *)

(** Trap [i] with error code [e] from user mode, to the entry [n] of Seg.v. *)
Definition trap_in (i e : Z) (n : entry) (x : mach) : mach :=
  let y := set_stack (n_esp n) (mm x) (set_ip (n_eip n) (n_cs n) (eflags x) (n_ss n) x) in
  let y := pushls [ss x; esp x; eflags x; cs x; eip x] y in
  if has_err i then pushl e y else y.

(** Back to user mode; a segment register takes the low half of its word. *)
Definition iret (x : mach) : mach :=
  set_stack (word x 3) (mm x) (set_ip (word x 0) (u16 (word x 1)) (word x 2) (u16 (word x 4)) x).

(** ** struct trapframe (x86.h) *)

(** A [ushort] in memory. *)
Definition half (m : mem) (a : Z) : Z := u16 (m a + m (a + 1) * 2 ^ 8).

(** The structure at an address, with the offsets of its fields. *)
Definition trapframe_at (m : mem) (a : Z) : trapframe :=
  Trapframe (load32 m a) (load32 m (a + 4)) (load32 m (a + 8)) (load32 m (a + 12)) (load32 m (a + 16))
    (load32 m (a + 20)) (load32 m (a + 24)) (load32 m (a + 28)) (half m (a + 32)) (half m (a + 36)) (half m (a + 40))
    (half m (a + 44)) (load32 m (a + 48)) (load32 m (a + 52)) (load32 m (a + 56)) (half m (a + 60)) (load32 m (a + 64))
    (load32 m (a + 68)) (half m (a + 72)).

(** ** Stacks in memory *)

Lemma load32_store32_ne m a b w : a + 4 ≤ b ∨ b + 4 ≤ a → load32 (store32 m a w) b = load32 m b.
Proof. intros Hab. apply load32_ext. intros x Hx. rewrite store32_byte. rewrite !decide_False by lia. done. Qed.

Lemma pushls_spec vs : ∀ x,
  4 * Z.of_nat (length vs) ≤ esp x < 2 ^ 32 →
  esp (pushls vs x) = esp x - 4 * Z.of_nat (length vs) ∧
  (∀ i v, vs !! i = Some v → load32 (mm (pushls vs x)) (esp x - 4 * (Z.of_nat i + 1)) = u32 v) ∧
  (∀ a, a + 4 ≤ esp x - 4 * Z.of_nat (length vs) ∨ esp x ≤ a → load32 (mm (pushls vs x)) a = load32 (mm x) a) ∧
  ∃ sp m, pushls vs x = set_stack sp m x.
Proof.
  induction vs as [|v vs IH]; intros x Hx.
  - simpl. split_and!; [lia|done|done|]. exists (esp x), (mm x). by destruct x.
  - simpl in Hx. change (pushls (v :: vs) x) with (pushls vs (pushl v x)).
    assert (u32 (esp x - 4) = esp x - 4) as Hu by (apply u32_small; lia).
    destruct (IH (pushl v x)) as (H1 & H2 & H3 & sp & m & H4); [simpl; rewrite Hu; lia|].
    cbn [esp mm pushl set_stack] in H1, H2, H3. rewrite Hu in H1, H2, H3. split_and!.
    + rewrite H1. simpl. lia.
    + intros [|i] w Hw; simpl in Hw.
      * simplify_eq. rewrite H3 by (simpl; lia). replace (esp x - 4 * (Z.of_nat 0 + 1)) with (esp x - 4) by lia.
        apply load_store32.
      * rewrite <-(H2 i w Hw). f_equal. lia.
    + intros a Ha. simpl in Ha. rewrite H3 by lia. apply load32_store32_ne. lia.
    + exists sp, m. by rewrite H4.
Qed.

Lemma pushls_app l l' x : pushls (l ++ l') x = pushls l' (pushls l x).
Proof. apply foldl_app. Qed.

Lemma pushls_four a b c d l x : pushls (a :: b :: c :: d :: l) x = pushls l (pushls [a; b; c; d] x).
Proof. reflexivity. Qed.

(** The registers other than the stack pointer stay. *)
Lemma pushls_same l x : ∃ sp m, pushls l x = set_stack sp m x.
Proof.
  revert x. induction l as [|v l IH]; intros x; [exists (esp x), (mm x); by destruct x|].
  destruct (IH (pushl v x)) as (sp & m & Hx). exists sp, m. change (pushls (v :: l) x) with (pushls l (pushl v x)).
  by rewrite Hx.
Qed.

(** The registers hold 32 bits, and the segment registers 16. *)
Definition reg32 (v : Z) : Prop := 0 ≤ v < 2 ^ 32.
Definition sel16 (v : Z) : Prop := 0 ≤ v < 2 ^ 16.
Record regs_ok (x : mach) : Prop := {
  ok_gen : reg32 (eax x) ∧ reg32 (ecx x) ∧ reg32 (edx x) ∧ reg32 (ebx x) ∧ reg32 (esp x) ∧ reg32 (ebp x) ∧ reg32 (esi x) ∧ reg32 (edi x);
  ok_ip : reg32 (eip x) ∧ reg32 (eflags x);
  ok_seg : sel16 (ds x) ∧ sel16 (es x) ∧ sel16 (fs x) ∧ sel16 (gs x) ∧ sel16 (cs x) ∧ sel16 (ss x);
}.

(** [struct trapframe] for a trap from [x], as words; [o] is the useless esp of [pushal]. *)
Definition trapframe_words (x : mach) (i e o : Z) : list Z :=
  [edi x; esi x; ebp x; o; ebx x; edx x; ecx x; eax x; gs x; fs x; es x; ds x; i; e; eip x; cs x; eflags x; esp x; ss x].

(** With the frame on the stack. *)
Definition entered (i e : Z) (n : entry) (x : mach) : mach := save_frame (vector i (trap_in i e n x)).

Lemma entered_pushes i e n x :
  ∃ o, entered i e n x = kernel_segs (pushls (reverse (trapframe_words x i (if has_err i then e else 0) o))
    (set_stack (n_esp n) (mm x) (set_ip (n_eip n) (n_cs n) (eflags x) (n_ss n) x))).
Proof.
  unfold entered, vector, trap_in. set (b := set_stack (n_esp n) _ _).
  assert (∀ l, ∃ o, save_frame (pushls l b) = kernel_segs
    (pushls (l ++ [ds x; es x; fs x; gs x; eax x; ecx x; edx x; ebx x; o; ebp x; esi x; edi x]) b)) as Hall.
  { intros l. eexists. unfold save_frame.
    destruct (pushls_same l b) as (sp & m & Hb). destruct (pushls_same [ds x; es x; fs x; gs x] (pushls l b)) as (sp2 & m2 & Hb2).
    assert (ds (pushls l b) = ds x ∧ es (pushls l b) = es x ∧ fs (pushls l b) = fs x ∧ gs (pushls l b) = gs x) as (-> & -> & -> & ->)
      by (rewrite Hb; done).
    set (y := pushls [ds x; es x; fs x; gs x] (pushls l b)) in *.
    assert (eax y = eax x ∧ ecx y = ecx x ∧ edx y = edx x ∧ ebx y = ebx x ∧ ebp y = ebp x ∧ esi y = esi x ∧ edi y = edi x)
      as (-> & -> & -> & -> & -> & -> & ->) by (rewrite Hb2, Hb; done).
    rewrite (pushls_app l), (pushls_four (ds x)). reflexivity. }
  destruct (has_err i).
  - destruct (Hall [ss x; esp x; eflags x; cs x; eip x; e; i]) as [o Ho]. exists o. exact Ho.
  - destruct (Hall [ss x; esp x; eflags x; cs x; eip x; 0; i]) as [o Ho]. exists o. exact Ho.
Qed.

Lemma movw_low a v : 0 ≤ v < 2 ^ 16 → u16 (Z.lor (Z.land a 0xffff0000) v) = v.
Proof.
  intros Hv. unfold u16. rewrite <-Z.land_ones by lia. rewrite Z.land_lor_distr_l, <-Z.land_assoc.
  change (Z.land 0xffff0000 (Z.ones 16)) with 0. rewrite Z.land_0_r, Z.lor_0_l, Z.land_ones by lia. apply Z.mod_small. lia.
Qed.

Lemma kernel_segs_loaded x :
  let y := kernel_segs x in ds y = 16 ∧ es y = 16 ∧ fs y = 24 ∧ gs y = 24.
Proof. split_and!; (apply (movw_low _ 16) || apply (movw_low _ 24)); lia. Qed.

Lemma kernel_segs_stack x : esp (kernel_segs x) = esp x ∧ mm (kernel_segs x) = mm x.
Proof. done. Qed.

(** The words of the frame. *)
Lemma trap_frame i e n x :
  regs_ok x → 76 ≤ n_esp n < 2 ^ 32 → reg32 i → reg32 e →
  esp (entered i e n x) = n_esp n - 76 ∧
  ∀ k w, k ≠ 3%nat → trapframe_words x i (if has_err i then e else 0) 0 !! k = Some w → word (entered i e n x) (Z.of_nat k) = w.
Proof.
  intros Hx Hn Hi He. destruct (entered_pushes i e n x) as [o ->].
  set (ws := trapframe_words x i (if has_err i then e else 0) o).
  set (b := set_stack (n_esp n) _ _). assert (esp b = n_esp n) as Hb by done. clearbody b.
  destruct (pushls_spec (reverse ws) b) as (H1 & H2 & _ & _); [rewrite length_reverse, Hb; simpl; lia|].
  rewrite length_reverse, Hb in H1. change (length ws) with 19%nat in H1. rewrite Hb in H2.
  assert (esp (kernel_segs (pushls (reverse ws) b)) = n_esp n - 76) as He'
    by (rewrite (proj1 (kernel_segs_stack _)), H1; lia).
  split; [done|]. intros k w Hk Hw. pose proof (lookup_lt_Some _ _ _ Hw) as Hlt. change (length _) with 19%nat in Hlt.
  assert (ws !! k = Some w) as Hw'.
  { unfold ws. do 4 (destruct k as [|k]; [by (done || simpl in Hw |- *)|]). exact Hw. }
  assert (reg32 w) as Hw32.
  { destruct Hx as [(G1 & G2 & G3 & G4 & G5 & G6 & G7 & G8) (G9 & G10) (S1 & S2 & S3 & S4 & S5 & S6)].
    unfold reg32, sel16 in *. unfold ws, trapframe_words in Hw'. apply list_elem_of_lookup_2 in Hw.
    unfold trapframe_words in Hw. destruct (has_err i); set_unfold in Hw; destruct_or! Hw; subst; lia. }
  unfold word. rewrite He', (proj2 (kernel_segs_stack _)).
  rewrite <-(u32_small w) by apply Hw32. rewrite <-(H2 (18 - k)%nat w).
  - f_equal. lia.
  - rewrite reverse_lookup by (change (length ws) with 19%nat; lia). change (length ws) with 19%nat.
    by replace (19 - S (18 - k))%nat with k by lia.
Qed.

(** The registers of user mode. *)
Definition user_regs (x : mach) : list Z :=
  [edi x; esi x; ebp x; ebx x; edx x; ecx x; eax x; gs x; fs x; es x; ds x; eip x; cs x; eflags x; esp x; ss x].

Lemma half_word m a : half m a = u16 (load32 m a).
Proof.
  unfold half, load32, u16. rewrite <-(Z.mod_add _ (m (a + 2) + m (a + 3) * 2 ^ 8) (2 ^ 16)) by lia. f_equal. lia.
Qed.

(** The registers of user mode in a frame. *)
Definition frame_regs (f : trapframe) : list Z :=
  [Proc.edi f; Proc.esi f; Proc.ebp f; Proc.ebx f; Proc.edx f; Proc.ecx f; Proc.eax f; Proc.gs f; Proc.fs f; Proc.es f; Proc.ds f;
   Proc.eip f; Proc.cs f; Proc.eflags f; Proc.esp f; Proc.ss f].

(** [trapret] and [iret] load the frame on top of the stack, for a stack below 4 GB. *)
Lemma trapret_loads z :
  0 ≤ esp z → esp z + 76 < 2 ^ 32 → user_regs (iret (trapret z)) = frame_regs (trapframe_at (mm z) (esp z)).
Proof.
  intros H0 H1. unfold trapret, iret, user_regs, word, drop_words, frame_regs, trapframe_at. cbn -[Z.add Z.mul u32 u16 load32 half].
  rewrite (u32_small (esp z + 4 * 8)) by lia. rewrite (u32_small (esp z + 4 * 8 + 4 * 4)) by lia.
  rewrite (u32_small (esp z + 4 * 8 + 4 * 4 + 4 * 2)) by lia. rewrite !half_word.
  repeat apply (f_equal2 cons); first [reflexivity|f_equal; lia|f_equal; f_equal; lia].
Qed.

(** The frame of a trap from [x]; [o] is the useless esp of [pushal]. *)
Definition frame_of (x : mach) (i e o : Z) : trapframe :=
  Trapframe (edi x) (esi x) (ebp x) o (ebx x) (edx x) (ecx x) (eax x) (gs x) (fs x) (es x) (ds x) i e (eip x) (cs x) (eflags x) (esp x) (ss x).

Lemma frame_of_words m a x i e o :
  regs_ok x → (∀ k w, k ≠ 3%nat → trapframe_words x i e 0 !! k = Some w → load32 m (a + 4 * Z.of_nat k) = w) →
  load32 m (a + 12) = o → trapframe_at m a = frame_of x i e o.
Proof.
  intros [_ _ (S1 & S2 & S3 & S4 & S5 & S6)] Hw <-.
  assert (∀ v, sel16 v → u16 v = v) as Hs by (intros v Hv; unfold u16, sel16 in *; apply Z.mod_small; lia).
  pose proof (Hw 0%nat _ ltac:(lia) eq_refl) as W0. rewrite Z.mul_0_r, Z.add_0_r in W0.
  assert (∀ (k : nat) d w, k ≠ 3%nat → d = 4 * Z.of_nat k → trapframe_words x i e 0 !! k = Some w → load32 m (a + d) = w) as Hk
    by (intros k d w H3 ->; by apply Hw).
  unfold trapframe_at, frame_of. rewrite !half_word, W0.
  rewrite (Hk 1%nat 4 (esi x)), (Hk 2%nat 8 (ebp x)), (Hk 4%nat 16 (ebx x)), (Hk 5%nat 20 (edx x)), (Hk 6%nat 24 (ecx x)),
    (Hk 7%nat 28 (eax x)), (Hk 8%nat 32 (gs x)), (Hk 9%nat 36 (fs x)), (Hk 10%nat 40 (es x)), (Hk 11%nat 44 (ds x)),
    (Hk 12%nat 48 i), (Hk 13%nat 52 e), (Hk 14%nat 56 (eip x)), (Hk 15%nat 60 (cs x)), (Hk 16%nat 64 (eflags x)),
    (Hk 17%nat 68 (esp x)), (Hk 18%nat 72 (ss x)) by (done || lia).
  by rewrite !Hs.
Qed.

(** The call: the argument is the address of the frame. *)
Lemma call_trap_pushes f ret s :
  let y := call_trap f ret s in
  esp y = u32 (u32 (esp s - 4) - 4) ∧ mm y = store32 (store32 (mm s) (u32 (esp s - 4)) (esp s)) (u32 (u32 (esp s - 4) - 4)) ret ∧
  eip y = f ∧ [ds y; es y; fs y; gs y] = [ds s; es s; fs s; gs s].
Proof. done. Qed.

Lemma save_frame_segs w : [ds (save_frame w); es (save_frame w); fs (save_frame w); gs (save_frame w)] = [16; 16; 24; 24].
Proof.
  unfold save_frame. cbv zeta. generalize (pushls [ds w; es w; fs w; gs w] w). intros x.
  generalize (pushls [eax x; ecx x; edx x; ebx x; esp x; ebp x; esi x; edi x] x). intros y.
  destruct (kernel_segs_loaded y) as (-> & -> & -> & ->). done.
Qed.

(** C15: the assembly saves and restores the registers of user mode. At a trap, [trap]
    is called on the kernel's segments with a pointer to a [struct trapframe], in the
    layout of x86.h, that holds every register of the process, the number of the trap
    and its error code (0 if the processor gives none). When [trap] returns, to the
    instruction after the call, the process goes on with exactly the registers that
    the structure then holds: all of its own, if [trap] left it alone. *)
Theorem trap_saves_registers f ret i e n x :
  regs_ok x → 84 ≤ n_esp n < 2 ^ 32 → reg32 i → reg32 e → reg32 ret →
  let y := alltraps f ret (vector i (trap_in i e n x)) in
  let tf := word y 1 in
  eip y = f ∧ word y 0 = ret ∧ [ds y; es y; fs y; gs y] = [16; 16; 24; 24] ∧
  (∃ o, trapframe_at (mm y) tf = frame_of x i (if has_err i then e else 0) o) ∧
  frame_regs (trapframe_at (mm y) tf) = user_regs x ∧
  ∀ z, esp z = esp y + 4 → user_regs (iret (trapret (drop_words 1 z))) = frame_regs (trapframe_at (mm z) tf).
Proof.
  intros Hx Hn Hi He Hret y tf. destruct (trap_frame i e n x Hx ltac:(lia) Hi He) as [Hesp Hf].
  set (s := entered i e n x) in *. unfold reg32 in *.
  assert (u32 (esp s - 4) = esp s - 4) as U1 by (apply u32_small; lia).
  assert (u32 (esp s - 4 - 4) = esp s - 8) as U2 by (rewrite u32_small; lia).
  assert ([ds s; es s; fs s; gs s] = [16; 16; 24; 24]) as Hss by apply save_frame_segs.
  destruct (call_trap_pushes f ret s) as (Hy & Hm & Hip & Hseg). rewrite Hss in Hseg.
  change (call_trap f ret s) with y in Hy, Hm, Hip, Hseg. rewrite U1, U2 in Hy, Hm. clearbody y s.
  assert (tf = esp s) as Htf.
  { unfold tf, word. rewrite Hy, Hm, load32_store32_ne by lia. replace (esp s - 8 + 4 * 1) with (esp s - 4) by lia.
    rewrite load_store32. apply u32_small. lia. }
  assert (trapframe_at (mm y) tf = frame_of x i (if has_err i then e else 0) (load32 (mm y) (tf + 12))) as Hfr.
  { apply frame_of_words; [done| |done]. intros k w Hk Hl. rewrite <-(Hf k w Hk Hl), Htf, Hm. unfold word.
    by rewrite !load32_store32_ne by lia. }
  split_and!.
  - exact Hip.
  - unfold word. rewrite Hy, Hm, Z.mul_0_r, Z.add_0_r, load_store32. by apply u32_small.
  - exact Hseg.
  - eauto.
  - by rewrite Hfr.
  - intros z Hz. assert (esp (drop_words 1 z) = tf) as Hd by (unfold drop_words; cbn [esp set_stack]; rewrite Hz, Hy, u32_small; lia).
    rewrite trapret_loads by (rewrite Hd; lia). by rewrite Hd.
Qed.

(** ** Context switches *)

(** The [struct context] at an address: the registers saved, and where to go on. *)
Definition context_at (m : mem) (p : Z) : list Z :=
  [load32 m p; load32 m (p + 4); load32 m (p + 8); load32 m (p + 12); load32 m (p + 16)].

(** What [swtch] leaves: the old context below the return address, a pointer to it at
    [old], and the registers of the new one. *)
Lemma swtch_spec x :
  regs_ok x → 16 ≤ esp x < 2 ^ 32 →
  let old := word x 1 in let new := word x 2 in
  0 ≤ new < 2 ^ 32 - 20 →
  (old + 4 ≤ esp x - 16 ∨ esp x + 4 ≤ old) → (old + 4 ≤ new ∨ new + 20 ≤ old) → (new + 20 ≤ esp x - 16 ∨ esp x ≤ new) →
  let y := swtch x in
  load32 (mm y) old = esp x - 16 ∧ context_at (mm y) (esp x - 16) = [edi x; esi x; ebx x; ebp x; word x 0] ∧
  [edi y; esi y; ebx y; ebp y; eip y] = context_at (mm x) new ∧ esp y = new + 20.
Proof.
  intros Hx Hsp old new Hnew D1 D2 D3 y.
  set (x1 := set_general old (ecx x) new (ebx x) (ebp x) (esi x) (edi x) x).
  destruct (pushls_spec [ebp x; ebx x; esi x; edi x] x1) as (H1 & H2 & H3 & sp & m & H4); [simpl; lia|].
  change (esp x1) with (esp x) in H1, H2, H3. change (mm x1) with (mm x) in H3.
  cbn [length] in H1, H3. set (x2 := pushls [ebp x; ebx x; esi x; edi x] x1) in *.
  assert (y = (let x := set_stack (esp x2) (store32 (mm x2) old (esp x2)) x2 in
    let x := set_stack new (mm x) x in
    let x := drop_words 4 (set_general (eax x) (ecx x) (edx x) (word x 2) (word x 3) (word x 1) (word x 0) x) in
    drop_words 1 (set_ip (word x 0) (cs x) (eflags x) (ss x) x))) as Hy.
  { unfold y, swtch. fold old new. fold x1. change (pushls _ x1) with x2. rewrite H4. reflexivity. }
  assert (mm y = store32 (mm x2) old (esp x2)) as Hmm by (by rewrite Hy).
  destruct Hx as [(G1 & G2 & G3 & G4 & G5 & G6 & G7 & G8) _ _]. unfold reg32 in *.
  assert (∀ a, esp x - 16 ≤ a → a + 4 ≤ esp x + 4 → load32 (mm y) a = load32 (mm x2) a) as Hst.
  { intros a Ha Hb. rewrite Hmm. apply load32_store32_ne. lia. }
  assert (∀ a, new ≤ a → a + 4 ≤ new + 20 → load32 (mm y) a = load32 (mm x) a) as Hnw.
  { intros a Ha Hb. rewrite Hmm, load32_store32_ne by lia. apply H3. lia. }
  split_and!.
  - rewrite Hmm, load_store32, H1. apply u32_small. lia.
  - unfold context_at. rewrite !Hst by lia. repeat apply (f_equal2 cons); [| | | | |done].
    + rewrite <-(u32_small (edi x)) by lia. rewrite <-(H2 3%nat (edi x)) by done. f_equal; lia.
    + rewrite <-(u32_small (esi x)) by lia. rewrite <-(H2 2%nat (esi x)) by done. f_equal; lia.
    + rewrite <-(u32_small (ebx x)) by lia. rewrite <-(H2 1%nat (ebx x)) by done. f_equal; lia.
    + rewrite <-(u32_small (ebp x)) by lia. rewrite <-(H2 0%nat (ebp x)) by done. f_equal; lia.
    + unfold word. rewrite H3 by lia. f_equal; lia.
  - unfold context_at. rewrite <-!Hnw by lia. rewrite Hmm, Hy. unfold word, drop_words.
    cbn -[Z.add Z.mul u32 load32 store32]. rewrite (u32_small (new + 4 * 4)) by lia.
    repeat apply (f_equal2 cons); first [reflexivity|f_equal; lia].
  - rewrite Hy. unfold drop_words. cbn -[Z.add Z.mul u32 load32 store32].
    rewrite (u32_small (new + 4 * 4)), u32_small by lia. lia.
Qed.

(** C16: a process that gives up the CPU in [swtch] goes on where it was. If the
    context that [swtch] saved for [x] is still in memory when a later [swtch], called
    by [z], is given the pointer it stored, then that call returns to where the first
    was to return, with the stack and the registers a C function keeps. *)
Theorem swtch_resumes x z :
  regs_ok x → regs_ok z → 16 ≤ esp x < 2 ^ 32 - 4 → 16 ≤ esp z < 2 ^ 32 →
  0 ≤ word x 2 < 2 ^ 32 - 20 →
  (word x 1 + 4 ≤ esp x - 16 ∨ esp x + 4 ≤ word x 1) → (word x 1 + 4 ≤ word x 2 ∨ word x 2 + 20 ≤ word x 1) →
  (word x 2 + 20 ≤ esp x - 16 ∨ esp x ≤ word x 2) →
  (* the saved context is intact, and what [z] stores does not touch it *)
  word z 2 = load32 (mm (swtch x)) (word x 1) →
  context_at (mm z) (word z 2) = context_at (mm (swtch x)) (word z 2) →
  (word z 1 + 4 ≤ esp z - 16 ∨ esp z + 4 ≤ word z 1) → (word z 1 + 4 ≤ word z 2 ∨ word z 2 + 20 ≤ word z 1) →
  (word z 2 + 20 ≤ esp z - 16 ∨ esp z ≤ word z 2) →
  let y := swtch z in
  [edi y; esi y; ebx y; ebp y] = [edi x; esi x; ebx x; ebp x] ∧ eip y = word x 0 ∧ esp y = esp x + 4.
Proof.
  intros Hx Hz Hsx Hsz Hnx D1 D2 D3 Hptr Hctx E1 E2 E3 y.
  destruct (swtch_spec x Hx ltac:(lia) Hnx D1 D2 D3) as (Hold & Hsaved & _). rewrite Hold in Hptr.
  destruct (swtch_spec z Hz ltac:(lia) ltac:(lia) E1 E2 E3) as (_ & _ & Hregs & Hesp). fold y in Hregs, Hesp.
  rewrite Hctx, Hptr, Hsaved in Hregs. clearbody y. injection Hregs as -> -> -> -> ->. split; [done|]. split; [done|]. lia.
Qed.

(** ** Examples *)

Definition demo_mach : mach :=
  Mach 1 2 3 4 12272 5 6 7 43 43 0 0 4096 35 514 43 (λ _, 0).
Definition demo_entry : entry := Entry 8 2148536832 16 2413821952 true.

(** A system call, and the registers of the process if [trap] sets [tf->eax] to 9. *)
Definition demo_call : mach := alltraps 2148540000 2148540100 (vector 64 (trap_in 64 0 demo_entry demo_mach)).
Definition demo_returned : mach :=
  let y := drop_words 1 demo_call in set_stack (esp y) (store32 (mm y) (word demo_call 1 + 28) 9) y.

Lemma trap_saves_registers_witness :
  frame_regs (trapframe_at (mm demo_call) (word demo_call 1)) = user_regs demo_mach ∧
  user_regs (iret (trapret (drop_words 1 demo_returned))) = [7; 6; 5; 4; 3; 2; 9; 0; 0; 43; 43; 4096; 35; 514; 12272; 43].
Proof.
  destruct (trap_saves_registers 2148540000 2148540100 64 0 demo_entry demo_mach) as (_ & _ & _ & _ & Hf & Hr).
  - split; unfold reg32, sel16; simpl; lia.
  - simpl. lia.
  - unfold reg32. lia.
  - unfold reg32. lia.
  - unfold reg32. lia.
  - split; [exact Hf|]. etransitivity; [apply (Hr demo_returned); vm_compute; reflexivity|]. vm_compute. reflexivity.
Defined.

(** A function that runs on a stack at 1000 switches to the context at 3000, and is
    switched back to from a stack at 3100. *)
Definition demo_from : mach :=
  Mach 0 0 0 4 1000 5 6 7 16 16 24 24 0 8 2 16 (store32 (store32 (store32 (λ _, 0) 1000 777) 1004 2000) 1008 3000).
Definition demo_back_to : mach :=
  Mach 0 0 0 0 3100 0 0 0 16 16 24 24 0 8 2 16
    (store32 (store32 (mm (swtch demo_from)) 3104 2100) 3108 984).

Lemma swtch_resumes_witness :
  [edi (swtch demo_back_to); esi (swtch demo_back_to); ebx (swtch demo_back_to); ebp (swtch demo_back_to)] = [7; 6; 4; 5] ∧
  eip (swtch demo_back_to) = 777 ∧ esp (swtch demo_back_to) = 1004.
Proof.
  assert (word demo_from 0 = 777 ∧ word demo_from 1 = 2000 ∧ word demo_from 2 = 3000) as (W0 & W1 & W2) by (vm_compute; auto).
  assert (word demo_back_to 1 = 2100 ∧ word demo_back_to 2 = 984) as (V1 & V2) by (vm_compute; auto).
  rewrite <-W0. apply (swtch_resumes demo_from demo_back_to); rewrite ?W1, ?W2, ?V1, ?V2; simpl; try lia.
  - split; unfold reg32, sel16; simpl; lia.
  - split; unfold reg32, sel16; simpl; lia.
  - vm_compute. reflexivity.
  - vm_compute. reflexivity.
Defined.
