(* ===== verification/Hw.v ===== *)
(** * Interrupt controllers, processors and clocks (picirq.c, ioapic.c, lapic.c, timer.c, mp.c)

    What these files do to the machine is a sequence of stores to ports and device
    registers; the model keeps the sequences, and HwThm.v says what the devices make
    of them. What a device answers is a parameter. The tables of the BIOS that mp.c
    searches are in memory. *)

From S2P Require Import Prelude CString Kalloc Vm Trap.

Local Open Scope Z_scope.

Definition NCPU : nat := 8.
Definition IRQ_ERROR : Z := 19.

Record hw := HW {
  irqmask : Z;               (* picirq.c *)
  ports : list (Z * Z);      (* outb, in order *)
  iowrites : list (Z * Z);   (* stores to the I/O APIC: offset and value *)
  lapic : Z;                 (* address of the local APIC, 0 for none *)
  lwrites : list (Z * Z);    (* stores to the local APIC: index and value *)
  lreads : nat;              (* loads from it so far *)
  ismp : bool;
  ncpu : Z;
  ioapicid : Z;
  bcpu : Z;                  (* index in cpus *)
  cpu_id : list Z;           (* cpus[i].id *)
  ncalls : Z;                (* the static n of cpunum *)
  pmem : mem;                (* memory, by kernel addresses *)
  hout : list (string * list Z);
}.

Definition set_irqmask v x := HW v (ports x) (iowrites x) (lapic x) (lwrites x) (lreads x) (ismp x) (ncpu x) (ioapicid x) (bcpu x) (cpu_id x) (ncalls x) (pmem x) (hout x).
Definition set_ports v x := HW (irqmask x) v (iowrites x) (lapic x) (lwrites x) (lreads x) (ismp x) (ncpu x) (ioapicid x) (bcpu x) (cpu_id x) (ncalls x) (pmem x) (hout x).
Definition set_iowrites v x := HW (irqmask x) (ports x) v (lapic x) (lwrites x) (lreads x) (ismp x) (ncpu x) (ioapicid x) (bcpu x) (cpu_id x) (ncalls x) (pmem x) (hout x).
Definition set_lapic v x := HW (irqmask x) (ports x) (iowrites x) v (lwrites x) (lreads x) (ismp x) (ncpu x) (ioapicid x) (bcpu x) (cpu_id x) (ncalls x) (pmem x) (hout x).
Definition set_lwrites v x := HW (irqmask x) (ports x) (iowrites x) (lapic x) v (lreads x) (ismp x) (ncpu x) (ioapicid x) (bcpu x) (cpu_id x) (ncalls x) (pmem x) (hout x).
Definition set_lreads v x := HW (irqmask x) (ports x) (iowrites x) (lapic x) (lwrites x) v (ismp x) (ncpu x) (ioapicid x) (bcpu x) (cpu_id x) (ncalls x) (pmem x) (hout x).
Definition set_ismp v x := HW (irqmask x) (ports x) (iowrites x) (lapic x) (lwrites x) (lreads x) v (ncpu x) (ioapicid x) (bcpu x) (cpu_id x) (ncalls x) (pmem x) (hout x).
Definition set_ncpu v x := HW (irqmask x) (ports x) (iowrites x) (lapic x) (lwrites x) (lreads x) (ismp x) v (ioapicid x) (bcpu x) (cpu_id x) (ncalls x) (pmem x) (hout x).
Definition set_ioapicid v x := HW (irqmask x) (ports x) (iowrites x) (lapic x) (lwrites x) (lreads x) (ismp x) (ncpu x) v (bcpu x) (cpu_id x) (ncalls x) (pmem x) (hout x).
Definition set_bcpu v x := HW (irqmask x) (ports x) (iowrites x) (lapic x) (lwrites x) (lreads x) (ismp x) (ncpu x) (ioapicid x) v (cpu_id x) (ncalls x) (pmem x) (hout x).
Definition set_cpu_id v x := HW (irqmask x) (ports x) (iowrites x) (lapic x) (lwrites x) (lreads x) (ismp x) (ncpu x) (ioapicid x) (bcpu x) v (ncalls x) (pmem x) (hout x).
Definition set_ncalls v x := HW (irqmask x) (ports x) (iowrites x) (lapic x) (lwrites x) (lreads x) (ismp x) (ncpu x) (ioapicid x) (bcpu x) (cpu_id x) v (pmem x) (hout x).
Definition set_pmem v x := HW (irqmask x) (ports x) (iowrites x) (lapic x) (lwrites x) (lreads x) (ismp x) (ncpu x) (ioapicid x) (bcpu x) (cpu_id x) (ncalls x) v (hout x).
Definition set_hout v x := HW (irqmask x) (ports x) (iowrites x) (lapic x) (lwrites x) (lreads x) (ismp x) (ncpu x) (ioapicid x) (bcpu x) (cpu_id x) (ncalls x) (pmem x) v.

Module Hw.
Local Open Scope kern_scope.

(** x86.h: [outb(port, data)], whose data is of 8 bits. *)
Definition outb (p v : Z) : kM hw unit := kmodify (λ x, set_ports (ports x ++ [(p, u8 v)]) x).
Definition cprintf (fmt : string) (args : list Z) : kM hw unit := kmodify (λ x, set_hout (hout x ++ [(fmt, args)]) x).

(** ** 8259A (picirq.c) *)

Definition IO_PIC1 : Z := 32.
Definition IO_PIC2 : Z := 160.
Definition IRQ_SLAVE : Z := 2.
(** The initial value of [irqmask]. *)
Definition irqmask0 : Z := Z.land 65535 (Z.lnot (Z.shiftl 1 IRQ_SLAVE)).

Definition picsetmask (mask : Z) : kM hw unit :=
  kmodify (set_irqmask mask) ;;
  outb (IO_PIC1 + 1) mask ;;
  outb (IO_PIC2 + 1) (Z.shiftr mask 8).

Definition picenable (irq : Z) : kM hw unit :=
  x ← kget;
  picsetmask (u16 (Z.land (irqmask x) (Z.lnot (Z.shiftl 1 irq)))).

Definition picinit : kM hw unit :=
  outb (IO_PIC1 + 1) 255 ;;
  outb (IO_PIC2 + 1) 255 ;;
  outb IO_PIC1 17 ;;
  outb (IO_PIC1 + 1) T_IRQ0 ;;
  outb (IO_PIC1 + 1) (Z.shiftl 1 IRQ_SLAVE) ;;
  outb (IO_PIC1 + 1) 3 ;;
  outb IO_PIC2 17 ;;
  outb (IO_PIC2 + 1) (T_IRQ0 + 8) ;;
  outb (IO_PIC2 + 1) IRQ_SLAVE ;;
  outb (IO_PIC2 + 1) 3 ;;
  outb IO_PIC1 104 ;;
  outb IO_PIC1 10 ;;
  outb IO_PIC2 104 ;;
  outb IO_PIC2 10 ;;
  x ← kget;
  kwhen (bool_decide (irqmask x ≠ 65535)) (picsetmask (irqmask x)).

(** ** Interval timer (timer.c) *)

Definition IO_TIMER1 : Z := 64.
Definition TIMER_FREQ : Z := 1193182.
Definition TIMER_DIV (x : Z) : Z := (TIMER_FREQ + x / 2) / x.
Definition TIMER_MODE : Z := IO_TIMER1 + 3.
Definition TIMER_SEL0 : Z := 0.
Definition TIMER_RATEGEN : Z := 4.
Definition TIMER_16BIT : Z := 48.

Definition timerinit : kM hw unit :=
  outb TIMER_MODE (Z.lor (Z.lor TIMER_SEL0 TIMER_RATEGEN) TIMER_16BIT) ;;
  outb IO_TIMER1 (TIMER_DIV 100 mod 256) ;;
  outb IO_TIMER1 (TIMER_DIV 100 / 256) ;;
  picenable IRQ_TIMER.

(** ** I/O APIC (ioapic.c) *)

Definition REG_ID : Z := 0.
Definition REG_VER : Z := 1.
Definition REG_TABLE : Z := 16.
Definition INT_DISABLED : Z := 65536.

(** Offsets of [reg] and [data] in [struct ioapic]. *)
Definition io_reg : Z := 0.
Definition io_data : Z := 16.
Definition iostore (off v : Z) : kM hw unit := kmodify (λ x, set_iowrites (iowrites x ++ [(off, u32 v)]) x).

Section ioapic.
(** The word a load of [data] gives, after the stores made so far. *)
Context (io_in : list (Z * Z) → Z).

Definition ioapicread (reg : Z) : kM hw Z :=
  iostore io_reg reg ;;
  x ← kget;
  kret (io_in (iowrites x)).

Definition ioapicwrite (reg data : Z) : kM hw unit :=
  iostore io_reg reg ;;
  iostore io_data data.

Definition ioapicinit : kM hw unit :=
  x ← kget;
  if negb (ismp x) then kret tt
  else
    ver ← ioapicread REG_VER;
    let maxintr := Z.land (Z.shiftr ver 16) 255 in
    r ← ioapicread REG_ID;
    let id := Z.shiftr r 24 in
    kwhen (bool_decide (id ≠ ioapicid x)) (cprintf "ioapicinit: id isn't equal to ioapicid; not a MP\n" []) ;;
    kfor (seqZ 0 (maxintr + 1)) (λ i,
      ioapicwrite (REG_TABLE + 2 * i) (Z.lor INT_DISABLED (T_IRQ0 + i)) ;;
      ioapicwrite (REG_TABLE + 2 * i + 1) 0).
End ioapic.

Definition ioapicenable (irq cpunum : Z) : kM hw unit :=
  x ← kget;
  if negb (ismp x) then kret tt
  else
    ioapicwrite (REG_TABLE + 2 * irq) (T_IRQ0 + irq) ;;
    ioapicwrite (REG_TABLE + 2 * irq + 1) (Z.shiftl cpunum 24).

(** ** Local APIC (lapic.c) *)

Definition ID : Z := 32 / 4.
Definition VER : Z := 48 / 4.
Definition TPR : Z := 128 / 4.
Definition EOI : Z := 176 / 4.
Definition SVR : Z := 240 / 4.
Definition ENABLE : Z := 256.
Definition ESR : Z := 640 / 4.
Definition ICRLO : Z := 768 / 4.
Definition INIT : Z := 1280.
Definition STARTUP : Z := 1536.
Definition DELIVS : Z := 4096.
Definition ASSERT : Z := 16384.
Definition LEVEL : Z := 32768.
Definition BCAST : Z := 524288.
Definition ICRHI : Z := 784 / 4.
Definition TIMER : Z := 800 / 4.
Definition X1 : Z := 11.
Definition PERIODIC : Z := 131072.
Definition PCINT : Z := 832 / 4.
Definition LINT0 : Z := 848 / 4.
Definition LINT1 : Z := 864 / 4.
Definition ERROR : Z := 880 / 4.
Definition MASKED : Z := 65536.
Definition TICR : Z := 896 / 4.
Definition TDCR : Z := 992 / 4.

Section lapic.
(** The [n]-th load from the local APIC, of the register with an index. *)
Context (l_in : nat → Z → Z).

Definition lload (index : Z) : kM hw Z :=
  x ← kget;
  if bool_decide (lapic x = 0) then kfault
  else kput (set_lreads (S (lreads x)) x) ;; kret (l_in (lreads x) index).

Definition lapicw (index value : Z) : kM hw unit :=
  x ← kget;
  if bool_decide (lapic x = 0) then kfault
  else kput (set_lwrites (lwrites x ++ [(index, u32 value)]) x) ;; lload ID ;; kret tt.

(** [while(lapic[ICRLO] & DELIVS);]: whether it ends within [fuel] loads. *)
Fixpoint wait_delivs (fuel : nat) : kM hw bool :=
  match fuel with
  | O => kret false
  | S fuel => r ← lload ICRLO; if bool_decide (Z.land r DELIVS = 0) then kret true else wait_delivs fuel
  end.

(** [true] if [lapicinit] returns. *)
Definition lapicinit (fuel : nat) : kM hw bool :=
  x ← kget;
  if bool_decide (lapic x = 0) then kret true
  else
    lapicw SVR (Z.lor ENABLE (T_IRQ0 + IRQ_SPURIOUS)) ;;
    lapicw TDCR X1 ;;
    lapicw TIMER (Z.lor PERIODIC (T_IRQ0 + IRQ_TIMER)) ;;
    lapicw TICR 1000000 ;;
    lapicw LINT0 MASKED ;;
    lapicw LINT1 MASKED ;;
    v ← lload VER;
    kwhen (bool_decide (4 ≤ Z.land (Z.shiftr v 16) 255)) (lapicw PCINT MASKED) ;;
    lapicw ERROR (T_IRQ0 + IRQ_ERROR) ;;
    lapicw ESR 0 ;;
    lapicw ESR 0 ;;
    lapicw EOI 0 ;;
    lapicw ICRHI 0 ;;
    lapicw ICRLO (Z.lor (Z.lor BCAST INIT) LEVEL) ;;
    fin ← wait_delivs fuel;
    if fin then lapicw TPR 0 ;; kret true else kret false.

(** [ie]: the interrupt flag of the processor; [ra]: the address of the caller. *)
Definition cpunum (ie : bool) (ra : Z) : kM hw Z :=
  kwhen ie
    (x ← kget;
     kput (set_ncalls (i32 (ncalls x + 1)) x) ;;
     kwhen (bool_decide (ncalls x = 0)) (cprintf "cpu called from %x with interrupts enabled\n" [ra])) ;;
  x ← kget;
  if bool_decide (lapic x = 0) then kret 0
  else r ← lload ID; kret (Z.shiftr r 24).

Definition lapiceoi : kM hw unit :=
  x ← kget; kwhen (bool_decide (lapic x ≠ 0)) (lapicw EOI 0).

Definition microdelay (us : Z) : kM hw unit := kret tt.

Definition CMOS_PORT : Z := 112.

(** [wrv[0] = 0; wrv[1] = addr >> 4;], of 16 bits each. *)
Definition warm_reset (addr : Z) (m : mem) : mem :=
  let wrv := p2v (Z.lor (Z.shiftl 64 4) 103) in
  let w := u16 (Z.shiftr addr 4) in
  let m := store (store m wrv 0) (wrv + 1) 0 in
  store (store m (wrv + 2) w) (wrv + 3) (Z.shiftr w 8).

Definition lapicstartap (apicid addr : Z) : kM hw unit :=
  outb CMOS_PORT 15 ;;
  outb (CMOS_PORT + 1) 10 ;;
  kmodify (λ x, set_pmem (warm_reset addr (pmem x)) x) ;;
  lapicw ICRHI (Z.shiftl apicid 24) ;;
  lapicw ICRLO (Z.lor (Z.lor INIT LEVEL) ASSERT) ;;
  microdelay 200 ;;
  lapicw ICRLO (Z.lor INIT LEVEL) ;;
  microdelay 100 ;;
  kfor (seq 0 2) (λ _,
    lapicw ICRHI (Z.shiftl apicid 24) ;;
    lapicw ICRLO (Z.lor STARTUP (Z.shiftr addr 12)) ;;
    microdelay 200).
End lapic.

(** ** The clock of the CMOS (lapic.c) *)

Definition CMOS_STATA : Z := 10.
Definition CMOS_STATB : Z := 11.
Definition CMOS_UIP : Z := 128.
Definition SECS : Z := 0.
Definition MINS : Z := 2.
Definition HOURS : Z := 4.
Definition DAY : Z := 7.
Definition MONTH : Z := 8.
Definition YEAR : Z := 9.

(** date.h *)
Record rtcdate := Rtcdate { second : Z; minute : Z; hour : Z; day : Z; month : Z; year : Z }.

#[global] Instance rtcdate_eq_dec : EqDecision rtcdate.
Proof. solve_decision. Defined.

Section cmos.
(** The [n]-th reading of the clock, of a register. *)
Context (cmos : nat → Z → Z).

(** The number of readings made so far is threaded through. *)
Definition cmos_read (reg : Z) (n : nat) : Z * nat := (cmos n reg, S n).

Definition fill_rtcdate (n : nat) : rtcdate * nat :=
  let '(s, n) := cmos_read SECS n in
  let '(mi, n) := cmos_read MINS n in
  let '(h, n) := cmos_read HOURS n in
  let '(d, n) := cmos_read DAY n in
  let '(mo, n) := cmos_read MONTH n in
  let '(y, n) := cmos_read YEAR n in
  (Rtcdate s mi h d mo y, n).

(** [for(;;)]: the first date read twice, if it comes within [fuel] rounds. *)
Fixpoint read_twice (fuel n : nat) : option (rtcdate * nat) :=
  match fuel with
  | O => None
  | S fuel =>
    let '(t1, n) := fill_rtcdate n in
    let '(a, n) := cmos_read CMOS_STATA n in
    if bool_decide (Z.land a CMOS_UIP ≠ 0) then read_twice fuel n
    else
      let '(t2, n) := fill_rtcdate n in
      if bool_decide (t1 = t2) then Some (t1, n) else read_twice fuel n
  end.

Definition CONV (x : Z) : Z := u32 (Z.shiftr x 4 * 10) + Z.land x 15.

Definition cmostime (fuel n : nat) : option (rtcdate * nat) :=
  let '(sb, n) := cmos_read CMOS_STATB n in
  let bcd := bool_decide (Z.land sb 4 = 0) in
  match read_twice fuel n with
  | None => None
  | Some (t1, n) =>
    let t1 := if bcd
      then Rtcdate (CONV (second t1)) (CONV (minute t1)) (CONV (hour t1)) (CONV (day t1)) (CONV (month t1)) (CONV (year t1))
      else t1 in
    Some (Rtcdate (second t1) (minute t1) (hour t1) (day t1) (month t1) (u32 (year t1 + 2000)), n)
  end.
End cmos.

(** ** The tables of the BIOS (mp.c) *)

Definition load16 (m : mem) (a : Z) : Z := m a + m (a + 1) * 2 ^ 8.

(** [memcmp(p, lit, n) == 0] for a literal of [n] bytes. *)
Fixpoint matches (m : mem) (p : Z) (lit : list Z) : bool :=
  match lit with [] => true | c :: lit => bool_decide (m p = c) && matches m (p + 1) lit end.

Definition sum_loop (m : mem) (addr : Z) (n : nat) : Z := foldr (λ k s, m (addr + Z.of_nat k) + s) 0 (seq 0 n).
(** The sum is cut to 8 bits when it is returned. *)
Definition sum (m : mem) (addr len : Z) : Z := u8 (sum_loop m addr (Z.to_nat len)).

Definition sizeof_mp : Z := 16.
Definition mp_physaddr (m : mem) (p : Z) : Z := load32 m (p + 4).
Definition mp_imcrp (m : mem) (p : Z) : Z := m (p + 12).
Definition sizeof_mpconf : Z := 44.
Definition conf_length (m : mem) (p : Z) : Z := load16 m (p + 4).
Definition conf_version (m : mem) (p : Z) : Z := m (p + 6).
Definition conf_lapicaddr (m : mem) (p : Z) : Z := load32 m (p + 36).
Definition sizeof_mpproc : Z := 20.
Definition proc_apicid (m : mem) (p : Z) : Z := m (p + 1).
Definition proc_flags (m : mem) (p : Z) : Z := m (p + 3).
Definition MPBOOT : Z := 2.
Definition sizeof_mpioapic : Z := 8.
Definition ioapic_apicno (m : mem) (p : Z) : Z := m (p + 1).
Definition MPPROC : Z := 0.
Definition MPBUS : Z := 1.
Definition MPIOAPIC : Z := 2.
Definition MPIOINTR : Z := 3.
Definition MPLINTR : Z := 4.

(** ["_MP_"] and ["PCMP"]. *)
Definition sig_mp : list Z := [95; 77; 80; 95].
Definition sig_pcmp : list Z := [80; 67; 77; 80].

Fixpoint mpsearch_loop (m : mem) (fuel : nat) (p e : Z) : option Z :=
  match fuel with
  | O => None
  | S fuel =>
    if bool_decide (p < e) then
      if matches m p sig_mp && bool_decide (sum m p sizeof_mp = 0) then Some p
      else mpsearch_loop m fuel (u32 (p + sizeof_mp)) e
    else None
  end.

(** The loop makes at most [len / 16] rounds, rounded up. *)
Definition mpsearch1 (m : mem) (a len : Z) : option Z :=
  let addr := p2v a in
  mpsearch_loop m (S (Z.to_nat (len / sizeof_mp))) addr (u32 (addr + len)).

Definition mpsearch (m : mem) : option Z :=
  let bda := p2v 1024 in
  let p := Z.shiftl (Z.lor (Z.shiftl (m (bda + 15)) 8) (m (bda + 14))) 4 in
  let first := if bool_decide (p ≠ 0) then mpsearch1 m p 1024
    else mpsearch1 m (u32 (Z.lor (Z.shiftl (m (bda + 20)) 8) (m (bda + 19)) * 1024 - 1024)) 1024 in
  match first with Some mp => Some mp | None => mpsearch1 m 983040 65536 end.

(** The floating pointer and the configuration table. *)
Definition mpconfig (m : mem) : option (Z * Z) :=
  match mpsearch m with
  | None => None
  | Some mp =>
    if bool_decide (mp_physaddr m mp = 0) then None
    else
    let conf := p2v (mp_physaddr m mp) in
    if negb (matches m conf sig_pcmp) then None
    else if bool_decide (conf_version m conf ≠ 1) && bool_decide (conf_version m conf ≠ 4) then None
    else if bool_decide (sum m conf (conf_length m conf) ≠ 0) then None
    else Some (mp, conf)
  end.

(** The entry at [p]: the address of the next one. *)
Definition mpentry (p : Z) : kM hw Z :=
  x ← kget;
  let m := pmem x in
  if bool_decide (m p = MPPROC) then
    kwhen (bool_decide (ncpu x ≠ proc_apicid m p))
      (cprintf "mpinit: ncpu=%d apicid=%d\n" [ncpu x; proc_apicid m p] ;; kmodify (set_ismp false)) ;;
    kwhen (bool_decide (Z.land (proc_flags m p) MPBOOT ≠ 0)) (kmodify (set_bcpu (ncpu x))) ;;
    (if bool_decide (ncpu x < Z.of_nat NCPU) then kmodify (λ x, set_cpu_id (<[Z.to_nat (ncpu x) := u8 (ncpu x)]> (cpu_id x)) x) else kfault) ;;
    kmodify (set_ncpu (ncpu x + 1)) ;;
    kret (p + sizeof_mpproc)
  else if bool_decide (m p = MPIOAPIC) then
    kmodify (set_ioapicid (ioapic_apicno m p)) ;;
    kret (p + sizeof_mpioapic)
  else if bool_decide (m p = MPBUS) || bool_decide (m p = MPIOINTR) || bool_decide (m p = MPLINTR) then
    kret (p + 8)
  else
    cprintf "mpinit: unknown config type %x\n" [m p] ;;
    kmodify (set_ismp false) ;;
    kret p.

(** The loop over the entries: whether it ends within [fuel] rounds. *)
Fixpoint mploop (fuel : nat) (p e : Z) : kM hw bool :=
  if bool_decide (p < e) then
    match fuel with
    | O => kret false
    | S fuel => p ← mpentry p; mploop fuel p e
    end
  else kret true.

Section mpinit.
(** What port 0x23 gives. *)
Context (imcr : Z).

(** [true] if [mpinit] returns. *)
Definition mpinit (fuel : nat) : kM hw bool :=
  kmodify (set_bcpu 0) ;;
  x ← kget;
  match mpconfig (pmem x) with
  | None => kret true
  | Some (mp, conf) =>
    kmodify (set_ismp true) ;;
    kmodify (set_lapic (conf_lapicaddr (pmem x) conf)) ;;
    fin ← mploop fuel (conf + sizeof_mpconf) (conf + conf_length (pmem x) conf);
    if negb fin then kret false
    else
      x ← kget;
      if negb (ismp x) then
        kmodify (set_ncpu 1) ;; kmodify (set_lapic 0) ;; kmodify (set_ioapicid 0) ;; kret true
      else
        kwhen (bool_decide (mp_imcrp (pmem x) mp ≠ 0))
          (outb 34 112 ;; outb 35 (Z.lor imcr 1)) ;;
        kret true
  end.
End mpinit.

Definition mpbcpu : kM hw Z := kgets bcpu.
End Hw.
