(* ===== verification/HwThm.v ===== *)
(** * Theorems on interrupt controllers, processors and clocks

    What the devices make of the stores of Hw.v. The 8259A and the I/O APIC are
    given by their data sheets as functions of the stores they received; the
    tables of the BIOS by the entries they spell. *)

From S2P Require Import Prelude CString Kalloc Vm Trap Hw.
Import Hw.

Local Open Scope Z_scope.

(** ** The 8259A *)

(** Where a chip is in its initialisation (0: it is done), the vector of its first
    line, how it is cascaded, and its mask. *)
Record chip := Chip { stage : nat; vec : Z; cascade : Z; imask : Z }.
Definition chip0 : chip := Chip 0 0 0 0.

(** A store to the command port [base] or the data port [base + 1]. *)
Definition chip_out (base : Z) (c : chip) (w : Z * Z) : chip :=
  let '(p, v) := w in
  if bool_decide (p = base) then
    (if Z.testbit v 4 then Chip 1 (vec c) (cascade c) 0 else c)
  else if bool_decide (p = base + 1) then
    match stage c with
    | 1%nat => Chip 2 (Z.land v 248) (cascade c) (imask c)
    | 2%nat => Chip 3 (vec c) v (imask c)
    | 3%nat => Chip 0 (vec c) (cascade c) (imask c)
    | _ => Chip 0 (vec c) (cascade c) v
    end
  else c.
Definition chip_of (base : Z) (log : list (Z * Z)) : chip := foldl (chip_out base) chip0 log.

(** The vector with which line [irq] reaches the processor, if it does. *)
Definition pic_vector (log : list (Z * Z)) (irq : Z) : option Z :=
  let m := chip_of IO_PIC1 log in
  let s := chip_of IO_PIC2 log in
  if bool_decide (irq < 8) then
    if bool_decide (stage m = 0%nat) && negb (Z.testbit (imask m) irq) then Some (vec m + irq) else None
  else
    if bool_decide (stage m = 0%nat) && bool_decide (stage s = 0%nat) && negb (Z.testbit (imask m) (cascade s))
      && Z.testbit (cascade m) (cascade s) && negb (Z.testbit (imask s) (irq - 8))
    then Some (vec s + (irq - 8)) else None.

(** The two chips are set up and hold [irqmask]. *)
Definition pic_ready (x : hw) : Prop :=
  0 ≤ irqmask x < 2 ^ 16 ∧
  chip_of IO_PIC1 (ports x) = Chip 0 T_IRQ0 4 (u8 (irqmask x)) ∧
  chip_of IO_PIC2 (ports x) = Chip 0 (T_IRQ0 + 8) 2 (u8 (Z.shiftr (irqmask x) 8)).

Lemma chip_of_app base l l' : chip_of base (l ++ l') = foldl (chip_out base) (chip_of base l) l'.
Proof. apply foldl_app. Qed.

Lemma picsetmask_ready mask x c1 c2 :
  0 ≤ mask < 2 ^ 16 → chip_of IO_PIC1 (ports x) = Chip 0 T_IRQ0 4 c1 →
  chip_of IO_PIC2 (ports x) = Chip 0 (T_IRQ0 + 8) 2 c2 →
  wp (picsetmask mask) x (λ _ x', pic_ready x' ∧ irqmask x' = mask ∧ iowrites x' = iowrites x ∧ ismp x' = ismp x).
Proof.
  intros Hm H1 H2. unfold picsetmask, outb. apply wp_bind, wp_modify, wp_bind, wp_modify, wp_modify.
  unfold pic_ready. simpl. rewrite <-app_assoc, !chip_of_app, H1, H2. done.
Qed.

Lemma picinit_ready x :
  0 ≤ irqmask x < 65535 →
  wp picinit x (λ _ x', pic_ready x' ∧ irqmask x' = irqmask x ∧ iowrites x' = iowrites x ∧ ismp x' = ismp x).
Proof.
  intros Hm. unfold picinit. do 14 (apply wp_bind; unfold outb at 1; apply wp_modify).
  apply wp_bind, wp_get. simpl. rewrite bool_decide_true by lia.
  eapply wp_mono; [apply (picsetmask_ready _ _ 0 0); simpl; [lia|..]|].
  - rewrite !chip_of_app. destruct (chip_of IO_PIC1 (ports x)). reflexivity.
  - rewrite !chip_of_app. destruct (chip_of IO_PIC2 (ports x)). reflexivity.
  - done.
Qed.

(** One line more is let through. *)
Lemma picenable_ready irq x :
  0 ≤ irq < 16 → pic_ready x →
  wp (picenable irq) x (λ _ x', pic_ready x' ∧ iowrites x' = iowrites x ∧ ismp x' = ismp x ∧
    ∀ i, 0 ≤ i < 16 → Z.testbit (irqmask x') i = Z.testbit (irqmask x) i && negb (bool_decide (i = irq))).
Proof.
  intros Hi (Hm & H1 & H2). unfold picenable. apply wp_bind, wp_get.
  eapply wp_mono; [by apply (picsetmask_ready _ _ _ _ ltac:(unfold u16; apply Z.mod_pos_bound; lia) H1 H2)|].
  intros [] x' (Hr & -> & ? & ?). split_and!; [done..|]. intros i Hi'. unfold u16.
  rewrite Z.mod_pow2_bits_low, Z.land_spec, Z.lnot_spec by lia. f_equal. f_equal.
  rewrite Z.shiftl_1_l, Z.pow2_bits_eqb by lia. case_bool_decide; [|by apply Z.eqb_neq]. subst. apply Z.eqb_refl.
Qed.

Lemma pic_vector_ready x irq :
  pic_ready x → Z.testbit (irqmask x) 2 = false → 0 ≤ irq < 16 →
  pic_vector (ports x) irq = if Z.testbit (irqmask x) irq then None else Some (T_IRQ0 + irq).
Proof.
  intros (_ & H1 & H2) Hc Hi. unfold pic_vector. rewrite H1, H2. cbn [stage vec cascade imask].
  rewrite (bool_decide_true (0%nat = 0%nat)) by done. case_bool_decide as H8.
  - rewrite testbit_u8 by lia. by destruct (Z.testbit (irqmask x) irq).
  - rewrite (testbit_u8 (irqmask x) 2), Hc by lia. change (Z.testbit 4 2) with true. cbn [negb andb]. rewrite testbit_u8, Z.shiftr_spec by lia.
    replace (irq - 8 + 8) with irq by lia. destruct (Z.testbit (irqmask x) irq); [done|]. simpl. f_equal. lia.
Qed.

(** ** The I/O APIC *)

(** The register selected, and the registers. *)
Definition io_store (c : Z * (Z → Z)) (w : Z * Z) : Z * (Z → Z) :=
  if bool_decide (w.1 = io_reg) then (w.2, c.2)
  else if bool_decide (w.1 = io_data) then (c.1, upd c.2 c.1 w.2) else c.
Definition io_of (r0 : Z → Z) (log : list (Z * Z)) : Z * (Z → Z) := foldl io_store (0, r0) log.

(** The vector and the processor of an interrupt, if it is not masked. *)
Definition io_route (r0 : Z → Z) (log : list (Z * Z)) (irq : Z) : option (Z * Z) :=
  let r := (io_of r0 log).2 in
  if Z.testbit (r (REG_TABLE + 2 * irq)) 16 then None
  else Some (u8 (r (REG_TABLE + 2 * irq)), Z.shiftr (r (REG_TABLE + 2 * irq + 1)) 24).

Section routes.
Context (r0 : Z → Z).

Lemma wp_ioapicwrite reg data x Q :
  (∀ x', (io_of r0 (iowrites x')).2 = upd (io_of r0 (iowrites x)).2 (u32 reg) (u32 data) →
     ports x' = ports x → irqmask x' = irqmask x → ismp x' = ismp x → ncpu x' = ncpu x → Q tt x') →
  wp (ioapicwrite reg data) x Q.
Proof.
  intros HQ. unfold ioapicwrite, iostore. apply wp_bind, wp_modify, wp_modify. apply HQ; [|done..].
  simpl. unfold io_of. by rewrite <-app_assoc, foldl_app.
Qed.

(** The first [k] entries of the table are masked. *)
Definition masked_to (k : Z) (x : hw) : Prop :=
  ∀ i, 0 ≤ i < k → io_route r0 (iowrites x) i = None.

Lemma route_other (r r' : Z → Z) l l' i :
  (io_of r0 l).2 = r → (io_of r0 l').2 = r' →
  r' (REG_TABLE + 2 * i) = r (REG_TABLE + 2 * i) → r' (REG_TABLE + 2 * i + 1) = r (REG_TABLE + 2 * i + 1) →
  io_route r0 l' i = io_route r0 l i.
Proof. intros H1 H2 H3 H4. unfold io_route. by rewrite H1, H2, H3, H4. Qed.

Lemma wp_mask_entry i x :
  0 ≤ i < 256 → masked_to i x →
  wp (kbind (ioapicwrite (REG_TABLE + 2 * i) (Z.lor INT_DISABLED (T_IRQ0 + i))) (λ _,
      ioapicwrite (REG_TABLE + 2 * i + 1) 0)) x
    (λ _ x', masked_to (i + 1) x' ∧ ports x' = ports x ∧ irqmask x' = irqmask x ∧ ismp x' = ismp x ∧ ncpu x' = ncpu x).
Proof.
  intros Hi Hm. apply wp_bind, wp_ioapicwrite. intros x1 H1 Pa Pb Pc Pd.
  apply wp_ioapicwrite. intros x2 H2 Qa Qb Qc Qd.
  split_and!; [|congruence..]. rewrite H1 in H2. unfold REG_TABLE in *. rewrite (u32_small (16 + 2 * i)), (u32_small (16 + 2 * i + 1)) in H2 by lia.
  intros j Hj. destruct (decide (j = i)) as [->|Hne].
  - unfold io_route. rewrite H2. unfold REG_TABLE. rewrite upd_ne, upd_eq by lia.
    replace (Z.testbit _ 16) with true; [done|]. symmetry. unfold u32. rewrite Z.mod_pow2_bits_low by lia.
    rewrite Z.lor_spec. done.
  - rewrite (route_other _ _ (iowrites x) (iowrites x2) j eq_refl H2).
    + apply Hm. lia.
    + unfold REG_TABLE. by rewrite !upd_ne by lia.
    + unfold REG_TABLE. by rewrite !upd_ne by lia.
Qed.

Definition same_cpu (x x' : hw) : Prop :=
  ports x' = ports x ∧ irqmask x' = irqmask x ∧ ismp x' = ismp x ∧ ncpu x' = ncpu x.

(** The version register, as it is read. *)
Context (io_in : list (Z * Z) → Z) (maxintr : Z).
Hypothesis io_version : ∀ l, Z.land (Z.shiftr (io_in (l ++ [(io_reg, u32 REG_VER)])) 16) 255 = maxintr.

Lemma ioapicinit_masks x :
  ismp x = true → wp (ioapicinit io_in) x (λ _ x', masked_to (maxintr + 1) x' ∧ same_cpu x x').
Proof.
  intros Hmp. assert (0 ≤ maxintr < 256) as Hmax.
  { rewrite <-(io_version []). change 255 with (Z.ones 8). rewrite Z.land_ones by lia. apply Z.mod_pos_bound. lia. }
  unfold ioapicinit. apply wp_bind, wp_get. rewrite Hmp. cbn [negb].
  apply wp_bind. unfold ioapicread, iostore. apply wp_bind, wp_modify, wp_bind, wp_get, wp_ret.
  cbn [iowrites set_iowrites]. rewrite io_version.
  apply wp_bind, wp_bind, wp_modify, wp_bind, wp_get, wp_ret. cbn [iowrites set_iowrites].
  set (x1 := set_iowrites _ _). apply wp_bind.
  assert (∀ x2, same_cpu x x2 → wp (kfor (seqZ 0 (maxintr + 1)) (λ i,
      kbind (ioapicwrite (REG_TABLE + 2 * i) (Z.lor INT_DISABLED (T_IRQ0 + i))) (λ _,
      ioapicwrite (REG_TABLE + 2 * i + 1) 0))) x2 (λ _ x', masked_to (maxintr + 1) x' ∧ same_cpu x x')) as Hloop.
  { intros x2 Hx2. apply (wp_for_split (λ pre y, masked_to (Z.of_nat (length pre)) y ∧ same_cpu x y)).
    - split; [|done]. intros i Hi. simpl in Hi. lia.
    - intros pre i post y Hl [Hy Hs].
      assert (i = Z.of_nat (length pre) ∧ i < maxintr + 1) as [-> Hi].
      { assert (seqZ 0 (maxintr + 1) !! length pre = Some i) as Hli by (rewrite Hl; by apply list_lookup_middle).
        apply lookup_seqZ in Hli. lia. }
      eapply wp_mono; [apply wp_mask_entry; [lia|done]|]. rewrite length_app. simpl.
      intros [] z (Hz & Ha & Hb & Hc & Hd). split; [by replace (Z.of_nat (length pre + 1)) with (Z.of_nat (length pre) + 1) by lia|].
      unfold same_cpu in *. intuition congruence.
    - intros y. rewrite length_seqZ, Z2Nat.id by lia. done. }
  apply wp_when; intros _; [apply wp_modify|]; by apply Hloop.
Qed.

Lemma ioapicenable_routes irq cpu x :
  ismp x = true → 0 ≤ irq < 256 → 0 ≤ cpu < 256 → T_IRQ0 + irq < 256 →
  wp (ioapicenable irq cpu) x (λ _ x', same_cpu x x' ∧ ∀ i, 0 ≤ i < 256 →
    io_route r0 (iowrites x') i = if bool_decide (i = irq) then Some (T_IRQ0 + irq, cpu) else io_route r0 (iowrites x) i).
Proof.
  intros Hmp Hi Hc Hv. unfold ioapicenable. apply wp_bind, wp_get. rewrite Hmp. cbn [negb].
  apply wp_bind, wp_ioapicwrite. intros x1 H1 Pa Pb Pc Pd.
  apply wp_ioapicwrite. intros x2 H2 Qa Qb Qc Qd. split; [unfold same_cpu; intuition congruence|].
  rewrite H1 in H2. unfold REG_TABLE in H2.
  rewrite (u32_small (16 + 2 * irq)), (u32_small (16 + 2 * irq + 1)), (u32_small (T_IRQ0 + irq)) in H2
    by (unfold T_IRQ0 in *; lia).
  rewrite (u32_small (Z.shiftl cpu 24)) in H2 by (rewrite Z.shiftl_mul_pow2; lia).
  intros i Hi2. case_bool_decide as Heq.
  - subst i. unfold io_route. rewrite H2. unfold REG_TABLE. rewrite upd_eq, upd_ne, upd_eq by lia.
    rewrite Z.bits_above_log2; [|unfold T_IRQ0; lia|].
    2: { apply Z.log2_lt_pow2; unfold T_IRQ0 in *; lia. }
    f_equal. f_equal; [unfold u8; apply Z.mod_small; unfold T_IRQ0 in *; lia|].
    rewrite Z.shiftr_shiftl_l by lia. apply Z.shiftl_0_r.
  - apply (route_other _ _ _ _ _ eq_refl H2); unfold REG_TABLE; rewrite !upd_ne by lia; done.
Qed.

(** ** Set-up of the interrupts, as [main] and the drivers do it *)

(** [picenable(irq); ioapicenable(irq, cpu);] of each driver. *)
Definition enable_all (l : list (Z * Z)) : kM hw unit :=
  kfor l (λ w, kbind (picenable w.1) (λ _, ioapicenable w.1 w.2)).

Definition irq_setup (l : list (Z * Z)) : kM hw unit :=
  kbind picinit (λ _, kbind (ioapicinit io_in) (λ _, enable_all l)).

(** After the drivers of [pre]. *)
Record enabled (mp : bool) (pre : list (Z * Z)) (y : hw) : Prop := {
  en_pic : pic_ready y;
  en_mask i : 0 ≤ i < 16 → Z.testbit (irqmask y) i = negb (bool_decide (i = 2)) && negb (bool_decide (i ∈ pre.*1));
  en_mp : ismp y = mp;
  en_on irq cpu : mp = true → (irq, cpu) ∈ pre → io_route r0 (iowrites y) irq = Some (T_IRQ0 + irq, cpu);
  en_off irq : mp = true → 0 ≤ irq < 16 → irq ∉ pre.*1 → io_route r0 (iowrites y) irq = None;
}.

Lemma enable_step mp pre irq cpu y :
  enabled mp pre y → 0 ≤ irq < 16 → 0 ≤ cpu < 256 → irq ∉ pre.*1 →
  (∀ w, w ∈ pre → 0 ≤ w.1 < 16) →
  wp (kbind (picenable irq) (λ _, ioapicenable irq cpu)) y (λ _, enabled mp (pre ++ [(irq, cpu)])).
Proof.
  intros [Hp Hm Hmp Hon Hoff] Hi Hc Hn Hpre. apply wp_bind.
  eapply wp_mono; [by apply picenable_ready|]. intros [] y1 (Hp1 & Hio & Hmp1 & Hm1).
  assert (∀ i, 0 ≤ i < 16 → Z.testbit (irqmask y1) i =
    negb (bool_decide (i = 2)) && negb (bool_decide (i ∈ (pre ++ [(irq, cpu)]).*1))) as Hmask.
  { intros i Hi'. rewrite Hm1, Hm by done. rewrite fmap_app. simpl.
    rewrite <-andb_assoc. f_equal. rewrite <-negb_orb. f_equal. apply eq_true_iff_eq.
    rewrite orb_true_iff, !bool_decide_eq_true. set_solver. }
  destruct (ismp y1) eqn:Hy1.
  - eapply wp_mono; [by apply (ioapicenable_routes irq cpu); unfold T_IRQ0; try lia|].
    intros [] y2 ((Ha & Hb & Hd & _) & Hr). split.
    + unfold pic_ready. rewrite Ha, Hb. done.
    + intros i Hi'. rewrite Hb. by apply Hmask.
    + congruence.
    + intros i c Hmp' Hel. apply elem_of_app in Hel as [Hel|Hel].
      * pose proof (Hpre _ Hel). simpl in *. rewrite Hr by lia. rewrite bool_decide_false.
        { rewrite Hio. by apply Hon. }
        intros ->. apply Hn. by apply (list_elem_of_fmap_2 fst) in Hel.
      * apply list_elem_of_singleton in Hel. simplify_eq. rewrite Hr by lia. by rewrite bool_decide_true.
    + intros i Hmp' Hi' Hn'. rewrite fmap_app in Hn'. simpl in Hn'. rewrite Hr by lia.
      rewrite bool_decide_false by set_solver. rewrite Hio. apply Hoff; [done..|set_solver].
  - unfold ioapicenable. apply wp_bind, wp_get. rewrite Hy1. apply wp_ret.
    split; [done|done|congruence|congruence|congruence].
Qed.

(** The mask starts with nothing but the line of the second chip. *)
Lemma irqmask0_bits i : 0 ≤ i < 16 → Z.testbit irqmask0 i = negb (bool_decide (i = 2)).
Proof.
  intros Hi. unfold irqmask0. rewrite Z.land_spec, Z.lnot_spec, Z.shiftl_1_l, Z.pow2_bits_eqb by (unfold IRQ_SLAVE; lia).
  change 65535 with (Z.ones 16). rewrite Z.ones_spec_low by lia. cbn [andb]. f_equal. unfold IRQ_SLAVE.
  apply eq_true_iff_eq. rewrite bool_decide_eq_true, Z.eqb_eq. lia.
Qed.

(** The controllers before any driver. *)
Lemma init_enabled x :
  irqmask x = irqmask0 → 15 ≤ maxintr →
  wp (kbind picinit (λ _, ioapicinit io_in)) x (λ _, enabled (ismp x) []).
Proof.
  intros Hx Hmax. apply wp_bind. eapply wp_mono; [apply picinit_ready; rewrite Hx; done|].
  intros [] x1 (Hp1 & Hm1 & Hio1 & Hmp1).
  assert (∀ i, 0 ≤ i < 16 → Z.testbit (irqmask x1) i = negb (bool_decide (i = 2)) && negb (bool_decide (i ∈ @nil Z))) as Hmask.
  { intros i Hi. rewrite Hm1, Hx. rewrite (bool_decide_false (i ∈ [])) by set_solver. cbn [negb]. rewrite andb_true_r.
    by apply irqmask0_bits. }
  destruct (ismp x) eqn:Hmp.
  - eapply wp_mono; [by apply ioapicinit_masks; rewrite Hmp1|].
    intros [] x2 [Hmk (Ha & Hb & Hc & _)]. split.
    + unfold pic_ready. by rewrite Ha, Hb.
    + by rewrite Hb.
    + congruence.
    + intros irq cpu _ He. by destruct (not_elem_of_nil _ He).
    + intros irq _ Hi _. apply Hmk. lia.
  - unfold ioapicinit. apply wp_bind, wp_get. rewrite Hmp1. apply wp_ret. split; done.
Qed.

(** C37: after [picinit], [ioapicinit] and the enabling of its interrupt by each
    driver, every interrupt reaches the processors as the trap [T_IRQ0] + its
    number, and no other does: through the two 8259A chips, and on a
    multiprocessor through the I/O APIC to the processor the driver chose. *)
Theorem interrupts_routed l x :
  irqmask x = irqmask0 → 15 ≤ maxintr → NoDup (l.*1) →
  (∀ irq cpu, (irq, cpu) ∈ l → 0 ≤ irq < 16 ∧ irq ≠ IRQ_SLAVE ∧ 0 ≤ cpu < 256) →
  ∃ x', irq_setup l x = Done tt x' ∧ ∀ irq, 0 ≤ irq < 16 → irq ≠ IRQ_SLAVE →
    pic_vector (ports x') irq = (if bool_decide (irq ∈ l.*1) then Some (T_IRQ0 + irq) else None) ∧
    (ismp x = true →
      (∀ cpu, (irq, cpu) ∈ l → io_route r0 (iowrites x') irq = Some (T_IRQ0 + irq, cpu)) ∧
      (irq ∉ l.*1 → io_route r0 (iowrites x') irq = None)).
Proof.
  intros Hx Hmax Hnd Hl.
  assert (wp (irq_setup l) x (λ _ x', enabled (ismp x) l x')) as Hw.
  { unfold irq_setup. apply wp_assoc, wp_bind. eapply wp_mono; [by apply init_enabled|].
    intros [] x2 Hen. unfold enable_all. apply (wp_for_split (enabled (ismp x))); [done| |done].
    intros pre [irq cpu] post y -> Hy. rewrite fmap_app in Hnd. simpl in Hnd. apply list.NoDup_app in Hnd as (_ & Hnd & _).
    destruct (Hl irq cpu) as (? & ? & ?); [set_solver|]. apply enable_step; [done..| |].
    - intros Hin. apply (Hnd irq); [done|set_solver].
    - intros [i c] Hin. apply (Hl i c). set_solver. }
  apply wp_done in Hw as ([] & x' & Hd & [Hp Hm Hmp Hon Hoff]). exists x'. split; [done|].
  intros irq Hi Hne. unfold IRQ_SLAVE in Hne. split.
  - rewrite pic_vector_ready by (done || by rewrite Hm). rewrite Hm by done.
    rewrite (bool_decide_false _ Hne). simpl. by case_bool_decide.
  - intros Hx'. split; intros; [by apply Hon|by apply Hoff].
Qed.
End routes.

(** ** The local APIC *)

(** The last value stored in a register. *)
Definition lreg (log : list (Z * Z)) (i : Z) : option Z :=
  foldl (λ acc w, if bool_decide (w.1 = i) then Some w.2 else acc) None log.

Section lapic.
Context (l_in : nat → Z → Z).

Lemma wp_lapicw i v x Q :
  lapic x ≠ 0 → (∀ n, Q tt (set_lreads n (set_lwrites (lwrites x ++ [(i, u32 v)]) x))) → wp (lapicw l_in i v) x Q.
Proof.
  intros Hl HQ. unfold lapicw. apply wp_bind, wp_get. rewrite (bool_decide_false _ Hl).
  apply wp_bind, wp_put, wp_bind. unfold lload. apply wp_bind, wp_get. simpl. rewrite (bool_decide_false _ Hl).
  apply wp_bind, wp_put, wp_ret, wp_ret, HQ.
Qed.

Lemma wp_wait_delivs fuel x Q k :
  lapic x ≠ 0 → (k < fuel)%nat → Z.land (l_in (lreads x + k) ICRLO) DELIVS = 0 →
  (∀ n, Q true (set_lreads n x)) → wp (wait_delivs l_in fuel) x Q.
Proof.
  revert x k. induction fuel as [|fuel IH]; intros x k Hl Hk Hd HQ; [lia|]. cbn [wait_delivs].
  apply wp_bind. unfold lload. apply wp_bind, wp_get. rewrite (bool_decide_false _ Hl).
  apply wp_bind, wp_put, wp_ret. case_bool_decide as Hn; [apply wp_ret, HQ|].
  destruct k as [|k]; [rewrite Nat.add_0_r in Hd; done|].
  apply (IH _ k); simpl; [done|lia| |done]. by replace (S (lreads x + k)) with (lreads x + S k)%nat by lia.
Qed.

(** [lapicinit] returns if the local APIC delivers within [fuel] loads. The timer
    interrupts periodically with the vector of IRQ_TIMER, the two local lines are
    masked, and every priority is let through. *)
Theorem lapicinit_sets fuel x :
  lapic x ≠ 0 → (∀ n, ∃ k, (k < fuel)%nat ∧ Z.land (l_in (n + k) ICRLO) DELIVS = 0) →
  ∃ x', lapicinit l_in fuel x = Done true x' ∧
    lreg (lwrites x') SVR = Some (Z.lor ENABLE (T_IRQ0 + IRQ_SPURIOUS)) ∧
    lreg (lwrites x') TIMER = Some (Z.lor PERIODIC (T_IRQ0 + IRQ_TIMER)) ∧
    lreg (lwrites x') TICR = Some 1000000 ∧ lreg (lwrites x') LINT0 = Some MASKED ∧
    lreg (lwrites x') LINT1 = Some MASKED ∧ lreg (lwrites x') ERROR = Some (T_IRQ0 + IRQ_ERROR) ∧
    lreg (lwrites x') TPR = Some 0.
Proof.
  intros Hl Hfin.
  assert (wp (lapicinit l_in fuel) x (λ fin x', fin = true ∧
    lreg (lwrites x') SVR = Some (Z.lor ENABLE (T_IRQ0 + IRQ_SPURIOUS)) ∧
    lreg (lwrites x') TIMER = Some (Z.lor PERIODIC (T_IRQ0 + IRQ_TIMER)) ∧
    lreg (lwrites x') TICR = Some 1000000 ∧ lreg (lwrites x') LINT0 = Some MASKED ∧
    lreg (lwrites x') LINT1 = Some MASKED ∧ lreg (lwrites x') ERROR = Some (T_IRQ0 + IRQ_ERROR) ∧
    lreg (lwrites x') TPR = Some 0)) as Hw.
  2: { apply wp_done in Hw as (? & x' & ? & -> & ?). eauto. }
  unfold lapicinit. apply wp_bind, wp_get. rewrite (bool_decide_false _ Hl).
  do 6 (apply wp_bind, wp_lapicw; [done|]; intros ?). apply wp_bind. unfold lload at 1.
  apply wp_bind, wp_get. simpl. rewrite (bool_decide_false _ Hl). apply wp_bind, wp_put, wp_ret.
  apply wp_bind, wp_when; intros _; [apply wp_lapicw; [done|]; intros ?|];
    do 6 (apply wp_bind, wp_lapicw; [done|]; intros ?); apply wp_bind; simpl;
    (match goal with |- wp _ ?y _ => destruct (Hfin (lreads y)) as (k & Hk & Hd);
       apply (wp_wait_delivs fuel y _ k); [done|done|done|] end); intros ?;
    apply wp_bind, wp_lapicw; [done| |done|]; intros ?; apply wp_ret; simpl;
    unfold lreg; rewrite <-!app_assoc, !foldl_app; split_and!; reflexivity.
Qed.
End lapic.

(** ** The configuration table of the processors *)

Inductive entry := EProc (apicid flags : Z) | EIoapic (no : Z) | EOther (t : Z).

(** The memory from [p] to [e] spells the entries. *)
Fixpoint spells (m : mem) (p e : Z) (es : list entry) : Prop :=
  match es with
  | [] => p = e
  | EProc a f :: es => p < e ∧ m p = MPPROC ∧ m (p + 1) = a ∧ m (p + 3) = f ∧ spells m (p + 20) e es
  | EIoapic no :: es => p < e ∧ m p = MPIOAPIC ∧ m (p + 1) = no ∧ spells m (p + 8) e es
  | EOther t :: es => p < e ∧ m p = t ∧ (t = MPBUS ∨ t = MPIOINTR ∨ t = MPLINTR) ∧ spells m (p + 8) e es
  end.

(** What the entries say: the ids of the processors in order, the number of the one
    that boots, and the I/O APIC; [k] is the number of the next processor. *)
Fixpoint apicids (es : list entry) : list Z :=
  match es with [] => [] | EProc a _ :: es => a :: apicids es | _ :: es => apicids es end.
Fixpoint boots (es : list entry) (k d : Z) : Z :=
  match es with
  | [] => d
  | EProc _ f :: es => boots es (k + 1) (if bool_decide (Z.land f MPBOOT ≠ 0) then k else d)
  | _ :: es => boots es k d
  end.
Fixpoint ioapic_no (es : list entry) (d : Z) : Z :=
  match es with [] => d | EIoapic no :: es => ioapic_no es no | _ :: es => ioapic_no es d end.

Definition numbers (k : Z) (n : nat) : list Z := (λ i, k + Z.of_nat i) <$> seq 0 n.

Lemma numbers_cons k n : numbers k (S n) = k :: numbers (k + 1) n.
Proof.
  unfold numbers. simpl. f_equal; [lia|]. rewrite <-fmap_S_seq, <-list_fmap_compose.
  apply list_fmap_ext. intros i j _. simpl. lia.
Qed.

Lemma numbers_1 k : numbers k 1 = [k].
Proof. unfold numbers. simpl. f_equal. lia. Qed.

(** The loop has read the entries. *)
Record counted (es : list entry) (y y' : hw) : Prop := {
  cn_ncpu : ncpu y' = ncpu y + Z.of_nat (length (apicids es));
  cn_mp : ismp y' = ismp y && bool_decide (apicids es = numbers (ncpu y) (length (apicids es)));
  cn_boot : bcpu y' = boots es (ncpu y) (bcpu y);
  cn_io : ioapicid y' = ioapic_no es (ioapicid y);
  cn_lapic : lapic y' = lapic y;
  cn_mem : pmem y' = pmem y;
  cn_len : length (cpu_id y') = length (cpu_id y);
  cn_ids i : (0 ≤ i < ncpu y' → (i < ncpu y → cpu_id y !! Z.to_nat i = Some i) → cpu_id y' !! Z.to_nat i = Some i);
}.

Lemma counted_cons w es y y1 y2 : counted [w] y y1 → counted es y1 y2 → counted (w :: es) y y2.
Proof.
  intros [Ca Cb Cc Cd Ce Cf Cg Ch] [Da Db Dc Dd De Df Dg Dh].
  assert (∀ i, 0 ≤ i < ncpu y2 → (i < ncpu y → cpu_id y !! Z.to_nat i = Some i) → cpu_id y2 !! Z.to_nat i = Some i) as Hids.
  { intros i Hi Hy. apply Dh; [done|]. intros Hi1. apply Ch; [lia|done]. }
  destruct w as [a f|no|t]; cbn -[numbers Z.add Z.of_nat] in *; [rewrite numbers_1 in Cb|rewrite andb_true_r in Cb..];
    split; cbn -[numbers Z.add Z.of_nat]; try congruence; try done.
  - lia.
  - rewrite Db, Cb, Ca, <-andb_assoc. f_equal. rewrite numbers_cons. apply eq_true_iff_eq.
    rewrite andb_true_iff, !bool_decide_eq_true.
    split; [intros [[= ->] Hx]; by f_equal|intros Hx; by injection Hx as -> Hx].
  - by rewrite Dc, Cc, Ca.
  - lia.
  - rewrite Db, Cb, Ca, Z.add_0_r. done.
  - by rewrite Dc, Cc, Ca, Z.add_0_r.
  - lia.
  - rewrite Db, Cb, Ca, Z.add_0_r. done.
  - by rewrite Dc, Cc, Ca, Z.add_0_r.
Qed.

(** The entry of a processor. *)
Lemma wp_mpproc a f p y :
  pmem y p = MPPROC → pmem y (p + 1) = a → pmem y (p + 3) = f →
  0 ≤ ncpu y < Z.of_nat NCPU → length (cpu_id y) = NCPU →
  wp (mpentry p) y (λ p' y', p' = p + 20 ∧ counted [EProc a f] y y').
Proof.
  intros Ht Ha Hf Hn Hl. unfold mpentry. apply wp_bind, wp_get. rewrite (bool_decide_true _ Ht).
  unfold proc_apicid, proc_flags. rewrite Ha, Hf. apply wp_bind.
  assert (∀ h d, (if bool_decide (Z.land f MPBOOT ≠ 0) then ncpu y else bcpu y) = d → counted [EProc a f] y
    (set_ncpu (ncpu y + 1) (set_cpu_id (<[Z.to_nat (ncpu y) := u8 (ncpu y)]> (cpu_id y))
      (set_bcpu d (set_ismp (ismp y && bool_decide (a = ncpu y)) (set_hout h y)))))) as Hc.
  { intros h d Hd. split; cbn -[numbers]; try done.
    - f_equal. rewrite numbers_1. by apply bool_decide_ext; split; [intros ->|intros [= ->]].
    - by rewrite length_insert.
    - intros i Hi Hy. destruct (decide (i = ncpu y)) as [->|Hne].
      + rewrite list_lookup_insert_eq by lia. unfold u8. rewrite Z.mod_small by (unfold NCPU in Hn; lia). done.
      + rewrite list_lookup_insert_ne by lia. apply Hy. lia. }
  assert (∀ h, wp
    (kwhen (bool_decide (Z.land f MPBOOT ≠ 0)) (kmodify (set_bcpu (ncpu y))) ;;
     (if bool_decide (ncpu y < Z.of_nat NCPU) then kmodify (λ x, set_cpu_id (<[Z.to_nat (ncpu x) := u8 (ncpu x)]> (cpu_id x)) x) else kfault) ;;
     kmodify (set_ncpu (ncpu y + 1)) ;; kret (p + sizeof_mpproc))%kern
    (set_ismp (ismp y && bool_decide (a = ncpu y)) (set_hout h y)) (λ p' y', p' = p + 20 ∧ counted [EProc a f] y y')) as Hrest.
  { intros h. rewrite (bool_decide_true (ncpu y < _)) by lia.
    apply wp_bind, wp_when; intros Hb; apply wp_bind, wp_modify || (apply wp_modify, wp_bind, wp_modify);
      apply wp_bind, wp_modify, wp_ret; (split; [done|]).
    - apply (Hc h). by rewrite Hb.
    - apply (Hc h (bcpu y)). by rewrite Hb. }
  apply wp_when; intros Hb.
  - apply wp_bind, wp_modify, wp_modify. apply bool_decide_eq_true in Hb.
    specialize (Hrest (hout y ++ [("mpinit: ncpu=%d apicid=%d\n"%string, [ncpu y; a])])).
    rewrite (bool_decide_false (a = ncpu y)), andb_false_r in Hrest by congruence. exact Hrest.
  - apply bool_decide_eq_false in Hb. apply dec_stable in Hb. specialize (Hrest (hout y)).
    rewrite (bool_decide_true (a = ncpu y)), andb_true_r in Hrest by done. by destruct y.
Qed.

Lemma wp_mpentry w es p e y :
  spells (pmem y) p e (w :: es) → 0 ≤ ncpu y → length (cpu_id y) = NCPU →
  ncpu y + Z.of_nat (length (apicids (w :: es))) ≤ Z.of_nat NCPU →
  wp (mpentry p) y (λ p' y', spells (pmem y) p' e es ∧ counted [w] y y').
Proof.
  intros Hs H0 Hl Hn. destruct w as [a f|no|t].
  - destruct Hs as (_ & Ht & Ha & Hf & Hs). simpl in Hn.
    eapply wp_mono; [apply (wp_mpproc a f); [done..| |done]; lia|]. by intros p' y' [-> ?].
  - destruct Hs as (_ & Ht & Ha & Hs). unfold mpentry. apply wp_bind, wp_get. rewrite Ht. simpl.
    apply wp_bind, wp_modify, wp_ret. split; [done|]. split; simpl; rewrite ?andb_true_r; try done; [lia|].
    intros i Hi Hy. apply Hy. lia.
  - destruct Hs as (_ & Ht & Hk & Hs). unfold mpentry. apply wp_bind, wp_get. rewrite Ht.
    assert (wp (kret (p + 8)) y (λ p' y', spells (pmem y) p' e es ∧ counted [EOther t] y y')) as Hw.
    { apply wp_ret. split; [done|]. split; simpl; rewrite ?andb_true_r; try done; [lia|].
      intros i Hi Hy. apply Hy. lia. }
    destruct Hk as [->|[->| ->]]; exact Hw.
Qed.

(** The loop ends, after as many rounds as there are entries. *)
Lemma wp_mploop es : ∀ fuel p e y,
  spells (pmem y) p e es → (length es ≤ fuel)%nat → 0 ≤ ncpu y → length (cpu_id y) = NCPU →
  ncpu y + Z.of_nat (length (apicids es)) ≤ Z.of_nat NCPU →
  wp (mploop fuel p e) y (λ fin y', fin = true ∧ counted es y y').
Proof.
  induction es as [|w es IH]; intros fuel p e y Hs Hf H0 Hl Hn.
  - simpl in Hs. subst p. destruct fuel; simpl; rewrite bool_decide_false by lia; apply wp_ret;
      (split; [done|]); split; simpl; rewrite ?andb_true_r; try done; try lia; intros i Hi Hy; apply Hy; lia.
  - destruct fuel as [|fuel]; [simpl in Hf; lia|]. cbn [mploop].
    rewrite bool_decide_true by (destruct w; apply Hs). apply wp_bind.
    eapply wp_mono; [by apply (wp_mpentry w es p e)|]. intros p1 y1 [Hs1 Hc1].
    pose proof (cn_ncpu _ _ _ Hc1) as Hn1. pose proof (cn_len _ _ _ Hc1) as Hl1.
    eapply wp_mono; [apply (IH fuel p1 e y1)|].
    + by rewrite (cn_mem _ _ _ Hc1).
    + simpl in Hf. lia.
    + lia.
    + congruence.
    + destruct w; simpl in *; lia.
    + intros fin y2 [-> Hc2]. split; [done|]. by eapply counted_cons.
Qed.

(** C38: [mpinit] counts the processors of a machine. If the configuration table
    that [mpconfig] found spells the entries [es], with at most NCPU processors, it
    returns after one round of its loop per entry. If the processors are numbered
    in order from 0, then [ncpu], [bcpu], [ioapicid], [lapic] and the ids of [cpus]
    are those of the table; and else the machine is taken for a uniprocessor. *)
Theorem mpinit_reads_table imcr es mp conf fuel x :
  mpconfig (pmem x) = Some (mp, conf) →
  spells (pmem x) (conf + sizeof_mpconf) (conf + conf_length (pmem x) conf) es →
  ncpu x = 0 → length (cpu_id x) = NCPU → (length (apicids es) ≤ NCPU)%nat → (length es ≤ fuel)%nat →
  ∃ x', mpinit imcr fuel x = Done true x' ∧
    if bool_decide (apicids es = numbers 0 (length (apicids es))) then
      ismp x' = true ∧ ncpu x' = Z.of_nat (length (apicids es)) ∧ bcpu x' = boots es 0 0 ∧
      ioapicid x' = ioapic_no es (ioapicid x) ∧ lapic x' = conf_lapicaddr (pmem x) conf ∧
      ∀ i, 0 ≤ i < ncpu x' → cpu_id x' !! Z.to_nat i = Some i
    else ismp x' = false ∧ ncpu x' = 1 ∧ ioapicid x' = 0 ∧ lapic x' = 0.
Proof.
  intros Hconf Hs H0 Hl Hn Hf.
  assert (wp (mpinit imcr fuel) x (λ fin x', fin = true ∧
    if bool_decide (apicids es = numbers 0 (length (apicids es))) then
      ismp x' = true ∧ ncpu x' = Z.of_nat (length (apicids es)) ∧ bcpu x' = boots es 0 0 ∧
      ioapicid x' = ioapic_no es (ioapicid x) ∧ lapic x' = conf_lapicaddr (pmem x) conf ∧
      ∀ i, 0 ≤ i < ncpu x' → cpu_id x' !! Z.to_nat i = Some i
    else ismp x' = false ∧ ncpu x' = 1 ∧ ioapicid x' = 0 ∧ lapic x' = 0)) as Hw.
  2: { apply wp_done in Hw as (? & x' & ? & -> & ?). eauto. }
  unfold mpinit. apply wp_bind, wp_modify, wp_bind, wp_get. cbn [pmem set_bcpu]. rewrite Hconf.
  apply wp_bind, wp_modify, wp_bind, wp_modify, wp_bind.
  eapply wp_mono; [apply (wp_mploop es); simpl; try done; rewrite ?H0; lia|]. simpl.
  intros fin y [-> [Ca Cb Cc Cd Ce Cf Cg Ch]]. cbn in *. rewrite H0 in *. apply wp_bind, wp_get. rewrite Cb.
  case_bool_decide as Hids.
  - apply wp_bind, wp_when; intros _; [apply wp_bind, wp_modify, wp_modify|]; apply wp_ret; simpl;
      split_and!; try done; intros i Hi; apply Ch; [lia|lia|lia|lia].
  - apply wp_bind, wp_modify, wp_bind, wp_modify, wp_bind, wp_modify, wp_ret. simpl. split_and!; done.
Qed.

(** An entry of unknown type stops the loop from ever ending: [p] does not move. *)
Theorem mploop_hangs fuel p e x :
  p < e → pmem x p ∉ [MPPROC; MPBUS; MPIOAPIC; MPIOINTR; MPLINTR] →
  ∃ x', mploop fuel p e x = Done false x'.
Proof.
  intros Hlt Ht. revert x Ht. induction fuel as [|fuel IH]; intros x Ht; simpl; rewrite (bool_decide_true (p < e)) by done.
  - by eexists.
  - repeat rewrite not_elem_of_cons in Ht. destruct Ht as (N0 & N1 & N2 & N3 & N4 & _).
    destruct (IH (set_ismp false (set_hout (hout x ++ [("mpinit: unknown config type %x\n"%string, [pmem x p])]) x))) as [x' Hx'].
    { simpl. repeat rewrite not_elem_of_cons. split_and!; try done. apply not_elem_of_nil. }
    exists x'. rewrite <-Hx'. unfold mpentry, kbind, kget. simpl.
    rewrite (bool_decide_false _ N0), (bool_decide_false _ N2), (bool_decide_false _ N1), (bool_decide_false _ N3), (bool_decide_false _ N4).
    done.
Qed.

(** The entry of one processor too many is stored past the end of [cpus]. *)
Theorem mpentry_overflows p x :
  pmem x p = MPPROC → ncpu x = Z.of_nat NCPU → mpentry p x = Fault.
Proof.
  intros Hp Hn. unfold mpentry, kbind, kget. simpl. rewrite (bool_decide_true _ Hp).
  destruct (bool_decide (ncpu x ≠ _)), (bool_decide (Z.land _ _ ≠ 0)); simpl; rewrite Hn; done.
Qed.

(** A machine of two processors: the floating pointer at 0xF0000, and behind it a
    table of two processors, a bus and an I/O APIC. *)
Definition demo_tables : list Z :=
  [95; 77; 80; 95; 16; 0; 15; 0; 1; 4; 129; 0; 0; 0; 0; 0; 80; 67; 77; 80; 100; 0; 4; 132; 0; 0;
   0; 0; 0; 0; 0; 0; 0; 0; 0; 0; 0; 0; 0; 0; 0; 0; 0; 0; 0; 0; 0; 0; 0; 0; 4; 0; 0; 0; 224; 254;
   0; 0; 0; 0; 0; 0; 20; 3; 0; 0; 0; 0; 0; 0; 0; 0; 0; 0; 0; 0; 0; 0; 0; 0; 0; 1; 20; 1; 0; 0; 0;
   0; 0; 0; 0; 0; 0; 0; 0; 0; 0; 0; 0; 0; 1; 0; 0; 0; 0; 0; 0; 0; 2; 2; 17; 1; 0; 0; 192; 254].

Definition demo_mem : mem := λ a, default 0 (demo_tables !! Z.to_nat (a - p2v 983040)).
Definition demo_hw : hw := HW irqmask0 [] [] 0 [] 0 false 0 0 0 (replicate NCPU 0) 0 demo_mem [].
Definition demo_entries : list entry := [EProc 0 3; EProc 1 1; EOther 1; EIoapic 2].

Lemma mpinit_reads_table_witness :
  ∃ x', mpinit 0 4 demo_hw = Done true x' ∧ ismp x' = true ∧ ncpu x' = 2 ∧ bcpu x' = 0 ∧ ioapicid x' = 2 ∧
    lapic x' = 4276092928.
Proof.
  destruct (mpinit_reads_table 0 demo_entries 2148466688 2148466704 4 demo_hw) as (x' & Hd & Hx).
  - vm_compute. reflexivity.
  - vm_compute. repeat split; try reflexivity; auto.
  - reflexivity.
  - reflexivity.
  - simpl. unfold NCPU. lia.
  - simpl. lia.
  - rewrite bool_decide_true in Hx by reflexivity. destruct Hx as (H1 & H2 & H3 & H4 & H5 & _).
    exists x'. repeat split; [exact Hd|exact H1|exact H2|exact H3|exact H4|].
    rewrite H5. vm_compute. reflexivity.
Defined.

Lemma interrupts_routed_witness :
  ∃ x', irq_setup (λ _, 23 * 65536) [(1, 0); (4, 0); (14, 1)] (set_ismp true demo_hw) = Done tt x' ∧
    pic_vector (ports x') 14 = Some 46 ∧ pic_vector (ports x') 0 = None ∧
    io_route (λ _, 0) (iowrites x') 14 = Some (46, 1) ∧ io_route (λ _, 0) (iowrites x') 3 = None.
Proof.
  destruct (interrupts_routed (λ _, 0) (λ _, 23 * 65536) 23 (λ _, eq_refl) [(1, 0); (4, 0); (14, 1)] (set_ismp true demo_hw))
    as (x' & Hd & Hx).
  - reflexivity.
  - lia.
  - apply (bool_decide_unpack _). vm_compute. exact I.
  - intros irq cpu Hin. unfold IRQ_SLAVE.
    assert (irq = 1 ∧ cpu = 0 ∨ irq = 4 ∧ cpu = 0 ∨ irq = 14 ∧ cpu = 1) by set_solver. lia.
  - exists x'. split; [exact Hd|]. destruct (Hx 14) as [H14 R14]; [lia|done|]. destruct (Hx 0) as [H0 _]; [lia|done|].
    destruct (Hx 3) as [_ R3]; [lia|done|]. split; [rewrite H14; reflexivity|]. split; [rewrite H0; reflexivity|].
    split; [apply (proj1 (R14 eq_refl) 1); set_solver|]. apply (proj2 (R3 eq_refl)). set_solver.
Defined.

(** ** The clock *)

(** Two decimal digits as the clock keeps them. *)
Definition bcd (v : Z) : Z := v / 10 * 16 + v mod 10.

Lemma CONV_bcd v : 0 ≤ v < 100 → CONV (bcd v) = v.
Proof.
  intros Hv. unfold CONV, bcd. assert (0 ≤ v / 10 < 10) by (split; [apply Z.div_pos; lia|apply Z.div_lt_upper_bound; lia]).
  pose proof (Z.mod_pos_bound v 10). rewrite Z.shiftr_div_pow2 by lia. change (2 ^ 4) with 16.
  rewrite Z.div_add_l by lia. rewrite (Z.div_small (v mod 10)) by lia. rewrite Z.add_0_r.
  rewrite u32_small by lia. change 15 with (Z.ones 4). rewrite Z.land_ones by lia. change (2 ^ 4) with 16.
  replace ((v / 10 * 16 + v mod 10) mod 16) with (v mod 10) by (rewrite Z.add_comm, Z.mod_add, (Z.mod_small (v mod 10) 16); lia).
  pose proof (Z.div_mod v 10). lia.
Qed.

Section clock.
(** The date at each reading; the clock keeps it in BCD. *)
Context (cmos : nat → Z → Z) (date : nat → rtcdate).
Definition in_range (d : rtcdate) : Prop :=
  0 ≤ second d < 100 ∧ 0 ≤ minute d < 100 ∧ 0 ≤ hour d < 100 ∧ 0 ≤ day d < 100 ∧ 0 ≤ month d < 100 ∧ 0 ≤ year d < 100.
Definition bcd_date (d : rtcdate) : rtcdate :=
  Rtcdate (bcd (second d)) (bcd (minute d)) (bcd (hour d)) (bcd (day d)) (bcd (month d)) (bcd (year d)).

Hypothesis reads_date : ∀ n,
  cmos n SECS = bcd (second (date n)) ∧ cmos n MINS = bcd (minute (date n)) ∧ cmos n HOURS = bcd (hour (date n)) ∧
  cmos n DAY = bcd (day (date n)) ∧ cmos n MONTH = bcd (month (date n)) ∧ cmos n YEAR = bcd (year (date n)).
Hypothesis is_bcd : ∀ n, Z.land (cmos n CMOS_STATB) 4 = 0.
Hypothesis dates_ok : ∀ n, in_range (date n).
(** In the course of 13 readings less than a minute passes. *)
Hypothesis fast : ∀ i k j, (i ≤ k ≤ j)%nat → (j ≤ i + 12)%nat → second (date i) = second (date j) → date k = date i.

Lemma bcd_inj a b : 0 ≤ a < 100 → 0 ≤ b < 100 → bcd a = bcd b → a = b.
Proof. intros Ha Hb Heq. rewrite <-(CONV_bcd a), <-(CONV_bcd b) by done. by rewrite Heq. Qed.

Lemma fill_still n d : (∀ k, (n ≤ k < n + 6)%nat → date k = d) → fill_rtcdate cmos n = (bcd_date d, (6 + n)%nat).
Proof.
  intros Hd. unfold fill_rtcdate, cmos_read, bcd_date. simpl.
  rewrite (proj1 (reads_date n)), (proj1 (proj2 (reads_date (S n)))), (proj1 (proj2 (proj2 (reads_date (S (S n)))))).
  rewrite (proj1 (proj2 (proj2 (proj2 (reads_date (S (S (S n)))))))).
  rewrite (proj1 (proj2 (proj2 (proj2 (proj2 (reads_date (S (S (S (S n)))))))))).
  rewrite (proj2 (proj2 (proj2 (proj2 (proj2 (reads_date (S (S (S (S (S n))))))))))).
  by rewrite !Hd by lia.
Qed.

Lemma fill_end n : (fill_rtcdate cmos n).2 = (6 + n)%nat.
Proof. done. Qed.

Lemma fill_second n : second (fill_rtcdate cmos n).1 = bcd (second (date n)).
Proof. simpl. apply reads_date. Qed.

(** What two equal readings in a row show was the date. *)
Lemma read_twice_true fuel n t n' :
  read_twice cmos fuel n = Some (t, n') → ∃ k, (n ≤ k)%nat ∧ t = bcd_date (date k).
Proof.
  revert n. induction fuel as [|fuel IH]; intros n Hr; [done|]. cbn [read_twice] in Hr.
  pose proof (fill_end n) as He. pose proof (fill_second n) as Hs1.
  destruct (fill_rtcdate cmos n) as [t1 n1] eqn:H1. cbn [fst snd] in He, Hs1.
  unfold cmos_read at 1 in Hr. cbv beta iota zeta in Hr. case_bool_decide; [apply IH in Hr as (k & ? & ->); exists k; split; [lia|done]|].
  pose proof (fill_end (S n1)) as He2. pose proof (fill_second (S n1)) as Hs2.
  destruct (fill_rtcdate cmos (S n1)) as [t2 n2] eqn:H2. cbn [fst snd] in He2, Hs2.
  case_bool_decide as Heq; [|apply IH in Hr as (k & ? & ->); exists k; split; [lia|done]].
  injection Hr as <- _. exists n. split; [done|]. rewrite Heq, Hs2 in Hs1.
  apply bcd_inj in Hs1; [|apply (dates_ok _)|apply (dates_ok _)].
  rewrite (fill_still n (date n)) in H1; [by simplify_eq|].
  intros k Hk. apply (fast n k (n + 7)); [lia|lia|]. rewrite <-Hs1. f_equal. f_equal. lia.
Qed.

(** If the clock stands still, with no update under way, for 26 readings from [a] on,
    the loop ends. *)
Lemma read_twice_ends a fuel : (∀ k, (a ≤ k < a + 26)%nat → date k = date a ∧ Z.land (cmos k CMOS_STATA) CMOS_UIP = 0) →
  ∀ n, (n ≤ a + 13)%nat → (a < n + fuel)%nat → (0 < fuel)%nat → ∃ r, read_twice cmos fuel n = Some r.
Proof.
  intros Hq. induction fuel as [|fuel IH]; intros n Hn Hf H0; [lia|]. cbn [read_twice].
  destruct (decide (a ≤ n)%nat) as [Ha|Ha].
  - rewrite (fill_still n (date a)) by (intros k Hk; apply Hq; lia). unfold cmos_read.
    rewrite bool_decide_false by (intros Hx; apply Hx, Hq; lia).
    rewrite (fill_still _ (date a)) by (intros k Hk; apply Hq; lia). rewrite bool_decide_true by done. by eexists.
  - pose proof (fill_end n) as He. destruct (fill_rtcdate cmos n) as [t1 n1] eqn:H1. cbn [fst snd] in He.
    unfold cmos_read. cbv beta iota zeta. case_bool_decide; [apply IH; lia|].
    pose proof (fill_end (S n1)) as He2. destruct (fill_rtcdate cmos (S n1)) as [t2 n2]. cbn [fst snd] in He2.
    case_bool_decide; [by eexists|]. apply IH; lia.
Qed.

(** [cmostime] returns a date that the clock showed while it ran. *)
Theorem cmostime_true a n :
  (∀ k, (a ≤ k < a + 26)%nat → date k = date a ∧ Z.land (cmos k CMOS_STATA) CMOS_UIP = 0) → (n < a)%nat →
  ∃ k n', (n < k)%nat ∧ cmostime cmos (S a) n = Some (Rtcdate (second (date k)) (minute (date k)) (hour (date k))
    (day (date k)) (month (date k)) (year (date k) + 2000), n').
Proof.
  intros Hq Hn. unfold cmostime, cmos_read. rewrite (bool_decide_true _ (is_bcd n)).
  destruct (read_twice_ends a (S a) Hq (S n)) as ([t n'] & Hr); [lia..|]. rewrite Hr.
  apply read_twice_true in Hr as (k & Hk & ->). exists k, n'. split; [lia|].
  destruct (dates_ok k) as (? & ? & ? & ? & ? & ?). simpl. rewrite !CONV_bcd by done.
  rewrite u32_small by lia. done.
Qed.
End clock.
