(* ===== verification/Main.v ===== *)
(** * Start of the kernel and of the other processors (main.c)

    [startothers] tells each processor but the first where to begin and with which
    stack, and waits until it runs; [entrypgdir] is the page directory the processors
    begin with. [main] itself is the order of the calls to the parts of the kernel,
    each of which is in its own file. *)

From S2P Require Import Prelude CString Kalloc Vm Seg Hw HwThm.
Import Hw.

Local Open Scope Z_scope.

Definition PTE_PS : Z := 128.

(** Two entries of 4 MB; the others are 0. *)
Definition entrypgdir : list Z :=
  <[Z.to_nat (Z.shiftr KERNBASE 22) := Z.lor (Z.lor (Z.lor 0 PTE_P) PTE_W) PTE_PS]>
    (<[0%nat := Z.lor (Z.lor (Z.lor 0 PTE_P) PTE_W) PTE_PS]> (replicate (Z.to_nat NPDENTRIES) 0)).

Module Main.
Section main.
(** The loads from the local APIC, the page allocator, the addresses of [mpenter]
    and [entrypgdir], the code of entryother.S, and whether processor [c] has set
    [started] by the [n]-th look. *)
Context (l_in : nat → Z → Z) (kalloc : kM hw Z) (mpenter dir : Z) (entryother : list Z) (started : Z → nat → bool).

Local Open Scope kern_scope.

(** [while(c->started == 0);]: whether it ends within [fuel] looks. *)
Fixpoint wait_started (fuel : nat) (c : Z) (n : nat) : bool :=
  match fuel with O => false | S fuel => if started c n then true else wait_started fuel c (S n) end.

Definition code : Z := p2v 0x7000.

(** The body of the loop: whether it goes on. *)
Definition startother (fuel : nat) (c : Z) : kM hw bool :=
  me ← cpunum l_in false 0;
  if bool_decide (c = me)%Z then kret true
  else
    stack ← kalloc;
    kmodify (λ x, set_pmem (store32 (pmem x) (code - 4) (u32 (stack + KSTACKSIZE))) x) ;;
    kmodify (λ x, set_pmem (store32 (pmem x) (code - 8) mpenter) x) ;;
    kmodify (λ x, set_pmem (store32 (pmem x) (code - 12) (v2p dir)) x) ;;
    x ← kget;
    id ← kunwrap (cpu_id x !! Z.to_nat c);
    lapicstartap l_in id (v2p code) ;;
    kret (wait_started fuel c 0).

Fixpoint startloop (fuel : nat) (cs : list Z) : kM hw bool :=
  match cs with
  | [] => kret true
  | c :: cs => go ← startother fuel c; if (go : bool) then startloop fuel cs else kret false
  end.

(** [true] if it returns. *)
Definition startothers (fuel : nat) : kM hw bool :=
  kmodify (λ x, set_pmem (store_bytes (pmem x) code entryother) x) ;;
  x ← kget;
  startloop fuel (seqZ 0 (ncpu x)).

(** ** Which processors are started *)

(** The interrupts that start processor [id] at 0x7000. *)
Definition ipis (id : Z) : list (Z * Z) :=
  [(ICRHI, u32 (Z.shiftl id 24)); (ICRLO, Z.lor (Z.lor INIT LEVEL) ASSERT); (ICRLO, Z.lor INIT LEVEL);
   (ICRHI, u32 (Z.shiftl id 24)); (ICRLO, Z.lor STARTUP 7); (ICRHI, u32 (Z.shiftl id 24)); (ICRLO, Z.lor STARTUP 7)].

Lemma wp_lapicstartap id x (Q : unit → hw → Prop) :
  lapic x ≠ 0%Z →
  (∀ x', lwrites x' = lwrites x ++ ipis id → lapic x' = lapic x → ncpu x' = ncpu x → cpu_id x' = cpu_id x → Q tt x') →
  wp (lapicstartap l_in id (v2p code)) x Q.
Proof.
  intros Hl HQ. unfold lapicstartap, outb, microdelay.
  apply wp_bind, wp_modify, wp_bind, wp_modify, wp_bind, wp_modify.
  do 2 (apply wp_bind, wp_lapicw; [done|]; intros ?). apply wp_bind, wp_ret.
  apply wp_bind, wp_lapicw; [done|]; intros ?. apply wp_bind, wp_ret. cbn [seq kfor].
  do 2 (apply wp_bind; do 2 (apply wp_bind, wp_lapicw; [done|]; intros ?); apply wp_ret). apply wp_ret.
  apply HQ; simpl; [|done..]. by rewrite <-!app_assoc.
Qed.

(** Processor [me] starts the others, in order: each is sent INIT and twice STARTUP,
    and no other processor is. The allocator does not touch the local APIC, and every
    processor comes up. *)
Theorem startothers_wakes fuel me x :
  lapic x ≠ 0%Z → (∀ n, Z.shiftr (l_in n ID) 24 = me) → (0 ≤ ncpu x)%Z → (∀ i, 0 ≤ i < ncpu x → cpu_id x !! Z.to_nat i = Some i)%Z →
  (∀ y, wp kalloc y (λ _ y', lwrites y' = lwrites y ∧ lapic y' = lapic y ∧ ncpu y' = ncpu y ∧ cpu_id y' = cpu_id y)) →
  (∀ c, wait_started fuel c 0 = true) →
  ∃ x', startothers fuel x = Done true x' ∧
    lwrites x' = lwrites x ++ mjoin (ipis <$> filter (λ c, c ≠ me) (seqZ 0 (ncpu x))).
Proof.
  intros Hl Hme Hn Hids Hk Hst.
  assert (wp (startothers fuel) x (λ go x', go = true ∧
    lwrites x' = lwrites x ++ mjoin (ipis <$> filter (λ c, c ≠ me) (seqZ 0 (ncpu x))))) as Hw.
  2: { apply wp_done in Hw as (? & x' & ? & -> & ?). eauto. }
  unfold startothers. apply wp_bind, wp_modify, wp_bind, wp_get. cbn [ncpu set_pmem].
  assert (∀ cs y, (∀ c, c ∈ cs → cpu_id y !! Z.to_nat c = Some c) → lapic y ≠ 0%Z →
    wp (startloop fuel cs) y (λ go y', go = true ∧ lwrites y' = lwrites y ++ mjoin (ipis <$> filter (λ c, c ≠ me) cs))) as Hloop.
  { induction cs as [|c cs IH]; intros y Hy Hly; cbn [startloop].
    - apply wp_ret. split; [done|]. simpl. by rewrite app_nil_r.
    - apply wp_bind. unfold startother, cpunum, lload. cbn [kwhen].
      apply wp_bind, wp_bind, wp_ret, wp_bind, wp_get. rewrite (bool_decide_false _ Hly).
      apply wp_bind, wp_bind, wp_get. rewrite (bool_decide_false _ Hly). apply wp_bind, wp_put, wp_ret, wp_ret.
      rewrite Hme. case_bool_decide as Hc.
      + apply wp_ret. eapply wp_mono; [apply IH; [set_solver|done]|]. simpl. intros go y' [-> ->]. split; [done|].
        rewrite filter_cons_False by auto. done.
      + apply wp_bind. eapply wp_mono; [apply Hk|]. intros stack y1 (L1 & L2 & L3 & L4). simpl in *.
        apply wp_bind, wp_modify, wp_bind, wp_modify, wp_bind, wp_modify, wp_bind, wp_get. simpl.
        apply wp_bind, (wp_unwrap _ c); [rewrite L4; apply Hy; set_solver|].
        apply wp_bind, wp_lapicstartap; [simpl; by rewrite L2|]. simpl. intros y2 M1 M2 M3 M4.
        apply wp_ret. rewrite Hst. eapply wp_mono; [apply IH; [|congruence]|].
        * intros c' Hc'. rewrite M4, L4. apply Hy. set_solver.
        * intros go y' [-> ->]. split; [done|]. rewrite M1, L1, filter_cons_True by done. simpl. by rewrite <-app_assoc. }
  eapply wp_mono; [apply (Hloop (seqZ 0 (ncpu x)))|]; [|done|].
  - intros c Hc. apply elem_of_seqZ in Hc. apply Hids. lia.
  - done.
Qed.
End main.
End Main.

(** ** The first page directory *)

(** The address an entry of 4 MB gives, if it is present. *)
Definition mmu4 (d : list Z) (va : Z) : option Z :=
  let pde := default 0 (d !! Z.to_nat (PDX va)) in
  if has pde PTE_P && has pde PTE_PS then Some (Z.land pde (Z.lnot 4194303) + va mod 4194304) else None.

(** The first 4 MB of memory are mapped at 0 and at KERNBASE, and nothing else is. *)
Theorem entrypgdir_maps va :
  0 ≤ va < 2 ^ 32 →
  mmu4 entrypgdir va =
    if decide (va < 4194304) then Some va
    else if decide (KERNBASE ≤ va < KERNBASE + 4194304) then Some (va - KERNBASE) else None.
Proof.
  intros Hva. unfold mmu4, PDX. change 0x3FF with (Z.ones 10). rewrite Z.land_ones, Z.shiftr_div_pow2 by lia.
  change (2 ^ 10) with 1024. change (2 ^ 22) with 4194304.
  assert (0 ≤ va / 4194304 < 1024) as Hq by (split; [apply Z.div_pos; lia|apply Z.div_lt_upper_bound; lia]).
  rewrite (Z.mod_small (va / 4194304)) by lia. pose proof (Z.div_mod va 4194304 ltac:(lia)) as Hdm.
  pose proof (Z.mod_pos_bound va 4194304 ltac:(lia)) as Hm. unfold KERNBASE.
  set (q := va / 4194304) in *. unfold entrypgdir. change (Z.to_nat (Z.shiftr KERNBASE 22)) with 512%nat.
  destruct (decide (q = 0)) as [Hq0|Hq0]; [|destruct (decide (q = 512)) as [Hq1|Hq1]].
  - rewrite Hq0, decide_True by lia. change (Z.to_nat 0) with 0%nat. rewrite list_lookup_insert_ne by done.
    rewrite list_lookup_insert_eq by (rewrite length_replicate; apply Nat.lt_0_succ). cbn [default].
    change (Z.land _ (Z.lnot 4194303)) with 0. change (has _ _ && has _ _) with true. cbv iota. f_equal. lia.
  - rewrite Hq1, decide_False, decide_True by lia. change (Z.to_nat 512) with 512%nat.
    rewrite list_lookup_insert_eq by (rewrite length_insert, length_replicate; vm_compute; lia). cbn [default].
    change (Z.land _ (Z.lnot 4194303)) with 0. change (has _ _ && has _ _) with true. cbv iota. f_equal. lia.
  - rewrite decide_False, decide_False by lia. rewrite !list_lookup_insert_ne by lia.
    rewrite lookup_replicate_2 by (unfold NPDENTRIES; lia). done.
Qed.
