(* ===== verification/Exec.v ===== *)
(** * Replacing a program (exec.c, elf.h, and loaduvm of vm.c)

    [exec] reads a program through the file system into a new address space,
    builds the stack of its arguments there and commits the process to it.
    [path] and the strings of [argv] are in the memory of the calling process,
    which stays as it is until the old address space is freed at the end; they
    are passed by value. *)

From S2P Require Import Prelude CString Kalloc Vm Pipe Bio Log Blocks Fs File Sysfile.

Local Open Scope Z_scope.

(** ** The headers of elf.h, as offsets into the bytes of a file *)

Definition ELF_MAGIC : Z := 0x464C457F.
Definition ELF_PROG_LOAD : Z := 1.

Definition sizeof_elfhdr : Z := 52.
Definition sizeof_proghdr : Z := 32.

Record elfhdr := Elfhdr { e_magic : Z; e_entry : Z; e_phoff : Z; e_phnum : Z }.
Definition parse_elfhdr (b : list Z) : elfhdr := Elfhdr (get32 b 0) (get32 b 24) (get32 b 28) (get16 b 44).

Record proghdr := Proghdr { p_type : Z; p_off : Z; p_vaddr : Z; p_filesz : Z; p_memsz : Z }.
Definition parse_proghdr (b : list Z) : proghdr :=
  Proghdr (get32 b 0) (get32 b 4) (get32 b 8) (get32 b 16) (get32 b 20).

(** The bytes of an array of words. *)
Definition word_bytes (w : Z) : list Z := [w mod 256; w / 256 mod 256; w / 65536 mod 256; w / 16777216 mod 256].

(** What follows the last slash of the path [s]. *)
Fixpoint last_elem (last s : list Z) : list Z :=
  match s with
  | [] => last
  | c :: s => last_elem (if bool_decide (c = SLASH) then s else last) s
  end.

(** [safestrcpy(proc->name, last, 16)] over what the array held. *)
Definition copy_name (old last : list Z) : list Z :=
  ubytes (safestrcpy (λ a, byte_at (old ++ last) (Z.to_nat a)) 0 16 16) 0 16.

Module Exec.
Section exec.
(** Blocks on the disk; the symbols [end] and [data]; the device switch. *)
Context (disksize kend kdata : Z).
Abbreviation fst_t := (Fs.st (S := Log.st)).
Context (dev_read : Z → option (nat → Z → kM fst_t (Z * list Z))).
(** What [elf] and the name buffer hold on entry. *)
Context (junk_elf junk_name : list Z).

#[local] Instance ops : BlockOps Log.st := log_ops disksize.
Local Open Scope kern_scope.

(** The process: the files, and the fields of [struct proc] that [exec] changes. *)
Record st := St {
  files : File.st;
  cwd : nat;
  pgdir : Z;
  sz : Z;
  eip : Z;              (* tf->eip *)
  esp : Z;              (* tf->esp *)
  pname : list Z;       (* name[16] *)
}.
Definition set_files (v : File.st) (s : st) : st := St v (cwd s) (pgdir s) (sz s) (eip s) (esp s) (pname s).

Definition infile {A} (m : kM File.st A) : kM st A := kzoom (Lens files set_files) m.
Definition inkmem {A} (m : kM Kalloc.st A) : kM File.st A := kzoom (File.kmeml disksize) m.
Definition end_op : kM File.st unit := File.end_op disksize.
Definition readi (ip : nat) (off n : Z) : kM File.st (Z * list Z) := File.infs (Fs.readi dev_read ip off n).

(** A round reads what fits in a page, and the bytes read are stored even
    when there are too few. *)
Fixpoint loaduvm_loop (fuel : nat) (pgdir addr : Z) (ip : nat) (offset sz i : Z) : kM File.st Z :=
  match fuel with
  | O => kfault
  | S fuel =>
    if bool_decide (i < sz) then
      pte ← inkmem (Vm.walkpgdir pgdir (u32 (addr + i)) false);
      kassert (negb (bool_decide (pte = 0))) "loaduvm: address should exist" ;;
      m ← inkmem Vm.getmem;
      let pa := PTE_ADDR (load32 m pte) in
      let n := if bool_decide (sz - i < PGSIZE) then sz - i else PGSIZE in
      r ← readi ip (u32 (offset + i)) n;
      inkmem (Vm.setmem (λ m, store_bytes m (p2v pa) r.2)) ;;
      if bool_decide (u32 r.1 ≠ n) then kret (-1)
      else loaduvm_loop fuel pgdir addr ip offset sz (u32 (i + PGSIZE))
    else kret 0
  end.

(** One round for each page of the segment. *)
Definition loaduvm (pgdir addr : Z) (ip : nat) (offset sz : Z) : kM File.st Z :=
  kassert (bool_decide (addr mod PGSIZE = 0)) "loaduvm: addr must be page aligned" ;;
  loaduvm_loop (S (Z.to_nat (sz / PGSIZE + 1))) pgdir addr ip offset sz 0.

(** The loop over the [n] program headers left, the next at [off]. [None] is
    [goto bad]. *)
Fixpoint load_segments (n : nat) (pgdir : Z) (ip : nat) (off sz : Z) : kM File.st (option Z) :=
  match n with
  | O => kret (Some sz)
  | S n =>
    r ← readi ip off sizeof_proghdr;
    if bool_decide (u32 r.1 ≠ sizeof_proghdr) then kret None
    else
      let ph := parse_proghdr r.2 in
      let off' := u32 (off + sizeof_proghdr) in
      if bool_decide (p_type ph ≠ ELF_PROG_LOAD) then load_segments n pgdir ip off' sz
      else if bool_decide (p_memsz ph < p_filesz ph) then kret None
      else
        sz ← inkmem (Vm.allocuvm kend pgdir sz (u32 (p_vaddr ph + p_memsz ph)));
        if bool_decide (sz = 0) then kret None
        else
          r ← loaduvm pgdir (p_vaddr ph) ip (p_off ph) (p_filesz ph);
          if bool_decide (r < 0) then kret None else load_segments n pgdir ip off' sz
  end.

(** Pushing the argument strings: the stack pointer after them and their
    addresses. *)
Fixpoint push_args (pgdir sp : Z) (argv : list (list Z)) (argc : nat) : kM File.st (option (Z * list Z)) :=
  match argv with
  | [] => kret (Some (sp, []))
  | a :: argv =>
    if bool_decide (MAXARG ≤ argc)%nat then kret None
    else
      let sp := Z.land (u32 (sp - (Z.of_nat (length a) + 1))) (Z.lnot 3) in
      r ← inkmem (Vm.copyout pgdir sp (a ++ [0]));
      if bool_decide (r < 0) then kret None
      else
        o ← push_args pgdir sp argv (S argc);
        kret ((λ '(sp', ptrs), (sp', sp :: ptrs)) <$> o)
  end.

(** [ustack], with the argument pointers and the null after them. *)
Definition ustack (sp : Z) (ptrs : list Z) : list Z :=
  let argc := Z.of_nat (length ptrs) in
  [0xffffffff; argc; u32 (sp - (argc + 1) * 4)] ++ ptrs ++ [0].

(** [bad:], with the inode if it is still held. *)
Definition bad (pgdir : Z) (ip : option nat) : kM File.st unit :=
  kwhen (bool_decide (pgdir ≠ 0)) (inkmem (Vm.freevm kend pgdir)) ;;
  match ip with Some ip => File.infs (Fs.iunlockput ip) ;; end_op | None => kret tt end.

(** From the loaded segments on, when the file is closed: the stack, and what
    the process is committed to: directory, entry point, size, stack pointer. *)
Definition build_stack (pgdir entry sz : Z) (argv : list (list Z)) : kM File.st (option (Z * Z * Z * Z)) :=
  let sz := PGROUNDUP sz in
  sz ← inkmem (Vm.allocuvm kend pgdir sz (u32 (sz + 2 * PGSIZE)));
  if bool_decide (sz = 0) then bad pgdir None ;; kret None
  else
    inkmem (Vm.clearpteu pgdir (u32 (sz - 2 * PGSIZE))) ;;
    o ← push_args pgdir sz argv 0;
    match o with
    | None => bad pgdir None ;; kret None
    | Some (sp, ptrs) =>
      let us := ustack sp ptrs in
      let sp := u32 (sp - 4 * Z.of_nat (length us)) in
      r ← inkmem (Vm.copyout pgdir sp (us ≫= word_bytes));
      if bool_decide (r < 0) then bad pgdir None ;; kret None
      else kret (Some (pgdir, entry, sz, sp))
    end.

(** From the open inode to the new address space. *)
Definition build (ip : nat) (argv : list (list Z)) : kM File.st (option (Z * Z * Z * Z)) :=
  r ← readi ip 0 sizeof_elfhdr;
  let elf := parse_elfhdr (put_bytes junk_elf 0 r.2) in
  if bool_decide (u32 r.1 < sizeof_elfhdr) then bad 0 (Some ip) ;; kret None
  else if bool_decide (e_magic elf ≠ ELF_MAGIC) then bad 0 (Some ip) ;; kret None
  else
    pgdir ← inkmem (Vm.setupkvm kdata);
    if bool_decide (pgdir = 0) then bad 0 (Some ip) ;; kret None
    else
      o ← load_segments (Z.to_nat (e_phnum elf)) pgdir ip (e_phoff elf) 0;
      match o with
      | None => bad pgdir (Some ip) ;; kret None
      | Some sz => File.infs (Fs.iunlockput ip) ;; end_op ;; build_stack pgdir (e_entry elf) sz argv
      end.

Definition exec (path : list Z) (argv : list (list Z)) : kM st Z :=
  infile File.begin_op ;;
  s ← kget;
  o ← infile (File.infs (Fs.namei dev_read (cwd s) path junk_name));
  match o with
  | None => infile end_op ;; kret (-1)
  | Some ip =>
    infile (File.infs (Fs.ilock ip)) ;;
    o ← infile (build ip argv);
    match o with
    | None => kret (-1)
    | Some (pgdir', entry, sz', sp) =>
      s ← kget;
      let oldpgdir := pgdir s in
      kmodify (λ s, St (files s) (cwd s) pgdir' sz' entry sp (copy_name (pname s) (last_elem path path))) ;;
      kassert (bool_decide (pgdir' ≠ 0)) "switchuvm: no pgdir" ;;
      infile (inkmem (Vm.freevm kend oldpgdir)) ;;
      kret 0
    end
  end.

(** [exec] as [sys_exec] calls it. [pg], [ip] and [nm] are the fields of the process
    that sysfile.c does not use, and [mapped] the memory a directory maps. *)
Definition exec_call (mapped : mem → Z → mem) (pg ip : Z) (nm : list Z) (path : list Z) (argv : list (list Z)) :
    kM Sysfile.st Z := λ s,
  let back x := Sysfile.St (files x) (Sysfile.ofile s) (cwd x)
    (UProc (sz x) (esp x) (mapped (Kalloc.kmem (File.pages (files x))) (pgdir x))) in
  match exec path argv (St (Sysfile.files s) (Sysfile.cwd s) pg (usz (Sysfile.user s)) ip (uesp (Sysfile.user s)) nm) with
  | Done r x => Done r (back x)
  | Slept c x => Slept c (back x)
  | Panic m => Panic m
  | Fault => Fault
  end.
End exec.
End Exec.
