(* ===== verification/SysThm.v ===== *)
(** * Theorems on the system call layer

    Arguments stay inside the calling process, and the reference counts of the
    file table are those of the descriptors, whatever calls are made. *)

From S2P Require Import Prelude CString Kalloc Pipe Bio Log Blocks Fs FsThm FsDir FsSpec File FileThm Sysfile Vm Exec.

Local Open Scope Z_scope.

(** ** Arguments *)

Lemma nul_at_spec m n : ∀ a k,
  nul_at m a n = Some k → (k < n)%nat ∧ m (a + Z.of_nat k) = 0 ∧ ∀ j, (j < k)%nat → m (a + Z.of_nat j) ≠ 0.
Proof.
  induction n as [|n IH]; intros a k; [done|]. cbn [nul_at]. case_bool_decide as Hz.
  - intros [= <-]. rewrite Z.add_0_r. split; [lia|]. split; [done|]. lia.
  - intros Hk. apply fmap_Some in Hk as (k' & Hk & ->). destruct (IH _ _ Hk) as (Hlt & H0 & Hne).
    split; [lia|]. split; [by replace (a + Z.of_nat (S k')) with (a + 1 + Z.of_nat k') by lia|].
    intros [|j] Hj; [by rewrite Z.add_0_r|]. replace (a + Z.of_nat (S j)) with (a + 1 + Z.of_nat j) by lia. apply Hne. lia.
Qed.

Lemma nul_at_none m n : ∀ a j, nul_at m a n = None → (j < n)%nat → m (a + Z.of_nat j) ≠ 0.
Proof.
  induction n as [|n IH]; intros a j Hn Hj; [lia|]. cbn [nul_at] in Hn. case_bool_decide as Hz; [done|].
  apply fmap_None in Hn. destruct j as [|j]; [by rewrite Z.add_0_r|].
  replace (a + Z.of_nat (S j)) with (a + 1 + Z.of_nat j) by lia. apply IH; [done|lia].
Qed.

Lemma ubytes_lookup m a n k : (k < n)%nat → ubytes m a n !! k = Some (m (a + Z.of_nat k)).
Proof. intros Hk. unfold ubytes. rewrite list_lookup_fmap, lookup_seq_lt by done. done. Qed.

(** The 4 bytes of an argument. *)
Lemma fetchint_in u addr v : usz u ≤ KERNBASE → 0 ≤ addr → fetchint u addr = Some v → addr + 4 ≤ usz u.
Proof.
  unfold fetchint, KERNBASE. intros Hsz H0. case_bool_decide; [done|]. simpl. case_bool_decide as Hb; [done|].
  rewrite u32_small in Hb by lia. lia.
Qed.

(** C35: the argument checks keep the kernel inside the memory of the caller. An
    integer argument lies below [proc->sz]. A buffer of [size >= 0] bytes that
    [argptr] accepts lies below it too. A string that [argstr] accepts ends with
    a NUL below it, its bytes being the nonzero ones before; and it rejects an
    address in bounds only when no NUL follows. *)
Theorem args_in_bounds u n :
  0 ≤ usz u ≤ KERNBASE →
  (∀ v, argint u n = Some v → 0 ≤ u32 (uesp u + 4 + 4 * n) ∧ u32 (uesp u + 4 + 4 * n) + 4 ≤ usz u) ∧
  (∀ size p, 0 ≤ size < 2 ^ 31 → argptr u n size = Some p → 0 ≤ p ∧ p + size ≤ usz u) ∧
  (∀ a l, argint u n = Some a → argstr u n = Some l →
     u32 a + Z.of_nat (length l) < usz u ∧ umem u (u32 a + Z.of_nat (length l)) = 0 ∧
     ∀ k b, l !! k = Some b → b = umem u (u32 a + Z.of_nat k) ∧ b ≠ 0) ∧
  (∀ a, argint u n = Some a → argstr u n = None → ∀ x, u32 a ≤ x < usz u → umem u x ≠ 0).
Proof.
  intros Hsz. pose proof (u32_range (uesp u + 4 + 4 * n)) as He. split_and!.
  - intros v Hv. apply fetchint_in in Hv; lia.
  - intros size p Hs. unfold argptr. destruct (argint u n) as [i|]; [|done]. pose proof (u32_range i).
    case_bool_decide; [done|]. simpl. case_bool_decide as Hb; [done|]. intros [= <-]. unfold KERNBASE in Hsz.
    rewrite u32_small in Hb by lia. lia.
  - intros a l Ha. unfold argstr, fetchstr. rewrite Ha. pose proof (u32_range a). case_bool_decide; [done|].
    intros Hl. apply fmap_Some in Hl as (k & Hk & ->). destruct (nul_at_spec _ _ _ _ Hk) as (Hlt & Hz0 & Hne).
    assert (length (ubytes (umem u) (u32 a) k) = k) as -> by (unfold ubytes; by rewrite length_fmap, length_seq).
    split; [lia|]. split; [done|]. intros j b Hb. pose proof (lookup_lt_Some _ _ _ Hb) as Hj.
    unfold ubytes in Hj. rewrite length_fmap, length_seq in Hj. rewrite ubytes_lookup in Hb by done. simplify_eq.
    split; [done|by apply Hne].
  - intros a Ha. unfold argstr, fetchstr. rewrite Ha. pose proof (u32_range a). case_bool_decide; [intros _ x Hx; lia|].
    intros Hn%fmap_None x Hx. pose proof (nul_at_none _ _ _ (Z.to_nat (x - u32 a)) Hn ltac:(lia)) as Hz.
    by replace (u32 a + Z.of_nat (Z.to_nat (x - u32 a))) with x in Hz by lia.
Qed.

(** A caller with 4096 bytes, the string "ab" at 100 and its address as first
    argument. *)
Definition demo_u : uproc :=
  UProc 4096 4000 (store (store (store32 (λ _, 0) 4004 100) 100 97) 101 98).

Lemma args_in_bounds_witness :
  argstr demo_u 0 = Some [97; 98] ∧ argptr demo_u 0 3996 = Some 100 ∧ argptr demo_u 0 3997 = None ∧ 100 + 3996 ≤ usz demo_u.
Proof.
  assert (argstr demo_u 0 = Some [97; 98]) as H1 by (vm_compute; reflexivity).
  assert (argptr demo_u 0 3996 = Some 100) as H2 by (vm_compute; reflexivity).
  split; [exact H1|]. split; [exact H2|]. split; [vm_compute; reflexivity|].
  destruct (args_in_bounds demo_u 0 ltac:(unfold KERNBASE; simpl; lia)) as (_ & Hp & _).
  exact (proj2 (Hp 3996 100 ltac:(lia) H2)).
Defined.

(** ** Reference counts of the file table *)

Section refs.
Context (disksize kend : Z).
Abbreviation fst_t := (Fs.st (S := Log.st)).
Context (dev_read : Z → option (nat → Z → kM fst_t (Z * list Z))).
Context (dev_write : Z → option (nat → list Z → Z → kM fst_t Z)).
Context (junk_de junk_name junk_page : list Z).
#[local] Instance r_ops : BlockOps Log.st := log_ops disksize.
#[local] Instance r_locks : HasLocks File.st := File.file_locks disksize.

(** The counts and types in the table are [r]. *)
Definition cell (x : file) : Z * ftype := (ref x, ftyp x).
Definition counts (r : list (Z * ftype)) (s : File.st) : Prop := cell <$> File.ftable s = r.

Lemma counts_held r h s : counts r s → counts r (set_held h s).
Proof. done. Qed.

Lemma counts_infs {A} r (m : kM fst_t A) : pres (counts r) (File.infs m).
Proof. apply (pres_zoom _ _ (λ _, True)); [intros s _; by destruct (m s)|done|done]. Qed.

Lemma counts_pipe {A} r p (m : kM Pipe.st A) : pres (counts r) (File.inpipe disksize p m).
Proof.
  unfold File.inpipe. pres_go. apply (pres_zoom _ _ (λ _, True)); [intros s _; by destruct (m s)|done|done].
Qed.

Lemma counts_kmem {A} r (m : kM Kalloc.st A) : pres (counts r) (kzoom (File.kmeml disksize) m).
Proof. apply (pres_zoom _ _ (λ _, True)); [intros s _; by destruct (m s)|done|done]. Qed.

Lemma counts_pipeclose r p w : pres (counts r) (File.pipeclose disksize kend p w).
Proof.
  unfold File.pipeclose. apply pres_bind; [apply counts_pipe|intros b]. apply pres_when, pres_bind; [by apply pres_modify|].
  intros _. apply counts_kmem.
Qed.

Lemma counts_acquire r lk : pres (counts r) (acquire lk).
Proof. apply pres_acquire. by intros. Qed.
Lemma counts_release r lk : pres (counts r) (release lk).
Proof. apply pres_release. by intros. Qed.

Lemma counts_begin r : pres (counts r) File.begin_op.
Proof. apply counts_infs. Qed.
Lemma counts_end r : pres (counts r) (File.end_op disksize).
Proof. apply counts_infs. Qed.

#[local] Hint Resolve counts_infs counts_pipe counts_kmem counts_pipeclose counts_acquire counts_release counts_begin counts_end : pres.

Lemma counts_lookup r s f x : counts r s → File.ftable s !! f = Some x → r !! f = Some (cell x).
Proof. intros <- Hx. by rewrite list_lookup_fmap, Hx. Qed.

Lemma counts_insert r s f x : counts r s → counts (<[f := cell x]> r) (File.set_ftable (<[f := x]> (File.ftable s)) s).
Proof. intros <-. unfold counts. simpl. by rewrite list_fmap_insert. Qed.

(** A write of an entry that keeps its count. *)
Lemma counts_foff r f o : pres (counts r) (y ← File.getf f; File.putf f (set_foff (o y) y))%kern.
Proof.
  intros s Hs. unfold File.getf, kbind, kget, kunwrap. destruct (File.ftable s !! f) as [x|] eqn:Hx; [|done]. simpl.
  unfold counts. simpl. rewrite list_fmap_insert. simpl. rewrite list_insert_id; [done|]. by rewrite list_lookup_fmap, Hx.
Qed.

Lemma counts_getf r f : pres (counts r) (File.getf f).
Proof. unfold File.getf. pres_go. Qed.
#[local] Hint Resolve counts_foff counts_getf : pres.

Lemma counts_filestat r f : pres (counts r) (File.filestat disksize f).
Proof. unfold File.filestat. pres_go. Qed.

Lemma counts_pipe_res {A} r c (x : Pipe.res A) : pres (counts r) (File.pipe_res c x).
Proof. unfold File.pipe_res. pres_go. Qed.
#[local] Hint Resolve counts_pipe_res : pres.

Lemma counts_fileread r f n : pres (counts r) (File.fileread disksize dev_read f n).
Proof. unfold File.fileread. pres_go. Qed.

Lemma counts_filewrite_loop r f addr n : ∀ fuel i, pres (counts r) (File.filewrite_loop disksize dev_write fuel f addr i n).
Proof. induction fuel as [|fuel IH]; intros i; cbn [File.filewrite_loop]; pres_go; apply IH. Qed.
#[local] Hint Resolve counts_filewrite_loop : pres.

Lemma counts_filewrite r f addr n : pres (counts r) (File.filewrite disksize dev_write f addr n).
Proof. unfold File.filewrite. pres_go. Qed.

(** The calls that change a count. *)
Lemma free_file_spec l : ∀ i f, File.free_file i l = Some f → (i ≤ f)%nat ∧ ∃ x, l !! (f - i)%nat = Some x ∧ ref x = 0.
Proof.
  induction l as [|x l IH]; intros i f; [done|]. simpl. case_bool_decide as Hx.
  - intros [= <-]. split; [done|]. exists x. by rewrite Nat.sub_diag.
  - intros Hf. destruct (IH _ _ Hf) as (Hi & y & Hy & Hr). split; [lia|]. exists y.
    by replace (f - i)%nat with (S (f - S i)) by lia.
Qed.

Lemma hoare_acquire r lk R : hoare (counts r) (acquire lk) (λ _, counts r) R.
Proof. intros s Hs. unfold acquire. by case_decide. Qed.
Lemma hoare_release r lk R : hoare (counts r) (release lk) (λ _, counts r) R.
Proof. intros s Hs. unfold release. by case_decide. Qed.
Lemma hoare_getf r f R : hoare (counts r) (File.getf f) (λ x s, counts r s ∧ File.ftable s !! f = Some x) R.
Proof. intros s Hs. unfold File.getf, kbind, kget, kunwrap. by destruct (File.ftable s !! f) eqn:Hx. Qed.
Lemma hoare_putf r f x R : hoare (counts r) (File.putf f x) (λ _, counts (<[f := cell x]> r)) R.
Proof. intros s Hs. by apply (counts_insert r s f x). Qed.

(** The entry read is the one of the table. *)
Lemma hoare_getf_at r f c R :
  r !! f = Some c → hoare (counts r) (File.getf f) (λ x s, counts r s ∧ cell x = c) R.
Proof.
  intros Hk. eapply hoare_weaken; [apply (hoare_getf r f R)|done| |done]. intros x s [Hs Hx]. split; [done|].
  pose proof (counts_lookup r s f x Hs Hx). congruence.
Qed.

Lemma hoare_filealloc r :
  (∀ f t, r !! f = Some (0, t) → t = FD_NONE) →
  hoare (counts r) (File.filealloc disksize) (λ o s, match o with
    | None => counts r s
    | Some f => counts (<[f := (1, FD_NONE)]> r) s ∧ r !! f = Some (0, FD_NONE) end) (λ _, False).
Proof.
  intros Hnone. unfold File.filealloc. eapply hoare_bind; [apply hoare_acquire|intros []].
  eapply (hoare_bind _ _ _ (λ t s, counts r s ∧ t = s)); [by intros s Hs|intros t].
  destruct (File.free_file 0 (File.ftable t)) as [f|] eqn:Hf.
  - destruct (free_file_spec _ _ _ Hf) as (_ & x & Hx & Hr). rewrite Nat.sub_0_r in Hx.
    apply (hoare_pre (λ s, counts r s ∧ r !! f = Some (0, FD_NONE))).
    2: { intros s [Hs ->]. split; [done|]. pose proof (counts_lookup r s f x Hs Hx) as Hc. unfold cell in Hc. rewrite Hr in Hc.
         by rewrite Hc, (Hnone f _ Hc). }
    apply hoare_fact. intros H0. eapply hoare_bind; [by apply hoare_getf_at|intros y]. apply hoare_fact. intros [= _ Hy].
    eapply hoare_bind; [apply hoare_putf|intros []]. unfold cell. cbn [ref ftyp set_fref]. rewrite Hy.
    eapply hoare_bind; [apply hoare_release|intros []]. by apply hoare_ret.
  - eapply hoare_bind; [eapply hoare_pre; [apply hoare_release|by intros s [? _]]|intros []]. by apply hoare_ret.
Qed.

Lemma hoare_filedup r f k t :
  r !! f = Some (k, t) → k < 2 ^ 31 - 1 →
  hoare (counts r) (File.filedup disksize f) (λ _ s, counts (<[f := (k + 1, t)]> r) s ∧ 1 ≤ k) (λ _, False).
Proof.
  intros Hk Hlt. unfold File.filedup. eapply hoare_bind; [apply hoare_acquire|intros []].
  eapply hoare_bind; [by apply hoare_getf_at|intros x]. apply hoare_fact. intros [= Hx <-].
  eapply hoare_bind; [apply hoare_assert|intros []]. apply hoare_fact. intros H1%negb_true_iff%bool_decide_eq_false.
  assert ((k + 1, ftyp x) = cell (set_fref (i32 (ref x + 1)) x)) as ->.
  { unfold cell. simpl. f_equal. unfold i32. rewrite Z.mod_small; lia. }
  eapply hoare_bind; [apply hoare_putf|intros []]. eapply hoare_bind; [apply hoare_release|intros []]. apply hoare_ret.
  intros s Hs. split; [done|lia].
Qed.

Lemma awake_pipe {A} p (m : kM Pipe.st A) : awake m → awake (File.inpipe disksize p m).
Proof. intros Hm. unfold File.inpipe. awake_go. intros s. by apply awake_zoom. Qed.

Lemma awake_pipeclose p w : awake (File.pipeclose disksize kend p w).
Proof.
  unfold File.pipeclose. apply awake_bind; [apply awake_pipe; unfold Pipe.pipeclose, Pipe.wakeup; awake_go|intros b].
  apply awake_when, awake_bind; [apply awake_modify|intros _ s]. apply awake_zoom. unfold Kalloc.kfree. awake_go.
Qed.

(** What is left of an entry. *)
Definition closed (k : Z) (t : ftype) : Z * ftype := if decide (k = 1) then (0, FD_NONE) else (k - 1, t).

Lemma hoare_fileclose r f k t :
  r !! f = Some (k, t) → k < 2 ^ 31 →
  hoare (counts r) (File.fileclose disksize kend f) (λ _, counts (<[f := closed k t]> r))
    (λ s, t = FD_INODE ∧ counts (<[f := closed k t]> r) s).
Proof.
  intros Hk Hlt. unfold File.fileclose. eapply hoare_bind; [apply hoare_acquire|intros []].
  eapply hoare_bind; [by apply hoare_getf_at|intros x]. apply hoare_fact. intros [= Hx <-].
  eapply hoare_bind; [apply hoare_assert|intros []]. apply hoare_fact. intros H1%negb_true_iff%bool_decide_eq_false.
  cbv zeta. set (x1 := set_fref (i32 (ref x - 1)) x).
  assert (ref x1 = k - 1) as Hr by (simpl; unfold i32; rewrite Z.mod_small; lia).
  eapply hoare_bind; [apply hoare_putf|intros []]. rewrite Hr. unfold closed.
  assert (cell x1 = (k - 1, ftyp x)) as -> by (unfold cell; by rewrite Hr). case_bool_decide as Hpos.
  { rewrite decide_False by lia. apply hoare_release. }
  rewrite decide_True by lia. change (ftyp x1) with (ftyp x).
  eapply hoare_bind; [apply hoare_putf|intros []]. change (cell _) with (0, FD_NONE). rewrite list_insert_insert_eq.
  eapply hoare_bind; [apply hoare_release|intros []]. destruct (ftyp x).
  - by apply hoare_ret.
  - apply hoare_awake; [apply counts_pipeclose|apply awake_pipeclose].
  - assert (pres (counts (<[f := (0, FD_NONE)]> r)) (File.begin_op ;; File.infs (Fs.iput (ip x1)) ;; File.end_op disksize)%kern) as Hp by pres_go.
    eapply hoare_weaken; [exact Hp|done|done|done].
Qed.

Lemma list_fmap_cell_foff r s f x o : counts r s → File.ftable s !! f = Some x → <[f := cell (set_foff o x)]> r = r.
Proof. intros Hs Hx. change (cell (set_foff o x)) with (cell x). apply list_insert_id. by eapply counts_lookup. Qed.

(** *** The descriptors of the calling process *)

Definition fcount (f : nat) (l : list (option nat)) : Z := Z.of_nat (length (filter (λ o, o = Some f) l)).

(** The table counts, for each file, [g] references besides the descriptors. *)
Record refs_are (g : nat → Z) (s : Sysfile.st) : Prop := {
  ra_ref f x : File.ftable (Sysfile.files s) !! f = Some x → ref x = g f + fcount f (Sysfile.ofile s);
  ra_none f x : File.ftable (Sysfile.files s) !! f = Some x → ref x = 0 → ftyp x = FD_NONE;
  ra_range f : Some f ∈ Sysfile.ofile s → (f < length (File.ftable (Sysfile.files s)))%nat;
  ra_len : length (Sysfile.ofile s) = NOFILE;
}.

Definition gshift (g : nat → Z) (f : nat) (z : Z) : nat → Z := λ f', if decide (f' = f) then g f' + z else g f'.

Lemma refs_ext g g' s : (∀ f, g f = g' f) → refs_are g s → refs_are g' s.
Proof. intros Hg [H1 H2 H3 H4]. split; try done. intros f x Hx. rewrite <-Hg. by apply H1. Qed.

Lemma gshift_back g f z z' : z + z' = 0 → ∀ f', gshift (gshift g f z) f z' f' = g f'.
Proof. intros Hz f'. unfold gshift. case_decide; lia. Qed.

Lemma fcount_insert f l i o o' :
  l !! i = Some o → fcount f (<[i := o']> l) = fcount f l - (if decide (o = Some f) then 1 else 0) + (if decide (o' = Some f) then 1 else 0).
Proof.
  intros Hi. assert (fcount f l = fcount f (take i l ++ o :: drop (S i) l)) as -> by (by rewrite take_drop_middle).
  rewrite insert_take_drop by (by eapply lookup_lt_Some). unfold fcount. rewrite !list.filter_app, !length_app, !list.filter_cons.
  destruct (decide (o = Some f)), (decide (o' = Some f)); simpl; lia.
Qed.

Lemma fcount_range f l : 0 ≤ fcount f l ≤ Z.of_nat (length l).
Proof. unfold fcount. pose proof (length_filter (λ o, o = Some f) l). lia. Qed.

Lemma fcount_pos f l : Some f ∈ l → 1 ≤ fcount f l.
Proof.
  intros Hf. assert (Some f ∈ filter (λ o, o = Some f) l) as Hin by (by apply list_elem_of_filter). unfold fcount.
  destruct (filter _ _); [by apply not_elem_of_nil in Hin|simpl; lia].
Qed.

(** The table a state has, and states with that table. *)
Definition table (s : Sysfile.st) : list (Z * ftype) := cell <$> File.ftable (Sysfile.files s).

Lemma refs_table g s s' :
  refs_are g s → table s' = table s → Sysfile.ofile s' = Sysfile.ofile s → refs_are g s'.
Proof.
  intros [H1 H2 H3 H4] Ht Ho.
  assert (∀ f x, File.ftable (Sysfile.files s') !! f = Some x → ∃ y, File.ftable (Sysfile.files s) !! f = Some y ∧ cell y = cell x) as Hc.
  { intros f x Hx. assert (table s' !! f = Some (cell x)) as Hx' by (unfold table; by rewrite list_lookup_fmap, Hx).
    rewrite Ht in Hx'. unfold table in Hx'. apply list_lookup_fmap_Some in Hx' as (y & Hc & Hy). by exists y. }
  assert (length (File.ftable (Sysfile.files s')) = length (File.ftable (Sysfile.files s))) as Hl.
  { apply (f_equal length) in Ht. unfold table in Ht. by rewrite !length_fmap in Ht. }
  split; rewrite ?Ho, ?Hl; try done.
  - intros f x Hx. destruct (Hc f x Hx) as (y & Hy & [= Hr _]). rewrite <-Hr. by apply H1.
  - intros f x Hx Hz. destruct (Hc f x Hx) as (y & Hy & [= Hr Hf]). rewrite <-Hf. apply (H2 f); [done|by rewrite Hr].
Qed.

(** Calls into the file layer that leave the counts alone. *)
Lemma refs_infile {A} g (m : kM File.st A) : (∀ r, pres (counts r) m) → pres (refs_are g) (Sysfile.infile m).
Proof.
  intros Hm s Hs. specialize (Hm (table s) (Sysfile.files s) eq_refl). unfold Sysfile.infile, kzoom.
  destruct (m _) as [a t|c t| |]; try done; by eapply refs_table.
Qed.

Lemma refs_infs {A} g (m : kM fst_t A) : pres (refs_are g) (Sysfile.infs m).
Proof. apply refs_infile. intros r. apply counts_infs. Qed.
Lemma refs_begin g : pres (refs_are g) Sysfile.begin_op.
Proof. apply refs_infile, counts_begin. Qed.
Lemma refs_end g : pres (refs_are g) (Sysfile.end_op disksize).
Proof. apply refs_infile, counts_end. Qed.
Lemma refs_arg {A} g (f : uproc → option A) : pres (refs_are g) (Sysfile.arg f).
Proof. apply pres_reads, reads_gets. Qed.
Lemma refs_copyout g a l : pres (refs_are g) (Sysfile.copyout a l).
Proof. apply pres_modify. intros s Hs. by eapply refs_table. Qed.
Lemma refs_umem g (f : Sysfile.st → mem) : pres (refs_are g) (kmodify (λ s, Sysfile.set_umem (f s) s)).
Proof. apply pres_modify. intros s Hs. by eapply refs_table. Qed.
Lemma refs_cwd g i : pres (refs_are g) (kmodify (Sysfile.set_cwd i)).
Proof. apply pres_modify. intros s Hs. by eapply refs_table. Qed.
Lemma refs_argfd g n : pres (refs_are g) (Sysfile.argfd n).
Proof. unfold Sysfile.argfd, Sysfile.arg. pres_go. Qed.

#[local] Hint Resolve refs_infs refs_begin refs_end refs_arg refs_copyout refs_umem refs_cwd refs_argfd : pres.
#[local] Hint Extern 1 (pres _ (Sysfile.infile _)) => apply refs_infile : pres.
#[local] Hint Resolve counts_filestat counts_fileread counts_filewrite : pres.
#[local] Hint Unfold Sysfile.geti : pres.

Lemma refs_modi g i f : pres (refs_are g) (Sysfile.modi i f).
Proof. unfold Sysfile.modi, Sysfile.geti. pres_go. Qed.
Lemma refs_geti g i : pres (refs_are g) (Sysfile.geti i).
Proof. apply refs_infs. Qed.
Lemma refs_namei g p : pres (refs_are g) (Sysfile.namei disksize dev_read junk_name p).
Proof. unfold Sysfile.namei. pres_go. Qed.
Lemma refs_nameiparent g p : pres (refs_are g) (Sysfile.nameiparent disksize dev_read junk_name p).
Proof. unfold Sysfile.nameiparent. pres_go. Qed.
Lemma refs_dirlink g i n k : pres (refs_are g) (Sysfile.dirlink disksize dev_read dev_write junk_de i n k).
Proof. apply refs_infs. Qed.
#[local] Hint Resolve refs_modi refs_geti refs_namei refs_nameiparent refs_dirlink : pres.
Lemma refs_link_bad g i : pres (refs_are g) (Sysfile.link_bad disksize i).
Proof. unfold Sysfile.link_bad. pres_go. Qed.

Lemma refs_isdirempty g i : pres (refs_are g) (Sysfile.isdirempty disksize dev_read i).
Proof.
  unfold Sysfile.isdirempty. apply pres_bind; [apply refs_geti|intros x].
  induction (drop 2 (Fs.dir_offs (d_size (idata x)))) as [|off offs IH]; cbn [Sysfile.isdirempty_loop]; pres_go; done.
Qed.
Lemma refs_unlink_bad g i : pres (refs_are g) (Sysfile.unlink_bad disksize i).
Proof. unfold Sysfile.unlink_bad. pres_go. Qed.
#[local] Hint Resolve refs_link_bad refs_isdirempty refs_unlink_bad : pres.

Lemma refs_create g p ty mj mn : pres (refs_are g) (Sysfile.create disksize dev_read dev_write junk_de junk_name p ty mj mn).
Proof. unfold Sysfile.create. pres_go. Qed.
#[local] Hint Resolve refs_create : pres.
Lemma refs_make_node g p ty mj mn : pres (refs_are g) (Sysfile.make_node disksize dev_read dev_write junk_de junk_name p ty mj mn).
Proof. unfold Sysfile.make_node. pres_go. Qed.
#[local] Hint Resolve refs_make_node : pres.

(** The calls that use descriptors but do not open or close them. *)
Lemma refs_sys_read g : pres (refs_are g) (Sysfile.sys_read disksize dev_read).
Proof. unfold Sysfile.sys_read. pres_go. Qed.
Lemma refs_sys_write g : pres (refs_are g) (Sysfile.sys_write disksize dev_write).
Proof. unfold Sysfile.sys_write. pres_go. Qed.
Lemma refs_sys_fstat g : pres (refs_are g) (Sysfile.sys_fstat disksize).
Proof. unfold Sysfile.sys_fstat. pres_go. Qed.
Lemma refs_sys_link g : pres (refs_are g) (Sysfile.sys_link disksize dev_read dev_write junk_de junk_name).
Proof. unfold Sysfile.sys_link. pres_go. Qed.
Lemma refs_sys_unlink g : pres (refs_are g) (Sysfile.sys_unlink disksize dev_read dev_write junk_name).
Proof. unfold Sysfile.sys_unlink. pres_go. Qed.
Lemma refs_sys_mkdir g : pres (refs_are g) (Sysfile.sys_mkdir disksize dev_read dev_write junk_de junk_name).
Proof. unfold Sysfile.sys_mkdir. pres_go. Qed.
Lemma refs_sys_mknod g : pres (refs_are g) (Sysfile.sys_mknod disksize dev_read dev_write junk_de junk_name).
Proof. unfold Sysfile.sys_mknod. pres_go. Qed.
Lemma refs_sys_chdir g : pres (refs_are g) (Sysfile.sys_chdir disksize dev_read junk_name).
Proof. unfold Sysfile.sys_chdir. pres_go. Qed.

(** *** The calls that open and close *)

Lemma refs_update g s s' f c0 c z :
  refs_are g s → table s !! f = Some c0 → table s' = <[f := c]> (table s) → Sysfile.ofile s' = Sysfile.ofile s →
  c.1 = c0.1 + z → (c.1 = 0 → c.2 = FD_NONE) → refs_are (gshift g f z) s'.
Proof.
  intros [H1 H2 H3 H4] Hf Ht Ho Hz Hnone.
  assert (length (File.ftable (Sysfile.files s')) = length (File.ftable (Sysfile.files s))) as Hl.
  { apply (f_equal length) in Ht. unfold table in Ht. by rewrite length_insert, !length_fmap in Ht. }
  assert (∀ f' x, File.ftable (Sysfile.files s') !! f' = Some x →
    if decide (f' = f) then cell x = c else ∃ y, File.ftable (Sysfile.files s) !! f' = Some y ∧ cell y = cell x) as Hc.
  { intros f' x Hx. assert (table s' !! f' = Some (cell x)) as Hx' by (unfold table; by rewrite list_lookup_fmap, Hx).
    rewrite Ht in Hx'. case_decide as He.
    - subst f'. rewrite list_lookup_insert_eq in Hx' by (by eapply lookup_lt_Some). congruence.
    - rewrite list_lookup_insert_ne in Hx' by done. apply list_lookup_fmap_Some in Hx' as (y & Hy & Hy'). by exists y. }
  split; rewrite ?Ho, ?Hl; try done.
  - intros f' x Hx. specialize (Hc f' x Hx). unfold gshift. case_decide as He.
    + subst f'. apply list_lookup_fmap_Some in Hf as (y & -> & Hy). specialize (H1 f y Hy). unfold cell in Hc, Hz.
      rewrite <-Hc in Hz. simpl in Hz. lia.
    + destruct Hc as (y & Hy & [= Hr _]). rewrite <-Hr. by apply H1.
  - intros f' x Hx Hx0. specialize (Hc f' x Hx). case_decide as He.
    + unfold cell in Hc. rewrite <-Hc in Hnone. by apply Hnone.
    + destruct Hc as (y & Hy & [= Hr Hty]). rewrite <-Hty. apply (H2 f'); [done|by rewrite Hr].
Qed.

Lemma refs_slot g s fd o o' f z :
  refs_are g s → Sysfile.ofile s !! fd = Some o → (o = None ∧ o' = Some f ∧ z = -1 ∨ o = Some f ∧ o' = None ∧ z = 1) →
  (f < length (File.ftable (Sysfile.files s)))%nat →
  refs_are (gshift g f z) (Sysfile.set_ofile (<[fd := o']> (Sysfile.ofile s)) s).
Proof.
  intros [H1 H2 H3 H4] Hfd Hoo Hf. split; simpl; try done.
  - intros f' x Hx. rewrite (fcount_insert f' _ fd o o') by done. rewrite (H1 f' x Hx). unfold gshift.
    destruct Hoo as [(-> & -> & ->)|(-> & -> & ->)].
    + rewrite (decide_False (P := None = Some f')) by done. destruct (decide (f' = f)) as [->|].
      * rewrite decide_True by done. lia.
      * rewrite decide_False by congruence. lia.
    + rewrite (decide_False (P := None = Some f')) by done. destruct (decide (f' = f)) as [->|].
      * rewrite decide_True by done. lia.
      * rewrite decide_False by congruence. lia.
  - intros f' Hin. destruct Hoo as [(-> & -> & ->)|(-> & -> & ->)];
      apply list_elem_of_lookup in Hin as [i Hi]; apply list_lookup_insert_Some in Hi as [(_ & He & _)|[_ Hi]];
      try (simplify_eq; done); apply H3; by eapply list_elem_of_lookup_2.
  - by rewrite length_insert.
Qed.

(** With the table fixed. *)
Definition refs_at (g : nat → Z) (r : list (Z * ftype)) (s : Sysfile.st) : Prop := refs_are g s ∧ table s = r.

Lemma table_length s : length (table s) = length (File.ftable (Sysfile.files s)).
Proof. apply length_fmap. Qed.

Lemma free_fd_spec l : ∀ i fd, Sysfile.free_fd i l = Some fd →
  (i ≤ fd)%nat ∧ l !! (fd - i)%nat = Some None ∧ ∀ j, (j < fd - i)%nat → ∃ f, l !! j = Some (Some f).
Proof.
  induction l as [|[f|] l IH]; intros i fd; simpl; [done| |].
  - intros Hf. destruct (IH _ _ Hf) as (Hi & Hn & Hlow). split; [lia|].
    replace (fd - i)%nat with (S (fd - S i)) by lia. split; [done|]. intros [|j] Hj; [by exists f|apply Hlow; lia].
  - intros [= <-]. rewrite Nat.sub_diag. split; [done|]. split; [done|]. lia.
Qed.

Lemma hoare_fdalloc g r f R :
  (f < length r)%nat →
  hoare (refs_at g r) (Sysfile.fdalloc f) (λ o s, match o with
    | None => refs_at g r s
    | Some fd => refs_at (gshift g f (-1)) r s ∧ Sysfile.ofile s !! fd = Some (Some f) end) R.
Proof.
  intros Hf s [Hs Hr]. unfold Sysfile.fdalloc, kbind, kget. destruct (Sysfile.free_fd 0 (Sysfile.ofile s)) as [fd|] eqn:Hfd; [|done].
  destruct (free_fd_spec _ _ _ Hfd) as (_ & Hn & _). rewrite Nat.sub_0_r in Hn. simpl. split; [split; [|done]|].
  - eapply refs_slot; [done|done|by left|]. by rewrite <-table_length, Hr.
  - apply list_lookup_insert_eq. by eapply lookup_lt_Some.
Qed.

Lemma hoare_argfd g n R :
  hoare (refs_are g) (Sysfile.argfd n) (λ o s, match o with
    | None => refs_are g s
    | Some (fd, f) => refs_are g s ∧ Sysfile.ofile s !! fd = Some (Some f) end) R.
Proof.
  intros s Hs. unfold Sysfile.argfd, Sysfile.arg, kbind, kgets. destruct (argint (Sysfile.user s) n) as [fd|]; [|done].
  cbn [kget]. destruct (_ || _); [done|]. unfold kunwrap. by destruct (Sysfile.ofile s !! Z.to_nat fd) as [[f|]|] eqn:Hfd.
Qed.

Lemma open_cell g fd f s : refs_are g s → Sysfile.ofile s !! fd = Some (Some f) → ∃ k t, table s !! f = Some (k, t).
Proof.
  intros Hs Hfd. destruct (lookup_lt_is_Some_2 (table s) f) as [[k t] Hk]; [|by exists k, t].
  rewrite table_length. apply (ra_range _ _ Hs). by eapply list_elem_of_lookup_2.
Qed.

Definition small (g : nat → Z) : Prop := ∀ f, g f ≤ 2 ^ 30.

Lemma refs_bound g s f k t : refs_are g s → small g → table s !! f = Some (k, t) → k ≤ 2 ^ 30 + 16.
Proof.
  intros Hs Hg Hf. apply list_lookup_fmap_Some in Hf as (x & [= -> ->] & Hx). rewrite (ra_ref _ _ Hs f x Hx).
  pose proof (fcount_range f (Sysfile.ofile s)) as Hc. rewrite (ra_len _ _ Hs) in Hc. specialize (Hg f). unfold NOFILE in Hc. lia.
Qed.

Lemma hoare_sys_filedup g r f k t :
  small g → r !! f = Some (k, t) →
  hoare (refs_at g r) (Sysfile.infile (File.filedup disksize f)) (λ _, refs_are (gshift g f 1)) (λ _, False).
Proof.
  intros Hg Hk s [Hs <-]. pose proof (refs_bound g s f k t Hs Hg Hk).
  pose proof (hoare_filedup (table s) f k t Hk ltac:(lia) (Sysfile.files s) eq_refl) as H'. unfold Sysfile.infile, kzoom.
  destruct (File.filedup disksize f _) as [a t'|c t'| |]; try done. destruct H' as [H' H1].
  eapply (refs_update g s _ f (k, t) (k + 1, t)); try done. simpl. lia.
Qed.

Lemma hoare_sys_fileclose g r f k t :
  small g → r !! f = Some (k, t) →
  hoare (refs_at g r) (Sysfile.infile (File.fileclose disksize kend f))
    (λ _, refs_at (gshift g f (-1)) (<[f := closed k t]> r)) (λ s, refs_are (gshift g f (-1)) s ∧ t = FD_INODE).
Proof.
  intros Hg Hk s [Hs <-]. pose proof (refs_bound g s f k t Hs Hg Hk).
  pose proof (hoare_fileclose (table s) f k t Hk ltac:(lia) (Sysfile.files s) eq_refl) as H'. unfold Sysfile.infile, kzoom.
  assert (∀ t', counts (<[f := closed k t]> (table s)) t' → refs_are (gshift g f (-1)) (Sysfile.set_files t' s)) as Hup.
  { intros t' Ht'. eapply (refs_update g s _ f (k, t) (closed k t)); try done; unfold closed; case_decide; simpl; try done; lia. }
  destruct (File.fileclose disksize kend f _) as [a t'|c t'| |]; try done; [split; [by apply Hup|exact H']|].
  destruct H' as [-> H']. split; [by apply Hup|done].
Qed.

Lemma hoare_sys_filealloc g :
  hoare (refs_are g) (Sysfile.infile (File.filealloc disksize)) (λ o s, match o with
    | None => refs_are g s
    | Some f => refs_are (gshift g f 1) s ∧ table s !! f = Some (1, FD_NONE) end) (λ _, False).
Proof.
  intros s Hs. pose proof (hoare_filealloc (table s)) as H. unfold Sysfile.infile, kzoom.
  assert (∀ f t, table s !! f = Some (0, t) → t = FD_NONE) as Hnone.
  { intros f t Hf. apply list_lookup_fmap_Some in Hf as (x & [= Hr ->] & Hx). by apply (ra_none _ _ Hs f). }
  specialize (H Hnone (Sysfile.files s) eq_refl). destruct (File.filealloc disksize _) as [[f|] t'|c t'| |]; try done.
  - destruct H as [H H0]. split.
    + by eapply (refs_update g s _ f (0, FD_NONE) (1, FD_NONE)).
    + unfold table. simpl. rewrite H. apply list_lookup_insert_eq. by eapply lookup_lt_Some.
  - by eapply refs_table.
Qed.

(** A file with an entry in the table. *)
Definition entry_at g f k t (s : Sysfile.st) : Prop := ∃ r, refs_at g r s ∧ r !! f = Some (k, t).

Lemma entry_at_open g fd f s : refs_are g s ∧ Sysfile.ofile s !! fd = Some (Some f) → ∃ k t, entry_at g f k t s.
Proof. intros [Hs Hfd]. destruct (open_cell g fd f s Hs Hfd) as (k & t & Hk). exists k, t, (table s). done. Qed.

Lemma small_shift g f z : small (λ f, g f + 4) → z ≤ 4 → small (gshift g f z).
Proof. intros Hg Hz f'. specialize (Hg f'). unfold gshift. simpl in Hg. case_decide; lia. Qed.

Lemma refs_back g f z z' s : z + z' = 0 → refs_are (gshift (gshift g f z) f z') s → refs_are g s.
Proof. intros Hz. apply refs_ext. by apply gshift_back. Qed.

Lemma refs_sys_dup g : small (λ f, g f + 4) → pres (refs_are g) (Sysfile.sys_dup disksize).
Proof.
  intros Hg. unfold Sysfile.sys_dup. eapply hoare_bind; [apply hoare_argfd|intros [[fd f]|]]; [|by apply hoare_ret].
  eapply hoare_pre; [|apply entry_at_open]. apply hoare_ex. intros k. apply hoare_ex. intros t. apply hoare_ex. intros r.
  apply hoare_fact. intros Hk. eapply hoare_bind; [apply hoare_fdalloc; by eapply lookup_lt_Some|intros [fd'|]].
  2: { apply hoare_ret. by intros s [? _]. }
  eapply hoare_bind; [|intros f'; apply hoare_ret; intros s Hs; exact Hs].
  eapply hoare_weaken; [eapply (hoare_sys_filedup (gshift g f (-1)) r f k t); [by apply small_shift|done]|by intros s [? _]| |done].
  intros f' s Hs. by eapply refs_back; [|exact Hs].
Qed.

Lemma refs_sys_close g : small (λ f, g f + 4) → pres (refs_are g) (Sysfile.sys_close disksize kend).
Proof.
  intros Hg. unfold Sysfile.sys_close. eapply hoare_bind; [apply hoare_argfd|intros [[fd f]|]]; [|by apply hoare_ret].
  apply (hoare_bind _ _ _ (λ _ s, ∃ k t, entry_at (gshift g f 1) f k t s)).
  - apply hoare_modify. intros s [Hs Hfd]. destruct (open_cell g fd f s Hs Hfd) as (k & t & Hk). exists k, t, (table s).
    split; [|done]. split; [|done]. eapply refs_slot; [done|done|by right|]. rewrite <-table_length. by eapply lookup_lt_Some.
  - intros []. apply hoare_ex. intros k. apply hoare_ex. intros t. apply hoare_ex. intros r. apply hoare_fact. intros Hk.
    eapply hoare_bind; [|intros x; apply hoare_ret; intros s Hs; exact Hs].
    eapply hoare_weaken; [eapply (hoare_sys_fileclose (gshift g f 1) r f k t); [by apply small_shift|done]|done| |].
    + intros [] s [Hs _]. by eapply refs_back; [|exact Hs].
    + intros s [Hs _]. by eapply refs_back; [|exact Hs].
Qed.

(** Setting up the file of a new descriptor. *)
Definition kept_fd g fd f (s : Sysfile.st) : Prop := refs_are g s ∧ Sysfile.ofile s !! fd = Some (Some f).

Lemma kept_infile {A} g fd f (m : kM File.st A) : (∀ r, pres (counts r) m) → pres (kept_fd g fd f) (Sysfile.infile m).
Proof.
  intros Hm s [Hs Hf]. specialize (Hm (table s) (Sysfile.files s) eq_refl). unfold Sysfile.infile, kzoom.
  destruct (m _) as [a t|c t| |]; try done; split; try done; by eapply refs_table.
Qed.

Lemma hoare_set_file {A} g fd f (h : file → file) (a : A) R :
  (∀ f, 0 ≤ g f) → (∀ x, ref (h x) = ref x) →
  hoare (kept_fd g fd f) (x ← Sysfile.infile (File.getf f); Sysfile.infile (File.putf f (h x)) ;; kret a)%kern (λ _, refs_are g) R.
Proof.
  intros Hg Hh s [Hs Hfd]. unfold Sysfile.infile, kbind, kzoom. simpl. unfold File.getf, kbind, kget, kunwrap. simpl.
  destruct (File.ftable (Sysfile.files s) !! f) as [x|] eqn:Hx; [|done]. simpl.
  apply (refs_ext (gshift g f 0)); [intros f'; unfold gshift; case_decide; lia|].
  eapply (refs_update g s _ f (cell x) (cell (h x)) 0); try done.
  - unfold table. by rewrite list_lookup_fmap, Hx.
  - unfold table. simpl. by rewrite list_fmap_insert.
  - unfold cell. simpl. rewrite Hh. lia.
  - unfold cell. simpl. rewrite Hh, (ra_ref _ _ Hs f x Hx). intros Hz. exfalso. specialize (Hg f).
    pose proof (fcount_pos f (Sysfile.ofile s) (list_elem_of_lookup_2 _ _ _ Hfd)). lia.
Qed.

Lemma refs_open_inode g i m : small (λ f, g f + 4) → (∀ f, 0 ≤ g f) → pres (refs_are g) (Sysfile.open_inode disksize kend i m).
Proof.
  intros Hg Hpos. unfold Sysfile.open_inode.
  apply (hoare_bind _ _ _ (λ o s, match o with None => refs_are g s | Some f => entry_at (gshift g f 1) f 1 FD_NONE s end)).
  { eapply hoare_weaken; [apply (hoare_sys_filealloc g)|done| |done]. intros [f|] s; [|done]. intros [Hs Hf].
    by exists (table s). }
  intros [f|].
  2: { apply (hoare_bind _ _ _ (λ _, refs_are g)); [by apply hoare_ret|intros o; cbv beta]. by destruct o; pres_go. }
  apply hoare_ex. intros r. apply hoare_fact. intros Hk.
  eapply hoare_bind; [apply hoare_fdalloc; by eapply lookup_lt_Some|intros [fd|]].
  - apply (hoare_pre (kept_fd g fd f)); [|intros s [[Hs _] Hfd]; split; [by eapply refs_back; [|exact Hs]|done]].
    eapply (hoare_bind _ _ _ (λ _, kept_fd g fd f)).
    { eapply hoare_weaken; [apply (kept_infile g fd f); intros; apply counts_infs|done|done|by intros s [? _]]. }
    intros []. eapply (hoare_bind _ _ _ (λ _, kept_fd g fd f)).
    { eapply hoare_weaken; [apply (kept_infile g fd f); intros; apply counts_end|done|done|by intros s [? _]]. }
    intros []. by apply hoare_set_file.
  - eapply (hoare_bind _ _ _ (λ _, refs_are g)).
    { eapply hoare_weaken; [eapply (hoare_sys_fileclose (gshift g f 1) r f 1 FD_NONE); [by apply small_shift|done]|done| |].
      + intros [] s [Hs _]. by eapply refs_back; [|exact Hs].
      + intros s [Hs _]. by eapply refs_back; [|exact Hs]. }
    intros []. pres_go.
Qed.
#[local] Hint Resolve refs_open_inode : pres.

Lemma refs_sys_open g : small (λ f, g f + 4) → (∀ f, 0 ≤ g f) →
  pres (refs_are g) (Sysfile.sys_open disksize kend dev_read dev_write junk_de junk_name).
Proof. intros Hg Hpos. unfold Sysfile.sys_open. pres_go. Qed.

(** *** Pipes *)

Definition unused_none (r : list (Z * ftype)) : Prop := ∀ f t, r !! f = Some (0, t) → t = FD_NONE.

Lemma unused_alloc r f : unused_none r → unused_none (<[f := (1, FD_NONE)]> r).
Proof. intros Hn f' t Hf. apply list_lookup_insert_Some in Hf as [(_ & [= _] & _)|[_ Hf]]. by eapply Hn. Qed.

(** Closing a file that was only just allocated. *)
Lemma hoare_unalloc r f :
  r !! f = Some (0, FD_NONE) →
  hoare (counts (<[f := (1, FD_NONE)]> r)) (File.fileclose disksize kend f) (λ _, counts r) (λ _, False).
Proof.
  intros Hf. assert (<[f := (1, FD_NONE)]> r !! f = Some (1, FD_NONE)) as Hf1.
  { apply list_lookup_insert_eq. by eapply lookup_lt_Some. }
  eapply hoare_weaken; [apply (hoare_fileclose _ f 1 FD_NONE Hf1); lia|done| |by intros s [? _]].
  intros [] s. change (closed 1 FD_NONE) with (0, FD_NONE). by rewrite list_insert_insert_eq, list_insert_id.
Qed.

Lemma hoare_pipealloc r :
  unused_none r →
  hoare (counts r) (File.pipealloc disksize kend junk_page) (λ o s, match o with
    | None => counts r s
    | Some (f0, f1) => counts (<[f1 := (1, FD_PIPE)]> (<[f0 := (1, FD_PIPE)]> r)) s ∧
        f0 ≠ f1 ∧ r !! f0 = Some (0, FD_NONE) ∧ r !! f1 = Some (0, FD_NONE) end) (λ _, False).
Proof.
  intros Hn. unfold File.pipealloc. eapply hoare_bind; [by apply hoare_filealloc|intros [f0|]]; [|by apply hoare_ret].
  apply hoare_fact. intros H0. assert (f0 < length r)%nat as Hlt0 by by eapply lookup_lt_Some.
  eapply hoare_bind; [by apply hoare_filealloc, unused_alloc|intros [f1|]].
  2: { eapply hoare_bind; [by apply hoare_unalloc|intros []]. by apply hoare_ret. }
  apply hoare_fact. intros H1. apply list_lookup_insert_Some in H1 as [(_ & [= _] & _)|[Hne H1]].
  assert (f1 < length r)%nat as Hlt1 by by eapply lookup_lt_Some.
  eapply (hoare_bind _ _ _ (λ _, counts (<[f1 := (1, FD_NONE)]> (<[f0 := (1, FD_NONE)]> r)))).
  { apply hoare_awake; [apply counts_kmem|]. intros s. apply awake_zoom. unfold Kalloc.kalloc. awake_go. }
  intros p. case_bool_decide.
  { rewrite list_insert_insert_ne by done.
    eapply hoare_bind; [apply hoare_unalloc; by rewrite list_lookup_insert_ne|intros []].
    eapply hoare_bind; [by apply hoare_unalloc|intros []]. by apply hoare_ret. }
  eapply (hoare_bind _ _ _ (λ _, counts (<[f1 := (1, FD_NONE)]> (<[f0 := (1, FD_NONE)]> r)))); [by apply hoare_modify|intros []].
  eapply hoare_bind; [apply (hoare_getf_at _ f0 (1, FD_NONE)); rewrite list_lookup_insert_ne by done; by apply list_lookup_insert_eq|intros x0].
  apply hoare_fact. intros [= Hx0 _]. eapply hoare_bind; [apply hoare_putf|intros []]. unfold cell at 1. cbn [ref ftyp]. rewrite Hx0.
  rewrite list_insert_insert_ne, list_insert_insert_eq by done.
  eapply hoare_bind; [apply (hoare_getf_at _ f1 (1, FD_NONE)); apply list_lookup_insert_eq; by rewrite length_insert|intros x1].
  apply hoare_fact. intros [= Hx1 _]. eapply hoare_bind; [apply hoare_putf|intros []]. unfold cell at 1. cbn [ref ftyp]. rewrite Hx1.
  rewrite list_insert_insert_eq. by apply hoare_ret.
Qed.

(** Both ends of the new pipe are referred to, and by no descriptor. *)
Definition ends (f0 f1 : nat) (r : list (Z * ftype)) : Prop :=
  f0 ≠ f1 ∧ r !! f0 = Some (1, FD_PIPE) ∧ r !! f1 = Some (1, FD_PIPE).

Lemma refs_two g s s' f0 f1 :
  refs_are g s → f0 ≠ f1 → table s !! f0 = Some (0, FD_NONE) → table s !! f1 = Some (0, FD_NONE) →
  table s' = <[f1 := (1, FD_PIPE)]> (<[f0 := (1, FD_PIPE)]> (table s)) → Sysfile.ofile s' = Sysfile.ofile s →
  refs_are (gshift (gshift g f0 1) f1 1) s'.
Proof.
  intros Hs Hne H0 H1 Ht Ho.
  set (s1 := Sysfile.set_files (File.set_ftable (<[f0 := MkFile FD_PIPE 1 true true 0 0 0]> (File.ftable (Sysfile.files s))) (Sysfile.files s)) s).
  assert (table s1 = <[f0 := (1, FD_PIPE)]> (table s)) as Ht1 by (unfold table; simpl; by rewrite list_fmap_insert).
  apply (refs_update (gshift g f0 1) s1 s' f1 (0, FD_NONE) (1, FD_PIPE)); [|by rewrite Ht1, list_lookup_insert_ne|by rewrite Ht1|done|done|done].
  by apply (refs_update g s s1 f0 (0, FD_NONE) (1, FD_PIPE)).
Qed.

Lemma hoare_sys_pipealloc g :
  hoare (refs_are g) (Sysfile.infile (File.pipealloc disksize kend junk_page)) (λ o s, match o with
    | None => refs_are g s
    | Some (f0, f1) => ∃ r, refs_at (gshift (gshift g f0 1) f1 1) r s ∧ ends f0 f1 r end) (λ _, False).
Proof.
  intros s Hs. assert (unused_none (table s)) as Hnone.
  { intros f t Hf. apply list_lookup_fmap_Some in Hf as (x & [= Hr ->] & Hx). by apply (ra_none _ _ Hs f). }
  pose proof (hoare_pipealloc (table s) Hnone (Sysfile.files s) eq_refl) as H. unfold Sysfile.infile, kzoom.
  destruct (File.pipealloc disksize kend junk_page _) as [[[f0 f1]|] t'|c t'| |]; try done; [|by eapply refs_table].
  destruct H as (Ht & Hne & H0 & H1). exists (table (Sysfile.set_files t' s)). split; [split; [by eapply refs_two|done]|].
  pose proof (lookup_lt_Some _ _ _ H0). pose proof (lookup_lt_Some _ _ _ H1). unfold table, ends. simpl. rewrite Ht.
  rewrite list_lookup_insert_ne, !list_lookup_insert_eq by (rewrite ?length_insert; done). done.
Qed.

Lemma hoare_fdalloc_kept g r f fd f' R :
  (f < length r)%nat →
  hoare (λ s, refs_at g r s ∧ Sysfile.ofile s !! fd = Some (Some f')) (Sysfile.fdalloc f) (λ o s, match o with
    | None => refs_at g r s ∧ Sysfile.ofile s !! fd = Some (Some f')
    | Some _ => refs_are (gshift g f (-1)) s end) R.
Proof.
  intros Hf s [Hs Hfd]. pose proof (hoare_fdalloc g r f R Hf s Hs) as H. unfold Sysfile.fdalloc, kbind, kget in *.
  destruct (Sysfile.free_fd 0 (Sysfile.ofile s)); [|done]. by destruct H as [[H _] _].
Qed.

Definition nearby (g g' : nat → Z) : Prop := ∀ f, g' f ≤ g f + 2.

Lemma hoare_close_both g g' r f0 f1 R :
  small (λ f, g f + 4) → nearby g g' → ends f0 f1 r → (∀ f, gshift (gshift g' f0 (-1)) f1 (-1) f = g f) →
  hoare (refs_at g' r) (Sysfile.infile (File.fileclose disksize kend f0) ;; Sysfile.infile (File.fileclose disksize kend f1) ;; kret (-1))%kern
    (λ _, refs_are g) R.
Proof.
  intros Hg Hn (Hne & H0 & H1) Hback.
  eapply hoare_bind.
  { eapply hoare_weaken; [apply (hoare_sys_fileclose g' r f0 1 FD_PIPE); [|done]|done|intros a s Hs; exact Hs|by intros s [_ ?]].
    intros f. specialize (Hg f). specialize (Hn f). simpl in Hg. lia. }
  intros []. eapply hoare_bind; [|intros x; apply hoare_ret; intros s Hs; exact Hs].
  eapply hoare_weaken; [apply (hoare_sys_fileclose (gshift g' f0 (-1)) (<[f0 := closed 1 FD_PIPE]> r) f1 1 FD_PIPE);
    [|by rewrite list_lookup_insert_ne]|done| |by intros s [_ ?]].
  - intros f. specialize (Hg f). specialize (Hn f). simpl in Hg. unfold gshift. case_decide; lia.
  - intros [] s [Hs _]. by eapply refs_ext.
Qed.

Lemma refs_sys_pipe g : small (λ f, g f + 4) → pres (refs_are g) (Sysfile.sys_pipe disksize kend junk_page).
Proof.
  intros Hg. unfold Sysfile.sys_pipe. eapply (hoare_bind _ _ _ (λ _, refs_are g)); [apply refs_arg|intros [p|]]; [|by apply hoare_ret].
  eapply hoare_bind; [eapply hoare_weaken; [apply (hoare_sys_pipealloc g)|done|intros a s Hs; exact Hs|done]|].
  intros [[f0 f1]|]; [|by apply hoare_ret]. apply hoare_ex. intros r. apply hoare_fact. intros He.
  pose proof He as (Hne & H0%lookup_lt_Some & H1%lookup_lt_Some).
  set (g2 := gshift (gshift g f0 1) f1 1).
  assert (nearby g g2) as Hn by (intros f; unfold g2, gshift; repeat case_decide; lia).
  assert (∀ f, gshift (gshift g2 f0 (-1)) f1 (-1) f = g f) as Hback by (intros f; unfold g2, gshift; repeat case_decide; lia).
  eapply hoare_bind; [by apply hoare_fdalloc|intros [fd0|]].
  2: { apply (hoare_bind _ _ _ (λ _, refs_at g2 r)); [by apply hoare_ret|intros o].
       apply (hoare_bind _ _ _ (λ _, refs_at g2 r)); [by apply hoare_ret|intros []]. by apply hoare_close_both. }
  eapply hoare_bind; [by apply hoare_fdalloc_kept|intros [fd1|]].
  - eapply (hoare_bind _ _ _ (λ _, refs_are g)); [|intros []; by apply hoare_ret]. eapply hoare_pre; [apply refs_umem|].
    intros s Hs. by eapply refs_ext.
  - eapply (hoare_bind _ _ _ (λ _, refs_at (gshift (gshift g2 f0 (-1)) f0 1) r)).
    + apply hoare_modify. intros s [[Hs Ht] Hfd]. split; [|done]. eapply refs_slot; [done|done|by right|]. by rewrite <-table_length, Ht.
    + intros []. apply hoare_close_both; [done| |done|].
      * intros f. rewrite gshift_back by done. apply Hn.
      * intros f. rewrite <-Hback. unfold gshift. repeat case_decide; lia.
Qed.

(** *** exec *)

Context (kdata : Z) (junk_elf : list Z) (mapped : mem → Z → mem) (pg eip : Z) (nm : list Z).

Local Abbreviation exec_call := (Exec.exec_call disksize kend kdata dev_read junk_elf junk_name mapped pg eip nm).

Lemma counts_execmem {A} r (m : kM Kalloc.st A) : pres (counts r) (Exec.inkmem disksize m).
Proof. apply counts_kmem. Qed.
Lemma counts_execread r i off n : pres (counts r) (Exec.readi disksize dev_read i off n).
Proof. apply counts_infs. Qed.
Lemma counts_execend r : pres (counts r) (Exec.end_op disksize).
Proof. apply counts_end. Qed.
#[local] Hint Resolve counts_execmem counts_execread counts_execend : pres.

Lemma counts_loaduvm r pd a i off n : pres (counts r) (Exec.loaduvm disksize dev_read pd a i off n).
Proof.
  unfold Exec.loaduvm. apply pres_bind; [pres_go|intros []]. generalize (S (Z.to_nat (n / PGSIZE + 1))) as fuel. generalize 0 as k.
  intros k fuel. revert k. induction fuel as [|fuel IH]; intros k; cbn [Exec.loaduvm_loop]; pres_go; apply IH.
Qed.
#[local] Hint Resolve counts_loaduvm : pres.
Lemma counts_load_segments r pd i n : ∀ off sz, pres (counts r) (Exec.load_segments disksize kend dev_read n pd i off sz).
Proof. induction n as [|n IH]; intros off sz; cbn [Exec.load_segments]; pres_go; apply IH. Qed.
Lemma counts_push_args r pd argv : ∀ sp n, pres (counts r) (Exec.push_args disksize pd sp argv n).
Proof. induction argv as [|a argv IH]; intros sp n; cbn [Exec.push_args]; pres_go; apply IH. Qed.
Lemma counts_bad r pd o : pres (counts r) (Exec.bad disksize kend pd o).
Proof. unfold Exec.bad. pres_go. Qed.
#[local] Hint Resolve counts_load_segments counts_push_args counts_bad : pres.
Lemma counts_build_stack r pd e z argv : pres (counts r) (Exec.build_stack disksize kend pd e z argv).
Proof. unfold Exec.build_stack. pres_go. Qed.
#[local] Hint Resolve counts_build_stack : pres.
Lemma counts_build r i argv : pres (counts r) (Exec.build disksize kend kdata dev_read junk_elf i argv).
Proof. unfold Exec.build. pres_go. Qed.

(** [exec] reads the program and builds the address space; it opens and closes no
    file. *)
Lemma counts_exec r path argv :
  pres (λ x, counts r (Exec.files x)) (Exec.exec disksize kend kdata dev_read junk_elf junk_name path argv).
Proof.
  assert (∀ A (m : kM File.st A), pres (counts r) m → pres (λ x, counts r (Exec.files x)) (Exec.infile m)) as Hin.
  { intros A m Hm. by apply (pres_zoom _ _ (counts r)). }
  pose proof counts_build. unfold Exec.exec. pres_go; first [by apply pres_modify|apply Hin; pres_go; auto].
Qed.

Lemma refs_sys_exec g : pres (refs_are g) (Sysfile.sys_exec exec_call).
Proof.
  unfold Sysfile.sys_exec. apply pres_bind; [apply refs_arg|intros a]. apply pres_bind; [apply refs_arg|intros v].
  destruct a as [path|], v as [uargv|]; try apply pres_ret. apply pres_bind; [pres_go|intros s0].
  destruct (Sysfile.exec_args _ _ _ _) as [argv|]; [|apply pres_ret]. intros s Hs. unfold Exec.exec_call.
  pose proof (counts_exec (table s) path argv (Exec.St (Sysfile.files s) (Sysfile.cwd s) pg (usz (Sysfile.user s)) eip
    (uesp (Sysfile.user s)) nm) eq_refl) as Hx.
  destruct (Exec.exec _ _ _ _ _ _ _ _ _) as [z x|c x| |]; try done; by eapply refs_table.
Qed.

(** The calls of sysfile.c. *)
Definition file_calls : list (kM Sysfile.st Z) :=
  [Sysfile.sys_dup disksize; Sysfile.sys_read disksize dev_read; Sysfile.sys_write disksize dev_write;
   Sysfile.sys_close disksize kend; Sysfile.sys_fstat disksize;
   Sysfile.sys_link disksize dev_read dev_write junk_de junk_name; Sysfile.sys_unlink disksize dev_read dev_write junk_name;
   Sysfile.sys_open disksize kend dev_read dev_write junk_de junk_name;
   Sysfile.sys_mkdir disksize dev_read dev_write junk_de junk_name; Sysfile.sys_mknod disksize dev_read dev_write junk_de junk_name;
   Sysfile.sys_chdir disksize dev_read junk_name; Sysfile.sys_exec exec_call; Sysfile.sys_pipe disksize kend junk_page].

Lemma refs_open g s fd f :
  refs_are g s → (∀ f, 0 ≤ g f) → Sysfile.ofile s !! fd = Some (Some f) →
  ∃ x, File.ftable (Sysfile.files s) !! f = Some x ∧ 1 ≤ ref x.
Proof.
  intros Hs Hg Hfd. pose proof (list_elem_of_lookup_2 _ _ _ Hfd) as Hin.
  destruct (lookup_lt_is_Some_2 _ _ (ra_range _ _ Hs f Hin)) as [x Hx]. exists x. split; [done|].
  rewrite (ra_ref _ _ Hs f x Hx). specialize (Hg f). pose proof (fcount_pos f _ Hin). lia.
Qed.

(** C5: reference counts of the file table are exact through every call. If each
    entry of the table counts the descriptors of the caller that refer to it and
    [g] others (of which there are at most 2^29), and unused entries have no type,
    then when any of the 13 calls of sysfile.c, exec with its whole body included,
    returns, on every path of it, the same holds with the same [g]; and so it does
    at the point where a call first sleeps, if it does. So an open descriptor never
    refers to an entry that [filealloc] could hand out. What a call does after it
    has slept is not part of the statement. *)
Theorem descriptors_counted g m s :
  (∀ f, 0 ≤ g f ≤ 2 ^ 29) → m ∈ file_calls → refs_are g s →
  match m s with
  | Done _ s' | Slept _ s' => refs_are g s' ∧ ∀ fd f, Sysfile.ofile s' !! fd = Some (Some f) →
      ∃ x, File.ftable (Sysfile.files s') !! f = Some x ∧ 1 ≤ ref x
  | _ => True
  end.
Proof.
  intros Hg Hm Hs. assert (small (λ f, g f + 4)) as Hsm by (intros f; specialize (Hg f); lia).
  assert (∀ f, 0 ≤ g f) as Hpos by apply Hg.
  assert (pres (refs_are g) m) as Hp.
  { clear Hs. revert m Hm. apply (proj1 (list.Forall_forall (pres (refs_are g)) file_calls)). unfold file_calls.
    repeat (constructor; [solve [apply refs_sys_read|apply refs_sys_write|apply refs_sys_fstat|apply refs_sys_link|apply refs_sys_unlink
      |apply refs_sys_mkdir|apply refs_sys_mknod|apply refs_sys_chdir|apply refs_sys_exec|by apply refs_sys_dup|by apply refs_sys_close|by apply refs_sys_open
      |by apply refs_sys_pipe]|]). constructor. }
  specialize (Hp s Hs). destruct (m s) as [a s'|c s'| |]; try done; (split; [done|intros fd f Hfd; by eapply refs_open]).
Qed.
End refs.

(** A process with the file "hello" of the small file system open at its start
    as descriptor 0, calling with the arguments 0, [p] and [n]. *)
Definition demo_call (p n : Z) : Sysfile.st := Sysfile.St
  (File.set_ftable [MkFile FD_INODE 1 true true 0 1 0; MkFile FD_NONE 0 false false 0 0 0] demo_open)
  (Some 0%nat :: replicate 15 None) 0
  (UProc 4096 4000 (store32 (store32 (store32 (λ _, 0) 4004 0) 4008 p) 4012 (u32 n))).

Lemma demo_call_refs p n : refs_are (λ _, 0) (demo_call p n).
Proof.
  split.
  - intros [|[|f]] x; simpl; intros Hx; simplify_eq; reflexivity.
  - intros [|[|f]] x; simpl; intros Hx; simplify_eq; done.
  - intros f Hin. apply list_elem_of_lookup in Hin as [[|i] Hi]; simpl in Hi; [simplify_eq; simpl; lia|].
    change (replicate 15 (None : option nat) !! i = Some (Some f)) in Hi. by apply lookup_replicate in Hi as [? _].
  - reflexivity.
Qed.

Lemma descriptors_counted_witness :
  ∃ s', Sysfile.sys_dup 1000 (demo_call 0 0) = Done 1 s' ∧ refs_are (λ _, 0) s' ∧
    ref <$> File.ftable (Sysfile.files s') !! 0%nat = Some 2.
Proof.
  assert (match Sysfile.sys_dup 1000 (demo_call 0 0) with
    | Done r s' => r = 1 ∧ ref <$> File.ftable (Sysfile.files s') !! 0%nat = Some 2 | _ => False end) as Hd by (vm_compute; split; reflexivity).
  pose proof (descriptors_counted 1000 0 no_read no_write [] [] [] 0 [] (λ m _, m) 0 0 [] (λ _, 0) (Sysfile.sys_dup 1000) (demo_call 0 0)
    ltac:(lia) ltac:(left) (demo_call_refs 0 0)) as H.
  destruct (Sysfile.sys_dup 1000 (demo_call 0 0)) as [r s'| | |]; try contradiction. destruct Hd as [-> Hr]. exists s'.
  split; [reflexivity|]. split; [exact (proj1 H)|exact Hr].
Defined.

(** [argptr] does not refuse a negative size, and [sys_read] passes it on:
    with a buffer that ends at the end of the process and the count -1 the call
    copies the whole file to it, bytes past [proc->sz] included. *)
Theorem negative_count_overruns :
  argptr (Sysfile.user (demo_call 4095 (-1))) 1 (-1) = Some 4095 ∧
  match Sysfile.sys_read 1000 no_read (demo_call 4095 (-1)) with
  | Done r s' => r = 5 ∧ usz (Sysfile.user s') = 4096 ∧
      umem (Sysfile.user (demo_call 4095 (-1))) 4097 = 0 ∧ umem (Sysfile.user s') 4097 = 108
  | _ => False
  end.
Proof. vm_compute. repeat split. Qed.
