(* ===== verification/ExecThm.v ===== *)
(** * Theorems on exec

    [exec] against an interface to the file system: what it loads, what it
    leaves when it fails, and what a crafted program can do to it. *)

From S2P Require Import Prelude CString Kalloc Pipe Bio Log Blocks Fs FsThm FsDir FsSpec File Sysfile Vm VmThm VmSpec Exec.

Local Open Scope Z_scope.

(** The rest of the code runs from where a call that returns has left off. *)
Lemma wp_run {S A B} (φ : outcome S B → Prop) (m : kM S A) (k : A → kM S B) s (P : A → S → Prop) :
  wp m s P → (∀ a s', P a s' → φ (k a s')) → φ (kbind m k s).
Proof. unfold wp, kbind. destruct (m s) as [a s'| | |]; try done. auto. Qed.

Lemma wp_pres {S A} (I : S → Prop) (m : kM S A) s (Q : A → S → Prop) :
  pres I m → I s → wp m s Q → wp m s (λ a s', Q a s' ∧ I s').
Proof. intros Hp Hs. specialize (Hp s Hs). unfold wp. destruct (m s); [done|done|done|done]. Qed.

(** ** The page tables are handled without holding a lock across calls *)

Definition unlocked (s : Kalloc.st) : Prop := Kalloc.sheld s = [].

Lemma unlocked_kalloc : pres unlocked Kalloc.kalloc.
Proof.
  intros [h u f m] Hs. unfold unlocked in *. simpl in Hs. subst h.
  unfold Kalloc.kalloc, kbind, kget, kwhen, acquire, release, kmodify, kret. destruct u; simpl.
  - case_bool_decide; simpl; done.
  - by case_bool_decide.
Qed.

Lemma unlocked_kfree kend v : pres unlocked (Kalloc.kfree kend v).
Proof.
  intros [h u f m] Hs. unfold unlocked in *. simpl in Hs. subst h.
  unfold Kalloc.kfree, kbind, kget, kwhen, acquire, release, kmodify, kret, kassert.
  destruct (Kalloc.page_ok kend v); [|done]. by destruct u.
Qed.

Lemma unlocked_setmem f : pres unlocked (Vm.setmem f).
Proof. by apply pres_modify. Qed.

#[local] Hint Resolve unlocked_kalloc unlocked_kfree unlocked_setmem : pres.

Lemma unlocked_walk pgdir va alloc : pres unlocked (Vm.walkpgdir pgdir va alloc).
Proof. unfold Vm.walkpgdir, Vm.getmem. cbv zeta. pres_go. Qed.
#[local] Hint Resolve unlocked_walk : pres.

Lemma unlocked_mappages_loop fuel : ∀ pgdir a last pa perm, pres unlocked (Vm.mappages_loop fuel pgdir a last pa perm).
Proof. induction fuel as [|fuel IH]; intros; simpl; unfold Vm.getmem; pres_go. Qed.

Lemma unlocked_mappages pgdir va size pa perm : pres unlocked (Vm.mappages pgdir va size pa perm).
Proof. apply unlocked_mappages_loop. Qed.
#[local] Hint Resolve unlocked_mappages : pres.

Lemma unlocked_map_all pgdir ks : pres unlocked (Vm.map_all pgdir ks).
Proof. induction ks; simpl; pres_go. Qed.
#[local] Hint Resolve unlocked_map_all : pres.

Lemma unlocked_setupkvm kdata : pres unlocked (Vm.setupkvm kdata).
Proof. unfold Vm.setupkvm. pres_go. Qed.

Lemma unlocked_dealloc_loop kend fuel : ∀ pgdir a oldsz, pres unlocked (Vm.deallocuvm_loop kend fuel pgdir a oldsz).
Proof. induction fuel as [|fuel IH]; intros; simpl; unfold Vm.getmem; pres_go. Qed.
#[local] Hint Resolve unlocked_dealloc_loop : pres.

Lemma unlocked_dealloc kend pgdir o n : pres unlocked (Vm.deallocuvm kend pgdir o n).
Proof. unfold Vm.deallocuvm. pres_go. Qed.
#[local] Hint Resolve unlocked_dealloc : pres.

Lemma unlocked_alloc_loop kend fuel : ∀ pgdir a oldsz newsz, pres unlocked (Vm.allocuvm_loop kend fuel pgdir a oldsz newsz).
Proof. induction fuel as [|fuel IH]; intros; simpl; pres_go. Qed.
#[local] Hint Resolve unlocked_alloc_loop : pres.

Lemma unlocked_alloc kend pgdir o n : pres unlocked (Vm.allocuvm kend pgdir o n).
Proof. unfold Vm.allocuvm. pres_go. Qed.

Lemma unlocked_freevm kend pgdir : pres unlocked (Vm.freevm kend pgdir).
Proof.
  unfold Vm.freevm, Vm.getmem. apply pres_bind; [pres_go|intros ?]. apply pres_bind; [pres_go|intros ?].
  apply pres_bind; [|intros ?; pres_go]. generalize (seqZ 0 NPDENTRIES). intros l. induction l; simpl; pres_go.
Qed.

Lemma unlocked_clearpteu pgdir uva : pres unlocked (Vm.clearpteu pgdir uva).
Proof. unfold Vm.clearpteu. pres_go. Qed.

Lemma unlocked_copyout pgdir va buf : pres unlocked (Vm.copyout pgdir va buf).
Proof.
  unfold Vm.copyout. generalize (S (length buf)). intros fuel. revert va buf.
  induction fuel as [|fuel IH]; intros; simpl; unfold Vm.uva2ka, Vm.getmem; pres_go.
Qed.
#[local] Hint Resolve unlocked_setupkvm unlocked_alloc unlocked_freevm unlocked_clearpteu unlocked_copyout : pres.

(** ** What exec relies on of the file system

    The call is in one of four phases of its use of the file; [Open] is with
    the inode locked. The file system promises the content of the file at
    [path], or that there is none. *)

Inductive phase := Idle | InOp | Ref (ip : nat) | Open (ip : nat).

(** What [readi] of [n] bytes at [off] returns for content [c]. *)
Definition read_at (c : list Z) (off n : Z) : Z * list Z :=
  let len := Z.of_nat (length c) in
  if decide (off ≤ len ∧ off + n < 2 ^ 32)
  then (Z.min n (len - off), take (Z.to_nat n) (drop (Z.to_nat off) c)) else (-1, []).

(** ** What a user program sees *)

Abbreviation view := (Z → option Z).

(** Fresh pages from [a] up to [b]. *)
Definition extend (a b : Z) (f : view) : view := λ va, if decide (4096 * up a ≤ va < 4096 * up b) then Some 0 else f va.
(** [bs] written at [a]. *)
Definition blit (f : view) (a : Z) (bs : list Z) : view :=
  λ va, if decide (a ≤ va < a + Z.of_nat (length bs)) then bs !! Z.to_nat (va - a) else f va.

Lemma blit_nil f a va : blit f a [] va = f va.
Proof. unfold blit. simpl. by rewrite decide_False by lia. Qed.

Lemma blit_app f a b1 b2 va : blit (blit f a b1) (a + Z.of_nat (length b1)) b2 va = blit f a (b1 ++ b2) va.
Proof.
  unfold blit. rewrite length_app. destruct (decide (a + Z.of_nat (length b1) ≤ va < a + Z.of_nat (length b1) + Z.of_nat (length b2))).
  - rewrite decide_True by lia. rewrite lookup_app_r by lia. f_equal. lia.
  - destruct (decide (a ≤ va < a + Z.of_nat (length b1))).
    + rewrite decide_True by lia. by rewrite lookup_app_l by lia.
    + by rewrite decide_False by lia.
Qed.

Lemma blit_ext f g a bs va : (∀ x, f x = g x) → blit f a bs va = blit g a bs va.
Proof. intros H. unfold blit. by rewrite H. Qed.

(** The decisions of the loop over the program headers, and the memory it
    builds: [None] where exec gives up. *)
Definition phdr (c : list Z) (off : Z) : proghdr := parse_proghdr (take 32 (drop (Z.to_nat off) c)).

Fixpoint plan (c : list Z) (n : nat) (off sz : Z) (f : view) : option (Z * view) :=
  match n with
  | O => Some (sz, f)
  | S n =>
    let len := Z.of_nat (length c) in
    let ph := phdr c off in
    if decide (off + 32 ≤ len) then
      if decide (p_type ph ≠ ELF_PROG_LOAD) then plan c n (off + 32) sz f
      else if decide (p_memsz ph < p_filesz ph) then None
      else if decide (KERNBASE ≤ p_vaddr ph + p_memsz ph) then None
      else
        let sz' := Z.max sz (p_vaddr ph + p_memsz ph) in
        if decide (sz' = 0) then None
        else if decide (p_filesz ph = 0 ∨ p_off ph + p_filesz ph ≤ len) then
          plan c n (off + 32) sz'
            (blit (extend sz sz' f) (p_vaddr ph) (take (Z.to_nat (p_filesz ph)) (drop (Z.to_nat (p_off ph)) c)))
        else None
    else None
  end.

(** What exec needs of the headers not to bring the kernel down: segments on
    page boundaries whose end does not wrap around. [B] bounds those that fit
    below the kernel. *)
Definition seg_safe (B : Z) (ph : proghdr) : Prop :=
  p_type ph = ELF_PROG_LOAD → p_filesz ph ≤ p_memsz ph →
  p_vaddr ph mod 4096 = 0 ∧ p_vaddr ph + p_memsz ph < 2 ^ 32 ∧ (p_vaddr ph + p_memsz ph < KERNBASE → p_vaddr ph + p_memsz ph ≤ B).

Definition segs_safe (B : Z) (c : list Z) (n : nat) (off : Z) : Prop :=
  ∀ j, (j < n)%nat → off + 32 * Z.of_nat j + 32 ≤ Z.of_nat (length c) → seg_safe B (phdr c (off + 32 * Z.of_nat j)).

Lemma segs_safe_S B c n off : segs_safe B c (S n) off → segs_safe B c n (off + 32).
Proof.
  intros H j Hj. specialize (H (S j) ltac:(lia)). replace (off + 32 * Z.of_nat (S j)) with (off + 32 + 32 * Z.of_nat j) in H by lia. done.
Qed.

Lemma get32_uint l i : bytes l → 0 ≤ get32 l i < 2 ^ 32.
Proof.
  intros Hl. unfold get32. pose proof (byte_at_range l i Hl). pose proof (byte_at_range l (i + 1) Hl).
  pose proof (byte_at_range l (i + 2) Hl). pose proof (byte_at_range l (i + 3) Hl). lia.
Qed.

Lemma phdr_range c off : bytes c → let ph := phdr c off in
  0 ≤ p_type ph < 2 ^ 32 ∧ 0 ≤ p_off ph < 2 ^ 32 ∧ 0 ≤ p_vaddr ph < 2 ^ 32 ∧ 0 ≤ p_filesz ph < 2 ^ 32 ∧ 0 ≤ p_memsz ph < 2 ^ 32.
Proof.
  intros Hc ph. assert (bytes (take 32 (drop (Z.to_nat off) c))) as Hb by (by apply Forall_take, Forall_drop).
  unfold ph, phdr, parse_proghdr. simpl. repeat split; try apply get32_uint; by try apply get32_uint.
Qed.

(** The stack: two pages, the lower one closed, with the argument strings
    pushed from the top. [base] is the bottom of the upper page. *)
Definition with_stack (sz : Z) (f : view) : view :=
  λ va, if decide (sz ≤ va < sz + 4096) then None else extend sz (sz + 8192) f va.

Fixpoint push_plan (base sp : Z) (argv : list (list Z)) (argc : nat) (f : view) : option (Z * list Z * view) :=
  match argv with
  | [] => Some (sp, [], f)
  | a :: argv =>
    let sp' := (sp - (Z.of_nat (length a) + 1)) / 4 * 4 in
    if decide (MAXARG ≤ argc)%nat then None
    else if decide (sp' < base) then None
    else match push_plan base sp' argv (S argc) (blit f sp' (a ++ [0])) with
         | Some (e, ptrs, g) => Some (e, sp' :: ptrs, g)
         | None => None
         end
  end.

Lemma push_plan_length base argv : ∀ sp argc f e ptrs g,
  push_plan base sp argv argc f = Some (e, ptrs, g) → (argc ≤ MAXARG)%nat → (argc + length ptrs ≤ MAXARG)%nat.
Proof.
  induction argv as [|a argv IH]; intros sp argc f e ptrs g; cbn [push_plan].
  - intros [= <- <- <-] H. simpl. lia.
  - cbv zeta. destruct (decide (MAXARG ≤ argc)%nat); [done|]. destruct (decide _); [done|].
    destruct (push_plan _ _ _ _ _) as [[[e' ps] g']|] eqn:Hp; [|done]. intros [= <- <- <-] H. simpl. apply IH in Hp; lia.
Qed.

Definition stack_plan (z : Z) (f : view) (argv : list (list Z)) : option (Z * Z * view) :=
  let sz1 := 4096 * up z in
  if decide (KERNBASE ≤ sz1 + 8192) then None
  else match push_plan (sz1 + 4096) (sz1 + 8192) argv 0 (with_stack sz1 f) with
       | None => None
       | Some (e, ptrs, g) =>
         let us := Exec.ustack e ptrs in
         let sp := e - 4 * Z.of_nat (length us) in
         if decide (sp < sz1 + 4096) then None else Some (sz1 + 8192, sp, blit g sp (us ≫= word_bytes))
       end.

(** All of exec, for a file with content [c]: the entry point, the size, the
    stack pointer and what the new program sees. *)
Definition exec_plan (c : list Z) (argv : list (list Z)) : option (Z * Z * Z * view) :=
  let h := parse_elfhdr (take 52 c) in
  if decide (length c < 52)%nat then None
  else if decide (e_magic h ≠ ELF_MAGIC) then None
  else match plan c (Z.to_nat (e_phnum h)) (e_phoff h) 0 (λ _, None) with
       | None => None
       | Some (z, f) =>
         match stack_plan z f argv with None => None | Some (sz, sp, g) => Some (e_entry h, sz, sp, g) end
       end.

(** ** What the new program finds in memory *)

Definition uword (f : view) (a : Z) : option Z :=
  match f a, f (a + 1), f (a + 2), f (a + 3) with
  | Some b0, Some b1, Some b2, Some b3 => Some (b0 + b1 * 2 ^ 8 + b2 * 2 ^ 16 + b3 * 2 ^ 24)
  | _, _, _, _ => None
  end.

(** The string [a] with its final zero at address [p]. *)
Definition cstring (f : view) (p : Z) (a : list Z) : Prop := ∀ j b, (a ++ [0]) !! j = Some b → f (p + Z.of_nat j) = Some b.

(** The stack on entry to [main(argc, argv)], below [top]. *)
Record main_args (f : view) (sp top : Z) (argv : list (list Z)) : Prop := {
  ma_fits : sp + 16 + 4 * Z.of_nat (length argv) ≤ top;
  ma_ret : uword f sp = Some 0xffffffff;
  ma_argc : uword f (sp + 4) = Some (Z.of_nat (length argv));
  ma_argv : uword f (sp + 8) = Some (sp + 12);
  ma_args i a : argv !! i = Some a → ∃ p, uword f (sp + 12 + 4 * Z.of_nat i) = Some p ∧ sp < p ∧ p + Z.of_nat (length a) < top ∧ cstring f p a;
  ma_null : uword f (sp + 12 + 4 * Z.of_nat (length argv)) = Some 0;
}.

(** The memory of the program in file [c]: the segments, one page that is
    closed, one page of stack, and nothing else. *)
Record image (c : list Z) (argv : list (list Z)) (entry sz sp : Z) (f : view) : Prop := {
  im_entry : entry = e_entry (parse_elfhdr (take 52 c));
  im_segs : let h := parse_elfhdr (take 52 c) in
    ∃ z g, plan c (Z.to_nat (e_phnum h)) (e_phoff h) 0 (λ _, None) = Some (z, g) ∧ sz = 4096 * up z + 8192 ∧
      ∀ va, 0 ≤ va < sz - 8192 → f va = g va;
  im_guard va : sz - 8192 ≤ va < sz - 4096 → f va = None;
  im_stack : sz - 4096 ≤ sp ∧ main_args f sp sz argv;
  im_size : 8192 ≤ sz < KERNBASE;
}.

Lemma word_bytes_word w f a : 0 ≤ w < 2 ^ 32 → (∀ j b, word_bytes w !! j = Some b → f (a + Z.of_nat j) = Some b) → uword f a = Some w.
Proof.
  intros Hw Hf. pose proof (Hf 0%nat _ eq_refl) as H0. pose proof (Hf 1%nat _ eq_refl) as H1.
  pose proof (Hf 2%nat _ eq_refl) as H2. pose proof (Hf 3%nat _ eq_refl) as H3. simpl in *. rewrite Z.add_0_r in H0.
  change (Z.of_nat 1) with 1 in H1. change (Z.of_nat 2) with 2 in H2. change (Z.of_nat 3) with 3 in H3.
  unfold uword. rewrite H0, H1, H2, H3. f_equal.
  replace 65536 with (256 * 256) by done. replace 16777216 with (256 * 256 * 256) by done. rewrite <-!Z.div_div by lia.
  set (q1 := w / 256). set (q2 := q1 / 256). set (q3 := q2 / 256).
  pose proof (Z.div_mod w 256 ltac:(lia)). pose proof (Z.div_mod q1 256 ltac:(lia)). pose proof (Z.div_mod q2 256 ltac:(lia)).
  assert (0 ≤ q3 < 256) by (unfold q3, q2, q1; rewrite !Z.div_div by lia; split; [apply Z.div_pos; lia|apply Z.div_lt_upper_bound; lia]).
  rewrite (Z.mod_small q3) by done. lia.
Qed.

Lemma words_lookup ws : ∀ i w j b,
  ws !! i = Some w → word_bytes w !! j = Some b → (ws ≫= word_bytes) !! (4 * i + j)%nat = Some b.
Proof.
  induction ws as [|w0 ws IH]; intros i w j b Hi Hj; [done|]. rewrite bind_cons. destruct i as [|i]; simpl in Hi.
  - simplify_eq. rewrite Nat.mul_0_r, Nat.add_0_l. rewrite lookup_app_l; [done|]. by eapply lookup_lt_Some.
  - rewrite lookup_app_r by (simpl; lia). change (length (word_bytes w0)) with 4%nat.
    replace (4 * S i + j - 4)%nat with (4 * i + j)%nat by lia. by eapply IH.
Qed.

Lemma blit_in f a bs j b : bs !! j = Some b → blit f a bs (a + Z.of_nat j) = Some b.
Proof.
  intros Hj. pose proof (lookup_lt_Some _ _ _ Hj). unfold blit. rewrite decide_True by lia.
  replace (Z.to_nat (a + Z.of_nat j - a)) with j by lia. done.
Qed.

Lemma blit_out f a bs x : x < a ∨ a + Z.of_nat (length bs) ≤ x → blit f a bs x = f x.
Proof. intros H. unfold blit. by rewrite decide_False by lia. Qed.

Lemma blit_words g sp ws i w : ws !! i = Some w → 0 ≤ w < 2 ^ 32 → uword (blit g sp (ws ≫= word_bytes)) (sp + 4 * Z.of_nat i) = Some w.
Proof.
  intros Hi Hw. apply word_bytes_word; [done|]. intros j b Hj. pose proof (words_lookup ws i w j b Hi Hj) as Hl.
  replace (sp + 4 * Z.of_nat i + Z.of_nat j) with (sp + Z.of_nat (4 * i + j)) by lia. by apply blit_in.
Qed.

Lemma plan_grows c n : ∀ off sz f z g, plan c n off sz f = Some (z, g) → sz ≤ z.
Proof.
  induction n as [|n IH]; intros off sz f z g; cbn [plan]; [by intros [= <- <-]|]. cbv zeta.
  repeat case_decide; try done; intros Hz%IH; lia.
Qed.

Lemma push_plan_strings base argv : ∀ sp argc f e ptrs g,
  push_plan base sp argv argc f = Some (e, ptrs, g) → base ≤ sp →
  base ≤ e ≤ sp ∧ (∀ va, va < e ∨ sp ≤ va → g va = f va) ∧
  Forall2 (λ a p, base ≤ p ∧ p + Z.of_nat (length a) < sp ∧ e ≤ p ∧ cstring g p a) argv ptrs.
Proof.
  induction argv as [|a argv IH]; intros sp argc f e ptrs g; cbn [push_plan].
  - intros [= <- <- <-] H. split; [lia|]. split; [done|constructor].
  - cbv zeta. destruct (decide (MAXARG ≤ argc)%nat); [done|]. set (sp' := (sp - (Z.of_nat (length a) + 1)) / 4 * 4).
    destruct (decide (sp' < base)); [done|].
    destruct (push_plan _ _ _ _ _) as [[[e' ps] g']|] eqn:Hp; [|done]. intros [= <- <- <-] H.
    assert (sp' ≤ sp - (Z.of_nat (length a) + 1)) as Hsp'.
    { unfold sp'. pose proof (Z.div_mod (sp - (Z.of_nat (length a) + 1)) 4 ltac:(lia)).
      pose proof (Z.mod_pos_bound (sp - (Z.of_nat (length a) + 1)) 4 ltac:(lia)). lia. }
    apply IH in Hp as (He & Hkeep & Hall); [|lia]. assert (length (a ++ [0]) = S (length a)) as Hla by (rewrite length_app; simpl; lia).
    split; [lia|]. split.
    + intros va Hva. rewrite Hkeep by lia. apply blit_out. lia.
    + constructor.
      * split; [lia|]. split; [lia|]. split; [lia|]. intros j b Hj. rewrite Hkeep by lia. by apply blit_in.
      * eapply list.Forall2_impl; [exact Hall|]. intros a' p (? & ? & ? & ?). split_and!; try done; lia.
Qed.

Lemma exec_plan_image c argv entry sz sp f : exec_plan c argv = Some (entry, sz, sp, f) → image c argv entry sz sp f.
Proof.
  unfold exec_plan. set (h := parse_elfhdr (take 52 c)). destruct (decide (length c < 52)%nat); [done|].
  destruct (decide (e_magic h ≠ ELF_MAGIC)); [done|]. destruct (plan c _ _ 0 _) as [[z g]|] eqn:Hplan; [|done].
  unfold stack_plan. cbv zeta. set (sz1 := 4096 * up z). destruct (decide (KERNBASE ≤ sz1 + 8192)) as [|Hk]; [done|].
  destruct (push_plan _ _ argv 0 _) as [[[e ptrs] g7]|] eqn:Hpush; [|done]. set (us := Exec.ustack e ptrs).
  destruct (decide (_ < sz1 + 4096)) as [|Hsp]; [done|]. intros [= <- <- <- <-].
  apply push_plan_strings in Hpush as (He & Hkeep & Hall); [|lia]. set (sp := e - 4 * Z.of_nat (length us)) in *.
  assert (length us = length argv + 4)%nat as Hul.
  { unfold us, Exec.ustack. rewrite !length_app, (list.Forall2_length _ _ _ Hall). simpl. lia. }
  assert (length (us ≫= word_bytes) = 4 * length us)%nat as Hwl.
  { clear. induction us; [done|]. rewrite bind_cons, length_app, IHus. simpl. lia. }
  pose proof (plan_grows c _ _ _ _ _ _ Hplan) as Hz. pose proof (up_mono 0 z Hz) as Hupz. change (up 0) with 0 in Hupz.
  set (f := blit g7 sp (us ≫= word_bytes)).
  assert (∀ va, va < sp ∨ e ≤ va → f va = g7 va) as Hf by (intros va Hva; apply blit_out; rewrite Hwl; unfold sp in *; lia).
  assert (∀ i w, us !! i = Some w → 0 ≤ w < 2 ^ 32 → uword f (sp + 4 * Z.of_nat i) = Some w) as Hw by (intros i w; apply blit_words).
  pose proof (list.Forall2_length _ _ _ Hall) as Hlen. unfold KERNBASE in Hk.
  split; [done|..].
  - exists z, g. split; [done|]. split; [done|]. intros va Hva. rewrite Hf, Hkeep by lia. unfold with_stack, extend.
    rewrite decide_False by lia. rewrite decide_False; [done|].
    assert (up sz1 = up z) as ->; [|unfold sz1 in *; lia]. unfold up, sz1. symmetry. apply (Z.div_unique _ _ _ 4095); unfold up; lia.
  - intros va Hva. rewrite Hf, Hkeep by lia. unfold with_stack. by rewrite decide_True by lia.
  - split; [change (sz1 + 8192 - 4096 ≤ sp); lia|]. change (main_args f sp (sz1 + 8192) argv). split.
    + unfold sp in *. lia.
    + rewrite <-(Hw 0%nat 0xffffffff eq_refl ltac:(lia)). f_equal. lia.
    + rewrite <-(Hw 1%nat (Z.of_nat (length argv))); [done|by rewrite Hlen|]. unfold sp in *. lia.
    + change (sp + 8) with (sp + 4 * Z.of_nat 2). rewrite (Hw 2%nat (u32 (e - (Z.of_nat (length ptrs) + 1) * 4))); [|done|apply u32_range].
      f_equal. rewrite u32_small; unfold sp in *; lia.
    + intros i a Ha. destruct (Forall2_lookup_l _ _ _ _ _ Hall Ha) as (p & Hp & Hpb & Hpe & Hpl & Hs). exists p. split; [|split; [unfold sp in *; lia|split; [lia|]]].
      * replace (sp + 12 + 4 * Z.of_nat i) with (sp + 4 * Z.of_nat (3 + i)) by lia. apply Hw; [|lia].
        unfold us, Exec.ustack. rewrite lookup_app_r by (simpl; lia). replace (3 + i - length _)%nat with i by (simpl; lia).
        rewrite lookup_app_l; [done|]. by eapply lookup_lt_Some.
      * intros j b Hj. rewrite Hf by lia. by apply Hs.
    + replace (sp + 12 + 4 * Z.of_nat (length argv)) with (sp + 4 * Z.of_nat (3 + length ptrs)) by lia. apply Hw; [|lia].
      unfold us, Exec.ustack. rewrite lookup_app_r by (simpl; lia). replace (3 + length ptrs - length _)%nat with (length ptrs) by (simpl; lia).
      rewrite lookup_app_r by lia. by rewrite Nat.sub_diag.
  - unfold sz1, KERNBASE in *. lia.
Qed.

Lemma uword_ext f g a : (∀ x, a ≤ x < a + 4 → f x = g x) → uword f a = uword g a.
Proof. intros H. unfold uword. by rewrite !H by lia. Qed.

Lemma image_ext c argv entry sz sp f g : (∀ va, 0 ≤ va < sz → f va = g va) → image c argv entry sz sp f → image c argv entry sz sp g.
Proof.
  intros Hfg [H1 (z & h & Hz & Hsz & Hh) H3 [H4 [A1 A2 A3 A4 A5 A6]] H5]. split; [done|..].
  - exists z, h. split; [done|]. split; [done|]. intros va Hva. rewrite <-Hfg by lia. by apply Hh.
  - intros va Hva. rewrite <-Hfg by lia. by apply H3.
  - split; [done|]. split; [done| | | | |].
    1-3, 5: rewrite <-(uword_ext f g); [done|]; intros x Hx; apply Hfg; lia.
    intros i a Ha. pose proof (lookup_lt_Some _ _ _ Ha). destruct (A5 i a Ha) as (p & Hp & Hp1 & Hp2 & Hs). exists p.
    split; [rewrite <-(uword_ext f g); [done|]; intros x Hx; apply Hfg; lia|]. split; [done|]. split; [done|]. intros j b Hj.
    pose proof (lookup_lt_Some _ _ _ Hj) as Hjl. rewrite length_app in Hjl. simpl in Hjl. rewrite <-Hfg by lia. by apply Hs.
  - done.
Qed.

Lemma land_lnot_3 a : Z.land a (Z.lnot 3) = a / 4 * 4.
Proof.
  change (Z.lnot 3) with (Z.lnot (Z.ones 2)). rewrite <-Z.ldiff_land, Z.ldiff_ones_r, Z.shiftr_div_pow2, Z.shiftl_mul_pow2 by lia. done.
Qed.

Lemma land_uint e x : 0 ≤ e < 2 ^ 32 → 0 ≤ Z.land e x < 2 ^ 32.
Proof.
  intros He. replace (Z.land e x) with (Z.land (Z.land e x) (Z.ones 32)).
  - rewrite Z.land_ones by lia. apply Z.mod_pos_bound. lia.
  - rewrite <-Z.land_assoc, (Z.land_comm x), Z.land_assoc, Z.land_ones, Z.mod_small by lia. done.
Qed.

Lemma load32_uint m a : bytes_ok m → 0 ≤ load32 m a < 2 ^ 32.
Proof. intros Hm. unfold load32. pose proof (Hm a). pose proof (Hm (a + 1)). pose proof (Hm (a + 2)). pose proof (Hm (a + 3)). lia. Qed.

(** An entry whose user bit is cleared. *)
Lemma clear_user e : let e' := Z.land e (Z.lnot PTE_U) in
  has e' PTE_P = has e PTE_P ∧ PTE_ADDR e' = PTE_ADDR e ∧ has e' PTE_U = false.
Proof.
  intros e'. unfold e', has, PTE_ADDR. rewrite <-!Z.land_assoc.
  change (Z.land (Z.lnot PTE_U) PTE_P) with PTE_P. change (Z.land (Z.lnot PTE_U) (Z.lnot 4095)) with (Z.lnot 4095).
  change (Z.land (Z.lnot PTE_U) PTE_U) with 0. rewrite Z.land_0_r. split; [done|]. split; [done|]. apply bool_decide_eq_false_2. intros H. by apply H.
Qed.

Section interface.
Context (disksize : Z).
#[local] Instance i_ops : BlockOps Log.st := log_ops disksize.

Class ProgramFs (dev_read : Z → option (nat → Z → kM (Fs.st (S := Log.st)) (Z * list Z)))
    (junk_name path : list Z) (cwd : nat) (prog : option (list Z)) := {
  pf : phase → Fs.st (S := Log.st) → Prop;
  pf_held ph s : pf ph s → held (Fs.blk s) = [];
  pf_begin s : pf Idle s → wp (kzoom Fs.blkl Log.begin_op) s (λ _, pf InOp);
  pf_namei s : pf InOp s → wp (Fs.namei dev_read cwd path junk_name) s (λ o s',
    match prog with None => o = None ∧ pf InOp s' | Some _ => ∃ ip, o = Some ip ∧ pf (Ref ip) s' end);
  pf_ilock ip s : pf (Ref ip) s → wp (Fs.ilock ip) s (λ _, pf (Open ip));
  pf_readi ip s c off n : pf (Open ip) s → prog = Some c → 0 ≤ off < 2 ^ 32 → 0 ≤ n < 2 ^ 32 →
    wp (Fs.readi dev_read ip off n) s (λ r s', r = read_at c off n ∧ pf (Open ip) s');
  pf_put ip s : pf (Open ip) s → wp (Fs.iunlockput ip) s (λ _, pf InOp);
  pf_end s : pf InOp s → wp (kzoom Fs.blkl (Log.end_op disksize)) s (λ _, pf Idle);
}.
End interface.
Arguments pf {disksize dev_read junk_name path cwd prog _}.
Arguments pf_held {disksize dev_read junk_name path cwd prog _}.
Arguments pf_readi {disksize dev_read junk_name path cwd prog _}.

Lemma pf_found disksize dev_read junk_name path cwd prog {PF : ProgramFs disksize dev_read junk_name path cwd prog} s :
  pf InOp s → wp (Fs.namei (BlockOps0 := log_ops disksize) dev_read cwd path junk_name) s (λ o s',
    (prog = None ∧ o = None ∧ pf InOp s') ∨ ∃ c ip, prog = Some c ∧ o = Some ip ∧ pf (Ref ip) s').
Proof.
  intros Hs. eapply wp_mono; [by apply pf_namei|]. intros o s'. destruct prog as [c|]; [|intros [-> ?]; by left].
  intros (ip & -> & ?). right. by exists c, ip.
Qed.

Section exec.
Context (disksize kend kdata : Z) (Hkend : KERNBASE < kend).
Context (Hdata : kdata mod 4096 = 0 ∧ KERNLINK < kdata < KERNBASE + PHYSTOP).
Context (dev_read : Z → option (nat → Z → kM (Fs.st (S := Log.st)) (Z * list Z))).
Context (junk_elf junk_name path : list Z) (cwd : nat) (prog : option (list Z)).
Context `{PF : !ProgramFs disksize dev_read junk_name path cwd prog}.

#[local] Instance x_ops : BlockOps Log.st := log_ops disksize.
#[local] Existing Instance Fs.fs_locks.
Abbreviation inkmem := (Exec.inkmem disksize).
Abbreviation readi := (Exec.readi disksize dev_read).
Abbreviation kmem := Kalloc.kmem.
Abbreviation proc_space := (proc_space kend kdata).

(** The allocator with no lock held, and the parts of the state that exec does
    not look at. *)
Definition kp (s : File.st) : Kalloc.st := Kalloc.set_sheld [] (File.pages s).
Definition others (s : File.st) : list file * gmap Z Pipe.st * bool := (File.ftable s, File.pipes s, File.killed s).

Record at_ (o : list file * gmap Z Pipe.st * bool) (ph : phase) (k : Kalloc.st) (s : File.st) : Prop := {
  at_fs : pf ph (File.fs s);
  at_kp : kp s = k;
  at_others : others s = o;
}.

Lemma at_unlocked o ph k s : at_ o ph k s → unlocked k.
Proof. intros [_ <- _]. done. Qed.

Lemma wp_inkmem {A} (m : kM Kalloc.st A) o ph k s (Q : A → File.st → Prop) :
  at_ o ph k s → pres unlocked m → wp m k (λ r k', ∀ s', at_ o ph k' s' → Q r s') → wp (inkmem m) s Q.
Proof.
  intros A0 Hp Hm. pose proof (at_unlocked _ _ _ _ A0) as Hk. destruct A0 as [Hf Hkp Ho]. pose proof (pf_held _ _ Hf) as Hh.
  apply wp_zoom. assert (lview (File.kmeml disksize) s = k) as ->.
  { rewrite <-Hkp. exact (f_equal (λ h, Kalloc.set_sheld h (File.pages s)) Hh). }
  eapply wp_mono; [by apply (wp_pres unlocked)|]. intros r k' [HQ Hk']. apply HQ. unfold unlocked in Hk'.
  assert (lset (File.kmeml disksize) k' s = File.set_pages k' s) as ->.
  { destruct k' as [h u fl mm]. simpl in Hk'. subst h. destruct s as [f t p g kl]. simpl in Hh.
    transitivity (File.set_fs (set_held (held f) f) (File.set_pages (Kalloc.St [] u fl mm) (File.St f t p g kl))).
    - exact (f_equal (λ h, File.set_fs (set_held h f) (File.set_pages (Kalloc.St [] u fl mm) (File.St f t p g kl))) (eq_sym Hh)).
    - by rewrite set_held_held. }
  split; [done| |done]. destruct k'. simpl in *. subst. done.
Qed.

Lemma wp_infs {A} (m : kM (Fs.st (S := Log.st)) A) o ph k s (Q : A → File.st → Prop) :
  at_ o ph k s → wp m (File.fs s) (λ r f, ∀ s', File.fs s' = f → (∀ ph', pf ph' f → at_ o ph' k s') → Q r s') → wp (File.infs m) s Q.
Proof.
  intros [Hf Hkp Ho] Hm. apply wp_zoom. eapply wp_mono; [exact Hm|]. intros r f HQ. simpl. apply HQ; [done|].
  intros ph' Hf'. by split.
Qed.

Lemma wp_exec_readi o k s ip c off n (Q : Z * list Z → File.st → Prop) :
  at_ o (Open ip) k s → prog = Some c → 0 ≤ off < 2 ^ 32 → 0 ≤ n < 2 ^ 32 →
  (∀ s', at_ o (Open ip) k s' → Q (read_at c off n) s') → wp (readi ip off n) s Q.
Proof.
  intros A0 Hc Ho Hn HQ. eapply wp_infs; [exact A0|]. eapply wp_mono; [by apply (pf_readi ip _ c); [apply A0|..]|].
  intros r f [-> Hf] s' <- Hs'. by apply HQ, Hs'.
Qed.

(** ** The address space under construction

    [k0] is the memory when exec begins, with [l0] free; [O] are the pages of
    the rest of the system, the old address space among them. *)
Context (k0 : Kalloc.st) (l0 O : list Z).

Record building (l : list Z) (k : Kalloc.st) (d : Z) (tabs : list (option Z)) (ents : Z → Z) (sz : Z) (f : view) : Prop := {
  bd_space : proc_space l k d tabs ents O sz;
  bd_free : owned d tabs ents ++ l ≡ₚ l0;
  bd_same : same_but l0 (kmem k0) (kmem k);
  bd_view va : 0 ≤ va < 2 ^ 32 → uload (kmem k) d va = f va;
}.

Lemma bd_ext l k d tabs ents sz f g : (∀ va, 0 ≤ va < 2 ^ 32 → f va = g va) → building l k d tabs ents sz f → building l k d tabs ents sz g.
Proof. intros Hfg [H1 H2 H3 H4]. split; [done..|]. intros va Hva. by rewrite H4, Hfg. Qed.

Lemma put_view l k d tabs ents sz k' va buf n (f : view) :
  proc_space l k d tabs ents O sz → put (kmem k) (kmem k') d va buf n → 0 ≤ va → va + Z.of_nat n ≤ 2 ^ 32 → (n ≤ length buf)%nat →
  (∀ x, 0 ≤ x < 2 ^ 32 → uload (kmem k) d x = f x) →
  ∀ x, 0 ≤ x < 2 ^ 32 → uload (kmem k') d x = blit f va (take n buf) x.
Proof.
  intros Hps [Pm Pb Po] Hva Hend Hn Hf x Hx. unfold blit. rewrite length_take, Nat.min_l by done. case_decide as Hin.
  - destruct (lookup_lt_is_Some_2 buf (Z.to_nat (x - va)) ltac:(lia)) as [b Hb].
    specialize (Pb (Z.to_nat (x - va)) b ltac:(lia) Hb). replace (va + Z.of_nat (Z.to_nat (x - va))) with x in Pb by lia.
    by rewrite Pb, lookup_take_lt by lia.
  - rewrite <-Hf by done. unfold uload. rewrite Pm by done. destruct (mmu (kmem k) d x) as [a|] eqn:Ha; [|done].
    simpl. f_equal. apply Po. intros j Hj Hm. apply Hin.
    assert (x = va + Z.of_nat j) by (eapply (mmu_inj kend kdata Hkend Hdata); [exact Hps|lia|lia|exact Ha|exact Hm]). lia.
Qed.

Lemma bd_put l k d tabs ents sz f k' va buf n :
  building l k d tabs ents sz f → proc_space l k' d tabs ents O sz → put (kmem k) (kmem k') d va buf n →
  0 ≤ va → va + Z.of_nat n ≤ 4096 * up sz → (n ≤ length buf)%nat →
  building l k' d tabs ents sz (blit f va (take n buf)).
Proof.
  intros [Hps Hfr Hs Hv] Hps' Hput Hva Hend Hn. destruct (up_range sz (ps_size _ _ _ _ _ _ _ _ _ Hps)) as (Hup & _).
  split; [done|done| |by eapply put_view; [..|lia|done|done]].
  intros x Hx. rewrite <-Hs by done. apply (put_other _ _ _ _ _ _ Hput). intros j Hj Hm.
  destruct (mmu_owned kend kdata Hkend Hdata _ _ _ _ _ _ _ (va + Z.of_nat j) x Hps ltac:(lia) Hm) as (_ & p & Hp & Hpx).
  apply (Hx p); [|done]. rewrite <-Hfr. apply elem_of_app. left. right. apply elem_of_app. by right.
Qed.

(** The walk to an entry that a user program may use. *)
Lemma walk_entry l k d tabs ents sz va a :
  proc_space l k d tabs ents O sz → 0 ≤ va < 2 ^ 32 → has (ents (va / 4096)) PTE_P = true →
  mmu (kmem k) d va = Some a ∨ a = p2v (PTE_ADDR (ents (va / 4096))) + va mod 4096 →
  ∃ t, tabs !! Z.to_nat (va / 4096 / 1024) = Some (Some t) ∧ load32 (kmem k) (t + 4 * (va / 4096 mod 1024)) = ents (va / 4096) ∧
    t + 4 * (va / 4096 mod 1024) ≠ 0 ∧ a = p2v (PTE_ADDR (ents (va / 4096))) + va mod 4096.
Proof.
  intros Hps Hva HP Ha. pose proof (ps_space _ _ _ _ _ _ _ _ _ Hps) as Hsp. destruct (walk_index va Hva) as (Hv & Hi & _).
  destruct (vs_lookup kend _ _ _ _ _ _ va Hsp Hva) as [[t|] Ht].
  - exists t. split; [done|]. split; [exact (pt_ent _ _ _ _ (vs_pt _ _ _ _ _ _ _ Hsp) _ _ Hv Ht)|]. split.
    + destruct (vs_table kend _ _ _ _ _ _ _ t Hsp Ht) as (Hpg & _). destruct (page_high kend Hkend t Hpg) as (_ & H & _).
      pose proof (Z.mod_pos_bound (va / 4096) 1024). unfold KERNBASE in *. lia.
    + destruct Ha as [Ha|Ha]; [|done]. rewrite (mmu_ents _ Hkend _ _ _ _ _ _ va Hsp Hva) in Ha. destruct (_ && _) in Ha; [|done]. by simplify_eq.
  - pose proof (pt_ent _ _ _ _ (vs_pt _ _ _ _ _ _ _ Hsp) _ _ Hv Ht) as H0. simpl in H0. rewrite H0 in HP. done.
Qed.

Lemma mmu_present l k d tabs ents sz va a :
  proc_space l k d tabs ents O sz → 0 ≤ va < 2 ^ 32 → mmu (kmem k) d va = Some a → has (ents (va / 4096)) PTE_P = true.
Proof.
  intros Hps Hva. rewrite (mmu_ents _ Hkend _ _ _ _ _ _ va (ps_space _ _ _ _ _ _ _ _ _ Hps) Hva).
  destruct (has (ents (va / 4096)) PTE_P); [done|]. simpl. done.
Qed.

(** Every page of the process is open to it. *)
Definition full (sz : Z) (f : view) : Prop := ∀ va, 0 ≤ va < 4096 * up sz → is_Some (f va).

Lemma full_blit sz f a bs : full sz f → full sz (blit f a bs).
Proof. intros Hf va Hva. unfold blit. case_decide; [apply lookup_lt_is_Some_2; lia|by apply Hf]. Qed.

Lemma wp_loaduvm_loop o c ip d addr off fsz tabs ents sz l n : ∀ fuel i k s f,
  prog = Some c → bytes c → Z.of_nat (length c) < 2 ^ 31 → at_ o (Open ip) k s → building l k d tabs ents sz f → full sz f →
  addr mod 4096 = 0 → 0 ≤ addr → addr + fsz ≤ 4096 * up sz → 0 ≤ fsz → 0 ≤ off < 2 ^ 32 →
  i mod 4096 = 0 → 0 ≤ i < fsz + 4096 → fsz - i ≤ 4096 * Z.of_nat n → (n < fuel)%nat → i = 0 ∨ off + i ≤ Z.of_nat (length c) →
  wp (Exec.loaduvm_loop disksize dev_read fuel d addr ip off fsz i) s (λ r s', ∃ k' f', at_ o (Open ip) k' s' ∧
    building l k' d tabs ents sz f' ∧
    if decide (fsz ≤ i ∨ off + fsz ≤ Z.of_nat (length c))
    then r = 0 ∧ ∀ va, f' va = blit f (addr + i) (take (Z.to_nat (fsz - i)) (drop (Z.to_nat (off + i)) c)) va else r = -1).
Proof.
  induction n as [|n IH]; intros fuel i k s f Hc Hb Hlen A0 B Hfull Hal Ha Hend Hfsz Hoff Hi Hir Hn Hfuel Hio; (destruct fuel as [|fuel]; [lia|]);
    cbn [Exec.loaduvm_loop]; destruct (decide (i < fsz)) as [Hlt|Hge]; try lia.
  1,3: rewrite bool_decide_eq_false_2 by done; apply wp_ret; exists k, f; split; [done|]; split; [done|];
    rewrite decide_True by lia; split; [done|]; intros va; replace (Z.to_nat (fsz - i)) with 0%nat by lia; by rewrite take_0, blit_nil.
  rewrite bool_decide_eq_true_2 by done. pose proof (bd_space _ _ _ _ _ _ _ B) as Hps.
  destruct (up_range sz (ps_size _ _ _ _ _ _ _ _ _ Hps)) as (Hup & _).
  set (va := addr + i). assert (va mod 4096 = 0) as Hvam by (unfold va; rewrite Z.add_mod, Hal, Hi by lia; done).
  assert (0 ≤ va ∧ va + 4096 ≤ 4096 * up sz) as Hva.
  { unfold va in *. pose proof (Z.div_mod (addr + i) 4096 ltac:(lia)). split; [lia|].
    assert ((addr + i) / 4096 < up sz) by (apply Z.div_lt_upper_bound; lia). lia. }
  destruct (Hfull va ltac:(lia)) as [b0 Hb0]. rewrite <-(bd_view _ _ _ _ _ _ _ B va ltac:(lia)) in Hb0. unfold uload in Hb0.
  destruct (mmu (kmem k) d va) as [a|] eqn:Hmm; [|done].
  destruct (walk_entry _ _ _ _ _ _ va a Hps ltac:(lia) (mmu_present _ _ _ _ _ _ va a Hps ltac:(lia) Hmm) (or_introl Hmm)) as (t & Ht & Hload & Hnz & Hae).
  rewrite Hvam, Z.add_0_r in Hae.
  rewrite (u32_id va) by (unfold uint; lia).
  apply wp_bind. eapply wp_inkmem; [exact A0|auto with pres|].
  eapply wp_mono; [apply (wp_walk kend Hkend _ _ _ _ _ _ va (ps_space _ _ _ _ _ _ _ _ _ Hps)); lia|]. intros r k1 [-> ->] s1 A1. rewrite Ht.
  apply wp_bind, wp_assert; [by rewrite bool_decide_eq_false_2|].
  apply wp_bind. eapply wp_inkmem; [exact A1|unfold Vm.getmem; auto with pres|]. apply wp_gets. intros s2 A2. rewrite Hload, <-Hae.
  set (m := if bool_decide (fsz - i < PGSIZE) then fsz - i else PGSIZE).
  assert (m = Z.min 4096 (fsz - i)) as Hm by (unfold m, PGSIZE; case_bool_decide; lia). clearbody m.
  apply wp_bind. eapply (wp_exec_readi o k _ ip c); [exact A2|done|apply u32_range|lia|]. intros s3 A3.
  assert (u32 (off + i) = off + i ∨ i = 0 ∧ Z.of_nat (length c) < off) as Hu.
  { destruct Hio as [->|Hio]; [left; rewrite Z.add_0_r; by apply u32_id|left; apply u32_id; unfold uint; lia]. }
  assert (u32 (off + i) = off + i) as Hu' by (destruct Hu as [|[-> _]]; [done|rewrite Z.add_0_r; by apply u32_id]). clear Hu. rewrite Hu'.
  set (bs := (read_at c (off + i) m).2).
  assert (bytes bs ∧ (Z.of_nat (length bs) ≤ m)) as [Hbs Hlbs].
  { unfold bs, read_at. cbv zeta. destruct (decide (off + i ≤ Z.of_nat (length c) ∧ off + i + m < 2 ^ 32)); simpl; [|split; [constructor|lia]]. split; [by apply Forall_take, Forall_drop|]. rewrite length_take. lia. }
  apply wp_bind. eapply wp_inkmem; [exact A3|auto with pres|].
  pose proof (wp_put_page kend kdata Hkend Hdata l k d tabs ents O sz va 0 a bs (length bs) Hps Hbs ltac:(lia) Hvam ltac:(lia) ltac:(lia) ltac:(lia) ltac:(lia) Hmm) as Hw.
  rewrite Z.add_0_r, take_ge, Z.add_0_r in Hw by lia.
  eapply wp_mono; [exact Hw|]. intros [] k4 [Hps4 Hput] s4 A4.
  assert (building l k4 d tabs ents sz (blit f va bs)) as B4.
  { pose proof (bd_put _ _ _ _ _ _ _ _ _ _ _ B Hps4 Hput ltac:(lia) ltac:(lia) ltac:(lia)) as H. by rewrite take_ge in H by lia. }
  destruct (decide (off + i + m ≤ Z.of_nat (length c))) as [Hok|Hshort].
  - assert (read_at c (off + i) m = (m, take (Z.to_nat m) (drop (Z.to_nat (off + i)) c))) as Hrd.
    { unfold read_at. rewrite decide_True by lia. f_equal. lia. }
    assert (bs = take (Z.to_nat m) (drop (Z.to_nat (off + i)) c)) as Hbse by (unfold bs; by rewrite Hrd).
    rewrite Hrd. cbn [fst]. rewrite (u32_id m) by (unfold uint; lia). rewrite bool_decide_eq_false_2 by auto.
    assert (Z.of_nat (length bs) = m) as Hlm by (rewrite Hbse, length_take, length_drop; lia).
    destruct (decide (m = 4096)) as [Hm4|Hm4].
    + rewrite (u32_id (i + PGSIZE)) by (unfold uint, PGSIZE; lia). unfold PGSIZE.
      eapply wp_mono; [apply (IH fuel (i + 4096) k4 s4 (blit f va bs)); try done; try lia|].
      * by apply full_blit.
      * rewrite <-Z.add_mod_idemp_l, Hi by lia. done.
      * intros r s' (k' & f' & A' & B' & Hr). exists k', f'. split; [done|]. split; [done|].
        destruct (decide (fsz ≤ i ∨ off + fsz ≤ Z.of_nat (length c))) as [Hd|Hd].
        -- rewrite decide_True in Hr by lia. destruct Hr as [-> Hf']. split; [done|]. intros x. rewrite Hf'.
           replace (addr + (i + 4096)) with (va + Z.of_nat (length bs)) by (unfold va; lia). rewrite blit_app. f_equal.
           rewrite Hbse, Hm4. replace (Z.to_nat (fsz - i)) with (Z.to_nat 4096 + Z.to_nat (fsz - (i + 4096)))%nat by lia.
           rewrite <-take_take_drop, drop_drop. do 3 f_equal. lia.
        -- rewrite decide_False in Hr by lia. done.
    + destruct fuel as [|fuel]; [lia|]. cbn [Exec.loaduvm_loop]. rewrite (u32_id (i + PGSIZE)) by (unfold uint, PGSIZE; lia).
      rewrite bool_decide_eq_false_2 by (unfold PGSIZE; lia). apply wp_ret. exists k4, (blit f va bs). split; [done|]. split; [done|].
      rewrite decide_True by lia. split; [done|]. intros x. rewrite Hbse. do 2 f_equal. lia.
  - rewrite bool_decide_eq_true_2.
    + apply wp_ret. exists k4, (blit f va bs). split; [done|]. split; [done|]. by rewrite decide_False by lia.
    + unfold read_at. cbv zeta. destruct (decide (off + i ≤ Z.of_nat (length c) ∧ off + i + m < 2 ^ 32)); cbn [fst]; [rewrite u32_id by (unfold uint; lia); lia|]. change (u32 (-1)) with (2 ^ 32 - 1). lia.
Qed.

Lemma full_extend sz new f : full sz f → up sz ≤ up new → full new (extend sz new f).
Proof. intros Hf Hle va Hva. unfold extend. case_decide; [by eexists|]. apply Hf. lia. Qed.

Lemma wp_bd_grow l k d tabs ents sz f new :
  building l k d tabs ents sz f → sz ≤ new < KERNBASE → (2 * Z.to_nat (up new - up sz) ≤ length l)%nat →
  wp (Vm.allocuvm kend d sz new) k (λ r k', r = new ∧ ∃ l' tabs' ents', building l' k' d tabs' ents' new (extend sz new f) ∧
    (length l ≤ length l' + 2 * Z.to_nat (up new - up sz))%nat).
Proof.
  intros [Hps Hfr Hs Hv] Hnew Hlen. pose proof (need_le_n (Z.to_nat (up new - up sz)) (hastab tabs) (up sz)) as Hneed.
  eapply wp_mono; [apply (wp_grow kend kdata Hkend Hdata l k d tabs ents O sz new Hps Hnew); lia|].
  intros r k' (-> & fr & l' & tabs' & Hps' & _ & Hlen' & Hperm & Hz & Hs'). split; [done|]. exists l', tabs', (grown ents (up sz) fr).
  split; [|done]. split; [done|by rewrite Hperm| |].
  - intros x Hx. rewrite <-Hs by done. apply Hs'. intros p Hp. apply Hx. rewrite <-Hfr. apply elem_of_app.
    apply elem_of_app in Hp as [Hp|Hp]; [by right|left]. unfold VmThm.owned. apply elem_of_cons in Hp as [->|Hp]; [left|right].
    apply elem_of_app. by left.
  - intros va Hva. rewrite Hz by done. unfold extend. case_decide; [done|]. by apply Hv.
Qed.

Lemma wp_load_segments o c ip d B n : ∀ off l k s tabs ents sz f,
  prog = Some c → bytes c → Z.of_nat (length c) < 2 ^ 31 → at_ o (Open ip) k s → building l k d tabs ents sz f → full sz f →
  0 ≤ off < 2 ^ 32 → segs_safe B c n off → 0 ≤ sz ≤ B → B < KERNBASE → (2 * Z.to_nat (up B - up sz) ≤ length l)%nat →
  wp (Exec.load_segments disksize kend dev_read n d ip off sz) s (λ r s', ∃ l' k' tabs' ents' sz' f',
    at_ o (Open ip) k' s' ∧ building l' k' d tabs' ents' sz' f' ∧ (length l + 2 * Z.to_nat (up sz) ≤ length l' + 2 * Z.to_nat (up sz'))%nat ∧
    sz' ≤ B ∧
    match plan c n off sz f with
    | Some (z, g) => r = Some z ∧ sz' = z ∧ sz ≤ z ∧ full z f' ∧ ∀ va, 0 ≤ va < 2 ^ 32 → f' va = g va
    | None => r = None
    end).
Proof.
  induction n as [|n IH]; intros off l k s tabs ents sz f Hc Hb Hlen A0 Bd Hfull Hoff Hsafe Hsz HB Hl; cbn [Exec.load_segments plan].
  { apply wp_ret. exists l, k, tabs, ents, sz, f. split_and!; try done; lia. }
  apply wp_bind. eapply (wp_exec_readi o k _ ip c); [exact A0|done|done|unfold sizeof_proghdr; lia|]. intros s1 A1.
  destruct (decide (off + 32 ≤ Z.of_nat (length c))) as [Hin|Hout].
  2: { rewrite bool_decide_eq_true_2.
       - apply wp_ret. exists l, k, tabs, ents, sz, f. split_and!; try done; lia.
       - unfold read_at, sizeof_proghdr. cbv zeta. destruct (decide _) as [[? ?]|?]; cbn [fst]; [rewrite u32_id by (unfold uint; lia); lia|].
         change (u32 (-1)) with (2 ^ 32 - 1). lia. }
  assert (read_at c off sizeof_proghdr = (32, take 32 (drop (Z.to_nat off) c))) as ->.
  { unfold read_at, sizeof_proghdr. rewrite decide_True by lia. f_equal. lia. }
  cbn [fst snd]. rewrite bool_decide_eq_false_2 by (intros H; by apply H). cbv zeta. fold (phdr c off). set (ph := phdr c off).
  rewrite (u32_id (off + sizeof_proghdr)) by (unfold uint, sizeof_proghdr; lia). unfold sizeof_proghdr.
  destruct (phdr_range c off Hb) as (_ & Hpo & Hpv & Hpf & Hpm). fold ph in Hpo, Hpv, Hpf, Hpm.
  destruct (decide (p_type ph ≠ ELF_PROG_LOAD)) as [Hty|Hty].
  { rewrite bool_decide_eq_true_2 by done. apply (IH (off + 32) l k s1 tabs ents sz f); try done; [lia|by apply segs_safe_S]. }
  rewrite bool_decide_eq_false_2 by done. apply dec_stable in Hty.
  destruct (decide (p_memsz ph < p_filesz ph)) as [Hms|Hms].
  { rewrite bool_decide_eq_true_2 by done. apply wp_ret. exists l, k, tabs, ents, sz, f. split_and!; try done; lia. }
  rewrite bool_decide_eq_false_2 by done.
  assert (seg_safe B ph) as Hss. { specialize (Hsafe 0%nat ltac:(lia)). rewrite Z.mul_0_r, Z.add_0_r in Hsafe. by apply Hsafe. }
  destruct (Hss Hty ltac:(lia)) as (Hal & Hwrap & HsB). set (en := p_vaddr ph + p_memsz ph) in *.
  rewrite (u32_id en) by (unfold uint; lia). destruct (decide (KERNBASE ≤ en)) as [Hbig|Hbig].
  { apply wp_bind. eapply wp_inkmem; [exact A1|auto with pres|]. unfold Vm.allocuvm. rewrite bool_decide_eq_true_2 by done.
    apply wp_ret. intros s2 A2. rewrite bool_decide_eq_true_2 by done. apply wp_ret.
    exists l, k, tabs, ents, sz, f. split_and!; try done; lia. }
  specialize (HsB ltac:(lia)). set (sz' := Z.max sz en). pose proof (up_mono sz sz' ltac:(lia)) as Hm1.
  pose proof (up_mono sz' B ltac:(lia)) as Hm2. pose proof (up_mono 0 sz ltac:(lia)) as Hm0. change (up 0) with 0 in Hm0.
  apply wp_bind. eapply wp_inkmem; [exact A1|auto with pres|].
  eapply (wp_mono _ _ (λ r k', r = sz' ∧ ∃ l' tabs' ents', building l' k' d tabs' ents' sz' (extend sz sz' f) ∧
    (length l ≤ length l' + 2 * Z.to_nat (up sz' - up sz))%nat)).
  { destruct (decide (en < sz)) as [Hsm|Hsm].
    - unfold Vm.allocuvm. rewrite bool_decide_eq_false_2 by lia. rewrite bool_decide_eq_true_2 by done. apply wp_ret.
      unfold sz'. rewrite Z.max_l by lia. split; [done|]. exists l, tabs, ents. split; [|lia].
      eapply bd_ext; [|exact Bd]. intros va _. unfold extend. by rewrite decide_False by lia.
    - unfold sz'. rewrite Z.max_r by lia. unfold sz' in *. rewrite Z.max_r in * by lia. apply (wp_bd_grow l k d tabs ents sz f en Bd); lia. }
  intros r k2 (-> & l2 & tabs2 & ents2 & Bd2 & Hl2) s2 A2. destruct (decide (sz' = 0)) as [H0|H0].
  { rewrite bool_decide_eq_true_2 by done. apply wp_ret. exists l2, k2, tabs2, ents2, sz', (extend sz sz' f). split_and!; try done; lia. }
  rewrite bool_decide_eq_false_2 by done. pose proof (full_extend sz sz' f Hfull Hm1) as Hfull2.
  apply wp_bind. unfold Exec.loaduvm. apply wp_bind, wp_assert; [by apply bool_decide_eq_true_2|].
  pose proof (Z.div_pos (p_filesz ph) 4096 ltac:(lia) ltac:(lia)). pose proof (Z.div_mod (p_filesz ph) 4096 ltac:(lia)).
  pose proof (Z.mod_pos_bound (p_filesz ph) 4096 ltac:(lia)). pose proof (proj2 (up_spec sz' (up sz')) ) as Hup'.
  assert (sz' ≤ 4096 * up sz') as Hszup. { destruct (decide (4096 * up sz' < sz')) as [Hx%up_spec|]; lia. }
  eapply wp_mono; [apply (wp_loaduvm_loop o c ip d (p_vaddr ph) (p_off ph) (p_filesz ph) tabs2 ents2 sz' l2 (Z.to_nat (p_filesz ph / 4096 + 1)) _ 0 k2 s2 (extend sz sz' f));
    try done; try lia|].
  { unfold PGSIZE. lia. }
  intros r s3 (k3 & f3 & A3 & Bd3 & Hr). rewrite Z.sub_0_r, !Z.add_0_r in Hr.
  destruct (decide (p_filesz ph = 0 ∨ p_off ph + p_filesz ph ≤ Z.of_nat (length c))) as [Hok|Hbad].
  - rewrite decide_True in Hr by lia. destruct Hr as [-> Hf3]. rewrite bool_decide_eq_false_2 by lia.
    set (g := blit (extend sz sz' f) (p_vaddr ph) _) in *.
    eapply wp_mono; [apply (IH (off + 32) l2 k3 s3 tabs2 ents2 sz' g); try done; try lia|].
    + eapply bd_ext; [|exact Bd3]. intros va _. apply Hf3.
    + by apply full_blit.
    + by apply segs_safe_S.
    + intros r s' (l' & k' & tabs' & ents' & z & f' & A' & B' & Hl' & Hz & Hp). exists l', k', tabs', ents', z, f'.
      split; [done|]. split; [done|]. split; [lia|]. split; [done|]. destruct (plan c n (off + 32) sz' g) as [[? ?]|]; [|done].
      destruct Hp as (? & ? & ? & ? & ?). split_and!; try done; lia.
  - rewrite decide_False in Hr by lia. subst r. rewrite bool_decide_eq_true_2 by lia. apply wp_ret.
    exists l2, k3, tabs2, ents2, sz', f3. split_and!; try done; lia.
Qed.

(** ** The stack *)

Lemma wp_bd_guard l k d tabs ents sz f v :
  building l k d tabs ents sz f → 0 ≤ v < up sz →
  wp (Vm.clearpteu d (4096 * v)) k (λ _ k', ∃ ents',
    building l k' d tabs ents' sz (λ va, if decide (4096 * v ≤ va < 4096 * v + 4096) then None else f va)).
Proof.
  intros [Hps Hfr Hs Hv] Hvr. destruct (up_range sz (ps_size _ _ _ _ _ _ _ _ _ Hps)) as (Hup & _).
  pose proof (ps_space _ _ _ _ _ _ _ _ _ Hps) as Hsp. pose proof (ps_present _ _ _ _ _ _ _ _ _ Hps v Hvr) as HP.
  assert (4096 * v / 4096 = v) as Hdiv by (rewrite Z.mul_comm; apply Z.div_mul; lia).
  destruct (walk_entry l k d tabs ents sz (4096 * v) (p2v (PTE_ADDR (ents v)) + (4096 * v) mod 4096) Hps) as (t & Ht & Hload & Hnz & _);
    [lia|by rewrite Hdiv|right; by rewrite Hdiv|]. rewrite Hdiv in *.
  unfold Vm.clearpteu. apply wp_bind.
  eapply wp_mono; [apply (wp_walk kend Hkend _ _ _ _ _ _ (4096 * v) Hsp); lia|]. intros r k1 [-> ->]. rewrite Hdiv, Ht.
  apply wp_bind, wp_assert; [by rewrite bool_decide_eq_false_2|]. set (e := ents v) in *. set (e' := Z.land e (Z.lnot PTE_U)).
  destruct (clear_user e) as (HcP & HcA & HcU). fold e' in HcP, HcA, HcU.
  assert (0 ≤ e' < 2 ^ 32) as He'.
  { apply land_uint. rewrite <-Hload. apply load32_uint. apply Hsp. }
  eapply (wp_set_entry kend Hkend l k d tabs ents (uframes ents ++ O) v t e'); [exact Hsp|lia|done|done|by rewrite Hload|].
  intros k' Hvs' Hsame. exists (upd ents v e').
  assert (uframes (upd ents v e') = uframes ents) as Huf.
  { apply omap_ext_in. intros x _. destruct (decide (x = v)) as [->|]; [|by rewrite upd_ne]. rewrite upd_eq. unfold uframe. fold e. by rewrite HcP, HcA. }
  assert (proc_space l k' d tabs (upd ents v e') O sz) as Hps'.
  { destruct Hps as [_ Hpr Hab Hk Hsz]. split; [unfold space; by rewrite Huf| | | |done].
    - intros x Hx. destruct (decide (x = v)) as [->|]; [by rewrite upd_eq, HcP|]. rewrite upd_ne by done. by apply Hpr.
    - intros x Hx. rewrite upd_ne by lia. by apply Hab.
    - intros x Hx. rewrite upd_ne by lia. by apply Hk. }
  split; [done|by unfold VmThm.owned; rewrite Huf| |].
  - intros x Hx. rewrite <-Hs by done. apply Hsame. intros p ->%list_elem_of_singleton. apply Hx. rewrite <-Hfr. apply elem_of_app. left. right.
    apply elem_of_app. left. apply elem_tables. by eexists.
  - intros va Hva. case_decide as Hin.
    + unfold uload. rewrite (mmu_ents _ Hkend _ _ _ _ _ _ va (ps_space _ _ _ _ _ _ _ _ _ Hps') Hva).
      replace (va / 4096) with v by (apply (Z.div_unique va 4096 v (va - 4096 * v)); lia). by rewrite upd_eq, HcU, andb_false_r.
    + rewrite <-Hv by done. eapply (uload_grown kend kdata Hkend Hdata l k l k'); [exact Hps|apply Hps'|done| |].
      * apply upd_ne. intros Heq. apply Hin. pose proof (Z.div_mod va 4096 ltac:(lia)). pose proof (Z.mod_pos_bound va 4096 ltac:(lia)). lia.
      * intros p x Hp Hx. apply Hsame. intros q ->%list_elem_of_singleton.
        eapply (vs_others kend Hkend _ _ _ _ _ _ p x Hsp); [apply elem_of_app; by left|done|]. apply elem_of_app. right. right. apply elem_tables. by eexists.
Qed.

(** The upper page of the stack is open and the lower one is not. *)
Definition stack_ok (base : Z) (f : view) : Prop :=
  (∀ va, base ≤ va < base + 4096 → is_Some (f va)) ∧ ∀ va, base - 4096 ≤ va < base → f va = None.

Lemma stack_blit base f a bs : base ≤ a → stack_ok base f → stack_ok base (blit f a bs).
Proof.
  intros Ha [H1 H2]. unfold blit. split; intros va Hva.
  - case_decide; [apply lookup_lt_is_Some_2; lia|by apply H1].
  - rewrite decide_False by lia. by apply H2.
Qed.

Lemma wp_bd_copyout l k d tabs ents sz f base va buf :
  building l k d tabs ents sz f → base + 4096 = 4096 * up sz → 4096 ≤ base → stack_ok base f → bytes buf → buf ≠ [] →
  base - 4096 ≤ va → va + Z.of_nat (length buf) ≤ base + 4096 →
  wp (Vm.copyout d va buf) k (λ r k', ∃ f', building l k' d tabs ents sz f' ∧
    if decide (va < base) then r = -1 else r = 0 ∧ ∀ x, f' x = blit f va buf x).
Proof.
  intros B Htop Hbase [Hopen Hshut] Hb Hne Hva Hend. pose proof (bd_space _ _ _ _ _ _ _ B) as Hps.
  destruct (up_range sz (ps_size _ _ _ _ _ _ _ _ _ Hps)) as (Hup & _). unfold Vm.copyout.
  eapply wp_mono; [apply (wp_copyout_loop kend kdata Hkend Hdata _ l k d tabs ents O sz va buf); try done; lia|].
  intros r k' (n & Hps' & Hput & Hr). assert (n ≤ length buf)%nat as Hn by lia.
  exists (blit f va (take n buf)). split; [eapply bd_put; try done; lia|].
  assert (∀ x, 0 ≤ x < 2 ^ 32 → mmu (kmem k) d x = None ↔ f x = None) as Hmm.
  { intros x Hx. rewrite <-(bd_view _ _ _ _ _ _ _ B x Hx). unfold uload. by destruct (mmu (kmem k) d x). }
  case_decide as Hlow.
  - destruct Hr as [[-> ->]|(-> & _)]; [|done]. exfalso. destruct buf as [|b buf]; [done|].
    pose proof (put_bytes _ _ _ _ _ _ Hput 0%nat b ltac:(simpl; lia) eq_refl) as Hp. simpl in Hp. rewrite Z.add_0_r in Hp. unfold uload in Hp.
    rewrite (put_mmu _ _ _ _ _ _ Hput) in Hp by lia. rewrite (proj2 (Hmm va ltac:(lia))) in Hp; [done|]. apply Hshut. lia.
  - destruct Hr as [[-> ->]|(-> & Hlt & Hm)].
    + split; [done|]. intros x. by rewrite take_ge by lia.
    + exfalso. apply Hmm in Hm; [|lia]. destruct (Hopen (va + Z.of_nat n) ltac:(lia)) as [? Hs]. by rewrite Hs in Hm.
Qed.

Lemma wp_push_args o ph d tabs ents sz l base argv : ∀ argc sp k s f,
  at_ o ph k s → building l k d tabs ents sz f → base + 4096 = 4096 * up sz → 4096 ≤ base → stack_ok base f →
  Forall (λ a, bytes a ∧ Z.of_nat (length a) < 4096) argv → base ≤ sp ≤ base + 4096 →
  wp (Exec.push_args disksize d sp argv argc) s (λ r s', ∃ k' f', at_ o ph k' s' ∧ building l k' d tabs ents sz f' ∧
    match push_plan base sp argv argc f with
    | Some (e, ptrs, g) => r = Some (e, ptrs) ∧ stack_ok base f' ∧ base ≤ e ≤ sp ∧ ∀ va, f' va = g va
    | None => r = None
    end).
Proof.
  induction argv as [|a argv IH]; intros argc sp k s f A0 B Htop Hbase Hst Hargs Hsp; cbn [Exec.push_args push_plan].
  { apply wp_ret. exists k, f. split_and!; try done; lia. }
  apply list.Forall_cons in Hargs as [[Hab Hal] Hargs]. destruct (decide (MAXARG ≤ argc)%nat).
  { rewrite bool_decide_eq_true_2 by done. apply wp_ret. by exists k, f. }
  rewrite bool_decide_eq_false_2 by done. destruct (up_range sz (ps_size _ _ _ _ _ _ _ _ _ (bd_space _ _ _ _ _ _ _ B))) as (Hup & _).
  rewrite u32_small, land_lnot_3 by lia. set (sp' := (sp - (Z.of_nat (length a) + 1)) / 4 * 4).
  assert (sp - (Z.of_nat (length a) + 1) - 4 < sp' ≤ sp - (Z.of_nat (length a) + 1)) as Hsp'.
  { unfold sp'. pose proof (Z.div_mod (sp - (Z.of_nat (length a) + 1)) 4 ltac:(lia)).
    pose proof (Z.mod_pos_bound (sp - (Z.of_nat (length a) + 1)) 4 ltac:(lia)). lia. }
  assert (base - 4096 ≤ sp') as Hlow.
  { unfold sp'. replace (base - 4096) with ((base - 4096) / 4 * 4).
    - apply Z.mul_le_mono_nonneg_r; [lia|]. apply Z.div_le_mono; lia.
    - replace (base - 4096) with (1024 * (up sz - 2) * 4) by lia. by rewrite Z.div_mul by lia. }
  assert (length (a ++ [0]) = S (length a)) as Hlen by (rewrite length_app; simpl; lia).
  apply wp_bind. eapply wp_inkmem; [exact A0|auto with pres|].
  eapply wp_mono; [apply (wp_bd_copyout l k d tabs ents sz f base sp' (a ++ [0])); try done|].
  - apply Forall_app. split; [done|]. constructor; [lia|constructor].
  - intros H. by rewrite H in Hlen.
  - lia.
  - intros r k1 (f1 & B1 & Hr) s1 A1. destruct (decide (sp' < base)) as [Hout|Hin].
    + subst r. rewrite bool_decide_eq_true_2 by lia. apply wp_ret. by exists k1, f1.
    + destruct Hr as [-> Hf1]. rewrite bool_decide_eq_false_2 by lia. apply wp_bind.
      eapply wp_mono; [apply (IH (S argc) sp' k1 s1 (blit f sp' (a ++ [0]))); try done; try lia|].
      * eapply bd_ext; [|exact B1]. intros va _. apply Hf1.
      * apply stack_blit; [lia|done].
      * intros ro s2 (k2 & f2 & A2 & B2 & Hp). apply wp_ret. exists k2, f2. split; [done|]. split; [done|].
        destruct (push_plan base sp' argv (S argc) _) as [[[e ptrs] g]|]; [|by subst ro].
        destruct Hp as (-> & ? & ? & ?). split_and!; try done; lia.
Qed.

(** ** Giving up *)

(** The pages that were free are free again. *)
Definition restored (l : list Z) (k : Kalloc.st) : Prop := ready kend l k ∧ l ≡ₚ l0 ∧ same_but l0 (kmem k0) (kmem k).
Definition gave_up (o : list File.file * gmap Z Pipe.st * bool) (s : File.st) : Prop := ∃ l k, at_ o Idle k s ∧ restored l k.

Lemma wp_close o k s ip :
  at_ o (Open ip) k s → wp (File.infs (Fs.iunlockput ip) ;; Exec.end_op disksize)%kern s (λ _, at_ o Idle k).
Proof.
  intros A0. apply wp_bind. eapply wp_infs; [exact A0|]. eapply wp_mono; [apply (pf_put _ ip), A0|].
  intros [] f Hf s1 <- H1. eapply wp_infs; [exact (H1 _ Hf)|].
  eapply wp_mono; [by apply (pf_end _)|]. intros [] f2 Hf2 s2 <- H2. by apply H2.
Qed.

Lemma wp_bd_free l k d tabs ents sz f :
  building l k d tabs ents sz f → wp (Vm.freevm kend d) k (λ _ k', ∃ l', restored l' k').
Proof.
  intros [Hps Hfr Hs _]. eapply wp_mono; [apply (wp_freevm kend Hkend _ _ _ _ _ _ (ps_space _ _ _ _ _ _ _ _ _ Hps))|].
  intros [] k' (l' & Hr & Hl' & Hs'). assert (l' ≡ₚ l0) as Hl by (rewrite Hl', <-Hfr; apply Permutation_app_comm).
  exists l'. split; [done|]. split; [done|]. intros x Hx. rewrite <-Hs by done. apply Hs'. intros p Hp. apply Hx. by rewrite <-Hl.
Qed.

Lemma bd_nonzero l k d tabs ents sz f : building l k d tabs ents sz f → d ≠ 0.
Proof.
  intros [Hps _ _ _] ->. pose proof (vs_page _ _ _ _ _ _ _ (ps_space _ _ _ _ _ _ _ _ _ Hps) 0 ltac:(left)) as Hp.
  destruct (page_high kend Hkend _ Hp) as (_ & H & _). unfold KERNBASE in H. lia.
Qed.

(** Freeing the address space [d], if there is one. *)
Lemma wp_bad_free o ph l k d tabs ents sz f s (Q : unit → File.st → Prop) :
  at_ o ph k s → building l k d tabs ents sz f → (∀ l' k' s', at_ o ph k' s' → restored l' k' → Q tt s') →
  wp (kwhen (bool_decide (d ≠ 0)) (inkmem (Vm.freevm kend d))) s Q.
Proof.
  intros A0 B HQ. rewrite bool_decide_eq_true_2 by (by eapply bd_nonzero). eapply wp_inkmem; [exact A0|auto with pres|].
  eapply wp_mono; [by apply (wp_bd_free l k d tabs ents sz f)|]. intros [] k' [l' Hr] s' A'. by apply (HQ l' k').
Qed.

Abbreviation fails m := (wp (m ;; kret (None : option (Z * Z * Z * Z)))%kern).

Lemma wp_bad_idle o l k d tabs ents sz f s (Q : option (Z * Z * Z * Z) → File.st → Prop) :
  at_ o Idle k s → building l k d tabs ents sz f → (∀ s', gave_up o s' → Q None s') → fails (Exec.bad disksize kend d None) s Q.
Proof.
  intros A0 B HQ. apply wp_bind. unfold Exec.bad. apply wp_bind. eapply wp_bad_free; [done|done|].
  intros l' k' s' A' Hr. apply wp_ret, wp_ret, HQ. by exists l', k'.
Qed.

Lemma wp_bad_start o l k s ip (Q : option (Z * Z * Z * Z) → File.st → Prop) :
  at_ o (Open ip) k s → restored l k → (∀ s', gave_up o s' → Q None s') → fails (Exec.bad disksize kend 0 (Some ip)) s Q.
Proof.
  intros A0 Hr HQ. apply wp_bind. unfold Exec.bad. apply wp_bind, wp_ret. eapply wp_mono; [by apply (wp_close o k)|].
  intros [] s' A'. apply wp_ret, HQ. by exists l, k.
Qed.

Lemma wp_bad_open o l k d tabs ents sz f s ip (Q : option (Z * Z * Z * Z) → File.st → Prop) :
  at_ o (Open ip) k s → building l k d tabs ents sz f → (∀ s', gave_up o s' → Q None s') →
  fails (Exec.bad disksize kend d (Some ip)) s Q.
Proof.
  intros A0 B HQ. apply wp_bind. unfold Exec.bad. apply wp_bind. eapply wp_bad_free; [done|done|].
  intros l' k' s' A' Hr. eapply wp_mono; [by apply (wp_close o k')|]. intros [] s2 A2. apply wp_ret, HQ. by exists l', k'.
Qed.

(** ** Building the new image *)

Lemma parse_elf_junk b : length b = 52%nat → parse_elfhdr (Fs.put_bytes junk_elf 0 b) = parse_elfhdr b.
Proof.
  intros Hb. unfold Fs.put_bytes. rewrite take_0. simpl.
  assert (∀ i, (i < 52)%nat → byte_at (b ++ drop (length b) junk_elf) i = byte_at b i) as Hi.
  { intros i Hi. rewrite byte_at_app. by rewrite decide_True by lia. }
  unfold parse_elfhdr, get32, get16. rewrite !Hi by lia. done.
Qed.

Lemma wp_build_stack o s4 entry argv l2 k2 d tabs2 ents2 z g :
  at_ o Idle k2 s4 → building l2 k2 d tabs2 ents2 z g → (4 ≤ length l2)%nat →
  Forall (λ a, bytes a ∧ Z.of_nat (length a) < 4096) argv →
  wp (Exec.build_stack disksize kend d entry z argv) s4 (λ r s',
    match stack_plan z g argv with
    | Some (sz, sp, f) => ∃ l k tabs ents, r = Some (d, entry, sz, sp) ∧ at_ o Idle k s' ∧ building l k d tabs ents sz f
    | None => r = None ∧ gave_up o s'
    end).
Proof.
  intros A4 B2 Hl2 Hargs.
  destruct (up_range z (ps_size _ _ _ _ _ _ _ _ _ (bd_space _ _ _ _ _ _ _ B2))) as (Hup & _ & Hgu).
  unfold Exec.build_stack, stack_plan. cbv zeta. rewrite Hgu.
  set (sz1 := 4096 * up z). rewrite (u32_small (sz1 + 2 * PGSIZE)) by (unfold PGSIZE, KERNBASE in *; lia).
  assert (up sz1 = up z ∧ up (sz1 + 8192) = up z + 2) as [Hu1 Hu2].
  { unfold up, sz1. split.
    - rewrite <-(Z.div_unique (4096 * up z + 4095) 4096 (up z) 4095) by lia. done.
    - rewrite <-(Z.div_unique (4096 * up z + 8192 + 4095) 4096 (up z + 2) 4095) by lia. done. }
  assert (building l2 k2 d tabs2 ents2 sz1 g) as B3.
  { destruct B2 as [[P1 P2 P3 P4 P5] ? ? ?]. split; [|done..]. split; [done|by rewrite Hu1|by rewrite Hu1|done|unfold sz1, KERNBASE; lia]. }
  change (2 * PGSIZE) with 8192. destruct (decide (KERNBASE ≤ sz1 + 8192)) as [Hbig|Hbig].
  { apply wp_bind. eapply wp_inkmem; [exact A4|auto with pres|]. unfold Vm.allocuvm. rewrite bool_decide_eq_true_2 by done.
    apply wp_ret. intros s5 A5. rewrite bool_decide_eq_true_2 by done. by eapply wp_bad_idle. }
  apply wp_bind. eapply wp_inkmem; [exact A4|auto with pres|].
  eapply wp_mono; [apply (wp_bd_grow l2 k2 d tabs2 ents2 sz1 g (sz1 + 8192) B3); [lia|rewrite Hu1, Hu2; lia]|].
  intros r k5 (-> & l5 & tabs5 & ents5 & B5 & _) s5 A5. rewrite bool_decide_eq_false_2 by lia.
  apply wp_bind. eapply wp_inkmem; [exact A5|auto with pres|]. rewrite u32_small by (unfold KERNBASE in *; lia).
  replace (sz1 + 8192 - 8192) with (4096 * up z) by (unfold sz1; lia).
  eapply wp_mono; [apply (wp_bd_guard l5 k5 d tabs5 ents5 (sz1 + 8192) _ (up z) B5); rewrite Hu2; lia|].
  intros [] k6 (ents6 & B6) s6 A6. fold sz1 in B6. change (λ va : Z, if decide (sz1 ≤ va < sz1 + 4096) then None else _) with (with_stack sz1 g) in B6.
  assert (stack_ok (sz1 + 4096) (with_stack sz1 g)) as Hst.
  { unfold with_stack, extend. rewrite Hu1, Hu2. split; intros va Hva.
    - rewrite decide_False by lia. rewrite decide_True by (unfold sz1 in *; lia). by eexists.
    - by rewrite decide_True by lia. }
  apply wp_bind. eapply wp_mono.
  { apply (wp_push_args o Idle d tabs5 ents6 (sz1 + 8192) l5 (sz1 + 4096) argv 0 (sz1 + 8192) k6 s6 _ A6 B6); try done; rewrite ?Hu2; unfold sz1; lia. }
  intros ro s7 (k7 & f7 & A7 & B7 & Hp). destruct (push_plan _ _ argv 0 _) as [[[e ptrs] g7]|] eqn:Hpp.
  2: { subst ro. by eapply wp_bad_idle. }
  destruct Hp as (-> & Hst7 & He & Hf7). set (us := Exec.ustack e ptrs). set (sp := e - 4 * Z.of_nat (length us)).
  assert (length (us ≫= word_bytes) = 4 * length us)%nat as Hwl.
  { clear. induction us; [done|]. rewrite bind_cons, length_app, IHus. simpl. lia. }
  assert (bytes (us ≫= word_bytes)) as Hwb.
  { apply list.Forall_bind. apply list.Forall_forall. intros w _. unfold word_bytes.
    repeat (constructor; [apply Z.mod_pos_bound; lia|]). constructor. }
  pose proof (push_plan_length _ _ _ _ _ _ _ _ Hpp ltac:(unfold MAXARG; lia)) as Hpl. unfold MAXARG in Hpl.
  assert (length us = length ptrs + 4)%nat as Hul by (unfold us, Exec.ustack; rewrite !length_app; simpl; lia).
  rewrite (u32_small sp) by (unfold sp, KERNBASE in *; lia).
  assert (us ≫= word_bytes ≠ []) as Hne by (intros H; rewrite H in Hwl; simpl in Hwl; lia).
  apply wp_bind. eapply wp_inkmem; [exact A7|auto with pres|].
  eapply wp_mono; [apply (wp_bd_copyout l5 k7 d tabs5 ents6 (sz1 + 8192) f7 (sz1 + 4096) sp (us ≫= word_bytes) B7); try done; rewrite ?Hu2, ?Hwl; unfold sp, sz1 in *; lia|].
  intros r k8 (f8 & B8 & Hr8) s8 A8. destruct (decide (sp < sz1 + 4096)).
  - subst r. rewrite bool_decide_eq_true_2 by lia. by eapply wp_bad_idle.
  - destruct Hr8 as [-> Hf8]. rewrite bool_decide_eq_false_2 by lia. apply wp_ret. exists l5, k8, tabs5, ents6. split; [done|]. split; [done|].
    eapply bd_ext; [|exact B8]. intros va _. rewrite Hf8. by apply blit_ext.
Qed.

(** Up to the loop over the program headers. *)
Lemma build_headers o s ip c argv (φ : outcome File.st (option (Z * Z * Z * Z)) → Prop) :
  prog = Some c → bytes c → Z.of_nat (length c) < 2 ^ 31 → at_ o (Open ip) k0 s →
  ready kend l0 k0 → NoDup (l0 ++ O) → (∀ p, p ∈ O → Kalloc.page kend p) → (128 ≤ length l0)%nat →
  let h := parse_elfhdr (take 52 c) in
  (52 ≤ length c)%nat → e_magic h = ELF_MAGIC →
  (∀ d l k s' tabs, at_ o (Open ip) k s' → building l k d tabs (kents kdata) 0 (λ _, None) → (length l0 ≤ 128 + length l)%nat →
    φ ((r ← Exec.load_segments disksize kend dev_read (Z.to_nat (e_phnum h)) d ip (e_phoff h) 0;
        match r with
        | None => Exec.bad disksize kend d (Some ip) ;; kret None
        | Some sz => File.infs (Fs.iunlockput ip) ;; Exec.end_op disksize ;; Exec.build_stack disksize kend d (e_entry h) sz argv
        end)%kern s')) →
  φ (Exec.build disksize kend kdata dev_read junk_elf ip argv s).
Proof.
  intros Hc Hb Hlen A0 Hr HN HO Hl h Hsh Hmg HQ. unfold Exec.build.
  eapply (wp_run φ _ _ _ (λ r s', r = read_at c 0 sizeof_elfhdr ∧ at_ o (Open ip) k0 s')).
  { eapply (wp_exec_readi o k0 _ ip c); try done. }
  intros r s1 [-> A1]. assert (read_at c 0 sizeof_elfhdr = (52, take 52 c)) as ->.
  { unfold read_at, sizeof_elfhdr. rewrite decide_True by lia. f_equal. lia. }
  cbn [fst snd]. cbv zeta. rewrite (u32_small 52) by lia. rewrite bool_decide_eq_false_2 by (unfold sizeof_elfhdr; lia).
  rewrite parse_elf_junk by (rewrite length_take; lia). fold h. rewrite bool_decide_eq_false_2 by auto.
  eapply (wp_run φ _ _ _ (λ d s', d ≠ 0 ∧ ∃ k l tabs, at_ o (Open ip) k s' ∧ building l k d tabs (kents kdata) 0 (λ _, None) ∧
    (length l0 ≤ 128 + length l)%nat)).
  - eapply wp_inkmem; [exact A1|auto with pres|]. eapply wp_mono; [by apply (wp_new_space kend kdata Hkend Hdata l0 k0 O)|].
    intros d k1 (Hd & Hs1 & l1 & tabs1 & Hps1 & Hl1 & Hlen1) s2 A2. split; [done|]. exists k1, l1, tabs1. split; [done|]. split; [|done].
    split; [done|by symmetry|done|]. intros va Hva. unfold uload. destruct (mmu (kmem k1) d va) as [a|] eqn:Ha; [|done].
    destruct (mmu_owned kend kdata Hkend Hdata _ _ _ _ _ _ _ va a Hps1 Hva Ha) as [? _]. change (up 0) with 0 in *. lia.
  - intros d s2 (Hd & k & l & tabs & A2 & B2 & Hlen2). rewrite bool_decide_eq_false_2 by done. by apply (HQ d l k s2 tabs).
Qed.

Lemma wp_build o s ip c argv B :
  prog = Some c → bytes c → Z.of_nat (length c) < 2 ^ 31 → at_ o (Open ip) k0 s →
  ready kend l0 k0 → NoDup (l0 ++ O) → (∀ p, p ∈ O → Kalloc.page kend p) →
  Forall (λ a, bytes a ∧ Z.of_nat (length a) < 4096) argv →
  let h := parse_elfhdr (take 52 c) in
  segs_safe B c (Z.to_nat (e_phnum h)) (e_phoff h) → 0 ≤ B < KERNBASE → (132 + 2 * Z.to_nat (up B) ≤ length l0)%nat →
  wp (Exec.build disksize kend kdata dev_read junk_elf ip argv) s (λ r s',
    match exec_plan c argv with
    | Some (entry, sz, sp, f) => ∃ d l k tabs ents, r = Some (d, entry, sz, sp) ∧ at_ o Idle k s' ∧ building l k d tabs ents sz f
    | None => r = None ∧ gave_up o s'
    end).
Proof.
  intros Hc Hb Hlen A0 Hr HN HO Hargs h Hsafe HB Hl. unfold exec_plan. fold h.
  destruct (decide ((length c < 52)%nat ∨ e_magic h ≠ ELF_MAGIC)) as [Hbad|Hgood].
  { assert (∀ A (x : option A), (if decide (length c < 52)%nat then None else if decide (e_magic h ≠ ELF_MAGIC) then None else x) = None) as ->.
    { intros A x. destruct (decide (length c < 52)%nat); [done|]. rewrite decide_True; [done|tauto]. }
    assert (restored l0 k0) as Hr0 by (split; [done|]; split; [done|]; by intros x _). unfold Exec.build.
    apply wp_bind. eapply (wp_exec_readi o k0 _ ip c); [exact A0|done|lia|unfold sizeof_elfhdr; lia|]. intros s1 A1.
    assert (read_at c 0 sizeof_elfhdr = (Z.min 52 (Z.of_nat (length c)), take 52 c)) as ->.
    { unfold read_at, sizeof_elfhdr. rewrite decide_True by lia. rewrite Z.sub_0_r. done. }
    cbn [fst snd]. cbv zeta. rewrite (u32_small (Z.min _ _)) by lia. unfold sizeof_elfhdr.
    destruct (decide (length c < 52)%nat) as [Hsh|Hsh]; [rewrite bool_decide_eq_true_2 by lia; by eapply wp_bad_start|].
    rewrite bool_decide_eq_false_2 by lia. rewrite parse_elf_junk by (rewrite length_take; lia). fold h.
    rewrite bool_decide_eq_true_2 by tauto. by eapply wp_bad_start. }
  rewrite (decide_False (P := (length c < 52)%nat)) by tauto. rewrite (decide_False (P := e_magic h ≠ ELF_MAGIC)) by tauto.
  unfold wp. eapply build_headers; try done; [lia|lia|apply dec_stable; tauto|]. intros d l1 k1 s2 tabs1 A2 B1 Hlen1.
  match goal with |- match ?m ?s with Done a s' => @?Q a s' | _ => _ end => change (wp m s Q) end. fold h.
  assert (bytes (take 52 c)) as Hb52 by by apply Forall_take.
  pose proof (up_mono 0 B ltac:(lia)) as HuB. change (up 0) with 0 in HuB.
  apply wp_bind. eapply wp_mono.
  { apply (wp_load_segments o c ip d B _ (e_phoff h) l1 k1 s2 tabs1 (kents kdata) 0 (λ _, None)); try done; try lia.
    - intros va Hva. change (up 0) with 0 in Hva. lia.
    - by apply get32_uint.
    - change (up 0) with 0. lia. }
  intros ro s3 (l2 & k2 & tabs2 & ents2 & sz & f2 & A3 & B2 & Hl2 & HszB & Hp). change (up 0) with 0 in Hl2.
  destruct (plan c (Z.to_nat (e_phnum h)) (e_phoff h) 0 (λ _, None)) as [[z g]|].
  2: { subst ro. by eapply wp_bad_open. }
  destruct Hp as (-> & -> & Hz & Hfull & Hfg).
  assert (building l2 k2 d tabs2 ents2 z g) as B2' by (by eapply bd_ext; [|exact B2]).
  rewrite wp_assoc. apply wp_bind. eapply wp_mono; [by apply (wp_close o k2)|]. intros [] s4 A4.
  pose proof (up_mono z B ltac:(lia)) as HuzB.
  eapply wp_mono; [apply (wp_build_stack o s4 (e_entry h) argv l2 k2 d tabs2 ents2 z g); try done; lia|].
  intros r s5. destruct (stack_plan z g argv) as [[[sz sp] f]|]; [|done].
  intros (l5 & k5 & tabs5 & ents5 & -> & ? & ?). by exists d, l5, k5, tabs5, ents5.
Qed.
End exec.
