(* ===== verification/ExecFs.v ===== *)
(** * The file system as exec uses it

    The file system inside the log implements the interface [ProgramFs] that
    the theorems on [exec] rely on: from a disk whose directories are in order
    and between transactions, the path leads to a file of known content, and
    the disk is the same when exec is done with it. *)

From S2P Require Import Prelude CString Kalloc Pipe Bio Log Blocks Fs FsThm FsDir FsSpec File FileThm Exec ExecThm.
Import Fs.

Local Open Scope Z_scope.

Section program.
Context (disksize ls sz : Z) (fsb : superblock) (dstart : Z).
#[local] Instance p_ops : BlockOps Log.st := log_ops disksize.
Abbreviation layer := (log_blocks disksize ls sz).
Context (dev_read : Z → option (nat → Z → kM (st (S:=Log.st)) (Z * list Z))).
Context (dev_write : Z → option (nat → list Z → Z → kM (st (S:=Log.st)) Z)).
Context (Hlay : layout (BlockLayer0 := layer (λ _, []) [] 0) fsb dstart).

Abbreviation fs_ok := (fs_ok (BlockLayer0 := layer (λ _, []) [] 0) fsb dstart).
Abbreviation tree_ok := (tree_ok fsb dstart).
Abbreviation linked := (linked fsb).
Abbreviation disk_inode := (disk_inode fsb).
Abbreviation same_home := (same_home (BlockLayer0 := layer (λ _, []) [] 0)).

(** ** Disks that agree outside the log have the same tree *)

Lemma linked_home v v' n : same_home v v' → linked v n → linked v' n.
Proof.
  intros Hh (Hn & Hl). split; [done|]. by rewrite (disk_inode_home fsb dstart Hlay v v').
Qed.

Lemma same_home_sym v v' : same_home v v' → same_home v' v.
Proof. intros H b Hb. symmetry. by apply H. Qed.

Lemma tree_home v v' : same_home v v' → tree_ok v → tree_ok v'.
Proof.
  intros Hh Ht n Hl Hd. pose proof (linked_home v' v n (same_home_sym _ _ Hh) Hl) as Hl0. pose proof Hl as (Hn & _).
  rewrite (disk_inode_home fsb dstart Hlay v v' n Hh Hn) in *. destruct (Ht n Hl0 Hd) as [[D1 D2 D3 D4] Hnext].
  destruct (file_home fsb dstart Hlay v v' _ Hh D1) as (F & _ & Hc). rewrite Hc. split; [split; [done|done|done|by rewrite Hc]|].
  intros e m Hm. by apply (linked_home v), (Hnext e).
Qed.

Lemma walk_linked v es : ∀ n m, tree_ok v → linked v n → walk fsb v false n es = Some m → linked v m.
Proof.
  induction es as [|e es IH]; intros n m Ht Hl; simpl; [by intros [= <-]|]. case_decide as Hd; [|done].
  destruct (dir_lookup _ e) as [n'|] eqn:He; [|done]. intros Hw. apply (IH n'); [done| |done]. by apply (proj2 (Ht n Hl Hd) e).
Qed.

Lemma walk_home v v' es : ∀ n, same_home v v' → tree_ok v → linked v n → walk fsb v' false n es = walk fsb v false n es.
Proof.
  induction es as [|e es IH]; intros n Hh Ht Hl; cbn [walk andb]; [done|]. pose proof Hl as (Hn & _).
  rewrite (disk_inode_home fsb dstart Hlay v v' n Hh Hn).
  destruct (decide (d_type (disk_inode v n) = T_DIR)) as [Hd|]; [|done]. destruct (Ht n Hl Hd) as [[D1 _ _ _] Hnext].
  destruct (file_home fsb dstart Hlay v v' _ Hh D1) as (_ & _ & ->). destruct (dir_lookup _ e) as [m|] eqn:He; [|done].
  apply IH; [done|done|]. by apply (Hnext e).
Qed.

(** ** The phases *)

(** The references of the rest of the system; [c] is the current directory. *)
Context (junk_name path : list Z) (Hname : length junk_name = DIRSIZ).
Context (H : gmap Z nat) (a : ispec) (Hroom : room a) (c : Z) (cwd : nat) (Hcwd : H !! c = Some cwd) (Hdom : dom H = dom (irefs a)).
Context (Hcap : (1 ≤ Z.to_nat (sz - 1))%nat).

Definition start : Z := if decide (head path = Some SLASH) then ROOTINO else c.

Record disk_good (prog : option (list Z)) (v : Z → block) : Prop := {
  dg_fs : fs_ok v;
  dg_tree : tree_ok v;
  dg_root : linked v ROOTINO;
  dg_cwd : linked v c;
  dg_prog : match walk fsb v false start (elements path) with
    | None => prog = None
    | Some m => file_ok fsb dstart v (disk_inode v m) ∧ d_type (disk_inode v m) ≠ T_DEV ∧ prog = Some (content v (disk_inode v m))
    end;
}.

Lemma good_start prog v : disk_good prog v → linked v start.
Proof. intros [_ _ ? ? _]. unfold start. by case_decide. Qed.

Lemma good_home prog v v' : same_home v v' → disk_good prog v → disk_good prog v'.
Proof.
  intros Hh G. pose proof (good_start _ _ G) as Hst. destruct G as [G1 G2 G3 G4 G5]. split.
  - by apply (fs_home fsb dstart Hlay v).
  - by apply (tree_home v).
  - by apply (linked_home v).
  - by apply (linked_home v).
  - rewrite (walk_home v v' _ _ Hh G2 Hst). destruct (walk fsb v false start (elements path)) as [m|] eqn:Hw; [|done].
    destruct (walk_linked v _ _ _ G2 Hst Hw) as (Hm & _). rewrite (disk_inode_home fsb dstart Hlay v v' m Hh Hm).
    destruct G5 as (F & Ht & ->). destruct (file_home fsb dstart Hlay v v' _ Hh F) as (F' & _ & Hc). by rewrite Hc.
Qed.

Abbreviation target v := (walk fsb v false start (elements path)).
Abbreviation irel d W := (irel (BlockLayer0 := layer d W 1) fsb ∅).
Abbreviation holds d W := (holds (BlockLayer0 := layer d W 1) fsb ∅).

(** What each phase of exec finds; [d] is on the disk, after the writes [W]. *)
Inductive phase_ok (prog : option (list Z)) (s : st (S:=Log.st)) : phase → Prop :=
  | ok_idle d W v : disk_good prog v → log_tx disksize ls sz d W 0 ∅ ∅ ∅ v (blk s) →
      (∀ t, log_tx disksize ls sz d W 1 ∅ ∅ ∅ v t → irel d W v H a (set_blk t s)) → phase_ok prog s Idle
  | ok_op d W v : disk_good prog v → irel d W v H a s → phase_ok prog s InOp
  | ok_ref d W v m ip : disk_good prog v → target v = Some m → holds d W v H a m ip s → phase_ok prog s (Ref ip)
  | ok_open d W v m ip x : disk_good prog v → target v = Some m → irel d W v (<[m := ip]> H) (lock_of m a) s →
      inodes s !! ip = Some x → idev x = ROOTDEV → idata x = disk_inode v m → (H !! m = Some ip ∨ m ∉ dom (irefs a)) →
      phase_ok prog s (Open ip).

Lemma good_target prog v m : disk_good prog v → target v = Some m →
  linked v m ∧ file_ok fsb dstart v (disk_inode v m) ∧ d_type (disk_inode v m) ≠ T_DEV ∧ prog = Some (content v (disk_inode v m)).
Proof.
  intros G Hm. split; [eapply walk_linked; [apply G|by eapply good_start|done]|]. pose proof (dg_prog _ _ G) as Hp. by rewrite Hm in Hp.
Qed.

Lemma irel_home d W d' W' v v' h b s t :
  same_home v v' → irel d W v h b s → log_tx disksize ls sz d' W' 1 ∅ ∅ ∅ v' t → irel d' W' v' h b (set_blk t s).
Proof.
  intros Hh [R1 R2 R3 R4 R5 R6 R7] Ht. split; try done. intros n i Hi. destruct (R6 n i Hi) as (x & k & Hx & Hk & [E1 E2 E3 E4 E5]).
  exists x, k. split; [done|]. split; [done|]. split; try done. intros Hv. rewrite E4 by done. symmetry.
  apply (disk_inode_home fsb dstart Hlay v v'); [done|apply E2].
Qed.

#[export] Instance fs_program (prog : option (list Z)) : ProgramFs disksize dev_read junk_name path cwd prog.
Proof.
  refine {| pf ph s := phase_ok prog s ph |}.
  - intros ph s Hs. destruct Hs as [d W v _ Ht _|d W v _ R|d W v m ip _ _ [R _]|d W v m ip x _ _ R _ _ _ _].
    + exact (tx_held (BlockLayer := layer d W 0) _ _ _ _ _ Ht).
    + exact (tx_held (BlockLayer := layer d W 1) _ _ _ _ _ (ir_tx _ _ _ _ _ _ R)).
    + exact (tx_held (BlockLayer := layer d W 1) _ _ _ _ _ (ir_tx _ _ _ _ _ _ R)).
    + exact (tx_held (BlockLayer := layer d W 1) _ _ _ _ _ (ir_tx _ _ _ _ _ _ R)).
  - intros s Hs. inversion Hs as [d W v G Ht HR| | |]. apply wp_zoom. eapply wp_mono; [by apply (wp_begin disksize ls sz d W v)|].
    intros [] t Ht1. apply (ok_op _ _ d W v); [done|]. by apply HR.
  - intros s Hs. inversion Hs as [|d W v G R| |]. unfold namei. apply wp_bind.
    eapply wp_mono; [apply (wp_namex (BlockLayer0 := layer d W 1) fsb dstart (lay disksize ls sz fsb dstart Hlay d W 1) dev_read dev_write ∅ v H a c cwd
      false path junk_name s R Hroom)|].
    + apply G.
    + apply (fs_ok_at disksize ls sz fsb dstart d W 1), G.
    + rewrite size_empty. lia.
    + done.
    + apply G.
    + done.
    + apply G.
    + intros r s' Hw. apply wp_ret. fold start in Hw. unfold walked in Hw. pose proof (dg_prog _ _ G) as Hp.
      destruct (target v) as [m|] eqn:Hm.
      * destruct Hw as (j & -> & Hh & _). destruct Hp as (_ & _ & ->). exists j. split; [done|]. by apply (ok_ref _ _ d W v m).
      * destruct Hw as [-> R']. rewrite Hp in *. split; [done|]. by apply (ok_op _ _ d W v).
  - intros ip s Hs. inversion Hs as [| |d W v m ip' G Hm Hh|]; subst. destruct (good_target _ _ _ G Hm) as (Hl & _).
    eapply (ilock_holds (BlockLayer0 := layer d W 1) fsb dstart (lay disksize ls sz fsb dstart Hlay d W 1) dev_read dev_write ∅ v H a m ip s); try done.
    + apply Hroom.
    + rewrite size_empty. lia.
    + intros s' x R' Hx Hdev Hdat. apply (ok_open _ _ d W v m ip x); try done. apply Hh.
  - intros ip s cc off n Hs Hc Hoff Hn. inversion Hs as [| | |d W v m ip' x G Hm R Hx Hdev Hdat Hor]; subst.
    destruct (good_target _ _ _ G Hm) as (_ & F & Hty & [= ->]).
    eapply (wp_readi (BlockLayer0 := layer d W 1) fsb dstart (lay disksize ls sz fsb dstart Hlay d W 1) dev_read ∅ v s ip x); try done;
      [apply R|by rewrite Hdat|apply (fs_ok_at disksize ls sz fsb dstart d W 1), G|rewrite size_empty; lia|by rewrite Hdat|].
    intros t Ht. rewrite Hdat. cbv zeta. assert (dinode_ok (disk_inode v m)) as Hd by apply F. set (di := disk_inode v m) in *.
    pose proof (length_content v di Hd) as Hlen. pose proof (do_size di Hd) as Hsz. unfold uint in Hsz.
    split.
    + unfold read_at. rewrite Hlen, Z2Nat.id by lia. destruct (decide (off ≤ d_size di ∧ off + n < 2 ^ 32)) as [[Ho1 Ho2]|]; [|done].
      unfold read_len. destruct (decide (off + n ≤ d_size di)).
      * f_equal; [lia|]. symmetry. apply content_take; [done|lia|lia].
      * f_equal; [lia|]. rewrite <-(content_take v di off) by (done || lia). rewrite !take_ge; [done|rewrite length_drop, Hlen; lia..].
    + apply (ok_open _ _ d W v m ip x); try done. by apply (irel_blk (BlockLayer0 := layer d W 1)).
  - intros ip s Hs. inversion Hs as [| | |d W v m ip' x G Hm R Hx Hdev Hdat Hor]; subst. destruct (good_target _ _ _ G Hm) as ((_ & _ & Hl) & _).
    eapply wp_mono; [apply (iunlockput_holds (BlockLayer0 := layer d W 1) fsb dstart (lay disksize ls sz fsb dstart Hlay d W 1) dev_read dev_write ∅ v H a m ip s); try done|].
    + apply Hroom.
    + intros [] s' R'. by apply (ok_op _ _ d W v).
  - intros s Hs. inversion Hs as [|d W v G R| |]. apply wp_zoom.
    eapply wp_mono; [apply (wp_end disksize ls sz d W ∅ v), (ir_tx _ _ _ _ _ _ R)|].
    intros [] t (v' & W' & Hq & Hh & _). pose proof (home_same disksize ls sz v v' Hh) as Hsh.
    apply (ok_idle _ _ (apply_writes d W') (W ++ W') v'); [by apply (good_home _ v)|done|].
    intros t' Ht'. exact (irel_home d W _ _ v v' H a s t' Hsh R Ht').
Defined.
End program.
