(* ===== verification/ExecSpec.v ===== *)
(** * What exec promises

    [exec] replaces a program or changes nothing, for programs whose segments
    are aligned and do not wrap around; for others it panics or writes to
    memory that is not the process's. The file system implements the interface
    that these theorems are proved against. *)

From S2P Require Import Prelude CString Kalloc Pipe Bio Log Blocks Fs FsThm FsDir FsSpec File FileThm Sysfile Vm VmThm VmSpec Exec ExecThm ExecFs.

Local Open Scope Z_scope.

Section replaces.
Context (disksize kend kdata : Z) (Hkend : KERNBASE < kend).
Context (Hdata : kdata mod 4096 = 0 ∧ KERNLINK < kdata < KERNBASE + PHYSTOP).
Context (dev_read : Z → option (nat → Z → kM (Fs.st (S := Log.st)) (Z * list Z))).
Context (junk_elf junk_name path : list Z) (cwd : nat) (prog : option (list Z)).
Context `{PF : !ProgramFs disksize dev_read junk_name path cwd prog}.

#[local] Instance r_ops : BlockOps Log.st := log_ops disksize.
Abbreviation kmem := Kalloc.kmem.
Abbreviation proc_space := (proc_space kend kdata).
Abbreviation exec := (Exec.exec disksize kend kdata dev_read junk_elf junk_name path).

(** The system between calls: the file system idle, and the process with the
    address space that its page directory describes. *)
Record running (s : Exec.st) (l : list Z) (tabs : list (option Z)) (ents : Z → Z) (O : list Z) : Prop := {
  rn_fs : pf Idle (File.fs (Exec.files s));
  rn_cwd : Exec.cwd s = cwd;
  rn_space : proc_space l (kp (Exec.files s)) (Exec.pgdir s) tabs ents O (Exec.sz s);
}.

(** What a user program of the process reads. *)
Definition sees (s : Exec.st) : view := λ va, uload (kmem (kp (Exec.files s))) (Exec.pgdir s) va.

(** What exec relies on: a file of bytes that fits in an [int], segments that
    are aligned and do not wrap, argument strings of less than a page, and
    pages for segments up to [B] bytes, the stack and the tables. *)
Record callable (argv : list (list Z)) (l : list Z) (B : Z) : Prop := {
  ca_file c : prog = Some c → bytes c ∧ Z.of_nat (length c) < 2 ^ 31 ∧
    segs_safe B c (Z.to_nat (e_phnum (parse_elfhdr (take 52 c)))) (e_phoff (parse_elfhdr (take 52 c)));
  ca_args : Forall (λ a, bytes a ∧ Z.of_nat (length a) < 4096) argv;
  ca_bound : 0 ≤ B < KERNBASE;
  ca_pages : (132 + 2 * Z.to_nat (up B) ≤ length l)%nat;
}.

(** Memory other than the pages that were free is as before. *)
Lemma space_kept l k d tabs ents O sz l' k' :
  proc_space l k d tabs ents O sz → ready kend l' k' → l' ≡ₚ l → same_but l (kmem k) (kmem k') →
  proc_space l' k' d tabs ents O sz ∧ (∀ va, 0 ≤ va < 2 ^ 32 → uload (kmem k') d va = uload (kmem k) d va) ∧
  ∀ p x, p ∈ O → Kalloc.in_page p x → kmem k' x = kmem k x.
Proof.
  intros Hps Hr Hl Hs. pose proof (ps_space _ _ _ _ _ _ _ _ _ Hps) as Hsp.
  assert (∀ p x, p ∈ owned d tabs ents ++ O → Kalloc.in_page p x → kmem k' x = kmem k x) as Hkeep.
  { intros p x Hp Hx. apply Hs. intros q Hq. by apply (vs_free_apart kend Hkend l k d tabs ents O p q x). }
  split; [|split].
  - destruct Hps as [_ Hpr Hab Hk Hsz]. split; try done. destruct Hsp as [_ Hpt HN HG]. split; [done| |by rewrite Hl|done].
    eapply pt_frame; [exact Hpt|]. intros p x Hp. apply Hkeep. apply elem_of_app. left. unfold owned. rewrite app_comm_cons. apply elem_of_app. by left.
  - intros va Hva. eapply uload_frame; [done|done|exact Hps|done|]. intros p x Hp. apply Hkeep. apply elem_of_app. by left.
  - intros p x Hp. apply Hkeep. apply elem_of_app. by right.
Qed.

(** Freeing the old address space leaves the new one. *)
Lemma wp_free_old l0 k0 old otabs oents O osz l k d tabs ents sz f :
  proc_space l0 k0 old otabs oents O osz →
  building kend kdata k0 l0 (owned old otabs oents ++ O) l k d tabs ents sz f →
  wp (Vm.freevm kend old) k (λ _ k', ∃ l', proc_space l' k' d tabs ents O sz ∧ owned d tabs ents ++ l' ≡ₚ owned old otabs oents ++ l0 ∧
    (∀ va, 0 ≤ va < 2 ^ 32 → uload (kmem k') d va = f va) ∧ ∀ p x, p ∈ O → Kalloc.in_page p x → kmem k' x = kmem k0 x).
Proof.
  intros Hps [Hn Hfr Hs Hv]. pose proof (ps_space _ _ _ _ _ _ _ _ _ Hps) as Hsp. pose proof (ps_space _ _ _ _ _ _ _ _ _ Hn) as Hnsp.
  assert (∀ p x, p ∈ owned old otabs oents ++ O → Kalloc.in_page p x → kmem k x = kmem k0 x) as Hkeep.
  { intros p x Hp Hx. apply Hs. intros q Hq. by apply (vs_free_apart kend Hkend l0 k0 old otabs oents O p q x). }
  assert (pt (kmem k) old otabs oents) as Hpt.
  { eapply pt_frame; [apply (vs_pt _ _ _ _ _ _ _ Hsp)|]. intros p x Hp. apply Hkeep. apply elem_of_app. left. unfold owned. rewrite app_comm_cons.
    apply elem_of_app. by left. }
  assert (space kend l k old otabs oents (O ++ owned d tabs ents)) as Hosp.
  { eapply vs_frame_perm; [|eapply (vs_other kend l k d tabs ents old otabs oents (uframes oents ++ O)); [|exact Hpt]].
    - by rewrite <-app_assoc.
    - unfold owned in Hnsp. simpl in Hnsp. by rewrite <-app_assoc in Hnsp. }
  eapply wp_mono; [apply (wp_freevm kend Hkend _ _ _ _ _ _ Hosp)|]. intros [] k' (l' & Hr' & Hl' & Hs').
  change (l' ≡ₚ l ++ owned old otabs oents) in Hl'. exists l'.
  assert (NoDup ((l ++ owned old otabs oents) ++ owned d tabs ents ++ O)) as HN.
  { rewrite (Permutation_app_comm (owned d tabs ents)). pose proof (vs_nodup _ _ _ _ _ _ _ Hosp) as HN. unfold owned at 1.
    rewrite <-app_assoc. simpl. by rewrite <-app_assoc. }
  assert (∀ p, p ∈ owned d tabs ents ++ O → Kalloc.page kend p) as Hpg.
  { intros p Hp. apply (vs_page _ _ _ _ _ _ _ Hosp). right. apply elem_of_app. right. apply elem_of_app. right.
    apply elem_of_app. apply elem_of_app in Hp as [?|?]; [by right|by left]. }
  assert (∀ p x, p ∈ owned d tabs ents ++ O → Kalloc.in_page p x → kmem k' x = kmem k x) as Hkeep'.
  { intros p x Hp Hx. apply Hs'. intros q Hq Hqx. apply list.NoDup_app in HN as (_ & HN & _).
    eapply (pages_apart kend Hkend p q x x); [by apply Hpg| |intros ->; apply (HN q); [by rewrite <-Hl'|done]|done|done|done].
    by apply (Kalloc.free_pages _ _ _ (rd_free _ _ _ Hr')). }
  split; [|split; [|split]].
  - destruct Hn as [_ Hpr Hab Hk Hsz]. split; try done. split.
    + done.
    + eapply pt_frame; [apply (vs_pt _ _ _ _ _ _ _ Hnsp)|]. intros p x Hp. apply Hkeep'. apply elem_of_app. left. unfold owned. rewrite app_comm_cons.
      apply elem_of_app. by left.
    + rewrite Hl'. unfold owned at 2 in HN. simpl in HN. by rewrite <-(app_assoc (tables tabs)) in HN.
    + intros p Hp. apply Hpg. unfold owned. simpl. by rewrite <-app_assoc.
  - rewrite Hl', <-Hfr, app_assoc. apply Permutation_app_comm.
  - intros va Hva. rewrite <-Hv by done. eapply uload_frame; [done|done|exact Hn|done|]. intros p x Hp. apply Hkeep'. apply elem_of_app. by left.
  - intros p x Hp Hx. rewrite (Hkeep' p) by (done || (apply elem_of_app; by right)). apply (Hkeep p); [apply elem_of_app; by right|done].
Qed.

(** Up to the locked inode. *)
Lemma exec_opened s l tabs ents O c argv (φ : outcome Exec.st Z → Prop) :
  running s l tabs ents O → prog = Some c →
  (∀ ip t, at_ disksize dev_read junk_name path cwd prog (others (Exec.files s)) (Open ip) (kp (Exec.files s)) t →
    φ ((o ← Exec.infile (Exec.build disksize kend kdata dev_read junk_elf ip argv);
        match o with
        | None => kret (-1)
        | Some (pgdir', entry, sz', sp) =>
          s ← kget;
          let oldpgdir := Exec.pgdir s in
          kmodify (λ s, Exec.St (Exec.files s) (Exec.cwd s) pgdir' sz' entry sp (copy_name (Exec.pname s) (last_elem path path))) ;;
          kassert (bool_decide (pgdir' ≠ 0)) "switchuvm: no pgdir" ;;
          Exec.infile (Exec.inkmem disksize (Vm.freevm kend oldpgdir)) ;;
          kret 0
        end)%kern (Exec.set_files t s))) →
  φ (exec argv s).
Proof.
  intros [Hfs Hcwd Hps] Hc HQ. set (o := others (Exec.files s)) in *. set (k0 := kp (Exec.files s)) in *.
  assert (at_ disksize dev_read junk_name path cwd prog o Idle k0 (Exec.files s)) as A0 by done. unfold Exec.exec.
  eapply (wp_run φ _ _ _ (λ _ s', ∃ t, s' = Exec.set_files t s ∧ at_ disksize dev_read junk_name path cwd prog o InOp k0 t)).
  { apply wp_zoom. eapply wp_infs; [exact A0|]. eapply wp_mono; [by apply pf_begin|]. intros [] f Hf t <- Ht. exists t. split; [done|by apply Ht]. }
  intros [] s1 (t1 & -> & A1). eapply (wp_run φ _ _ _ (λ a s', a = Exec.set_files t1 s ∧ s' = a)); [by apply wp_get|]. intros a s' [-> ->].
  eapply (wp_run φ _ _ _ (λ r s', ∃ ip t, r = Some ip ∧ s' = Exec.set_files t s ∧ at_ disksize dev_read junk_name path cwd prog o (Ref ip) k0 t)).
  { apply wp_zoom. simpl. rewrite Hcwd. eapply wp_infs; [exact A1|]. eapply wp_mono; [by apply pf_found; apply A1|].
    intros r f [(? & _)|(c' & ip & _ & -> & Hf)] t <- Ht; [congruence|]. exists ip, t. split; [done|]. split; [done|by apply Ht]. }
  intros r s2 (ip & t2 & -> & -> & A2).
  eapply (wp_run φ _ _ _ (λ _ s', ∃ t, s' = Exec.set_files t s ∧ at_ disksize dev_read junk_name path cwd prog o (Open ip) k0 t)).
  { apply wp_zoom. eapply wp_infs; [exact A2|]. eapply wp_mono; [apply pf_ilock; apply A2|]. intros [] f Hf t <- Ht. exists t. split; [done|by apply Ht]. }
  intros [] s3 (t3 & -> & A3). by apply HQ.
Qed.

(** From [wp] to a predicate on the outcome and back. *)
Ltac as_outcome :=
  lazymatch goal with |- wp ?m ?s ?Q => change ((λ out, match out with Done a s' => Q a s' | _ => False end) (m s)) end.
Ltac as_wp :=
  cbv beta; lazymatch goal with |- match ?m ?s with Done a s' => @?Q a s' | _ => _ end => change (wp m s Q) end.

Ltac proj := cbn [Exec.files Exec.set_files Exec.cwd Exec.pgdir Exec.sz Exec.eip Exec.esp Exec.pname lset lview].

(** C6: exec replaces the program or changes nothing, for files that a linker makes. The
    file is of bytes and less than 2 GB; each of its segments that is loaded begins on a
    page boundary and does not wrap around the address space; the arguments are strings
    of less than a page; and 132 pages, and two for each page of the segments that fit
    below the kernel, are free. If the path then leads to an executable file and the
    arguments fit in a page of stack, exec returns 0, and the process has a new address
    space in which a user program sees the segments of the file, zeros behind them, a
    page it may not touch, and the stack that [main] expects, with the stack pointer and
    the entry point set; all pages of the old address space have been freed. If there is
    no such file, or it is not executable, or the arguments do not fit, exec returns -1,
    the process sees the memory it saw, and no page is lost. In both cases the file
    system is idle again, no open file or pipe has changed, and the memory of other
    processes is untouched. (Without alignment the kernel panics, see
    [exec_misaligned_panics]; with a segment that wraps around it is overwritten, see
    [exec_overwrites].) *)
Theorem exec_replaces s l tabs ents O argv B :
  running s l tabs ents O → callable argv l B →
  wp (exec argv) s (λ r s', pf Idle (File.fs (Exec.files s')) ∧ others (Exec.files s') = others (Exec.files s) ∧
    Exec.cwd s' = Exec.cwd s ∧
    (∀ p x, p ∈ O → Kalloc.in_page p x → kmem (kp (Exec.files s')) x = kmem (kp (Exec.files s)) x) ∧
    match c ← prog; exec_plan c argv with
    | Some (entry, sz, sp, _) => r = 0 ∧ Exec.eip s' = entry ∧ Exec.sz s' = sz ∧ Exec.esp s' = sp ∧
        (∃ c, prog = Some c ∧ image c argv entry sz sp (sees s')) ∧
        ∃ l' tabs' ents', running s' l' tabs' ents' O ∧
          owned (Exec.pgdir s') tabs' ents' ++ l' ≡ₚ owned (Exec.pgdir s) tabs ents ++ l
    | None => r = -1 ∧ Exec.pgdir s' = Exec.pgdir s ∧ Exec.sz s' = Exec.sz s ∧ Exec.eip s' = Exec.eip s ∧ Exec.esp s' = Exec.esp s ∧
        Exec.pname s' = Exec.pname s ∧ (∀ va, 0 ≤ va < 2 ^ 32 → sees s' va = sees s va) ∧
        ∃ l', running s' l' tabs ents O ∧ l' ≡ₚ l
    end).
Proof.
  intros [Hfs Hcwd Hps] [Hfile Hargs HB Hl]. set (o := others (Exec.files s)). set (k0 := kp (Exec.files s)) in *.
  assert (at_ disksize dev_read junk_name path cwd prog o Idle k0 (Exec.files s)) as A0 by done.
  unfold Exec.exec. apply wp_bind, wp_zoom. eapply wp_infs; [exact A0|]. eapply wp_mono; [by apply pf_begin|].
  intros [] f1 Hf1 t1 <- H1. specialize (H1 _ Hf1). apply wp_bind, wp_get. proj. rewrite Hcwd.
  apply wp_bind, wp_zoom. eapply wp_infs; [exact H1|]. eapply wp_mono; [by apply pf_found|].
  intros r f2 Hf2 t2 <- H2. destruct Hf2 as [(Hc & -> & Hf2)|(c & ip & Hc & -> & Hf2)].
  1: { replace (c ← prog; exec_plan c argv) with (None : option (Z * Z * Z * view)) by (by rewrite Hc). apply wp_bind, wp_zoom. eapply wp_infs; [by apply H2|]. eapply wp_mono; [by apply (pf_end _)|].
       intros [] f3 Hf3 t3 <- H3. specialize (H3 _ Hf3). apply wp_ret. proj. destruct H3 as [_ Hk3 Ho3].
       split; [done|]. split; [done|]. split; [done|]. rewrite Hk3. split; [done|]. split_and!; try done.
       - intros va Hva. unfold sees. proj. by rewrite Hk3.
       - exists l. split; [|done]. split; [done|done|]. proj. by rewrite Hk3. }
  replace (c ← prog; exec_plan c argv) with (exec_plan c argv) by (by rewrite Hc).
  apply wp_bind, wp_zoom. eapply wp_infs; [by apply H2|]. eapply wp_mono; [by apply pf_ilock|].
  intros [] f3 Hf3 t3 <- H3. specialize (H3 _ Hf3). destruct (Hfile c Hc) as (Hb & Hlen & Hsafe).
  pose proof (ps_space _ _ _ _ _ _ _ _ _ Hps) as Hsp. pose proof (vs_nodup _ _ _ _ _ _ _ Hsp) as HN.
  rewrite (app_assoc (tables tabs)), (app_comm_cons _ _ (Exec.pgdir s)) in HN. fold (owned (Exec.pgdir s) tabs ents) in HN.
  apply wp_bind, wp_zoom. eapply wp_mono.
  { apply (wp_build disksize kend kdata Hkend Hdata dev_read junk_elf junk_name path cwd prog k0 l (owned (Exec.pgdir s) tabs ents ++ O)
      o t3 ip c argv B); try done; [apply Hsp|]. intros p Hp. apply (vs_page _ _ _ _ _ _ _ Hsp). unfold owned in Hp. simpl in Hp.
    by rewrite <-app_assoc in Hp. }
  intros r t4 Hr. destruct (exec_plan c argv) as [[[[entry sz] sp] f]|] eqn:Hplan.
  - destruct Hr as (d & l4 & k4 & tabs4 & ents4 & -> & A4 & B4). apply wp_bind, wp_get. apply wp_bind, wp_modify. proj.
    apply wp_bind, wp_assert; [apply bool_decide_eq_true_2; by eapply bd_nonzero|]. apply wp_bind, wp_zoom. proj.
    eapply wp_inkmem; [exact A4|apply unlocked_freevm|]. eapply wp_mono; [by eapply (wp_free_old l k0)|].
    intros [] k5 (l5 & Hps5 & Hl5 & Hv5 & HO5) t5 [Hf5 Hk5 Ho5]. apply wp_ret. proj.
    split; [done|]. split; [done|]. split; [done|]. rewrite Hk5. split; [done|]. split_and!; try done.
    + exists c. split; [done|]. apply exec_plan_image in Hplan. eapply image_ext; [|exact Hplan]. intros va Hva. unfold sees. proj.
      rewrite Hk5. symmetry. apply Hv5. destruct (im_size _ _ _ _ _ _ Hplan). unfold KERNBASE in *. lia.
    + exists l5, tabs4, ents4. split; [|done]. split; [done|done|]. proj. by rewrite Hk5.
  - destruct Hr as (-> & l4 & k4 & [Hf4 Hk4 Ho4] & Hrd & Hl4 & Hs4). apply wp_ret. proj.
    destruct (space_kept l k0 _ tabs ents O _ l4 k4 Hps Hrd Hl4 Hs4) as (Hps4 & Hv4 & HO4).
    split; [done|]. split; [done|]. split; [done|]. rewrite Hk4. split; [done|]. split_and!; try done.
    + intros va Hva. unfold sees. proj. rewrite Hk4. by apply Hv4.
    + exists l4. split; [|done]. split; [done|done|]. proj. by rewrite Hk4.
Qed.

(** ** Programs that exec should have refused *)

(** A file whose first program header is [ph], a segment to load. *)
Record crafted (c : list Z) (ph : proghdr) : Prop := {
  cr_bytes : bytes c;
  cr_len : (52 ≤ length c)%nat ∧ Z.of_nat (length c) < 2 ^ 31;
  cr_magic : e_magic (parse_elfhdr (take 52 c)) = ELF_MAGIC;
  cr_first : let h := parse_elfhdr (take 52 c) in
    0 < e_phnum h ∧ e_phoff h + 32 ≤ Z.of_nat (length c) ∧ phdr c (e_phoff h) = ph;
  cr_load : p_type ph = ELF_PROG_LOAD ∧ p_filesz ph ≤ p_memsz ph;
}.

Lemma kbind_panic {S A B} (m : kM S A) (k : A → kM S B) s msg : m s = Panic msg → kbind m k s = Panic msg.
Proof. intros H. unfold kbind. by rewrite H. Qed.

(** Up to the call of [loaduvm] for the first segment, which ends at [en]. *)
Lemma first_segment k0 l0 O o ip c ph argv s n (φ : outcome File.st (option (Z * Z * Z * Z)) → Prop) :
  let h := parse_elfhdr (take 52 c) in let en := u32 (p_vaddr ph + p_memsz ph) in
  prog = Some c → crafted c ph → at_ disksize dev_read junk_name path cwd prog o (Open ip) k0 s →
  ready kend l0 k0 → NoDup (l0 ++ O) → (∀ p, p ∈ O → Kalloc.page kend p) → Z.to_nat (e_phnum h) = S n →
  0 < en < KERNBASE → (132 + 2 * Z.to_nat (up en) ≤ length l0)%nat →
  (∀ d l k s' tabs ents, at_ disksize dev_read junk_name path cwd prog o (Open ip) k s' →
    building kend kdata k0 l0 O l k d tabs ents en (extend 0 en (λ _, None)) → (4 ≤ length l)%nat →
    φ ((r ← (r ← Exec.loaduvm disksize dev_read d (p_vaddr ph) ip (p_off ph) (p_filesz ph);
             if bool_decide (r < 0) then kret None
             else Exec.load_segments disksize kend dev_read n d ip (u32 (e_phoff h + sizeof_proghdr)) en);
        match r with
        | None => Exec.bad disksize kend d (Some ip) ;; kret None
        | Some sz => File.infs (Fs.iunlockput ip) ;; Exec.end_op disksize ;; Exec.build_stack disksize kend d (e_entry h) sz argv
        end)%kern s')) →
  φ (Exec.build disksize kend kdata dev_read junk_elf ip argv s).
Proof.
  intros h en Hc [Hb [H52 Hlen] Hmg (Hnum & Hoff & Hph) [Hty Hfm]] A0 Hr HN HO Hn Hen Hl HQ. fold h in Hnum, Hoff, Hph.
  eapply (build_headers disksize kend kdata Hkend Hdata dev_read junk_elf junk_name path cwd prog k0 l0 O o s ip c argv φ); try done; [lia|].
  fold h. intros d l k s' tabs A1 B1 Hlen1. rewrite Hn. cbn [Exec.load_segments]. rewrite kbind_assoc.
  assert (0 ≤ e_phoff h < 2 ^ 32) as Hpo by (apply get32_uint; by apply Forall_take).
  eapply (wp_run φ _ _ _ (λ r s', r = (32, take 32 (drop (Z.to_nat (e_phoff h)) c)) ∧
    at_ disksize dev_read junk_name path cwd prog o (Open ip) k s')).
  { eapply (wp_exec_readi disksize dev_read junk_name path cwd prog o k s' ip c); [exact A1|done|done|unfold sizeof_proghdr; lia|].
    intros s2 A2. split; [|done]. unfold read_at, sizeof_proghdr. rewrite decide_True by lia. f_equal. lia. }
  intros r s2 [-> A2]. cbn [fst snd]. cbv zeta. rewrite (u32_small 32) by lia. unfold sizeof_proghdr at 1. rewrite bool_decide_eq_false_2 by auto.
  fold (phdr c (e_phoff h)). rewrite Hph, Hty. rewrite bool_decide_eq_false_2 by auto. rewrite bool_decide_eq_false_2 by lia. fold en.
  rewrite kbind_assoc.
  eapply (wp_run φ _ _ _ (λ r s', r = en ∧ ∃ l k tabs ents, at_ disksize dev_read junk_name path cwd prog o (Open ip) k s' ∧
    building kend kdata k0 l0 O l k d tabs ents en (extend 0 en (λ _, None)) ∧ (4 ≤ length l)%nat)).
  { eapply wp_inkmem; [exact A2|apply unlocked_alloc|]. pose proof (up_mono 0 en ltac:(lia)) as Hu. change (up 0) with 0 in Hu.
    eapply wp_mono; [apply (wp_bd_grow kend kdata Hkend Hdata k0 l0 O l k d tabs _ 0 _ en B1); [lia|change (up 0) with 0; lia]|].
    change (up 0) with 0. intros r k3 (-> & l3 & tabs3 & ents3 & B3 & Hl3) s3 A3. split; [done|]. exists l3, k3, tabs3, ents3.
    split; [done|]. split; [done|]. lia. }
  intros r s3 (-> & l3 & k3 & tabs3 & ents3 & A3 & B3 & Hl3). rewrite bool_decide_eq_false_2 by lia. by apply (HQ d l3 k3 s3 tabs3 ents3).
Qed.

(** A program can bring the kernel down. If the first segment of a file
    does not start on a page boundary, [exec] of that file panics; nothing
    checks the address before [loaduvm] insists on it. *)
Theorem exec_misaligned_panics s l tabs ents O argv c ph :
  let en := p_vaddr ph + p_memsz ph in
  running s l tabs ents O → prog = Some c → crafted c ph →
  p_vaddr ph mod 4096 ≠ 0 → 0 < en < KERNBASE → (132 + 2 * Z.to_nat (up en) ≤ length l)%nat →
  exec argv s = Panic "loaduvm: addr must be page aligned".
Proof.
  intros en R Hc Hcr Hal Hen Hl. pose proof R as [Hfs Hcwd Hps]. pose proof (ps_space _ _ _ _ _ _ _ _ _ Hps) as Hsp.
  apply (exec_opened s l tabs ents O c argv (λ out, out = Panic _) R Hc). intros ip t A. apply kbind_panic. unfold Exec.infile, kzoom. cbn [lview lset Exec.files Exec.set_files].
  assert (Exec.build disksize kend kdata dev_read junk_elf ip argv t = Panic "loaduvm: addr must be page aligned") as ->; [|done].
  pose proof (cr_first _ _ Hcr) as (Hn & _). set (h := parse_elfhdr (take 52 c)) in *.
  eapply (first_segment (kp (Exec.files s)) l (Exec.pgdir s :: tables tabs ++ uframes ents ++ O) _ ip c ph argv t (Nat.pred (Z.to_nat (e_phnum h)))
    (λ out, out = Panic _)); try done.
  - apply Hsp.
  - apply (vs_nodup _ _ _ _ _ _ _ Hsp).
  - apply (vs_page _ _ _ _ _ _ _ Hsp).
  - fold h. lia.
  - rewrite u32_small by (unfold KERNBASE in *; lia). done.
  - rewrite u32_small by (unfold KERNBASE in *; lia). done.
  - intros d l1 k s' tabs1 ents1 _ _ _. apply kbind_panic, kbind_panic. unfold Exec.loaduvm. apply kbind_panic.
    rewrite bool_decide_eq_false_2; [done|]. unfold PGSIZE. done.
Qed.

(** A write into a page [p] that belongs to someone else. *)
Definition poke (p : Z) (bs : list Z) (k : Kalloc.st) : Kalloc.st := Kalloc.set_kmem (store_bytes (kmem k) p bs) k.

Lemma space_poke l k d tabs ents O sz p bs :
  proc_space l k d tabs ents O sz → p ∈ O → Z.of_nat (length bs) ≤ 4096 →
  proc_space l (poke p bs k) d tabs ents O sz ∧ ∀ va, 0 ≤ va < 2 ^ 32 → uload (kmem (poke p bs k)) d va = uload (kmem k) d va.
Proof.
  intros Hps Hp Hlen. pose proof (ps_space _ _ _ _ _ _ _ _ _ Hps) as Hsp.
  assert (same_but [p] (kmem k) (kmem (poke p bs k))) as Hs.
  { intros x Hx. apply store_bytes_out. specialize (Hx p ltac:(left)). unfold Kalloc.in_page, PGSIZE in Hx. lia. }
  pose proof (vs_nodup _ _ _ _ _ _ _ Hsp) as HN. rewrite (app_assoc (tables tabs)), app_comm_cons in HN. fold (owned d tabs ents) in HN.
  apply list.NoDup_app in HN as (_ & HNl & HN). apply list.NoDup_app in HN as (_ & HNo & _).
  assert (∀ q, q ∈ owned d tabs ents ++ O → Kalloc.page kend q) as Hpg.
  { intros q Hq. apply (vs_page _ _ _ _ _ _ _ Hsp). unfold owned in Hq. simpl in Hq. by rewrite <-app_assoc in Hq. }
  assert (∀ q x, q ∈ owned d tabs ents → Kalloc.in_page q x → kmem (poke p bs k) x = kmem k x) as Hkeep.
  { intros q x Hq Hx. apply Hs. intros q' ->%list_elem_of_singleton Hx'.
    eapply (pages_apart kend Hkend p q x x); [apply Hpg, elem_of_app; by right|apply Hpg, elem_of_app; by left| |done|done|done].
    intros ->. by apply (HNo q). }
  split.
  - destruct Hps as [_ Hpr Hab Hk Hsz]. split; try done. destruct Hsp as [Hr Hpt HN' HG]. split; [|..|done|done].
    + apply (ready_set kend Hkend l k (λ m, store_bytes m p bs) [p] Hr); [by apply store_bytes_ok, Hr|exact Hs|].
      intros q ->%list_elem_of_singleton. split; [apply Hpg, elem_of_app; by right|]. intros Hl. apply (HNl p Hl), elem_of_app. by right.
    + eapply pt_frame; [exact Hpt|]. intros q x Hq. apply Hkeep. unfold owned. rewrite app_comm_cons. apply elem_of_app. by left.
  - intros va Hva. by eapply uload_frame; [..|exact Hps|done|exact Hkeep].
Qed.

Lemma building_poke k0 l0 O l k d tabs ents sz f p bs :
  building kend kdata k0 l0 O l k d tabs ents sz f → p ∈ O → Z.of_nat (length bs) ≤ 4096 →
  building kend kdata (poke p bs k0) l0 O l (poke p bs k) d tabs ents sz f.
Proof.
  intros [Hps Hfr Hs Hv] Hp Hlen. destruct (space_poke _ _ _ _ _ _ _ _ _ Hps Hp Hlen) as [Hps' Hu]. split; [done|done| |].
  - intros x Hx. simpl. rewrite !store_bytes_spec. case_decide; [|by apply Hs]. destruct (bs !! _); [done|by apply Hs].
  - intros va Hva. by rewrite Hu, Hv.
Qed.

(** The kernel maps the pages of the allocator at their own addresses. *)
Lemma kents_page p : kdata ≤ kend → Kalloc.page kend p →
  has (kents kdata (p / 4096)) PTE_P = true ∧ p2v (PTE_ADDR (kents kdata (p / 4096))) = p.
Proof.
  intros Hdk Hp. destruct (page_high kend Hkend p Hp) as (Hal & Hr & Hv2 & _). destruct (kmap_lines kdata Hdata) as (K1 & K2 & K3 & K4 & K5).
  assert (kdata ≤ p) as Hlo.
  { destruct Hp as [Hok _]. unfold Kalloc.page_ok in Hok. apply andb_true_iff in Hok as [[_ Hk%bool_decide_eq_true]%andb_true_iff _]. lia. }
  destruct Hdata as [Hda Hdr]. set (x := p / 4096). pose proof (Z.div_mod p 4096 ltac:(lia)) as Hpx. fold x in Hpx. rewrite Hal in Hpx.
  pose proof (Z.div_mod kdata 4096 ltac:(lia)) as Hdx. rewrite Hda in Hdx. set (y := kdata / 4096) in *.
  assert (kents kdata x = v2p p + 3) as ->.
  { unfold kents, Vm.kmap. cbn [foldl]. unfold kline at 1. unfold mapped at 1. cbn [Vm.virt]. change (DEVSPACE / 4096) with 1040384.
    rewrite decide_False by (unfold KERNBASE, PHYSTOP in *; lia). unfold kline at 1. unfold mapped at 1. rewrite K3. cbn [Vm.virt Vm.phys_start Vm.perm]. fold y.
    assert ((KERNBASE + PHYSTOP - kdata) / 4096 = 581632 - y) as ->.
    { replace (KERNBASE + PHYSTOP - kdata) with ((581632 - y) * 4096) by (unfold KERNBASE, PHYSTOP; lia). apply Z.div_mul. lia. }
    rewrite decide_True by (unfold KERNBASE, PHYSTOP in *; lia). change (Z.lor PTE_W 1) with 3. lia. }
  pose proof (p2v_pte kend Hkend p 3 Hp ltac:(lia)) as Hpp. split; [|done].
  destruct (page_high kend Hkend p Hp) as (_ & _ & -> & Hal'). by rewrite has_flags by (done || lia).
Qed.

(** [loaduvm] of a segment of one page at an address of the kernel. *)
Lemma wp_load_kernel k0 l0 O o ip c d l k s tabs ents sz f p off fsz :
  prog = Some c → bytes c → Z.of_nat (length c) < 2 ^ 31 → kdata ≤ kend → at_ disksize dev_read junk_name path cwd prog o (Open ip) k s →
  building kend kdata k0 l0 O l k d tabs ents sz f → p ∈ O → Kalloc.page kend p → 0 < fsz ≤ 4096 → 0 ≤ off → off + fsz ≤ Z.of_nat (length c) →
  let bs := take (Z.to_nat fsz) (drop (Z.to_nat off) c) in
  wp (Exec.loaduvm disksize dev_read d p ip off fsz) s (λ r s', r = 0 ∧
    at_ disksize dev_read junk_name path cwd prog o (Open ip) (poke p bs k) s' ∧
    building kend kdata (poke p bs k0) l0 O l (poke p bs k) d tabs ents sz f).
Proof.
  intros Hc Hb Hlen Hdk A0 B Hp Hpg Hfsz Hoff Hend bs. pose proof (bd_space _ _ _ _ _ _ _ _ _ _ _ _ B) as Hps.
  destruct (page_high kend Hkend p Hpg) as (Hal & Hr & _). destruct (kents_page p Hdk Hpg) as [HP Ha].
  assert (ents (p / 4096) = kents kdata (p / 4096)) as He.
  { apply (ps_kernel _ _ _ _ _ _ _ _ _ Hps). unfold KERNBASE, PHYSTOP in Hr. split; [apply Z.div_le_lower_bound; lia|apply Z.div_lt_upper_bound; lia]. }
  assert (0 ≤ p < 2 ^ 32) as Hpr by (unfold KERNBASE, PHYSTOP in Hr; lia).
  destruct (walk_entry kend kdata Hkend O l k d tabs ents sz p p Hps Hpr) as (t & Ht & Hload & Hnz & _);
    [by rewrite He|right; by rewrite He, Ha, Hal, Z.add_0_r|].
  unfold Exec.loaduvm. apply wp_bind, wp_assert; [by apply bool_decide_eq_true_2|].
  assert (∃ n, S (Z.to_nat (fsz / PGSIZE + 1)) = S (S n)) as [n ->].
  { exists (Z.to_nat (fsz / PGSIZE)). pose proof (Z.div_pos fsz PGSIZE). unfold PGSIZE in *. lia. }
  cbn [Exec.loaduvm_loop]. rewrite bool_decide_eq_true_2 by lia. rewrite Z.add_0_r, (u32_small p) by done.
  apply wp_bind. eapply wp_inkmem; [exact A0|apply unlocked_walk|].
  eapply wp_mono; [apply (wp_walk kend Hkend _ _ _ _ _ _ p (ps_space _ _ _ _ _ _ _ _ _ Hps) Hpr)|]. intros r k1 [-> ->] s1 A1. rewrite Ht.
  apply wp_bind, wp_assert; [by rewrite bool_decide_eq_false_2|].
  apply wp_bind. eapply wp_inkmem; [exact A1|apply pres_reads, reads_gets|]. apply wp_gets. intros s2 A2. rewrite Hload, He, Ha.
  assert ((if bool_decide (fsz - 0 < PGSIZE) then fsz - 0 else PGSIZE) = fsz) as -> by (unfold PGSIZE; case_bool_decide; lia).
  apply wp_bind. rewrite Z.add_0_r, (u32_small off) by lia.
  eapply (wp_exec_readi disksize dev_read junk_name path cwd prog o k _ ip c); [exact A2|done|lia|lia|]. intros s3 A3.
  assert (read_at c off fsz = (fsz, bs)) as -> by (unfold read_at; rewrite decide_True by lia; f_equal; lia). cbn [fst snd].
  apply wp_bind. eapply wp_inkmem; [exact A3|by apply unlocked_setmem|]. apply wp_modify. fold (poke p bs k). intros s4 A4.
  rewrite (u32_small fsz), bool_decide_eq_false_2 by (lia || auto). rewrite bool_decide_eq_false_2 by (change (u32 (0 + PGSIZE)) with 4096; lia).
  apply wp_ret. split; [done|]. split; [done|]. apply building_poke; [done|done|]. unfold bs. rewrite length_take. lia.
Qed.

(** A program can write where it likes. The end of a segment is computed
    modulo 2^32: a segment at a page [p] of another process (or of the kernel)
    with a size that makes the sum wrap around to a small number passes every
    check, and [exec] copies the bytes of the file over that page and succeeds. *)
Theorem exec_overwrites s l tabs ents O c ph :
  let h := parse_elfhdr (take 52 c) in let en := p_vaddr ph + p_memsz ph - 2 ^ 32 in
  running s l tabs ents O → prog = Some c → crafted c ph → kdata ≤ kend → p_vaddr ph ∈ O →
  e_phnum h = 1 → 0 < en ≤ KERNBASE - 16384 → (132 + 2 * Z.to_nat (up en) ≤ length l)%nat →
  0 < p_filesz ph ≤ 4096 → p_off ph + p_filesz ph ≤ Z.of_nat (length c) →
  wp (exec []) s (λ r s', r = 0 ∧ ∀ j b,
    take (Z.to_nat (p_filesz ph)) (drop (Z.to_nat (p_off ph)) c) !! j = Some b →
    kmem (kp (Exec.files s')) (p_vaddr ph + Z.of_nat j) = b).
Proof.
  intros h en R Hc Hcr Hdk HpO Hnum Hen Hl Hfsz Hend. pose proof R as [Hfs Hcwd Hps]. pose proof (ps_space _ _ _ _ _ _ _ _ _ Hps) as Hsp.
  pose proof Hcr as [Hb [H52 Hlen] _ _ _]. set (k0 := kp (Exec.files s)) in *. set (p := p_vaddr ph) in *.
  set (O1 := owned (Exec.pgdir s) tabs ents ++ O). assert (p ∈ O1) as HpO1 by (apply elem_of_app; by right).
  assert (∀ q, q ∈ O1 → Kalloc.page kend q) as Hpg.
  { intros q Hq. apply (vs_page _ _ _ _ _ _ _ Hsp). unfold O1, owned in Hq. simpl in Hq. by rewrite <-app_assoc in Hq. }
  set (bs := take (Z.to_nat (p_filesz ph)) (drop (Z.to_nat (p_off ph)) c)).
  destruct (phdr_range c (e_phoff h) Hb) as (_ & Hro & Hrv & Hrf & Hrm). pose proof (cr_first _ _ Hcr) as (_ & _ & Hph). fold h in Hph.
  rewrite Hph in Hro, Hrv, Hrf, Hrm.
  assert (u32 (p + p_memsz ph) = en) as Hu.
  { unfold u32. symmetry. apply (Z.mod_unique _ _ 1); [|unfold en; fold p; lia]. left. unfold KERNBASE in *. lia. }
  as_outcome. apply (exec_opened s l tabs ents O c [] _ R Hc). intros ip t A. as_wp.
  apply wp_bind, wp_zoom. as_outcome. eapply (first_segment k0 l O1 _ ip c ph [] t 0); try done.
  { apply Hsp. }
  { pose proof (vs_nodup _ _ _ _ _ _ _ Hsp) as HN. unfold O1, owned. simpl. by rewrite <-app_assoc. }
  { fold h. by rewrite Hnum. }
  { fold p. rewrite Hu. unfold KERNBASE in *. lia. }
  { fold p. by rewrite Hu. }
  fold p h. rewrite Hu. intros d l1 k1 s1 tabs1 ents1 A1 B1 Hl1. as_wp. apply wp_bind, wp_bind.
  eapply wp_mono; [apply (wp_load_kernel k0 l O1 (others (Exec.files s)) ip c d l1 k1 s1 tabs1 ents1 en (extend 0 en (λ _, None)) p (p_off ph) (p_filesz ph)); try done; try lia; by apply Hpg|].
  fold bs. intros r s2 (-> & A2 & B2). rewrite bool_decide_eq_false_2 by lia. cbn [Exec.load_segments]. apply wp_ret.
  rewrite wp_assoc. apply wp_bind. eapply wp_mono; [by eapply wp_close|]. intros [] s3 A3.
  eapply wp_mono; [eapply (wp_build_stack disksize kend kdata Hkend Hdata _ _ _ _ _ (poke p bs k0) l O1); [exact A3|exact B2|done|constructor]|].
  pose proof (up_mono 0 en ltac:(lia)) as Hup0. change (up 0) with 0 in Hup0. assert (4096 * up en < en + 4096) as Hupe.
  { pose proof (Z.mul_div_le (en + 4095) 4096 ltac:(lia)). unfold up. lia. }
  unfold stack_plan. cbv zeta. rewrite decide_False by (unfold KERNBASE in *; lia). cbn [push_plan]. change (length (Exec.ustack _ [])) with 4%nat.
  rewrite decide_False by lia. intros r s4 (l4 & k4 & tabs4 & ents4 & -> & A4 & B4). cbv beta iota.
  apply wp_bind, wp_get. apply wp_bind, wp_modify. proj. apply wp_bind, wp_assert; [apply bool_decide_eq_true_2; by eapply bd_nonzero|].
  apply wp_bind, wp_zoom. proj. eapply wp_inkmem; [exact A4|apply unlocked_freevm|].
  assert (Z.of_nat (length bs) ≤ 4096) as Hbl by (unfold bs; rewrite length_take; lia).
  destruct (space_poke l k0 _ tabs ents O _ p bs Hps HpO Hbl) as [Hps' _].
  eapply wp_mono; [by eapply (wp_free_old l (poke p bs k0))|]. intros [] k5 (l5 & _ & _ & _ & HO5) t5 [_ Hk5 _].
  apply wp_ret. proj. split; [done|]. intros j b Hj. rewrite Hk5. pose proof (lookup_lt_Some _ _ _ Hj) as Hjl.
  rewrite (HO5 p) by (done || (unfold Kalloc.in_page, PGSIZE; lia)). simpl. rewrite store_bytes_spec, decide_True by lia.
  replace (Z.to_nat (p + Z.of_nat j - p)) with j by lia. rewrite Hj. unfold u8. apply Z.mod_small.
  assert (bytes bs) as Hbb by (by apply Forall_take, Forall_drop). by eapply (Forall_lookup_1 _ _ _ _ Hbb).
Qed.
End replaces.

(** ** Examples: a program [a] of one block on the small disk *)

Section demo.
Context (bk : block) (Hlen : length bk = BSIZE).
#[local] Instance e_ops : BlockOps Log.st := log_ops 1000.
#[local] Instance e_layer : BlockLayer Log.st := log_blocks 1000 2 30 (λ _, []) [] 0.

Definition prog_file : Fs.dinode := Fs.Dinode T_FILE 0 0 1 512 (60 :: replicate 12 0).
Definition prog_fs : Z → block := store_inode demo_super (upd demo_fs 60 bk) 2 prog_file.

Lemma prog_fs_other b : b ≠ 32 → b ≠ 60 → prog_fs b = demo_fs b.
Proof.
  intros H1 H2. unfold prog_fs, store_inode. change (IBLOCK 2 demo_super) with 32. by rewrite !upd_ne.
Qed.

Lemma prog_fs_60 : prog_fs 60 = bk.
Proof. unfold prog_fs, store_inode. change (IBLOCK 2 demo_super) with 32. rewrite upd_ne by done. apply upd_eq. Qed.

Lemma demo_fs_ok0 : fs_ok demo_super 59 demo_fs.
Proof. destruct demo_fs_ok as [H1 H2 H3]. by split. Qed.

Lemma prog_base_ok : fs_ok demo_super 59 (upd demo_fs 60 bk).
Proof.
  apply (fs_ok_data demo_super 59 demo_open_layout); [apply demo_fs_ok0| |done]. unfold data_block. change (sb_size demo_super) with 1000. lia.
Qed.

Lemma prog_file_inode_ok : dinode_ok prog_file.
Proof. apply one_block_inode; unfold T_FILE; lia. Qed.

Lemma prog_inode n : 0 ≤ n < 200 → disk_inode demo_super prog_fs n = if decide (n = 2) then prog_file else disk_inode demo_super demo_fs n.
Proof.
  intros Hn. unfold prog_fs. rewrite (disk_inode_store demo_super 59 demo_open_layout);
    [|apply prog_base_ok|apply prog_file_inode_ok|vm_compute; split; done|lia].
  case_decide; [done|]. unfold disk_inode. rewrite upd_ne; [done|]. rewrite demo_block by done. pose proof (Z.div_lt_upper_bound n 8 25). lia.
Qed.

Lemma prog_used n : 0 ≤ n < 1000 → used demo_super prog_fs n = used demo_super demo_fs n.
Proof. intros Hn. unfold used. rewrite demo_bmap, prog_fs_other by done. done. Qed.

Lemma prog_root : file_ok demo_super 59 prog_fs demo_root ∧ content prog_fs demo_root = content demo_fs demo_root.
Proof.
  destruct (file_frame demo_super 59 demo_fs prog_fs demo_root) as (F & _ & Hc); [exact (di_file _ _ _ _ demo_dir_ok)| |split; [exact F|exact Hc]].
  intros a Ha. assert (FsThm.owned demo_fs demo_root = [59]) as Ho by (vm_compute; reflexivity). rewrite Ho in Ha. apply list_elem_of_singleton in Ha as ->.
  split; [by apply prog_fs_other|]. rewrite prog_used by lia. vm_compute. reflexivity.
Qed.

Lemma prog_content : content prog_fs prog_file = bk.
Proof.
  unfold content, slice. change (Z.to_nat (d_size prog_file)) with 512%nat. apply list_eq_same_length with 512%nat.
  - by rewrite Hlen.
  - by rewrite length_fmap, length_seq.
  - intros i x y Hi Hx Hy. rewrite list_lookup_fmap, lookup_seq_lt in Hx by lia. simpl in Hx. injection Hx as <-. unfold fbyte.
    change (Z.of_nat BSIZE) with 512.
    rewrite Z.add_0_l, Z.div_small, Z.mod_small by lia. rewrite Nat2Z.id. change (baddr prog_fs prog_file 0) with 60. rewrite prog_fs_60. unfold byte_at. by rewrite Hy.
Qed.

Lemma prog_fs_ok : fs_ok demo_super 59 prog_fs.
Proof. by apply (store_inode_frame demo_super 59 demo_open_layout); [apply prog_base_ok|]. Qed.

Lemma prog_linked n : n = 1 ∨ n = 2 → linked demo_super prog_fs n.
Proof.
  intros Hn. assert (0 ≤ n < 200) as Hr by lia. unfold linked. rewrite prog_inode by done. destruct Hn as [->| ->]; [|done].
  rewrite decide_False, demo_root_inode by done. done.
Qed.

Lemma prog_tree : tree_ok demo_super 59 prog_fs.
Proof.
  intros n (Hn & Ht & Hl) Hd. rewrite prog_inode in Ht, Hl, Hd |- * by done. destruct (decide (n = 2)) as [->|Hne]; [done|].
  destruct (demo_tree n) as [_ Hnext]; [done|done|]. pose proof (demo_types n Hn Ht) as Hn1. assert (n = 1) as -> by lia.
  rewrite demo_root_inode in *. destruct prog_root as [F Hc]. destruct demo_dir_ok as [_ D2 D3 D4]. rewrite Hc. split; [split; [exact F|exact D2|exact D3|rewrite Hc; exact D4]|].
  intros e m Hm. apply prog_linked. destruct (Hnext e m Hm) as (Hm1 & Hm2 & _). by apply demo_types.
Qed.

Lemma prog_file_ok : file_ok demo_super 59 prog_fs prog_file.
Proof.
  assert (FsThm.owned prog_fs prog_file = [60]) as Ho by reflexivity. split.
  - apply prog_file_inode_ok.
  - rewrite Ho. apply NoDup_singleton.
  - rewrite Ho. intros x ->%list_elem_of_singleton. split; [unfold data_block; change (sb_size demo_super) with 1000; lia|].
    rewrite prog_used by lia. vm_compute. reflexivity.
  - by vm_compute.
  - intros bn H0 Hbn. change (Z.of_nat BSIZE) with 512 in Hbn. change (d_size prog_file) with 512 in Hbn. assert (bn = 0) as -> by lia. done.
Qed.

Lemma prog_good : disk_good 1000 2 30 demo_super 59 [SLASH; 97] 1 (Some bk) prog_fs.
Proof.
  split.
  - apply prog_fs_ok.
  - apply prog_tree.
  - apply prog_linked. by left.
  - apply prog_linked. by left.
  - change (start [SLASH; 97] 1) with 1. assert (walk demo_super prog_fs false 1 (elements [SLASH; 97]) = Some 2) as ->.
    { change (elements [SLASH; 97]) with [[97]]. cbn [walk andb]. rewrite prog_inode by lia. rewrite (decide_False (P := 1 = 2)) by done.
      rewrite demo_root_inode. rewrite (decide_True (P := d_type demo_root = T_DIR)) by done. destruct prog_root as [_ ->].
      assert (dir_lookup (content demo_fs demo_root) [97] = Some 2) as -> by (vm_compute; reflexivity). done. }
    rewrite prog_inode by lia. rewrite decide_True by done. split; [apply prog_file_ok|]. split; [done|]. by rewrite prog_content.
Qed.

(** Nothing is open but the root directory, the current one. *)
Definition prog_idle : Fs.st (S:=Log.st) := Fs.set_blk (disk_log prog_fs 0) demo_cwd.

Lemma prog_idle_ok : phase_ok 1000 2 30 demo_super 59 [SLASH; 97] {[1 := 0%nat]} (ISpec {[1 := 1]} ∅) 1 (Some bk) prog_idle Idle.
Proof.
  assert (prog_fs 2 = demo_fs 2) as H2 by by apply prog_fs_other.
  apply (ok_idle _ _ _ _ _ _ _ _ _ _ _ prog_fs [] prog_fs); [apply prog_good| |].
  - apply disk_log_ok; [rewrite H2; vm_compute; reflexivity|rewrite H2; vm_compute; reflexivity|done].
  - intros t Ht. apply (root_irel prog_fs [] prog_fs t Ht). rewrite prog_inode, decide_False by lia. apply demo_root_inode.
Qed.

(** The process of one page runs, with [a] on the disk. *)
#[local] Instance prog_pf : ProgramFs 1000 no_read (replicate DIRSIZ 0) [SLASH; 97] 0 (Some bk) :=
  fs_program 1000 2 30 demo_super 59 no_read no_write demo_open_layout (replicate DIRSIZ 0) [SLASH; 97] eq_refl
    {[1 := 0%nat]} (ISpec {[1 := 1]} ∅) demo_room 1 0 (lookup_singleton_eq _ _) ltac:(by rewrite !dom_singleton_L) ltac:(vm_compute; lia) (Some bk).

Definition prog_st (k : Kalloc.st) (pgdir : Z) : Exec.st := Exec.St (File.St prog_idle [] ∅ k false) 0 pgdir 4096 0 0 [].

Lemma prog_running l k pgdir tabs ents O :
  proc_space demo_end demo_data l k pgdir tabs ents O 4096 → running 1000 demo_end demo_data no_read (replicate DIRSIZ 0) [SLASH; 97] 0 (Some bk)
    (prog_st k pgdir) l tabs ents O.
Proof.
  intros [[[[F1 F2 F3] F4 F5] Hpt HN Hpg] Hpr Hab Hk Hsz]. split; [exact prog_idle_ok|done|]. split; [|done..].
  split; [|exact Hpt|exact HN|exact Hpg]. split; [split; [exact F1|exact F2|exact F3]|apply not_elem_of_nil|exact F5].
Qed.
End demo.

(** A program of one segment, the whole block. *)
Definition demo_prog (vaddr filesz memsz : Z) : block :=
  word_bytes ELF_MAGIC ++ replicate 20 0 ++ word_bytes 0 ++ word_bytes 52 ++ replicate 12 0 ++ [1; 0] ++ replicate 6 0 ++
  ([1; 0; vaddr; 0; filesz; memsz; 0; 0] ≫= word_bytes) ++ replicate 428 0.

Lemma demo_prog_bytes vaddr filesz memsz : bytes (demo_prog vaddr filesz memsz).
Proof.
  assert (∀ w, bytes (word_bytes w)) as Hw.
  { intros w. unfold word_bytes. repeat (constructor; [by apply Z.mod_pos_bound|]). constructor. }
  assert (∀ n, bytes (replicate n 0)) as Hz by (intros n; apply Forall_replicate; lia).
  unfold demo_prog, bytes. rewrite !Forall_app. split_and!; try apply Hw; try apply Hz; [repeat constructor; lia|].
  apply list.Forall_bind. apply list.Forall_forall. intros w _. apply Hw.
Qed.

Lemma demo_prog_len vaddr filesz memsz : length (demo_prog vaddr filesz memsz) = BSIZE.
Proof. reflexivity. Qed.

Lemma demo_prog_hdr vaddr filesz memsz : parse_elfhdr (take 52 (demo_prog vaddr filesz memsz)) = Elfhdr ELF_MAGIC 0 52 1.
Proof. reflexivity. Qed.

Lemma demo_prog_phdr vaddr filesz memsz : 0 ≤ vaddr < 2 ^ 32 → 0 ≤ filesz < 2 ^ 32 → 0 ≤ memsz < 2 ^ 32 →
  phdr (demo_prog vaddr filesz memsz) 52 = Proghdr 1 0 vaddr filesz memsz.
Proof.
  intros. change (phdr (demo_prog vaddr filesz memsz) 52) with
    (Proghdr 1 0 (get32 (word_bytes vaddr) 0) (get32 (word_bytes filesz) 0) (get32 (word_bytes memsz) 0)).
  assert (∀ w, 0 ≤ w < 2 ^ 32 → get32 (word_bytes w) 0 = w) as E; [|by rewrite !E].
  intros w Hw. etransitivity; [exact (le32_join w)|by apply u32_small].
Qed.

Lemma demo_crafted vaddr filesz memsz : 0 ≤ vaddr < 2 ^ 32 → 0 ≤ filesz ≤ memsz → memsz < 2 ^ 32 →
  crafted (demo_prog vaddr filesz memsz) (Proghdr 1 0 vaddr filesz memsz).
Proof.
  intros. split.
  - apply demo_prog_bytes.
  - rewrite demo_prog_len. change BSIZE with 512%nat. lia.
  - by rewrite demo_prog_hdr.
  - rewrite demo_prog_hdr. cbv zeta. cbn [e_phnum e_phoff]. rewrite demo_prog_len, demo_prog_phdr by lia. done.
  - split; [done|]. simpl. lia.
Qed.

Abbreviation demo_exec := (Exec.exec 1000 demo_end demo_data no_read (replicate 52 0) (replicate DIRSIZ 0) [SLASH; 97]).

Lemma demo_plan :
  match plan (demo_prog 0 512 4096) 1 52 0 (λ _, None) with Some (_, g) => g 0 = Some 0x7f ∧ g 4095 = Some 0 | None => False end.
Proof. vm_compute. split; reflexivity. Qed.

Lemma demo_exec_plan :
  match exec_plan (demo_prog 0 512 4096) [[97; 98]] with
  | Some (e, sz, sp, _) => e = 0 ∧ sz = 12288 ∧ sp = 12264
  | None => False
  end.
Proof. vm_compute. repeat split; reflexivity. Qed.

Lemma exec_replaces_witness :
  ∃ s s', demo_exec [[97; 98]] s = Done 0 s' ∧ Exec.sz s' = 12288 ∧ Exec.esp s' = 12264 ∧
    sees s' 0 = Some 0x7f ∧ sees s' 4095 = Some 0 ∧ sees s' 4096 = None ∧ main_args (sees s') 12264 12288 [[97; 98]].
Proof.
  destruct demo_layout_vm as [H1 H2]. destruct demo_proc as (q & k & l & d & tabs & ents & Hps & Hlen & _).
  set (bk := demo_prog 0 512 4096). pose proof (demo_prog_len 0 512 4096) as Hbk. fold bk in Hbk.
  pose proof (prog_running bk Hbk l k d tabs ents [q] Hps) as R.
  assert (callable (Some bk) [[97; 98]] l 4096) as Hcall.
  { split.
    - intros c [= <-]. split; [apply demo_prog_bytes|]. rewrite Hbk. split; [by vm_compute|]. unfold bk. rewrite demo_prog_hdr.
      intros j Hj _. cbn [e_phnum e_phoff] in *. change (Z.to_nat 1) with 1%nat in Hj. assert (j = 0%nat) as -> by lia.
      change (52 + 32 * Z.of_nat 0) with 52. rewrite demo_prog_phdr by lia. intros _ _. cbn [p_vaddr p_memsz]. split; [done|]. lia.
    - constructor; [|constructor]. split; [repeat constructor; lia|]. simpl. lia.
    - unfold KERNBASE. lia.
    - change (up 4096) with 1. lia. }
  pose proof (exec_replaces 1000 demo_end demo_data H1 H2 no_read (replicate 52 0) (replicate DIRSIZ 0) [SLASH; 97] 0 (Some bk)
    (PF := prog_pf bk Hbk) (prog_st bk k d) l tabs ents [q] [[97; 98]] 4096 R Hcall) as H.
  destruct (proj1 (wp_done _ _ _) H) as (r & s' & Hs & _ & _ & _ & _ & Hr). exists (prog_st bk k d), s'.
  change (Some bk ≫= λ c, exec_plan c [[97; 98]]) with (exec_plan bk [[97; 98]]) in Hr.
  pose proof demo_exec_plan as Hp. fold bk in Hp. destruct (exec_plan bk [[97; 98]]) as [[[[e sz] sp] f]|]; [|contradiction]. destruct Hp as (-> & -> & ->).
  destruct Hr as (-> & _ & Hsz & Hsp & (c & [= <-] & Him) & _). split; [exact Hs|]. split; [done|]. split; [done|].
  destruct (im_segs _ _ _ _ _ _ Him) as (z & g & Hg & _ & Hv).
  pose proof demo_plan as Hp. fold bk in Hp.
  change (plan bk 1 52 0 (λ _, None) = Some (z, g)) in Hg. rewrite Hg in Hp. rewrite !Hv by lia. split; [apply Hp|]. split; [apply Hp|].
  split; [apply (im_guard _ _ _ _ _ _ Him); lia|]. apply (im_stack _ _ _ _ _ _ Him).
Defined.

Lemma exec_misaligned_panics_witness :
  ∃ s, demo_exec [] s = Panic "loaduvm: addr must be page aligned".
Proof.
  destruct demo_layout_vm as [H1 H2]. destruct demo_proc as (q & k & l & d & tabs & ents & Hps & Hlen & _).
  pose proof (prog_running _ (demo_prog_len 100 512 4096) l k d tabs ents [q] Hps) as R. exists (prog_st (demo_prog 100 512 4096) k d).
  refine (exec_misaligned_panics 1000 demo_end demo_data H1 H2 no_read _ _ _ 0 _ (PF := prog_pf _ (demo_prog_len _ _ _)) _ l tabs ents [q] [] _ (Proghdr 1 0 100 512 4096)
    R eq_refl (demo_crafted 100 512 4096 _ _ _) _ _ _); try lia.
  - done.
  - unfold KERNBASE. simpl. lia.
  - change (Z.to_nat (up _)) with 2%nat. lia.
Defined.

(** Page [q] of someone else is overwritten with the magic number. *)
Lemma exec_overwrites_witness :
  ∃ q s s', demo_exec [] s = Done 0 s' ∧ 0x80000000 < q ∧ Kalloc.kmem (kp (Exec.files s')) q = 0x7f.
Proof.
  destruct demo_layout_vm as [H1 H2]. destruct demo_proc as (q & k & l & d & tabs & ents & Hps & Hlen & _).
  assert (Kalloc.page demo_end q) as Hq.
  { apply (vs_page _ _ _ _ _ _ _ (ps_space _ _ _ _ _ _ _ _ _ Hps)). right. apply elem_of_app. right. apply elem_of_app. right. by left. }
  destruct (page_high demo_end H1 q Hq) as (Hal & Hr & _). unfold KERNBASE, PHYSTOP in Hr.
  set (m := 2 ^ 32 - q + 4096). assert (0 ≤ q < 2 ^ 32 ∧ 0 ≤ 4 ≤ m ∧ m < 2 ^ 32) as (Hq1 & Hm1 & Hm2) by (unfold m; lia).
  pose proof (prog_running _ (demo_prog_len q 4 m) l k d tabs ents [q] Hps) as R.
  pose proof (exec_overwrites 1000 demo_end demo_data H1 H2 no_read (replicate 52 0) (replicate DIRSIZ 0) [SLASH; 97] 0 _ (PF := prog_pf _ (demo_prog_len _ _ _)) _
    l tabs ents [q] _ (Proghdr 1 0 q 4 m) R eq_refl (demo_crafted q 4 m Hq1 Hm1 Hm2)) as H.
  cbn [p_vaddr p_memsz p_filesz p_off] in H. replace (q + m - 2 ^ 32) with 4096 in H by (unfold m; lia). change (up 4096) with 1 in H.
  rewrite demo_prog_hdr, demo_prog_len in H.
  destruct (proj1 (wp_done _ _ _) (H ltac:(by vm_compute) ltac:(by left) eq_refl ltac:(unfold KERNBASE; lia) ltac:(lia) ltac:(lia) ltac:(by vm_compute)))
    as (r & s' & Hs & -> & Hw).
  exists q, (prog_st (demo_prog q 4 m) k d), s'. split; [exact Hs|]. split; [lia|]. rewrite <-(Z.add_0_r q). exact (Hw 0%nat 0x7f eq_refl).
Defined.
