(* ===== verification/Mkfs.v ===== *)
(** * The builder of the file system image (mkfs.c)

    [mkfs] runs on the host and writes the image of a file system that holds a
    root directory and the files named on its command line. The image file is
    its blocks and its length; [exit(1)] and a failing [assert] end the program
    and are a panic. The byte order of the host is a parameter, since the code
    converts the words it stores to Intel byte order. *)

From S2P Require Import Prelude CString Bio Log Blocks Fs.

Local Open Scope Z_scope.

Definition FSSIZE : Z := 1000.
Definition NINODES : Z := 200.

Definition nbitmap : Z := FSSIZE / (Z.of_nat BSIZE * 8) + 1.
Definition ninodeblocks : Z := NINODES / IPB + 1.
Definition nlog : Z := LOGSIZE.
Definition nmeta : Z := 2 + nlog + ninodeblocks + nbitmap.
Definition nblocks : Z := FSSIZE - nmeta.

Definition zeroes : block := replicate BSIZE 0.

Module Mkfs.

Record st := St {
  img : Z → block;        (* the blocks of the image file *)
  isize : Z;              (* its length in blocks *)
  msb : superblock;       (* sb, as the words that are stored *)
  freeinode : Z;
  freeblock : Z;
}.

Definition set_img (v : Z → block) (n : Z) (s : st) : st := St v n (msb s) (freeinode s) (freeblock s).
Definition set_msb (v : superblock) (s : st) : st := St (img s) (isize s) v (freeinode s) (freeblock s).
Definition set_freeinode (v : Z) (s : st) : st := St (img s) (isize s) (msb s) v (freeblock s).
Definition set_freeblock (v : Z) (s : st) : st := St (img s) (isize s) (msb s) (freeinode s) v.

(** Before [main]; opening the image truncates it. *)
Definition start : st := St (λ _, zeroes) 0 (Superblock 0 0 0 0 0 0 0) 1 0.

Section mkfs.
(** The host stores the high byte of a word first. *)
Context (big : bool).
Local Open Scope kern_scope.

(** ** Words in the memory of the host *)

Definition hget16 (l : list Z) (i : nat) : Z :=
  if big then (byte_at l i * 2 ^ 8 + byte_at l (i + 1))%Z else get16 l i.

Definition hput16 (l : list Z) (i : nat) (w : Z) : list Z :=
  if big then <[i := u8 (w / 2 ^ 8)]> (<[(i + 1)%nat := u8 w]> l) else put16 l i w.

Definition hget32 (l : list Z) (i : nat) : Z :=
  if big then (byte_at l i * 2 ^ 24 + byte_at l (i + 1) * 2 ^ 16 + byte_at l (i + 2) * 2 ^ 8 + byte_at l (i + 3))%Z
  else get32 l i.

Definition hput32 (l : list Z) (i : nat) (w : Z) : list Z :=
  if big then <[i := u8 (w / 2 ^ 24)]> (<[(i + 1)%nat := u8 (w / 2 ^ 16)]>
    (<[(i + 2)%nat := u8 (w / 2 ^ 8)]> (<[(i + 3)%nat := u8 w]> l)))
  else put32 l i w.

(** Convert to Intel byte order. *)
Definition xshort (x : Z) : Z := hget16 [u8 x; u8 (x / 2 ^ 8)] 0.
Definition xint (x : Z) : Z := hget32 [u8 x; u8 (x / 2 ^ 8); u8 (x / 2 ^ 16); u8 (x / 2 ^ 24)] 0.

(** A [struct dinode] at offset [o]. *)
Definition hdinode (b : block) (o : nat) : dinode :=
  Dinode (i16 (hget16 b o)) (i16 (hget16 b (o + 2))) (i16 (hget16 b (o + 4))) (i16 (hget16 b (o + 6)))
         (hget32 b (o + 8)) ((λ i, hget32 b (o + 12 + 4 * i)) <$> seq 0 13).

Fixpoint hput_addrs (b : block) (o : nat) (l : list Z) : block :=
  match l with [] => b | a :: l => hput_addrs (hput32 b o a) (o + 4) l end.

Definition hput_dinode (b : block) (o : nat) (d : dinode) : block :=
  hput_addrs (hput32 (hput16 (hput16 (hput16 (hput16 b o (d_type d)) (o + 2) (d_major d)) (o + 4) (d_minor d))
                             (o + 6) (d_nlink d)) (o + 8) (d_size d)) (o + 12) (d_addrs d).

(** The bytes of [sb], at the start of a block. *)
Definition hput_sb (b : block) (p : superblock) : block :=
  hput32 (hput32 (hput32 (hput32 (hput32 (hput32 (hput32 b 0 (sb_size p)) 4 (sb_nblocks p)) 8 (sb_ninodes p))
    12 (sb_nlog p)) 16 (sb_logstart p)) 20 (sb_inodestart p)) 24 (sb_bmapstart p).

(** ** Sectors of the image. The offset [sec * BSIZE] is an unsigned int. *)

Definition sector (sec : Z) : Z := u32 (sec * Z.of_nat BSIZE) / Z.of_nat BSIZE.

Definition wsect (sec : Z) (buf : block) : kM st unit :=
  kmodify (λ s, set_img (upd (img s) (sector sec) buf) (Z.max (isize s) (sector sec + 1)) s).

Definition rsect (sec : Z) : kM st block :=
  s ← kget;
  kassert (bool_decide (sector sec < isize s)%Z) "read" ;;
  kret (img s (sector sec)).

(** ** Inodes *)

Definition winode (inum : Z) (ip : dinode) : kM st unit :=
  sb ← kgets msb;
  let bn := u32 (IBLOCK inum sb) in
  buf ← rsect bn;
  wsect bn (hput_dinode buf (dinode_off inum) ip).

Definition rinode (inum : Z) : kM st dinode :=
  sb ← kgets msb;
  let bn := u32 (IBLOCK inum sb) in
  buf ← rsect bn;
  kret (hdinode buf (dinode_off inum)).

Definition ialloc (type : Z) : kM st Z :=
  inum ← kgets freeinode;
  kmodify (set_freeinode (u32 (inum + 1))) ;;
  winode inum (Dinode (i16 (xshort type)) 0 0 (i16 (xshort 1)) (xint 0) (replicate 13 0)) ;;
  kret inum.

(** [buf[i/8] = buf[i/8] | (0x1 << (i%8))] for the blocks in use. *)
Definition bitmap (used : Z) : block :=
  foldl (λ buf i, <[Z.to_nat (i / 8) := u8 (Z.lor (byte_at buf (Z.to_nat (i / 8))) (Z.shiftl 1 (i mod 8)))]> buf)
    (replicate BSIZE 0%Z) (Z.of_nat <$> seq 0 (Z.to_nat used)).

Definition balloc (used : Z) : kM st unit :=
  kassert (bool_decide (used < Z.of_nat BSIZE * 8)%Z) "used < BSIZE*8" ;;
  sb ← kgets msb;
  wsect (sb_bmapstart sb) (bitmap used).

(** [freeblock++] *)
Definition next_block : kM st Z :=
  b ← kgets freeblock;
  kmodify (set_freeblock (u32 (b + 1))) ;;
  kret b.

(** The block of the content at [fbn], allocated if there is none. *)
Definition block_for (din : dinode) (fbn : Z) : kM st (Z * dinode) :=
  if bool_decide (fbn < NDIRECT)%Z then
    a ← kunwrap (d_addrs din !! Z.to_nat fbn);
    din ← (if bool_decide (xint a = 0)%Z then
             b ← next_block; kret (set_daddr (Z.to_nat fbn) (xint b) din)
           else kret din);
    a ← kunwrap (d_addrs din !! Z.to_nat fbn);
    kret (xint a, din)
  else
    a ← kunwrap (d_addrs din !! Z.to_nat NDIRECT);
    din ← (if bool_decide (xint a = 0)%Z then
             b ← next_block; kret (set_daddr (Z.to_nat NDIRECT) (xint b) din)
           else kret din);
    a ← kunwrap (d_addrs din !! Z.to_nat NDIRECT);
    indirect ← rsect (xint a);
    let k := Z.to_nat (4 * (fbn - NDIRECT)) in
    indirect ← (if bool_decide (hget32 indirect k = 0)%Z then
                  b ← next_block;
                  let indirect := hput32 indirect k (xint b) in
                  wsect (xint a) indirect ;;
                  kret indirect
                else kret indirect);
    kret (xint (hget32 indirect k), din).

(** The loop of [iappend]: the inode and the size it ends with. *)
Fixpoint iappend_loop (fuel : nat) (din : dinode) (p : list Z) (off n : Z) : kM st (dinode * Z) :=
  match fuel with
  | O => kfault
  | S fuel =>
    if bool_decide (0 < n)%Z then
      let fbn := (off / Z.of_nat BSIZE)%Z in
      kassert (bool_decide (fbn < MAXFILE)%Z) "fbn < MAXFILE" ;;
      '(x, din) ← block_for din fbn;
      let n1 := Z.min n (u32 ((fbn + 1) * Z.of_nat BSIZE - off)) in
      buf ← rsect x;
      wsect x (put_bytes buf (Z.to_nat (off - fbn * Z.of_nat BSIZE)) (take (Z.to_nat n1) p)) ;;
      iappend_loop fuel din (drop (Z.to_nat n1) p) (u32 (off + n1)) (n - n1)
    else kret (din, off)
  end.

(** [iappend(inum, xp, n)], [n] the length of what [xp] points to. *)
Definition iappend (inum : Z) (xp : list Z) : kM st unit :=
  din ← rinode inum;
  let n := Z.of_nat (length xp) in
  '(din, off) ← iappend_loop (S (length xp)) din xp (xint (d_size din)) n;
  winode inum (set_dsize (xint off) din).

(** ** main *)

(** A zeroed entry with the inode number and a name of [strcpy] or [strncpy]. *)
Definition zero_dirent (inum : Z) : list Z := hput16 (replicate 16 0%Z) 0 (xshort inum).
Definition dot_dirent (inum : Z) (name : list Z) : list Z := put_bytes (zero_dirent inum) 2 (name ++ [0%Z]).
Definition file_dirent (inum : Z) (name : list Z) : list Z :=
  let m := strncpy (two_strings (drop 2 (zero_dirent inum)) name) 0 (Z.of_nat DIRSIZ) DIRSIZ in
  put_bytes (zero_dirent inum) 2 ((λ i, m (Z.of_nat i)) <$> seq 0 DIRSIZ).

Definition UNDERSCORE : Z := 95.

(** Skip leading _ in name when writing to file system. *)
Definition skip_underscore (arg : list Z) : list Z :=
  match arg with c :: l => if decide (c = UNDERSCORE) then l else arg | [] => [] end.

(** What opening a file of the host and reading it gives: the data of each
    [read] of at most [BSIZE] bytes until one returns 0 or less. *)
Context (host : list Z → option (list (list Z))).

Definition add_file (rootino : Z) (arg : list Z) : kM st unit :=
  kassert (bool_decide (SLASH ∉ arg)) "index(argv[i], '/') == 0" ;;
  match host arg with
  | None => kpanic "open"
  | Some reads =>
    inum ← ialloc T_FILE;
    iappend rootino (file_dirent inum (skip_underscore arg)) ;;
    kfor reads (iappend inum)
  end.

(** The super block of the image. *)
Definition super : superblock :=
  Superblock (xint FSSIZE) (xint nblocks) (xint NINODES) (xint nlog) (xint 2) (xint (2 + nlog))
    (xint (2 + nlog + ninodeblocks)).

(** Fix size of root inode dir. *)
Definition fix_root (rootino : Z) : kM st unit :=
  din ← rinode rootino;
  let off := xint (d_size din) in
  let off := u32 ((off / Z.of_nat BSIZE + 1) * Z.of_nat BSIZE) in
  winode rootino (set_dsize (xint off) din).

(** [argv], and whether the image file can be opened. *)
Definition main (argv : list (list Z)) (opened : bool) : kM st unit :=
  match argv with
  | _ :: _ :: files =>
    kassert opened "open" ;;
    kmodify (set_msb super) ;;
    kmodify (set_freeblock nmeta) ;;   (* the first free block that we can allocate *)
    kfor (Z.of_nat <$> seq 0 (Z.to_nat FSSIZE)) (λ i, wsect i zeroes) ;;
    wsect 1 (hput_sb (replicate BSIZE 0%Z) super) ;;
    rootino ← ialloc T_DIR;
    kassert (bool_decide (rootino = ROOTINO)) "rootino == ROOTINO" ;;
    iappend rootino (dot_dirent rootino [46%Z]) ;;
    iappend rootino (dot_dirent rootino [46%Z; 46%Z]) ;;
    kfor files (add_file rootino) ;;
    fix_root rootino ;;
    used ← kgets freeblock;
    balloc used
  | _ => kpanic "Usage: mkfs fs.img files..."
  end.
End mkfs.
End Mkfs.
