(* ===== verification/MkfsThm.v ===== *)
(** * The image mkfs writes is the file system the kernel expects

    On a host of Intel byte order, the image of mkfs.c is a file system in the
    sense of FsThm.v and FsDir.v, whose root directory leads to the files that
    were given, and whose free map has exactly the blocks that were not used.
    While mkfs runs there is no free map in the image yet; the proofs follow a
    view [v] of the image that has the map it will write at the end. *)

From S2P Require Import Prelude CString Bio Log Blocks Fs FsThm FsDir FsSpec FileThm Mkfs.
Import Mkfs.

Local Open Scope Z_scope.

(** What is on the disk does not matter for the layout. *)
#[local] Instance image_ops : BlockOps Log.st := log_ops 1000.
#[local] Instance image_layer : BlockLayer Log.st := log_blocks 1000 2 30 (λ _, []) [] 0.

Local Abbreviation sup := demo_super.
Local Abbreviation used := (used sup).
Local Abbreviation fs_ok := (fs_ok sup 59).
Local Abbreviation file_ok := (file_ok sup 59).
Local Abbreviation grown := (grown sup 59).
Local Abbreviation kept := (kept sup 59).
Local Abbreviation disk_inode := (disk_inode sup).
Local Abbreviation store_inode := (store_inode sup).
Implicit Types (v : Z → block) (d : dinode) (s : st).

Lemma image_layout : layout sup 59.
Proof. exact demo_open_layout. Qed.

Lemma image_super : super false = sup.
Proof. vm_compute. reflexivity. Qed.

Lemma xint_id x : uint x → xint false x = x.
Proof.
  intros Hx. change (xint false x) with (get32 (put32 [0; 0; 0; 0] 0 x) 0). rewrite get_put32 by (simpl; lia). by apply u32_id.
Qed.

Lemma xshort_id x : 0 ≤ x < 2 ^ 16 → xshort false x = x.
Proof.
  intros Hx. change (xshort false x) with (get16 (put16 [0; 0] 0 x) 0). rewrite get_put16 by (simpl; lia). by apply Z.mod_small.
Qed.

Lemma sector_id b : 0 ≤ b < 1000 → sector b = b.
Proof.
  intros Hb. unfold sector, u32. change (Z.of_nat BSIZE) with 512. rewrite Z.mod_small by lia. by apply Z.div_mul.
Qed.

(** ** The view of an image under construction *)

Record view s v : Prop := {
  vi_size : isize s = 1000;
  vi_sb : msb s = sup;
  vi_img b : b ≠ 58 → v b = img s b;
  vi_fs : fs_ok v;
  vi_used b : 0 ≤ b < 1000 → used v b = bool_decide (b < freeblock s);
  vi_free b : freeblock s ≤ b < 1000 → v b = zeros;
  vi_fb : 59 ≤ freeblock s ≤ 1000;
}.

Lemma data59 b : data_block sup 59 b ↔ 59 ≤ b < 1000.
Proof. done. Qed.

Lemma wp_rsect s v b (Q : block → st → Prop) : view s v → 0 ≤ b < 1000 → b ≠ 58 → Q (v b) s → wp (rsect b) s Q.
Proof.
  intros V Hb H58 HQ. unfold rsect. apply wp_bind, wp_get. rewrite sector_id by done.
  apply wp_bind, wp_assert; [rewrite (vi_size s v V); apply bool_decide_eq_true_2; lia|]. apply wp_ret.
  by rewrite <-(vi_img s v V).
Qed.

(** The state after block [b] was written. *)
Definition wrote_sect s (b : Z) (x : block) : st := set_img (upd (img s) b x) (Z.max (isize s) (b + 1)) s.

Lemma wp_wsect s b x (Q : unit → st → Prop) : 0 ≤ b < 1000 → Q tt (wrote_sect s b x) → wp (wsect b x) s Q.
Proof. intros Hb HQ. unfold wsect. apply wp_modify. rewrite sector_id by done. exact HQ. Qed.

Lemma view_data s v b x : view s v → 59 ≤ b < freeblock s → length x = BSIZE → view (wrote_sect s b x) (upd v b x).
Proof.
  intros [V1 V2 V3 V4 V5 V6 V7] Hb Hx. split; cbn [isize msb img freeblock wrote_sect set_img]; try done; [lia| | | |].
  - intros c Hc. unfold upd. case_decide; [done|by apply V3].
  - apply (fs_ok_data sup 59 image_layout); [done|rewrite data59; lia|done].
  - intros c Hc. rewrite (used_data sup 59 image_layout) by (rewrite ?data59; done || lia). by apply V5.
  - intros c Hc. rewrite upd_ne by lia. by apply V6.
Qed.

Lemma inode_block_at n : 0 ≤ n < 200 → 32 ≤ IBLOCK n sup < 58.
Proof.
  intros Hn. rewrite demo_block by done. pose proof (Z.div_pos n 8). pose proof (Z.div_lt_upper_bound n 8 26). lia.
Qed.

Lemma view_inode s v n d : view s v → 0 ≤ n < 200 →
  view (wrote_sect s (IBLOCK n sup) (hput_dinode false (v (IBLOCK n sup)) (dinode_off n) d)) (store_inode v n d).
Proof.
  intros [V1 V2 V3 V4 V5 V6 V7] Hn. pose proof (inode_block_at n Hn) as Hb.
  destruct (store_inode_frame sup 59 image_layout v n d V4 Hn) as (Hf & Hu & Hd).
  split; cbn [isize msb img freeblock wrote_sect set_img]; try done; [lia| | |].
  - intros c Hc. unfold store_inode, upd. case_decide; [done|by apply V3].
  - intros c Hc. rewrite Hu by done. by apply V5.
  - intros c Hc. rewrite Hd by (rewrite data59; lia). by apply V6.
Qed.

Lemma iblock_u32 n : 0 ≤ n < 200 → u32 (IBLOCK n sup) = IBLOCK n sup.
Proof. intros Hn. pose proof (inode_block_at n Hn). apply u32_id. unfold uint. lia. Qed.

Lemma wp_winode s v n d (Q : unit → st → Prop) : view s v → 0 ≤ n < 200 →
  (∀ s', view s' (store_inode v n d) → freeblock s' = freeblock s → freeinode s' = freeinode s → Q tt s') →
  wp (winode false n d) s Q.
Proof.
  intros V Hn HQ. pose proof (inode_block_at n Hn) as Hb. unfold winode. apply wp_bind, wp_gets. rewrite (vi_sb s v V).
  cbv zeta. rewrite iblock_u32 by done. apply wp_bind, (wp_rsect s v); [done|lia|lia|]. apply wp_wsect; [lia|].
  apply HQ; [by apply view_inode|done|done].
Qed.

Lemma wp_rinode s v n (Q : dinode → st → Prop) : view s v → 0 ≤ n < 200 → Q (disk_inode v n) s → wp (rinode false n) s Q.
Proof.
  intros V Hn HQ. pose proof (inode_block_at n Hn) as Hb. unfold rinode. apply wp_bind, wp_gets. rewrite (vi_sb s v V).
  cbv zeta. rewrite iblock_u32 by done. apply wp_bind, (wp_rsect s v); [done|lia|lia|]. apply wp_ret. exact HQ.
Qed.

(** Taking the next block is allocating it in the view. *)
Lemma view_next s v : view s v → freeblock s < 1000 → view (set_freeblock (freeblock s + 1) s) (fresh sup v (freeblock s)).
Proof.
  intros [V1 V2 V3 V4 V5 V6 V7] Hb. set (a := freeblock s) in *.
  assert (data_block sup 59 a) as Ha by (rewrite data59; lia).
  assert (∀ c, c ≠ 58 → fresh sup v a c = v c) as Hc.
  { intros c Hc. unfold fresh, mark. rewrite demo_bmap by lia. unfold upd. case_decide as He; [subst c; symmetry; apply V6; lia|].
    by rewrite decide_False. }
  split; cbn [isize msb img freeblock set_freeblock]; try done.
  - intros c Hc'. rewrite Hc by done. by apply V3.
  - by apply (fs_ok_fresh sup 59 image_layout).
  - intros c Hcr. rewrite (used_fresh sup 59 image_layout) by done. rewrite V5 by done.
    case_decide; [symmetry; apply bool_decide_eq_true_2; lia|apply bool_decide_ext; lia].
  - intros c Hcr. rewrite Hc by lia. apply V6. lia.
  - lia.
Qed.

Lemma next_free s v : view s v → freeblock s < 1000 → data_block sup 59 (freeblock s) ∧ used v (freeblock s) = false.
Proof.
  intros V Hb. pose proof (vi_fb s v V). split; [rewrite data59; lia|].
  rewrite (vi_used s v V) by lia. apply bool_decide_eq_false_2. lia.
Qed.

Lemma wp_next_block s v (Q : Z → st → Prop) : view s v → freeblock s < 1000 →
  Q (freeblock s) (set_freeblock (freeblock s + 1) s) → wp next_block s Q.
Proof.
  intros V Hb HQ. pose proof (vi_fb s v V). unfold next_block. apply wp_bind, wp_gets. apply wp_bind, wp_modify, wp_ret.
  rewrite u32_id by (unfold uint; lia). exact HQ.
Qed.

(** ** A file that is being appended to *)

(** A file of size [z] takes [cost z] blocks, its indirect block included. *)
Definition cost (z : Z) : Z := (z + 511) / 512 + (if decide (6144 < z) then 1 else 0).

(** The file reads [c], has no block beyond its size, and zeros behind it. *)
Record reads v d (c : list Z) : Prop := {
  re_file : file_ok v d;
  re_content : content v d = c;
  re_bare bn : 0 ≤ bn → d_size d ≤ bn * 512 → baddr v d bn = 0;
  re_ind : d_size d ≤ 6144 → ind_addr d = 0;
  re_tail o : d_size d ≤ o → baddr v d (o / 512) ≠ 0 → fbyte v d o = 0;
}.

Lemma reads_size v d c : reads v d c → d_size d = Z.of_nat (length c).
Proof.
  intros [F <- _ _ _]. assert (dinode_ok d) as Hd by apply F. rewrite length_content by done.
  pose proof (do_size d Hd) as Hs. unfold uint in Hs. lia.
Qed.

Lemma cost_step z : 0 ≤ z → cost (z + 1) = cost z + (if decide (z mod 512 = 0) then 1 else 0) + (if decide (z = 6144) then 1 else 0).
Proof.
  intros Hz. unfold cost. pose proof (Z.div_mod z 512 ltac:(lia)). pose proof (Z.mod_pos_bound z 512 ltac:(lia)).
  destruct (decide (z mod 512 = 0)).
  - rewrite <-(Z.div_unique (z + 1 + 511) 512 (z / 512 + 1) 0) by lia. rewrite <-(Z.div_unique (z + 511) 512 (z / 512) 511) by lia.
    repeat case_decide; lia.
  - rewrite <-(Z.div_unique (z + 1 + 511) 512 (z / 512 + 1) (z mod 512)) by lia.
    rewrite <-(Z.div_unique (z + 511) 512 (z / 512 + 1) (z mod 512 - 1)) by lia.
    repeat case_decide; subst; try lia; done.
Qed.

Lemma cost_same z m : 0 ≤ z → 0 < m → z mod 512 + m ≤ 512 → cost (z + m) = cost (z + 1).
Proof.
  intros Hz Hm Hl. unfold cost. pose proof (Z.div_mod z 512 ltac:(lia)). pose proof (Z.mod_pos_bound z 512 ltac:(lia)).
  rewrite <-(Z.div_unique (z + m + 511) 512 (z / 512 + 1) (z mod 512 + m - 1)) by lia.
  rewrite <-(Z.div_unique (z + 1 + 511) 512 (z / 512 + 1) (z mod 512)) by lia.
  repeat case_decide; lia.
Qed.

Lemma cost_mono z z' : z ≤ z' → cost z ≤ cost z'.
Proof. intros H. unfold cost. pose proof (Z.div_le_mono (z + 511) (z' + 511) 512). repeat case_decide; lia. Qed.

(** A file longer than its direct blocks has an indirect block. *)
Lemma reads_ind v d c : reads v d c → 6144 < d_size d → ind_addr d ≠ 0.
Proof.
  intros R Hs Hi. apply (f_mapped _ _ _ _ (re_file _ _ _ R) 12); [lia|change (Z.of_nat BSIZE) with 512; lia|].
  unfold baddr, slots, indirect. rewrite decide_True by done. change (slot_of 12) with 13%nat.
  rewrite lookup_app_r by (rewrite (do_addrs d); [lia|apply R]). rewrite (do_addrs d) by apply R. reflexivity.
Qed.

Lemma direct_slot v d fbn a : dinode_ok d → 0 ≤ fbn < 12 → d_addrs d !! Z.to_nat fbn = Some a → slots v d !! slot_of fbn = Some a.
Proof.
  intros Hd Hf Ha. unfold slot_of. change NDIRECT with 12. rewrite decide_True by lia. unfold slots.
  by rewrite lookup_app_l by (rewrite (do_addrs d Hd); lia).
Qed.

Lemma entry_slot v d fbn : dinode_ok d → 12 ≤ fbn < 140 → ind_addr d ≠ 0 →
  slots v d !! slot_of fbn = Some (Fs.ind_get (v (ind_addr d)) (fbn - 12)).
Proof.
  intros Hd Hf Hi. unfold slot_of. change NDIRECT with 12. rewrite decide_False by lia. unfold slots.
  rewrite lookup_app_r by (rewrite (do_addrs d Hd); lia). rewrite (do_addrs d Hd). unfold indirect. rewrite decide_False by done.
  rewrite ind_list_lookup by lia. do 2 f_equal. lia.
Qed.

Lemma slot_of_entry fbn : 12 ≤ fbn → slot_of fbn = (13 + Z.to_nat (fbn - 12))%nat.
Proof. intros H. unfold slot_of. change NDIRECT with 12. rewrite decide_False by lia. lia. Qed.

Lemma slot_of_direct fbn : 0 ≤ fbn < 12 → slot_of fbn = Z.to_nat fbn.
Proof. intros H. unfold slot_of. change NDIRECT with 12. by rewrite decide_True by lia. Qed.

(** What [block_for] leaves: block [x] holds the content from [off] on, and the
    file has grown by what the cost says. *)
Record placed s v d (off : Z) s' v' d' (x : Z) : Prop := {
  pl_view : view s' v';
  pl_file : file_ok v' d';
  pl_grown : grown v v' d d';
  pl_slot : slots v' d' !! slot_of (off / 512) = Some x;
  pl_some : x ≠ 0;
  pl_other bn : 0 ≤ bn → bn ≠ off / 512 → baddr v' d' bn = baddr v d bn;
  pl_ind : off < 6144 → ind_addr d' = ind_addr d;
  pl_new : off mod 512 = 0 → v' x = zeros;
  pl_used : freeblock s' = freeblock s + cost (off + 1) - cost off;
  pl_ino : freeinode s' = freeinode s;
}.

Lemma other_slot bn fbn : 0 ≤ bn → 0 ≤ fbn → bn ≠ fbn → slot_of bn ≠ slot_of fbn ∧ slot_of bn ≠ 12%nat.
Proof. intros H1 H2 Hne. destruct (slot_of_ne bn fbn H1 H2) as [Hi H12]. split; [auto|done]. Qed.

Lemma baddr_fill v v' d d' k a bn : slots v' d' = <[k := a]> (slots v d) → slot_of bn ≠ k → baddr v' d' bn = baddr v d bn.
Proof. intros Hs Hne. unfold baddr. by rewrite Hs, list_lookup_insert_ne. Qed.

(** The block at [off] is there already. *)
Lemma placed_there s v d c off x :
  view s v → reads v d c → off = d_size d → off < 71680 → off mod 512 ≠ 0 →
  slots v d !! slot_of (off / 512) = Some x → placed s v d off s v d x.
Proof.
  intros V R Hoff Hmax Hm Hs. pose proof (re_file _ _ _ R) as F.
  assert (0 ≤ off) as H0 by (rewrite Hoff; apply (do_size d); apply F).
  pose proof (Z.div_mod off 512 ltac:(lia)). pose proof (Z.mod_pos_bound off 512 ltac:(lia)).
  split; try done.
  - apply (grown_refl sup 59).
  - intros ->. apply (f_mapped _ _ _ _ F (off / 512)); [apply Z.div_pos; lia|change (Z.of_nat BSIZE) with 512; lia|].
    unfold baddr. by rewrite Hs.
  - rewrite cost_step by done. rewrite decide_False by done. rewrite decide_False by (intros ->; done). lia.
Qed.

(** A direct block is taken. *)
Lemma placed_direct s v d c off :
  view s v → reads v d c → off = d_size d → off < 6144 → off mod 512 = 0 → freeblock s < 1000 →
  placed s v d off (set_freeblock (freeblock s + 1) s) (fresh sup v (freeblock s))
    (set_daddr (Z.to_nat (off / 512)) (freeblock s) d) (freeblock s).
Proof.
  intros V R Hoff Hmax Hm Hfb. pose proof (re_file _ _ _ R) as F. set (k := Z.to_nat (off / 512)). set (a := freeblock s).
  assert (0 ≤ off) as H0 by (rewrite Hoff; apply (do_size d); apply F).
  pose proof (Z.div_mod off 512 ltac:(lia)). destruct (next_free s v V Hfb) as [Ha Hau].
  assert (d_addrs d !! k = Some 0) as Hk.
  { destruct (lookup_lt_is_Some_2 (d_addrs d) k) as [x Hx]; [rewrite (do_addrs d) by apply F; lia|].
    pose proof (re_bare _ _ _ R (off / 512) ltac:(lia) ltac:(lia)) as Hb. unfold baddr in Hb.
    rewrite (direct_slot v d (off / 512) x) in Hb; [|apply F|lia|done]. simpl in Hb. by subst x. }
  destruct (grow_addr sup 59 image_layout v d k a F (vi_fs s v V) Hk ltac:(lia) Ha Hau) as (F' & G & Hs).
  split; try done.
  - by apply view_next.
  - rewrite Hs, slot_of_direct by lia. fold k. apply list_lookup_insert_eq. rewrite (length_slots v d) by apply F. lia.
  - by apply (data_nonzero sup 59 image_layout).
  - intros bn Hbn Hne. apply (baddr_fill v _ d _ k a); [done|]. unfold k. rewrite <-(slot_of_direct (off / 512)) by lia.
    by apply other_slot; [|lia|].
  - intros _. unfold ind_addr. cbn [set_daddr d_addrs]. rewrite list_lookup_insert_ne by lia. done.
  - intros _. unfold fresh. by rewrite upd_eq.
  - cbn [freeblock set_freeblock]. rewrite cost_step by done. rewrite decide_True by done. rewrite decide_False by lia. lia.
Qed.

(** ** Blocks behind the indirect block *)

Lemma owned_below s v d b : view s v → file_ok v d → b ∈ owned v d → 59 ≤ b < freeblock s.
Proof.
  intros V F Hb. destruct (f_data _ _ _ _ F b Hb) as [Hd Hu]. rewrite data59 in Hd.
  rewrite (vi_used s v V) in Hu by lia. apply bool_decide_eq_true_1 in Hu. lia.
Qed.

Lemma ind_below s v d : view s v → file_ok v d → ind_addr d ≠ 0 → 59 ≤ ind_addr d < freeblock s.
Proof.
  intros V F Hi. destruct (ind_owned sup 59 v d F Hi) as [Hd Hu]. rewrite data59 in Hd.
  rewrite (vi_used s v V) in Hu by lia. apply bool_decide_eq_true_1 in Hu. lia.
Qed.

(** The state after an entry of the indirect block [ia] was given the next block. *)
Definition entered s v (ia bn : Z) : st :=
  wrote_sect (set_freeblock (freeblock s + 1) s) ia (Fs.ind_put (v ia) bn (freeblock s)).

Record entry_placed s v d (fbn : Z) s' v' : Prop := {
  ep_view : view s' v';
  ep_file : file_ok v' d;
  ep_grown : grown v v' d d;
  ep_slots : slots v' d = <[slot_of fbn := freeblock s]> (slots v d);
  ep_new : v' (freeblock s) = zeros;
  ep_used : freeblock s' = freeblock s + 1;
  ep_ino : freeinode s' = freeinode s;
}.

Lemma entry_step s v d fbn :
  view s v → file_ok v d → ind_addr d ≠ 0 → 12 ≤ fbn < 140 → Fs.ind_get (v (ind_addr d)) (fbn - 12) = 0 → freeblock s < 1000 →
  ∃ v', entry_placed s v d fbn (entered s v (ind_addr d) (fbn - 12)) v'.
Proof.
  intros V F Hi Hf Hz Hfb. destruct (next_free s v V Hfb) as [Ha Hau]. pose proof (ind_below s v d V F Hi) as Hib.
  set (a := freeblock s) in *. set (ia := ind_addr d) in *.
  destruct (grow_entry sup 59 image_layout v d (fbn - 12) a F (vi_fs s v V) Hi) as (F' & Hv' & G & Hs); [change NINDIRECT with 128; lia|done|done|done|].
  assert (fresh sup v a ia = v ia) as Hia by (apply (fresh_other sup 59 image_layout); rewrite ?data59; lia || done). fold ia in F', Hv', G, Hs.
  rewrite Hia in *. exists (upd (fresh sup v a) ia (Fs.ind_put (v ia) (fbn - 12) a)). split; try done.
  - apply view_data; [by apply view_next|cbn [freeblock set_freeblock]; lia|]. unfold Fs.ind_put. rewrite length_put32.
    apply (len_data sup 59 image_layout); [apply V|rewrite data59; pose proof (vi_fb s v V); lia].
  - rewrite slot_of_entry by lia. exact Hs.
  - rewrite upd_ne by lia. unfold fresh. by rewrite upd_eq.
Qed.

(** The second half of [block_for], once there is an indirect block. *)
Lemma wp_entry s v d fbn (Q : Z * dinode → st → Prop) :
  let ia := ind_addr d in
  let e := Fs.ind_get (v ia) (fbn - 12) in
  view s v → file_ok v d → ia ≠ 0 → 12 ≤ fbn < 140 → (e = 0 → freeblock s < 1000) →
  (e ≠ 0 → Q (e, d) s) → (e = 0 → ∀ s' v', entry_placed s v d fbn s' v' → Q (freeblock s, d) s') →
  wp (indirect ← rsect (xint false ia);
      let k := Z.to_nat (4 * (fbn - NDIRECT)) in
      indirect ← (if bool_decide (hget32 false indirect k = 0)%Z then
                    b ← next_block;
                    let indirect := hput32 false indirect k (xint false b) in
                    wsect (xint false ia) indirect ;;
                    kret indirect
                  else kret indirect);
      kret (xint false (hget32 false indirect k), d))%kern s Q.
Proof.
  intros ia e V F Hi Hf Hroom Hthere Hnew. pose proof (ind_below s v d V F Hi) as Hib. fold ia in Hib.
  pose proof (vi_fb s v V) as Hfb. rewrite (xint_id ia) by (unfold uint; lia).
  apply wp_bind, (wp_rsect s v); [done|lia|lia|]. cbv zeta.
  change (hget32 false (v ia) (Z.to_nat (4 * (fbn - NDIRECT)))) with e.
  assert (length (v ia) = BSIZE) as Hlen by (apply (len_data sup 59 image_layout); [apply V|rewrite data59; lia]).
  case_bool_decide as He.
  - specialize (Hroom He). apply wp_bind, wp_bind, (wp_next_block s v); [done|done|]. apply wp_bind, wp_wsect; [lia|].
    apply wp_ret, wp_ret. rewrite (xint_id (freeblock s)) by (unfold uint; lia).
    change (hget32 false) with get32. change (hput32 false) with put32. change NDIRECT with 12.
    rewrite get_put32 by (rewrite Hlen; unfold BSIZE; lia). rewrite u32_id, xint_id by (unfold uint; lia).
    destruct (entry_step s v d fbn V F Hi Hf He Hroom) as [v' Hv']. by apply (Hnew He _ v').
  - apply wp_bind, wp_ret, wp_ret. change (hget32 false (v ia) (Z.to_nat (4 * (fbn - NDIRECT)))) with e.
    rewrite xint_id; [by apply Hthere|]. unfold uint. assert (e ∈ owned v d) as Ho.
    { apply elem_owned. split; [done|]. exists (slot_of fbn). by apply entry_slot; [apply F| |]. }
    pose proof (owned_below s v d e V F Ho). lia.
Qed.

(** An entry behind an indirect block that was there. *)
Lemma placed_entry s v d c off s' v' :
  view s v → reads v d c → off = d_size d → 6144 < off < 71680 → off mod 512 = 0 →
  entry_placed s v d (off / 512) s' v' → placed s v d off s' v' d (freeblock s).
Proof.
  intros V R Hoff Hmax Hm [E1 E2 E3 E4 E5 E6 E7]. pose proof (re_file _ _ _ R) as F. pose proof (vi_fb s v V).
  pose proof (Z.div_mod off 512 ltac:(lia)). split; try done.
  - rewrite E4. apply list_lookup_insert_eq. rewrite (length_slots v d) by apply F. rewrite slot_of_entry by lia. lia.
  - lia.
  - intros bn Hbn Hne. apply (baddr_fill v v' d d (slot_of (off / 512)) (freeblock s)); [done|]. by apply other_slot; [|lia|].
  - rewrite E6, cost_step by lia. rewrite decide_True by done. rewrite decide_False by lia. lia.
Qed.

(** The indirect block and its first entry. *)
Lemma placed_first s v d c s' v' :
  let a := freeblock s in
  let s1 := set_freeblock (a + 1) s in
  let v1 := fresh sup v a in
  let d1 := set_daddr 12 a d in
  view s v → reads v d c → d_size d = 6144 → a < 1000 →
  view s1 v1 ∧ file_ok v1 d1 ∧ ind_addr d1 = a ∧ v1 a = zeros ∧
  (entry_placed s1 v1 d1 12 s' v' → placed s v d 6144 s' v' d1 (a + 1)).
Proof.
  intros a s1 v1 d1 V R Hsz Hfb. pose proof (re_file _ _ _ R) as F. destruct (next_free s v V Hfb) as [Ha Hau].
  assert (length (d_addrs d) = 13%nat) as Hl by apply F.
  assert (d_addrs d !! 12%nat = Some 0) as Hk.
  { pose proof (re_ind _ _ _ R ltac:(lia)) as Hi. unfold ind_addr in Hi.
    destruct (lookup_lt_is_Some_2 (d_addrs d) 12) as [x Hx]; [lia|]. rewrite Hx in *. simpl in Hi. by subst. }
  destruct (grow_addr sup 59 image_layout v d 12 a F (vi_fs s v V) Hk ltac:(lia) Ha Hau) as (F1 & G1 & Hs1). fold v1 d1 in F1, G1, Hs1.
  assert (view s1 v1) as V1 by by apply view_next.
  split; [done|]. split; [done|].
  split; [unfold ind_addr, d1; cbn [set_daddr d_addrs]; by rewrite list_lookup_insert_eq by lia|].
  split; [unfold v1, fresh; by rewrite upd_eq|]. intros [E1 E2 E3 E4 E5 E6 E7].
  assert (slots v' d1 = <[slot_of 12 := a + 1]> (<[12%nat := a]> (slots v d))) as Hs2 by (rewrite E4, Hs1; done).
  split; try done.
  - eapply (grown_trans sup 59 image_layout v v1 v' d d1 d1); [| |done|done].
    + intros b Hb. unfold v1. rewrite (used_fresh sup 59 image_layout) by (done || apply V). by case_decide.
    + intros b Hb. pose proof (owned_below s' v' d1 b E1 E2 Hb). pose proof (vi_fb s' v' E1). change (sb_size sup) with 1000. lia.
  - rewrite Hs2. apply list_lookup_insert_eq. rewrite length_insert, (length_slots v d) by apply F. vm_compute. lia.
  - pose proof (vi_fb s v V). unfold a. lia.
  - intros bn Hbn Hne. destruct (other_slot bn (6144 / 512)) as [H1 H2]; [done|done|done|].
    rewrite (baddr_fill v1 v' d1 d1 (slot_of 12) (a + 1)); [|done|done]. by apply (baddr_fill v v1 d d1 12 a).
  - rewrite E6. cbn [freeblock s1 set_freeblock]. rewrite cost_step by lia. rewrite !decide_True by done. fold a. lia.
Qed.

(** A block of the content that is mapped by the inode itself. *)
Lemma wp_block_direct s v d c off :
  view s v → reads v d c → off = d_size d → off < 6144 → (off mod 512 = 0 → freeblock s < 1000) →
  wp (block_for false d (off / 512)) s (λ r s', ∃ v', placed s v d off s' v' r.2 r.1).
Proof.
  intros V R Hoff Hmax Hnext. pose proof (re_file _ _ _ R) as F. pose proof (vi_fb s v V) as Hfb.
  assert (0 ≤ off) as H0 by (rewrite Hoff; apply (do_size d); apply F). assert (length (d_addrs d) = 13%nat) as Hl by apply F.
  pose proof (Z.div_mod off 512 ltac:(lia)) as Hdm. pose proof (Z.mod_pos_bound off 512 ltac:(lia)) as Hmod.
  unfold block_for. change NDIRECT with 12. rewrite bool_decide_eq_true_2 by lia.
  destruct (lookup_lt_is_Some_2 (d_addrs d) (Z.to_nat (off / 512))) as [a Ha]; [lia|].
  assert (slots v d !! slot_of (off / 512) = Some a) as Hs by (apply direct_slot; [apply F|lia|done]).
  assert (uint a) as Hau by (apply (do_addr d (f_dinode _ _ _ _ F)); by eapply list_elem_of_lookup_2).
  apply wp_bind, (wp_unwrap _ a); [done|]. rewrite (xint_id a) by done. destruct (decide (off mod 512 = 0)) as [Hm|Hm].
  - assert (a = 0) as ->.
    { pose proof (re_bare _ _ _ R (off / 512) ltac:(lia) ltac:(lia)) as Hb. unfold baddr in Hb. by rewrite Hs in Hb. }
    rewrite bool_decide_eq_true_2 by done. apply wp_bind, wp_bind, (wp_next_block s v); [done|auto|]. apply wp_ret.
    rewrite xint_id by (unfold uint; lia).
    apply wp_bind, (wp_unwrap _ (freeblock s)); [cbn [set_daddr d_addrs]; apply list_lookup_insert_eq; lia|].
    apply wp_ret. rewrite xint_id by (unfold uint; lia). eexists. apply (placed_direct s v d c off); auto.
  - pose proof (placed_there s v d c off a V R Hoff ltac:(lia) Hm Hs) as P.
    rewrite bool_decide_eq_false_2 by apply P. apply wp_bind, wp_ret. apply wp_bind, (wp_unwrap _ a); [done|]. apply wp_ret.
    rewrite xint_id by done. by exists v.
Qed.

Lemma wp_block_for s v d c off :
  view s v → reads v d c → off = d_size d → off < 71680 → freeblock s + cost (off + 1) - cost off ≤ 1000 →
  wp (block_for false d (off / 512)) s (λ r s', ∃ v', placed s v d off s' v' r.2 r.1).
Proof.
  intros V R Hoff Hmax Hroom. pose proof (re_file _ _ _ R) as F. pose proof (vi_fb s v V) as Hfb.
  assert (0 ≤ off) as H0 by (rewrite Hoff; apply (do_size d); apply F). assert (length (d_addrs d) = 13%nat) as Hl by apply F.
  pose proof (Z.div_mod off 512 ltac:(lia)) as Hdm. pose proof (Z.mod_pos_bound off 512 ltac:(lia)) as Hmod.
  rewrite cost_step in Hroom by done.
  assert (off mod 512 = 0 → freeblock s < 1000) as Hnext by (intros Hm; revert Hroom; rewrite decide_True by done; case_decide; lia).
  destruct (decide (off < 6144)) as [Hlow|Hhigh]; [by apply (wp_block_direct s v d c)|].
  unfold block_for. change NDIRECT with 12. rewrite bool_decide_eq_false_2 by lia.
  destruct (lookup_lt_is_Some_2 (d_addrs d) 12) as [a Ha]; [lia|].
  assert (ind_addr d = a) as Hia by (unfold ind_addr; by rewrite Ha).
  assert (uint a) as Hau by (apply (do_addr d (f_dinode _ _ _ _ F)); by eapply list_elem_of_lookup_2).
  apply wp_bind, (wp_unwrap _ a); [done|]. rewrite (xint_id a) by done. destruct (decide (off = 6144)) as [->|Hne].
  - rewrite <-Hia, (re_ind _ _ _ R) by lia. rewrite bool_decide_eq_true_2 by done.
    change (6144 mod 512) with 0 in Hroom. rewrite !decide_True in Hroom by done.
    apply wp_bind, wp_bind, (wp_next_block s v); [done|lia|]. apply wp_ret. rewrite xint_id by (unfold uint; lia).
    apply wp_bind, (wp_unwrap _ (freeblock s)); [cbn [set_daddr d_addrs]; apply list_lookup_insert_eq; lia|].
    destruct (placed_first s v d c s v V R) as (V1 & F1 & Hi1 & Hz1 & _); [done|lia|].
    change (6144 / 512) with 12.
    pose proof (wp_entry _ _ _ 12 (λ r s', ∃ v', placed s v d 6144 s' v' r.2 r.1) V1 F1) as HE. rewrite Hi1, Hz1 in HE.
    change (Fs.ind_get zeros (12 - 12)) with 0 in HE. apply HE; [lia|lia|intros _; cbn [freeblock set_freeblock]; lia|done|].
    intros _ s' v' E. exists v'. by apply (placed_first s v d c s' v' V R); [|lia|].
  - assert (a ≠ 0) as Ha0 by (rewrite <-Hia; apply (reads_ind v d c R); lia).
    rewrite bool_decide_eq_false_2 by done. apply wp_bind, wp_ret. apply wp_bind, (wp_unwrap _ a); [done|]. rewrite <-Hia.
    assert (slots v d !! slot_of (off / 512) = Some (Fs.ind_get (v (ind_addr d)) (off / 512 - 12))) as Hs
      by (apply entry_slot; [apply F|lia|congruence]).
    destruct (decide (off mod 512 = 0)) as [Hm|Hm].
    + assert (Fs.ind_get (v (ind_addr d)) (off / 512 - 12) = 0) as He.
      { pose proof (re_bare _ _ _ R (off / 512) ltac:(lia) ltac:(lia)) as Hb. unfold baddr in Hb. by rewrite Hs in Hb. }
      apply (wp_entry s v d); [done|done|congruence|lia|auto|done|]. intros _ s' v' E. exists v'.
      by apply (placed_entry s v d c off); [| | |lia| |].
    + pose proof (placed_there s v d c off _ V R Hoff Hmax Hm Hs) as P.
      apply (wp_entry s v d); [done|done|congruence|lia| | |]; [intros He; by destruct (pl_some _ _ _ _ _ _ _ _ P)|by exists v|].
      intros He. by destruct (pl_some _ _ _ _ _ _ _ _ P).
Qed.

(** ** Appending *)

Lemma dinode_ok_size d z : dinode_ok d → uint z → dinode_ok (set_dsize z d).
Proof. intros [] Hz. by split. Qed.

(** The size may grow over blocks that are there. *)
Lemma file_ok_size v d z :
  file_ok v d → 0 ≤ z ≤ 71680 → (∀ bn, 0 ≤ bn → bn * 512 < z → baddr v d bn ≠ 0) → file_ok v (set_dsize z d).
Proof.
  intros [F1 F2 F3 F4 F5] Hz Hb. split; try done.
  - apply dinode_ok_size; [done|]. unfold uint. lia.
  - change (MAXFILE * Z.of_nat BSIZE) with 71680. simpl. lia.
Qed.

Lemma byte_at_zeros i : byte_at zeros i = 0.
Proof. unfold byte_at, zeros. destruct (replicate BSIZE 0 !! i) eqn:Hi; [|done]. by apply lookup_replicate in Hi as [-> _]. Qed.

Section append.
Context (s s' : st) (v v' : Z → block) (d d' : dinode) (c l : list Z) (off x : Z).
Context (R : reads v d c) (Hoff : off = d_size d) (P : placed s v d off s' v' d' x).
Context (Hl : (0 < length l)%nat) (Hfit : off mod 512 + Z.of_nat (length l) ≤ 512) (Hmax : off < 71680).

Let y : block := put_bytes (v' x) (Z.to_nat (off mod 512)) l.
Let w : Z → block := upd v' x y.
Let z : Z := off + Z.of_nat (length l).

Local Lemma append_off : 0 ≤ off ∧ off = 512 * (off / 512) + off mod 512 ∧ 0 ≤ off mod 512 < 512 ∧ off / 512 < 140.
Proof.
  assert (0 ≤ off) as H0 by (rewrite Hoff; apply (do_size d); apply R).
  pose proof (Z.div_mod off 512 ltac:(lia)). pose proof (Z.mod_pos_bound off 512 ltac:(lia)). lia.
Qed.

Local Lemma placed_at : x ∈ owned v' d' ∧ 59 ≤ x < freeblock s' ∧ length (v' x) = BSIZE ∧ length y = BSIZE.
Proof.
  pose proof P as [V F _ Hs Hx _ _ _ _ _]. pose proof append_off.
  assert (x ∈ owned v' d') as Ho by (apply elem_owned; eauto). pose proof (owned_below s' v' d' x V F Ho). pose proof (vi_fb s' v' V).
  assert (length (v' x) = BSIZE) as Hlen by (apply (len_data sup 59 image_layout); [apply V|rewrite data59; lia]).
  split; [done|]. split; [done|]. split; [done|]. unfold y. rewrite length_put_bytes; [done|]. rewrite Hlen. unfold BSIZE. lia.
Qed.

Local Lemma append_block : slots w d' = slots v' d' ∧ file_ok w d' ∧ kept v w d d' ∧ view (wrote_sect s' x y) w.
Proof.
  pose proof P as [V F G Hs Hx _ _ _ _ _]. destruct placed_at as (_ & Hb & _ & Hy). pose proof append_off.
  destruct (write_block sup 59 image_layout v' d' (off / 512) x y F (vi_fs _ _ V)) as (Hss & Fw & _ & K & _); [lia|done|done|done|].
  fold w in Hss, Fw, K. split; [done|]. split; [done|]. split; [|by apply view_data].
  eapply (kept_trans sup 59 image_layout v v' w d d' d'); [done|done| |done]. by apply grown_kept.
Qed.

Local Lemma append_byte o : 0 ≤ o →
  fbyte w d' o = if decide (off ≤ o < z) then byte_at l (Z.to_nat (o - off)) else fbyte v' d' o.
Proof.
  intros Ho. pose proof P as [V F G Hs Hx _ _ _ _ _]. apply (write_fbyte sup 59 image_layout); try done; [apply V|].
  pose proof append_off. lia.
Qed.

Local Lemma append_same : d_size d' = off ∧ (∀ o, 0 ≤ o → baddr v d (o / 512) ≠ 0 → fbyte v' d' o = fbyte v d o).
Proof.
  pose proof P as [V F G _ _ _ _ _ _ _]. split; [rewrite (gr_dinode _ _ _ _ _ _ G); by rewrite Hoff|].
  intros o Ho Hb. by apply (grown_fbyte sup 59 image_layout); [|apply R| |].
Qed.

Local Lemma append_mapped bn : 0 ≤ bn → bn * 512 < z → baddr w d' bn ≠ 0.
Proof.
  intros Hbn Hlt. destruct append_block as (Hss & Fw & _ & _). destruct append_same as [Hsz _]. pose proof append_off.
  destruct (decide (bn = off / 512)) as [->|].
  - unfold baddr. rewrite Hss, (pl_slot _ _ _ _ _ _ _ _ P). apply P.
  - apply (f_mapped _ _ _ _ Fw); [done|]. change (Z.of_nat BSIZE) with 512. unfold z in Hlt. lia.
Qed.

Lemma append_reads : view (wrote_sect s' x y) w ∧ kept v w d d' ∧ reads w (set_dsize z d') (c ++ l).
Proof.
  destruct append_block as (Hss & Fw & K & V'). destruct append_same as [Hsz Hsame]. destruct append_off as (H0 & Hdm & Hm & Hb140).
  split; [done|]. split; [done|]. pose proof P as [V F G Hs Hx Hother Hind Hnew _ _]. pose proof (re_file _ _ _ R) as F0.
  assert (∀ bn, 0 ≤ bn → bn ≠ off / 512 → baddr w d' bn = baddr v d bn) as Hbo.
  { intros bn Hbn Hne. rewrite <-Hother by done. unfold baddr. by rewrite Hss. }
  assert (z ≤ 71680) as Hz by (unfold z; lia). split; cbn [d_size set_dsize].
  - apply file_ok_size; [done|unfold z; lia|]. apply append_mapped.
  - rewrite (content_splice v d w _ off l).
    + rewrite (re_content _ _ _ R). pose proof (reads_size _ _ _ R) as Hsc. unfold splice.
      rewrite take_ge, drop_ge by lia. by rewrite app_nil_r.
    + lia.
    + cbn [d_size set_dsize]. unfold z. lia.
    + intros o Ho. change (fbyte w (set_dsize z d') o) with (fbyte w d' o). rewrite append_byte by lia.
      fold z. case_decide as Hr; [done|]. cbn [d_size set_dsize] in Ho. unfold z in Ho, Hr. apply Hsame; [lia|].
      apply (f_mapped _ _ _ _ F0); [apply Z.div_pos; lia|]. change (Z.of_nat BSIZE) with 512.
      pose proof (Z.mul_div_le o 512 ltac:(lia)). lia.
  - intros bn Hbn Hge. change (baddr w d' bn = 0). unfold z in Hge. rewrite Hbo; [|done|lia]. apply (re_bare _ _ _ R); lia.
  - intros Hle. change (ind_addr d' = 0). unfold z in Hle. rewrite Hind by lia. apply (re_ind _ _ _ R). lia.
  - intros o Ho Hb. change (fbyte w d' o = 0). change (baddr w d' (o / 512) ≠ 0) in Hb. unfold z in Ho.
    rewrite append_byte by lia. unfold z. rewrite decide_False by lia.
    pose proof (Z.div_mod o 512 ltac:(lia)). pose proof (Z.mod_pos_bound o 512 ltac:(lia)).
    assert (o / 512 = off / 512) as Hq.
    { destruct (decide (o / 512 = off / 512)); [done|]. rewrite Hbo in Hb by lia. exfalso. apply Hb, (re_bare _ _ _ R); lia. }
    destruct (decide (off mod 512 = 0)) as [Hz0|Hz0].
    + unfold fbyte, baddr. change (Z.of_nat BSIZE) with 512. rewrite Hq, Hs. cbn [default from_option].
      unfold id. rewrite Hnew by done. apply byte_at_zeros.
    + assert (baddr v d (o / 512) ≠ 0) by (apply (f_mapped _ _ _ _ F0); change (Z.of_nat BSIZE) with 512; lia).
      rewrite Hsame by (done || lia). apply (re_tail _ _ _ R); [lia|done].
Qed.
End append.

(** [block_for] does not look at the size. *)
Lemma block_for_size d z fbn s (Q : Z * dinode → st → Prop) :
  wp (block_for false (set_dsize z d) fbn) s Q → wp (block_for false d fbn) s (λ r, Q (r.1, set_dsize z r.2)).
Proof.
  unfold block_for. change (d_addrs (set_dsize z d)) with (d_addrs d).
  assert (∀ k (m : Z → dinode → kM st (Z * dinode)),
    (∀ a d s, wp (m a (set_dsize z d)) s Q → wp (m a d) s (λ r, Q (r.1, set_dsize z r.2))) →
    wp (a ← kunwrap (d_addrs d !! k);
        din ← (if bool_decide (xint false a = 0)%Z then
                 b ← next_block; kret (set_daddr k (xint false b) (set_dsize z d))
               else kret (set_dsize z d));
        a ← kunwrap (d_addrs din !! k); m a din)%kern s Q →
    wp (a ← kunwrap (d_addrs d !! k);
        din ← (if bool_decide (xint false a = 0)%Z then
                 b ← next_block; kret (set_daddr k (xint false b) d)
               else kret d);
        a ← kunwrap (d_addrs din !! k); m a din)%kern s (λ r, Q (r.1, set_dsize z r.2))) as Hgen.
  { intros k m Hm. unfold wp, kbind. destruct (d_addrs d !! k) as [a|] eqn:Hk; [|done]. cbn [kunwrap kret].
    destruct (bool_decide _); cbn -[xint u32]; [|rewrite Hk; apply Hm].
    change (d_addrs (set_daddr k ?a (set_dsize z d))) with (d_addrs (set_daddr k a d)).
    destruct (<[k:=_]> (d_addrs d) !! k); [|done]. cbn [kunwrap kret]. apply (Hm _ (set_daddr k _ d)). }
  destruct (bool_decide _).
  - apply Hgen. intros a d0 s0. done.
  - apply Hgen. intros a d0 s0. unfold wp, kbind. destruct (rsect _ s0) as [b s1|c s1|msg|]; [|done..].
    destruct (bool_decide _); [|done]. cbn -[xint u32 hget32 hput32]. done.
Qed.

Definition same_kind d d' : Prop := (d_type d', d_major d', d_minor d', d_nlink d') = (d_type d, d_major d, d_minor d, d_nlink d).

(** What appending [p] to a file of size [off] leaves. *)
Record appended s v d c off (p : list Z) s' v' d' : Prop := {
  ap_view : view s' v';
  ap_reads : reads v' (set_dsize (off + Z.of_nat (length p)) d') (c ++ p);
  ap_kept : kept v v' d d';
  ap_meta : same_kind d d';
  ap_used : freeblock s' = freeblock s + cost (off + Z.of_nat (length p)) - cost off;
  ap_ino : freeinode s' = freeinode s;
}.

Lemma appended_nil s v d c off : view s v → reads v (set_dsize off d) c → appended s v d c off [] s v d.
Proof.
  intros V R. split; try done; simpl; rewrite ?app_nil_r, ?Z.add_0_r; try done; [|lia].
  apply grown_kept, grown_refl.
Qed.

Lemma kept_size v v' d d' y z : kept v v' (set_dsize y d) (set_dsize z d') → kept v v' d d'.
Proof. intros [K1 K2 K3 K4]. split; [exact K1|exact K2|exact K3|exact K4]. Qed.

(** One piece within a block, and the rest. *)
Lemma appended_app s v d c off l1 l2 s1 v1 d1 s2 v2 d2 :
  let z := off + Z.of_nat (length l1) in
  view s1 v1 → reads v1 (set_dsize z d1) (c ++ l1) → kept v v1 d d1 → same_kind d d1 →
  freeblock s1 = freeblock s + cost z - cost off → freeinode s1 = freeinode s →
  appended s1 v1 d1 (c ++ l1) z l2 s2 v2 d2 → appended s v d c off (l1 ++ l2) s2 v2 d2.
Proof.
  intros z V1 R1 K1 M1 U1 I1 [V2 R2 K2 M2 U2 I2]. rewrite <-app_assoc in R2.
  assert (off + Z.of_nat (length (l1 ++ l2)) = z + Z.of_nat (length l2)) as He by (rewrite length_app; lia).
  split; rewrite ?He; try done.
  - apply (kept_size _ _ _ _ z (z + Z.of_nat (length l2))).
    eapply (kept_trans sup 59 image_layout v v1 v2 _ (set_dsize z d1)); [apply R1|apply R2| |].
    + destruct K1 as [K1 K2' K3 K4]. split; [exact K1|exact K2'|exact K3|exact K4].
    + destruct K2 as [K2 K2' K3 K4]. split; [exact K2|exact K2'|exact K3|exact K4].
  - unfold same_kind in *. congruence.
  - lia.
  - congruence.
Qed.

Lemma wp_iappend_loop fuel : ∀ s v d c off p,
  view s v → reads v (set_dsize off d) c → off + Z.of_nat (length p) ≤ 71680 → (length p < fuel)%nat →
  freeblock s + cost (off + Z.of_nat (length p)) - cost off ≤ 1000 →
  wp (iappend_loop false fuel d p off (Z.of_nat (length p))) s
    (λ r s', r.2 = off + Z.of_nat (length p) ∧ ∃ v', appended s v d c off p s' v' r.1).
Proof.
  induction fuel as [|fuel IH]; intros s v d c off p V R Hmax Hfuel Hroom; [lia|]. cbn [iappend_loop].
  assert (0 ≤ off) as H0 by apply (do_size (set_dsize off d) (f_dinode _ _ _ _ (re_file _ _ _ R))).
  pose proof (Z.div_mod off 512 ltac:(lia)) as Hdm. pose proof (Z.mod_pos_bound off 512 ltac:(lia)) as Hm.
  change (Z.of_nat BSIZE) with 512. case_bool_decide as Hpos.
  2: { destruct p; [|simpl in Hpos; lia]. apply wp_ret. split; [simpl; lia|]. exists v. by apply appended_nil. }
  apply wp_bind, wp_assert; [apply bool_decide_eq_true_2; change MAXFILE with 140; lia|].
  set (m := Z.min (Z.of_nat (length p)) (512 - off mod 512)). assert (0 < m) by lia.
  assert (cost (off + m) = cost (off + 1)) as Hc1 by (apply cost_same; lia).
  pose proof (cost_mono (off + m) (off + Z.of_nat (length p)) ltac:(lia)) as Hc2.
  apply wp_bind. eapply wp_mono; [apply (block_for_size d off), (wp_block_for s v _ c); [done|done|done|lia|lia]|].
  intros [x d1] s1 (v1 & P). cbn [fst snd] in *.
  replace (u32 ((off / 512 + 1) * 512 - off)) with (512 - off mod 512) by (rewrite u32_id; unfold uint; lia). fold m.
  replace (off - off / 512 * 512) with (off mod 512) by lia.
  set (l := take (Z.to_nat m) p). assert (Z.of_nat (length l) = m) as Hlm by (unfold l; rewrite length_take; lia).
  destruct (append_reads s s1 v v1 (set_dsize off d) (set_dsize off d1) c l off x R eq_refl P) as (V2 & K2 & R2); [lia|lia|lia|].
  rewrite Hlm in R2. change (set_dsize (off + m) (set_dsize off d1)) with (set_dsize (off + m) d1) in R2.
  assert (59 ≤ x < 1000) as Hx.
  { destruct (placed_at s s1 v v1 (set_dsize off d) (set_dsize off d1) c l off x R eq_refl P) as (_ & Hx & _); [lia..|].
    pose proof (vi_fb _ _ (pl_view _ _ _ _ _ _ _ _ P)). lia. }
  apply wp_bind, (wp_rsect s1 v1); [apply P|lia|lia|]. apply wp_bind, wp_wsect; [lia|].
  rewrite u32_id by (unfold uint; lia).
  replace (Z.of_nat (length p) - m) with (Z.of_nat (length (drop (Z.to_nat m) p))) by (rewrite length_drop; lia).
  eapply wp_mono; [eapply (IH _ _ d1 (c ++ l)); [exact V2|exact R2|rewrite length_drop; lia|rewrite length_drop; lia|]|].
  { cbn [freeblock wrote_sect set_img]. rewrite (pl_used _ _ _ _ _ _ _ _ P). rewrite length_drop.
    replace (off + m + Z.of_nat (length p - Z.to_nat m)) with (off + Z.of_nat (length p)) by lia. lia. }
  intros [d2 off2] s2 [Hoff2 [v2 A]]. cbn [fst snd] in *. split; [rewrite Hoff2, length_drop; lia|]. exists v2.
  rewrite <-(take_drop (Z.to_nat m) p). fold l. eapply appended_app; rewrite ?Hlm.
  - exact V2.
  - exact R2.
  - by apply (kept_size _ _ _ _ off off).
  - pose proof (gr_dinode _ _ _ _ _ _ (pl_grown _ _ _ _ _ _ _ _ P)) as Hg.
    unfold same_kind. unfold set_dsize in Hg. simpl in Hg. by injection Hg as -> -> -> ->.
  - cbn [freeblock wrote_sect set_img]. rewrite (pl_used _ _ _ _ _ _ _ _ P). lia.
  - cbn [freeinode wrote_sect set_img]. apply P.
  - exact A.
Qed.

(** ** The files of the image *)

Lemma reads_frame v v' d c :
  reads v d c → (∀ a, a ∈ owned v d → v' a = v a ∧ used v' a = true) → reads v' d c ∧ owned v' d = owned v d.
Proof.
  intros [F Hc Hb Hi Ht] Hk. destruct (file_frame sup 59 v v' d F Hk) as (F' & Ho & Hc').
  assert (slots v' d = slots v d) as Hs.
  { unfold slots. f_equal. apply indirect_ext. intros Hne. apply Hk, elem_owned. split; [done|]. exists 12%nat.
    apply slots_addr. unfold ind_addr in *. by destruct (d_addrs d !! 12%nat). }
  assert (∀ bn, baddr v' d bn = baddr v d bn) as Hba by (intros bn; unfold baddr; by rewrite Hs).
  split; [|done]. split; [done|congruence|intros bn; rewrite Hba; apply Hb|done|].
  intros o Ho' Hne. rewrite Hba in Hne. rewrite <-(Ht o Ho' Hne). unfold fbyte. rewrite Hba. f_equal.
  apply Hk, elem_owned. split; [done|]. eexists. by apply baddr_slot.
Qed.

Definition ino (i : nat) : Z := 1 + Z.of_nat i.

Definition total (fl : list (Z * list Z)) : Z := foldr (λ f n, cost (Z.of_nat (length f.2)) + n) 0 fl.

(** The image has the files [fl], type and content, from inode 1 on, and
    nothing else: no block is lost, and the log is empty. *)
Record image (fl : list (Z * list Z)) s v : Prop := {
  im_view : view s v;
  im_ino : freeinode s = ino (length fl);
  im_cost : freeblock s = 59 + total fl;
  im_file i f : fl !! i = Some f → reads v (disk_inode v (ino i)) f.2;
  im_kind i f : fl !! i = Some f → d_type (disk_inode v (ino i)) = f.1 ∧ d_nlink (disk_inode v (ino i)) = 1;
  im_apart i j b : is_Some (fl !! i) → is_Some (fl !! j) → i ≠ j →
    b ∈ owned v (disk_inode v (ino i)) → b ∉ owned v (disk_inode v (ino j));
  im_rest n : 0 ≤ n < 200 → n = 0 ∨ ino (length fl) ≤ n → d_type (disk_inode v n) = 0;
  im_log b : 2 ≤ b < 32 → v b = zeros;
}.

Lemma total_insert fl i f g : fl !! i = Some f →
  total (<[i := g]> fl) = total fl - cost (Z.of_nat (length f.2)) + cost (Z.of_nat (length g.2)).
Proof.
  revert i. induction fl as [|x fl IH]; intros [|i] Hi; simplify_eq/=; [lia|]. rewrite (IH i Hi). lia.
Qed.

Lemma total_app fl gl : total (fl ++ gl) = total fl + total gl.
Proof. induction fl as [|x fl IH]; simpl; [done|]. rewrite IH. lia. Qed.

Lemma cost_pos z : 0 ≤ z → 0 ≤ cost z.
Proof. intros Hz. unfold cost. pose proof (Z.div_pos (z + 511) 512). case_decide; lia. Qed.

Lemma total_pos fl : 0 ≤ total fl.
Proof. induction fl as [|x fl IH]; simpl; [done|]. pose proof (cost_pos (Z.of_nat (length x.2))). lia. Qed.

Lemma ino_range (fl : list (Z * list Z)) i : is_Some (fl !! i) → (length fl < 200)%nat → 0 ≤ ino i < 200.
Proof. intros Hi%lookup_lt_is_Some Hl. unfold ino. lia. Qed.

Lemma set_dsize_same d : set_dsize (d_size d) d = d.
Proof. by destruct d. Qed.

(** Appending [p] to file [i] and storing its inode. *)
Section stored.
Context (fl : list (Z * list Z)) (s : st) (v : Z → block) (i : nat) (f : Z * list Z) (p : list Z).
Context (I : image fl s v) (Hi : fl !! i = Some f) (Hlen : (length fl < 200)%nat).
Let n : Z := ino i.
Let d : dinode := disk_inode v n.
Context (s1 s2 : st) (v1 : Z → block) (d1 : dinode).
Context (A : appended s v d f.2 (d_size d) p s1 v1 d1).
Let z : Z := d_size d + Z.of_nat (length p).
Let D : dinode := set_dsize z d1.
Let w : Z → block := store_inode v1 n D.

Local Lemma stored_n : 0 ≤ n < 200.
Proof. apply (ino_range fl); eauto. Qed.

Local Lemma stored_own : reads w D (f.2 ++ p) ∧ owned w D = owned v1 d1 ∧ disk_inode w n = D.
Proof.
  pose proof stored_n as Hn. destruct A as [V1 R1 _ _ _ _]. fold z D in R1.
  destruct (store_inode_frame sup 59 image_layout v1 n D (vi_fs _ _ V1) Hn) as (_ & Hu & Hd). fold w in Hu, Hd.
  destruct (reads_frame v1 w D (f.2 ++ p) R1) as [R2 Ho].
  { intros a Ha. destruct (f_data _ _ _ _ (re_file _ _ _ R1) a Ha) as [Hda Hua].
    split; [by apply Hd|]. rewrite Hu; [done|]. by apply (data_range sup 59 image_layout). }
  split; [done|]. split; [done|]. unfold w.
  rewrite (disk_inode_store sup 59 image_layout); [by rewrite decide_True|apply V1|apply R1|done|lia].
Qed.

Local Lemma stored_inode m : 0 ≤ m < 200 → m ≠ n → disk_inode w m = disk_inode v m.
Proof.
  intros Hm Hne. pose proof stored_n as Hn. destruct A as [V1 R1 K1 _ _ _]. fold z D in R1. unfold w.
  rewrite (disk_inode_store sup 59 image_layout); [|apply V1|apply R1|done|lia]. rewrite decide_False by done.
  eapply (kept_disk_inode sup 59 image_layout v v1 d d1); [|exact K1|done]. apply (re_file _ _ f.2). by eapply im_file.
Qed.

Local Lemma stored_other j g : fl !! j = Some g → j ≠ i →
  reads w (disk_inode v (ino j)) g.2 ∧ owned w (disk_inode v (ino j)) = owned v (disk_inode v (ino j)) ∧
  ∀ b, b ∈ owned v (disk_inode v (ino j)) → b ∉ owned v1 d1.
Proof.
  intros Hj Hne. pose proof stored_n as Hn. destruct A as [V1 R1 K1 _ _ _]. set (e := disk_inode v (ino j)).
  pose proof (im_file _ _ _ I j g Hj) as Re. fold e in Re.
  destruct (store_inode_frame sup 59 image_layout v1 n D (vi_fs _ _ V1) Hn) as (_ & Hu & Hd). fold w in Hu, Hd.
  assert (∀ b, b ∈ owned v e → v1 b = v b ∧ used v1 b = true ∧ b ∉ owned v1 d1) as Hk.
  { intros b Hb. destruct (f_data _ _ _ _ (re_file _ _ _ Re) b Hb) as [Hdb Hub].
    apply (kept_frame sup 59 image_layout v v1 d d1 b K1 Hdb Hub). by apply (im_apart _ _ _ I j i); eauto. }
  destruct (reads_frame v w e g.2 Re) as [Rw Ho].
  { intros b Hb. destruct (Hk b Hb) as (Hb1 & Hb2 & _). destruct (f_data _ _ _ _ (re_file _ _ _ Re) b Hb) as [Hdb _].
    rewrite Hd by done. split; [done|]. rewrite Hu; [done|]. by apply (data_range sup 59 image_layout). }
  split; [done|]. split; [done|]. intros b Hb. by apply Hk.
Qed.

Lemma stored_image : view s2 w → freeblock s2 = freeblock s1 → freeinode s2 = freeinode s1 →
  image (<[i := (f.1, f.2 ++ p)]> fl) s2 w.
Proof.
  intros V2 Hfb Hfi. destruct stored_own as (R & Ho & HD). pose proof stored_n as Hn.
  pose proof (reads_size _ _ _ (im_file _ _ _ I i f Hi)) as Hsz. fold n d in Hsz.
  assert (∀ j, is_Some (fl !! j) → j ≠ i → disk_inode w (ino j) = disk_inode v (ino j)) as Hoth.
  { intros j Hj Hne. apply stored_inode; [by apply (ino_range fl)|]. unfold n, ino. lia. }
  assert (∀ j g, <[i := (f.1, f.2 ++ p)]> fl !! j = Some g → j = i ∧ g = (f.1, f.2 ++ p) ∨ j ≠ i ∧ fl !! j = Some g) as Hcase.
  { intros j g Hg. destruct (decide (j = i)) as [->|].
    - rewrite list_lookup_insert_eq in Hg by (by eapply lookup_lt_Some). left. by simplify_eq.
    - rewrite list_lookup_insert_ne in Hg by done. by right. }
  split; [done| | | | | | |].
  - rewrite length_insert, Hfi, (ap_ino _ _ _ _ _ _ _ _ _ A). apply I.
  - rewrite Hfb, (ap_used _ _ _ _ _ _ _ _ _ A), (im_cost _ _ _ I), (total_insert fl i f) by done. cbn [snd].
    rewrite length_app, Hsz. rewrite Nat2Z.inj_add. lia.
  - intros j g [[-> ->]|[Hne Hj]]%Hcase; [fold n; by rewrite HD|]. rewrite Hoth by (done || eauto). by apply stored_other.
  - intros j g [[-> ->]|[Hne Hj]]%Hcase; [|rewrite Hoth by (done || eauto); by apply (im_kind _ _ _ I)].
    fold n. rewrite HD. pose proof (ap_meta _ _ _ _ _ _ _ _ _ A) as M. unfold same_kind in M. injection M as Mt _ _ Ml.
    destruct (im_kind _ _ _ I i f Hi) as [Ht Hl]. fold n d in Ht, Hl. simpl. by rewrite Mt, Ml.
  - intros j k b [gj Hj] [gk Hk] Hne Hb. apply Hcase in Hj as [[-> ->]|[Hj Hj']], Hk as [[-> ->]|[Hk Hk']]; [done| | |].
    + rewrite (Hoth k) by (done || eauto). destruct (stored_other k gk Hk' Hk) as (_ & Hok & Hdk). rewrite Hok.
      fold n in Hb. rewrite HD, Ho in Hb. intros Hbk. by apply (Hdk b).
    + rewrite (Hoth j) in Hb by (done || eauto). destruct (stored_other j gj Hj' Hj) as (_ & Hoj & Hdj). rewrite Hoj in Hb.
      fold n. rewrite HD, Ho. by apply Hdj.
    + rewrite Hoth in Hb |- * by (done || eauto). destruct (stored_other j gj Hj' Hj) as (_ & Hoj & _).
      destruct (stored_other k gk Hk' Hk) as (_ & Hok & _). rewrite Hoj in Hb. rewrite Hok.
      apply (im_apart _ _ _ I j k); eauto.
  - rewrite length_insert. intros m Hm Hr. rewrite stored_inode; [by apply (im_rest _ _ _ I)|done|].
    apply lookup_lt_Some in Hi. unfold n, ino in *. lia.
  - intros b Hb. pose proof (inode_block_at n Hn). unfold w, store_inode. rewrite upd_ne by lia.
    rewrite (ke_keep _ _ _ _ _ _ (ap_kept _ _ _ _ _ _ _ _ _ A)); [by apply (im_log _ _ _ I)| | |].
    + intros c Hc. change (sb_size sup) with 1000 in Hc. rewrite demo_bmap by done. lia.
    + rewrite data59. lia.
    + intros Ho'. pose proof (f_data _ _ _ _ (re_file _ _ _ (im_file _ _ _ I i f Hi)) b Ho') as [Hd _]. rewrite data59 in Hd. lia.
Qed.
End stored.

Lemma wp_iappend fl s v i f p :
  image fl s v → fl !! i = Some f → (length fl < 200)%nat → Z.of_nat (length (f.2 ++ p)) ≤ 71680 →
  total (<[i := (f.1, f.2 ++ p)]> fl) ≤ 941 →
  wp (iappend false (ino i) p) s (λ _ s', ∃ v', image (<[i := (f.1, f.2 ++ p)]> fl) s' v').
Proof.
  intros I Hi Hlen Hmax Hroom. pose proof (im_view _ _ _ I) as V. pose proof (im_file _ _ _ I i f Hi) as R.
  assert (0 ≤ ino i < 200) as Hn by (apply (ino_range fl); eauto). pose proof (reads_size _ _ _ R) as Hsz.
  set (d := disk_inode v (ino i)) in *. rewrite (total_insert fl i f) in Hroom by done. cbn [snd] in Hroom.
  rewrite length_app, Nat2Z.inj_add in Hmax, Hroom. pose proof (im_cost _ _ _ I) as Hcost.
  unfold iappend. apply wp_bind, (wp_rinode s v); [done|done|]. fold d. cbv zeta. rewrite xint_id by (rewrite Hsz; unfold uint; lia).
  apply wp_bind. eapply wp_mono; [apply (wp_iappend_loop _ s v d f.2 (d_size d) p)|].
  - done.
  - by rewrite set_dsize_same.
  - lia.
  - lia.
  - rewrite Hsz. lia.
  - intros [d1 off] s1 [Hoff [v1 A]]. cbn [fst snd] in *. subst off. rewrite xint_id by (unfold uint; lia).
    apply (wp_winode s1 v1); [apply A|done|]. intros s2 V2 Hfb Hfi. eexists. by eapply (stored_image fl s v i f p).
Qed.

Definition new_inode (t : Z) : dinode := Dinode t 0 0 1 0 (replicate 13 0).

Lemma new_slots v t : slots v (new_inode t) = replicate 141 0.
Proof. unfold slots, indirect. rewrite decide_True by done. reflexivity. Qed.

Lemma new_owned v t : owned v (new_inode t) = [].
Proof. unfold owned. rewrite new_slots. reflexivity. Qed.

Lemma new_baddr v t bn : baddr v (new_inode t) bn = 0.
Proof.
  unfold baddr. rewrite new_slots. destruct (replicate 141 0 !! slot_of bn) eqn:Hs; [|done]. by apply lookup_replicate in Hs as [-> _].
Qed.

Lemma new_dinode t : short t → dinode_ok (new_inode t).
Proof.
  intros Ht. split; cbn [d_type d_major d_minor d_nlink d_size d_addrs new_inode]; unfold short, uint in *; try lia; [done|].
  intros a [-> _]%elem_of_replicate. lia.
Qed.

Lemma new_reads v t : short t → reads v (new_inode t) [].
Proof.
  intros Ht. split; [split| | | |].
  - by apply new_dinode.
  - rewrite new_owned. apply NoDup_nil_2.
  - rewrite new_owned. by intros a Ha%elem_of_nil.
  - vm_compute. discriminate.
  - intros bn Hbn. change (d_size (new_inode t)) with 0. change (Z.of_nat BSIZE) with 512. lia.
  - reflexivity.
  - intros bn _ _. apply new_baddr.
  - reflexivity.
  - intros o _ Hb. by rewrite new_baddr in Hb.
Qed.

(** A new inode behind the others. *)
Lemma new_image fl s v t s' :
  image fl s v → (length fl < 199)%nat → short t →
  let w := store_inode v (ino (length fl)) (new_inode t) in
  view s' w → freeblock s' = freeblock s → freeinode s' = freeinode s + 1 → image (fl ++ [(t, [])]) s' w.
Proof.
  intros I Hlen Ht w V' Hfb Hfi. set (n := ino (length fl)) in *. assert (0 ≤ n < 200) as Hn by (unfold n, ino; lia).
  pose proof (im_view _ _ _ I) as V.
  assert (∀ m, 0 ≤ m → disk_inode w m = if decide (m = n) then new_inode t else disk_inode v m) as Hd.
  { intros m Hm. apply (disk_inode_store sup 59 image_layout); [apply V|by apply new_dinode|done|done]. }
  assert (disk_inode w n = new_inode t) as Hnew by (rewrite Hd by lia; by rewrite decide_True).
  destruct (store_inode_frame sup 59 image_layout v n (new_inode t) (vi_fs _ _ V) Hn) as (_ & Hu & Hk). fold w in Hu, Hk.
  assert (∀ i f, fl !! i = Some f → disk_inode w (ino i) = disk_inode v (ino i) ∧
    reads w (disk_inode v (ino i)) f.2 ∧ owned w (disk_inode v (ino i)) = owned v (disk_inode v (ino i))) as Hold.
  { intros i f Hi. pose proof (lookup_lt_Some _ _ _ Hi). split.
    - rewrite Hd by (unfold ino; lia). rewrite decide_False; [done|]. unfold n, ino. lia.
    - apply reads_frame; [by apply (im_file _ _ _ I)|]. intros a Ha.
      destruct (f_data _ _ _ _ (re_file _ _ _ (im_file _ _ _ I i f Hi)) a Ha) as [Hda Hua].
      split; [by apply Hk|]. rewrite Hu; [done|]. by apply (data_range sup 59 image_layout). }
  assert (∀ i f, (fl ++ [(t, [])]) !! i = Some f → fl !! i = Some f ∨ i = length fl ∧ f = (t, [])) as Hcase.
  { intros i f [Hi|[Hl Hi]]%lookup_app_Some; [by left|right]. apply list_lookup_singleton_Some in Hi as [? <-]. split; [lia|done]. }
  split; [done| | | | | | |].
  - rewrite length_app, Hfi, (im_ino _ _ _ I). unfold ino. simpl. lia.
  - rewrite Hfb, (im_cost _ _ _ I), total_app. change (total [(t, [])]) with 0. lia.
  - intros i f [Hi|[-> ->]]%Hcase; [destruct (Hold i f Hi) as (-> & ? & _); done|]. fold n. rewrite Hnew. by apply new_reads.
  - intros i f [Hi|[-> ->]]%Hcase; [destruct (Hold i f Hi) as (-> & _ & _); by apply (im_kind _ _ _ I)|]. fold n. by rewrite Hnew.
  - intros i j b [f Hi] [g Hj] Hne Hb. apply Hcase in Hi as [Hi|[-> ->]], Hj as [Hj|[-> ->]]; [| | |done].
    + destruct (Hold i f Hi) as (Hi1 & _ & Hi2), (Hold j g Hj) as (Hj1 & _ & Hj2). rewrite Hi1, Hi2 in Hb. rewrite Hj1, Hj2.
      apply (im_apart _ _ _ I i j); eauto.
    + fold n. rewrite Hnew, new_owned. apply not_elem_of_nil.
    + fold n in Hb. rewrite Hnew, new_owned in Hb. by apply elem_of_nil in Hb.
  - rewrite length_app. intros m Hm Hr. rewrite Hd by lia. change (length [(t, @nil Z)]) with 1%nat in Hr.
    rewrite decide_False by (unfold n, ino in *; lia). apply (im_rest _ _ _ I); [done|]. unfold ino in *. lia.
  - intros b Hb. pose proof (inode_block_at n Hn). unfold w, store_inode. rewrite upd_ne by lia. by apply (im_log _ _ _ I).
Qed.

Lemma wp_ialloc fl s v t :
  image fl s v → (length fl < 199)%nat → 0 < t < 2 ^ 15 →
  wp (ialloc false t) s (λ r s', r = ino (length fl) ∧ ∃ v', image (fl ++ [(t, [])]) s' v').
Proof.
  intros I Hlen Ht. pose proof (im_view _ _ _ I) as V. unfold ialloc. apply wp_bind, wp_gets. apply wp_bind, wp_modify.
  rewrite (im_ino _ _ _ I). rewrite u32_id by (unfold uint, ino; lia).
  assert (Dinode (i16 (xshort false t)) 0 0 (i16 (xshort false 1)) (xint false 0) (replicate 13 0) = new_inode t) as ->.
  { rewrite !xshort_id, xint_id by (unfold uint; lia). unfold new_inode. f_equal.
    unfold i16. rewrite Z.mod_small by lia. lia. }
  apply wp_bind, (wp_winode _ v); [by destruct V|unfold ino; lia|]. intros s' V' Hfb Hfi. apply wp_ret. split; [done|].
  eexists. eapply (new_image fl s v t s'); [done|done|unfold short; lia|exact V'|done|].
  rewrite Hfi, (im_ino _ _ _ I). done.
Qed.

(** ** The beginning and the end of [main] *)

Lemma bitmap_S k : bitmap (Z.of_nat (S k)) = Fs.set_bit (Z.of_nat k) (bitmap (Z.of_nat k)).
Proof. unfold bitmap. rewrite !Nat2Z.id, seq_S, fmap_app, foldl_app. reflexivity. Qed.

Lemma bitmap_bits k : (k ≤ 1000)%nat → length (bitmap (Z.of_nat k)) = BSIZE ∧
  ∀ b, 0 ≤ b < 1000 → Fs.bit_clear (bitmap (Z.of_nat k)) b = negb (bool_decide (b < Z.of_nat k)).
Proof.
  induction k as [|k IH]; intros Hk.
  - split; [reflexivity|]. intros b Hb. rewrite bool_decide_eq_false_2 by lia. unfold Fs.bit_clear, bitmap. simpl foldl.
    fold zeros. rewrite byte_at_zeros. reflexivity.
  - destruct IH as [Hl IH]; [lia|]. rewrite bitmap_S. split; [by rewrite length_set_bit|]. intros b Hb.
    rewrite bit_clear_set by (done || (change BPB with 4096; lia)). rewrite IH by done.
    case_decide; [by rewrite bool_decide_eq_true_2 by lia|]. f_equal. apply bool_decide_ext. lia.
Qed.

Lemma bitmap_used v n : 59 ≤ n ≤ 1000 → v 58 = bitmap n → length (v 58) = BSIZE ∧ ∀ b, 0 ≤ b < 1000 → used v b = bool_decide (b < n).
Proof.
  intros Hn Hv. destruct (bitmap_bits (Z.to_nat n) ltac:(lia)) as [Hl Hb]. rewrite Z2Nat.id in Hl, Hb by lia.
  split; [by rewrite Hv|]. intros b Hbr. unfold FsThm.used. rewrite demo_bmap, Hv by done.
  rewrite Z.mod_small by (change BPB with 4096; lia). rewrite Hb by done. by rewrite negb_involutive.
Qed.

Lemma get16_zeros i : get16 zeros i = 0.
Proof. unfold get16. by rewrite !byte_at_zeros. Qed.

Lemma zeroed_image s :
  isize s = 1000 → msb s = sup → freeinode s = 1 → freeblock s = 59 →
  (∀ b, img s b = if decide (b = 1) then hput_sb false (replicate BSIZE 0) sup else zeros) →
  image [] s (upd (img s) 58 (bitmap 59)).
Proof.
  intros H1 H2 H3 H4 Himg. set (v := upd (img s) 58 (bitmap 59)).
  destruct (bitmap_used v 59) as [Hlen Hused]; [lia|apply upd_eq|].
  assert (∀ b, b ≠ 58 → v b = img s b) as Hv by (intros b Hb; by apply upd_ne).
  assert (∀ b, b ≠ 1 → b ≠ 58 → v b = zeros) as Hz by (intros b Hb Hb'; rewrite Hv, Himg by done; by rewrite decide_False).
  clearbody v. split; [| | |by intros i f Hi|by intros i f Hi|by intros i j b [f Hi]| |].
  - split; [exact H1|exact H2|exact Hv| |rewrite H4; exact Hused|rewrite H4; intros b Hb; apply Hz; lia|rewrite H4; lia].
    split.
    + rewrite Hv, Himg, decide_True by done. vm_compute. reflexivity.
    + intros b _. destruct (decide (b = 58)) as [->|]; [done|]. rewrite Hv, Himg by done.
      case_decide; [vm_compute; reflexivity|reflexivity].
    + intros b Hb. rewrite Hused by lia. apply bool_decide_eq_true_2. lia.
  - exact H3.
  - exact H4.
  - intros n Hn _. unfold FsThm.disk_inode. pose proof (inode_block_at n Hn). rewrite Hz by lia. simpl. by rewrite get16_zeros.
  - intros b Hb. apply Hz; lia.
Qed.

Definition zeroed s : st := set_freeblock nmeta (set_msb (super false) s).

Lemma wp_zero_image (Q : unit → st → Prop) :
  (∀ s, isize s = 1000 → msb s = sup → freeinode s = 1 → freeblock s = 59 → (∀ b, img s b = zeros) → Q tt s) →
  wp (kfor (Z.of_nat <$> seq 0 (Z.to_nat FSSIZE)) (λ i, wsect i zeroes)) (zeroed start) Q.
Proof.
  intros HQ. change (Z.to_nat FSSIZE) with 1000%nat.
  apply (wp_for_split (λ pre s, isize s = Z.of_nat (length pre) ∧ msb s = sup ∧ freeinode s = 1 ∧ freeblock s = 59 ∧
    ∀ b, img s b = zeros)).
  - split; [reflexivity|]. split; [cbn; apply image_super|]. done.
  - intros pre x post s He (H1 & H2 & H3 & H4 & H5).
    assert ((Z.of_nat <$> seq 0 1000) !! length pre = Some x) as Hx by (rewrite He; by apply list_lookup_middle).
    apply list_lookup_fmap_Some in Hx as (k & -> & Hk). apply lookup_seq in Hk as [-> Hk]. apply wp_wsect; [lia|].
    cbn [isize msb freeinode freeblock img wrote_sect set_img]. rewrite length_app. cbn [length]. split; [lia|].
    split; [done|]. split; [done|]. split; [done|]. intros b. unfold upd. by case_decide.
  - intros s (H1 & H2 & H3 & H4 & H5). apply HQ; done.
Qed.

(** Rounding the size of the root directory up shows zeros. *)
Lemma pad_reads v d c :
  let k := Z.to_nat (512 - d_size d mod 512) in
  reads v d c → d_size d mod 512 ≠ 0 → d_size d < 6144 → reads v (set_dsize (d_size d + Z.of_nat k) d) (c ++ replicate k 0).
Proof.
  intros k R Hm Hmax. set (z := d_size d + Z.of_nat k). pose proof (do_size d (f_dinode _ _ _ _ (re_file _ _ _ R))) as Hs. unfold uint in Hs.
  pose proof (Z.div_mod (d_size d) 512 ltac:(lia)). pose proof (Z.mod_pos_bound (d_size d) 512 ltac:(lia)).
  assert (z = (d_size d / 512 + 1) * 512) as Hz by lia. pose proof (re_file _ _ _ R) as F.
  assert (∀ bn, 0 ≤ bn → bn * 512 < z → baddr v d bn ≠ 0) as Hb.
  { intros bn Hbn Hlt. apply (f_mapped _ _ _ _ F); [done|]. change (Z.of_nat BSIZE) with 512. lia. }
  split; cbn [d_size set_dsize].
  - apply file_ok_size; [done|lia|done].
  - rewrite (content_splice v d v _ (d_size d) (replicate k 0)).
    + rewrite (re_content _ _ _ R). pose proof (reads_size _ _ _ R). unfold splice. rewrite take_ge, drop_ge by lia. by rewrite app_nil_r.
    + lia.
    + rewrite length_replicate. cbn [d_size set_dsize]. lia.
    + rewrite length_replicate. intros o Ho. change (fbyte v (set_dsize z d) o) with (fbyte v d o). case_decide; [|done].
      cbn [d_size set_dsize] in Ho. rewrite (re_tail _ _ _ R); [|lia|].
      * unfold byte_at. by rewrite lookup_replicate_2 by lia.
      * apply Hb; [apply Z.div_pos; lia|]. pose proof (Z.mul_div_le o 512 ltac:(lia)). lia.
  - intros bn Hbn Hge. apply (re_bare _ _ _ R); [done|lia].
  - intros _. apply (re_ind _ _ _ R). lia.
  - intros o Ho Hne. exfalso. apply Hne, (re_bare _ _ _ R); [apply Z.div_pos; lia|].
    pose proof (Z.div_le_mono z o 512 ltac:(lia) ltac:(lia)) as Hq. rewrite Hz, Z.div_mul in Hq by lia. lia.
Qed.

Lemma wp_fix_root fl s v c :
  let k := (512 - length c mod 512)%nat in
  image ((T_DIR, c) :: fl) s v → (length c mod 512 ≠ 0)%nat → Z.of_nat (length c) < 6144 → (length fl < 199)%nat →
  wp (fix_root false ROOTINO) s (λ _ s', ∃ v', image ((T_DIR, c ++ replicate k 0) :: fl) s' v').
Proof.
  intros k I Hm Hmax Hlen. pose proof (im_view _ _ _ I) as V. pose proof (im_file _ _ _ I 0%nat _ eq_refl) as R. cbn [snd] in R.
  set (d := disk_inode v (ino 0)) in *. pose proof (reads_size _ _ _ R) as Hsz.
  assert (d_size d mod 512 = Z.of_nat (length c mod 512)) as Hsm by (rewrite Hsz, Nat2Z.inj_mod; done).
  pose proof (Nat.mod_upper_bound (length c) 512 ltac:(lia)).
  assert (Z.to_nat (512 - d_size d mod 512) = k) as Hk by (rewrite Hsm; unfold k; lia).
  pose proof (pad_reads v d c R) as Rp. cbv zeta in Rp. rewrite Hk in Rp. specialize (Rp ltac:(lia) ltac:(lia)).
  pose proof (Z.div_mod (d_size d) 512 ltac:(lia)).
  unfold fix_root. apply wp_bind, (wp_rinode s v); [done|unfold ROOTINO; lia|]. change (disk_inode v ROOTINO) with d. cbv zeta.
  rewrite (xint_id (d_size d)) by (unfold uint; lia). change (Z.of_nat BSIZE) with 512.
  assert (u32 ((d_size d / 512 + 1) * 512) = d_size d + Z.of_nat k) as -> by (rewrite u32_id; unfold uint, k; lia).
  rewrite xint_id by (unfold uint, k; lia). apply (wp_winode s v); [done|unfold ROOTINO; lia|]. intros s' V' Hfb Hfi.
  exists (store_inode v ROOTINO (set_dsize (d_size d + Z.of_nat k) d)).
  pose proof (stored_image _ s v 0 (T_DIR, c) (replicate k 0) I eq_refl ltac:(simpl; lia) s s' v d) as Hst.
  rewrite length_replicate in Hst. apply Hst; [|exact V'|done|done].
  split; try done; rewrite ?length_replicate; [exact Rp|apply grown_kept, grown_refl|].
  fold d. assert (cost (d_size d + Z.of_nat k) = cost (d_size d)) as ->; [|lia].
  unfold cost. rewrite !decide_False by lia.
  rewrite <-(Z.div_unique (d_size d + Z.of_nat k + 511) 512 (d_size d / 512 + 1) 511) by lia.
  rewrite <-(Z.div_unique (d_size d + 511) 512 (d_size d / 512 + 1) (d_size d mod 512 - 1)) by lia. done.
Qed.

(** Writing the map of the blocks in use. *)
Lemma wp_write_map fl s v : image fl s v → (length fl < 200)%nat → wp (balloc (freeblock s)) s (λ _ s', image fl s' (img s')).
Proof.
  intros I Hlen. pose proof (im_view _ _ _ I) as V. pose proof V as [V1 V2 V3 V4 V5 V6 V7].
  unfold balloc. apply wp_bind, wp_assert; [apply bool_decide_eq_true_2; change (Z.of_nat BSIZE) with 512; lia|].
  apply wp_bind, wp_gets. rewrite V2. change (sb_bmapstart sup) with 58. apply wp_wsect; [lia|].
  set (s' := wrote_sect s 58 (bitmap (freeblock s))). set (u := img s').
  assert (∀ b, b ≠ 58 → u b = v b) as Hu by (intros b Hb; unfold u; cbn; rewrite upd_ne, V3 by done; done).
  destruct (bitmap_used u (freeblock s) V7) as [Hl Hused]; [unfold u; cbn; by rewrite upd_eq|].
  assert (∀ n, 0 ≤ n < 200 → disk_inode u n = disk_inode v n) as Hd.
  { intros n Hn. unfold FsThm.disk_inode. pose proof (inode_block_at n Hn). by rewrite Hu by lia. }
  assert (∀ i f, fl !! i = Some f → disk_inode u (ino i) = disk_inode v (ino i) ∧
    reads u (disk_inode v (ino i)) f.2 ∧ owned u (disk_inode v (ino i)) = owned v (disk_inode v (ino i))) as Hold.
  { intros i f Hi. split; [apply Hd, (ino_range fl); eauto|]. apply reads_frame; [by apply (im_file _ _ _ I)|]. intros a Ha.
    pose proof (owned_below s v _ a V (re_file _ _ _ (im_file _ _ _ I i f Hi)) Ha).
    rewrite Hu, Hused by lia. split; [done|]. apply bool_decide_eq_true_2. lia. }
  assert (view s' u) as V'.
  { split; cbn [isize msb freeblock s' wrote_sect set_img]; try done; [lia| |].
    - destruct V4 as [F1 F2 F3]. split; [by rewrite Hu| |].
      + intros b Hb. destruct (decide (b = 58)) as [->|]; [done|]. rewrite Hu by done. by apply F2.
      + intros b Hb. rewrite Hused by lia. apply bool_decide_eq_true_2. lia.
    - intros b Hb. rewrite Hu by lia. by apply V6. }
  split; [done|apply I|apply I| | | | |].
  - intros i f Hi. by destruct (Hold i f Hi) as (-> & ? & _).
  - intros i f Hi. destruct (Hold i f Hi) as (-> & _ & _). by apply (im_kind _ _ _ I).
  - intros i j b [f Hi] [g Hj] Hne. destruct (Hold i f Hi) as (-> & _ & ->), (Hold j g Hj) as (-> & _ & ->). apply (im_apart _ _ _ I); eauto.
  - intros n Hn Hr. rewrite Hd by done. by apply (im_rest _ _ _ I).
  - intros b Hb. rewrite Hu by lia. by apply (im_log _ _ _ I).
Qed.

(** ** The root directory *)

Definition entries (names : list (list Z)) : list (list Z) :=
  dot_dirent false ROOTINO [46] :: dot_dirent false ROOTINO [46; 46] ::
  imap (λ k name, file_dirent false (2 + Z.of_nat k) name) names.

Lemma file_dirent_make n name : 0 ≤ n < 2 ^ 16 → file_dirent false n name = make_dirent (replicate 16 0) name n.
Proof. intros Hn. unfold file_dirent, zero_dirent. rewrite xshort_id by done. reflexivity. Qed.

Lemma entries_length names de : de ∈ entries names → length de = 16%nat.
Proof.
  intros [->|[->|[k Hk]%list_elem_of_lookup]%elem_of_cons]%elem_of_cons; [done|done|].
  rewrite list_lookup_imap in Hk. apply fmap_Some in Hk as (name & _ & ->). reflexivity.
Qed.

Lemma entries_snoc names name :
  entries (names ++ [name]) = entries names ++ [file_dirent false (2 + Z.of_nat (length names)) name].
Proof. unfold entries. rewrite imap_app. simpl. by rewrite Nat.add_0_r. Qed.

Lemma concat_length16 (des : list (list Z)) :
  (∀ de, de ∈ des → length de = 16%nat) → length (concat des) = (16 * length des)%nat.
Proof.
  induction des as [|de des IH]; intros H; [done|]. cbn [concat length]. rewrite length_app, IH, H; [lia|by left|].
  intros x Hx. apply H. by right.
Qed.

Lemma dents_snoc c de : (length c mod 16 = 0)%nat → length de = 16%nat → dents (c ++ de) = dents c ++ [de].
Proof.
  intros Hm Hde. pose proof (Nat.div_mod_eq (length c) 16) as Hdm.
  pose proof (dents_splice c (length c / 16) de Hm ltac:(lia) Hde) as Hs. rewrite decide_False in Hs by lia.
  rewrite <-Hs. f_equal. unfold splice. rewrite take_ge, drop_ge by lia. by rewrite app_nil_r.
Qed.

Lemma dents_concat des : (∀ de, de ∈ des → length de = 16%nat) → dents (concat des) = des.
Proof.
  induction des as [|de des IH] using rev_ind; intros H; [done|].
  assert (∀ x, x ∈ des → length x = 16%nat) as H' by (intros x Hx; apply H, elem_of_app; by left).
  rewrite concat_app. cbn [concat]. rewrite app_nil_r. rewrite dents_snoc, IH; [done|done| |].
  - rewrite concat_length16 by done. rewrite Nat.mul_comm. apply Nat.Div0.mod_mul.
  - apply H, elem_of_app. right. by apply list_elem_of_singleton.
Qed.

(** The zeros behind the entries name nothing. *)
Lemma dir_lookup_zeros des k n : (∀ de, de ∈ des → length de = 16%nat) → (k mod 16 = 0)%nat →
  dir_lookup (concat des ++ replicate k 0) n = dir_lookup (concat des) n.
Proof.
  intros H Hk. pose proof (Nat.div_mod_eq k 16) as Hdm. set (m := (k / 16)%nat) in *.
  assert (concat des ++ replicate k 0 = concat (des ++ replicate m (replicate 16 0))) as ->.
  { rewrite concat_app. f_equal. rewrite Hdm, Hk, Nat.add_0_r. clear Hdm. induction m as [|m IH]; [done|].
    replace (16 * S m)%nat with (16 + 16 * m)%nat by lia. rewrite replicate_add, IH. done. }
  unfold dir_lookup. rewrite !dents_concat; [|done|].
  - f_equal. destruct (list_find (matches n) des) as [[j x]|] eqn:Hf; [by apply list_find_app_l|].
    rewrite list_find_app_r by done. assert (list_find (matches n) (replicate m (replicate 16 0)) = None) as ->; [|done].
    apply list_find_None, Forall_replicate. by intros [? _].
  - intros de [Hde|[-> _]%elem_of_replicate]%elem_of_app; [by apply H|done].
Qed.

Lemma zero_name : bytes (de_name (replicate 16 0)).
Proof. apply (bool_decide_eq_true_1 (Forall _ _)). vm_compute. reflexivity. Qed.

Lemma dot_name : cname DIRSIZ (de_name (dot_dirent false ROOTINO [46])) = [46].
Proof. vm_compute. reflexivity. Qed.

Lemma dots_name : cname DIRSIZ (de_name (dot_dirent false ROOTINO [46; 46])) = [46; 46].
Proof. vm_compute. reflexivity. Qed.

Definition name_ok (name : list Z) : Prop :=
  bytes name ∧ cname DIRSIZ name ≠ [] ∧ cname DIRSIZ name ≠ [46] ∧ cname DIRSIZ name ≠ [46; 46].

Lemma entries_find names k name :
  Forall name_ok names → NoDup (cname DIRSIZ <$> names) → (length names ≤ 198)%nat → names !! k = Some name →
  dir_lookup (concat (entries names)) name = Some (ino (S k)).
Proof.
  intros Hok Hnd Hlen Hk. unfold dir_lookup. rewrite dents_concat by apply entries_length.
  assert (∀ j nm, names !! j = Some nm → let de := file_dirent false (2 + Z.of_nat j) nm in
    de_inum de = ino (S j) ∧ cname DIRSIZ (de_name de) = cname DIRSIZ nm) as Hde.
  { intros j nm Hj de. pose proof (lookup_lt_Some _ _ _ Hj). unfold de. rewrite file_dirent_make by lia.
    destruct (make_dirent_spec (replicate 16 0) nm (2 + Z.of_nat j) zero_name) as (_ & H1 & H2); [|lia|].
    - rewrite Forall_lookup in Hok. by apply (Hok j).
    - split; [rewrite H1; unfold ino; lia|done]. }
  assert (list_find (matches name) (entries names) = Some (S (S k), file_dirent false (2 + Z.of_nat k) name)) as ->.
  - rewrite Forall_lookup in Hok. destruct (Hok k name Hk) as (_ & _ & Hdot & Hdots). apply list_find_Some. split_and!.
    + change (imap (λ k name, file_dirent false (2 + Z.of_nat k) name) names !! k = Some (file_dirent false (2 + Z.of_nat k) name)).
      by rewrite list_lookup_imap, Hk.
    + destruct (Hde k name Hk) as [H1 H2]. split; [rewrite H1; unfold ino; lia|done].
    + intros [|[|j]] y Hy Hj [_ Hm].
      * apply (inj Some) in Hy. subst y. apply Hdot. by rewrite <-Hm, dot_name.
      * apply (inj Some) in Hy. subst y. apply Hdots. by rewrite <-Hm, dots_name.
      * change (imap (λ k name, file_dirent false (2 + Z.of_nat k) name) names !! j = Some y) in Hy.
        rewrite list_lookup_imap in Hy. apply fmap_Some in Hy as (nm & Hnm & ->). destruct (Hde j nm Hnm) as [_ H2].
        assert (j = k); [|lia]. apply (NoDup_lookup _ j k (cname DIRSIZ name) Hnd); rewrite list_lookup_fmap; [rewrite Hnm|by rewrite Hk].
        cbn [fmap option_fmap option_map]. by rewrite <-H2, Hm.
  - simpl. f_equal. by destruct (Hde k name Hk).
Qed.

(** ** Adding the files *)

Section files.
Context (host : list Z → option (list (list Z))).

(** What a file of the host holds. *)
Definition host_content (arg : list Z) : list Z := concat (default [] (host arg)).

(** The files of the image for the arguments, before the size of the root is fixed. *)
Definition files_of (args : list (list Z)) : list (Z * list Z) :=
  (T_DIR, concat (entries (skip_underscore <$> args))) :: ((λ a, (T_FILE, host_content a)) <$> args).

(** What mkfs relies on: files that can be opened, names without slashes, and
    room in the inodes and blocks of the image. *)
Record args_fit (args : list (list Z)) : Prop := {
  af_open a : a ∈ args → is_Some (host a) ∧ (SLASH ∉ a) ∧ Z.of_nat (length (host_content a)) ≤ MAXFILE * 512;
  af_count : (length args ≤ 198)%nat;
  af_total : total (files_of args) ≤ nblocks;
}.

Lemma entries_size names : length (concat (entries names)) = (16 * (2 + length names))%nat.
Proof. rewrite concat_length16 by apply entries_length. unfold entries. cbn [length]. by rewrite length_imap. Qed.

Lemma files_of_snoc args arg :
  files_of (args ++ [arg]) =
  (T_DIR, concat (entries (skip_underscore <$> args)) ++ file_dirent false (ino (S (length args))) (skip_underscore arg)) ::
  ((λ a, (T_FILE, host_content a)) <$> args) ++ [(T_FILE, host_content arg)].
Proof.
  unfold files_of. rewrite !fmap_app. cbn [fmap list_fmap]. rewrite entries_snoc, length_fmap, concat_app. cbn [concat].
  rewrite app_nil_r. replace (2 + Z.of_nat (length args)) with (ino (S (length args))) by (unfold ino; lia). done.
Qed.

Lemma total_prefix args more : total (files_of args) ≤ total (files_of (args ++ more)).
Proof.
  unfold files_of. rewrite !fmap_app. cbn [total foldr snd]. fold (total ((λ a, (T_FILE, host_content a)) <$> args)).
  fold (total (((λ a, (T_FILE, host_content a)) <$> args) ++ ((λ a, (T_FILE, host_content a)) <$> more))).
  rewrite total_app. pose proof (total_pos ((λ a, (T_FILE, host_content a)) <$> more)).
  pose proof (cost_mono (Z.of_nat (length (concat (entries (skip_underscore <$> args)))))
    (Z.of_nat (length (concat (entries ((skip_underscore <$> args) ++ (skip_underscore <$> more))))))) as Hc.
  rewrite !entries_size, length_app in Hc |- *. lia.
Qed.

Lemma af_prefix args more : args_fit (args ++ more) → args_fit args.
Proof.
  intros [H1 H2 H3]. split.
  - intros a Ha. apply H1, elem_of_app. by left.
  - rewrite length_app in H2. lia.
  - pose proof (total_prefix args more). lia.
Qed.

(** The reads of one file, each appended. *)
Lemma wp_reads fl s v reads : ∀ c,
  image (fl ++ [(T_FILE, c)]) s v → (length fl < 199)%nat → Z.of_nat (length (c ++ concat reads)) ≤ 71680 →
  total (fl ++ [(T_FILE, c ++ concat reads)]) ≤ 941 →
  wp (kfor reads (iappend false (ino (length fl)))) s (λ _ s', ∃ v', image (fl ++ [(T_FILE, c ++ concat reads)]) s' v').
Proof.
  revert s v. induction reads as [|r reads IH]; intros s v c I Hlen Hmax Hroom; cbn [kfor concat] in *.
  - rewrite app_nil_r. apply wp_ret. by exists v.
  - rewrite app_assoc in Hmax, Hroom |- *. rewrite length_app in Hmax. rewrite total_app in Hroom. cbn [total foldr snd] in Hroom.
    assert (∀ y : Z * list Z, <[length fl := y]> (fl ++ [(T_FILE, c)]) = fl ++ [y]) as Hins.
    { intros y. rewrite insert_app_r_alt by lia. by rewrite Nat.sub_diag. }
    pose proof (cost_mono (Z.of_nat (length (c ++ r))) (Z.of_nat (length ((c ++ r) ++ concat reads)))
      ltac:(rewrite (length_app (c ++ r)); lia)) as Hc. apply wp_bind.
    eapply wp_mono; [apply (wp_iappend _ s v (length fl) (T_FILE, c) r I)|].
    + by apply list_lookup_middle.
    + rewrite length_app. simpl. lia.
    + cbn [snd]. lia.
    + rewrite Hins, total_app. cbn [total foldr fst snd]. lia.
    + rewrite Hins. cbn [fst snd]. intros _ s1 [v1 I1]. apply (IH s1 v1); [done|done|rewrite length_app; lia|].
      rewrite total_app. cbn [total foldr snd]. lia.
Qed.

Lemma wp_add_file s v args arg :
  image (files_of args) s v → args_fit (args ++ [arg]) →
  wp (add_file false host ROOTINO arg) s (λ _ s', ∃ v', image (files_of (args ++ [arg])) s' v').
Proof.
  intros I Hfit. pose proof Hfit as [H1 H2 H3]. destruct (H1 arg) as ([reads Hr] & Hsl & Hmax); [set_solver|].
  rewrite length_app in H2. cbn [length] in H2. change nblocks with 941 in H3. change (MAXFILE * 512) with 71680 in Hmax.
  rewrite files_of_snoc in H3 |- *. set (dir := concat (entries (skip_underscore <$> args))) in *.
  assert (host_content arg = concat reads) as Hc by (unfold host_content; by rewrite Hr). rewrite Hc in *.
  set (fs := (λ a, (T_FILE, host_content a)) <$> args) in *. assert (length fs = length args) as Hfs by apply length_fmap.
  assert (length (files_of args) = S (length args)) as Hlen by (unfold files_of; cbn [length]; by rewrite length_fmap).
  assert (length dir = 16 * (2 + length args))%nat as Hdir by (unfold dir; by rewrite entries_size, length_fmap).
  cbn [total foldr snd] in H3. fold (total (fs ++ [(T_FILE, concat reads)])) in H3. rewrite total_app in H3. cbn [total foldr snd] in H3.
  unfold add_file. apply wp_bind, wp_assert; [by apply bool_decide_eq_true_2|]. rewrite Hr.
  apply wp_bind. eapply wp_mono; [apply (wp_ialloc (files_of args) s v T_FILE I); [lia|done]|].
  intros n s1 [-> [v1 I1]]. rewrite Hlen in *. change ROOTINO with (ino 0). set (de := file_dirent false _ _) in *.
  assert (length de = 16%nat) as Hde by (unfold de; by rewrite file_dirent_make by (unfold ino; lia)).
  pose proof (cost_pos (Z.of_nat (length (concat reads))) ltac:(lia)).
  apply wp_bind. eapply wp_mono; [apply (wp_iappend _ s1 v1 0 (T_DIR, dir) de I1 eq_refl)|].
  - rewrite length_app, Hlen. simpl. lia.
  - cbn [snd]. rewrite length_app, Hde, Hdir. lia.
  - cbn [files_of app insert list_insert total foldr fst snd]. fold fs. fold (total (fs ++ [(T_FILE, @nil Z)])). rewrite total_app.
    change (total [(T_FILE, @nil Z)]) with 0. lia.
  - intros _ s2 [v2 I2]. cbn [files_of app insert list_insert fst snd] in I2. fold fs dir in I2.
    change ((T_DIR, dir ++ de) :: fs ++ [(T_FILE, [])]) with (((T_DIR, dir ++ de) :: fs) ++ [(T_FILE, [])]) in I2.
    rewrite <-Hfs. change (S (length fs)) with (length ((T_DIR, dir ++ de) :: fs)).
    apply (wp_reads ((T_DIR, dir ++ de) :: fs) s2 v2 reads []); [done|cbn [length]; lia|cbn [app]; lia|].
    cbn [app total foldr snd]. fold (total (fs ++ [(T_FILE, concat reads)])). rewrite total_app. cbn [total foldr snd]. lia.
Qed.
End files.
