(* ===== verification/MkfsSpec.v ===== *)
(** * What a kernel finds on the image of mkfs

    [main] of mkfs.c as a whole: the image it leaves, and a kernel that looks a
    file up and reads it there. *)

From S2P Require Import Prelude CString Bio Log Blocks Fs FsThm FsDir FsSpec File FileThm Exec ExecThm ExecFs Mkfs MkfsThm.
Import Mkfs.

Local Open Scope Z_scope.

#[local] Existing Instances image_ops image_layer.
Local Abbreviation sup := demo_super.
Implicit Types (v : Z → block) (s : st).

(** The root directory as it is at the end, its size rounded up. *)
Definition root_file (args : list (list Z)) : Z * list Z :=
  let c := concat (entries (skip_underscore <$> args)) in
  (T_DIR, c ++ replicate (512 - length c mod 512) 0).

Definition image_files (host : list Z → option (list (list Z))) (args : list (list Z)) : list (Z * list Z) :=
  root_file args :: ((λ a, (T_FILE, host_content host a)) <$> args).

Section main.
Context (host : list Z → option (list (list Z))) (prog out : list Z) (args : list (list Z)).
Context (Hfit : args_fit host args).

(** Up to the last file. *)
Lemma wp_main_files (k : Z → kM st unit) (Q : unit → st → Prop) :
  (∀ s v, image (files_of host args) s v → wp (k ROOTINO) s Q) →
  wp (kmodify (set_msb (super false)) ;;
      kmodify (set_freeblock nmeta) ;;
      kfor (Z.of_nat <$> seq 0 (Z.to_nat FSSIZE)) (λ i, wsect i zeroes) ;;
      wsect 1 (hput_sb false (replicate BSIZE 0%Z) (super false)) ;;
      rootino ← ialloc false T_DIR;
      kassert (bool_decide (rootino = ROOTINO)) "rootino == ROOTINO" ;;
      iappend false rootino (dot_dirent false rootino [46%Z]) ;;
      iappend false rootino (dot_dirent false rootino [46%Z; 46%Z]) ;;
      kfor args (add_file false host rootino) ;; k rootino)%kern start Q.
Proof.
  intros Hk. apply wp_bind, wp_modify. apply wp_bind, wp_modify. apply wp_bind. apply wp_zero_image.
  intros s H1 H2 H3 H4 H5. apply wp_bind, wp_wsect; [lia|]. rewrite image_super. set (s1 := wrote_sect s 1 _).
  assert (image [] s1 (upd (img s1) 58 (bitmap 59))) as I0.
  { apply zeroed_image; [cbn; lia|exact H2|exact H3|exact H4|]. intros b. cbn [img s1 wrote_sect set_img]. unfold upd.
    case_decide; [done|apply H5]. }
  clearbody s1. apply wp_bind. eapply wp_mono; [apply (wp_ialloc [] s1 _ T_DIR I0); [simpl; lia|done]|].
  intros n s2 [-> [v2 I2]]. change (ino (length [])) with ROOTINO. apply wp_bind, wp_assert; [done|].
  set (d1 := dot_dirent false ROOTINO [46]). set (d2 := dot_dirent false ROOTINO [46; 46]).
  assert (length d1 = 16%nat ∧ length d2 = 16%nat) as [L1 L2] by (split; vm_compute; reflexivity).
  assert (files_of host [] = [(T_DIR, (d1 ++ d2))]) as Hnil by (unfold files_of, entries; cbn [fmap list_fmap imap concat]; by rewrite app_nil_r).
  clearbody d1 d2.
  apply wp_bind. eapply wp_mono; [apply (wp_iappend _ s2 v2 0 (T_DIR, []) d1 I2 eq_refl)|].
  { simpl. lia. } { cbn [snd app]. rewrite L1. lia. } { cbn [insert list_insert total foldr fst snd app]. rewrite L1. by vm_compute. }
  intros _ s3 [v3 I3]. cbn [insert list_insert fst snd app] in I3.
  apply wp_bind. eapply wp_mono; [apply (wp_iappend _ s3 v3 0 (T_DIR, d1) d2 I3 eq_refl)|].
  { simpl. lia. } { cbn [snd]. rewrite length_app, L1, L2. lia. }
  { cbn [insert list_insert total foldr fst snd]. rewrite length_app, L1, L2. by vm_compute. }
  intros _ s4 [v4 I4]. cbn [insert list_insert fst snd] in I4. rewrite <-Hnil in I4. apply wp_bind.
  apply (wp_for_split (λ pre s, ∃ v, image (files_of host pre) s v)); [by exists v4| |intros s' [v' I']; by apply (Hk s' v')].
  intros pre x post s' He [v' I']. apply (wp_add_file host s' v'); [done|]. apply (af_prefix host _ post).
  rewrite <-app_assoc. simpl. by rewrite <-He.
Qed.

Lemma root_size : length (concat (entries (skip_underscore <$> args))) = (16 * (2 + length args))%nat.
Proof. by rewrite entries_size, length_fmap. Qed.

Lemma wp_main : ((2 + length args) mod 32 ≠ 0)%nat →
  wp (main false host (prog :: out :: args) true) start (λ _ s', image (image_files host args) s' (img s')).
Proof.
  intros Hm. pose proof (af_count _ _ Hfit) as Hc. unfold main. apply wp_bind, wp_assert; [done|]. apply (wp_main_files (λ rootino, fix_root false rootino ;; used ← kgets freeblock; balloc used)%kern).
  intros s v I. pose proof root_size as Hsz. assert (length (files_of host args) = S (length args)) as Hlen.
  { unfold files_of. cbn [length]. by rewrite length_fmap. }
  apply wp_bind. eapply wp_mono; [eapply (wp_fix_root _ s v); [exact I| | |]|].
  - rewrite Hsz. intros H0. apply Hm. change 512%nat with (16 * 32)%nat in H0. rewrite Nat.Div0.mul_mod_distr_l in H0. lia.
  - rewrite Hsz. lia.
  - rewrite length_fmap. lia.
  - intros _ s1 [v1 I1]. apply wp_bind, wp_gets. apply (wp_write_map _ s1 v1); [exact I1|]. change (S (length ((λ a, (T_FILE, host_content host a)) <$> args)) < 200)%nat. rewrite length_fmap. lia.
Qed.
End main.

(** ** The tree of the image *)

Lemma skip_underscore_in c arg : c ∈ skip_underscore arg → c ∈ arg.
Proof. destruct arg as [|x l]; [done|]. simpl. case_decide; [by right|done]. Qed.

Lemma split_slash_none name : SLASH ∉ name → split_slash name = [name].
Proof.
  induction name as [|c name IH]; intros Hn; [done|]. simpl. rewrite decide_False by (intros ->; apply Hn; by left).
  rewrite IH; [done|]. intros H. apply Hn. by right.
Qed.

Lemma elements_name name : SLASH ∉ name → name ≠ [] → elements (SLASH :: name) = [name].
Proof. intros Hs Hn. rewrite elements_slash. unfold elements. rewrite split_slash_none by done. by rewrite list.filter_cons_True. Qed.

Section tree.
Context (host : list Z → option (list (list Z))) (args : list (list Z)) (s : st).
Context (Hfit : args_fit host args) (Hok : Forall name_ok (skip_underscore <$> args)).
Context (I : image (image_files host args) s (img s)).
Let v : Z → block := img s.

Local Lemma image_length : length (image_files host args) = S (length args) ∧ (length args ≤ 198)%nat.
Proof. split; [|apply Hfit]. unfold image_files. cbn [length]. by rewrite length_fmap. Qed.

Local Lemma image_arg k a : args !! k = Some a → image_files host args !! S k = Some (T_FILE, host_content host a).
Proof. intros Hk. change (((λ a, (T_FILE, host_content host a)) <$> args) !! k = Some (T_FILE, host_content host a)). by rewrite list_lookup_fmap, Hk. Qed.

Local Lemma image_root : content v (disk_inode sup v ROOTINO) = (root_file args).2.
Proof. exact (re_content _ _ _ (im_file _ _ _ I 0%nat _ eq_refl)). Qed.

Lemma image_linked i : (i < length (image_files host args))%nat → linked sup v (ino i).
Proof.
  intros Hi. destruct image_length as [Hl Hc]. apply lookup_lt_is_Some in Hi as [f Hf].
  destruct (im_kind _ _ _ I i f Hf) as [Ht Hn]. pose proof (lookup_lt_Some _ _ _ Hf).
  split; [change (sb_ninodes sup) with 200; unfold ino; lia|]. fold v in Ht, Hn. rewrite Ht, Hn. split; [|done].
  destruct i as [|i]; [by injection Hf as <-|].
  change (((λ a, (T_FILE, host_content host a)) <$> args) !! i = Some f) in Hf. apply list_lookup_fmap_Some in Hf as (a & -> & _). done.
Qed.

Lemma entries_bytes : bytes (concat (entries (skip_underscore <$> args))).
Proof.
  unfold bytes. apply Forall_concat, list.Forall_forall. intros de [->|[->|Hde]%elem_of_cons]%elem_of_cons.
  - apply (bool_decide_eq_true_1 (Forall _ _)). vm_compute. reflexivity.
  - apply (bool_decide_eq_true_1 (Forall _ _)). vm_compute. reflexivity.
  - apply list_elem_of_lookup in Hde as [k Hk]. rewrite list_lookup_imap in Hk. apply fmap_Some in Hk as (name & Hn & ->).
    pose proof (lookup_lt_Some _ _ _ Hn) as Hlt. rewrite length_fmap in Hlt. pose proof (af_count _ _ Hfit).
    rewrite file_dirent_make by lia. apply bytes_make_dirent; [apply zero_name|]. rewrite Forall_lookup in Hok. by apply (Hok k).
Qed.

Lemma root_length : (length (root_file args).2 mod 16 = 0)%nat ∧
  ((512 - length (concat (entries (skip_underscore <$> args))) mod 512) mod 16 = 0)%nat.
Proof.
  assert ((512 - length (concat (entries (skip_underscore <$> args))) mod 512) mod 16 = 0)%nat as H2.
  { rewrite (root_size args). change 512%nat with (16 * 32)%nat at 2. rewrite Nat.Div0.mul_mod_distr_l.
    set (r := ((2 + length args) mod 32)%nat). replace (512 - 16 * r)%nat with ((32 - r) * 16)%nat by lia. apply Nat.Div0.mod_mul. }
  split; [|done]. unfold root_file. cbn [snd]. rewrite length_app, length_replicate, Nat.Div0.add_mod, H2, root_size.
  rewrite (Nat.mul_comm 16), Nat.Div0.mod_mul. done.
Qed.

Lemma image_lookup e m : dir_lookup (content v (disk_inode sup v ROOTINO)) e = Some m → linked sup v m.
Proof.
  rewrite image_root. unfold root_file. cbn [snd]. rewrite dir_lookup_zeros by (apply entries_length || apply root_length).
  unfold dir_lookup. rewrite dents_concat by apply entries_length.
  intros ([j de] & Hf & ->)%fmap_Some. apply list_find_Some in Hf as (Hj & _ & _). cbn [snd]. destruct image_length as [Hl Hc].
  destruct j as [|[|j]].
  - apply (inj Some) in Hj. subst de. apply (image_linked 0). lia.
  - apply (inj Some) in Hj. subst de. apply (image_linked 0). lia.
  - change (imap (λ k name, file_dirent false (2 + Z.of_nat k) name) (skip_underscore <$> args) !! j = Some de) in Hj.
    rewrite list_lookup_imap in Hj. apply fmap_Some in Hj as (name & Hn & ->).
    pose proof (lookup_lt_Some _ _ _ Hn) as Hlt. rewrite length_fmap in Hlt. rewrite file_dirent_make by lia.
    destruct (make_dirent_spec (replicate 16 0) name (2 + Z.of_nat j) zero_name) as (_ & -> & _); [|lia|].
    + rewrite Forall_lookup in Hok. by apply (Hok j).
    + replace (2 + Z.of_nat j) with (ino (S j)) by (unfold ino; lia). apply image_linked. lia.
Qed.

Lemma image_tree : tree_ok sup 59 v.
Proof.
  intros n (Hn & Ht & _) Hd. change (sb_ninodes sup) with 200 in Hn. destruct image_length as [Hl Hc].
  assert (n = ROOTINO) as ->.
  { destruct (decide (n = 0 ∨ ino (length (image_files host args)) ≤ n)) as [Hr|Hr]; [by destruct Ht; apply (im_rest _ _ _ I)|].
    destruct (decide (n = 1)) as [|Hne]; [done|]. exfalso. set (k := Z.to_nat (n - 2)).
    assert (n = ino (S k)) as He by (unfold k, ino in *; lia).
    destruct (lookup_lt_is_Some_2 args k) as [a Ha]; [unfold ino in *; lia|].
    destruct (im_kind _ _ _ I (S k) _ (image_arg k a Ha)) as [Ht2 _]. fold v in Ht2. rewrite <-He, Hd in Ht2. done. }
  pose proof (im_file _ _ _ I 0%nat _ eq_refl) as R. fold v in R. change (ino 0) with ROOTINO in R.
  pose proof (reads_size _ _ _ R) as Hsz. split; [|apply image_lookup].
  split; [apply R|done| |].
  - rewrite Hsz. destruct root_length as [Hm _]. change 16 with (Z.of_nat 16). rewrite <-Nat2Z.inj_mod. by rewrite Hm.
  - rewrite image_root. unfold root_file, bytes. cbn [snd]. apply Forall_app. split; [apply entries_bytes|].
    apply Forall_replicate. lia.
Qed.

Lemma image_walk k a :
  NoDup (cname DIRSIZ <$> (skip_underscore <$> args)) → args !! k = Some a →
  walk sup v false ROOTINO (elements (SLASH :: skip_underscore a)) = Some (ino (S k)).
Proof.
  intros Hnd Hk. destruct image_length as [_ Hc].
  assert ((skip_underscore <$> args) !! k = Some (skip_underscore a)) as Hk' by by rewrite list_lookup_fmap, Hk.
  pose proof Hok as Hok'. rewrite Forall_lookup in Hok'. destruct (Hok' k _ Hk') as (_ & Hne & _).
  rewrite elements_name; [| |intros He; apply Hne; by rewrite He].
  2: { intros Hs%skip_underscore_in. destruct (af_open _ _ Hfit a (list_elem_of_lookup_2 _ _ _ Hk)) as (_ & Hno & _). by apply Hno. }
  pose proof (proj1 (im_kind _ _ _ I 0%nat _ eq_refl)) as Ht. fold v in Ht. change (ino 0) with ROOTINO in Ht.
  cbn [walk andb]. rewrite decide_True by done. rewrite image_root. unfold root_file. cbn [snd].
  rewrite dir_lookup_zeros by (apply entries_length || apply root_length).
  rewrite (entries_find (skip_underscore <$> args) k (skip_underscore a)); [done|exact Hok|exact Hnd|by rewrite length_fmap|exact Hk'].
Qed.
End tree.

(** ** A kernel that boots from the image *)

(** The cache holds the root directory, not read in yet. *)
Definition kernel_on (v : Z → block) : Fs.st :=
  Fs.St (disk_log v 0) sup (Inode ROOTDEV ROOTINO 1 false false (Dinode 0 0 0 0 0 (replicate 13 0)) :: replicate 49 empty_inode) [].

(** Opens [path] and reads [n] bytes, the way exec does. *)
Definition read_path (path : list Z) (n : Z) : kM (Fs.st (S:=Log.st)) (option (Z * list Z)) :=
  (kzoom Fs.blkl Log.begin_op ;;
   o ← Fs.namei no_read 0 path (replicate DIRSIZ 0);
   match o with
   | None => kret None
   | Some ip =>
     Fs.ilock ip ;;
     r ← Fs.readi no_read ip 0 n;
     Fs.iunlockput ip ;;
     kzoom Fs.blkl (Log.end_op 1000) ;;
     kret (Some r)
   end)%kern.

Lemma kernel_irel v t : log_tx 1000 2 30 v [] 1 ∅ ∅ ∅ v t →
  irel (BlockLayer0 := log_blocks 1000 2 30 v [] 1) sup ∅ v {[ROOTINO := 0%nat]} (ISpec {[ROOTINO := 1]} ∅) (Fs.set_blk t (kernel_on v)).
Proof.
  intros Ht. split; cbn [irefs ilocked].
  - exact Ht.
  - reflexivity.
  - reflexivity.
  - by rewrite !dom_singleton_L.
  - apply empty_subseteq.
  - intros n i [<- <-]%lookup_singleton_Some. eexists _, 1. split; [reflexivity|]. split; [apply lookup_singleton_eq|].
    split; cbn [iref idev inum ibusy ivalid idata].
    + lia.
    + change (sb_ninodes demo_super) with 200. unfold ROOTINO. lia.
    + by rewrite bool_decide_eq_false_2 by apply not_elem_of_empty.
    + done.
    + by intros ?%not_elem_of_empty.
  - intros [|i] x; cbn [Fs.inodes Fs.set_blk kernel_on lookup list_lookup].
    + intros _ Hno. destruct (Hno ROOTINO). apply lookup_singleton_eq.
    + by intros [-> _]%lookup_replicate _.
Qed.

Section boot.
Context (v : Z → block) (path c : list Z) (m : Z).
Context (Hfs : fs_ok sup 59 v) (Htree : tree_ok sup 59 v) (Hroot : linked sup v ROOTINO).
Context (Hpath : head path = Some SLASH) (Hwalk : walk sup v false ROOTINO (elements path) = Some m).
Context (Hfile : reads v (disk_inode sup v m) c) (Htype : d_type (disk_inode sup v m) = T_FILE).
Context (Hlog : v 2 = zeros).

Lemma boot_idle : phase_ok 1000 2 30 sup 59 path {[ROOTINO := 0%nat]} (ISpec {[ROOTINO := 1]} ∅) ROOTINO (Some c) (kernel_on v) Idle.
Proof.
  apply (ok_idle _ _ _ _ _ _ _ _ _ _ _ v [] v).
  - split; [exact Hfs|exact Htree|exact Hroot|exact Hroot|]. unfold ExecFs.start. rewrite decide_True by done. rewrite Hwalk.
    split; [apply Hfile|]. split; [by rewrite Htype|]. f_equal. symmetry. apply Hfile.
  - apply disk_log_ok; [rewrite Hlog; vm_compute; reflexivity|rewrite Hlog; reflexivity|done].
  - intros t Ht. by apply kernel_irel.
Qed.

Lemma boot_read n : 0 ≤ n < 2 ^ 32 → wp (read_path path n) (kernel_on v) (λ r _, r = Some (read_at c 0 n)).
Proof.
  intros Hn. set (PF := fs_program 1000 2 30 sup 59 no_read no_write demo_open_layout (replicate DIRSIZ 0) path eq_refl
    {[ROOTINO := 0%nat]} (ISpec {[ROOTINO := 1]} ∅) demo_room ROOTINO 0 (lookup_singleton_eq _ _) ltac:(by rewrite !dom_singleton_L)
    ltac:(vm_compute; lia) (Some c)).
  unfold read_path. apply wp_bind. eapply wp_mono; [apply (pf_begin 1000 (ProgramFs := PF)), boot_idle|].
  intros [] s1 H1. apply wp_bind. eapply wp_mono; [by apply (pf_namei 1000 (ProgramFs := PF))|].
  intros o s2 (ip & -> & H2). apply wp_bind. eapply wp_mono; [by apply (pf_ilock 1000 (ProgramFs := PF))|].
  intros [] s3 H3. apply wp_bind. eapply wp_mono; [by apply (pf_readi (ProgramFs := PF) ip s3 c 0 n)|].
  intros r s4 [-> H4]. apply wp_bind. eapply wp_mono; [by apply (pf_put 1000 (ProgramFs := PF))|].
  intros [] s5 H5. apply wp_bind. eapply wp_mono; [by apply (pf_end 1000 (ProgramFs := PF))|]. intros [] s6 _. by apply wp_ret.
Qed.
End boot.

(** C9: the image that mkfs writes on a little-endian host is a file system, and a kernel
    that boots from it finds the files. Given files that fit (198 of them at most, each
    within the size limit, and together within the data blocks), whose names without a
    leading underscore are distinct as directories keep them, not empty, "." or "..",
    and free of slashes and NULs, and not so many that the directory fills its last
    block, mkfs succeeds; the blocks marked in use are those of the files and of the
    metadata and no others; the super block, the free map, the inodes and the directory
    are as the kernel expects them; and looking a file up under its name and reading it
    gives the content it had on the host. *)
Theorem mkfs_bootable host prog out args :
  args_fit host args → ((2 + length args) mod 32 ≠ 0)%nat →
  Forall name_ok (skip_underscore <$> args) → NoDup (cname DIRSIZ <$> (skip_underscore <$> args)) →
  wp (main false host (prog :: out :: args) true) start (λ _ s,
    fs_ok sup 59 (img s) ∧ tree_ok sup 59 (img s) ∧
    (∀ b, 0 ≤ b < FSSIZE → used sup (img s) b = bool_decide (b < nmeta + total (image_files host args))) ∧
    ∀ a n, a ∈ args → 0 ≤ n < 2 ^ 32 →
      wp (read_path (SLASH :: skip_underscore a) n) (kernel_on (img s)) (λ r _, r = Some (read_at (host_content host a) 0 n))).
Proof.
  intros Hfit Hm Hok Hnd. eapply wp_mono; [by apply wp_main|]. intros [] s I. pose proof (im_view _ _ _ I) as V.
  pose proof (image_tree host args s Hfit Hok I) as Htree. split; [apply V|]. split; [done|]. split.
  - intros b Hb. rewrite (vi_used _ _ V) by done. rewrite (im_cost _ _ _ I). reflexivity.
  - intros a n [k Hk]%list_elem_of_lookup Hn. pose proof (image_arg host args k a Hk) as Hf.
    apply (boot_read _ _ _ (ino (S k))); try done.
    + apply V.
    + apply (image_linked host args s Hfit I 0). destruct (image_length host args Hfit). lia.
    + by apply (image_walk host args s Hfit Hok I).
    + exact (im_file _ _ _ I (S k) _ Hf).
    + exact (proj1 (im_kind _ _ _ I (S k) _ Hf)).
    + apply (im_log _ _ _ I). lia.
Qed.

(** Two files on the host, the first given as [_a], in two reads. *)
Definition demo_host (a : list Z) : option (list (list Z)) :=
  if decide (a = [95; 97]) then Some [[104; 101]; [108; 108; 111]] else if decide (a = [98]) then Some [] else None.
Definition demo_args : list (list Z) := [[95; 97]; [98]].

Lemma demo_args_fit : args_fit demo_host demo_args.
Proof.
  split.
  - intros a Ha. assert (a = [95; 97] ∨ a = [98]) as [->| ->].
    { apply elem_of_cons in Ha as [->|Ha]; [by left|]. apply list_elem_of_singleton in Ha as ->. by right. }
    + split; [by eexists|]. split; [|by vm_compute]. apply (bool_decide_eq_true_1 _). vm_compute. reflexivity.
    + split; [by eexists|]. split; [|by vm_compute]. apply (bool_decide_eq_true_1 _). vm_compute. reflexivity.
  - simpl. lia.
  - vm_compute. discriminate.
Qed.

Lemma mkfs_bootable_witness :
  ∃ s (s' : Fs.st), main false demo_host ([] :: [] :: demo_args) true start = Done tt s ∧ used sup (img s) 60 = true ∧ used sup (img s) 61 = false ∧
    read_path [SLASH; 97] 100 (kernel_on (img s)) = Done (Some (5, [104; 101; 108; 108; 111])) s'.
Proof.
  assert (Forall name_ok (skip_underscore <$> demo_args)) as Hok.
  { repeat constructor; try (apply (bool_decide_eq_true_1 _); vm_compute; reflexivity); vm_compute; discriminate. }
  assert (NoDup (cname DIRSIZ <$> (skip_underscore <$> demo_args))) as Hnd by (apply (bool_decide_eq_true_1 _); vm_compute; reflexivity).
  destruct (proj1 (wp_done _ _ _) (mkfs_bootable demo_host [] [] demo_args demo_args_fit ltac:(vm_compute; discriminate) Hok Hnd))
    as ([] & s & Hs & _ & _ & Hused & Hread).
  destruct (proj1 (wp_done _ _ _) (Hread [95; 97] 100 ltac:(by left) ltac:(lia))) as (r & s' & Hr & ->).
  exists s, s'. split; [exact Hs|]. rewrite !Hused by (unfold FSSIZE; lia).
  split; [vm_compute; reflexivity|]. split; [vm_compute; reflexivity|]. exact Hr.
Defined.

(** ** Where the image is not what the kernel expects *)

Definition thirty_files : list (list Z) := (λ k, [97 + Z.of_nat k]) <$> seq 0 30.

(** Mkfs rounds the size of the root directory up by a whole block even if the
    entries fill the last one. With 30 files the directory ends in a block that
    was never allocated: a kernel that reads it outside of a transaction, as
    [read] on the directory does, tries to allocate the block and panics. *)
Theorem mkfs_hole_panics :
  wp (main false (λ _, Some []) ([] :: [] :: thirty_files) true) start (λ _ s,
    d_size (disk_inode sup (img s) ROOTINO) = 1024 ∧ baddr (img s) (disk_inode sup (img s) ROOTINO) 1 = 0 ∧
    (Fs.ilock 0 ;; Fs.readi no_read 0 512 16)%kern (kernel_on (img s)) = Panic "log_write outside of trans").
Proof. vm_compute. split; [reflexivity|]. split; reflexivity. Qed.

(** On a host that stores the high byte of a word first the inodes and the free map
    are written to the wrong blocks: the block numbers in [sb] have been converted
    to Intel byte order already when they are used. mkfs reports success, and the
    image has no root directory and an empty map. *)
Theorem mkfs_big_endian :
  wp (main true (λ _, Some []) ([] :: [] :: []) true) start (λ _ s,
    parse_sb (img s 1) = sup ∧ d_type (disk_inode sup (img s) ROOTINO) = 0 ∧ img s 58 = zeros).
Proof. vm_compute. split; [reflexivity|]. split; reflexivity. Qed.
