(* ===== verification/Ide.v ===== *)
(** * The IDE driver (ide.c)

    Requests wait in a queue that is linked through [qnext] of the buffers; the disk
    works on the first. [iderw] sleeps until the interrupt handler has served its
    buffer. The drive is that of Drive.v, a buffer that of Bio.v, and the interrupt
    controllers those of Hw.v. *)

From S2P Require Import Prelude Drive Bio Trap Hw Mkfs.

Local Open Scope Z_scope.

Module Ide.
Section ide.
Context {D : Type} `{DriveOk D}.

Record st := St {
  sheld : list lock;
  bufs : list buf;
  qnext : list (option nat);      (* of the buffer with the same index *)
  idequeue : option nat;
  havedisk1 : bool;
  drv : D;
  irqs : hw;
  woken : list chan;              (* wakeup calls made, in order *)
}.

Definition set_sheld v (s : st) : st := St v (bufs s) (qnext s) (idequeue s) (havedisk1 s) (drv s) (irqs s) (woken s).
Definition set_bufs v (s : st) : st := St (sheld s) v (qnext s) (idequeue s) (havedisk1 s) (drv s) (irqs s) (woken s).
Definition set_qnext v (s : st) : st := St (sheld s) (bufs s) v (idequeue s) (havedisk1 s) (drv s) (irqs s) (woken s).
Definition set_idequeue v (s : st) : st := St (sheld s) (bufs s) (qnext s) v (havedisk1 s) (drv s) (irqs s) (woken s).
Definition set_havedisk1 v (s : st) : st := St (sheld s) (bufs s) (qnext s) (idequeue s) v (drv s) (irqs s) (woken s).
Definition set_drv v (s : st) : st := St (sheld s) (bufs s) (qnext s) (idequeue s) (havedisk1 s) v (irqs s) (woken s).
Definition set_irqs v (s : st) : st := St (sheld s) (bufs s) (qnext s) (idequeue s) (havedisk1 s) (drv s) v (woken s).
Definition set_woken v (s : st) : st := St (sheld s) (bufs s) (qnext s) (idequeue s) (havedisk1 s) (drv s) (irqs s) v.

#[export] Instance st_locks : HasLocks st.
Proof. refine {| held := sheld; set_held := set_sheld |}; intros; by destruct s. Defined.

Local Open Scope kern_scope.

Definition getb (i : nat) : kM st buf := s ← kget; kunwrap (bufs s !! i).
Definition putb (i : nat) (b : buf) : kM st unit := kmodify (λ s, set_bufs (<[i := b]> (bufs s)) s).
Definition wakeup (c : chan) : kM st unit := kmodify (λ s, set_woken (woken s ++ [c]) s).
Definition inhw {A} (m : kM hw A) : kM st A := kzoom (Lens irqs set_irqs) m.

(** The port instructions; a byte sent is of 8 bits. *)
Definition port_in (p : Z) : kM st Z := s ← kget; kput (set_drv (inb p (drv s)).2 s) ;; kret (inb p (drv s)).1.
Definition port_out (p v : Z) : kM st unit := kmodify (λ s, set_drv (outb p (u8 v) (drv s)) s).

(** [idewait(checkerr)]; a drive that is never ready is out of the model. *)
Definition idewait (checkerr : bool) : kM st Z :=
  s ← kget;
  '(r, d) ← kunwrap (poll patience (drv s));
  kput (set_drv d s) ;;
  kret (if checkerr && bool_decide (Z.land r (Z.lor IDE_DF IDE_ERR) ≠ 0)%Z then (-1)%Z else 0%Z).

(** [for(i=0; i<1000; i++)]: whether disk 1 answers. *)
Fixpoint probe (n : nat) : kM st unit :=
  match n with
  | O => kret tt
  | S n => r ← port_in 0x1f7; if bool_decide (r ≠ 0)%Z then kmodify (set_havedisk1 true) else probe n
  end.

Definition ideinit : kM st unit :=
  inhw (Hw.picenable IRQ_IDE) ;;
  s ← kget;
  inhw (Hw.ioapicenable IRQ_IDE (ncpu (irqs s) - 1)) ;;
  idewait false ;;
  port_out 0x1f6 (Z.lor 0xe0 (Z.shiftl 1 4)) ;;
  probe (Z.to_nat 1000) ;;
  port_out 0x1f6 (Z.lor 0xe0 (Z.shiftl 0 4)).

Definition idestart (b : option nat) : kM st unit :=
  match b with
  | None => kpanic "idestart"
  | Some i =>
    x ← getb i;
    kassert (bool_decide (bblockno x < Mkfs.FSSIZE)%Z) "incorrect blockno" ;;
    let sector_per_block := (Z.of_nat BSIZE / Z.of_nat SECTOR_SIZE)%Z in
    let sector := i32 (bblockno x * sector_per_block) in
    kassert (negb (bool_decide (7 < sector_per_block)%Z)) "idestart" ;;
    idewait false ;;
    port_out 0x3f6 0 ;;
    port_out 0x1f2 sector_per_block ;;
    port_out 0x1f3 (Z.land sector 255) ;;
    port_out 0x1f4 (Z.land (Z.shiftr sector 8) 255) ;;
    port_out 0x1f5 (Z.land (Z.shiftr sector 16) 255) ;;
    port_out 0x1f6 (Z.lor (Z.lor 0xe0 (Z.shiftl (Z.land (bdev x) 1) 4)) (Z.land (Z.shiftr sector 24) 15)) ;;
    if bdirty x then
      port_out 0x1f7 IDE_CMD_WRITE ;;
      kmodify (λ s, set_drv (outsl 0x1f0 (bdata x) (drv s)) s)
    else port_out 0x1f7 IDE_CMD_READ
  end.

(** [insl(0x1f0, b->data, BSIZE/4)] *)
Definition read_data (i : nat) : kM st unit :=
  s ← kget;
  let '(l, d) := insl 0x1f0 (BSIZE / 4) (drv s) in
  kput (set_drv d s) ;;
  x ← getb i;
  putb i (set_data l x).

Definition ideintr : kM st unit :=
  acquire LIde ;;
  s ← kget;
  match idequeue s with
  | None => release LIde
  | Some i =>
    next ← kunwrap (qnext s !! i);
    kmodify (set_idequeue next) ;;
    x ← getb i;
    (if bdirty x then kret tt
     else r ← idewait true; kwhen (bool_decide (0 ≤ r)%Z) (read_data i)) ;;
    x ← getb i;
    putb i (Buf (bdev x) (bblockno x) (bbusy x) true (bdirty x) (bdata x)) ;;
    x ← getb i;
    putb i (Buf (bdev x) (bblockno x) (bbusy x) (bvalid x) false (bdata x)) ;;
    wakeup (CBuf i) ;;
    s ← kget;
    kwhen (bool_decide (idequeue s ≠ None)) (idestart (idequeue s)) ;;
    release LIde
  end.

(** The walk of [pp] along the links: the last buffer in the queue, or
    none; the queue is no longer than the buffers are many. *)
Fixpoint queue_end (fuel : nat) (qs : list (option nat)) (last cur : option nat) : option (option nat) :=
  match cur with
  | None => Some last
  | Some i =>
    match fuel with
    | O => None
    | S fuel => match qs !! i with Some nx => queue_end fuel qs (Some i) nx | None => None end
    end
  end.

(** The buffer is stored at [pp]. *)
Definition append (i : nat) : kM st unit :=
  s ← kget;
  e ← kunwrap (queue_end (length (bufs s)) (qnext s) None (idequeue s));
  match e with
  | None => kput (set_idequeue (Some i) s)
  | Some j => kput (set_qnext (<[j := Some i]> (qnext s)) s)
  end.

(** The loop of [iderw], with idelock held: at its start, and each time the process
    runs again. *)
Definition iderw_loop (i : nat) : kM st unit :=
  x ← getb i;
  if bvalid x && negb (bdirty x) then release LIde else sleep (CBuf i) LIde.

(** After [sleep] has returned, which takes the lock again. *)
Definition iderw_again (i : nat) : kM st unit := acquire LIde ;; iderw_loop i.

Definition iderw (i : nat) : kM st unit :=
  x ← getb i;
  kassert (bbusy x) "iderw: buf not busy" ;;
  kassert (negb (bvalid x && negb (bdirty x))) "iderw: nothing to do" ;;
  s ← kget;
  kassert (negb (bool_decide (bdev x ≠ 0)%Z && negb (havedisk1 s))) "iderw: ide disk 1 not present" ;;
  acquire LIde ;;
  kmodify (λ s, set_qnext (<[i := None]> (qnext s)) s) ;;
  append i ;;
  s ← kget;
  kwhen (bool_decide (idequeue s = Some i)) (idestart (Some i)) ;;
  iderw_loop i.
End ide.
End Ide.
