(* ===== verification/IdeThm.v ===== *)
(** * Theorems on the IDE driver

    The driver refines a disk that serves whole requests, one at a time and in the
    order of the calls, as the synchronous driver of memide.c would. *)

From S2P Require Import Prelude Drive Bio Trap Hw Mkfs Ide.
Import Ide.

Local Open Scope Z_scope.

(** ** The queue *)

(** From [cur] the links lead through [q]. *)
Fixpoint chain (qs : list (option nat)) (cur : option nat) (q : list nat) : Prop :=
  match q with
  | [] => cur = None
  | i :: q => cur = Some i ∧ ∃ nx, qs !! i = Some nx ∧ chain qs nx q
  end.

Lemma qchain_head qs cur q : chain qs cur q → cur = q !! 0%nat.
Proof. destruct q; [done|]. by intros [-> _]. Qed.

Lemma qchain_frame qs i v cur q : i ∉ q → chain qs cur q → chain (<[i := v]> qs) cur q.
Proof.
  revert cur. induction q as [|j q IH]; intros cur Hi; [done|]. intros [-> (nx & Hn & Hc)].
  apply not_elem_of_cons in Hi as [Hij Hi]. split; [done|]. exists nx.
  rewrite list_lookup_insert_ne by done. auto.
Qed.

Lemma queue_end_chain qs : ∀ q fuel lst cur,
  chain qs cur q → (length q ≤ fuel)%nat →
  queue_end fuel qs lst cur = Some (match list.last q with Some j => Some j | None => lst end).
Proof.
  induction q as [|i q IH]; intros fuel lst cur Hc Hf.
  - simpl in Hc. subst cur. by destruct fuel.
  - destruct Hc as [-> (nx & Hn & Hc)]. destruct fuel as [|fuel]; [simpl in Hf; lia|].
    cbn [queue_end]. rewrite Hn, (IH fuel (Some i) nx Hc) by (simpl in Hf; lia).
    rewrite last_cons. by destruct (list.last q).
Qed.

(** A buffer after the last one. *)
Lemma chain_snoc qs : ∀ q j i cur,
  chain qs cur (q ++ [j]) → NoDup (q ++ [j]) → i ∉ q ++ [j] → qs !! i = Some None →
  chain (<[j := Some i]> qs) cur (q ++ [j; i]).
Proof.
  induction q as [|k q IH]; intros j i cur Hc Hnd Hi Hn; simpl in *.
  - destruct Hc as [-> (nx & Hj & _)]. split; [done|]. exists (Some i).
    rewrite list_lookup_insert_eq by (by eapply lookup_lt_Some). split; [done|]. split; [done|].
    exists None. rewrite list_lookup_insert_ne by set_solver. done.
  - destruct Hc as [-> (nx & Hk & Hc)]. apply list.NoDup_cons in Hnd as [Hkq Hnd].
    apply not_elem_of_cons in Hi as [Hik Hi]. split; [done|]. exists nx.
    rewrite list_lookup_insert_ne by set_solver. split; [done|]. by apply IH.
Qed.

Lemma nodup_bounded (q : list nat) n : NoDup q → (∀ i, i ∈ q → (i < n)%nat) → (length q ≤ n)%nat.
Proof.
  intros Hnd Hb. rewrite <-(length_seq n 0) at 1. apply submseteq_length, NoDup_submseteq; [done|].
  intros i Hi. apply elem_of_seq. specialize (Hb i Hi). lia.
Qed.

Section ide.
Context {D : Type} `{DriveOk D}.
Implicit Types s : st (D:=D).

(** ** The drive under a request *)

Definition on_disk (x : buf) : Z := Z.land (bdev x) 1.

(** A request the driver accepts, and its buffer. *)
Definition well_formed (x : buf) : Prop := 0 ≤ bblockno x < Mkfs.FSSIZE ∧ length (bdata x) = BSIZE.

Lemma on_disk_01 x : on_disk x = 0 ∨ on_disk x = 1.
Proof.
  unfold on_disk. assert (Z.land (bdev x) 1 = bdev x mod 2) as -> by (change 1 with (Z.ones 1); by rewrite Z.land_ones by lia).
  pose proof (Z.mod_pos_bound (bdev x) 2). lia.
Qed.

(** The drive has been told to serve [x], from sectors [f]. *)
Definition serving (x : buf) (f : Z → Z → list Z) (v : dview) : Prop :=
  if bdirty x then busy_with v = None ∧
    ∀ k n, sect v k n = if decide (k = on_disk x ∧ n = bblockno x) then bdata x else f k n
  else busy_with v = Some (Xfer false (on_disk x) (bblockno x) 1) ∧ ∀ k n, sect v k n = f k n.

Lemma wp_idewait c s Q : (∀ d, view d = view (drv s) → Q 0 (set_drv d s)) → wp (idewait c) s Q.
Proof.
  intros HQ. unfold idewait. apply wp_bind, wp_get. destruct (poll_ready (drv s)) as (r & d & Hp & Hv & Hr).
  apply wp_bind. rewrite Hp. apply wp_ret. apply wp_bind, wp_put, wp_ret. rewrite Hr.
  rewrite bool_decide_false by (by intros []). rewrite andb_false_r. by apply HQ.
Qed.

Lemma wp_port_out p v s Q : Q tt (set_drv (outb p (u8 v) (drv s)) s) → wp (port_out p v) s Q.
Proof. done. Qed.

(** The registers of the drive hold the address of a block. *)
Lemma block_address x :
  0 ≤ bblockno x < Mkfs.FSSIZE →
  let sector := i32 (bblockno x * (Z.of_nat BSIZE / Z.of_nat SECTOR_SIZE)) in
  ∀ v, reg v 0x1f3 = u8 (Z.land sector 255) → reg v 0x1f4 = u8 (Z.land (Z.shiftr sector 8) 255) →
  reg v 0x1f5 = u8 (Z.land (Z.shiftr sector 16) 255) →
  reg v 0x1f6 = u8 (Z.lor (Z.lor 0xe0 (Z.shiftl (Z.land (bdev x) 1) 4)) (Z.land (Z.shiftr sector 24) 15)) →
  lba v = bblockno x ∧ selected v = on_disk x.
Proof.
  intros Hb sector v H3 H4 H5 H6. unfold Mkfs.FSSIZE in Hb.
  assert (sector = bblockno x) as Hs.
  { unfold sector. change (Z.of_nat BSIZE / Z.of_nat SECTOR_SIZE) with 1. rewrite Z.mul_1_r.
    unfold i32. rewrite Z.mod_small by lia. lia. }
  rewrite Hs in *. clear sector Hs.
  assert (Z.shiftr (bblockno x) 16 = 0) as E16 by (rewrite Z.shiftr_div_pow2 by lia; apply Z.div_small; lia).
  assert (Z.shiftr (bblockno x) 24 = 0) as E24 by (rewrite Z.shiftr_div_pow2 by lia; apply Z.div_small; lia).
  rewrite E16 in H5. rewrite E24 in H6. change (Z.land 0 255) with 0 in H5. change (Z.land 0 15) with 0 in H6.
  rewrite Z.lor_0_r in H6. unfold lba, selected. rewrite H3, H4, H5, H6. fold (on_disk x).
  split.
  - replace (Z.land (u8 _) 15) with 0 by (destruct (on_disk_01 x) as [-> | ->]; reflexivity).
    change 255 with (Z.ones 8). rewrite !Z.land_ones, Z.shiftr_div_pow2 by lia.
    change (u8 0) with 0. unfold u8. rewrite !Z.mod_mod by lia. change (2 ^ 8) with 256.
    rewrite (Z.mod_small (bblockno x / 256)) by (split; [apply Z.div_pos; lia|apply Z.div_lt_upper_bound; lia]).
    pose proof (Z.div_mod (bblockno x) 256). lia.
  - destruct (on_disk_01 x) as [-> | ->]; reflexivity.
Qed.

Lemma wp_idestart i x s Q :
  bufs s !! i = Some x → well_formed x → busy_with (view (drv s)) = None →
  (∀ d, serving x (sect (view (drv s))) (view d) → Q tt (set_drv d s)) →
  wp (idestart (Some i)) s Q.
Proof.
  intros Hx [Hb Hl] Hidle HQ. unfold idestart. apply wp_bind. unfold getb at 1.
  apply wp_bind, wp_get, (wp_unwrap _ x); [done|].
  apply wp_bind, wp_assert; [apply bool_decide_true; lia|]. apply wp_bind, wp_assert; [done|].
  apply wp_bind, wp_idewait. intros d0 Hd0.
  do 6 (apply wp_bind, wp_port_out). cbn [drv set_drv].
  set (d1 := outb 0x1f6 _ _).
  assert (view d1 = set_reg 0x1f6 (u8 (Z.lor (Z.lor 0xe0 (Z.shiftl (Z.land (bdev x) 1) 4))
      (Z.land (Z.shiftr (i32 (bblockno x * (Z.of_nat BSIZE / Z.of_nat SECTOR_SIZE))) 24) 15)))
    (set_reg 0x1f5 (u8 (Z.land (Z.shiftr (i32 (bblockno x * (Z.of_nat BSIZE / Z.of_nat SECTOR_SIZE))) 16) 255))
    (set_reg 0x1f4 (u8 (Z.land (Z.shiftr (i32 (bblockno x * (Z.of_nat BSIZE / Z.of_nat SECTOR_SIZE))) 8) 255))
    (set_reg 0x1f3 (u8 (Z.land (i32 (bblockno x * (Z.of_nat BSIZE / Z.of_nat SECTOR_SIZE))) 255))
    (set_reg 0x1f2 1 (view (drv s))))))) as Hv.
  { unfold d1. rewrite !drive_reg by lia. by rewrite drive_control, Hd0. }
  destruct (block_address x Hb (view d1)) as [Hlba Hsel]; [by rewrite Hv..|].
  assert (reg (view d1) 0x1f2 = 1) as Hcnt by (by rewrite Hv).
  assert (sect (view d1) = sect (view (drv s))) as Hsect by (by rewrite Hv).
  unfold serving in HQ. destruct (bdirty x).
  - apply wp_bind, wp_port_out, wp_modify. apply HQ. cbn [drv set_drv].
    change (u8 IDE_CMD_WRITE) with IDE_CMD_WRITE.
    rewrite (drive_out (on_disk x) (bblockno x)).
    + rewrite drive_write. split; [done|]. intros k n. simpl. by rewrite Hsect.
    + rewrite drive_write. unfold start. simpl. by rewrite Hlba, Hsel, Hcnt.
    + done.
  - apply wp_port_out. apply HQ. cbn [drv set_drv]. change (u8 IDE_CMD_READ) with IDE_CMD_READ.
    rewrite drive_read. unfold start. simpl. rewrite Hlba, Hsel, Hcnt, Hsect. done.
Qed.

(** ** The disk as its callers see it *)

(** A disk that serves requests whole: the buffers, the sectors of the two disks,
    and the requests that wait, in order. *)
Record ast := ASt {
  abufs : list buf;
  adisk : Z → Z → list Z;
  aq : list nat;
  awoken : list chan;
  ahave1 : bool;
}.

Definition done_ (x : buf) : bool := bvalid x && negb (bdirty x).

(** A request served: as the comment above [iderw] says. *)
Definition sync_buf (x : buf) (f : Z → Z → list Z) : buf :=
  Buf (bdev x) (bblockno x) (bbusy x) true false (if bdirty x then bdata x else f (on_disk x) (bblockno x)).
Definition sync_disk (x : buf) (f : Z → Z → list Z) : Z → Z → list Z :=
  if bdirty x then λ k n, if decide (k = on_disk x ∧ n = bblockno x) then bdata x else f k n else f.

(** What happens to the disk: a call, an interrupt, a process that runs again, and
    the owner of a buffer that works on it. *)
Inductive op := ORw (i : nat) | OIntr | OAgain (i : nat) | OOwn (i : nat) (x : buf).

Definition astep (a : ast) (o : op) : ast :=
  match o with
  | ORw i => ASt (abufs a) (adisk a) (aq a ++ [i]) (awoken a) (ahave1 a)
  | OIntr =>
    match aq a with
    | [] => a
    | i :: q =>
      match abufs a !! i with
      | Some x => ASt (<[i := sync_buf x (adisk a)]> (abufs a)) (sync_disk x (adisk a)) q (awoken a ++ [CBuf i]) (ahave1 a)
      | None => a
      end
    end
  | OAgain _ => a
  | OOwn i x => ASt (<[i := x]> (abufs a)) (adisk a) (aq a) (awoken a) (ahave1 a)
  end.

(** What the callers have to see to. *)
Definition allowed (a : ast) (o : op) : Prop :=
  match o with
  | ORw i => (i ∉ aq a) ∧ ∃ x, abufs a !! i = Some x ∧ bbusy x = true ∧ done_ x = false ∧
      0 ≤ bblockno x < Mkfs.FSSIZE ∧ (bdev x = 0 ∨ ahave1 a = true)
  | OIntr => True
  | OAgain i => (i < length (abufs a))%nat
  | OOwn i x => (i ∉ aq a) ∧ (i < length (abufs a))%nat ∧ length (bdata x) = BSIZE
  end.

Definition run (o : op) : kM (st (D:=D)) unit :=
  match o with
  | ORw i => iderw i
  | OIntr => ideintr
  | OAgain i => iderw_again i
  | OOwn i x => putb i x
  end.

(** How the driver's code ends: a call sleeps on its buffer until it is served. *)
Definition ends (a : ast) (o : op) (s' : st (D:=D)) : outcome st unit :=
  match o with
  | ORw i => Slept (CBuf i) s'
  | OAgain i => if match abufs a !! i with Some x => done_ x | None => false end then Done tt s' else Slept (CBuf i) s'
  | _ => Done tt s'
  end.

Record sim (a : ast) (s : st (D:=D)) : Prop := {
  sm_held : sheld s = [];
  sm_bufs : bufs s = abufs a;
  sm_woken : woken s = awoken a;
  sm_have1 : havedisk1 s = ahave1 a;
  sm_len : length (qnext s) = length (bufs s);
  sm_chain : chain (qnext s) (idequeue s) (aq a);
  sm_nodup : NoDup (aq a);
  sm_data i x : abufs a !! i = Some x → length (bdata x) = BSIZE;
  sm_sect k n : length (adisk a k n) = SECTOR_SIZE;
  sm_queued i : i ∈ aq a → ∃ x, abufs a !! i = Some x ∧ done_ x = false ∧ well_formed x;
  sm_drive : match aq a with
    | [] => busy_with (view (drv s)) = None ∧ ∀ k n, sect (view (drv s)) k n = adisk a k n
    | i :: _ => ∀ x, abufs a !! i = Some x → serving x (adisk a) (view (drv s))
    end;
}.

Lemma serving_ext x f g v : (∀ k n, f k n = g k n) → serving x f v → serving x g v.
Proof.
  intros Hfg. unfold serving. destruct (bdirty x); intros [? Hs]; (split; [done|]); intros k n; rewrite Hs;
    [by case_decide|apply Hfg].
Qed.

Lemma wp_sleep_slept i s (Q : outcome (st (D:=D)) unit → Prop) :
  sheld s = [LIde] → Q (Slept (CBuf i) (set_sheld [] s)) → Q (sleep (CBuf i) LIde s).
Proof. intros Hh HQ. rewrite sleep_holding by exact Hh. exact HQ. Qed.

(** [iderw] puts its buffer at the end. *)
Lemma append_chain a s i s1 :
  sim a s → i ∉ aq a → (i < length (bufs s))%nat →
  s1 = set_qnext (<[i := None]> (qnext s)) (set_sheld [LIde] s) →
  ∃ qs cur, append i s1 = Done tt (set_idequeue cur (set_qnext qs (set_sheld [LIde] s))) ∧
    chain qs cur (aq a ++ [i]) ∧ length qs = length (bufs s).
Proof.
  intros HS Hi Hlt ->. pose proof (sm_chain _ _ HS) as Hc. pose proof (sm_nodup _ _ HS) as Hnd.
  assert (length (aq a) ≤ length (bufs s))%nat as Hle.
  { apply nodup_bounded; [done|]. intros j Hj. destruct (sm_queued _ _ HS j Hj) as (x & Hx & _).
    rewrite (sm_bufs _ _ HS). by eapply lookup_lt_Some. }
  unfold append, kbind, kget. cbn [bufs qnext idequeue set_qnext set_sheld].
  rewrite (queue_end_chain _ (aq a)) by (by try apply qchain_frame).
  assert ((<[i := None]> (qnext s)) !! i = Some None) as Hnone.
  { apply list_lookup_insert_eq. by rewrite (sm_len _ _ HS). }
  destruct (list.last (aq a)) as [j|] eqn:Hlast; simpl.
  - apply last_Some in Hlast as [q Hq]. exists (<[j := Some i]> (<[i := None]> (qnext s))), (idequeue s).
    split; [done|]. split; [|by rewrite !length_insert, (sm_len _ _ HS)].
    rewrite Hq, <-app_assoc. simpl. rewrite Hq in *. apply chain_snoc; [by apply qchain_frame|done..].
  - apply last_None in Hlast. rewrite Hlast. exists (<[i := None]> (qnext s)), (Some i).
    split; [done|]. split; [|by rewrite length_insert, (sm_len _ _ HS)].
    simpl. split; [done|]. by exists None.
Qed.

Lemma wp_ide_getb i x s Q : bufs s !! i = Some x → Q x s → wp (getb i) s Q.
Proof. intros Hx HQ. unfold getb. apply wp_bind, wp_get. by apply (wp_unwrap _ x). Qed.

Lemma wp_lock s Q : sheld s = [] → Q tt (set_sheld [LIde] s) → wp (acquire LIde) s Q.
Proof.
  intros Hh HQ. unfold wp. rewrite acquire_free; [|simpl; rewrite Hh; apply not_elem_of_nil].
  simpl. by rewrite Hh.
Qed.

Lemma wp_unlock s Q : sheld s = [LIde] → Q tt (set_sheld [] s) → wp (release LIde) s Q.
Proof.
  intros Hh HQ. unfold wp. rewrite (release_top LIde []); [done|exact Hh|apply not_elem_of_nil].
Qed.

Lemma wps_loop_sleeps i x s (Q : unit → st → Prop) (R : chan → st → Prop) :
  bufs s !! i = Some x → done_ x = false → sheld s = [LIde] → R (CBuf i) (set_sheld [] s) →
  wps (iderw_loop i) s Q R.
Proof.
  intros Hx Hd Hh HR. unfold iderw_loop. apply wps_bind, wps_of_wp, (wp_ide_getb _ x); [done|].
  unfold done_ in Hd. rewrite Hd. unfold wps. by apply (wp_sleep_slept i s (λ o, match o with Done a s' => Q a s' | Slept c s' => R c s' | _ => False end)).
Qed.

Lemma sim_rw a s i :
  sim a s → allowed a (ORw i) → ∃ s', iderw i s = Slept (CBuf i) s' ∧ sim (astep a (ORw i)) s'.
Proof.
  intros HS (Hi & x & Hx & Hbusy & Hdone & Hb & Hdev). set (a' := astep a (ORw i)).
  assert (wps (iderw i) s (λ _ _, False) (λ c s', c = CBuf i ∧ sim a' s')) as Hw.
  2: { unfold wps in Hw. destruct (iderw i s); [done| |done..]. destruct Hw as [-> ?]. eauto. }
  pose proof HS as [Hh Hbufs Hwk Hh1 Hlen Hc Hnd Hdata Hsect Hq Hdrv].
  assert (bufs s !! i = Some x) as Hx' by (by rewrite Hbufs).
  assert (well_formed x) as Hwf by (split; [done|by eapply Hdata]).
  unfold iderw. apply wps_bind, wps_of_wp, (wp_ide_getb _ x); [done|].
  apply wps_bind, wps_of_wp, wp_assert; [done|]. apply wps_bind, wps_of_wp, wp_assert; [by unfold done_ in Hdone; rewrite Hdone|].
  apply wps_bind, wps_of_wp, wp_get. apply wps_bind, wps_of_wp, wp_assert.
  { rewrite Hh1. destruct Hdev as [-> | ->]; [done|]. by rewrite andb_false_r. }
  apply wps_bind, wps_of_wp, wp_lock; [done|]. apply wps_bind, wps_of_wp, wp_modify. apply wps_bind, wps_of_wp.
  destruct (append_chain a s i _ HS Hi (lookup_lt_Some _ _ _ Hx') eq_refl) as (qs & cur & Hap & Hc' & Hl').
  unfold wp. simpl in Hap |- *. rewrite Hap. clear Hap.
  apply wps_bind, wps_of_wp, wp_get. cbn [idequeue set_idequeue].
  pose proof (qchain_head _ _ _ Hc') as Hcur. apply wps_bind, wps_of_wp.
  assert (∀ d, match aq a ++ [i] with [] => True | j :: _ => ∀ y, abufs a !! j = Some y → serving y (adisk a) (view d) end →
    sim a' (set_sheld [] (set_drv d (set_idequeue cur (set_qnext qs (set_sheld [LIde] s)))))) as Hsim.
  { intros d Hd. split; simpl; try done.
    - apply list.NoDup_app. split; [done|]. split; [set_solver|apply NoDup_singleton].
    - intros j [Hj|Hj]%elem_of_app; [by apply Hq|]. apply list_elem_of_singleton in Hj as ->. eauto.
    - destruct (aq a ++ [i]) eqn:Happ; [by destruct (aq a)|]. exact Hd. }
  clearbody a'. destruct (aq a) as [|j q] eqn:Haq.
  - rewrite bool_decide_true by done. apply (wp_idestart i x); [done|done|apply Hdrv|]. intros d Hd.
    eapply wps_loop_sleeps; [done..|]. split; [done|]. apply Hsim. simpl. intros y Hy. simplify_eq.
    eapply serving_ext; [|exact Hd]. apply Hdrv.
  - rewrite bool_decide_false by (rewrite Hcur; intros [=]; set_solver). apply wp_ret.
    eapply wps_loop_sleeps; [done..|]. split; [done|].
    specialize (Hsim (drv s)). simpl in Hsim. apply Hsim in Hdrv. exact Hdrv.
Qed.

(** The data of a request that has been read, or the write already done. *)
Lemma wp_serve i x f s Q :
  bufs s !! i = Some x → serving x f (view (drv s)) →
  (∀ d y, bdev y = bdev x → bblockno y = bblockno x → bbusy y = bbusy x → bdirty y = bdirty x → bvalid y = bvalid x →
     bdata y = (if bdirty x then bdata x else f (on_disk x) (bblockno x)) →
     busy_with (view d) = None → (∀ k n, sect (view d) k n = sync_disk x f k n) →
     Q tt (set_bufs (<[i := y]> (bufs s)) (set_drv d s))) →
  wp (if bdirty x then kret tt else kbind (idewait true) (λ r, kwhen (bool_decide (0 ≤ r)) (read_data i))) s Q.
Proof.
  intros Hx Hs HQ. unfold serving, sync_disk in *. destruct (bdirty x) eqn:Hd.
  - apply wp_ret. destruct Hs as [Hb Hsect].
    replace s with (set_bufs (<[i := x]> (bufs s)) (set_drv (drv s) s)); [by apply HQ|].
    rewrite list_insert_id by done. by destruct s.
  - destruct Hs as [Hb Hsect]. apply wp_bind, wp_idewait. intros d Hv. simpl. unfold read_data.
    apply wp_bind, wp_get. cbn [drv set_drv]. change (BSIZE / 4)%nat with 128%nat.
    destruct (drive_in (on_disk x) (bblockno x) d) as [Hl Hv']; [by rewrite Hv|].
    destruct (insl 0x1f0 128 d) as [l d']. simpl in Hl, Hv'.
    apply wp_bind, wp_put, wp_bind, (wp_ide_getb _ x); [done|]. apply wp_modify.
    apply (HQ d' (set_data l x)); try done.
    + simpl. by rewrite Hl, Hv, Hsect.
    + by rewrite Hv'.
    + intros k n. rewrite Hv', Hv. simpl. apply Hsect.
Qed.

(** The state in which [ideintr] leaves the first request, before the next begins. *)
Definition after_first (a : ast) (i : nat) (x : buf) (q : list nat) : ast :=
  ASt (<[i := sync_buf x (adisk a)]> (abufs a)) (sync_disk x (adisk a)) q (awoken a ++ [CBuf i]) (ahave1 a).

Lemma sim_served a s i q x nx d :
  sim a s → aq a = i :: q → abufs a !! i = Some x → chain (qnext s) nx q →
  match q with
  | [] => busy_with (view d) = None ∧ ∀ k n, sect (view d) k n = sync_disk x (adisk a) k n
  | j :: _ => ∀ z, abufs a !! j = Some z → serving z (sync_disk x (adisk a)) (view d)
  end →
  sim (after_first a i x q) (St [] (<[i := sync_buf x (adisk a)]> (abufs a)) (qnext s) nx (havedisk1 s) d (irqs s)
    (awoken a ++ [CBuf i])).
Proof.
  intros [Hh Hbufs Hwk Hh1 Hlen Hc Hnd Hdata Hsect Hq Hdrv] Haq Hx Hnx Hd. rewrite Haq in *.
  apply list.NoDup_cons in Hnd as [Hiq Hnd].
  split; simpl; try done.
  - by rewrite length_insert, <-Hbufs.
  - intros j y Hy. apply list_lookup_insert_Some in Hy as [(-> & <- & _)|[_ Hy]]; [|by eapply Hdata].
    unfold sync_buf. simpl. destruct (bdirty x); [by eapply Hdata|apply Hsect].
  - intros k n. unfold sync_disk. destruct (bdirty x); [|done]. case_decide; [by eapply Hdata|done].
  - intros j Hj. destruct (Hq j) as (y & Hy & ?); [set_solver|]. exists y.
    rewrite list_lookup_insert_ne by set_solver. done.
  - destruct q as [|j q]; [done|]. intros z. rewrite list_lookup_insert_ne by set_solver. apply Hd.
Qed.

Lemma sim_intr a s : sim a s → ∃ s', ideintr s = Done tt s' ∧ sim (astep a OIntr) s'.
Proof.
  intros HS. pose proof HS as [Hh Hbufs Hwk Hh1 Hlen Hc Hnd Hdata Hsect Hq Hdrv].
  assert (wp ideintr s (λ _ s', sim (astep a OIntr) s')) as Hw.
  2: { apply wp_done in Hw as ([] & s' & ? & ?). eauto. }
  unfold ideintr. apply wp_bind, wp_lock; [done|]. apply wp_bind, wp_get. cbn [idequeue set_sheld astep].
  destruct (aq a) as [|i q] eqn:Haq.
  - simpl in Hc. rewrite Hc. apply wp_unlock; [done|]. split; simpl; rewrite ?Haq; done.
  - destruct Hc as [Hcur (nx & Hnx & Hc)]. rewrite Hcur.
    destruct (Hq i) as (x & Hx & Hdone & Hwf); [set_solver|]. rewrite Hx.
    apply list.NoDup_cons in Hnd as [Hiq Hnd].
    apply wp_bind, (wp_unwrap _ nx); [done|]. apply wp_bind, wp_modify.
    apply wp_bind, (wp_ide_getb _ x); [simpl; by rewrite Hbufs|]. apply wp_bind.
    eapply (wp_serve i x (adisk a)); [simpl; by rewrite Hbufs|by apply Hdrv|].
    intros d y Y1 Y2 Y3 Y4 Y5 Y6 Hidle Hsec. cbn -[sync_disk] in *.
    pose proof (lookup_lt_Some _ _ _ Hx) as Hlt.
    apply wp_bind, (wp_ide_getb _ y); [simpl; apply list_lookup_insert_eq; by rewrite Hbufs|].
    apply wp_bind, wp_modify. simpl. rewrite list_insert_insert_eq.
    apply wp_bind. eapply wp_ide_getb; [simpl; apply list_lookup_insert_eq; by rewrite Hbufs|].
    apply wp_bind, wp_modify. simpl. rewrite list_insert_insert_eq.
    apply wp_bind, wp_modify. simpl. apply wp_bind, wp_get. simpl.
    assert (Buf (bdev y) (bblockno y) (bbusy y) true false (bdata y) = sync_buf x (adisk a)) as Hy.
    { unfold sync_buf. by rewrite Y1, Y2, Y3, Y6. }
    rewrite Hy, Hbufs, Hwk.
    destruct q as [|j q].
    + simpl in Hc. subst nx. apply wp_bind, wp_ret, wp_unlock; [done|].
      apply (sim_served a s i [] x None d); done.
    + pose proof Hc as [-> _]. destruct (Hq j) as (z & Hz & _ & Hzwf); [set_solver|].
      apply wp_bind. simpl. apply (wp_idestart j z); [simpl|done|done|].
      { rewrite list_lookup_insert_ne; [done|set_solver]. }
      simpl. intros d' Hd'. apply wp_unlock; [done|].
      apply (sim_served a s i (j :: q) x (Some j) d'); try done. intros z' Hz'. simplify_eq.
      by eapply serving_ext.
Qed.

Lemma sim_again a s i :
  sim a s → (i < length (abufs a))%nat → ∃ s', iderw_again i s = ends a (OAgain i) s' ∧ sim a s'.
Proof.
  intros HS Hi. pose proof HS as [Hh Hbufs Hwk Hh1 Hlen Hc Hnd Hdata Hsect Hq Hdrv].
  apply lookup_lt_is_Some_2 in Hi as [x Hx]. simpl. rewrite Hx. exists (set_sheld [] s).
  split; [|by destruct s; split].
  unfold iderw_again, kbind. rewrite acquire_free by (simpl; rewrite Hh; apply not_elem_of_nil).
  unfold iderw_loop, getb, kbind, kget. simpl. rewrite Hh, Hbufs, Hx. simpl. fold (done_ x).
  destruct (done_ x).
  - by rewrite (release_top LIde []) by (done || apply not_elem_of_nil).
  - by rewrite sleep_holding by done.
Qed.

Lemma sim_own a s i x :
  sim a s → allowed a (OOwn i x) → ∃ s', putb i x s = Done tt s' ∧ sim (astep a (OOwn i x)) s'.
Proof.
  intros [Hh Hbufs Hwk Hh1 Hlen Hc Hnd Hdata Hsect Hq Hdrv] (Hi & Hlt & Hx). eexists. split; [done|].
  split; simpl; try done.
  - by rewrite Hbufs.
  - by rewrite length_insert.
  - intros j y Hy. apply list_lookup_insert_Some in Hy as [(-> & <- & _)|[_ Hy]]; [done|by eapply Hdata].
  - intros j Hj. destruct (Hq j Hj) as (y & ? & ?). exists y. by rewrite list_lookup_insert_ne by set_solver.
  - destruct (aq a) as [|j q]; [done|]. intros z. rewrite list_lookup_insert_ne by set_solver. apply Hdrv.
Qed.

Lemma ide_step a s o : sim a s → allowed a o → ∃ s', run o s = ends a o s' ∧ sim (astep a o) s'.
Proof.
  intros HS Ho. destruct o as [i| |i|i x].
  - by apply sim_rw.
  - by apply sim_intr.
  - by apply sim_again.
  - by apply sim_own.
Qed.

(** A history of the driver: each operation ends as the disk that serves whole
    requests says, and so does the next. *)
Fixpoint history (a : ast) (s : st (D:=D)) (l : list op) : Prop :=
  match l with
  | [] => sim a s
  | o :: l => sim a s ∧ (allowed a o → ∃ s', run o s = ends a o s' ∧ history (astep a o) s' l)
  end.


Lemma wp_port_in p s Q : Q (inb p (drv s)).1 (set_drv (inb p (drv s)).2 s) → wp (port_in p) s Q.
Proof. done. Qed.

Lemma wp_probe n s Q :
  (∀ d h, view d = view (drv s) → Q tt (set_havedisk1 h (set_drv d s))) → wp (probe n) s Q.
Proof.
  revert s. induction n as [|n IH]; intros s HQ; simpl.
  - apply wp_ret. specialize (HQ (drv s) (havedisk1 s) eq_refl). by destruct s.
  - apply wp_bind, wp_port_in. case_bool_decide.
    + apply wp_modify. apply HQ. apply drive_status.
    + apply IH. intros d h Hd. apply (HQ d h). rewrite Hd. apply drive_status.
Qed.

Lemma wp_picenable_14 x (Q : unit → hw → Prop) :
  (∀ x', Z.testbit (irqmask x') 14 = false → Q tt x') → wp (Hw.picenable IRQ_IDE) x Q.
Proof.
  intros HQ. unfold Hw.picenable, Hw.picsetmask, Hw.outb.
  apply wp_bind, wp_get, wp_bind, wp_modify, wp_bind, wp_modify, wp_modify. apply HQ. cbn [irqmask set_ports set_irqmask].
  unfold u16. rewrite Z.mod_pow2_bits_low, Z.land_spec by lia. apply andb_false_r.
Qed.

Lemma wp_ioapicenable_mask irq cpu x (Q : unit → hw → Prop) :
  (∀ x', irqmask x' = irqmask x → Q tt x') → wp (Hw.ioapicenable irq cpu) x Q.
Proof.
  intros HQ. unfold Hw.ioapicenable. apply wp_bind, wp_get. destruct (negb (ismp x)); [by apply wp_ret, HQ|].
  unfold Hw.ioapicwrite, Hw.iostore. apply wp_bind, wp_bind, wp_modify, wp_modify, wp_bind, wp_modify, wp_modify.
  by apply HQ.
Qed.

(** [ideinit] leaves the driver idle, with the disks as they were, and lets the
    interrupts of the disk through. *)
Theorem ideinit_idle s :
  sheld s = [] → idequeue s = None →
  ∃ s', ideinit s = Done tt s' ∧ sheld s' = [] ∧ idequeue s' = None ∧ bufs s' = bufs s ∧ qnext s' = qnext s ∧
    sect (view (drv s')) = sect (view (drv s)) ∧ busy_with (view (drv s')) = busy_with (view (drv s)) ∧
    Z.testbit (irqmask (irqs s')) IRQ_IDE = false.
Proof.
  intros Hh Hq.
  assert (wp ideinit s (λ _ s', sheld s' = [] ∧ idequeue s' = None ∧ bufs s' = bufs s ∧ qnext s' = qnext s ∧
    sect (view (drv s')) = sect (view (drv s)) ∧ busy_with (view (drv s')) = busy_with (view (drv s)) ∧
    Z.testbit (irqmask (irqs s')) IRQ_IDE = false)) as Hw.
  2: { apply wp_done in Hw as ([] & s' & ? & ?). eauto. }
  unfold ideinit. apply wp_bind, wp_zoom, wp_picenable_14. intros x1 Hx1.
  apply wp_bind, wp_get, wp_bind, wp_zoom, wp_ioapicenable_mask. intros x2 Hx2. cbn in Hx1, Hx2 |- *.
  apply wp_bind, wp_idewait. intros d0 Hd0. apply wp_bind, wp_port_out, wp_bind, wp_probe.
  intros d1 h Hd1. apply wp_port_out. cbn in *. rewrite drive_reg, Hd1, drive_reg, Hd0 by lia.
  split_and!; try done. by rewrite Hx2.
Qed.
End ide.

(** ** The two drivers *)

(** A request for disk 1 is served as the driver of memide.c serves it. *)
Theorem memide_agrees i x f (b : Bio.Bio.st) :
  Bio.Bio.bufs b !! i = Some x → bbusy x = true → done_ x = false → bdev x = 1 → bblockno x < Mkfs.FSSIZE →
  (∀ n, Bio.Bio.disk b n = f 1 n) →
  ∃ b', Bio.Bio.iderw Mkfs.FSSIZE i b = Done tt b' ∧
    Bio.Bio.bufs b' = <[i := sync_buf x f]> (Bio.Bio.bufs b) ∧ ∀ n, Bio.Bio.disk b' n = sync_disk x f 1 n.
Proof.
  intros Hx Hbusy Hd Hdev Hb Hf. unfold Bio.Bio.iderw, Bio.Bio.getb, kbind, kget, done_ in *. simpl. rewrite Hx. simpl.
  rewrite Hbusy, Hd. simpl. rewrite (bool_decide_true _ Hdev), (bool_decide_true _ Hb). simpl.
  unfold sync_buf, sync_disk, on_disk. rewrite Hdev. change (Z.land 1 1) with 1.
  destruct (bdirty x) eqn:Hdirty; simpl; eexists; (split; [done|]); simpl; rewrite ?Hdev, ?Hdirty, ?Hbusy.
  - split; [done|]. intros n. unfold upd. rewrite Hf. destruct (decide (n = bblockno x)) as [->|Hne].
    + by rewrite decide_True.
    + by rewrite decide_False by naive_solver.
  - split; [by rewrite Hf|done].
Qed.

(** ** A history for the examples *)

(** The first buffer waits for block 5 to be read, the second to be written to
    block 7; every sector of disk 1 is full of ones. *)
Definition demo_drive : simdrive := Simdrive (λ _, 0) (λ k _, replicate SECTOR_SIZE k) None true.
Definition demo_bufs : list buf :=
  [Buf 1 5 true false false (replicate BSIZE 0); Buf 1 7 true true true (replicate BSIZE 9)].
Definition demo_ide : st (D:=simdrive) :=
  St [] demo_bufs [None; None] None true demo_drive (HW 0 [] [] 0 [] 0 false 0 0 0 [] 0 (λ _, 0) []) [].
Definition demo_ops : list op := [ORw 0; ORw 1; OIntr; OAgain 0; OIntr; OAgain 1].
Definition demo_ast : ast := ASt demo_bufs (sect (view demo_drive)) [] [] true.

