(* ===== verification/BootThm.v ===== *)
(** * Theorems on the boot loader

    [readseg] reads the bytes asked for and at most 511 bytes around them;
    [bootmain] leaves every segment of a well-formed kernel at its address. *)

From S2P Require Import Prelude CString Kalloc Vm VmThm Drive Exec Boot.
Import Boot.

Local Open Scope Z_scope.

Section boot.
Context {D : Type} `{DriveOk D}.
Implicit Types s : st (D:=D).

(** Byte [k] of a list of sectors, and of the kernel, which begins at sector 1. *)
Definition byte_of (l : list Z) (k : Z) : Z := u8 (default 0 (l !! Z.to_nat k)).
Definition img (f : Z → list Z) (k : Z) : Z := byte_of (f (k / SECTSIZE + 1)) (k mod SECTSIZE).

(** ** Sectors *)

Lemma wp_waitdisk s Q : (∀ d, view d = view (bdrv s) → Q tt (set_bdrv d s)) → wp waitdisk s Q.
Proof.
  intros HQ. unfold waitdisk. apply wp_bind, wp_get. destruct (poll_ready (bdrv s)) as (r & d & Hp & Hv & _).
  apply wp_bind. rewrite Hp. apply wp_ret, wp_put. by apply HQ.
Qed.

Lemma wp_out p v s Q : Q tt (set_bdrv (outb p (u8 v) (bdrv s)) s) → wp (out p v) s Q.
Proof. done. Qed.

Lemma high_nibble h : 0 ≤ h < 16 →
  Z.land (u8 (Z.lor h 0xe0)) 15 = h ∧ Z.land (Z.shiftr (u8 (Z.lor h 0xe0)) 4) 1 = 0.
Proof.
  intros Hh. assert (h = 0 ∨ h = 1 ∨ h = 2 ∨ h = 3 ∨ h = 4 ∨ h = 5 ∨ h = 6 ∨ h = 7 ∨ h = 8 ∨ h = 9 ∨ h = 10 ∨ h = 11
    ∨ h = 12 ∨ h = 13 ∨ h = 14 ∨ h = 15) as Hc by lia. destruct_or! Hc; subst h; done.
Qed.

Lemma sector_address n v : 0 ≤ n < 2 ^ 28 →
  reg v 0x1f3 = u8 n → reg v 0x1f4 = u8 (Z.shiftr n 8) → reg v 0x1f5 = u8 (Z.shiftr n 16) →
  reg v 0x1f6 = u8 (Z.lor (Z.shiftr n 24) 0xe0) → lba v = n ∧ selected v = 0.
Proof.
  intros Hn H3 H4 H5 H6.
  destruct (high_nibble (Z.shiftr n 24)) as [Hh Hs].
  { rewrite Z.shiftr_div_pow2 by lia. split; [apply Z.div_pos; lia|apply Z.div_lt_upper_bound; lia]. }
  unfold lba, selected. rewrite H3, H4, H5, H6, Hh, Hs. split; [|done].
  rewrite !Z.shiftr_div_pow2 by lia. unfold u8.
  change (2 ^ 24) with (256 * 256 * 256). change (2 ^ 16) with (256 * 256). change (2 ^ 8) with 256.
  rewrite <-!Z.div_div by lia. pose proof (Z.div_mod n 256). pose proof (Z.div_mod (n / 256) 256).
  pose proof (Z.div_mod (n / 256 / 256) 256). lia.
Qed.

Lemma wp_readsect dst n s Q :
  0 ≤ n < 2 ^ 28 →
  (∀ d, sect (view d) = sect (view (bdrv s)) →
     Q tt (St (store_bytes (bmem s) dst (sect (view (bdrv s)) 0 n)) d)) →
  wp (readsect dst n) s Q.
Proof.
  intros Hn HQ. unfold readsect. apply wp_bind, wp_waitdisk. intros d0 Hd0.
  do 5 (apply wp_bind, wp_out). cbn [bdrv set_bdrv]. set (d1 := outb 0x1f6 _ _).
  assert (view d1 = set_reg 0x1f6 (u8 (Z.lor (Z.shiftr n 24) 0xe0)) (set_reg 0x1f5 (u8 (Z.shiftr n 16))
    (set_reg 0x1f4 (u8 (Z.shiftr n 8)) (set_reg 0x1f3 (u8 n) (set_reg 0x1f2 1 (view (bdrv s))))))) as Hv.
  { unfold d1. rewrite !drive_reg by lia. by rewrite Hd0. }
  destruct (sector_address n (view d1) Hn) as [Hlba Hsel]; [by rewrite Hv..|].
  apply wp_bind, wp_out. change (u8 32) with IDE_CMD_READ.
  apply wp_bind, wp_waitdisk. intros d2 Hd2. cbn in Hd2. apply wp_bind, wp_get. cbn [bdrv set_bdrv bmem].
  change (Z.to_nat (SECTSIZE / 4)) with 128%nat.
  destruct (drive_in 0 n d2) as [Hl Hv2].
  { rewrite Hd2, drive_read. unfold start. simpl. by rewrite Hlba, Hsel, Hv. }
  destruct (insl 0x1f0 128 d2) as [l d3]. simpl in Hl, Hv2.
  assert (sect (view d2) = sect (view (bdrv s))) as Hs2 by (rewrite Hd2, drive_read; simpl; by rewrite Hv).
  apply wp_put. rewrite Hl, Hs2. apply HQ. by rewrite Hv2.
Qed.

(** ** Segments of the file *)

(** [K] sectors from [o] on are in memory from [pa] on, and nothing else changed. *)
Definition loaded (f : Z → list Z) (m m' : mem) (pa o : Z) (K : nat) : Prop :=
  ∀ x, m' x = if decide (pa ≤ x < pa + SECTSIZE * Z.of_nat K)
    then byte_of (f (o + (x - pa) / SECTSIZE)) ((x - pa) mod SECTSIZE) else m x.

Lemma loaded_step f m m' pa o K :
  (∀ n, length (f n) = SECTOR_SIZE) →
  loaded f (store_bytes m pa (f o)) m' (pa + SECTSIZE) (o + 1) K → loaded f m m' pa o (S K).
Proof.
  intros Hlen Hl x. rewrite (Hl x). unfold SECTSIZE, byte_of in *. rewrite store_bytes_spec.
  destruct (decide (pa ≤ x < pa + 512)) as [Hin|Hin].
  - case_decide; [lia|]. case_decide; [|lia]. case_decide; [|lia]. rewrite Z.div_small, Z.mod_small, Z.add_0_r by lia.
    destruct (lookup_lt_is_Some_2 (f o) (Z.to_nat (x - pa))) as [b Hb]; [rewrite Hlen; unfold SECTOR_SIZE; lia|].
    by rewrite Hb.
  - case_decide as H2.
    + case_decide; [|lia]. replace (x - (pa + 512)) with ((x - pa) + (-1) * 512) by lia.
      rewrite Z.div_add, Z.mod_add by lia. by replace (o + 1 + ((x - pa) / 512 + -1)) with (o + (x - pa) / 512) by lia.
    + case_decide; [|by case_decide; [lia|]]. case_decide; [lia|].
      rewrite lookup_ge_None_2; [done|]. rewrite Hlen. unfold SECTOR_SIZE. lia.
Qed.

Lemma wp_readseg_loop f K : ∀ fuel pa epa o s Q,
  (∀ n, length (f n) = SECTOR_SIZE) → sect (view (bdrv s)) 0 = f →
  0 ≤ pa → epa ≤ pa + SECTSIZE * Z.of_nat K → pa + SECTSIZE * Z.of_nat K < epa + SECTSIZE → epa + SECTSIZE ≤ 2 ^ 32 →
  (K = 0%nat → epa ≤ pa) → 0 ≤ o → o + Z.of_nat K < 2 ^ 28 → (K ≤ fuel)%nat →
  (∀ m d, loaded f (bmem s) m pa o K → sect (view d) = sect (view (bdrv s)) → Q tt (St m d)) →
  wp (readseg_loop fuel pa epa o) s Q.
Proof.
  induction K as [|K IH]; intros fuel pa epa o s Q Hlen Hf Hpa He1 He2 Hmax H0' Ho Hob Hfu HQ; unfold SECTSIZE in *.
  - specialize (H0' eq_refl). destruct fuel; cbn [readseg_loop]; rewrite bool_decide_false by lia; apply wp_ret;
      destruct s as [m d]; (apply HQ; [|done]); intros x; by rewrite decide_False by lia.
  - destruct fuel as [|fuel]; [lia|]. cbn [readseg_loop]. rewrite bool_decide_true by lia.
    apply wp_bind, wp_readsect; [lia|]. intros d Hd. unfold SECTSIZE. rewrite u32_small, u32_small by lia.
    apply IH; cbn [bdrv bmem]; try done; try lia; [by rewrite Hd|].
    intros m d' Hm Hd'. apply HQ; [|congruence]. apply loaded_step; [done|]. cbn [bmem] in Hm. rewrite Hf in Hm. exact Hm.
Qed.

(** [readseg] reads [count] bytes of the file from [off] on to [pa]. It writes whole
    sectors, so up to 511 bytes before and after may change as well. *)
Lemma wp_readseg f pa count off s Q :
  (∀ n, length (f n) = SECTOR_SIZE) → sect (view (bdrv s)) 0 = f →
  0 ≤ count → 0 ≤ off < 2 ^ 32 → off mod SECTSIZE ≤ pa → pa + count + SECTSIZE ≤ 2 ^ 32 →
  (∀ m d, sect (view d) = sect (view (bdrv s)) →
     (∀ x, pa ≤ x < pa + count → m x = img f (off + (x - pa))) →
     (∀ x, x < pa - off mod SECTSIZE ∨ pa + count + 511 ≤ x → m x = bmem s x) → Q tt (St m d)) →
  wp (readseg pa count off) s Q.
Proof.
  intros Hlen Hf Hc Hoff Hpa Hmax HQ. unfold readseg, SECTSIZE in *.
  pose proof (Z.mod_pos_bound off 512 ltac:(lia)) as Hm. pose proof (Z.div_mod off 512 ltac:(lia)) as Hdm.
  rewrite !u32_small by lia. set (r := off mod 512) in *. set (q := off / 512) in *.
  assert (0 ≤ q < 2 ^ 23 + 1) as Hq by lia.
  set (K := Z.to_nat ((count + r + 511) / 512)).
  assert (512 * Z.of_nat K < count + r + 512 ∧ count + r ≤ 512 * Z.of_nat K) as [HK1 HK2].
  { unfold K. rewrite Z2Nat.id by (apply Z.div_pos; lia). pose proof (Z.div_mod (count + r + 511) 512 ltac:(lia)).
    pose proof (Z.mod_pos_bound (count + r + 511) 512 ltac:(lia)). lia. }
  apply (wp_readseg_loop f K); unfold SECTSIZE; try done; try lia.
  - replace (pa + count - (pa - r)) with (count + r) by lia. unfold K. apply Z2Nat.inj_le; try lia.
    + apply Z.div_pos; lia.
    + pose proof (Z.div_pos (count + r) 512). lia.
    + replace (count + r + 511) with (count + r - 1 + 1 * 512) by lia. rewrite Z.div_add by lia.
      assert ((count + r - 1) / 512 ≤ (count + r) / 512) by (apply Z.div_le_mono; lia). lia.
  - intros m d Hl Hd. apply HQ; [done| |].
    + intros x Hx. rewrite (Hl x). unfold SECTSIZE. rewrite decide_True by lia. unfold img, SECTSIZE.
      replace (off + (x - pa)) with (x - (pa - r) + q * 512) by lia. rewrite Z.div_add, Z.mod_add by lia.
      by replace (q + 1 + (x - (pa - r)) / 512) with ((x - (pa - r)) / 512 + q + 1) by lia.
    + intros x Hx. rewrite (Hl x). unfold SECTSIZE. rewrite decide_False by lia. done.
Qed.

(** ** The kernel *)

(** A program header. *)
Record segment := Segment { g_off : Z; g_pa : Z; g_filesz : Z; g_memsz : Z }.

Section kernel.
(** The sectors of disk 0. *)
Context (f : Z → list Z).

(** The first page of the file, where [bootmain] puts it. *)
Definition page0 : mem := λ a, img f (a - elf).
Definition phdr (i : nat) : Z := elf + elf_phoff page0 elf + 32 * Z.of_nat i.
Definition seg_of (i : nat) : segment :=
  Segment (ph_off page0 (phdr i)) (ph_paddr page0 (phdr i)) (ph_filesz page0 (phdr i)) (ph_memsz page0 (phdr i)).
Definition nsegs : nat := Z.to_nat (elf_phnum page0 elf).

(** Where loading a segment may write. *)
Definition touches (g : segment) (a : Z) : Prop :=
  g_pa g - g_off g mod SECTSIZE ≤ a < Z.max (g_pa g + g_filesz g + 511) (g_pa g + g_memsz g).
Definition within (g : segment) (a : Z) : Prop := g_pa g ≤ a < g_pa g + g_memsz g.

(** A kernel that can be loaded: its headers are on its first page; its segments are
    below 4 GB, stay off that page, and a later one does not touch an earlier one. *)
Record loadable : Prop := {
  ld_magic : elf_magic page0 elf = ELF_MAGIC;
  ld_headers : elf_phoff page0 elf + 32 * elf_phnum page0 elf ≤ 4096;
  ld_size i : (i < nsegs)%nat → g_filesz (seg_of i) ≤ g_memsz (seg_of i);
  ld_low i : (i < nsegs)%nat → g_off (seg_of i) mod SECTSIZE ≤ g_pa (seg_of i);
  ld_high i : (i < nsegs)%nat → g_pa (seg_of i) + g_memsz (seg_of i) + SECTSIZE ≤ 2 ^ 32;
  ld_page i a : (i < nsegs)%nat → elf ≤ a < elf + 4096 → ¬ touches (seg_of i) a;
  ld_order i j a : (i < j < nsegs)%nat → within (seg_of i) a → ¬ touches (seg_of j) a;
}.

(** The segment is in memory, with zeros after what the file has of it. *)
Definition in_memory (g : segment) (m : mem) : Prop :=
  ∀ k, 0 ≤ k < g_memsz g → m (g_pa g + k) = if decide (k < g_filesz g) then img f (g_off g + k) else 0.

Definition page_ok (m : mem) : Prop := ∀ a, elf ≤ a < elf + 4096 → m a = page0 a.

Lemma img_byte k : 0 ≤ img f k < 256.
Proof. apply u8_range. Qed.

Lemma load32_page m a : page_ok m → elf ≤ a → a + 4 ≤ elf + 4096 → load32 m a = load32 page0 a.
Proof. intros Hm H1 H2. apply load32_ext. intros x Hx. apply Hm. lia. Qed.

Lemma load32_page_range a : 0 ≤ load32 page0 a < 2 ^ 32.
Proof.
  unfold load32, page0. pose proof (img_byte (a - elf)). pose proof (img_byte (a + 1 - elf)).
  pose proof (img_byte (a + 2 - elf)). pose proof (img_byte (a + 3 - elf)). lia.
Qed.

(** The header of segment [i] as a memory with the page shows it. *)
Lemma seg_read m i : loadable → page_ok m → (i < nsegs)%nat →
  ph_off m (phdr i) = g_off (seg_of i) ∧ ph_paddr m (phdr i) = g_pa (seg_of i) ∧
  ph_filesz m (phdr i) = g_filesz (seg_of i) ∧ ph_memsz m (phdr i) = g_memsz (seg_of i).
Proof.
  intros Hl Hm Hi. pose proof (ld_headers Hl) as Hh. unfold nsegs in Hi.
  assert (0 ≤ elf_phoff page0 elf) by apply load32_page_range.
  unfold seg_of, ph_off, ph_paddr, ph_filesz, ph_memsz. simpl.
  split_and!; apply load32_page; try done; unfold phdr; lia.
Qed.

(** The headers end below 4 GB, so that the loop sees them all. *)
Lemma headers_fit : loadable →
  (let ph := u32 (phdr 0) in
   load_all (if bool_decide (ph < u32 (ph + 32 * elf_phnum page0 elf)) then nsegs else 0) ph) = load_all nsegs (phdr 0).
Proof.
  intros Hl. pose proof (ld_headers Hl) as Hh. pose proof (load32_page_range (elf + 28)) as Ho.
  assert (0 ≤ elf_phnum page0 elf) as Hp.
  { unfold elf_phnum, page0. pose proof (img_byte (elf + 44 - elf)). pose proof (img_byte (elf + 45 - elf)). lia. }
  unfold phdr. unfold elf_phoff in *. cbv zeta. rewrite u32_small by (unfold elf in *; lia).
  destruct (decide (nsegs = 0)%nat) as [->|Hn]; [by case_bool_decide|]. unfold nsegs in Hn.
  rewrite u32_small by (unfold elf in *; lia). by rewrite bool_decide_true by lia.
Qed.

(** One round of the loop. *)
Lemma wp_load_one i s Q :
  loadable → (∀ n, length (f n) = SECTOR_SIZE) → sect (view (bdrv s)) 0 = f → page_ok (bmem s) → (i < nsegs)%nat →
  (∀ s', sect (view (bdrv s')) = sect (view (bdrv s)) → in_memory (seg_of i) (bmem s') →
     (∀ a, ¬ touches (seg_of i) a → bmem s' a = bmem s a) → Q s') →
  wp (let m := bmem s in
      let pa := ph_paddr m (phdr i) in
      kbind (readseg pa (ph_filesz m (phdr i)) (ph_off m (phdr i))) (λ _, kbind kget (λ s,
      let m := bmem s in
      kwhen (bool_decide (ph_filesz m (phdr i) < ph_memsz m (phdr i)))
        (kput (set_bmem (stosb m (u32 (pa + ph_filesz m (phdr i))) 0 (Z.to_nat (ph_memsz m (phdr i) - ph_filesz m (phdr i)))) s))))) s (λ _, Q).
Proof.
  intros Hl Hlen Hf Hpg Hi HQ. cbv zeta.
  destruct (seg_read _ i Hl Hpg Hi) as (-> & -> & -> & _).
  pose proof (ld_size Hl i Hi) as Hsz. pose proof (ld_low Hl i Hi) as Hlow. pose proof (ld_high Hl i Hi) as Hhigh.
  assert (0 ≤ g_off (seg_of i) < 2 ^ 32) as Hoff by apply load32_page_range.
  assert (0 ≤ g_filesz (seg_of i) < 2 ^ 32) as Hfs by apply load32_page_range.
  apply wp_bind, (wp_readseg f); try done; try lia. intros m d Hd Hin Hout.
  assert (page_ok m) as Hpg'.
  { intros a Ha. rewrite Hout; [by apply Hpg|]. pose proof (ld_page Hl i a Hi Ha) as Hn. unfold touches in Hn. lia. }
  apply wp_bind, wp_get. cbn [bmem]. destruct (seg_read m i Hl Hpg' Hi) as (_ & _ & -> & ->).
  assert (0 ≤ g_pa (seg_of i)) by apply load32_page_range. rewrite (u32_small (_ + _)) by (unfold SECTSIZE in Hhigh; lia).
  set (g := seg_of i) in *.
  assert (∀ a, ¬ touches g a → m a = bmem s a) as Hfr.
  { intros a Ha. apply Hout. unfold touches in Ha. lia. }
  apply wp_when; intros Hb.
  - apply bool_decide_eq_true in Hb. apply wp_put. apply HQ; [done| |].
    + intros k Hk. cbn [bmem set_bmem]. rewrite stosb_spec. case_decide; [by rewrite decide_False by lia|].
      rewrite decide_True by lia. rewrite Hin by lia. f_equal. lia.
    + intros a Ha. cbn [bmem set_bmem]. rewrite stosb_spec. rewrite decide_False; [by apply Hfr|].
      pose proof (Z.mod_pos_bound (g_off g) SECTSIZE ltac:(unfold SECTSIZE; lia)). unfold touches in Ha. lia.
  - apply bool_decide_eq_false in Hb. apply HQ; [done| |done].
    intros k Hk. cbn [bmem]. rewrite decide_True by lia. rewrite Hin by lia. f_equal. lia.
Qed.

Lemma wp_load_all n : ∀ i s Q,
  loadable → (∀ n, length (f n) = SECTOR_SIZE) → sect (view (bdrv s)) 0 = f → page_ok (bmem s) →
  (i + n = nsegs)%nat → (∀ j, (j < i)%nat → in_memory (seg_of j) (bmem s)) →
  (∀ s', page_ok (bmem s') → (∀ j, (j < nsegs)%nat → in_memory (seg_of j) (bmem s')) → Q tt s') →
  wp (load_all n (phdr i)) s Q.
Proof.
  induction n as [|n IH]; intros i s Q Hl Hlen Hf Hpg Hn Hdone HQ; cbn [load_all].
  - apply wp_ret, HQ; [done|]. intros j Hj. apply Hdone. lia.
  - apply wp_bind, wp_get, wp_bind.
    assert (i < nsegs)%nat as Hi by lia.
    pose proof (wp_load_one i s) as Hone. cbv zeta in Hone |- *.
    assert (∀ s', sect (view (bdrv s')) = sect (view (bdrv s)) → in_memory (seg_of i) (bmem s') →
      (∀ a, ¬ touches (seg_of i) a → bmem s' a = bmem s a) → wp (load_all n (phdr i + 32)) s' Q) as Hrest.
    { intros s' Hs' Hin Hfr. replace (phdr i + 32) with (phdr (S i)) by (unfold phdr; lia).
      apply IH; try done; [by rewrite Hs'| |lia|].
      - intros a Ha. rewrite Hfr; [by apply Hpg|]. by apply (ld_page Hl).
      - intros j Hj. destruct (decide (j = i)) as [->|Hne]; [done|]. intros k Hk.
        rewrite Hfr; [by apply Hdone; [lia|]|]. apply (ld_order Hl j i); [lia|]. unfold within. lia. }
    specialize (Hone (λ s', wp (load_all n (phdr i + 32)) s' Q) Hl Hlen Hf Hpg Hi Hrest). clear Hrest.
    unfold wp, kbind in Hone |- *. destruct (readseg _ _ _ s); [|done..]. simpl in *. by destruct (kwhen _ _ _).
Qed.
End kernel.

(** C14: the boot loader puts the kernel in memory. From any memory, [bootmain] ends
    in a jump to the entry of a loadable kernel, and every segment is then at its
    physical address: the bytes of the file, followed by zeros up to the size in
    memory, although whole sectors are read over what lies around a segment. *)
Theorem bootmain_loads s f :
  sect (view (bdrv s)) 0 = f → (∀ n, length (f n) = SECTOR_SIZE) → loadable f →
  ∃ s', bootmain s = Done (Some (elf_entry (page0 f) elf)) s' ∧
    ∀ i, (i < nsegs f)%nat → in_memory f (seg_of f i) (bmem s').
Proof.
  intros Hf Hlen Hl.
  assert (wp bootmain s (λ r s', r = Some (elf_entry (page0 f) elf) ∧
    ∀ i, (i < nsegs f)%nat → in_memory f (seg_of f i) (bmem s'))) as Hw.
  2: { apply wp_done in Hw as (? & s' & ? & -> & ?). eauto. }
  unfold bootmain. apply wp_bind, (wp_readseg f); try done; try (unfold elf, SECTSIZE; done || lia).
  intros m d Hd Hin _.
  assert (page_ok f m) as Hpg.
  { intros a Ha. rewrite Hin by done. unfold page0. done. }
  apply wp_bind, wp_get. cbn [bmem].
  assert (elf_magic m elf = ELF_MAGIC) as Hmg.
  { rewrite <-(ld_magic f Hl). apply load32_page; [done|unfold elf; lia..]. }
  rewrite bool_decide_false by (intros Hx; by apply Hx).
  assert (elf_phnum m elf = elf_phnum (page0 f) elf) as ->.
  { unfold elf_phnum. rewrite !Hpg by (unfold elf; lia). done. }
  unfold elf_phoff. rewrite (load32_page f m (elf + 28)) by (done || unfold elf; lia).
  apply wp_bind. replace (elf + load32 (page0 f) (elf + 28)) with (phdr f 0) by (unfold phdr, elf_phoff; lia).
  rewrite headers_fit by done.
  apply (wp_load_all f _ 0); try done; [by rewrite <-Hd in Hf|intros j Hj; lia|].
  intros s' Hpg' Hall. apply wp_bind, wp_get, wp_ret. split; [|done]. f_equal. unfold elf_entry.
  apply load32_page; [done|unfold elf; lia..].
Qed.
End boot.

(** ** A kernel for the examples *)

(** One segment of four bytes, at 4096 in the file, with four zeros after it. *)
Definition demo_header : list Z :=
  [127; 69; 76; 70; 0; 0; 0; 0; 0; 0; 0; 0; 0; 0; 0; 0; 0; 0; 0; 0; 0; 0; 0; 0; 12; 0; 16; 0; 52; 0;
   0; 0; 0; 0; 0; 0; 0; 0; 0; 0; 0; 0; 0; 0; 1; 0; 0; 0; 0; 0; 0; 0; 1; 0; 0; 0; 0; 16; 0; 0; 0; 0;
   16; 128; 0; 0; 16; 0; 4; 0; 0; 0; 8; 0; 0; 0; 0; 0; 0; 0; 0; 0; 0; 0].
Definition demo_byte (k : Z) : Z :=
  if bool_decide (k < 84) then default 0 (demo_header !! Z.to_nat k)
  else if bool_decide (4096 ≤ k < 4100) then k - 4095 else 0.
Definition demo_sector (n : Z) : list Z := (λ k, demo_byte (512 * (n - 1) + k)) <$> seqZ 0 512.
Definition demo_boot : st (D:=simdrive) := St (λ _, 7) (Simdrive (λ _, 0) (λ _, demo_sector) None false).

Lemma demo_segment : seg_of demo_sector 0 = Segment 4096 1048576 4 8.
Proof. vm_compute. reflexivity. Qed.

Lemma demo_loadable : loadable demo_sector.
Proof.
  assert (nsegs demo_sector = 1%nat) as Hn by (vm_compute; reflexivity).
  assert (∀ i, (i < nsegs demo_sector)%nat → seg_of demo_sector i = Segment 4096 1048576 4 8) as Hs.
  { rewrite Hn. intros [|i] Hi; [apply demo_segment|lia]. }
  split.
  - vm_compute. reflexivity.
  - vm_compute. discriminate.
  - intros i Hi. rewrite (Hs i Hi). simpl. lia.
  - intros i Hi. rewrite (Hs i Hi). simpl. discriminate.
  - intros i Hi. rewrite (Hs i Hi). simpl. unfold SECTSIZE. lia.
  - intros i a Hi Ha. rewrite (Hs i Hi). unfold touches, elf in *. simpl. change (4096 mod SECTSIZE) with 0. lia.
  - intros i j a Hij. rewrite Hn in Hij. lia.
Qed.

Lemma bootmain_loads_witness :
  ∃ s', bootmain demo_boot = Done (Some 1048588) s' ∧ bmem s' 1048576 = 1 ∧ bmem s' 1048583 = 0.
Proof.
  destruct (bootmain_loads demo_boot demo_sector) as (s' & Hd & Hm).
  - reflexivity.
  - intros n. unfold demo_sector. rewrite length_fmap, length_seqZ. reflexivity.
  - exact demo_loadable.
  - exists s'. specialize (Hm 0%nat). rewrite demo_segment in Hm. split.
    + rewrite Hd. vm_compute. reflexivity.
    + assert ((0 < nsegs demo_sector)%nat) as H0 by (vm_compute; lia).
      pose proof (Hm H0 0 ltac:(simpl; lia)) as Ha. pose proof (Hm H0 7 ltac:(simpl; lia)) as Hb. 
      change (bmem s' 1048576 = img demo_sector 4096) in Ha. change (bmem s' 1048583 = 0) in Hb.
      split; [rewrite Ha; vm_compute; reflexivity|exact Hb].
Defined.
