(* ===== verification/User.v ===== *)
(** * User programs (user.h, usys.S, ulib.c, printf.c)

    A user program is a tree of system calls: each node is a call and what the
    program does with the number and the data that come back. A loop whose
    length the system decides takes fuel and ends in [Stuck] when it is used
    up. [run] runs a program against any system, given as a function from a
    call and the state of the world to what it returns. *)

From S2P Require Import Prelude CString.

Local Open Scope Z_scope.

(** The stubs of usys.S, with what the pointers among the arguments lead to.
    A call returns a number and the data it stores for the caller: the bytes
    read, the two descriptors of a pipe, the words of a [struct stat]. *)
Inductive call :=
  | SYS_fork (D C P O : Z)
  | SYS_wait
  | SYS_pipe
  | SYS_read (fd n : Z)
  | SYS_write (fd : Z) (bs : list Z)
  | SYS_close (fd : Z)
  | SYS_kill (pid : Z)
  | SYS_exec (path : list Z) (argv : list (list Z))
  | SYS_open (path : list Z) (mode : Z)
  | SYS_mknod (path : list Z) (major minor : Z)
  | SYS_unlink (path : list Z)
  | SYS_fstat (fd : Z)
  | SYS_link (old new : list Z)
  | SYS_mkdir (path : list Z)
  | SYS_chdir (path : list Z)
  | SYS_dup (fd : Z)
  | SYS_getpid
  | SYS_sbrk (n : Z)
  | SYS_sleep (n : Z)
  | SYS_uptime
  | SYS_freeze (f : Z)
  | SYS_print (f : Z).

Inductive prog (A : Type) : Type :=
  | Ret (a : A)
  | Exit
  | Stuck
  | Call (c : call) (k : Z → list Z → prog A).
Arguments Ret {A} a.
Arguments Exit {A}.
Arguments Stuck {A}.
Arguments Call {A} c k.

Fixpoint pbind {A B} (m : prog A) (f : A → prog B) : prog B :=
  match m with
  | Ret a => f a
  | Exit => Exit
  | Stuck => Stuck
  | Call c k => Call c (λ r d, pbind (k r d) f)
  end.

Declare Scope prog_scope.
Delimit Scope prog_scope with prog.
Notation "x ← m ; k" := (pbind m (λ x, k)) (at level 20, m at level 100, k at level 200, right associativity) : prog_scope.
Notation "m ;; k" := (pbind m (λ _, k)) (at level 100, k at level 200, right associativity) : prog_scope.

(** A call for its number, and for its number and data. *)
Definition sys (c : call) : prog Z := Call c (λ r _, Ret r).
Definition sysd (c : call) : prog (Z * list Z) := Call c (λ r d, Ret (r, d)).

Fixpoint pfor {A} (l : list A) (f : A → prog unit) : prog unit :=
  match l with [] => Ret tt | x :: l => (f x ;; pfor l f)%prog end.

(** ** The library: printf.c and ulib.c *)

Section lib.
Local Open Scope prog_scope.

Definition putc (fd c : Z) : prog unit := sys (SYS_write fd [u8 c]) ;; Ret tt.

Definition digit (x : Z) : Z := if bool_decide (x < 10) then 48 + x else 55 + x.

(** [buf] of [printint], last digit first; 32 rounds are enough for any base. *)
Fixpoint digits (fuel : nat) (x base : Z) : list Z :=
  match fuel with
  | O => []
  | S fuel => digit (x mod base) :: if bool_decide (x / base = 0) then [] else digits fuel (x / base) base
  end.

Definition intbuf (xx base : Z) (sgn : bool) : list Z :=
  let neg := sgn && bool_decide (xx < 0) in
  digits 32 (u32 (if neg then - xx else xx)) base ++ (if neg then [45] else []).

Definition printint (fd xx base : Z) (sgn : bool) : prog unit := pfor (reverse (intbuf xx base sgn)) (putc fd).

(** The words behind [fmt] on the stack: a number, or a pointer to a string. *)
Inductive parg := PInt (w : Z) | PStr (s : option (list Z)).

Definition null_text : list Z := [40; 110; 117; 108; 108; 41].

(** What a conversion prints, and the arguments left. One for which there is
    no argument of its kind reads whatever is there and is not modelled. *)
Definition conversion (c : Z) (ap : list parg) : option (list Z * list parg) :=
  if bool_decide (c = 100) then
    match ap with PInt w :: ap => Some (reverse (intbuf (i32 w) 10 true), ap) | _ => None end
  else if bool_decide (c = 120 ∨ c = 112) then
    match ap with PInt w :: ap => Some (reverse (intbuf (i32 w) 16 false), ap) | _ => None end
  else if bool_decide (c = 115) then
    match ap with PStr s :: ap => Some (default null_text s, ap) | _ => None end
  else if bool_decide (c = 99) then
    match ap with PInt w :: ap => Some ([u8 w], ap) | _ => None end
  else if bool_decide (c = 37) then Some ([c], ap)
  else Some ([37; c], ap).

(** [state] is '%' or 0. *)
Fixpoint printf_loop (fd : Z) (state : bool) (fmt : list Z) (ap : list parg) : prog unit :=
  match fmt with
  | [] => Ret tt
  | c :: fmt =>
    if state then
      match conversion c ap with
      | Some (t, ap) => pfor t (putc fd) ;; printf_loop fd false fmt ap
      | None => Stuck
      end
    else if bool_decide (c = 37) then printf_loop fd true fmt ap
    else putc fd c ;; printf_loop fd false fmt ap
  end.

Definition printf (fd : Z) (fmt : list Z) (ap : list parg) : prog unit := printf_loop fd false fmt ap.

(** The characters of a string constant. *)
Definition str (s : string) : list Z := (λ a, Z.of_nat (Ascii.nat_of_ascii a)) <$> String.list_ascii_of_string s.

Definition strchr_list (s : list Z) (c : Z) : bool := bool_decide (c ∈ s).

(** [gets]: the bytes put in [buf], before the null. *)
Fixpoint gets (max : nat) : prog (list Z) :=
  match max with
  | S (S _ as max') =>
    r ← sysd (SYS_read 0 1);
    match r.2 with
    | c :: _ =>
      if bool_decide (r.1 < 1) then Ret []
      else if bool_decide (c = 10 ∨ c = 13) then Ret [c]
      else l ← gets max'; Ret (c :: l)
    | [] => if bool_decide (r.1 < 1) then Ret [] else Stuck
    end
  | _ => Ret []
  end.

(** [stat] prints the name first. *)
Definition stat (n : list Z) : prog (Z * list Z) :=
  printf 1 (str "n = %s" ++ [10]) [PStr (Some n)] ;;
  fd ← sys (SYS_open n 0);
  if bool_decide (fd < 0) then Ret (-1, [])
  else
    r ← sysd (SYS_fstat fd);
    sys (SYS_close fd) ;;
    Ret r.
End lib.

(** ** Running a program *)

Section run.
Context {S : Type} (os : call → S → Z * list Z * S).

(** [None] if the fuel of a loop ran out; the result is [None] after [exit]. *)
Fixpoint run {A} (m : prog A) (s : S) : option (option A * S) :=
  match m with
  | Ret a => Some (Some a, s)
  | Exit => Some (None, s)
  | Stuck => None
  | Call c k => let '(r, d, s') := os c s in run (k r d) s'
  end.

(** Total correctness: the program ends, by returning or by [exit], in [Q]. *)
Definition uwp {A} (m : prog A) (s : S) (Q : option A → S → Prop) : Prop :=
  match run m s with Some (o, s') => Q o s' | None => False end.

Lemma uwp_ret {A} (a : A) s (Q : option A → S → Prop) : Q (Some a) s → uwp (Ret a) s Q.
Proof. done. Qed.

Lemma uwp_exit {A} s (Q : option A → S → Prop) : Q None s → uwp Exit s Q.
Proof. done. Qed.

Lemma uwp_call {A} c (k : Z → list Z → prog A) s Q :
  (let '(r, d, s') := os c s in uwp (k r d) s' Q) → uwp (Call c k) s Q.
Proof. unfold uwp. simpl. by destruct (os c s) as [[r d] s']. Qed.

Lemma run_bind {A B} (m : prog A) (f : A → prog B) : ∀ s, run (pbind m f) s =
  match run m s with Some (Some a, s') => run (f a) s' | Some (None, s') => Some (None, s') | None => None end.
Proof.
  induction m as [a| | |c k IH]; intros s; simpl; [done..|]. destruct (os c s) as [[r d] s']. apply IH.
Qed.

Lemma uwp_bind {A B} (m : prog A) (f : A → prog B) s Q :
  uwp m s (λ o s', match o with Some a => uwp (f a) s' Q | None => Q None s' end) → uwp (pbind m f) s Q.
Proof. unfold uwp. rewrite run_bind. by destruct (run m s) as [[[a|] s']|]. Qed.

Lemma uwp_mono {A} (m : prog A) s (Q Q' : option A → S → Prop) : uwp m s Q → (∀ o s', Q o s' → Q' o s') → uwp m s Q'.
Proof. unfold uwp. destruct (run m s) as [[o s']|]; auto. Qed.

Lemma uwp_run {A} (m : prog A) s Q : uwp m s Q → ∃ o s', run m s = Some (o, s') ∧ Q o s'.
Proof. unfold uwp. destruct (run m s) as [[o s']|]; [eauto|done]. Qed.
End run.

(** ** The descriptors that filters use

    What a program that reads one descriptor and writes to the standard output
    may rely on: [rest] is what is still to be read, [out] what was written.
    A read may return less than was asked for, but returns something unless
    nothing is left. *)
Class Stream {S : Type} (os : call → S → Z * list Z * S) (fd : Z) := {
  rest : S → list Z;
  out : S → list Z;
  st_read n s : 0 < n → ∃ d s', os (SYS_read fd n) s = (Z.of_nat (length d), d, s') ∧ rest s = d ++ rest s' ∧
    out s' = out s ∧ Z.of_nat (length d) ≤ n ∧ (d = [] → rest s = []);
  st_write bs s : ∃ s', os (SYS_write 1 bs) s = (Z.of_nat (length bs), [], s') ∧ rest s' = rest s ∧ out s' = out s ++ bs;
}.

Section stream.
Context {S : Type} (os : call → S → Z * list Z * S) (fd : Z) `{!Stream os fd}.

Lemma uwp_read {A} n (k : Z → list Z → prog A) s Q : 0 < n →
  (∀ d s', rest s = d ++ rest s' → out s' = out s → Z.of_nat (length d) ≤ n → (d = [] → rest s = []) →
    uwp os (k (Z.of_nat (length d)) d) s' Q) →
  uwp os (Call (SYS_read fd n) k) s Q.
Proof.
  intros Hn HQ. apply uwp_call. destruct (st_read n s Hn) as (d & s' & -> & Hr & Ho & Hl & He). by apply HQ.
Qed.

Lemma uwp_write {A} bs (k : Z → list Z → prog A) s Q :
  (∀ s', rest s' = rest s → out s' = out s ++ bs → uwp os (k (Z.of_nat (length bs)) []) s' Q) →
  uwp os (Call (SYS_write 1 bs) k) s Q.
Proof. intros HQ. apply uwp_call. destruct (st_write bs s) as (s' & -> & Hr & Ho). by apply HQ. Qed.

Lemma uwp_putc c s (Q : option unit → S → Prop) :
  0 ≤ c < 256 → (∀ s', rest s' = rest s → out s' = out s ++ [c] → Q (Some tt) s') → uwp os (putc 1 c) s Q.
Proof.
  intros Hc HQ. apply uwp_write. intros s' Hr Ho. apply uwp_ret, HQ; [done|]. by rewrite Ho, u8_id.
Qed.

Lemma uwp_puts l : ∀ s (Q : option unit → S → Prop), Forall (λ c, 0 ≤ c < 256) l →
  (∀ s', rest s' = rest s → out s' = out s ++ l → Q (Some tt) s') → uwp os (pfor l (putc 1)) s Q.
Proof.
  induction l as [|c l IH]; intros s Q Hl HQ; cbn [pfor].
  - apply uwp_ret, HQ; [done|]. by rewrite app_nil_r.
  - apply list.Forall_cons in Hl as [Hc Hl]. apply uwp_bind, uwp_putc; [done|]. intros s1 Hr1 Ho1. apply IH; [done|].
    intros s2 Hr2 Ho2. apply HQ; [by rewrite Hr2|]. by rewrite Ho2, Ho1, <-app_assoc.
Qed.
End stream.

(** ** What printf prints *)

(** [printf] as a function to text. *)
Fixpoint ftext (state : bool) (fmt : list Z) (ap : list parg) : option (list Z) :=
  match fmt with
  | [] => Some []
  | c :: fmt =>
    if state then match conversion c ap with Some (t, ap) => app t <$> ftext false fmt ap | None => None end
    else if bool_decide (c = 37) then ftext true fmt ap
    else cons c <$> ftext false fmt ap
  end.

Lemma digits_bytes fuel : ∀ x base, 2 ≤ base ≤ 16 → Forall (λ c, 0 ≤ c < 256) (digits fuel x base).
Proof.
  induction fuel as [|fuel IH]; intros x base Hb; cbn [digits]; [constructor|]. constructor.
  - pose proof (Z.mod_pos_bound x base). unfold digit. case_bool_decide; lia.
  - case_bool_decide; [constructor|by apply IH].
Qed.

Lemma intbuf_bytes xx base sgn : 2 ≤ base ≤ 16 → Forall (λ c, 0 ≤ c < 256) (intbuf xx base sgn).
Proof.
  intros Hb. unfold intbuf. apply Forall_app. split; [by apply digits_bytes|]. destruct (sgn && _); repeat constructor; lia.
Qed.

Definition parg_ok (a : parg) : Prop := match a with PStr (Some s) => Forall (λ c, 0 ≤ c < 256) s | _ => True end.

Lemma conversion_ok c ap t ap' : 0 ≤ c < 256 → Forall parg_ok ap → conversion c ap = Some (t, ap') →
  Forall (λ c, 0 ≤ c < 256) t ∧ Forall parg_ok ap'.
Proof.
  intros Hc Hap. unfold conversion.
  assert (∀ w b sg, 2 ≤ b ≤ 16 → Forall (λ c, 0 ≤ c < 256) (reverse (intbuf w b sg))) as Hi
    by (intros; by apply Forall_reverse, intbuf_bytes).
  assert (Forall (λ c, 0 ≤ c < 256) null_text) as Hn by (repeat constructor; lia).
  repeat case_bool_decide; try (destruct ap as [|[w|s] ap]; [done|..]; try done; apply list.Forall_cons in Hap as [Ha Hap]);
    intros [= <- <-]; split; try done; try (apply Hi; lia).
  - by destruct s.
  - constructor; [apply u8_range|constructor].
  - by constructor.
  - repeat constructor; lia.
Qed.

Section printf.
Context {S : Type} (os : call → S → Z * list Z * S) (fd : Z) `{!Stream os fd}.

Lemma uwp_printf_loop fmt : ∀ state ap t s (Q : option unit → S → Prop),
  Forall (λ c, 0 ≤ c < 256) fmt → Forall parg_ok ap → ftext state fmt ap = Some t →
  (∀ s', rest s' = rest s → out s' = out s ++ t → Q (Some tt) s') → uwp os (printf_loop 1 state fmt ap) s Q.
Proof.
  induction fmt as [|c fmt IH]; intros state ap t s Q Hf Hap Ht HQ; cbn [ftext printf_loop] in *.
  - injection Ht as <-. apply uwp_ret, HQ; [done|]. by rewrite app_nil_r.
  - apply list.Forall_cons in Hf as [Hc Hf]. destruct state.
    + destruct (conversion c ap) as [[u ap']|] eqn:Hcv; [|done]. destruct (conversion_ok _ _ _ _ Hc Hap Hcv) as [Hu Hap'].
      apply fmap_Some in Ht as (t' & Ht & ->). apply uwp_bind, (uwp_puts _ fd); [done|]. intros s1 Hr1 Ho1.
      apply (IH _ _ _ _ _ Hf Hap' Ht). intros s2 Hr2 Ho2. apply HQ; [by rewrite Hr2|]. by rewrite Ho2, Ho1, <-app_assoc.
    + case_bool_decide as Hp; [by apply (IH _ _ _ _ _ Hf Hap Ht)|]. apply fmap_Some in Ht as (t' & Ht & ->).
      apply uwp_bind, (uwp_putc _ fd); [done|]. intros s1 Hr1 Ho1. apply (IH _ _ _ _ _ Hf Hap Ht).
      intros s2 Hr2 Ho2. apply HQ; [by rewrite Hr2|]. by rewrite Ho2, Ho1, <-app_assoc.
Qed.
End printf.

(** *** Numbers can be read back *)

Definition dval (l : list Z) (n : Z) : Z := foldl (λ n c, n * 10 + (c - 48)) n l.

Lemma digits_val fuel : ∀ x, 0 ≤ x < 10 ^ Z.of_nat fuel → (0 < fuel)%nat →
  dval (reverse (digits fuel x 10)) 0 = x ∧ Forall (λ c, 48 ≤ c ≤ 57) (digits fuel x 10).
Proof.
  induction fuel as [|fuel IH]; intros x Hx Hf; [lia|]. cbn [digits].
  pose proof (Z.mod_pos_bound x 10 ltac:(lia)) as Hm. pose proof (Z.div_mod x 10 ltac:(lia)) as Hd.
  assert (digit (x mod 10) = 48 + x mod 10) as -> by (unfold digit; case_bool_decide; lia).
  case_bool_decide as Hz.
  - split; [|repeat constructor; lia]. unfold dval. simpl. lia.
  - rewrite Nat2Z.inj_succ, Z.pow_succ_r in Hx by lia.
    assert (0 ≤ x / 10 < 10 ^ Z.of_nat fuel) as Hq by (split; [apply Z.div_pos; lia|apply Z.div_lt_upper_bound; lia]).
    assert (0 < fuel)%nat as Hf' by (destruct fuel; [simpl in Hq; lia|lia]).
    destruct (IH _ Hq Hf') as [IH1 IH2]. split; [|constructor; [lia|done]].
    rewrite reverse_cons. unfold dval in *. rewrite foldl_app, IH1. simpl. lia.
Qed.
