(* ===== verification/Console.v ===== *)
(** * The console (console.c, kbd.c, kbd.h and the serial port of uart.c)

    Characters come from the keyboard or the serial line through
    [consoleintr], which edits the current line in a ring buffer and wakes the
    reader when the line is complete; [consoleread] takes complete lines.
    Output goes to the serial line and to the text screen. A call that sleeps
    runs in segments, as in the model of pipes. *)

From S2P Require Import Prelude User.

Local Open Scope Z_scope.

(** ** The keyboard *)

Definition SHIFT : Z := 1.
Definition CTL : Z := 2.
Definition ALT : Z := 4.
Definition CAPSLOCK : Z := 8.
Definition NUMLOCK : Z := 16.
Definition SCROLLLOCK : Z := 32.
Definition E0ESC : Z := 64.

(** C('A') == Control-A *)
Definition C (x : Z) : Z := x - 64.

(** A table of 256 bytes: its first entries, and those with an index. *)
Definition table (l : list Z) (more : list (nat * Z)) : list Z :=
  foldl (λ t x, <[x.1 := x.2]> t) (l ++ replicate (256 - length l) 0) more.

Definition shiftcode : list Z := table [] [(0x1D, CTL); (0x2A, SHIFT); (0x36, SHIFT); (0x38, ALT); (0x9D, CTL); (0xB8, ALT)]%nat.
Definition togglecode : list Z := table [] [(0x3A, CAPSLOCK); (0x45, NUMLOCK); (0x46, SCROLLLOCK)]%nat.

(** The keys behind an escape, from KP_Enter to KEY_DEL. *)
Definition keypad (enter div : Z) : list (nat * Z) :=
  [(0x9C, enter); (0xB5, div); (0xC8, 0xE2%Z); (0xD0, 0xE3%Z); (0xC9, 0xE6%Z); (0xD1, 0xE7%Z); (0xCB, 0xE4%Z); (0xCD, 0xE5%Z);
   (0x97, 0xE0%Z); (0xCF, 0xE1%Z); (0xD2, 0xE8%Z); (0xD3, 0xE9%Z)]%nat.

Definition normalmap : list Z := table
  ([0; 0x1B] ++ str "1234567890-=" ++ [8; 9] ++ str "qwertyuiop[]" ++ [10; 0] ++ str "asdfghjkl;'`" ++ [0] ++ str "\zxcvbnm,./" ++
   [0; 42; 0; 32] ++ replicate 13 0 ++ str "789-456+1230.") (keypad 10 47).
Definition shiftmap : list Z := table
  ([0; 27] ++ str "!@#$%^&*()_+" ++ [8; 9] ++ str "QWERTYUIOP{}" ++ [10; 0] ++ str "ASDFGHJKL:" ++ [34; 126] ++ [0] ++ str "|ZXCVBNM<>?" ++
   [0; 42; 0; 32] ++ replicate 13 0 ++ str "789-456+1230.") (keypad 10 47).
Definition ctlmap : list Z := table
  (replicate 16 0 ++ (C <$> str "QWERTYUIOP") ++ [0; 0; 13; 0] ++ (C <$> str "ASDFGHJKL") ++ [0; 0; 0; 0] ++ (C <$> str "\ZXCVBNM") ++
   [0; 0; u8 (C 47); 0; 0]) (keypad 13 (u8 (C 47))).

(** [charcode[i]]. *)
Definition charcode (i : Z) : list Z :=
  if bool_decide (i = 0) then normalmap else if bool_decide (i = 1) then shiftmap else ctlmap.

(** The character for [consoleintr] and the new [shift], when the keyboard has
    the byte [data] or nothing. An index out of a table is undefined. *)
Definition kbdgetc (shift : Z) (data : option Z) : option (Z * Z) :=
  match data with
  | None => Some (-1, shift)
  | Some data =>
    if bool_decide (data = 0xE0) then Some (0, Z.lor shift E0ESC)
    else if bool_decide (Z.land data 0x80 ≠ 0) then
      let data := if bool_decide (Z.land shift E0ESC ≠ 0) then data else Z.land data 0x7F in
      code ← shiftcode !! Z.to_nat data;
      Some (0, Z.land shift (Z.lnot (Z.lor code E0ESC)))
    else
      let '(data, shift) :=
        if bool_decide (Z.land shift E0ESC ≠ 0) then (Z.lor data 0x80, Z.land shift (Z.lnot E0ESC)) else (data, shift) in
      code ← shiftcode !! Z.to_nat data;
      toggle ← togglecode !! Z.to_nat data;
      let shift := Z.lxor (Z.lor shift code) toggle in
      c ← charcode (Z.land shift (Z.lor CTL SHIFT)) !! Z.to_nat data;
      Some (if bool_decide (Z.land shift CAPSLOCK ≠ 0) then
              if bool_decide (97 ≤ c ≤ 122) then c - 32 else if bool_decide (65 ≤ c ≤ 90) then c + 32 else c
            else c, shift)
  end.

(** [while((c = getc()) >= 0)] over [kbdgetc]: the characters of an interrupt at
    which the keyboard has [bytes], and [shift] at its end. *)
Fixpoint kbd_chars (shift : Z) (bytes : list Z) : option (list Z * Z) :=
  x ← kbdgetc shift (head bytes);
  if bool_decide (x.1 < 0) then Some ([], x.2)
  else
    match bytes with
    | [] => None
    | _ :: bytes => y ← kbd_chars x.2 bytes; Some (x.1 :: y.1, y.2)
    end.

(** ** State *)

Definition BACKSPACE : Z := 0x100.
Definition INPUT_BUF : Z := 128.

Module Console.
(** The text screen and its cursor, and what was sent on the serial line. *)
Record screen := Screen { crt : list Z; cursor : Z; uart : bool; serial : list Z }.
Record input := Input { ibuf : list Z; ir : Z; iw : Z; ie : Z }.

(** Calls to other parts of the kernel, in order. *)
Inductive event :=
| EWakeup (c : chan)      (* wakeup(c) *)
| EIunlock                (* iunlock of the console's inode *)
| EIlock.                 (* ilock of it *)

Record st := St {
  sheld : list lock;
  scr : screen;
  inp : input;
  locking : bool;         (* cons.locking *)
  panicked : bool;
  kshift : Z;             (* shift of kbdgetc *)
  events : list event;
  devsw : bool;           (* devsw[CONSOLE] has the functions below *)
  irqs : list Z;          (* interrupts enabled *)
  ports : list (Z * Z);   (* bytes written to the set-up ports of the UART *)
}.

Definition set_sheld (h : list lock) (s : st) : st :=
  St h (scr s) (inp s) (locking s) (panicked s) (kshift s) (events s) (devsw s) (irqs s) (ports s).
Definition set_scr (x : screen) (s : st) : st :=
  St (sheld s) x (inp s) (locking s) (panicked s) (kshift s) (events s) (devsw s) (irqs s) (ports s).
Definition set_inp (x : input) (s : st) : st :=
  St (sheld s) (scr s) x (locking s) (panicked s) (kshift s) (events s) (devsw s) (irqs s) (ports s).
Definition set_locking (b : bool) (s : st) : st :=
  St (sheld s) (scr s) (inp s) b (panicked s) (kshift s) (events s) (devsw s) (irqs s) (ports s).
Definition set_panicked (b : bool) (s : st) : st :=
  St (sheld s) (scr s) (inp s) (locking s) b (kshift s) (events s) (devsw s) (irqs s) (ports s).
Definition set_kshift (k : Z) (s : st) : st :=
  St (sheld s) (scr s) (inp s) (locking s) (panicked s) k (events s) (devsw s) (irqs s) (ports s).
Definition add_event (e : event) (s : st) : st :=
  St (sheld s) (scr s) (inp s) (locking s) (panicked s) (kshift s) (events s ++ [e]) (devsw s) (irqs s) (ports s).
Definition set_devsw (s : st) : st :=
  St (sheld s) (scr s) (inp s) (locking s) (panicked s) (kshift s) (events s) true (irqs s) (ports s).
Definition add_irq (i : Z) (s : st) : st :=
  St (sheld s) (scr s) (inp s) (locking s) (panicked s) (kshift s) (events s) (devsw s) (irqs s ++ [i]) (ports s).
Definition outb (port b : Z) (s : st) : st :=
  St (sheld s) (scr s) (inp s) (locking s) (panicked s) (kshift s) (events s) (devsw s) (irqs s) (ports s ++ [(port, b)]).

#[export] Instance st_locks : HasLocks st.
Proof. refine {| held := sheld; set_held := set_sheld |}; intros; by destruct s. Defined.

Section output.
Local Open Scope kern_scope.

(** ** Output *)

(** Stores outside the memory of the screen are undefined. *)
Definition put_cell (i x : Z) (l : list Z) : option (list Z) :=
  if decide (0 ≤ i < Z.of_nat (length l)) then Some (<[Z.to_nat i := x]> l) else None.

(** [memmove(crt, crt+80, ...)] and [memset(crt+pos, 0, ...)]. *)
Definition scroll (pos : Z) (l : list Z) : option (list Z) :=
  let l := take (23 * 80) (drop 80 l) ++ drop (23 * 80) l in
  if decide (0 ≤ pos ≤ 24 * 80) then Some (take (Z.to_nat pos) l ++ replicate (Z.to_nat (24 * 80 - pos)) 0 ++ drop (24 * 80) l) else None.

(** The new position, and the character in its cell. *)
Definition cga_move (c : Z) (s : screen) : option (Z * list Z) :=
  let pos := cursor s in
  if bool_decide (c = 10) then Some (pos + (80 - pos mod 80), crt s)
  else if bool_decide (c = BACKSPACE) then Some (if bool_decide (0 < pos) then pos - 1 else pos, crt s)
  else (λ l, (pos + 1, l)) <$> put_cell pos (Z.lor (Z.land c 0xff) 0x0700) (crt s).

(** Scroll if need be, and set the cursor. *)
Definition cga_place (pos : Z) (l : list Z) : kM screen unit :=
  '(pos, l) ← kunwrap (
    if bool_decide (24 ≤ pos / 80) then (λ l, (pos - 80, l)) <$> scroll (pos - 80) l else Some (pos, l));
  l ← kunwrap (put_cell pos (Z.lor 32 0x0700) l);
  kmodify (λ s, Screen l (u16 pos) (uart s) (serial s)).

Definition cgaputc (c : Z) : kM screen unit :=
  s ← kget;
  '(pos, l) ← kunwrap (cga_move c s);
  cga_place pos l.

(** The byte is sent after the wait, whether the line was ready or not. *)
Definition uartputc (c : Z) : kM screen unit :=
  kmodify (λ s, if uart s then Screen (crt s) (cursor s) (uart s) (serial s ++ [u8 c]) else s).

Definition inscr (m : kM screen unit) : kM st unit := kzoom (Lens scr set_scr) m.

(** After a panic every CPU stops here for good. *)
Definition consputc (c : Z) : kM st unit :=
  s ← kget;
  if panicked s then kfault
  else
    inscr (if bool_decide (c = BACKSPACE) then uartputc 8 ;; uartputc 32 ;; uartputc 8 else uartputc c) ;;
    inscr (cgaputc c).

Definition hexdigit (x : Z) : Z := if bool_decide (x < 10) then 48 + x else 87 + x.

Fixpoint cdigits (fuel : nat) (x base : Z) : list Z :=
  match fuel with
  | O => []
  | S fuel => hexdigit (x mod base) :: if bool_decide (x / base = 0) then [] else cdigits fuel (x / base) base
  end.

(** [buf] of [printint]. *)
Definition cintbuf (xx base : Z) (sign : bool) : list Z :=
  let neg := sign && bool_decide (xx < 0) in
  cdigits 32 (u32 (if neg then - xx else xx)) base ++ (if neg then [45] else []).

Definition printint (xx base : Z) (sign : bool) : kM st unit := kfor (reverse (cintbuf xx base sign)) consputc.

Fixpoint cprintf_loop (fmt : list Z) (argp : list parg) : kM st unit :=
  match fmt with
  | [] => kret tt
  | c :: fmt =>
    if bool_decide (c ≠ 37) then consputc c ;; cprintf_loop fmt argp
    else
      match fmt with
      | [] => kret tt
      | c :: fmt =>
        if bool_decide (c = 100) then
          match argp with PInt w :: argp => printint (i32 w) 10 true ;; cprintf_loop fmt argp | _ => kfault end
        else if bool_decide (c = 120 ∨ c = 112) then
          match argp with PInt w :: argp => printint (i32 w) 16 false ;; cprintf_loop fmt argp | _ => kfault end
        else if bool_decide (c = 115) then
          match argp with PStr s :: argp => kfor (default null_text s) consputc ;; cprintf_loop fmt argp | _ => kfault end
        else if bool_decide (c = 37) then consputc 37 ;; cprintf_loop fmt argp
        else consputc 37 ;; consputc c ;; cprintf_loop fmt argp
      end
  end.

Definition cprintf (fmt : list Z) (argp : list parg) : kM st unit :=
  s ← kget;
  let lk := locking s in
  kwhen lk (acquire LCons) ;;
  cprintf_loop fmt argp ;;
  kwhen lk (release LCons).

(** [panic], up to the loop that it never leaves; [pcs] is the call stack. *)
Definition panic (cpu : Z) (msg : list Z) (pcs : list Z) : kM st unit :=
  kmodify (set_locking false) ;;
  cprintf (str "cpu%d: panic: ") [PInt cpu] ;;
  cprintf msg [] ;;
  cprintf [10] [] ;;
  kfor (take 10 pcs) (λ pc, cprintf (str " %p") [PInt pc]) ;;
  kmodify (set_panicked true).

(** [calls] are the calls of cprintf that procdump makes, as in Proc.v. *)
Definition procdump (calls : list (list Z * list parg)) : kM st unit := kfor calls (λ x, cprintf x.1 x.2).

(** ** Input *)

Definition wakeup (c : chan) : kM st unit := kmodify (add_event (EWakeup c)).

Definition cell (i : Z) (x : input) : Z := default 0 (ibuf x !! Z.to_nat (i mod INPUT_BUF)).
Definition set_ie (e : Z) (x : input) : input := Input (ibuf x) (ir x) (iw x) e.
Definition set_iw (w : Z) (x : input) : input := Input (ibuf x) (ir x) w (ie x).
Definition set_ir (r : Z) (x : input) : input := Input (ibuf x) r (iw x) (ie x).
Definition modinp (f : input → input) : kM st unit := kmodify (λ s, set_inp (f (inp s)) s).

(** The loop of kill-line takes at most [e - w] rounds. *)
Fixpoint kill_line (fuel : nat) : kM st unit :=
  s ← kget;
  let x := inp s in
  if bool_decide (ie x ≠ iw x) && bool_decide (cell (u32 (ie x - 1)) x ≠ 10) then
    match fuel with
    | O => kfault
    | S fuel => modinp (set_ie (u32 (ie x - 1))) ;; consputc BACKSPACE ;; kill_line fuel
    end
  else kret tt.

Definition intr_char (calls : list (list Z * list parg)) (c : Z) : kM st unit :=
  if bool_decide (c = C 80) then procdump calls
  else if bool_decide (c = C 85) then
    s ← kget;
    kill_line (Z.to_nat (u32 (ie (inp s) - iw (inp s))))
  else if bool_decide (c = C 72 ∨ c = 0x7f) then
    s ← kget;
    let x := inp s in
    kwhen (bool_decide (ie x ≠ iw x)) (modinp (set_ie (u32 (ie x - 1))) ;; consputc BACKSPACE)
  else
    s ← kget;
    let x := inp s in
    if bool_decide (c ≠ 0) && bool_decide (u32 (ie x - ir x) < INPUT_BUF) then
      let c := if bool_decide (c = 13) then 10 else c in
      modinp (λ x, Input (<[Z.to_nat (ie x mod INPUT_BUF) := u8 c]> (ibuf x)) (ir x) (iw x) (u32 (ie x + 1))) ;;
      consputc c ;;
      s ← kget;
      let x := inp s in
      kwhen (bool_decide (c = 10 ∨ c = C 68 ∨ ie x = u32 (ir x + INPUT_BUF)))
        (modinp (set_iw (ie x)) ;; wakeup CInput)
    else kret tt.

(** [getc] returns the numbers of [cs], none of them negative, and then -1. *)
Definition consoleintr (calls : list (list Z * list parg)) (cs : list Z) : kM st unit :=
  acquire LInput ;; kfor cs (intr_char calls) ;; release LInput.

Definition kbdintr (calls : list (list Z * list parg)) (bytes : list Z) : kM st unit :=
  s ← kget;
  '(cs, shift) ← kunwrap (kbd_chars (kshift s) bytes);
  kmodify (set_kshift shift) ;;
  consoleintr calls cs.

(** The line has received [bytes]; without a port [uartgetc] sees none. *)
Definition uartintr (calls : list (list Z * list parg)) (bytes : list Z) : kM st unit :=
  s ← kget;
  consoleintr calls (if uart (scr s) then bytes else []).

(** How a segment of [consoleread] ends: with what it returns, and the bytes
    put at [dst] by the whole call; or asleep, with [n] bytes to go. *)
Inductive res := RRet (r : Z) (bytes : list Z) | RSleep (target n : nat) (bytes : list Z).

Definition leave (r : res) : kM st res := release LInput ;; kmodify (add_event EIlock) ;; kret r.

Fixpoint read_loop (killed : bool) (target n : nat) (bytes : list Z) : kM st res :=
  match n with
  | O => leave (RRet (Z.of_nat target) bytes)
  | S n' =>
    s ← kget;
    let x := inp s in
    if bool_decide (ir x = iw x) then
      if killed then leave (RRet (-1) bytes)
      else give_up_cpu LInput ;; kret (RSleep target n bytes)
    else
      let c := cell (ir x) x in
      modinp (set_ir (u32 (ir x + 1))) ;;
      if bool_decide (c = C 68) then
        kwhen (bool_decide (n < target)%nat) (modinp (set_ir (ir x))) ;;
        leave (RRet (Z.of_nat (target - n)) bytes)
      else if bool_decide (c = 10) then leave (RRet (Z.of_nat (target - n')) (bytes ++ [c]))
      else read_loop killed target n' (bytes ++ [c])
  end.

(** A call for [n] bytes; none for a negative [n]. *)
Definition consoleread (killed : bool) (n : Z) : kM st res :=
  kmodify (add_event EIunlock) ;; acquire LInput ;; read_loop killed (Z.to_nat n) (Z.to_nat n) [].

(** Woken up, a reader goes on where it went to sleep. *)
Definition consoleread_again (killed : bool) (target n : nat) (bytes : list Z) : kM st res :=
  acquire LInput ;; read_loop killed target n bytes.

Definition consolewrite (buf : list Z) (n : Z) : kM st Z :=
  kmodify (add_event EIunlock) ;;
  acquire LCons ;;
  (if bool_decide (n ≤ Z.of_nat (length buf)) then kfor (take (Z.to_nat n) buf) (λ b, consputc (u8 b)) else kfault) ;;
  release LCons ;;
  kmodify (add_event EIlock) ;;
  kret n.

(** ** Start *)

Definition IRQ_KBD : Z := 1.
Definition IRQ_COM1 : Z := 4.
Definition COM1 : Z := 0x3f8.

Definition consoleinit : kM st unit :=
  kmodify set_devsw ;;
  kmodify (set_locking true) ;;
  kmodify (add_irq IRQ_KBD).

(** [status] is what the line status register reads. *)
Definition uartinit (status : Z) : kM st unit :=
  kfor [(COM1 + 2, 0); (COM1 + 3, 0x80); (COM1 + 0, 115200 / 9600); (COM1 + 1, 0); (COM1 + 3, 0x03); (COM1 + 4, 0); (COM1 + 1, 0x01)]
    (λ x, kmodify (outb x.1 x.2)) ;;
  if bool_decide (status = 0xFF) then kret tt
  else
    kmodify (λ s, set_scr (Screen (crt (scr s)) (cursor (scr s)) true (serial (scr s))) s) ;;
    kmodify (add_irq IRQ_COM1) ;;
    kfor (str "xv6..." ++ [10]) (λ c, inscr (uartputc c)).
End output.
End Console.
