(* ===== verification/ConsoleThm.v ===== *)
(** * The console as a line editor and a terminal

    Console.v run on devices, here against what a user sees: a screen of 24
    rows of text that wraps and scrolls, the bytes on the serial line, and a
    line editor that hands complete lines to readers. *)

From S2P Require Import Prelude User Console.
Import Console.

Local Open Scope Z_scope.

(** ** The keyboard *)

Definition shift_ok (k : Z) : bool := bool_decide (0 ≤ k < 128).

Definition kbd_case (k d : nat) : bool :=
  match kbdgetc (Z.of_nat k) (Some (Z.of_nat d)) with
  | Some (c, k') => bool_decide (0 ≤ c < 256) && shift_ok k'
  | None => false
  end.

(** All 128 * 256 cases. *)
Lemma kbd_cases : forallb (λ k, forallb (kbd_case k) (seq 0 256)) (seq 0 128) = true.
Proof. vm_compute. reflexivity. Qed.

Lemma kbdgetc_ok k d : 0 ≤ k < 128 → 0 ≤ d < 256 →
  ∃ c k', kbdgetc k (Some d) = Some (c, k') ∧ 0 ≤ c < 256 ∧ 0 ≤ k' < 128.
Proof.
  intros Hk Hd. pose proof kbd_cases as H. rewrite forallb_forall in H.
  assert (In (Z.to_nat k) (seq 0 128)) as Hk' by (apply in_seq; lia).
  assert (In (Z.to_nat d) (seq 0 256)) as Hd' by (apply in_seq; lia).
  specialize (H _ Hk'). rewrite forallb_forall in H. specialize (H _ Hd'). unfold kbd_case in H. rewrite !Z2Nat.id in H by lia.
  destruct (kbdgetc k (Some d)) as [[c k']|]; [|done].
  apply andb_true_iff in H as [?%bool_decide_eq_true ?%bool_decide_eq_true]. eauto.
Qed.

Lemma kbd_chars_ok bytes k : 0 ≤ k < 128 → Forall (λ d, 0 ≤ d < 256) bytes →
  ∃ cs k', kbd_chars k bytes = Some (cs, k') ∧ length cs = length bytes ∧ Forall (λ c, 0 ≤ c < 256) cs ∧ 0 ≤ k' < 128.
Proof.
  intros Hk Hb. revert k Hk. induction Hb as [|d bytes Hd Hb IH]; intros k Hk; cbn [kbd_chars head].
  - by exists [], k.
  - destruct (kbdgetc_ok k d Hk Hd) as (c & k1 & -> & Hc & Hk1). cbn [mbind option_bind fst snd].
    rewrite bool_decide_false by lia. destruct (IH k1 Hk1) as (cs & k2 & -> & Hl & Hcs & Hk2).
    exists (c :: cs), k2. simpl. rewrite Hl. eauto.
Qed.

(** ** The screen *)

Definition COLS : nat := 80.
Definition ROWS : nat := 24.

(** What a cell shows: NUL shows as a blank. *)
Definition seen (x : Z) : Z := if bool_decide (Z.land x 0xff = 0) then 32 else Z.land x 0xff.

(** The text on the screen: the rows above the cursor's and the row that ends
    at the cursor. *)
Definition tcell (pre : list (list Z)) (r : list Z) (i : nat) : Z :=
  default 32 ((pre ++ [r]) !! (i / COLS)%nat ≫= λ r, r !! (i mod COLS)%nat).

Definition pad (r : list Z) : list Z := take (COLS - 1) (r ++ replicate COLS 32).

Definition newline (pre : list (list Z)) (r : list Z) : list (list Z) * list Z :=
  (drop (S (length pre) - (ROWS - 1)) (pre ++ [r]), []).

Definition t_putc (c : Z) (t : list (list Z) * list Z) : list (list Z) * list Z :=
  let '(pre, r) := t in
  if bool_decide (c = 10) then newline pre r
  else if bool_decide (c = BACKSPACE) then
    match r with
    | _ :: _ => (pre, removelast r)
    | [] => match list.last pre with Some q => (removelast pre, pad q) | None => (pre, r) end
    end
  else if bool_decide (S (length r) = COLS) then newline pre (r ++ [seen c])
  else (pre, r ++ [seen c]).

Definition pos_of (t : list (list Z) * list Z) : nat := (COLS * length t.1 + length t.2)%nat.

Record shows (x : screen) (t : list (list Z) * list Z) : Prop := {
  sh_len : (2000 ≤ length (crt x))%nat;
  sh_rows : (length t.1 < ROWS)%nat;
  sh_pre : Forall (λ r, length r ≤ COLS)%nat t.1;
  sh_row : (length t.2 < COLS)%nat;
  sh_cursor : cursor x = Z.of_nat (pos_of t);
  sh_cells i : (i < COLS * ROWS)%nat → seen (byte_at (crt x) i) = tcell t.1 t.2 i;
}.

Lemma cell_div (a b : nat) : (b < COLS)%nat → ((COLS * a + b) / COLS = a ∧ (COLS * a + b) mod COLS = b)%nat.
Proof.
  intros Hb. unfold COLS in *. rewrite (Nat.mul_comm 80 a), Nat.add_comm, Nat.div_add, Nat.Div0.mod_add, Nat.div_small, Nat.mod_small by lia. lia.
Qed.

Lemma cell_split i : ∃ a b, i = (COLS * a + b)%nat ∧ (b < COLS)%nat.
Proof.
  exists (i / COLS)%nat, (i mod COLS)%nat. split; [apply Nat.div_mod_eq|apply Nat.mod_upper_bound; unfold COLS; lia].
Qed.

Lemma tcell_at pre r a b : (b < COLS)%nat → tcell pre r (COLS * a + b) = default 32 ((pre ++ [r]) !! a ≫= λ r, r !! b).
Proof. intros Hb. unfold tcell. by destruct (cell_div a b Hb) as [-> ->]. Qed.

(** Every cell below. *)
Ltac cells i := destruct (cell_split i) as (a & b & -> & Hb); rewrite ?tcell_at by done.

Lemma tcell_new pre r i : tcell (pre ++ [r]) [] i = tcell pre r i.
Proof.
  cells i. rewrite (lookup_app (pre ++ [r])). destruct ((pre ++ [r]) !! a) eqn:?; [done|].
  by destruct (a - length (pre ++ [r]))%nat as [|[]].
Qed.

Lemma tcell_scroll q pre r i : tcell (q :: pre) r (COLS + i) = tcell pre r i.
Proof.
  cells i. replace (COLS + (COLS * a + b))%nat with (COLS * S a + b)%nat by lia. by rewrite tcell_at.
Qed.

Lemma tcell_row pre r b : (b < COLS)%nat → tcell pre r (COLS * length pre + b) = default 32 (r !! b).
Proof. intros. by rewrite tcell_at, lookup_app_r, Nat.sub_diag by lia. Qed.

Lemma tcell_row_eq pre r r' i :
  (∀ b, (b < COLS)%nat → i = (COLS * length pre + b)%nat → default 32 (r !! b) = default 32 (r' !! b)) → tcell pre r i = tcell pre r' i.
Proof.
  intros H. destruct (cell_split i) as (a & b & -> & Hb). rewrite !tcell_at by done.
  destruct (decide (a < length pre)%nat); [by rewrite !lookup_app_l by done|].
  rewrite !lookup_app_r by lia. destruct (decide (a = length pre)) as [->|]; [|by destruct (a - length pre)%nat as [|[]] eqn:?; [lia|..]].
  rewrite Nat.sub_diag. by apply H.
Qed.

(** Cells from the cursor on are blank. *)
Lemma tcell_blank pre r i : (COLS * length pre + length r ≤ i)%nat → tcell pre r i = 32.
Proof.
  destruct (cell_split i) as (a & b & -> & Hb). rewrite tcell_at by done. intros H.
  assert (length pre ≤ a)%nat by (unfold COLS in *; lia). rewrite lookup_app_r by done.
  destruct (a - length pre)%nat as [|[]] eqn:?; [|done..]. simpl.
  rewrite lookup_ge_None_2; [done|]. unfold COLS in *. lia.
Qed.

Lemma tcell_snoc pre r x i : (length r < COLS)%nat →
  tcell pre (r ++ [x]) i = if decide (i = pos_of (pre, r)) then x else tcell pre r i.
Proof.
  intros Hr. unfold pos_of; cbn [fst snd]. case_decide as Hi.
  - subst. rewrite tcell_row, lookup_app_r, Nat.sub_diag by done. done.
  - apply tcell_row_eq. intros b Hb ->. destruct (decide (b < length r)%nat); [by rewrite lookup_app_l|].
    rewrite lookup_app_r, (lookup_ge_None_2 r) by lia. by destruct (b - length r)%nat as [|[]] eqn:?; [lia|..].
Qed.

Lemma length_pad r : length (pad r) = 79%nat.
Proof. unfold pad. rewrite length_take, length_app, length_replicate. unfold COLS. lia. Qed.

Lemma tcell_pad pre r i : (length r ≤ COLS)%nat →
  tcell pre (pad r) i = if decide (i = COLS * length pre + 79)%nat then 32 else tcell pre r i.
Proof.
  intros Hr. case_decide as Hi.
  - apply tcell_blank. rewrite length_pad. lia.
  - apply tcell_row_eq. intros b Hb ->. unfold pad, COLS in *. rewrite lookup_take_lt by lia.
    destruct (decide (b < length r)%nat); [by rewrite lookup_app_l|].
    rewrite lookup_app_r, (lookup_ge_None_2 r), lookup_replicate_2 by lia. done.
Qed.

Definition text_ok (t : list (list Z) * list Z) : Prop :=
  (length t.1 < ROWS)%nat ∧ Forall (λ r, length r ≤ COLS)%nat t.1 ∧ (length t.2 < COLS)%nat.

Lemma put_cell_in i x l : (Z.to_nat i < length l)%nat → 0 ≤ i → put_cell i x l = Some (<[Z.to_nat i := x]> l).
Proof. intros. unfold put_cell. rewrite decide_True by lia. done. Qed.

Lemma pos_of_bound t : text_ok t → (pos_of t < COLS * ROWS)%nat.
Proof. intros (? & ? & ?). unfold pos_of, COLS, ROWS in *. lia. Qed.

(** The cursor is placed in the text, without a scroll. *)
Lemma place_plain t l x : (2000 ≤ length l)%nat → text_ok t →
  (∀ i, (i < COLS * ROWS)%nat → i ≠ pos_of t → seen (byte_at l i) = tcell t.1 t.2 i) →
  ∃ x', cga_place (Z.of_nat (pos_of t)) l x = Done tt x' ∧ shows x' t ∧ uart x' = uart x ∧ serial x' = serial x.
Proof.
  intros Hl Ht Hc. pose proof (pos_of_bound t Ht) as Hb. unfold cga_place, kbind.
  rewrite bool_decide_false by (unfold COLS, ROWS in *; apply Z.nle_gt, Z.div_lt_upper_bound; lia).
  simpl. rewrite put_cell_in by (unfold COLS, ROWS in *; lia). simpl. eexists. split; [done|]. split; [|done].
  destruct Ht as (? & ? & ?). rewrite Nat2Z.id. split; try done; simpl.
  - by rewrite length_insert.
  - unfold u16. rewrite Z.mod_small; [done|]. unfold COLS, ROWS in *. lia.
  - intros i Hi. rewrite byte_at_insert by (unfold COLS, ROWS in *; lia). case_decide as Hp; [|by apply Hc].
    subst i. rewrite tcell_blank by (unfold pos_of; lia). done.
Qed.

Lemma byte_at_scrolled l i : (2000 ≤ length l)%nat → (i < COLS * ROWS)%nat → ∀ l',
  scroll (23 * 80) l = Some l' → byte_at l' i = if decide (i < COLS * 23)%nat then byte_at l (COLS + i) else 0.
Proof.
  intros Hl Hi l'. unfold scroll. rewrite decide_True by lia. intros <-%(inj Some).
  change (Z.to_nat (23 * 80)) with 1840%nat. change (Z.to_nat (24 * 80 - 23 * 80)) with 80%nat. change (23 * 80)%nat with 1840%nat.
  set (l1 := take 1840 (drop 80 l) ++ drop 1840 l). unfold byte_at, COLS, ROWS in *.
  assert (length (take 1840 l1) = 1840%nat) as H1.
  { unfold l1. rewrite length_take, length_app, length_take, !length_drop. lia. }
  case_decide.
  - rewrite lookup_app_l, lookup_take_lt by lia. unfold l1. rewrite lookup_app_l by (rewrite length_take, length_drop; lia).
    by rewrite lookup_take_lt, lookup_drop by lia.
  - rewrite lookup_app_r by lia. rewrite lookup_app_l, lookup_replicate_2 by (rewrite ?length_replicate; lia). done.
Qed.

(** A new row. *)
Lemma place_newline pre r l x : (2000 ≤ length l)%nat → text_ok (pre, []) → (length r ≤ COLS)%nat →
  (∀ i, (i < COLS * ROWS)%nat → seen (byte_at l i) = tcell pre r i) →
  ∃ x', cga_place (Z.of_nat (COLS * S (length pre))) l x = Done tt x' ∧ shows x' (newline pre r) ∧ uart x' = uart x ∧ serial x' = serial x.
Proof.
  intros Hl (Hp & Hcols & _) Hr Hc. simpl in Hp, Hcols. unfold newline.
  destruct (decide (S (length pre) < ROWS)%nat) as [Hlt|Hge].
  - unfold ROWS in *. replace (S (length pre) - (24 - 1))%nat with 0%nat by lia. rewrite drop_0.
    replace (COLS * S (length pre))%nat with (pos_of (pre ++ [r], [])) by (unfold pos_of; simpl; rewrite length_app; simpl; unfold COLS; lia).
    apply place_plain; [done|..].
    + split_and!; [simpl; rewrite length_app; simpl; unfold ROWS; lia| |simpl; unfold COLS; lia].
      apply Forall_app; eauto.
    + intros i Hi _. simpl. rewrite tcell_new. by apply Hc.
  - unfold ROWS in *. assert (length pre = 23%nat) as Hn by lia. rewrite Hn.
    replace (Z.of_nat (COLS * 24)) with 1920 by done. destruct pre as [|q pre]; [done|]. change (drop (24 - (24 - 1)) ((q :: pre) ++ [r])) with (pre ++ [r]). unfold cga_place. rewrite bool_decide_true by done.
    destruct (scroll (1920 - 80) l) as [l'|] eqn:Hs; [|done].
    assert (length l' = length l) as Hl'.
    { unfold scroll in Hs. rewrite decide_True in Hs by lia. apply (inj Some) in Hs as <-.
      rewrite !length_app, length_take, length_replicate, !length_drop, length_app, length_take, !length_drop. lia. }
    unfold kbind. simpl. rewrite put_cell_in by lia. simpl. eexists. split; [done|]. split; [|done].
    apply list.Forall_cons in Hcols as [_ Hcols]. simpl in Hn.
    split; simpl; [by rewrite length_insert, Hl'| | | |..].
    + rewrite length_app; simpl; unfold ROWS; lia.
    + apply Forall_app; eauto.
    + unfold COLS; lia.
    + unfold pos_of; simpl. rewrite length_app. simpl. unfold COLS. replace (length pre + 1)%nat with 23%nat by lia. done.
    + intros i Hi. rewrite byte_at_insert by (unfold COLS, ROWS in *; lia).
      case_decide as He; [rewrite tcell_blank; [done|subst i; rewrite length_app; simpl; unfold COLS; lia]|].
      change (23 * 80) with (1920 - 80) in *.
      rewrite (byte_at_scrolled l i Hl Hi l' Hs). case_decide.
      * rewrite tcell_new, Hc by (unfold COLS, ROWS in *; lia). apply tcell_scroll.
      * rewrite tcell_blank; [done|]. rewrite length_app; simpl; unfold COLS in *; lia.
Qed.

Lemma seen_attr c : seen (Z.lor (Z.land c 0xff) 0x0700) = seen c.
Proof. unfold seen. rewrite Z.land_lor_distr_l, <-Z.land_assoc, Z.lor_0_r. done. Qed.

Lemma shows_ok x t : shows x t → text_ok t.
Proof. by intros []. Qed.

Lemma removelast_snoc {A} (l : list A) x : removelast (l ++ [x]) = l.
Proof. by rewrite removelast_app, app_nil_r. Qed.

Lemma cgaputc_move c x pos l : cga_move c x = Some (pos, l) → cgaputc c x = cga_place pos l x.
Proof. unfold cgaputc, kbind, kget. by intros ->. Qed.

Lemma putc_newline x pre r : shows x (pre, r) →
  ∃ x', cgaputc 10 x = Done tt x' ∧ shows x' (newline pre r) ∧ uart x' = uart x ∧ serial x' = serial x.
Proof.
  intros Hx. pose proof Hx as [Hl Hrow Hp Hr Hcur Hc]. simpl in *. rewrite (cgaputc_move 10 x _ _ eq_refl).
  replace (cursor x + (80 - cursor x mod 80)) with (Z.of_nat (COLS * S (length pre))).
  - apply place_newline; try done; [|lia]. split_and!; simpl; [done..|]. unfold COLS; lia.
  - rewrite Hcur. unfold pos_of, COLS in *. cbn [fst snd].
    replace (Z.of_nat (80 * length pre + length r)) with (Z.of_nat (length r) + Z.of_nat (length pre) * 80) by lia.
    rewrite Z.mod_add, Z.mod_small by lia. lia.
Qed.

Lemma putc_back x pre r : shows x (pre, r) →
  ∃ x', cgaputc BACKSPACE x = Done tt x' ∧ shows x' (t_putc BACKSPACE (pre, r)) ∧ uart x' = uart x ∧ serial x' = serial x.
Proof.
  intros Hx. pose proof Hx as [Hl Hrow Hp Hr Hcur Hc]. simpl in *. rewrite (cgaputc_move BACKSPACE x _ _ eq_refl). rewrite Hcur.
  destruct (list.last r) as [y|] eqn:Hy.
  - apply last_Some in Hy as [r' ->]. rewrite length_app in Hr; simpl in Hr.
    replace (match r' ++ [y] with [] => _ | _ :: _ => _ end) with (pre, r').
    2: { rewrite removelast_snoc. by destruct r'. }
    rewrite bool_decide_true by (unfold pos_of; simpl; rewrite length_app; simpl; lia).
    replace (Z.of_nat (pos_of (pre, r' ++ [y])) - 1) with (Z.of_nat (pos_of (pre, r'))).
    2: { unfold pos_of. cbn [fst snd]. rewrite length_app; simpl length. lia. }
    apply place_plain; [done|split_and!; simpl; try done; lia|].
    intros i Hi Hne. rewrite Hc by done. simpl. rewrite tcell_snoc by lia. by rewrite decide_False.
  - apply last_None in Hy as ->. destruct (list.last pre) as [q|] eqn:Hq.
    + apply last_Some in Hq as [pre' ->]. rewrite removelast_snoc. apply Forall_app in Hp as [Hp Hq].
      apply list.Forall_cons in Hq as [Hq _].       rewrite length_app in Hrow; simpl in Hrow.
      rewrite bool_decide_true by (unfold pos_of, COLS; cbn [fst snd]; rewrite length_app; simpl length; lia).
      replace (Z.of_nat (pos_of (pre' ++ [q], [])) - 1) with (Z.of_nat (pos_of (pre', pad q))).
      2: { unfold pos_of, COLS. cbn [fst snd]. rewrite length_app, length_pad; simpl length. lia. }
      apply place_plain; [done|split_and!; simpl; [lia|done|rewrite length_pad; unfold COLS; lia]|].
      intros i Hi Hne. rewrite Hc by done. cbn [fst snd]. rewrite tcell_new, tcell_pad by exact Hq.
      rewrite decide_False; [done|]. intros ->. apply Hne. unfold pos_of. cbn [fst snd]. by rewrite length_pad.
    + apply last_None in Hq as ->. change (pos_of ([], [])) with 0%nat in *. rewrite bool_decide_false by done.
      apply (place_plain ([], [])); [done|by eapply shows_ok|]. intros. by apply Hc.
Qed.

Lemma putc_char x pre r c : c ≠ 10 → c ≠ BACKSPACE → shows x (pre, r) →
  ∃ x', cgaputc c x = Done tt x' ∧ shows x' (t_putc c (pre, r)) ∧ uart x' = uart x ∧ serial x' = serial x.
Proof.
  intros Hn Hb Hx. pose proof Hx as [Hl Hrow Hp Hr Hcur Hc]. pose proof (pos_of_bound _ (shows_ok _ _ Hx)) as Hpos. simpl in Hl, Hrow, Hp, Hr.
  set (l := <[pos_of (pre, r) := Z.lor (Z.land c 0xff) 0x0700]> (crt x)). rewrite (cgaputc_move c x (Z.of_nat (pos_of (pre, r)) + 1) l).
  2: { unfold cga_move. rewrite !bool_decide_false by done. rewrite Hcur, put_cell_in, Nat2Z.id by (unfold COLS, ROWS in *; lia). done. }
  assert (2000 ≤ length l)%nat as Hl' by (unfold l; by rewrite length_insert).
  assert (∀ i, (i < COLS * ROWS)%nat → seen (byte_at l i) = tcell pre (r ++ [seen c]) i) as Hcells.
  { intros i Hi. unfold l. rewrite byte_at_insert, tcell_snoc by (unfold COLS, ROWS in *; lia).
    case_decide; [apply seen_attr|by apply Hc]. }
  unfold t_putc. rewrite !(bool_decide_false (c = _)) by done. case_bool_decide as Hw.
  - replace (Z.of_nat (pos_of (pre, r)) + 1) with (Z.of_nat (COLS * S (length pre))) by (unfold pos_of, COLS in *; cbn [fst snd]; lia).
    apply place_newline; try done; [split_and!; simpl; try done; lia|]. rewrite length_app; simpl; lia.
  - replace (Z.of_nat (pos_of (pre, r)) + 1) with (Z.of_nat (pos_of (pre, r ++ [seen c])))
      by (unfold pos_of; cbn [fst snd]; rewrite length_app; simpl length; lia).
    apply place_plain; [done|split_and!; simpl; try done; rewrite length_app; simpl; lia|]. intros. by apply Hcells.
Qed.

Lemma cgaputc_shows x t c : shows x t →
  ∃ x', cgaputc c x = Done tt x' ∧ shows x' (t_putc c t) ∧ uart x' = uart x ∧ serial x' = serial x.
Proof.
  destruct t as [pre r]. intros Hx. destruct (decide (c = 10)) as [->|]; [by apply putc_newline|].
  destruct (decide (c = BACKSPACE)) as [->|]; [by apply putc_back|by apply putc_char].
Qed.

(** ** What the user of the console sees *)

Record tty := Tty {
  a_text : list (list Z) * list Z;   (* the screen *)
  a_uart : bool;
  a_sent : list Z;                   (* bytes sent on the serial line *)
  a_ready : list Z;                  (* complete lines, not read yet *)
  a_line : list Z;                   (* the line being typed *)
  a_events : list event;
  a_locking : bool;
  a_shift : Z;
}.

Definition a_event (e : event) (a : tty) : tty :=
  Tty (a_text a) (a_uart a) (a_sent a) (a_ready a) (a_line a) (a_events a ++ [e]) (a_locking a) (a_shift a).
Definition a_queue (ready line : list Z) (a : tty) : tty :=
  Tty (a_text a) (a_uart a) (a_sent a) ready line (a_events a) (a_locking a) (a_shift a).
Definition a_keys (k : Z) (a : tty) : tty :=
  Tty (a_text a) (a_uart a) (a_sent a) (a_ready a) (a_line a) (a_events a) (a_locking a) k.

(** A character for the terminal; the serial line rubs out with blanks. *)
Definition a_putc (a : tty) (c : Z) : tty :=
  Tty (t_putc c (a_text a)) (a_uart a)
      (a_sent a ++ if a_uart a then if bool_decide (c = BACKSPACE) then [8; 32; 8] else [u8 c] else [])
      (a_ready a) (a_line a) (a_events a) (a_locking a) (a_shift a).

Definition a_puts (l : list Z) (a : tty) : tty := foldl a_putc a l.

(** A character typed. [dump] is the text of the process listing. *)
Definition a_char (dump : list Z) (a : tty) (c : Z) : tty :=
  if bool_decide (c = C 80) then a_puts dump a
  else if bool_decide (c = C 85) then a_puts (replicate (length (a_line a)) BACKSPACE) (a_queue (a_ready a) [] a)
  else if bool_decide (c = C 72 ∨ c = 0x7f) then
    if bool_decide (a_line a = []) then a else a_putc (a_queue (a_ready a) (removelast (a_line a)) a) BACKSPACE
  else if bool_decide (c ≠ 0 ∧ (length (a_ready a) + length (a_line a) < 128)%nat) then
    let c := if bool_decide (c = 13) then 10 else c in
    let line := a_line a ++ [c] in
    let a := a_putc a c in
    if bool_decide (c = 10 ∨ c = C 68 ∨ (length (a_ready a) + length line = 128)%nat)
    then a_event (EWakeup CInput) (a_queue (a_ready a ++ line) [] a)
    else a_queue (a_ready a) line a
  else a.

(** What a reader who wants [n] more of [target] bytes gets of [ready]. *)
Fixpoint a_take (killed : bool) (target n : nat) (bytes ready : list Z) : res * list Z :=
  match n, ready with
  | O, _ => (RRet (Z.of_nat target) bytes, ready)
  | S n', [] => (if killed then RRet (-1) bytes else RSleep target n bytes, ready)
  | S n', c :: ready' =>
    if bool_decide (c = C 68) then (RRet (Z.of_nat (target - n)) bytes, if bool_decide (n < target)%nat then ready else ready')
    else if bool_decide (c = 10) then (RRet (Z.of_nat (target - n')) (bytes ++ [c]), ready')
    else a_take killed target n' (bytes ++ [c]) ready'
  end.

Definition a_read (killed : bool) (target n : nat) (bytes : list Z) (a : tty) : res * tty :=
  let '(r, ready) := a_take killed target n bytes (a_ready a) in
  let a := a_queue ready (a_line a) a in
  (r, match r with RRet _ _ => a_event EIlock a | RSleep _ _ _ => a end).

(** The text of cprintf. *)
Definition cconv (c : Z) (ap : list parg) : option (list Z * list parg) :=
  if bool_decide (c = 100) then
    match ap with PInt w :: ap => Some (reverse (cintbuf (i32 w) 10 true), ap) | _ => None end
  else if bool_decide (c = 120 ∨ c = 112) then
    match ap with PInt w :: ap => Some (reverse (cintbuf (i32 w) 16 false), ap) | _ => None end
  else if bool_decide (c = 115) then
    match ap with PStr s :: ap => Some (default null_text s, ap) | _ => None end
  else Some (if bool_decide (c = 37) then [37] else [37; c], ap).

Fixpoint ctext (fmt : list Z) (ap : list parg) : option (list Z) :=
  match fmt with
  | [] => Some []
  | c :: fmt =>
    if bool_decide (c ≠ 37) then cons c <$> ctext fmt ap
    else match fmt with
         | [] => Some []
         | c :: fmt => match cconv c ap with Some (t, ap) => app t <$> ctext fmt ap | None => None end
         end
  end.

(** The text of a list of calls of cprintf. *)
Definition ctexts (calls : list (list Z * list parg)) : option (list Z) := (@concat Z) <$> mapM (λ x, ctext x.1 x.2) calls.

(** ** The ring buffer *)

Record ring (x : input) (ready line : list Z) : Prop := {
  rg_buf : length (ibuf x) = 128%nat;
  rg_r : 0 ≤ ir x < 2 ^ 32;
  rg_w : iw x = u32 (ir x + Z.of_nat (length ready));
  rg_e : ie x = u32 (ir x + Z.of_nat (length ready + length line));
  rg_len : (length ready + length line ≤ 128)%nat;
  rg_cells k c : (ready ++ line) !! k = Some c → cell (ir x + Z.of_nat k) x = c;
}.

Lemma cell_wrap z k x : cell (u32 z + k) x = cell (z + k) x.
Proof. unfold cell. rewrite u32_slot; [done..|by exists (2 ^ 25)]. Qed.

Lemma cell_wrap0 z x : cell (u32 z) x = cell z x.
Proof. rewrite <-(Z.add_0_r (u32 z)), cell_wrap. by rewrite Z.add_0_r. Qed.

Lemma ring_line x ready line : ring x ready line → (ie x ≠ iw x ↔ line ≠ []).
Proof.
  intros []. rewrite rg_w0, rg_e0. split.
  - intros H ->. apply H. simpl. by rewrite Nat.add_0_r.
  - intros Hl H. apply u32_inj_near in H; [|lia..]. destruct line; [done|]. simpl in H. lia.
Qed.

Lemma ring_ready x ready line : ring x ready line → (ir x = iw x ↔ ready = []).
Proof.
  intros []. rewrite rg_w0. split.
  - intros H. rewrite <-(u32_small (ir x)) in H at 1 by done. rewrite <-(Z.add_0_r (ir x)) in H at 1.
    apply u32_inj_near in H; [|lia..]. destruct ready; [done|]. simpl in H. lia.
  - intros ->. simpl. rewrite Z.add_0_r. by rewrite u32_small.
Qed.

Lemma ring_total x ready line : ring x ready line → u32 (ie x - ir x) = Z.of_nat (length ready + length line).
Proof.
  intros []. rewrite rg_e0. pose proof (u32_diff (ir x + Z.of_nat (length ready + length line)) (ir x)) as H.
  rewrite (u32_small (ir x)) in H by done. rewrite H, u32_small; lia.
Qed.

Lemma ring_edit x ready line : ring x ready line → u32 (ie x - iw x) = Z.of_nat (length line).
Proof. intros []. rewrite rg_e0, rg_w0, u32_diff, u32_small; lia. Qed.

Lemma ring_full x ready line : ring x ready line → (ie x = u32 (ir x + INPUT_BUF) ↔ (length ready + length line = 128)%nat).
Proof.
  intros []. rewrite rg_e0. unfold INPUT_BUF. split.
  - intros H. apply u32_inj_near in H; lia.
  - intros ->. done.
Qed.

(** The slot of the last character typed. *)
Lemma ring_back x ready line c : ring x ready (line ++ [c]) →
  cell (u32 (ie x - 1)) x = c ∧ ring (set_ie (u32 (ie x - 1)) x) ready line.
Proof.
  intros []. rewrite length_app in *; simpl in *. rewrite rg_e0.
  assert (u32 (u32 (ir x + Z.of_nat (length ready + (length line + 1))) - 1) = u32 (ir x + Z.of_nat (length ready + length line))) as ->.
  { unfold Z.sub at 1. rewrite u32_add. f_equal. lia. }
  split.
  - rewrite cell_wrap0. apply rg_cells0. rewrite app_assoc, lookup_app_r, length_app by (rewrite length_app; lia).
    by rewrite Nat.sub_diag.
  - split; simpl; try done; [lia|].
    intros k y Hk. apply rg_cells0. rewrite app_assoc. by apply lookup_app_l_Some.
Qed.

Lemma slot_near r j k : 0 ≤ j < k → k < INPUT_BUF → (r + j) mod INPUT_BUF ≠ (r + k) mod INPUT_BUF.
Proof. apply mod_near. Qed.

Lemma ring_push x ready line c : ring x ready line → (length ready + length line < 128)%nat → 0 ≤ c < 256 →
  ring (Input (<[Z.to_nat (ie x mod INPUT_BUF) := u8 c]> (ibuf x)) (ir x) (iw x) (u32 (ie x + 1))) ready (line ++ [c]).
Proof.
  intros [] Hlt Hc. set (n := Z.of_nat (length ready + length line)) in *.
  assert (ie x mod INPUT_BUF = (ir x + n) mod INPUT_BUF) as Hslot.
  { rewrite rg_e0, <-(Z.add_0_r (u32 _)), u32_slot; [by rewrite Z.add_0_r|done|by exists (2 ^ 25)]. }
  pose proof (Z.mod_pos_bound (ir x + n) INPUT_BUF ltac:(done)) as Hb.
  split; simpl; try done; rewrite ?length_insert, ?length_app; simpl; try lia.
  - rewrite rg_e0, u32_add. f_equal. lia.
  - intros k y Hk. unfold cell. simpl. rewrite Hslot. rewrite app_assoc in Hk.
    apply lookup_app_Some in Hk as [Hk|[Hge Hk]].
    + pose proof (lookup_lt_Some _ _ _ Hk) as Hlt'. rewrite length_app in Hlt'.
      rewrite list_lookup_insert_ne; [by apply rg_cells0|]. intros He.
      pose proof (Z.mod_pos_bound (ir x + Z.of_nat k) INPUT_BUF ltac:(done)).
      apply (slot_near (ir x) (Z.of_nat k) n); [lia|unfold INPUT_BUF; lia|]. lia.
    + rewrite length_app in Hge, Hk. destruct (k - (length ready + length line))%nat as [|[]] eqn:Hn; [|done..].
      injection Hk as <-. replace (Z.of_nat k) with n by lia.
      rewrite list_lookup_insert_eq by (unfold INPUT_BUF in *; lia). simpl. apply Z.mod_small. lia.
Qed.

Lemma ring_commit x ready line : ring x ready line → ring (set_iw (ie x) x) (ready ++ line) [].
Proof.
  intros []. split; simpl; rewrite ?length_app, ?Nat.add_0_r; try done. intros k c. rewrite app_nil_r. apply rg_cells0.
Qed.

Lemma ring_pop x c ready line : ring x (c :: ready) line → cell (ir x) x = c ∧ ring (set_ir (u32 (ir x + 1)) x) ready line.
Proof.
  intros []. split.
  - rewrite <-(Z.add_0_r (ir x)). by apply (rg_cells0 0%nat).
  - split; simpl in *; try done; [apply u32_range|..].
    + rewrite rg_w0, u32_add. f_equal. lia.
    + rewrite rg_e0, u32_add. f_equal. lia.
    + lia.
    + intros k y Hk. change (cell (u32 (ir x + 1) + Z.of_nat k) x = y). rewrite cell_wrap.
      replace (ir x + 1 + Z.of_nat k) with (ir x + Z.of_nat (S k)) by lia. by apply rg_cells0.
Qed.

(** ** Refinement *)

(** The console is in the state the user sees, and the locks [h] are held. *)
Record rep (h : list lock) (s : st) (a : tty) : Prop := {
  rp_held : sheld s = h;
  rp_alive : panicked s = false;
  rp_shows : shows (scr s) (a_text a);
  rp_uart : uart (scr s) = a_uart a;
  rp_sent : serial (scr s) = a_sent a;
  rp_ring : ring (inp s) (a_ready a) (a_line a);
  rp_events : events s = a_events a;
  rp_locking : locking s = a_locking a;
  rp_shift : kshift s = a_shift a;
}.

(** The line being typed has no end, and there is room for one. *)
Definition typed (a : tty) : Prop :=
  (10 ∉ a_line a) ∧ (length (a_ready a) + length (a_line a) ≤ 128)%nat ∧
  ((length (a_ready a) + length (a_line a) = 128)%nat → a_line a = []) ∧ 0 ≤ a_shift a < 128.

(** [m] runs to its end, from [h] and [a] to [h'] and [a'], with result [x]. *)
Definition does {A} (h : list lock) (a : tty) (m : kM st A) (x : A) (h' : list lock) (a' : tty) : Prop :=
  ∀ s, rep h s a → ∃ s', m s = Done x s' ∧ rep h' s' a'.

Lemma does_bind {A B} h a (m : kM st A) x h1 a1 (k : A → kM st B) y h2 a2 :
  does h a m x h1 a1 → does h1 a1 (k x) y h2 a2 → does h a (kbind m k) y h2 a2.
Proof.
  intros Hm Hk s Hs. destruct (Hm s Hs) as (s1 & H1 & Hs1). destruct (Hk s1 Hs1) as (s2 & H2 & Hs2).
  exists s2. split; [|done]. by rewrite (kbind_done _ _ _ _ _ H1).
Qed.

Lemma does_get {B} h a (k : st → kM st B) y h' a' :
  (∀ s0, rep h s0 a → does h a (k s0) y h' a') → does h a (kbind kget k) y h' a'.
Proof. intros H s Hs. by apply (H s Hs). Qed.

Lemma does_ret {A} h a (x : A) : does h a (kret x) x h a.
Proof. intros s Hs. by exists s. Qed.

Lemma does_when h a b m h' a' : does h a m tt h' a' → (b = false → h = h' ∧ a = a') → does h a (kwhen b m) tt h' a'.
Proof. destruct b; [done|]. intros _ H. destruct (H eq_refl) as [<- <-]. apply does_ret. Qed.

Lemma does_acquire h a lk : lk ∉ h → does h a (acquire lk) tt (lk :: h) a.
Proof.
  intros Hh s Hs. pose proof (rp_held _ _ _ Hs) as Hheld. rewrite acquire_free by (simpl; by rewrite Hheld).
  simpl. rewrite Hheld. eexists. split; [done|]. by destruct Hs; split.
Qed.

Lemma does_release h a lk : lk ∉ h → does (lk :: h) a (release lk) tt h a.
Proof.
  intros Hh s Hs. pose proof (rp_held _ _ _ Hs) as Hheld. rewrite (release_top lk h) by done.
  eexists. split; [done|]. by destruct Hs; split.
Qed.

Lemma does_sleep a lk : does [lk] a (give_up_cpu lk) tt [] a.
Proof.
  intros s Hs. rewrite give_up_cpu_done by apply Hs. eexists. split; [done|]. by destruct Hs; split.
Qed.

Lemma does_event h a e : does h a (kmodify (add_event e)) tt h (a_event e a).
Proof.
  intros s Hs. eexists. split; [done|]. destruct Hs; split; try done. simpl. by rewrite rp_events0.
Qed.

(** A change of the input buffer, for every buffer that holds the same. *)
Lemma does_inp h a f ready line : (∀ x, ring x (a_ready a) (a_line a) → ring (f x) ready line) →
  does h a (modinp f) tt h (a_queue ready line a).
Proof. intros Hf s Hs. eexists. split; [done|]. destruct Hs; split; try done. by apply Hf. Qed.

Lemma inscr_done m s x : m (scr s) = Done tt x → inscr m s = Done tt (set_scr x s).
Proof. intros H. unfold inscr, kzoom. simpl. by rewrite H. Qed.

Lemma does_putc h a c : does h a (consputc c) tt h (a_putc a c).
Proof.
  intros s Hs. unfold consputc. rewrite (kbind_done _ _ _ _ _ (eq_refl : kget s = Done s s)).
  rewrite (rp_alive _ _ _ Hs).
  set (sent := if a_uart a then if bool_decide (c = BACKSPACE) then [8; 32; 8] else [u8 c] else []).
  set (x1 := Screen (crt (scr s)) (cursor (scr s)) (uart (scr s)) (serial (scr s) ++ sent)).
  assert ((if bool_decide (c = BACKSPACE) then (uartputc 8 ;; uartputc 32 ;; uartputc 8)%kern else uartputc c) (scr s) = Done tt x1) as H1.
  { unfold x1, sent. rewrite <-(rp_uart _ _ _ Hs). unfold uartputc, kbind, kmodify.
    case_bool_decide; destruct (scr s) as [? ? [] ?]; simpl; rewrite ?app_nil_r, <-?app_assoc; done. }
  rewrite (kbind_done _ _ _ _ _ (inscr_done _ _ _ H1)).
  assert (shows x1 (a_text a)) as Hx1 by (destruct (rp_shows _ _ _ Hs); by split).
  destruct (cgaputc_shows x1 (a_text a) c Hx1) as (x2 & H2 & Hx2 & Hu & Hse).
  rewrite (inscr_done _ (set_scr x1 s) x2 H2). eexists. split; [done|].
  destruct Hs; split; try done; simpl; [by rewrite Hu|]. rewrite Hse. unfold x1, sent. simpl. by rewrite rp_sent0.
Qed.

Lemma does_puts h l a : does h a (kfor l consputc) tt h (a_puts l a).
Proof.
  revert a. induction l as [|c l IH]; intros a; simpl; [apply does_ret|]. eapply does_bind; [apply does_putc|]. apply IH.
Qed.

Lemma does_eq {A} h a (m m' : kM st A) x h' a' : (∀ s, m s = m' s) → does h a m x h' a' → does h a m' x h' a'.
Proof. intros He H s Hs. rewrite <-He. by apply H. Qed.

(** ** Formatted output *)

Lemma kfor_app {W A} (f : A → kM W unit) l1 l2 s : kfor (l1 ++ l2) f s = kbind (kfor l1 f) (λ _, kfor l2 f) s.
Proof.
  revert s. induction l1 as [|x l1 IH]; intros s; simpl; [done|]. rewrite kbind_assoc. unfold kbind at 1 2. by destruct (f x s).
Qed.

Lemma cprintf_loop_text fmt ap t s : ctext fmt ap = Some t → cprintf_loop fmt ap s = kfor t consputc s.
Proof.
  remember (length fmt) as n eqn:Hn. assert (length fmt ≤ n)%nat as Hle by lia. clear Hn.
  revert fmt Hle ap t s. induction n as [|n IH]; intros fmt Hle ap t s.
  - destruct fmt; [|simpl in Hle; lia]. by intros [= <-].
  - destruct fmt as [|c fmt]; [by intros [= <-]|]. simpl in Hle. simpl. case_bool_decide as Hc.
    + intros Ht. destruct (ctext fmt ap) as [t'|] eqn:Ht'; [|done]. injection Ht as <-. simpl.
      unfold kbind. destruct (consputc c s); try done. apply IH; [lia|done].
    + destruct fmt as [|c' fmt]; [by intros [= <-]|]. simpl in Hle.
      assert (∀ (m : kM st unit) pre ap', (∀ s, m s = kfor pre consputc s) → app pre <$> ctext fmt ap' = Some t →
        kbind m (λ _, cprintf_loop fmt ap') s = kfor t consputc s) as Hgo.
      { intros m pre ap' Hm Ht. destruct (ctext fmt ap') as [t'|] eqn:Ht'; [|done]. injection Ht as <-.
        rewrite kfor_app. unfold kbind. rewrite Hm. destruct (kfor pre consputc s); try done. apply IH; [lia|done]. }
      unfold cconv. repeat case_bool_decide; try done.
      * destruct ap as [|[w|] ap]; [done| |done]. by apply Hgo.
      * destruct ap as [|[w|] ap]; [done| |done]. by apply Hgo.
      * destruct ap as [|[|q] ap]; [done|done|]. by apply Hgo.
      * apply Hgo. intros s'. simpl. unfold kbind. by destruct (consputc 37 s') as [[] ?| | |].
      * intros Ht. rewrite <-kbind_assoc. revert Ht. apply Hgo. intros s'. simpl. unfold kbind, kret.
        destruct (consputc 37 s') as [[] s1| | |]; try done. by destruct (consputc c' s1) as [[] ?| | |].
Qed.

Lemma does_printf h a fmt ap t : (a_locking a = true → LCons ∉ h) → ctext fmt ap = Some t → does h a (cprintf fmt ap) tt h (a_puts t a).
Proof.
  intros Hh Ht. unfold cprintf. apply does_get. intros s0 Hs0. rewrite (rp_locking _ _ _ Hs0). destruct (a_locking a); simpl.
  - eapply does_bind; [by apply does_acquire, Hh|]. eapply does_bind; [|by apply does_release, Hh].
    eapply does_eq; [intros; symmetry; by apply cprintf_loop_text|apply does_puts].
  - eapply does_bind; [apply does_ret|]. eapply does_bind; [|apply does_ret].
    eapply does_eq; [intros; symmetry; by apply cprintf_loop_text|apply does_puts].
Qed.

Lemma a_puts_app l1 l2 a : a_puts (l1 ++ l2) a = a_puts l2 (a_puts l1 a).
Proof. apply foldl_app. Qed.

Lemma does_dump h a calls t : LCons ∉ h → ctexts calls = Some t → does h a (procdump calls) tt h (a_puts t a).
Proof.
  intros Hh Ht. apply fmap_Some in Ht as (ts & Hm & ->). apply mapM_Some in Hm. unfold procdump.
  revert a. induction Hm as [|x t calls ts Hx Hm IH]; intros a; simpl; [apply does_ret|].
  rewrite a_puts_app. eapply does_bind; [apply does_printf; [by intros _|done]|apply IH].
Qed.

(** *** The last words *)

Definition a_lock (b : bool) (a : tty) : tty :=
  Tty (a_text a) (a_uart a) (a_sent a) (a_ready a) (a_line a) (a_events a) b (a_shift a).

Lemma a_puts_locking l a : a_locking (a_puts l a) = a_locking a.
Proof. revert a. induction l as [|c l IH]; intros a; [done|]. apply (IH (a_putc a c)). Qed.

Lemma a_puts_lock l b a : a_puts l (a_lock b a) = a_lock b (a_puts l a).
Proof. revert a. induction l as [|c l IH]; intros a; [done|]. apply (IH (a_putc a c)). Qed.

Lemma does_unlock h a b : does h a (kmodify (set_locking b)) tt h (a_lock b a).
Proof. intros s Hs. eexists. split; [done|]. by destruct Hs; split. Qed.

Lemma does_pcs h pcs a : a_locking a = false →
  does h a (kfor pcs (λ pc, cprintf (str " %p") [PInt pc])) tt h
    (a_puts (pcs ≫= λ pc, 32 :: reverse (cintbuf (i32 pc) 16 false)) a).
Proof.
  revert a. induction pcs as [|pc pcs IH]; intros a Ha; [apply does_ret|]. simpl kfor. cbn [mbind list_bind].
  rewrite a_puts_app. eapply does_bind; [|apply IH; by rewrite a_puts_locking].
  apply does_printf; [by rewrite Ha|].
  transitivity (Some (32 :: reverse (cintbuf (i32 pc) 16 false) ++ [])); [reflexivity|by rewrite app_nil_r].
Qed.

(** A panic gets its message out whatever locks are held, also the console's,
    and from then on no CPU prints. *)
Theorem panic_prints h s a cpu msg t pcs : rep h s a → ctext msg [] = Some t →
  ∃ s', panic cpu msg pcs s = Done tt s' ∧ (∀ c, consputc c s' = Fault) ∧
    let said := a_puts (str "cpu" ++ reverse (cintbuf (i32 cpu) 10 true) ++ str ": panic: " ++ t ++ [10] ++
      (take 10 pcs ≫= λ pc, 32 :: reverse (cintbuf (i32 pc) 16 false))) a in
    shows (scr s') (a_text said) ∧ serial (scr s') = a_sent said.
Proof.
  intros Hs Ht. set (a0 := a_lock false a).
  assert (does h a (kmodify (set_locking false) ;; cprintf (str "cpu%d: panic: ") [PInt cpu] ;; cprintf msg [] ;;
    cprintf [10] [] ;; kfor (take 10 pcs) (λ pc, cprintf (str " %p") [PInt pc]))%kern tt h
    (a_puts (str "cpu" ++ reverse (cintbuf (i32 cpu) 10 true) ++ str ": panic: " ++ t ++ [10] ++
      (take 10 pcs ≫= λ pc, 32 :: reverse (cintbuf (i32 pc) 16 false))) a0)) as H.
  { eapply does_bind; [apply does_unlock|]. fold a0.
    replace (str "cpu" ++ _) with ((str "cpu" ++ reverse (cintbuf (i32 cpu) 10 true) ++ str ": panic: ") ++ t ++ [10] ++
      (take 10 pcs ≫= λ pc, 32 :: reverse (cintbuf (i32 pc) 16 false))) by (by rewrite <-!app_assoc).
    rewrite !(a_puts_app (str "cpu" ++ _)), (a_puts_app t), (a_puts_app [10]).
    eapply does_bind; [apply does_printf; [done|reflexivity]|]. eapply does_bind; [apply does_printf; [by rewrite a_puts_locking|done]|].
    eapply does_bind; [apply does_printf; [by rewrite !a_puts_locking|done]|].
    apply does_pcs. by rewrite !a_puts_locking. }
  destruct (H s Hs) as (s1 & H1 & Hs1). exists (set_panicked true s1). split; [|split; [done|]].
  - unfold panic, kbind, kmodify in *. destruct (cprintf _ _ (set_locking false s)) as [[] s2| | |]; try done.
    destruct (cprintf msg [] s2) as [[] s3| | |]; try done. destruct (cprintf [10] [] s3) as [[] s4| | |]; try done.
    destruct (kfor (take 10 pcs) _ s4) as [[] s5| | |]; try done. by simplify_eq.
  - unfold a0 in Hs1. rewrite a_puts_lock in Hs1. split; [apply Hs1|apply Hs1].
Qed.

(** ** Typing *)

Lemma does_back h a c line : a_line a = line ++ [c] →
  does h a (s ← kget; modinp (set_ie (u32 (ie (inp s) - 1))))%kern tt h (a_queue (a_ready a) line a).
Proof.
  intros Hl s Hs. eexists. split; [done|]. pose proof (rp_ring _ _ _ Hs) as Hr. rewrite Hl in Hr.
  apply ring_back in Hr as [_ Hr]. destruct Hs; by split.
Qed.

(** Rubbing out the last character of the line. *)
Lemma rub_out h a c line s : a_line a = line ++ [c] → rep h s a →
  ∃ s', (modinp (set_ie (u32 (ie (inp s) - 1))) ;; consputc BACKSPACE)%kern s = Done tt s' ∧
    rep h s' (a_putc (a_queue (a_ready a) line a) BACKSPACE).
Proof.
  intros Hl Hs. destruct (does_back h a c line Hl s Hs) as (s1 & H1 & Hs1).
  destruct (does_putc h _ BACKSPACE s1 Hs1) as (s2 & H2 & Hs2). exists s2. split; [|done].
  change (kbind kget _ s) with (modinp (set_ie (u32 (ie (inp s) - 1))) s) in H1. by rewrite (kbind_done _ _ _ _ _ H1).
Qed.

Lemma a_puts_queue l ready line a : a_puts l (a_queue ready line a) = a_queue ready line (a_puts l a).
Proof. unfold a_puts. revert a. induction l as [|c l IH]; intros a; [done|]. simpl. by rewrite <-IH. Qed.

Lemma a_puts_same l a : a_ready (a_puts l a) = a_ready a ∧ a_line (a_puts l a) = a_line a ∧ a_shift (a_puts l a) = a_shift a ∧
  a_events (a_puts l a) = a_events a.
Proof. revert a. induction l as [|c l IH]; intros a; [done|]. apply (IH (a_putc a c)). Qed.

Lemma does_kill_line h fuel a : 10 ∉ a_line a → (length (a_line a) ≤ fuel)%nat →
  does h a (kill_line fuel) tt h (a_puts (replicate (length (a_line a)) BACKSPACE) (a_queue (a_ready a) [] a)).
Proof.
  revert a. induction fuel as [|fuel IH]; intros a Hnl Hf s Hs.
  - destruct (a_line a) eqn:Hl; [|simpl in Hf; lia]. simpl. unfold kbind, kget.
    rewrite bool_decide_false by (rewrite (ring_line _ _ _ (rp_ring _ _ _ Hs)); by rewrite Hl; intros []).
    simpl. exists s. split; [done|]. rewrite <-Hl. by destruct a.
  - cbn [kill_line]. rewrite (kbind_done _ _ _ _ _ (eq_refl : kget s = Done s s)).
    destruct (list.last (a_line a)) as [c|] eqn:Hlast.
    + apply last_Some in Hlast as [line Hl]. pose proof (rp_ring _ _ _ Hs) as Hr. rewrite Hl in Hr.
      rewrite bool_decide_true by (rewrite (ring_line _ _ _ Hr); by destruct line).
      destruct (ring_back _ _ _ _ Hr) as [-> _]. rewrite Hl in Hnl.
      rewrite bool_decide_true by set_solver. simpl.
      destruct (rub_out h a c line s Hl Hs) as (s1 & H1 & Hs1).
      destruct (IH _ (ltac:(set_solver) : 10 ∉ a_line (a_putc (a_queue (a_ready a) line a) BACKSPACE))
        (ltac:(simpl; rewrite Hl, length_app in Hf; simpl in Hf; lia)) s1 Hs1) as (s2 & H2 & Hs2).
      exists s2. split; [rewrite <-kbind_assoc; by rewrite (kbind_done _ _ _ _ _ H1)|].
      rewrite Hl, length_app. simpl in *. rewrite Nat.add_1_r. done.
    + apply last_None in Hlast as Hl. rewrite Hl. simpl.
      rewrite bool_decide_false by (rewrite (ring_line _ _ _ (rp_ring _ _ _ Hs)); by rewrite Hl; intros []).
      simpl. exists s. split; [done|]. rewrite <-Hl. by destruct a.
Qed.

Lemma does_enter h a c : (length (a_ready a) + length (a_line a) < 128)%nat → 0 ≤ c < 256 →
  let a' := a_queue (a_ready a) (a_line a ++ [c]) (a_putc a c) in
  does h a (modinp (λ x, Input (<[Z.to_nat (ie x mod INPUT_BUF) := u8 c]> (ibuf x)) (ir x) (iw x) (u32 (ie x + 1))) ;;
      consputc c ;;
      s ← kget;
      kwhen (bool_decide (c = 10 ∨ c = C 68 ∨ ie (inp s) = u32 (ir (inp s) + INPUT_BUF)))
        (modinp (set_iw (ie (inp s))) ;; wakeup CInput))%kern tt h
    (if bool_decide (c = 10 ∨ c = C 68 ∨ (length (a_ready a) + length (a_line a ++ [c]) = 128)%nat)
     then a_event (EWakeup CInput) (a_queue (a_ready a ++ (a_line a ++ [c])) [] a') else a').
Proof.
  intros Hlt Hc a'. eapply does_bind; [apply does_inp; intros x Hx; by apply ring_push|].
  eapply does_bind; [apply does_putc|]. intros s Hs. rewrite (kbind_done _ _ _ _ _ (eq_refl : kget s = Done s s)).
  pose proof (rp_ring _ _ _ Hs) as Hr. simpl in Hr.
  rewrite (bool_decide_ext _ (c = 10 ∨ c = C 68 ∨ (length (a_ready a) + length (a_line a ++ [c]) = 128)%nat))
    by (by rewrite (ring_full _ _ _ Hr)).
  case_bool_decide; [|by exists s]. eexists. split; [done|]. apply ring_commit in Hr.
  destruct Hs; split; try done. simpl in *. by rewrite rp_events0.
Qed.

(** [intr_char] does what the user sees. *)
Lemma does_char h a calls dump c : LCons ∉ h → ctexts calls = Some dump → typed a → 0 ≤ c < 256 →
  does h a (intr_char calls c) tt h (a_char dump a c).
Proof.
  intros Hh Hd (Hnl & _) Hc. unfold intr_char, a_char. case_bool_decide; [by apply does_dump|].
  case_bool_decide.
  { apply does_get. intros s0 Hs0. rewrite (ring_edit _ _ _ (rp_ring _ _ _ Hs0)), Nat2Z.id. by apply does_kill_line. }
  case_bool_decide.
  - intros s Hs. rewrite (kbind_done _ _ _ _ _ (eq_refl : kget s = Done s s)).
    pose proof (ring_line _ _ _ (rp_ring _ _ _ Hs)) as Hl. destruct (decide (a_line a = [])) as [Hnil|Hnil].
    + rewrite (bool_decide_false (ie _ ≠ iw _)) by (intros Hne; by apply Hl in Hne). rewrite bool_decide_true by done. by exists s.
    + rewrite (bool_decide_true (ie _ ≠ iw _)) by (by apply Hl). rewrite bool_decide_false by done. destruct (list.last (a_line a)) as [y|] eqn:Hlast; [|by apply last_None in Hlast].
      apply last_Some in Hlast as [line Hline]. rewrite Hline, removelast_snoc. by apply (rub_out h a y).
  - intros s Hs. rewrite (kbind_done _ _ _ _ _ (eq_refl : kget s = Done s s)).
    rewrite (ring_total _ _ _ (rp_ring _ _ _ Hs)), <-bool_decide_and.
    rewrite (bool_decide_ext _ (c ≠ 0 ∧ (length (a_ready a) + length (a_line a) < 128)%nat)) by (unfold INPUT_BUF; lia).
    case_bool_decide as Hroom'; [|by exists s]. destruct Hroom' as [_ Hlt].
    set (c' := if bool_decide (c = 13) then 10 else c). assert (0 ≤ c' < 256) as Hc' by (unfold c'; case_bool_decide; lia).
    apply (does_enter h a c' Hlt Hc' s Hs).
Qed.

Lemma typed_char dump a c : typed a → typed (a_char dump a c).
Proof.
  intros (Hnl & Hlen & Hroom & Hsh). unfold a_char. case_bool_decide.
  { destruct (a_puts_same dump a) as (Hr & Hl & Hs & _). unfold typed. by rewrite Hr, Hl, Hs. }
  case_bool_decide.
  { rewrite a_puts_queue. destruct (a_puts_same (replicate (length (a_line a)) BACKSPACE) a) as (_ & _ & Hs & _).
    split_and!; simpl; [set_solver|lia|done|rewrite Hs; lia..]. }
  case_bool_decide.
  { case_bool_decide as Hn; [done|]. destruct (list.last (a_line a)) as [y|] eqn:Hlast; [|by apply last_None in Hlast].
    apply last_Some in Hlast as [line Hl]. rewrite Hl, removelast_snoc. rewrite Hl, length_app in *. simpl in *.
    split_and!; simpl; [set_solver|lia|lia|lia..]. }
  case_bool_decide as Hc; [|done]. cbv zeta. set (c' := if bool_decide (c = 13) then 10 else c).
  case_bool_decide as Hend; split_and!; simpl; rewrite ?length_app; simpl in *; try lia; [set_solver|done| |].
  - rewrite length_app in Hend. simpl in Hend. set_solver.
  - rewrite length_app in Hend. simpl in Hend. tauto.
Qed.

(** An interrupt. *)
Lemma does_intr h a calls dump cs : LInput ∉ h → LCons ∉ h → ctexts calls = Some dump → typed a → Forall (λ c, 0 ≤ c < 256) cs →
  does h a (consoleintr calls cs) tt h (foldl (a_char dump) a cs) ∧ typed (foldl (a_char dump) a cs).
Proof.
  intros Hi Hh Hd Ha Hcs.
  assert (does (LInput :: h) a (kfor cs (intr_char calls)) tt (LInput :: h) (foldl (a_char dump) a cs) ∧ typed (foldl (a_char dump) a cs)) as [Hf Ht].
  { revert a Ha. induction Hcs as [|c cs Hc Hcs IH]; intros a Ha; simpl; [split; [apply does_ret|done]|].
    destruct (IH _ (typed_char dump a c Ha)) as [IH1 IH2]. split; [|done].
    eapply does_bind; [apply does_char; try done; set_solver|done]. }
  split; [|done]. eapply does_bind; [by apply does_acquire|]. eapply does_bind; [done|]. by apply does_release.
Qed.

(** ** Reading *)

Lemma does_leave a r : does [LInput] a (leave r) r [] (a_event EIlock a).
Proof.
  eapply does_bind; [apply does_release; set_solver|]. eapply does_bind; [apply does_event|]. apply does_ret.
Qed.

Lemma a_queue_queue r l r' l' a : a_queue r l (a_queue r' l' a) = a_queue r l a.
Proof. done. Qed.

Lemma a_queue_id a : a_queue (a_ready a) (a_line a) a = a.
Proof. by destruct a. Qed.

Lemma does_read killed target n bytes a :
  does [LInput] a (read_loop killed target n bytes) (a_read killed target n bytes a).1 [] (a_read killed target n bytes a).2.
Proof.
  revert bytes a. induction n as [|n IH]; intros bytes a; unfold a_read.
  - cbn [read_loop a_take]. simpl. rewrite a_queue_id. apply does_leave.
  - intros s Hs. cbn [read_loop]. rewrite (kbind_done _ _ _ _ _ (eq_refl : kget s = Done s s)).
    pose proof (rp_ring _ _ _ Hs) as Hr. pose proof (ring_ready _ _ _ Hr) as Hrd.
    destruct (a_ready a) as [|c ready] eqn:Hready; cbn [a_take].
    + rewrite bool_decide_true by (by apply Hrd). rewrite <-Hready, a_queue_id. destruct killed; [by apply does_leave|].
      eapply (does_bind _ _ _ _ _ _ _ _ _ _ (does_sleep a LInput)); [apply does_ret|done].
    + rewrite bool_decide_false by (rewrite Hrd; done). apply ring_pop in Hr as [-> Hr].
      set (s1 := set_inp (set_ir (u32 (ir (inp s) + 1)) (inp s)) s).
      assert (rep [LInput] s1 (a_queue ready (a_line a) a)) as Hs1 by (destruct Hs; by split).
      assert (modinp (set_ir (u32 (ir (inp s) + 1))) s = Done tt s1) as H1 by done.
      rewrite (kbind_done _ _ _ _ _ H1). clear H1. case_bool_decide.
      * case_bool_decide; cbn [kwhen]; cbn [fst snd]; [|by apply does_leave].
        assert (modinp (set_ir (ir (inp s))) s1 = Done tt s) as H2 by (by destruct s as [? ? []]).
        rewrite (kbind_done _ _ _ _ _ H2), <-Hready, a_queue_id. by apply does_leave.
      * case_bool_decide; [by apply does_leave|]. destruct (IH (bytes ++ [c]) _ s1 Hs1) as (s2 & H2 & Hs2).
        exists s2. unfold a_read in H2, Hs2. simpl a_ready in *. destruct (a_take _ _ _ _ _) as [r q]. done.
Qed.

Lemma does_again killed target n bytes a : does [] a (consoleread_again killed target n bytes)
  (a_read killed target n bytes a).1 [] (a_read killed target n bytes a).2.
Proof. eapply does_bind; [apply does_acquire; set_solver|apply does_read]. Qed.

Lemma a_take_shorter killed target n bytes ready : (length (a_take killed target n bytes ready).2 ≤ length ready)%nat.
Proof.
  revert bytes ready. induction n as [|n IH]; intros bytes [|c ready]; simpl; try lia.
  case_bool_decide; simpl; [case_bool_decide; simpl; lia|]. case_bool_decide; simpl; [lia|].
  etransitivity; [apply IH|]. lia.
Qed.

Lemma typed_read killed target n bytes a : typed a → typed (a_read killed target n bytes a).2.
Proof.
  intros (Hnl & Hlen & Hroom & Hsh). unfold a_read. pose proof (a_take_shorter killed target n bytes (a_ready a)) as Hs.
  destruct (a_take _ _ _ _ _) as [r ready]. simpl in Hs.
  assert (typed (a_queue ready (a_line a) a)) as H.
  { split_and!; simpl; [done|lia| |lia..]. intros He. apply Hroom. lia. }
  by destruct r.
Qed.

(** ** Any sequence of calls and interrupts *)

Inductive op :=
| OKbd (calls : list (list Z * list parg)) (bytes : list Z)     (* kbdintr *)
| OUart (calls : list (list Z * list parg)) (bytes : list Z)    (* uartintr *)
| ORead (killed : bool) (n : Z)                                 (* consoleread *)
| OAgain (killed : bool) (target n : nat) (bytes : list Z)      (* a reader that was asleep *)
| OWrite (buf : list Z) (n : Z)                                 (* consolewrite *)
| OPrintf (fmt : list Z) (argp : list parg).                    (* cprintf *)

Inductive answer := ANone | ARead (r : res) | AWrote (n : Z).

Definition run_op (o : op) : kM st answer :=
  (match o with
   | OKbd calls bytes => kbdintr calls bytes ;; kret ANone
   | OUart calls bytes => uartintr calls bytes ;; kret ANone
   | ORead killed n => r ← consoleread killed n; kret (ARead r)
   | OAgain killed target n bytes => r ← consoleread_again killed target n bytes; kret (ARead r)
   | OWrite buf n => r ← consolewrite buf n; kret (AWrote r)
   | OPrintf fmt argp => cprintf fmt argp ;; kret ANone
   end)%kern.

Fixpoint run_ops (l : list op) : kM st (list answer) :=
  (match l with
   | [] => kret []
   | o :: l => x ← run_op o; xs ← run_ops l; kret (x :: xs)
   end)%kern.

(** The same, as the user sees it. *)
Definition a_op (o : op) (a : tty) : answer * tty :=
  match o with
  | OKbd calls bytes =>
    match kbd_chars (a_shift a) bytes with
    | Some (cs, k) => (ANone, foldl (a_char (default [] (ctexts calls))) (a_keys k a) cs)
    | None => (ANone, a)
    end
  | OUart calls bytes => (ANone, foldl (a_char (default [] (ctexts calls))) a (if a_uart a then bytes else []))
  | ORead killed n =>
    let '(r, a) := a_read killed (Z.to_nat n) (Z.to_nat n) [] (a_event EIunlock a) in (ARead r, a)
  | OAgain killed target n bytes => let '(r, a) := a_read killed target n bytes a in (ARead r, a)
  | OWrite buf n => (AWrote n, a_event EIlock (a_puts (u8 <$> take (Z.to_nat n) buf) (a_event EIunlock a)))
  | OPrintf fmt argp => (ANone, a_puts (default [] (ctext fmt argp)) a)
  end.

Fixpoint a_ops (l : list op) (a : tty) : list answer * tty :=
  match l with
  | [] => ([], a)
  | o :: l => let '(x, a) := a_op o a in let '(xs, a) := a_ops l a in (x :: xs, a)
  end.

(** The devices deliver bytes, formats have their arguments, buffers are as
    long as the caller says. *)
Definition op_ok (o : op) : Prop :=
  match o with
  | OKbd calls bytes | OUart calls bytes => is_Some (ctexts calls) ∧ Forall (λ c, 0 ≤ c < 256) bytes
  | ORead _ _ | OAgain _ _ _ _ => True
  | OWrite buf n => n ≤ Z.of_nat (length buf)
  | OPrintf fmt argp => is_Some (ctext fmt argp)
  end.

Lemma does_keys h a k : does h a (kmodify (set_kshift k)) tt h (a_keys k a).
Proof. intros s Hs. eexists. split; [done|]. by destruct Hs; split. Qed.

Lemma does_kbd a calls dump bytes : ctexts calls = Some dump → Forall (λ c, 0 ≤ c < 256) bytes → typed a →
  ∃ cs k, kbd_chars (a_shift a) bytes = Some (cs, k) ∧
    does [] a (kbdintr calls bytes) tt [] (foldl (a_char dump) (a_keys k a) cs) ∧ typed (foldl (a_char dump) (a_keys k a) cs).
Proof.
  intros Hd Hb Ha. pose proof Ha as (Hnl & Hlen & Hroom & Hsh).
  destruct (kbd_chars_ok bytes (a_shift a) Hsh Hb) as (cs & k & Hk & _ & Hcs & Hk'). exists cs, k. split; [done|].
  assert (typed (a_keys k a)) as Ha' by (split_and!; simpl; (done || lia)).
  destruct (does_intr [] (a_keys k a) calls dump cs) as [H1 H2]; try done; [set_solver..|]. split; [|done].
  apply does_get. intros s0 Hs0. rewrite (rp_shift _ _ _ Hs0), Hk.
  eapply (does_bind _ _ _ (cs, k)); [apply does_ret|]. cbv beta iota. eapply does_bind; [apply does_keys|done].
Qed.

Lemma does_write a buf n : n ≤ Z.of_nat (length buf) →
  does [] a (consolewrite buf n) n [] (a_event EIlock (a_puts (u8 <$> take (Z.to_nat n) buf) (a_event EIunlock a))).
Proof.
  intros Hn. unfold consolewrite. rewrite bool_decide_true by done.
  eapply does_bind; [apply does_event|]. eapply does_bind; [apply does_acquire; set_solver|].
  eapply does_bind.
  { eapply (does_eq _ _ (kfor (u8 <$> take (Z.to_nat n) buf) consputc)); [|apply does_puts]. intros s. generalize (take (Z.to_nat n) buf) as l. intros l.
    revert s. induction l as [|b l IH]; intros s; simpl; [done|]. unfold kbind. destruct (consputc (u8 b) s); try done. }
  eapply does_bind; [apply does_release; set_solver|]. eapply does_bind; [apply does_event|]. apply does_ret.
Qed.

Lemma does_op o a : op_ok o → typed a → does [] a (run_op o) (a_op o a).1 [] (a_op o a).2 ∧ typed (a_op o a).2.
Proof.
  intros Ho Ha. destruct o as [calls bytes|calls bytes|killed n|killed target n bytes|buf n|fmt argp]; simpl in Ho |- *.
  - destruct Ho as [[dump Hd] Hb]. destruct (does_kbd a calls dump bytes Hd Hb Ha) as (cs & k & Hk & H1 & H2).
    rewrite Hk, Hd. split; [|done]. eapply does_bind; [done|apply does_ret].
  - destruct Ho as [[dump Hd] Hb]. rewrite Hd. simpl.
    destruct (does_intr [] a calls dump (if a_uart a then bytes else [])) as [H1 H2]; try done; [set_solver..|by destruct (a_uart a)|].
    split; [|done]. eapply does_bind; [|apply does_ret]. apply does_get. intros s0 Hs0. by rewrite (rp_uart _ _ _ Hs0).
  - assert (typed (a_event EIunlock a)) as Ha' by done.
    pose proof (typed_read killed (Z.to_nat n) (Z.to_nat n) [] _ Ha') as Ht.
    pose proof (does_read killed (Z.to_nat n) (Z.to_nat n) [] (a_event EIunlock a)) as Hr.
    destruct (a_read _ _ _ _ _) as [r a']. split; [|done]. eapply does_bind; [|apply does_ret].
    eapply does_bind; [apply does_event|]. eapply does_bind; [apply does_acquire; set_solver|done].
  - pose proof (typed_read killed target n bytes _ Ha) as Ht. pose proof (does_again killed target n bytes a) as Hr.
    destruct (a_read _ _ _ _ _) as [r a']. split; [|done]. eapply does_bind; [done|apply does_ret].
  - split; [eapply does_bind; [by apply does_write|apply does_ret]|].
    destruct (a_puts_same (u8 <$> take (Z.to_nat n) buf) (a_event EIunlock a)) as (Hr & Hl & Hs & _).
    unfold typed. simpl. by rewrite Hr, Hl, Hs.
  - destruct Ho as [t Ht]. rewrite Ht. split; [eapply does_bind; [apply does_printf; [intros _; set_solver|done]|apply does_ret]|].
    destruct (a_puts_same t a) as (Hr & Hl & Hs & _). unfold typed. simpl. by rewrite Hr, Hl, Hs.
Qed.

Lemma does_ops l a : Forall op_ok l → typed a → does [] a (run_ops l) (a_ops l a).1 [] (a_ops l a).2 ∧ typed (a_ops l a).2.
Proof.
  intros Hl. revert a. induction Hl as [|o l Ho Hl IH]; intros a Ha; simpl; [split; [apply does_ret|done]|].
  destruct (does_op o a Ho Ha) as [H1 H2]. destruct (a_op o a) as [x a1]. simpl in *.
  destruct (IH a1 H2) as [H3 H4]. destruct (a_ops l a1) as [xs a2]. simpl in *. split; [|done].
  eapply does_bind; [done|]. eapply does_bind; [done|]. apply does_ret.
Qed.

(** ** From start *)

(** Before [consoleinit]: a blank screen, and all variables zero. *)
Definition con0 : st :=
  St [] (Screen (replicate 2000 0) 0 false []) (Input (replicate 128 0) 0 0 0) false false 0 [] false [] [].

Definition tty0 (uart : bool) : tty := Tty ([], []) uart (if uart then str "xv6..." ++ [10] else []) [] [] [] true 0.

Lemma blank_shows u se : shows (Screen (replicate 2000 0) 0 u se) ([], []).
Proof.
  split; cbn [crt cursor fst snd length]; [rewrite length_replicate; lia|unfold ROWS; lia|constructor|unfold COLS; lia|done|].
  intros i Hi. rewrite tcell_blank by (simpl; lia). unfold byte_at. rewrite lookup_replicate_2 by (unfold COLS, ROWS in Hi; lia). done.
Qed.

Lemma typed0 u : typed (tty0 u).
Proof. split_and!; simpl; (set_solver || lia || done). Qed.

(** The console behind [consoleinit] and [uartinit]. *)
Definition con1 (u : bool) : st :=
  St [] (Screen (replicate 2000 0) 0 u (a_sent (tty0 u))) (Input (replicate 128 0) 0 0 0) true false 0 [] true
    (IRQ_KBD :: if u then [IRQ_COM1] else [])
    [(COM1 + 2, 0); (COM1 + 3, 0x80); (COM1 + 0, 115200 / 9600); (COM1 + 1, 0); (COM1 + 3, 0x03); (COM1 + 4, 0); (COM1 + 1, 0x01)].

Lemma boot_console status : (consoleinit ;; uartinit status)%kern con0 = Done tt (con1 (bool_decide (status ≠ 0xFF))).
Proof.
  unfold uartinit. destruct (decide (status = 0xFF)) as [->|Hne]; [reflexivity|].
  rewrite (bool_decide_false (status = _)), (bool_decide_true (status ≠ _)) by exact Hne. reflexivity.
Qed.

Lemma con1_rep u : rep [] (con1 u) (tty0 u).
Proof.
  split; try reflexivity; [apply blank_shows|]. unfold con1. cbn [inp tty0 a_ready a_line].
  split; cbn [ibuf ir iw ie length app]; try reflexivity; [lia|lia|]. by intros [].
Qed.

(** ** A line reaches its reader *)

(** A key that does not end the line: a character, or one that edits. *)
Definition key_ok (k : Z) : Prop := 0 < k < 256 ∧ k ∉ [C 68; 10; 13; C 80].

Definition edit (line : list Z) (k : Z) : list Z :=
  if bool_decide (k = C 85) then [] else if bool_decide (k = C 72 ∨ k = 0x7f) then removelast line else line ++ [k].

Lemma length_edit line k : (length (edit line k) ≤ S (length line))%nat.
Proof.
  unfold edit. repeat case_bool_decide; simpl; [lia| |rewrite length_app; simpl; lia].
  destruct (list.last line) as [y|] eqn:Hl; [|apply last_None in Hl; subst; simpl; lia].
  apply last_Some in Hl as [l ->]. rewrite removelast_snoc, length_app. lia.
Qed.

Lemma elem_of_edit line k x : x ∈ edit line k → x ∈ line ∨ (x = k ∧ k ≠ C 85).
Proof.
  unfold edit. repeat case_bool_decide; [set_solver| |set_solver].
  destruct (list.last line) as [y|] eqn:Hl; [|apply last_None in Hl; subst; set_solver].
  apply last_Some in Hl as [l ->]. rewrite removelast_snoc. set_solver.
Qed.

Lemma char_edits dump a k : key_ok k → a_ready a = [] → (length (a_line a) < 127)%nat →
  a_ready (a_char dump a k) = [] ∧ a_line (a_char dump a k) = edit (a_line a) k ∧ a_events (a_char dump a k) = a_events a.
Proof.
  intros [Hk Hn] Hr Hl. unfold a_char, edit. rewrite bool_decide_false by set_solver. case_bool_decide.
  { destruct (a_puts_same (replicate (length (a_line a)) BACKSPACE) (a_queue (a_ready a) [] a)) as (H1 & H2 & _ & H3).
    rewrite H1, H2, H3. done. }
  case_bool_decide.
  { case_bool_decide as Hnil; [by rewrite Hnil|done]. }
  rewrite bool_decide_true by (rewrite Hr; simpl; lia). rewrite (bool_decide_false (k = 13)) by set_solver. cbv zeta.
  rewrite bool_decide_false; [done|]. rewrite length_app. simpl. rewrite Hr. simpl.
  intros [->|[->|?]]; [set_solver..|lia].
Qed.

Lemma edits_typed dump keys a : Forall key_ok keys → a_ready a = [] → (length (a_line a) + length keys ≤ 127)%nat →
  let a' := foldl (a_char dump) a keys in
  a_ready a' = [] ∧ a_line a' = foldl edit (a_line a) keys ∧ a_events a' = a_events a ∧ (length (a_line a') ≤ 127)%nat.
Proof.
  intros Hk. revert a. induction Hk as [|k keys Hk Hks IH]; intros a Hr Hl; simpl in *; [split_and!; done || lia|].
  destruct (char_edits dump a k Hk Hr ltac:(lia)) as (H1 & H2 & H3).
  pose proof (length_edit (a_line a) k) as Hlen.
  destruct (IH (a_char dump a k) H1 ltac:(rewrite H2; lia)) as (H4 & H5 & H6 & H7).
  split_and!; [done|by rewrite H5, H2|congruence|done].
Qed.

Lemma edits_plain keys line : Forall key_ok keys → Forall (λ c, c ≠ C 68 ∧ c ≠ 10) line →
  Forall (λ c, c ≠ C 68 ∧ c ≠ 10) (foldl edit line keys).
Proof.
  intros Hk. revert line. induction Hk as [|k keys [_ Hk] Hks IH]; intros line Hl; [done|]. simpl. apply IH.
  rewrite list.Forall_forall in *. intros x [Hx|[-> _]]%elem_of_edit; [by apply Hl|]. set_solver.
Qed.

Lemma take_line n bytes line : Forall (λ c, c ≠ C 68 ∧ c ≠ 10) line → (length line < n)%nat → ∀ target, (n ≤ target)%nat →
  a_take false target n bytes (line ++ [10]) = (RRet (Z.of_nat (target - n + S (length line))) (bytes ++ line ++ [10]), []).
Proof.
  intros Hl. revert n bytes. induction Hl as [|c line [H4 H10] Hl IH]; intros n bytes Hn target Ht; simpl in *.
  - destruct n as [|n]; [lia|]. simpl. do 2 f_equal. lia.
  - destruct n as [|n]; [lia|]. simpl. rewrite !bool_decide_false by done. rewrite IH by lia. rewrite <-app_assoc. do 2 f_equal. lia.
Qed.

Lemma does_intrs calls dump css a : ctexts calls = Some dump → typed a → Forall (λ c, 0 ≤ c < 256) (concat css) →
  does [] a (kfor css (consoleintr calls)) tt [] (foldl (a_char dump) a (concat css)) ∧ typed (foldl (a_char dump) a (concat css)).
Proof.
  intros Hd. revert a. induction css as [|cs css IH]; intros a Ha Hb; simpl in *; [split; [apply does_ret|done]|].
  apply Forall_app in Hb as [Hb1 Hb2]. rewrite foldl_app.
  destruct (does_intr [] a calls dump cs (not_elem_of_nil _) (not_elem_of_nil _) Hd Ha Hb1) as [H1 H2].
  destruct (IH _ H2 Hb2) as [H3 H4]. split; [|done]. by eapply does_bind.
Qed.

(** Return, typed behind an empty queue: the line is handed over. *)
Lemma char_return dump a : a_ready a = [] → (length (a_line a) ≤ 127)%nat →
  a_ready (a_char dump a 13) = a_line a ++ [10] ∧ a_events (a_char dump a 13) = a_events a ++ [EWakeup CInput].
Proof.
  intros Hr Hl. unfold a_char.
  rewrite (bool_decide_false (13 = C 80)), (bool_decide_false (13 = C 85)), (bool_decide_false (13 = C 72 ∨ 13 = 0x7f))
    by (unfold C; lia). rewrite (bool_decide_true (_ ∧ _)) by (rewrite Hr; simpl; lia).
  rewrite (bool_decide_true (13 = 13)) by done. cbv zeta. rewrite bool_decide_true by auto. simpl. by rewrite Hr.
Qed.

(** C27: The console, driven by any sequence of keyboard and serial interrupts,
    reads (also those that slept and go on), writes and kernel messages, is the
    terminal and line editor of the abstract [tty]: no call panics or goes out
    of bounds, every read and write gives the same answer, the screen shows the
    same text, the serial line has sent the same bytes, and the buffer holds
    the same lines. *)
Theorem console_refines l s a : rep [] s a → typed a → Forall op_ok l →
  ∃ s', run_ops l s = Done (a_ops l a).1 s' ∧ rep [] s' (a_ops l a).2 ∧ typed (a_ops l a).2.
Proof.
  intros Hs Ha Hl. destruct (does_ops l a Hl Ha) as [H1 H2]. destruct (H1 s Hs) as (s' & Hr & Hs'). eauto.
Qed.

(** Behind a start with a serial port: keys h, i, k, rub out, Return while
    procdump would print one row, then a read of up to 100 bytes and another
    that sleeps. *)
Definition demo_ops : list op :=
  [OKbd [(str "%d %s", [PInt 1; PStr (Some (str "init"))])] [0x23; 0xA3; 0x17; 0x25; 0x0E; 0x1C]; ORead false 100; ORead false 1].

Lemma demo_ops_ok : Forall op_ok demo_ops.
Proof. repeat constructor; try lia. by eexists. Qed.

Lemma console_refines_witness : ∃ s', run_ops demo_ops (con1 true) =
    Done [ANone; ARead (RRet 3 [104; 105; 10]); ARead (RSleep 1 1 [])] s' ∧
  rep [] s' (Tty ([[104; 105]], []) true (str "xv6..." ++ [10; 104; 105; 107; 8; 32; 8; 10]) [] []
    [EWakeup CInput; EIunlock; EIlock; EIunlock] true 0) ∧ typed (a_ops demo_ops (tty0 true)).2.
Proof. exact (console_refines demo_ops (con1 true) (tty0 true) (con1_rep true) (typed0 true) demo_ops_ok). Defined.

(** C28: a process asleep in a read of [n] bytes, with nothing typed yet, gets its
    line. Let up to 127 keys be typed, of any kind but ^D, ^P, Return, newline and NUL
    (corrections by backspace and ^U included), split over interrupts in any way, and
    let the line as edited be shorter than [n]. Then Return wakes the process up, once,
    and it returns with exactly the line as edited and its newline. *)
Theorem line_delivered calls dump css keys n s a :
  rep [] s a → typed a → a_ready a = [] → a_line a = [] → ctexts calls = Some dump →
  Forall key_ok keys → (length keys ≤ 127)%nat → concat css = keys ++ [13] → (length (foldl edit [] keys) < n)%nat →
  ∃ s1 s2, kfor css (consoleintr calls) s = Done tt s1 ∧ events s1 = events s ++ [EWakeup CInput] ∧
    consoleread_again false n n [] s1 =
      Done (RRet (Z.of_nat (S (length (foldl edit [] keys)))) (foldl edit [] keys ++ [10])) s2.
Proof.
  intros Hs Ha Hr Hl Hd Hk Hlen Hc Hn.
  assert (Forall (λ c, 0 ≤ c < 256) (concat css)) as Hb.
  { rewrite Hc. apply Forall_app. split; [|by repeat constructor]. eapply list.Forall_impl; [done|]. intros k [? _]. lia. }
  destruct (does_intrs calls dump css a Hd Ha Hb) as [Hdo _]. destruct (Hdo s Hs) as (s1 & H1 & Hs1).
  rewrite Hc, foldl_app in Hs1. cbn [foldl] in Hs1.
  destruct (edits_typed dump keys a Hk Hr ltac:(rewrite Hl; simpl; lia)) as (Hr' & Hl' & He' & Hlen').
  set (a' := foldl (a_char dump) a keys) in *. destruct (char_return dump a' Hr' Hlen') as [Hq He].
  rewrite Hl in Hl'. rewrite Hl' in Hq.
  destruct (does_again false n n [] _ s1 Hs1) as (s2 & H2 & _). exists s1, s2. split_and!; [done| |].
  - rewrite (rp_events _ _ _ Hs1), He, He', (rp_events _ _ _ Hs). done.
  - rewrite H2. unfold a_read. rewrite Hq, take_line; [|apply edits_plain; done|done|lia].
    cbn [fst app]. do 2 f_equal. lia.
Qed.

Lemma line_delivered_witness : ∃ s1 s2, kfor [[104; 105; 107]; [8; 13]] (consoleintr []) (con1 false) = Done tt s1 ∧
  events s1 = [] ++ [EWakeup CInput] ∧ consoleread_again false 10 10 [] s1 = Done (RRet 3 [104; 105; 10]) s2.
Proof.
  assert (Forall key_ok [104; 105; 107; 8]) as Hk by (repeat constructor; try done; set_solver by (unfold C in *; lia)).
  exact (line_delivered [] [] [[104; 105; 107]; [8; 13]] [104; 105; 107; 8] 10 (con1 false) (tty0 false) (con1_rep false) (typed0 false)
    eq_refl eq_refl eq_refl Hk ltac:(simpl; lia) eq_refl ltac:(simpl; lia)).
Defined.

(** Whatever bytes the keyboard sends, [kbdgetc] indexes its tables in
    range, returns a character in 0..255 for each byte, and leaves [shift]
    within its seven flags. *)
Theorem kbd_in_range bytes shift : 0 ≤ shift < 128 → Forall (λ d, 0 ≤ d < 256) bytes →
  ∃ cs shift', kbd_chars shift bytes = Some (cs, shift') ∧ length cs = length bytes ∧
    Forall (λ c, 0 ≤ c < 256) cs ∧ 0 ≤ shift' < 128.
Proof. intros. by apply kbd_chars_ok. Qed.

(** Left shift down, q, shift up, Caps Lock, q, an escaped Delete. *)
Lemma kbd_in_range_witness : kbd_chars 0 [0x2A; 0x10; 0xAA; 0x3A; 0xBA; 0x10; 0xE0; 0x53] = Some ([0; 81; 0; 0; 0; 81; 0; 0xE9], 8) ∧
  ∃ cs shift', kbd_chars 0 [0x2A; 0x10; 0xAA; 0x3A; 0xBA; 0x10; 0xE0; 0x53] = Some (cs, shift') ∧ length cs = 8%nat ∧
    Forall (λ c, 0 ≤ c < 256) cs ∧ 0 ≤ shift' < 128.
Proof.
  split; [vm_compute; reflexivity|]. apply (kbd_in_range [0x2A; 0x10; 0xAA; 0x3A; 0xBA; 0x10; 0xE0; 0x53] 0); [lia|].
  repeat constructor; lia.
Defined.
