(* ===== verification/Umalloc.v ===== *)
(** * The memory allocator of user programs (umalloc.c)

    The free blocks are a circular list in order of address, threaded through
    the memory they stand for and entered at [freep], over the byte memory of
    CString.v. [sbrk] is the system call, as growproc and allocuvm answer it.
    The theorems see the heap as a sequence of segments, free or in use, that
    covers everything [sbrk] ever gave. *)

From S2P Require Import Prelude CString.

Local Open Scope Z_scope.

(** The largest size of a process. *)
Definition UTOP : Z := 2 ^ 31.

Module Um.
Record st := St { umem : mem; freep : Z; brk : Z }.

Definition set_mem (m : mem) (s : st) : st := St m (freep s) (brk s).
Definition set_freep (p : Z) (s : st) : st := St (umem s) p (brk s).

(** union header: ptr and size. *)
Definition HSIZE : Z := 8.
Definition hptr (m : mem) (p : Z) : Z := load32 m p.
Definition hsize (m : mem) (p : Z) : Z := load32 m (p + 4).
Definition set_hptr (m : mem) (p w : Z) : mem := store32 m p w.
Definition set_hsize (m : mem) (p w : Z) : mem := store32 m (p + 4) w.

(** [p + n] for a Header pointer. *)
Definition adv (p n : Z) : Z := u32 (p + HSIZE * n).

(** ** Code *)

Section code.
(** The address of the static [base]; whether there are pages to grow from a
    size by a number of bytes; and the bound on the steps of a loop. *)
Context (base : Z) (pages : Z → Z → bool) (fuel0 : nat).

Local Open Scope kern_scope.

(** The search of [free] for the block behind which [bp] belongs. *)
Fixpoint free_find (fuel : nat) (m : mem) (bp p : Z) : option Z :=
  match fuel with
  | O => None
  | S fuel =>
    if bool_decide (p < bp) && bool_decide (bp < hptr m p) then Some p
    else if bool_decide (hptr m p ≤ p) && (bool_decide (p < bp) || bool_decide (bp < hptr m p)) then Some p
    else free_find fuel m bp (hptr m p)
  end.

(** Linking [bp] in behind [p], joined with its neighbours. *)
Definition join_next (m : mem) (bp p : Z) : mem :=
  if bool_decide (adv bp (hsize m bp) = hptr m p) then
    let m := set_hsize m bp (u32 (hsize m bp + hsize m (hptr m p))) in
    set_hptr m bp (hptr m (hptr m p))
  else set_hptr m bp (hptr m p).

Definition join_prev (m : mem) (bp p : Z) : mem :=
  if bool_decide (adv p (hsize m p) = bp) then
    let m := set_hsize m p (u32 (hsize m p + hsize m bp)) in
    set_hptr m p (hptr m bp)
  else set_hptr m p bp.

Definition free (ap : Z) : kM st unit :=
  s ← kget;
  let bp := u32 (ap - HSIZE) in
  p ← kunwrap (free_find fuel0 (umem s) bp (freep s));
  kmodify (λ s, set_freep p (set_mem (join_prev (join_next (umem s) bp p) bp p) s)).

(** New pages are clear. *)
Definition clear_pages (m : mem) (old new : Z) : mem := λ x,
  if bool_decide ((old + 4095) / 4096 * 4096 ≤ x < (new + 4095) / 4096 * 4096) then 0 else m x.

(** What sbrk returns, as a pointer, for an [int] argument. *)
Definition sbrk (n : Z) : kM st Z :=
  s ← kget;
  let old := brk s in
  if bool_decide (0 < n) then
    if bool_decide (u32 (old + n) < UTOP) && pages old n
    then kput (St (clear_pages (umem s) old (u32 (old + n))) (freep s) (Z.max old (u32 (old + n)))) ;; kret old
    else kret (u32 (-1))
  else if bool_decide (n < 0) then
    let new := if bool_decide (old ≤ u32 (old + n)) then old else u32 (old + n) in
    if bool_decide (new = 0) then kret (u32 (-1))
    else kput (St (umem s) (freep s) new) ;; kret old
  else kret old.

Definition morecore (nu : Z) : kM st Z :=
  let nu := if bool_decide (nu < 4096) then 4096 else nu in
  p ← sbrk (i32 (u32 (nu * HSIZE)));
  if bool_decide (p = u32 (-1)) then kret 0
  else
    kmodify (λ s, set_mem (set_hsize (umem s) p nu) s) ;;
    free (adv p 1) ;;
    kgets freep.

(** Taking [nunits] from the end of the block [p] behind [prevp]. *)
Definition carve (nunits prevp p : Z) : kM st Z :=
  s ← kget;
  let m := umem s in
  let '(m, p) :=
    if bool_decide (hsize m p = nunits) then (set_hptr m prevp (hptr m p), p)
    else
      let m := set_hsize m p (u32 (hsize m p - nunits)) in
      let p := adv p (hsize m p) in
      (set_hsize m p nunits, p) in
  kput (St m prevp (brk s)) ;;
  kret (adv p 1).

Fixpoint malloc_loop (fuel : nat) (nunits prevp p : Z) : kM st Z :=
  match fuel with
  | O => kfault
  | S fuel =>
    s ← kget;
    if bool_decide (nunits ≤ hsize (umem s) p) then carve nunits prevp p
    else if bool_decide (p = freep s) then
      p ← morecore nunits;
      if bool_decide (p = 0) then kret 0
      else s ← kget; malloc_loop fuel nunits p (hptr (umem s) p)
    else malloc_loop fuel nunits p (hptr (umem s) p)
  end.

Definition units_for (nbytes : Z) : Z := u32 (nbytes + HSIZE - 1) / HSIZE + 1.

Definition malloc (nbytes : Z) : kM st Z :=
  let nunits := units_for nbytes in
  s ← kget;
  kwhen (bool_decide (freep s = 0))
    (kput (St (set_hsize (set_hptr (umem s) base base) base 0) base (brk s))) ;;
  s ← kget;
  malloc_loop fuel0 nunits (freep s) (hptr (umem s) (freep s)).
End code.

(** ** The heap as segments *)

(** A segment of so many units. *)
Inductive seg := Free (n : Z) | Used (n : Z).

Definition ulen (x : seg) : Z := match x with Free n | Used n => n end.

Fixpoint units (l : list seg) : Z := match l with [] => 0 | x :: l => ulen x + units l end.

(** The free blocks and those in use, with their addresses. *)
Fixpoint frees (h : Z) (l : list seg) : list (Z * Z) :=
  match l with
  | [] => []
  | Free n :: l => (h, n) :: frees (h + HSIZE * n) l
  | Used n :: l => frees (h + HSIZE * n) l
  end.

Fixpoint useds (h : Z) (l : list seg) : list (Z * Z) :=
  match l with
  | [] => []
  | Free n :: l => useds (h + HSIZE * n) l
  | Used n :: l => (h, n) :: useds (h + HSIZE * n) l
  end.

(** No two free segments side by side. *)
Fixpoint joined (l : list seg) : Prop :=
  match l with
  | Free _ :: (Free _ :: _) => False
  | _ :: l => joined l
  | [] => True
  end.

(** Memory holds the nodes [l], linked, the last to [e]. *)
Definition first (l : list (Z * Z)) (e : Z) : Z := match l with [] => e | (a, _) :: _ => a end.

Fixpoint chain (m : mem) (l : list (Z * Z)) (e : Z) : Prop :=
  match l with
  | [] => True
  | (a, n) :: l => hptr m a = first l e ∧ hsize m a = n ∧ chain m l e
  end.

Section proof.
Context (base h0 : Z).
Context (Hbase : 0 < base) (Hh0 : base + HSIZE ≤ h0).

(** The list starts at [base]. *)
Definition nodes (l : list seg) : list (Z * Z) := (base, 0) :: frees h0 l.

Record ok (s : st) (l : list seg) : Prop := {
  ok_chain : chain (umem s) (nodes l) base;
  ok_freep : freep s ∈ (nodes l).*1;
  ok_used : Forall (λ x, hsize (umem s) x.1 = x.2) (useds h0 l);
  ok_pos : Forall (λ x, 1 ≤ ulen x) l;
  ok_joined : joined l;
  ok_brk : brk s = h0 + HSIZE * units l;
  ok_top : brk s ≤ UTOP;
}.

(** *** Segments *)

Lemma units_app l1 l2 : units (l1 ++ l2) = units l1 + units l2.
Proof. induction l1 as [|x l1 IH]; simpl; lia. Qed.

Lemma frees_app h l1 l2 : frees h (l1 ++ l2) = frees h l1 ++ frees (h + HSIZE * units l1) l2.
Proof.
  revert h. induction l1 as [|x l1 IH]; intros h; simpl; [f_equal; lia|].
  replace (h + HSIZE * (ulen x + units l1)) with (h + HSIZE * ulen x + HSIZE * units l1) by lia.
  destruct x; simpl; by rewrite IH.
Qed.

Lemma useds_app h l1 l2 : useds h (l1 ++ l2) = useds h l1 ++ useds (h + HSIZE * units l1) l2.
Proof.
  revert h. induction l1 as [|x l1 IH]; intros h; simpl; [f_equal; lia|].
  replace (h + HSIZE * (ulen x + units l1)) with (h + HSIZE * ulen x + HSIZE * units l1) by lia.
  destruct x; simpl; by rewrite IH.
Qed.

Lemma units_nonneg l : Forall (λ x, 1 ≤ ulen x) l → 0 ≤ units l.
Proof. induction 1; simpl; lia. Qed.

Lemma frees_split h l a n : (a, n) ∈ frees h l → ∃ l1 l2, l = l1 ++ Free n :: l2 ∧ a = h + HSIZE * units l1.
Proof.
  revert h. induction l as [|x l IH]; intros h; simpl; [by intros ?%elem_of_nil|]. destruct x as [k|k].
  - intros [[= -> ->]|(l1 & l2 & -> & ->)%IH]%elem_of_cons.
    + exists [], l. simpl. split; [done|lia].
    + exists (Free k :: l1), l2. simpl. split; [done|lia].
  - intros (l1 & l2 & -> & ->)%IH. exists (Used k :: l1), l2. simpl. split; [done|lia].
Qed.

Lemma useds_split h l a n : (a, n) ∈ useds h l → ∃ l1 l2, l = l1 ++ Used n :: l2 ∧ a = h + HSIZE * units l1.
Proof.
  revert h. induction l as [|x l IH]; intros h; simpl; [by intros ?%elem_of_nil|]. destruct x as [k|k].
  - intros (l1 & l2 & -> & ->)%IH. exists (Free k :: l1), l2. simpl. split; [done|lia].
  - intros [[= -> ->]|(l1 & l2 & -> & ->)%IH]%elem_of_cons.
    + exists [], l. simpl. split; [done|lia].
    + exists (Used k :: l1), l2. simpl. split; [done|lia].
Qed.

Lemma frees_in h l a n : Forall (λ x, 1 ≤ ulen x) l → (a, n) ∈ frees h l → h ≤ a ∧ 1 ≤ n ∧ a + HSIZE * n ≤ h + HSIZE * units l.
Proof.
  intros Hl (l1 & l2 & -> & ->)%frees_split. apply Forall_app in Hl as [H1 [H H2]%list.Forall_cons].
  apply units_nonneg in H1, H2. rewrite units_app. simpl in *. unfold HSIZE. lia.
Qed.

Lemma useds_in h l a n : Forall (λ x, 1 ≤ ulen x) l → (a, n) ∈ useds h l → h ≤ a ∧ 1 ≤ n ∧ a + HSIZE * n ≤ h + HSIZE * units l.
Proof.
  intros Hl (l1 & l2 & -> & ->)%useds_split. apply Forall_app in Hl as [H1 [H H2]%list.Forall_cons].
  apply units_nonneg in H1, H2. rewrite units_app. simpl in *. unfold HSIZE. lia.
Qed.

(** Segments do not overlap. *)
Lemma used_free_disjoint h l a n b k : Forall (λ x, 1 ≤ ulen x) l → (a, n) ∈ useds h l → (b, k) ∈ frees h l →
  a + HSIZE * n ≤ b ∨ b + HSIZE * k ≤ a.
Proof.
  intros Hl (l1 & l2 & -> & ->)%useds_split. apply Forall_app in Hl as [H1 [H H2]%list.Forall_cons].
  rewrite frees_app. intros [Hb|Hb]%elem_of_app.
  - apply frees_in in Hb; [lia|done].
  - simpl in Hb. apply frees_in in Hb; [lia|done].
Qed.

Lemma segs_joined_app l1 x l2 : joined (l1 ++ x :: l2) ↔ joined (l1 ++ [x]) ∧ joined (x :: l2).
Proof.
  induction l1 as [|y l1 IH]; [simpl; destruct x; naive_solver|].
  destruct l1 as [|z l1]; [destruct y, x; simpl in *; destruct l2 as [|[]]; naive_solver|].
  change ((y :: z :: l1) ++ x :: l2) with (y :: z :: (l1 ++ x :: l2)). change ((y :: z :: l1) ++ [x]) with (y :: z :: (l1 ++ [x])).
  change ((z :: l1) ++ x :: l2) with (z :: (l1 ++ x :: l2)) in IH. change ((z :: l1) ++ [x]) with (z :: (l1 ++ [x])) in IH.
  destruct y, z; cbn [joined]; cbn [joined] in IH; tauto.
Qed.

(** *** Links *)

Lemma chain_app m l1 l2 e : chain m (l1 ++ l2) e ↔ chain m l1 (first l2 e) ∧ chain m l2 e.
Proof.
  induction l1 as [|[a n] l1 IH]; simpl; [tauto|]. rewrite IH.
  assert (first (l1 ++ l2) e = first l1 (first l2 e)) as -> by (by destruct l1 as [|[]]). tauto.
Qed.

Lemma links_frame m m' l e : (∀ a n x, (a, n) ∈ l → a ≤ x < a + HSIZE → m' x = m x) → chain m l e → chain m' l e.
Proof.
  induction l as [|[a n] l IH]; simpl; [done|]. intros Hx (H1 & H2 & H3). split_and!.
  - rewrite <-H1. apply load32_ext. intros x ?. apply (Hx a n); [constructor|unfold HSIZE; lia].
  - rewrite <-H2. apply load32_ext. intros x ?. apply (Hx a n); [constructor|unfold HSIZE; lia].
  - apply IH; [|done]. intros b k x Hb. apply (Hx b k). by constructor.
Qed.

Lemma load32_ne m a w b : b + 4 ≤ a ∨ a + 4 ≤ b → load32 (store32 m a w) b = load32 m b.
Proof. intros. apply load32_ext. intros x ?. apply store32_ne. lia. Qed.

Lemma load32_eq m a w : 0 ≤ w < 2 ^ 32 → load32 (store32 m a w) a = w.
Proof. intros. rewrite load_store32. by apply u32_small. Qed.

(** *** Freeing *)

Lemma first_elem l e : l ≠ [] → ∃ n, (first l e, n) ∈ l.
Proof. destruct l as [|[a n] l]; [done|]. exists n. constructor. Qed.

(** The next free block does not start at [h] unless it is the next segment. *)
Lemma first_gap h l e : Forall (λ x, 1 ≤ ulen x) l → (∀ k l', l ≠ Free k :: l') →
  first (frees h l) e = e ∨ h < first (frees h l) e.
Proof.
  intros Hl Hf. destruct l as [|[k|k] l]; [by left|by edestruct Hf|]. simpl. apply list.Forall_cons in Hl as [Hk Hl]. simpl in Hk.
  destruct (decide (frees (h + HSIZE * k) l = [])) as [->|Hne]; [by left|]. right.
  destruct (first_elem _ e Hne) as [n Hn]. apply frees_in in Hn; [|done]. unfold HSIZE in *. lia.
Qed.

Lemma first_range q l : 0 ≤ q → Forall (λ x, 1 ≤ ulen x) l → base < UTOP → q + HSIZE * units l ≤ UTOP →
  0 ≤ first (frees q l) base < 2 ^ 32.
Proof.
  intros Hq Hl Hb Htop. destruct (decide (frees q l = [])) as [->|Hne]; [simpl; unfold UTOP in *; lia|].
  destruct (first_elem _ base Hne) as [j Hj]. apply frees_in in Hj; [|done]. unfold UTOP, HSIZE in *. lia.
Qed.

(** What joining with the segments behind makes of [n] units. *)
Definition absorb (n : Z) (l : list seg) : Z * list seg :=
  match l with Free k :: l => (n + k, l) | _ => (n, l) end.

Lemma join_next_ok m bp p n l : base < bp → p + HSIZE ≤ bp → 1 ≤ n → Forall (λ x, 1 ≤ ulen x) l → bp + HSIZE * (n + units l) ≤ UTOP →
  hsize m bp = n → hptr m p = first (frees (bp + HSIZE * n) l) base → chain m (frees (bp + HSIZE * n) l) base →
  let m' := join_next m bp p in let '(n', l') := absorb n l in
  hsize m' bp = n' ∧ hptr m' bp = first (frees (bp + HSIZE * n') l') base ∧ chain m' (frees (bp + HSIZE * n') l') base ∧
  (∀ x, ¬ bp ≤ x < bp + HSIZE → m' x = m x).
Proof.
  intros Hbp Hpp Hn Hl Htop Hsz Hp Hc. pose proof (units_nonneg l Hl) as Hu. unfold join_next, adv. rewrite Hp, Hsz.
  rewrite u32_small by (unfold HSIZE, UTOP in *; lia).
  assert (∀ m' q l', (∀ x, ¬ bp ≤ x < bp + HSIZE → m' x = m x) → bp + HSIZE ≤ q → Forall (λ x, 1 ≤ ulen x) l' →
    chain m (frees q l') base → chain m' (frees q l') base) as Hframe.
  { intros m' q l' Hm Hq Hl'. apply links_frame. intros a k x Ha ?. apply frees_in in Ha; [|done]. apply Hm. lia. }
  destruct l as [|[k|k] l2]; cbn [absorb].
  - simpl. rewrite bool_decide_false by (unfold HSIZE in *; lia). split_and!.
    + unfold hsize, set_hptr. rewrite load32_ne by lia. done.
    + apply load32_eq. unfold UTOP, HSIZE in *. lia.
    + done.
    + intros x Hx. apply store32_ne. unfold HSIZE in Hx. lia.
  - apply list.Forall_cons in Hl as [Hk Hl]. cbn [frees ulen units first chain] in *. rewrite bool_decide_true by done.
    destruct Hc as (Hc1 & Hc2 & Hc3). rewrite Hc2.
    replace (bp + HSIZE * (n + k)) with (bp + HSIZE * n + HSIZE * k) by lia.
    pose proof (units_nonneg l2 Hl). unfold set_hptr, set_hsize, hptr, hsize in *.
    rewrite (load32_ne m (bp + 4) _ p), Hp by (unfold HSIZE in *; lia).
    rewrite (load32_ne m (bp + 4)) by (unfold HSIZE in *; lia). rewrite Hc1.
    assert (∀ w w' x, ¬ bp ≤ x < bp + HSIZE → store32 (store32 m (bp + 4) w) bp w' x = m x) as Hst.
    { intros w w' x Hx. rewrite !store32_ne by (unfold HSIZE in Hx; lia). done. }
    pose proof (first_range (bp + HSIZE * n + HSIZE * k) l2 ltac:(unfold HSIZE; lia) Hl ltac:(unfold HSIZE in *; lia) ltac:(unfold HSIZE in *; lia)) as Hfirst.
    split_and!.
    + rewrite load32_ne by lia. rewrite load32_eq; [|apply u32_range]. apply u32_small. unfold UTOP, HSIZE in *. lia.
    + by apply load32_eq.
    + apply Hframe; [apply Hst|unfold HSIZE in *; lia|done..].
    + apply Hst.
  - pose proof (first_gap (bp + HSIZE * n) (Used k :: l2) base Hl ltac:(done)) as Hgap.
    rewrite bool_decide_false by (destruct Hgap as [->|?]; unfold HSIZE in *; lia).
    pose proof (first_range (bp + HSIZE * n) (Used k :: l2) ltac:(unfold HSIZE; lia) Hl ltac:(unfold HSIZE in *; lia) ltac:(unfold HSIZE in *; lia)) as Hfirst.
    assert (∀ w x, ¬ bp ≤ x < bp + HSIZE → set_hptr m bp w x = m x) as Hst.
    { intros w x Hx. apply store32_ne. unfold HSIZE in Hx. lia. }
    split_and!.
    + unfold hsize, set_hptr. rewrite load32_ne by lia. done.
    + by apply load32_eq.
    + apply Hframe; [apply Hst|unfold HSIZE in *; lia|done..].
    + apply Hst.
Qed.

(** The nodes are in order. *)
Lemma frees_asc h l pre p np post : Forall (λ x, 1 ≤ ulen x) l → frees h l = pre ++ (p, np) :: post →
  (∀ a n, (a, n) ∈ pre → a + HSIZE * n ≤ p) ∧ (∀ a n, (a, n) ∈ post → p + HSIZE * np ≤ a).
Proof.
  intros Hl. revert h pre. induction Hl as [|x l Hx Hl IH]; intros h pre; simpl; [by destruct pre|].
  destruct x as [k|k]; [|apply IH]. destruct pre as [|y pre]; intros Heq; simplify_list_eq.
  - split; [by intros ? ? ?%elem_of_nil|]. intros a n Ha. apply frees_in in Ha; [lia|done].
  - match goal with H : frees _ _ = _ |- _ => rename H into Hf end. destruct (IH _ _ Hf) as [H1 H2]. split; [|done].
    intros a n [[= -> ->]|Ha]%elem_of_cons; [|by eapply H1].
    assert ((p, np) ∈ frees (h + HSIZE * k) l) as Hin by (rewrite Hf; set_solver).
    apply frees_in in Hin; [lia|done].
Qed.

Lemma nodes_asc l pre p np post : Forall (λ x, 1 ≤ ulen x) l → nodes l = pre ++ (p, np) :: post →
  (∀ a n, (a, n) ∈ pre → a + HSIZE ≤ p) ∧ (∀ a n, (a, n) ∈ post → p + HSIZE ≤ a ∧ p + HSIZE * np ≤ a).
Proof.
  intros Hl. unfold nodes. destruct pre as [|y pre]; intros Heq; simplify_list_eq.
  - split; [by intros ? ? ?%elem_of_nil|]. intros a n Ha. apply frees_in in Ha; [unfold HSIZE in *; lia|done].
  - match goal with H : frees _ _ = _ |- _ => rename H into Hf end. pose proof (frees_asc _ _ _ _ _ _ Hl Hf) as [H1 H2].
    assert ((p, np) ∈ frees h0 l) as Hin by (rewrite Hf; set_solver). apply frees_in in Hin; [|done]. split.
    + intros a n [[= -> ->]|Ha]%elem_of_cons; [lia|].
      assert ((a, n) ∈ frees h0 l) as Hin' by (rewrite Hf; set_solver). apply frees_in in Hin'; [|done].
      apply H1 in Ha. unfold HSIZE in *. lia.
    + intros a n Ha%H2. unfold HSIZE in *. lia.
Qed.

Lemma nodes_app l1 l2 : nodes (l1 ++ l2) = nodes l1 ++ frees (h0 + HSIZE * units l1) l2.
Proof. unfold nodes. by rewrite frees_app. Qed.

(** The segments in front of a block that is freed, with it. *)
Definition put_back (l : list seg) (n : Z) : list seg :=
  match list.last l with
  | Some (Free k) => removelast l ++ [Free (k + n)]
  | _ => l ++ [Free n]
  end.

(** Behind the last node there is a gap unless the last segment is free. *)
Lemma last_gap l p np pre : Forall (λ x, 1 ≤ ulen x) l → nodes l = pre ++ [(p, np)] → (∀ l' k, l ≠ l' ++ [Free k]) →
  p + HSIZE * np < h0 + HSIZE * units l ∧ put_back l = λ n, l ++ [Free n].
Proof.
  intros Hl Hn Hf. unfold put_back. destruct (list.last l) as [[k|k]|] eqn:Hlast.
  - apply last_Some in Hlast as [l' ->]. by edestruct Hf.
  - apply last_Some in Hlast as [l' ->]. split; [|done]. rewrite nodes_app in Hn. cbn [frees] in Hn. rewrite app_nil_r in Hn.
    apply Forall_app in Hl as [Hl Hk%list.Forall_cons]. destruct Hk as [Hk _]. simpl in Hk.
    rewrite units_app. simpl. pose proof (units_nonneg l' Hl).
    assert ((p, np) ∈ nodes l') as Hin by (rewrite Hn; set_solver). unfold nodes in Hin.
    apply elem_of_cons in Hin as [[= -> ->]|Hin]; [unfold HSIZE in *; lia|]. apply frees_in in Hin; [unfold HSIZE in *; lia|done].
  - apply last_None in Hlast as ->. split; [|done]. unfold nodes in Hn. destruct pre as [|? [|]]; simplify_list_eq. unfold HSIZE in *; lia.
Qed.

Lemma join_apart m bp p np n pre l1 l2 : nodes l1 = pre ++ [(p, np)] → bp = h0 + HSIZE * units l1 → 1 ≤ n →
  p + HSIZE * np < h0 + HSIZE * units l1 → 0 ≤ p → 0 ≤ np → bp < UTOP → hsize m p = np →
  (∀ w, (∀ x, ¬ p ≤ x < p + HSIZE → w x = m x) → chain w pre p ∧ chain w (frees (bp + HSIZE * n) l2) base ∧ hsize w bp = n ∧
    hptr w bp = first (frees (bp + HSIZE * n) l2) base) →
  let m' := join_prev m bp p in
  chain m' (nodes ((l1 ++ [Free n]) ++ l2)) base ∧ p ∈ (nodes ((l1 ++ [Free n]) ++ l2)).*1 ∧ (∀ x, ¬ p ≤ x < p + HSIZE → m' x = m x).
Proof.
  intros Hnodes Hbp Hn Hgap Hp Hnp Htop Hsp Hframe. unfold join_prev, adv. rewrite Hsp, bool_decide_false.
  2: { rewrite u32_small; unfold UTOP, HSIZE in *; lia. }
  assert (∀ x, ¬ p ≤ x < p + HSIZE → set_hptr m p bp x = m x) as Hst.
  { intros x Hx. apply store32_ne. unfold HSIZE in Hx. lia. }
  destruct (Hframe (set_hptr m p bp) Hst) as (H1 & H2 & H3 & H4).
  rewrite <-app_assoc, nodes_app, Hnodes, <-Hbp. cbn [app frees]. rewrite <-app_assoc. cbn [app].
  split_and!; [|rewrite fmap_app; set_solver|done].
  apply chain_app. split; [done|]. cbn [chain first]. split_and!; try done.
  - apply load32_eq. unfold UTOP, HSIZE in *. lia.
  - unfold hsize, set_hptr. rewrite load32_ne by lia. done.
Qed.

Lemma join_prev_ok m bp p np n pre l1 l2 : Forall (λ x, 1 ≤ ulen x) l1 → 1 ≤ n → Forall (λ x, 1 ≤ ulen x) l2 →
  bp = h0 + HSIZE * units l1 → bp + HSIZE * (n + units l2) ≤ UTOP → nodes l1 = pre ++ [(p, np)] →
  chain m pre p → hsize m p = np → hsize m bp = n → hptr m bp = first (frees (bp + HSIZE * n) l2) base →
  chain m (frees (bp + HSIZE * n) l2) base →
  let m' := join_prev m bp p in
  chain m' (nodes (put_back l1 n ++ l2)) base ∧ p ∈ (nodes (put_back l1 n ++ l2)).*1 ∧
  (∀ x, ¬ p ≤ x < p + HSIZE → m' x = m x).
Proof.
  intros Hl1 Hn Hl2 Hbp Htop Hnodes Hpre Hsp Hsz Hptr Hrest m'.
  pose proof (units_nonneg l1 Hl1). pose proof (units_nonneg l2 Hl2).
  destruct (nodes_asc l1 pre p np [] Hl1 Hnodes) as [Hasc _].
  assert (base ≤ p ∧ p + HSIZE ≤ bp ∧ 0 ≤ np) as (Hp0 & Hpb & Hnp).
  { assert ((p, np) ∈ nodes l1) as Hin by (rewrite Hnodes; set_solver). unfold nodes in Hin.
    apply elem_of_cons in Hin as [[= -> ->]|Hin]; [unfold HSIZE in *; lia|]. apply frees_in in Hin; [unfold HSIZE in *; lia|done]. }
  pose proof (first_range (bp + HSIZE * n) l2 ltac:(unfold HSIZE in *; lia) Hl2 ltac:(unfold HSIZE in *; lia) ltac:(unfold HSIZE in *; lia)) as Hfirst.
  assert (∀ w, (∀ x, ¬ p ≤ x < p + HSIZE → w x = m x) → chain w pre p ∧ chain w (frees (bp + HSIZE * n) l2) base ∧ hsize w bp = n ∧
    hptr w bp = first (frees (bp + HSIZE * n) l2) base) as Hframe.
  { intros w Hw. split_and!.
    - eapply links_frame; [|done]. intros a k x Ha ?. apply Hasc in Ha. apply Hw. lia.
    - eapply links_frame; [|done]. intros a k x Ha ?. apply frees_in in Ha; [|done]. apply Hw. unfold HSIZE in *. lia.
    - rewrite <-Hsz. apply load32_ext. intros x ?. apply Hw. unfold HSIZE in *. lia.
    - rewrite <-Hptr. apply load32_ext. intros x ?. apply Hw. unfold HSIZE in *. lia. }
  assert (∀ q v w x, ¬ p ≤ x < p + HSIZE → store32 (store32 m (p + 4) w) p v x = m x ∧ store32 m p q x = m x) as Hst.
  { intros q v w x Hx. rewrite !store32_ne by (unfold HSIZE in Hx; lia). done. }
  destruct (list.last l1) as [x|] eqn:Hlast; [apply last_Some in Hlast as [l ->]; destruct x as [k|k]|].
  - assert (put_back (l ++ [Free k]) n = l ++ [Free (k + n)]) as ->.
    { unfold put_back. rewrite last_snoc. by rewrite removelast_app, app_nil_r. }
    rewrite nodes_app in Hnodes. cbn [frees] in Hnodes. apply app_inj_tail in Hnodes as [<- [= <- <-]].
    rewrite units_app in Hbp. cbn [units ulen] in Hbp. set (p := h0 + HSIZE * units l) in *.
    subst m'. unfold join_prev, adv. rewrite Hsp, bool_decide_true, Hsz; [|rewrite u32_small; unfold UTOP, HSIZE in *; lia].
    assert (hptr (set_hsize m p (u32 (k + n))) bp = first (frees (bp + HSIZE * n) l2) base) as ->.
    { unfold hptr, set_hsize. rewrite load32_ne by (unfold HSIZE in *; lia). done. }
    set (w := set_hptr _ p _). destruct (Hframe w) as (H1 & H2 & H3 & H4); [intros x Hx; by apply (Hst 0)|].
    rewrite <-app_assoc, nodes_app. fold p. cbn [app frees].
    replace (p + HSIZE * (k + n)) with (bp + HSIZE * n) by lia.
    split_and!; [|rewrite fmap_app; set_solver|intros x Hx; by apply (Hst 0)].
    apply chain_app. split; [done|]. cbn [chain first]. split_and!; [by apply load32_eq| |done].
    unfold w, hsize, set_hptr, set_hsize. rewrite load32_ne by lia. rewrite load32_eq by apply u32_range.
    apply u32_small. unfold UTOP, HSIZE in *. lia.
  - destruct (last_gap _ p np pre Hl1 Hnodes) as [Hgap ->]; [by intros l' k' [_ [=]]%app_inj_tail|].
    apply (join_apart m bp p np n pre); try done; unfold HSIZE, UTOP in *; lia.
  - apply last_None in Hlast as ->. destruct (last_gap _ p np pre Hl1 Hnodes) as [Hgap ->]; [by intros [] k'|].
    apply (join_apart m bp p np n pre); try done; unfold HSIZE, UTOP in *; lia.
Qed.

(** *** Walking around the list *)

Definition len (l : list seg) : nat := length (nodes l).

(** The address of a node, counted around the list. *)
Definition at_ (l : list seg) (i : nat) : Z := default base (fst <$> nodes l !! (i mod len l)%nat).

Lemma len_pos l : (0 < len l)%nat.
Proof. unfold len, nodes. simpl. lia. Qed.

Lemma at_mod l i : at_ l (i mod len l) = at_ l i.
Proof. unfold at_. rewrite Nat.Div0.mod_mod. done. Qed.

Lemma at_lookup l i : ∃ n, nodes l !! (i mod len l)%nat = Some (at_ l i, n).
Proof.
  unfold at_. pose proof (len_pos l). destruct (lookup_lt_is_Some_2 (nodes l) (i mod len l)) as [[a n] Hi].
  - change (i mod len l < len l)%nat. apply Nat.mod_upper_bound. lia.
  - rewrite Hi. by exists n.
Qed.

Lemma chain_lookup m l e i a n : chain m l e → l !! i = Some (a, n) →
  hsize m a = n ∧ hptr m a = default e (fst <$> l !! S i).
Proof.
  revert i. induction l as [|[b k] l IH]; intros i; [done|]. intros (H1 & H2 & H3). destruct i as [|i]; simpl.
  - intros [= -> ->]. split; [done|]. rewrite H1. by destruct l as [|[]].
  - intros Hi. destruct (IH i H3 Hi) as [? ->]. done.
Qed.

Lemma succ_mod i n : (0 < n)%nat → (S i mod n = if decide (S (i mod n) = n) then 0 else S (i mod n))%nat.
Proof.
  intros Hn. pose proof (Nat.mod_upper_bound i n ltac:(lia)) as Hb. pose proof (Nat.div_mod_eq i n) as Hi.
  case_decide as Hd; symmetry.
  - apply (Nat.mod_unique _ _ (S (i / n))); lia.
  - apply (Nat.mod_unique _ _ (i / n)); lia.
Qed.

Lemma at_next m l i : chain m (nodes l) base → hptr m (at_ l i) = at_ l (S i).
Proof.
  intros Hc. pose proof (len_pos l). destruct (at_lookup l i) as [n Hi]. destruct (chain_lookup _ _ _ _ _ _ Hc Hi) as [_ ->].
  unfold at_. rewrite (succ_mod i) by done. case_decide as Hd; [|done].
  rewrite Hd, (lookup_ge_None_2 (nodes l)) by (unfold len; lia). done.
Qed.

Lemma at_size m l i n : chain m (nodes l) base → nodes l !! (i mod len l)%nat = Some (at_ l i, n) → hsize m (at_ l i) = n.
Proof. intros Hc Hi. by destruct (chain_lookup _ _ _ _ _ _ Hc Hi). Qed.

(** From a node to the next there is a step up, or back to [base]. *)
Lemma at_step l i : Forall (λ x, 1 ≤ ulen x) l → at_ l (S i) = base ∨ at_ l i < at_ l (S i).
Proof.
  intros Hl. pose proof (len_pos l). destruct (at_lookup l i) as [n Hi]. destruct (at_lookup l (S i)) as [k Hk].
  rewrite (succ_mod i) in Hk by done. case_decide as Hd; [left; by simplify_eq/=|]. right.
  apply list_elem_of_split_length in Hi as (pre & post & Hn & Hlen).
  destruct (nodes_asc l pre (at_ l i) n post Hl Hn) as [_ H2].
  rewrite Hn, lookup_app_r, Hlen in Hk by lia. replace (S (length pre) - length pre)%nat with 1%nat in Hk by lia.
  apply (list_elem_of_lookup_2 post 0), H2 in Hk. unfold HSIZE in *. lia.
Qed.

(** *** The search of [free] *)

Section search.
Context (l1 l2 : list seg) (n : Z) (m : mem).
Let l := l1 ++ Used n :: l2.
Let bp := h0 + HSIZE * units l1.
Let k := (len l1 - 1)%nat.
Context (Hl : Forall (λ x, 1 ≤ ulen x) l) (Hc : chain m (nodes l) base).

Lemma split_nodes : nodes l = nodes l1 ++ frees (bp + HSIZE * n) l2.
Proof. unfold l. rewrite nodes_app. done. Qed.

Lemma below a j : (a, j) ∈ nodes l1 → a + HSIZE ≤ bp.
Proof.
  apply Forall_app in Hl as [H1 _]. pose proof (units_nonneg l1 H1). unfold nodes, bp.
  intros [[= -> ->]|Ha]%elem_of_cons; [unfold HSIZE in *; lia|]. apply frees_in in Ha; [unfold HSIZE in *; lia|done].
Qed.

Lemma above a j : (a, j) ∈ frees (bp + HSIZE * n) l2 → bp + HSIZE ≤ a.
Proof.
  apply Forall_app in Hl as [H1 [Hn H2]%list.Forall_cons]. simpl in Hn.
  intros Ha. apply frees_in in Ha; [unfold HSIZE in *; lia|done].
Qed.

(** The search stops at node [k] and at no other. *)
Lemma stops i : let p := at_ l i in let q := at_ l (S i) in
  (bool_decide (p < bp) && bool_decide (bp < q)) || (bool_decide (q ≤ p) && (bool_decide (p < bp) || bool_decide (bp < q)))
  = bool_decide (i mod len l = k)%nat.
Proof.
  intros p q. pose proof (len_pos l1) as Hlen1. assert (len l1 ≤ len l)%nat as Hle.
  { unfold len. rewrite split_nodes, length_app. lia. }
  destruct (at_lookup l i) as [np Hp]. destruct (at_lookup l (S i)) as [nq Hq].
  pose proof (at_step l i Hl) as Hstep. fold p q in Hp, Hq, Hstep.
  rewrite succ_mod in Hq by lia. rewrite split_nodes in Hp, Hq.
  assert (base < bp) as Hb by (pose proof (below base 0 ltac:(constructor)); unfold HSIZE in *; lia).
  destruct (decide (i mod len l < len l1)%nat) as [Hlow|Hhigh].
  - rewrite lookup_app_l in Hp by done. apply list_elem_of_lookup_2, below in Hp.
    destruct (decide (i mod len l = k)%nat) as [Hk|Hk].
    + rewrite (bool_decide_true (_ = k)) by done. rewrite (bool_decide_true (p < bp)) by (unfold HSIZE in *; lia). simpl.
      assert (q = base ∨ bp < q) as [->|Hbq].
      { case_decide; [left; by simplify_eq/=|]. right. rewrite lookup_app_r in Hq by (unfold k, len in *; lia).
        apply list_elem_of_lookup_2, above in Hq. unfold HSIZE in *. lia. }
      * rewrite (bool_decide_true (base ≤ p)); [by destruct (bool_decide _)|].
        destruct (at_lookup l i) as [j Hj%list_elem_of_lookup_2]. fold p in Hj. unfold nodes in Hj.
        apply elem_of_cons in Hj as [[= -> _]|Hj]; [lia|]. apply frees_in in Hj; [unfold HSIZE in *; lia|done].
      * by rewrite (bool_decide_true (bp < q)).
    + rewrite (bool_decide_false (_ = k)) by done. rewrite decide_False in Hq by (unfold k in *; lia).
      rewrite lookup_app_l in Hq by (unfold k, len in *; lia).
      pose proof (list_elem_of_lookup_2 _ _ _ Hq) as Hq'%below.
      rewrite (bool_decide_false (bp < q)) by (unfold HSIZE in *; lia). rewrite andb_false_r, orb_false_r. simpl.
      destruct Hstep as [Hqb|?]; [|by rewrite bool_decide_false by lia]. exfalso.
      assert (q ≠ base); [|done]. clear Hqb. unfold nodes in Hq. simpl in Hq. apply list_elem_of_lookup_2, frees_in in Hq; [unfold HSIZE in *; lia|].
      by apply Forall_app in Hl as [? _].
  - rewrite lookup_app_r in Hp by (unfold len in *; lia). apply list_elem_of_lookup_2, above in Hp.
    rewrite (bool_decide_false (_ = k)) by (unfold k; lia). rewrite (bool_decide_false (p < bp)) by (unfold HSIZE in *; lia). simpl.
    destruct Hstep as [->|?]; [by rewrite (bool_decide_false (bp < base)), andb_false_r by lia|].
    by rewrite (bool_decide_false (q ≤ p)) by lia.
Qed.

Lemma free_find_at d i fuel : ((i + d) mod len l = k)%nat → (d < fuel)%nat → free_find fuel m bp (at_ l i) = Some (at_ l k).
Proof.
  revert i fuel. induction d as [|d IH]; intros i fuel Hd Hf; (destruct fuel as [|fuel]; [lia|]); cbn [free_find];
    rewrite (at_next m l i Hc); pose proof (stops i) as Hs; cbv zeta in Hs; (destruct (decide (i mod len l = k)%nat) as [Hk|Hk];
    [rewrite (bool_decide_true (_ = k)) in Hs by done; rewrite <-Hk, at_mod|rewrite (bool_decide_false (_ = k)) in Hs by done]).
  - destruct (bool_decide (at_ l i < bp) && bool_decide (bp < at_ l (S i))); [done|]. simpl in Hs. by rewrite Hs.
  - by rewrite Nat.add_0_r in Hd.
  - destruct (bool_decide (at_ l i < bp) && bool_decide (bp < at_ l (S i))); [done|]. simpl in Hs. by rewrite Hs.
  - apply orb_false_iff in Hs as [-> ->]. apply IH; [|lia]. by replace (S i + d)%nat with (i + S d)%nat by lia.
Qed.

Lemma free_find_ok p fuel : p ∈ (nodes l).*1 → (len l ≤ fuel)%nat → free_find fuel m bp p = Some (at_ l k).
Proof.
  intros Hp Hf. apply list_elem_of_fmap in Hp as ([a j] & -> & Hi%list_elem_of_lookup_1). destruct Hi as [i Hi].
  pose proof (lookup_lt_Some _ _ _ Hi) as Hlt. fold (len l) in Hlt.
  assert (at_ l i = a) as <- by (unfold at_; rewrite Nat.mod_small, Hi by done; done).
  assert (k < len l)%nat. { pose proof (len_pos l1). unfold k, len. rewrite split_nodes, length_app. unfold len in *. lia. }
  apply (free_find_at ((k + len l - i) mod len l) i); [|pose proof (Nat.mod_upper_bound (k + len l - i) (len l)); lia].
  rewrite Nat.Div0.add_mod_idemp_r. replace (i + (k + len l - i))%nat with (k + 1 * len l)%nat by lia.
  rewrite Nat.Div0.mod_add. by apply Nat.mod_small.
Qed.
End search.

(** *** [free] *)

Lemma joined_snoc l x : joined (l ++ [x]) ↔ joined l ∧ (∀ l' j k, l = l' ++ [Free j] → x ≠ Free k).
Proof.
  destruct (list.last l) as [y|] eqn:Hy.
  - apply last_Some in Hy as [l' ->]. rewrite <-app_assoc. simpl. rewrite (segs_joined_app l' y [x]).
    split; intros [H1 H2]; (split; [done|]).
    + intros l'' j k [_ ->]%app_inj_tail ->. by simpl in H2.
    + destruct y as [j|j], x as [k|k]; simpl; try done. by eapply (H2 l' j k).
  - apply last_None in Hy as ->. destruct x; simpl; (split; [|done]); (split; [done|]); by intros [] ? ?.
Qed.

Lemma joined_cons x l : joined (x :: l) ↔ joined l ∧ (∀ l' j k, l = Free j :: l' → x ≠ Free k).
Proof. destruct x, l as [|[]]; simpl; naive_solver. Qed.

(** Freeing a segment in the sequence. *)
Definition a_free (l1 : list seg) (n : Z) (l2 : list seg) : list seg :=
  let '(n', l2') := absorb n l2 in put_back l1 n' ++ l2'.

Lemma a_free_facts h l1 n l2 : Forall (λ x, 1 ≤ ulen x) (l1 ++ Used n :: l2) → joined (l1 ++ Used n :: l2) →
  Forall (λ x, 1 ≤ ulen x) (a_free l1 n l2) ∧ joined (a_free l1 n l2) ∧ units (a_free l1 n l2) = units (l1 ++ Used n :: l2) ∧
  useds h (a_free l1 n l2) = useds h l1 ++ useds (h + HSIZE * (units l1 + n)) l2.
Proof.
  intros [H1 [Hn H2]%list.Forall_cons]%Forall_app [[J1 _]%joined_snoc [J2 _]%joined_cons]%segs_joined_app. simpl in Hn. unfold a_free.
  assert (∃ n' l2', absorb n l2 = (n', l2') ∧ n ≤ n' ∧ Forall (λ x, 1 ≤ ulen x) l2' ∧ joined (Free n' :: l2') ∧ n' + units l2' = n + units l2 ∧
    ∀ h, useds (h + HSIZE * n) l2 = useds (h + HSIZE * n') l2') as (n' & l2' & -> & Hn' & H2' & J2' & Hu & Hus).
  { destruct l2 as [|[k|k] l2]; simpl in *; eexists _, _; split_and!; try done; try lia.
    - apply list.Forall_cons in H2 as [? ?]. simpl in *. lia.
    - by apply list.Forall_cons in H2 as [? ?].
    - intros h'. f_equal. lia. }
  assert (∃ l1' k, put_back l1 n' = l1' ++ [Free k] ∧ 1 ≤ k ∧ Forall (λ x, 1 ≤ ulen x) l1' ∧ joined (l1' ++ [Free k]) ∧
    units l1' + k = units l1 + n' ∧ useds h l1' = useds h l1) as (l1' & k & -> & Hk & H1' & J1' & Hu1 & Hus1).
  { unfold put_back. destruct (list.last l1) as [[j|j]|] eqn:Hlast.
    - apply last_Some in Hlast as [l ->]. rewrite removelast_app, app_nil_r by done.
      apply Forall_app in H1 as [H1 [Hj _]%list.Forall_cons]. simpl in Hj. apply joined_snoc in J1 as [J1 J1'].
      eexists _, _. split_and!; [done|lia|done| | |].
      + apply joined_snoc. split; [done|]. intros l' i k ->. by edestruct (J1' l' i j).
      + rewrite units_app. simpl. lia.
      + rewrite useds_app. simpl. by rewrite app_nil_r.
    - eexists _, _. split_and!; [done|lia|done| |done..]. apply joined_snoc. split; [done|]. intros l' i k ->. by rewrite last_snoc in Hlast.
    - eexists _, _. split_and!; [done|lia|done| |done..]. apply joined_snoc. split; [done|]. intros l' i k ->. by rewrite last_snoc in Hlast. }
  rewrite <-app_assoc. simpl. split_and!.
  - apply Forall_app. split; [done|]. by constructor.
  - apply segs_joined_app. split; [done|]. apply joined_cons. apply joined_cons in J2' as [J Jn]. split; [done|].
    intros l' j i ->. by edestruct (Jn l' j n').
  - rewrite !units_app. simpl. lia.
  - rewrite useds_app, Hus1. f_equal. simpl. replace (h + HSIZE * (units l1 + n)) with (h + HSIZE * units l1 + HSIZE * n) by lia.
    rewrite Hus. f_equal. lia.
Qed.

Lemma at_last l pre p np : nodes l = pre ++ [(p, np)] → at_ l (len l - 1) = p.
Proof.
  intros Hn. unfold at_, len. rewrite Nat.mod_small by (rewrite Hn, length_app; simpl; lia).
  rewrite Hn, length_app. simpl. replace (length pre + 1 - 1)%nat with (length pre) by lia. by rewrite lookup_app_r, Nat.sub_diag.
Qed.

Lemma at_prefix l1 n l2 i : (i < len l1)%nat → at_ (l1 ++ Used n :: l2) i = at_ l1 i.
Proof.
  intros Hi. unfold at_, len in *. rewrite nodes_app. rewrite !Nat.mod_small by (rewrite ?length_app; lia).
  by rewrite lookup_app_l.
Qed.

(** The blocks in use keep their memory. *)
Definition keeps (l : list (Z * Z)) (m m' : mem) : Prop := ∀ a n x, (a, n) ∈ l → a ≤ x < a + HSIZE * n → m' x = m x.

Lemma keeps_sizes l m m' : Forall (λ x, 1 ≤ x.2) l → keeps l m m' → Forall (λ x, hsize m x.1 = x.2) l → Forall (λ x, hsize m' x.1 = x.2) l.
Proof.
  rewrite !list.Forall_forall. intros Hp Hk Hm [a n] Ha. rewrite <-(Hm _ Ha). apply load32_ext. simpl. intros x Hx.
  apply (Hk a n); [done|]. specialize (Hp _ Ha). simpl in Hp. unfold HSIZE. lia.
Qed.

Lemma useds_pos h l : Forall (λ x, 1 ≤ ulen x) l → Forall (λ x, 1 ≤ x.2) (useds h l).
Proof. intros Hl. apply list.Forall_forall. intros [a n] Ha. apply useds_in in Ha; [simpl; lia|done]. Qed.

(** The headers that [free] writes are in no block that stays in use. *)
Lemma used_apart l1 n l2 a j p np : let bp := h0 + HSIZE * units l1 in Forall (λ x, 1 ≤ ulen x) (l1 ++ Used n :: l2) →
  (p, np) ∈ nodes l1 → (a, j) ∈ useds h0 l1 ++ useds (h0 + HSIZE * (units l1 + n)) l2 →
  (a + HSIZE * j ≤ p ∨ p + HSIZE ≤ a) ∧ (a + HSIZE * j ≤ bp ∨ bp + HSIZE ≤ a).
Proof.
  intros bp Hpos Hin Ha. pose proof Hpos as [H1 [Hn H2]%list.Forall_cons]%Forall_app. simpl in Hn. apply elem_of_app in Ha.
  pose proof (units_nonneg _ H1). split.
  - unfold nodes in Hin. apply elem_of_cons in Hin as [[= -> ->]|Hin].
    + destruct Ha as [Ha|Ha]; apply useds_in in Ha; try done; unfold HSIZE in *; lia.
    + destruct Ha as [Ha|Ha].
      * pose proof (used_free_disjoint h0 l1 a j p np H1 Ha Hin). apply frees_in in Hin; [|done]. unfold HSIZE in *; lia.
      * apply useds_in in Ha; [|done]. apply frees_in in Hin; [|done]. unfold HSIZE in *; lia.
  - destruct Ha as [Ha|Ha]; apply useds_in in Ha; try done; unfold bp, HSIZE in *; lia.
Qed.

Lemma free_ok fuel s l1 n l2 : let l := l1 ++ Used n :: l2 in let bp := h0 + HSIZE * units l1 in ok s l → (len l ≤ fuel)%nat →
  ∃ s', free fuel (bp + HSIZE) s = Done tt s' ∧ ok s' (a_free l1 n l2) ∧ brk s' = brk s ∧
    keeps (useds h0 (a_free l1 n l2)) (umem s) (umem s').
Proof.
  intros l bp Hok Hfuel. pose proof Hok as [Hc Hfp Hus Hpos Hj Hbrk Htop].
  destruct (a_free_facts h0 l1 n l2 Hpos Hj) as (Fpos & Fj & Fu & Fus).
  pose proof (free_find_ok l1 l2 n (umem s) Hpos Hc (freep s) fuel Hfp Hfuel) as Hfind. fold l bp in Hfind.
  pose proof Hpos as [H1 [Hn H2]%list.Forall_cons]%Forall_app. simpl in Hn.
  pose proof (units_nonneg _ H1). pose proof (units_nonneg _ H2).
  assert (bp + HSIZE * (n + units l2) = brk s) as Hend by (rewrite Hbrk; unfold bp, l; rewrite units_app; simpl; lia).
  destruct (list.last (nodes l1)) as [[p np]|] eqn:Hlast; [|by apply last_None in Hlast]. apply last_Some in Hlast as [pre Hnodes].
  unfold l in Hfind, Hc. rewrite at_prefix, (at_last _ _ _ _ Hnodes) in Hfind by (pose proof (len_pos l1); lia).
  rewrite split_nodes, Hnodes, <-app_assoc in Hc. fold bp in Hc. apply chain_app in Hc as [Hpre (Hptr & Hsp & Hrest)]. cbn [first app] in Hpre.
  destruct (nodes_asc l1 pre p np [] H1 Hnodes) as [Hasc _].
  assert ((p, np) ∈ nodes l1) as Hin by (rewrite Hnodes; set_solver).
  pose proof (below l1 l2 n Hpos p np Hin) as Hpb. pose proof (below l1 l2 n Hpos base 0 ltac:(constructor)) as Hbb. fold bp in Hpb, Hbb.
  assert (hsize (umem s) bp = n) as Hsz.
  { rewrite list.Forall_forall in Hus. apply (Hus (bp, n)). unfold l. rewrite useds_app. set_solver. }
  pose proof (join_next_ok (umem s) bp p n l2 ltac:(unfold HSIZE in *; lia) Hpb Hn H2 ltac:(lia) Hsz Hptr Hrest) as Hnext.
  unfold a_free in *. destruct (absorb n l2) as [n' l2'] eqn:Habs. cbv zeta in Hnext. destruct Hnext as (N1 & N2 & N3 & N4).
  set (m1 := join_next (umem s) bp p) in *.
  assert (1 ≤ n' ∧ Forall (λ x, 1 ≤ ulen x) l2' ∧ n' + units l2' = n + units l2) as (Hn' & H2' & Hu').
  { destruct l2 as [|[j|j] l2]; simplify_eq/=; [|apply list.Forall_cons in H2 as [? ?]; simpl in *|]; split_and!; done || lia. }
  assert (chain m1 pre p) as Hpre1.
  { eapply links_frame; [|done]. intros a j x Ha%Hasc ?. apply N4. unfold HSIZE in *. lia. }
  assert (hsize m1 p = np) as Hsp1.
  { rewrite <-Hsp. apply load32_ext. intros x ?. apply N4. unfold HSIZE in *. lia. }
  destruct (join_prev_ok m1 bp p np n' pre l1 l2' H1 Hn' H2' eq_refl ltac:(unfold HSIZE in *; lia) Hnodes Hpre1 Hsp1 N1 N2 N3) as (P1 & P2 & P3).
  assert (keeps (useds h0 (put_back l1 n' ++ l2')) (umem s) (join_prev m1 bp p)) as Hkeeps.
  { intros a j x Ha Hx. rewrite Fus in Ha. destruct (used_apart l1 n l2 a j p np Hpos Hin Ha) as [Hd1 Hd2]. fold bp in Hd2.
    rewrite P3 by (unfold HSIZE in *; lia). apply N4. unfold HSIZE in *; lia. }
  exists (set_freep p (set_mem (join_prev m1 bp p) s)). split_and!; try done.
  { unfold free, kbind, kget, kunwrap, kmodify. replace (bp + HSIZE - HSIZE) with bp by lia.
    rewrite u32_small by (unfold UTOP, HSIZE in *; lia). by rewrite Hfind. }
  split; simpl; try done; [|by rewrite Hbrk; rewrite Fu].
  eapply keeps_sizes; [by apply useds_pos|done|]. rewrite Fus. unfold l in Hus. rewrite useds_app in Hus.
  apply Forall_app in Hus as [Hus1 Hus2]. cbn [useds] in Hus2. apply list.Forall_cons in Hus2 as [_ Hus2].
  apply Forall_app. split; [done|]. by replace (h0 + HSIZE * (units l1 + n)) with (h0 + HSIZE * units l1 + HSIZE * n) by lia.
Qed.

(** *** Taking from a free block *)

(** [nunits] units from the end of a free segment of [k]. *)
Definition a_carve (l1 : list seg) (k nunits : Z) (l2 : list seg) : list seg :=
  if bool_decide (k = nunits) then l1 ++ Used k :: l2 else l1 ++ Free (k - nunits) :: Used nunits :: l2.

(** The block that is taken. *)
Definition carved (l1 : list seg) (k nunits : Z) : Z := h0 + HSIZE * (units l1 + (k - nunits)).

Lemma a_carve_facts l1 k nunits l2 : 1 ≤ nunits ≤ k → Forall (λ x, 1 ≤ ulen x) (l1 ++ Free k :: l2) → joined (l1 ++ Free k :: l2) →
  Forall (λ x, 1 ≤ ulen x) (a_carve l1 k nunits l2) ∧ joined (a_carve l1 k nunits l2) ∧
  units (a_carve l1 k nunits l2) = units (l1 ++ Free k :: l2) ∧
  useds h0 (a_carve l1 k nunits l2) =
    useds h0 l1 ++ (carved l1 k nunits, nunits) :: useds (h0 + HSIZE * (units l1 + k)) l2.
Proof.
  intros Hk [H1 [_ H2]%list.Forall_cons]%Forall_app [[J1 J1']%joined_snoc [J2 J2']%joined_cons]%segs_joined_app.
  unfold a_carve, carved. case_bool_decide as Heq.
  - subst nunits. split_and!.
    + apply Forall_app. split; [done|]. constructor; [simpl; lia|done].
    + apply segs_joined_app. split; [by apply joined_snoc|by apply joined_cons].
    + rewrite !units_app. done.
    + rewrite useds_app. cbn [useds]. replace (k - k) with 0 by lia. rewrite Z.add_0_r.
      by replace (h0 + HSIZE * (units l1 + k)) with (h0 + HSIZE * units l1 + HSIZE * k) by lia.
  - split_and!.
    + apply Forall_app. split; [done|]. repeat constructor; simpl; done || lia.
    + apply segs_joined_app. split; [apply joined_snoc; split; [done|]; intros l' i j ->; by edestruct (J1' l' i k)|].
      apply joined_cons. split; [by apply joined_cons|done].
    + rewrite !units_app. simpl. lia.
    + rewrite useds_app. cbn [useds].
      replace (h0 + HSIZE * units l1 + HSIZE * (k - nunits)) with (h0 + HSIZE * (units l1 + (k - nunits))) by lia.
      by replace (h0 + HSIZE * (units l1 + (k - nunits)) + HSIZE * nunits) with (h0 + HSIZE * (units l1 + k)) by lia.
Qed.

(** The memory a carve writes: the header of the node in front, or the headers
    in the block itself. *)
Lemma carve_keeps l1 k l2 q nq m m' : Forall (λ x, 1 ≤ ulen x) (l1 ++ Free k :: l2) → (q, nq) ∈ nodes l1 →
  (∀ x, ¬ q ≤ x < q + HSIZE → ¬ h0 + HSIZE * units l1 ≤ x < h0 + HSIZE * (units l1 + k) → m' x = m x) →
  keeps (useds h0 l1 ++ useds (h0 + HSIZE * (units l1 + k)) l2) m m'.
Proof.
  intros Hpos Hin Hm a j x Ha Hx.
  assert (Forall (λ x, 1 ≤ ulen x) (l1 ++ Used k :: l2)) as Hpos'.
  { apply Forall_app in Hpos as [? [? ?]%list.Forall_cons]. apply Forall_app. split; [done|by constructor]. }
  destruct (used_apart l1 k l2 a j q nq Hpos' Hin Ha) as [Hd1 _]. apply Forall_app in Hpos' as [H1 [Hk H2]%list.Forall_cons].
  simpl in Hk. apply Hm; [unfold HSIZE in *; lia|]. apply elem_of_app in Ha as [Ha|Ha]; apply useds_in in Ha; try done; lia.
Qed.

Lemma carve_ok s l1 k l2 q nq pre nunits : let l := l1 ++ Free k :: l2 in let a := h0 + HSIZE * units l1 in
  ok s l → 1 ≤ nunits ≤ k → nodes l1 = pre ++ [(q, nq)] →
  ∃ s', carve nunits q a s = Done (carved l1 k nunits + HSIZE) s' ∧ ok s' (a_carve l1 k nunits l2) ∧ brk s' = brk s ∧
    keeps (useds h0 l) (umem s) (umem s').
Proof.
  intros l a [Hc Hfp Hus Hpos Hj Hbrk Htop] Hk Hnodes.
  destruct (a_carve_facts l1 k nunits l2 Hk Hpos Hj) as (Fpos & Fj & Fu & Fus).
  pose proof Hpos as [H1 [Hk1 H2]%list.Forall_cons]%Forall_app. simpl in Hk1.
  pose proof (units_nonneg _ H1). pose proof (units_nonneg _ H2).
  assert (a + HSIZE * (k + units l2) = brk s) as Hend by (rewrite Hbrk; unfold a, l; rewrite units_app; simpl; lia).
  unfold l in Hc. rewrite nodes_app, Hnodes, <-app_assoc in Hc. cbn [frees app] in Hc. fold a in Hc.
  apply chain_app in Hc as [Hpre (Hq & Hnq & Ha & Hsa & Hrest)]. cbn [first] in Hpre, Hq.
  destruct (nodes_asc l1 pre q nq [] H1 Hnodes) as [Hasc _].
  assert ((q, nq) ∈ nodes l1) as Hin by (rewrite Hnodes; set_solver).
  assert (Forall (λ x, 1 ≤ ulen x) (l1 ++ Used k :: l2)) as Hpos' by (apply Forall_app; split; [done|by constructor]).
  pose proof (below l1 l2 k Hpos' q nq Hin) as Hqa. fold a in Hqa.
  assert (useds h0 l = useds h0 l1 ++ useds (h0 + HSIZE * (units l1 + k)) l2) as Hul.
  { unfold l. rewrite useds_app. cbn [useds]. do 2 f_equal. lia. }
  assert (∀ w, (∀ x, ¬ q ≤ x < q + HSIZE → ¬ a ≤ x < a + HSIZE * k → w x = umem s x) →
    chain w pre q ∧ chain w (frees (a + HSIZE * k) l2) base ∧ keeps (useds h0 l) (umem s) w) as Hframe.
  { intros w Hw. split_and!.
    - eapply links_frame; [|done]. intros b j x Hb%Hasc ?. apply Hw; unfold HSIZE in *; lia.
    - eapply links_frame; [|done]. intros b j x Hb ?. apply frees_in in Hb; [|done]. apply Hw; unfold HSIZE in *; lia.
    - rewrite Hul. apply (carve_keeps l1 k l2 q nq); [done|done|]. intros x H3 H4. apply Hw; [done|unfold a; lia]. }
  assert (∀ m', chain m' (nodes (a_carve l1 k nunits l2)) base → q ∈ (nodes (a_carve l1 k nunits l2)).*1 →
    hsize m' (carved l1 k nunits) = nunits → keeps (useds h0 l) (umem s) m' → ok (St m' q (brk s)) (a_carve l1 k nunits l2)) as Hfin.
  { intros m' C1 C2 C3 C4. split; simpl; try done; [|by rewrite Fu].
    assert (Forall (λ x, hsize m' x.1 = x.2) (useds h0 l)) as Hall by (eapply keeps_sizes; [by apply useds_pos|done..]).
    rewrite Fus. rewrite Hul in Hall. apply Forall_app in Hall as [? ?]. apply Forall_app. split; [done|by constructor]. }
  unfold carve, kbind, kget, kput, kret. rewrite Hsa. case_bool_decide as Hkn.
  - subst nunits. set (w := set_hptr (umem s) q (hptr (umem s) a)).
    destruct (Hframe w) as (F1 & F2 & F3); [intros x ? ?; apply store32_ne; unfold HSIZE in *; lia|].
    exists (St w q (brk s)). unfold carved, adv. rewrite Z.sub_diag, Z.add_0_r. fold a.
    split_and!; try done; [f_equal; rewrite Z.mul_1_r; apply u32_small; unfold UTOP, HSIZE in *; lia|].
    apply Hfin; [| | |done]; unfold a_carve, carved; rewrite ?bool_decide_true by done; rewrite ?nodes_app, ?Hnodes; cbn [frees]; fold a.
    + rewrite <-app_assoc. apply chain_app. split; [done|]. cbn [chain app]. split_and!; [| |done].
      * unfold w, hptr, set_hptr. rewrite load32_eq; [by rewrite <-Ha|]. fold (hptr (umem s) a). rewrite Ha.
        apply first_range; [unfold HSIZE in *; lia|done|unfold HSIZE in *; lia..].
      * unfold w, hsize, set_hptr. rewrite load32_ne by lia. done.
    + rewrite !fmap_app. set_solver.
    + replace (h0 + HSIZE * (units l1 + (k - k))) with a by (unfold a; lia). etransitivity; [|exact Hsa].
      unfold hsize, w, set_hptr. apply load32_ne. unfold HSIZE in *. lia.
  - assert (hsize (set_hsize (umem s) a (u32 (k - nunits))) a = k - nunits) as Hsz.
    { unfold hsize, set_hsize. rewrite load32_eq by apply u32_range. apply u32_small. unfold UTOP, HSIZE in *. lia. }
    rewrite Hsz. unfold adv at 1 2 3. rewrite (u32_small (a + HSIZE * (k - nunits))) by (unfold UTOP, HSIZE in *; lia).
    replace (a + HSIZE * (k - nunits)) with (carved l1 k nunits) by (unfold carved, a; lia).
    assert (carved l1 k nunits = a + HSIZE * (k - nunits)) as Hb by (unfold carved, a; lia).
    set (b := carved l1 k nunits) in *. set (w := set_hsize _ b nunits).
    destruct (Hframe w) as (F1 & F2 & F3).
    { intros x ? ?. unfold w, set_hsize. rewrite !store32_ne by (unfold HSIZE in *; lia). done. }
    exists (St w q (brk s)).
    split_and!; try done; [unfold adv; f_equal; rewrite Z.mul_1_r; apply u32_small; unfold UTOP, HSIZE in *; lia|].
    apply Hfin; [| | |done]; unfold a_carve; rewrite ?bool_decide_false by done; rewrite ?nodes_app, ?Hnodes; cbn [frees]; fold a.
    + rewrite <-app_assoc. apply chain_app. split; [done|]. cbn [chain app].
      replace (a + HSIZE * (k - nunits) + HSIZE * nunits) with (a + HSIZE * k) by lia. cbn [first].
      unfold w, hptr, hsize, set_hsize in *. rewrite !(load32_ne _ (b + 4)) by (unfold HSIZE in *; lia).
      rewrite !(load32_ne _ (a + 4)) by (unfold HSIZE in *; lia). split_and!; done.
    + rewrite !fmap_app. set_solver.
    + apply load32_eq. unfold UTOP, HSIZE in *. lia.
Qed.

(** *** More memory *)

Context (pages : Z → Z → bool).

Lemma len_used l n : len (l ++ [Used n]) = len l.
Proof. unfold len. rewrite nodes_app. simpl. by rewrite app_nil_r. Qed.

(** [sbrk] appends a segment. *)
Lemma grow_ok s l nu : ok s l → 1 ≤ nu → brk s + HSIZE * nu < UTOP →
  let s1 := St (set_hsize (clear_pages (umem s) (brk s) (brk s + HSIZE * nu)) (brk s) nu) (freep s) (brk s + HSIZE * nu) in
  ok s1 (l ++ [Used nu]) ∧ keeps (useds h0 l) (umem s) (umem s1).
Proof.
  intros [Hc Hfp Hus Hpos Hj Hbrk Htop] Hnu Hlt s1. pose proof (units_nonneg l Hpos) as Hu.
  assert (∀ x, x < brk s → umem s1 x = umem s x) as Hm.
  { intros x Hx. simpl. unfold set_hsize. rewrite store32_ne by lia. unfold clear_pages. rewrite bool_decide_false; [done|].
    pose proof (Z.mul_div_le (brk s + 4095) 4096 ltac:(lia)). pose proof (Z.mod_pos_bound (brk s + 4095) 4096 ltac:(lia)).
    pose proof (Z.div_mod (brk s + 4095) 4096 ltac:(lia)). lia. }
  assert (keeps (useds h0 l) (umem s) (umem s1)) as Hk.
  { intros a n x Ha Hx. apply useds_in in Ha; [|done]. apply Hm. lia. }
  split; [|done]. split.
  - rewrite nodes_app. cbn [frees]. rewrite app_nil_r. eapply links_frame; [|done]. intros a n x Ha Hx. apply Hm. unfold nodes in Ha.
    apply elem_of_cons in Ha as [[= -> ->]|Ha]; [unfold HSIZE in *; lia|]. apply frees_in in Ha; [unfold HSIZE in *; lia|done].
  - rewrite nodes_app. cbn [frees]. by rewrite app_nil_r.
  - rewrite useds_app. apply Forall_app. split; [eapply keeps_sizes; [by apply useds_pos|done..]|].
    cbn [useds]. constructor; [|done]. simpl. rewrite <-Hbrk. apply load32_eq. unfold UTOP, HSIZE in *. lia.
  - apply Forall_app. split; [done|]. by constructor.
  - apply joined_snoc. split; [done|]. done.
  - simpl. rewrite units_app, Hbrk. simpl. lia.
  - simpl. lia.
Qed.

Lemma morecore_ok fuel s l nu : ok s l → 1 ≤ nu → HSIZE * nu < 2 ^ 31 → (len l ≤ fuel)%nat →
  morecore pages fuel nu s = Done 0 s ∨
  ∃ s', morecore pages fuel nu s = Done (freep s') s' ∧ ok s' (a_free l (Z.max nu 4096) []) ∧ keeps (useds h0 l) (umem s) (umem s').
Proof.
  intros Hok Hnu Hmax Hfuel. unfold morecore. replace (if bool_decide (nu < 4096) then 4096 else nu) with (Z.max nu 4096).
  2: { case_bool_decide; lia. }
  set (n := Z.max nu 4096). assert (1 ≤ n ∧ HSIZE * n < 2 ^ 31) as [Hn Hn2] by (unfold n, HSIZE in *; lia).
  assert (i32 (u32 (n * HSIZE)) = HSIZE * n) as ->.
  { rewrite Z.mul_comm. apply i32_id. unfold HSIZE in *. lia. }
  pose proof Hok as [Hc Hfp Hus Hpos Hj Hbrk Htop]. pose proof (units_nonneg l Hpos).
  unfold sbrk, kbind, kget, kret, kput, kmodify, kgets. rewrite (bool_decide_true (0 < HSIZE * n)) by (unfold HSIZE in *; lia).
  rewrite (u32_small (brk s + HSIZE * n)) by (unfold UTOP, HSIZE in *; lia).
  destruct (bool_decide (brk s + HSIZE * n < UTOP) && pages (brk s) (HSIZE * n)) eqn:Hg; [right|by left].
  apply andb_true_iff in Hg as [Hlt%bool_decide_eq_true _].
  rewrite bool_decide_false by (change (u32 (-1)) with (2 ^ 32 - 1); unfold UTOP, HSIZE in *; lia).
  rewrite Z.max_r by (unfold HSIZE in *; lia). destruct (grow_ok s l n Hok Hn Hlt) as [Hok1 Hk1].
  set (s1 := St _ (freep s) _) in Hok1, Hk1.
  destruct (free_ok fuel s1 l n [] Hok1) as (s2 & Hf & Hok2 & _ & Hk2); [by rewrite len_used|].
  exists s2. unfold set_mem. simpl. fold s1. unfold adv. rewrite Z.mul_1_r, Hbrk, u32_small by (unfold UTOP, HSIZE in *; lia).
  rewrite Hf. split_and!; [done..|].
  intros a j x Ha Hx. rewrite (Hk2 a j x), (Hk1 a j x); [done..| |done].
  destruct (a_free_facts h0 l n []) as (_ & _ & _ & Hus2); [apply Hok1..|]. rewrite Hus2. simpl. by rewrite app_nil_r.
Qed.

(** *** The search of [malloc] *)

Lemma frees_lookup h l j a k : frees h l !! j = Some (a, k) →
  ∃ l1 l2, l = l1 ++ Free k :: l2 ∧ a = h + HSIZE * units l1 ∧ length (frees h l1) = j.
Proof.
  revert h j. induction l as [|[n|n] l IH]; intros h j; simpl; [done| |].
  - destruct j as [|j]; simpl.
    + intros [= -> ->]. exists [], l. simpl. split_and!; done || lia.
    + intros (l1 & l2 & -> & -> & <-)%IH. exists (Free n :: l1), l2. simpl. split_and!; done || lia.
  - intros (l1 & l2 & -> & -> & Hj)%IH. exists (Used n :: l1), l2. simpl. split_and!; done || lia.
Qed.

(** A block that fits is carved, with the node in front of it at hand. *)
Lemma found_ok s l i k nunits : ok s l → 1 ≤ nunits → nodes l !! (S i mod len l)%nat = Some (at_ l (S i), k) → nunits ≤ k →
  ∃ l1 l2 s', l = l1 ++ Free k :: l2 ∧ carve nunits (at_ l i) (at_ l (S i)) s = Done (carved l1 k nunits + HSIZE) s' ∧
    ok s' (a_carve l1 k nunits l2) ∧ keeps (useds h0 l) (umem s) (umem s').
Proof.
  intros Hok Hnu Hi Hk. pose proof (len_pos l) as Hlen. rewrite (succ_mod i) in Hi by done.
  case_decide as Hd; [unfold nodes in Hi; simpl in Hi; simplify_eq; lia|]. unfold nodes in Hi. cbn [lookup list_lookup] in Hi.
  apply frees_lookup in Hi as (l1 & l2 & Hl & Ha & Hj).
  destruct (list.last (nodes l1)) as [[q nq]|] eqn:Hlast; [|by apply last_None in Hlast]. apply last_Some in Hlast as [pre Hnodes].
  assert (at_ l i = q) as ->.
  { assert (length pre = i mod len l)%nat as Hpre.
    { pose proof (f_equal length Hnodes) as Hlp. rewrite length_app in Hlp. unfold nodes in Hlp. simpl in Hlp. lia. }
    unfold at_. rewrite <-Hpre, Hl, nodes_app, Hnodes, <-app_assoc, lookup_app_r, Nat.sub_diag by done. done. }
  rewrite Ha, Hl in *. destruct (carve_ok s l1 k l2 q nq pre nunits Hok (conj Hnu Hk) Hnodes) as (s' & H1 & H2 & _ & H3).
  by exists l1, l2, s'.
Qed.

Lemma at_inj l i j : Forall (λ x, 1 ≤ ulen x) l → at_ l i = at_ l j → (i mod len l = j mod len l)%nat.
Proof.
  intros Hl He. destruct (at_lookup l i) as [n Hi]. destruct (at_lookup l j) as [k Hj]. rewrite He in Hi.
  assert (∀ i' j' n k a, nodes l !! i' = Some (a, n) → nodes l !! j' = Some (a, k) → ¬ (i' < j')%nat) as H.
  { intros i' j' n' k' a (pre & post & Hn & ->)%list_elem_of_split_length H2 Hlt.
    destruct (nodes_asc l pre a n' post Hl Hn) as [_ Hasc]. rewrite Hn in H2. rewrite lookup_app_r in H2 by lia.
    destruct (j' - length pre)%nat as [|d] eqn:Hd; [lia|]. apply (list_elem_of_lookup_2 post d), Hasc in H2. unfold HSIZE in *. lia. }
  pose proof (H _ _ _ _ _ Hi Hj). pose proof (H _ _ _ _ _ Hj Hi). lia.
Qed.

Section loop.
Context (s : st) (l : list seg) (nunits : Z) (i : nat) (fuel0 : nat).
Context (Hok : ok s l) (Hnu : 1 ≤ nunits) (Hi : freep s = at_ l i).

Definition fits (e : nat) : bool := bool_decide (nunits ≤ hsize (umem s) (at_ l (S (i + e)))).

Lemma not_freep e : (S e < len l)%nat → at_ l (S (i + e)) ≠ freep s.
Proof.
  intros He Heq. rewrite Hi in Heq. apply at_inj in Heq; [|apply Hok]. pose proof (len_pos l).
  apply (mod_near (Z.of_nat (len l)) (Z.of_nat i) 0 (Z.of_nat (S e))); [lia|lia|].
  rewrite Z.add_0_r, <-Nat2Z.inj_add, <-!Nat2Z.inj_mod. f_equal. rewrite <-Heq. f_equal. lia.
Qed.

Lemma loop_walk d fuel : (d < len l)%nat → (∀ e, (e < d)%nat → fits e = false) →
  malloc_loop pages fuel0 (d + fuel) nunits (at_ l i) (at_ l (S i)) s =
  malloc_loop pages fuel0 fuel nunits (at_ l (i + d)) (at_ l (S (i + d))) s.
Proof.
  revert fuel. induction d as [|d IH]; intros fuel Hd Hf; [by rewrite !Nat.add_0_r|].
  replace (S d + fuel)%nat with (d + S fuel)%nat by lia. rewrite IH; [|lia|intros; apply Hf; lia].
  cbn [malloc_loop]. unfold kbind at 1, kget at 1. pose proof (Hf d ltac:(lia)) as Hfd. unfold fits in Hfd. rewrite Hfd.
  rewrite (bool_decide_false (_ = freep s)) by (apply not_freep; lia).
  rewrite (at_next _ _ _ (ok_chain _ _ Hok)). by rewrite !Nat.add_succ_r.
Qed.

Lemma first_fit n : (∃ d, (d < n)%nat ∧ fits d = true ∧ ∀ e, (e < d)%nat → fits e = false) ∨ (∀ e, (e < n)%nat → fits e = false).
Proof.
  induction n as [|n [(d & Hd & H1 & H2)|IH]]; [right; lia|left; exists d; split_and!; done || lia|].
  destruct (fits n) eqn:Hn; [left; exists n; split_and!; done || lia|]. right. intros e He.
  destruct (decide (e = n)) as [->|]; [done|]. apply IH. lia.
Qed.

(** A block that fits is found. *)
Lemma search_found d fuel : (d < len l)%nat → fits d = true → (∀ e, (e < d)%nat → fits e = false) → (len l ≤ fuel)%nat →
  ∃ l1 k l2 s', l = l1 ++ Free k :: l2 ∧ nunits ≤ k ∧
    malloc_loop pages fuel0 fuel nunits (at_ l i) (at_ l (S i)) s = Done (carved l1 k nunits + HSIZE) s' ∧
    ok s' (a_carve l1 k nunits l2) ∧ keeps (useds h0 l) (umem s) (umem s').
Proof.
  intros Hd Hfd Hmin Hf. destruct fuel as [|fuel]; [lia|].
  replace (S fuel) with (d + S (fuel - d))%nat by lia. rewrite loop_walk by done. cbn [malloc_loop].
  unfold kbind at 1, kget at 1. pose proof Hfd as Hfd'. unfold fits in Hfd'. rewrite Hfd'.
  destruct (at_lookup l (S (i + d))) as [k Hk]. unfold fits in Hfd.
  rewrite (at_size _ _ _ _ (ok_chain _ _ Hok) Hk) in Hfd. apply bool_decide_eq_true in Hfd.
  destruct (found_ok s l (i + d) k nunits Hok Hnu Hk Hfd) as (l1 & l2 & s' & ? & ? & ? & ?).
  by exists l1, k, l2, s'.
Qed.

(** If none fits the search comes around to [freep] and asks for more. *)
Lemma search_none fuel : (∀ e, (e < len l)%nat → fits e = false) → (len l ≤ fuel)%nat →
  malloc_loop pages fuel0 fuel nunits (at_ l i) (at_ l (S i)) s =
  (p ← morecore pages fuel0 nunits;
   if bool_decide (p = 0) then kret 0
   else s ← kget; malloc_loop pages fuel0 (fuel - len l) nunits p (hptr (umem s) p))%kern s.
Proof.
  intros Hnone Hf. pose proof (len_pos l). replace fuel with ((len l - 1) + S (fuel - len l))%nat at 1 by lia.
  rewrite loop_walk by (lia || (intros; apply Hnone; lia)). cbn [malloc_loop]. unfold kbind at 1, kget at 1.
  pose proof (Hnone (len l - 1)%nat ltac:(lia)) as Hl. unfold fits in Hl. rewrite Hl.
  rewrite bool_decide_true; [done|]. rewrite Hi, <-(at_mod l (S _)), <-(at_mod l i). f_equal.
  replace (S (i + (len l - 1)))%nat with (i + 1 * len l)%nat by lia. by rewrite Nat.Div0.mod_add.
Qed.
End loop.

(** A block that fits, if there is one, is seen on the way around. *)
Lemma fit_seen s l nunits i a k : ok s l → (a, k) ∈ frees h0 l → nunits ≤ k → ∃ e, (e < len l)%nat ∧ fits s l nunits i e = true.
Proof.
  intros Hok Ha Hk. assert ((a, k) ∈ nodes l) as [j Hj]%list_elem_of_lookup_1 by (unfold nodes; by constructor).
  pose proof (lookup_lt_Some _ _ _ Hj) as Hlt. fold (len l) in Hlt. pose proof (len_pos l).
  assert (at_ l j = a) as Haj by (unfold at_; rewrite Nat.mod_small, Hj by done; done).
  set (e := ((j + (len l - S i mod len l)) mod len l)%nat). exists e. split; [apply Nat.mod_upper_bound; lia|].
  assert (at_ l (S (i + e)) = a) as Hae.
  { rewrite <-Haj, <-at_mod. f_equal. unfold e. replace (S (i + _))%nat with (S i + (j + (len l - S i mod len l)) mod len l)%nat by lia.
    rewrite Nat.Div0.add_mod_idemp_r, <-Nat.Div0.add_mod_idemp_l. pose proof (Nat.mod_upper_bound (S i) (len l)).
    replace (S i mod len l + (j + (len l - S i mod len l)))%nat with (j + 1 * len l)%nat by lia.
    rewrite Nat.Div0.mod_add. by apply Nat.mod_small. }
  unfold fits. rewrite Hae. destruct (chain_lookup _ _ _ _ _ _ (ok_chain _ _ Hok) Hj) as [-> _]. by apply bool_decide_true.
Qed.

Lemma freep_at s l : ok s l → ∃ i, freep s = at_ l i.
Proof.
  intros Hok. pose proof (ok_freep _ _ Hok) as ([a n] & Ha & [i Hi]%list_elem_of_lookup_1)%list_elem_of_fmap.
  pose proof (lookup_lt_Some _ _ _ Hi). exists i. unfold at_. rewrite Nat.mod_small, Hi by done. done.
Qed.

(** The blocks in use after a carve: one more. *)
Lemma carve_used l1 k nunits l2 : 1 ≤ nunits ≤ k → Forall (λ x, 1 ≤ ulen x) (l1 ++ Free k :: l2) → joined (l1 ++ Free k :: l2) →
  useds h0 (a_carve l1 k nunits l2) ≡ₚ (carved l1 k nunits, nunits) :: useds h0 (l1 ++ Free k :: l2).
Proof.
  intros Hk Hpos Hj. destruct (a_carve_facts l1 k nunits l2 Hk Hpos Hj) as (_ & _ & _ & ->).
  rewrite useds_app. cbn [useds]. replace (h0 + HSIZE * units l1 + HSIZE * k) with (h0 + HSIZE * (units l1 + k)) by lia.
  by rewrite <-Permutation_middle.
Qed.

(** What a successful call leaves: one more block in use. *)
Definition gives (l : list seg) (m : mem) (nunits r : Z) (s' : st) : Prop :=
  ∃ l' a, ok s' l' ∧ keeps (useds h0 l) m (umem s') ∧ (len l' ≤ len l + 1)%nat ∧ r = a + HSIZE ∧
    useds h0 l' ≡ₚ (a, nunits) :: useds h0 l.

Lemma len_carve l1 k nunits l2 : (len (a_carve l1 k nunits l2) ≤ len (l1 ++ Free k :: l2))%nat.
Proof.
  unfold len, a_carve. case_bool_decide; rewrite !nodes_app, !length_app; cbn [frees length]; [lia|].
  by replace (h0 + HSIZE * units l1 + HSIZE * (k - nunits) + HSIZE * nunits) with (h0 + HSIZE * units l1 + HSIZE * k) by lia.
Qed.

Lemma search_ok fuel0 fuel s l nunits a k : ok s l → 1 ≤ nunits → (a, k) ∈ frees h0 l → nunits ≤ k → (len l ≤ fuel)%nat →
  ∃ r s' l' b, malloc_loop pages fuel0 fuel nunits (freep s) (hptr (umem s) (freep s)) s = Done r s' ∧
    ok s' l' ∧ keeps (useds h0 l) (umem s) (umem s') ∧ (len l' ≤ len l)%nat ∧ r = b + HSIZE ∧ useds h0 l' ≡ₚ (b, nunits) :: useds h0 l.
Proof.
  intros Hok Hnu Ha Hk Hf. destruct (freep_at s l Hok) as [i Hi].
  destruct (fit_seen s l nunits i a k Hok Ha Hk) as (e & He & Hfe).
  destruct (first_fit s l nunits i (len l)) as [(d & Hd & Hfd & Hmin)|Hnone]; [|by rewrite Hnone in Hfe].
  destruct (search_found s l nunits i fuel0 Hok Hnu Hi d fuel Hd Hfd Hmin Hf) as (l1 & k' & l2 & s' & -> & Hk' & Hr & Hok' & Hkeep).
  exists (carved l1 k' nunits + HSIZE), s', (a_carve l1 k' nunits l2), (carved l1 k' nunits). rewrite Hi, (at_next _ _ _ (ok_chain _ _ Hok)).
  split_and!; try done; [apply len_carve|]. by apply carve_used; [lia|apply Hok..].
Qed.

(** Behind [morecore] there is a block large enough. *)
Lemma a_free_end l n : Forall (λ x, 1 ≤ ulen x) l → ∃ a k, (a, k) ∈ frees h0 (a_free l n []) ∧ n ≤ k.
Proof.
  intros Hl. unfold a_free, absorb. rewrite app_nil_r. unfold put_back. destruct (list.last l) as [[j|j]|] eqn:Hlast.
  - apply last_Some in Hlast as [l' ->]. rewrite removelast_app, app_nil_r by done.
    apply Forall_app in Hl as [_ [Hj _]%list.Forall_cons]. simpl in Hj.
    eexists _, (j + n). split; [|lia]. rewrite frees_app. apply elem_of_app. right. simpl. by constructor.
  - eexists _, n. split; [|lia]. rewrite frees_app. apply elem_of_app. right. simpl. by constructor.
  - eexists _, n. split; [|lia]. rewrite frees_app. apply elem_of_app. right. simpl. by constructor.
Qed.

Lemma len_put_back l n : (len (put_back l n) ≤ len l + 1)%nat.
Proof.
  unfold len, put_back. destruct (list.last l) as [[j|j]|] eqn:Hlast.
  - apply last_Some in Hlast as [l' ->]. rewrite removelast_app, app_nil_r by done. rewrite !nodes_app, !length_app. simpl. lia.
  - rewrite nodes_app, length_app. simpl. lia.
  - rewrite nodes_app, length_app. simpl. lia.
Qed.

Lemma len_a_free l1 n l2 : (len (a_free l1 n l2) ≤ len (l1 ++ Used n :: l2) + 1)%nat.
Proof.
  unfold a_free. assert (∃ n' l2', absorb n l2 = (n', l2') ∧ ∀ h, (length (frees (h + HSIZE * n') l2') ≤ length (frees (h + HSIZE * n) l2))%nat)
    as (n' & l2' & -> & Hle).
  { destruct l2 as [|[k|k] l2]; simpl; eexists _, _; (split; [done|]); intros h; simpl; try lia.
    replace (h + HSIZE * (n + k)) with (h + HSIZE * n + HSIZE * k) by lia. lia. }
  specialize (Hle (h0 + HSIZE * units l1)). unfold len, put_back. destruct (list.last l1) as [[j|j]|] eqn:Hlast.
  - apply last_Some in Hlast as [l' ->]. rewrite removelast_app, app_nil_r, <-app_assoc by done. rewrite !nodes_app, !length_app. simpl.
    rewrite units_app in Hle. simpl in Hle.
    replace (h0 + HSIZE * units l' + HSIZE * (j + n')) with (h0 + HSIZE * (units l' + (j + 0)) + HSIZE * n') by lia.
    rewrite units_app. simpl. lia.
  - rewrite <-app_assoc, !nodes_app, !length_app. simpl. lia.
  - rewrite <-app_assoc, !nodes_app, !length_app. simpl. lia.
Qed.

Lemma freep_pos s l : ok s l → freep s ≠ 0.
Proof.
  intros Hok. pose proof (ok_freep _ _ Hok) as ([a n] & -> & Ha)%list_elem_of_fmap. unfold nodes in Ha.
  apply elem_of_cons in Ha as [[= -> ->]|Ha]; [simpl; lia|]. apply frees_in in Ha; [simpl; unfold HSIZE in *; lia|apply Hok].
Qed.

(** A call that starts with the list set up. *)
Lemma malloc_loop_ok fuel0 fuel s l nunits : ok s l → 1 ≤ nunits → HSIZE * nunits < 2 ^ 31 → (len l ≤ fuel0)%nat → (2 * len l + 1 ≤ fuel)%nat →
  ∃ r s', malloc_loop pages fuel0 fuel nunits (freep s) (hptr (umem s) (freep s)) s = Done r s' ∧
    (r = 0 ∧ s' = s ∨ gives l (umem s) nunits r s').
Proof.
  intros Hok Hnu Hmax Hf0 Hf. destruct (freep_at s l Hok) as [i Hi].
  destruct (first_fit s l nunits i (len l)) as [(d & Hd & Hfd & Hmin)|Hnone].
  - destruct (search_found s l nunits i fuel0 Hok Hnu Hi d fuel Hd Hfd Hmin ltac:(lia)) as (l1 & k & l2 & s' & -> & Hk & Hr & Hok' & Hkeep).
    eexists _, s'. rewrite Hi, (at_next _ _ _ (ok_chain _ _ Hok)). split; [done|]. right.
    exists (a_carve l1 k nunits l2), (carved l1 k nunits). pose proof (len_carve l1 k nunits l2).
    split_and!; try done; [lia|]. by apply carve_used; [lia|apply Hok..].
  - pose proof (search_none s l nunits i fuel0 Hok Hi fuel Hnone ltac:(lia)) as Hs.
    rewrite <-(at_next _ _ _ (ok_chain _ _ Hok)), <-Hi in Hs. rewrite Hs. clear Hs.
    destruct (morecore_ok fuel0 s l nunits Hok Hnu Hmax Hf0) as [Hm|(s1 & Hm & Hok1 & Hk1)].
    + exists 0, s. split; [|by left]. unfold kbind. rewrite Hm. done.
    + destruct (a_free_end l (Z.max nunits 4096) (ok_pos _ _ Hok)) as (a & k & Ha & Hk).
      assert (len (a_free l (Z.max nunits 4096) []) ≤ len l + 1)%nat as Hlen.
      { unfold a_free, absorb. rewrite app_nil_r. apply len_put_back. }
      destruct (search_ok fuel0 (fuel - len l) s1 _ nunits a k Hok1 Hnu Ha ltac:(lia) ltac:(lia)) as (r & s' & l' & b & Hr & Hok' & Hk' & Hl' & -> & Hu).
      exists (b + HSIZE), s'. unfold kbind. rewrite Hm. rewrite bool_decide_false by (by eapply freep_pos). unfold kget. rewrite Hr.
      split; [done|]. right.
      assert (useds h0 (a_free l (Z.max nunits 4096) []) = useds h0 l) as Husd.
      { destruct (a_free_facts h0 l (Z.max nunits 4096) []) as (_ & _ & _ & ->); [..|simpl; by rewrite app_nil_r].
        - apply Forall_app. split; [apply Hok|]. constructor; [simpl; lia|done].
        - apply joined_snoc. split; [apply Hok|done]. }
      rewrite Husd in *. exists l', b. split_and!; try done; [|lia].
      intros c j x Hc Hx. rewrite (Hk' c j x), (Hk1 c j x) by done. done.
Qed.

(** Before the first call, or with the list set up. *)
Definition started (s : st) (l : list seg) : Prop :=
  ok s l ∨ (freep s = 0 ∧ l = [] ∧ brk s = h0 ∧ h0 ≤ UTOP).

Lemma units_for_ok nbytes : 0 ≤ nbytes ≤ 2 ^ 31 - 16 →
  1 ≤ units_for nbytes ∧ nbytes ≤ HSIZE * (units_for nbytes - 1) ∧ HSIZE * units_for nbytes < 2 ^ 31.
Proof.
  intros Hn. unfold units_for, HSIZE. rewrite u32_small by lia. pose proof (Z.div_mod (nbytes + 8 - 1) 8 ltac:(lia)).
  pose proof (Z.mod_pos_bound (nbytes + 8 - 1) 8 ltac:(lia)). lia.
Qed.

Lemma malloc_ok fuel s l nbytes : started s l → 0 ≤ nbytes ≤ 2 ^ 31 - 16 → (2 * len l + 1 ≤ fuel)%nat →
  ∃ r s', malloc base pages fuel nbytes s = Done r s' ∧
    (r = 0 ∧ ok s' l ∧ keeps (useds h0 l) (umem s) (umem s') ∨ gives l (umem s) (units_for nbytes) r s').
Proof.
  intros Hst Hn Hf. destruct (units_for_ok nbytes Hn) as (H1 & _ & H3).
  unfold malloc, kbind at 1, kget at 1. destruct Hst as [Hok|(Hfp & -> & Hbrk & Htop)].
  - rewrite bool_decide_false by (by eapply freep_pos). unfold kbind, kget. cbn [kwhen kret].
    destruct (malloc_loop_ok fuel fuel s l (units_for nbytes) Hok H1 H3 ltac:(lia) Hf) as (r & s' & Hr & Hres).
    exists r, s'. split; [done|]. destruct Hres as [[-> ->]|?]; [left|by right]. split_and!; done.
  - rewrite bool_decide_true by done. cbn [kwhen]. unfold kbind, kget, kput.
    set (s1 := St _ base (brk s)). assert (ok s1 []) as Hok.
    { assert (base < 2 ^ 31) by (unfold UTOP, HSIZE in *; lia). split; try done.
      - simpl. split_and!; [|by apply load32_eq|done]. unfold hptr, set_hsize, set_hptr. rewrite load32_ne, load32_eq by lia. done.
      - simpl. set_solver.
      - simpl. rewrite Hbrk. lia.
      - simpl. by rewrite Hbrk. }
    destruct (malloc_loop_ok fuel fuel s1 [] (units_for nbytes) Hok H1 H3 ltac:(lia) Hf) as (r & s' & Hr & Hres).
    exists r, s'. split; [done|]. destruct Hres as [[-> ->]|(l' & a & ? & ? & ? & ? & ?)]; [left; split_and!; try done; by intros ? ? ? ?%elem_of_nil|].
    right. exists l', a. split_and!; try done. by intros ? ? ? ?%elem_of_nil.
Qed.
End proof.
End Um.
