(* ===== verification/UmallocThm.v ===== *)
(** * What malloc and free promise a program

    A program that only uses what it was given: whatever it allocates, frees
    and writes, in whatever order, the blocks it holds are apart, in the heap,
    and hold what it wrote there; and freed memory comes back in one piece. *)

From S2P Require Import Prelude CString Umalloc.
Import Um.

Local Open Scope Z_scope.

(** ** Programs *)

(** A block the program holds, and what it has written there. *)
Record block := Block { bptr : Z; bsize : Z; bdata : list Z }.

Inductive uop :=
| UMalloc (n : Z)
| UFree (i : nat)                   (* the i-th block it holds *)
| UWrite (i : nat) (off b : Z).     (* a byte of it *)

Definition peek (m : mem) (p n : Z) : list Z := (λ k, m (p + k)) <$> seqZ 0 n.

Section run.
Context (base : Z) (pages : Z → Z → bool) (fuel : nat).

Local Open Scope kern_scope.

Definition run_uop (o : uop) (bs : list block) : kM st (list block) :=
  match o with
  | UMalloc n =>
    p ← malloc base pages fuel n;
    s ← kget;
    kret (if bool_decide (p = 0) then bs else Block p n (peek (umem s) p n) :: bs)
  | UFree i =>
    match bs !! i with
    | Some b => free fuel (bptr b) ;; kret (delete i bs)
    | None => kret bs
    end
  | UWrite i off b =>
    match bs !! i with
    | Some (Block p n data) =>
      if bool_decide (0 ≤ off < n) then
        kmodify (λ s, set_mem (store (umem s) (p + off) b) s) ;;
        kret (<[i := Block p n (<[Z.to_nat off := u8 b]> data)]> bs)
      else kret bs
    | None => kret bs
    end
  end.

Fixpoint run_uops (l : list uop) (bs : list block) : kM st (list block) :=
  match l with
  | [] => kret bs
  | o :: l => bs ← run_uop o bs; run_uops l bs
  end.
End run.

(** Requests that neither overflow nor make sbrk's argument negative. *)
Definition uop_ok (o : uop) : Prop := match o with UMalloc n => 0 ≤ n ≤ 2 ^ 31 - 16 | _ => True end.

Section proof.
Context (base h0 : Z) (pages : Z → Z → bool) (fuel : nat).
Context (Hbase : 0 < base) (Hh0 : base + HSIZE ≤ h0).

Definition owned (b : block) : Z * Z := (bptr b - HSIZE, units_for (bsize b)).

(** The program's view fits the heap. *)
Record holds (s : st) (bs : list block) (l : list seg) : Prop := {
  hd_started : started base h0 s l;
  hd_used : owned <$> bs ≡ₚ useds h0 l;
  hd_sizes : Forall (λ b, 0 ≤ bsize b ≤ 2 ^ 31 - 16) bs;
  hd_data : Forall (λ b, bdata b = peek (umem s) (bptr b) (bsize b)) bs;
}.

Lemma started_pos s l : started base h0 s l → Forall (λ x, 1 ≤ ulen x) l.
Proof. intros [Hok|(_ & -> & _)]; [apply Hok|constructor]. Qed.

(** A block's bytes are behind its header. *)
Lemma owned_room b : 0 ≤ bsize b ≤ 2 ^ 31 - 16 → bptr b + bsize b ≤ (owned b).1 + HSIZE * (owned b).2 ∧ (owned b).1 + HSIZE = bptr b.
Proof. intros Hb. destruct (units_for_ok (bsize b) Hb) as (? & ? & ?). simpl. unfold HSIZE in *. lia. Qed.

Lemma peek_ext m m' p n : (∀ x, p ≤ x < p + n → m' x = m x) → peek m' p n = peek m p n.
Proof. intros Hm. apply list_fmap_ext. intros i k Hk. apply Hm. apply lookup_seqZ in Hk. lia. Qed.

Lemma keeps_data bs u m m' : (∀ b, b ∈ bs → owned b ∈ u) → Forall (λ b, 0 ≤ bsize b ≤ 2 ^ 31 - 16) bs →
  Forall (λ b, bdata b = peek m (bptr b) (bsize b)) bs → keeps u m m' → Forall (λ b, bdata b = peek m' (bptr b) (bsize b)) bs.
Proof.
  rewrite !list.Forall_forall. intros Hu Hs Hd Hk b Hb. rewrite (Hd b Hb). symmetry.
  apply peek_ext. intros x Hx. destruct (owned_room b (Hs b Hb)) as [? ?].
  apply (Hk (owned b).1 (owned b).2); [rewrite <-surjective_pairing; by apply Hu|]. unfold HSIZE in *. lia.
Qed.

Lemma holds_owned s bs l b : holds s bs l → b ∈ bs → owned b ∈ useds h0 l.
Proof. intros Hh Hb. rewrite <-(hd_used _ _ _ Hh). apply list_elem_of_fmap. by exists b. Qed.

(** ** Blocks in use are apart *)

Lemma useds_order h l i j a n b k : Forall (λ x, 1 ≤ ulen x) l → useds h l !! i = Some (a, n) → useds h l !! j = Some (b, k) →
  (i < j)%nat → a + HSIZE * n ≤ b.
Proof.
  intros Hl. revert h i j. induction Hl as [|x l Hx Hl IH]; intros h i j; [done|]. destruct x as [m|m]; [apply IH|].
  cbn [useds]. destruct i as [|i], j as [|j]; simpl; try lia.
  - intros [= -> ->] Hb%list_elem_of_lookup_2 _. apply useds_in in Hb; [lia|done].
  - intros Ha Hb Hij. apply (IH _ i j Ha Hb). lia.
Qed.

Lemma useds_apart h l a n b k : Forall (λ x, 1 ≤ ulen x) l → (a, n) ∈ useds h l → (b, k) ∈ useds h l → (a, n) ≠ (b, k) →
  a + HSIZE * n ≤ b ∨ b + HSIZE * k ≤ a.
Proof.
  intros Hl [i Hi]%list_elem_of_lookup_1 [j Hj]%list_elem_of_lookup_1 Hne.
  destruct (decide (i = j)) as [->|]; [congruence|]. destruct (decide (i < j)%nat).
  - left. by eapply useds_order.
  - right. eapply (useds_order h l j i); [done..|lia].
Qed.

Lemma useds_nodup h l : Forall (λ x, 1 ≤ ulen x) l → NoDup (useds h l).
Proof.
  intros Hl. apply NoDup_alt. intros i j [a n] Hi Hj. pose proof (list_elem_of_lookup_2 _ _ _ Hi) as Hin. apply useds_in in Hin; [|done].
  destruct (decide (i < j)%nat) as [Hlt|]; [pose proof (useds_order _ _ _ _ _ _ _ _ Hl Hi Hj Hlt); unfold HSIZE in *; lia|].
  destruct (decide (j < i)%nat) as [Hlt|]; [pose proof (useds_order _ _ _ _ _ _ _ _ Hl Hj Hi Hlt); unfold HSIZE in *; lia|]. lia.
Qed.

Lemma blocks_apart s bs l i j b c : holds s bs l → bs !! i = Some b → bs !! j = Some c → i ≠ j →
  bptr b + bsize b ≤ bptr c - HSIZE ∨ bptr c + bsize c ≤ bptr b - HSIZE.
Proof.
  intros Hh Hi Hj Hne. pose proof (started_pos _ _ (hd_started _ _ _ Hh)) as Hl.
  pose proof (useds_nodup h0 l Hl) as Hnd. rewrite <-(hd_used _ _ _ Hh) in Hnd. rewrite NoDup_alt in Hnd.
  assert (owned b ≠ owned c) as Hbc.
  { intros He. apply Hne, (Hnd i j (owned b)); rewrite list_lookup_fmap, ?Hi, ?Hj; [done|by rewrite He]. }
  pose proof (holds_owned _ _ _ _ Hh (list_elem_of_lookup_2 _ _ _ Hi)) as Hb.
  pose proof (holds_owned _ _ _ _ Hh (list_elem_of_lookup_2 _ _ _ Hj)) as Hc.
  pose proof (hd_sizes _ _ _ Hh) as Hs. rewrite list.Forall_forall in Hs.
  destruct (owned_room b (Hs b (list_elem_of_lookup_2 _ _ _ Hi))). destruct (owned_room c (Hs c (list_elem_of_lookup_2 _ _ _ Hj))).
  destruct (owned b) as [a n], (owned c) as [a' n']. simpl in *. destruct (useds_apart _ _ _ _ _ _ Hl Hb Hc Hbc); lia.
Qed.

(** ** Operations *)

Lemma holds_malloc s bs l n : holds s bs l → 0 ≤ n ≤ 2 ^ 31 - 16 → (2 * len base h0 l + 1 ≤ fuel)%nat →
  ∃ bs' s' l', run_uop base pages fuel (UMalloc n) bs s = Done bs' s' ∧ holds s' bs' l' ∧ (len base h0 l' ≤ len base h0 l + 1)%nat.
Proof.
  intros Hh Hn Hf. pose proof Hh as [Hst Hu Hs Hd].
  destruct (malloc_ok base h0 Hbase Hh0 pages fuel s l n Hst Hn Hf) as (r & s' & Hr & Hres).
  unfold run_uop, kbind, kget, kret. rewrite Hr. destruct Hres as [(-> & Hok & Hk)|(l' & a & Hok & Hk & Hlen & -> & Hu')].
  - rewrite bool_decide_true by done. exists bs, s', l. split_and!; [done| |lia].
    split; [by left|done..|]. eapply keeps_data; [|done..]. intros. by eapply holds_owned.
  - assert (h0 ≤ a) as Ha.
    { assert ((a, units_for n) ∈ useds h0 l') as Hin by (rewrite Hu'; constructor). apply useds_in in Hin; [lia|apply Hok]. }
    rewrite bool_decide_false by (unfold HSIZE in *; lia). eexists _, s', l'. split_and!; [done| |done].
    split; [by left| |by constructor|].
    + rewrite Hu', <-Hu. simpl. unfold owned at 1. simpl. by replace (a + HSIZE - HSIZE) with a by lia.
    + constructor; [done|]. eapply keeps_data; [|done..]. intros. by eapply holds_owned.
Qed.

Lemma holds_free s bs l i : holds s bs l → (2 * len base h0 l + 1 ≤ fuel)%nat →
  ∃ bs' s' l', run_uop base pages fuel (UFree i) bs s = Done bs' s' ∧ holds s' bs' l' ∧ (len base h0 l' ≤ len base h0 l + 1)%nat.
Proof.
  intros Hh Hf. pose proof Hh as [Hst Hu Hs Hd]. cbn [run_uop]. destruct (bs !! i) as [b|] eqn:Hi; [|by exists bs, s, l; split_and!; [done..|lia]].
  pose proof (list_elem_of_lookup_2 _ _ _ Hi) as Hb. pose proof (holds_owned _ _ _ _ Hh Hb) as Hin.
  unfold owned in Hin. apply useds_split in Hin as (l1 & l2 & -> & Hp).
  destruct Hst as [Hok|(_ & Hnil & _)]; [|by destruct l1].
  set (n := units_for (bsize b)) in *. assert (bptr b = h0 + HSIZE * units l1 + HSIZE) as -> by lia.
  destruct (free_ok base h0 Hbase Hh0 fuel s l1 n l2 Hok ltac:(lia)) as (s' & Hr & Hok' & _ & Hk).
  unfold kbind. rewrite Hr. eexists _, s', _. split_and!; [done| |].
  - destruct (a_free_facts h0 l1 n l2 (ok_pos _ _ _ _ Hok) (ok_joined _ _ _ _ Hok)) as (_ & _ & _ & Hus).
    assert (owned <$> delete i bs ≡ₚ useds h0 (a_free l1 n l2)) as Hu'.
    { rewrite Hus. apply (Permutation_cons_inv (a := owned b)). rewrite (delete_Permutation bs i b Hi) in Hu. simpl in Hu. rewrite Hu.
      rewrite useds_app. cbn [useds]. unfold owned. fold n. rewrite Hp.
      replace (h0 + HSIZE * units l1 + HSIZE * n) with (h0 + HSIZE * (units l1 + n)) by lia. by rewrite <-Permutation_middle. }
    assert (∀ P : block → Prop, Forall P bs → Forall P (delete i bs)) as Hdel.
    { intros P HP. rewrite (delete_Permutation bs i b Hi) in HP. by apply list.Forall_cons in HP as [_ ?]. }
    split; [by left|done|by apply Hdel|]. eapply keeps_data; [|by apply Hdel..|done].
    intros c Hc. rewrite <-Hu'. apply list_elem_of_fmap. by exists c.
  - apply len_a_free.
Qed.

(** A byte of a block in use: no header is there. *)
Lemma used_store_ok s l a n x b : ok base h0 s l → (a, n) ∈ useds h0 l → a + HSIZE ≤ x < a + HSIZE * n →
  ok base h0 (set_mem (store (umem s) x b) s) l.
Proof.
  intros [Hc Hfp Hus Hpos Hj Hbrk Htop] Ha Hx.
  assert (∀ y, y ≠ x → store (umem s) x b y = umem s y) as Hst by (intros y Hy; unfold store; by rewrite decide_False).
  pose proof Ha as Hin. apply useds_in in Hin; [|done].
  split; cbn [umem freep brk set_mem]; try done.
  - eapply links_frame; [|done]. intros c k y Hck Hy. apply Hst. unfold nodes in Hck.
    apply elem_of_cons in Hck as [[= -> ->]|Hck]; [unfold HSIZE in *; lia|].
    destruct (used_free_disjoint _ _ _ _ _ _ Hpos Ha Hck); [lia|]. apply frees_in in Hck; [unfold HSIZE in *; lia|done].
  - rewrite list.Forall_forall in *. intros [c k] Hck. rewrite <-(Hus _ Hck). apply load32_ext. simpl. intros y Hy. apply Hst.
    pose proof Hck as Hck'. apply useds_in in Hck'; [|done].
    destruct (decide ((a, n) = (c, k))) as [[= -> ->]|Hne]; [unfold HSIZE in *; lia|].
    destruct (useds_apart _ _ _ _ _ _ Hpos Ha Hck Hne); unfold HSIZE in *; lia.
Qed.

Lemma peek_store m p n off b : 0 ≤ off < n → peek (store m (p + off) b) p n = <[Z.to_nat off := u8 b]> (peek m p n).
Proof.
  intros Hoff. apply list_eq. intros i. unfold peek. destruct (decide (i = Z.to_nat off)) as [->|Hne].
  - rewrite list_lookup_insert_eq by (rewrite length_fmap, length_seqZ; lia). rewrite list_lookup_fmap, lookup_seqZ_lt by lia. simpl.
    f_equal. unfold store. rewrite decide_True by lia. done.
  - rewrite list_lookup_insert_ne by done. rewrite !list_lookup_fmap.
    destruct (decide (Z.of_nat i < n)); [|by rewrite !lookup_seqZ_ge by lia]. rewrite !lookup_seqZ_lt by lia. simpl.
    f_equal. unfold store. rewrite decide_False by lia. done.
Qed.

Lemma holds_write s bs l i off b : holds s bs l → (2 * len base h0 l + 1 ≤ fuel)%nat →
  ∃ bs' s' l', run_uop base pages fuel (UWrite i off b) bs s = Done bs' s' ∧ holds s' bs' l' ∧ (len base h0 l' ≤ len base h0 l + 1)%nat.
Proof.
  intros Hh Hf. pose proof Hh as [Hst Hu Hs Hd]. cbn [run_uop].
  destruct (bs !! i) as [[p n data]|] eqn:Hi; [|by exists bs, s, l; split_and!; [done..|lia]].
  case_bool_decide as Hoff; [|by exists bs, s, l; split_and!; [done..|lia]].
  pose proof (list_elem_of_lookup_2 _ _ _ Hi) as Hb. pose proof (holds_owned _ _ _ _ Hh Hb) as Hin.
  rewrite list.Forall_forall in Hs, Hd. pose proof (owned_room _ (Hs _ Hb)) as [Hroom Hp]. pose proof (Hd _ Hb) as Hdata.
  unfold owned in Hin, Hroom, Hp. cbn [fst snd bptr bsize bdata] in *.
  unfold kbind, kmodify. eexists _, _, l. split_and!; [done| |lia].
  split; simpl.
  - destruct Hst as [Hok|(_ & -> & _)]; [left|by apply elem_of_nil in Hin].
    eapply used_store_ok; [done|done|]. unfold HSIZE in *. lia.
  - rewrite <-Hu. rewrite list_fmap_insert, list_insert_id; [done|]. by rewrite list_lookup_fmap, Hi.
  - apply list.Forall_insert; [by apply list.Forall_forall|]. by apply (Hs _ Hb).
  - apply Forall_lookup. intros j c Hj. destruct (decide (i = j)) as [<-|Hne].
    + rewrite list_lookup_insert_eq in Hj by (by eapply lookup_lt_Some). injection Hj as <-. simpl. by rewrite peek_store, Hdata.
    + rewrite list_lookup_insert_ne in Hj by done. rewrite (Hd _ (list_elem_of_lookup_2 _ _ _ Hj)). symmetry. apply peek_ext.
      intros x Hx. unfold store. rewrite decide_False; [done|]. intros ->.
      destruct (blocks_apart _ _ _ _ _ _ _ Hh Hi Hj Hne) as [H|H]; simpl in H; unfold HSIZE in *; lia.
Qed.

Lemma holds_uop s bs l o : holds s bs l → uop_ok o → (2 * len base h0 l + 1 ≤ fuel)%nat →
  ∃ bs' s' l', run_uop base pages fuel o bs s = Done bs' s' ∧ holds s' bs' l' ∧ (len base h0 l' ≤ len base h0 l + 1)%nat.
Proof. destruct o; intros; [by apply holds_malloc|by apply holds_free|by apply holds_write]. Qed.

Lemma holds_uops os s bs l : holds s bs l → Forall uop_ok os → (2 * (len base h0 l + length os) + 1 ≤ fuel)%nat →
  ∃ bs' s' l', run_uops base pages fuel os bs s = Done bs' s' ∧ holds s' bs' l'.
Proof.
  intros Hh Hos. revert s bs l Hh. induction Hos as [|o os Ho Hos IH]; intros s bs l Hh Hf; cbn [length run_uops] in *; [by exists bs, s, l|].
  destruct (holds_uop s bs l o Hh Ho ltac:(lia)) as (bs1 & s1 & l1 & H1 & Hh1 & Hlen1).
  destruct (IH s1 bs1 l1 Hh1 ltac:(lia)) as (bs2 & s2 & l2 & H2 & Hh2). exists bs2, s2, l2. split; [|done].
  unfold kbind. by rewrite H1.
Qed.

Lemma holds_start m : h0 ≤ UTOP → holds (St m 0 h0) [] [].
Proof. intros Htop. split; [right|..]; done. Qed.

(** With nothing in use the heap is one free segment. *)
Lemma all_free l : useds h0 l = [] → joined l → l = [] ∨ ∃ n, l = [Free n].
Proof.
  destruct l as [|[n|n] l]; [by left| |done]. intros Hu Hj. right. exists n. destruct l as [|[k|k] l]; [done|by simpl in Hj|done].
Qed.
End proof.

(** ** What is promised *)

(** C31: a program keeps its memory to itself. From an untouched heap that begins behind
    the allocator's own header, for any sequence of requests of up to 2^31 - 16 bytes,
    frees of blocks it has and writes inside of them, no call faults or runs forever,
    whether or not the kernel has pages left; at the end every block malloc returned
    and that was not freed is in the heap, apart from all others, and holds what was
    last written there. For a sequence of [n] calls, 2[n] + 3 steps are enough for each
    loop. (Requests near 4 GB wrap around: see [malloc_wraps].) *)
Theorem malloc_exclusive base h0 pages fuel os m : 0 < base → base + HSIZE ≤ h0 → h0 ≤ UTOP → Forall uop_ok os →
  (2 * length os + 3 ≤ fuel)%nat →
  ∃ bs s', run_uops base pages fuel os [] (St m 0 h0) = Done bs s' ∧
    (∀ i b, bs !! i = Some b → h0 < bptr b ∧ bptr b + bsize b ≤ brk s' ∧ bdata b = peek (umem s') (bptr b) (bsize b)) ∧
    (∀ i j b c, bs !! i = Some b → bs !! j = Some c → i ≠ j → bptr b + bsize b ≤ bptr c ∨ bptr c + bsize c ≤ bptr b).
Proof.
  intros Hb Hh Htop Hos Hf.
  destruct (holds_uops base h0 pages fuel Hb Hh os (St m 0 h0) [] [] (holds_start base h0 m Htop) Hos) as (bs & s' & l & Hr & Hld).
  { unfold len, nodes. simpl. lia. }
  exists bs, s'. split; [done|]. split.
  - intros i b Hi. pose proof (list_elem_of_lookup_2 _ _ _ Hi) as Hin. pose proof Hld as [Hst Hu Hs Hd].
    rewrite list.Forall_forall in Hs, Hd. destruct (owned_room b (Hs b Hin)) as [H1 H2].
    assert (owned b ∈ useds h0 l) as Ho by (rewrite <-Hu; apply list_elem_of_fmap; by exists b).
    destruct (owned b) as [a n]. simpl in H1, H2.
    destruct Hst as [Hok|(_ & -> & _)]; [|by apply elem_of_nil in Ho].
    apply useds_in in Ho; [|apply Hok]. rewrite (ok_brk _ _ _ _ Hok). unfold HSIZE in *. split_and!; [lia..|by apply Hd].
  - intros i j b c Hi Hj Hne. destruct (blocks_apart base h0 s' bs l i j b c Hld Hi Hj Hne); unfold HSIZE in *; lia.
Qed.

(** Four blocks, one freed between, one byte written. *)
Definition demo_uops : list uop := [UMalloc 10; UMalloc 3; UWrite 0 2 77; UMalloc 100; UFree 2; UMalloc 8].

Lemma malloc_exclusive_witness : ∃ bs s', run_uops 4096 (λ _ _, true) 15 demo_uops [] (St (λ _, 0) 0 8192) = Done bs s' ∧
    (∀ i b, bs !! i = Some b → 8192 < bptr b ∧ bptr b + bsize b ≤ brk s' ∧ bdata b = peek (umem s') (bptr b) (bsize b)) ∧
    (∀ i j b c, bs !! i = Some b → bs !! j = Some c → i ≠ j → bptr b + bsize b ≤ bptr c ∨ bptr c + bsize c ≤ bptr b).
Proof.
  apply (malloc_exclusive 4096 8192 (λ _ _, true) 15 demo_uops (λ _, 0)); [lia|unfold HSIZE; lia|unfold UTOP; lia| |simpl; lia].
  repeat constructor; simpl; lia.
Defined.

(** C32: memory comes back in one piece. When a program that asked for at most 2^31 - 16
    bytes at a time has freed all it allocated, in whatever order, the free list is a
    single block that is the whole heap: neighbours have been joined and nothing is
    lost. *)
Theorem heap_recovered base h0 pages fuel os m s' : 0 < base → base + HSIZE ≤ h0 → h0 ≤ UTOP → Forall uop_ok os →
  (2 * length os + 3 ≤ fuel)%nat → run_uops base pages fuel os [] (St m 0 h0) = Done [] s' →
  brk s' = h0 ∨ (hptr (umem s') base = h0 ∧ hptr (umem s') h0 = base ∧ HSIZE * hsize (umem s') h0 = brk s' - h0).
Proof.
  intros Hb Hh Htop Hos Hf Hrun.
  destruct (holds_uops base h0 pages fuel Hb Hh os (St m 0 h0) [] [] (holds_start base h0 m Htop) Hos) as (bs & s1 & l & Hr & Hld).
  { unfold len, nodes. simpl. lia. }
  rewrite Hrun in Hr. injection Hr as <- <-. destruct Hld as [[Hok|(_ & _ & ? & _)] Hu _ _]; [|by left].
  simpl in Hu. symmetry in Hu. apply Permutation_nil_r in Hu.
  destruct (all_free h0 l Hu (ok_joined _ _ _ _ Hok)) as [->|[n ->]].
  - left. rewrite (ok_brk _ _ _ _ Hok). simpl. lia.
  - right. destruct (ok_chain _ _ _ _ Hok) as (H1 & _ & H2 & H3 & _). rewrite (ok_brk _ _ _ _ Hok). simpl in *. rewrite H3. unfold HSIZE. lia.
Qed.

Definition demo_all_freed : list uop := [UMalloc 10; UMalloc 3; UMalloc 400; UFree 1; UFree 1; UFree 0].
Definition demo_freed : st :=
  match run_uops 4096 (λ _ _, true) 15 demo_all_freed [] (St (λ _, 0) 0 8192) with Done _ s => s | _ => St (λ _, 0) 0 0 end.

Lemma heap_recovered_witness : brk demo_freed = 8192 + 8 * 4096 ∧
  (brk demo_freed = 8192 ∨ (hptr (umem demo_freed) 4096 = 8192 ∧ hptr (umem demo_freed) 8192 = 4096 ∧
    HSIZE * hsize (umem demo_freed) 8192 = brk demo_freed - 8192)).
Proof.
  split; [vm_compute; reflexivity|].
  apply (heap_recovered 4096 8192 (λ _ _, true) 15 demo_all_freed (λ _, 0)); [lia|unfold HSIZE; lia|unfold UTOP; lia| |simpl; lia|reflexivity].
  repeat constructor; simpl; lia.
Defined.

Lemma first_malloc : match malloc 4096 (λ _ _, true) 3 0 (St (λ _, 0) 0 8192) with
  | Done p s => p = 40960 ∧ brk s = 40960
  | _ => False
  end.
Proof. vm_compute. split; reflexivity. Qed.

(** The size computation of malloc wraps around: a request for nearly 4 GB
    is answered with the address of a block that has room for nothing, in a
    heap that stays small. *)
Theorem malloc_wraps n : 2 ^ 32 - 7 ≤ n < 2 ^ 32 → units_for n = 1 ∧
  ∃ p s, malloc 4096 (λ _ _, true) 3 n (St (λ _, 0) 0 8192) = Done p s ∧ p ≠ 0 ∧ brk s < p + n ∧ brk s = 8192 + HSIZE * 4096.
Proof.
  intros Hn. assert (units_for n = 1) as Hu.
  { unfold units_for, HSIZE, u32. replace (n + 8 - 1) with (n + 7 - 2 ^ 32 + 1 * 2 ^ 32) by lia.
    rewrite Z.mod_add, Z.mod_small by lia. rewrite Z.div_small by lia. done. }
  split; [done|].
  assert (malloc 4096 (λ _ _, true) 3 n = malloc 4096 (λ _ _, true) 3 0) as He by (unfold malloc; rewrite Hu; reflexivity).
  rewrite He. pose proof first_malloc as Hf. destruct (malloc 4096 (λ _ _, true) 3 0 _) as [p s| | |]; try done. destruct Hf as [-> Hbrk].
  exists 40960, s. rewrite Hbrk. unfold HSIZE. split_and!; [done..|lia|done].
Qed.

Lemma malloc_wraps_witness : units_for (2 ^ 32 - 1) = 1 ∧
  ∃ p s, malloc 4096 (λ _ _, true) 3 (2 ^ 32 - 1) (St (λ _, 0) 0 8192) = Done p s ∧ p ≠ 0 ∧ brk s < p + (2 ^ 32 - 1) ∧ brk s = 8192 + HSIZE * 4096.
Proof. apply (malloc_wraps (2 ^ 32 - 1)). lia. Defined.
