(* ===== verification/Progs.v ===== *)
(** * The user programs (cat.c, echo.c, wc.c, ls.c, kill.c, ln.c, mkdir.c,
    rm.c, init.c, zombie.c, stressfs.c, forktest.c, usertests.c)

    Each program is its [main], as a tree of system calls; [argv] is the list
    of the argument strings. The programs that copy or count what they read
    are proved correct for every system whose descriptors behave like streams,
    however it cuts the input into pieces. *)

From S2P Require Import Prelude CString Kalloc Log Fs User.

Local Open Scope Z_scope.
Local Open Scope prog_scope.

Definition NL : Z := 10.

(** The text of a constant, with a newline at the end. *)
Definition ln (s : string) : list Z := str s ++ [NL].

(** Whatever is left of [fuel] rounds, a loop that ran out is stuck. *)
Section programs.
Context (fuel : nat).

(** ** cat.c *)

Fixpoint cat_loop (fuel : nat) (fd : Z) : prog Z :=
  match fuel with
  | O => Stuck
  | S fuel =>
    r ← sysd (SYS_read fd 512);
    if bool_decide (0 < r.1) then sys (SYS_write 1 (take (Z.to_nat r.1) r.2)) ;; cat_loop fuel fd
    else Ret r.1
  end.

Definition cat (fd : Z) : prog unit :=
  n ← cat_loop fuel fd;
  if bool_decide (n < 0) then printf 1 (ln "cat: read error") [] ;; Exit else Ret tt.

Definition cat_main (argv : list (list Z)) : prog unit :=
  (if bool_decide (length argv ≤ 1)%nat then cat 0
   else pfor (drop 1 argv) (λ a,
     fd ← sys (SYS_open a 0);
     if bool_decide (fd < 0) then printf 1 (ln "cat: cannot open %s") [PStr (Some a)] ;; Exit
     else cat fd ;; sys (SYS_close fd) ;; Ret tt)) ;;
  Exit.

(** ** echo.c *)

Fixpoint echo_loop (args : list (list Z)) : prog unit :=
  match args with
  | [] => Ret tt
  | a :: args =>
    printf 1 (str "%s%s") [PStr (Some a); PStr (Some (if bool_decide (args = []) then [NL] else str " "))] ;;
    echo_loop args
  end.

Definition echo_main (argv : list (list Z)) : prog unit := echo_loop (drop 1 argv) ;; Exit.

(** ** wc.c *)

Record counts := Counts { wl : Z; ww : Z; wch : Z; inword : bool }.

(** One byte of the buffer. *)
Definition count1 (k : counts) (b : Z) : counts :=
  let c := i32 (wch k + 1) in
  let l := if bool_decide (b = NL) then i32 (wl k + 1) else wl k in
  if strchr_list [32; 13; 9; 10; 11] b then Counts l (ww k) c false
  else if inword k then Counts l (ww k) c true
  else Counts l (i32 (ww k + 1)) c true.

Fixpoint wc_loop (fuel : nat) (fd : Z) (k : counts) : prog (Z * counts) :=
  match fuel with
  | O => Stuck
  | S fuel =>
    r ← sysd (SYS_read fd 512);
    if bool_decide (0 < r.1) then wc_loop fuel fd (foldl count1 k (take (Z.to_nat r.1) r.2))
    else Ret (r.1, k)
  end.

Definition wc (fd : Z) (name : list Z) : prog unit :=
  r ← wc_loop fuel fd (Counts 0 0 0 false);
  let k := r.2 in
  if bool_decide (r.1 < 0) then printf 1 (ln "wc: read error") [] ;; Exit
  else printf 1 (ln "%d %d %d %s") [PInt (wl k); PInt (ww k); PInt (wch k); PStr (Some name)].

Definition wc_main (argv : list (list Z)) : prog unit :=
  (if bool_decide (length argv ≤ 1)%nat then wc 0 []
   else pfor (drop 1 argv) (λ a,
     fd ← sys (SYS_open a 0);
     if bool_decide (fd < 0) then printf 1 (ln "wc: cannot open %s") [PStr (Some a)] ;; Exit
     else wc fd a ;; sys (SYS_close fd) ;; Ret tt)) ;;
  Exit.

(** ** kill.c, ln.c, mkdir.c, rm.c *)

(** [atoi] of a string. *)
Definition atoi_list (s : list Z) : Z := default 0 (atoi (S (length s)) (mem_of 0 (s ++ [0])) 0).

Definition kill_main (argv : list (list Z)) : prog unit :=
  (if bool_decide (length argv < 2)%nat then printf 2 (ln "usage: kill pid...") []
   else pfor (drop 1 argv) (λ a, sys (SYS_kill (atoi_list a)) ;; Ret tt)) ;;
  Exit.

Definition ln_main (argv : list (list Z)) : prog unit :=
  match argv with
  | [_; old; new] =>
    r ← sys (SYS_link old new);
    (if bool_decide (r < 0) then printf 2 (ln "link %s %s: failed") [PStr (Some old); PStr (Some new)] else Ret tt) ;;
    Exit
  | _ => printf 2 (ln "Usage: ln old new") [] ;; Exit
  end.

(** The loop of mkdir and rm: the first failure ends it. *)
Fixpoint try_each (c : list Z → call) (msg : list Z) (args : list (list Z)) : prog unit :=
  match args with
  | [] => Ret tt
  | a :: args =>
    r ← sys (c a);
    if bool_decide (r < 0) then printf 2 msg [PStr (Some a)] else try_each c msg args
  end.

Definition mkdir_main (argv : list (list Z)) : prog unit :=
  (if bool_decide (length argv < 2)%nat then printf 2 (ln "Usage: mkdir files...") []
   else try_each SYS_mkdir (ln "mkdir: %s failed to create") (drop 1 argv)) ;;
  Exit.

Definition rm_main (argv : list (list Z)) : prog unit :=
  (if bool_decide (length argv < 2)%nat then printf 2 (ln "Usage: rm files...") []
   else try_each SYS_unlink (ln "rm: %s failed to delete") (drop 1 argv)) ;;
  Exit.

(** ** ls.c *)

(** The first character after the last slash. *)
Fixpoint after_slash (p path : list Z) : list Z :=
  match path with [] => p | c :: path => after_slash (if bool_decide (c = 47) then path else p) path end.

Definition fmtname (path : list Z) : list Z :=
  let p := after_slash path path in
  if bool_decide (DIRSIZ ≤ length p)%nat then p else p ++ replicate (DIRSIZ - length p) 32.

(** The bytes before the first null. *)
Fixpoint cstr (l : list Z) : list Z := match l with c :: l => if bool_decide (c = 0) then [] else c :: cstr l | [] => [] end.

(** The words of a [struct stat]: type, dev, ino, nlink, size. *)
Definition st_word (st : list Z) (i : nat) : Z := default 0 (st !! i).

Definition ls_line (name st : list Z) : prog unit :=
  printf 1 (ln "%s %d %d %d") [PStr (Some name); PInt (st_word st 0); PInt (st_word st 2); PInt (st_word st 4)].

Fixpoint ls_dir (fuel : nat) (fd : Z) (path : list Z) : prog unit :=
  match fuel with
  | O => Stuck
  | S fuel =>
    r ← sysd (SYS_read fd 16);
    if bool_decide (r.1 = 16) then
      if bool_decide (de_inum r.2 = 0) then ls_dir fuel fd path
      else
        let buf := path ++ [47] ++ cstr (take DIRSIZ (drop 2 r.2)) in
        st ← stat buf;
        (if bool_decide (st.1 < 0) then printf 1 (ln "ls: cannot stat %s") [PStr (Some buf)]
         else ls_line (fmtname buf) st.2) ;;
        ls_dir fuel fd path
    else Ret tt
  end.

Definition ls (path : list Z) : prog unit :=
  fd ← sys (SYS_open path 0);
  if bool_decide (fd < 0) then printf 2 (ln "ls: cannot open %s") [PStr (Some path)]
  else
    st ← sysd (SYS_fstat fd);
    if bool_decide (st.1 < 0) then
      printf 2 (ln "ls: cannot stat %s") [PStr (Some path)] ;; sys (SYS_close fd) ;; Ret tt
    else
      (if bool_decide (st_word st.2 0 = T_FILE) then ls_line (fmtname path) st.2
       else if bool_decide (st_word st.2 0 = T_DIR) then
         if bool_decide (512 < length path + 1 + DIRSIZ + 1)%nat then printf 1 (ln "ls: path too long") []
         else ls_dir fuel fd path
       else Ret tt) ;;
      sys (SYS_close fd) ;; Ret tt.

Definition ls_main (argv : list (list Z)) : prog unit :=
  (if bool_decide (length argv < 2)%nat then ls (str ".") else pfor (drop 1 argv) ls) ;;
  Exit.

(** ** init.c *)

Fixpoint init_wait (fuel : nat) (pid : Z) : prog unit :=
  match fuel with
  | O => Stuck
  | S fuel =>
    wpid ← sys SYS_wait;
    if bool_decide (0 ≤ wpid) && bool_decide (wpid ≠ pid) then printf 1 (ln "zombie!") [] ;; init_wait fuel pid
    else Ret tt
  end.

Fixpoint init_loop (rounds : nat) : prog unit :=
  match rounds with
  | O => Stuck
  | S rounds =>
    printf 1 (ln "init: starting sh") [] ;;
    pid ← sys (SYS_fork 1 1 10000 10000);
    if bool_decide (pid < 0) then printf 1 (ln "init: fork failed") [] ;; Exit
    else if bool_decide (pid = 0) then
      sys (SYS_exec (str "sh") [str "sh"]) ;; printf 1 (ln "init: exec sh failed") [] ;; Exit
    else init_wait fuel pid ;; init_loop rounds
  end.

Definition init_main : prog unit :=
  r ← sys (SYS_open (str "console") 2);
  (if bool_decide (r < 0) then sys (SYS_mknod (str "console") 1 1) ;; sys (SYS_open (str "console") 2) else Ret 0) ;;
  sys (SYS_dup 0) ;;
  sys (SYS_dup 0) ;;
  init_loop fuel.

(** ** zombie.c, stressfs.c, forktest.c *)

Definition zombie_main : prog unit :=
  r ← sys (SYS_fork 1 1 5 5);
  (if bool_decide (0 < r) then sys (SYS_sleep 5) ;; Ret tt else Ret tt) ;;
  Exit.

(** The loop that forks: the number of children before this process. *)
Fixpoint stress_forks (todo : nat) (i : Z) : prog Z :=
  match todo with
  | O => Ret i
  | S todo => r ← sys (SYS_fork 1 1 5 5); if bool_decide (0 < r) then Ret i else stress_forks todo (i + 1)
  end.

Definition stressfs_main : prog unit :=
  printf 1 (ln "stressfs starting") [] ;;
  i ← stress_forks 4 0;
  printf 1 (ln "write %d") [PInt i] ;;
  let path := str "stressfs" ++ [48 + i] in
  fd ← sys (SYS_open path 0x202);
  pfor (seq 0 20) (λ _, sys (SYS_write fd (replicate 512 97)) ;; Ret tt) ;;
  sys (SYS_close fd) ;;
  printf 1 (ln "read") [] ;;
  fd ← sys (SYS_open path 0);
  pfor (seq 0 20) (λ _, sys (SYS_read fd 512) ;; Ret tt) ;;
  sys (SYS_close fd) ;;
  sys SYS_wait ;;
  Exit.

(** [printf] of this program writes its format. *)
Definition fprint (fd : Z) (s : list Z) : prog unit := sys (SYS_write fd s) ;; Ret tt.

Fixpoint fork_loop (todo : nat) (n : Z) : prog Z :=
  match todo with
  | O => Ret n
  | S todo =>
    pid ← sys (SYS_fork 1 1 10 10);
    if bool_decide (pid < 0) then Ret n else if bool_decide (pid = 0) then Exit else fork_loop todo (n + 1)
  end.

Definition forktest : prog unit :=
  fprint 1 (ln "fork test") ;;
  n ← fork_loop 1000 0;
  if bool_decide (n = 1000) then fprint 1 (ln "fork claimed to work N times!") ;; Exit
  else
    pfor (seq 0 (Z.to_nat n)) (λ _,
      r ← sys SYS_wait; if bool_decide (r < 0) then fprint 1 (ln "wait stopped early") ;; Exit else Ret tt) ;;
    r ← sys SYS_wait;
    if bool_decide (r ≠ -1) then fprint 1 (ln "wait got too many") ;; Exit
    else fprint 1 (ln "fork test OK").

Definition forktest_main : prog unit := forktest ;; Exit.

(** ** usertests.c *)

(** [J] is a jitter read from the time stamp counter, here one value for each
    of its uses; the empty loops that burn time do nothing. *)
Definition work (J : nat → Z) (t c : Z) : prog unit :=
  let jit i := t + 2 * (J i mod 4 + 1) in
  sys (SYS_sleep (jit 0%nat)) ;;
  pfor (seq 1 50) (λ i, sys (SYS_print 2) ;; sys (SYS_sleep (jit i)) ;; Ret tt) ;;
  Exit.

Record procs := Procs { pc : Z; pd : Z; pt : Z; pp : Z; po : Z }.

Fixpoint await_all (fuel : nat) : prog unit :=
  match fuel with
  | O => Stuck
  | S fuel => r ← sys SYS_wait; if bool_decide (r ≠ -1) then await_all fuel else Ret tt
  end.

Definition usertests_main (J : nat → Z) : prog unit :=
  sys (SYS_print 0) ;;
  sys (SYS_freeze 1) ;;
  pfor [Procs 2 15 15 5 5; Procs 3 20 25 4 4; Procs 4 22 30 2 3] (λ p,
    r ← sys (SYS_fork (pd p) (pc p) (pp p) (po p));
    if bool_decide (r = 0) then work J (pt p) (pc p) else Ret tt) ;;
  sys (SYS_freeze 0) ;;
  await_all fuel ;;
  sys (SYS_print 1) ;;
  Exit.
End programs.

(** ** Copying and counting *)

Section filters.
Context {S : Type} (os : call → S → Z * list Z * S) (fd : Z) `{!Stream os fd}.

Lemma uwp_cat_loop fuel : ∀ s, (length (rest s) < fuel)%nat →
  uwp os (cat_loop fuel fd) s (λ o s', o = Some 0 ∧ rest s' = [] ∧ out s' = out s ++ rest s).
Proof.
  induction fuel as [|fuel IH]; intros s Hf; [lia|]. cbn [cat_loop]. unfold sysd. simpl pbind.
  apply (uwp_read _ _); [lia|]. intros d s1 Hr1 Ho1 Hl1 He1. cbn [fst snd]. rewrite Nat2Z.id, firstn_all. case_bool_decide as Hd.
  - apply (uwp_write _ fd). intros s2 Hr2 Ho2. rewrite Hr1, length_app in Hf.
    eapply uwp_mono; [apply IH; rewrite Hr2; lia|]. intros o s3 (-> & Hr3 & Ho3). split; [done|]. split; [done|].
    by rewrite Ho3, Ho2, Ho1, Hr2, Hr1, <-app_assoc.
  - assert (d = []) as -> by (by destruct d). apply uwp_ret. specialize (He1 eq_refl). rewrite He1 in *.
    split; [done|]. split; [by destruct (rest s1)|]. by rewrite Ho1, app_nil_r.
Qed.

(** Words, as the places where one starts. *)
Definition blank (b : Z) : bool := bool_decide (b ∈ [32; 13; 9; 10; 11]).
Fixpoint words (before : bool) (l : list Z) : Z :=
  match l with
  | [] => 0
  | b :: l => (if negb (blank b) && before then 1 else 0) + words (blank b) l
  end.
Definition lines (l : list Z) : Z := Z.of_nat (length (filter (λ b, b = NL) l)).

Lemma words_range l : ∀ before, 0 ≤ words before l ≤ Z.of_nat (length l).
Proof. induction l as [|b l IH]; intros before; simpl; [lia|]. specialize (IH (blank b)). destruct (negb _ && _); lia. Qed.

Lemma count_all l : ∀ k, 0 ≤ wl k → 0 ≤ ww k → 0 ≤ wch k →
  wl k + Z.of_nat (length l) < 2 ^ 31 → ww k + Z.of_nat (length l) < 2 ^ 31 → wch k + Z.of_nat (length l) < 2 ^ 31 →
  foldl count1 k l = Counts (wl k + lines l) (ww k + words (negb (inword k)) l) (wch k + Z.of_nat (length l))
    (match list.last l with Some b => negb (blank b) | None => inword k end).
Proof.
  assert (∀ z, 0 ≤ z < 2 ^ 31 → i32 z = z) as Hi by (intros z Hz; unfold i32; rewrite Z.mod_small; lia).
  induction l as [|b l IH]; intros k H1 H2 H3 H4 H5 H6; simpl foldl.
  - unfold lines. simpl. rewrite !Z.add_0_r. by destruct k.
  - rewrite length_cons in *. rewrite last_cons. unfold lines, words. fold words. rewrite filter_cons.
    assert (count1 k b = Counts (wl k + if decide (b = NL) then 1 else 0) (ww k + if negb (blank b) && negb (inword k) then 1 else 0)
      (wch k + 1) (negb (blank b))) as ->.
    { unfold count1, strchr_list, blank. rewrite (Hi (wch k + 1)) by lia. destruct (decide (b = NL)) as [Hb|Hb].
      - rewrite (bool_decide_eq_true_2 (b = NL)) by done. rewrite Hi by lia. subst b. simpl. by rewrite Z.add_0_r.
      - rewrite (bool_decide_eq_false_2 (b = NL)) by done. rewrite Z.add_0_r. case_bool_decide; simpl; [by rewrite Z.add_0_r|].
        destruct (inword k); simpl; [by rewrite Z.add_0_r|by rewrite Hi by lia]. }
    assert (0 ≤ (if decide (b = NL) then 1 else 0) ≤ 1) as Ha by (case_decide; lia).
    assert (0 ≤ (if negb (blank b) && negb (inword k) then 1 else 0) ≤ 1) as Hw by (destruct (negb _ && _); lia).
    rewrite IH by (cbn [wl ww wch]; lia). cbn [wl ww wch inword].
    rewrite negb_involutive. f_equal.
    + unfold lines. destruct (decide (b = NL)); simpl length; lia.
    + lia.
    + lia.
    + by destruct (list.last l).
Qed.

Lemma uwp_wc_loop fuel : ∀ s k, (length (rest s) < fuel)%nat →
  uwp os (wc_loop fuel fd k) s (λ o s', o = Some (0, foldl count1 k (rest s)) ∧ rest s' = [] ∧ out s' = out s).
Proof.
  induction fuel as [|fuel IH]; intros s k Hf; [lia|]. cbn [wc_loop]. unfold sysd. simpl pbind.
  apply (uwp_read _ _); [lia|]. intros d s1 Hr1 Ho1 Hl1 He1. cbn [fst snd]. rewrite Nat2Z.id, firstn_all. case_bool_decide as Hd.
  - rewrite Hr1, length_app in Hf. eapply uwp_mono; [apply IH; lia|]. intros o s3 (-> & Hr3 & Ho3).
    rewrite Hr1, foldl_app. by rewrite Ho3, Ho1.
  - assert (d = []) as -> by (by destruct d). apply uwp_ret. specialize (He1 eq_refl). rewrite He1 in *.
    split; [done|]. split; [by destruct (rest s1)|done].
Qed.
End filters.

(** ** What the filters do *)

Definition dec (n : Z) : list Z := reverse (intbuf n 10 true).

Section claims.
Context {S : Type} (os : call → S → Z * list Z * S) (fd : Z) `{!Stream os fd}.

(** [cat] copies its input to the standard output, all of it and nothing
    else, however many reads it takes. *)
Theorem cat_copies fuel s : (length (rest s) < fuel)%nat →
  uwp os (cat fuel fd) s (λ o s', o = Some tt ∧ rest s' = [] ∧ out s' = out s ++ rest s).
Proof.
  intros Hf. unfold cat. apply uwp_bind. eapply uwp_mono; [by apply (uwp_cat_loop os fd)|]. intros o s' (-> & H). by apply uwp_ret.
Qed.

(** [wc] prints the number of newlines, of words and of bytes of its
    input, where a word starts at each byte that is not white space and comes
    first or after white space, wherever the reads cut the input. *)
Theorem wc_counts fuel s name : (length (rest s) < fuel)%nat → Z.of_nat (length (rest s)) < 2 ^ 31 → Forall (λ c, 0 ≤ c < 256) name →
  uwp os (wc fuel fd name) s (λ o s', o = Some tt ∧ rest s' = [] ∧
    out s' = out s ++ dec (lines (rest s)) ++ [32] ++ dec (words true (rest s)) ++ [32] ++
      dec (Z.of_nat (length (rest s))) ++ [32] ++ name ++ [NL]).
Proof.
  intros Hf Hlen Hname. unfold wc. apply uwp_bind. eapply uwp_mono; [by apply (uwp_wc_loop os fd)|]. intros o s1 (-> & Hr1 & Ho1).
  cbn [fst snd]. rewrite bool_decide_eq_false_2 by lia. rewrite count_all by (simpl; lia). cbn [wl ww wch inword negb]. rewrite !Z.add_0_l.
  pose proof (words_range (rest s) true) as Hw.
  assert (0 ≤ lines (rest s) ≤ Z.of_nat (length (rest s))) as Hl by (unfold lines; pose proof (length_filter (λ b, b = NL) (rest s)); lia).
  assert (∀ z, 0 ≤ z < 2 ^ 31 → i32 z = z) as Hi by (intros z Hz; unfold i32; rewrite Z.mod_small; lia).
  eapply (uwp_printf_loop os fd); [|repeat constructor; done|reflexivity|].
  { unfold ln, str, NL. repeat constructor; lia. }
  intros s2 Hr2 Ho2. split; [done|]. rewrite Hr2, Ho2, Ho1, Hr1. split; [done|]. rewrite !Hi by lia. unfold dec. simpl. by rewrite <-?app_assoc.
Qed.
End claims.

(** A system whose reads return at most so many bytes each, one more than
    the next of [cuts], and then all that is asked for. *)
Record pieces := Pieces { content : list Z; cuts : list nat; screen : list Z }.

Definition demo_os (c : call) (s : pieces) : Z * list Z * pieces :=
  match c with
  | SYS_read _ n =>
    let k := match cuts s with [] => Z.to_nat n | c :: _ => Nat.min (Z.to_nat n) (S c) end in
    let d := take k (content s) in
    (Z.of_nat (length d), d, Pieces (drop k (content s)) (tail (cuts s)) (screen s))
  | SYS_write _ bs => (Z.of_nat (length bs), [], Pieces (content s) (cuts s) (screen s ++ bs))
  | _ => (-1, [], s)
  end.

#[export] Instance demo_stream fd : Stream demo_os fd.
Proof.
  refine {| rest := content; out := screen |}.
  - intros n s Hn. simpl. eexists _, _. split; [reflexivity|]. simpl. split; [by rewrite take_drop|]. split; [done|].
    rewrite length_take. split; [destruct (cuts s); lia|]. intros Hd. destruct (content s) as [|b l]; [done|].
    destruct (Z.to_nat n) eqn:Hz; [lia|]. by destruct (cuts s).
  - intros bs s. simpl. by eexists.
Defined.

Lemma cat_copies_witness :
  ∃ s', run demo_os (cat 10 0) (Pieces [104; 105; 10] [0%nat] []) = Some (Some tt, s') ∧ screen s' = [104; 105; 10].
Proof.
  destruct (uwp_run _ _ _ _ (cat_copies demo_os 0 (Stream0 := demo_stream 0) 10 (Pieces [104; 105; 10] [0%nat] []) ltac:(simpl; lia))) as (o & s' & Hs & -> & _ & Ho).
  exists s'. split; [exact Hs|exact Ho].
Defined.

(** "a b\n" in two pieces: one line, two words, four bytes. *)
Lemma wc_counts_witness :
  ∃ s', run demo_os (wc 10 0 [120]) (Pieces [97; 32; 98; 10] [0%nat] []) = Some (Some tt, s') ∧
    screen s' = [49; 32; 50; 32; 52; 32; 120; 10].
Proof.
  destruct (uwp_run _ _ _ _ (wc_counts demo_os 0 (Stream0 := demo_stream 0) 10 (Pieces [97; 32; 98; 10] [0%nat] []) [120] ltac:(simpl; lia) ltac:(simpl; lia)
    ltac:(repeat constructor; lia))) as (o & s' & Hs & -> & _ & Ho).
  exists s'. split; [exact Hs|exact Ho].
Defined.

(** ** Numbers printed and read back *)

Lemma atoi_digits l : ∀ fuel i n (m : mem), Forall (λ c, 48 ≤ c ≤ 57) l → (∀ j c, (l ++ [0]) !! j = Some c → m (i + Z.of_nat j) = c) →
  (length l < fuel)%nat → 0 ≤ n → dval l n < 2 ^ 31 → atoi_loop fuel m i n = Some (dval l n).
Proof.
  assert (∀ l n, Forall (λ c, 48 ≤ c ≤ 57) l → 0 ≤ n → n ≤ dval l n) as Hmono.
  { clear. induction l as [|c l IH]; intros n Hl Hn; simpl; [done|]. apply list.Forall_cons in Hl as [Hc Hl].
    etransitivity; [|apply IH; [done|lia]]. lia. }
  induction l as [|c l IH]; intros fuel i n m Hl Hm Hf Hn Hd; (destruct fuel as [|fuel]; [simpl in Hf; lia|]); cbn [atoi_loop].
  - pose proof (Hm 0%nat 0 eq_refl) as H0. rewrite Z.add_0_r in H0. rewrite H0. by rewrite bool_decide_eq_false_2 by lia.
  - apply list.Forall_cons in Hl as [Hc Hl]. pose proof (Hm 0%nat c eq_refl) as H0. rewrite Z.add_0_r in H0. rewrite H0.
    rewrite bool_decide_eq_true_2 by lia. change (dval (c :: l) n) with (dval l (n * 10 + (c - 48))) in *.
    pose proof (Hmono l (n * 10 + (c - 48)) Hl ltac:(lia)) as Hle.
    assert (i32 (n * 10 + c - 48) = n * 10 + (c - 48)) as -> by (unfold i32; rewrite Z.mod_small; lia).
    apply IH; [done| |simpl in Hf; lia|lia|done]. intros j d Hj. replace (i + 1 + Z.of_nat j) with (i + Z.of_nat (S j)) by lia. by apply Hm.
Qed.

(** What [printf] prints for a number that is not negative, [atoi] reads
    back, for every [int]. *)
Theorem printint_atoi n : 0 ≤ n < 2 ^ 31 → atoi_list (reverse (intbuf n 10 true)) = n.
Proof.
  intros Hn. unfold intbuf. rewrite bool_decide_eq_false_2 by lia. cbn [andb]. rewrite app_nil_r, u32_small by lia.
  destruct (digits_val 32 n ltac:(lia) ltac:(lia)) as [Hv Hd]. set (l := reverse (digits 32 n 10)) in *.
  assert (Forall (λ c, 48 ≤ c ≤ 57) l) as Hl by by apply Forall_reverse. unfold atoi_list, atoi.
  rewrite (atoi_digits l (S (length l)) 0 0); [by rewrite Hv|done| |lia|lia|rewrite Hv; lia].
  intros j c Hj. unfold mem_of. rewrite decide_True by lia. rewrite Z.add_0_l, Z.sub_0_r, Nat2Z.id, Hj. simpl. apply u8_id.
  apply list_elem_of_lookup_2, elem_of_app in Hj as [Hj| ->%list_elem_of_singleton]; [|lia].
  rewrite list.Forall_forall in Hl. specialize (Hl c Hj). simpl in Hl. lia.
Qed.

Lemma printint_atoi_witness : atoi_list (reverse (intbuf 2147483647 10 true)) = 2147483647.
Proof. apply printint_atoi. lia. Defined.
