(* ===== verification/Grep.v ===== *)
(** * grep (grep.c)

    The matcher of Kernighan and Pike against the language of a pattern, and
    the loop that cuts the input into lines. *)

From S2P Require Import Prelude CString Kalloc Log Fs User Progs.

Local Open Scope Z_scope.

(** ** The matcher *)

Definition STAR : Z := 42.
Definition DOT : Z := 46.
Definition DOLLAR : Z := 36.
Definition CARET : Z := 94.

(** [matchstar(c, re, text)], with [matchhere(re, _)] for the pattern. *)
Definition matchstar (here : list Z → bool) (c : Z) : list Z → bool :=
  fix go text :=
    if here text then true
    else match text with
         | [] => false
         | t :: text => if bool_decide (t = c ∨ c = DOT) then go text else false
         end.

Fixpoint matchhere (re text : list Z) : bool :=
  match re with
  | [] => true
  | c :: re1 =>
    let one :=
      match text with
      | [] => false
      | t :: text => if bool_decide (c = DOT ∨ c = t) then matchhere re1 text else false
      end in
    match re1 with
    | [] => if bool_decide (c = DOLLAR) then bool_decide (text = []) else one
    | d :: re2 => if bool_decide (d = STAR) then matchstar (matchhere re2) c text else one
    end
  end.

(** The loop of [match]. *)
Fixpoint search (re text : list Z) : bool :=
  if matchhere re text then true else match text with [] => false | _ :: text => search re text end.

Definition match_ (re text : list Z) : bool :=
  match re with
  | c :: re' => if bool_decide (c = CARET) then matchhere re' text else search re text
  | [] => search re text
  end.

(** ** The loop over the input *)

Section grep.
Local Open Scope prog_scope.
Context (pattern : list Z).

(** [strchr(p, '\n')]: the place of the newline, unless a null comes first. *)
Fixpoint find_nl (l : list Z) (i : nat) : option nat :=
  match l with
  | [] => None
  | c :: l => if bool_decide (c = 0) then None else if bool_decide (c = NL) then Some i else find_nl l (S i)
  end.

(** The lines of [buf] from [p] on; what [p] and [buf] are in the end. *)
Fixpoint grep_lines (fuel : nat) (buf : list Z) (p : nat) : prog (list Z * nat) :=
  match fuel with
  | O => Stuck
  | S fuel =>
    match find_nl (drop p buf) p with
    | None => Ret (buf, p)
    | Some q =>
      let buf := <[q := 0]> buf in
      if match_ pattern (cstr (drop p buf)) then
        let buf := <[q := NL]> buf in
        sys (SYS_write 1 (take (q + 1 - p) (drop p buf))) ;; grep_lines fuel buf (q + 1)
      else grep_lines fuel buf (q + 1)
    end
  end.

(** [buf] is static: what it holds at the end is there for the next call. *)
Fixpoint grep_loop (fuel : nat) (fd : Z) (buf : list Z) (m : nat) : prog (list Z) :=
  match fuel with
  | O => Stuck
  | S fuel =>
    r ← sysd (SYS_read fd (1024 - Z.of_nat m - 1));
    if bool_decide (0 < r.1) then
      let buf := put_bytes buf m (take (Z.to_nat r.1) r.2) in
      let m := (m + Z.to_nat r.1)%nat in
      let buf := <[m := 0]> buf in
      bp ← grep_lines (S (length buf)) buf 0;
      let '(buf, p) := bp in
      let m := if bool_decide (p = 0%nat) then 0%nat else m in
      if bool_decide (0 < m)%nat then
        let m := (m - p)%nat in
        grep_loop fuel fd (put_bytes buf 0 (take m (drop p buf))) m
      else grep_loop fuel fd buf m
    else Ret buf
  end.

Definition grep (fuel : nat) (buf : list Z) (fd : Z) : prog (list Z) := grep_loop fuel fd buf 0.

Fixpoint grep_files (fuel : nat) (buf : list Z) (files : list (list Z)) : prog unit :=
  match files with
  | [] => Ret tt
  | a :: files =>
    fd ← sys (SYS_open a 0);
    if bool_decide (fd < 0) then printf 1 (ln "grep: cannot open %s") [PStr (Some a)] ;; Exit
    else buf ← grep fuel buf fd; sys (SYS_close fd) ;; grep_files fuel buf files
  end.
End grep.

Section main.
Local Open Scope prog_scope.
Definition grep_main (fuel : nat) (argv : list (list Z)) : prog unit :=
  match argv with
  | _ :: pattern :: files =>
    (if bool_decide (files = []) then grep pattern fuel (replicate 1024 0) 0 ;; Ret tt
     else grep_files pattern fuel (replicate 1024 0) files) ;;
    Exit
  | _ => printf 2 (ln "usage: grep pattern [file ...]") [] ;; Exit
  end.
End main.

(** ** The language of a pattern *)

Inductive item := One (c : Z) | Star (c : Z) | End_.

Fixpoint items (re : list Z) : list item :=
  match re with
  | [] => []
  | c :: re1 =>
    match re1 with
    | [] => [if decide (c = DOLLAR) then End_ else One c]
    | d :: re2 => if decide (d = STAR) then Star c :: items re2 else One c :: items re1
    end
  end.

Definition fits (c t : Z) : Prop := c = DOT ∨ c = t.

(** [lang its s r]: the items match [s] when [r] follows. *)
Inductive lang : list item → list Z → list Z → Prop :=
  | lang_nil r : lang [] [] r
  | lang_end : lang [End_] [] []
  | lang_one c t its s r : fits c t → lang its s r → lang (One c :: its) (t :: s) r
  | lang_star c l its s r : Forall (fits c) l → lang its s r → lang (Star c :: its) (l ++ s) r.

Definition matches (its : list item) (text : list Z) : Prop := ∃ s r, text = s ++ r ∧ lang its s r.

Lemma matchstar_lang here its c :
  (∀ text, here text = true ↔ matches its text) → ∀ text, matchstar here c text = true ↔ matches (Star c :: its) text.
Proof.
  intros Hh text. split.
  - induction text as [|t text IH]; cbn [matchstar]; fold (matchstar here c).
    + destruct (here []) eqn:He; [|done]. intros _. apply Hh in He as (s & r & Ht & Hl). exists s, r. split; [done|].
      by apply (lang_star c [] its).
    + destruct (here (t :: text)) eqn:He.
      * intros _. apply Hh in He as (s & r & Ht & Hl). exists s, r. split; [done|]. by apply (lang_star c [] its).
      * case_bool_decide as Hf; [|done]. intros H. destruct (IH H) as (s & r & -> & Hl). inversion Hl as [| | |? l ? s' ? Hall Hl']; subst.
        exists (t :: l ++ s'), r. split; [done|]. apply (lang_star c (t :: l) its); [|done]. constructor; [|done]. unfold fits. destruct Hf; auto.
  - intros (s & r & -> & Hl). inversion Hl as [| | |? l ? s' ? Hall Hl']; subst. clear Hl. induction l as [|t l IH].
    + assert (here (s' ++ r) = true) as He by (apply Hh; by exists s', r). simpl. destruct (s' ++ r); cbn [matchstar]; by rewrite He.
    + apply list.Forall_cons in Hall as [Ht Hall]. cbn [matchstar app]. fold (matchstar here c). destruct (here _); [done|].
      rewrite bool_decide_eq_true_2; [by apply IH|]. destruct Ht; auto.
Qed.

Lemma matchhere_lang n : ∀ re text, (length re ≤ n)%nat → matchhere re text = true ↔ matches (items re) text.
Proof.
  induction n as [|n IH]; intros re text Hn.
  - destruct re; [|simpl in Hn; lia]. simpl. split; [|done]. intros _. exists [], text. split; [done|constructor].
  - destruct re as [|c [|d re2]].
    + simpl. split; [|done]. intros _. exists [], text. split; [done|constructor].
    + cbn [matchhere items]. destruct (decide (c = DOLLAR)) as [Hc|Hc].
      * rewrite (bool_decide_eq_true_2 (c = DOLLAR)) by done. rewrite bool_decide_eq_true. split.
        -- intros ->. exists [], []. split; [done|constructor].
        -- intros (s & r & -> & Hl). by inversion Hl.
      * rewrite (bool_decide_eq_false_2 (c = DOLLAR)) by done. destruct text as [|t text].
        -- split; [done|]. intros (s & r & Ht & Hl). inversion Hl; subst. done.
        -- rewrite bool_decide_decide. destruct (decide _) as [Hf|Hf].
           ++ split; [|done]. intros _. exists [t], text. split; [done|]. constructor; [done|constructor].
           ++ split; [done|]. intros (s & r & Ht & Hl). inversion Hl; subst. injection Ht as -> _. done.
    + change (matchhere (c :: d :: re2) text) with
        (if bool_decide (d = STAR) then matchstar (matchhere re2) c text
         else match text with [] => false | t :: text => if bool_decide (c = DOT ∨ c = t) then matchhere (d :: re2) text else false end).
      change (items (c :: d :: re2)) with (if decide (d = STAR) then Star c :: items re2 else One c :: items (d :: re2)).
      simpl in Hn. destruct (decide (d = STAR)) as [Hd|Hd].
      * rewrite bool_decide_eq_true_2 by done. apply matchstar_lang. intros t. apply IH. lia.
      * rewrite bool_decide_eq_false_2 by done. destruct text as [|t text].
        -- split; [done|]. intros (s & r & Ht & Hl). inversion Hl; subst. done.
        -- rewrite bool_decide_decide. destruct (decide _) as [Hf|Hf].
           ++ rewrite IH by (simpl; lia). split.
              ** intros (s & r & -> & Hl). exists (t :: s), r. split; [done|]. by constructor.
              ** intros (s & r & Ht & Hl). inversion Hl as [| |? ? ? s' ? ? Hl'|]; subst. injection Ht as _ ->. by exists s', r.
           ++ split; [done|]. intros (s & r & Ht & Hl). inversion Hl; subst. injection Ht as -> _. done.
Qed.

Lemma search_lang re text : search re text = true ↔ ∃ pre rest, text = pre ++ rest ∧ matches (items re) rest.
Proof.
  split.
  - induction text as [|t text IH]; cbn [search]; (destruct (matchhere re _) eqn:Hm; [intros _; eexists [], _; split; [reflexivity|]; by apply (matchhere_lang (length re))|]).
    + done.
    + intros H. destruct (IH H) as (pre & rest & -> & Hr). by exists (t :: pre), rest.
  - intros (pre & rest & -> & Hr). apply (matchhere_lang (length re)) in Hr; [|done]. induction pre as [|t pre IH].
    + simpl. destruct rest; cbn [search]; by rewrite Hr.
    + cbn [search app]. destruct (matchhere re (t :: pre ++ rest)); [done|exact IH].
Qed.

(** C29: [match] decides the language of the pattern: a pattern that starts with
    a caret matches a text some beginning of which is in the language, another
    one a text some part of which is, where a character stands for itself, a
    dot for any, a character and a star for any number of them, and a dollar
    at the end for the end of the text. *)
Theorem match_decides re text : match_ re text = true ↔
  if decide (head re = Some CARET) then matches (items (tail re)) text
  else ∃ pre rest, text = pre ++ rest ∧ matches (items re) rest.
Proof.
  destruct re as [|c re]; [apply search_lang|]. unfold match_. cbn [head tail]. destruct (decide (c = CARET)) as [->|Hc].
  - rewrite bool_decide_eq_true_2, decide_True by done. by apply (matchhere_lang (length re)).
  - rewrite bool_decide_eq_false_2 by done. rewrite decide_False by congruence. apply search_lang.
Qed.

(** ** Lines *)

Definition plain (l : list Z) : Prop := Forall (λ c, c ≠ 0 ∧ c ≠ NL) l.
Definition joined (ls : list (list Z)) : list Z := ls ≫= λ l, l ++ [NL].

Lemma joined_app ls ls' : joined (ls ++ ls') = joined ls ++ joined ls'.
Proof. apply bind_app. Qed.

Lemma length_joined ls : (length ls ≤ length (joined ls))%nat.
Proof. induction ls as [|l ls IH]; [done|]. change (joined (l :: ls)) with ((l ++ [NL]) ++ joined ls). rewrite !length_app. simpl. lia. Qed.

Lemma find_nl_plain l r : ∀ i, plain l → find_nl (l ++ NL :: r) i = Some (i + length l)%nat.
Proof.
  induction l as [|c l IH]; intros i Hl; simpl.
  - f_equal. lia.
  - apply list.Forall_cons in Hl as [[H0 Hn] Hl]. rewrite !bool_decide_eq_false_2 by done. rewrite IH by done. f_equal. lia.
Qed.

Lemma find_nl_none l r : ∀ i, Forall (λ c, c ≠ NL) l → find_nl (l ++ 0 :: r) i = None.
Proof.
  induction l as [|c l IH]; intros i Hl; simpl; [done|]. apply list.Forall_cons in Hl as [Hn Hl].
  case_bool_decide; [done|]. rewrite bool_decide_eq_false_2 by done. by apply IH.
Qed.

Lemma cstr_plain l r : plain l → cstr (l ++ 0 :: r) = l.
Proof.
  induction l as [|c l IH]; intros Hl; simpl; [done|]. apply list.Forall_cons in Hl as [[H0 Hn] Hl].
  rewrite bool_decide_eq_false_2 by done. by rewrite IH.
Qed.

Section lines.
Context {W : Type} (os : call → W → Z * list Z * W) (fd : Z) `{!Stream os fd} (pattern : list Z).

Definition selected (ls : list (list Z)) : list (list Z) := filter (λ l, match_ pattern l = true) ls.

Lemma uwp_grep_lines ls : ∀ fuel buf p pre v z s,
  buf = pre ++ joined ls ++ v ++ 0 :: z → length pre = p → Forall plain ls → Forall (λ c, c ≠ NL) v → (length ls < fuel)%nat →
  uwp os (grep_lines pattern fuel buf p) s (λ o s', rest s' = rest s ∧ out s' = out s ++ joined (selected ls) ∧
    ∃ pre', o = Some (pre' ++ v ++ 0 :: z, (p + length (joined ls))%nat) ∧ length pre' = (p + length (joined ls))%nat).
Proof.
  induction ls as [|l ls IH]; intros fuel buf p pre v z s Hb Hp Hls Hv Hf; (destruct fuel as [|fuel]; [simpl in Hf; lia|]); cbn [grep_lines].
  - rewrite Hb, drop_app_length' by done. simpl. rewrite find_nl_none by done. apply uwp_ret. split; [done|]. split; [by rewrite app_nil_r|].
    exists pre. rewrite Nat.add_0_r. by split.
  - apply list.Forall_cons in Hls as [Hl Hls]. change (joined (l :: ls)) with ((l ++ [NL]) ++ joined ls) in Hb. rewrite <-!app_assoc in Hb. cbn [app] in Hb.
    rewrite Hb, drop_app_length' by done. rewrite find_nl_plain by done.
    assert (∀ c, <[(p + length l)%nat := c]> (pre ++ l ++ NL :: joined ls ++ v ++ 0 :: z) = pre ++ l ++ c :: joined ls ++ v ++ 0 :: z) as Hset.
    { intros c. rewrite app_assoc, insert_app_r_alt by (rewrite length_app; lia). rewrite length_app, Hp, Nat.sub_diag. simpl. by rewrite <-app_assoc. }
    rewrite Hset. rewrite drop_app_length' by done. rewrite cstr_plain by done.
    assert (∀ c, pre ++ l ++ c :: joined ls ++ v ++ 0 :: z = (pre ++ l ++ [c]) ++ joined ls ++ v ++ 0 :: z) as Hsplit
      by (intros c; by rewrite <-!app_assoc).
    assert (∀ c : Z, length (pre ++ l ++ [c]) = (p + length l + 1)%nat) as Hlen by (intros c; rewrite !length_app; simpl; lia).
    unfold selected. rewrite filter_cons. simpl in Hf.
    assert (length (joined (l :: ls)) = length l + 1 + length (joined ls))%nat as Hj.
    { change (joined (l :: ls)) with ((l ++ [NL]) ++ joined ls). rewrite !length_app. simpl. lia. }
    rewrite Hj. replace (p + (length l + 1 + length (joined ls)))%nat with (p + length l + 1 + length (joined ls))%nat by lia.
    destruct (match_ pattern l) eqn:Hm.
    + rewrite decide_True by done. assert (<[(p + length l)%nat := NL]> (pre ++ l ++ 0 :: joined ls ++ v ++ 0 :: z) = pre ++ l ++ NL :: joined ls ++ v ++ 0 :: z) as ->.
      { rewrite app_assoc, insert_app_r_alt by (rewrite length_app; lia). rewrite length_app, Hp, Nat.sub_diag. simpl. by rewrite <-app_assoc. }
      rewrite drop_app_length' by done.
      assert (take (p + length l + 1 - p) (l ++ NL :: joined ls ++ v ++ 0 :: z) = l ++ [NL]) as ->.
      { replace (p + length l + 1 - p)%nat with (length (l ++ [NL])) by (rewrite length_app; simpl; lia).
        replace (l ++ NL :: joined ls ++ v ++ 0 :: z) with ((l ++ [NL]) ++ joined ls ++ v ++ 0 :: z) by by rewrite <-app_assoc. apply take_app_length. }
      unfold sys. simpl pbind. apply (uwp_write _ fd). intros s1 Hr1 Ho1.
      eapply uwp_mono; [apply (IH fuel _ _ (pre ++ l ++ [NL]) v z s1); [apply Hsplit|apply Hlen|done|done|lia]|].
      intros o s2 (Hr2 & Ho2 & Hpre). split; [by rewrite Hr2|]. split; [|done]. rewrite Ho2, Ho1, <-app_assoc. f_equal.
    + rewrite decide_False by done.
      eapply uwp_mono; [apply (IH fuel _ _ (pre ++ l ++ [0]) v z s); [apply Hsplit|apply Hlen|done|done|lia]|]. done.
Qed.

Lemma no_nl_line l r u : Forall (λ c, c ≠ NL) u → u = l ++ NL :: r → False.
Proof. intros Hu ->. rewrite Forall_app, list.Forall_cons in Hu. by destruct Hu as (_ & ? & _). Qed.

(** The part of the input that is in the buffer, cut at its last newline. *)
Lemma cut_lines ls tl : ∀ b r, b ++ r = joined ls ++ tl → Forall plain ls → Forall (λ c, c ≠ NL) tl →
  ∃ ls1 ls2 v, ls = ls1 ++ ls2 ∧ b = joined ls1 ++ v ∧ Forall (λ c, c ≠ NL) v ∧ v ++ r = joined ls2 ++ tl.
Proof.
  induction ls as [|l ls IH]; intros b r Hb Hls Htl.
  - exists [], [], b. split; [done|]. split; [done|]. split; [|done]. simpl in Hb. rewrite <-Hb in Htl. apply Forall_app in Htl. apply Htl.
  - apply list.Forall_cons in Hls as [Hl Hls]. change (joined (l :: ls)) with ((l ++ [NL]) ++ joined ls) in *.
    destruct (decide (length (l ++ [NL]) ≤ length b)%nat) as [Hle|Hgt].
    + rewrite <-app_assoc in Hb. assert (b = (l ++ [NL]) ++ drop (length (l ++ [NL])) b) as Hbe.
      { rewrite <-(take_drop (length (l ++ [NL])) b) at 1. f_equal. apply (f_equal (take (length (l ++ [NL])))) in Hb.
        by rewrite take_app_le, take_app_length in Hb. }
      set (b' := drop (length (l ++ [NL])) b) in *. rewrite Hbe, <-app_assoc in Hb. apply app_inv_head in Hb.
      destruct (IH b' r Hb Hls Htl) as (ls1 & ls2 & v & -> & Hb' & Hv & Hr). exists (l :: ls1), ls2, v. split; [done|]. split; [|done].
      rewrite Hbe, Hb'. change (joined (l :: ls1)) with ((l ++ [NL]) ++ joined ls1). by rewrite <-!app_assoc.
    + exists [], (l :: ls), b. split; [done|]. split; [done|]. split; [|done]. rewrite length_app in Hgt. simpl in Hgt.
      assert (b = take (length b) l) as ->.
      { apply (f_equal (take (length b))) in Hb. rewrite take_app_length, <-!app_assoc, take_app_le in Hb by lia. done. }
      apply Forall_take. eapply list.Forall_impl; [exact Hl|]. by intros c [_ ?].
Qed.

(** Reads of a file return all that was asked for, up to the end. *)
Context (Hfull : ∀ n s d s', 0 < n → os (SYS_read fd n) s = (Z.of_nat (length d), d, s') →
  length d = Nat.min (Z.to_nat n) (length (rest s))).

Lemma buffer_filled buf u d : length buf = 1024%nat → take (length u) buf = u → (length u + length d ≤ 1023)%nat →
  ∃ z, <[(length u + length d)%nat := 0]> (put_bytes buf (length u) d) = (u ++ d) ++ 0 :: z ∧ length ((u ++ d) ++ 0 :: z) = 1024%nat.
Proof.
  intros Hb Hu Hlen. unfold put_bytes. rewrite Hu. exists (drop (S (length u + length d)) buf).
  rewrite app_assoc, insert_app_r_alt by (rewrite length_app; lia). rewrite length_app, Nat.sub_diag.
  destruct (drop (length u + length d) buf) as [|x z] eqn:Hz; [apply (f_equal length) in Hz; rewrite length_drop in Hz; simpl in Hz; lia|].
  assert (drop (S (length u + length d)) buf = z) as ->.
  { replace (S (length u + length d)) with ((length u + length d) + 1)%nat by lia. by rewrite <-drop_drop, Hz. }
  simpl. split; [done|]. apply (f_equal length) in Hz. rewrite length_drop in Hz. simpl in Hz. rewrite !length_app. simpl. lia.
Qed.

(** A line that fits in the buffer is not cut. *)
Lemma whole_line u d r l ls tl : Forall (λ c, c ≠ NL) (u ++ d) → (u ++ d) ++ r = joined (l :: ls) ++ tl → (length l ≤ 1022)%nat →
  length d = Nat.min (1023 - length u) (length (d ++ r)) → (length u ≤ 1022)%nat → False.
Proof.
  intros Hn Ht Hl Hd Hu. change (joined (l :: ls)) with ((l ++ [NL]) ++ joined ls) in Ht. rewrite <-!app_assoc in Ht. cbn [app] in Ht.
  rewrite app_assoc in Ht. rewrite length_app in Hd. apply (f_equal (lookup (length l))) in Ht.
  rewrite (list_lookup_middle l (joined ls ++ tl) NL) in Ht by done. destruct (decide (length l < length (u ++ d))%nat) as [Hlt|Hge].
  - rewrite lookup_app_l in Ht by done. apply list_elem_of_lookup_2 in Ht. rewrite list.Forall_forall in Hn. by apply (Hn NL).
  - rewrite length_app in Hge. assert (r = []) as -> by (destruct r; [done|simpl in Hd; lia]).
    rewrite app_nil_r, lookup_ge_None_2 in Ht by (rewrite length_app; lia). done.
Qed.

Lemma uwp_grep_loop fuel : ∀ s buf u ls tl,
  length buf = 1024%nat → take (length u) buf = u → (length u ≤ 1022)%nat →
  u ++ rest s = joined ls ++ tl → Forall (λ l, plain l ∧ (length l ≤ 1022)%nat) ls → Forall (λ c, c ≠ NL) tl → Forall (λ c, c ≠ NL) u →
  (length (rest s) < fuel)%nat →
  uwp os (grep_loop pattern fuel fd buf (length u)) s (λ o s', is_Some o ∧ out s' = out s ++ joined (selected ls)).
Proof.
  induction fuel as [|fuel IH]; intros s buf u ls tl Hb Hu Hul Ht Hls Htl Hun Hf; [lia|]. cbn [grep_loop]. unfold sysd. cbn [pbind].
  apply uwp_call. destruct (st_read (1024 - Z.of_nat (length u) - 1) s ltac:(lia)) as (d & s1 & Hos & Hr1 & Ho1 & Hl1 & He1). rewrite Hos.
  apply Hfull in Hos; [|lia]. replace (Z.to_nat (1024 - Z.of_nat (length u) - 1)) with (1023 - length u)%nat in Hos by lia.
  cbn [fst snd]. rewrite Nat2Z.id, firstn_all. case_bool_decide as Hd.
  - destruct (buffer_filled buf u d Hb Hu ltac:(lia)) as (z & Hz & Hzl). rewrite Hz, Hzl.
    rewrite Hr1 in Ht, Hos, Hf. rewrite app_assoc in Ht. assert (Forall plain ls) as Hpl by (eapply list.Forall_impl; [exact Hls|by intros l [? _]]).
    destruct (cut_lines ls tl (u ++ d) (rest s1) Ht Hpl Htl) as (ls1 & ls2 & v & -> & Hud & Hv & Hvr).
    assert (length (joined ls1) + length v = length u + length d)%nat as Hlen by (rewrite <-!length_app; by rewrite Hud).
    pose proof (length_joined ls1) as Hjl.
    apply Forall_app in Hpl as [Hpl1 Hpl2]. apply Forall_app in Hls as [Hls1 Hls2]. apply uwp_bind.
    eapply uwp_mono; [apply (uwp_grep_lines ls1 _ _ 0 [] v z s1); [|done|done|done|lia]|].
    { simpl. by rewrite Hud, <-app_assoc. }
    intros o s2 (Hr2 & Ho2 & pre' & -> & Hpre). simpl in Hpre. cbn [Nat.add]. unfold selected. rewrite list.filter_app, joined_app.
    rewrite length_app in Hf. assert (length d ≠ 0)%nat as Hd0 by lia.
    assert (length (pre' ++ v ++ 0 :: z) = 1024%nat) as Hbl.
    { rewrite <-Hzl, Hud, !length_app, Hpre. simpl. lia. }
    destruct (decide (length (joined ls1) = 0%nat)) as [H0|H0].
    + rewrite (bool_decide_eq_true_2 (_ = 0%nat)) by done. rewrite (bool_decide_eq_false_2 (0 < 0)%nat) by lia.
      assert (ls1 = []) as -> by (destruct ls1; [done|cbn [length] in Hjl; lia]). simpl in Hud. subst v.
      destruct ls2 as [|l ls2].
      2: { exfalso. apply list.Forall_cons in Hls2 as [[_ Hl] _]. eapply (whole_line u d); [done|exact Ht|done|done|done]. }
      simpl in Hvr. rewrite <-Hvr in Htl. apply Forall_app in Htl as [_ Htl].
      eapply uwp_mono; [apply (IH s2 _ [] [] (rest s1)); [exact Hbl|done|simpl; lia|by rewrite Hr2|done|done|done|rewrite Hr2; lia]|].
      intros o s3 [? Ho3]. split; [done|]. by rewrite Ho3, Ho2, Ho1, !app_nil_r.
    + rewrite (bool_decide_eq_false_2 (_ = 0%nat)) by done. rewrite (bool_decide_eq_true_2 (0 < _)%nat) by lia.
      replace (length u + length d - length (joined ls1))%nat with (length v) by lia.
      rewrite (drop_app_length' pre') by done. rewrite take_app_length.
      eapply uwp_mono; [apply (IH s2 _ v ls2 tl)|].
      * unfold put_bytes. rewrite take_0, app_nil_l, length_app, length_drop, Hbl. lia.
      * unfold put_bytes. by rewrite take_0, app_nil_l, take_app_length.
      * lia.
      * by rewrite Hr2.
      * done.
      * done.
      * done.
      * rewrite Hr2. lia.
      * intros o s3 [? Ho3]. split; [done|]. by rewrite Ho3, Ho2, Ho1, <-!app_assoc.
  - assert (d = []) as -> by (by destruct d). apply uwp_ret. split; [done|]. rewrite (He1 eq_refl), app_nil_r in Ht.
    assert (ls = []) as ->; [|by rewrite Ho1, app_nil_r]. destruct ls as [|l ls]; [done|]. exfalso.
    change (joined (l :: ls)) with ((l ++ [NL]) ++ joined ls) in Ht. rewrite <-!app_assoc in Ht. by eapply no_nl_line.
Qed.

(** C30: [grep] of a file prints exactly the lines that match, in order, if no
    line is longer than 1022 bytes and there is no null; what follows the last
    newline is not looked at. *)
Theorem grep_selects fuel buf s ls tl :
  length buf = 1024%nat → rest s = joined ls ++ tl → Forall (λ l, plain l ∧ (length l ≤ 1022)%nat) ls → Forall (λ c, c ≠ NL) tl →
  (length (rest s) < fuel)%nat →
  uwp os (grep pattern fuel buf fd) s (λ o s', is_Some o ∧ out s' = out s ++ joined (selected ls)).
Proof. intros Hb Ht Hls Htl Hf. apply (uwp_grep_loop fuel s buf [] ls tl); try done. simpl. lia. Qed.
End lines.

(** Reads of a file that is not cut. *)
Definition file_os (c : call) (s : pieces) : Z * list Z * pieces := demo_os c (Pieces (content s) [] (screen s)).

#[export] Instance file_stream fd : Stream file_os fd.
Proof.
  refine {| rest := content; out := screen |}.
  - intros n s Hn. apply (st_read (Stream := demo_stream fd) n (Pieces (content s) [] (screen s)) Hn).
  - intros bs s. apply (st_write (Stream := demo_stream fd) bs (Pieces (content s) [] (screen s))).
Defined.

(** "ab\nb\na" and "^a". *)
Lemma grep_selects_witness :
  ∃ o s', run file_os (grep [94; 97] 10 (replicate 1024 0) 0) (Pieces [97; 98; 10; 98; 10; 97] [] []) = Some (o, s') ∧
    screen s' = [97; 98; 10].
Proof.
  assert (∀ n s d s', 0 < n → file_os (SYS_read 0 n) s = (Z.of_nat (length d), d, s') →
    length d = Nat.min (Z.to_nat n) (length (content s))) as Hfull by (intros n s d s' Hn [= _ <- _]; apply length_take).
  destruct (uwp_run _ _ _ _ (grep_selects file_os 0 (Stream0 := file_stream 0) [94; 97] Hfull 10 (replicate 1024 0)
    (Pieces [97; 98; 10; 98; 10; 97] [] []) [[97; 98]; [98]] [97] eq_refl eq_refl
    ltac:(repeat constructor; simpl; unfold NL; lia) ltac:(repeat constructor; unfold NL; lia) ltac:(simpl; lia))) as (o & s' & Hs & _ & Ho).
  exists o, s'. split; [exact Hs|]. etransitivity; [exact Ho|]. vm_compute. reflexivity.
Defined.

(** [grep] loses lines that reach it in pieces. When a read ends before the
    first newline in the buffer, what was read is thrown away: if "hello" comes
    in two pieces, as it may through a pipe, a pattern that the line matches
    finds nothing. *)
Theorem grep_drops_pieces :
  match_ [104; 101; 108] [104; 101; 108; 108; 111] = true ∧
  match run demo_os (grep [104; 101; 108] 10 (replicate 1024 0) 0) (Pieces [104; 101; 108; 108; 111; 10] [2%nat] []) with
  | Some (_, s') => content s' = [] ∧ screen s' = []
  | None => False
  end.
Proof. split; [vm_compute; reflexivity|]. vm_compute. split; reflexivity. Qed.
