(* ===== verification/Shell.v ===== *)
(** * The shell (sh.c)

    The parser works on the line in place: it moves a pointer over the
    characters and builds command nodes that point into the line, and fills
    the argument array of a node that redirections may already point at. The
    nodes are in a heap of their own, where [malloc] puts each new one behind
    the others; a pointer to a node is its index, a pointer into the line its
    offset. [runcmd] and [main] are trees of system calls. *)

From S2P Require Import Prelude CString Kalloc Log Fs User Progs.

Local Open Scope Z_scope.

Definition MAXARGS : nat := 10.

(** ** Commands *)

Inductive node :=
  | EXEC (argv eargv : list (option nat))
  | REDIR (cmd file efile : nat) (mode fd : Z)
  | PIPE (l r : nat)
  | LIST (l r : nat)
  | BACK (cmd : nat).

(** The characters of [whitespace] and [symbols]. *)
Definition whitespace : list Z := [32; 9; 13; 10; 11].
Definition symbols : list Z := [60; 124; 62; 38; 59; 40; 41].

Definition is_ws (c : Z) : bool := bool_decide (c ∈ whitespace).
Definition is_sym (c : Z) : bool := bool_decide (c ∈ symbols).
Definition is_word (c : Z) : bool := negb (is_ws c) && negb (is_sym c).

(** How many characters of [l] a loop that runs while [P] passes over. *)
Fixpoint span (P : Z → bool) (l : list Z) : nat :=
  match l with [] => 0 | c :: l => if P c then S (span P l) else 0 end.

Module Sh.
(** The pointer into the line, and the nodes. *)
Record st := St { pos : nat; heap : list node }.
Definition set_pos (p : nat) (s : st) : st := St p (heap s).
Definition set_heap (h : list node) (s : st) : st := St (pos s) h.

Section parser.
Context (buf : list Z).
Local Open Scope kern_scope.

(** The line ends with a null at [es]. *)
Definition es : nat := length buf.
Definition ch (i : nat) : Z := default 0 (buf !! i).

Definition skip (P : Z → bool) (i : nat) : nat := (i + span P (drop i buf))%nat.

(** The token, and where it starts and ends. *)
Definition gettoken : kM st (Z * nat * nat) :=
  s ← kget;
  let q := skip is_ws (pos s) in
  let c := ch q in
  let '(ret, eq) :=
    if bool_decide (c = 0) then (0, q)
    else if bool_decide (c ∈ [124; 40; 41; 59; 38; 60]) then (c, S q)
    else if bool_decide (c = 62) then if bool_decide (ch (S q) = 62) then (43, S (S q)) else (62, S q)
    else (97, skip is_word q) in
  kput (set_pos (skip is_ws eq) s) ;;
  kret (ret, q, eq).

Definition peek (toks : list Z) : kM st bool :=
  s ← kget;
  let q := skip is_ws (pos s) in
  kput (set_pos q s) ;;
  kret (negb (bool_decide (ch q = 0)) && bool_decide (ch q ∈ toks)).

(** The constructors [execcmd], [redircmd], [pipecmd], [listcmd], [backcmd]. *)
Definition alloc (n : node) : kM st nat :=
  s ← kget;
  kput (set_heap (heap s ++ [n]) s) ;;
  kret (length (heap s)).

Definition execcmd : kM st nat := alloc (EXEC (replicate MAXARGS None) (replicate MAXARGS None)).

(** [cmd->argv[i] = q; cmd->eargv[i] = eq]. *)
Definition set_arg (cmd i : nat) (q eq : option nat) : kM st unit :=
  kmodify (λ s, set_heap (alter (λ n,
    match n with EXEC a e => EXEC (<[i := q]> a) (<[i := eq]> e) | n => n end) cmd (heap s)) s).

Fixpoint parseredirs (fuel : nat) (cmd : nat) : kM st nat :=
  match fuel with
  | O => kfault
  | S fuel =>
    b ← peek [60; 62];
    if b : bool then
      t ← gettoken;
      f ← gettoken;
      kassert (bool_decide (f.1.1 = 97)) "missing file for redirection" ;;
      let '(_, q, eq) := f in
      cmd ← (if bool_decide (t.1.1 = 60) then alloc (REDIR cmd q eq 0 0)
             else if bool_decide (t.1.1 = 62) then alloc (REDIR cmd q eq 0x201 1)
             else if bool_decide (t.1.1 = 43) then alloc (REDIR cmd q eq 0x201 1)
             else kret cmd);
      parseredirs fuel cmd
    else kret cmd
  end.

(** The loop of [parseexec]: the command and the number of arguments. *)
Fixpoint parseargs (fuel : nat) (cmd argc ret : nat) : kM st (nat * nat) :=
  match fuel with
  | O => kfault
  | S fuel =>
    b ← peek [124; 41; 38; 59];
    if b : bool then kret (ret, argc)
    else
      t ← gettoken;
      let '(tok, q, eq) := t in
      if bool_decide (tok = 0) then kret (ret, argc)
      else
        kassert (bool_decide (tok = 97)) "syntax" ;;
        set_arg cmd argc (Some q) (Some eq) ;;
        let argc := S argc in
        kassert (negb (bool_decide (MAXARGS ≤ argc)%nat)) "too many args" ;;
        ret ← parseredirs (S es) ret;
        parseargs fuel cmd argc ret
  end.

(** The loop of [parseline] over the ampersands. *)
Fixpoint parsebacks (fuel : nat) (cmd : nat) : kM st nat :=
  match fuel with
  | O => kfault
  | S fuel =>
    b ← peek [38];
    if b : bool then gettoken ;; cmd ← alloc (BACK cmd); parsebacks fuel cmd else kret cmd
  end.

Fixpoint parseline (fuel : nat) : kM st nat :=
  match fuel with
  | O => kfault
  | S fuel =>
    cmd ← parsepipe fuel;
    cmd ← parsebacks (S es) cmd;
    b ← peek [59];
    if b : bool then gettoken ;; r ← parseline fuel; alloc (LIST cmd r) else kret cmd
  end
with parsepipe (fuel : nat) : kM st nat :=
  match fuel with
  | O => kfault
  | S fuel =>
    cmd ← parseexec fuel;
    b ← peek [124];
    if b : bool then gettoken ;; r ← parsepipe fuel; alloc (PIPE cmd r) else kret cmd
  end
with parseexec (fuel : nat) : kM st nat :=
  match fuel with
  | O => kfault
  | S fuel =>
    b ← peek [40];
    if b : bool then parseblock fuel
    else
      cmd ← execcmd;
      ret ← parseredirs (S es) cmd;
      r ← parseargs (S es) cmd 0 ret;
      set_arg cmd r.2 None None ;;
      kret r.1
  end
with parseblock (fuel : nat) : kM st nat :=
  match fuel with
  | O => kfault
  | S fuel =>
    b ← peek [40];
    kassert b "parseblock" ;;
    gettoken ;;
    cmd ← parseline fuel;
    b ← peek [41];
    kassert b "syntax - missing )" ;;
    gettoken ;;
    parseredirs (S es) cmd
  end.

(** Writing the nulls behind the words, into the line and its own null [m].
    The recursion follows the pointers, at most once through the heap. *)
Fixpoint nulterminate (fuel : nat) (h : list node) (cmd : nat) (m : list Z) : option (list Z) :=
  match fuel with
  | O => None
  | S fuel =>
    match h !! cmd with
    | None => None
    | Some (EXEC a e) =>
      (fix go (a e : list (option nat)) (m : list Z) :=
         match a, e with
         | Some _ :: a, Some p :: e => go a e (<[p := 0]> m)
         | None :: _, _ => Some m
         | _, _ => None
         end) a e m
    | Some (REDIR c _ ef _ _) => m ← nulterminate fuel h c m; Some (<[ef := 0]> m)
    | Some (PIPE l r) | Some (LIST l r) => m ← nulterminate fuel h l m; nulterminate fuel h r m
    | Some (BACK c) => nulterminate fuel h c m
    end
  end%stdpp.

(** Four levels of the grammar for each character. *)
Definition depth : nat := 4 * es + 4.

(** The node, and the line with the nulls; or the offset of what is left over. *)
Definition parsecmd : kM st (nat * list Z + nat) :=
  cmd ← parseline depth;
  peek [] ;;
  s ← kget;
  if bool_decide (pos s ≠ es) then kret (inr (pos s))
  else
    m ← kunwrap (nulterminate (S (length (heap s))) (heap s) cmd (buf ++ [0]));
    kret (inl (cmd, m)).
End parser.
End Sh.

(** ** Running commands *)

Section run.
Local Open Scope prog_scope.

Definition sh_panic {A} (s : list Z) : prog A := printf 2 (str "%s" ++ [NL]) [PStr (Some s)] ;; Exit.

Definition fork1 : prog Z :=
  pid ← sys (SYS_fork 1 1 0 0);
  if bool_decide (pid = -1) then sh_panic (str "fork") else Ret pid.

(** [m] is the memory that the pointers of the nodes point into. *)
Definition text_at (m : list Z) (q : nat) : list Z := cstr (drop q m).
Fixpoint args_at (m : list Z) (argv : list (option nat)) : list (list Z) :=
  match argv with Some q :: argv => text_at m q :: args_at m argv | _ => [] end.

Fixpoint runcmd (fuel : nat) (h : list node) (m : list Z) (cmd : nat) : prog unit :=
  match fuel with
  | O => Stuck
  | S fuel =>
    match h !! cmd with
    | None => Stuck
    | Some (EXEC argv _) =>
      match args_at m argv with
      | [] => Exit
      | (path :: _) as args =>
        sys (SYS_exec path args) ;; printf 2 (ln "exec %s failed") [PStr (Some path)] ;; Exit
      end
    | Some (REDIR c file _ mode fd) =>
      sys (SYS_close fd) ;;
      r ← sys (SYS_open (text_at m file) mode);
      if bool_decide (r < 0) then printf 2 (ln "open %s failed") [PStr (Some (text_at m file))] ;; Exit
      else runcmd fuel h m c ;; Exit
    | Some (LIST l r) =>
      pid ← fork1;
      (if bool_decide (pid = 0) then runcmd fuel h m l else Ret tt) ;;
      sys SYS_wait ;;
      runcmd fuel h m r ;;
      Exit
    | Some (PIPE l r) =>
      p ← sysd SYS_pipe;
      if bool_decide (p.1 < 0) then sh_panic (str "pipe")
      else
        let p0 := st_word p.2 0 in
        let p1 := st_word p.2 1 in
        pid ← fork1;
        (if bool_decide (pid = 0) then
           sys (SYS_close 1) ;; sys (SYS_dup p1) ;; sys (SYS_close p0) ;; sys (SYS_close p1) ;; runcmd fuel h m l
         else Ret tt) ;;
        pid ← fork1;
        (if bool_decide (pid = 0) then
           sys (SYS_close 0) ;; sys (SYS_dup p0) ;; sys (SYS_close p0) ;; sys (SYS_close p1) ;; runcmd fuel h m r
         else Ret tt) ;;
        sys (SYS_close p0) ;;
        sys (SYS_close p1) ;;
        sys SYS_wait ;;
        sys SYS_wait ;;
        Exit
    | Some (BACK c) =>
      pid ← fork1;
      (if bool_decide (pid = 0) then runcmd fuel h m c else Ret tt) ;;
      Exit
    end
  end.

(** [runcmd(parsecmd(buf))] in the child. *)
Definition parse_and_run (buf : list Z) : prog unit :=
  match Sh.parsecmd buf (Sh.St 0 []) with
  | Done (inl (cmd, m)) s => runcmd (S (length (Sh.heap s))) (Sh.heap s) m cmd
  | Done (inr i) _ => printf 2 (ln "leftovers: %s") [PStr (Some (drop i buf))] ;; sh_panic (str "syntax")
  | Panic msg => sh_panic (str msg)
  | _ => Stuck
  end.

(** The line without its null, or [None] at the end of the input. *)
Definition getcmd : prog (option (list Z)) :=
  printf 2 (str "$ ") [] ;;
  buf ← gets 100;
  let buf := cstr buf in
  Ret (if bool_decide (buf = []) then None else Some buf).

Fixpoint open_console (fuel : nat) : prog unit :=
  match fuel with
  | O => Stuck
  | S fuel =>
    fd ← sys (SYS_open (str "console") 2);
    if bool_decide (fd < 0) then Ret tt
    else if bool_decide (3 ≤ fd) then sys (SYS_close fd) ;; Ret tt
    else open_console fuel
  end.

Fixpoint commands (fuel : nat) : prog unit :=
  match fuel with
  | O => Stuck
  | S fuel =>
    o ← getcmd;
    match o with
    | None => Ret tt
    | Some buf =>
      (if bool_decide (take 3 buf = str "cd ") then
         let dir := drop 3 (take (length buf - 1) buf) in
         r ← sys (SYS_chdir dir);
         if bool_decide (r < 0) then printf 2 (ln "cannot cd %s") [PStr (Some dir)] else Ret tt
       else
         pid ← fork1;
         (if bool_decide (pid = 0) then parse_and_run buf else Ret tt) ;;
         sys SYS_wait ;;
         Ret tt) ;;
      commands fuel
    end
  end.

Definition sh_main (fuel : nat) : prog unit := open_console 4 ;; commands fuel ;; Exit.
End run.
