(* ===== verification/ShellThm.v ===== *)
(** * What the shell's parser promises

    The parser, with its pointers into the line and its heap of nodes, refines
    recursive descent over a list of tokens. On tokens it is shown that it
    always ends and that it gives back every command that is printed. *)

From S2P Require Import Prelude CString Kalloc Log Fs User Progs Shell.
Import Sh.

Local Open Scope Z_scope.

(** ** Tokens *)

Inductive token := Word (w : list Z) | Sym (c : Z) | Append.

Definition blank_all (l : list Z) : Prop := Forall (λ c, is_ws c = true) l.
Lemma blank_nil : blank_all [].
Proof. constructor. Qed.
#[local] Hint Resolve blank_nil : core.
Definition word_ok (w : list Z) : Prop := w ≠ [] ∧ Forall (λ c, is_word c = true ∧ c ≠ 0) w.

(** Where a word may end. *)
Definition ends_word (s : list Z) : Prop := match s with [] => True | c :: _ => is_word c = false end.

(** [spells ts s]: the text [s] consists of the tokens [ts], with white space
    before them and at the end. *)
Inductive spells : list token → list Z → Prop :=
  | sp_nil b : blank_all b → spells [] b
  | sp_word b w ts s : blank_all b → word_ok w → ends_word s → spells ts s → spells (Word w :: ts) (b ++ w ++ s)
  | sp_sym b c ts s : blank_all b → c ∈ symbols → (c = 62 → head s ≠ Some 62) → spells ts s → spells (Sym c :: ts) (b ++ c :: s)
  | sp_append b ts s : blank_all b → spells ts s → spells (Append :: ts) (b ++ 62 :: 62 :: s).

(** The number [gettoken] returns, and the character [peek] sees. *)
Definition code (o : option token) : Z :=
  match o with None => 0 | Some (Word _) => 97 | Some (Sym c) => c | Some Append => 43 end.
Definition first (tk : token) : option Z := match tk with Word w => head w | Sym c => Some c | Append => Some 62 end.

(** Facts about which characters are in a constant list. *)
Ltac chars := unfold symbols in *; rewrite ?elem_of_cons, ?elem_of_nil in *; lia.

(** ** Passing over characters *)

Lemma span_app P l s : Forall (λ c, P c = true) l → match s with [] => True | c :: _ => P c = false end → span P (l ++ s) = length l.
Proof.
  induction l as [|c l IH]; intros Hl Hs; simpl.
  - destruct s as [|c s]; simpl; [done|]. by rewrite Hs.
  - apply list.Forall_cons in Hl as [-> Hl]. by rewrite IH.
Qed.

Lemma span_split P l : ∃ a b, l = a ++ b ∧ length a = span P l ∧ Forall (λ c, P c = true) a ∧ match b with [] => True | c :: _ => P c = false end.
Proof.
  induction l as [|c l (a & b & Hl & Ha & Hp & Hb)]; [by exists [], []|]. simpl. destruct (P c) eqn:Hc.
  - exists (c :: a), b. split; [by rewrite Hl|]. split; [simpl; by rewrite Ha|]. split; [by constructor|done].
  - exists [], (c :: l). split; [done|]. split; [done|]. split; [constructor|done].
Qed.

Lemma is_word_ws c : is_word c = true → is_ws c = false.
Proof. unfold is_word. by destruct (is_ws c). Qed.
Lemma sym_char c : c ∈ symbols → is_ws c = false ∧ is_word c = false ∧ c ≠ 0.
Proof.
  unfold is_word. intros Hc. assert (is_sym c = true) as Hs by by apply bool_decide_eq_true.
  rewrite Hs, andb_false_r. unfold symbols in Hc. rewrite !elem_of_cons, elem_of_nil in Hc.
  assert (is_ws c = false ∧ c ≠ 0) as [? ?]; [|done]. destruct_or?; subst; by vm_compute.
Qed.

(** The text of the tokens starts with blanks and a character of the first. *)
Lemma spells_head tk ts s : spells (tk :: ts) s → ∃ b c r, s = b ++ c :: r ∧ blank_all b ∧ first tk = Some c ∧ is_ws c = false ∧ c ≠ 0.
Proof.
  intros H. inversion H as [|b w ? s' Hb [Hw Hall] He Hs|b c ? s' Hb Hc Hn Hs|b ? s' Hb Hs]; subst.
  - destruct w as [|c w]; [done|]. apply list.Forall_cons in Hall as [[Hc H0] _]. exists b, c, (w ++ s'). repeat split; try done. by apply is_word_ws.
  - destruct (sym_char c Hc) as (? & ? & ?). by exists b, c, s'.
  - exists b, 62, (62 :: s'). repeat split; try done.
Qed.

(** Every text without nulls is spelled by some tokens. *)
Lemma spells_total n : ∀ s, (length s ≤ n)%nat → Forall (λ c, c ≠ 0) s → ∃ ts, spells ts s ∧ (length ts ≤ length s)%nat.
Proof.
  induction n as [|n IH]; intros s Hn H0.
  { destruct s; [|simpl in Hn; lia]. exists []. split; [|simpl; lia]. apply (sp_nil []). constructor. }
  destruct (span_split is_ws s) as (b & r & -> & _ & Hb & Hr). apply Forall_app in H0 as [_ H0]. rewrite length_app in *.
  destruct r as [|c r]; [exists []; split; [rewrite app_nil_r; by apply sp_nil|simpl; lia]|].
  destruct (decide (c ∈ symbols)) as [Hc|Hc].
  - apply list.Forall_cons in H0 as [_ H0]. simpl in Hn. destruct (decide (c = 62 ∧ head r = Some 62)) as [[-> Hh]|Hh].
    + destruct r as [|c' r]; [done|]. injection Hh as ->. apply list.Forall_cons in H0 as [_ H0].
      destruct (IH r) as (ts & Hts & Hl); [simpl in Hn; lia|done|]. exists (Append :: ts). split; [by apply sp_append|simpl; lia].
    + destruct (IH r) as (ts & Hts & Hl); [lia|done|]. exists (Sym c :: ts). split; [|simpl; lia]. apply sp_sym; try done. intros ->. tauto.
  - destruct (span_split is_word (c :: r)) as (w & s & Hs & Hl & Hw & He). rewrite Hs in *.
    assert (w ≠ []) as Hne.
    { intros ->. simpl in Hs, Hl. subst s. simpl in He. unfold is_word in He. rewrite Hr in He. unfold is_sym in He.
      rewrite bool_decide_eq_false_2 in He by done. done. }
    apply Forall_app in H0 as [H0w H0]. rewrite length_app in *. assert (0 < length w)%nat by (destruct w; [done|simpl; lia]).
    destruct (IH s) as (ts & Hts & Hlen); [lia|done|]. exists (Word w :: ts). split; [|simpl; lia]. apply sp_word; try done.
    split; [done|]. apply list.Forall_and. by split.
Qed.

(** ** One token *)

Definition seen (toks : list Z) (ts : list token) : bool :=
  match ts with [] => false | tk :: _ => match first tk with Some c => bool_decide (c ∈ toks) | None => false end end.

(** A word of the line: its place, and what it is. *)
Definition span_ok (buf : list Z) (q e : nat) : Prop :=
  (q < e ≤ length buf)%nat ∧ word_ok (take (e - q) (drop q buf)) ∧ ends_word (drop e buf).
Definition word_of (buf : list Z) (q e : nat) : list Z := take (e - q) (drop q buf).

Section lexer.
Context (buf : list Z).
Abbreviation es := (es buf).

Lemma drop_le i a r : (i ≤ es)%nat → drop i buf = a ++ r → drop (i + length a) buf = r ∧ (i + length a ≤ es)%nat.
Proof.
  intros Hi Hd. split; [by rewrite <-drop_drop, Hd, drop_app_length|]. apply (f_equal length) in Hd. rewrite length_drop, length_app in Hd.
  unfold Sh.es in *. lia.
Qed.

Lemma ch_at i c r : drop i buf = c :: r → ch buf i = c.
Proof. intros Hd. unfold ch. by rewrite <-(Nat.add_0_r i), <-lookup_drop, Hd. Qed.

Lemma ch_end i : drop i buf = [] → ch buf i = 0.
Proof. intros Hd. unfold ch. by rewrite <-(Nat.add_0_r i), <-lookup_drop, Hd. Qed.

Lemma skip_at P i a r : (i ≤ es)%nat → drop i buf = a ++ r → Forall (λ c, P c = true) a → match r with [] => True | c :: _ => P c = false end →
  skip buf P i = (i + length a)%nat.
Proof. intros Hi Hd Ha Hr. unfold skip. by rewrite Hd, span_app. Qed.

(** Blanks before the tokens are passed over. *)
Lemma skip_spells ts i : (i ≤ es)%nat → spells ts (drop i buf) →
  let j := skip buf is_ws i in (i ≤ j ≤ es)%nat ∧ spells ts (drop j buf) ∧
  match ts with [] => drop j buf = [] | tk :: _ => ∃ c r, drop j buf = c :: r ∧ first tk = Some c ∧ is_ws c = false ∧ c ≠ 0 end.
Proof.
  intros Hi H j. assert (∃ b r, drop i buf = b ++ r ∧ blank_all b ∧ spells ts r ∧
    match ts with [] => r = [] | tk :: _ => ∃ c r', r = c :: r' ∧ first tk = Some c ∧ is_ws c = false ∧ c ≠ 0 end) as (b & r & Hd & Hb & Hr & Hf).
  { inversion H as [b Hb|b w ts' s' Hb Hw He Hs|b c ts' s' Hb Hc Hn Hs|b ts' s' Hb Hs]; subst.
    - exists (drop i buf), []. split; [by rewrite app_nil_r|]. split; [done|]. split; [apply (sp_nil []); constructor|done].
    - exists b, (w ++ s'). split; [done|]. split; [done|]. split; [by apply (sp_word [])|]. destruct Hw as [Hne Hall]. destruct w as [|c w]; [done|].
      apply list.Forall_cons in Hall as [[Hc H0] _]. exists c, (w ++ s'). repeat split; try done. by apply is_word_ws.
    - exists b, (c :: s'). split; [done|]. split; [done|]. split; [by apply (sp_sym [])|]. destruct (sym_char c Hc) as (? & ? & ?). by exists c, s'.
    - exists b, (62 :: 62 :: s'). split; [done|]. split; [done|]. split; [by apply (sp_append [])|]. by exists 62, (62 :: s'). }
  assert (j = i + length b)%nat as Hj.
  { apply skip_at with r; [done|done|done|]. destruct ts; [by rewrite Hf|]. by destruct Hf as (c & r' & -> & _ & ? & _). }
  destruct (drop_le i b r Hi Hd) as [Hdr Hle]. rewrite Hj, Hdr. split; [lia|]. by split.
Qed.

Lemma peek_spells ts toks s : (pos s ≤ es)%nat → spells ts (drop (pos s) buf) →
  ∃ i, peek buf toks s = Done (seen toks ts) (St i (heap s)) ∧ (pos s ≤ i ≤ es)%nat ∧ spells ts (drop i buf).
Proof.
  intros Hi H. destruct (skip_spells ts (pos s) Hi H) as (Hj & Hs & Hf). exists (skip buf is_ws (pos s)). split; [|done].
  unfold peek, kget, kput, kret, kbind. simpl. f_equal. destruct ts as [|tk ts].
  - by rewrite (ch_end _ Hf).
  - destruct Hf as (c & r & Hd & Hf & _ & H0). rewrite (ch_at _ _ _ Hd). simpl. rewrite Hf. by rewrite bool_decide_eq_false_2.
Qed.

Lemma gettoken_end s : (pos s ≤ es)%nat → spells [] (drop (pos s) buf) →
  ∃ q e i, gettoken buf s = Done (0, q, e) (St i (heap s)) ∧ (pos s ≤ i ≤ es)%nat ∧ spells [] (drop i buf).
Proof.
  intros Hi H. destruct (skip_spells [] (pos s) Hi H) as (Hj & Hs & Hd). set (q := skip buf is_ws (pos s)) in *.
  exists q, q, (skip buf is_ws q). destruct (skip_spells [] q ltac:(lia) Hs) as (Hj' & Hs' & _). split; [|split; [lia|done]].
  unfold gettoken, kget, kput, kret, kbind. simpl. fold q. by rewrite (ch_end _ Hd), bool_decide_eq_true_2.
Qed.

(** What [gettoken] does with the first token. *)
Lemma gettoken_spells tk ts s : (pos s ≤ es)%nat → spells (tk :: ts) (drop (pos s) buf) →
  ∃ q e i, gettoken buf s = Done (code (Some tk), q, e) (St i (heap s)) ∧ (pos s < i ≤ es)%nat ∧ spells ts (drop i buf) ∧
    match tk with Word w => span_ok buf q e ∧ word_of buf q e = w | _ => True end.
Proof.
  intros Hi H. destruct (skip_spells (tk :: ts) (pos s) Hi H) as (Hj & Hs & c & r & Hd & Hf & Hws & H0). set (q := skip buf is_ws (pos s)) in *.
  assert (∃ a r', drop q buf = a ++ r' ∧ (0 < length a)%nat ∧ spells ts r' ∧
    (if bool_decide (c ∈ [124; 40; 41; 59; 38; 60]) then (c, S q)
     else if bool_decide (c = 62) then if bool_decide (ch buf (S q) = 62) then (43, S (S q)) else (62, S q)
     else (97, skip buf is_word q)) = (code (Some tk), q + length a)%nat ∧
    match tk with Word w => w = a ∧ word_ok w ∧ ends_word r' | _ => True end) as (a & r' & Ha & Hla & Hr' & Hcode & Hw).
  { clear H. remember (drop q buf) as x eqn:Hx in Hs. inversion Hs as [|b w ts' s' Hb Hw He Hs'|b c' ts' s' Hb Hc Hn Hs'|b ts' s' Hb Hs']; subst;
      match goal with H : _ = drop q buf |- _ => rename H into E end.
    - assert (b = []) as -> by (destruct b as [|x b]; [done|]; rewrite <-E in Hd; injection Hd as -> _; apply list.Forall_cons in Hb as [? _]; congruence).
      exists w, s'. split; [done|]. destruct w as [|x w]; [by destruct Hw|]. split; [simpl; lia|]. split; [done|]. split; [|done].
      rewrite <-E in Hd. injection Hd as -> _. destruct Hw as [_ Hall]. pose proof Hall as Hall'. apply list.Forall_cons in Hall' as [[Hc _] _].
      assert (c ∉ symbols) as Hns by (intros Hin; destruct (sym_char c Hin) as (_ & ? & _); congruence).
      rewrite !bool_decide_eq_false_2 by (unfold symbols in Hns; rewrite !elem_of_cons in *; tauto). f_equal.
      apply skip_at with s'; [lia|by rewrite <-E| |by destruct s']. eapply list.Forall_impl; [exact Hall|by intros y [? _]].
    - assert (b = []) as -> by (destruct b as [|x b]; [done|]; rewrite <-E in Hd; injection Hd as -> _; apply list.Forall_cons in Hb as [? _]; congruence).
      exists [c'], s'. split; [done|]. split; [simpl; lia|]. split; [done|]. split; [|done]. rewrite <-E in Hd. injection Hd as -> _. simpl in E.
      cbn [code length]. destruct (decide (c = 62)) as [->|Hne].
      + rewrite bool_decide_eq_false_2 by (vm_compute; set_solver). rewrite bool_decide_eq_true_2 by done.
        destruct (drop_le q [62] s' ltac:(lia) (eq_sym E)) as [Hd1 _]. simpl in Hd1. rewrite bool_decide_eq_false_2; [f_equal; lia|].
        replace (S q) with (q + 1)%nat by lia. destruct s' as [|y s']; [by rewrite (ch_end _ Hd1)|]. rewrite (ch_at _ _ _ Hd1). intros ->. by apply Hn.
      + rewrite bool_decide_eq_true_2; [f_equal; lia|]. unfold symbols in Hc. rewrite !elem_of_cons in *. tauto.
    - assert (b = []) as -> by (destruct b as [|x b]; [done|]; rewrite <-E in Hd; injection Hd as -> _; apply list.Forall_cons in Hb as [? _]; congruence).
      exists [62; 62], s'. split; [done|]. split; [simpl; lia|]. split; [done|]. split; [|done]. rewrite <-E in Hd. injection Hd as <- _. simpl in E.
      rewrite bool_decide_eq_false_2 by (vm_compute; set_solver). rewrite bool_decide_eq_true_2 by done.
      destruct (drop_le q [62] (62 :: s') ltac:(lia) (eq_sym E)) as [Hd1 _]. simpl in Hd1. replace (S q) with (q + 1)%nat by lia.
      rewrite (ch_at _ _ _ Hd1). rewrite bool_decide_eq_true_2 by done. cbn [code length]. f_equal. lia. }
  destruct (drop_le q a r' ltac:(lia) Ha) as [Hdr Hle]. destruct (skip_spells ts (q + length a) Hle ltac:(by rewrite Hdr)) as (Hj' & Hs' & _).
  exists q, (q + length a)%nat, (skip buf is_ws (q + length a)). split; [|split; [lia|split; [done|]]].
  - unfold gettoken, kget, kput, kret, kbind. simpl. fold q. rewrite (ch_at _ _ _ Hd). rewrite (bool_decide_eq_false_2 (c = 0)) by done. by rewrite Hcode.
  - destruct tk as [w| |]; try done. destruct Hw as (-> & Hok & He). unfold span_ok, word_of.
    assert (take (q + length a - q) (drop q buf) = a) as -> by (replace (q + length a - q)%nat with (length a) by lia; by rewrite Ha, take_app_length).
    split; [|done]. split; [unfold Sh.es in *; lia|]. split; [done|]. by rewrite Hdr.
Qed.
End lexer.

(** ** The parser on tokens *)

Inductive rkind := RIn | ROut.

Inductive tree :=
  | TExec (ws : list (list Z))
  | TRedir (t : tree) (f : list Z) (k : rkind)
  | TPipe (l r : tree)
  | TList (l r : tree)
  | TBack (t : tree).

Definition redirs : Type := list (list Z * rkind).
Definition wrap (rs : redirs) (t : tree) : tree := foldl (λ t x, TRedir t x.1 x.2) t rs.

Section abstract.
Local Open Scope kern_scope.
(** Rounds that the loops may take. *)
Context (m : nat).

Definition a_peek (cs : list Z) : kM (list token) bool := kgets (seen cs).
Definition a_get : kM (list token) (option token) :=
  ts ← kget;
  match ts with [] => kret None | tk :: ts => kput ts ;; kret (Some tk) end.

Fixpoint a_redirs (n : nat) (rs : redirs) : kM (list token) redirs :=
  match n with
  | O => kfault
  | S n =>
    b ← a_peek [60; 62];
    if b : bool then
      tk ← a_get;
      f ← a_get;
      match f with
      | Some (Word w) => a_redirs n (rs ++ [(w, if bool_decide (code tk = 60) then RIn else ROut)])
      | _ => kpanic "missing file for redirection"
      end
    else kret rs
  end.

Fixpoint a_args (n : nat) (ws : list (list Z)) (rs : redirs) : kM (list token) (list (list Z) * redirs) :=
  match n with
  | O => kfault
  | S n =>
    b ← a_peek [124; 41; 38; 59];
    if b : bool then kret (ws, rs)
    else
      tk ← a_get;
      match tk with
      | None => kret (ws, rs)
      | Some (Word w) =>
        kassert (negb (bool_decide (MAXARGS ≤ S (length ws))%nat)) "too many args" ;;
        rs ← a_redirs m rs;
        a_args n (ws ++ [w]) rs
      | _ => kpanic "syntax"
      end
  end.

Fixpoint a_backs (n : nat) (t : tree) : kM (list token) tree :=
  match n with
  | O => kfault
  | S n => b ← a_peek [38]; if b : bool then a_get ;; a_backs n (TBack t) else kret t
  end.

Fixpoint a_line (fuel : nat) : kM (list token) tree :=
  match fuel with
  | O => kfault
  | S fuel =>
    t ← a_pipe fuel;
    t ← a_backs m t;
    b ← a_peek [59];
    if b : bool then a_get ;; r ← a_line fuel; kret (TList t r) else kret t
  end
with a_pipe (fuel : nat) : kM (list token) tree :=
  match fuel with
  | O => kfault
  | S fuel =>
    t ← a_exec fuel;
    b ← a_peek [124];
    if b : bool then a_get ;; r ← a_pipe fuel; kret (TPipe t r) else kret t
  end
with a_exec (fuel : nat) : kM (list token) tree :=
  match fuel with
  | O => kfault
  | S fuel =>
    b ← a_peek [40];
    if b : bool then a_block fuel
    else
      rs ← a_redirs m [];
      r ← a_args m [] rs;
      kret (wrap r.2 (TExec r.1))
  end
with a_block (fuel : nat) : kM (list token) tree :=
  match fuel with
  | O => kfault
  | S fuel =>
    b ← a_peek [40];
    kassert b "parseblock" ;;
    a_get ;;
    t ← a_line fuel;
    b ← a_peek [41];
    kassert b "syntax - missing )" ;;
    a_get ;;
    rs ← a_redirs m [];
    kret (wrap rs t)
  end.
End abstract.

(** ** Trees in the heap *)

Definition mode_of (k : rkind) : Z := match k with RIn => 0 | ROut => 0x201 end.
Definition fd_of (k : rkind) : Z := match k with RIn => 0 | ROut => 1 end.

(** An argument array. *)
Definition arr (l : list nat) : list (option nat) := (Some <$> l) ++ replicate (MAXARGS - length l) None.

Lemma arr_snoc l q : (length l < MAXARGS)%nat → <[length l := Some q]> (arr l) = arr (l ++ [q]).
Proof.
  intros Hl. unfold arr. rewrite insert_app_r_alt by (rewrite length_fmap; lia). rewrite length_fmap, Nat.sub_diag, fmap_app, <-app_assoc, length_app.
  cbn [length fmap list_fmap]. f_equal. replace (MAXARGS - length l)%nat with (S (MAXARGS - (length l + 1))) by lia. done.
Qed.

Lemma arr_end l : (length l < MAXARGS)%nat → <[length l := None]> (arr l) = arr l.
Proof.
  intros Hl. apply list_insert_id. unfold arr. rewrite lookup_app_r by (rewrite length_fmap; lia). rewrite length_fmap, Nat.sub_diag.
  replace (MAXARGS - length l)%nat with (S (MAXARGS - S (length l))) by lia. done.
Qed.

Section heap.
Context (buf : list Z).

Inductive repr (h : list node) : nat → tree → Prop :=
  | rp_exec p qs : h !! p = Some (EXEC (arr qs.*1) (arr qs.*2)) → (length qs < MAXARGS)%nat →
      Forall (λ x, span_ok buf x.1 x.2) qs → repr h p (TExec ((λ x, word_of buf x.1 x.2) <$> qs))
  | rp_redir p c q e k t : h !! p = Some (REDIR c q e (mode_of k) (fd_of k)) → (c < p)%nat → span_ok buf q e → repr h c t →
      repr h p (TRedir t (word_of buf q e) k)
  | rp_pipe p l r tl tr : h !! p = Some (PIPE l r) → (l < p)%nat → (r < p)%nat → repr h l tl → repr h r tr → repr h p (TPipe tl tr)
  | rp_list p l r tl tr : h !! p = Some (LIST l r) → (l < p)%nat → (r < p)%nat → repr h l tl → repr h r tr → repr h p (TList tl tr)
  | rp_back p c t : h !! p = Some (BACK c) → (c < p)%nat → repr h c t → repr h p (TBack t).

(** From [p] redirections lead to [c]. *)
Inductive chain (h : list node) (c : nat) : nat → redirs → Prop :=
  | ch_nil : chain h c c []
  | ch_snoc p c' q e k rs : h !! p = Some (REDIR c' q e (mode_of k) (fd_of k)) → (c' < p)%nat → span_ok buf q e → chain h c c' rs →
      chain h c p (rs ++ [(word_of buf q e, k)]).

Lemma chain_repr h c p rs t : chain h c p rs → repr h c t → repr h p (wrap rs t).
Proof.
  intros Hc Ht. induction Hc as [|p c' q e k rs Hp Hlt Hs _ IH]; [done|]. unfold wrap. rewrite foldl_app. by eapply rp_redir.
Qed.

Lemma chain_ge h c p rs : chain h c p rs → (c ≤ p)%nat.
Proof. intros Hc. induction Hc; lia. Qed.

Lemma chain_lt h c p rs : chain h c p rs → (c < length h)%nat → (p < length h)%nat.
Proof. intros Hc Hl. inversion Hc; subst; [done|]. by eapply lookup_lt_Some. Qed.

Lemma repr_lt h p t : repr h p t → (p < length h)%nat.
Proof. intros H. inversion H; by eapply lookup_lt_Some. Qed.

Lemma repr_mono h h' p t : h `prefix_of` h' → repr h p t → repr h' p t.
Proof.
  intros [x ->] H. assert (∀ i n, h !! i = Some n → (h ++ x) !! i = Some n) as Hl by (intros; by apply lookup_app_l_Some).
  induction H; econstructor; eauto.
Qed.

Lemma chain_mono h h' c p rs : h `prefix_of` h' → chain h c p rs → chain h' c p rs.
Proof.
  intros [x ->] H. assert (∀ i n, h !! i = Some n → (h ++ x) !! i = Some n) as Hl by (intros; by apply lookup_app_l_Some).
  induction H; econstructor; eauto.
Qed.

(** Filling the array of [c] does not change what leads to it. *)
Lemma chain_alter f h c p rs : chain h c p rs → chain (alter f c h) c p rs.
Proof.
  intros H. induction H as [|p c' q e k rs Hp Hlt Hs Hc IH]; [constructor|]. econstructor; eauto.
  rewrite list_lookup_alter_ne; [done|]. apply chain_ge in Hc. lia.
Qed.
End heap.

(** ** The parser refines the parser on tokens *)

(** Both return with [Q], or both stop with the same message. *)
Definition sim {S T A B} (mc : kM S A) (ma : kM T B) (s : S) (ts : T) (Q : A → S → B → T → Prop) : Prop :=
  match mc s, ma ts with
  | Done a s', Done b ts' => Q a s' b ts'
  | Panic x, Panic y => x = y
  | Fault, Fault => True
  | _, _ => False
  end.

Section sim.
Context {S T : Type}.

Lemma sim_bind {A B A' B'} (mc : kM S A) (ma : kM T B) (kc : A → kM S A') (ka : B → kM T B') s ts Q :
  sim mc ma s ts (λ a s' b ts', sim (kc a) (ka b) s' ts' Q) → sim (kbind mc kc) (kbind ma ka) s ts Q.
Proof. unfold sim, kbind. by destruct (mc s), (ma ts). Qed.

Lemma sim_mono {A B} (mc : kM S A) (ma : kM T B) s ts (Q Q' : A → S → B → T → Prop) :
  sim mc ma s ts Q → (∀ a s' b ts', Q a s' b ts' → Q' a s' b ts') → sim mc ma s ts Q'.
Proof. unfold sim. destruct (mc s), (ma ts); auto. Qed.

Lemma sim_ret {A B} (a : A) (b : B) (s : S) (ts : T) (Q : A → S → B → T → Prop) : Q a s b ts → sim (kret a) (kret b) s ts Q.
Proof. done. Qed.

Lemma sim_assert b msg (s : S) (ts : T) Q : (b = true → Q tt s tt ts) → sim (kassert b msg) (kassert b msg) s ts Q.
Proof. intros HQ. destruct b; [by apply HQ|done]. Qed.

Lemma sim_map {A B B'} (mc : kM S A) (ma : kM T B) (f : B → B') s ts Q :
  sim mc ma s ts (λ a s' b ts', Q a s' (f b) ts') → sim mc (kbind ma (λ b, kret (f b))) s ts Q.
Proof. unfold sim, kbind. by destruct (mc s), (ma ts). Qed.

(** A step of the left side only. *)
Lemma sim_left {A A' B'} (mc : kM S A) (kc : A → kM S A') (ma : kM T B') s ts a s' Q :
  mc s = Done a s' → sim (kc a) ma s' ts Q → sim (kbind mc kc) ma s ts Q.
Proof. intros H. unfold sim, kbind. by rewrite H. Qed.
End sim.

Section refine.
Context (buf : list Z).
Abbreviation es := (es buf).
Abbreviation repr := (repr buf).
Abbreviation chain := (chain buf).

Record rel (s : st) (ts : list token) : Prop := {
  rl_pos : (pos s ≤ es)%nat;
  rl_text : spells ts (drop (pos s) buf);
}.

Definition tok_rel (c : Z) (q e : nat) (o : option token) : Prop :=
  c = code o ∧ (c = 97 ↔ ∃ w, o = Some (Word w)) ∧ (c = 0 ↔ o = None) ∧
  match o with Some (Word w) => span_ok buf q e ∧ word_of buf q e = w | _ => True end.

Lemma sim_peek cs s ts (Q : bool → st → bool → list token → Prop) :
  rel s ts → (∀ s', rel s' ts → heap s' = heap s → Q (seen cs ts) s' (seen cs ts) ts) → sim (peek buf cs) (a_peek cs) s ts Q.
Proof.
  intros [Hp Ht] HQ. destruct (peek_spells buf ts cs s Hp Ht) as (i & Hs & Hi & Hsp). unfold sim. rewrite Hs. simpl.
  apply HQ; [|done]. split; simpl; [lia|done].
Qed.

Lemma sim_get s ts (Q : Z * nat * nat → st → option token → list token → Prop) :
  rel s ts → (∀ c q e s', rel s' (tail ts) → heap s' = heap s → tok_rel c q e (head ts) → Q (c, q, e) s' (head ts) (tail ts)) →
  sim (gettoken buf) a_get s ts Q.
Proof.
  intros [Hp Ht] HQ. destruct ts as [|tk ts].
  - destruct (gettoken_end buf s Hp Ht) as (q & e & i & Hs & Hi & Hsp). unfold sim. rewrite Hs. simpl. apply HQ; [split; simpl; [lia|done]|done|].
    split; [done|]. split; [split; [done|by intros [w ?]]|]. done.
  - destruct (gettoken_spells buf tk ts s Hp Ht) as (q & e & i & Hs & Hi & Hsp & Hw). unfold sim. rewrite Hs. simpl. apply HQ; [split; simpl; [lia|done]|done|].
    split; [done|]. assert (∀ c, tk = Sym c → c ∈ symbols) as Hsym by (intros c ->; inversion Ht; by subst).
    simpl. destruct tk as [w|c|]; simpl.
    + split; [split; [by eexists|done]|done].
    + specialize (Hsym c eq_refl). destruct (sym_char c Hsym) as (_ & _ & H0). split; [|done]. split; [|by intros [w ?]]. intros ->. exfalso.
      unfold symbols in Hsym. rewrite !elem_of_cons, elem_of_nil in Hsym. lia.
    + split; [split; [done|by intros [w ?]]|done].
Qed.

Lemma sim_alloc {B} n s ts (ma : kM (list token) B) (kc : nat → kM st nat) Q :
  (sim (kc (length (heap s))) ma (St (pos s) (heap s ++ [n])) ts Q) → sim (kbind (alloc n) kc) ma s ts Q.
Proof. intros H. by eapply sim_left. Qed.

(** Which redirection a token stands for. *)
Lemma redir_token s ts : rel s ts → seen [60; 62] ts = true → code (head ts) = 60 ∨ code (head ts) = 62 ∨ code (head ts) = 43.
Proof.
  intros [_ Ht] Hseen. destruct ts as [|tk ts]; [done|]. simpl in *. destruct tk as [w|c|]; simpl in *;
    [|apply bool_decide_eq_true in Hseen; rewrite !elem_of_cons, elem_of_nil in Hseen; lia|auto].
  destruct w as [|c w]; [done|]. simpl in Hseen. apply bool_decide_eq_true in Hseen. exfalso.
  inversion Ht as [|b w' ? s' Hb [_ Hw] He Hs| |]; subst. apply list.Forall_cons in Hw as [[Hc _] _].
  assert (c ∈ symbols) as Hin by chars. destruct (sym_char c Hin) as (_ & ? & _). congruence.
Qed.

Lemma sim_redirs fuel : ∀ s ts p c rs, rel s ts → chain (heap s) c p rs → (p < length (heap s))%nat →
  sim (parseredirs buf fuel p) (a_redirs fuel rs) s ts (λ p' s' rs' ts', rel s' ts' ∧ heap s `prefix_of` heap s' ∧
    chain (heap s') c p' rs' ∧ (p' < length (heap s'))%nat).
Proof.
  induction fuel as [|fuel IH]; intros s ts p c rs R Hc Hp; [done|]. cbn [parseredirs a_redirs]. apply sim_bind, sim_peek; [done|].
  intros s1 R1 Hh1. destruct (seen [60; 62] ts) eqn:Hseen.
  2: { apply sim_ret. rewrite Hh1. split; [done|]. split; [done|]. by split. }
  pose proof (redir_token _ _ R1 Hseen) as Hcode. apply sim_bind, sim_get; [done|]. intros c2 q2 e2 s2 R2 Hh2 (-> & _ & _ & _).
  apply sim_bind, sim_get; [done|]. intros c3 q3 e3 s3 R3 Hh3 (H3 & Hword & _ & Hsp). cbn [fst snd].
  destruct (decide (c3 = 97)) as [Heq|Hne].
  2: { destruct (head (tail ts)) as [[w| |]|]; try (unfold sim, kassert, kbind; by rewrite bool_decide_eq_false_2). }
  apply Hword in Heq as [w Hw]. rewrite Hw in *. destruct Hsp as [Hsp Hwd]. eapply sim_left; [unfold kassert; by rewrite bool_decide_eq_true_2 by by apply Hword; eauto|].
  set (k := if bool_decide (code (head ts) = 60) then RIn else ROut).
  assert ((if bool_decide (code (head ts) = 60) then alloc (REDIR p q3 e3 0 0)
           else if bool_decide (code (head ts) = 62) then alloc (REDIR p q3 e3 0x201 1)
           else if bool_decide (code (head ts) = 43) then alloc (REDIR p q3 e3 0x201 1) else kret p) =
    alloc (REDIR p q3 e3 (mode_of k) (fd_of k))) as ->.
  { unfold k. repeat case_bool_decide; try done. lia. }
  apply sim_alloc. assert (heap s3 = heap s) as Hh by congruence. rewrite Hh.
  eapply sim_mono; [apply (IH _ _ _ c (rs ++ [(w, k)]))|].
  - split; [apply R3|apply R3].
  - simpl. rewrite <-Hwd. eapply ch_snoc; [by rewrite list_lookup_middle|done|done|]. eapply chain_mono; [|done]. by eexists.
  - simpl. rewrite length_app. simpl. lia.
  - cbn [heap]. intros p' s' rs' ts' (R' & Hpre & Hc' & Hp'). split; [done|]. split; [|done]. etransitivity; [|exact Hpre]. by eexists.
Qed.

(** The state of [parseexec]: [h0] was there before, the node of the command
    is the next one, with the words [qs], and redirections lead to it. *)
Record filling (h0 : list node) (qs : list (nat * nat)) (ret : nat) (rs : redirs) (h : list node) : Prop := {
  fi_old : h0 `prefix_of` h;
  fi_node : h !! length h0 = Some (EXEC (arr qs.*1) (arr qs.*2));
  fi_len : (length qs < MAXARGS)%nat;
  fi_words : Forall (λ x, span_ok buf x.1 x.2) qs;
  fi_chain : chain h (length h0) ret rs;
}.

Definition texts (qs : list (nat * nat)) : list (list Z) := (λ x, word_of buf x.1 x.2) <$> qs.

Lemma filling_ret h0 qs ret rs h : filling h0 qs ret rs h → (ret < length h)%nat.
Proof. intros F. eapply chain_lt; [apply F|]. by eapply lookup_lt_Some, fi_node. Qed.

Lemma filling_repr h0 qs ret rs h : filling h0 qs ret rs h → repr h ret (wrap rs (TExec (texts qs))).
Proof. intros [_ Hn Hl Hw Hc]. eapply chain_repr; [exact Hc|]. by apply rp_exec. Qed.

Lemma filling_more h0 qs ret rs h ret' rs' h' : filling h0 qs ret rs h → h `prefix_of` h' → chain h' (length h0) ret' rs' → filling h0 qs ret' rs' h'.
Proof.
  intros [F1 F2 F3 F4 F5] [x ->] Hc. split; try done.
  - etransitivity; [exact F1|]. by eexists.
  - by apply lookup_app_l_Some.
Qed.

(** A word is put in the array. *)
Definition put_arg (i : nat) (q e : option nat) (n : node) : node :=
  match n with EXEC a b => EXEC (<[i := q]> a) (<[i := e]> b) | n => n end.

Lemma filling_put h0 qs ret rs h i q e : filling h0 qs ret rs h →
  ∀ qs', EXEC (<[i := q]> (arr qs.*1)) (<[i := e]> (arr qs.*2)) = EXEC (arr qs'.*1) (arr qs'.*2) →
  (length qs' < MAXARGS)%nat → Forall (λ x, span_ok buf x.1 x.2) qs' → filling h0 qs' ret rs (alter (put_arg i q e) (length h0) h).
Proof.
  intros [[x ->] F2 F3 F4 F5] qs' Heq Hl Hw. split; [|..|done|done|].
  - rewrite lookup_app_r, Nat.sub_diag in F2 by lia. destruct x as [|n x]; [done|]. rewrite alter_app_r_alt by lia. rewrite Nat.sub_diag. by eexists.
  - rewrite list_lookup_alter, F2, decide_True by done. exact (f_equal Some Heq).
  - by apply chain_alter.
Qed.

Lemma sim_args fuel : ∀ s ts h0 qs ret rs, rel s ts → filling h0 qs ret rs (heap s) →
  sim (parseargs buf fuel (length h0) (length qs) ret) (a_args (S es) fuel (texts qs) rs) s ts (λ r s' wr ts', rel s' ts' ∧
    ∃ qs', r.2 = length qs' ∧ wr.1 = texts qs' ∧ filling h0 qs' r.1 wr.2 (heap s')).
Proof.
  induction fuel as [|fuel IH]; intros s ts h0 qs ret rs R F; [done|]. cbn [parseargs a_args]. apply sim_bind, sim_peek; [done|].
  intros s1 R1 Hh1. rewrite <-Hh1 in F. destruct (seen [124; 41; 38; 59] ts).
  { apply sim_ret. split; [done|]. by exists qs. }
  apply sim_bind, sim_get; [done|]. intros c q e s2 R2 Hh2 (Hc & Hw97 & Hc0 & Hsp). rewrite <-Hh2 in F.
  destruct (head ts) as [[w|y|]|] eqn:Hhd.
  - destruct Hsp as [Hsp Hwd]. assert (c = 97) as Hc97 by done. rewrite Hc97. rewrite (bool_decide_eq_false_2 (97 = 0)) by done.
    eapply sim_left; [done|]. eapply sim_left; [reflexivity|]. assert (length (texts qs) = length qs) as Hlt by apply length_fmap. rewrite Hlt.
    apply sim_bind, sim_assert. intros Hargs%negb_true_iff%bool_decide_eq_false.
    assert (filling h0 (qs ++ [(q, e)]) ret rs (alter (put_arg (length qs) (Some q) (Some e)) (length h0) (heap s2))) as F2.
    { eapply filling_put; [exact F| |rewrite length_app; simpl; lia|apply Forall_app; split; [apply F|by constructor]].
      rewrite !fmap_app. simpl. rewrite <-!arr_snoc by (rewrite length_fmap; apply F). by rewrite !length_fmap. }
    apply sim_bind. eapply sim_mono.
    { eapply (sim_redirs (S es) (set_heap _ s2) (tail ts) ret (length h0) rs); [split; apply R2|apply F2|by eapply filling_ret]. }
    intros ret' s3 rs' ts' (R3 & Hpre & Hch & _).
    assert (filling h0 (qs ++ [(q, e)]) ret' rs' (heap s3)) as F3 by (by eapply filling_more).
    replace (texts qs ++ [w]) with (texts (qs ++ [(q, e)])) by (unfold texts; rewrite fmap_app; simpl; by rewrite Hwd).
    replace (S (length qs)) with (length (qs ++ [(q, e)])) by (rewrite length_app; simpl; lia). by apply IH.
  - rewrite (bool_decide_eq_false_2 (c = 0)) by (intros H0; by apply Hc0 in H0).
    unfold sim, kassert, kbind. rewrite bool_decide_eq_false_2; [done|]. intros H97. apply Hw97 in H97 as [w ?]. done.
  - rewrite (bool_decide_eq_false_2 (c = 0)) by (intros H0; by apply Hc0 in H0).
    unfold sim, kassert, kbind. rewrite bool_decide_eq_false_2; [done|]. intros H97. apply Hw97 in H97 as [w ?]. done.
  - rewrite bool_decide_eq_true_2 by by apply Hc0. apply sim_ret. split; [done|]. by exists qs.
Qed.

(** What the functions of the grammar return. *)
Definition built (s : st) (p : nat) (s' : st) (t : tree) (ts' : list token) : Prop :=
  rel s' ts' ∧ heap s `prefix_of` heap s' ∧ repr (heap s') p t.

Lemma sim_backs fuel : ∀ s0 s ts p t, built s0 p s t ts → sim (parsebacks buf fuel p) (a_backs fuel t) s ts (built s0).
Proof.
  induction fuel as [|fuel IH]; intros s0 s ts p t Bt; [done|]. cbn [parsebacks a_backs]. pose proof Bt as (R & Hpre & Hr).
  apply sim_bind, sim_peek; [done|]. intros s1 R1 Hh1. destruct (seen [38] ts).
  2: { apply sim_ret. split; [done|]. rewrite Hh1. by split. }
  apply sim_bind, sim_get; [done|]. intros c q e s2 R2 Hh2 _. apply sim_alloc. rewrite Hh2, Hh1.
  apply (IH s0). split; [split; apply R2|]. simpl. split; [etransitivity; [exact Hpre|by eexists]|].
  eapply rp_back; [by rewrite list_lookup_middle|by eapply repr_lt|]. eapply repr_mono; [by eexists|done].
Qed.

Definition sim_fn (fc : kM st nat) (fa : kM (list token) tree) : Prop := ∀ s ts, rel s ts → sim fc fa s ts (built s).

(** Two commands and the node of both. *)
Lemma sim_two s0 fc fa s ts p t cs mk mkt :
  built s0 p s t ts → sim_fn fc fa →
  (∀ h l r tl tr, repr h l tl → repr h r tr → repr (h ++ [mk l r]) (length h) (mkt tl tr)) →
  sim (b ← peek buf cs; if b : bool then gettoken buf ;; r ← fc; alloc (mk p r) else kret p)%kern
      (b ← a_peek cs; if b : bool then a_get ;; r ← fa; kret (mkt t r) else kret t)%kern s ts (built s0).
Proof.
  intros (R & Hpre & Hr) Hf Hmk. apply sim_bind, sim_peek; [done|]. intros s1 R1 Hh1. destruct (seen cs ts).
  2: { apply sim_ret. split; [done|]. rewrite Hh1. by split. }
  apply sim_bind, sim_get; [done|]. intros c q e s2 R2 Hh2 _. apply sim_bind. eapply sim_mono; [by apply Hf|].
  intros p' s3 t' ts' (R3 & Hpre3 & Hr3). rewrite Hh2, Hh1 in Hpre3. unfold sim. simpl.
  split; [split; apply R3|]. simpl. split; [etransitivity; [exact Hpre|]; etransitivity; [exact Hpre3|by eexists]|].
  apply Hmk; [|done]. by eapply repr_mono.
Qed.

Lemma new_node h n p l r tl tr (mk : nat → nat → node) : n = mk l r → p = length h → repr h l tl → repr h r tr →
  (h ++ [n]) !! p = Some (mk l r) ∧ (l < p)%nat ∧ (r < p)%nat ∧ repr (h ++ [n]) l tl ∧ repr (h ++ [n]) r tr.
Proof.
  intros -> -> Hl Hr. split; [by rewrite list_lookup_middle|]. split; [by eapply repr_lt|]. split; [by eapply repr_lt|].
  split; (eapply repr_mono; [by eexists|done]).
Qed.

(** Every function of the grammar refines the one on tokens. *)
Lemma sim_grammar fuel :
  sim_fn (parseline buf fuel) (a_line (S es) fuel) ∧ sim_fn (parsepipe buf fuel) (a_pipe (S es) fuel) ∧
  sim_fn (parseexec buf fuel) (a_exec (S es) fuel) ∧ sim_fn (parseblock buf fuel) (a_block (S es) fuel).
Proof.
  induction fuel as [|fuel (IHl & IHp & IHe & IHb)]; [by split_and!; intros s ts R|]. split_and!; intros s ts R.
  - cbn [parseline a_line]. apply sim_bind. eapply sim_mono; [by apply IHp|]. intros p s1 t ts1 Hb. apply sim_bind.
    eapply sim_mono; [by apply sim_backs|]. intros p2 s2 t2 ts2 Hb2. apply (sim_two s _ _ s2 ts2 p2 t2 [59] LIST TList Hb2 IHl).
    intros h l r tl tr Hl Hr. destruct (new_node h _ _ l r tl tr LIST eq_refl eq_refl Hl Hr) as (? & ? & ? & ? & ?). by eapply rp_list.
  - cbn [parsepipe a_pipe]. apply sim_bind. eapply sim_mono; [by apply IHe|]. intros p s1 t ts1 Hb.
    apply (sim_two s _ _ s1 ts1 p t [124] PIPE TPipe Hb IHp).
    intros h l r tl tr Hl Hr. destruct (new_node h _ _ l r tl tr PIPE eq_refl eq_refl Hl Hr) as (? & ? & ? & ? & ?). by eapply rp_pipe.
  - cbn [parseexec a_exec]. apply sim_bind, sim_peek; [done|]. intros s1 R1 Hh1. destruct (seen [40] ts).
    { eapply sim_mono; [by apply IHb|]. intros p s2 t ts2 (R2 & Hp2 & Hr2). rewrite Hh1 in Hp2. by split. }
    eapply sim_left; [reflexivity|]. cbn [heap set_heap]. set (s2 := set_heap _ s1).
    assert (filling (heap s1) [] (length (heap s1)) [] (heap s2)) as F.
    { split; [by eexists|simpl; by rewrite list_lookup_middle|simpl; unfold MAXARGS; lia|constructor|constructor]. }
    apply sim_bind. eapply sim_mono; [eapply (sim_redirs (S es) s2 ts _ (length (heap s1)) []); [split; apply R1|apply F|by eapply filling_ret]|].
    intros ret s3 rs ts3 (R3 & Hp3 & Hc3 & _). assert (filling (heap s1) [] ret rs (heap s3)) as F3 by (by eapply filling_more).
    apply sim_bind. eapply sim_mono; [exact (sim_args (S es) s3 ts3 (heap s1) [] ret rs R3 F3)|].
    intros r s4 wr ts4 (R4 & qs & Hr & Hw & F4). eapply sim_left; [reflexivity|]. apply sim_ret. rewrite Hr, Hw.
    assert (filling (heap s1) qs r.1 wr.2 (alter (put_arg (length qs) None None) (length (heap s1)) (heap s4))) as F5.
    { eapply filling_put; [exact F4| |apply F4|apply F4]. pose proof (fi_len _ _ _ _ _ F4) as Hl.
      rewrite <-(length_fmap fst qs) at 1. rewrite arr_end by (by rewrite length_fmap). rewrite <-(length_fmap snd qs) at 1.
      by rewrite arr_end by (by rewrite length_fmap). }
    split; [split; apply R4|]. split; [rewrite <-Hh1; apply F5|]. by eapply filling_repr.
  - cbn [parseblock a_block]. apply sim_bind, sim_peek; [done|]. intros s1 R1 Hh1. apply sim_bind, sim_assert. intros _.
    apply sim_bind, sim_get; [done|]. intros c q e s2 R2 Hh2 _. apply sim_bind. eapply sim_mono; [by apply IHl|].
    intros p s3 t ts3 (R3 & Hp3 & Hr3). apply sim_bind, sim_peek; [done|]. intros s4 R4 Hh4. apply sim_bind, sim_assert. intros _.
    apply sim_bind, sim_get; [done|]. intros c' q' e' s5 R5 Hh5 _.
    assert (heap s5 = heap s3) as Hh by congruence. apply sim_map. eapply sim_mono.
    { eapply (sim_redirs (S es) s5 _ p p []); [done|constructor|rewrite Hh; by eapply repr_lt]. }
    intros p' s6 rs ts6 (R6 & Hp6 & Hc6 & _). rewrite Hh in Hp6. split; [done|]. rewrite Hh2, Hh1 in Hp3.
    split; [by etransitivity|]. eapply chain_repr; [done|]. by eapply repr_mono.
Qed.
End refine.

(** ** The parser ends *)

(** It returns with [Q] or stops with a message. *)
Definition ends {S A} (m : kM S A) (s : S) (Q : A → S → Prop) : Prop :=
  match m s with Done a s' => Q a s' | Panic _ => True | _ => False end.

(** It returns with [Q] unless it runs out of fuel. *)
Definition returns {S A} (m : kM S A) (s : S) (Q : A → S → Prop) : Prop :=
  match m s with Done a s' => Q a s' | Fault => True | _ => False end.

Section judgements.
Context {S : Type}.

Lemma ends_bind {A B} (m : kM S A) (k : A → kM S B) s Q : ends m s (λ a s', ends (k a) s' Q) → ends (kbind m k) s Q.
Proof. unfold ends, kbind. by destruct (m s). Qed.
Lemma ends_mono {A} (m : kM S A) s (Q Q' : A → S → Prop) : ends m s Q → (∀ a s', Q a s' → Q' a s') → ends m s Q'.
Proof. unfold ends. destruct (m s); auto. Qed.
Lemma ends_assert b msg (s : S) Q : (b = true → Q tt s) → ends (kassert b msg) s Q.
Proof. intros HQ. destruct b; [by apply HQ|done]. Qed.
Lemma returns_bind {A B} (m : kM S A) (k : A → kM S B) s Q : returns m s (λ a s', returns (k a) s' Q) → returns (kbind m k) s Q.
Proof. unfold returns, kbind. by destruct (m s). Qed.
Lemma returns_assoc {A B C} (m : kM S A) (k : A → kM S B) (h : B → kM S C) s Q :
  returns (kbind (kbind m k) h) s Q → returns (kbind m (λ x, kbind (k x) h)) s Q.
Proof. unfold returns, kbind. by destruct (m s). Qed.
Lemma returns_mono {A} (m : kM S A) s (Q Q' : A → S → Prop) : returns m s Q → (∀ a s', Q a s' → Q' a s') → returns m s Q'.
Proof. unfold returns. destruct (m s); auto. Qed.
End judgements.

Lemma a_redirs_ends n : ∀ rs ts, (length ts < n)%nat → ends (a_redirs n rs) ts (λ _ ts', (length ts' ≤ length ts)%nat).
Proof.
  induction n as [|n IH]; intros rs ts Hn; [lia|]. cbn [a_redirs]. apply ends_bind. unfold a_peek, kgets, ends at 1.
  destruct (seen [60; 62] ts) eqn:Hs; [|unfold ends; simpl; lia]. destruct ts as [|tk [|f ts]]; [done|done|].
  apply ends_bind. unfold ends at 1. simpl. apply ends_bind. unfold ends at 1. simpl. destruct f as [w| |]; [|done|done].
  eapply ends_mono; [apply IH; simpl in Hn; lia|]. simpl. lia.
Qed.

Lemma a_args_ends m n : ∀ ws rs ts, (length ts < n)%nat → (length ts < m)%nat →
  ends (a_args m n ws rs) ts (λ _ ts', (length ts' ≤ length ts)%nat).
Proof.
  induction n as [|n IH]; intros ws rs ts Hn Hm; [lia|]. cbn [a_args]. apply ends_bind. unfold a_peek, kgets, ends at 1.
  destruct (seen _ ts); [unfold ends; simpl; lia|]. destruct ts as [|[w| |] ts]; [unfold ends; simpl; lia| |done|done].
  apply ends_bind. unfold ends at 1. simpl. apply ends_bind, ends_assert. intros _. simpl in Hn, Hm.
  apply ends_bind. eapply ends_mono; [apply a_redirs_ends; lia|]. intros rs' ts' Hl. simpl in Hl. 
  eapply ends_mono; [apply IH; lia|]. simpl. lia.
Qed.

Lemma a_backs_ends n : ∀ t ts, (length ts < n)%nat → ends (a_backs n t) ts (λ _ ts', (length ts' ≤ length ts)%nat).
Proof.
  induction n as [|n IH]; intros t ts Hn; [lia|]. cbn [a_backs]. apply ends_bind. unfold a_peek, kgets, ends at 1.
  destruct (seen [38] ts) eqn:Hs; [|unfold ends; simpl; lia]. destruct ts as [|tk ts]; [done|].
  apply ends_bind. unfold ends at 1. simpl. simpl in Hn. eapply ends_mono; [apply IH; lia|]. simpl. lia.
Qed.

(** An operator and what follows it. *)
Lemma ends_two cs (fa : kM (list token) tree) t mkt ts N :
  (∀ ts', (length ts' < N)%nat → ends fa ts' (λ _ ts'', (length ts'' ≤ length ts')%nat)) → (length ts ≤ N)%nat →
  ends (b ← a_peek cs; if b : bool then a_get ;; r ← fa; kret (mkt t r) else kret t)%kern ts (λ _ : tree, λ ts', (length ts' ≤ length ts)%nat).
Proof.
  intros Hf Hn. apply ends_bind. unfold a_peek, kgets, ends at 1. destruct (seen cs ts) eqn:Hs; [|unfold ends; simpl; lia].
  destruct ts as [|tk ts]; [done|]. apply ends_bind. unfold ends at 1. simpl. simpl in Hn. apply ends_bind.
  eapply ends_mono; [apply Hf; lia|]. intros r ts' Hl. cbv beta in *. unfold ends. simpl. lia.
Qed.

Lemma a_grammar_ends m fuel :
  (∀ ts, (4 * length ts + 4 ≤ fuel)%nat → (length ts < m)%nat → ends (a_line m fuel) ts (λ _ ts', (length ts' ≤ length ts)%nat)) ∧
  (∀ ts, (4 * length ts + 3 ≤ fuel)%nat → (length ts < m)%nat → ends (a_pipe m fuel) ts (λ _ ts', (length ts' ≤ length ts)%nat)) ∧
  (∀ ts, (4 * length ts + 2 ≤ fuel)%nat → (length ts < m)%nat → ends (a_exec m fuel) ts (λ _ ts', (length ts' ≤ length ts)%nat)) ∧
  (∀ ts, (4 * length ts + 1 ≤ fuel)%nat → (length ts < m)%nat → ends (a_block m fuel) ts (λ _ ts', (length ts' ≤ length ts)%nat)).
Proof.
  induction fuel as [|fuel (IHl & IHp & IHe & IHb)]; [split_and!; intros; lia|]. split_and!; intros ts Hf Hm.
  - cbn [a_line]. apply ends_bind. eapply ends_mono; [apply IHp; lia|]. intros t ts1 H1. cbv beta in *. apply ends_bind.
    eapply ends_mono; [apply a_backs_ends; lia|]. intros t2 ts2 H2. cbv beta in *.
    eapply ends_mono; [apply (ends_two _ _ _ _ _ (length ts2)); [intros; apply IHl; lia|lia]|]. simpl. lia.
  - cbn [a_pipe]. apply ends_bind. eapply ends_mono; [apply IHe; lia|]. intros t ts1 H1. cbv beta in *.
    eapply ends_mono; [apply (ends_two _ _ _ _ _ (length ts1)); [intros; apply IHp; lia|lia]|]. simpl. lia.
  - cbn [a_exec]. apply ends_bind. unfold a_peek, kgets, ends at 1. destruct (seen [40] ts); [apply IHb; lia|].
    apply ends_bind. eapply ends_mono; [apply a_redirs_ends; lia|]. intros rs ts1 H1. cbv beta in *. apply ends_bind.
    eapply ends_mono; [apply a_args_ends; lia|]. intros r ts2 H2. cbv beta in *. unfold ends. simpl. lia.
  - cbn [a_block]. apply ends_bind. unfold a_peek, kgets, ends at 1. apply ends_bind, ends_assert. intros Hs.
    destruct ts as [|tk ts]; [done|]. simpl in Hf, Hm. apply ends_bind. unfold ends at 1. simpl. apply ends_bind.
    eapply ends_mono; [apply IHl; lia|]. intros t ts1 H1. cbv beta in *. apply ends_bind. unfold ends at 1. apply ends_bind, ends_assert. intros Hs1.
    destruct ts1 as [|tk1 ts1]; [done|]. apply ends_bind. unfold ends at 1. simpl. simpl in H1. apply ends_bind.
    eapply ends_mono; [apply a_redirs_ends; lia|]. intros rs ts2 H2. cbv beta in *. unfold ends. simpl. lia.
Qed.

(** ** Printing commands *)

Definition rtoks (rs : redirs) : list token := rs ≫= λ x, [Sym (match x.2 with RIn => 60 | ROut => 62 end); Word x.1].

Definition paren (b : bool) (ts : list token) : list token := if b then ts else [Sym 40] ++ ts ++ [Sym 41].

(** The levels of the grammar: 0 for [parseexec], 1 for [parsepipe], 2 with the
    ampersands, 3 for [parseline]. *)
Fixpoint toks (lvl : nat) (t : tree) : list token :=
  match t with
  | TExec ws => Word <$> ws
  | TRedir t f k => toks 0 t ++ rtoks [(f, k)]
  | TPipe l r => paren (1 <=? lvl)%nat (toks 0 l ++ [Sym 124] ++ toks 1 r)
  | TBack t => paren (2 <=? lvl)%nat (toks 2 t ++ [Sym 38])
  | TList l r => paren (3 <=? lvl)%nat (toks 2 l ++ [Sym 59] ++ toks 3 r)
  end.

(** Commands that have a spelling: words of word characters, and at most nine
    of them in a simple command. *)
Fixpoint tree_ok (t : tree) : Prop :=
  match t with
  | TExec ws => Forall word_ok ws ∧ (length ws < MAXARGS)%nat
  | TRedir t f _ => tree_ok t ∧ word_ok f
  | TPipe l r | TList l r => tree_ok l ∧ tree_ok r
  | TBack t => tree_ok t
  end.

(** What may follow: nothing, or one of these. *)
Definition stops (cs : list Z) (ts : list token) : Prop :=
  match ts with [] => True | Sym c :: _ => c ∈ cs | _ => False end.

Lemma stops_seen cs ds ts : stops cs ts → (∀ c, c ∈ cs → c ∉ ds) → seen ds ts = false.
Proof.
  intros Hs Hd. destruct ts as [|[w|c|] ts]; simpl in *; try done. by apply bool_decide_eq_false_2, Hd.
Qed.

(** A word does not look like an operator. *)
Lemma word_seen ds w ts : word_ok w → (∀ c, c ∈ ds → c ∈ symbols) → seen ds (Word w :: ts) = false.
Proof.
  intros [Hne Hall] Hd. destruct w as [|c w]; [done|]. simpl. apply bool_decide_eq_false_2. intros Hin. apply list.Forall_cons in Hall as [[Hc _] _].
  destruct (sym_char c (Hd c Hin)) as (_ & ? & _). congruence.
Qed.

Lemma stops_weaken cs ds ts : stops cs ts → (∀ c, c ∈ cs → c ∈ ds) → stops ds ts.
Proof. destruct ts as [|[w|c|] ts]; simpl; auto. Qed.

Definition peel (t : tree) : Prop := ∃ rs b, t = wrap rs b ∧ ∀ t' f k, b ≠ TRedir t' f k.

Lemma peel_all t : peel t.
Proof.
  induction t as [ws|t (rs & b & -> & Hb) f k| | |].
  2: { exists (rs ++ [(f, k)]), b. split; [|done]. unfold wrap. by rewrite foldl_app. }
  all: by eexists [], _.
Qed.

Lemma toks_wrap rs : ∀ t, toks 0 (wrap rs t) = toks 0 t ++ rtoks rs.
Proof.
  induction rs as [|[f k] rs IH] using rev_ind; intros t; [simpl; by rewrite app_nil_r|].
  unfold wrap. rewrite foldl_app. simpl. fold (wrap rs t). rewrite IH, <-app_assoc. f_equal. unfold rtoks. by rewrite bind_app.
Qed.

Section roundtrip.
Context (m : nat).

Definition gives (ma : kM (list token) tree) (ts : list token) (t : tree) (ts' : list token) : Prop :=
  returns ma ts (λ x y, x = t ∧ y = ts').

Lemma returns_redirs n : ∀ rs rs0 ts, seen [60; 62] ts = false → returns (a_redirs n rs0) (rtoks rs ++ ts) (λ x y, x = rs0 ++ rs ∧ y = ts).
Proof.
  induction n as [|n IH]; intros rs rs0 ts Hs; [done|]. cbn [a_redirs]. apply returns_bind. unfold a_peek, kgets, returns at 1.
  destruct rs as [|[f k] rs]; [simpl; rewrite Hs; unfold returns; simpl; by rewrite app_nil_r|].
  replace (seen [60; 62] (rtoks ((f, k) :: rs) ++ ts)) with true by (by destruct k).
  apply returns_bind. unfold returns at 1. simpl. apply returns_bind. unfold returns at 1. simpl.
  replace (if bool_decide _ then RIn else ROut) with k by (by destruct k).
  eapply returns_mono; [by apply IH|]. intros x y [-> ->]. by rewrite <-app_assoc.
Qed.

(** The words, and the redirections behind the last one. *)
Lemma returns_args n : ∀ ws ws0 rs0 rs ts, ws ≠ [] → (length ws0 + length ws < MAXARGS)%nat → Forall word_ok ws → stops [124; 41; 38; 59] ts →
  returns (a_args m n ws0 rs0) ((Word <$> ws) ++ rtoks rs ++ ts) (λ x y, x = (ws0 ++ ws, rs0 ++ rs) ∧ y = ts).
Proof.
  induction n as [|n IH]; intros ws ws0 rs0 rs ts Hne Hlen Hws Hst; [done|]. cbn [a_args]. apply returns_bind. unfold a_peek, kgets, returns at 1.
  destruct ws as [|w ws]; [done|]. apply list.Forall_cons in Hws as [Hw Hws]. cbn [fmap list_fmap app].
  rewrite (word_seen [124; 41; 38; 59]) by (done || (intros c Hc; chars)).
  apply returns_bind. unfold returns at 1. simpl. apply returns_bind. simpl in Hlen. rewrite bool_decide_eq_false_2 by lia.
  unfold returns at 1. simpl. apply returns_bind. destruct ws as [|w' ws].
  - eapply returns_mono; [apply returns_redirs; eapply stops_seen; [exact Hst|]|].
    { intros c Hc Hd. chars. }
    intros x y [-> ->]. destruct n as [|n]; [done|]. cbn [a_args]. apply returns_bind. unfold a_peek, kgets, returns at 1.
    destruct ts as [|[w1|c|] ts]; simpl in Hst; [done|done| |done].
    replace (seen _ (Sym c :: ts)) with true by (symmetry; simpl; by apply bool_decide_eq_true_2). by unfold returns.
  - assert (seen [60; 62] (Word w' :: (Word <$> ws) ++ rtoks rs ++ ts) = false) as Hsn.
    { apply list.Forall_cons in Hws as [Hw' _]. apply word_seen; [done|]. intros c Hc. chars. }
    eapply returns_mono; [apply (returns_redirs m [] rs0 _ Hsn)|]. intros x y [-> ->]. rewrite app_nil_r.
    eapply returns_mono; [apply (IH (w' :: ws) (ws0 ++ [w]) rs0 rs ts); [done|rewrite length_app; simpl in *; lia|done|done]|].
    intros x y [-> ->]. by rewrite <-app_assoc.
Qed.

(** A simple command with redirections. *)
Lemma exec_gives fuel ws rs ts : Forall word_ok ws → (length ws < MAXARGS)%nat → stops [124; 41; 38; 59] ts →
  gives (a_exec m fuel) ((Word <$> ws) ++ rtoks rs ++ ts) (wrap rs (TExec ws)) ts.
Proof.
  intros Hws Hlen Hst. destruct fuel as [|fuel]; [done|]. unfold gives. cbn [a_exec]. apply returns_bind. unfold a_peek, kgets, returns at 1.
  destruct ws as [|w ws].
  - assert (seen [40] ((Word <$> []) ++ rtoks rs ++ ts) = false) as ->.
    { destruct rs as [|[f [|]] rs]; [|done|done]. simpl. eapply stops_seen; [exact Hst|]. intros c Hc Hd. chars. }
    apply returns_bind. eapply returns_mono; [apply (returns_redirs m rs []); eapply stops_seen; [exact Hst|]; intros c Hc Hd; chars|].
    intros x y [-> ->]. apply returns_bind. destruct m as [|n]; [done|]. cbn [a_args]. apply returns_bind. unfold a_peek, kgets, returns at 1.
    destruct ts as [|[w|c|] ts]; simpl in Hst; [done|done| |done].
    replace (seen [124; 41; 38; 59] (Sym c :: ts)) with true by (symmetry; simpl; by apply bool_decide_eq_true_2). by unfold returns.
  - pose proof Hws as Hws'. apply list.Forall_cons in Hws' as [Hw _]. cbn [fmap list_fmap app]. rewrite (word_seen [40]) by (done || (intros c Hc; chars)).
    apply returns_bind. eapply returns_mono; [apply (returns_redirs m [] [] (Word w :: (Word <$> ws) ++ rtoks rs ++ ts))|].
    { apply word_seen; [done|]. intros c Hc. chars. }
    intros x y [-> ->]. apply returns_bind. eapply returns_mono; [apply (returns_args m (w :: ws) [] [] rs ts); try done|].
    intros x y [-> ->]. by unfold returns.
Qed.

(** The levels: each parses what is printed at that level. *)
Definition lvl0 (t : tree) : Prop := ∀ fuel ts, stops [124; 41; 38; 59] ts → gives (a_exec m fuel) (toks 0 t ++ ts) t ts.
Definition lvl1 (t : tree) : Prop := ∀ fuel ts, stops [41; 38; 59] ts → gives (a_pipe m fuel) (toks 1 t ++ ts) t ts.
Definition lvl2 (t : tree) : Prop := ∀ fuel n ts t' ts', stops [41; 38; 59] ts → (∀ n, gives (a_backs n t) ts t' ts') →
  gives (x ← a_pipe m fuel; a_backs n x)%kern (toks 2 t ++ ts) t' ts'.
Definition lvl3 (t : tree) : Prop := ∀ fuel ts, stops [41] ts → gives (a_line m fuel) (toks 3 t ++ ts) t ts.

Lemma backs_none n t ts : stops [41; 59] ts → gives (a_backs n t) ts t ts.
Proof.
  intros Hst. destruct n as [|n]; [done|]. unfold gives. cbn [a_backs]. apply returns_bind. unfold a_peek, kgets, returns at 1.
  rewrite (stops_seen _ _ _ Hst) by (intros c Hc Hd; chars). by unfold returns.
Qed.

Lemma lvl_01 t : lvl0 t → toks 1 t = toks 0 t → lvl1 t.
Proof.
  intros H0 Heq fuel ts Hst. rewrite Heq. destruct fuel as [|fuel]; [done|]. unfold gives. cbn [a_pipe]. apply returns_bind.
  eapply returns_mono; [apply H0; eapply stops_weaken; [exact Hst|]; intros c Hc; chars|]. intros x y [-> ->].
  apply returns_bind. unfold a_peek, kgets, returns at 1. rewrite (stops_seen _ _ _ Hst) by (intros c Hc Hd; chars). by unfold returns.
Qed.

Lemma lvl_12 t : lvl1 t → toks 2 t = toks 1 t → lvl2 t.
Proof.
  intros H1 Heq fuel n ts t' ts' Hst Hk. rewrite Heq. unfold gives. apply returns_bind. eapply returns_mono; [by apply H1|].
  intros x y [-> ->]. apply Hk.
Qed.

(** [parseline] up to the semicolon. *)
Lemma line_first t fuel ts (k : tree → kM (list token) tree) Q : lvl2 t → stops [41; 59] ts → returns (k t) ts Q →
  returns (x ← a_pipe m fuel; x ← a_backs m x; k x)%kern (toks 2 t ++ ts) Q.
Proof.
  intros H2 Hst Hk. apply returns_assoc, returns_bind. eapply returns_mono.
  { apply (H2 fuel m ts t ts); [eapply stops_weaken; [exact Hst|]; intros c Hc; chars|]. intros n. by apply backs_none. }
  by intros x y [-> ->].
Qed.

Lemma lvl_23 t : lvl2 t → toks 3 t = toks 2 t → lvl3 t.
Proof.
  intros H2 Heq fuel ts Hst. rewrite Heq. destruct fuel as [|fuel]; [done|]. unfold gives. cbn [a_line].
  apply line_first; [done|eapply stops_weaken; [exact Hst|]; intros c Hc; chars|].
  apply returns_bind. unfold a_peek, kgets, returns at 1. rewrite (stops_seen _ _ _ Hst) by (intros c Hc Hd; chars). by unfold returns.
Qed.

Lemma lvl3_list l r : lvl2 l → lvl3 r → lvl3 (TList l r).
Proof.
  intros Hl Hr fuel ts Hst. destruct fuel as [|fuel]; [done|]. unfold gives. cbn [a_line toks paren Nat.leb]. rewrite <-!app_assoc.
  apply line_first; [done|simpl; chars|]. apply returns_bind. unfold a_peek, kgets, returns at 1. simpl. apply returns_bind.
  unfold returns at 1. simpl. apply returns_bind. eapply returns_mono; [by apply Hr|]. intros x y [-> ->]. by unfold returns.
Qed.

Lemma lvl2_back t : lvl2 t → lvl2 (TBack t).
Proof.
  intros H2 fuel n ts t' ts' Hst Hk. cbn [toks paren Nat.leb]. rewrite <-app_assoc. apply H2; [simpl; chars|]. intros n'.
  destruct n' as [|n']; [done|]. unfold gives. cbn [a_backs]. apply returns_bind. unfold a_peek, kgets, returns at 1. simpl.
  apply returns_bind. unfold returns at 1. simpl. apply Hk.
Qed.

Lemma lvl1_pipe l r : lvl0 l → lvl1 r → lvl1 (TPipe l r).
Proof.
  intros Hl Hr fuel ts Hst. destruct fuel as [|fuel]; [done|]. unfold gives. cbn [a_pipe toks paren Nat.leb]. rewrite <-!app_assoc.
  apply returns_bind. eapply returns_mono; [apply Hl; simpl; chars|]. intros x y [-> ->].
  apply returns_bind. unfold a_peek, kgets, returns at 1. simpl. apply returns_bind. unfold returns at 1. simpl.
  apply returns_bind. eapply returns_mono; [by apply Hr|]. intros x y [-> ->]. by unfold returns.
Qed.

(** A command in parentheses, with redirections. *)
Lemma lvl0_block b rs : lvl3 b → toks 0 b = [Sym 40] ++ toks 3 b ++ [Sym 41] → lvl0 (wrap rs b).
Proof.
  intros H3 Heq fuel ts Hst. rewrite toks_wrap, Heq, <-!app_assoc. destruct fuel as [|[|fuel]]; [done|done|]. unfold gives. cbn [a_exec a_block].
  apply returns_bind. unfold a_peek, kgets, returns at 1. simpl app. cbn [seen first]. rewrite bool_decide_eq_true_2 by chars.
  apply returns_bind. unfold returns at 1. cbn [seen first]. rewrite bool_decide_eq_true_2 by chars. apply returns_bind. unfold returns at 1. simpl.
  apply returns_bind. unfold returns at 1. simpl. apply returns_bind. eapply returns_mono; [apply (H3 fuel (Sym 41 :: rtoks rs ++ ts)); simpl; chars|].
  intros x y [-> ->]. apply returns_bind. unfold returns at 1. simpl. apply returns_bind. unfold returns at 1. simpl.
  apply returns_bind. unfold returns at 1. simpl. apply returns_bind.
  eapply returns_mono; [apply (returns_redirs m rs []); eapply stops_seen; [exact Hst|]; intros c Hc Hd; chars|].
  intros x y [-> ->]. by unfold returns.
Qed.

Lemma block_levels t : lvl3 t → toks 0 t = [Sym 40] ++ toks 3 t ++ [Sym 41] → lvl0 t.
Proof. intros H3 Heq. by apply (lvl0_block t []). Qed.

Fixpoint size (t : tree) : nat :=
  match t with TExec _ => 1 | TRedir t _ _ => S (size t) | TPipe l r | TList l r => S (size l + size r) | TBack t => S (size t) end.

Lemma size_wrap rs : ∀ t, size (wrap rs t) = (length rs + size t)%nat.
Proof. induction rs as [|x rs IH]; intros t; simpl; [done|]. rewrite IH. simpl. lia. Qed.

Lemma wrap_ok rs : ∀ t, tree_ok (wrap rs t) → tree_ok t.
Proof. induction rs as [|x rs IH]; intros t H; simpl in *; [done|]. by apply IH in H as [? _]. Qed.

Lemma levels n : ∀ t, (size t < n)%nat → tree_ok t → lvl0 t ∧ lvl1 t ∧ lvl2 t ∧ lvl3 t.
Proof.
  induction n as [|n IH]; intros t Hn Hok; [lia|].
  assert (lvl3 t → (toks 0 t = [Sym 40] ++ toks 3 t ++ [Sym 41]) → lvl0 t) as Hblock by apply block_levels.
  assert (∀ t, lvl0 t → toks 1 t = toks 0 t → toks 2 t = toks 0 t → toks 3 t = toks 0 t → lvl0 t ∧ lvl1 t ∧ lvl2 t ∧ lvl3 t) as Hup.
  { intros t' H0 E1 E2 E3. assert (lvl1 t') as H1 by by apply lvl_01. assert (lvl2 t') as H2 by (apply lvl_12; [done|congruence]).
    split_and!; try done. apply lvl_23; [done|congruence]. }
  destruct t as [ws|t f k|l r|l r|t].
  - apply Hup; try done. intros fuel ts Hst. destruct Hok. exact (exec_gives fuel ws [] ts ltac:(done) ltac:(done) Hst).
  - apply Hup; try done. destruct (peel_all (TRedir t f k)) as (rs & b & Heq & Hb). rewrite Heq in *. pose proof (wrap_ok _ _ Hok) as Hbok.
    destruct rs as [|x rs]; [by destruct (Hb t f k)|]. rewrite size_wrap in Hn. simpl in Hn.
    destruct b as [ws|t' f' k'|l r|l r|t']; [|by destruct (Hb t' f' k')|..].
    + intros fuel ts Hst. rewrite toks_wrap, <-app_assoc. destruct Hbok. by apply exec_gives.
    + apply lvl0_block; [|done]. apply IH; [simpl in *; lia|done].
    + apply lvl0_block; [|done]. apply IH; [simpl in *; lia|done].
    + apply lvl0_block; [|done]. apply IH; [simpl in *; lia|done].
  - destruct Hok as [Hl Hr]. simpl in Hn. destruct (IH l ltac:(lia) Hl) as (L0 & _). destruct (IH r ltac:(lia) Hr) as (_ & R1 & _).
    assert (lvl1 (TPipe l r)) as H1 by by apply lvl1_pipe. assert (lvl2 (TPipe l r)) as H2 by by apply lvl_12.
    assert (lvl3 (TPipe l r)) as H3 by by apply lvl_23. split_and!; try done. by apply Hblock.
  - destruct Hok as [Hl Hr]. simpl in Hn. destruct (IH l ltac:(lia) Hl) as (_ & _ & L2 & _). destruct (IH r ltac:(lia) Hr) as (_ & _ & _ & R3).
    assert (lvl3 (TList l r)) as H3 by by apply lvl3_list. assert (lvl0 (TList l r)) as H0 by by apply Hblock.
    assert (lvl1 (TList l r)) as H1 by by apply lvl_01. split_and!; try done. by apply lvl_12.
  - simpl in Hn. destruct (IH t ltac:(lia) Hok) as (_ & _ & T2 & _). assert (lvl2 (TBack t)) as H2 by by apply lvl2_back.
    assert (lvl3 (TBack t)) as H3 by by apply lvl_23. assert (lvl0 (TBack t)) as H0 by by apply Hblock. split_and!; try done. by apply lvl_01.
Qed.
End roundtrip.

(** ** Strings in place *)

(** The command that a node stands for, with its strings read from [m]. *)
Fixpoint view (fuel : nat) (h : list node) (m : list Z) (p : nat) : option tree :=
  match fuel with
  | O => None
  | S fuel =>
    match h !! p with
    | None => None
    | Some (EXEC a _) => Some (TExec (args_at m a))
    | Some (REDIR c f _ mode fd) =>
      let k := if decide (fd = 0) then RIn else ROut in
      if decide (mode = mode_of k ∧ fd = fd_of k) then (λ t, TRedir t (text_at m f) k) <$> view fuel h m c else None
    | Some (PIPE l r) => tl ← view fuel h m l; tr ← view fuel h m r; Some (TPipe tl tr)
    | Some (LIST l r) => tl ← view fuel h m l; tr ← view fuel h m r; Some (TList tl tr)
    | Some (BACK c) => TBack <$> view fuel h m c
    end
  end.

Section strings.
Context (buf : list Z).

(** Places behind words, and a line with nulls at such places, [E] among them. *)
Definition stop (e : nat) : Prop := (e ≤ length buf)%nat ∧ ends_word (drop e buf).
Record marked (E : list nat) (m : list Z) : Prop := {
  mk_len : length m = S (length buf);
  mk_word i c : buf !! i = Some c → is_word c = true → m !! i = Some c;
  mk_null e : e ∈ E → m !! e = Some 0;
}.

Definition nul (E : list nat) (m : list Z) : list Z := foldl (λ m e, <[e := 0]> m) m E.

Lemma marked_nul E : ∀ E0 m, Forall stop E → marked E0 m → marked (E0 ++ E) (nul E m).
Proof.
  induction E as [|e E IH]; intros E0 m HE [M1 M2 M3]; simpl; [by rewrite app_nil_r|]. apply list.Forall_cons in HE as [[He Hend] HE].
  replace (E0 ++ e :: E) with ((E0 ++ [e]) ++ E) by (by rewrite <-app_assoc). apply IH; [done|]. split.
  - by rewrite length_insert.
  - intros i c Hi Hw. rewrite list_lookup_insert_ne; [by apply M2|]. intros <-. unfold ends_word in Hend.
    rewrite (drop_S buf c e Hi) in Hend. congruence.
  - intros x [Hx| ->%list_elem_of_singleton]%elem_of_app.
    + destruct (decide (x = e)) as [->|Hne]; [apply list_lookup_insert_eq; lia|]. rewrite list_lookup_insert_ne by done. by apply M3.
    + apply list_lookup_insert_eq. lia.
Qed.

Lemma marked_text E m q e : marked E m → span_ok buf q e → e ∈ E → text_at m q = word_of buf q e.
Proof.
  intros [M1 M2 M3] (Hqe & [_ Hw] & _) He. unfold text_at, word_of in *. set (w := take (e - q) (drop q buf)) in *.
  assert (drop q m = w ++ 0 :: drop (S e) m) as ->.
  { rewrite <-(take_drop (e - q) (drop q m)). rewrite drop_drop. replace (q + (e - q))%nat with e by lia.
    rewrite (drop_S m 0 e) by by apply M3. f_equal. apply list_eq_same_length with (e - q)%nat.
    - unfold w. rewrite length_take, length_drop. lia.
    - rewrite length_take, length_drop. lia.
    - intros i x y Hi Hx Hy. rewrite list.Forall_forall in Hw. destruct (Hw y) as [Hyw _]; [by eapply list_elem_of_lookup_2|].
      unfold w in Hy. rewrite lookup_take_lt, lookup_drop in Hx, Hy by lia. specialize (M2 _ _ Hy Hyw). congruence. }
  clear -Hw. induction w as [|c w IH]; simpl; [done|]. apply list.Forall_cons in Hw as [[_ H0] Hw].
  rewrite bool_decide_eq_false_2 by done. by rewrite IH.
Qed.

Lemma args_marked E m qs : marked E m → Forall (λ x, span_ok buf x.1 x.2) qs → (∀ x, x ∈ qs → x.2 ∈ E) → (length qs < MAXARGS)%nat →
  args_at m (arr qs.*1) = (λ x, word_of buf x.1 x.2) <$> qs.
Proof.
  intros Hm. unfold arr. rewrite length_fmap. generalize (MAXARGS - length qs)%nat as k. intros k. assert (∀ k, args_at m (replicate k None) = []) as Hz by (by intros []).
  induction qs as [|[q e] qs IH]; intros Hs HE Hl; [apply Hz|]. apply list.Forall_cons in Hs as [Hs1 Hs]. simpl.
  rewrite (marked_text E m q e Hm Hs1) by (apply (HE (q, e)); left). f_equal. apply IH; [done|intros x Hx; apply HE; by right|simpl in Hl; lia].
Qed.

(** The loop over the arguments of [nulterminate]. *)
Lemma nul_args qs k m : (0 < k)%nat →
  (fix go (a e : list (option nat)) (m : list Z) :=
     match a, e with
     | Some _ :: a, Some p :: e => go a e (<[p := 0]> m)
     | None :: _, _ => Some m
     | _, _ => None
     end) ((Some <$> qs.*1) ++ replicate k None) ((Some <$> qs.*2) ++ replicate k None) m = Some (nul qs.*2 m).
Proof.
  intros Hk. revert m. induction qs as [|[q e] qs IH]; intros m; simpl; [destruct k; [lia|done]|]. apply IH.
Qed.

Lemma repr_nul h p t : repr buf h p t → ∃ E, Forall stop E ∧
  (∀ fuel m, (p < fuel)%nat → nulterminate fuel h p m = Some (nul E m)) ∧
  (∀ E' m fuel, marked E' m → (∀ e, e ∈ E → e ∈ E') → (p < fuel)%nat → view fuel h m p = Some t).
Proof.
  intros H. induction H as [p qs Hp Hl Hs|p c q e k t Hp Hlt Hs Hr (E & HE & Hn & Hv)|p l r tl tr Hp Hl Hr _ (E1 & HE1 & Hn1 & Hv1) _ (E2 & HE2 & Hn2 & Hv2)
    |p l r tl tr Hp Hl Hr _ (E1 & HE1 & Hn1 & Hv1) _ (E2 & HE2 & Hn2 & Hv2)|p c t Hp Hlt _ (E & HE & Hn & Hv)].
  - exists qs.*2. split; [|split].
    + apply Forall_fmap. eapply list.Forall_impl; [exact Hs|]. intros x (? & _ & ?). split; simpl; [lia|done].
    + intros [|fuel] m Hf; [lia|]. cbn [nulterminate]. rewrite Hp. unfold arr. rewrite !length_fmap. apply nul_args. lia.
    + intros E' m [|fuel] Hm HE Hf; [lia|]. cbn [view]. rewrite Hp. f_equal. f_equal. eapply args_marked; try done.
      intros x Hx. apply HE. apply list_elem_of_fmap. by exists x.
  - exists (E ++ [e]). split; [apply Forall_app; split; [done|]; constructor; [|constructor]; destruct Hs as (? & _ & ?); split; [lia|done]|]. split.
    + intros [|fuel] m Hf; [lia|]. cbn [nulterminate]. rewrite Hp, Hn by lia. simpl. unfold nul. by rewrite foldl_app.
    + intros E' m [|fuel] Hm HE' Hf; [lia|]. cbn [view]. rewrite Hp. replace (if decide (fd_of k = 0) then RIn else ROut) with k by by destruct k.
      cbv zeta. rewrite decide_True by done. rewrite (Hv E') by (done || lia || (intros x Hx; apply HE', elem_of_app; by left)).
      simpl. by rewrite (marked_text E' m q e) by (done || (apply HE', elem_of_app; right; by left)).
  - exists (E1 ++ E2). split; [apply Forall_app; by split|]. split.
    + intros [|fuel] m Hf; [lia|]. cbn [nulterminate]. rewrite Hp, Hn1 by lia. simpl. rewrite Hn2 by lia. unfold nul. by rewrite foldl_app.
    + intros E' m [|fuel] Hm HE' Hf; [lia|]. cbn [view]. rewrite Hp. rewrite (Hv1 E') by (done || lia || (intros x Hx; apply HE', elem_of_app; by left)). simpl.
      by rewrite (Hv2 E') by (done || lia || (intros x Hx; apply HE', elem_of_app; by right)).
  - exists (E1 ++ E2). split; [apply Forall_app; by split|]. split.
    + intros [|fuel] m Hf; [lia|]. cbn [nulterminate]. rewrite Hp, Hn1 by lia. simpl. rewrite Hn2 by lia. unfold nul. by rewrite foldl_app.
    + intros E' m [|fuel] Hm HE' Hf; [lia|]. cbn [view]. rewrite Hp. rewrite (Hv1 E') by (done || lia || (intros x Hx; apply HE', elem_of_app; by left)). simpl.
      by rewrite (Hv2 E') by (done || lia || (intros x Hx; apply HE', elem_of_app; by right)).
  - exists E. split; [done|]. split.
    + intros [|fuel] m Hf; [lia|]. cbn [nulterminate]. rewrite Hp. apply Hn. lia.
    + intros E' m [|fuel] Hm HE' Hf; [lia|]. cbn [view]. rewrite Hp. rewrite (Hv E') by (done || lia). done.
Qed.

Lemma repr_strings h p t : repr buf h p t → ∃ m, nulterminate (S (length h)) h p (buf ++ [0]) = Some m ∧ view (S (length h)) h m p = Some t.
Proof.
  intros H. destruct (repr_nul h p t H) as (E & HE & Hn & Hv). apply repr_lt in H. exists (nul E (buf ++ [0])).
  split; [apply Hn; lia|]. apply (Hv E); [|done|lia]. apply (marked_nul E []); [done|]. split.
  - rewrite length_app. simpl. lia.
  - intros i c Hi _. by apply lookup_app_l_Some.
  - intros e He. by apply not_elem_of_nil in He.
Qed.
End strings.

(** ** The parser *)

Lemma spells_length ts s : spells ts s → (length ts ≤ length s)%nat.
Proof.
  induction 1 as [b Hb|b w ts s Hb [Hw _] He Hs IH|b c ts s Hb Hc Hn Hs IH|b ts s Hb Hs IH]; simpl; rewrite ?length_app; simpl; try lia.
  destruct w; [done|]. simpl. lia.
Qed.

(** What [parsecmd] does, against the parser on tokens. *)
Definition agrees (buf : list Z) (ts : list token) : Prop :=
  match parsecmd buf (St 0 []), a_line (S (es buf)) (depth buf) ts with
  | Done (inl (p, m)) s, Done t ts' => ts' = [] ∧ view (S (length (heap s))) (heap s) m p = Some t
  | Done (inr i) _, Done _ ts' => ts' ≠ [] ∧ spells ts' (drop i buf)
  | Panic x, Panic y => x = y
  | _, _ => False
  end.

Lemma parsecmd_agrees buf ts : spells ts buf → agrees buf ts.
Proof.
  intros Hsp. pose proof (spells_length _ _ Hsp) as Hlen.
  assert (rel buf (St 0 []) ts) as R by (split; [simpl; lia|done]).
  pose proof (proj1 (sim_grammar buf (depth buf)) _ _ R) as Hsim.
  pose proof (proj1 (a_grammar_ends (S (es buf)) (depth buf)) ts ltac:(unfold depth, es; lia) ltac:(unfold es; lia)) as Hends.
  unfold sim, ends in *. unfold agrees, parsecmd. unfold kbind at 1.
  destruct (parseline buf (depth buf) (St 0 [])) as [p s| | |], (a_line (S (es buf)) (depth buf) ts) as [t ts'| | |]; try done.
  destruct Hsim as ([Hpos Htext] & _ & Hr). destruct (skip_spells buf ts' (pos s) Hpos Htext) as (Hj & Hs & Hf).
  unfold peek, kbind, kget, kput, kret. cbn [pos set_pos heap].
  set (j := skip buf is_ws (pos s)) in *. destruct ts' as [|tk ts'].
  - assert (j = es buf) as Hje by (apply (f_equal length) in Hf; rewrite length_drop in Hf; simpl in Hf; unfold es in *; lia).
    rewrite Hje, bool_decide_eq_false_2 by auto. destruct (repr_strings buf _ _ _ Hr) as (m & Hn & Hv). rewrite Hn. simpl. by split.
  - rewrite bool_decide_eq_true_2; [by split|]. intros Hje. destruct Hf as (c & r & Hd & _). rewrite Hje in Hd. unfold es in Hd. by rewrite drop_all in Hd.
Qed.

(** C8: the shell's parser always ends and refines recursive descent over
    tokens. Every line without nulls is a list of tokens; if the parser on tokens builds a command and
    uses them all up, so does [parsecmd], and the nodes it leaves, read through
    their pointers after the nulls have been written into the line, are that
    command; if it leaves tokens over, [parsecmd] stops before the same tokens;
    if it stops with a message, so does [parsecmd], with the same one. *)
Theorem parser_refines buf : Forall (λ c, c ≠ 0) buf → (∃ ts, spells ts buf) ∧ ∀ ts, spells ts buf → agrees buf ts.
Proof.
  intros H0. split; [|apply parsecmd_agrees]. destruct (spells_total (length buf) buf) as (ts & Hts & _); [done|done|]. by exists ts.
Qed.

(** However a command is spelled (with parentheses where the grammar needs
    them, and any white space), the nodes that [parsecmd] builds are the
    command. *)
Lemma parsecmd_spelled t buf : tree_ok t → spells (toks 3 t) buf →
  ∃ p m s, parsecmd buf (St 0 []) = Done (inl (p, m)) s ∧ view (S (length (heap s))) (heap s) m p = Some t.
Proof.
  intros Hok Hsp. pose proof (spells_length _ _ Hsp) as Hlen.
  assert (a_line (S (es buf)) (depth buf) (toks 3 t) = Done t []) as Ha.
  { destruct (levels (S (es buf)) (S (size t)) t ltac:(lia) Hok) as (_ & _ & _ & H3). specialize (H3 (depth buf) [] I).
    rewrite app_nil_r in H3. unfold gives, returns in H3.
    pose proof (proj1 (a_grammar_ends (S (es buf)) (depth buf)) (toks 3 t) ltac:(unfold depth, es; lia) ltac:(unfold es; lia)) as Hends.
    unfold ends in Hends. destruct (a_line _ _ _); try done. by destruct H3 as [-> ->]. }
  pose proof (parsecmd_agrees buf (toks 3 t) Hsp) as H. unfold agrees in H. rewrite Ha in H.
  destruct (parsecmd buf (St 0 [])) as [[[p m]|i] s| | |]; try done; [|by destruct H].
  destruct H as [_ Hv]. by exists p, m, s.
Qed.

(** "a<b" is three tokens. *)
Lemma parser_refines_witness :
  ∃ p m s, parsecmd [97; 60; 98] (St 0 []) = Done (inl (p, m)) s ∧
    view (S (length (heap s))) (heap s) m p = Some (TRedir (TExec [[97]]) [98] RIn).
Proof.
  assert (Forall (λ c, c ≠ 0) [97; 60; 98]) as H0 by (repeat constructor; lia).
  destruct (parser_refines [97; 60; 98] H0) as [_ H]. specialize (H [Word [97]; Sym 60; Word [98]]).
  assert (spells [Word [97]; Sym 60; Word [98]] [97; 60; 98]) as Hs.
  { assert (∀ c, c = 97 ∨ c = 98 → word_ok [c]) as Hw by (intros c [-> | ->]; split; [done|repeat constructor; by vm_compute|done|repeat constructor; by vm_compute]).
    apply (sp_word [] [97]); [constructor|auto|reflexivity|]. apply (sp_sym [] 60); [constructor|chars|done|].
    apply (sp_word [] [98] [] []); [constructor|auto|exact I|]. apply (sp_nil []). constructor. }
  specialize (H Hs). unfold agrees in H.
  assert (a_line (S (es [97; 60; 98])) (depth [97; 60; 98]) [Word [97]; Sym 60; Word [98]] = Done (TRedir (TExec [[97]]) [98] RIn) []) as Ha
    by (vm_compute; reflexivity).
  rewrite Ha in H. destruct (parsecmd [97; 60; 98] (St 0 [])) as [[[p m]|i] s| | |]; [|destruct H as [Hf _]; by destruct Hf|destruct H..].
  destruct H as [_ Hv]. exists p, m, s. split; [reflexivity|exact Hv].
Defined.
