(* ===== verification/ShellRun.v ===== *)
(** * What a command line runs

    The processes that [runcmd] starts, each with its descriptors, for systems
    that give out the lowest free descriptor as [fdalloc] of sysfile.c does. *)

From S2P Require Import Prelude CString Kalloc Log Fs User Progs Shell ShellThm.

Local Open Scope Z_scope.

(** ** Processes and their descriptors *)

(** What a descriptor stands for: something inherited, one end of the [n]-th
    pipe, or an open file. *)
Inductive obj := Other (n : Z) | PipeR (n : nat) | PipeW (n : nat) | Opened (path : list Z) (mode : Z).
Abbreviation table := (list (option obj)).

Fixpoint lowest (t : table) : option nat :=
  match t with [] => None | None :: _ => Some 0%nat | Some _ :: t => S <$> lowest t end.

(** [t] with [o] at its lowest free descriptor. *)
Definition put_low (o : obj) (t : table) : option (nat * table) := (λ i, (i, <[i := Some o]> t)) <$> lowest t.

Definition fd_get (t : table) (fd : Z) : option obj := if decide (0 ≤ fd) then mjoin (t !! Z.to_nat fd) else None.

(** A program that is started, with its arguments and descriptors. *)
Record image := Image { i_path : list Z; i_argv : list (list Z); i_fds : table }.

Section spawns.
(** The files that can be opened. *)
Context (can : list Z → Z → bool).

(** All the programs that a process and its children start, as long as forks
    succeed; [n] is the number of the next pipe. [None] if fuel runs out. *)
Fixpoint spawns {A} (m : prog A) (t : table) (n : nat) : option (list image * nat) :=
  match m with
  | Ret _ | Exit => Some ([], n)
  | Stuck => None
  | Call c k =>
    match c with
    | SYS_fork _ _ _ _ =>
      a ← spawns (k 0 []) t n;
      b ← spawns (k 1 []) t a.2;
      Some (a.1 ++ b.1, b.2)
    | SYS_exec path argv => Some ([Image path argv t], n)
    | SYS_close fd =>
      match fd_get t fd with Some _ => spawns (k 0 []) (<[Z.to_nat fd := None]> t) n | None => spawns (k (-1) []) t n end
    | SYS_dup fd =>
      match o ← fd_get t fd; put_low o t with Some (i, t) => spawns (k (Z.of_nat i) []) t n | None => spawns (k (-1) []) t n end
    | SYS_open path mode =>
      match (if can path mode then put_low (Opened path mode) t else None) with
      | Some (i, t) => spawns (k (Z.of_nat i) []) t n
      | None => spawns (k (-1) []) t n
      end
    | SYS_pipe =>
      match a ← put_low (PipeR n) t; b ← put_low (PipeW n) a.2; Some (a.1, b.1, b.2) with
      | Some (r, w, t) => spawns (k 0 [Z.of_nat r; Z.of_nat w]) t (S n)
      | None => spawns (k (-1) []) t n
      end
    | SYS_wait => spawns (k 1 []) t n
    | SYS_write _ bs => spawns (k (Z.of_nat (length bs)) []) t n
    | _ => spawns (k (-1) []) t n
    end
  end%stdpp.

(** ** What a command means *)

(** The programs of [t] when its descriptors are [tbl]. *)
Fixpoint wire (t : tree) (tbl : table) (n : nat) : list image * nat :=
  match t with
  | TExec [] => ([], n)
  | TExec (w :: ws) => ([Image w (w :: ws) tbl], n)
  | TRedir t f k =>
    if can f (mode_of k) then wire t (<[Z.to_nat (fd_of k) := Some (Opened f (mode_of k))]> tbl) n else ([], n)
  | TPipe l r =>
    let a := wire l (<[1%nat := Some (PipeW n)]> tbl) (S n) in
    let b := wire r (<[0%nat := Some (PipeR n)]> tbl) a.2 in
    (a.1 ++ b.1, b.2)
  | TList l r =>
    let a := wire l tbl n in
    let b := wire r tbl a.2 in
    (a.1 ++ b.1, b.2)
  | TBack t => wire t tbl n
  end.

(** ** Programs that do not return *)

Fixpoint never {A} (m : prog A) : Prop :=
  match m with Ret _ => False | Exit | Stuck => True | Call _ k => ∀ r d, never (k r d) end.

Lemma never_bind {A B} (m : prog A) (f : A → prog B) : never m → never (pbind m f).
Proof. induction m as [| | |c k IH]; simpl; auto. done. Qed.

Lemma never_after {A B} (m : prog A) (f : A → prog B) : (∀ a, never (f a)) → never (pbind m f).
Proof. intros Hf. induction m as [| | |c k IH]; simpl; auto. Qed.

Lemma spawns_never {A B} (m : prog A) (f : A → prog B) : never m → ∀ t n, spawns (pbind m f) t n = spawns m t n.
Proof.
  induction m as [a| | |c k IH]; intros Hm t n; [done..|]. simpl in *.
  destruct c; try (by apply IH); try (by destruct (fd_get t fd); apply IH); try done.
  - rewrite IH by done. destruct (spawns (k 0 []) t n) as [[a n1]|]; [|done]. simpl. by rewrite IH.
  - destruct (put_low (PipeR n) t) as [[r t1]|]; simpl; [|by apply IH]. destruct (put_low (PipeW n) t1) as [[w t2]|]; simpl; by apply IH.
  - destruct (if can path mode then _ else _) as [[i t']|]; by apply IH.
  - destruct (fd_get t fd) as [o|]; simpl; [|by apply IH]. destruct (put_low o t) as [[i t']|]; by apply IH.
Qed.

(** Two trees of the same calls start the same programs. *)
Fixpoint same {A} (m m' : prog A) : Prop :=
  match m, m' with
  | Ret a, Ret b => a = b
  | Exit, Exit | Stuck, Stuck => True
  | Call c k, Call c' k' => c = c' ∧ ∀ r d, same (k r d) (k' r d)
  | _, _ => False
  end.

Lemma same_refl {A} (m : prog A) : same m m.
Proof. induction m as [| | |c k IH]; simpl; auto. Qed.

Lemma spawns_same {A} (m : prog A) : ∀ m' t n, same m m' → spawns m t n = spawns m' t n.
Proof.
  induction m as [a| | |c k IH]; intros [a'| | |c' k'] t n Hs; try done. destruct Hs as [<- Hs]. simpl.
  destruct c; try (by apply IH); try done.
  - rewrite (IH _ _ (k' 0 [])) by done. destruct (spawns (k' 0 []) t n) as [[a n1]|]; [|done]. simpl. by rewrite (IH _ _ (k' 1 [])).
  - destruct (put_low (PipeR n) t) as [[r t1]|]; simpl; [|by apply IH]. destruct (put_low (PipeW n) t1) as [[w t2]|]; simpl; by apply IH.
  - destruct (fd_get t fd); by apply IH.
  - destruct (if can path mode then _ else _) as [[i t']|]; by apply IH.
  - destruct (fd_get t fd) as [o|]; simpl; [|by apply IH]. destruct (put_low o t) as [[i t']|]; by apply IH.
Qed.

Lemma same_assoc {A B C} (m : prog A) (f : A → prog B) (g : B → prog C) :
  same (pbind (pbind m f) g) (pbind m (λ a, pbind (f a) g)).
Proof. induction m as [a| | |c k IH]; simpl; auto. apply same_refl. Qed.

(** Printing starts nothing. *)
Lemma spawns_puts {A} fd (f : unit → prog A) l t n : spawns (pbind (pfor l (putc fd)) f) t n = spawns (f tt) t n.
Proof. induction l as [|c l IH]; [done|]. cbn [pfor]. unfold putc at 1, sys. cbn [pbind]. cbn [spawns]. exact IH. Qed.

Lemma spawns_printf {A} fd (f : unit → prog A) t n fmt : ∀ state ap txt, ftext state fmt ap = Some txt →
  spawns (pbind (printf_loop fd state fmt ap) f) t n = spawns (f tt) t n.
Proof.
  induction fmt as [|c fmt IH]; intros state ap txt Ht; cbn [printf_loop ftext] in *; [done|]. destruct state.
  - destruct (conversion c ap) as [[u ap']|]; [|done]. apply fmap_Some in Ht as (t' & Ht & _).
    rewrite (spawns_same _ _ _ _ (same_assoc _ _ _)), spawns_puts. by eapply IH.
  - case_bool_decide; [by eapply IH|]. apply fmap_Some in Ht as (t' & Ht & _).
    unfold putc, sys. cbn [pbind]. cbn [spawns]. by eapply IH.
Qed.

Lemma never_exit {A B} (m : prog A) : never (pbind m (λ _, @Exit B)).
Proof. by apply never_after. Qed.

Lemma never_panic {A} s : never (@sh_panic A s).
Proof. apply never_exit. Qed.

Lemma runcmd_never fuel : ∀ h m p, never (runcmd fuel h m p).
Proof.
  induction fuel as [|fuel IH]; intros h m p; [done|]. cbn [runcmd]. destruct (h !! p) as [[a e|c f ef mode fd|l r|l r|c]|]; [|..|done].
  - destruct (args_at m a); [done|]. apply never_after. intros _. apply never_exit.
  - do 2 (apply never_after; intros ?). case_bool_decide; apply never_exit.
  - apply never_after. intros x. case_bool_decide; [apply never_panic|]. do 8 (apply never_after; intros ?). done.
  - do 3 (apply never_after; intros ?). apply never_exit.
  - apply never_after; intros ?. apply never_exit.
Qed.

(** ** Wiring *)

(** The standard descriptors, and nothing else, are open. *)
Record std (t : table) : Prop := {
  sd_len : length t = 16%nat;
  sd_open i : (i < 3)%nat → ∃ o, t !! i = Some (Some o);
  sd_free i : (3 ≤ i < 16)%nat → t !! i = Some None;
}.

Lemma std_shape t : std t → ∃ a b c, t = Some a :: Some b :: Some c :: replicate 13 None.
Proof.
  intros [Hl Ho Hf]. destruct (Ho 0%nat ltac:(lia)) as [a Ha]. destruct (Ho 1%nat ltac:(lia)) as [b Hb]. destruct (Ho 2%nat ltac:(lia)) as [c Hc].
  exists a, b, c. apply list_eq_same_length with 16%nat; [done|done|]. intros i x y Hi Hx Hy.
  destruct i as [|[|[|i]]]; simpl in Hy; [congruence..|]. rewrite Hf in Hx by lia. change ((replicate 13 None) !! i = Some y) in Hy. apply lookup_replicate in Hy as [-> _]. congruence.
Qed.

Lemma shape_std a b c : std (Some a :: Some b :: Some c :: replicate 13 None).
Proof.
  split; [done| |].
  - intros [|[|[|i]]] Hi; simpl; eauto. lia.
  - intros [|[|[|i]]] Hi; simpl; try lia. apply (lookup_replicate_2 13). lia.
Qed.

Lemma spawns_exit {A B} (m : prog A) t n : never m → spawns (pbind m (λ _, @Exit B)) t n = spawns m t n.
Proof. intros Hm. by apply spawns_never. Qed.

(** A child and what the parent does after the fork. *)
Lemma spawns_fork1 {A} (child : prog unit) (k : prog A) t n : never child →
  spawns (pid ← fork1; (if bool_decide (pid = 0) then child else Ret tt) ;; k)%prog t n =
  (a ← spawns child t n; b ← spawns k t a.2; Some (a.1 ++ b.1, b.2))%stdpp.
Proof.
  intros Hc. unfold fork1, sys. cbn [pbind]. cbn [spawns]. rewrite (bool_decide_eq_false_2 (0 = -1)) by done. rewrite (bool_decide_eq_false_2 (1 = -1)) by done.
  cbn [pbind]. rewrite (bool_decide_eq_true_2 (0 = 0)) by done. rewrite (bool_decide_eq_false_2 (1 = 0)) by done. cbn [pbind]. by rewrite spawns_never.
Qed.

Lemma spawns_close {A} fd o (f : Z → prog A) t n : fd_get t fd = Some o →
  spawns (pbind (sys (SYS_close fd)) f) t n = spawns (f 0) (<[Z.to_nat fd := None]> t) n.
Proof. intros H. simpl. by rewrite H. Qed.

Lemma spawns_dup {A} fd o i (f : Z → prog A) t t' n : fd_get t fd = Some o → put_low o t = Some (i, t') →
  spawns (pbind (sys (SYS_dup fd)) f) t n = spawns (f (Z.of_nat i)) t' n.
Proof. intros H H'. simpl. rewrite H. simpl. by rewrite H'. Qed.

Lemma spawns_wait {A} (f : Z → prog A) t n : spawns (pbind (sys SYS_wait) f) t n = spawns (f 1) t n.
Proof. done. Qed.

(** Opening a file after closing the descriptor it is to have. *)
Lemma redirect {A} (k : rkind) x y z path (f : Z → prog A) n :
  let t := Some x :: Some y :: Some z :: replicate 13 None in
  spawns (sys (SYS_close (fd_of k)) ;; r ← sys (SYS_open path (mode_of k)); f r)%prog t n =
  if can path (mode_of k) then spawns (f (fd_of k)) (<[Z.to_nat (fd_of k) := Some (Opened path (mode_of k))]> t) n
  else spawns (f (-1)) (<[Z.to_nat (fd_of k) := None]> t) n.
Proof.
  intros t. destruct k.
  - rewrite (spawns_close _ x) by reflexivity. unfold sys. cbn [pbind]. cbn [spawns]. by destruct (can path _).
  - rewrite (spawns_close _ y) by reflexivity. unfold sys. cbn [pbind]. cbn [spawns]. by destruct (can path _).
Qed.

(** The child of a pipe that writes, and the one that reads. *)
Lemma connect {A} (i j : Z) x y z n (k : prog A) :
  let t := [Some x; Some y; Some z; Some (PipeR n); Some (PipeW n)] ++ replicate 11 None in
  (i, j) = (1, 4) ∨ (i, j) = (0, 3) → ∀ n',
  spawns (sys (SYS_close i) ;; sys (SYS_dup j) ;; sys (SYS_close 3) ;; sys (SYS_close 4) ;; k)%prog t n' =
  spawns k (<[Z.to_nat i := Some (if decide (i = 1) then PipeW n else PipeR n)]> (Some x :: Some y :: Some z :: replicate 13 None)) n'.
Proof.
  intros t [[= -> ->]|[= -> ->]] n'.
  - rewrite (spawns_close _ y) by reflexivity. rewrite (spawns_dup _ (PipeW n) 1 _ _ ([Some x; Some (PipeW n); Some z; Some (PipeR n); Some (PipeW n)] ++ replicate 11 None))
      by reflexivity. rewrite (spawns_close _ (PipeR n)) by reflexivity. by rewrite (spawns_close _ (PipeW n)) by reflexivity.
  - rewrite (spawns_close _ x) by reflexivity. rewrite (spawns_dup _ (PipeR n) 0 _ _ ([Some (PipeR n); Some y; Some z; Some (PipeR n); Some (PipeW n)] ++ replicate 11 None))
      by reflexivity. rewrite (spawns_close _ (PipeR n)) by reflexivity. by rewrite (spawns_close _ (PipeW n)) by reflexivity.
Qed.

Lemma runcmd_wires fuel : ∀ h m p t tbl n, view fuel h m p = Some t → std tbl → spawns (runcmd fuel h m p) tbl n = Some (wire t tbl n).
Proof.
  induction fuel as [|fuel IH]; intros h m p t tbl n Hv Hstd; [done|]. cbn [view runcmd] in *.
  destruct (std_shape tbl Hstd) as (x & y & z & Htbl). destruct (h !! p) as [[a e|c f ef mode fd|l r|l r|c]|]; [|..|done].
  - injection Hv as <-. destruct (args_at m a); reflexivity.
  - set (k := if decide (fd = 0) then RIn else ROut) in *. clearbody k. cbv zeta in Hv. case_decide as Hm; [|done]. destruct Hm as [-> ->].
    apply fmap_Some in Hv as (t' & Hv & ->). cbn [wire]. rewrite Htbl, redirect. destruct (can (text_at m f) (mode_of k)).
    + rewrite bool_decide_eq_false_2 by (by destruct k). rewrite spawns_exit by apply runcmd_never. apply IH; [done|]. destruct k; apply shape_std.
    + rewrite bool_decide_eq_true_2 by done. unfold printf. by erewrite spawns_printf.
  - destruct (view fuel h m l) as [tl|] eqn:Hl; [|done]. destruct (view fuel h m r) as [tr|] eqn:Hr; [|done]. injection Hv as <-.
    rewrite Htbl. unfold sysd at 1. cbn [pbind]. cbn [spawns].
    replace (a ← put_low (PipeR n) _; b ← put_low (PipeW n) a.2; Some (a.1, b.1, b.2))%stdpp with
      (Some (3%nat, 4%nat, [Some x; Some y; Some z; Some (PipeR n); Some (PipeW n)] ++ replicate 11 None)) by reflexivity.
    cbn [fst snd st_word lookup list_lookup default]. rewrite bool_decide_eq_false_2 by done.
    change (st_word [Z.of_nat 3; Z.of_nat 4] 0) with 3. change (st_word [Z.of_nat 3; Z.of_nat 4] 1) with 4. cbv zeta.
    rewrite spawns_fork1 by (do 4 (apply never_after; intros ?); apply runcmd_never).
    rewrite connect by auto. rewrite (IH h m l tl _ _ Hl) by apply shape_std. cbn [mbind option_bind].
    rewrite spawns_fork1 by (do 4 (apply never_after; intros ?); apply runcmd_never).
    rewrite connect by auto. rewrite (IH h m r tr _ _ Hr) by apply shape_std. cbn [mbind option_bind].
    rewrite (spawns_close _ (PipeR n)) by reflexivity. rewrite (spawns_close _ (PipeW n)) by reflexivity. rewrite !spawns_wait. cbn [spawns fst snd].
    cbn [mbind option_bind fst snd]. rewrite app_nil_r. reflexivity.
  - destruct (view fuel h m l) as [tl|] eqn:Hl; [|done]. destruct (view fuel h m r) as [tr|] eqn:Hr; [|done]. injection Hv as <-.
    rewrite spawns_fork1 by apply runcmd_never. rewrite (IH h m l tl tbl n Hl Hstd). cbn [mbind option_bind]. rewrite spawns_wait.
    rewrite spawns_exit by apply runcmd_never. by rewrite (IH h m r tr tbl _ Hr Hstd).
  - apply fmap_Some in Hv as (t' & Hv & ->). rewrite spawns_fork1 by apply runcmd_never. rewrite (IH h m c t' tbl n Hv Hstd). simpl.
    rewrite app_nil_r. by destruct (wire t' tbl n).
Qed.

(** C7: the shell runs what was typed. Take a command of words, redirections, pipes, lists
    and background jobs, with fewer than MAXARGS words to a program, spelled by its tokens
    in the order of the grammar, with any white space between them. Run with descriptors 0 to 2 open and the others
    closed, and as long as forks succeed, the process that parses and runs it starts
    exactly the programs of the command, each with its arguments and descriptors: the
    writer of a pipe has the pipe as its standard output and the reader as its standard
    input, a redirection replaces its descriptor, everything else is inherited, and no
    end of a pipe stays open anywhere else. *)
Theorem shell_runs t buf tbl n : tree_ok t → spells (toks 3 t) buf → std tbl →
  spawns (parse_and_run buf) tbl n = Some (wire t tbl n).
Proof.
  intros Hok Hsp Hstd. destruct (parsecmd_spelled t buf Hok Hsp) as (p & m & s & Hp & Hv). unfold parse_and_run. rewrite Hp.
  by apply runcmd_wires.
Qed.
End spawns.

(** "a|b>c" with descriptors 0, 1 and 2 open. *)
Definition demo_tbl : table := Some (Other 0) :: Some (Other 1) :: Some (Other 2) :: replicate 13 None.

Lemma shell_runs_witness :
  spawns (λ _ _, true) (parse_and_run [97; 124; 98; 62; 99]) demo_tbl 0 =
  Some ([Image [97] [[97]] (<[1%nat := Some (PipeW 0)]> demo_tbl);
         Image [98] [[98]] (<[1%nat := Some (Opened [99] 0x201)]> (<[0%nat := Some (PipeR 0)]> demo_tbl))], 1%nat).
Proof.
  assert (∀ c, c ∈ [97; 98; 99] → word_ok [c]) as Hw.
  { intros c Hc. split; [done|]. constructor; [|constructor]. rewrite !elem_of_cons, elem_of_nil in Hc. destruct Hc as [->|[->|[->|[]]]]; by vm_compute. }
  assert (tree_ok (TPipe (TExec [[97]]) (TRedir (TExec [[98]]) [99] ROut))) as Hok.
  { assert (∀ c, c ∈ [97; 98; 99] → tree_ok (TExec [[c]])) as Ht.
    { intros c Hc. split; [constructor; [by apply Hw|constructor]|simpl; unfold MAXARGS; lia]. }
    split; [apply Ht; chars|]. split; [apply Ht; chars|apply Hw; chars]. }
  rewrite (shell_runs (λ _ _, true) _ [97; 124; 98; 62; 99] demo_tbl 0 Hok); [reflexivity| |apply shape_std].
  simpl. apply (sp_word [] [97]); [constructor|apply Hw; chars|reflexivity|]. apply (sp_sym [] 124); [constructor|chars|done|].
  apply (sp_word [] [98]); [constructor|apply Hw; chars|reflexivity|]. apply (sp_sym [] 62); [constructor|chars|done|].
  apply (sp_word [] [99] [] []); [constructor|apply Hw; chars|exact I|]. apply (sp_nil []). constructor.
Defined.
